(* ===== verification/_CoqProject ===== *)
-Q . S2P
Prelude.v
Bytes.v
Crc.v
Files.v
IoBackend.v
LogFormat.v
LogWriter.v
LogRecover.v
Hint.v
F64.v
ZsetFormat.v
Assoc.v
ZsetNode.v
ZsetStore.v
ZsetTree.v
ZsetTreeProof.v
ZsetTreeInsert.v
ZsetTreeRemove.v
ZsetCommit.v
ZsetArena.v
ZsetCommitProof.v
ZsetTx.v
ZsetOps.v
ZsetOpsProof.v
ZsetReads.v
ZsetHistory.v
ZsetMaintain.v
ZsetFrames.v
ZsetBulk.v
ZsetBulkProof.v
ZsetDir.v
ZsetApply.v
ZsetReplay.v
ZsetBase.v
ZsetCompact.v
ZsetContract.v
ZsetRebuild.v
ZsetFindings.v
Sidecar.v
ProbTxn.v
ProbTxnProof.v
Bloom.v
BloomProof.v
BloomContract.v
Cms.v
CmsProof.v
CmsContract.v
Cuckoo.v
CuckooProof.v
CuckooContract.v
TopK.v
TopKHeap.v
TopKProof.v
TopKContract.v
