(* ===== verification/Prelude.v ===== *)
(** * FerricStore native storage engine: verification library

    FerricStore keeps its data in native (Rust) libraries called from an Elixir server.
    This library models the storage engine of
    apps/ferricstore/native/ferricstore_bitcask/src: the append-only record log with its
    writer, readers and crash recovery, the hint files built from it, the sorted-set files
    of zset_tree, and the probabilistic sidecar files with their mutation receipts (bloom
    filters, count-min sketches, cuckoo filters, top-k lists).  Rust functions are Rocq
    functions over explicit state; paths below are relative to that directory.

    ** Conventions

    A fallible function returns [result]: [Ok], [Err] with the message, or [Panic].
    Code that changes a file is in [SR S A := S -> result A * S], with [let!] for [?];
    errors keep the state reached, as a failing Rust call does.  Integers are [Z], with
    the wrap of their width written out ([add64], [sub64], [wrap64]); bytes are
    [list byte]; an f64 is its 64-bit pattern.  Files are byte lists, and a disk carries
    the list of failures that the next system calls meet ([IoBackend.Disk]), so a theorem
    about all disks covers short writes, failed syncs and failed truncations at any point.
    crc32fast, sha2 and xxhash_rust are not part of the sources.  They are the classes
    [Crc32fast] and [Sha256], with their documented laws, and [Xxh3], of which nothing is
    assumed; the witnesses use a bitwise CRC-32, a digest that keeps its input and a sum.

    Loops that are not structural take fuel computed from the input (file lengths, list
    lengths); the theorems show that it is never used up.  [DEPTH] bounds the descent in a
    sorted-set tree by 64 levels: each level doubles the entries below it at least, and
    counts are 64-bit.

    ** The record log

    - Bytes.v, Crc.v: little-endian fields, byte order, checksums.
    - Files.v, IoBackend.v: read handles that return short or interrupted reads, and the
      synchronous backend of io_backend/mod.rs (buffered appends, sync, rollback).
    - LogFormat.v (sections/log_part_01.rs, log_part_02.rs): record encoding and the
      sequential, metadata and positional readers.  Encoding and reading are inverse, what
      a reader returns is what is stored under a matching checksum, and all readers agree.
    - LogWriter.v (log_part_01.rs, log_part_03.rs): the write paths of LogWriter, single,
      batched and pre-encoded, and copy_record_raw.  A call appends all of its records or
      none, or reports that its rollback failed and leaves a first part of them; sessions
      keep what was acknowledged, also behind such a part.
    - LogRecover.v (log_part_02.rs, log_part_03.rs): scans, paging, the checkpoint digest
      and recover_torn_tail.  Recovery never cuts a readable record, succeeds on empty or
      torn tails, and undoes an interrupted append or refuses and leaves the file alone.
    - Hint.v (hint.rs, sections/part_02.rs): hint files written by temporary file, sync and
      rename, read in pages, and built from a sealed log.

    ** Sorted sets (zset_tree)

    One file holds two copy-on-write B+trees, by score and by member, as a sequence of
    frames; a header slot names the newest.
    - F64.v, ZsetFormat.v (format.rs): score keys that sort as bytes, slots, frame headers,
      trailers, logged changes and undo logs, with their round trips.
    - ZsetNode.v (node.rs): leaf, branch and overflow pages and the in-place page view.
    - Assoc.v: sorted association lists, the abstract trees.
    - ZsetStore.v (store.rs): reads and writes of an open file, slots, the newest state.
    - ZsetTree.v (tree.rs) with ZsetTreeProof.v, ZsetTreeInsert.v and ZsetTreeRemove.v:
      transactions refine two ordered maps through splits and merges.
    - ZsetCommit.v (Tx::commit), ZsetArena.v, ZsetCommitProof.v, ZsetTx.v: a commit is
      atomic whatever the disk does, and succeeds on a healthy one.
    - ZsetOps.v (ops.rs) with ZsetOpsProof.v and ZsetReads.v: batches and reads refine a
      finite map from members to scores.
    - ZsetHistory.v, ZsetMaintain.v (maintain.rs), ZsetFrames.v: logged changes, the walks
      over frames, and what rewinding, recovery and sync do to the list of frames.
    - ZsetBulk.v (Bulk and write_base of maintain.rs), ZsetDir.v (mod.rs and the calls of
      maintain.rs that take a path) and ZsetApply.v: batches by path.
    - ZsetReplay.v: a batch depends only on the frames before its token, so that a replay
      gives the same answer and the same frame whatever came between.
    - ZsetBulkProof.v, ZsetBase.v: the base frame that write_base packs holds the set of
      its source; only a failing disk or a node over its page stops it.
    - ZsetContract.v: the contract of the component; ZsetFindings.v: two sorted sets on
      which a node outgrows its page.
    - ZsetCompact.v, ZsetRebuild.v: compaction beside writers and rewinds below the base
      keep the sets and the replayable changes, whatever fails, and the frames of a file
      stay ordered by token.

    ** Probabilistic sidecars

    A filter, sketch or list is one file beside the log.  Replicated mutations carry a token
    and leave a receipt, so that replaying an entry answers as the first time.
    - Sidecar.v (sections/part_01.rs): a directory of files in which every system call can
      fail, locked opening, positioned writes, staged creation.
    - ProbTxn.v, ProbTxnProof.v (prob_txn.rs): the receipt codec, begin, commit, recovery
      and compaction.  Whatever call fails, the next operation finds the mutation undone or
      complete.  There are two exceptions: a write cut inside the 16 bytes of the token, and
      a power failure that keeps the token's page and loses others before the sync.
    - Bloom.v, BloomProof.v, BloomContract.v (bloom.rs): queries answer for the set of
      added elements, batches equal single additions, entries are applied once.
    - Cms.v, CmsProof.v, CmsContract.v (cms.rs): increments and merges are exact on the
      matrix of counters or refused when a sum does not fit, and estimates lie between the
      true count and the total.
    - Cuckoo.v, CuckooProof.v, CuckooContract.v (cuckoo.rs, sections/cuckoo_part_*.rs): a
      filter is a bag of signatures; evictions neither lose nor invent an element, and an
      insertion is refused only when both of its buckets are full.
    - TopK.v, TopKHeap.v, TopKProof.v, TopKContract.v (topk.rs): the indexed heap keeps the
      elements with the largest estimates, so an element that is missing from the list was
      added no more often than any listed one is estimated at.

    ** Not modelled

    Besides bindings to the Erlang runtime and the operating system (io_backend/uring.rs,
    path_open.rs, fs_nif.rs, async_io.rs, tracking_alloc.rs, system_capacity.rs and the term
    conversion of zset_tree/nif.rs), these parts are code of their own that the library does
    not cover yet:
    - the NIFs over the log in sections/part_01.rs to part_05.rs, apart from the hint files:
      scans for tombstones and key states, copies of record lists, batched reads;
    - the LMDB store of sections/part_04.rs with prefix_merge.rs, flow_composite_codec.rs
      and flow_physical_key.rs;
    - flow_index.rs and raft_command_codec.rs;
    - the libraries ferricstore_wal_nif and native_protocol_nif.
    Locks are modelled as the order of calls, and an allocation always succeeds. *)

From Stdlib Require Import ZArith Lia.
From Stdlib Require Export Strings.Byte.
From stdpp Require Export base list numbers strings pretty gmap sorting.

#[global] Open Scope Z_scope.

(** ** Outcomes of Rust code

    [Ok] and [Err] are the two constructors of [Result<_, String>]; every error
    type of the modelled modules is a newtype over [String], so an error is its
    message.  [Panic] is an unwinding panic (index out of range, [unwrap] of
    [None], [unreachable!]), which no [?] and no [match] on a [Result] catches. *)

Inductive result (A : Type) : Type :=
| Ok (a : A)
| Err (e : string)
| Panic.
Arguments Ok {A} a.
Arguments Err {A} e.
Arguments Panic {A}.

Definition rbind {A B : Type} (r : result A) (k : A -> result B) : result B :=
  match r with
  | Ok a => k a
  | Err e => Err e
  | Panic => Panic
  end.

(** [Option::ok_or]. *)
Definition ok_or {A : Type} (o : option A) (e : string) : result A :=
  match o with
  | Some a => Ok a
  | None => Err e
  end.

(** [Option::unwrap], [Option::expect] and slice indexing. *)
Definition unwrap {A : Type} (o : option A) : result A :=
  match o with
  | Some a => Ok a
  | None => Panic
  end.

(** [Result::ok]. *)
Definition rok {A : Type} (r : result A) : result (option A) :=
  match r with
  | Ok a => Ok (Some a)
  | Err _ => Ok None
  | Panic => Panic
  end.

(** ** Stateful fallible code

    [SR S A] is code that mutates an [S] and returns a [Result<A, _>]: the state
    reached is kept on errors too, as a [&mut] borrow does. *)

Definition SR (S A : Type) : Type := S -> result A * S.

Definition sret {S A : Type} (a : A) : SR S A := fun s => (Ok a, s).
Definition serr {S A : Type} (e : string) : SR S A := fun s => (Err e, s).
Definition sbind {S A B : Type} (m : SR S A) (k : A -> SR S B) : SR S B :=
  fun s =>
    match m s with
    | (Ok a, s') => k a s'
    | (Err e, s') => (Err e, s')
    | (Panic, s') => (Panic, s')
    end.
Definition sget {S : Type} : SR S S := fun s => (Ok s, s).
Definition sput {S : Type} (s : S) : SR S unit := fun _ => (Ok tt, s).
Definition slift {S A : Type} (r : result A) : SR S A := fun s => (r, s).

Declare Scope rust_scope.
Delimit Scope rust_scope with rust.
Notation "'let?' x := e 'in' k" := (rbind e (fun x => k))
  (at level 10, x pattern, e at level 200, k at level 200) : rust_scope.
Notation "'let!' x := e 'in' k" := (sbind e (fun x => k))
  (at level 10, x pattern, e at level 200, k at level 200) : rust_scope.
#[global] Open Scope rust_scope.

(** ** Machine integers (all targets are 64-bit: [usize] is [u64]) *)

Definition u8_max : Z := 255.
Definition u16_max : Z := 65535.
Definition u32_max : Z := 4294967295.
Definition u64_max : Z := 18446744073709551615.
Definition i64_min : Z := -9223372036854775808.
Definition i64_max : Z := 9223372036854775807.

Definition u8_ok (z : Z) : Prop := 0 <= z <= u8_max.
Definition u16_ok (z : Z) : Prop := 0 <= z <= u16_max.
Definition u32_ok (z : Z) : Prop := 0 <= z <= u32_max.
Definition u64_ok (z : Z) : Prop := 0 <= z <= u64_max.

(** Release builds wrap on overflow. *)
Definition wrap64 (z : Z) : Z := z mod 18446744073709551616.
Definition add64 (a b : Z) : Z := wrap64 (a + b).
Definition sub64 (a b : Z) : Z := wrap64 (a - b).
Definition checked_add64 (a b : Z) : option Z :=
  if a + b <=? u64_max then Some (a + b) else None.
Definition checked_sub64 (a b : Z) : option Z :=
  if b <=? a then Some (a - b) else None.
Definition saturating_add64 (a b : Z) : Z := Z.min (a + b) u64_max.
Definition saturating_sub64 (a b : Z) : Z := Z.max (a - b) 0.
Definition sum64 (l : list Z) : Z := fold_left add64 l 0.

Lemma wrap64_small z : 0 <= z <= u64_max -> wrap64 z = z.
Proof. unfold wrap64, u64_max. intros. apply Z.mod_small. lia. Qed.
Lemma add64_small a b : 0 <= a + b <= u64_max -> add64 a b = a + b.
Proof. apply wrap64_small. Qed.
Lemma sub64_small a b : 0 <= a - b <= u64_max -> sub64 a b = a - b.
Proof. apply wrap64_small. Qed.

(** ** Slices

    Lengths and offsets are integers; [ztake] and [zdrop] recurse on the list, so
    that evaluation never builds a length read from a corrupt header. *)

Definition len {A : Type} (l : list A) : Z := Z.of_nat (length l).

Fixpoint ztake {A : Type} (n : Z) (l : list A) : list A :=
  match l with
  | [] => []
  | x :: l => if n <=? 0 then [] else x :: ztake (n - 1) l
  end.

Fixpoint zdrop {A : Type} (n : Z) (l : list A) : list A :=
  match l with
  | [] => []
  | x :: l' => if n <=? 0 then l else zdrop (n - 1) l'
  end.

(** [l[a..b]] for bounds the code has established. *)
Definition zslice {A : Type} (l : list A) (a b : Z) : list A := ztake (b - a) (zdrop a l).

(** [l.get(a..b)]. *)
Definition get_range {A : Type} (l : list A) (a b : Z) : option (list A) :=
  if (0 <=? a) && (a <=? b) && (b <=? len l) then Some (zslice l a b) else None.

(** [l.get(i)]. *)
Fixpoint znth {A : Type} (l : list A) (i : Z) : option A :=
  match l with
  | [] => None
  | x :: l => if i =? 0 then Some x else if i <? 0 then None else znth l (i - 1)
  end.

(** [buf[at..at + src.len()].copy_from_slice(src)]. *)
Definition copy_from_slice {A : Type} (buf : list A) (at_ : Z) (src : list A) : list A :=
  ztake at_ buf ++ src ++ zdrop (at_ + len src) buf.

(** [Vec::resize(n, x)]. *)
Definition resize {A : Type} (n : nat) (x : A) (l : list A) : list A :=
  take n l ++ replicate (n - length l) x.

(** [Vec::insert(i, x)] and [Vec::remove(i)]. *)
Definition insert_at {A : Type} (i : nat) (x : A) (l : list A) : list A := take i l ++ x :: drop i l.
Definition remove_at {A : Type} (i : nat) (l : list A) : list A := take i l ++ drop (S i) l.

(** ** Lemmas on slices *)

Create Rewrite HintDb zlen.
#[export] Hint Rewrite Nat2Z.inj_add Nat2Z.inj_succ : zlen.

Lemma len_nil {A : Type} : len (@nil A) = 0.
Proof. done. Qed.
Lemma len_cons {A : Type} (x : A) l : len (x :: l) = len l + 1.
Proof. unfold len. simpl. lia. Qed.
Lemma len_app {A : Type} (l1 l2 : list A) : len (l1 ++ l2) = len l1 + len l2.
Proof. unfold len. rewrite length_app. lia. Qed.
Lemma len_nonneg {A : Type} (l : list A) : 0 <= len l.
Proof. unfold len. lia. Qed.
Lemma len_replicate {A : Type} n (x : A) : len (replicate n x) = Z.of_nat n.
Proof. unfold len. by rewrite length_replicate. Qed.
Lemma len_zero {A : Type} (l : list A) : len l = 0 -> l = [].
Proof. destruct l; [done|]. rewrite len_cons. pose proof (len_nonneg l). lia. Qed.
Lemma len_map {A B : Type} (f : A -> B) l : len (map f l) = len l.
Proof. unfold len. by rewrite length_map. Qed.
Lemma len_fmap {A B : Type} (f : A -> B) (l : list A) : len (f <$> l) = len l.
Proof. unfold len. by rewrite length_fmap. Qed.
Lemma len_reverse {A : Type} (l : list A) : len (reverse l) = len l.
Proof. unfold len. by rewrite length_reverse. Qed.
Lemma len_to_nat {A : Type} (l : list A) : Z.to_nat (len l) = length l.
Proof. unfold len. lia. Qed.

Lemma ztake_take {A : Type} n (l : list A) : ztake n l = take (Z.to_nat n) l.
Proof.
  revert n; induction l as [|x l IH]; intros n; simpl; [by rewrite take_nil|].
  destruct (Z.leb_spec n 0).
  - by replace (Z.to_nat n) with 0%nat by lia.
  - replace (Z.to_nat n) with (S (Z.to_nat (n - 1))) by lia. simpl. by rewrite IH.
Qed.

Lemma zdrop_drop {A : Type} n (l : list A) : zdrop n l = drop (Z.to_nat n) l.
Proof.
  revert n; induction l as [|x l IH]; intros n; simpl; [by rewrite drop_nil|].
  destruct (Z.leb_spec n 0).
  - by replace (Z.to_nat n) with 0%nat by lia.
  - replace (Z.to_nat n) with (S (Z.to_nat (n - 1))) by lia. simpl. by rewrite IH.
Qed.

Lemma ztake_prefix {A : Type} n (l : list A) : ztake n l `prefix_of` l.
Proof. rewrite ztake_take. exists (drop (Z.to_nat n) l). by rewrite take_drop. Qed.

Lemma znth_lookup {A : Type} (l : list A) i : 0 <= i -> znth l i = l !! Z.to_nat i.
Proof.
  revert i; induction l as [|x l IH]; intros i Hi; simpl; [done|].
  destruct (Z.eqb_spec i 0) as [->|]; [done|].
  destruct (Z.ltb_spec i 0); [lia|].
  replace (Z.to_nat i) with (S (Z.to_nat (i - 1))) by lia. simpl. apply IH. lia.
Qed.

Lemma len_ztake {A : Type} n (l : list A) : 0 <= n -> len (ztake n l) = Z.min n (len l).
Proof. intros. rewrite ztake_take. unfold len. rewrite length_take. lia. Qed.
Lemma len_zdrop {A : Type} n (l : list A) : 0 <= n -> len (zdrop n l) = Z.max 0 (len l - n).
Proof. intros. rewrite zdrop_drop. unfold len. rewrite length_drop. lia. Qed.
Lemma len_zslice {A : Type} (l : list A) a b :
  0 <= a -> a <= b -> b <= len l -> len (zslice l a b) = b - a.
Proof. intros. unfold zslice. rewrite len_ztake, len_zdrop by lia. lia. Qed.

Lemma ztake_zdrop {A : Type} n (l : list A) : ztake n l ++ zdrop n l = l.
Proof. rewrite ztake_take, zdrop_drop. apply take_drop. Qed.
Lemma ztake_nil {A : Type} n : ztake n (@nil A) = [].
Proof. rewrite ztake_take. apply take_nil. Qed.
Lemma zdrop_nil {A : Type} n : zdrop n (@nil A) = [].
Proof. rewrite zdrop_drop. apply drop_nil. Qed.
Lemma ztake_0 {A : Type} n (l : list A) : n <= 0 -> ztake n l = [].
Proof. intros. rewrite ztake_take. by replace (Z.to_nat n) with 0%nat by lia. Qed.
Lemma zdrop_0 {A : Type} n (l : list A) : n <= 0 -> zdrop n l = l.
Proof. intros. rewrite zdrop_drop. by replace (Z.to_nat n) with 0%nat by lia. Qed.
Lemma ztake_ge {A : Type} n (l : list A) : len l <= n -> ztake n l = l.
Proof. intros. rewrite ztake_take. apply take_ge. unfold len in *. lia. Qed.
Lemma zdrop_ge {A : Type} n (l : list A) : len l <= n -> zdrop n l = [].
Proof. intros. rewrite zdrop_drop. apply drop_ge. unfold len in *. lia. Qed.

Lemma ztake_app_le {A : Type} n (l1 l2 : list A) : n <= len l1 -> ztake n (l1 ++ l2) = ztake n l1.
Proof. intros. rewrite !ztake_take, take_app_le; [done|]. unfold len in *. lia. Qed.
Lemma ztake_app_ge {A : Type} n (l1 l2 : list A) :
  len l1 <= n -> ztake n (l1 ++ l2) = l1 ++ ztake (n - len l1) l2.
Proof.
  intros. rewrite !ztake_take, take_app_ge by (unfold len in *; lia).
  do 2 f_equal. unfold len. lia.
Qed.
Lemma zdrop_app_le {A : Type} n (l1 l2 : list A) : n <= len l1 -> zdrop n (l1 ++ l2) = zdrop n l1 ++ l2.
Proof. intros. rewrite !zdrop_drop, drop_app_le; [done|]. unfold len in *. lia. Qed.
Lemma zdrop_app_ge {A : Type} n (l1 l2 : list A) :
  len l1 <= n -> zdrop n (l1 ++ l2) = zdrop (n - len l1) l2.
Proof.
  intros. rewrite !zdrop_drop, drop_app_ge by (unfold len in *; lia).
  f_equal. unfold len. lia.
Qed.
Lemma zdrop_zdrop {A : Type} n m (l : list A) :
  0 <= n -> 0 <= m -> zdrop n (zdrop m l) = zdrop (m + n) l.
Proof. intros. rewrite !zdrop_drop, drop_drop. f_equal. lia. Qed.
Lemma ztake_split {A : Type} n m (l : list A) :
  0 <= n -> 0 <= m -> ztake n l ++ ztake m (zdrop n l) = ztake (n + m) l.
Proof.
  intros. rewrite !ztake_take, !zdrop_drop. rewrite Z2Nat.inj_add by lia. apply take_take_drop.
Qed.
Lemma ztake_ztake {A : Type} n m (l : list A) : ztake n (ztake m l) = ztake (Z.min n m) l.
Proof. rewrite !ztake_take, take_take. f_equal. lia. Qed.
Lemma zdrop_ztake {A : Type} n m (l : list A) :
  0 <= n -> 0 <= m -> zdrop n (ztake m l) = ztake (m - n) (zdrop n l).
Proof.
  intros. rewrite !ztake_take, !zdrop_drop.
  destruct (decide (n <= m)).
  - replace (Z.to_nat m) with (Z.to_nat n + Z.to_nat (m - n))%nat by lia. by rewrite take_drop_commute.
  - replace (Z.to_nat (m - n)) with 0%nat by lia. simpl. apply drop_ge. rewrite length_take. lia.
Qed.

Lemma zslice_app_skip {A : Type} (l1 l2 : list A) a b :
  len l1 <= a -> zslice (l1 ++ l2) a b = zslice l2 (a - len l1) (b - len l1).
Proof. intros. unfold zslice. rewrite zdrop_app_ge by done. f_equal. lia. Qed.
Lemma zslice_app_take {A : Type} (l1 l2 : list A) a b :
  0 <= a -> a <= b -> b <= len l1 -> zslice (l1 ++ l2) a b = zslice l1 a b.
Proof.
  intros. unfold zslice. rewrite zdrop_app_le by lia.
  rewrite ztake_app_le; [done|]. rewrite len_zdrop by lia. lia.
Qed.
Lemma zslice_full {A : Type} (l : list A) a b : a <= 0 -> len l <= b - a -> zslice l a b = l.
Proof. intros. unfold zslice. rewrite zdrop_0 by lia. by apply ztake_ge. Qed.
Lemma zslice_app_exact {A : Type} (l1 l2 : list A) b : b = len l1 -> zslice (l1 ++ l2) 0 b = l1.
Proof.
  intros ->. pose proof (len_nonneg l1).
  rewrite zslice_app_take by lia. apply zslice_full; lia.
Qed.
Lemma zslice_app {A : Type} (l1 l2 : list A) a b :
  0 <= a -> zslice (l1 ++ l2) a b = zslice l1 a (Z.min b (len l1)) ++ zslice l2 (Z.max (a - len l1) 0) (b - len l1).
Proof.
  intros Ha. unfold zslice. destruct (Z.le_gt_cases a (len l1)) as [H|H].
  - rewrite zdrop_app_le by lia. rewrite (Z.max_r (a - len l1)), (zdrop_0 0 l2) by lia.
    destruct (Z.le_gt_cases b (len l1)).
    + rewrite Z.min_l by lia. rewrite (ztake_0 _ l2) by lia. rewrite app_nil_r.
      apply ztake_app_le. rewrite len_zdrop by lia. lia.
    + rewrite Z.min_r by lia. rewrite ztake_app_ge by (rewrite len_zdrop; lia). rewrite len_zdrop by lia.
      rewrite (ztake_ge _ (zdrop a l1)) by (rewrite len_zdrop; lia). f_equal. f_equal. lia.
  - rewrite zdrop_app_ge by lia. rewrite (zdrop_ge a l1), ztake_nil by lia. cbn [app].
    rewrite Z.max_l by lia. f_equal. lia.
Qed.
Lemma zslice_join {A : Type} (l : list A) a b c :
  0 <= a -> a <= b -> b <= c -> zslice l a b ++ zslice l b c = zslice l a c.
Proof.
  intros. unfold zslice.
  replace (zdrop b l) with (zdrop (b - a) (zdrop a l))
    by (rewrite zdrop_zdrop by lia; f_equal; lia).
  generalize (zdrop a l) as m. intros m. rewrite !ztake_take, !zdrop_drop.
  replace (Z.to_nat (c - a)) with (Z.to_nat (b - a) + Z.to_nat (c - b))%nat by lia.
  rewrite <- (take_drop (Z.to_nat (b - a)) (take (Z.to_nat (b - a) + Z.to_nat (c - b)) m)).
  rewrite take_take, Nat.min_l by lia. f_equal. rewrite skipn_firstn_comm. f_equal. lia.
Qed.
Lemma zslice_sub {A : Type} (l : list A) s e a b : 0 <= s -> s <= a -> b <= e -> zslice l a b = zslice (zslice l s e) (a - s) (b - s).
Proof.
  intros. unfold zslice. destruct (Z.le_gt_cases a b); [|by rewrite !ztake_0 by lia]. rewrite zdrop_ztake, zdrop_zdrop, ztake_ztake by lia.
  f_equal; [lia|]. f_equal. lia.
Qed.

Lemma get_range_Some {A : Type} (l : list A) a b :
  0 <= a -> a <= b -> b <= len l -> get_range l a b = Some (zslice l a b).
Proof.
  intros. unfold get_range.
  by rewrite (proj2 (Z.leb_le 0 a)), (proj2 (Z.leb_le a b)), (proj2 (Z.leb_le b (len l))).
Qed.
Lemma get_range_inv {A : Type} (l : list A) a b s :
  get_range l a b = Some s -> 0 <= a /\ a <= b /\ b <= len l /\ s = zslice l a b.
Proof.
  unfold get_range. intros H.
  destruct (Z.leb_spec 0 a), (Z.leb_spec a b), (Z.leb_spec b (len l)); simpl in H;
    try discriminate. by simplify_eq.
Qed.
Lemma len_resize {A : Type} n (x : A) l : length (resize n x l) = n.
Proof. unfold resize. rewrite length_app, length_take, length_replicate. lia. Qed.

#[export] Hint Rewrite @len_nil @len_cons @len_app @len_replicate @len_map @len_fmap @len_reverse : zlen.
#[export] Hint Rewrite @len_ztake @len_zdrop using lia : zlen.

(** [zlia] is [lia] after pushing [len] through list constructors. *)
Ltac len_facts :=
  repeat match goal with
         | |- context [len ?l] =>
             lazymatch goal with
             | _ : 0 <= len l |- _ => fail
             | _ => pose proof (len_nonneg l)
             end
         | _ : context [len ?l] |- _ =>
             lazymatch goal with
             | _ : 0 <= len l |- _ => fail
             | _ => pose proof (len_nonneg l)
             end
         end.
Ltac zlia := autorewrite with zlen in *; len_facts; lia.

(** [zslices] computes slices of concatenations whose pieces have known length. *)
Ltac zslices :=
  repeat first
    [ rewrite zslice_app_exact by zlia
    | rewrite zslice_app_skip by zlia
    | rewrite zslice_app_take by zlia
    | rewrite zslice_full by zlia
    | rewrite get_range_Some by zlia
    | rewrite ztake_0 by zlia
    | rewrite zdrop_0 by zlia
    | rewrite ztake_ge by zlia
    | rewrite zdrop_ge by zlia
    | rewrite ztake_app_ge by zlia
    | rewrite zdrop_app_ge by zlia
    | rewrite ztake_app_le by zlia
    | rewrite zdrop_app_le by zlia ].

#[global] Arguments ztake : simpl never.
#[global] Arguments zdrop : simpl never.
#[global] Arguments znth : simpl never.
#[global] Arguments len : simpl never.

(** ** Running stateful code *)

Lemma sbind_Ok {S A B : Type} (m : SR S A) (k : A -> SR S B) s a s' :
  m s = (Ok a, s') -> sbind m k s = k a s'.
Proof. intros H. unfold sbind. by rewrite H. Qed.
Lemma sbind_Err {S A B : Type} (m : SR S A) (k : A -> SR S B) s e s' :
  m s = (Err e, s') -> sbind m k s = (Err e, s').
Proof. intros H. unfold sbind. by rewrite H. Qed.
Lemma sbind_slift_Ok {S A B : Type} (a : A) (k : A -> SR S B) s : sbind (slift (Ok a)) k s = k a s.
Proof. done. Qed.
Lemma sbind_inv {S A B : Type} (m : SR S A) (k : A -> SR S B) s b s' :
  sbind m k s = (Ok b, s') -> exists a s1, m s = (Ok a, s1) /\ k a s1 = (Ok b, s').
Proof. unfold sbind. destruct (m s) as [[a|e|] s1]; intros H; [by eauto|done|done]. Qed.
Lemma sbind_assoc {S A B D : Type} (m : SR S A) (k : A -> SR S B) (g : B -> SR S D) s :
  sbind m (fun a => sbind (k a) g) s = sbind (sbind m k) g s.
Proof. unfold sbind. by destruct (m s) as [[a|e|] s1]. Qed.
