(* ===== verification/Bytes.v ===== *)
(** * Bytes, integers at their width, and byte-string order

    [u8] is [Byte.byte].  [to_le_bytes]/[from_le_bytes] and their big-endian
    twins are [le_bytes]/[le_val] and [be_bytes]/[be_val], indexed by the width in
    bytes.  [bytes_compare] is Rust's [Ord] on [[u8]] (lexicographic). *)

From Stdlib Require Import ZArith Lia.
From S2P Require Import Prelude.

Abbreviation byte := Byte.byte.
Abbreviation bytes := (list Byte.byte).

#[export] Instance byte_eq_decision : EqDecision byte := Byte.byte_eq_dec.

Definition byte_val (b : byte) : Z := Z.of_N (Byte.to_N b).
Definition byte_of (z : Z) : byte :=
  match Byte.of_N (Z.to_N (z mod 256)) with
  | Some b => b
  | None => x00
  end.

Fixpoint le_bytes (n : nat) (z : Z) : bytes :=
  match n with
  | O => []
  | S n => byte_of z :: le_bytes n (z / 256)
  end.

Fixpoint le_val (l : bytes) : Z :=
  match l with
  | [] => 0
  | b :: l => byte_val b + 256 * le_val l
  end.

Definition be_bytes (n : nat) (z : Z) : bytes := reverse (le_bytes n z).
Definition be_val (l : bytes) : Z := le_val (reverse l).

(** Byte-string literals [b"..."]. *)
Definition lit (s : string) : bytes := String.list_byte_of_string s.

(** Lexicographic order, as [<[u8] as Ord>::cmp]. *)
Fixpoint bytes_compare (a b : bytes) : comparison :=
  match a, b with
  | [], [] => Eq
  | [], _ :: _ => Lt
  | _ :: _, [] => Gt
  | x :: a, y :: b =>
      match byte_val x ?= byte_val y with
      | Eq => bytes_compare a b
      | c => c
      end
  end.

Definition bytes_eqb (a b : bytes) : bool :=
  match bytes_compare a b with Eq => true | _ => false end.
Definition bytes_ltb (a b : bytes) : bool :=
  match bytes_compare a b with Lt => true | _ => false end.
Definition bytes_leb (a b : bytes) : bool :=
  match bytes_compare a b with Gt => false | _ => true end.
Definition bytes_lt (a b : bytes) : Prop := bytes_compare a b = Lt.
Definition bytes_le (a b : bytes) : Prop := bytes_compare a b <> Gt.

(** [slice.starts_with(prefix)] and [slice.strip_prefix(prefix)]. *)
Fixpoint strip_prefix (p l : bytes) : option bytes :=
  match p, l with
  | [], _ => Some l
  | x :: p, y :: l => if decide (x = y) then strip_prefix p l else None
  | _ :: _, [] => None
  end.
Definition starts_with (p l : bytes) : bool :=
  match strip_prefix p l with Some _ => true | None => false end.

(** ** Values and widths *)

Lemma byte_val_range b : 0 <= byte_val b < 256.
Proof.
  unfold byte_val. pose proof (Byte.to_N_bounded b). lia.
Qed.

Lemma byte_val_of z : byte_val (byte_of z) = z mod 256.
Proof.
  unfold byte_val, byte_of. pose proof (Z.mod_pos_bound z 256 eq_refl).
  destruct (Byte.of_N (Z.to_N (z mod 256))) eqn:E.
  - apply Byte.to_of_N in E. rewrite E. lia.
  - apply Byte.of_N_None_iff in E. lia.
Qed.

Lemma byte_val_inj a b : byte_val a = byte_val b -> a = b.
Proof.
  unfold byte_val. intros H. apply N2Z.inj in H.
  pose proof (Byte.of_to_N a) as Ha. pose proof (Byte.of_to_N b) as Hb. congruence.
Qed.

Lemma byte_of_val b : byte_of (byte_val b) = b.
Proof.
  apply byte_val_inj. rewrite byte_val_of. apply Z.mod_small, byte_val_range.
Qed.

Lemma length_le_bytes n z : length (le_bytes n z) = n.
Proof. revert z; induction n; intros; simpl; auto. Qed.
Lemma length_be_bytes n z : length (be_bytes n z) = n.
Proof. unfold be_bytes. by rewrite length_reverse, length_le_bytes. Qed.
Lemma len_le_bytes n z : len (le_bytes n z) = Z.of_nat n.
Proof. unfold len. by rewrite length_le_bytes. Qed.
Lemma len_be_bytes n z : len (be_bytes n z) = Z.of_nat n.
Proof. unfold len. by rewrite length_be_bytes. Qed.
#[export] Hint Rewrite len_le_bytes len_be_bytes : zlen.

Lemma le_val_le_bytes n z : le_val (le_bytes n z) = z mod 256 ^ Z.of_nat n.
Proof.
  revert z; induction n as [|n IH]; intros z.
  - simpl. by rewrite Z.mod_1_r.
  - cbn [le_bytes le_val]. rewrite IH, byte_val_of.
    rewrite Nat2Z.inj_succ, Z.pow_succ_r by lia.
    rewrite Z.rem_mul_r; lia.
Qed.

Lemma le_val_range l : 0 <= le_val l < 256 ^ len l.
Proof.
  induction l as [|b l IH]; [done|].
  rewrite len_cons, Z.pow_add_r by (pose proof (len_nonneg l); lia).
  cbn [le_val]. pose proof (byte_val_range b). lia.
Qed.

Lemma le_bytes_le_val l : le_bytes (length l) (le_val l) = l.
Proof.
  induction l as [|b l IH]; [done|]. cbn [length le_bytes le_val].
  pose proof (byte_val_range b). f_equal.
  - apply byte_val_inj. rewrite byte_val_of.
    rewrite Z.add_mod, Z.mul_comm, Z.mod_mul, Z.add_0_r, Z.mod_mod by lia.
    by rewrite Z.mod_small.
  - rewrite <- (Z.div_unique (byte_val b + 256 * le_val l) 256 (le_val l) (byte_val b)); [done|lia|lia].
Qed.

Lemma le_bytes_of l n : len l = Z.of_nat n -> le_bytes n (le_val l) = l.
Proof. intros H. replace n with (length l) by (unfold len in H; lia). apply le_bytes_le_val. Qed.

Lemma be_val_be_bytes n z : be_val (be_bytes n z) = z mod 256 ^ Z.of_nat n.
Proof. unfold be_val, be_bytes. by rewrite reverse_involutive, le_val_le_bytes. Qed.

Lemma be_bytes_be_val l : be_bytes (length l) (be_val l) = l.
Proof.
  unfold be_val, be_bytes. rewrite <- (length_reverse l), le_bytes_le_val.
  apply reverse_involutive.
Qed.

Lemma be_val_range l : 0 <= be_val l < 256 ^ len l.
Proof. unfold be_val. rewrite <- (len_reverse l). apply le_val_range. Qed.

(** The widths the code uses. *)
Lemma le_val_u16 z : u16_ok z -> le_val (le_bytes 2 z) = z.
Proof. intros H. rewrite le_val_le_bytes. apply Z.mod_small. unfold u16_ok, u16_max in H. lia. Qed.
Lemma le_val_u32 z : u32_ok z -> le_val (le_bytes 4 z) = z.
Proof. intros H. rewrite le_val_le_bytes. apply Z.mod_small. unfold u32_ok, u32_max in H. lia. Qed.
Lemma le_val_u64 z : u64_ok z -> le_val (le_bytes 8 z) = z.
Proof. intros H. rewrite le_val_le_bytes. apply Z.mod_small. unfold u64_ok, u64_max in H. lia. Qed.
Lemma be_val_u16 z : u16_ok z -> be_val (be_bytes 2 z) = z.
Proof. intros H. rewrite be_val_be_bytes. apply Z.mod_small. unfold u16_ok, u16_max in H. lia. Qed.
Lemma be_val_u32 z : u32_ok z -> be_val (be_bytes 4 z) = z.
Proof. intros H. rewrite be_val_be_bytes. apply Z.mod_small. unfold u32_ok, u32_max in H. lia. Qed.
Lemma be_val_u64 z : u64_ok z -> be_val (be_bytes 8 z) = z.
Proof. intros H. rewrite be_val_be_bytes. apply Z.mod_small. unfold u64_ok, u64_max in H. lia. Qed.

Lemma le_val_u16_ok l : len l = 2 -> u16_ok (le_val l).
Proof. intros H. pose proof (le_val_range l) as R. rewrite H in R. unfold u16_ok, u16_max. lia. Qed.
Lemma le_val_u32_ok l : len l = 4 -> u32_ok (le_val l).
Proof. intros H. pose proof (le_val_range l) as R. rewrite H in R. unfold u32_ok, u32_max. lia. Qed.
Lemma le_val_u64_ok l : len l = 8 -> u64_ok (le_val l).
Proof. intros H. pose proof (le_val_range l) as R. rewrite H in R. unfold u64_ok, u64_max. lia. Qed.

(** ** The order on byte strings *)

Lemma bytes_compare_refl a : bytes_compare a a = Eq.
Proof. induction a; simpl; [done|]. by rewrite Z.compare_refl. Qed.

Lemma bytes_compare_eq a b : bytes_compare a b = Eq <-> a = b.
Proof.
  split; [|intros ->; apply bytes_compare_refl].
  revert b; induction a as [|x a IH]; intros [|y b]; simpl; try done.
  destruct (Z.compare_spec (byte_val x) (byte_val y)); try done.
  intros Hc. f_equal; [by apply byte_val_inj|by apply IH].
Qed.

Lemma bytes_compare_antisym a b : bytes_compare b a = CompOpp (bytes_compare a b).
Proof.
  revert b; induction a as [|x a IH]; intros [|y b]; simpl; try done.
  rewrite (Z.compare_antisym (byte_val x) (byte_val y)).
  destruct (byte_val x ?= byte_val y); simpl; auto.
Qed.

Lemma bytes_compare_trans_lt a b c :
  bytes_compare a b = Lt -> bytes_compare b c = Lt -> bytes_compare a c = Lt.
Proof.
  revert b c; induction a as [|x a IH]; intros [|y b] [|z c]; simpl; try done.
  destruct (Z.compare_spec (byte_val x) (byte_val y)),
           (Z.compare_spec (byte_val y) (byte_val z)),
           (Z.compare_spec (byte_val x) (byte_val z)); intros; try done; try lia; eauto.
Qed.

#[export] Instance bytes_lt_strict : StrictOrder bytes_lt.
Proof.
  split.
  - intros a H. unfold bytes_lt in H. by rewrite bytes_compare_refl in H.
  - intros a b c. apply bytes_compare_trans_lt.
Qed.

Lemma bytes_le_lteq a b : bytes_le a b <-> bytes_lt a b \/ a = b.
Proof.
  unfold bytes_le, bytes_lt. destruct (bytes_compare a b) eqn:E; split; intros H; try done; auto.
  - right. by apply bytes_compare_eq.
  - destruct H as [?|H]; [done|]. apply bytes_compare_eq in H. congruence.
Qed.

Lemma bytes_lt_trichotomy a b : bytes_lt a b \/ a = b \/ bytes_lt b a.
Proof.
  unfold bytes_lt. rewrite (bytes_compare_antisym a b).
  destruct (bytes_compare a b) eqn:E; simpl; auto.
  right. left. by apply bytes_compare_eq.
Qed.

Lemma bytes_lt_not_le a b : bytes_lt a b <-> ~ bytes_le b a.
Proof.
  unfold bytes_le, bytes_lt. rewrite (bytes_compare_antisym a b).
  destruct (bytes_compare a b); simpl; split; intros H; try done.
  - exfalso. by apply H.
  - by intros Hc.
  - exfalso. by apply H.
Qed.

Lemma bytes_lt_irrefl a : ~ bytes_lt a a.
Proof. apply (StrictOrder_Irreflexive a). Qed.
Lemma bytes_lt_trans a b c : bytes_lt a b -> bytes_lt b c -> bytes_lt a c.
Proof. apply bytes_compare_trans_lt. Qed.
Lemma bytes_le_lt_trans a b c : bytes_le a b -> bytes_lt b c -> bytes_lt a c.
Proof. intros [?| ->]%bytes_le_lteq ?; [by eapply bytes_lt_trans|done]. Qed.
Lemma bytes_lt_le_trans a b c : bytes_lt a b -> bytes_le b c -> bytes_lt a c.
Proof. intros ? [?| ->]%bytes_le_lteq; [by eapply bytes_lt_trans|done]. Qed.
Lemma bytes_le_refl a : bytes_le a a.
Proof. unfold bytes_le. by rewrite bytes_compare_refl. Qed.
Lemma bytes_lt_le a b : bytes_lt a b -> bytes_le a b.
Proof. unfold bytes_lt, bytes_le. congruence. Qed.
Lemma bytes_le_trans a b c : bytes_le a b -> bytes_le b c -> bytes_le a c.
Proof.
  intros [?| ->]%bytes_le_lteq; [|done].
  intros. apply bytes_lt_le. by eapply bytes_lt_le_trans.
Qed.
Lemma bytes_le_antisym a b : bytes_le a b -> bytes_le b a -> a = b.
Proof.
  intros Hab Hba. destruct (bytes_lt_trichotomy a b) as [H|[H|H]]; [|done|];
    apply bytes_lt_not_le in H; done.
Qed.

Lemma bytes_eqb_spec a b : Bool.reflect (a = b) (bytes_eqb a b).
Proof.
  unfold bytes_eqb. destruct (bytes_compare a b) eqn:E; constructor;
    rewrite <- bytes_compare_eq; congruence.
Qed.
Lemma bytes_ltb_spec a b : Bool.reflect (bytes_lt a b) (bytes_ltb a b).
Proof. unfold bytes_ltb, bytes_lt. destruct (bytes_compare a b) eqn:E; by constructor. Qed.
Lemma bytes_leb_spec a b : Bool.reflect (bytes_le a b) (bytes_leb a b).
Proof.
  unfold bytes_leb, bytes_le.
  destruct (bytes_compare a b) eqn:E; constructor; try done. intros H. by apply H.
Qed.

#[export] Instance bytes_lt_dec a b : Decision (bytes_lt a b).
Proof. unfold bytes_lt. solve_decision. Defined.
#[export] Instance bytes_le_dec a b : Decision (bytes_le a b).
Proof. unfold bytes_le. solve_decision. Defined.

(** Prefixes. *)
Lemma strip_prefix_spec p l r : strip_prefix p l = Some r <-> l = p ++ r.
Proof.
  revert l; induction p as [|x p IH]; intros l; simpl.
  - split; congruence.
  - destruct l as [|y l]; [done|]. case_decide as Hxy.
    + subst y. rewrite IH. split; [by intros ->|by intros [= ->]].
    + split; [done|]. by intros [= ? ?].
Qed.

Lemma bytes_compare_app_l p a b : bytes_compare (p ++ a) (p ++ b) = bytes_compare a b.
Proof. induction p; simpl; [done|]. by rewrite Z.compare_refl. Qed.

(** Big-endian encodings of one width order as their values do. *)
Lemma bytes_compare_same_length a b c d :
  length a = length b ->
  bytes_compare (a ++ c) (b ++ d) =
    match bytes_compare a b with Eq => bytes_compare c d | o => o end.
Proof.
  revert b; induction a as [|x a IH]; intros [|y b]; simpl; try done.
  intros [= H]. destruct (byte_val x ?= byte_val y); auto.
Qed.

Lemma be_val_app a b : be_val (a ++ b) = be_val a * 256 ^ len b + be_val b.
Proof.
  unfold be_val. rewrite reverse_app. rewrite <- (len_reverse b).
  generalize (reverse a) as ra. generalize (reverse b) as rb. clear a b.
  induction rb as [|x rb IH]; intros ra; simpl.
  - rewrite len_nil. lia.
  - rewrite IH, len_cons, Z.pow_add_r by (pose proof (len_nonneg rb); lia). lia.
Qed.

Lemma be_val_cons x a : be_val (x :: a) = byte_val x * 256 ^ len a + be_val a.
Proof.
  change (x :: a) with ([x] ++ a). rewrite be_val_app. f_equal. f_equal.
  unfold be_val. simpl. lia.
Qed.

Lemma be_val_compare a b :
  length a = length b -> bytes_compare a b = (be_val a ?= be_val b).
Proof.
  revert b; induction a as [|x a IH]; intros [|y b]; try done.
  intros [= H]. simpl. rewrite !be_val_cons.
  assert (len a = len b) as Hl by (unfold len; lia). rewrite Hl.
  pose proof (be_val_range a) as Ra. pose proof (be_val_range b) as Rb. rewrite Hl in Ra.
  rewrite (IH b H).
  destruct (Z.compare_spec (byte_val x) (byte_val y)) as [->|Hlt|Hgt].
  - destruct (Z.compare_spec (be_val a) (be_val b));
      destruct (Z.compare_spec (byte_val y * 256 ^ len b + be_val a)
                               (byte_val y * 256 ^ len b + be_val b)); try done; lia.
  - symmetry. apply Z.compare_lt_iff. nia.
  - symmetry. apply Z.compare_gt_iff. nia.
Qed.

(** ** Positioned writes *)

(** [File::write_all_at]: a gap before the offset reads as zeros. *)
Definition overwrite (data : bytes) (offset : Z) (bs : bytes) : bytes :=
  let data := data ++ replicate (Z.to_nat (offset - len data)) x00 in
  ztake offset data ++ bs ++ zdrop (offset + len bs) data.

Lemma overwrite_eq data o bs : 0 <= o <= len data -> overwrite data o bs = ztake o data ++ bs ++ zdrop (o + len bs) data.
Proof. intros H. unfold overwrite. replace (Z.to_nat (o - len data)) with 0%nat by lia. cbn [replicate]. by rewrite app_nil_r. Qed.

Lemma overwrite_nil data o : 0 <= o <= len data -> overwrite data o [] = data.
Proof. intros H. rewrite overwrite_eq by done. cbn [app]. rewrite len_nil, Z.add_0_r. apply ztake_zdrop. Qed.

Lemma len_overwrite data o bs : 0 <= o <= len data -> len (overwrite data o bs) = Z.max (len data) (o + len bs).
Proof.
  intros H. rewrite overwrite_eq by done. rewrite !len_app, len_ztake, len_zdrop by (pose proof (len_nonneg bs); lia).
  pose proof (len_nonneg bs). lia.
Qed.

Lemma overwrite_before data o bs a b : 0 <= o <= len data -> 0 <= a -> b <= o -> zslice (overwrite data o bs) a b = zslice data a b.
Proof.
  intros Ho Ha Hb. rewrite overwrite_eq by done.
  assert (zslice data a b = zslice (ztake o data ++ zdrop o data) a b) as -> by (by rewrite ztake_zdrop).
  unfold zslice. destruct (Z.le_gt_cases b a); [by rewrite !ztake_0 by lia|].
  rewrite !zdrop_app_le by (rewrite len_ztake; lia). by rewrite !ztake_app_le by (rewrite len_zdrop, len_ztake; lia).
Qed.

Lemma overwrite_at data o bs : 0 <= o <= len data -> zslice (overwrite data o bs) o (o + len bs) = bs.
Proof.
  intros Ho. rewrite overwrite_eq by done. unfold zslice. rewrite zdrop_app_ge by (rewrite len_ztake; lia). rewrite len_ztake by lia.
  rewrite zdrop_0 by lia. rewrite ztake_app_le, ztake_ge by lia. done.
Qed.

Lemma overwrite_after data o bs a b : 0 <= o <= len data -> o + len bs <= a -> zslice (overwrite data o bs) a b = zslice data a b.
Proof.
  intros Ho Ha. pose proof (len_nonneg bs). rewrite overwrite_eq by done. unfold zslice. f_equal.
  rewrite !zdrop_app_ge by (rewrite ?len_ztake; lia). rewrite len_ztake, zdrop_zdrop by lia. f_equal. lia.
Qed.

Lemma overwrite_inside D off x n :
  0 <= off -> off + n <= len D -> len x <= n -> zslice (overwrite D off x) off (off + n) = overwrite (zslice D off (off + n)) 0 x.
Proof.
  intros Ho Hl Hx. pose proof (len_nonneg x). rewrite (overwrite_eq D) by lia.
  rewrite overwrite_eq by (rewrite len_zslice by lia; lia).
  rewrite (ztake_0 0) by lia. cbn [app]. unfold zslice. rewrite zdrop_app_ge by (rewrite len_ztake; lia).
  rewrite len_ztake by lia. rewrite (zdrop_0 (off - _)) by lia. rewrite ztake_app_ge by lia.
  rewrite zdrop_ztake, zdrop_zdrop by lia. done.
Qed.

(** Writes past the end. *)
Definition padded (data : bytes) (o : Z) : bytes := data ++ replicate (Z.to_nat (o - len data)) x00.

Lemma len_padded data o : len (padded data o) = Z.max (len data) o.
Proof. unfold padded. rewrite len_app, len_replicate. lia. Qed.

Lemma overwrite_padded data o bs : overwrite data o bs = overwrite (padded data o) o bs.
Proof.
  unfold overwrite. fold (padded data o). cbv zeta. rewrite len_padded. replace (Z.to_nat (o - Z.max (len data) o)) with 0%nat by lia.
  cbn [replicate]. by rewrite app_nil_r.
Qed.

Lemma zslice_padded data o a b : 0 <= a -> b <= len data -> zslice (padded data o) a b = zslice data a b.
Proof.
  intros Ha Hb. unfold padded. destruct (Z.le_gt_cases a b); [by apply zslice_app_take|]. unfold zslice. by rewrite !ztake_0 by lia.
Qed.

Lemma len_overwrite_past data o bs : 0 <= o -> len (overwrite data o bs) = Z.max (len data) (o + len bs).
Proof. intros Ho. pose proof (len_nonneg bs). rewrite overwrite_padded, len_overwrite; rewrite len_padded; lia. Qed.

Lemma overwrite_before_past data o bs a b : 0 <= o -> 0 <= a -> b <= o -> b <= len data -> zslice (overwrite data o bs) a b = zslice data a b.
Proof. intros. rewrite overwrite_padded, overwrite_before by (rewrite ?len_padded; lia). by apply zslice_padded. Qed.

Lemma overwrite_at_past data o bs : 0 <= o -> zslice (overwrite data o bs) o (o + len bs) = bs.
Proof. intros. rewrite overwrite_padded. apply overwrite_at. rewrite len_padded. lia. Qed.

Lemma overwrite_end data o bs : o = len data -> overwrite data o bs = data ++ bs.
Proof.
  intros ->. pose proof (len_nonneg bs). rewrite overwrite_eq by (pose proof (len_nonneg data); lia). rewrite ztake_ge, (zdrop_ge (_ + _)) by lia. by rewrite app_nil_r.
Qed.

Lemma overwrite_grows data o bs : len data <= len (overwrite data o bs).
Proof.
  destruct (Z.le_gt_cases 0 o); [rewrite len_overwrite_past by done; lia|]. unfold overwrite. cbv zeta. pose proof (len_nonneg data). pose proof (len_nonneg bs).
  replace (Z.to_nat (o - len data)) with 0%nat by lia. cbn [replicate]. rewrite app_nil_r, !len_app, ztake_take, zdrop_drop. unfold len in *. rewrite length_take, length_drop. lia.
Qed.

#[global] Arguments le_bytes : simpl never.
#[global] Arguments be_bytes : simpl never.
#[global] Arguments le_val : simpl never.
#[global] Arguments be_val : simpl never.
#[global] Arguments byte_val : simpl never.
#[global] Arguments byte_of : simpl never.

(** Byte strings as keys of finite maps. *)
#[export] Program Instance byte_countable : Countable byte := inj_countable Byte.to_N Byte.of_N _.
Next Obligation. intros b. apply Byte.of_to_N. Qed.
