(* ===== verification/Crc.v ===== *)
(** * Checksums: the interface of the [crc32fast] crate

    [crc32fast] is a dependency, so it is a parameter of the model.  [Crc32fast]
    lists the operations the code calls; [Crc32fastLaws] states their documented
    contract: a [Hasher] fed with pieces, or obtained by [combine], yields the
    checksum of the concatenated bytes, which is a [u32].  [hashed h l] is the
    specification-level reading of a hasher: it has consumed exactly [l].

    [crc32_iso_hdlc] instantiates the interface with the CRC-32/ISO-HDLC
    polynomial the crate documents, so that concrete runs use real checksums. *)

From Stdlib Require Import ZArith Lia.
From S2P Require Import Prelude Bytes.

Class Crc32fast : Type := {
  Hasher : Type;
  hasher_new : Hasher;
  hasher_update : Hasher -> bytes -> Hasher;
  hasher_combine : Hasher -> Hasher -> Hasher;
  hasher_finalize : Hasher -> Z;
  crc32_hash : bytes -> Z;
}.

Class Crc32fastLaws (C : Crc32fast) : Type := {
  hashed : Hasher -> bytes -> Prop;
  hashed_new : hashed hasher_new [];
  hashed_update : forall h l d, hashed h l -> hashed (hasher_update h d) (l ++ d);
  hashed_combine : forall h1 l1 h2 l2,
    hashed h1 l1 -> hashed h2 l2 -> hashed (hasher_combine h1 h2) (l1 ++ l2);
  hashed_finalize : forall h l, hashed h l -> hasher_finalize h = crc32_hash l;
  crc32_hash_u32 : forall l, u32_ok (crc32_hash l);
}.

(** The bitwise algorithm of CRC-32/ISO-HDLC. *)
Definition crc_bit (c : Z) : Z :=
  if Z.odd c then Z.lxor (Z.shiftr c 1) 3988292384 else Z.shiftr c 1.
Definition crc_byte (c : Z) (b : byte) : Z :=
  crc_bit (crc_bit (crc_bit (crc_bit (crc_bit (crc_bit (crc_bit (crc_bit
    (Z.lxor c (byte_val b))))))))).
Definition crc32_reference (l : bytes) : Z :=
  Z.lxor (fold_left crc_byte l 4294967295) 4294967295.

Definition crc32_iso_hdlc : Crc32fast := {|
  Hasher := bytes;
  hasher_new := [];
  hasher_update := fun h d => h ++ d;
  hasher_combine := fun h1 h2 => h1 ++ h2;
  hasher_finalize := crc32_reference;
  crc32_hash := crc32_reference;
|}.

Lemma lxor_u32 a b : u32_ok a -> u32_ok b -> u32_ok (Z.lxor a b).
Proof.
  unfold u32_ok, u32_max. intros Ha Hb.
  assert (0 <= Z.lxor a b) by (apply Z.lxor_nonneg; lia).
  split; [done|]. apply Z.lt_succ_r.
  change (Z.succ 4294967295) with (2 ^ 32).
  destruct (Z.eq_dec (Z.lxor a b) 0) as [->|]; [done|].
  apply Z.log2_lt_pow2; [lia|].
  eapply Z.le_lt_trans; [apply Z.log2_lxor; lia|].
  apply Z.max_lub_lt; (destruct (Z.eq_dec a 0), (Z.eq_dec b 0); subst; try done);
    apply Z.log2_lt_pow2; lia.
Qed.

Lemma crc_bit_u32 c : u32_ok c -> u32_ok (crc_bit c).
Proof.
  intros H. unfold crc_bit.
  assert (u32_ok (Z.shiftr c 1)) as Hs.
  { rewrite Z.shiftr_div_pow2 by lia. change (2 ^ 1) with 2. unfold u32_ok, u32_max in *.
    split; [apply Z.div_pos; lia|]. apply Z.div_le_upper_bound; lia. }
  destruct (Z.odd c); [|done]. apply lxor_u32; [done|]. unfold u32_ok, u32_max. lia.
Qed.

Lemma crc_byte_u32 c b : u32_ok c -> u32_ok (crc_byte c b).
Proof.
  intros H. unfold crc_byte. do 8 apply crc_bit_u32. apply lxor_u32; [done|].
  pose proof (byte_val_range b). unfold u32_ok, u32_max. lia.
Qed.

Lemma crc32_reference_u32 l : u32_ok (crc32_reference l).
Proof.
  unfold crc32_reference. apply lxor_u32; [|done].
  assert (u32_ok 4294967295) as H by done. revert H.
  generalize 4294967295 as c. induction l as [|b l IH]; intros c Hc; simpl; [done|].
  apply IH. by apply crc_byte_u32.
Qed.

#[export] Instance crc32_iso_hdlc_laws : Crc32fastLaws crc32_iso_hdlc.
Proof.
  refine {| hashed := fun (h : @Hasher crc32_iso_hdlc) l => h = l |}; simpl.
  - done.
  - by intros ? ? ? ->.
  - by intros ? ? ? ? -> ->.
  - by intros ? ? ->.
  - apply crc32_reference_u32.
Defined.

(** The check value of the CRC catalogue. *)
Example crc32_check_value : crc32_reference (lit "123456789") = 3421780262.
Proof. vm_compute. reflexivity. Qed.
