(* ===== verification/Files.v ===== *)
(** * Files as the code sees them

    [File] is an open file for reading: its bytes, the cursor, and the events the
    kernel will inject into the next reads (a short count, [EINTR], a device
    error).  [file_read] is [Read::read], [read_exact] is [Read::read_exact] of
    the standard library (it retries short counts and [EINTR]), [read_at] is
    [FileExt::read_at].  A file without device errors is [quiet]; the lemmas show
    that on a quiet file the retry loops always see the same bytes. *)

From Stdlib Require Import ZArith Lia.
From S2P Require Import Prelude Bytes.

Inductive io_event : Type :=
| EvShort (n : Z)
| EvIntr
| EvError (msg : string).

Record File : Type := mkFile {
  f_data : bytes;
  f_pos : Z;
  f_events : list io_event;
}.

Inductive read_outcome : Type :=
| ReadOk (bs : bytes)
| ReadIntr
| ReadErr (msg : string).

Inductive exact_outcome : Type :=
| ExactOk (bs : bytes)
| ExactEof
| ExactErr (msg : string).

Definition set_pos (p : Z) (f : File) : File := mkFile (f_data f) p (f_events f).
Definition set_events (ev : list io_event) (f : File) : File := mkFile (f_data f) (f_pos f) ev.

(** [file.seek(SeekFrom::Start(p))]. *)
Definition seek (p : Z) (f : File) : result unit * File := (Ok tt, set_pos p f).

(** [file.metadata()?.len()]. *)
Definition file_len (f : File) : Z := len (f_data f).

(** [file.read(&mut buf[..n])] at the cursor: up to [n] bytes, none at the end. *)
Definition file_read (n : Z) (f : File) : read_outcome * File :=
  let rest := zdrop (f_pos f) (f_data f) in
  let give k ev :=
    let bs := ztake k rest in
    (ReadOk bs, mkFile (f_data f) (f_pos f + len bs) ev) in
  match f_events f with
  | [] => give n []
  | EvShort k :: ev => give (Z.min n (Z.max 1 k)) ev
  | EvIntr :: ev => (ReadIntr, set_events ev f)
  | EvError m :: ev => (ReadErr m, set_events ev f)
  end.

Fixpoint read_exact_loop (fuel : nat) (n : Z) (acc : bytes) (f : File) : exact_outcome * File :=
  if n <=? 0 then (ExactOk acc, f) else
  match fuel with
  | O => (ExactEof, f)
  | S fuel =>
      match file_read n f with
      | (ReadOk [], f') => (ExactEof, f')
      | (ReadOk bs, f') => read_exact_loop fuel (n - len bs) (acc ++ bs) f'
      | (ReadIntr, f') => read_exact_loop fuel n acc f'
      | (ReadErr m, f') => (ExactErr m, f')
      end
  end.

(** Every iteration consumes an event, or all that is left of the file. *)
Definition read_exact (n : Z) (f : File) : exact_outcome * File :=
  read_exact_loop (length (f_events f) + 3) n [] f.

(** [file.read_at(&mut buf[..n], offset)]: the cursor does not move. *)
Definition read_at (n off : Z) (f : File) : read_outcome * File :=
  let rest := zdrop off (f_data f) in
  match f_events f with
  | [] => (ReadOk (ztake n rest), f)
  | EvShort k :: ev => (ReadOk (ztake (Z.min n (Z.max 1 k)) rest), set_events ev f)
  | EvIntr :: ev => (ReadIntr, set_events ev f)
  | EvError m :: ev => (ReadErr m, set_events ev f)
  end.

Definition intr_message : string := "Interrupted system call (os error 4)".
Definition eof_message : string := "failed to fill whole buffer".

(** No device error is pending. *)
Definition quiet (f : File) : Prop :=
  Forall (fun e => match e with EvError _ => False | _ => True end) (f_events f).

(** Nor an interruption, which positional reads do not retry. *)
Definition calm (f : File) : Prop :=
  Forall (fun e => match e with EvShort _ => True | _ => False end) (f_events f).

(** The file is quiet and [rest] is what sequential reads will return. *)
Definition reads (f : File) (rest : bytes) : Prop :=
  quiet f /\ 0 <= f_pos f /\ zdrop (f_pos f) (f_data f) = rest.

Definition open_file (data : bytes) : File := mkFile data 0 [].

(** ** Sequential reads of a quiet file *)

Lemma reads_advance f f' rest bs rest' :
  reads f rest -> rest = bs ++ rest' ->
  f_data f' = f_data f -> f_pos f' = f_pos f + len bs -> quiet f' ->
  reads f' rest'.
Proof.
  intros (Hq & Hp & Hr) Hs Hd Hp' Hq'. split; [done|].
  pose proof (len_nonneg bs). split; [lia|].
  rewrite Hd, Hp', <- zdrop_zdrop, Hr, Hs by lia.
  rewrite zdrop_app_ge by lia. apply zdrop_0. lia.
Qed.

Lemma ztake_nil_inv {A : Type} k (l : list A) : 0 < k -> ztake k l = [] -> l = [].
Proof. intros Hk H. apply len_zero. apply (f_equal len) in H. zlia. Qed.

(** One successful [read] of a quiet file. *)
Lemma file_read_quiet n f rest :
  0 < n -> reads f rest ->
  (exists f', file_read n f = (ReadIntr, f') /\ reads f' rest /\ f_data f' = f_data f /\
     f_pos f' = f_pos f /\ (length (f_events f') < length (f_events f))%nat) \/
  (exists k f', 0 < k <= n /\ file_read n f = (ReadOk (ztake k rest), f') /\
     reads f' (zdrop k rest) /\ f_data f' = f_data f /\ f_pos f' = f_pos f + len (ztake k rest) /\
     ((length (f_events f') < length (f_events f))%nat \/ (f_events f' = [] /\ k = n))).
Proof.
  intros Hn Hr. destruct f as [data pos ev]. pose proof Hr as (Hq & Hp & Hz). simpl in *.
  destruct ev as [|e ev].
  - right. exists n, (mkFile data (pos + len (ztake n rest)) []).
    unfold file_read; simpl. rewrite Hz. split_and!; try done; try lia.
    + eapply reads_advance; [exact Hr| |done|done|done]. by rewrite ztake_zdrop.
    + by right.
  - unfold quiet in Hq. simpl in Hq. apply Forall_cons in Hq as [He Hq].
    destruct e as [k| |m]; [|left|done].
    + right. set (k' := Z.min n (Z.max 1 k)).
      exists k', (mkFile data (pos + len (ztake k' rest)) ev).
      unfold file_read; simpl. rewrite Hz. split_and!; try done; try lia.
      * eapply reads_advance; [exact Hr| |done|done|done]. by rewrite ztake_zdrop.
    + exists (mkFile data pos ev). unfold file_read; simpl. split_and!; try done. simpl. lia.
Qed.

Lemma file_read_eof n f : reads f [] -> f_events f = [] -> file_read n f = (ReadOk [], f).
Proof.
  intros (_ & _ & Hz) He. unfold file_read. rewrite He, Hz, ztake_nil, len_nil, Z.add_0_r.
  destruct f; simpl in *; by subst.
Qed.

Lemma read_exact_loop_quiet fuel n acc f rest :
  0 <= n -> reads f rest -> (length (f_events f) + 3 <= fuel)%nat ->
  exists f', f_data f' = f_data f /\
    if n <=? len rest
    then read_exact_loop fuel n acc f = (ExactOk (acc ++ ztake n rest), f') /\
         reads f' (zdrop n rest) /\ f_pos f' = f_pos f + n
    else read_exact_loop fuel n acc f = (ExactEof, f').
Proof.
  revert n acc f rest. induction fuel as [|fuel IH]; intros n acc f rest Hn Hr Hf; [lia|].
  cbn [read_exact_loop]. destruct (Z.leb_spec n 0) as [|Hpos].
  { assert (n = 0) as -> by lia. exists f. split; [done|].
    destruct (Z.leb_spec 0 (len rest)); [|zlia].
    rewrite ztake_0, zdrop_0, app_nil_r by lia. split; [done|]. split; [done|lia]. }
  destruct (file_read_quiet n f rest Hpos Hr)
    as [(f' & -> & Hr' & Hd & Hp' & Hlt)|(k & f' & Hk & -> & Hr' & Hd & Hp' & Hev)].
  - destruct (IH n acc f' rest ltac:(lia) Hr' ltac:(lia)) as (f'' & Hd'' & Hcase).
    exists f''. split; [congruence|].
    destruct (n <=? len rest); [|done]. destruct Hcase as (? & ? & ?). split_and!; [done|done|lia].
  - destruct (ztake k rest) as [|b bs] eqn:E.
    { apply ztake_nil_inv in E; [|lia]. subst rest. exists f'. split; [done|].
      destruct (Z.leb_spec n (len (@nil byte))); [zlia|done]. }
    rewrite <- E in *. clear E b bs.
    destruct Hev as [Hlt|[Hnil ->]].
    + destruct (IH (n - len (ztake k rest)) (acc ++ ztake k rest) f' (zdrop k rest))
        as (f'' & Hd'' & Hcase); [zlia|done|lia|].
      exists f''. split; [congruence|].
      assert ((n - len (ztake k rest) <=? len (zdrop k rest)) = (n <=? len rest)) as Heq
        by (apply eq_bool_prop_intro; rewrite !Is_true_true, !Z.leb_le; zlia).
      rewrite Heq in Hcase. destruct (Z.leb_spec n (len rest)) as [Hle|]; [|done].
      destruct Hcase as (-> & Hr'' & Hp''). rewrite len_ztake in * by lia.
      rewrite Z.min_l in * by lia. split_and!.
      * do 2 f_equal. rewrite <- app_assoc. f_equal.
        replace n with (k + (n - k)) at 2 by lia.
        rewrite <- (ztake_zdrop k rest) at 3. rewrite ztake_app_ge by zlia.
        f_equal. f_equal. zlia.
      * rewrite zdrop_zdrop in Hr'' by lia. by replace (k + (n - k)) with n in Hr'' by lia.
      * lia.
    + (* the last read took all of [n] or all of the file *)
      destruct (Z.leb_spec n (len rest)) as [Hle|Hgt].
      * exists f'. split; [done|]. rewrite len_ztake in * by lia. rewrite Z.min_l in * by lia.
        destruct fuel; [lia|]. cbn [read_exact_loop].
        destruct (Z.leb_spec (n - n) 0); [|lia]. split; [done|]. split; [done|lia].
      * rewrite ztake_ge in * by lia. rewrite zdrop_ge in Hr' by lia.
        destruct fuel as [|fuel]; [lia|]. cbn [read_exact_loop].
        destruct (Z.leb_spec (n - len rest) 0); [lia|].
        destruct Hr' as (Hq' & ? & Hz'). unfold file_read. rewrite Hnil, Hz'.
        simpl. eexists. split; [|done]. done.
Qed.

(** [read_exact] on a quiet file returns the next [n] bytes, or [UnexpectedEof]
    when fewer remain, whatever short counts and interruptions occur. *)
Lemma read_exact_quiet n f rest :
  0 <= n -> reads f rest ->
  exists f', f_data f' = f_data f /\
    if n <=? len rest
    then read_exact n f = (ExactOk (ztake n rest), f') /\
         reads f' (zdrop n rest) /\ f_pos f' = f_pos f + n
    else read_exact n f = (ExactEof, f').
Proof.
  intros Hn Hr. apply (read_exact_loop_quiet _ n [] f rest Hn Hr). lia.
Qed.
