(* ===== verification/IoBackend.v ===== *)
(** * The append backend ([io_backend/mod.rs])

    [Disk] is the file behind a backend: its bytes and the outcome of the next
    system calls ([None] succeeds, [Some (k, msg)] fails, a failing write having
    written [k] bytes).  [BufWriter] is the standard library's; [SyncBackend] is
    the code's backend over it.  [IoBackend] is the trait, [IoBackendLaws] what the
    log writer relies on: an append is all or nothing unless its rollback fails,
    and it starts at the end of the file.  [sync_backend_laws] proves that
    [SyncBackend] keeps that promise.

    The append lock serialises appenders of one file, so an operation is one step
    on the shared [Disk]; a poisoned lock is a flag of the disk. *)

From Stdlib Require Import ZArith Lia.
From S2P Require Import Prelude Bytes.

Record Disk : Type := mkDisk {
  d_data : bytes;
  d_faults : list (option (Z * string));
  d_poisoned : bool;
}.

Record BufWriter : Type := mkBufWriter {
  bw_buf : bytes;
  bw_cap : Z;
}.

Record SyncBackend : Type := mkSyncBackend {
  sb_writer : option BufWriter;
  sb_offset : Z;
}.

(** ** System calls *)

Definition with_data (data : bytes) (ev : list (option (Z * string))) (d : Disk) : Disk :=
  mkDisk data ev (d_poisoned d).

(** [File::write_all] on a file opened for appending. *)
Definition sys_write_all (data : bytes) : SR Disk unit := fun d =>
  match d_faults d with
  | [] => (Ok tt, with_data (d_data d ++ data) [] d)
  | None :: ev => (Ok tt, with_data (d_data d ++ data) ev d)
  | Some (k, msg) :: ev => (Err msg, with_data (d_data d ++ ztake k data) ev d)
  end.

Definition sys_simple (f : bytes -> bytes) : SR Disk unit := fun d =>
  match d_faults d with
  | [] => (Ok tt, with_data (f (d_data d)) [] d)
  | None :: ev => (Ok tt, with_data (f (d_data d)) ev d)
  | Some (_, msg) :: ev => (Err msg, with_data (d_data d) ev d)
  end.

(** [File::sync_data] and [File::set_len]. *)
Definition sys_sync_data : SR Disk unit := sys_simple (fun data => data).
Definition sys_set_len (n : Z) : SR Disk unit :=
  sys_simple (fun data => ztake n data ++ replicate (Z.to_nat (n - len data)) x00).

(** [File::metadata()?.len()]. *)
Definition sys_len : SR Disk Z := fun d =>
  match sys_simple (fun data => data) d with
  | (Ok _, d') => (Ok (len (d_data d')), d')
  | (Err e, d') => (Err e, d')
  | (Panic, d') => (Panic, d')
  end.

(** ** [BufWriter<File>] *)

(** [flush_buf]: what a failed write managed to write leaves the buffer. *)
Definition bw_flush : SR (BufWriter * Disk) unit := fun '(w, d) =>
  match bw_buf w with
  | [] => (Ok tt, (w, d))
  | buf =>
      let written := match d_faults d with Some (k, _) :: _ => k | _ => len buf end in
      match sys_write_all buf d with
      | (r, d') => (r, (mkBufWriter (zdrop written buf) (bw_cap w), d'))
      end
  end.

Definition bw_spare (w : BufWriter) : Z := bw_cap w - len (bw_buf w).

Definition bw_store (data : bytes) : SR (BufWriter * Disk) unit := fun '(w, d) =>
  (Ok tt, (mkBufWriter (bw_buf w ++ data) (bw_cap w), d)).

(** [BufWriter::write_all], with its cold path. *)
Definition bw_write_all (data : bytes) : SR (BufWriter * Disk) unit := fun '(w, d) =>
  if len data <? bw_spare w then bw_store data (w, d) else
  match (if bw_spare w <? len data then bw_flush (w, d) else (Ok tt, (w, d))) with
  | (Ok _, (w', d')) =>
      if bw_cap w' <=? len data
      then match sys_write_all data d' with (r, d'') => (r, (w', d'')) end
      else bw_store data (w', d')
  | (Err e, s) => (Err e, s)
  | (Panic, s) => (Panic, s)
  end.

(** ** [SyncBackend] *)

Abbreviation SB := (SR (SyncBackend * Disk)).

(** [lock_append]. *)
Definition lock_append : SB unit := fun '(b, d) =>
  if d_poisoned d then (Err "append lock poisoned", (b, d)) else (Ok tt, (b, d)).

(** An operation on [self.writer()]. *)
Definition on_writer {A : Type} (op : SR (BufWriter * Disk) A) : SB A := fun '(b, d) =>
  match sb_writer b with
  | None => (Panic, (b, d))
  | Some w => match op (w, d) with (r, (w', d')) => (r, (mkSyncBackend (Some w') (sb_offset b), d')) end
  end.

Definition on_file {A : Type} (op : SR Disk A) : SB A :=
  on_writer (fun '(w, d) => match op d with (r, d') => (r, (w, d')) end).

Definition rollback_failure (cause rollback : string) : string :=
  "append failed: " +:+ cause +:+ "; durable rollback failed: " +:+ rollback.

(** [usize] is [u64], so only the addition can overflow. *)
Definition checked_append_end (offset n : Z) : result Z :=
  match checked_add64 offset n with
  | Some e => Ok e
  | None => Err "append file offset overflow"
  end.

Definition sb_set_offset (o : Z) : SB unit := fun '(b, d) =>
  (Ok tt, (mkSyncBackend (sb_writer b) o, d)).

(** [SyncBackend::rollback_locked]: buffered bytes are dropped with the writer. *)
Definition rollback_locked (offset : Z) : SB unit := fun '(b, d) =>
  match sb_writer b with
  | None => (Panic, (b, d))
  | Some w =>
      match (let! _ := sys_set_len offset in sys_sync_data) d with
      | (r, d') =>
          let writer := Some (mkBufWriter [] (bw_cap w)) in
          let o := match r with Ok _ => offset | _ => sb_offset b end in
          (r, (mkSyncBackend writer o, d'))
      end
  end.

Definition sb_offset_of (b : SyncBackend) : Z := sb_offset b.

(** What [append] and [append_batch_and_sync] do with the result of their body. *)
Definition commit_or_rollback {A : Type} (start end_ : Z) (body : SB A) : SB A := fun s =>
  match body s with
  | (Ok a, s') => (let! _ := sb_set_offset end_ in sret a) s'
  | (Err cause, s') =>
      match rollback_locked start s' with
      | (Ok _, s'') => (Err cause, s'')
      | (Err rollback, s'') => (Err (rollback_failure cause rollback), s'')
      | (Panic, s'') => (Panic, s'')
      end
  | (Panic, s') => (Panic, s')
  end.

Definition sb_append (data : bytes) : SB Z :=
  let! _ := lock_append in
  let! start := on_file sys_len in
  let! end_ := slift (checked_append_end start (len data)) in
  commit_or_rollback start end_
    (let! _ := on_writer bw_flush in
     let! _ := on_writer (bw_write_all data) in
     let! _ := on_writer bw_flush in
     sret start).

Definition sb_sync : SB unit :=
  let! _ := on_writer bw_flush in
  on_file sys_sync_data.

Definition sb_flush_no_sync : SB unit := on_writer bw_flush.

Definition sb_rollback_to (offset : Z) : SB unit :=
  let! _ := lock_append in
  rollback_locked offset.

(** The loop over the buffers that checks the end of the batch. *)
Fixpoint batch_end (running : Z) (buffers : list bytes) : result Z :=
  match buffers with
  | [] => Ok running
  | buf :: rest => let? running := checked_append_end running (len buf) in batch_end running rest
  end.

(** The loop over the buffers that writes them and collects their offsets. *)
Fixpoint batch_write (running : Z) (offsets : list Z) (buffers : list bytes) : SB (list Z) :=
  match buffers with
  | [] => sret offsets
  | buf :: rest =>
      let! _ := on_writer (bw_write_all buf) in
      let! running' := slift (checked_append_end running (len buf)) in
      batch_write running' (offsets ++ [running]) rest
  end.

Definition sb_append_batch_and_sync (buffers : list bytes) : SB (list Z) :=
  let! _ := lock_append in
  let! start := on_file sys_len in
  let! end_ := slift (batch_end start buffers) in
  commit_or_rollback start end_
    (let! _ := on_writer bw_flush in
     let! offsets := batch_write start [] buffers in
     let! _ := on_writer bw_flush in
     let! _ := on_file sys_sync_data in
     sret offsets).

(** [SyncBackend::open] and [open_small_buffer] on the file's current contents. *)
Definition sb_open (cap : Z) : SR Disk SyncBackend :=
  let! offset := sys_len in
  sret (mkSyncBackend (Some (mkBufWriter [] cap)) offset).

(** ** The trait *)

Class IoBackend (B : Type) : Type := {
  io_append : bytes -> SR (B * Disk) Z;
  io_sync : SR (B * Disk) unit;
  io_offset : B -> Z;
  io_rollback_to : Z -> SR (B * Disk) unit;
  io_append_batch_and_sync : list bytes -> SR (B * Disk) (list Z);
}.

(** [append_and_sync] is the trait's provided method. *)
Definition io_append_and_sync {B : Type} `{IoBackend B} (data : bytes) : SR (B * Disk) Z :=
  let! offsets := io_append_batch_and_sync [data] in
  slift (unwrap (offsets !! 0%nat)).

#[export] Instance sync_backend : IoBackend SyncBackend := {|
  io_append := sb_append;
  io_sync := sb_sync;
  io_offset := sb_offset_of;
  io_rollback_to := sb_rollback_to;
  io_append_batch_and_sync := sb_append_batch_and_sync;
|}.

(** Offsets of consecutive buffers written from [start]. *)
Fixpoint offsets_from (start : Z) (buffers : list bytes) : list Z :=
  match buffers with
  | [] => []
  | buf :: rest => start :: offsets_from (start + len buf) rest
  end.

(** An append of [data] that fails leaves the file as it was, or reports that its rollback
    failed too and leaves the first part of [data] after the old bytes. *)
Definition append_failed (data : bytes) (d d' : Disk) (e : string) : Prop :=
  d_data d' = d_data d \/
  (exists c r, e = rollback_failure c r) /\ (len (d_data d) <= u64_max -> len (d_data d') <= u64_max) /\
  exists junk, junk `prefix_of` data /\ d_data d' = d_data d ++ junk.

Class IoBackendLaws (B : Type) `{IoBackend B} : Type := {
  io_inv : B -> Prop;
  io_append_ok : forall data b d off b' d',
    io_inv b -> io_append data (b, d) = (Ok off, (b', d')) ->
    off = len (d_data d) /\ d_data d' = d_data d ++ data /\
    io_offset b' = len (d_data d') /\ len (d_data d') <= u64_max /\ io_inv b';
  io_append_err : forall data b d e b' d',
    io_inv b -> io_append data (b, d) = (Err e, (b', d')) ->
    append_failed data d d' e /\ io_inv b';
  io_append_live : forall data b d,
    io_inv b -> d_faults d = [] -> d_poisoned d = false ->
    len (d_data d) + len data <= u64_max ->
    exists off b' d', io_append data (b, d) = (Ok off, (b', d')) /\
      d_faults d' = [] /\ d_poisoned d' = false;
  io_append_no_panic : forall data b d, io_inv b -> (io_append data (b, d)).1 <> Panic;
  io_batch_ok : forall bufs b d offs b' d',
    io_inv b -> io_append_batch_and_sync bufs (b, d) = (Ok offs, (b', d')) ->
    offs = offsets_from (len (d_data d)) bufs /\ d_data d' = d_data d ++ mjoin bufs /\
    io_offset b' = len (d_data d') /\
    (len (d_data d) <= u64_max -> len (d_data d') <= u64_max) /\ io_inv b';
  io_batch_err : forall bufs b d e b' d',
    io_inv b -> io_append_batch_and_sync bufs (b, d) = (Err e, (b', d')) ->
    append_failed (mjoin bufs) d d' e /\ io_inv b';
  io_batch_live : forall bufs b d,
    io_inv b -> d_faults d = [] -> d_poisoned d = false ->
    len (d_data d) + len (mjoin bufs) <= u64_max ->
    exists offs b' d', io_append_batch_and_sync bufs (b, d) = (Ok offs, (b', d')) /\
      d_faults d' = [] /\ d_poisoned d' = false;
  io_batch_no_panic : forall bufs b d,
    io_inv b -> (io_append_batch_and_sync bufs (b, d)).1 <> Panic;
  io_rollback_ok : forall off b d b' d',
    io_inv b -> 0 <= off <= len (d_data d) -> io_rollback_to off (b, d) = (Ok tt, (b', d')) ->
    d_data d' = ztake off (d_data d) /\ io_offset b' = off /\ io_inv b';
  io_rollback_err : forall off b d e b' d',
    io_inv b -> 0 <= off <= len (d_data d) -> io_rollback_to off (b, d) = (Err e, (b', d')) ->
    (d_data d' = d_data d \/ d_data d' = ztake off (d_data d)) /\ io_inv b';
  io_rollback_no_panic : forall off b d, io_inv b -> (io_rollback_to off (b, d)).1 <> Panic;
}.

(** ** Lemmas: the buffered writer only ever appends to the file *)

Ltac destruct_faults d :=
  let k := fresh "k" in let msg := fresh "msg" in let ev := fresh "ev" in
  destruct (d_faults d) as [|[[k msg]|] ev] eqn:?.

Lemma sys_write_all_spec data d r d' :
  sys_write_all data d = (r, d') ->
  r <> Panic /\ d_poisoned d' = d_poisoned d /\
  (d_faults d = [] -> r = Ok tt /\ d_faults d' = []) /\
  exists out, d_data d' = d_data d ++ out /\ out `prefix_of` data /\ (r = Ok tt -> out = data).
Proof.
  unfold sys_write_all. intros H.
  destruct_faults d; simplify_eq; simpl; (split_and!; [done..|]); eexists; (split; [done|]); (split; [|done]);
    solve [done | apply ztake_prefix].
Qed.

Lemma sys_simple_spec f d r d' :
  sys_simple f d = (r, d') ->
  r <> Panic /\ d_poisoned d' = d_poisoned d /\
  (d_faults d = [] -> r = Ok tt /\ d_faults d' = []) /\
  d_data d' = (if r is Ok _ then f (d_data d) else d_data d).
Proof.
  unfold sys_simple. intros H. destruct_faults d; by simplify_eq.
Qed.

Lemma sys_len_spec d r d' :
  sys_len d = (r, d') ->
  r <> Panic /\ d_poisoned d' = d_poisoned d /\ d_data d' = d_data d /\
  (d_faults d = [] -> r = Ok (len (d_data d)) /\ d_faults d' = []) /\
  (forall n, r = Ok n -> n = len (d_data d)).
Proof.
  unfold sys_len. destruct (sys_simple _ d) as [r0 d0] eqn:E.
  apply sys_simple_spec in E as (Hp & Hpo & Hf & Hd).
  intros H. destruct r0 as [[]|e|]; simplify_eq; simpl in *; [rewrite Hd|..];
    split_and!; try done; try (by intros [? ?]%Hf).
  by intros n [= <-].
Qed.

Lemma bw_flush_spec w d r w' d' :
  bw_flush (w, d) = (r, (w', d')) ->
  r <> Panic /\ d_poisoned d' = d_poisoned d /\ bw_cap w' = bw_cap w /\
  (d_faults d = [] -> r = Ok tt /\ d_faults d' = []) /\
  exists out, d_data d' = d_data d ++ out /\ out `prefix_of` bw_buf w /\ (r = Ok tt -> out = bw_buf w /\ bw_buf w' = []).
Proof.
  unfold bw_flush. destruct (bw_buf w) as [|b buf] eqn:Hb.
  { intros. simplify_eq. split_and!; try done. exists []. by rewrite app_nil_r. }
  destruct (sys_write_all _ d) as [r0 d0] eqn:E. intros. simplify_eq.
  pose proof E as (Hp & Hpo & Hf & out & Hd & Hpre & Ho)%sys_write_all_spec.
  split_and!; try done. exists out. split; [done|]. split; [done|]. intros Hr. split; [by apply Ho|].
  simpl bw_buf. apply zdrop_ge.
  unfold sys_write_all in E. destruct_faults d; try done. by simplify_eq.
Qed.

Lemma bw_write_all_spec data w d r w' d' :
  bw_write_all data (w, d) = (r, (w', d')) ->
  r <> Panic /\ d_poisoned d' = d_poisoned d /\ bw_cap w' = bw_cap w /\
  (d_faults d = [] -> r = Ok tt /\ d_faults d' = []) /\
  exists out, d_data d' = d_data d ++ out /\ out `prefix_of` bw_buf w ++ data /\ (r = Ok tt -> out ++ bw_buf w' = bw_buf w ++ data).
Proof.
  unfold bw_write_all, bw_store. destruct (len data <? bw_spare w) eqn:E1.
  { intros. simplify_eq. split_and!; try done. exists []. rewrite app_nil_r. split_and!; [done|apply prefix_nil|done]. }
  destruct (if bw_spare w <? len data then bw_flush (w, d) else (Ok tt, (w, d)))
    as [r1 [w1 d1]] eqn:E2.
  assert (r1 <> Panic /\ d_poisoned d1 = d_poisoned d /\ bw_cap w1 = bw_cap w /\
    (d_faults d = [] -> r1 = Ok tt /\ d_faults d1 = []) /\
    exists out, d_data d1 = d_data d ++ out /\ out `prefix_of` bw_buf w /\ (r1 = Ok tt -> out ++ bw_buf w1 = bw_buf w) /\
      (r1 = Ok tt -> bw_cap w <= len data -> bw_buf w1 = []))
    as (Hp1 & Hpo1 & Hc1 & Hf1 & out1 & Hd1 & Hpre1 & Ho1 & Hn1).
  { destruct (bw_spare w <? len data) eqn:E3.
    - pose proof E2 as (? & ? & ? & ? & out & ? & ? & Ho)%bw_flush_spec. split_and!; try done.
      exists out. split_and!; [done|done| |].
      + intros [-> ->]%Ho. by rewrite app_nil_r.
      + by intros [? ?]%Ho.
    - simplify_eq. split_and!; try done. exists []. rewrite app_nil_r. split_and!; try done; [apply prefix_nil|].
      intros _ Hle. apply len_zero. unfold bw_spare in *.
      apply Z.ltb_ge in E1, E3. zlia. }
  destruct r1 as [[]|e|]; [|intros; simplify_eq|done].
  - rewrite Hc1. destruct (Z.leb_spec (bw_cap w) (len data)) as [Hle|].
    + destruct (sys_write_all data d1) as [r2 d2] eqn:E4. intros. simplify_eq.
      apply sys_write_all_spec in E4 as (Hp2 & Hpo2 & Hf2 & out2 & Hd2 & Hpre2 & Ho2).
      split_and!; try done; try congruence.
      { intros F. apply Hf1 in F as [_ ?]. auto. }
      assert (out1 = bw_buf w) as -> by (rewrite <- (Ho1 eq_refl), (Hn1 eq_refl Hle); by rewrite app_nil_r).
      exists (bw_buf w ++ out2). rewrite Hd2, Hd1, app_assoc. split; [done|]. split; [by apply prefix_app|].
      intros Hr. by rewrite (Hn1 eq_refl Hle), app_nil_r, (Ho2 Hr).
    + intros. simplify_eq. split_and!; try done. exists out1. split; [done|]. split; [by apply prefix_app_r|].
      intros _. simpl. by rewrite app_assoc, Ho1.
  - split_and!; try done; try (by intros [? ?]%Hf1). exists out1. split_and!; [done|by apply prefix_app_r|done].
Qed.

(** What a piece of an append's body does: from a backend that has its writer, it
    never panics, keeps the writer, only extends the file, succeeds when no system
    call fails, and on success has passed exactly [data] on, to the file or to the
    buffer; [fl] says what it did to the buffer. *)
Inductive buffering : Type := Flushes | Keeps | Buffers.

Definition buffered (fl : buffering) (before after : bytes) : Prop :=
  match fl with
  | Flushes => after = []
  | Keeps => after = before
  | Buffers => True
  end.

Definition passes {A : Type} (m : SB A) (data : bytes) (fl : buffering) (Q : A -> Prop) : Prop :=
  forall b d w r b' d',
    sb_writer b = Some w -> m (b, d) = (r, (b', d')) ->
    r <> Panic /\ d_poisoned d' = d_poisoned d /\
    (d_faults d = [] -> d_faults d' = [] /\ exists a, r = Ok a) /\
    exists w' out, sb_writer b' = Some w' /\ d_data d' = d_data d ++ out /\ out `prefix_of` bw_buf w ++ data /\
      forall a, r = Ok a -> out ++ bw_buf w' = bw_buf w ++ data /\
        buffered fl (bw_buf w) (bw_buf w') /\ Q a.

Lemma passes_ret {A : Type} (a : A) (Q : A -> Prop) : Q a -> passes (sret a) [] Keeps Q.
Proof.
  intros HQ b d w r b' d' Hw [= <- <- <-]. split_and!; try done; [by eauto|].
  exists w, []. rewrite !app_nil_r. split_and!; [done|done|apply prefix_nil|by intros ? [= <-]].
Qed.

Lemma passes_bind {A B : Type} (m : SB A) (k : A -> SB B) d1 d2 fl1 fl2 Q1 Q2 :
  passes m d1 fl1 Q1 -> (forall a, Q1 a -> passes (k a) d2 fl2 Q2) ->
  passes (sbind m k) (d1 ++ d2) (if fl2 is Keeps then fl1 else fl2) Q2.
Proof.
  intros Hm Hk b d w r b' d' Hw H. unfold sbind in H.
  destruct (m (b, d)) as [r1 [b1 e1]] eqn:E1.
  destruct (Hm _ _ _ _ _ _ Hw E1) as (Hp & Hpo & Hf & w1 & out1 & Hw1 & Hd1 & Hpre1 & Ho1).
  destruct r1 as [a|e|]; [|simplify_eq|done].
  - destruct (Ho1 a eq_refl) as (Hb1 & Hfl1 & HQ1).
    destruct (Hk a HQ1 _ _ _ _ _ _ Hw1 H) as (Hp2 & Hpo2 & Hf2 & w2 & out2 & Hw2 & Hd2 & Hpre2 & Ho2).
    split_and!; [done|congruence|by intros F; apply Hf2, Hf|].
    exists w2, (out1 ++ out2). rewrite Hd2, Hd1, app_assoc. split_and!; [done|done| |].
    { rewrite app_assoc, <- Hb1, <- app_assoc. by apply prefix_app. }
    intros a' Hr. destruct (Ho2 a' Hr) as (Hb2 & Hfl & HQ). split_and!; [| |done].
    + by rewrite <- app_assoc, Hb2, app_assoc, Hb1, <- app_assoc.
    + destruct fl2; simpl in *; [done|by rewrite Hfl|done].
  - split_and!; [done..| |]; [intros [_ [? ?]]%Hf; done|].
    exists w1, out1. split_and!; [done|done| |done]. rewrite app_assoc. by apply prefix_app_r.
Qed.

Lemma passes_weaken {A : Type} (m : SB A) d1 d2 fl1 fl2 (Q1 Q2 : A -> Prop) :
  passes m d1 fl1 Q1 -> d1 = d2 -> fl2 = fl1 \/ fl2 = Buffers -> (forall a, Q1 a -> Q2 a) ->
  passes m d2 fl2 Q2.
Proof.
  intros Hm -> Hfl HQ b d w r b' d' Hw H.
  destruct (Hm _ _ _ _ _ _ Hw H) as (Hp & Hpo & Hf & w1 & out1 & Hw1 & Hd1 & Hpre1 & Ho1).
  split_and!; [done..|]. exists w1, out1. split_and!; [done..|].
  intros a Hr. destruct (Ho1 a Hr) as (? & ? & ?). split_and!; eauto.
  by destruct Hfl as [->| ->].
Qed.

Lemma passes_flush : passes (on_writer bw_flush) [] Flushes (fun _ => True).
Proof.
  intros b d w r b' d' Hw H. unfold on_writer in H. rewrite Hw in H.
  destruct (bw_flush (w, d)) as [r1 [w1 d1]] eqn:E. simplify_eq.
  apply bw_flush_spec in E as (Hp & Hpo & Hc & Hf & out & Hd & Hpre & Ho).
  split_and!; [done..| |]; [by intros [? ?]%Hf; eauto|].
  rewrite app_nil_r. exists w1, out. split_and!; [done..|]. intros [] Hr. destruct (Ho Hr) as [-> ->].
  by rewrite app_nil_r.
Qed.

Lemma passes_write data : passes (on_writer (bw_write_all data)) data Buffers (fun _ => True).
Proof.
  intros b d w r b' d' Hw H. unfold on_writer in H. rewrite Hw in H.
  destruct (bw_write_all data (w, d)) as [r1 [w1 d1]] eqn:E. simplify_eq.
  apply bw_write_all_spec in E as (Hp & Hpo & Hc & Hf & out & Hd & Hpre & Ho).
  split_and!; [done..| |]; [by intros [? ?]%Hf; eauto|].
  exists w1, out. split_and!; [done..|]. intros [] Hr. by split; [apply Ho|].
Qed.

Lemma passes_sync_data : passes (on_file sys_sync_data) [] Keeps (fun _ => True).
Proof.
  intros b d w r b' d' Hw H. unfold on_file, on_writer in H. rewrite Hw in H.
  destruct (sys_sync_data d) as [r1 d1] eqn:E. simplify_eq.
  apply sys_simple_spec in E as (Hp & Hpo & Hf & Hd).
  split_and!; [done..| |]; [by intros [? ?]%Hf; eauto|].
  exists w, []. rewrite !app_nil_r. split_and!; [done| |apply prefix_nil|done]. by destruct r.
Qed.

Lemma batch_end_spec start bufs e :
  batch_end start bufs = Ok e -> e = start + len (mjoin bufs) /\ (start <= u64_max -> e <= u64_max).
Proof.
  revert start; induction bufs as [|buf bufs IH]; intros start H; simpl in *.
  - simplify_eq. rewrite len_nil. lia.
  - unfold checked_append_end, checked_add64 in H. destruct (Z.leb_spec (start + len buf) u64_max);
      [|done]. simpl in H. apply IH in H as [-> H]. rewrite len_app. lia.
Qed.

Lemma batch_end_live start bufs :
  start + len (mjoin bufs) <= u64_max -> exists e, batch_end start bufs = Ok e.
Proof.
  revert start; induction bufs as [|buf bufs IH]; intros start H; simpl in *; [by eauto|].
  rewrite len_app in H. pose proof (len_nonneg (mjoin bufs)).
  unfold checked_append_end, checked_add64.
  destruct (Z.leb_spec (start + len buf) u64_max); [|lia]. simpl. apply IH. lia.
Qed.

Lemma passes_batch_write running offs bufs e :
  batch_end running bufs = Ok e ->
  passes (batch_write running offs bufs) (mjoin bufs) Buffers
    (fun o => o = offs ++ offsets_from running bufs).
Proof.
  revert running offs; induction bufs as [|buf bufs IH]; intros running offs He; simpl in *.
  - eapply passes_weaken; [by apply (passes_ret offs (fun o => o = offs))|done|by right|].
    intros o ->. by rewrite app_nil_r.
  - destruct (checked_append_end running (len buf)) as [run'|?|] eqn:Ec; try done. simpl in He.
    assert (run' = running + len buf) as ->.
    { unfold checked_append_end, checked_add64 in Ec. destruct (_ <=? _); by simplify_eq. }
    apply (passes_bind _ _ _ _ Buffers Buffers _ _ (passes_write buf)). intros [] _.
    eapply passes_weaken; [apply (IH (running + len buf) (offs ++ [running]) He)|done|by left|].
    intros o ->. by rewrite <- app_assoc.
Qed.

(** The body of an append, after its opening flush. *)
Lemma passes_append data (start : Z) :
  passes (let! _ := on_writer bw_flush in
          let! _ := on_writer (bw_write_all data) in
          let! _ := on_writer bw_flush in
          sret start) data Flushes (fun o => o = start).
Proof.
  eapply passes_weaken.
  - eapply (passes_bind _ _ [] _ Flushes Flushes); [apply passes_flush|]. intros [] _.
    eapply (passes_bind _ _ data _ Buffers Flushes); [apply passes_write|]. intros [] _.
    eapply (passes_bind _ _ [] [] Flushes Keeps); [apply passes_flush|]. intros [] _.
    by apply (passes_ret start (fun o => o = start)).
  - by rewrite !app_nil_r.
  - by left.
  - done.
Qed.

Lemma passes_append_batch bufs start e :
  batch_end start bufs = Ok e ->
  passes (let! _ := on_writer bw_flush in
          let! offsets := batch_write start [] bufs in
          let! _ := on_writer bw_flush in
          let! _ := on_file sys_sync_data in
          sret offsets) (mjoin bufs) Flushes (fun o => o = offsets_from start bufs).
Proof.
  intros He. eapply passes_weaken.
  - eapply (passes_bind _ _ [] _ Flushes Flushes); [apply passes_flush|]. intros [] _.
    eapply (passes_bind _ _ _ _ Buffers Flushes); [by eapply passes_batch_write|]. intros o ->.
    eapply (passes_bind _ _ [] _ Flushes Keeps); [apply passes_flush|]. intros [] _.
    eapply (passes_bind _ _ [] _ Keeps Keeps); [apply passes_sync_data|]. intros [] _.
    by apply (passes_ret _ (fun o => o = offsets_from start bufs)).
  - by rewrite !app_nil_r.
  - by left.
  - done.
Qed.

(** ** [SyncBackend] implements the trait's contract *)

Definition sb_inv (b : SyncBackend) : Prop := exists w, sb_writer b = Some w /\ bw_buf w = [].

Lemma rollback_locked_spec off b d w r b' d' :
  sb_writer b = Some w -> rollback_locked off (b, d) = (r, (b', d')) ->
  r <> Panic /\ sb_inv b' /\ (r = Ok tt -> sb_offset b' = off) /\
  (d_data d' = d_data d /\ r <> Ok tt \/
   d_data d' = ztake off (d_data d) ++ replicate (Z.to_nat (off - len (d_data d))) x00).
Proof.
  intros Hw. unfold rollback_locked. rewrite Hw. unfold sbind.
  destruct (sys_set_len off d) as [r1 d1] eqn:E1.
  apply sys_simple_spec in E1 as (Hp1 & _ & _ & Hd1).
  destruct r1 as [[]|e|]; [|intros; simplify_eq|done].
  - destruct (sys_sync_data d1) as [r2 d2] eqn:E2.
    apply sys_simple_spec in E2 as (Hp2 & _ & _ & Hd2). intros. simplify_eq.
    split_and!; [done|by eexists|by intros ->|]. right. rewrite <- Hd1. by destruct r.
  - split_and!; [done|by eexists|done|]. by left.
Qed.

(** Any append whose body passes [data] and ends with an empty buffer. *)
Lemma commit_or_rollback_spec {A : Type} (body : SB A) data start end_ (Q : A -> Prop) b d r b' d' :
  passes body data Flushes Q -> sb_inv b -> start = len (d_data d) -> (start <= u64_max -> start + len data <= u64_max) ->
  commit_or_rollback start end_ body (b, d) = (r, (b', d')) ->
  r <> Panic /\ sb_inv b' /\
  (forall a, r = Ok a -> Q a /\ d_data d' = d_data d ++ data /\ sb_offset b' = end_) /\
  (forall e, r = Err e -> append_failed data d d' e) /\
  (d_faults d = [] -> d_faults d' = [] /\ d_poisoned d' = d_poisoned d /\ exists a, r = Ok a).
Proof.
  intros Hb (w & Hw & Hnil) -> Hmax H. unfold commit_or_rollback in H.
  destruct (body (b, d)) as [r1 [b1 d1]] eqn:E1.
  destruct (Hb _ _ _ _ _ _ Hw E1) as (Hp & Hpo & Hf & w1 & out & Hw1 & Hd1 & Hpre & Ho).
  destruct r1 as [a|cause|]; [| |done].
  - unfold sbind, sb_set_offset, sret in H. simplify_eq.
    destruct (Ho a eq_refl) as (Hout & Hbuf & HQ). simpl in Hbuf.
    rewrite Hbuf, Hnil, app_nil_r in Hout. simpl in Hout. subst out.
    split_and!; try done.
    + by exists w1.
    + by intros ? [= <-].
    + intros [? ?]%Hf. split_and!; eauto.
  - destruct (rollback_locked _ (b1, d1)) as [r2 [b2 d2]] eqn:E2.
    destruct (rollback_locked_spec _ _ _ _ _ _ _ Hw1 E2) as (Hp2 & Hi2 & _ & Hd2).
    assert (ztake (len (d_data d)) (d_data d1) ++
            replicate (Z.to_nat (len (d_data d) - len (d_data d1))) x00 = d_data d) as Hback.
    { rewrite Hd1. replace (Z.to_nat _) with 0%nat by zlia. simpl. rewrite app_nil_r.
      rewrite ztake_app_le by lia. by apply ztake_ge. }
    rewrite Hback in Hd2.
    destruct r2 as [[]|rb|]; simplify_eq; split_and!; try done;
      try (by intros [_ [? ?]]%Hf).
    + intros e [= <-]. left. destruct Hd2 as [[_ ?]|?]; done.
    + intros e [= <-]. destruct Hd2 as [[Hd2 _]|?]; [right|by left].
      rewrite Hnil in Hpre. split; [by eauto|]. split; [|exists out; split; [done|congruence]].
      intros Hu. specialize (Hmax Hu). rewrite Hd2, Hd1, len_app. destruct Hpre as [rest Hpre]. simpl in Hpre. rewrite Hpre, len_app in Hmax. zlia.
Qed.

Lemma locked_append_spec {A : Type} (chk : Z -> result Z) (body : Z -> SB A) data
    (Q : Z -> A -> Prop) b d r b' d' :
  (forall start e, chk start = Ok e -> passes (body start) data Flushes (Q start)) ->
  (forall start, chk start <> Panic) -> (forall start e, chk start = Ok e -> start <= u64_max -> start + len data <= u64_max) ->
  sb_inv b ->
  (let! _ := lock_append in
   let! start := on_file sys_len in
   let! end_ := slift (chk start) in
   commit_or_rollback start end_ (body start)) (b, d) = (r, (b', d')) ->
  r <> Panic /\ sb_inv b' /\
  (forall a, r = Ok a -> exists e, chk (len (d_data d)) = Ok e /\ Q (len (d_data d)) a /\
     d_data d' = d_data d ++ data /\ sb_offset b' = e) /\
  (forall e, r = Err e -> append_failed data d d' e) /\
  (d_faults d = [] -> d_poisoned d = false -> (exists e, chk (len (d_data d)) = Ok e) ->
   d_faults d' = [] /\ d_poisoned d' = false /\ exists a, r = Ok a).
Proof.
  intros Hbody Hchk Hmax Hinv H. pose proof Hinv as (w & Hw & Hnil).
  unfold sbind at 1 in H. unfold lock_append in H.
  destruct (d_poisoned d) eqn:Hpo.
  { simplify_eq. split_and!; try done. intros e _. by left. }
  unfold sbind at 1 in H. unfold on_file, on_writer in H. rewrite Hw in H.
  destruct (sys_len d) as [r1 d1] eqn:E1.
  apply sys_len_spec in E1 as (Hp1 & Hpo1 & Hd1 & Hf1 & Hn1).
  assert (mkSyncBackend (Some w) (sb_offset b) = b) as Hbb by (destruct b; simpl in *; by subst).
  rewrite Hbb in H.
  destruct r1 as [start|e|]; [|simplify_eq|done].
  2: { split_and!; try done; [intros e' _; by left|by intros [? ?]%Hf1]. }
  specialize (Hn1 start eq_refl) as ->. unfold sbind at 1, slift in H.
  destruct (chk (len (d_data d))) as [e|msg|] eqn:Ec; [|simplify_eq|by apply Hchk in Ec].
  2: { split_and!; try done; [intros e' _; by left|]. by intros _ _ [? ?]. }
  rewrite <- Hd1 in H at 1. rewrite Hd1 in H.
  destruct (commit_or_rollback_spec (body (len (d_data d))) data (len (d_data d)) e
              (Q (len (d_data d))) b d1 r b' d') as (Hp & Hi & Hok & Herr & Hlive);
    [by eapply Hbody|done|by rewrite Hd1|by eapply Hmax|done|].
  split_and!; [done|done| | |].
  - intros a Hr. destruct (Hok a Hr) as (? & Hd & ?). exists e. split_and!; try done. by rewrite Hd, Hd1.
  - intros e' He. destruct (Herr e' He) as [Hd|(? & Hu & junk & ? & Hd)]; [left; congruence|right]. rewrite Hd1 in Hu, Hd. eauto.
  - intros F Hn _. destruct (Hlive (proj2 (Hf1 F))) as (? & Hpd & ?). split_and!; [done|congruence|done].
Qed.

Lemma checked_append_end_Ok o n e :
  checked_append_end o n = Ok e <-> e = o + n /\ o + n <= u64_max.
Proof.
  unfold checked_append_end, checked_add64. destruct (Z.leb_spec (o + n) u64_max); split;
    intros H'; try done; [by simplify_eq|by destruct H' as [-> ?]|lia].
Qed.

Lemma batch_end_no_panic start bufs : batch_end start bufs <> Panic.
Proof.
  revert start; induction bufs as [|buf bufs IH]; intros start; simpl; [done|].
  unfold checked_append_end. destruct (checked_add64 start (len buf)); simpl; [apply IH|done].
Qed.

Lemma sb_append_spec data b d r b' d' :
  sb_inv b -> sb_append data (b, d) = (r, (b', d')) ->
  r <> Panic /\ sb_inv b' /\
  (forall a, r = Ok a -> a = len (d_data d) /\ d_data d' = d_data d ++ data /\
     sb_offset b' = len (d_data d') /\ len (d_data d') <= u64_max) /\
  (forall e, r = Err e -> append_failed data d d' e) /\
  (d_faults d = [] -> d_poisoned d = false -> len (d_data d) + len data <= u64_max ->
   d_faults d' = [] /\ d_poisoned d' = false /\ exists a, r = Ok a).
Proof.
  intros Hinv H.
  destruct (locked_append_spec (fun start => checked_append_end start (len data)) _ data
              (fun start o => o = start) b d r b' d'
              (fun start _ _ => passes_append data start)) as (Hp & Hi & Hok & Herr & Hlive);
    [| |done|exact H|].
  - intros start. unfold checked_append_end. by destruct (checked_add64 _ _).
  - by intros start e [_ ?]%checked_append_end_Ok.
  - split_and!; try done.
    + intros a Hr. destruct (Hok a Hr) as (e & [-> Hle]%checked_append_end_Ok & -> & Hd & Ho).
      rewrite Ho, Hd, len_app. done.
    + intros F Hpo Hle. apply Hlive; try done. eexists. by apply checked_append_end_Ok.
Qed.

Lemma sb_append_batch_spec bufs b d r b' d' :
  sb_inv b -> sb_append_batch_and_sync bufs (b, d) = (r, (b', d')) ->
  r <> Panic /\ sb_inv b' /\
  (forall a, r = Ok a -> a = offsets_from (len (d_data d)) bufs /\ d_data d' = d_data d ++ mjoin bufs /\
     sb_offset b' = len (d_data d') /\ (len (d_data d) <= u64_max -> len (d_data d') <= u64_max)) /\
  (forall e, r = Err e -> append_failed (mjoin bufs) d d' e) /\
  (d_faults d = [] -> d_poisoned d = false -> len (d_data d) + len (mjoin bufs) <= u64_max ->
   d_faults d' = [] /\ d_poisoned d' = false /\ exists a, r = Ok a).
Proof.
  intros Hinv H.
  destruct (locked_append_spec (fun start => batch_end start bufs) _ (mjoin bufs)
              (fun start o => o = offsets_from start bufs) b d r b' d'
              (fun start e He => passes_append_batch bufs start e He))
    as (Hp & Hi & Hok & Herr & Hlive);
    [intros start; apply batch_end_no_panic|by intros start e [-> ?]%batch_end_spec|done|exact H|].
  split_and!; try done.
  - intros a Hr. destruct (Hok a Hr) as (e & [-> Hle]%batch_end_spec & -> & Hd & Ho).
    rewrite Ho, Hd, len_app. done.
  - intros F Hpo Hle. apply Hlive; try done. by apply batch_end_live.
Qed.

Lemma sb_rollback_spec off b d r b' d' :
  sb_inv b -> sb_rollback_to off (b, d) = (r, (b', d')) ->
  r <> Panic /\ sb_inv b' /\ (r = Ok tt -> sb_offset b' = off) /\
  (0 <= off <= len (d_data d) ->
   d_data d' = d_data d /\ r <> Ok tt \/ d_data d' = ztake off (d_data d)).
Proof.
  intros (w & Hw & Hnil) H. unfold sb_rollback_to, sbind, lock_append in H.
  destruct (d_poisoned d). { simplify_eq. split_and!; try done; [by eexists|by left]. }
  destruct (rollback_locked_spec _ _ _ _ _ _ _ Hw H) as (Hp & Hi & Ho & Hd).
  split_and!; try done. intros Hr. replace (Z.to_nat _) with 0%nat in Hd by lia.
  by rewrite app_nil_r in Hd.
Qed.

#[export] Instance sync_backend_laws : IoBackendLaws SyncBackend.
Proof.
  refine {| io_inv := sb_inv |}; simpl.
  - intros data b d off b' d' Hi H.
    destruct (sb_append_spec _ _ _ _ _ _ Hi H) as (_ & ? & Hok & _ & _).
    by destruct (Hok off eq_refl) as (? & ? & ? & ?).
  - intros data b d e b' d' Hi H.
    destruct (sb_append_spec _ _ _ _ _ _ Hi H) as (_ & ? & _ & Herr & _). by split; [apply Herr|].
  - intros data b d Hi F Hpo Hle. destruct (sb_append data (b, d)) as [r [b' d']] eqn:E.
    destruct (sb_append_spec _ _ _ _ _ _ Hi E) as (_ & _ & _ & _ & H).
    destruct (H F Hpo Hle) as (? & ? & a & ->). by exists a, b', d'.
  - intros data b d Hi. destruct (sb_append data (b, d)) as [r [b' d']] eqn:E.
    by destruct (sb_append_spec _ _ _ _ _ _ Hi E) as (? & _).
  - intros bufs b d offs b' d' Hi H.
    destruct (sb_append_batch_spec _ _ _ _ _ _ Hi H) as (_ & ? & Hok & _ & _).
    by destruct (Hok offs eq_refl) as (? & ? & ? & ?).
  - intros bufs b d e b' d' Hi H.
    destruct (sb_append_batch_spec _ _ _ _ _ _ Hi H) as (_ & ? & _ & Herr & _). by split; [apply Herr|].
  - intros bufs b d Hi F Hpo Hle.
    destruct (sb_append_batch_and_sync bufs (b, d)) as [r [b' d']] eqn:E.
    destruct (sb_append_batch_spec _ _ _ _ _ _ Hi E) as (_ & _ & _ & _ & H).
    destruct (H F Hpo Hle) as (? & ? & a & ->). by exists a, b', d'.
  - intros bufs b d Hi. destruct (sb_append_batch_and_sync bufs (b, d)) as [r [b' d']] eqn:E.
    by destruct (sb_append_batch_spec _ _ _ _ _ _ Hi E) as (? & _).
  - intros off b d b' d' Hi Hr H.
    destruct (sb_rollback_spec _ _ _ _ _ _ Hi H) as (_ & ? & Ho & Hd).
    destruct (Hd Hr) as [[_ ?]|?]; [done|]. split_and!; [done|by apply Ho|done].
  - intros off b d e b' d' Hi Hr H.
    destruct (sb_rollback_spec _ _ _ _ _ _ Hi H) as (_ & ? & Ho & Hd).
    destruct (Hd Hr) as [[? _]|?]; split; auto.
  - intros off b d Hi. destruct (sb_rollback_to off (b, d)) as [r [b' d']] eqn:E.
    by destruct (sb_rollback_spec _ _ _ _ _ _ Hi E) as (? & _).
Defined.

(** Opening a backend establishes its invariant at the end of the file. *)
Lemma sb_open_spec cap d b d' :
  sb_open cap d = (Ok b, d') -> sb_inv b /\ sb_offset b = len (d_data d) /\ d_data d' = d_data d.
Proof.
  unfold sb_open, sbind. destruct (sys_len d) as [r d1] eqn:E.
  apply sys_len_spec in E as (_ & _ & Hd & _ & Hn).
  destruct r as [n|e|]; [|done|done]. intros H. unfold sret in H. simplify_eq. simpl.
  split_and!; [by eexists|by apply Hn|done].
Qed.
