(* ===== verification/LogFormat.v ===== *)
(** * Log records: encoding and the readers ([log_part_01.rs], [log_part_02.rs],
      [log_part_03.rs])

    A record on disk is
    [crc32 u32 | timestamp_ms u64 | expire_at_ms u64 | key_size u16 | value_size u32 | key | value],
    little-endian, the checksum covering everything after itself; a tombstone has
    [value_size = u32::MAX] and no value bytes.

    The operations are the encoder ([encode_record_into], [encode_tombstone_into])
    and the readers over a [File]: sequential ([read_next_record],
    [read_next_record_metadata]) and positional ([pread_record],
    [pread_value_for_key]).

    [parse] is the reference decoder on plain bytes.  [parse_frame] shows that it
    accepts exactly the encodings of well-formed records, and each reader is shown
    to compute [parse] on a quiet file, whatever short reads occur. *)

From Stdlib Require Import ZArith Lia.
From S2P Require Import Prelude Bytes Crc Files.

Definition HEADER_SIZE : Z := 26.
Definition TOMBSTONE : Z := u32_max.
Definition MAX_VALUE_SIZE : Z := 536870912.
Definition BODY_LEN_FILE_SIZE_CHECK_THRESHOLD : Z := 65536.
Definition STREAM_READ_CHUNK_SIZE : Z := 65536.

Record Record_ : Type := mkRecord {
  timestamp_ms : Z;
  expire_at_ms : Z;
  key : bytes;
  value : option bytes;
}.

Record RecordMetadata : Type := mkRecordMetadata {
  md_timestamp_ms : Z;
  md_expire_at_ms : Z;
  md_key : bytes;
  md_value_size : Z;
  md_is_tombstone : bool;
  md_offset : Z;
  md_record_size : Z;
}.

(** [LogError::is_truncated_record]. *)
Definition is_truncated_record (e : string) : bool := String.prefix "truncated record " e.

Definition validate_kv_sizes (key value : bytes) : result unit :=
  let max_key := u16_max in
  if max_key <? len key then
    Err ("key too large: " +:+ pretty (len key) +:+ " bytes (max " +:+ pretty max_key +:+ ")")
  else if MAX_VALUE_SIZE <? len value then
    Err ("value too large: " +:+ pretty (len value) +:+ " bytes (max " +:+ pretty MAX_VALUE_SIZE +:+ ")")
  else Ok tt.

Definition decoded_value_size (value_size_raw : Z) (is_tombstone : bool) : result Z :=
  if is_tombstone then Ok 0 else
  let value_size := value_size_raw in
  if MAX_VALUE_SIZE <? value_size then
    Err ("value too large in log record: " +:+ pretty value_size +:+ " bytes (max "
         +:+ pretty MAX_VALUE_SIZE +:+ ")")
  else Ok value_size.

Definition checked_record_body_len (key_size value_size : Z) : result Z :=
  ok_or (checked_add64 key_size value_size) "record body length overflow".

Definition record_len (key_len value_len : Z) : Z := HEADER_SIZE + key_len + value_len.
Definition tombstone_len (key_len : Z) : Z := HEADER_SIZE + key_len.

Definition crc_mismatch (stored computed : Z) : string :=
  "CRC mismatch: stored=" +:+ pretty stored +:+ ", computed=" +:+ pretty computed.

Definition truncated_record (label : string) (n : Z) : string :=
  "truncated record " +:+ label +:+ ": expected " +:+ pretty n +:+ " bytes".

(** The header fields at their offsets. *)
Definition hdr_crc (h : bytes) : Z := le_val (zslice h 0 4).
Definition hdr_timestamp_ms (h : bytes) : Z := le_val (zslice h 4 12).
Definition hdr_expire_at_ms (h : bytes) : Z := le_val (zslice h 12 20).
Definition hdr_key_size (h : bytes) : Z := le_val (zslice h 20 22).
Definition hdr_value_size_raw (h : bytes) : Z := le_val (zslice h 22 26).

(** ** Sequential byte sources *)

Fixpoint read_record_header_loop (fuel : nat) (header : bytes) (f : File) : result (option bytes) * File :=
  if HEADER_SIZE <=? len header then (Ok (Some header), f) else
  match fuel with
  | O => (Panic, f)
  | S fuel =>
      match file_read (HEADER_SIZE - len header) f with
      | (ReadOk [], f') =>
          if len header =? 0 then (Ok None, f')
          else (Err ("truncated record header: expected " +:+ pretty HEADER_SIZE +:+ " bytes, got "
                     +:+ pretty (len header)), f')
      | (ReadOk bs, f') => read_record_header_loop fuel (header ++ bs) f'
      | (ReadIntr, f') => read_record_header_loop fuel header f'
      | (ReadErr m, f') => (Err m, f')
      end
  end.

Definition read_record_header : SR File (option bytes) := fun f =>
  read_record_header_loop (length (f_events f) + 3) [] f.

Fixpoint read_exact_vec_loop (fuel : nat) (out : bytes) (remaining : Z) (total : Z) (label : string)
    (f : File) : result bytes * File :=
  if remaining <=? 0 then (Ok out, f) else
  match fuel with
  | O => (Panic, f)
  | S fuel =>
      let to_read := Z.min remaining STREAM_READ_CHUNK_SIZE in
      match read_exact to_read f with
      | (ExactOk chunk, f') => read_exact_vec_loop fuel (out ++ chunk) (remaining - to_read) total label f'
      | (ExactEof, f') => (Err (truncated_record label total), f')
      | (ExactErr m, f') => (Err m, f')
      end
  end.

Definition chunk_fuel (n : Z) : nat := Z.to_nat (n / STREAM_READ_CHUNK_SIZE) + 1.

Definition read_exact_vec (n : Z) (label : string) : SR File bytes := fun f =>
  read_exact_vec_loop (chunk_fuel n) [] n n label f.

Section WithCrc.
Context {C : Crc32fast}.

Definition crc32 (data : bytes) : Z := crc32_hash data.

Fixpoint hash_exact_loop (fuel : nat) (remaining : Z) (hasher : Hasher) (total : Z) (label : string)
    (f : File) : result Hasher * File :=
  if remaining <=? 0 then (Ok hasher, f) else
  match fuel with
  | O => (Panic, f)
  | S fuel =>
      let to_read := Z.min remaining STREAM_READ_CHUNK_SIZE in
      match read_exact to_read f with
      | (ExactOk chunk, f') =>
          hash_exact_loop fuel (remaining - to_read) (hasher_update hasher chunk) total label f'
      | (ExactEof, f') => (Err (truncated_record label total), f')
      | (ExactErr m, f') => (Err m, f')
      end
  end.

Definition hash_exact (n : Z) (hasher : Hasher) (label : string) : SR File Hasher := fun f =>
  hash_exact_loop (chunk_fuel n) n hasher n label f.

(** ** Encoding *)

(** [now_ms] is the clock read by the call; casts to [u16]/[u32] keep the low bytes. *)
Definition encode_record_into (now_ms : Z) (buf key value : bytes) (expire_at_ms : Z) : bytes :=
  let start := len buf in
  let key_size := len key in
  let value_size := len value in
  let buf := buf ++ [x00; x00; x00; x00] in
  let buf := buf ++ le_bytes 8 now_ms in
  let buf := buf ++ le_bytes 8 expire_at_ms in
  let buf := buf ++ le_bytes 2 key_size in
  let buf := buf ++ le_bytes 4 value_size in
  let buf := buf ++ key in
  let buf := buf ++ value in
  let crc := crc32 (zdrop (start + 4) buf) in
  copy_from_slice buf start (le_bytes 4 crc).

Definition encode_tombstone_into (now_ms : Z) (buf key : bytes) : bytes :=
  let start := len buf in
  let key_size := len key in
  let buf := buf ++ [x00; x00; x00; x00] in
  let buf := buf ++ le_bytes 8 now_ms in
  let buf := buf ++ le_bytes 8 0 in
  let buf := buf ++ le_bytes 2 key_size in
  let buf := buf ++ le_bytes 4 TOMBSTONE in
  let buf := buf ++ key in
  let crc := crc32 (zdrop (start + 4) buf) in
  copy_from_slice buf start (le_bytes 4 crc).

Definition encode_record (now_ms : Z) (key value : bytes) (expire_at_ms : Z) : bytes :=
  encode_record_into now_ms [] key value expire_at_ms.

Definition encode_tombstone (now_ms : Z) (key : bytes) : bytes :=
  encode_tombstone_into now_ms [] key.

(** ** Sequential readers *)

(** [hasher.update(&header[4..]); hasher.update(&key)]. *)
Definition hash_header_key (header key : bytes) : Hasher :=
  hasher_update (hasher_update hasher_new (zdrop 4 header)) key.

Definition read_next_record : SR File (option Record_) :=
  let! h := read_record_header in
  match h with
  | None => sret None
  | Some header =>
      let stored_crc := hdr_crc header in
      let timestamp := hdr_timestamp_ms header in
      let expire := hdr_expire_at_ms header in
      let key_size := hdr_key_size header in
      let value_size_raw := hdr_value_size_raw header in
      let is_tombstone := value_size_raw =? TOMBSTONE in
      let! value_size := slift (decoded_value_size value_size_raw is_tombstone) in
      let! key := read_exact_vec key_size "key" in
      let! value := (if is_tombstone then sret [] else read_exact_vec value_size "value") in
      let hasher := hash_header_key header key in
      let hasher := if is_tombstone then hasher else hasher_update hasher value in
      let computed_crc := hasher_finalize hasher in
      if computed_crc =? stored_crc then
        sret (Some (mkRecord timestamp expire key (if is_tombstone then None else Some value)))
      else serr (crc_mismatch stored_crc computed_crc)
  end.

Definition read_next_record_metadata (offset : Z) : SR File (option RecordMetadata) :=
  let! h := read_record_header in
  match h with
  | None => sret None
  | Some header =>
      let stored_crc := hdr_crc header in
      let timestamp := hdr_timestamp_ms header in
      let expire := hdr_expire_at_ms header in
      let key_size := hdr_key_size header in
      let value_size_raw := hdr_value_size_raw header in
      let is_tombstone := value_size_raw =? TOMBSTONE in
      let! value_size := slift (decoded_value_size value_size_raw is_tombstone) in
      let! key := read_exact_vec key_size "key" in
      let hasher := hash_header_key header key in
      let! hasher := (if is_tombstone then sret hasher else hash_exact value_size hasher "value") in
      let computed_crc := hasher_finalize hasher in
      if computed_crc =? stored_crc then
        let record_size := HEADER_SIZE + key_size + (if is_tombstone then 0 else value_size) in
        sret (Some (mkRecordMetadata timestamp expire key
                (if is_tombstone then 0 else value_size_raw) is_tombstone offset record_size))
      else serr (crc_mismatch stored_crc computed_crc)
  end.

(** ** Positional readers *)

Definition short_read (label : string) (expected got : Z) : string :=
  "pread " +:+ label +:+ " short read: expected " +:+ pretty expected +:+ " B, got "
  +:+ pretty got +:+ " B".

(** [Some buf] is [Ok(true)] with the buffer filled, [None] is [Ok(false)]. *)
Fixpoint read_exact_at_or_eof_loop (fuel : nat) (n : Z) (buf : bytes) (offset : Z) (label : string)
    (f : File) : result (option bytes) * File :=
  if n <=? len buf then (Ok (Some buf), f) else
  match fuel with
  | O => (Panic, f)
  | S fuel =>
      match checked_add64 offset (len buf) with
      | None => (Err ("pread " +:+ label +:+ " offset overflow"), f)
      | Some read_offset =>
          match read_at (n - len buf) read_offset f with
          | (ReadOk [], f') =>
              if len buf =? 0 then (Ok None, f') else (Err (short_read label n (len buf)), f')
          | (ReadOk bs, f') => read_exact_at_or_eof_loop fuel n (buf ++ bs) offset label f'
          | (ReadIntr, f') => (Err intr_message, f')
          | (ReadErr m, f') => (Err m, f')
          end
      end
  end.

Definition read_exact_at_or_eof (n offset : Z) (label : string) : SR File (option bytes) := fun f =>
  read_exact_at_or_eof_loop (length (f_events f) + 3) n [] offset label f.

Definition read_exact_at_required (n offset : Z) (label : string) : SR File bytes :=
  let! r := read_exact_at_or_eof n offset label in
  match r with
  | Some buf => sret buf
  | None => serr (short_read label n 0)
  end.

(** The guard on bodies above the threshold, shared by the positional readers:
    both additions are checked, and the body must end inside the file. *)
Definition check_body_end (start_overflow end_overflow past_end : string)
    (start : option Z) (n : Z) : SR File unit := fun f =>
  match start with
  | None => (Err start_overflow, f)
  | Some start =>
      match checked_add64 start n with
      | None => (Err end_overflow, f)
      | Some end_ =>
          if file_len f <? end_ then
            (Err (past_end +:+ pretty end_ +:+ ", file_len=" +:+ pretty (file_len f)), f)
          else (Ok tt, f)
      end
  end.

Definition pread_record (offset : Z) : SR File (option Record_) :=
  let! h := read_exact_at_or_eof HEADER_SIZE offset "header" in
  match h with
  | None => sret None
  | Some header =>
      let stored_crc := hdr_crc header in
      let timestamp := hdr_timestamp_ms header in
      let expire := hdr_expire_at_ms header in
      let key_size := hdr_key_size header in
      let value_size_raw := hdr_value_size_raw header in
      let is_tombstone := value_size_raw =? TOMBSTONE in
      let! value_size := slift (decoded_value_size value_size_raw is_tombstone) in
      let! body_len := slift (checked_record_body_len key_size value_size) in
      let! _ := (if BODY_LEN_FILE_SIZE_CHECK_THRESHOLD <? body_len then
                   check_body_end "record body offset overflow" "record body end offset overflow"
                     "record body extends past end of file: end=" (checked_add64 offset HEADER_SIZE) body_len
                 else sret tt) in
      let! body := (if 0 <? body_len then
                      let! body_offset := slift (ok_or (checked_add64 offset HEADER_SIZE)
                                                   "record body offset overflow") in
                      read_exact_at_required body_len body_offset "body"
                    else sret []) in
      let key := ztake key_size body in
      let value := zdrop key_size body in
      let hasher := hash_header_key header key in
      let hasher := if is_tombstone then hasher else hasher_update hasher value in
      let computed_crc := hasher_finalize hasher in
      if computed_crc =? stored_crc then
        sret (Some (mkRecord timestamp expire key (if is_tombstone then None else Some value)))
      else serr (crc_mismatch stored_crc computed_crc)
  end.

Definition pread_value_for_key (offset : Z) (expected_key : bytes) : SR File (option (option bytes)) :=
  let! h := read_exact_at_or_eof HEADER_SIZE offset "header" in
  match h with
  | None => sret None
  | Some header =>
      let stored_crc := hdr_crc header in
      let key_size := hdr_key_size header in
      let value_size_raw := hdr_value_size_raw header in
      let! key := (if 0 <? key_size then
                     let! key_offset := slift (ok_or (checked_add64 offset HEADER_SIZE)
                                                 "keyed pread key offset overflow") in
                     read_exact_at_required key_size key_offset "key"
                   else sret []) in
      if negb (bytes_eqb key expected_key) then sret None else
      let is_tombstone := value_size_raw =? TOMBSTONE in
      let! value_size := slift (decoded_value_size value_size_raw is_tombstone) in
      let value_start := off ← checked_add64 offset HEADER_SIZE; checked_add64 off key_size in
      let! _ := (if negb is_tombstone && (BODY_LEN_FILE_SIZE_CHECK_THRESHOLD <? value_size) then
                   check_body_end "keyed pread value offset overflow" "keyed pread value end overflow"
                     "record value extends past end of file: end=" value_start value_size
                 else sret tt) in
      let! value := (if is_tombstone then sret [] else
                     if 0 <? value_size then
                       let! value_offset := slift (ok_or value_start "keyed pread value offset overflow") in
                       read_exact_at_required value_size value_offset "value"
                     else sret []) in
      let hasher := hash_header_key header key in
      let hasher := if is_tombstone then hasher else hasher_update hasher value in
      let computed_crc := hasher_finalize hasher in
      if computed_crc =? stored_crc then
        (if is_tombstone then sret (Some None) else sret (Some (Some value)))
      else serr (crc_mismatch stored_crc computed_crc)
  end.

End WithCrc.

(** ** Reference decoder *)

Section WithCrcSpec.
Context {C : Crc32fast}.

(** The bytes the checksum covers, and the whole record. *)
Definition frame_body (r : Record_) : bytes :=
  le_bytes 8 (timestamp_ms r) ++ le_bytes 8 (expire_at_ms r) ++ le_bytes 2 (len (key r)) ++
  le_bytes 4 (match value r with Some v => len v | None => TOMBSTONE end) ++
  key r ++ default [] (value r).
Definition frame (r : Record_) : bytes := le_bytes 4 (crc32 (frame_body r)) ++ frame_body r.

Definition record_ok (r : Record_) : Prop :=
  u64_ok (timestamp_ms r) /\ u64_ok (expire_at_ms r) /\ len (key r) <= u16_max /\
  match value r with Some v => len v <= MAX_VALUE_SIZE | None => True end.

Definition frame_len (r : Record_) : Z := HEADER_SIZE + len (key r) + len (default [] (value r)).

Definition parse (rest : bytes) : result (option (Record_ * Z)) :=
  if len rest =? 0 then Ok None else
  if len rest <? HEADER_SIZE then
    Err ("truncated record header: expected " +:+ pretty HEADER_SIZE +:+ " bytes, got "
         +:+ pretty (len rest))
  else
  let header := ztake HEADER_SIZE rest in
  let body := zdrop HEADER_SIZE rest in
  let key_size := hdr_key_size header in
  let is_tombstone := hdr_value_size_raw header =? TOMBSTONE in
  let? value_size := decoded_value_size (hdr_value_size_raw header) is_tombstone in
  if len body <? key_size then Err (truncated_record "key" key_size) else
  let key := ztake key_size body in
  if len (zdrop key_size body) <? value_size then Err (truncated_record "value" value_size) else
  let value := ztake value_size (zdrop key_size body) in
  let computed := crc32 (zdrop 4 header ++ key ++ value) in
  if computed =? hdr_crc header then
    Ok (Some (mkRecord (hdr_timestamp_ms header) (hdr_expire_at_ms header) key
                (if is_tombstone then None else Some value), HEADER_SIZE + key_size + value_size))
  else Err (crc_mismatch (hdr_crc header) computed).

(** What the metadata reader reports for a record. *)
Definition metadata_of (offset : Z) (r : Record_) : RecordMetadata :=
  mkRecordMetadata (timestamp_ms r) (expire_at_ms r) (key r) (len (default [] (value r)))
    (if value r is None then true else false) offset (frame_len r).

End WithCrcSpec.
#[global] Arguments parse : simpl never.
#[global] Arguments frame : simpl never.
#[global] Arguments frame_body : simpl never.

(** ** Codec lemmas *)

Lemma HEADER_SIZE_val : HEADER_SIZE = 26.
Proof. done. Qed.
#[global] Hint Rewrite HEADER_SIZE_val : zlen.

Section WithCrcProofs.
Context {C : Crc32fast} {L : Crc32fastLaws C}.

Lemma len_frame_body r : len (frame_body r) = frame_len r - 4.
Proof. unfold frame_body, frame_len, HEADER_SIZE. zlia. Qed.
Lemma len_frame r : len (frame r) = frame_len r.
Proof. unfold frame. rewrite len_app, len_frame_body, len_le_bytes. lia. Qed.
Lemma frame_len_ge r : HEADER_SIZE <= frame_len r.
Proof. unfold frame_len. zlia. Qed.

(** The encoders append one frame to the buffer. *)
Lemma patch_crc (buf body : bytes) :
  copy_from_slice (buf ++ [x00; x00; x00; x00] ++ body) (len buf)
    (le_bytes 4 (crc32 (zdrop (len buf + 4) (buf ++ [x00; x00; x00; x00] ++ body)))) =
  buf ++ le_bytes 4 (crc32 body) ++ body.
Proof.
  assert (zdrop (len buf + 4) (buf ++ [x00; x00; x00; x00] ++ body) = body) as E.
  { rewrite zdrop_app_ge by zlia. rewrite zdrop_app_ge by zlia. apply zdrop_0. zlia. }
  unfold copy_from_slice. rewrite len_le_bytes, E, ztake_app_le, ztake_ge by lia.
  f_equal. f_equal. by change (Z.of_nat 4) with 4.
Qed.

Lemma encode_record_into_frame now buf k v expire :
  encode_record_into now buf k v expire = buf ++ frame (mkRecord now expire k (Some v)).
Proof. unfold encode_record_into. rewrite <- !app_assoc. apply patch_crc. Qed.

Lemma encode_tombstone_into_frame now buf k :
  encode_tombstone_into now buf k = buf ++ frame (mkRecord now 0 k None).
Proof.
  unfold encode_tombstone_into. rewrite <- !app_assoc.
  rewrite patch_crc. unfold frame, frame_body. simpl. by rewrite !app_nil_r.
Qed.

(** Fields of an encoded header. *)
Lemma frame_fields r rest :
  record_ok r ->
  let header := ztake HEADER_SIZE (frame r ++ rest) in
  hdr_crc header = crc32 (frame_body r) /\
  hdr_timestamp_ms header = timestamp_ms r /\ hdr_expire_at_ms header = expire_at_ms r /\
  hdr_key_size header = len (key r) /\
  hdr_value_size_raw header = match value r with Some v => len v | None => TOMBSTONE end /\
  zdrop HEADER_SIZE (frame r ++ rest) = key r ++ default [] (value r) ++ rest /\
  zdrop 4 header ++ key r ++ default [] (value r) = frame_body r.
Proof.
  intros (Ht & He & Hk & Hv).
  set (vs := match value r with Some v => len v | None => TOMBSTONE end).
  set (ts := le_bytes 8 (timestamp_ms r)). set (ex := le_bytes 8 (expire_at_ms r)).
  set (ks := le_bytes 2 (len (key r))). set (vb := le_bytes 4 vs).
  set (crc := le_bytes 4 (crc32 (frame_body r))).
  assert (len ts = 8 /\ len ex = 8 /\ len ks = 2 /\ len vb = 4 /\ len crc = 4) as (? & ? & ? & ? & ?)
    by (unfold ts, ex, ks, vb, crc; by rewrite !len_le_bytes).
  assert (frame r ++ rest = (crc ++ ts ++ ex ++ ks ++ vb) ++ key r ++ default [] (value r) ++ rest) as Hs.
  { unfold frame, frame_body. by rewrite <- !app_assoc. }
  assert (len (crc ++ ts ++ ex ++ ks ++ vb) = HEADER_SIZE) as Hl by zlia.
  rewrite Hs. rewrite ztake_app_le, ztake_ge by lia. rewrite zdrop_app_ge, zdrop_0 by lia.
  unfold hdr_crc, hdr_timestamp_ms, hdr_expire_at_ms, hdr_key_size, hdr_value_size_raw. cbv zeta.
  split_and!.
  - zslices. apply le_val_u32, crc32_hash_u32.
  - zslices. by apply le_val_u64.
  - zslices. by apply le_val_u64.
  - zslices. apply le_val_u16. unfold u16_ok. zlia.
  - zslices. apply le_val_u32. unfold vs, u32_ok, TOMBSTONE, u32_max, MAX_VALUE_SIZE in *.
    destruct (value r); zlia.
  - done.
  - zslices. unfold frame_body. by rewrite <- !app_assoc.
Qed.

(** Decoding an encoded record. *)
Lemma parse_frame_app r rest :
  record_ok r -> parse (frame r ++ rest) = Ok (Some (r, frame_len r)).
Proof.
  intros Hok. pose proof Hok as (Ht & He & Hk & Hv).
  destruct (frame_fields r rest Hok) as (Fc & Ft & Fe & Fk & Fv & Fb & Fh).
  unfold parse. rewrite len_app, len_frame.
  pose proof (frame_len_ge r). pose proof (len_nonneg rest). pose proof HEADER_SIZE_val.
  destruct (Z.eqb_spec (frame_len r + len rest) 0); [lia|].
  destruct (Z.ltb_spec (frame_len r + len rest) HEADER_SIZE); [lia|].
  rewrite Fc, Ft, Fe, Fk, Fv, Fb.
  assert (decoded_value_size (match value r with Some v => len v | None => TOMBSTONE end)
            ((match value r with Some v => len v | None => TOMBSTONE end) =? TOMBSTONE)
          = Ok (len (default [] (value r)))) as ->.
  { unfold decoded_value_size. destruct (value r) as [v|]; simpl; [|done].
    destruct (Z.eqb_spec (len v) TOMBSTONE) as [E|]; unfold TOMBSTONE, u32_max, MAX_VALUE_SIZE in *; [lia|].
    destruct (Z.ltb_spec 536870912 (len v)); [lia|done]. }
  cbn [rbind]. rewrite (zdrop_app_ge (len (key r))), Z.sub_diag, zdrop_0 by lia.
  rewrite (ztake_app_le (len (key r)) (key r)), (ztake_ge (len (key r))) by lia.
  rewrite (ztake_app_le _ (default [] (value r))), (ztake_ge _ (default [] (value r))) by lia. rewrite Fh.
  rewrite !len_app. len_facts.
  destruct (Z.ltb_spec (len (key r) + (len (default [] (value r)) + len rest)) (len (key r))); [lia|].
  destruct (Z.ltb_spec (len (default [] (value r)) + len rest) (len (default [] (value r)))); [lia|].
  rewrite Z.eqb_refl. do 3 f_equal. destruct r as [t e k [v|]]; simpl in *; [|done].
  destruct (Z.eqb_spec (len v) TOMBSTONE); [|done]. unfold TOMBSTONE, u32_max, MAX_VALUE_SIZE in *. lia.
Qed.

Lemma header_split (h : bytes) :
  len h = HEADER_SIZE ->
  h = zslice h 0 4 ++ zslice h 4 12 ++ zslice h 12 20 ++ zslice h 20 22 ++ zslice h 22 26.
Proof.
  intros Hl. rewrite !zslice_join by lia. symmetry. apply zslice_full; unfold HEADER_SIZE in Hl; lia.
Qed.

(** Whatever the decoder accepts is the encoding of what it returns. *)
Lemma parse_inv rest r n :
  parse rest = Ok (Some (r, n)) ->
  record_ok r /\ n = frame_len r /\ exists rest', rest = frame r ++ rest'.
Proof.
  unfold parse. destruct (Z.eqb_spec (len rest) 0); [done|].
  destruct (Z.ltb_spec (len rest) HEADER_SIZE) as [|Hl]; [done|].
  set (h := ztake HEADER_SIZE rest). set (body := zdrop HEADER_SIZE rest).
  assert (len h = HEADER_SIZE) as Hh by (unfold h; rewrite len_ztake by done; lia).
  assert (rest = h ++ body) as Hrest by (unfold h, body; by rewrite ztake_zdrop).
  clearbody h body. intros H.
  destruct (decoded_value_size _ _) as [vs|e|] eqn:Ev; simpl in H; [|done|done].
  destruct (Z.ltb_spec (len body) (hdr_key_size h)) as [|Hk]; [done|].
  destruct (Z.ltb_spec (len (zdrop (hdr_key_size h) body)) vs) as [|Hv]; [done|].
  destruct (Z.eqb_spec (crc32 (zdrop 4 h ++ ztake (hdr_key_size h) body ++
              ztake vs (zdrop (hdr_key_size h) body))) (hdr_crc h)) as [Hcrc|]; [|done].
  simplify_eq.
  assert (u16_ok (hdr_key_size h)) as [Hk0 Hk1].
  { apply le_val_u16_ok. rewrite len_zslice; unfold HEADER_SIZE in Hh; lia. }
  assert (u32_ok (hdr_value_size_raw h)) as Hraw.
  { apply le_val_u32_ok. rewrite len_zslice; unfold HEADER_SIZE in Hh; lia. }
  set (tomb := hdr_value_size_raw h =? TOMBSTONE) in *.
  set (k := ztake (hdr_key_size h) body) in *.
  set (v := ztake vs (zdrop (hdr_key_size h) body)) in *.
  assert (len k = hdr_key_size h) as Hlk by (unfold k; zlia).
  assert (0 <= vs <= MAX_VALUE_SIZE /\ (tomb = true -> vs = 0) /\
          (tomb = false -> vs = hdr_value_size_raw h)) as (Hvs & Hvt & Hvf).
  { unfold decoded_value_size in Ev. destruct tomb; simplify_eq; [done|].
    destruct (Z.ltb_spec MAX_VALUE_SIZE (hdr_value_size_raw h)); simplify_eq.
    destruct Hraw. done. }
  assert (len v = vs) as Hlv by (unfold v; zlia).
  assert (u64_ok (hdr_timestamp_ms h) /\ u64_ok (hdr_expire_at_ms h)) as [Hts Hex].
  { split; apply le_val_u64_ok; rewrite len_zslice; unfold HEADER_SIZE in Hh; lia. }
  assert (default [] (if tomb then None else Some v) = v) as Hdv.
  { destruct tomb; [|done]. simpl. symmetry. apply len_zero. by rewrite Hlv, Hvt. }
  assert (frame_body (mkRecord (hdr_timestamp_ms h) (hdr_expire_at_ms h) k
            (if tomb then None else Some v)) = zdrop 4 h ++ k ++ v) as Hbody.
  { unfold frame_body. cbn [timestamp_ms expire_at_ms key value]. rewrite Hdv.
    replace (match (if tomb then None else Some v) with Some v => len v | None => TOMBSTONE end)
      with (hdr_value_size_raw h).
    2: { destruct tomb eqn:Et; [by apply Z.eqb_eq in Et|]. rewrite Hlv. symmetry. by apply Hvf. }
    rewrite Hlk. unfold hdr_timestamp_ms, hdr_expire_at_ms, hdr_key_size, hdr_value_size_raw.
    rewrite (le_bytes_of (zslice h 4 12)), (le_bytes_of (zslice h 12 20)),
      (le_bytes_of (zslice h 20 22)), (le_bytes_of (zslice h 22 26))
      by (rewrite len_zslice; unfold HEADER_SIZE in Hh; lia).
    rewrite (app_assoc (zdrop 4 h)), !app_assoc. do 2 f_equal. rewrite <- !app_assoc.
    rewrite !zslice_join by lia. unfold zslice. apply ztake_ge. unfold HEADER_SIZE in Hh. zlia. }
  split; [|split].
  - unfold record_ok. cbn [timestamp_ms expire_at_ms key value]. split_and!; try done; [lia|].
    destruct tomb; [done|lia].
  - unfold frame_len. cbn [key value]. rewrite Hdv. lia.
  - exists (zdrop vs (zdrop (hdr_key_size h) body)).
    unfold frame. rewrite Hbody, Hcrc.
    rewrite (le_bytes_of (zslice h 0 4)) by (rewrite len_zslice; unfold HEADER_SIZE in Hh; lia).
    rewrite <- !app_assoc. unfold v. rewrite ztake_zdrop. unfold k. rewrite ztake_zdrop.
    rewrite app_assoc. f_equal. unfold zslice. rewrite zdrop_0 by lia. by rewrite ztake_zdrop.
Qed.

(** ** The sequential readers compute [parse] *)

Lemma read_record_header_loop_quiet fuel acc f rest :
  len acc < HEADER_SIZE -> reads f rest -> (length (f_events f) + 3 <= fuel)%nat ->
  exists f', f_data f' = f_data f /\
    if len (acc ++ rest) =? 0 then
      read_record_header_loop fuel acc f = (Ok None, f') /\ reads f' []
    else if len (acc ++ rest) <? HEADER_SIZE then
      read_record_header_loop fuel acc f =
        (Err ("truncated record header: expected " +:+ pretty HEADER_SIZE +:+ " bytes, got "
              +:+ pretty (len (acc ++ rest))), f')
    else
      read_record_header_loop fuel acc f = (Ok (Some (ztake HEADER_SIZE (acc ++ rest))), f') /\
      reads f' (zdrop HEADER_SIZE (acc ++ rest)) /\ f_pos f' = f_pos f + HEADER_SIZE - len acc.
Proof.
  revert acc f rest. induction fuel as [|fuel IH]; intros acc f rest Hacc Hr Hf; [lia|].
  cbn [read_record_header_loop]. destruct (Z.leb_spec HEADER_SIZE (len acc)); [lia|].
  destruct (file_read_quiet (HEADER_SIZE - len acc) f rest ltac:(lia) Hr)
    as [(f' & -> & Hr' & Hd & Hp' & Hlt)|(k & f' & Hk & -> & Hr' & Hd & Hp' & Hev)].
  - destruct (IH acc f' rest Hacc Hr' ltac:(lia)) as (f'' & Hd'' & Hcase).
    exists f''. split; [congruence|]. by rewrite <- Hp'.
  - destruct (ztake k rest) as [|b bs] eqn:E.
    { apply ztake_nil_inv in E; [|lia]. subst rest. rewrite app_nil_r. exists f'. split; [done|].
      rewrite zdrop_ge in Hr' by zlia. destruct (Z.eqb_spec (len acc) 0); [done|].
      destruct (Z.ltb_spec (len acc) HEADER_SIZE); [done|lia]. }
    rewrite <- E in *. clear E b bs.
    replace (acc ++ rest) with ((acc ++ ztake k rest) ++ zdrop k rest)
      by (rewrite <- app_assoc; by rewrite ztake_zdrop).
    destruct (decide (len (acc ++ ztake k rest) < HEADER_SIZE)) as [Hlt|Hge].
    + destruct Hev as [Hev|[Hnil ->]].
      * destruct (IH (acc ++ ztake k rest) f' (zdrop k rest) Hlt Hr' ltac:(lia)) as (f'' & Hd'' & Hcase).
        exists f''. split; [congruence|].
        destruct (_ =? 0); [done|]. destruct (_ <? HEADER_SIZE); [done|].
        destruct Hcase as (? & ? & ?). split_and!; [done|done|]. rewrite len_app in *. lia.
      * (* all of the file was read and the header is still short *)
        assert (zdrop (HEADER_SIZE - len acc) rest = []) as Hz
          by (rewrite len_app, len_ztake in Hlt by lia; apply zdrop_ge; lia).
        rewrite Hz, app_nil_r in *. exists f'.
        destruct fuel as [|fuel]; [lia|]. cbn [read_record_header_loop].
        destruct (Z.leb_spec HEADER_SIZE (len (acc ++ ztake (HEADER_SIZE - len acc) rest))); [lia|].
        rewrite (file_read_eof _ _ Hr' Hnil). cbv zeta iota beta. split; [done|].
        destruct (Z.eqb_spec (len (acc ++ ztake (HEADER_SIZE - len acc) rest)) 0).
        { done. }
        destruct (Z.ltb_spec (len (acc ++ ztake (HEADER_SIZE - len acc) rest)) HEADER_SIZE); [done|lia].
    + assert (len (acc ++ ztake k rest) = HEADER_SIZE) as Hex
        by (rewrite len_app, len_ztake in * by lia; lia).
      exists f'. split; [done|]. rewrite len_app, Hex.
      assert (len (ztake k rest) = HEADER_SIZE - len acc) by (rewrite len_app in Hex; lia).
      pose proof HEADER_SIZE_val. len_facts.
      destruct (Z.eqb_spec (HEADER_SIZE + len (zdrop k rest)) 0); [lia|].
      destruct (Z.ltb_spec (HEADER_SIZE + len (zdrop k rest)) HEADER_SIZE); [lia|].
      rewrite ztake_app_le, (ztake_ge HEADER_SIZE), (zdrop_app_ge HEADER_SIZE) by lia.
      rewrite (zdrop_0 (HEADER_SIZE - _)) by lia.
      destruct fuel; [lia|]. cbn [read_record_header_loop].
      destruct (Z.leb_spec HEADER_SIZE (len (acc ++ ztake k rest))); [|lia].
      split_and!; [done|done|lia].
Qed.

Lemma read_record_header_quiet f rest :
  reads f rest ->
  exists f', f_data f' = f_data f /\
    if len rest =? 0 then read_record_header f = (Ok None, f') /\ reads f' []
    else if len rest <? HEADER_SIZE then
      read_record_header f =
        (Err ("truncated record header: expected " +:+ pretty HEADER_SIZE +:+ " bytes, got "
              +:+ pretty (len rest)), f')
    else
      read_record_header f = (Ok (Some (ztake HEADER_SIZE rest)), f') /\
      reads f' (zdrop HEADER_SIZE rest) /\ f_pos f' = f_pos f + HEADER_SIZE.
Proof.
  intros Hr. destruct (read_record_header_loop_quiet (length (f_events f) + 3) [] f rest)
    as (f' & Hd & H); [done|done|lia|]. exists f'. split; [done|].
  cbn [app] in H. destruct (_ =? 0); [done|]. destruct (_ <? _); [done|].
  destruct H as (? & ? & Hp). rewrite len_nil in Hp. split_and!; [done|done|lia].
Qed.

Lemma chunk_fuel_enough n : 0 <= n -> n <= Z.of_nat (chunk_fuel n) * STREAM_READ_CHUNK_SIZE.
Proof.
  intros. unfold chunk_fuel, STREAM_READ_CHUNK_SIZE.
  pose proof (Z.div_mod n 65536 ltac:(lia)). pose proof (Z.mod_pos_bound n 65536 ltac:(lia)).
  pose proof (Z.div_pos n 65536 ltac:(lia) ltac:(lia)). lia.
Qed.

Lemma read_exact_vec_loop_quiet fuel out rem total label f rest :
  0 <= rem -> reads f rest -> rem <= Z.of_nat fuel * STREAM_READ_CHUNK_SIZE ->
  exists f', f_data f' = f_data f /\
    if rem <=? len rest then
      read_exact_vec_loop fuel out rem total label f = (Ok (out ++ ztake rem rest), f') /\
      reads f' (zdrop rem rest) /\ f_pos f' = f_pos f + rem
    else read_exact_vec_loop fuel out rem total label f = (Err (truncated_record label total), f').
Proof.
  revert out rem f rest. induction fuel as [|fuel IH]; intros out rem f rest Hrem Hr Hf;
    cbn [read_exact_vec_loop].
  - destruct (Z.leb_spec rem 0); [|lia]. exists f. split; [done|].
    destruct (Z.leb_spec rem (len rest)); [|zlia].
    rewrite ztake_0, zdrop_0, app_nil_r by lia. split_and!; [done|done|lia].
  - destruct (Z.leb_spec rem 0).
    { exists f. split; [done|]. destruct (Z.leb_spec rem (len rest)); [|zlia].
      rewrite ztake_0, zdrop_0, app_nil_r by lia. split_and!; [done|done|lia]. }
    assert (STREAM_READ_CHUNK_SIZE = 65536) as HC by done.
    set (n := Z.min rem STREAM_READ_CHUNK_SIZE) in *.
    destruct (read_exact_quiet n f rest ltac:(lia) Hr) as (f' & Hd & H').
    destruct (Z.leb_spec n (len rest)) as [Hn|Hn].
    + destruct H' as (-> & Hr' & Hp').
      destruct (IH (out ++ ztake n rest) (rem - n) f' (zdrop n rest)) as (f'' & Hd'' & Hc);
        [lia|done|lia|]. exists f''. split; [congruence|].
      assert ((rem - n <=? len (zdrop n rest)) = (rem <=? len rest)) as Heq
        by (apply eq_bool_prop_intro; rewrite !Is_true_true, !Z.leb_le; zlia).
      rewrite Heq in Hc. destruct (Z.leb_spec rem (len rest)); [|done].
      destruct Hc as (-> & Hr'' & Hp''). split_and!.
      * do 2 f_equal. rewrite <- app_assoc. f_equal.
        rewrite <- (ztake_zdrop n rest) at 3. rewrite ztake_app_ge by zlia.
        do 2 f_equal. zlia.
      * rewrite zdrop_zdrop in Hr'' by lia. by replace (n + (rem - n)) with rem in Hr'' by lia.
      * lia.
    + rewrite H'. exists f'. split; [done|]. destruct (Z.leb_spec rem (len rest)); [lia|done].
Qed.

Lemma read_exact_vec_quiet n label f rest :
  0 <= n -> reads f rest ->
  exists f', f_data f' = f_data f /\
    if n <=? len rest then
      read_exact_vec n label f = (Ok (ztake n rest), f') /\
      reads f' (zdrop n rest) /\ f_pos f' = f_pos f + n
    else read_exact_vec n label f = (Err (truncated_record label n), f').
Proof.
  intros Hn Hr. apply (read_exact_vec_loop_quiet _ [] n n label f rest Hn Hr).
  by apply chunk_fuel_enough.
Qed.

Lemma hash_exact_loop_quiet fuel h l rem total label f rest :
  0 <= rem -> reads f rest -> rem <= Z.of_nat fuel * STREAM_READ_CHUNK_SIZE -> hashed h l ->
  exists f', f_data f' = f_data f /\
    if rem <=? len rest then
      exists h', hash_exact_loop fuel rem h total label f = (Ok h', f') /\
        hashed h' (l ++ ztake rem rest) /\ reads f' (zdrop rem rest) /\ f_pos f' = f_pos f + rem
    else hash_exact_loop fuel rem h total label f = (Err (truncated_record label total), f').
Proof.
  revert h l rem f rest. induction fuel as [|fuel IH]; intros h l rem f rest Hrem Hr Hf Hh;
    cbn [hash_exact_loop].
  - destruct (Z.leb_spec rem 0); [|lia]. exists f. split; [done|].
    destruct (Z.leb_spec rem (len rest)); [|zlia]. exists h.
    rewrite ztake_0, zdrop_0, app_nil_r by lia. split_and!; [done|done|done|lia].
  - destruct (Z.leb_spec rem 0).
    { exists f. split; [done|]. destruct (Z.leb_spec rem (len rest)); [|zlia]. exists h.
      rewrite ztake_0, zdrop_0, app_nil_r by lia. split_and!; [done|done|done|lia]. }
    assert (STREAM_READ_CHUNK_SIZE = 65536) as HC by done.
    set (n := Z.min rem STREAM_READ_CHUNK_SIZE) in *.
    destruct (read_exact_quiet n f rest ltac:(lia) Hr) as (f' & Hd & H').
    destruct (Z.leb_spec n (len rest)) as [Hn|Hn].
    + destruct H' as (-> & Hr' & Hp').
      destruct (IH (hasher_update h (ztake n rest)) (l ++ ztake n rest) (rem - n) f' (zdrop n rest))
        as (f'' & Hd'' & Hc); [lia|done|lia|by apply hashed_update|].
      exists f''. split; [congruence|].
      assert ((rem - n <=? len (zdrop n rest)) = (rem <=? len rest)) as Heq
        by (apply eq_bool_prop_intro; rewrite !Is_true_true, !Z.leb_le; zlia).
      rewrite Heq in Hc. destruct (Z.leb_spec rem (len rest)); [|done].
      destruct Hc as (h' & -> & Hh' & Hr'' & Hp''). exists h'. split_and!; [done| | |lia].
      * rewrite <- app_assoc in Hh'. rewrite ztake_split in Hh' by lia.
        by replace (n + (rem - n)) with rem in Hh' by lia.
      * rewrite zdrop_zdrop in Hr'' by lia. by replace (n + (rem - n)) with rem in Hr'' by lia.
    + rewrite H'. exists f'. split; [done|]. destruct (Z.leb_spec rem (len rest)); [lia|done].
Qed.

Lemma hash_exact_quiet n h l label f rest :
  0 <= n -> reads f rest -> hashed h l ->
  exists f', f_data f' = f_data f /\
    if n <=? len rest then
      exists h', hash_exact n h label f = (Ok h', f') /\
        hashed h' (l ++ ztake n rest) /\ reads f' (zdrop n rest) /\ f_pos f' = f_pos f + n
    else hash_exact n h label f = (Err (truncated_record label n), f').
Proof.
  intros Hn Hr Hh. apply (hash_exact_loop_quiet _ h l n n label f rest Hn Hr); [|done].
  by apply chunk_fuel_enough.
Qed.

(** A sequential reader [m] of the file computes [p] of the bytes ahead, leaves the
    contents alone and, when it returns an item, moves past its bytes. *)
Definition computes {A : Type} (m : SR File (option A)) (p : result (option (A * Z)))
    (f : File) (rest : bytes) : Prop :=
  exists f', f_data f' = f_data f /\
    match p with
    | Ok None => m f = (Ok None, f') /\ reads f' []
    | Ok (Some (a, n)) =>
        m f = (Ok (Some a), f') /\ reads f' (zdrop n rest) /\ f_pos f' = f_pos f + n
    | Err e => m f = (Err e, f')
    | Panic => False
    end.

Lemma hashed_header_key header key : hashed (hash_header_key header key) (zdrop 4 header ++ key).
Proof.
  unfold hash_header_key. apply hashed_update. rewrite <- (app_nil_l (zdrop 4 header)).
  apply hashed_update, hashed_new.
Qed.

Lemma hdr_sizes_nonneg h : 0 <= hdr_key_size h /\ 0 <= hdr_value_size_raw h.
Proof. unfold hdr_key_size, hdr_value_size_raw. split; apply le_val_range. Qed.

Lemma decoded_value_size_inv raw t n : decoded_value_size raw t = Ok n -> n = if t then 0 else raw.
Proof. unfold decoded_value_size. destruct t; [congruence|]. destruct (_ <? _); congruence. Qed.

Lemma decoded_value_size_not_panic raw t : decoded_value_size raw t <> Panic.
Proof. unfold decoded_value_size. destruct t; [done|]. by destruct (_ <? _). Qed.

Lemma read_next_record_computes f rest :
  reads f rest -> computes read_next_record (parse rest) f rest.
Proof.
  intros Hr. unfold computes, parse, read_next_record.
  destruct (read_record_header_quiet f rest Hr) as (f1 & Hd1 & H1).
  destruct (len rest =? 0).
  { destruct H1 as [H1 Hr1]. exists f1. split; [done|]. by erewrite sbind_Ok by exact H1. }
  destruct (len rest <? HEADER_SIZE).
  { exists f1. split; [done|]. by erewrite sbind_Err by exact H1. }
  destruct H1 as (H1 & Hr1 & Hp1). erewrite sbind_Ok by exact H1. cbv zeta iota beta.
  set (header := ztake HEADER_SIZE rest) in *. set (body := zdrop HEADER_SIZE rest) in *.
  pose proof (hdr_sizes_nonneg header) as [Hk Hv].
  destruct (decoded_value_size _ _) as [vs|e|] eqn:Ev;
    [|by exists f1|by apply decoded_value_size_not_panic in Ev].
  rewrite sbind_slift_Ok. cbn [rbind]. apply decoded_value_size_inv in Ev.
  destruct (read_exact_vec_quiet (hdr_key_size header) "key" f1 body Hk Hr1) as (f2 & Hd2 & H2).
  rewrite !Z.ltb_antisym. destruct (hdr_key_size header <=? len body); cbn [negb];
    [|by exists f2; split; [congruence|]; erewrite sbind_Err by exact H2].
  destruct H2 as (H2 & Hr2 & Hp2). erewrite sbind_Ok by exact H2.
  set (key := ztake _ body) in *. set (tail := zdrop _ body) in *.
  assert (exists f3, f_data f3 = f_data f2 /\
    let m := (if hdr_value_size_raw header =? TOMBSTONE then sret [] else read_exact_vec vs "value") in
    if vs <=? len tail then
      m f2 = (Ok (ztake vs tail), f3) /\ reads f3 (zdrop vs tail) /\ f_pos f3 = f_pos f2 + vs
    else m f2 = (Err (truncated_record "value" vs), f3)) as (f3 & Hd3 & H3).
  { destruct (_ =? TOMBSTONE); subst vs; [|apply read_exact_vec_quiet; done].
    exists f2. split; [done|]. cbv zeta. destruct (Z.leb_spec 0 (len tail)); [|zlia].
    rewrite ztake_0, zdrop_0, Z.add_0_r by lia. done. }
  cbv zeta in H3. destruct (vs <=? len tail) eqn:Evs; cbn [negb];
    [|by exists f3; split; [congruence|]; erewrite sbind_Err by exact H3].
  destruct H3 as (H3 & Hr3 & Hp3). erewrite sbind_Ok by exact H3.
  exists f3. split; [congruence|].
  assert (hasher_finalize (if hdr_value_size_raw header =? TOMBSTONE then hash_header_key header key
            else hasher_update (hash_header_key header key) (ztake vs tail)) =
          crc32 (zdrop 4 header ++ key ++ ztake vs tail)) as ->.
  { apply hashed_finalize. destruct (_ =? TOMBSTONE); subst vs.
    - rewrite ztake_0, app_nil_r by lia. apply hashed_header_key.
    - rewrite app_assoc. apply hashed_update, hashed_header_key. }
  destruct (_ =? hdr_crc header); [|done]. split; [done|].
  assert (0 <= vs) by (subst vs; destruct (_ =? TOMBSTONE); lia).
  split; [|lia]. revert Hr3. unfold tail, body.
  rewrite !zdrop_zdrop by (unfold HEADER_SIZE; lia). by rewrite ?Z.add_assoc.
Qed.

(** The value is hashed in chunks and dropped; the verdict is the same. *)
Definition parse_metadata (offset : Z) (rest : bytes) : result (option (RecordMetadata * Z)) :=
  let? o := parse rest in
  Ok (match o with Some (r, n) => Some (metadata_of offset r, n) | None => None end).

Lemma read_next_record_metadata_computes offset f rest :
  reads f rest -> computes (read_next_record_metadata offset) (parse_metadata offset rest) f rest.
Proof.
  intros Hr. unfold computes, parse_metadata, parse, read_next_record_metadata.
  destruct (read_record_header_quiet f rest Hr) as (f1 & Hd1 & H1).
  destruct (len rest =? 0).
  { destruct H1 as [H1 Hr1]. exists f1. split; [done|]. by erewrite sbind_Ok by exact H1. }
  destruct (len rest <? HEADER_SIZE).
  { exists f1. split; [done|]. by erewrite sbind_Err by exact H1. }
  destruct H1 as (H1 & Hr1 & Hp1). erewrite sbind_Ok by exact H1. cbv zeta iota beta.
  set (header := ztake HEADER_SIZE rest) in *. set (body := zdrop HEADER_SIZE rest) in *.
  pose proof (hdr_sizes_nonneg header) as [Hk Hv].
  destruct (decoded_value_size _ _) as [vs|e|] eqn:Ev;
    [|by exists f1|by apply decoded_value_size_not_panic in Ev].
  rewrite sbind_slift_Ok. cbn [rbind]. apply decoded_value_size_inv in Ev.
  destruct (read_exact_vec_quiet (hdr_key_size header) "key" f1 body Hk Hr1) as (f2 & Hd2 & H2).
  rewrite !Z.ltb_antisym. destruct (Z.leb_spec (hdr_key_size header) (len body)); cbn [negb];
    [|by exists f2; split; [congruence|]; erewrite sbind_Err by exact H2].
  destruct H2 as (H2 & Hr2 & Hp2). erewrite sbind_Ok by exact H2.
  set (key := ztake _ body) in *. set (tail := zdrop _ body) in *.
  assert (len key = hdr_key_size header) as Hlk by (unfold key; rewrite len_ztake by lia; lia).
  assert (exists f3, f_data f3 = f_data f2 /\
    let m := (if hdr_value_size_raw header =? TOMBSTONE then sret (hash_header_key header key)
              else hash_exact vs (hash_header_key header key) "value") in
    if vs <=? len tail then
      exists h', m f2 = (Ok h', f3) /\ hashed h' ((zdrop 4 header ++ key) ++ ztake vs tail) /\
        reads f3 (zdrop vs tail) /\ f_pos f3 = f_pos f2 + vs
    else m f2 = (Err (truncated_record "value" vs), f3)) as (f3 & Hd3 & H3).
  { destruct (_ =? TOMBSTONE); subst vs; [|apply hash_exact_quiet; [done..|apply hashed_header_key]].
    exists f2. split; [done|]. cbv zeta. destruct (Z.leb_spec 0 (len tail)); [|zlia].
    rewrite (ztake_0 0), (zdrop_0 0), Z.add_0_r, app_nil_r by lia.
    eexists. split; [done|]. split; [apply hashed_header_key|done]. }
  cbv zeta in H3. destruct (Z.leb_spec vs (len tail)); cbn [negb];
    [|by exists f3; split; [congruence|]; erewrite sbind_Err by exact H3].
  destruct H3 as (h' & H3 & Hh' & Hr3 & Hp3). erewrite sbind_Ok by exact H3.
  exists f3. split; [congruence|]. apply hashed_finalize in Hh'. rewrite <- app_assoc in Hh'.
  rewrite Hh'. unfold crc32. destruct (_ =? hdr_crc header); [|done]. cbn [rbind].
  assert (0 <= vs) by (subst vs; destruct (_ =? TOMBSTONE); lia).
  split_and!; [|revert Hr3; unfold tail, body; rewrite !zdrop_zdrop by (unfold HEADER_SIZE; lia);
    by rewrite ?Z.add_assoc|lia].
  unfold sret, metadata_of, frame_len; cbn [timestamp_ms expire_at_ms LogFormat.key value].
  do 3 f_equal. assert (len (ztake vs tail) = vs) as Hlv by (rewrite len_ztake by lia; lia).
  destruct (_ =? TOMBSTONE); cbn [default]; unfold id; rewrite ?Hlv, ?Hlk; [done|congruence].
Qed.

(** ** The positional readers agree with [parse] at their offset *)

Definition no_panic {A : Type} (r : result A) : Prop := match r with Panic => False | _ => True end.

(** The file is calm, fits a 64-bit offset, and [rest] is what lies at [offset]. *)
Definition reads_at (f : File) (offset : Z) (rest : bytes) : Prop :=
  calm f /\ len (f_data f) <= u64_max /\ 0 <= offset <= u64_max /\ zdrop offset (f_data f) = rest.

Lemma read_at_calm n off f :
  0 < n -> calm f ->
  exists k f', 0 < k <= n /\ read_at n off f = (ReadOk (ztake k (zdrop off (f_data f))), f') /\
    calm f' /\ f_data f' = f_data f /\
    ((length (f_events f') < length (f_events f))%nat \/ (f_events f' = [] /\ k = n)).
Proof.
  intros Hn Hc. destruct f as [data pos [|e ev]]; unfold read_at; simpl.
  - exists n, (mkFile data pos []). split_and!; try done; try lia. by right.
  - unfold calm in Hc. simpl in Hc. apply Forall_cons in Hc as [He Hc].
    destruct e as [k| |m]; [|done|done].
    exists (Z.min n (Z.max 1 k)), (mkFile data pos ev). split_and!; try done; try lia.
    left. simpl. lia.
Qed.

Lemma read_exact_at_or_eof_loop_calm fuel n buf rest offset label f all :
  reads_at f offset all -> all = buf ++ rest -> len buf < n ->
  (length (f_events f) + (if rest is [] then 1 else 2) <= fuel)%nat ->
  exists f', f_data f' = f_data f /\ calm f' /\
    read_exact_at_or_eof_loop fuel n buf offset label f =
      (if len all =? 0 then Ok None else if len all <? n then Err (short_read label n (len all))
       else Ok (Some (ztake n all)), f').
Proof.
  revert buf rest f. induction fuel as [|fuel IH]; intros buf rest f Hr Hall Hb Hf; [destruct rest; lia|].
  pose proof Hr as (Hc & Hl & Ho & Hz). cbn [read_exact_at_or_eof_loop].
  destruct (Z.leb_spec n (len buf)); [lia|].
  assert (len buf = 0 \/ offset + len buf <= u64_max) as Hov.
  { destruct (Z.eq_dec (len buf) 0); [by left|right].
    apply (f_equal len) in Hz. rewrite len_zdrop, Hall, len_app in Hz by lia. len_facts. lia. }
  unfold checked_add64. destruct (Z.leb_spec (offset + len buf) u64_max); [|len_facts; lia].
  destruct (read_at_calm (n - len buf) (offset + len buf) f ltac:(lia) Hc)
    as (k & f' & Hk & Hread & Hc' & Hd & Hev).
  assert (zdrop (offset + len buf) (f_data f) = rest) as Hrest.
  { rewrite <- zdrop_zdrop, Hz, Hall, zdrop_app_ge, zdrop_0 by (len_facts; lia). done. }
  rewrite Hrest in Hread. rewrite Hread. destruct (ztake k rest) as [|b bs] eqn:E.
  { apply ztake_nil_inv in E; [|lia]. exists f'. split_and!; [done|done|].
    assert (all = buf) as -> by (rewrite Hall, E; apply app_nil_r).
    destruct (len buf =? 0); [done|]. destruct (Z.ltb_spec (len buf) n); [done|lia]. }
  assert (rest <> []) as Hne by (intros ->; by rewrite ztake_nil in E).
  rewrite <- E in *. clear E b bs.
  assert (all = (buf ++ ztake k rest) ++ zdrop k rest) as Hall'
    by (rewrite <- app_assoc, ztake_zdrop; done).
  assert (reads_at f' offset all) as Hr' by (split_and!; rewrite ?Hd; first [done|lia]).
  destruct (Z.ltb_spec (len (buf ++ ztake k rest)) n) as [Hlt|Hge].
  - destruct (IH _ _ f' Hr' Hall' Hlt) as (f'' & Hd'' & Hc'' & ->);
      [|exists f''; split_and!; [congruence|done|done]].
    destruct Hev as [Hev|[Hnil ->]]; [destruct rest; [rewrite zdrop_nil|destruct (zdrop k _)]; lia|].
    rewrite len_app, len_ztake in Hlt by lia. rewrite zdrop_ge by lia. rewrite Hnil. simpl.
    destruct rest; [done|lia].
  - exists f'. split_and!; [done|done|]. rewrite len_app, len_ztake in Hge by lia.
    assert (len all = len buf + len rest) as -> by (rewrite Hall, len_app; lia).
    len_facts. destruct (Z.eqb_spec (len buf + len rest) 0); [lia|].
    destruct (Z.ltb_spec (len buf + len rest) n); [lia|].
    assert (k = n - len buf) by lia. subst k.
    assert (ztake n all = buf ++ ztake (n - len buf) rest) as ->
      by (rewrite Hall, ztake_app_ge by lia; done).
    destruct fuel; cbn [read_exact_at_or_eof_loop];
      (destruct (Z.leb_spec n (len (buf ++ ztake (n - len buf) rest))); [done|zlia]).
Qed.

Lemma read_exact_at_or_eof_calm n label f offset rest :
  0 < n -> reads_at f offset rest ->
  exists f', f_data f' = f_data f /\ calm f' /\
    read_exact_at_or_eof n offset label f =
      (if len rest =? 0 then Ok None else if len rest <? n then Err (short_read label n (len rest))
       else Ok (Some (ztake n rest)), f').
Proof.
  intros Hn Hr. eapply read_exact_at_or_eof_loop_calm; [done|done|by rewrite len_nil|].
  destruct rest; lia.
Qed.

Lemma read_exact_at_required_calm n label f offset rest :
  0 < n -> reads_at f offset rest ->
  exists f', f_data f' = f_data f /\ calm f' /\
    read_exact_at_required n offset label f =
      (if len rest <? n then Err (short_read label n (len rest)) else Ok (ztake n rest), f').
Proof.
  intros Hn Hr. destruct (read_exact_at_or_eof_calm n label f offset rest Hn Hr) as (f' & Hd & Hc & H).
  exists f'. split_and!; [done|done|]. unfold read_exact_at_required, sbind. rewrite H.
  destruct (Z.eqb_spec (len rest) 0) as [->|]; [|by destruct (_ <? _)].
  destruct (Z.ltb_spec 0 n); [done|lia].
Qed.

Lemma reads_at_advance f f' offset rest n :
  reads_at f offset rest -> f_data f' = f_data f -> calm f' -> 0 <= n -> offset + n <= u64_max ->
  reads_at f' (offset + n) (zdrop n rest).
Proof.
  intros (Hc & Hl & Ho & Hz) Hd Hc' Hn Hle. split_and!; rewrite ?Hd; try done; try lia.
  rewrite <- zdrop_zdrop by lia. by rewrite Hz.
Qed.

(** An offset inside the file can be advanced within the file without overflow. *)
Lemma reads_at_bound f offset rest n :
  reads_at f offset rest -> 0 < len rest -> n <= len rest -> offset + n <= u64_max.
Proof.
  intros (Hc & Hl & Ho & Hz) Hp Hn. apply (f_equal len) in Hz. rewrite len_zdrop in Hz by lia. lia.
Qed.

(** [check_body_end] accepts a body that lies inside the file, and rejects one that
    does not. *)
Lemma check_body_end_spec m1 m2 m3 f offset rest start n :
  reads_at f offset rest -> 0 <= start -> 0 <= n ->
  (start + n <= len rest -> 0 < len rest ->
   check_body_end m1 m2 m3 (checked_add64 offset start) n f = (Ok tt, f)) /\
  (len rest < start + n ->
   exists e, check_body_end m1 m2 m3 (checked_add64 offset start) n f = (Err e, f)).
Proof.
  intros Hr Hs Hn. pose proof Hr as (Hc & Hl & Ho & Hz).
  assert (len rest = Z.max 0 (len (f_data f) - offset)) as Hlen by (rewrite <- Hz, len_zdrop by lia; lia).
  unfold check_body_end, checked_add64, file_len. split.
  - intros Hin Hpos. destruct (Z.leb_spec (offset + start) u64_max); [|lia].
    destruct (Z.leb_spec (offset + start + n) u64_max); [|lia].
    destruct (Z.ltb_spec (len (f_data f)) (offset + start + n)); [lia|done].
  - intros Hout. destruct (_ <=? u64_max); [|eauto]. destruct (_ <=? u64_max); [|eauto].
    destruct (Z.ltb_spec (len (f_data f)) (offset + start + n)); [eauto|lia].
Qed.

(** Reading [n] body bytes at [offset + start], [n = 0] included. *)
Lemma body_read_calm n label msg f offset rest start :
  reads_at f offset rest -> 0 <= start -> 0 <= n -> start <= len rest -> 0 < len rest ->
  exists f', f_data f' = f_data f /\ calm f' /\
    let m := (if 0 <? n then
                let! o := slift (ok_or (checked_add64 offset start) msg) in
                read_exact_at_required n o label
              else sret []) in
    if n <=? len (zdrop start rest) then m f = (Ok (ztake n (zdrop start rest)), f')
    else exists e, m f = (Err e, f').
Proof.
  intros Hr Hs Hn Hin Hpos. pose proof Hr as (Hc & _). cbv zeta.
  destruct (Z.ltb_spec 0 n).
  - unfold checked_add64. pose proof (reads_at_bound _ _ _ start Hr Hpos Hin).
    destruct (Z.leb_spec (offset + start) u64_max); [|lia].
    destruct (read_exact_at_required_calm n label f (offset + start) (zdrop start rest))
      as (f' & Hd & Hc' & H'); [done|by eapply reads_at_advance|].
    exists f'. split_and!; [done|done|]. cbn [ok_or]. rewrite sbind_slift_Ok, H'.
    rewrite Z.ltb_antisym. destruct (_ <=? _); simpl; eauto.
  - exists f. split_and!; [done|done|]. destruct (Z.leb_spec n (len (zdrop start rest))); [|zlia].
    by rewrite ztake_0 by lia.
Qed.

Lemma reads_at_data f f' offset rest :
  reads_at f offset rest -> f_data f' = f_data f -> calm f' -> reads_at f' offset rest.
Proof. intros (? & ? & ? & ?) Hd Hc. split_and!; rewrite ?Hd; first [done|lia]. Qed.

Definition pread_agrees {A : Type} (get : Record_ -> A) (r : result (option A))
    (p : result (option (Record_ * Z))) : Prop :=
  match p with
  | Ok None => r = Ok None
  | Ok (Some (rec, _)) => r = Ok (Some (get rec))
  | Err _ => exists e, r = Err e
  | Panic => False
  end.

Lemma checked_record_body_len_ok h vs :
  len h = HEADER_SIZE -> 0 <= vs <= MAX_VALUE_SIZE ->
  checked_record_body_len (hdr_key_size h) vs = Ok (hdr_key_size h + vs).
Proof.
  intros Hl Hv. unfold checked_record_body_len, checked_add64.
  assert (u16_ok (hdr_key_size h)) as Hk
    by (apply le_val_u16_ok; rewrite len_zslice by (unfold HEADER_SIZE in *; lia);
        unfold HEADER_SIZE in *; lia).
  unfold u16_ok, u16_max, MAX_VALUE_SIZE, u64_max in *.
  destruct (Z.leb_spec (hdr_key_size h + vs) 18446744073709551615); [done|lia].
Qed.

Lemma decoded_value_size_bound raw t n :
  0 <= raw -> decoded_value_size raw t = Ok n -> 0 <= n <= MAX_VALUE_SIZE.
Proof.
  unfold decoded_value_size. destruct t; intros Hr H; [injection H as <-; done|].
  destruct (Z.ltb_spec MAX_VALUE_SIZE raw); [done|]. injection H as <-. lia.
Qed.

Lemma hasher_of_record (header key v : bytes) (t : bool) :
  (t = true -> v = []) ->
  hasher_finalize (if t then hash_header_key header key
                   else hasher_update (hash_header_key header key) v) =
  crc32 (zdrop 4 header ++ key ++ v).
Proof.
  intros Hv. apply hashed_finalize. rewrite app_assoc. destruct t.
  - rewrite Hv, app_nil_r by done. apply hashed_header_key.
  - apply hashed_update, hashed_header_key.
Qed.

(** The guarded body read of the positional readers: all of the body, or an error. *)
Lemma guarded_body_read_calm m1 m2 m3 label msg f offset rest start n guard :
  reads_at f offset rest -> 0 <= start <= len rest -> 0 <= n -> 0 < len rest ->
  exists f', f_data f' = f_data f /\ calm f' /\
    let m := let! _ := (if (guard : bool) then check_body_end m1 m2 m3 (checked_add64 offset start) n
                        else sret tt) in
             if 0 <? n then
               let! o := slift (ok_or (checked_add64 offset start) msg) in
               read_exact_at_required n o label
             else sret [] in
    if n <=? len (zdrop start rest) then m f = (Ok (ztake n (zdrop start rest)), f')
    else exists e, m f = (Err e, f').
Proof.
  intros Hr Hs Hn Hpos. cbv zeta.
  destruct (check_body_end_spec m1 m2 m3 f offset rest start n Hr ltac:(lia) Hn) as [Hin Hout].
  destruct (body_read_calm n label msg f offset rest start Hr ltac:(lia) Hn ltac:(lia) Hpos)
    as (f' & Hd & Hc & H). cbv zeta in H.
  assert (len (zdrop start rest) = len rest - start) as Hl by (rewrite len_zdrop by lia; lia).
  destruct (Z.leb_spec n (len (zdrop start rest))).
  - exists f'. split_and!; [done|done|]. rewrite <- H.
    destruct guard; [|done]. erewrite sbind_Ok by (apply Hin; lia). done.
  - destruct guard; [|by exists f'].
    destruct Hout as (e & Hout); [lia|]. exists f. split_and!; [done|apply Hr|].
    exists e. by erewrite sbind_Err by exact Hout.
Qed.

Lemma pread_record_parse offset f rest :
  reads_at f offset rest ->
  exists f', f_data f' = f_data f /\
    exists r, pread_record offset f = (r, f') /\ pread_agrees id r (parse rest).
Proof.
  intros Hr. unfold pread_agrees, parse, pread_record.
  destruct (read_exact_at_or_eof_calm HEADER_SIZE "header" f offset rest ltac:(done) Hr)
    as (f1 & Hd1 & Hc1 & H1).
  unfold sbind at 1. rewrite H1. destruct (Z.eqb_spec (len rest) 0) as [|Hne]; [by eauto|].
  destruct (Z.ltb_spec (len rest) HEADER_SIZE); [by eauto 6|].
  cbv zeta iota beta. set (header := ztake HEADER_SIZE rest) in *.
  set (body := zdrop HEADER_SIZE rest) in *.
  assert (len header = HEADER_SIZE) as Hh by (unfold header; rewrite len_ztake by done; lia).
  pose proof (hdr_sizes_nonneg header) as [Hk Hv].
  destruct (decoded_value_size _ _) as [vs|e|] eqn:Ev; [|by exists f1; split; [|exists (Err e); split; [|eexists]]
    |by apply decoded_value_size_not_panic in Ev].
  pose proof (decoded_value_size_bound _ _ _ Hv Ev) as Hvs. apply decoded_value_size_inv in Ev.
  rewrite sbind_slift_Ok, checked_record_body_len_ok, sbind_slift_Ok by done. cbn [rbind].
  pose proof HEADER_SIZE_val.
  assert (len (zdrop (hdr_key_size header) body) = Z.max 0 (len body - hdr_key_size header)) as Hlt
    by (apply len_zdrop; lia).
  set (n := hdr_key_size header + vs) in *. rewrite sbind_assoc.
  destruct (guarded_body_read_calm "record body offset overflow" "record body end offset overflow"
    "record body extends past end of file: end=" "body" "record body offset overflow" f1 offset rest
    HEADER_SIZE n (BODY_LEN_FILE_SIZE_CHECK_THRESHOLD <? n) (reads_at_data _ _ _ _ Hr Hd1 Hc1)
    ltac:(lia) ltac:(lia) ltac:(lia)) as (f2 & Hd2 & Hc2 & H2).
  cbv zeta in H2. fold body in H2. exists f2. split; [congruence|].
  destruct (Z.leb_spec n (len body)) as [Hfit|Hno].
  - destruct (Z.ltb_spec (len body) (hdr_key_size header)); [lia|].
    destruct (Z.ltb_spec (len (zdrop (hdr_key_size header) body)) vs); [lia|].
    erewrite sbind_Ok by exact H2. rewrite ztake_ztake, zdrop_ztake, Z.min_l by lia.
    replace (n - hdr_key_size header) with vs by lia. rewrite hasher_of_record.
    + destruct (_ =? hdr_crc header); eexists; split; try done; eauto.
    + intros Ht. rewrite Ht in Ev. subst vs. by rewrite ztake_0 by lia.
  - destruct H2 as (e & H2). exists (Err e). erewrite sbind_Err by exact H2. split; [done|].
    destruct (Z.ltb_spec (len body) (hdr_key_size header)); [eauto|].
    destruct (Z.ltb_spec (len (zdrop (hdr_key_size header) body)) vs); [eauto|lia].
Qed.

Definition keyed_agrees (expected : bytes) (r : result (option (option bytes)))
    (p : result (option (Record_ * Z))) : Prop :=
  match p with
  | Ok None => r = Ok None
  | Ok (Some (rec, _)) => r = Ok (if bytes_eqb (key rec) expected then Some (value rec) else None)
  | Err _ => r = Ok None \/ exists e, r = Err e
  | Panic => False
  end.

Lemma checked_add64_twice a b c :
  0 <= b -> 0 <= c -> (x ← checked_add64 a b; checked_add64 x c) = checked_add64 a (b + c).
Proof.
  intros Hb Hc. unfold checked_add64. destruct (Z.leb_spec (a + b) u64_max); simpl.
  - by rewrite Z.add_assoc.
  - destruct (Z.leb_spec (a + (b + c)) u64_max); [lia|done].
Qed.

(** The part of the keyed read after the key matched. *)
Lemma keyed_value_read_calm (t : bool) f offset rest start n guard :
  reads_at f offset rest -> 0 <= start <= len rest -> 0 <= n -> 0 < len rest -> (t = true -> n = 0) ->
  exists f', f_data f' = f_data f /\
    let m := let! _ := (if negb t && guard then
                          check_body_end "keyed pread value offset overflow" "keyed pread value end overflow"
                            "record value extends past end of file: end=" (checked_add64 offset start) n
                        else sret tt) in
             if t then sret [] else
             if 0 <? n then
               let! o := slift (ok_or (checked_add64 offset start) "keyed pread value offset overflow") in
               read_exact_at_required n o "value"
             else sret [] in
    if n <=? len (zdrop start rest) then m f = (Ok (ztake n (zdrop start rest)), f')
    else exists e, m f = (Err e, f').
Proof.
  intros Hr Hs Hn Hpos Ht. destruct t.
  - rewrite Ht by done. exists f. split; [done|]. cbn [negb andb]. cbv zeta.
    destruct (Z.leb_spec 0 (len (zdrop start rest))); [|zlia]. by rewrite ztake_0 by lia.
  - edestruct (guarded_body_read_calm "keyed pread value offset overflow" "keyed pread value end overflow"
      "record value extends past end of file: end=" "value" "keyed pread value offset overflow"
      f offset rest start n guard) as (f' & Hd & _ & H); [done..|]. exists f'. split; [done|]. exact H.
Qed.

Lemma pread_value_for_key_parse offset expected f rest :
  reads_at f offset rest ->
  exists f', f_data f' = f_data f /\
    exists r, pread_value_for_key offset expected f = (r, f') /\ keyed_agrees expected r (parse rest).
Proof.
  intros Hr. unfold keyed_agrees, parse, pread_value_for_key.
  destruct (read_exact_at_or_eof_calm HEADER_SIZE "header" f offset rest ltac:(done) Hr)
    as (f1 & Hd1 & Hc1 & H1).
  unfold sbind at 1. rewrite H1. destruct (Z.eqb_spec (len rest) 0) as [|Hne]; [by eauto|].
  destruct (Z.ltb_spec (len rest) HEADER_SIZE) as [|Hlh]; [by eauto 7|].
  cbv zeta iota beta. set (header := ztake HEADER_SIZE rest) in *.
  set (body := zdrop HEADER_SIZE rest) in *. pose proof HEADER_SIZE_val as HH.
  pose proof (hdr_sizes_nonneg header) as [Hk Hv].
  pose proof (reads_at_data _ _ _ _ Hr Hd1 Hc1) as Hr1.
  destruct (body_read_calm (hdr_key_size header) "key" "keyed pread key offset overflow" f1 offset rest
    HEADER_SIZE Hr1 ltac:(lia) Hk ltac:(lia) ltac:(lia)) as (f2 & Hd2 & Hc2 & H2).
  cbv zeta in H2. fold body in H2.
  assert (len body = len rest - HEADER_SIZE) as Hlb by (unfold body; rewrite len_zdrop by lia; lia).
  destruct (Z.leb_spec (hdr_key_size header) (len body)) as [Hkb|Hkb].
  2: { destruct H2 as (e & H2). exists f2. split; [congruence|]. exists (Err e).
       erewrite sbind_Err by exact H2. split; [done|].
       destruct (decoded_value_size _ _) as [vs|e'|] eqn:Ev; cbn [rbind]; [|by eauto|].
       - destruct (Z.ltb_spec (len body) (hdr_key_size header)); [by eauto|lia].
       - by apply decoded_value_size_not_panic in Ev. }
  erewrite sbind_Ok by exact H2. cbv beta.
  set (key := ztake (hdr_key_size header) body) in *.
  destruct (Z.ltb_spec (len body) (hdr_key_size header)) as [|_]; [lia|].
  destruct (bytes_eqb key expected) eqn:Eeq; cbn [negb].
  - destruct (decoded_value_size _ _) as [vs|e|] eqn:Ev;
      [|by exists f2; split; [congruence|exists (Err e); split; [|right; eexists]]
      |by apply decoded_value_size_not_panic in Ev].
    pose proof (decoded_value_size_bound _ _ _ Hv Ev) as Hvs. apply decoded_value_size_inv in Ev.
    rewrite sbind_slift_Ok. cbn [rbind]. rewrite checked_add64_twice, sbind_assoc by lia.
    destruct (keyed_value_read_calm (hdr_value_size_raw header =? TOMBSTONE) f2 offset rest
      (HEADER_SIZE + hdr_key_size header) vs (BODY_LEN_FILE_SIZE_CHECK_THRESHOLD <? vs))
      as (f3 & Hd3 & H3);
      [by apply (reads_at_data f1); [..|congruence|]|lia|lia|lia|by intros Ht; rewrite Ht in Ev|].
    cbv zeta in H3. exists f3. split; [congruence|].
    rewrite <- (zdrop_zdrop (hdr_key_size header) HEADER_SIZE) in H3 by lia. fold body in H3.
    rewrite (Z.ltb_antisym vs (len _)). destruct (vs <=? len _); cbn [negb].
    + erewrite sbind_Ok by exact H3. rewrite hasher_of_record
        by (intros Ht; rewrite Ht in Ev; subst vs; by rewrite ztake_0 by lia).
      destruct (_ =? hdr_crc header); [|by eexists; split; [|eauto]].
      cbn [LogFormat.key value]. rewrite Eeq.
      destruct (_ =? TOMBSTONE); eexists; split; done.
    + destruct H3 as (e & H3). exists (Err e). erewrite sbind_Err by exact H3. split; [done|eauto].
  - exists f2. split; [congruence|]. exists (Ok None). split; [done|].
    destruct (decoded_value_size _ _) as [vs|e|] eqn:Ev; cbn [rbind];
      [|by left|by apply decoded_value_size_not_panic in Ev].
    destruct (_ <? vs); [by left|]. destruct (_ =? hdr_crc header); [|by left].
    cbn [LogFormat.key]. by rewrite Eeq.
Qed.

(** ** Properties *)

(** C4: a record encoded by [encode_record] or [encode_tombstone] at the cursor of a
    file is returned unchanged by the sequential reader, which stops exactly behind
    it, whatever short reads and interruptions happen on the way. *)
Theorem log_record_roundtrip r rest f :
  record_ok r ->
  reads f (match value r with
           | Some v => encode_record (timestamp_ms r) (key r) v (expire_at_ms r)
           | None => encode_tombstone (timestamp_ms r) (key r)
           end ++ rest) ->
  (value r = None -> expire_at_ms r = 0) ->
  exists f', read_next_record f = (Ok (Some r), f') /\ reads f' rest /\ f_data f' = f_data f.
Proof.
  intros Hok Hr Hexp.
  assert (match value r with
          | Some v => encode_record (timestamp_ms r) (key r) v (expire_at_ms r)
          | None => encode_tombstone (timestamp_ms r) (key r)
          end = frame r) as Hf.
  { destruct r as [t e k [v|]]; simpl in *.
    - apply (encode_record_into_frame t []).
    - rewrite Hexp by done. apply (encode_tombstone_into_frame t []). }
  rewrite Hf in Hr. destruct (read_next_record_computes f _ Hr) as (f' & Hd & H').
  rewrite parse_frame_app in H' by done. destruct H' as (E & Hr' & _). exists f'.
  split_and!; [done| |done].
  by rewrite zdrop_app_ge, zdrop_0 in Hr' by (rewrite len_frame; lia).
Qed.

(** C3: what the sequential reader returns is what the file holds: the bytes it
    consumed are exactly the encoding of the record (so no other bytes decode to the
    record and no prefix of a record decodes to anything), the sizes are within
    the limits, and the cursor is right behind the record. *)
Theorem log_record_sound r rest f f' :
  reads f rest -> read_next_record f = (Ok (Some r), f') ->
  record_ok r /\ exists rest', rest = frame r ++ rest' /\ reads f' rest' /\
  f_pos f' = f_pos f + HEADER_SIZE + len (key r) + len (default [] (value r)).
Proof.
  intros Hr E. destruct (read_next_record_computes f rest Hr) as (f1 & _ & H1). rewrite E in H1.
  destruct (parse rest) as [[[r1 n]|]|e|] eqn:Hp; [|by destruct H1|done|done].
  destruct H1 as (E1 & Hr1 & Hpos). injection E1 as <- <-.
  destruct (parse_inv _ _ _ Hp) as (Hok & -> & rest' & ->). split; [done|]. exists rest'.
  rewrite zdrop_app_ge, zdrop_0 in Hr1 by (rewrite len_frame; lia). split_and!; [done|done|].
  rewrite Hpos. unfold frame_len. lia.
Qed.

(** The metadata reader, which hashes the value in chunks without keeping it,
    accepts, rejects (with the same message) and delimits exactly the same records
    as the full reader, and reports the fields, value size and length of the
    record the full reader returns. *)
Theorem metadata_reader_equivalent offset f1 f2 rest :
  reads f1 rest -> reads f2 rest ->
  match read_next_record f1, read_next_record_metadata offset f2 with
  | (Ok (Some r), f1'), (Ok (Some m), f2') =>
      m = metadata_of offset r /\ exists rest', reads f1' rest' /\ reads f2' rest'
  | (Ok None, _), (Ok None, _) => rest = []
  | (Err e, _), (Err e', _) => e = e'
  | _, _ => False
  end.
Proof.
  intros H1 H2. destruct (read_next_record_computes f1 rest H1) as (f1' & _ & E1).
  destruct (read_next_record_metadata_computes offset f2 rest H2) as (f2' & _ & E2).
  unfold parse_metadata in E2. destruct (parse rest) as [[[r n]|]|e|] eqn:Hp; simpl in E2; [| | |done].
  - destruct E1 as (-> & Hr1 & _), E2 as (-> & Hr2 & _). eauto.
  - destruct E1 as [-> _], E2 as [-> _]. unfold parse in Hp.
    destruct (Z.eqb_spec (len rest) 0); [by apply len_zero|].
    destruct (_ <? HEADER_SIZE); [done|]. cbv zeta in Hp.
    destruct (decoded_value_size _ _); simpl in Hp; try done.
    repeat (destruct (_ <? _); try done). by destruct (_ =? _).
  - by rewrite E1, E2.
Qed.

(** C7: the positional readers see the same record at an offset as the sequential
    reader positioned there: [pread_record] returns it, [pread_value_for_key]
    returns its value when the key matches and nothing when it does not, both
    report the end of the file the same way, and neither returns a value for
    bytes the sequential reader rejects. *)
Theorem positional_readers_agree offset expected f g rest :
  reads_at f offset rest -> reads g rest ->
  match (read_next_record g).1 with
  | Ok (Some r) =>
      (pread_record offset f).1 = Ok (Some r) /\
      (pread_value_for_key offset expected f).1 =
        Ok (if bytes_eqb (key r) expected then Some (value r) else None)
  | Ok None => (pread_record offset f).1 = Ok None /\ (pread_value_for_key offset expected f).1 = Ok None
  | Err _ =>
      (exists e, (pread_record offset f).1 = Err e) /\
      forall v, (pread_value_for_key offset expected f).1 <> Ok (Some v)
  | Panic => False
  end.
Proof.
  intros Hf Hg. destruct (read_next_record_computes g rest Hg) as (g' & _ & E).
  destruct (pread_record_parse offset f rest Hf) as (f1 & _ & r1 & -> & H1).
  destruct (pread_value_for_key_parse offset expected f rest Hf) as (f2 & _ & r2 & -> & H2).
  unfold pread_agrees in H1. unfold keyed_agrees in H2. simpl.
  destruct (parse rest) as [[[r n]|]|e|]; [| | |done].
  - destruct E as (-> & _). done.
  - destruct E as (-> & _). done.
  - rewrite E. simpl. split; [done|]. intros v. destruct H2 as [->|[e' ->]]; done.
Qed.
End WithCrcProofs.

(** ** Concrete runs *)

Definition sample_record : Record_ := mkRecord 1700000000000 0 (lit "user:1") (Some (lit "hello")).
Definition sample_bytes : bytes :=
  @encode_record crc32_iso_hdlc 1700000000000 (lit "user:1") (lit "hello") 0.
(** A file with short reads and an interruption pending. *)
Definition sample_file (data : bytes) : File := mkFile data 0 [EvShort 3; EvIntr; EvShort 1; EvShort 40].

Lemma sample_reads data : reads (sample_file data) data.
Proof. split_and!; [repeat constructor|done|by apply zdrop_0]. Qed.

Lemma sample_record_ok : record_ok sample_record.
Proof. repeat split; vm_compute; congruence. Qed.

Lemma log_record_roundtrip_witness :
  exists f', @read_next_record crc32_iso_hdlc (sample_file (sample_bytes ++ lit "tail")) =
    (Ok (Some sample_record), f') /\ reads f' (lit "tail") /\ f_data f' = sample_bytes ++ lit "tail".
Proof.
  apply (@log_record_roundtrip crc32_iso_hdlc crc32_iso_hdlc_laws sample_record (lit "tail")
    (sample_file (sample_bytes ++ lit "tail"))).
  - apply sample_record_ok.
  - apply sample_reads.
  - done.
Defined.

Lemma log_record_sound_witness :
  record_ok sample_record /\ exists rest', sample_bytes ++ lit "tail" = @frame crc32_iso_hdlc sample_record ++ rest' /\
  reads (@read_next_record crc32_iso_hdlc (sample_file (sample_bytes ++ lit "tail"))).2 rest' /\
  f_pos (@read_next_record crc32_iso_hdlc (sample_file (sample_bytes ++ lit "tail"))).2 = 0 + 26 + 6 + 5.
Proof.
  apply (@log_record_sound crc32_iso_hdlc crc32_iso_hdlc_laws sample_record (sample_bytes ++ lit "tail")
    (sample_file (sample_bytes ++ lit "tail"))); [apply sample_reads|].
  vm_compute. reflexivity.
Defined.

Lemma metadata_reader_equivalent_witness :
  match @read_next_record crc32_iso_hdlc (sample_file sample_bytes),
        @read_next_record_metadata crc32_iso_hdlc 7 (open_file sample_bytes) with
  | (Ok (Some r), f1'), (Ok (Some m), f2') =>
      m = metadata_of 7 r /\ exists rest', reads f1' rest' /\ reads f2' rest'
  | (Ok None, _), (Ok None, _) => sample_bytes = []
  | (Err e, _), (Err e', _) => e = e'
  | _, _ => False
  end.
Proof.
  apply (@metadata_reader_equivalent crc32_iso_hdlc crc32_iso_hdlc_laws 7 (sample_file sample_bytes)
    (open_file sample_bytes) sample_bytes); [apply sample_reads|].
  split_and!; [constructor|done|by apply zdrop_0].
Defined.

Lemma positional_readers_agree_witness :
  match (@read_next_record crc32_iso_hdlc (sample_file sample_bytes)).1 with
  | Ok (Some r) =>
      (@pread_record crc32_iso_hdlc 4 (mkFile (lit "junk" ++ sample_bytes) 0 [EvShort 5])).1 = Ok (Some r) /\
      (@pread_value_for_key crc32_iso_hdlc 4 (lit "user:1")
         (mkFile (lit "junk" ++ sample_bytes) 0 [EvShort 5])).1 =
        Ok (if bytes_eqb (key r) (lit "user:1") then Some (value r) else None)
  | _ => False
  end.
Proof.
  apply (@positional_readers_agree crc32_iso_hdlc crc32_iso_hdlc_laws 4 (lit "user:1")
    (mkFile (lit "junk" ++ sample_bytes) 0 [EvShort 5]) (sample_file sample_bytes) sample_bytes).
  - split_and!; [repeat constructor|by vm_compute|done|done|].
    vm_compute. reflexivity.
  - apply sample_reads.
Defined.
