(* ===== verification/LogWriter.v ===== *)
(** * The log writer ([log_part_01.rs]) and the raw record copy ([log_part_03.rs])

    [LogWriter] appends encoded records through an [IoBackend]; the state of every
    operation is the writer and the disk behind it.  The theorems are proved for
    any backend that satisfies [IoBackendLaws]: what a successful batch wrote can be
    read back at the returned offsets by every reader, a failed one leaves the old
    contents (or says that the rollback failed), and on a disk without faults a
    valid batch succeeds.

    [copy_record_raw] is the compaction path: it copies one record byte for byte in
    chunks while hashing it, and rolls the destination back when the checksum does
    not match. *)

From Stdlib Require Import ZArith Lia.
From S2P Require Import Prelude Bytes Crc Files IoBackend LogFormat.

Record LogWriter (B : Type) : Type := mkLogWriter {
  lw_backend : B;
  lw_offset : Z;
  lw_file_id : Z;
}.
Arguments mkLogWriter {B}.
Arguments lw_backend {B}.
Arguments lw_offset {B}.
Arguments lw_file_id {B}.

Inductive BatchWrite : Type :=
| Put (key value : bytes) (expire_at_ms : Z)
| Delete (key : bytes).

Inductive BatchWriteResult : Type :=
| PutResult (offset value_len : Z)
| DeleteResult (offset record_size : Z).

Record RawCopyResult : Type := mkRawCopyResult {
  rc_offset : Z;
  rc_record_size : Z;
  rc_value_size : Z;
  rc_is_tombstone : bool;
}.

(** [for entry in entries { validate(entry)?; }]. *)
Fixpoint validate_all {A : Type} (validate : A -> result unit) (entries : list A) : result unit :=
  match entries with
  | [] => Ok tt
  | e :: entries => let? _ := validate e in validate_all validate entries
  end.

Definition validate_batch_write (entry : BatchWrite) : result unit :=
  match entry with
  | Put key value _ => validate_kv_sizes key value
  | Delete key => validate_kv_sizes key []
  end.

Definition validate_batch_writes (entries : list BatchWrite) : result unit :=
  validate_all validate_batch_write entries.

Definition batch_write_len (entry : BatchWrite) : Z :=
  match entry with
  | Put key value _ => record_len (len key) (len value)
  | Delete key => tombstone_len (len key)
  end.

(** [entries.iter().try_fold(0usize, |acc, e| acc.checked_add(len(e)).ok_or_else(..))]. *)
Fixpoint total_len {A : Type} (entry_len : A -> Z) (acc : Z) (entries : list A) : result Z :=
  match entries with
  | [] => Ok acc
  | e :: entries =>
      let? acc := ok_or (checked_add64 acc (entry_len e)) "batch record length overflow" in
      total_len entry_len acc entries
  end.

(** Each entry is reported at [running], which then advances by its length. *)
Fixpoint running_results {A R : Type} (entry_len : A -> Z) (report : Z -> A -> R) (running : Z)
    (entries : list A) : list R :=
  match entries with
  | [] => []
  | e :: entries => report running e :: running_results entry_len report (add64 running (entry_len e)) entries
  end.

Definition batch_write_report (running : Z) (entry : BatchWrite) : BatchWriteResult :=
  match entry with
  | Put _ value _ => PutResult running (len value)
  | Delete key => DeleteResult running (HEADER_SIZE + len key)
  end.

Definition batch_write_results (entries : list BatchWrite) (start : Z) : list BatchWriteResult :=
  running_results batch_write_len batch_write_report start entries.

Section Writer.
Context {C : Crc32fast} {B : Type} `{IoBackend B}.

Abbreviation W := (LogWriter B * Disk)%type.

(** A call on [self.backend]. *)
Definition on_backend {A : Type} (m : SR (B * Disk) A) : SR W A := fun s =>
  let '(w, d) := s in
  let '(r, (b, d')) := m (lw_backend w, d) in
  (r, (mkLogWriter b (lw_offset w) (lw_file_id w), d')).

(** [self.offset = self.backend.offset()]. *)
Definition refresh_offset : SR W unit := fun s =>
  let '(w, d) := s in
  (Ok tt, (mkLogWriter (lw_backend w) (io_offset (lw_backend w)) (lw_file_id w), d)).

Definition set_offset (offset : Z) : SR W unit := fun s =>
  let '(w, d) := s in (Ok tt, (mkLogWriter (lw_backend w) offset (lw_file_id w), d)).

(** [LogWriter::open] once the backend is created. *)
Definition open_writer (backend : B) (file_id : Z) : LogWriter B :=
  mkLogWriter backend (io_offset backend) file_id.

Definition write (now : Z) (key value : bytes) (expire_at_ms : Z) : SR W Z :=
  let! _ := slift (validate_kv_sizes key value) in
  let record := encode_record now key value expire_at_ms in
  let! start := on_backend (io_append record) in
  let! _ := refresh_offset in
  sret start.

Definition write_sync (now : Z) (key value : bytes) (expire_at_ms : Z) : SR W Z :=
  let! _ := slift (validate_kv_sizes key value) in
  let record := encode_record now key value expire_at_ms in
  let! start := on_backend (io_append_and_sync record) in
  let! _ := refresh_offset in
  sret start.

Definition write_tombstone (now : Z) (key : bytes) : SR W Z :=
  let! _ := slift (validate_kv_sizes key []) in
  let record := encode_tombstone now key in
  let! start := on_backend (io_append record) in
  let! _ := refresh_offset in
  sret start.

Definition write_tombstone_sync (now : Z) (key : bytes) : SR W Z :=
  let! _ := slift (validate_kv_sizes key []) in
  let record := encode_tombstone now key in
  let! start := on_backend (io_append_and_sync record) in
  let! _ := refresh_offset in
  sret start.

Definition write_raw (data : bytes) : SR W Z :=
  let! start := on_backend (io_append data) in
  let! _ := refresh_offset in
  sret start.

Definition sync : SR W unit := on_backend io_sync.

Definition rollback_to (offset : Z) : SR W unit :=
  let! _ := on_backend (io_rollback_to offset) in
  set_offset offset.

(** [clock i] is the time read when the [i]-th record is encoded. *)
Definition entry := (bytes * bytes * Z)%type.
Definition entry_len : entry -> Z := fun '(key, value, _) => record_len (len key) (len value).

Definition validate_entries (entries : list entry) : result unit :=
  validate_all (fun '(key, value, _) => validate_kv_sizes key value) entries.

Definition write_batch (clock : nat -> Z) (entries : list entry) : SR W (list (Z * Z)) :=
  let! _ := slift (validate_entries entries) in
  let encoded := imap (fun i '(key, value, expire_at_ms) =>
                         encode_record (clock i) key value expire_at_ms) entries in
  let! offsets := on_backend (io_append_batch_and_sync encoded) in
  let! _ := refresh_offset in
  sret (zip_with (fun off '(_, value, _) => (off, len value)) offsets entries).

(** The single append of the [nosync] batches: the offset is refreshed on failure too. *)
Definition append_refresh (data : bytes) : SR W Z := fun s =>
  match on_backend (io_append data) s with
  | (Ok start, s') => sbind refresh_offset (fun _ => sret start) s'
  | (Err cause, s') => sbind refresh_offset (fun _ => serr cause) s'
  | (Panic, s') => (Panic, s')
  end.

Fixpoint encode_entries_into (clock : nat -> Z) (i : nat) (buf : bytes) (entries : list entry) : bytes :=
  match entries with
  | [] => buf
  | (key, value, expire_at_ms) :: entries =>
      encode_entries_into clock (S i) (encode_record_into (clock i) buf key value expire_at_ms) entries
  end.

Definition write_batch_nosync (clock : nat -> Z) (entries : list entry) : SR W (list (Z * Z)) :=
  match entries with
  | [] => sret []
  | _ =>
      let! _ := slift (validate_entries entries) in
      let! _ := slift (total_len entry_len 0 entries) in
      let combined := encode_entries_into clock 0 [] entries in
      let! append_start := append_refresh combined in
      sret (running_results entry_len (fun off '(_, value, _) => (off, len value)) append_start entries)
  end.

Fixpoint encode_ops_into (clock : nat -> Z) (i : nat) (buf : bytes) (entries : list BatchWrite) : bytes :=
  match entries with
  | [] => buf
  | Put key value expire_at_ms :: entries =>
      encode_ops_into clock (S i) (encode_record_into (clock i) buf key value expire_at_ms) entries
  | Delete key :: entries =>
      encode_ops_into clock (S i) (encode_tombstone_into (clock i) buf key) entries
  end.

Definition write_ops_batch_nosync (clock : nat -> Z) (entries : list BatchWrite)
    : SR W (list BatchWriteResult) :=
  match entries with
  | [] => sret []
  | _ =>
      let! _ := slift (validate_all validate_batch_write entries) in
      let! _ := slift (total_len batch_write_len 0 entries) in
      let combined := encode_ops_into clock 0 [] entries in
      let! append_start := append_refresh combined in
      sret (batch_write_results entries append_start)
  end.

Definition encode_batch_writes (clock : nat -> Z) (entries : list BatchWrite) : result bytes :=
  let? _ := total_len batch_write_len 0 entries in
  Ok (encode_ops_into clock 0 [] entries).

Definition write_ops_batch (clock : nat -> Z) (entries : list BatchWrite) : SR W (list BatchWriteResult) :=
  match entries with
  | [] => sret []
  | _ =>
      let! _ := slift (validate_batch_writes entries) in
      let! combined := slift (encode_batch_writes clock entries) in
      let! start := on_backend (io_append_and_sync combined) in
      let! _ := refresh_offset in
      sret (batch_write_results entries start)
  end.

Definition write_batch_preencoded (encoded : list bytes) : SR W (list Z) :=
  let! offsets := on_backend (io_append_batch_and_sync encoded) in
  let! _ := refresh_offset in
  sret offsets.

(** ** Raw copy of one record from a source file to the writer *)

Abbreviation CW := (File * W)%type.

Definition on_source {A : Type} (m : SR File A) : SR CW A := fun s =>
  let '(f, w) := s in let '(r, f') := m f in (r, (f', w)).
Definition on_writer' {A : Type} (m : SR W A) : SR CW A := fun s =>
  let '(f, w) := s in let '(r, w') := m w in (r, (f, w')).

Fixpoint copy_hashed_range_loop (fuel : nat) (read_offset remaining : Z) (hasher : Hasher) (label : string)
    : SR CW Hasher := fun s =>
  if remaining <=? 0 then (Ok hasher, s) else
  match fuel with
  | O => (Panic, s)
  | S fuel =>
      let chunk_len := Z.min remaining STREAM_READ_CHUNK_SIZE in
      (let! c := on_source (read_exact_at_or_eof chunk_len read_offset label) in
       match c with
       | None => serr (short_read label chunk_len 0)
       | Some chunk =>
           let hasher := hasher_update hasher chunk in
           let! _ := on_writer' (write_raw chunk) in
           let! read_offset := slift (ok_or (checked_add64 read_offset chunk_len)
                                        ("raw copy " +:+ label +:+ " offset overflow")) in
           copy_hashed_range_loop fuel read_offset (remaining - chunk_len) hasher label
       end) s
  end.

Definition copy_hashed_range (offset n : Z) (hasher : Hasher) (label : string) : SR CW Hasher :=
  copy_hashed_range_loop (chunk_fuel n) offset n hasher label.

(** The closure [copy_result] of [copy_record_raw]. *)
Definition copy_record_body (offset : Z) (header : bytes) (value_size record_size new_offset : Z)
    (is_tombstone : bool) : SR CW (option RawCopyResult) :=
  let hasher := hasher_update hasher_new (zdrop 4 header) in
  let key_size := hdr_key_size header in
  let! key_offset := slift (ok_or (checked_add64 offset HEADER_SIZE) "raw copy key offset overflow") in
  let! hasher := copy_hashed_range key_offset key_size hasher "key" in
  let! hasher := (if is_tombstone then sret hasher else
                  let! value_offset := slift (ok_or (checked_add64 key_offset key_size)
                                                "raw copy value offset overflow") in
                  copy_hashed_range value_offset value_size hasher "value") in
  let computed_crc := hasher_finalize hasher in
  if computed_crc =? hdr_crc header then
    sret (Some (mkRawCopyResult new_offset record_size value_size is_tombstone))
  else serr (crc_mismatch (hdr_crc header) computed_crc).

Definition raw_copy_rollback_failure (cause rollback : string) : string :=
  "raw copy failed: LogError: " +:+ cause +:+ "; rollback failed: LogError: " +:+ rollback.

Definition copy_record_raw (offset : Z) (copy_tombstone : bool) : SR CW (option RawCopyResult) :=
  let! h := on_source (read_exact_at_or_eof HEADER_SIZE offset "header") in
  match h with
  | None => sret None
  | Some header =>
      let stored_crc := hdr_crc header in
      let key_size := hdr_key_size header in
      let value_size_raw := hdr_value_size_raw header in
      let is_tombstone := value_size_raw =? TOMBSTONE in
      let! value_size := slift (decoded_value_size value_size_raw is_tombstone) in
      if is_tombstone && negb copy_tombstone then
        let! key_offset := slift (ok_or (checked_add64 offset HEADER_SIZE)
                                    "skipped tombstone key offset overflow") in
        let! key := (if 0 <? key_size
                     then on_source (read_exact_at_required key_size key_offset "tombstone key")
                     else sret []) in
        let computed_crc := hasher_finalize (hash_header_key header key) in
        if computed_crc =? stored_crc then sret None
        else serr (crc_mismatch stored_crc computed_crc)
      else
      let! body_len := slift (checked_record_body_len key_size value_size) in
      let record_size := HEADER_SIZE + body_len in
      let! _ := (if BODY_LEN_FILE_SIZE_CHECK_THRESHOLD <? body_len then
                   on_source (check_body_end "raw copy body offset overflow" "raw copy body end overflow"
                     "record body extends past end of file: end="
                     (checked_add64 offset HEADER_SIZE) body_len)
                 else sret tt) in
      let! new_offset := on_writer' (write_raw header) in
      fun s =>
      match copy_record_body offset header value_size record_size new_offset is_tombstone s with
      | (Ok copied, s') => (Ok copied, s')
      | (Err cause, s') =>
          match on_writer' (rollback_to new_offset) s' with
          | (Ok _, s'') => (Err cause, s'')
          | (Err rollback, s'') => (Err (raw_copy_rollback_failure cause rollback), s'')
          | (Panic, s'') => (Panic, s'')
          end
      | (Panic, s') => (Panic, s')
      end
  end.

End Writer.

(** ** What the operations mean *)

(** The record a batch entry stands for, at the time it is encoded. *)
Definition op_record (now : Z) (op : BatchWrite) : Record_ :=
  match op with
  | Put key value expire_at_ms => mkRecord now expire_at_ms key (Some value)
  | Delete key => mkRecord now 0 key None
  end.
Definition entry_op : entry -> BatchWrite := fun '(key, value, expire_at_ms) => Put key value expire_at_ms.

(** Expiry times and clock readings are [u64] in the code. *)
Definition op_typed (op : BatchWrite) : Prop :=
  match op with Put _ _ expire_at_ms => u64_ok expire_at_ms | Delete _ => True end.
Definition clock_typed (clock : nat -> Z) : Prop := forall i, u64_ok (clock i).

Definition op_records (clock : nat -> Z) (ops : list BatchWrite) : list Record_ :=
  imap (fun i op => op_record (clock i) op) ops.

Definition result_offset (r : BatchWriteResult) : Z :=
  match r with PutResult off _ => off | DeleteResult off _ => off end.

Definition frames {C : Crc32fast} (rs : list Record_) : bytes := mjoin (frame <$> rs).

(** The bytes of [data] at [offset] start with the encoding of [r]. *)
Definition stored_at {C : Crc32fast} (data : bytes) (offset : Z) (r : Record_) : Prop :=
  0 <= offset /\ parse (zdrop offset data) = Ok (Some (r, frame_len r)).

(** Both positional readers return [r] from [offset]. *)
Definition readable_at {C : Crc32fast} (data : bytes) (offset : Z) (r : Record_) : Prop :=
  (pread_record offset (open_file data)).1 = Ok (Some r) /\
  (pread_value_for_key offset (key r) (open_file data)).1 = Ok (Some (value r)).

(** ** Frames in a file *)

Section Frames.
Context {C : Crc32fast} {L : Crc32fastLaws C}.

Lemma frames_app rs1 rs2 : frames (rs1 ++ rs2) = frames rs1 ++ frames rs2.
Proof. unfold frames. by rewrite fmap_app, join_app. Qed.
Lemma frames_cons r rs : frames (r :: rs) = frame r ++ frames rs.
Proof. done. Qed.
Lemma frames_singleton r : frames [r] = frame r.
Proof. rewrite frames_cons. apply app_nil_r. Qed.

Lemma op_record_ok clock i op :
  clock_typed clock -> op_typed op -> validate_batch_write op = Ok tt -> record_ok (op_record (clock i) op).
Proof.
  intros Hc Ht Hv. unfold record_ok.
  destruct op as [k v e|k]; simpl in *; unfold validate_kv_sizes in Hv;
    destruct (Z.ltb_spec u16_max (len k)); try done.
  destruct (Z.ltb_spec MAX_VALUE_SIZE (len v)); [done|]. split_and!; first [apply Hc|lia|apply Ht].
Qed.

Lemma op_record_len now op : frame_len (op_record now op) = batch_write_len op.
Proof. destruct op; unfold frame_len; simpl; unfold record_len, tombstone_len; rewrite ?len_nil; lia. Qed.

Lemma validate_all_inv {A : Type} (v : A -> result unit) es :
  validate_all v es = Ok tt -> Forall (fun e => v e = Ok tt) es.
Proof.
  induction es as [|e es IH]; simpl; [done|].
  destruct (v e) as [[]| |] eqn:E; simpl; [|done|done]. intros Hes. constructor; auto.
Qed.

Lemma validate_all_no_panic {A : Type} (v : A -> result unit) es :
  (forall e, v e <> Panic) -> validate_all v es <> Panic.
Proof.
  intros Hv. induction es as [|e es IH]; simpl; [done|].
  specialize (Hv e). by destruct (v e) as [[]| |].
Qed.

Lemma validate_kv_sizes_no_panic k v : validate_kv_sizes k v <> Panic.
Proof. unfold validate_kv_sizes. destruct (_ <? _); [done|]. by destruct (_ <? _). Qed.

Lemma op_records_cons clock op ops :
  op_records clock (op :: ops) = op_record (clock 0%nat) op :: op_records (fun i => clock (S i)) ops.
Proof. done. Qed.

Lemma op_records_ok clock ops :
  clock_typed clock -> Forall op_typed ops -> Forall (fun op => validate_batch_write op = Ok tt) ops ->
  Forall record_ok (op_records clock ops).
Proof.
  intros Hc Ht Hv. revert clock Hc. induction ops as [|op ops IH]; intros clock Hc; [constructor|].
  rewrite op_records_cons. inversion Ht; inversion Hv; subst. constructor.
  - by apply op_record_ok.
  - apply IH; [done..|]. intros i. apply Hc.
Qed.

Lemma encode_ops_into_frames clock i buf ops :
  encode_ops_into clock i buf ops = buf ++ frames (op_records (fun j => clock (i + j)%nat) ops).
Proof.
  revert i buf. induction ops as [|op ops IH]; intros i buf; [by rewrite app_nil_r|].
  assert (forall b, encode_ops_into clock (S i) b ops =
            b ++ frames (op_records (fun j => clock (i + S j)%nat) ops)) as IH'.
  { intros b. rewrite IH. do 2 f_equal. unfold op_records. apply imap_ext.
    intros j x _. simpl. by rewrite Nat.add_succ_r. }
  rewrite op_records_cons, frames_cons, Nat.add_0_r, app_assoc.
  destruct op as [k v e|k]; simpl; rewrite IH'; f_equal.
  - apply encode_record_into_frame.
  - apply encode_tombstone_into_frame.
Qed.

Lemma encode_entries_into_ops clock i buf es :
  encode_entries_into clock i buf es = encode_ops_into clock i buf (entry_op <$> es).
Proof.
  revert i buf. induction es as [|[[k v] e] es IH]; intros i buf; simpl; [done|]. apply IH.
Qed.

Lemma len_frames rs : len (frames rs) = foldr Z.add 0 (map frame_len rs).
Proof. induction rs as [|r rs IH]; [done|]. rewrite frames_cons, len_app, len_frame, IH. done. Qed.

(** A record stays readable when bytes are appended. *)
Lemma parse_app rest more r n :
  parse rest = Ok (Some (r, n)) -> parse (rest ++ more) = Ok (Some (r, n)).
Proof.
  intros Hp. apply parse_inv in Hp as (Hok & -> & rest' & ->). rewrite <- app_assoc.
  by apply parse_frame_app.
Qed.

Lemma stored_at_app data more off r : stored_at data off r -> stored_at (data ++ more) off r.
Proof.
  intros [Ho Hp]. split; [done|]. destruct (Z.le_gt_cases off (len data)).
  - rewrite zdrop_app_le by lia. by apply parse_app.
  - by rewrite zdrop_ge in Hp by lia.
Qed.

Lemma stored_readable data off r :
  len data <= u64_max -> stored_at data off r -> readable_at data off r.
Proof.
  intros Hl [Ho Hp].
  assert (off <= u64_max).
  { destruct (Z.le_gt_cases off (len data)); [lia|]. rewrite zdrop_ge in Hp by lia. done. }
  assert (reads_at (open_file data) off (zdrop off data)) as Hr.
  { split_and!; try done; try lia. constructor. }
  split.
  - destruct (pread_record_parse off _ _ Hr) as (f' & _ & x & -> & Hx).
    unfold pread_agrees in Hx. rewrite Hp in Hx. done.
  - destruct (pread_value_for_key_parse off (key r) _ _ Hr) as (f' & _ & x & -> & Hx).
    unfold keyed_agrees in Hx. rewrite Hp in Hx. simpl. rewrite Hx.
    destruct (bytes_eqb_spec (key r) (key r)); done.
Qed.

(** The [i]-th of a run of frames, at the offset where it starts. *)
Lemma parse_frames data rs i r :
  Forall record_ok rs -> rs !! i = Some r ->
  parse (zdrop (len data + len (frames (take i rs))) (data ++ frames rs)) = Ok (Some (r, frame_len r)).
Proof.
  intros Hok Hi. rewrite <- (take_drop_middle rs i r Hi) at 2.
  rewrite frames_app, frames_cons. rewrite app_assoc, zdrop_app_ge by zlia.
  rewrite zdrop_0 by zlia. apply parse_frame_app. by eapply Forall_lookup_1.
Qed.

Lemma running_results_lookup {A R : Type} (elen : A -> Z) (report : Z -> A -> R) start es i e :
  (forall e, 0 <= elen e) -> 0 <= start -> start + foldr Z.add 0 (map elen es) <= u64_max ->
  es !! i = Some e ->
  running_results elen report start es !! i = Some (report (start + foldr Z.add 0 (map elen (take i es))) e).
Proof.
  intros Hlen Hs Hle. revert start i Hs Hle. induction es as [|x es IH]; intros start i Hs Hle Hi; [done|].
  assert (forall l, 0 <= foldr Z.add 0 (map elen l)) as Hpos.
  { intros l. induction l as [|y l IHl]; simpl; [lia|]. specialize (Hlen y). lia. }
  simpl in Hle. pose proof (Hlen x). pose proof (Hpos es).
  destruct i as [|i]; simpl in *.
  - injection Hi as ->. by rewrite Z.add_0_r.
  - assert (add64 start (elen x) = start + elen x) as ->
      by (unfold add64, wrap64; apply Z.mod_small; unfold u64_max in *; lia).
    rewrite (IH (start + elen x) i) by (try done; lia). do 2 f_equal. lia.
Qed.

Lemma running_results_length {A R : Type} (elen : A -> Z) (report : Z -> A -> R) start es :
  length (running_results elen report start es) = length es.
Proof. revert start. induction es; intros; simpl; auto. Qed.

End Frames.

(** ** Specifications of the writer *)

Section WriterSpec.
Context {C : Crc32fast} {L : Crc32fastLaws C} {B : Type} `{HB : IoBackend B} {LB : IoBackendLaws B}.

Definition lw_inv (w : LogWriter B) : Prop := io_inv (lw_backend w).

(** [res] reports the record [r] at a place of [data] where it can be read. *)
Definition describes (data : bytes) (res : BatchWriteResult) (r : Record_) : Prop :=
  stored_at data (result_offset res) r /\
  match res, value r with
  | PutResult _ value_len, Some v => value_len = len v
  | DeleteResult _ record_size, None => record_size = frame_len r
  | _, _ => False
  end.

(** The outcome of a call that appends [recs]: the file grows by their frames and
    [results] describes them, or nothing is appended, or the error says that
    undoing a partial append failed. *)
Definition append_outcome {R : Type} (describe : bytes -> R -> Record_ -> Prop) (recs : list Record_)
    (d : Disk) (r : result (list R)) (w' : LogWriter B) (d' : Disk) : Prop :=
  lw_inv w' /\
  match r with
  | Ok results =>
      d_data d' = d_data d ++ frames recs /\ len (d_data d') <= u64_max /\
      (recs <> [] -> lw_offset w' = len (d_data d')) /\
      Forall2 (describe (d_data d')) results recs
  | Err e => append_failed (frames recs) d d' e
  | Panic => False
  end.

Lemma on_backend_inv {A : Type} (m : SR (B * Disk) A) w d r w' d' :
  on_backend m (w, d) = (r, (w', d')) ->
  exists b', m (lw_backend w, d) = (r, (b', d')) /\ w' = mkLogWriter b' (lw_offset w) (lw_file_id w).
Proof.
  unfold on_backend. destruct (m (lw_backend w, d)) as [r0 [b' d0]]. intros E. injection E as -> <- ->.
  by eexists.
Qed.

Lemma io_append_and_sync_spec data b d r b' d' :
  io_inv b -> io_append_and_sync data (b, d) = (r, (b', d')) ->
  io_inv b' /\
  match r with
  | Ok off => off = len (d_data d) /\ d_data d' = d_data d ++ data /\ io_offset b' = len (d_data d') /\
      (len (d_data d) <= u64_max -> len (d_data d') <= u64_max)
  | Err e => append_failed data d d' e
  | Panic => False
  end.
Proof.
  intros Hi. unfold io_append_and_sync, sbind.
  pose proof (io_batch_no_panic [data] b d Hi) as Hnp.
  destruct (io_append_batch_and_sync [data] (b, d)) as [[offs|e|] [b1 d1]] eqn:E; [|intros X|done].
  - apply io_batch_ok in E as (-> & Hd & Ho & Hle & Hi'); [|done]. simpl. intros X.
    unfold slift in X. injection X as <- <- <-. simpl in Hd. rewrite app_nil_r in Hd. done.
  - injection X as <- <- <-. apply io_batch_err in E as (He & ?); [|done]. simpl in He. by rewrite app_nil_r in He.
Qed.

Lemma io_append_spec data b d r b' d' :
  io_inv b -> io_append data (b, d) = (r, (b', d')) ->
  io_inv b' /\
  match r with
  | Ok off => off = len (d_data d) /\ d_data d' = d_data d ++ data /\ io_offset b' = len (d_data d') /\
      len (d_data d') <= u64_max
  | Err e => append_failed data d d' e
  | Panic => False
  end.
Proof.
  intros Hi E. pose proof (io_append_no_panic data b d Hi) as Hnp. rewrite E in Hnp.
  destruct r as [off|e|]; [|by apply io_append_err in E as (? & ?)|done].
  by apply io_append_ok in E as (? & ? & ? & ? & ?).
Qed.

Lemma append_failed_refl data d e : append_failed data d d e.
Proof. by left. Qed.

Lemma op_records_lens clock ops : map frame_len (op_records clock ops) = map batch_write_len ops.
Proof.
  revert clock. induction ops as [|op ops IH]; intros clock; [done|].
  rewrite op_records_cons. simpl. by rewrite op_record_len, IH.
Qed.

Lemma op_records_lookup clock ops i r :
  op_records clock ops !! i = Some r -> exists op, ops !! i = Some op /\ r = op_record (clock i) op.
Proof.
  unfold op_records. rewrite list_lookup_imap. destruct (ops !! i) as [op|]; simpl; [|done].
  intros E. injection E as <-. by eexists.
Qed.

Lemma batch_write_len_nonneg op : 0 <= batch_write_len op.
Proof. destruct op; simpl; unfold record_len, tombstone_len; zlia. Qed.

(** The offsets of the reports are those of the frames. *)
Lemma batch_write_results_describe clock ops data :
  Forall record_ok (op_records clock ops) ->
  len (data ++ frames (op_records clock ops)) <= u64_max ->
  Forall2 (describes (data ++ frames (op_records clock ops)))
    (batch_write_results ops (len data)) (op_records clock ops).
Proof.
  intros Hok Hle. set (rs := op_records clock ops) in *. apply Forall2_same_length_lookup_2.
  { unfold batch_write_results, rs, op_records. by rewrite running_results_length, length_imap. }
  intros i res r Hres Hr. destruct (op_records_lookup _ _ _ _ Hr) as (op & Hop & ->).
  rewrite len_app, len_frames in Hle. unfold rs in Hle at 1. rewrite op_records_lens in Hle.
  unfold batch_write_results in Hres.
  rewrite (running_results_lookup _ _ _ _ i op) in Hres
    by (done || apply batch_write_len_nonneg || zlia).
  injection Hres as <-.
  pose proof (parse_frames data rs i _ Hok Hr) as Hp.
  rewrite len_frames, <- firstn_map in Hp. unfold rs in Hp at 1.
  rewrite op_records_lens, firstn_map in Hp.
  assert (stored_at (data ++ frames rs) (len data + foldr Z.add 0 (map batch_write_len (take i ops)))
            (op_record (clock i) op)) as Hread.
  { split; [|done].
    assert (forall l, 0 <= foldr Z.add 0 (map batch_write_len l)) as Hpos.
    { intros l. induction l as [|x l IHl]; simpl; [lia|]. pose proof (batch_write_len_nonneg x). lia. }
    specialize (Hpos (take i ops)). len_facts. lia. }
  destruct op as [k v e|k]; (split; [done|]); simpl; [done|].
  unfold frame_len. simpl. rewrite len_nil. lia.
Qed.

Lemma total_len_no_panic {A : Type} (elen : A -> Z) acc es : total_len elen acc es <> Panic.
Proof.
  revert acc. induction es as [|e es IH]; intros acc; simpl; [done|].
  unfold ok_or. destruct (checked_add64 _ _); simpl; [apply IH|done].
Qed.

Lemma validate_batch_no_panic op : validate_batch_write op <> Panic.
Proof. destruct op; apply validate_kv_sizes_no_panic. Qed.

(** A call that appends [data] and refreshes the writer's offset. *)
Definition appends (m : SR (LogWriter B * Disk) Z) (data : bytes) : Prop :=
  forall w d r w' d', lw_inv w -> len (d_data d) <= u64_max -> m (w, d) = (r, (w', d')) ->
  lw_inv w' /\
  match r with
  | Ok off => off = len (d_data d) /\ d_data d' = d_data d ++ data /\
      lw_offset w' = len (d_data d') /\ len (d_data d') <= u64_max
  | Err e => append_failed data d d' e
  | Panic => False
  end.

Lemma append_appends data : appends (write_raw data) data.
Proof.
  intros w d r w' d' Hi Hl E. unfold write_raw, sbind in E.
  destruct (on_backend (io_append data) (w, d)) as [r1 [w1 d1]] eqn:E1.
  apply on_backend_inv in E1 as (b' & E1 & ->). apply io_append_spec in E1 as (Hi' & Hr); [|done].
  destruct r1 as [off|e|]; [|by injection E as <- <- <-|done].
  injection E as <- <- <-. by destruct Hr as (? & ? & ? & ?).
Qed.

Lemma append_and_sync_appends data :
  appends (let! start := on_backend (io_append_and_sync data) in
           let! _ := refresh_offset in sret start) data.
Proof.
  intros w d r w' d' Hi Hl E. unfold sbind in E.
  destruct (on_backend (io_append_and_sync data) (w, d)) as [r1 [w1 d1]] eqn:E1.
  apply on_backend_inv in E1 as (b' & E1 & ->). apply io_append_and_sync_spec in E1 as (Hi' & Hr); [|done].
  destruct r1 as [off|e|]; [|by injection E as <- <- <-|done].
  injection E as <- <- <-. destruct Hr as (? & ? & ? & Hle). split_and!; try done. by apply Hle.
Qed.

Lemma append_refresh_appends data : appends (append_refresh data) data.
Proof.
  intros w d r w' d' Hi Hl E. unfold append_refresh in E.
  destruct (on_backend (io_append data) (w, d)) as [r1 [w1 d1]] eqn:E1.
  apply on_backend_inv in E1 as (b' & E1 & ->). apply io_append_spec in E1 as (Hi' & Hr); [|done].
  destruct r1 as [off|e|]; [| |done]; injection E as <- <- <-; [|done].
  by destruct Hr as (? & ? & ? & ?).
Qed.

(** A call that validates, computes the frames and appends them. *)
Lemma append_outcome_intro {R : Type} (describe : bytes -> R -> Record_ -> Prop) recs
    (m : SR (LogWriter B * Disk) Z) (report : Z -> list R) w d r w' d' :
  lw_inv w -> len (d_data d) <= u64_max -> appends m (frames recs) ->
  (len (d_data d ++ frames recs) <= u64_max ->
   Forall2 (describe (d_data d ++ frames recs)) (report (len (d_data d))) recs) ->
  sbind m (fun start => sret (report start)) (w, d) = (r, (w', d')) ->
  append_outcome describe recs d r w' d'.
Proof.
  intros Hi Hl Hm Hrep E. unfold sbind in E. destruct (m (w, d)) as [r1 [w1 d1]] eqn:E1.
  apply Hm in E1 as (Hi' & Hr); [|done..]. unfold append_outcome.
  destruct r1 as [off|e|]; [|by injection E as <- <- <-|done].
  injection E as <- <- <-. destruct Hr as (-> & Hd & Ho & Hle). split; [done|].
  rewrite Hd in *. split_and!; auto.
Qed.

(** Errors raised before anything is written. *)
Lemma append_outcome_early {R A : Type} (describe : bytes -> R -> Record_ -> Prop) recs
    (v : result A) (k : A -> SR (LogWriter B * Disk) (list R)) w d r w' d' :
  lw_inv w -> v <> Panic ->
  (forall a, v = Ok a -> k a (w, d) = (r, (w', d')) -> append_outcome describe recs d r w' d') ->
  sbind (slift v) k (w, d) = (r, (w', d')) ->
  append_outcome describe recs d r w' d'.
Proof.
  intros Hi Hp Hk E. unfold sbind, slift in E. destruct v as [a|e|]; [by eapply Hk| |done].
  injection E as <- <- <-. split; [done|apply append_failed_refl].
Qed.

Lemma write_ops_batch_outcome clock ops w d r w' d' :
  lw_inv w -> len (d_data d) <= u64_max -> clock_typed clock -> Forall op_typed ops ->
  write_ops_batch clock ops (w, d) = (r, (w', d')) ->
  append_outcome describes (op_records clock ops) d r w' d'.
Proof.
  intros Hi Hl Hc Ht E. unfold write_ops_batch in E. destruct ops as [|op ops].
  { injection E as <- <- <-. split; [done|]. split_and!; [|done|done|constructor].
    unfold frames; simpl. by rewrite app_nil_r. }
  revert E. set (all := op :: ops) in *.
  apply append_outcome_early; [done|apply validate_all_no_panic, validate_batch_no_panic|].
  intros [] Hv. apply validate_all_inv in Hv.
  assert (encode_batch_writes clock all <> Panic) as Hnp.
  { unfold encode_batch_writes. pose proof (total_len_no_panic batch_write_len 0 all).
    by destruct (total_len _ _ _). }
  apply append_outcome_early; [done..|]. intros combined Hcomb.
  assert (combined = frames (op_records clock all)) as ->.
  { unfold encode_batch_writes in Hcomb. destruct (total_len _ _ _); [|done|done].
    cbn [rbind] in Hcomb. rewrite (encode_ops_into_frames clock 0 []) in Hcomb. by simplify_eq. }
  intros E. eapply (append_outcome_intro _ _ _ (batch_write_results all)); [done|done|
    apply append_and_sync_appends| |].
  - intros Hle. apply batch_write_results_describe; [by apply op_records_ok|done].
  - rewrite <- E. unfold sbind. by destruct (on_backend _ _) as [[] []].
Qed.

Lemma write_ops_batch_nosync_outcome clock ops w d r w' d' :
  lw_inv w -> len (d_data d) <= u64_max -> clock_typed clock -> Forall op_typed ops ->
  write_ops_batch_nosync clock ops (w, d) = (r, (w', d')) ->
  append_outcome describes (op_records clock ops) d r w' d'.
Proof.
  intros Hi Hl Hc Ht E. unfold write_ops_batch_nosync in E. destruct ops as [|op ops].
  { injection E as <- <- <-. split; [done|]. split_and!; [|done|done|constructor].
    unfold frames; simpl. by rewrite app_nil_r. }
  revert E. set (all := op :: ops) in *.
  apply append_outcome_early; [done|apply validate_all_no_panic, validate_batch_no_panic|].
  intros [] Hv. apply validate_all_inv in Hv.
  apply append_outcome_early; [done|apply total_len_no_panic|]. intros n _. cbv zeta.
  rewrite encode_ops_into_frames.
  apply (append_outcome_intro _ _ _ (batch_write_results all)); [done|done|
    apply append_refresh_appends|].
  intros Hle. apply batch_write_results_describe; [by apply op_records_ok|done].
Qed.

Definition entry_describes (data : bytes) (res : Z * Z) (r : Record_) : Prop :=
  stored_at data res.1 r /\ Some res.2 = len <$> value r.

Definition entry_records (clock : nat -> Z) (entries : list entry) : list Record_ :=
  op_records clock (entry_op <$> entries).

Lemma entries_validate entries :
  validate_entries entries = validate_batch_writes (entry_op <$> entries).
Proof.
  unfold validate_entries, validate_batch_writes.
  induction entries as [|[[k v] e] es IH]; simpl; [done|]. by rewrite IH.
Qed.

Lemma running_results_entries start entries :
  Forall2 (fun res res' => res' = PutResult res.1 res.2)
    (running_results entry_len (fun off '(_, value, _) => (off, len value)) start entries)
    (batch_write_results (entry_op <$> entries) start).
Proof.
  unfold batch_write_results. revert start.
  induction entries as [|[[k v] e] es IH]; intros start; simpl; constructor; auto.
Qed.

Lemma entries_describe data results reports recs :
  Forall2 (fun res res' => res' = PutResult res.1 res.2) results reports ->
  Forall2 (describes data) reports recs -> Forall2 (entry_describes data) results recs.
Proof.
  intros H1. revert recs. induction H1 as [|[off n] rep results reports Heq H1 IH]; intros recs H2;
    inversion H2 as [|? r ? rs Hd Hrest]; subst; constructor; [|by apply IH].
  destruct Hd as [Hread Hv]. split; [done|]. simpl in *.
  destruct (value r) as [v|]; [|done]. by subst.
Qed.

Lemma write_batch_nosync_outcome clock entries w d r w' d' :
  lw_inv w -> len (d_data d) <= u64_max -> clock_typed clock -> Forall op_typed (entry_op <$> entries) ->
  write_batch_nosync clock entries (w, d) = (r, (w', d')) ->
  append_outcome entry_describes (entry_records clock entries) d r w' d'.
Proof.
  intros Hi Hl Hc Ht E. unfold write_batch_nosync in E. destruct entries as [|e0 es].
  { injection E as <- <- <-. split; [done|]. split_and!; [|done|done|constructor].
    unfold frames; simpl. by rewrite app_nil_r. }
  revert E. set (all := e0 :: es) in *. rewrite entries_validate.
  apply append_outcome_early; [done|apply validate_all_no_panic, validate_batch_no_panic|].
  intros [] Hv. apply validate_all_inv in Hv.
  apply append_outcome_early; [done|apply total_len_no_panic|]. intros n _. cbv zeta.
  rewrite encode_entries_into_ops, encode_ops_into_frames.
  apply (append_outcome_intro _ _ _
    (fun start => running_results entry_len (fun off '(_, value, _) => (off, len value)) start all));
    [done|done|apply append_refresh_appends|].
  intros Hle. eapply entries_describe; [apply running_results_entries|].
  apply batch_write_results_describe; [by apply op_records_ok|done].
Qed.

Lemma offsets_from_frames data entries clock :
  len (data ++ frames (entry_records clock entries)) <= u64_max ->
  zip_with (fun off '(_, value, _) => (off, len value))
    (offsets_from (len data) (frame <$> entry_records clock entries)) entries =
  running_results entry_len (fun off '(_, value, _) => (off, len value)) (len data) entries.
Proof.
  unfold entry_records. revert data clock.
  induction entries as [|[[k v] e] es IH]; intros data clock Hle; [done|].
  rewrite fmap_cons, op_records_cons, frames_cons in *.
  set (r := op_record (clock 0%nat) (entry_op (k, v, e))) in *.
  assert (len (frame r) = entry_len (k, v, e)) as Hlen by (rewrite len_frame; apply op_record_len).
  cbn [fmap list_fmap offsets_from zip_with running_results]. f_equal.
  replace (add64 (len data) (entry_len (k, v, e))) with (len (data ++ frame r)).
  - rewrite <- (len_app data (frame r)). apply IH. by rewrite <- app_assoc.
  - rewrite <- Hlen. unfold add64, wrap64. rewrite Z.mod_small, len_app; [done|].
    rewrite !len_app in Hle. unfold u64_max in Hle. len_facts. lia.
Qed.

Lemma encoded_entries clock entries :
  imap (fun i '(key, value, expire_at_ms) => encode_record (clock i) key value expire_at_ms) entries =
  frame <$> entry_records clock entries.
Proof.
  unfold entry_records. revert clock. induction entries as [|[[k v] e] es IH]; intros clock; [done|].
  rewrite fmap_cons, op_records_cons, fmap_cons. simpl.
  f_equal; first [apply (IH (fun i => clock (S i)))|apply (encode_record_into_frame _ [])].
Qed.

Lemma write_batch_outcome clock entries w d r w' d' :
  lw_inv w -> len (d_data d) <= u64_max -> clock_typed clock -> Forall op_typed (entry_op <$> entries) ->
  write_batch clock entries (w, d) = (r, (w', d')) ->
  append_outcome entry_describes (entry_records clock entries) d r w' d'.
Proof.
  intros Hi Hl Hc Ht. unfold write_batch. rewrite entries_validate.
  apply append_outcome_early; [done|apply validate_all_no_panic, validate_batch_no_panic|].
  intros [] Hv. apply validate_all_inv in Hv. cbv zeta. rewrite encoded_entries. intros E.
  unfold sbind in E. destruct (on_backend _ _) as [r1 [w1 d1]] eqn:E1.
  apply on_backend_inv in E1 as (b' & E1 & ->). unfold append_outcome.
  pose proof (io_batch_no_panic (frame <$> entry_records clock entries) (lw_backend w) d Hi) as Hnp.
  rewrite E1 in Hnp. destruct r1 as [offs|e|]; [|injection E as <- <- <-|done].
  - injection E as <- <- <-. apply io_batch_ok in E1 as (-> & Hd & Ho & Hle & Hi'); [|done].
    split; [done|]. fold (frames (entry_records clock entries)) in Hd. rewrite Hd in *.
    split_and!; [done|by apply Hle|by intros _|]. rewrite offsets_from_frames by (by apply Hle).
    eapply entries_describe; [apply running_results_entries|].
    apply batch_write_results_describe; [by apply op_records_ok|by apply Hle].
  - by apply io_batch_err in E1 as (? & ?).
Qed.

Lemma single_describe (data : bytes) (r : Record_) :
  record_ok r -> Forall2 (stored_at (data ++ frames [r])) [len data] [r].
Proof.
  intros Hok. constructor; [|constructor]. split; [apply len_nonneg|].
  rewrite zdrop_app_ge, zdrop_0, frames_singleton, <- (app_nil_r (frame r)) by lia.
  by apply parse_frame_app.
Qed.

(** *** Calls and sequences of calls *)

Inductive writer_call : Type :=
| CWrite (key value : bytes) (expire_at_ms : Z)
| CWriteSync (key value : bytes) (expire_at_ms : Z)
| CTombstone (key : bytes)
| CTombstoneSync (key : bytes)
| CBatch (entries : list entry)
| CBatchNosync (entries : list entry)
| COps (ops : list BatchWrite)
| COpsNosync (ops : list BatchWrite).

Definition call_ops (c : writer_call) : list BatchWrite :=
  match c with
  | CWrite key value e | CWriteSync key value e => [Put key value e]
  | CTombstone key | CTombstoneSync key => [Delete key]
  | CBatch es | CBatchNosync es => entry_op <$> es
  | COps ops | COpsNosync ops => ops
  end.

(** The offsets a call returns. *)
Definition run_call (clock : nat -> Z) (c : writer_call) : SR (LogWriter B * Disk) (list Z) :=
  match c with
  | CWrite key value e => let! off := write (clock 0%nat) key value e in sret [off]
  | CWriteSync key value e => let! off := write_sync (clock 0%nat) key value e in sret [off]
  | CTombstone key => let! off := write_tombstone (clock 0%nat) key in sret [off]
  | CTombstoneSync key => let! off := write_tombstone_sync (clock 0%nat) key in sret [off]
  | CBatch es => let! rs := write_batch clock es in sret (map fst rs)
  | CBatchNosync es => let! rs := write_batch_nosync clock es in sret (map fst rs)
  | COps ops => let! rs := write_ops_batch clock ops in sret (map result_offset rs)
  | COpsNosync ops => let! rs := write_ops_batch_nosync clock ops in sret (map result_offset rs)
  end.

Lemma append_outcome_map {R : Type} (describe : bytes -> R -> Record_ -> Prop) (off : R -> Z) recs m
    w d r w' d' :
  (forall data res rec, describe data res rec -> stored_at data (off res) rec) ->
  (forall r' w'' d'', m (w, d) = (r', (w'', d'')) -> append_outcome describe recs d r' w'' d'') ->
  sbind m (fun rs => sret (map off rs)) (w, d) = (r, (w', d')) ->
  append_outcome stored_at recs d r w' d'.
Proof.
  intros Hoff Hm E. unfold sbind in E. destruct (m (w, d)) as [r1 [w1 d1]] eqn:E1.
  destruct (Hm _ _ _ eq_refl) as (Hi' & Hr). unfold append_outcome.
  destruct r1 as [rs|e|]; injection E as <- <- <-; [|done|done].
  destruct Hr as (? & ? & ? & Hf). split_and!; try done.
  apply Forall2_fmap_l. eapply Forall2_impl; [exact Hf|]. intros x y. apply Hoff.
Qed.

Lemma single_outcome op clock (m : SR (LogWriter B * Disk) Z) w d r w' d' :
  lw_inv w -> len (d_data d) <= u64_max -> clock_typed clock -> op_typed op ->
  appends m (frame (op_record (clock 0%nat) op)) ->
  sbind (slift (validate_batch_write op)) (fun _ => sbind m (fun off => sret [off])) (w, d)
    = (r, (w', d')) ->
  append_outcome stored_at (op_records clock [op]) d r w' d'.
Proof.
  intros Hi Hl Hc Ht Hm.
  apply append_outcome_early; [done|apply validate_batch_no_panic|]. intros [] Hv.
  rewrite <- frames_singleton in Hm.
  apply (append_outcome_intro _ _ _ (fun off => [off])); [done|done|exact Hm|].
  intros _. apply single_describe. by apply op_record_ok.
Qed.

Lemma run_call_outcome clock c w d r w' d' :
  lw_inv w -> len (d_data d) <= u64_max -> clock_typed clock -> Forall op_typed (call_ops c) ->
  run_call clock c (w, d) = (r, (w', d')) ->
  append_outcome stored_at (op_records clock (call_ops c)) d r w' d'.
Proof.
  intros Hi Hl Hc Ht. destruct c as [k v e|k v e|k|k|es|es|ops|ops]; simpl in *.
  - inversion Ht; subst. unfold write. rewrite <- sbind_assoc.
    apply (single_outcome (Put k v e)); [done..|].
    unfold encode_record. rewrite encode_record_into_frame. apply append_appends.
  - inversion Ht; subst. unfold write_sync. rewrite <- sbind_assoc.
    apply (single_outcome (Put k v e)); [done..|].
    unfold encode_record. rewrite encode_record_into_frame. apply append_and_sync_appends.
  - unfold write_tombstone. rewrite <- sbind_assoc. apply (single_outcome (Delete k)); [done..|].
    unfold encode_tombstone. rewrite encode_tombstone_into_frame. apply append_appends.
  - unfold write_tombstone_sync. rewrite <- sbind_assoc. apply (single_outcome (Delete k)); [done..|].
    unfold encode_tombstone. rewrite encode_tombstone_into_frame. apply append_and_sync_appends.
  - apply (append_outcome_map entry_describes); [by intros ? ? ? []|].
    intros ? ? ?. by apply write_batch_outcome.
  - apply (append_outcome_map entry_describes); [by intros ? ? ? []|].
    intros ? ? ?. by apply write_batch_nosync_outcome.
  - apply (append_outcome_map describes); [by intros ? ? ? []|].
    intros ? ? ?. by apply write_ops_batch_outcome.
  - apply (append_outcome_map describes); [by intros ? ? ? []|].
    intros ? ? ?. by apply write_ops_batch_nosync_outcome.
Qed.

(** A session: calls in order, each with its own clock readings; the caller keeps
    the offsets of the successful ones and goes on after an error. *)
Fixpoint run_calls (calls : list ((nat -> Z) * writer_call)) (s : LogWriter B * Disk)
    : list (result (list Z)) * (LogWriter B * Disk) :=
  match calls with
  | [] => ([], s)
  | (clock, c) :: calls =>
      let '(r, s1) := run_call clock c s in
      let '(rs, s2) := run_calls calls s1 in
      (r :: rs, s2)
  end.

Definition call_typed (c : (nat -> Z) * writer_call) : Prop :=
  clock_typed c.1 /\ Forall op_typed (call_ops c.2).

(** The records of the calls that returned [Ok], in order, with the offsets they
    returned. *)
Fixpoint acknowledged (calls : list ((nat -> Z) * writer_call)) (rs : list (result (list Z)))
    : list (Z * Record_) :=
  match calls, rs with
  | (clock, c) :: calls, Ok offs :: rs =>
      zip offs (op_records clock (call_ops c)) ++ acknowledged calls rs
  | _ :: calls, _ :: rs => acknowledged calls rs
  | _, _ => []
  end.

(** No call reported that undoing its partial append failed. *)
Definition no_rollback_failure (rs : list (result (list Z))) : Prop :=
  Forall (fun r => match r with Err e => forall c b, e <> rollback_failure c b | _ => True end) rs.

(** The bytes a call leaves in the file: all of its records when it succeeds, none when it
    fails, and their first part when its error says that undoing them failed too. *)
Definition leaves (call : (nat -> Z) * writer_call) (r : result (list Z)) (out : bytes) : Prop :=
  let recs := frames (op_records call.1 (call_ops call.2)) in
  match r with
  | Ok offs => out = recs /\ length offs = length (call_ops call.2)
  | Err e => out = [] \/ (exists c b, e = rollback_failure c b) /\ out `prefix_of` recs
  | Panic => False
  end.
(** The calls one after the other, and what each leaves. *)
Inductive session : list ((nat -> Z) * writer_call) -> list (result (list Z)) -> bytes -> Prop :=
  | session_nil : session [] [] []
  | session_cons call calls r rs out outs : leaves call r out -> session calls rs outs -> session (call :: calls) (r :: rs) (out ++ outs).

Lemma session_clean calls rs outs : session calls rs outs -> no_rollback_failure rs -> outs = frames (acknowledged calls rs).*2.
Proof.
  induction 1 as [|[clock c] calls r rs out outs Hl _ IH]; intros Hnr; [done|]. inversion Hnr as [|? ? Hr Hnr']; subst.
  rewrite (IH Hnr'). destruct r as [offs|e|]; simpl in *; [| |done].
  - destruct Hl as [-> Hn]. rewrite fmap_app, snd_zip, frames_app; [done|]. unfold op_records. by rewrite length_imap, Hn.
  - destruct Hl as [->|[(cc & b & ->) _]]; [done|]. by destruct (Hr cc b).
Qed.

Lemma run_calls_log calls w d rs w' d' :
  lw_inv w -> len (d_data d) <= u64_max -> Forall call_typed calls ->
  run_calls calls (w, d) = (rs, (w', d')) ->
  lw_inv w' /\ len (d_data d') <= u64_max /\
  (exists outs, session calls rs outs /\ d_data d' = d_data d ++ outs) /\
  Forall (fun '(off, r) => stored_at (d_data d') off r) (acknowledged calls rs).
Proof.
  revert w d rs. induction calls as [|[clock c] calls IH]; intros w d rs Hi Hl Ht E.
  { injection E as <- <- <-. split_and!; try done. exists []. rewrite app_nil_r. by split; [constructor|]. }
  simpl in E. destruct (run_call clock c (w, d)) as [r [w1 d1]] eqn:E1.
  destruct (run_calls calls (w1, d1)) as [rs1 [w2 d2]] eqn:E2. injection E as <- <- <-.
  inversion Ht as [|? ? [Hc Hop] Ht']; subst.
  apply run_call_outcome in E1 as (Hi1 & Ho); [|done..].
  assert (exists out, leaves (clock, c) r out /\ d_data d1 = d_data d ++ out /\ len (d_data d1) <= u64_max) as (out & Hlv & Hd1 & Hl1).
  { destruct r as [offs|e|]; [| |done].
    - destruct Ho as (Hd1 & Hl1 & _ & Hf). eexists. split; [|done]. split; [done|]. rewrite (Forall2_length _ _ _ Hf). unfold op_records. apply length_imap.
    - destruct Ho as [Hd1|(Hrb & Hu & junk & Hj & Hd1)]; [exists []; rewrite app_nil_r, Hd1; by split; [left|]|].
      exists junk. split; [by right|]. split; [done|by apply Hu]. }
  destruct (IH _ _ _ Hi1 Hl1 Ht' E2) as (? & ? & (outs & Hs & Hd2) & Hst).
  split_and!; [done|done| |].
  - exists (out ++ outs). split; [by constructor|]. by rewrite Hd2, Hd1, app_assoc.
  - destruct r as [offs|e|]; simpl; [|done|done]. apply Forall_app. split; [|done]. destruct Ho as (_ & _ & _ & Hf). rewrite Hd2. clear -Hf L.
    induction Hf as [|off r offs recs Hs Hf IHf]; simpl; [constructor|]. constructor; [by apply stored_at_app|done].
Qed.

(** *** Calls succeed on a disk without faults *)

Definition disk_ready (d : Disk) : Prop := d_faults d = [] /\ d_poisoned d = false.

Definition succeeds {A : Type} (m : SR (LogWriter B * Disk) A) (w : LogWriter B) (d : Disk) : Prop :=
  exists a s, m (w, d) = (Ok a, s).

Lemma succeeds_bind {A R : Type} (m : SR (LogWriter B * Disk) A) (g : A -> R) w d :
  succeeds m w d -> succeeds (sbind m (fun a => sret (g a))) w d.
Proof. intros (a & s & E). exists (g a), s. by erewrite sbind_Ok by exact E. Qed.

Lemma on_backend_Ok {A : Type} (m : SR (B * Disk) A) w d a b' d' :
  m (lw_backend w, d) = (Ok a, (b', d')) ->
  on_backend m (w, d) = (Ok a, (mkLogWriter b' (lw_offset w) (lw_file_id w), d')).
Proof. intros E. unfold on_backend. by rewrite E. Qed.

Lemma write_raw_live data w d :
  lw_inv w -> disk_ready d -> len (d_data d) + len data <= u64_max -> succeeds (write_raw data) w d.
Proof.
  intros Hi [Hf Hp] Hle. destruct (io_append_live data _ d Hi Hf Hp Hle) as (off & b' & d' & E & _).
  eexists _, _. unfold write_raw. erewrite sbind_Ok by (by apply on_backend_Ok). done.
Qed.

Lemma append_refresh_live data w d :
  lw_inv w -> disk_ready d -> len (d_data d) + len data <= u64_max -> succeeds (append_refresh data) w d.
Proof.
  intros Hi [Hf Hp] Hle. destruct (io_append_live data _ d Hi Hf Hp Hle) as (off & b' & d' & E & _).
  eexists _, _. unfold append_refresh. rewrite (on_backend_Ok _ _ _ _ _ _ E). done.
Qed.

Lemma append_and_sync_live data w d :
  lw_inv w -> disk_ready d -> len (d_data d) + len data <= u64_max ->
  succeeds (let! start := on_backend (io_append_and_sync data) in
            let! _ := refresh_offset in sret start) w d.
Proof.
  intros Hi [Hf Hp] Hle.
  destruct (io_batch_live [data] _ d Hi Hf Hp) as (offs & b' & d' & E & _);
    [simpl; by rewrite app_nil_r|].
  pose proof (io_batch_ok _ _ _ _ _ _ Hi E) as (-> & _).
  eexists _, _. erewrite sbind_Ok; [|apply on_backend_Ok; unfold io_append_and_sync;
    erewrite sbind_Ok by exact E; done]. done.
Qed.

Lemma validate_all_ok {A : Type} (v : A -> result unit) es :
  Forall (fun e => v e = Ok tt) es -> validate_all v es = Ok tt.
Proof. induction 1 as [|e es He _ IH]; simpl; [done|]. by rewrite He. Qed.

Lemma total_len_ok {A : Type} (elen : A -> Z) acc es :
  (forall e, 0 <= elen e) -> acc + foldr Z.add 0 (map elen es) <= u64_max ->
  total_len elen acc es = Ok (acc + foldr Z.add 0 (map elen es)).
Proof.
  intros Hpos. revert acc. induction es as [|e es IH]; intros acc Hle; simpl in *.
  { by rewrite Z.add_0_r. }
  assert (0 <= foldr Z.add 0 (map elen es)) by (clear -Hpos; induction es; simpl;
    [lia|specialize (Hpos a); lia]).
  unfold checked_add64. destruct (Z.leb_spec (acc + elen e) u64_max); simpl; [|specialize (Hpos e); lia].
  rewrite IH by lia. f_equal. lia.
Qed.

Lemma total_len_entries acc es :
  total_len entry_len acc es = total_len batch_write_len acc (entry_op <$> es).
Proof.
  revert acc. induction es as [|[[k v] e] es IH]; intros acc; simpl; [done|].
  destruct (checked_add64 _ _); simpl; [apply IH|done].
Qed.

Lemma run_call_live clock c w d :
  lw_inv w -> disk_ready d -> Forall (fun op => validate_batch_write op = Ok tt) (call_ops c) ->
  len (d_data d) + len (frames (op_records clock (call_ops c))) <= u64_max ->
  succeeds (run_call clock c) w d.
Proof.
  intros Hi Hd Hv Hle.
  assert (forall ops, len (d_data d) + len (frames (op_records clock ops)) <= u64_max ->
    total_len batch_write_len 0 ops = Ok (foldr Z.add 0 (map batch_write_len ops))) as Htot.
  { intros ops Hops. rewrite len_frames, op_records_lens in Hops. len_facts.
    rewrite total_len_ok; [done|apply batch_write_len_nonneg|lia]. }
  destruct c as [k v e|k v e|k|k|es|es|ops|ops]; simpl in *.
  1-4: rewrite len_frames, op_records_lens in Hle; simpl in Hle; inversion Hv as [|? ? Hv1 _]; subst;
    simpl in Hv1; apply (succeeds_bind _ (fun off => [off]));
    unfold write, write_sync, write_tombstone, write_tombstone_sync; unfold succeeds;
    rewrite Hv1, sbind_slift_Ok; cbv zeta; unfold encode_record, encode_tombstone;
    rewrite ?encode_record_into_frame, ?encode_tombstone_into_frame;
    first [apply write_raw_live|apply append_and_sync_live]; [done|done|];
    simpl; rewrite len_frame; unfold frame_len, record_len, tombstone_len in *; simpl in *;
    rewrite ?len_nil; unfold id; lia.
  - apply (succeeds_bind _ (map fst)). unfold write_batch, succeeds.
    rewrite entries_validate. unfold validate_batch_writes. rewrite validate_all_ok, sbind_slift_Ok by done.
    cbv zeta. rewrite encoded_entries. destruct Hd as [Hf Hp].
    destruct (io_batch_live (frame <$> entry_records clock es) _ d Hi Hf Hp Hle) as (offs & b' & d' & E & _).
    erewrite sbind_Ok by (by apply on_backend_Ok). eexists _, _. done.
  - apply (succeeds_bind _ (map fst)). unfold write_batch_nosync, succeeds.
    destruct es as [|e0 es]; [by eexists _, _|]. set (all := e0 :: es) in *.
    rewrite entries_validate. unfold validate_batch_writes. rewrite validate_all_ok, sbind_slift_Ok by done.
    rewrite total_len_entries, Htot by done.
    rewrite sbind_slift_Ok. cbv zeta. rewrite encode_entries_into_ops, encode_ops_into_frames.
    apply (succeeds_bind _ (fun s => running_results _ _ s all)). by apply append_refresh_live.
  - apply (succeeds_bind _ (map result_offset)). unfold write_ops_batch, succeeds.
    destruct ops as [|op ops]; [by eexists _, _|]. set (all := op :: ops) in *.
    unfold validate_batch_writes, encode_batch_writes. rewrite validate_all_ok, sbind_slift_Ok by done.
    rewrite Htot by done. cbn [rbind]. rewrite sbind_slift_Ok, encode_ops_into_frames.
    destruct (append_and_sync_live (frames (op_records clock all)) w d Hi Hd Hle) as (off & s & E).
    apply sbind_inv in E as (a & [w1 d1] & E1 & _). eexists _, _.
    erewrite sbind_Ok by exact E1. done.
  - apply (succeeds_bind _ (map result_offset)). unfold write_ops_batch_nosync, succeeds.
    destruct ops as [|op ops]; [by eexists _, _|]. set (all := op :: ops) in *.
    rewrite validate_all_ok, sbind_slift_Ok, Htot, sbind_slift_Ok by done. cbv zeta.
    rewrite encode_ops_into_frames.
    apply (succeeds_bind _ (batch_write_results all)). by apply append_refresh_live.
Qed.

(** ** Raw copies *)

Lemma copy_hashed_range_loop_spec fuel h l off n label f rest w d r f' w' d' :
  reads_at f off rest -> lw_inv w -> len (d_data d) <= u64_max -> hashed h l -> 0 <= n ->
  n <= Z.of_nat fuel * STREAM_READ_CHUNK_SIZE ->
  copy_hashed_range_loop fuel off n h label (f, (w, d)) = (r, (f', (w', d'))) ->
  f_data f' = f_data f /\ calm f' /\ lw_inv w' /\
  exists out, d_data d' = d_data d ++ out /\
  match r with
  | Ok h' => n <= len rest /\ out = ztake n rest /\ hashed h' (l ++ out) /\ len (d_data d') <= u64_max
  | Err _ => True
  | Panic => False
  end.
Proof.
  revert h l off n f rest w d. induction fuel as [|fuel IH];
    intros h l off n f rest w d Hr Hi Hl Hh Hn Hfuel E; cbn [copy_hashed_range_loop] in E.
  all: destruct (Z.leb_spec n 0);
    [injection E as <- <- <- <-; split_and!; [done|apply Hr|done|]; exists []; rewrite app_nil_r;
     split; [done|]; rewrite ztake_0, app_nil_r by lia; split_and!; zlia || done|].
  { lia. }
  assert (STREAM_READ_CHUNK_SIZE = 65536) as HC by done.
  set (c := Z.min n STREAM_READ_CHUNK_SIZE) in *.
  destruct (read_exact_at_or_eof_calm c label f off rest ltac:(lia) Hr) as (f1 & Hd1 & Hc1 & H1).
  unfold sbind at 1 in E. unfold on_source in E. rewrite H1 in E.
  destruct (Z.eqb_spec (len rest) 0).
  { injection E as <- <- <- <-. split_and!; try done. exists []. by rewrite app_nil_r. }
  destruct (Z.ltb_spec (len rest) c).
  { injection E as <- <- <- <-. split_and!; try done. exists []. by rewrite app_nil_r. }
  cbv zeta iota in E. unfold sbind at 1 in E. unfold on_writer' in E.
  destruct (write_raw (ztake c rest) (w, d)) as [r2 [w2 d2]] eqn:E2.
  apply append_appends in E2 as (Hi2 & H2); [|done..]. destruct r2 as [o2|e2|]; [| |done].
  2: { injection E as <- <- <- <-. split_and!; try done. destruct H2 as [H2|(_ & _ & junk & _ & H2)];
       [exists []; by rewrite app_nil_r|by exists junk]. }
  destruct H2 as (_ & Hd2 & _ & Hl2).
  pose proof (reads_at_bound _ _ _ c Hr ltac:(len_facts; lia) ltac:(lia)) as Hoff.
  unfold checked_add64 in E. destruct (Z.leb_spec (off + c) u64_max); [|lia].
  cbn [ok_or] in E. rewrite sbind_slift_Ok in E.
  eapply (IH _ (l ++ ztake c rest)) in E as (Hd' & Hc' & Hi' & out & Hout & Hres);
    [|eapply (reads_at_advance f); done || lia|done|done|by apply hashed_update|lia|lia].
  split_and!; [congruence|done|done|]. exists (ztake c rest ++ out).
  rewrite app_assoc, <- Hd2. split; [done|]. destruct r as [h'|e|]; [|done|done].
  destruct Hres as (Hle & -> & Hh' & Hl'). rewrite len_zdrop in Hle by lia.
  split_and!; [lia| | |done].
  - rewrite ztake_split by lia. f_equal. lia.
  - by rewrite <- app_assoc in Hh'.
Qed.

Lemma copy_hashed_range_spec h l off n label f rest w d r f' w' d' :
  reads_at f off rest -> lw_inv w -> len (d_data d) <= u64_max -> hashed h l -> 0 <= n ->
  copy_hashed_range off n h label (f, (w, d)) = (r, (f', (w', d'))) ->
  f_data f' = f_data f /\ calm f' /\ lw_inv w' /\
  exists out, d_data d' = d_data d ++ out /\
  match r with
  | Ok h' => n <= len rest /\ out = ztake n rest /\ hashed h' (l ++ out) /\ len (d_data d') <= u64_max
  | Err _ => True
  | Panic => False
  end.
Proof. intros. eapply copy_hashed_range_loop_spec; eauto. by apply chunk_fuel_enough. Qed.

(** The optional value part, after the key was copied. *)
Lemma copy_value_part (t : bool) vs h l key_offset ks f body w d :
  reads_at f key_offset body -> lw_inv w -> len (d_data d) <= u64_max -> hashed h l ->
  0 <= vs -> 0 <= ks <= len body -> (t = true -> vs = 0) -> 0 < len body \/ key_offset + ks <= u64_max ->
  exists r2 f2 w2 d2, (if t then sret h else
      let! value_offset := slift (ok_or (checked_add64 key_offset ks) "raw copy value offset overflow") in
      copy_hashed_range value_offset vs h "value") (f, (w, d)) = (r2, (f2, (w2, d2))) /\
    lw_inv w2 /\ exists out, d_data d2 = d_data d ++ out /\
    match r2 with
    | Ok h' => ks + vs <= len body /\ out = ztake vs (zdrop ks body) /\ hashed h' (l ++ out)
    | Err _ => True
    | Panic => False
    end.
Proof.
  intros Hr Hi Hl Hh Hvs Hks Ht Hb. destruct t.
  - eexists _, _, _, _. split; [done|]. split; [done|]. exists []. rewrite Ht, !app_nil_r by done.
    split; [done|]. rewrite ztake_0 by lia. split_and!; [lia|done|done].
  - assert (key_offset + ks <= u64_max) as Hb2
      by (destruct Hb as [Hb|]; [eapply reads_at_bound; [exact Hr|lia|lia]|done]).
    unfold checked_add64. destruct (Z.leb_spec (key_offset + ks) u64_max); [|lia].
    cbn [ok_or]. rewrite sbind_slift_Ok.
    destruct (copy_hashed_range _ _ _ _ _) as [r2 [f2 [w2 d2]]] eqn:E2.
    exists r2, f2, w2, d2. split; [done|].
    eapply copy_hashed_range_spec in E2 as (_ & _ & Hi2 & out2 & Hout2 & H2);
      [|eapply reads_at_advance; try done; [apply Hr|lia]|done|done|exact Hh|done].
    split; [done|]. exists out2. split; [done|]. destruct r2; [|done|done].
    rewrite len_zdrop in H2 by lia. destruct H2 as (? & ? & ? & _). split_and!; [lia|done|done].
Qed.

(** The body of a record whose header has been written at [new_offset]. *)
Lemma copy_record_body_spec offset header body vs rsize noff (t : bool) f rest w d r f' w' d' :
  reads_at f offset rest -> rest = header ++ body -> len header = HEADER_SIZE ->
  0 <= vs -> (t = true -> vs = 0) -> lw_inv w -> len (d_data d) <= u64_max ->
  copy_record_body offset header vs rsize noff t (f, (w, d)) = (r, (f', (w', d'))) ->
  lw_inv w' /\ exists out, d_data d' = d_data d ++ out /\
  match r with
  | Ok res =>
      res = Some (mkRawCopyResult noff rsize vs t) /\
      hdr_key_size header + vs <= len body /\ out = ztake (hdr_key_size header + vs) body /\
      crc32 (zdrop 4 header ++ out) = hdr_crc header
  | Err _ => True
  | Panic => False
  end.
Proof.
  intros Hr Hrest Hh Hvs Ht Hi Hl E. unfold copy_record_body in E. cbv zeta in E.
  pose proof (hdr_sizes_nonneg header) as [Hk _]. pose proof HEADER_SIZE_val as HH.
  assert (HEADER_SIZE <= len rest) as Hlr by (rewrite Hrest, len_app; len_facts; lia).
  pose proof (reads_at_bound _ _ _ HEADER_SIZE Hr ltac:(lia) Hlr) as Hb1.
  unfold checked_add64 at 1 in E. destruct (Z.leb_spec (offset + HEADER_SIZE) u64_max); [|lia].
  cbn [ok_or] in E. rewrite sbind_slift_Ok in E.
  assert (zdrop HEADER_SIZE rest = body) as Hbody
    by (rewrite Hrest, zdrop_app_ge, zdrop_0 by lia; done).
  pose proof (reads_at_advance f f offset rest HEADER_SIZE Hr eq_refl ltac:(apply Hr) ltac:(lia) Hb1) as Hr1.
  rewrite Hbody in Hr1. unfold sbind at 1 in E.
  destruct (copy_hashed_range _ _ _ _ _) as [r1 [f1 [w1 d1]]] eqn:E1.
  eapply copy_hashed_range_spec in E1 as (Hd1 & Hc1 & Hi1 & out1 & Hout1 & H1);
    [|done..|rewrite <- (app_nil_l (zdrop 4 header)); apply hashed_update, hashed_new|done].
  destruct r1 as [h1|e1|]; [| |done].
  2: { injection E as <- <- <- <-. split; [done|]. by exists out1. }
  destruct H1 as (Hle1 & -> & Hh1 & Hl1).
  destruct (copy_value_part t vs h1 (zdrop 4 header ++ ztake (hdr_key_size header) body)
    (offset + HEADER_SIZE) (hdr_key_size header) f1 body w1 d1)
    as (r2 & f2 & w2 & d2 & E2 & Hi2 & out2 & Hout2 & H2);
    [by eapply reads_at_data|done|done|exact Hh1|done|lia|done|
     destruct (Z.le_gt_cases (len body) 0); [right|left]; lia|].
  unfold sbind at 1 in E. rewrite E2 in E. rewrite Hout1, <- app_assoc in Hout2.
  destruct r2 as [h2|e2|]; [| |done].
  2: { injection E as <- <- <- <-. split; [done|]. by eexists. }
  destruct H2 as (Hle2 & -> & Hh2). rewrite ztake_split in Hout2 by lia.
  rewrite <- app_assoc, ztake_split in Hh2 by lia. apply hashed_finalize in Hh2. rewrite Hh2 in E.
  unfold crc32. destruct (Z.eqb_spec (crc32_hash (zdrop 4 header ++ ztake (hdr_key_size header + vs) body))
    (hdr_crc header)); injection E as <- <- <- <-; (split; [done|]); eexists; (split; [exact Hout2|]);
    [by split_and!|done].
Qed.

Lemma parse_intro header body vs :
  len header = HEADER_SIZE ->
  decoded_value_size (hdr_value_size_raw header) (hdr_value_size_raw header =? TOMBSTONE) = Ok vs ->
  0 <= vs -> hdr_key_size header + vs <= len body ->
  crc32 (zdrop 4 header ++ ztake (hdr_key_size header + vs) body) = hdr_crc header ->
  exists rec, parse (header ++ body) = Ok (Some (rec, frame_len rec)) /\
    frame_len rec = HEADER_SIZE + (hdr_key_size header + vs) /\ len (default [] (value rec)) = vs /\
    (if value rec is None then true else false) = (hdr_value_size_raw header =? TOMBSTONE) /\
    frame rec = header ++ ztake (hdr_key_size header + vs) body.
Proof.
  intros Hh Hv Hvs Hle Hcrc. pose proof (hdr_sizes_nonneg header) as [Hk _]. pose proof HEADER_SIZE_val as HH.
  set (t := hdr_value_size_raw header =? TOMBSTONE) in *.
  set (v := ztake vs (zdrop (hdr_key_size header) body)).
  set (rec := mkRecord (hdr_timestamp_ms header) (hdr_expire_at_ms header) (ztake (hdr_key_size header) body)
                (if t then None else Some v)).
  assert (parse (header ++ body) = Ok (Some (rec, HEADER_SIZE + hdr_key_size header + vs))) as Hp.
  { unfold parse. rewrite len_app. len_facts. destruct (Z.eqb_spec (len header + len body) 0); [lia|].
    destruct (Z.ltb_spec (len header + len body) HEADER_SIZE); [lia|].
    rewrite ztake_app_le, (ztake_ge HEADER_SIZE header), (zdrop_app_ge HEADER_SIZE header body),
      (zdrop_0 (HEADER_SIZE - _)) by lia. fold t. rewrite Hv. cbn [rbind].
    destruct (Z.ltb_spec (len body) (hdr_key_size header)); [lia|]. rewrite len_zdrop by lia.
    destruct (Z.ltb_spec (Z.max 0 (len body - hdr_key_size header)) vs); [lia|].
    rewrite ztake_split, Hcrc, Z.eqb_refl by lia. done. }
  destruct (parse_inv _ _ _ Hp) as (Hok & Hn & rest' & Hsplit). exists rec.
  split_and!; [by rewrite <- Hn|lia| | |].
  - apply decoded_value_size_inv in Hv. unfold rec. simpl. destruct t; simpl; [by rewrite len_nil|].
    unfold v, id. rewrite len_ztake, len_zdrop by lia. lia.
  - unfold rec. simpl. by destruct t.
  - apply (f_equal (ztake (frame_len rec))) in Hsplit.
    rewrite (ztake_app_le _ (frame rec)), (ztake_ge _ (frame rec)) in Hsplit by (rewrite len_frame; lia).
    rewrite <- Hsplit, <- Hn, ztake_app_ge by lia. do 2 f_equal. lia.
Qed.

Definition is_tombstone_record (r : Record_) : bool := if value r is None then true else false.

(** What a raw copy may do: copy exactly the record found at the offset, skip a
    valid tombstone or the end of the file without touching the destination, or
    fail with the destination restored (or an error naming the failed rollback). *)
Definition raw_copy_outcome (rest : bytes) (copy_tombstone : bool) (d : Disk)
    (r : result (option RawCopyResult)) (d' : Disk) : Prop :=
  match r with
  | Ok (Some res) => exists rec, parse rest = Ok (Some (rec, frame_len rec)) /\
      d_data d' = d_data d ++ frame rec /\
      res = mkRawCopyResult (len (d_data d)) (frame_len rec) (len (default [] (value rec)))
              (is_tombstone_record rec) /\
      (is_tombstone_record rec && negb copy_tombstone) = false
  | Ok None => d_data d' = d_data d /\
      (rest = [] \/ copy_tombstone = false /\
       exists rec, parse rest = Ok (Some (rec, frame_len rec)) /\ is_tombstone_record rec = true)
  | Err e => d_data d' = d_data d \/
      (exists c b, e = raw_copy_rollback_failure c b \/ e = rollback_failure c b) /\
      exists junk, d_data d' = d_data d ++ junk
  | Panic => False
  end.

Lemma rollback_to_spec noff w d r w' d' :
  lw_inv w -> 0 <= noff <= len (d_data d) -> rollback_to noff (w, d) = (r, (w', d')) ->
  lw_inv w' /\ r <> Panic /\
  (d_data d' = ztake noff (d_data d) \/ d_data d' = d_data d /\ exists e, r = Err e).
Proof.
  intros Hi Hn E. unfold rollback_to, sbind in E.
  destruct (on_backend _ _) as [r1 [w1 d1]] eqn:E1. apply on_backend_inv in E1 as (b' & E1 & ->).
  pose proof (io_rollback_no_panic noff (lw_backend w) d Hi) as Hnp. rewrite E1 in Hnp.
  destruct r1 as [[]|e|]; [| |done]; injection E as <- <- <-.
  - apply io_rollback_ok in E1 as (? & ? & ?); [|done..]. split_and!; [done|done|by left].
  - apply io_rollback_err in E1 as ([?|?] & ?); [| |done..]; (split_and!; [done|done|eauto]).
Qed.

(** The checks a decodable record passes. *)
Lemma parse_elim rest rec n :
  parse rest = Ok (Some (rec, n)) ->
  let header := ztake HEADER_SIZE rest in
  let body := zdrop HEADER_SIZE rest in
  len header = HEADER_SIZE /\
  exists vs, decoded_value_size (hdr_value_size_raw header) (hdr_value_size_raw header =? TOMBSTONE) = Ok vs /\
    0 <= vs <= MAX_VALUE_SIZE /\ hdr_key_size header + vs <= len body /\
    crc32 (zdrop 4 header ++ ztake (hdr_key_size header + vs) body) = hdr_crc header /\
    n = HEADER_SIZE + hdr_key_size header + vs.
Proof.
  intros E. unfold parse in E. cbv zeta. destruct (Z.eqb_spec (len rest) 0); [done|].
  destruct (Z.ltb_spec (len rest) HEADER_SIZE) as [|Hl]; [done|]. cbv zeta in E.
  set (header := ztake HEADER_SIZE rest) in *. set (body := zdrop HEADER_SIZE rest) in *.
  pose proof (hdr_sizes_nonneg header) as [Hk Hraw].
  split; [unfold header; rewrite len_ztake by done; lia|].
  destruct (decoded_value_size _ _) as [vs|e|] eqn:Hv; simpl in E; [|done|done]. exists vs.
  pose proof (decoded_value_size_bound _ _ _ Hraw Hv) as Hvs.
  destruct (Z.ltb_spec (len body) (hdr_key_size header)); [done|].
  destruct (Z.ltb_spec (len (zdrop (hdr_key_size header) body)) vs) as [|Hb]; [done|].
  rewrite ztake_split in E by lia. rewrite len_zdrop in Hb by lia.
  destruct (Z.eqb_spec (crc32 (zdrop 4 header ++ ztake (hdr_key_size header + vs) body)) (hdr_crc header));
    [|done]. injection E as <- <-. split_and!; done || lia.
Qed.

(** The skipped tombstone: its checksum is verified, nothing is written. *)
Lemma skipped_tombstone_spec header body offset f rest :
  reads_at f offset rest -> rest = header ++ body -> len header = HEADER_SIZE ->
  (hdr_value_size_raw header =? TOMBSTONE) = true ->
  exists f', forall (w : LogWriter B) d, exists r,
    (let! key_offset := slift (ok_or (checked_add64 offset HEADER_SIZE)
                                "skipped tombstone key offset overflow") in
     let! key := (if 0 <? hdr_key_size header
                  then on_source (read_exact_at_required (hdr_key_size header) key_offset "tombstone key")
                  else sret []) in
     let computed_crc := hasher_finalize (hash_header_key header key) in
     if computed_crc =? hdr_crc header then sret None
     else serr (crc_mismatch (hdr_crc header) computed_crc)) (f, (w, d)) = (r, (f', (w, d))) /\
    raw_copy_outcome rest false d r d /\ (forall rec n, parse rest = Ok (Some (rec, n)) -> r = Ok None).
Proof.
  intros Hr Hrest Hh Ht. pose proof (hdr_sizes_nonneg header) as [Hk _]. pose proof HEADER_SIZE_val as HH.
  assert (HEADER_SIZE <= len rest) as Hlr by (rewrite Hrest, len_app; len_facts; lia).
  pose proof (reads_at_bound _ _ _ HEADER_SIZE Hr ltac:(lia) Hlr) as Hb.
  assert (zdrop HEADER_SIZE rest = body) as Hbody
    by (rewrite Hrest, zdrop_app_ge, zdrop_0 by lia; done).
  destruct (body_read_calm (hdr_key_size header) "tombstone key" "skipped tombstone key offset overflow"
    f offset rest HEADER_SIZE Hr ltac:(lia) Hk Hlr ltac:(lia)) as (f' & Hd & Hc & H).
  cbv zeta in H. rewrite Hbody in H. unfold checked_add64 in *.
  destruct (Z.leb_spec (offset + HEADER_SIZE) u64_max); [|lia]. cbn [ok_or] in *.
  exists f'. intros w d. rewrite sbind_slift_Ok.
  assert (forall r0 : result bytes, (if 0 <? hdr_key_size header then
      let! o := slift (Ok (offset + HEADER_SIZE)) in
      read_exact_at_required (hdr_key_size header) o "tombstone key" else sret []) f = (r0, f') ->
    (if 0 <? hdr_key_size header
     then on_source (read_exact_at_required (hdr_key_size header) (offset + HEADER_SIZE) "tombstone key")
     else sret []) (f, (w, d)) = (r0, (f', (w, d)))) as Hlift.
  { intros r0. destruct (0 <? hdr_key_size header); [rewrite sbind_slift_Ok; unfold on_source; by intros ->|].
    unfold sret. intros E. by injection E as <- <-. }
  assert (forall rec n, parse rest = Ok (Some (rec, n)) -> hdr_key_size header <= len body /\
    crc32 (zdrop 4 header ++ ztake (hdr_key_size header) body) = hdr_crc header) as Hpe.
  { intros rec n Hp. pose proof (parse_elim _ _ _ Hp) as (_ & vs & Hv & _ & Hfit & Hcrc & _).
    rewrite Hbody in *. rewrite Hrest, ztake_app_le, ztake_ge in * by lia. rewrite Ht in Hv.
    injection Hv as <-. by rewrite Z.add_0_r in *. }
  destruct (Z.leb_spec (hdr_key_size header) (len body)) as [Hle|Hgt].
  - apply Hlift in H. erewrite sbind_Ok by exact H. cbv zeta.
    rewrite (hashed_finalize _ _ (hashed_header_key _ _)).
    destruct (Z.eqb_spec (crc32_hash (zdrop 4 header ++ ztake (hdr_key_size header) body)) (hdr_crc header))
      as [Hcrc|Hne]; eexists; (split; [done|]).
    + split; [|done]. split; [done|]. right. split; [done|].
      destruct (parse_intro header body 0) as (rec & Hp & _ & _ & Hrt & _);
        [done|by rewrite Ht|lia|lia|by rewrite Z.add_0_r|]. exists rec.
      rewrite Hrest. split; [done|]. unfold is_tombstone_record. by rewrite Hrt.
    + split; [by left|]. intros rec n Hp. by destruct (Hpe _ _ Hp).
  - destruct H as (e & H). apply Hlift in H. erewrite sbind_Err by exact H.
    exists (Err e). split_and!; [done|by left|]. intros rec n Hp. destruct (Hpe _ _ Hp). lia.
Qed.

Lemma on_source_check (guard : bool) m1 m2 m3 start n f (w : LogWriter B) d :
  (if guard then on_source (check_body_end m1 m2 m3 start n) else sret tt) (f, (w, d)) = (Ok tt, (f, (w, d))) \/
  exists e, (if guard then on_source (check_body_end m1 m2 m3 start n) else sret tt) (f, (w, d)) =
    (Err e, (f, (w, d))).
Proof.
  destruct guard; [|by left]. unfold on_source, check_body_end.
  destruct start as [s|]; [|by eauto]. destruct (checked_add64 s n); [|by eauto].
  destruct (_ <? _); eauto.
Qed.

(** The copy once the header has been read. *)
Lemma copy_after_header_spec offset header body vs f rest w d r s' :
  reads_at f offset rest -> rest = header ++ body -> len header = HEADER_SIZE -> lw_inv w ->
  len (d_data d) <= u64_max ->
  decoded_value_size (hdr_value_size_raw header) (hdr_value_size_raw header =? TOMBSTONE) = Ok vs ->
  0 <= vs ->
  (let! new_offset := on_writer' (write_raw header) in
   fun s =>
   match copy_record_body offset header vs (HEADER_SIZE + (hdr_key_size header + vs)) new_offset
           (hdr_value_size_raw header =? TOMBSTONE) s with
   | (Ok copied, s') => (Ok copied, s')
   | (Err cause, s') =>
       match on_writer' (rollback_to new_offset) s' with
       | (Ok _, s'') => (Err cause, s'')
       | (Err rollback, s'') => (Err (raw_copy_rollback_failure cause rollback), s'')
       | (Panic, s'') => (Panic, s'')
       end
   | (Panic, s') => (Panic, s')
   end) (f, (w, d)) = (r, s') ->
  lw_inv s'.2.1 /\
  forall copy_tombstone, ((hdr_value_size_raw header =? TOMBSTONE) && negb copy_tombstone) = false ->
  raw_copy_outcome rest copy_tombstone d r s'.2.2.
Proof.
  intros Hr Hrest Hh Hi Hl Hv Hvs E. pose proof (hdr_sizes_nonneg header) as [Hk _].
  unfold sbind, on_writer' at 1 in E. destruct (write_raw header (w, d)) as [r1 [w1 d1]] eqn:E1.
  apply append_appends in E1 as (Hi1 & H1); [|done..].
  destruct r1 as [noff|e1|]; [| |done].
  2: { injection E as <- <-. simpl. split; [done|]. intros ct _.
       destruct H1 as [H1|((c & b & ->) & _ & junk & _ & Hj)]; [by left|]. right. split; [by exists c, b; right|by exists junk]. }
  destruct H1 as (-> & Hd1 & _ & Hl1).
  destruct (copy_record_body _ _ _ _ _ _ _) as [r2 [f2 [w2 d2]]] eqn:E2.
  eapply copy_record_body_spec in E2 as (Hi2 & out & Hd2 & H2);
    [|done..| |done|done]; [|intros Ht; rewrite Ht in Hv; by injection Hv as <-].
  rewrite Hd1, <- app_assoc in Hd2. destruct r2 as [res|cause|]; [| |done].
  - injection E as <- <-. simpl. split; [done|]. intros ct Hct.
    destruct H2 as (-> & Hle & -> & Hcrc).
    destruct (parse_intro header body vs Hh Hv Hvs Hle Hcrc) as (rec & Hp & Hfl & Hlv & Hrt & Hfr).
    exists rec. unfold is_tombstone_record. rewrite Hrest, Hfl, Hlv, Hrt, Hfr. by rewrite <- Hfl.
  - unfold on_writer' in E. destruct (rollback_to _ _) as [r3 [w3 d3]] eqn:E3.
    apply rollback_to_spec in E3 as (Hi3 & Hnp & H3); [|done|rewrite Hd2, !len_app; zlia].
    destruct H3 as [H3|[H3 (e3 & ->)]].
    + rewrite Hd2, ztake_app_le, ztake_ge in H3 by lia.
      destruct r3 as [u|e3|]; [..|done]; injection E as <- <-; simpl; (split; [done|]); intros ct _; by left.
    + injection E as <- <-. simpl. split; [done|]. intros ct _. right.
      split; [by exists cause, e3; left|]. exists (header ++ out). by rewrite H3.
Qed.

(** The raw copy used by compaction copies byte for byte the record a reader
    finds at the offset, and reports its place, length and kind; tombstones are
    skipped only after their checksum was verified and only when asked; on any
    failure (a damaged record included) the destination is restored, or the error says
    it could not be. *)
Theorem raw_copy_exact offset copy_tombstone f rest w d r f' w' d' :
  reads_at f offset rest -> lw_inv w -> len (d_data d) <= u64_max ->
  copy_record_raw offset copy_tombstone (f, (w, d)) = (r, (f', (w', d'))) ->
  lw_inv w' /\ raw_copy_outcome rest copy_tombstone d r d'.
Proof.
  intros Hr Hi Hl E. unfold copy_record_raw in E.
  destruct (read_exact_at_or_eof_calm HEADER_SIZE "header" f offset rest ltac:(done) Hr)
    as (f1 & Hd1 & Hc1 & H1).
  unfold sbind at 1 in E. unfold on_source at 1 in E. rewrite H1 in E.
  destruct (Z.eqb_spec (len rest) 0) as [H0|_].
  { injection E as <- <- <- <-. split; [done|]. split; [done|]. left. by apply len_zero. }
  destruct (Z.ltb_spec (len rest) HEADER_SIZE) as [|Hlr].
  { injection E as <- <- <- <-. split; [done|]. by left. }
  cbv zeta iota in E. set (header := ztake HEADER_SIZE rest) in *.
  assert (rest = header ++ zdrop HEADER_SIZE rest) as Hrest by (unfold header; by rewrite ztake_zdrop).
  assert (len header = HEADER_SIZE) as Hh by (unfold header; rewrite len_ztake by done; lia).
  pose proof (hdr_sizes_nonneg header) as [Hk Hraw].
  destruct (decoded_value_size _ _) as [vs|e|] eqn:Hv;
    [|by injection E as <- <- <- <-; split; [|left]|by apply decoded_value_size_not_panic in Hv].
  rewrite sbind_slift_Ok in E. pose proof (decoded_value_size_bound _ _ _ Hraw Hv) as Hvs.
  pose proof (reads_at_data _ _ _ _ Hr Hd1 Hc1) as Hr1.
  destruct (_ && negb copy_tombstone) eqn:Hskip.
  { apply andb_prop in Hskip as [Ht Hct]. apply negb_true_iff in Hct. subst copy_tombstone.
    destruct (skipped_tombstone_spec header _ offset f1 rest Hr1 Hrest Hh Ht) as (f2 & H2).
    destruct (H2 w d) as (r2 & E2 & Ho & _).
    pose proof (eq_trans (eq_sym E2) E) as X. by injection X as <- <- <- <-. }
  rewrite checked_record_body_len_ok, sbind_slift_Ok in E by done. unfold sbind at 1 in E.
  destruct (on_source_check (BODY_LEN_FILE_SIZE_CHECK_THRESHOLD <? hdr_key_size header + vs)
    "raw copy body offset overflow" "raw copy body end overflow"
    "record body extends past end of file: end=" (checked_add64 offset HEADER_SIZE)
    (hdr_key_size header + vs) f1 w d) as [Hck|(e & Hck)]; rewrite Hck in E.
  2: { injection E as <- <- <- <-. split; [done|]. by left. }
  eapply copy_after_header_spec in E as (Hi' & Ho); [|done..|lia]. simpl in *. split; [done|]. by apply Ho.
Qed.

(** *** Copies succeed on a disk without faults *)

Lemma write_raw_live' data w d :
  lw_inv w -> disk_ready d -> len (d_data d) + len data <= u64_max ->
  exists off w' d', write_raw data (w, d) = (Ok off, (w', d')) /\ lw_inv w' /\ disk_ready d' /\
    len (d_data d') = len (d_data d) + len data.
Proof.
  intros Hi [Hf Hp] Hle. destruct (io_append_live data _ d Hi Hf Hp Hle) as (off & b' & d' & E & Hf' & Hp').
  pose proof (io_append_ok _ _ _ _ _ _ Hi E) as (_ & Hd & _ & _ & Hi').
  eexists _, _, d'. unfold write_raw. erewrite sbind_Ok by (by apply on_backend_Ok).
  split; [done|]. split_and!; try done. by rewrite Hd, len_app.
Qed.

Lemma copy_hashed_range_loop_live fuel h off n label f rest w d :
  reads_at f off rest -> lw_inv w -> disk_ready d -> 0 <= n <= len rest ->
  n <= Z.of_nat fuel * STREAM_READ_CHUNK_SIZE -> len (d_data d) + n <= u64_max ->
  exists h' f' w' d', copy_hashed_range_loop fuel off n h label (f, (w, d)) = (Ok h', (f', (w', d'))) /\
    disk_ready d' /\ len (d_data d') = len (d_data d) + n /\
    f_data f' = f_data f /\ calm f' /\ lw_inv w'.
Proof.
  revert h off n f rest w d. induction fuel as [|fuel IH];
    intros h off n f rest w d Hr Hi Hd Hn Hfuel Hle; cbn [copy_hashed_range_loop].
  all: destruct (Z.leb_spec n 0);
    [eexists _, _, _, _; split; [done|]; split_and!; try done; [lia|apply Hr]|].
  { lia. }
  assert (STREAM_READ_CHUNK_SIZE = 65536) as HC by done.
  set (c := Z.min n STREAM_READ_CHUNK_SIZE) in *.
  destruct (read_exact_at_or_eof_calm c label f off rest ltac:(lia) Hr) as (f1 & Hd1 & Hc1 & H1).
  destruct (Z.eqb_spec (len rest) 0); [lia|]. destruct (Z.ltb_spec (len rest) c); [lia|].
  erewrite sbind_Ok by (unfold on_source; by rewrite H1).
  assert (len (ztake c rest) = c) as Hlc by (rewrite len_ztake by lia; lia).
  destruct (write_raw_live' (ztake c rest) w d) as (o2 & w2 & d2 & E2 & Hi2 & Hd2 & Hl2); [done|done|lia|].
  cbv zeta. erewrite sbind_Ok by (unfold on_writer'; by rewrite E2).
  pose proof (reads_at_bound _ _ _ c Hr ltac:(lia) ltac:(lia)) as Hoff.
  unfold checked_add64. destruct (Z.leb_spec (off + c) u64_max); [|lia].
  cbn [ok_or]. rewrite sbind_slift_Ok.
  destruct (IH (hasher_update h (ztake c rest)) (off + c) (n - c) f1 (zdrop c rest) w2 d2)
    as (h' & f' & w' & d' & E' & Hrd & Hl' & Hdf & ?);
    [eapply (reads_at_advance f); done || lia|done|done|rewrite len_zdrop by lia; lia|lia|lia|].
  exists h', f', w', d'. split_and!; try done; [lia|congruence|by destruct_and?..].
Qed.

Lemma copy_hashed_range_live h off n label f rest w d :
  reads_at f off rest -> lw_inv w -> disk_ready d -> 0 <= n <= len rest ->
  len (d_data d) + n <= u64_max ->
  exists h' f' w' d', copy_hashed_range off n h label (f, (w, d)) = (Ok h', (f', (w', d'))) /\
    disk_ready d' /\ len (d_data d') = len (d_data d) + n /\
    f_data f' = f_data f /\ calm f' /\ lw_inv w'.
Proof.
  intros. eapply copy_hashed_range_loop_live; eauto. apply chunk_fuel_enough. lia.
Qed.

Lemma copy_record_body_live offset header body vs rsize noff f rest w d :
  reads_at f offset rest -> rest = header ++ body -> len header = HEADER_SIZE -> lw_inv w -> disk_ready d ->
  0 <= vs -> ((hdr_value_size_raw header =? TOMBSTONE) = true -> vs = 0) ->
  hdr_key_size header + vs <= len body -> len (d_data d) + (hdr_key_size header + vs) <= u64_max ->
  crc32 (zdrop 4 header ++ ztake (hdr_key_size header + vs) body) = hdr_crc header ->
  exists res s', copy_record_body offset header vs rsize noff (hdr_value_size_raw header =? TOMBSTONE)
    (f, (w, d)) = (Ok res, s').
Proof.
  intros Hr Hrest Hh Hi Hd Hvs Ht Hle Hroom Hcrc.
  pose proof (hdr_sizes_nonneg header) as [Hk _]. pose proof HEADER_SIZE_val as HH.
  destruct (copy_record_body _ _ _ _ _ _ _) as [[res|e|] [f9 [w9 d9]]] eqn:E9; [by eexists _, _| |];
    [|eapply copy_record_body_spec in E9 as (_ & out & _ & []); done || (len_facts; lia)].
  exfalso. revert E9. unfold copy_record_body. cbv zeta.
  assert (HEADER_SIZE <= len rest) as Hlr by (rewrite Hrest, len_app; len_facts; lia).
  pose proof (reads_at_bound _ _ _ HEADER_SIZE Hr ltac:(lia) Hlr) as Hb1.
  unfold checked_add64 at 1. destruct (Z.leb_spec (offset + HEADER_SIZE) u64_max); [|lia].
  cbn [ok_or]. rewrite sbind_slift_Ok.
  assert (zdrop HEADER_SIZE rest = body) as Hbody by (rewrite Hrest, zdrop_app_ge, zdrop_0 by lia; done).
  pose proof (reads_at_advance f f offset rest HEADER_SIZE Hr eq_refl ltac:(apply Hr) ltac:(lia) Hb1) as Hr1.
  rewrite Hbody in Hr1. set (h0 := hasher_update hasher_new (zdrop 4 header)).
  assert (hashed h0 (zdrop 4 header)) as Hh0 by (apply (hashed_update hasher_new []), hashed_new).
  destruct (copy_hashed_range_live h0 _ (hdr_key_size header) "key" f body w d Hr1 Hi Hd)
    as (h1 & f1 & w1 & d1 & E1 & Hd1 & Hl1 & Hf1 & Hc1 & Hi1); [lia|lia|].
  erewrite sbind_Ok by exact E1.
  eapply copy_hashed_range_spec in E1 as (_ & _ & _ & out1 & _ & _ & -> & Hh1 & Hl1'); try done; [|len_facts; lia].
  pose proof (reads_at_data _ _ _ _ Hr1 Hf1 Hc1) as Hr2.
  destruct (copy_value_part (hdr_value_size_raw header =? TOMBSTONE) vs h1 _ _ (hdr_key_size header) f1 body
    w1 d1 Hr2 Hi1 Hl1' Hh1) as (r2 & f2 & w2 & d2 & E2 & _ & out2 & _ & H2); [lia|lia|done| |].
  { destruct (Z.le_gt_cases (len body) 0); [right; lia|by left]. }
  unfold sbind at 1. rewrite E2. destruct r2 as [h2|e2|]; [| |done].
  - destruct H2 as (_ & -> & Hh2). rewrite <- app_assoc, ztake_split in Hh2 by lia.
    apply hashed_finalize in Hh2. unfold crc32 in Hcrc. by rewrite Hh2, Hcrc, Z.eqb_refl.
  - exfalso. revert E2. destruct (_ =? TOMBSTONE); [done|].
    assert (offset + HEADER_SIZE + hdr_key_size header <= u64_max) as Hb2.
    { rewrite <- Z.add_assoc. eapply reads_at_bound; [exact Hr|lia|]. rewrite Hrest, len_app. lia. }
    unfold checked_add64. destruct (Z.leb_spec (offset + HEADER_SIZE + hdr_key_size header) u64_max); [|lia].
    cbn [ok_or]. rewrite sbind_slift_Ok.
    destruct (copy_hashed_range_live h1 (offset + HEADER_SIZE + hdr_key_size header) vs "value" f1
      (zdrop (hdr_key_size header) body) w1 d1) as (h2 & f3 & w3 & d3 & E3 & _);
      [eapply reads_at_advance; done || lia|done|done|rewrite len_zdrop by lia; lia|lia|].
    by rewrite E3.
Qed.

(** On a disk without faults the raw copy of a record that decodes succeeds. *)
Theorem raw_copy_succeeds offset copy_tombstone f rest w d rec n :
  reads_at f offset rest -> lw_inv w -> disk_ready d -> parse rest = Ok (Some (rec, n)) ->
  len (d_data d) + n <= u64_max ->
  exists res s', copy_record_raw offset copy_tombstone (f, (w, d)) = (Ok res, s').
Proof.
  intros Hr Hi Hd Hp Hroom. pose proof (parse_elim _ _ _ Hp) as (Hh & vs & Hv & Hvs & Hle & Hcrc & Hn).
  set (header := ztake HEADER_SIZE rest) in *. set (body := zdrop HEADER_SIZE rest) in *.
  pose proof (hdr_sizes_nonneg header) as [Hk _]. pose proof HEADER_SIZE_val as HH.
  assert (rest = header ++ body) as Hrest by (unfold header, body; by rewrite ztake_zdrop).
  assert (HEADER_SIZE <= len rest) as Hlr by (rewrite Hrest, len_app; len_facts; lia).
  destruct (read_exact_at_or_eof_calm HEADER_SIZE "header" f offset rest ltac:(done) Hr)
    as (f1 & Hd1 & Hc1 & H1).
  unfold copy_record_raw. unfold sbind at 1. unfold on_source at 1. rewrite H1.
  destruct (Z.eqb_spec (len rest) 0); [lia|]. destruct (Z.ltb_spec (len rest) HEADER_SIZE); [lia|].
  cbv zeta iota. fold header. rewrite Hv, sbind_slift_Ok.
  pose proof (reads_at_data _ _ _ _ Hr Hd1 Hc1) as Hr1.
  destruct (_ && negb copy_tombstone) eqn:Hskip.
  { apply andb_prop in Hskip as [Ht _].
    destruct (skipped_tombstone_spec header body offset f1 rest Hr1 Hrest Hh Ht) as (f2 & H2).
    destruct (H2 w d) as (r & E2 & _ & Hok). rewrite (Hok _ _ Hp) in E2. by eexists _, _. }
  rewrite checked_record_body_len_ok, sbind_slift_Ok by done.
  destruct (check_body_end_spec "raw copy body offset overflow" "raw copy body end overflow"
    "record body extends past end of file: end=" f1 offset rest HEADER_SIZE (hdr_key_size header + vs) Hr1
    ltac:(lia) ltac:(lia)) as [Hin _].
  assert (len rest = HEADER_SIZE + len body) as Hlb by (rewrite Hrest, len_app; lia).
  erewrite sbind_Ok; [|destruct (_ <? _); [unfold on_source; by rewrite Hin by lia|done]].
  destruct (write_raw_live' header w d) as (o2 & w2 & d2 & E2 & Hi2 & Hd2 & Hl2); [done|done|lia|].
  erewrite sbind_Ok by (unfold on_writer'; by rewrite E2).
  destruct (copy_record_body_live offset header body vs (HEADER_SIZE + (hdr_key_size header + vs)) o2 f1 rest
    w2 d2) as (res & s' & E3); try done; [lia|by intros Ht; rewrite Ht in Hv; injection Hv|lia|].
  rewrite E3. by eexists _, _.
Qed.

(** ** Properties *)

(** C2: any session of writer calls, single and batched, with and without fsync, keeps what
    it acknowledged, whatever write, sync, truncate or rollback failures the disk injects.
    No call panics; the file is its old contents followed by what each call leaves: all of
    its records after [Ok], nothing after an error, and after an error that reports a failed
    rollback at most a first part of them.  Both positional readers return every record of a
    successful call at the offset the call returned, also behind such a partial append, and
    the records that were in the file stay readable.  When no rollback failed the file holds
    exactly the acknowledged records. *)
Theorem writer_session_durable calls w d rs w' d' :
  lw_inv w -> len (d_data d) <= u64_max -> Forall call_typed calls ->
  run_calls calls (w, d) = (rs, (w', d')) ->
  lw_inv w' /\
  (exists outs, session calls rs outs /\ d_data d' = d_data d ++ outs) /\
  Forall (fun '(off, r) => readable_at (d_data d') off r) (acknowledged calls rs) /\
  (forall off r, stored_at (d_data d) off r -> readable_at (d_data d') off r) /\
  (no_rollback_failure rs -> d_data d' = d_data d ++ frames (acknowledged calls rs).*2).
Proof.
  intros Hi Hl Ht E.
  destruct (run_calls_log _ _ _ _ _ _ Hi Hl Ht E) as (Hi' & Hl' & (outs & Hs & Hd) & Hst).
  split_and!; [done|by exists outs| | |].
  - eapply Forall_impl; [exact Hst|]. intros [off r]. by apply stored_readable.
  - intros off r Hr. apply stored_readable; [done|]. rewrite Hd. by apply stored_at_app.
  - intros Hnr. by rewrite Hd, (session_clean _ _ _ Hs Hnr).
Qed.

(** C8: one call either appends all of its records or none: on an error the file is
    unchanged, unless the error itself says that the rollback failed, and then the
    old contents are still a prefix. *)
Theorem writer_call_atomic clock c w d r w' d' :
  lw_inv w -> len (d_data d) <= u64_max -> clock_typed clock -> Forall op_typed (call_ops c) ->
  run_call clock c (w, d) = (r, (w', d')) ->
  lw_inv w' /\
  match r with
  | Ok offs =>
      d_data d' = d_data d ++ frames (op_records clock (call_ops c)) /\
      length offs = length (call_ops c)
  | Err e =>
      d_data d' = d_data d \/
      (exists c b, e = rollback_failure c b) /\ exists junk, d_data d' = d_data d ++ junk
  | Panic => False
  end.
Proof.
  intros Hi Hl Hc Ht E. destruct (run_call_outcome _ _ _ _ _ _ _ Hi Hl Hc Ht E) as (Hi' & Ho).
  split; [done|]. destruct r as [offs|e|]; [| |done].
  2: { destruct Ho as [?|(? & _ & junk & ? & ?)]; [by left|]. right. split; [done|]. by exists junk. }
  destruct Ho as (Hd & _ & _ & Hf).
  split; [done|]. rewrite (Forall2_length _ _ _ Hf). unfold op_records. apply length_imap.
Qed.

(** On a disk without faults a call whose keys and values are within the limits
    succeeds, and a call with an oversized key or value fails before touching
    the disk. *)
Theorem writer_call_succeeds clock c w d :
  lw_inv w -> disk_ready d ->
  len (d_data d) + len (frames (op_records clock (call_ops c))) <= u64_max ->
  (Forall (fun op => validate_batch_write op = Ok tt) (call_ops c) ->
   exists offs s, run_call clock c (w, d) = (Ok offs, s)) /\
  (~ Forall (fun op => validate_batch_write op = Ok tt) (call_ops c) ->
   exists e, run_call clock c (w, d) = (Err e, (w, d))).
Proof.
  intros Hi Hd Hle. split; [intros Hv; by apply run_call_live|]. intros Hv.
  assert (exists e, validate_all validate_batch_write (call_ops c) = Err e) as (e & He).
  { pose proof (validate_all_no_panic _ (call_ops c) validate_batch_no_panic) as Hnp.
    destruct (validate_all _ _) as [[]|e|] eqn:E; [|by eexists|done].
    destruct Hv. by apply validate_all_inv. }
  exists e. destruct c as [k v x|k v x|k|k|es|es|ops|ops]; simpl in *;
    unfold write, write_sync, write_tombstone, write_tombstone_sync, write_batch, write_batch_nosync,
      write_ops_batch, write_ops_batch_nosync.
  1-4: destruct (validate_kv_sizes _ _) as [[]|e'|]; simpl in He; try done; by injection He as ->.
  - rewrite entries_validate. unfold validate_batch_writes. by rewrite He.
  - destruct es as [|e0 es]; [done|]. rewrite entries_validate. unfold validate_batch_writes. by rewrite He.
  - destruct ops as [|op ops]; [done|]. unfold validate_batch_writes. by rewrite He.
  - destruct ops as [|op ops]; [done|]. by rewrite He.
Qed.

End WriterSpec.

(** ** Concrete runs *)

Definition sample_disk : Disk := mkDisk [] [] false.
Definition sample_backend : SyncBackend := mkSyncBackend (Some (mkBufWriter [] 8192)) 0.
Definition sample_writer : LogWriter SyncBackend := open_writer sample_backend 1.
Definition sample_clock : nat -> Z := fun _ => 1700000000000.
Definition sample_call : writer_call :=
  COps [Put (lit "a") (lit "1") 0; Delete (lit "b"); Put (lit "c") [] 1800000000000].

Lemma sample_writer_inv : @lw_inv SyncBackend sync_backend sync_backend_laws sample_writer.
Proof. eexists. split; reflexivity. Qed.

Lemma sample_clock_typed : clock_typed sample_clock.
Proof. by intros i. Qed.

Abbreviation run_sample := (@run_call crc32_iso_hdlc SyncBackend sync_backend sample_clock sample_call
  (sample_writer, sample_disk)).

Lemma sample_call_typed : call_typed (sample_clock, sample_call).
Proof. split; [apply sample_clock_typed|]. repeat constructor; done. Qed.

(** On a disk whose first write stops after three bytes and whose truncation then fails too,
    the first call leaves three bytes; the second one succeeds behind them. *)
Definition faulty_disk : Disk := mkDisk [] [None; Some (3, "disk full"); Some (0, "read-only")] false.
Definition sample_session : list ((nat -> Z) * writer_call) :=
  [(sample_clock, sample_call); (sample_clock, sample_call)].

Lemma writer_session_durable_witness :
  exists rs w' d', @run_calls crc32_iso_hdlc SyncBackend sync_backend sample_session
    (sample_writer, faulty_disk) = (rs, (w', d')) /\
  rs !! 0%nat = Some (Err (rollback_failure "disk full" "read-only")) /\
  (acknowledged sample_session rs).*1 !! 0%nat = Some 3 /\
  length (acknowledged sample_session rs) = 3%nat /\
  Forall (fun '(off, r) => @readable_at crc32_iso_hdlc (d_data d') off r) (acknowledged sample_session rs).
Proof.
  destruct (@run_calls crc32_iso_hdlc SyncBackend sync_backend sample_session (sample_writer, faulty_disk))
    as [rs [w' d']] eqn:E.
  exists rs, w', d'. split; [done|].
  pose proof E as E'. vm_compute in E'.
  destruct (@writer_session_durable crc32_iso_hdlc crc32_iso_hdlc_laws SyncBackend sync_backend
    sync_backend_laws sample_session sample_writer faulty_disk rs w' d' sample_writer_inv)
    as (_ & _ & Hf & _ & _); [done| |done|].
  { do 2 (constructor; [apply sample_call_typed|]). constructor. }
  split_and!; [injection E' as <- _ _; reflexivity..|done].
Defined.

Lemma writer_call_atomic_witness :
  let '(r, (w', d')) := run_sample in
  exists offs, r = Ok offs /\ d_data d' = @frames crc32_iso_hdlc (op_records sample_clock (call_ops sample_call)) /\
  length offs = 3%nat.
Proof.
  destruct run_sample as [r [w' d']] eqn:E.
  pose proof (@writer_call_atomic crc32_iso_hdlc crc32_iso_hdlc_laws SyncBackend sync_backend
    sync_backend_laws sample_clock sample_call sample_writer sample_disk r w' d' sample_writer_inv
    ltac:(done) sample_clock_typed ltac:(apply sample_call_typed) E) as (_ & H).
  assert (exists offs, r = Ok offs) as (offs & ->) by (vm_compute in E; injection E as <- _ _; by eexists).
  exists offs. by split.
Defined.

Lemma writer_call_succeeds_witness : exists offs s, run_sample = (Ok offs, s).
Proof.
  apply (@writer_call_succeeds crc32_iso_hdlc SyncBackend sync_backend sync_backend_laws
    sample_clock sample_call sample_writer sample_disk sample_writer_inv).
  - by split.
  - vm_compute. congruence.
  - repeat constructor.
Defined.

(** Copying the sample record out of a file with junk before it. *)
Definition source_file : File := mkFile (lit "junk" ++ sample_bytes) 0 [EvShort 5].
Lemma source_reads_at : reads_at source_file 4 sample_bytes.
Proof. split_and!; [repeat constructor|by vm_compute|done|done|by vm_compute]. Qed.

Lemma raw_copy_exact_witness :
  let '(r, (f', (w', d'))) := @copy_record_raw crc32_iso_hdlc SyncBackend sync_backend 4 false
    (source_file, (sample_writer, sample_disk)) in
  raw_copy_outcome (C := crc32_iso_hdlc) sample_bytes false sample_disk r d' /\ d_data d' = sample_bytes.
Proof.
  destruct (@copy_record_raw _ _ _ _ _ _) as [r [f' [w' d']]] eqn:E.
  split.
  - by apply (@raw_copy_exact crc32_iso_hdlc crc32_iso_hdlc_laws SyncBackend sync_backend sync_backend_laws
      4 false source_file sample_bytes sample_writer sample_disk r f' w' d' source_reads_at sample_writer_inv).
  - vm_compute in E. injection E as _ _ _ <-. by vm_compute.
Defined.

Lemma raw_copy_succeeds_witness :
  exists res s', @copy_record_raw crc32_iso_hdlc SyncBackend sync_backend 4 false
    (source_file, (sample_writer, sample_disk)) = (Ok res, s').
Proof.
  apply (@raw_copy_succeeds crc32_iso_hdlc crc32_iso_hdlc_laws SyncBackend sync_backend sync_backend_laws
    4 false source_file sample_bytes sample_writer sample_disk sample_record 37 source_reads_at
    sample_writer_inv); [by split|by vm_compute|by vm_compute].
Defined.
