(* ===== verification/LogRecover.v ===== *)
(** * Scanning and recovering logs ([log_part_02.rs], [log_part_03.rs])

    The scans of [LogReader] (strict, tolerant of a torn tail, metadata pages), the
    prefix digest of recovery checkpoints, and [recover_torn_tail], which repairs
    the tail a crash left behind, with its candidate search [probe_torn_tail].

    [scans data rs tail] is the reference: [data] is the encodings of [rs] followed by
    a [tail] that does not start with a complete record.  Every scan is shown to
    return this decomposition; recovery is shown to cut the file exactly at
    [tail], only when no complete record occurs anywhere inside it, and to leave the
    file alone otherwise.

    A [BufReader] over a file returns the file's bytes with other short counts, so the
    buffered scans are the same operations on a [File]. *)

From Stdlib Require Import ZArith Lia.
From S2P Require Import Prelude Bytes Crc Files IoBackend LogFormat LogWriter.

Definition TORN_TAIL_PROBE_WINDOW_BYTES : Z := 1048576.
Definition MAX_TORN_TAIL_CRC_BYTES_PER_WINDOW : Z := 33554432.

Inductive TornTailProbe : Type := NoLaterRecord | LaterRecord | BudgetExceeded.

(** [sha2::Sha256], a dependency: a streaming digest. *)
Class Sha256 : Type := {
  Digest : Type;
  digest_new : Digest;
  digest_update : Digest -> bytes -> Digest;
  digest_finalize : Digest -> bytes;
  sha256 : bytes -> bytes;
}.

(** Its contract: the digest of the pieces is the digest of their concatenation. *)
Class Sha256Laws (S : Sha256) : Type := {
  digested : Digest -> bytes -> Prop;
  digested_new : digested digest_new [];
  digested_update : forall g l d, digested g l -> digested (digest_update g d) (l ++ d);
  digested_finalize : forall g l, digested g l -> digest_finalize g = sha256 l;
}.

(** Every record takes at least a header, so a file of [n] bytes has at most
    [n / HEADER_SIZE] records. *)
Definition scan_fuel (f : File) : nat := Z.to_nat (file_len f / HEADER_SIZE) + 2.

Section Scans.
Context {C : Crc32fast}.

Fixpoint iter_strict_loop (fuel : nat) (records : list Record_) : SR File (list Record_) := fun f =>
  match fuel with
  | O => (Panic, f)
  | S fuel =>
      match read_next_record f with
      | (Ok (Some record), f') => iter_strict_loop fuel (records ++ [record]) f'
      | (Ok None, f') => (Ok records, f')
      | (Err e, f') => (Err e, f')
      | (Panic, f') => (Panic, f')
      end
  end.

Definition iter_from_start : SR File (list Record_) := fun f =>
  (let! _ := seek 0 in iter_strict_loop (scan_fuel f) []) f.

Fixpoint iter_tolerant_loop (fuel : nat) (records : list Record_) : SR File (list Record_) := fun f =>
  match fuel with
  | O => (Panic, f)
  | S fuel =>
      match read_next_record f with
      | (Ok (Some record), f') => iter_tolerant_loop fuel (records ++ [record]) f'
      | (Ok None, f') => (Ok records, f')
      | (Err e, f') => if is_truncated_record e then (Ok records, f') else (Err e, f')
      | (Panic, f') => (Panic, f')
      end
  end.

Definition iter_from_start_tolerant : SR File (list Record_) := fun f =>
  (let! _ := seek 0 in iter_tolerant_loop (scan_fuel f) []) f.

Definition iter_from_offset_tolerant (offset : Z) : SR File (list Record_) := fun f =>
  (let! _ := seek offset in iter_tolerant_loop (scan_fuel f) []) f.

Fixpoint iter_metadata_page_loop (fuel : nat) (records : list RecordMetadata) (offset limit : Z)
    : SR File (list RecordMetadata * Z * bool) := fun f =>
  if limit <=? len records then (Ok (records, offset, false), f) else
  match fuel with
  | O => (Panic, f)
  | S fuel =>
      match read_next_record_metadata offset f with
      | (Ok (Some record), f') =>
          match checked_add64 offset (md_record_size record) with
          | Some offset => iter_metadata_page_loop fuel (records ++ [record]) offset limit f'
          | None => (Err "record offset overflow", f')
          end
      | (Ok None, f') => (Ok (records, offset, true), f')
      | (Err e, f') => if is_truncated_record e then (Ok (records, offset, true), f') else (Err e, f')
      | (Panic, f') => (Panic, f')
      end
  end.

Definition iter_metadata_page_tolerant (start_offset limit : Z)
    : SR File (list RecordMetadata * Z * bool) := fun f =>
  if limit =? 0 then (Ok ([], start_offset, false), f)
  else iter_metadata_page_loop (scan_fuel f) [] start_offset limit f.

Definition iter_metadata_page_from_offset_tolerant (offset limit : Z)
    : SR File (list RecordMetadata * Z * bool) :=
  let! _ := seek offset in iter_metadata_page_tolerant offset limit.

Definition iter_metadata_page_from_offset_buffered_tolerant (offset limit : Z)
    : SR File (list RecordMetadata * Z * bool) :=
  let! _ := seek offset in
  let! page := iter_metadata_page_tolerant offset limit in
  let! _ := seek page.1.2 in
  sret page.

(** ** Prefix digest *)

Section Digest.
Context {H : Sha256}.

Fixpoint validate_prefix_loop (fuel : nat) (offset prefix_bytes : Z) : SR File unit := fun f =>
  if prefix_bytes <=? offset then (Ok tt, f) else
  match fuel with
  | O => (Panic, f)
  | S fuel =>
      match read_next_record_metadata offset f with
      | (Ok (Some record), f') =>
          match checked_add64 offset (md_record_size record) with
          | Some offset =>
              if prefix_bytes <? offset then (Err "history checkpoint cuts through a record", f')
              else validate_prefix_loop fuel offset prefix_bytes f'
          | None => (Err "history checkpoint offset overflow", f')
          end
      | (Ok None, f') => (Err "history checkpoint prefix ends before EOF", f')
      | (Err e, f') => (Err e, f')
      | (Panic, f') => (Panic, f')
      end
  end.

Fixpoint digest_loop (fuel : nat) (remaining : Z) (digest : Digest) : SR File Digest := fun f =>
  if remaining <=? 0 then (Ok digest, f) else
  match fuel with
  | O => (Panic, f)
  | S fuel =>
      let length := Z.min remaining 65536 in
      match read_exact length f with
      | (ExactOk buffer, f') => digest_loop fuel (remaining - length) (digest_update digest buffer) f'
      | (ExactEof, f') => (Err eof_message, f')
      | (ExactErr m, f') => (Err m, f')
      end
  end.

Definition validated_prefix_digest (prefix_bytes : Z) : SR File bytes := fun f =>
  if file_len f <? prefix_bytes then (Err "history checkpoint prefix exceeds log length", f) else
  (let! _ := validate_prefix_loop (scan_fuel f) 0 prefix_bytes in
   let! _ := seek 0 in
   let! digest := digest_loop (chunk_fuel prefix_bytes) prefix_bytes digest_new in
   sret (digest_finalize digest)) f.

End Digest.

(** ** The torn-tail probe *)

(** The body of the candidate loop at [candidate_start]: [None] goes on to the next
    candidate (the [continue] and the fall-through), [Some p] returns [p];
    [crc_work] is the updated budget. *)
Definition probe_candidate (window : bytes) (window_len read_start file_len : Z) (candidate_start crc_work : Z)
    : SR File (option TornTailProbe * Z) :=
  let header_offset := candidate_start - read_start in
  let header_end := header_offset + HEADER_SIZE in
  let! header := slift (unwrap (get_range window header_offset header_end)) in
  let key_size := hdr_key_size header in
  let value_size_raw := hdr_value_size_raw header in
  let value_size := if value_size_raw =? TOMBSTONE then 0 else value_size_raw in
  if MAX_VALUE_SIZE <? value_size then sret (None, crc_work) else
  match checked_add64 key_size value_size with
  | None => sret (None, crc_work)
  | Some body_len =>
  match checked_add64 HEADER_SIZE body_len with
  | None => sret (None, crc_work)
  | Some record_len =>
  match checked_add64 candidate_start record_len with
  | None => sret (None, crc_work)
  | Some record_end =>
  if file_len <? record_end then sret (None, crc_work) else
  let crc_len := record_len - 4 in
  if (MAX_TORN_TAIL_CRC_BYTES_PER_WINDOW <? crc_len)
     || (MAX_TORN_TAIL_CRC_BYTES_PER_WINDOW - crc_len <? crc_work)
  then sret (Some BudgetExceeded, crc_work) else
  let crc_work := crc_work + crc_len in
  let stored_crc := hdr_crc header in
  let hasher := hasher_update hasher_new (zdrop 4 header) in
  let body_offset := header_end in
  let body_end := body_offset + body_len in
  let! hasher := (if body_end <=? window_len then
                    let! body := slift (unwrap (get_range window body_offset body_end)) in
                    sret (hasher_update hasher body)
                  else
                    let! body_file_offset := slift (ok_or (checked_add64 candidate_start HEADER_SIZE)
                                                      "torn tail body offset overflow") in
                    let! _ := seek body_file_offset in
                    hash_exact body_len hasher "torn tail candidate") in
  if hasher_finalize hasher =? stored_crc then sret (Some LaterRecord, crc_work)
  else sret (None, crc_work)
  end end end.

Fixpoint probe_candidates (fuel : nat) (window : bytes) (window_len read_start file_len : Z)
    (candidate_start candidate_end crc_work : Z) : SR File (option TornTailProbe) :=
  if candidate_end <=? candidate_start then sret None else
  match fuel with
  | O => fun f => (Panic, f)
  | S fuel =>
      let! p := probe_candidate window window_len read_start file_len candidate_start crc_work in
      match p with
      | (Some probe, _) => sret (Some probe)
      | (None, crc_work) =>
          probe_candidates fuel window window_len read_start file_len (candidate_start + 1) candidate_end crc_work
      end
  end.

Definition read_exact_into (window : bytes) (n : Z) : SR File bytes := fun f =>
  match read_exact n f with
  | (ExactOk bs, f') => (Ok (copy_from_slice window 0 bs), f')
  | (ExactEof, f') => (Err eof_message, f')
  | (ExactErr m, f') => (Err m, f')
  end.

Fixpoint probe_windows (fuel : nat) (window : bytes) (file_len max_candidate_start chunk_start : Z)
    : SR File TornTailProbe :=
  if max_candidate_start <? chunk_start then sret NoLaterRecord else
  match fuel with
  | O => fun f => (Panic, f)
  | S fuel =>
      let read_start := chunk_start in
      let read_end := Z.min (default file_len (checked_add64 chunk_start (len window))) file_len in
      let window_len := read_end - read_start in
      let! _ := seek read_start in
      let! window := read_exact_into window window_len in
      let next_chunk_start := default (max_candidate_start + 1)
                                (checked_add64 chunk_start TORN_TAIL_PROBE_WINDOW_BYTES) in
      let candidate_end := Z.min next_chunk_start (max_candidate_start + 1) in
      let! p := probe_candidates (Z.to_nat (candidate_end - chunk_start)) window window_len read_start file_len
                  chunk_start candidate_end 0 in
      match p with
      | Some probe => sret probe
      | None =>
          if max_candidate_start <? candidate_end then sret NoLaterRecord
          else probe_windows fuel window file_len max_candidate_start next_chunk_start
      end
  end.

Definition probe_torn_tail (suffix_start file_len : Z) : SR File TornTailProbe :=
  let! suffix_len := slift (ok_or (checked_sub64 file_len suffix_start) "torn tail starts past end of file") in
  if suffix_len <? HEADER_SIZE then sret NoLaterRecord else
  let max_candidate_start := file_len - HEADER_SIZE in
  let overlap := HEADER_SIZE - 1 in
  let window_capacity := TORN_TAIL_PROBE_WINDOW_BYTES + overlap in
  let window := replicate (Z.to_nat (Z.min window_capacity suffix_len)) x00 in
  probe_windows (Z.to_nat (suffix_len / TORN_TAIL_PROBE_WINDOW_BYTES) + 1) window file_len
    max_candidate_start suffix_start.

(** ** Recovery *)

(** The scan of [recover_torn_tail]: the end of the last complete record, and whether
    the scan stopped at a truncated one. *)
Fixpoint recover_scan (fuel : nat) (valid_end : Z) : SR File (Z * bool) := fun f =>
  match fuel with
  | O => (Panic, f)
  | S fuel =>
      match read_next_record_metadata valid_end f with
      | (Ok (Some record), f') =>
          match checked_add64 valid_end (md_record_size record) with
          | Some valid_end => recover_scan fuel valid_end f'
          | None => (Err "record offset overflow", f')
          end
      | (Ok None, f') => (Ok (valid_end, false), f')
      | (Err e, f') => if is_truncated_record e then (Ok (valid_end, true), f') else (Err e, f')
      | (Panic, f') => (Panic, f')
      end
  end.

(** What the operating system answers during a recovery: the events of the read
    handle, whether both handles name one file, and the bytes another process
    appends while the scan runs and just before the truncation. *)
Record RecoverEnv : Type := mkRecoverEnv {
  re_events : list io_event;
  re_same_file : bool;
  re_foreign_scan : bytes;
  re_foreign_truncate : bytes;
}.

Definition foreign_append (bs : bytes) : SR Disk unit := fun d =>
  (Ok tt, mkDisk (d_data d ++ bs) (d_faults d) (d_poisoned d)).

(** [open_write_nofollow], [open_random_read] and the [metadata] calls whose length is
    not used ([append_lock_for_file], [same_file_identity]): calls that may fail. *)
Definition sys_touch : SR Disk unit := sys_simple (fun data => data).

Definition ambiguous_tail (valid_end current_file_len : Z) (why : string) : string :=
  "ambiguous truncated tail at " +:+ pretty valid_end +:+ " bytes; preserving " +:+ pretty current_file_len
  +:+ " bytes (" +:+ why +:+ ")".

Definition log_changed (from to : Z) : string :=
  "log changed while recovering: started at " +:+ pretty from +:+ " bytes, ended at " +:+ pretty to.

Definition recover_torn_tail (env : RecoverEnv) : SR Disk Z :=
  let! _ := sys_touch in
  let! _ := sys_touch in
  let! d := sget in
  let! _ := slift (if d_poisoned d then Err "append lock poisoned" else Ok tt) in
  let! file_len := sys_len in
  let! _ := sys_touch in
  let! _ := sys_touch in
  let! _ := sys_touch in
  if negb (re_same_file env) then serr "log path changed while recovering" else
  let! d := sget in
  let read_file := mkFile (d_data d) 0 (re_events env) in
  let '(scan, read_file) := recover_scan (scan_fuel read_file) 0 read_file in
  let! _ := foreign_append (re_foreign_scan env) in
  let! s := slift scan in
  let '(valid_end, saw_truncated_tail) := s in
  let! current_file_len := sys_len in
  if negb (current_file_len =? file_len) then serr (log_changed file_len current_file_len) else
  if current_file_len <? valid_end then
    serr ("log grew while recovering: scanned through " +:+ pretty valid_end +:+ " bytes, expected "
          +:+ pretty current_file_len)
  else
  let! _ := (if saw_truncated_tail && (HEADER_SIZE <=? current_file_len - valid_end) then
               let! probe := slift (probe_torn_tail valid_end current_file_len read_file).1 in
               match probe with
               | NoLaterRecord => sret tt
               | LaterRecord => serr (ambiguous_tail valid_end current_file_len "later record candidate")
               | BudgetExceeded => serr (ambiguous_tail valid_end current_file_len "probe budget exceeded")
               end
             else sret tt) in
  if valid_end <? current_file_len then
    let! _ := foreign_append (re_foreign_truncate env) in
    let! final_file_len := sys_len in
    if negb (final_file_len =? current_file_len) then serr (log_changed current_file_len final_file_len) else
    let! _ := sys_set_len valid_end in
    let! _ := sys_sync_data in
    sret valid_end
  else sret valid_end.

End Scans.

(** ** The reference decomposition of a log *)

Section ScanSpec.
Context {C : Crc32fast} {L : Crc32fastLaws C}.

Definition stops (rest : bytes) : Prop := forall r n, parse rest <> Ok (Some (r, n)).

Inductive scans : bytes -> list Record_ -> bytes -> Prop :=
| scans_stop rest : stops rest -> scans rest [] rest
| scans_step r rest rs tail : record_ok r -> scans rest rs tail -> scans (frame r ++ rest) (r :: rs) tail.

Lemma scans_frames data rs tail : scans data rs tail -> data = frames rs ++ tail.
Proof.
  induction 1 as [rest|r rest rs tail Hok Hs IH]; [done|]. rewrite frames_cons, <- app_assoc. by rewrite <- IH.
Qed.

Lemma scans_stops data rs tail : scans data rs tail -> stops tail.
Proof. by induction 1. Qed.

Lemma scans_records_ok data rs tail : scans data rs tail -> Forall record_ok rs.
Proof. induction 1; constructor; done. Qed.

Lemma scans_intro rs tail : Forall record_ok rs -> stops tail -> scans (frames rs ++ tail) rs tail.
Proof.
  intros Hok Hst. induction Hok as [|r rs Hr Hrs IH]; [by constructor|].
  rewrite frames_cons, <- app_assoc. by constructor.
Qed.

(** Every file has exactly one decomposition. *)
Lemma scans_total data : exists rs tail, scans data rs tail.
Proof.
  remember (length data) as n eqn:Hn. revert data Hn.
  induction n as [n IH] using lt_wf_ind. intros data ->.
  destruct (parse data) as [[[r k]|]|e|] eqn:E;
    [|exists [], data; constructor; intros ? ?; by rewrite E..].
  destruct (parse_inv _ _ _ E) as (Hok & -> & rest & ->).
  destruct (IH (length rest)) with (data := rest) as (rs & tail & Hs); [|done|].
  - rewrite length_app. pose proof (len_frame r) as Hl. pose proof (frame_len_ge r).
    unfold len, HEADER_SIZE in *. lia.
  - exists (r :: rs), tail. by constructor.
Qed.

Lemma scans_step_parse data r n rs tail :
  parse data = Ok (Some (r, n)) -> scans data rs tail ->
  exists rs' rest, rs = r :: rs' /\ data = frame r ++ rest /\ n = frame_len r /\ scans rest rs' tail.
Proof.
  intros Hp Hs. destruct Hs as [rest Hst|r' rest rs tail Hok Hs]; [by destruct (Hst _ _ Hp)|].
  rewrite parse_frame_app in Hp by done. injection Hp as <- <-. eauto 6.
Qed.

Lemma scans_unique data rs1 tail1 rs2 tail2 :
  scans data rs1 tail1 -> scans data rs2 tail2 -> rs1 = rs2 /\ tail1 = tail2.
Proof.
  intros H1. revert rs2 tail2. induction H1 as [rest Hst|r rest rs tail Hok Hs IH]; intros rs2 tail2 H2.
  - destruct H2 as [rest _|r' rest' rs' tail' Hok' _]; [done|].
    exfalso. eapply Hst. by apply parse_frame_app.
  - destruct (scans_step_parse _ _ _ _ _ (parse_frame_app r rest Hok) H2) as (rs' & rest' & -> & Heq & _ & Hs').
    apply app_inv_head in Heq as <-. destruct (IH _ _ Hs') as [<- <-]. done.
Qed.

(** How a scan ends: at the end of the file, in the middle of a record, or at bytes
    that are not a record. *)
Definition truncated_tail (tail : bytes) : Prop :=
  exists e, parse tail = Err e /\ is_truncated_record e = true.
Definition corrupt_tail (tail : bytes) : Prop :=
  exists e, parse tail = Err e /\ is_truncated_record e = false.

Lemma parse_no_panic rest : parse rest <> Panic.
Proof.
  unfold parse. destruct (_ =? 0); [done|]. destruct (_ <? HEADER_SIZE); [done|]. cbv zeta.
  destruct (decoded_value_size _ _) as [vs|e|] eqn:E; simpl;
    [|done|by apply decoded_value_size_not_panic in E].
  repeat (destruct (_ <? _); [done|]). by destruct (_ =? hdr_crc _).
Qed.

Lemma parse_none rest : parse rest = Ok None -> rest = [].
Proof.
  unfold parse. destruct (Z.eqb_spec (len rest) 0); [by intros; apply len_zero|].
  destruct (_ <? HEADER_SIZE); [done|]. cbv zeta.
  destruct (decoded_value_size _ _) as [vs|e|]; simpl; [|done|done].
  repeat (destruct (_ <? _); [done|]). by destruct (_ =? hdr_crc _).
Qed.

Lemma stops_cases tail : stops tail -> tail = [] \/ truncated_tail tail \/ corrupt_tail tail.
Proof.
  intros Hst. destruct (parse tail) as [[[r n]|]|e|] eqn:E.
  - by destruct (Hst _ _ E).
  - left. by apply parse_none.
  - right. destruct (is_truncated_record e) eqn:Et; [left|right]; by exists e.
  - by destruct (parse_no_panic tail).
Qed.

(** A tail shorter than a header is always torn, never corrupt. *)
Lemma short_tail_truncated tail : 0 < len tail < HEADER_SIZE -> truncated_tail tail.
Proof.
  intros Hl. unfold truncated_tail, parse. destruct (Z.eqb_spec (len tail) 0); [lia|].
  destruct (Z.ltb_spec (len tail) HEADER_SIZE); [|lia]. eexists. split; [done|]. reflexivity.
Qed.

(** A proper, nonempty prefix of an encoded record is a truncated record. *)
Lemma prefix_truncated r k :
  record_ok r -> 0 < k < frame_len r -> truncated_tail (ztake k (frame r)).
Proof.
  intros Hok Hk. pose proof (len_frame r) as Hlf. pose proof HEADER_SIZE_val as HH.
  assert (len (ztake k (frame r)) = k) as Hl by (rewrite len_ztake by lia; lia).
  destruct (Z.lt_ge_cases k HEADER_SIZE); [apply short_tail_truncated; lia|].
  destruct (frame_fields r [] Hok) as (_ & _ & _ & Fk & Fv & Fb & _).
  rewrite !app_nil_r in *.
  unfold truncated_tail, parse. rewrite Hl. destruct (Z.eqb_spec k 0); [lia|].
  destruct (Z.ltb_spec k HEADER_SIZE); [lia|]. cbv zeta.
  rewrite ztake_ztake, Z.min_l, Fk, Fv by lia.
  assert (decoded_value_size (match value r with Some v => len v | None => TOMBSTONE end)
            ((match value r with Some v => len v | None => TOMBSTONE end) =? TOMBSTONE)
          = Ok (len (default [] (value r)))) as ->.
  { destruct Hok as (_ & _ & _ & Hv). unfold decoded_value_size. destruct (value r) as [v|]; simpl; [|done].
    destruct (Z.eqb_spec (len v) TOMBSTONE) as [E|]; unfold TOMBSTONE, u32_max, MAX_VALUE_SIZE in *; [lia|].
    destruct (Z.ltb_spec 536870912 (len v)); [lia|done]. }
  cbn [rbind]. rewrite zdrop_ztake, Fb by lia. unfold frame_len in Hk. len_facts.
  set (body := key r ++ default [] (value r)).
  assert (len (ztake (k - HEADER_SIZE) body) = k - HEADER_SIZE) as Hlb
    by (unfold body; rewrite len_ztake, len_app by lia; lia).
  rewrite Hlb. destruct (Z.ltb_spec (k - HEADER_SIZE) (len (key r))); [eexists; split; reflexivity|].
  rewrite len_zdrop, Hlb by lia.
  destruct (Z.ltb_spec (Z.max 0 (k - HEADER_SIZE - len (key r))) (len (default [] (value r))));
    [eexists; split; reflexivity|lia].
Qed.

(** ** The scans compute the decomposition *)

Lemma scans_count data rs tail : scans data rs tail -> Z.of_nat (length rs) * HEADER_SIZE <= len data.
Proof.
  induction 1 as [rest|r rest rs tail Hok Hs IH]; cbn [length]; [len_facts; lia|].
  rewrite len_app, len_frame. pose proof (frame_len_ge r). lia.
Qed.

Lemma scan_fuel_enough f pos rs tail :
  0 <= pos -> scans (zdrop pos (f_data f)) rs tail -> (length rs < scan_fuel f)%nat.
Proof.
  intros Hp Hs. apply scans_count in Hs. rewrite len_zdrop in Hs by lia.
  unfold scan_fuel, file_len, HEADER_SIZE in *. len_facts.
  pose proof (Z.div_le_lower_bound (len (f_data f)) 26 (Z.of_nat (length rs)) ltac:(lia) ltac:(lia)). lia.
Qed.

Lemma reads_seek f pos ev :
  quiet (mkFile (f_data f) pos ev) -> 0 <= pos ->
  reads (mkFile (f_data f) pos ev) (zdrop pos (f_data f)).
Proof. intros Hq Hp. by repeat split. Qed.

Lemma iter_strict_loop_spec fuel acc f rest rs tail :
  reads f rest -> scans rest rs tail -> (length rs < fuel)%nat ->
  exists f', f_data f' = f_data f /\
    iter_strict_loop fuel acc f =
      (match parse tail with Err e => Err e | _ => Ok (acc ++ rs) end, f').
Proof.
  intros Hr Hs. revert fuel acc f Hr.
  induction Hs as [rest Hst|r rest rs tail Hok Hs IH]; intros fuel acc f Hr Hf;
    (destruct fuel as [|fuel]; [simpl in *; lia|]); cbn [iter_strict_loop];
    destruct (read_next_record_computes f _ Hr) as (f1 & Hd1 & H1).
  - destruct (parse rest) as [[[r n]|]|e|] eqn:E; [by destruct (Hst _ _ E)| | |done].
    + destruct H1 as [-> _]. exists f1. by rewrite app_nil_r.
    + rewrite H1. by exists f1.
  - rewrite parse_frame_app in H1 by done. destruct H1 as (-> & Hr1 & _).
    rewrite zdrop_app_ge, zdrop_0 in Hr1 by (rewrite len_frame; lia).
    destruct (IH fuel (acc ++ [r]) f1 Hr1) as (f2 & Hd2 & ->); [simpl in *; lia|].
    exists f2. split; [congruence|]. by rewrite <- app_assoc.
Qed.

Lemma iter_tolerant_loop_spec fuel acc f rest rs tail :
  reads f rest -> scans rest rs tail -> (length rs < fuel)%nat ->
  exists f', f_data f' = f_data f /\
    iter_tolerant_loop fuel acc f =
      (match parse tail with
       | Err e => if is_truncated_record e then Ok (acc ++ rs) else Err e
       | _ => Ok (acc ++ rs)
       end, f').
Proof.
  intros Hr Hs. revert fuel acc f Hr.
  induction Hs as [rest Hst|r rest rs tail Hok Hs IH]; intros fuel acc f Hr Hf;
    (destruct fuel as [|fuel]; [simpl in *; lia|]); cbn [iter_tolerant_loop];
    destruct (read_next_record_computes f _ Hr) as (f1 & Hd1 & H1).
  - rewrite app_nil_r. destruct (parse rest) as [[[r n]|]|e|] eqn:E; [by destruct (Hst _ _ E)| | |done].
    + destruct H1 as [-> _]. by exists f1.
    + rewrite H1. exists f1. split; [done|]. by destruct (is_truncated_record e).
  - rewrite parse_frame_app in H1 by done. destruct H1 as (-> & Hr1 & _).
    rewrite zdrop_app_ge, zdrop_0 in Hr1 by (rewrite len_frame; lia).
    destruct (IH fuel (acc ++ [r]) f1 Hr1) as (f2 & Hd2 & ->); [simpl in *; lia|].
    exists f2. split; [congruence|]. by rewrite <- app_assoc.
Qed.

(** The metadata the scans report for a run of records starting at [offset]. *)
Fixpoint metadata_run (offset : Z) (rs : list Record_) : list RecordMetadata :=
  match rs with
  | [] => []
  | r :: rs => metadata_of offset r :: metadata_run (offset + frame_len r) rs
  end.

Lemma metadata_run_app offset rs1 rs2 :
  metadata_run offset (rs1 ++ rs2) =
  metadata_run offset rs1 ++ metadata_run (offset + len (frames rs1)) rs2.
Proof.
  revert offset. induction rs1 as [|r rs1 IH]; intros offset; cbn [app metadata_run].
  - change (len (frames [])) with 0. by rewrite Z.add_0_r.
  - rewrite IH, frames_cons, len_app, len_frame. do 3 f_equal. lia.
Qed.

Lemma metadata_run_length offset rs : length (metadata_run offset rs) = length rs.
Proof. revert offset. induction rs; intros; simpl; auto. Qed.

(** A page: the records from the offset, up to the limit; [done] when the scan hit the
    end of the file or a torn record, an error when it hit a corrupt one. *)
Definition page_of (offset : Z) (room : nat) (rs : list Record_) (tail : bytes)
    : result (list RecordMetadata * Z * bool) :=
  let page := take room rs in
  let next := offset + len (frames page) in
  if (room <=? length rs)%nat then Ok (metadata_run offset page, next, false)
  else match parse tail with
       | Err e => if is_truncated_record e then Ok (metadata_run offset page, next, true) else Err e
       | _ => Ok (metadata_run offset page, next, true)
       end.

Lemma page_of_full offset rs tail : page_of offset 0 rs tail = Ok ([], offset, false).
Proof. unfold page_of. change (len (frames (take 0 rs))) with 0. by rewrite Z.add_0_r. Qed.

Lemma page_of_end offset room tail :
  page_of offset (S room) [] tail =
    match parse tail with
    | Err e => if is_truncated_record e then Ok ([], offset, true) else Err e
    | _ => Ok ([], offset, true)
    end.
Proof. unfold page_of. change (len (frames (take (S room) []))) with 0. by rewrite Z.add_0_r. Qed.

Lemma page_of_next offset room r rs tail :
  page_of offset (S room) (r :: rs) tail =
    match page_of (offset + frame_len r) room rs tail with
    | Ok (page, next, fin) => Ok (metadata_of offset r :: page, next, fin)
    | Err e => Err e
    | Panic => Panic
    end.
Proof.
  unfold page_of. cbn [take metadata_run length Nat.leb]. cbv zeta.
  rewrite frames_cons, len_app, len_frame, Z.add_assoc.
  destruct (room <=? length rs)%nat; [done|]. destruct (parse tail); [done| |done].
  by destruct (is_truncated_record _).
Qed.

Lemma iter_metadata_page_loop_spec fuel acc offset limit f rest rs tail room :
  reads f rest -> scans rest rs tail -> (length rs < fuel)%nat -> 0 <= offset ->
  offset + len rest <= u64_max -> limit = len acc + Z.of_nat room ->
  exists f', f_data f' = f_data f /\
    iter_metadata_page_loop fuel acc offset limit f =
      (match page_of offset room rs tail with
       | Ok (page, next, fin) => Ok (acc ++ page, next, fin)
       | Err e => Err e
       | Panic => Panic
       end, f').
Proof.
  intros Hr Hs. revert fuel acc offset f room Hr.
  induction Hs as [rest Hst|r rest rs tail Hok Hs IH]; intros fuel acc offset f room Hr Hf Ho Hle Hlim;
    (destruct fuel as [|fuel]; [simpl in *; lia|]); cbn [iter_metadata_page_loop];
    (destruct room as [|room];
      [destruct (Z.leb_spec limit (len acc)); [|lia]; exists f; split; [done|];
       by rewrite page_of_full, app_nil_r
      |destruct (Z.leb_spec limit (len acc)); [lia|]]);
    destruct (read_next_record_metadata_computes offset f _ Hr) as (f1 & Hd1 & H1);
    unfold parse_metadata in H1.
  - rewrite page_of_end. destruct (parse rest) as [[[r n]|]|e|] eqn:E;
      [by destruct (Hst _ _ E)| | |done]; simpl in H1.
    + destruct H1 as [-> _]. exists f1. by rewrite app_nil_r.
    + rewrite H1. exists f1. split; [done|]. destruct (is_truncated_record e); [|done]. by rewrite app_nil_r.
  - rewrite parse_frame_app in H1 by done. cbn [rbind] in H1. destruct H1 as (-> & Hr1 & _).
    rewrite zdrop_app_ge, zdrop_0 in Hr1 by (rewrite len_frame; lia).
    rewrite len_app, len_frame in Hle. pose proof (frame_len_ge r). pose proof HEADER_SIZE_val. len_facts.
    unfold checked_add64. cbn [md_record_size metadata_of].
    destruct (Z.leb_spec (offset + frame_len r) u64_max); [|lia].
    destruct (IH fuel (acc ++ [metadata_of offset r]) (offset + frame_len r) f1 room Hr1)
      as (f2 & Hd2 & ->);
      [simpl in *; lia|lia|lia|rewrite len_app; change (len [metadata_of offset r]) with 1; lia|].
    exists f2. split; [congruence|]. rewrite page_of_next.
    destruct (page_of _ _ _ _) as [[[page next] fin]|e|]; [|done|done]. by rewrite <- app_assoc.
Qed.

(** ** Prefix digests *)

Lemma frames_take_0 rs : len (frames (take 0 rs)) = 0.
Proof. done. Qed.

Lemma validate_prefix_loop_spec fuel offset prefix f rest rs tail :
  reads f rest -> scans rest rs tail -> (length rs < fuel)%nat -> 0 <= offset <= prefix ->
  offset + len rest <= u64_max ->
  exists f' r, validate_prefix_loop fuel offset prefix f = (r, f') /\ f_data f' = f_data f /\
    (r = Ok tt -> quiet f') /\
    r <> Panic /\ (r = Ok tt <-> exists k, prefix = offset + len (frames (take k rs))).
Proof.
  intros Hr Hs. revert fuel offset f Hr.
  induction Hs as [rest Hst|r rest rs tail Hok Hs IH]; intros fuel offset f Hr Hf Ho Hle;
    (destruct fuel as [|fuel]; [simpl in *; lia|]); cbn [validate_prefix_loop].
  all: destruct (Z.leb_spec prefix offset);
    [exists f, (Ok tt); split_and!; [done|done|intros _; apply Hr|done|]; split; [|done];
     intros _; exists 0%nat; rewrite frames_take_0; lia|].
  all: destruct (read_next_record_metadata_computes offset f _ Hr) as (f1 & Hd1 & H1);
    unfold parse_metadata in H1.
  - assert (forall k, prefix <> offset + len (frames (take k []))) as Hno
      by (intros k; rewrite take_nil; change (len (frames [])) with 0; lia).
    destruct (parse rest) as [[[r n]|]|e|] eqn:E; [by destruct (Hst _ _ E)| | |done]; simpl in H1.
    + destruct H1 as [-> _]. eexists f1, _. split_and!; try done. split; [done|]. intros [k Hk].
      by destruct (Hno k).
    + rewrite H1. eexists f1, _. split_and!; try done. split; [done|]. intros [k Hk]. by destruct (Hno k).
  - rewrite parse_frame_app in H1 by done. cbn [rbind] in H1. destruct H1 as (-> & Hr1 & _).
    rewrite zdrop_app_ge, zdrop_0 in Hr1 by (rewrite len_frame; lia).
    rewrite len_app, len_frame in Hle. pose proof (frame_len_ge r). pose proof HEADER_SIZE_val. len_facts.
    unfold checked_add64. cbn [md_record_size metadata_of].
    destruct (Z.leb_spec (offset + frame_len r) u64_max); [|lia].
    assert (forall k, len (frames (take (S k) (r :: rs))) = frame_len r + len (frames (take k rs))) as Hk
      by (intros k; cbn [take]; by rewrite frames_cons, len_app, len_frame).
    destruct (Z.ltb_spec prefix (offset + frame_len r)).
    + eexists f1, _. split_and!; try done. split; [done|]. intros [[|k] Hpk].
      * rewrite frames_take_0 in Hpk. lia.
      * rewrite Hk in Hpk. pose proof (len_nonneg (frames (take k rs))). lia.
    + destruct (IH fuel (offset + frame_len r) f1 Hr1) as (f2 & r2 & -> & Hd2 & Hq2 & Hp2 & Hiff);
        [simpl in *; lia|lia|lia|]. exists f2, r2. split_and!; [done|congruence|done|done|].
      rewrite Hiff. split; intros [k Hpk]; [exists (S k); rewrite Hk; lia|].
      destruct k as [|k]; [rewrite frames_take_0 in Hpk; lia|]. exists k. rewrite Hk in Hpk. lia.
Qed.

Lemma digest_loop_spec {H : Sha256} {LH : Sha256Laws H} fuel rem g l f rest :
  reads f rest -> digested g l -> 0 <= rem <= len rest -> rem <= Z.of_nat fuel * 65536 ->
  exists f' g', digest_loop fuel rem g f = (Ok g', f') /\ f_data f' = f_data f /\
    digested g' (l ++ ztake rem rest).
Proof.
  revert rem g l f rest. induction fuel as [|fuel IH]; intros rem g l f rest Hr Hg Hrem Hf;
    cbn [digest_loop]; (destruct (Z.leb_spec rem 0);
      [exists f, g; split_and!; [done|done|]; by rewrite ztake_0, app_nil_r by lia|]); [lia|].
  set (n := Z.min rem 65536) in *.
  destruct (read_exact_quiet n f rest ltac:(lia) Hr) as (f1 & Hd1 & H1).
  destruct (Z.leb_spec n (len rest)); [|lia]. destruct H1 as (-> & Hr1 & _).
  destruct (IH (rem - n) (digest_update g (ztake n rest)) (l ++ ztake n rest) f1 (zdrop n rest))
    as (f2 & g2 & -> & Hd2 & Hg2); [done|by apply digested_update|rewrite len_zdrop by lia; lia|lia|].
  exists f2, g2. split_and!; [done|congruence|].
  rewrite <- app_assoc, ztake_split in Hg2 by lia. by replace (n + (rem - n)) with rem in Hg2 by lia.
Qed.

Lemma scans_app rs1 rest rs2 tail :
  Forall record_ok rs1 -> scans rest rs2 tail -> scans (frames rs1 ++ rest) (rs1 ++ rs2) tail.
Proof.
  intros Hok Hs. induction Hok as [|r rs1 Hr Hrs IH]; [done|].
  rewrite frames_cons, <- app_assoc. by constructor.
Qed.

(** A prefix of a log is made of whole records exactly when the scan has a boundary
    there. *)
Lemma prefix_boundary data rs tail prefix :
  scans data rs tail -> 0 <= prefix <= len data ->
  (exists k, prefix = len (frames (take k rs))) <->
  (exists rs', Forall record_ok rs' /\ ztake prefix data = frames rs').
Proof.
  intros Hs Hp. split.
  - intros [k Hk]. exists (take k rs). split; [by eapply Forall_take, scans_records_ok|].
    rewrite (scans_frames _ _ _ Hs), <- (take_drop k rs) at 1.
    rewrite frames_app, <- app_assoc, ztake_app_le, ztake_ge by lia. done.
  - intros (rs' & Hok & Htake). destruct (scans_total (zdrop prefix data)) as (rs2 & tail2 & Hs2).
    pose proof (scans_app _ _ _ _ Hok Hs2) as Hs'. rewrite <- Htake, ztake_zdrop in Hs'.
    destruct (scans_unique _ _ _ _ _ Hs Hs') as [-> _]. exists (length rs').
    rewrite take_app_length, <- Htake, len_ztake by lia. lia.
Qed.

(** ** The recovery scan *)

Lemma recover_scan_spec fuel offset f rest rs tail :
  reads f rest -> scans rest rs tail -> (length rs < fuel)%nat -> 0 <= offset ->
  offset + len rest <= u64_max ->
  exists f', f_data f' = f_data f /\
    recover_scan fuel offset f =
      (match parse tail with
       | Err e => if is_truncated_record e then Ok (offset + len (frames rs), true) else Err e
       | _ => Ok (offset + len (frames rs), false)
       end, f').
Proof.
  intros Hr Hs. revert fuel offset f Hr.
  induction Hs as [rest Hst|r rest rs tail Hok Hs IH]; intros fuel offset f Hr Hf Ho Hle;
    (destruct fuel as [|fuel]; [simpl in *; lia|]); cbn [recover_scan];
    destruct (read_next_record_metadata_computes offset f _ Hr) as (f1 & Hd1 & H1);
    unfold parse_metadata in H1.
  - change (len (frames [])) with 0. rewrite Z.add_0_r.
    destruct (parse rest) as [[[r n]|]|e|] eqn:E; [by destruct (Hst _ _ E)| | |done]; simpl in H1.
    + destruct H1 as [-> _]. by exists f1.
    + rewrite H1. exists f1. split; [done|]. by destruct (is_truncated_record e).
  - rewrite parse_frame_app in H1 by done. cbn [rbind] in H1. destruct H1 as (-> & Hr1 & _).
    rewrite zdrop_app_ge, zdrop_0 in Hr1 by (rewrite len_frame; lia).
    rewrite len_app, len_frame in Hle. pose proof (frame_len_ge r). pose proof HEADER_SIZE_val. len_facts.
    unfold checked_add64. cbn [md_record_size metadata_of].
    destruct (Z.leb_spec (offset + frame_len r) u64_max); [|lia].
    destruct (IH fuel (offset + frame_len r) f1 Hr1) as (f2 & Hd2 & ->); [simpl in *; lia|lia|lia|].
    exists f2. split; [congruence|]. rewrite frames_cons, len_app, len_frame, Z.add_assoc. done.
Qed.

(** ** Reads consume events, so a quiet file stays quiet *)

Definition keeps_quiet {A : Type} (m : File -> A * File) : Prop := forall f, quiet f -> quiet (m f).2.

Lemma keeps_quiet_sbind {A B : Type} (m : SR File A) (k : A -> SR File B) :
  keeps_quiet m -> (forall a, keeps_quiet (k a)) -> keeps_quiet (sbind m k).
Proof.
  intros Hm Hk f Hq. specialize (Hm f Hq). unfold sbind. destruct (m f) as [[a|e|] f1]; [|done|done].
  by apply Hk.
Qed.

Lemma keeps_quiet_slift {A : Type} (r : result A) : keeps_quiet (slift r).
Proof. by intros f. Qed.
Lemma keeps_quiet_sret {A : Type} (a : A) : keeps_quiet (sret a : SR File A).
Proof. by intros f. Qed.
Lemma keeps_quiet_serr {A : Type} e : keeps_quiet (serr e : SR File A).
Proof. by intros f. Qed.

Lemma file_read_keeps n : keeps_quiet (file_read n).
Proof.
  intros [data pos [|[k| |m] ev]] Hq; unfold file_read, quiet in *; simpl in *; inversion Hq; done.
Qed.

Lemma read_exact_keeps n : keeps_quiet (read_exact n).
Proof.
  intros f. unfold read_exact. generalize (length (f_events f) + 3)%nat as fuel, (@nil byte) as acc.
  intros fuel. revert n f. induction fuel as [|fuel IH]; intros n f acc Hq; simpl; destruct (n <=? 0); try done.
  pose proof (file_read_keeps n f Hq) as Hq1.
  destruct (file_read n f) as [[[|b bs]| |m] f1]; simpl in *; auto.
Qed.

Lemma read_record_header_keeps : keeps_quiet read_record_header.
Proof.
  intros f. unfold read_record_header. generalize (length (f_events f) + 3)%nat as fuel, (@nil byte) as acc.
  intros fuel. revert f. induction fuel as [|fuel IH]; intros f acc Hq; cbn [read_record_header_loop];
    destruct (HEADER_SIZE <=? len acc); try done.
  pose proof (file_read_keeps (HEADER_SIZE - len acc) f Hq) as Hq1.
  destruct (file_read _ f) as [[[|b bs]| |m] f1]; simpl in *; auto. by destruct (len acc =? 0).
Qed.

Lemma read_exact_vec_keeps n label : keeps_quiet (read_exact_vec n label).
Proof.
  unfold read_exact_vec. generalize n at 3 as total. generalize (chunk_fuel n) as fuel, (@nil byte) as out.
  intros fuel. revert n. induction fuel as [|fuel IH]; intros n out total f Hq; cbn [read_exact_vec_loop];
    destruct (n <=? 0); try done.
  pose proof (read_exact_keeps (Z.min n STREAM_READ_CHUNK_SIZE) f Hq) as Hq1. cbv zeta.
  destruct (read_exact _ f) as [[bs| |m] f1]; simpl in *; try done. by apply IH.
Qed.

Lemma hash_exact_keeps n h label : keeps_quiet (hash_exact n h label).
Proof.
  unfold hash_exact. generalize n at 3 as total. generalize (chunk_fuel n) as fuel.
  intros fuel. revert n h. induction fuel as [|fuel IH]; intros n h total f Hq; cbn [hash_exact_loop];
    destruct (n <=? 0); try done.
  pose proof (read_exact_keeps (Z.min n STREAM_READ_CHUNK_SIZE) f Hq) as Hq1. cbv zeta.
  destruct (read_exact _ f) as [[bs| |m] f1]; simpl in *; try done. by apply IH.
Qed.

Lemma read_next_record_metadata_keeps offset : keeps_quiet (read_next_record_metadata offset).
Proof.
  apply keeps_quiet_sbind; [apply read_record_header_keeps|]. intros [h|]; [|apply keeps_quiet_sret].
  cbv zeta. apply keeps_quiet_sbind; [apply keeps_quiet_slift|]. intros vs.
  apply keeps_quiet_sbind; [apply read_exact_vec_keeps|]. intros k.
  apply keeps_quiet_sbind; [destruct (_ =? _); [apply keeps_quiet_sret|apply hash_exact_keeps]|].
  intros hs. destruct (_ =? _); [apply keeps_quiet_sret|apply keeps_quiet_serr].
Qed.

Lemma recover_scan_keeps fuel offset : keeps_quiet (recover_scan fuel offset).
Proof.
  revert offset. induction fuel as [|fuel IH]; intros offset f Hq; [done|]. cbn [recover_scan].
  pose proof (read_next_record_metadata_keeps offset f Hq) as Hq1.
  destruct (read_next_record_metadata offset f) as [[[r|]|e|] f1]; simpl in *; try done.
  - destruct (checked_add64 _ _); [by apply IH|done].
  - by destruct (is_truncated_record e).
Qed.

(** ** The probe finds a complete record in the tail exactly when there is one *)

(** A complete record starts at [i]. *)
Definition record_at (data : bytes) (i : Z) : Prop := exists r n, parse (zdrop i data) = Ok (Some (r, n)).

(** What one candidate may answer. *)
Definition candidate_answer (data : bytes) (i : Z) (p : option TornTailProbe) : Prop :=
  match p with
  | None => ~ record_at data i
  | Some LaterRecord => record_at data i
  | Some BudgetExceeded => True
  | Some NoLaterRecord => False
  end.

(** The window holds the file's bytes from [read_start] on. *)
Definition window_ok (data window : bytes) (read_start window_len : Z) : Prop :=
  0 <= read_start /\ 0 <= window_len <= len window /\ read_start + window_len <= len data /\
  ztake window_len window = ztake window_len (zdrop read_start data).

Lemma window_slice data window read_start window_len a b :
  window_ok data window read_start window_len -> 0 <= a <= b -> b <= window_len ->
  get_range window a b = Some (zslice data (read_start + a) (read_start + b)).
Proof.
  intros (Hr & Hw & Hlen & Heq) Hab Hb. rewrite get_range_Some by lia. f_equal.
  unfold zslice. rewrite <- zdrop_zdrop by lia.
  replace (read_start + b - (read_start + a)) with (b - a) by lia.
  assert (forall l : bytes, ztake (b - a) (zdrop a l) = ztake (b - a) (zdrop a (ztake window_len l))) as Hcut.
  { intros l. rewrite zdrop_ztake, ztake_ztake, Z.min_l by lia. done. }
  rewrite (Hcut window), (Hcut (zdrop read_start data)). by rewrite Heq.
Qed.

Lemma record_at_iff data i :
  0 <= i -> i + HEADER_SIZE <= len data ->
  let header := zslice data i (i + HEADER_SIZE) in
  let vs := if hdr_value_size_raw header =? TOMBSTONE then 0 else hdr_value_size_raw header in
  let n := hdr_key_size header + vs in
  record_at data i <->
  vs <= MAX_VALUE_SIZE /\ i + HEADER_SIZE + n <= len data /\
  crc32 (zdrop 4 header ++ zslice data (i + HEADER_SIZE) (i + HEADER_SIZE + n)) = hdr_crc header.
Proof.
  intros Hi Hlen header vs n. pose proof HEADER_SIZE_val as HH.
  assert (header = ztake HEADER_SIZE (zdrop i data)) as Hh
    by (unfold header, zslice; f_equal; lia).
  pose proof (hdr_sizes_nonneg header) as [Hk Hraw].
  assert (zslice data (i + HEADER_SIZE) (i + HEADER_SIZE + n) = ztake n (zdrop HEADER_SIZE (zdrop i data))) as Hs
    by (unfold zslice; rewrite zdrop_zdrop by lia; f_equal; lia).
  assert (len (zdrop HEADER_SIZE (zdrop i data)) = len data - i - HEADER_SIZE) as Hlb
    by (rewrite !len_zdrop by lia; lia).
  assert (forall vs', decoded_value_size (hdr_value_size_raw header) (hdr_value_size_raw header =? TOMBSTONE) =
    Ok vs' <-> vs' = vs /\ vs <= MAX_VALUE_SIZE) as Hdec.
  { intros vs'. unfold decoded_value_size, vs. destruct (_ =? TOMBSTONE).
    - split; [intros E; by injection E as <-|by intros [-> _]].
    - destruct (Z.ltb_spec MAX_VALUE_SIZE (hdr_value_size_raw header)); split; try done; try lia.
      + intros E. injection E as <-. lia.
      + by intros [-> _]. }
  rewrite Hs. split.
  - intros (r & k & Hp). apply parse_elim in Hp as (_ & vs' & Hv & Hvs & Hle & Hcrc & _).
    rewrite <- Hh in *. apply Hdec in Hv as [-> Hmax]. fold n in Hle, Hcrc. split_and!; [done|lia|done].
  - intros (Hmax & Hle & Hcrc).
    destruct (parse_intro header (zdrop HEADER_SIZE (zdrop i data)) vs) as (rec & Hp & _).
    + rewrite Hh, len_ztake, len_zdrop by lia. lia.
    + by apply Hdec.
    + unfold vs. destruct (_ =? TOMBSTONE); lia.
    + fold n. lia.
    + by fold n.
    + exists rec, (frame_len rec). rewrite <- Hp, Hh, ztake_zdrop. done.
Qed.

Lemma candidate_body_hash h l data window read_start window_len i n f :
  hashed h l -> quiet f -> f_data f = data -> window_ok data window read_start window_len ->
  read_start <= i -> 0 <= n -> i + HEADER_SIZE + n <= len data -> len data <= u64_max ->
  exists h' f', (if i - read_start + HEADER_SIZE + n <=? window_len then
       let! body := slift (unwrap (get_range window (i - read_start + HEADER_SIZE)
                                    (i - read_start + HEADER_SIZE + n))) in
       sret (hasher_update h body)
     else
       let! body_file_offset := slift (ok_or (checked_add64 i HEADER_SIZE) "torn tail body offset overflow") in
       let! _ := seek body_file_offset in
       hash_exact n h "torn tail candidate") f = (Ok h', f') /\
    f_data f' = data /\ quiet f' /\
    hashed h' (l ++ zslice data (i + HEADER_SIZE) (i + HEADER_SIZE + n)).
Proof.
  intros Hh Hq Hd Hw Hi Hn Hle Hmax. pose proof HEADER_SIZE_val as HH. pose proof Hw as (Hr & _).
  destruct (Z.leb_spec (i - read_start + HEADER_SIZE + n) window_len) as [Hin|Hout].
  - rewrite (window_slice _ _ _ _ _ _ Hw) by lia. cbn [unwrap]. rewrite sbind_slift_Ok.
    eexists _, f. split; [done|]. split_and!; [done|done|].
    replace (read_start + (i - read_start + HEADER_SIZE)) with (i + HEADER_SIZE) by lia.
    replace (read_start + (i - read_start + HEADER_SIZE + n)) with (i + HEADER_SIZE + n) by lia.
    by apply hashed_update.
  - unfold checked_add64. destruct (Z.leb_spec (i + HEADER_SIZE) u64_max); [|lia].
    cbn [ok_or]. rewrite sbind_slift_Ok. unfold sbind, seek.
    assert (reads (set_pos (i + HEADER_SIZE) f) (zdrop (i + HEADER_SIZE) data)) as Hrd
      by (rewrite <- Hd; apply reads_seek; [done|lia]).
    pose proof (hash_exact_keeps n h "torn tail candidate" (set_pos (i + HEADER_SIZE) f) Hq) as Hq'.
    destruct (hash_exact_quiet n h l "torn tail candidate" _ _ Hn Hrd Hh) as (f' & Hd' & H').
    rewrite len_zdrop in H' by lia. destruct (Z.leb_spec n (Z.max 0 (len data - (i + HEADER_SIZE)))); [|lia].
    destruct H' as (h' & E & Hh' & _). rewrite E in *. exists h', f'. split; [done|].
    split_and!; [by rewrite Hd'|done|]. unfold zslice.
    by replace (i + HEADER_SIZE + n - (i + HEADER_SIZE)) with n by lia.
Qed.

Lemma probe_candidate_spec data window window_len read_start i work f :
  quiet f -> f_data f = data -> window_ok data window read_start window_len ->
  read_start <= i -> i + HEADER_SIZE <= read_start + window_len -> len data <= u64_max -> 0 <= work ->
  exists p work' f', probe_candidate window window_len read_start (len data) i work f = (Ok (p, work'), f') /\
    f_data f' = data /\ quiet f' /\ candidate_answer data i p /\ 0 <= work' <= work + (len data - i) /\
    (p = Some BudgetExceeded -> MAX_TORN_TAIL_CRC_BYTES_PER_WINDOW < work + (len data - i)).
Proof.
  intros Hq Hd Hw Hi Hend Hmax Hwork. pose proof HEADER_SIZE_val as HH.
  pose proof Hw as (Hr & Hwl & Hrw & _). unfold probe_candidate. cbv zeta.
  rewrite (window_slice _ _ _ _ _ _ Hw) by lia. cbn [unwrap]. rewrite sbind_slift_Ok.
  replace (read_start + (i - read_start)) with i by lia.
  replace (read_start + (i - read_start + HEADER_SIZE)) with (i + HEADER_SIZE) by lia.
  pose proof (record_at_iff data i ltac:(lia) ltac:(lia)) as Hiff. cbv zeta in Hiff.
  set (header := zslice data i (i + HEADER_SIZE)) in *.
  set (vs := if hdr_value_size_raw header =? TOMBSTONE then 0 else hdr_value_size_raw header) in *.
  pose proof (hdr_sizes_nonneg header) as [Hk Hraw].
  assert (0 <= vs) as Hvs0 by (unfold vs; destruct (_ =? TOMBSTONE); lia).
  assert (len header = HEADER_SIZE) as Hlh by (unfold header; rewrite len_zslice by lia; lia).
  assert (hdr_key_size header <= 65535) as Hk16.
  { assert (u16_ok (hdr_key_size header)) as Hu
      by (apply le_val_u16_ok; rewrite len_zslice by lia; lia). unfold u16_ok, u16_max in Hu. lia. }
  destruct (Z.ltb_spec MAX_VALUE_SIZE vs) as [Hbig|Hsmall].
  { eexists None, work, f. split_and!; first [done|lia|simpl; rewrite Hiff; lia]. }
  assert (MAX_VALUE_SIZE = 536870912) as HM by done. assert (u64_max = 18446744073709551615) as HU by done.
  unfold checked_add64.
  destruct (Z.leb_spec (hdr_key_size header + vs) u64_max); [|lia].
  destruct (Z.leb_spec (HEADER_SIZE + (hdr_key_size header + vs)) u64_max); [|lia].
  set (n := hdr_key_size header + vs) in *.
  destruct (Z.leb_spec (i + (HEADER_SIZE + n)) u64_max).
  2: { eexists None, work, f. split_and!; first [done|lia|simpl; rewrite Hiff; lia]. }
  destruct (Z.ltb_spec (len data) (i + (HEADER_SIZE + n))).
  { eexists None, work, f. split_and!; first [done|lia|simpl; rewrite Hiff; lia]. }
  destruct (_ || _) eqn:Hbudget.
  { eexists (Some BudgetExceeded), work, f. apply orb_prop in Hbudget as [Hb|Hb]; apply Z.ltb_lt in Hb;
      split_and!; first [done|lia]. }
  set (h0 := hasher_update hasher_new (zdrop 4 header)).
  assert (hashed h0 (zdrop 4 header)) as Hh0 by (apply (hashed_update hasher_new []), hashed_new).
  destruct (candidate_body_hash h0 (zdrop 4 header) data window read_start window_len i n f)
    as (h1 & f1 & E1 & Hd1 & Hq1 & Hh1); [done|done|done|done|lia|lia|lia|done|].
  erewrite sbind_Ok by exact E1. apply hashed_finalize in Hh1. rewrite Hh1.
  destruct (Z.eqb_spec (crc32_hash (zdrop 4 header ++ zslice data (i + HEADER_SIZE) (i + HEADER_SIZE + n)))
    (hdr_crc header)) as [Hc|Hc].
  - eexists (Some LaterRecord), _, f1. split_and!; try done; try lia.
    simpl. rewrite Hiff. split_and!; [done|lia|done].
  - eexists None, _, f1. split_and!; try done; try lia. simpl. rewrite Hiff. by intros (_ & _ & ?).
Qed.

(** What a run of candidates [from, to) may answer. *)
Definition range_answer (data : bytes) (from to work : Z) (p : option TornTailProbe) : Prop :=
  match p with
  | None => forall i, from <= i < to -> ~ record_at data i
  | Some LaterRecord => exists i, from <= i < to /\ record_at data i
  | Some BudgetExceeded => MAX_TORN_TAIL_CRC_BYTES_PER_WINDOW < work + (to - from) * (len data - from)
  | Some NoLaterRecord => False
  end.

Lemma probe_candidates_spec fuel data window window_len read_start from to work f :
  quiet f -> f_data f = data -> window_ok data window read_start window_len ->
  read_start <= from -> to + HEADER_SIZE - 1 <= read_start + window_len -> len data <= u64_max ->
  to - from <= Z.of_nat fuel -> 0 <= work ->
  exists p f', probe_candidates fuel window window_len read_start (len data) from to work f = (Ok p, f') /\
    f_data f' = data /\ quiet f' /\ range_answer data from to work p.
Proof.
  intros Hq Hd Hw. revert from work f Hq Hd.
  induction fuel as [|fuel IH]; intros from work f Hq Hd Hfrom Hto Hmax Hf Hwork; cbn [probe_candidates];
    (destruct (Z.leb_spec to from); [exists None, f; split_and!; try done; simpl; lia|]); [lia|].
  destruct (probe_candidate_spec data window window_len read_start from work f)
    as (p & work' & f1 & E1 & Hd1 & Hq1 & Hans & Hw' & Hb); [done|done|done|done|lia|done|done|].
  pose proof Hw as (_ & _ & Hrw & _). pose proof HEADER_SIZE_val as HH.
  erewrite sbind_Ok by exact E1. cbn beta iota. destruct p as [p|].
  - exists (Some p), f1. split_and!; try done. destruct p; try done; simpl.
    + exists from. split; [lia|done].
    + specialize (Hb eq_refl). nia.
  - destruct (IH (from + 1) work' f1) as (p & f2 & E2 & Hd2 & Hq2 & Hr); [done|done|lia|lia|done|lia|lia|].
    exists p, f2. split_and!; try done. destruct p as [[]|]; simpl in *; try done.
    + destruct Hr as (i & Hi & Hrec). exists i. split; [lia|done].
    + nia.
    + intros i Hi. destruct (Z.eq_dec i from) as [->|]; [done|]. apply Hr. lia.
Qed.

Lemma read_window data window start n f :
  quiet f -> f_data f = data -> 0 <= start -> 0 <= n <= len window -> start + n <= len data ->
  exists window' f', (let! _ := seek start in read_exact_into window n) f = (Ok window', f') /\
    f_data f' = data /\ quiet f' /\ len window' = len window /\ window_ok data window' start n.
Proof.
  intros Hq Hd Hs Hn Hle. unfold sbind, seek, read_exact_into.
  assert (reads (set_pos start f) (zdrop start data)) as Hr by (rewrite <- Hd; apply reads_seek; [done|lia]).
  pose proof (read_exact_keeps n (set_pos start f) Hq) as Hq'.
  destruct (read_exact_quiet n _ _ ltac:(lia) Hr) as (f' & Hd' & H'). rewrite len_zdrop in H' by lia.
  destruct (Z.leb_spec n (Z.max 0 (len data - start))); [|lia]. destruct H' as (E & _ & _).
  rewrite E in *. eexists _, f'. split; [done|].
  assert (len (ztake n (zdrop start data)) = n) as Hln by (rewrite len_ztake, len_zdrop by lia; lia).
  unfold copy_from_slice. rewrite (ztake_0 0), Hln by lia. cbn [app].
  assert (len (ztake n (zdrop start data) ++ zdrop (0 + n) window) = len window) as Hlw
    by (rewrite len_app, (len_zdrop (0 + n)), Hln by lia; lia).
  split_and!; first [by rewrite Hd'|done|rewrite ?Hlw; lia|idtac].
  split_and!; rewrite ?Hlw; try lia. by rewrite ztake_app_le, ztake_ge by lia.
Qed.

(** The chunk geometry: a window read at [chunk] covers the header of every candidate
    of the chunk. *)
Definition WINDOW : Z := TORN_TAIL_PROBE_WINDOW_BYTES.

Lemma probe_windows_spec fuel data window start chunk f :
  quiet f -> f_data f = data -> len data <= u64_max -> 0 <= start <= chunk ->
  len window = Z.min (WINDOW + (HEADER_SIZE - 1)) (len data - start) -> start + HEADER_SIZE <= len data ->
  chunk <= len data -> len data - HEADER_SIZE + 1 - chunk <= Z.of_nat fuel * WINDOW ->
  exists p f', probe_windows fuel window (len data) (len data - HEADER_SIZE) chunk f = (Ok p, f') /\
    f_data f' = data /\
    match p with
    | NoLaterRecord => forall i, chunk <= i <= len data - HEADER_SIZE -> ~ record_at data i
    | LaterRecord => exists i, chunk <= i <= len data - HEADER_SIZE /\ record_at data i
    | BudgetExceeded => MAX_TORN_TAIL_CRC_BYTES_PER_WINDOW < (len data - start) * (len data - start)
    end.
Proof.
  assert (WINDOW = 1048576) as HW by done. pose proof HEADER_SIZE_val as HH.
  assert (u64_max = 18446744073709551615) as HU by done.
  intros Hq Hd Hmax Hst. revert window chunk f Hq Hd Hst.
  induction fuel as [|fuel IH]; intros window chunk f Hq Hd Hst Hwin Hend Hch Hf; cbn [probe_windows];
    (destruct (Z.ltb_spec (len data - HEADER_SIZE) chunk);
      [exists NoLaterRecord, f; split_and!; try done; lia|]); [lia|].
  assert (Z.min (default (len data) (checked_add64 chunk (len window))) (len data) =
          Z.min (chunk + len window) (len data)) as ->.
  { unfold checked_add64. destruct (Z.leb_spec (chunk + len window) u64_max); simpl; lia. }
  set (next := default _ _).
  assert (Z.min next (len data - HEADER_SIZE + 1) = Z.min (chunk + WINDOW) (len data - HEADER_SIZE + 1)) as Hnext.
  { unfold next, checked_add64. fold WINDOW. destruct (Z.leb_spec (chunk + WINDOW) u64_max); simpl; lia. }
  rewrite Hnext. set (n := Z.min (chunk + len window) (len data) - chunk).
  destruct (read_window data window chunk n f) as (window' & f1 & E1 & Hd1 & Hq1 & Hlw & Hw);
    [done|done|lia|lia|lia|].
  rewrite sbind_assoc. erewrite sbind_Ok by exact E1. cbv zeta.
  set (stop := Z.min (chunk + WINDOW) (len data - HEADER_SIZE + 1)).
  destruct (probe_candidates_spec (Z.to_nat (stop - chunk)) data window' n chunk chunk stop 0 f1)
    as (p & f2 & E2 & Hd2 & Hq2 & Hans); [done|done|done|lia|lia|done|lia|lia|].
  erewrite sbind_Ok by exact E2. cbn beta iota. destruct p as [p|]; simpl in Hans.
  - exists p, f2. split_and!; try done. destruct p; try done.
    + destruct Hans as (i & Hi & Hrec). exists i. split; [lia|done].
    + assert (stop - chunk <= len data - start) by lia. assert (0 <= stop - chunk) by lia.
      assert (len data - chunk <= len data - start) by lia. nia.
  - destruct (Z.ltb_spec (len data - HEADER_SIZE) stop).
    { exists NoLaterRecord, f2. split_and!; try done. intros i Hi. apply Hans. lia. }
    assert (next = chunk + WINDOW) as ->.
    { unfold next, checked_add64. fold WINDOW. destruct (Z.leb_spec (chunk + WINDOW) u64_max); simpl; lia. }
    destruct (IH window' (chunk + WINDOW) f2) as (p & f3 & E3 & Hd3 & Hr); [done|done|lia|lia|lia|lia|lia|].
    exists p, f3. split_and!; try done. destruct p; try done.
    + intros i Hi. destruct (Z.lt_ge_cases i (chunk + WINDOW)); [apply Hans; lia|apply Hr; lia].
    + destruct Hr as (i & Hi & Hrec). exists i. split; [lia|done].
Qed.

Lemma probe_torn_tail_spec data start f :
  quiet f -> f_data f = data -> len data <= u64_max -> 0 <= start <= len data ->
  exists p f', probe_torn_tail start (len data) f = (Ok p, f') /\
    match p with
    | NoLaterRecord => forall i, start <= i -> ~ record_at data i
    | LaterRecord => exists i, start <= i /\ record_at data i
    | BudgetExceeded => MAX_TORN_TAIL_CRC_BYTES_PER_WINDOW < (len data - start) * (len data - start)
    end.
Proof.
  intros Hq Hd Hmax Hst. pose proof HEADER_SIZE_val as HH. unfold probe_torn_tail, checked_sub64.
  assert (forall i, 0 <= i -> len data < i + HEADER_SIZE -> ~ record_at data i) as Hshort.
  { intros i Hi0 Hi (r & n & Hp). apply parse_elim in Hp as (Hl & _).
    rewrite len_ztake, len_zdrop in Hl by lia. lia. }
  destruct (Z.leb_spec start (len data)); [|lia]. cbn [ok_or]. rewrite sbind_slift_Ok.
  destruct (Z.ltb_spec (len data - start) HEADER_SIZE).
  { exists NoLaterRecord, f. split; [done|]. intros i Hi. apply Hshort; lia. }
  cbv zeta. assert (WINDOW = 1048576) as HW by done.
  destruct (probe_windows_spec (Z.to_nat ((len data - start) / WINDOW) + 1) data
    (replicate (Z.to_nat (Z.min (WINDOW + (HEADER_SIZE - 1)) (len data - start))) x00) start start f)
    as (p & f' & E & _ & Hp); [done|done|done|lia|rewrite len_replicate; lia|lia|lia| |].
  { pose proof (Z.div_mod (len data - start) WINDOW ltac:(lia)).
    pose proof (Z.mod_pos_bound (len data - start) WINDOW ltac:(lia)).
    pose proof (Z.div_pos (len data - start) WINDOW ltac:(lia) ltac:(lia)). lia. }
  exists p, f'. split; [exact E|]. destruct p; [| |done].
  - intros i Hi. destruct (Z.le_gt_cases i (len data - HEADER_SIZE)); [apply Hp; lia|apply Hshort; lia].
  - destruct Hp as (i & Hi & Hrec). exists i. split; [lia|done].
Qed.

(** ** Recovery *)

(** No complete record starts at or after [from]. *)
Definition no_record_from (data : bytes) (from : Z) : Prop := forall i, from <= i -> ~ record_at data i.

(** Nothing interferes: no fault is pending, the lock is healthy, the path names one
    file, nobody else appends. *)
Definition undisturbed (env : RecoverEnv) (d : Disk) : Prop :=
  d_faults d = [] /\ d_poisoned d = false /\ re_same_file env = true /\
  re_foreign_scan env = [] /\ re_foreign_truncate env = [].

(** The only reasons to refuse an undisturbed file. *)
Definition unrecoverable (data : bytes) (rs : list Record_) (tail : bytes) (e : string) : Prop :=
  corrupt_tail tail \/
  truncated_tail tail /\ HEADER_SIZE <= len tail /\
  (e = ambiguous_tail (len (frames rs)) (len data) "later record candidate" /\
     (exists i, len (frames rs) <= i /\ record_at data i) \/
   e = ambiguous_tail (len (frames rs)) (len data) "probe budget exceeded" /\
     MAX_TORN_TAIL_CRC_BYTES_PER_WINDOW < len tail * len tail).

Definition recover_post (env : RecoverEnv) (d : Disk) (rs : list Record_) (tail : bytes)
    (o : result Z * Disk) : Prop :=
  match o with
  | (Ok v, d') =>
      v = len (frames rs) /\ d_data d' = frames rs /\ re_foreign_scan env = [] /\
      (tail = [] \/ truncated_tail tail /\ no_record_from (d_data d) v)
  | (Err e, d') =>
      ((exists foreign, d_data d' = d_data d ++ foreign) \/
       d_data d' = frames rs /\ truncated_tail tail /\ no_record_from (d_data d) (len (frames rs))) /\
      (undisturbed env d -> unrecoverable (d_data d) rs tail e /\ d_data d' = d_data d)
  | (Panic, _) => False
  end.

Definition steps_from (d d1 : Disk) : Prop :=
  d_data d1 = d_data d /\ d_poisoned d1 = d_poisoned d /\ (d_faults d = [] -> d_faults d1 = []).

Lemma steps_from_refl d : steps_from d d.
Proof. done. Qed.
Lemma steps_from_trans d d1 d2 : steps_from d d1 -> steps_from d1 d2 -> steps_from d d2.
Proof. intros (H1 & H2 & H3) (H4 & H5 & H6). split_and!; [congruence|congruence|auto]. Qed.

(** An error of a system call that changed nothing. *)
Lemma fault_post env d rs tail d1 d2 e :
  steps_from d d1 -> d_data d2 = d_data d1 -> d_faults d1 <> [] -> recover_post env d rs tail (Err e, d2).
Proof.
  intros (Hd & _ & Hf) Hd2 Hne. split.
  - left. exists []. by rewrite app_nil_r, Hd2.
  - intros (H0 & _). by destruct Hne; apply Hf.
Qed.

Lemma touch_step env d0 rs tail d k :
  steps_from d0 d ->
  (forall d1, steps_from d0 d1 -> recover_post env d0 rs tail (k tt d1)) ->
  recover_post env d0 rs tail (sbind sys_touch k d).
Proof.
  intros Hs Hk. unfold sbind. destruct (sys_touch d) as [r d1] eqn:E.
  apply sys_simple_spec in E as (Hp & Hpo & Hf & Hd).
  assert (d_data d1 = d_data d) as Hd' by (destruct r; done).
  destruct r as [[]|e|]; [| |done].
  - apply Hk. eapply steps_from_trans; [done|]. split_and!; [done|done|]. by intros [_ ?]%Hf.
  - eapply fault_post; [done|done|]. intros H0. destruct (Hf H0). done.
Qed.

Lemma len_step env d0 rs tail d k :
  steps_from d0 d ->
  (forall d1, steps_from d0 d1 -> recover_post env d0 rs tail (k (len (d_data d0)) d1)) ->
  recover_post env d0 rs tail (sbind sys_len k d).
Proof.
  intros Hs Hk. unfold sbind. destruct (sys_len d) as [r d1] eqn:E.
  apply sys_len_spec in E as (Hp & Hpo & Hd & Hf & Hn). pose proof Hs as (Hd0 & _ & _).
  destruct r as [n|e|]; [| |done].
  - rewrite (Hn n), Hd0 by done. apply Hk. eapply steps_from_trans; [done|].
    split_and!; [done|done|]. by intros [_ ?]%Hf.
  - eapply fault_post; [done|done|]. intros H0. destruct (Hf H0). done.
Qed.

(** The truncation, once the probe found nothing. *)
Lemma truncate_post env d0 rs tail d foreign :
  scans (d_data d0) rs tail -> truncated_tail tail -> no_record_from (d_data d0) (len (frames rs)) ->
  re_foreign_scan env = [] -> re_foreign_truncate env = foreign ->
  steps_from d0 d ->
  recover_post env d0 rs tail
    ((let! _ := foreign_append foreign in
      let! final_file_len := sys_len in
      if negb (final_file_len =? len (d_data d0))
      then serr (log_changed (len (d_data d0)) final_file_len)
      else
        let! _ := sys_set_len (len (frames rs)) in
        let! _ := sys_sync_data in
        sret (len (frames rs))) d).
Proof.
  intros Hsc Ht Hno Hfs Hft (Hd & Hpo & Hf). pose proof (scans_frames _ _ _ Hsc) as Hdata.
  unfold sbind at 1, foreign_append. set (d1 := mkDisk _ _ _). unfold sbind at 1.
  destruct (sys_len d1) as [r d2] eqn:E2.
  apply sys_len_spec in E2 as (Hp2 & Hpo2 & Hd2 & Hf2 & Hn2).
  assert (d_data d2 = d_data d0 ++ foreign) as Hd2' by (rewrite Hd2; unfold d1; simpl; by rewrite Hd).
  assert (forall e, ~ undisturbed env d0 -> recover_post env d0 rs tail (Err e, d2)) as Herr.
  { intros e Hnu. split; [left; by eexists|done]. }
  assert (d_faults d1 = [] -> r = Ok (len (d_data d1)) /\ d_faults d2 = []) as Hf1 by done.
  destruct r as [n|e|]; [| |done].
  2: { apply Herr. intros (H0 & _). destruct (Hf2 (Hf H0)). done. }
  assert (n = len (d_data d0) + len foreign) as ->
    by (rewrite (Hn2 n eq_refl); unfold d1; cbn [d_data]; by rewrite Hd, len_app).
  destruct (Z.eqb_spec (len (d_data d0) + len foreign) (len (d_data d0))) as [Heq|Hne]; cbn [negb].
  2: { apply Herr. intros (_ & _ & _ & _ & Hnil). rewrite Hnil in Hft. subst foreign.
       by rewrite len_nil, Z.add_0_r in Hne. }
  assert (foreign = []) as -> by (apply len_zero; lia). rewrite app_nil_r in Hd2'.
  unfold sbind at 1. destruct (sys_set_len (len (frames rs)) d2) as [r3 d3] eqn:E3.
  apply sys_simple_spec in E3 as (Hp3 & Hpo3 & Hf3 & Hd3).
  destruct r3 as [[]|e3|]; [| |done].
  2: { split; [left; exists []; by rewrite app_nil_r, Hd3|].
       intros (H0 & _). destruct (Hf2 (Hf H0)) as [_ H2]. destruct (Hf3 H2). done. }
  assert (d_data d3 = frames rs) as Hd3'.
  { rewrite Hd3, Hd2', Hdata, ztake_app_le, ztake_ge by lia. rewrite len_app. len_facts.
    replace (Z.to_nat _) with 0%nat by lia. by rewrite app_nil_r. }
  unfold sbind. destruct (sys_sync_data d3) as [r4 d4] eqn:E4.
  apply sys_simple_spec in E4 as (Hp4 & Hpo4 & Hf4 & Hd4).
  assert (d_data d4 = frames rs) as Hd4' by (destruct r4; congruence).
  destruct r4 as [[]|e4|]; [| |done].
  - split_and!; try done. by right.
  - split; [by right|]. intros (H0 & _). destruct (Hf2 (Hf H0)) as [_ H2]. destruct (Hf3 H2) as [_ H3].
    destruct (Hf4 H3). done.
Qed.

(** The probe step: it lets the truncation go on only when no record follows. *)
Lemma probe_step env d0 rs tail d read_file saw k :
  scans (d_data d0) rs tail -> len (d_data d0) <= u64_max -> steps_from d0 d ->
  quiet read_file -> f_data read_file = d_data d0 ->
  (saw = true -> truncated_tail tail) -> (saw = false -> tail = []) ->
  ((tail = [] \/ truncated_tail tail /\ no_record_from (d_data d0) (len (frames rs))) ->
   recover_post env d0 rs tail (k tt d)) ->
  recover_post env d0 rs tail
    (sbind (if saw && (HEADER_SIZE <=? len (d_data d0) - len (frames rs)) then
              let! probe := slift (probe_torn_tail (len (frames rs)) (len (d_data d0)) read_file).1 in
              match probe with
              | NoLaterRecord => sret tt
              | LaterRecord =>
                  serr (ambiguous_tail (len (frames rs)) (len (d_data d0)) "later record candidate")
              | BudgetExceeded =>
                  serr (ambiguous_tail (len (frames rs)) (len (d_data d0)) "probe budget exceeded")
              end
            else sret tt) k d).
Proof.
  intros Hsc Hmax (Hd & _) Hq Hrf Hsaw Hnot Hk. pose proof (scans_frames _ _ _ Hsc) as Hdata.
  assert (len (d_data d0) = len (frames rs) + len tail) as Hlen by (rewrite Hdata, len_app; done).
  pose proof HEADER_SIZE_val as HH. len_facts.
  destruct saw; [|apply Hk; left; by apply Hnot].
  destruct (Z.leb_spec HEADER_SIZE (len (d_data d0) - len (frames rs))); cbn [andb].
  - destruct (probe_torn_tail_spec (d_data d0) (len (frames rs)) read_file) as (p & f' & E & Hp);
      [done|done|done|lia|].
    rewrite E. cbn [fst]. rewrite <- sbind_assoc, sbind_slift_Ok.
    assert (forall e, unrecoverable (d_data d0) rs tail e -> recover_post env d0 rs tail (Err e, d)) as Herr.
    { intros e He. split; [left; exists []; by rewrite app_nil_r|]. intros _. by split. }
    destruct p.
    + apply Hk. right. split; [by apply Hsaw|exact Hp].
    + apply Herr. right. split_and!; [by apply Hsaw|lia|]. by left.
    + apply Herr. right. split_and!; [by apply Hsaw|lia|]. right. split; [done|].
      by replace (len (d_data d0) - len (frames rs)) with (len tail) in Hp by lia.
  - apply Hk. right. split; [by apply Hsaw|]. intros i Hi (r & n & Hp).
    apply parse_elim in Hp as (Hl & _). rewrite len_ztake, len_zdrop in Hl by lia. lia.
Qed.

(** Everything after the scan, which stopped at the end of the records. *)
Lemma after_scan_post env d rs tail read_file saw d7 :
  scans (d_data d) rs tail -> len (d_data d) <= u64_max ->
  d_data d7 = d_data d ++ re_foreign_scan env -> d_poisoned d7 = d_poisoned d ->
  (d_faults d = [] -> d_faults d7 = []) ->
  quiet read_file -> f_data read_file = d_data d ->
  (saw = true -> truncated_tail tail) -> (saw = false -> tail = []) ->
  recover_post env d rs tail
    ((let! current_file_len := sys_len in
      if negb (current_file_len =? len (d_data d)) then serr (log_changed (len (d_data d)) current_file_len) else
      if current_file_len <? len (frames rs) then
        serr ("log grew while recovering: scanned through " +:+ pretty (len (frames rs)) +:+ " bytes, expected "
              +:+ pretty current_file_len)
      else
      let! _ := (if saw && (HEADER_SIZE <=? current_file_len - len (frames rs)) then
                   let! probe := slift (probe_torn_tail (len (frames rs)) current_file_len read_file).1 in
                   match probe with
                   | NoLaterRecord => sret tt
                   | LaterRecord =>
                       serr (ambiguous_tail (len (frames rs)) current_file_len "later record candidate")
                   | BudgetExceeded =>
                       serr (ambiguous_tail (len (frames rs)) current_file_len "probe budget exceeded")
                   end
                 else sret tt) in
      if len (frames rs) <? current_file_len then
        let! _ := foreign_append (re_foreign_truncate env) in
        let! final_file_len := sys_len in
        if negb (final_file_len =? current_file_len)
        then serr (log_changed current_file_len final_file_len) else
        let! _ := sys_set_len (len (frames rs)) in
        let! _ := sys_sync_data in
        sret (len (frames rs))
      else sret (len (frames rs))) d7).
Proof.
  intros Hsc Hmax Hd7 Hp7 Hf7 Hq Hrf Hsaw Hnot. pose proof (scans_frames _ _ _ Hsc) as Hdata.
  assert (len (d_data d) = len (frames rs) + len tail) as Hlen by (rewrite Hdata, len_app; done). len_facts.
  unfold sbind at 1. destruct (sys_len d7) as [r d8] eqn:E8.
  apply sys_len_spec in E8 as (Hp8 & Hpo8 & Hd8 & Hf8 & Hn8).
  assert (forall e, ~ undisturbed env d -> recover_post env d rs tail (Err e, d8)) as Herr.
  { intros e Hnu. split; [left; eexists; by rewrite Hd8|done]. }
  destruct r as [n|e|]; [| |done].
  2: { apply Herr. intros (Hf0 & _). destruct (Hf8 (Hf7 Hf0)). done. }
  rewrite (Hn8 n eq_refl), Hd7, len_app.
  destruct (Z.eqb_spec (len (d_data d) + len (re_foreign_scan env)) (len (d_data d))) as [Heq|Hne]; cbn [negb].
  2: { apply Herr. intros (_ & _ & _ & Hnil & _). rewrite Hnil, len_nil, Z.add_0_r in Hne. done. }
  assert (re_foreign_scan env = []) as Hfs by (apply len_zero; lia).
  rewrite Hfs, app_nil_r in Hd7. rewrite Hfs, len_nil, Z.add_0_r.
  assert (steps_from d d8) as Hs8.
  { split_and!; [congruence|congruence|]. intros Hf0. by destruct (Hf8 (Hf7 Hf0)). }
  destruct (Z.ltb_spec (len (d_data d)) (len (frames rs))); [lia|].
  apply probe_step; [done..|]. intros Hgo.
  destruct (Z.ltb_spec (len (frames rs)) (len (d_data d))).
  - destruct Hgo as [->|[Htr Hno]]; [rewrite len_nil in Hlen; lia|]. by apply truncate_post.
  - assert (tail = []) as -> by (apply len_zero; lia). rewrite app_nil_r in Hdata.
    split_and!; [done| |done|by left]. destruct Hs8 as (-> & _). done.
Qed.

Lemma recover_torn_tail_spec env d rs tail :
  quiet (mkFile (d_data d) 0 (re_events env)) -> len (d_data d) <= u64_max ->
  scans (d_data d) rs tail ->
  recover_post env d rs tail (recover_torn_tail env d).
Proof.
  intros Hq Hmax Hsc. pose proof (scans_frames _ _ _ Hsc) as Hdata.
  assert (len (d_data d) = len (frames rs) + len tail) as Hlen by (rewrite Hdata, len_app; done). len_facts.
  unfold recover_torn_tail.
  apply touch_step; [done|]. intros d1 Hs1. apply touch_step; [done|]. intros d2 Hs2.
  unfold sbind at 1, sget. unfold sbind at 1, slift.
  assert (forall e d', d_data d' = d_data d -> ~ undisturbed env d -> recover_post env d rs tail (Err e, d'))
    as Herr by (intros e d' Hd' Hnu; split; [left; exists []; by rewrite app_nil_r|done]).
  destruct (d_poisoned d2) eqn:Hpo.
  { apply Herr; [apply Hs2|]. intros (_ & Hp & _). destruct Hs2 as (_ & H2 & _). congruence. }
  apply len_step; [done|]. intros d3 Hs3. apply touch_step; [done|]. intros d4 Hs4.
  apply touch_step; [done|]. intros d5 Hs5. apply touch_step; [done|]. intros d6 Hs6.
  destruct (re_same_file env) eqn:Hsame; cbn [negb].
  2: { apply Herr; [apply Hs6|]. intros (_ & _ & Hs & _). congruence. }
  unfold sbind at 1. pose proof Hs6 as (Hd6 & Hp6 & Hf6). rewrite Hd6. cbv zeta.
  set (rf := mkFile (d_data d) 0 (re_events env)) in *.
  assert (reads rf (d_data d)) as Hreads by (repeat split; [exact Hq|done|by apply zdrop_0]).
  pose proof (recover_scan_keeps (scan_fuel rf) 0 rf Hq) as Hq7.
  destruct (recover_scan_spec (scan_fuel rf) 0 rf (d_data d) rs tail) as (rf' & Hrf & Escan);
    [done|done| |lia|lia|].
  { apply (scan_fuel_enough rf 0 rs tail); [lia|]. by rewrite zdrop_0 by lia. }
  rewrite Escan in *. cbn [snd] in Hq7. unfold sbind at 1, foreign_append at 1.
  set (fs := re_foreign_scan env). set (d7 := mkDisk _ _ _). rewrite Z.add_0_l.
  assert (d_data d7 = d_data d ++ fs) as Hd7 by (unfold d7; simpl; by rewrite Hd6).
  assert (forall e, (undisturbed env d -> unrecoverable (d_data d) rs tail e) ->
    forall d', d_data d' = d_data d7 -> recover_post env d rs tail (Err e, d')) as Herr7.
  { intros e He d' Hd'. split; [left; exists fs; congruence|]. intros Hu. split; [by apply He|].
    destruct Hu as (_ & _ & _ & Hnil & _). unfold fs in Hd7. rewrite Hnil, app_nil_r in Hd7. congruence. }
  destruct (stops_cases tail (scans_stops _ _ _ Hsc)) as [->|[(e & Hpe & Hte)|(e & Hpe & Hte)]].
  - cbn [parse]. change (parse []) with (@Ok (option (Record_ * Z)) None). unfold sbind at 1.
    apply after_scan_post; try done.
  - rewrite Hpe, Hte. unfold sbind at 1. apply after_scan_post; try done.
    intros _. by exists e.
  - rewrite Hpe, Hte. unfold sbind at 1.
    apply Herr7; [|done]. intros _. left. by exists e.
Qed.

(** ** Collecting pages *)

(** The caller's loop over pages: each page starts where the previous one ended. *)
Fixpoint collect_pages (fuel : nat) (offset limit : Z) (f : File) : result (list RecordMetadata * Z) :=
  match fuel with
  | O => Panic
  | S fuel =>
      match iter_metadata_page_from_offset_tolerant offset limit f with
      | (Ok (page, next, true), _) => Ok (page, next)
      | (Ok (page, next, false), f') =>
          let? rest := collect_pages fuel next limit f' in Ok (page ++ rest.1, rest.2)
      | (Err e, _) => Err e
      | (Panic, _) => Panic
      end
  end.

Lemma iter_metadata_page_keeps offset limit : keeps_quiet (iter_metadata_page_from_offset_tolerant offset limit).
Proof.
  apply keeps_quiet_sbind; [by intros f|]. intros _ f Hq. unfold iter_metadata_page_tolerant.
  destruct (limit =? 0); [done|]. generalize (scan_fuel f) as fuel, (@nil RecordMetadata) as acc. intros fuel.
  revert offset f Hq. induction fuel as [|fuel IH]; intros offset f Hq acc; cbn [iter_metadata_page_loop];
    destruct (limit <=? len acc); try done.
  pose proof (read_next_record_metadata_keeps offset f Hq) as Hq1.
  destruct (read_next_record_metadata offset f) as [[[r|]|e|] f1]; simpl in *; try done.
  - destruct (checked_add64 _ _); [by apply IH|done].
  - by destruct (is_truncated_record e).
Qed.

(** From a record boundary on, a log is the rest of its records and the same tail. *)
Lemma scans_drop data rs tail k :
  scans data rs tail -> scans (zdrop (len (frames (take k rs))) data) (drop k rs) tail.
Proof.
  intros Hs. assert (data = frames (take k rs) ++ frames (drop k rs) ++ tail) as Hd
    by (rewrite app_assoc, <- frames_app, take_drop; by apply scans_frames).
  rewrite Hd, zdrop_app_ge, zdrop_0 by lia.
  apply scans_intro; [by eapply Forall_drop, scans_records_ok|by eapply scans_stops].
Qed.

(** One page read at a record boundary. *)
Lemma page_at_boundary f rs tail k limit :
  quiet f -> len (f_data f) <= u64_max -> scans (f_data f) rs tail -> 0 < limit ->
  exists f', f_data f' = f_data f /\
    iter_metadata_page_from_offset_tolerant (len (frames (take k rs))) limit f =
      (page_of (len (frames (take k rs))) (Z.to_nat limit) (drop k rs) tail, f').
Proof.
  intros Hq Hmax Hs Hlim. set (o := len (frames (take k rs))).
  assert (scans (zdrop o (f_data f)) (drop k rs) tail) as Hs'.
  { by apply scans_drop. }
  assert (0 <= o) as Ho by apply len_nonneg.
  unfold iter_metadata_page_from_offset_tolerant, sbind, seek, iter_metadata_page_tolerant.
  destruct (Z.eqb_spec limit 0); [lia|].
  destruct (iter_metadata_page_loop_spec (scan_fuel (set_pos o f)) [] o limit (set_pos o f)
    (zdrop o (f_data f)) (drop k rs) tail (Z.to_nat limit)) as (f' & Hd & E);
    [by apply reads_seek|done| |done| |rewrite len_nil; lia|].
  - apply (scan_fuel_enough (set_pos o f) o (drop k rs) tail); [lia|exact Hs'].
  - assert (len (f_data f) = len (frames rs) + len tail) as Hl by (rewrite (scans_frames _ _ _ Hs), len_app; done).
    assert (len (frames rs) = o + len (frames (drop k rs))) as Hl'
      by (unfold o; rewrite <- len_app, <- frames_app, take_drop; done).
    rewrite len_zdrop by lia. len_facts. lia.
  - exists f'. split; [exact Hd|]. rewrite E. destruct (page_of _ _ _ _) as [[[? ?] ?]| |]; done.
Qed.

Lemma collect_pages_spec fuel f rs tail k limit :
  quiet f -> len (f_data f) <= u64_max -> scans (f_data f) rs tail -> 0 < limit ->
  (length rs - k < fuel)%nat -> (k <= length rs)%nat ->
  collect_pages fuel (len (frames (take k rs))) limit f =
    match parse tail with
    | Err e => if is_truncated_record e
               then Ok (metadata_run (len (frames (take k rs))) (drop k rs), len (frames rs)) else Err e
    | _ => Ok (metadata_run (len (frames (take k rs))) (drop k rs), len (frames rs))
    end.
Proof.
  intros Hq Hmax Hs Hlim. revert f k Hq Hmax Hs.
  induction fuel as [|fuel IH]; intros f k Hq Hmax Hs Hf Hk; [lia|]. cbn [collect_pages].
  destruct (page_at_boundary f rs tail k limit Hq Hmax Hs Hlim) as (f' & Hd & E).
  pose proof (iter_metadata_page_keeps (len (frames (take k rs))) limit f Hq) as Hq'. rewrite E in *.
  unfold page_of. set (n := Z.to_nat limit). cbv zeta.
  assert (frames rs = frames (take k rs) ++ frames (drop k rs)) as Hsplit
    by (rewrite <- frames_app, take_drop; done).
  destruct (Nat.leb_spec n (length (drop k rs))) as [Hfull|Hlast].
  - rewrite length_drop in Hfull.
    assert (take k rs ++ take n (drop k rs) = take (k + n) rs) as Htake by apply take_take_drop.
    rewrite <- len_app, <- frames_app, Htake.
    rewrite (IH f' (k + n)%nat) by (try done; try (rewrite Hd; done); try lia; unfold n; lia).
    destruct (parse tail) as [o|e|]; [|destruct (is_truncated_record e); [|done]|];
      cbn [rbind]; do 2 f_equal;
      rewrite <- (take_drop n (drop k rs)) at 2; rewrite metadata_run_app, <- len_app, <- frames_app, Htake,
        drop_drop; done.
  - rewrite (take_ge (drop k rs)) by lia. rewrite <- len_app, <- Hsplit.
    destruct (parse tail) as [o|e|]; [done|by destruct (is_truncated_record e)|done].
Qed.

(** ** Properties *)

(** The verdict of a scan that found [out] before [tail]. *)
Definition strict_verdict {A : Type} (tail : bytes) (out : A) : result A :=
  match parse tail with Err e => Err e | _ => Ok out end.
Definition tolerant_verdict {A : Type} (tail : bytes) (out : A) : result A :=
  match parse tail with Err e => if is_truncated_record e then Ok out else Err e | _ => Ok out end.

(** C6: every log splits in exactly one way into complete records and a tail that does
    not start with one, and the scans return it: the strict scan returns all the
    records and fails when anything follows them, the tolerant scan returns them when
    nothing or a torn record follows and fails on corrupt bytes, and a scan
    started at a record boundary returns the records from there on. *)
Theorem scans_return_all_records f :
  quiet f ->
  exists rs tail, scans (f_data f) rs tail /\ f_data f = frames rs ++ tail /\
    (forall rs' tail', scans (f_data f) rs' tail' -> rs' = rs /\ tail' = tail) /\
    (iter_from_start f).1 = strict_verdict tail rs /\
    (iter_from_start_tolerant f).1 = tolerant_verdict tail rs /\
    (forall k, (iter_from_offset_tolerant (len (frames (take k rs))) f).1 = tolerant_verdict tail (drop k rs)).
Proof.
  intros Hq. destruct (scans_total (f_data f)) as (rs & tail & Hs). exists rs, tail.
  assert (forall pos rs', 0 <= pos -> scans (zdrop pos (f_data f)) rs' tail ->
    reads (set_pos pos f) (zdrop pos (f_data f)) /\ (length rs' < scan_fuel f)%nat) as Hseek.
  { intros pos rs' Hp Hs'. split; [by apply reads_seek|]. by apply (scan_fuel_enough f pos _ tail). }
  assert (scans (zdrop 0 (f_data f)) rs tail) as Hs0 by (by rewrite zdrop_0 by lia).
  destruct (Hseek 0 rs ltac:(lia) Hs0) as [Hr0 Hf0].
  split_and!; [done|by apply scans_frames|by intros rs' tail' Hs'; destruct (scans_unique _ _ _ _ _ Hs Hs')| | |].
  - unfold iter_from_start, sbind, seek.
    by destruct (iter_strict_loop_spec (scan_fuel f) [] _ _ rs tail Hr0 Hs0 Hf0) as (f' & _ & ->).
  - unfold iter_from_start_tolerant, sbind, seek.
    by destruct (iter_tolerant_loop_spec (scan_fuel f) [] _ _ rs tail Hr0 Hs0 Hf0) as (f' & _ & ->).
  - intros k. assert (scans (zdrop (len (frames (take k rs))) (f_data f)) (drop k rs) tail) as Hsk.
    { by apply scans_drop. }
    destruct (Hseek _ _ (len_nonneg _) Hsk) as [Hrk Hfk].
    unfold iter_from_offset_tolerant, sbind, seek.
    by destruct (iter_tolerant_loop_spec (scan_fuel f) [] _ _ (drop k rs) tail Hrk Hsk Hfk) as (f' & _ & ->).
Qed.

(** Reading a log page by page (whatever the page size) yields the same metadata as
    one scan, each record once and in order with its exact offset and length, and ends
    at the end of the last complete record; every page makes progress. *)
Theorem metadata_pages_complete f limit rs tail :
  quiet f -> len (f_data f) <= u64_max -> 0 < limit -> scans (f_data f) rs tail ->
  collect_pages (S (length rs)) 0 limit f = tolerant_verdict tail (metadata_run 0 rs, len (frames rs)).
Proof.
  intros Hq Hmax Hlim Hs.
  pose proof (collect_pages_spec (S (length rs)) f rs tail 0 limit Hq Hmax Hs Hlim) as H0.
  rewrite drop_0 in H0. rewrite frames_take_0 in H0. rewrite H0 by lia. done.
Qed.

(** The checkpoint digest succeeds exactly when the prefix is a whole number of
    records of the file, and it is then the SHA-256 of exactly those bytes. *)
Theorem prefix_digest_exact {H : Sha256} {LH : Sha256Laws H} f prefix digest :
  quiet f -> f_pos f = 0 -> len (f_data f) <= u64_max -> 0 <= prefix ->
  (validated_prefix_digest prefix f).1 = Ok digest <->
  prefix <= len (f_data f) /\ digest = sha256 (ztake prefix (f_data f)) /\
  exists rs, Forall record_ok rs /\ ztake prefix (f_data f) = frames rs.
Proof.
  intros Hq H0 Hmax Hp. unfold validated_prefix_digest, file_len.
  destruct (Z.ltb_spec (len (f_data f)) prefix); [split; [done|lia]|].
  destruct (scans_total (f_data f)) as (rs & tail & Hs).
  rewrite <- (prefix_boundary _ _ _ prefix Hs) by lia.
  assert (reads f (f_data f)) as Hr by (split_and!; [done|lia|by apply zdrop_0; lia]).
  destruct (validate_prefix_loop_spec (scan_fuel f) 0 prefix f (f_data f) rs tail)
    as (f1 & r & E & Hd1 & Hq1 & Hnp & Hiff); [done|done| |lia|lia|].
  { apply (scan_fuel_enough f 0 rs tail); [lia|]. by rewrite zdrop_0 by lia. }
  rewrite Z.add_0_l in Hiff || setoid_rewrite Z.add_0_l in Hiff.
  unfold sbind at 1. rewrite E. destruct r as [[]|e|]; [| |done].
  - assert (reads (set_pos 0 f1) (f_data f)) as Hr1.
    { split_and!; [by apply Hq1|done|]. simpl. rewrite Hd1. by apply zdrop_0. }
    destruct (digest_loop_spec (chunk_fuel prefix) prefix digest_new [] _ _ Hr1 digested_new)
      as (f2 & g & E2 & _ & Hg); [lia|by apply chunk_fuel_enough|].
    unfold sbind, seek. rewrite E2. apply digested_finalize in Hg. simpl in *. rewrite Hg.
    split; [intros X; injection X as <-; split_and!; [done|done|by apply Hiff]|by intros (_ & -> & _)].
  - split; [done|]. intros (_ & _ & Hk). apply Hiff in Hk. done.
Qed.

(** C1: recovery never loses a complete record.  It returns the end of the leading
    complete records and leaves exactly those in the file, and it does so only when
    nothing but a torn record follows and no complete record starts anywhere
    inside the torn bytes; a damaged record, an interfering writer or a failing system call
    makes it fail, and then the file is unchanged (except for what another process
    appended) or, when only the final sync failed, already cut at that point. *)
Theorem recovery_never_loses_records env d rs tail :
  quiet (mkFile (d_data d) 0 (re_events env)) -> len (d_data d) <= u64_max -> scans (d_data d) rs tail ->
  match recover_torn_tail env d with
  | (Ok v, d') =>
      v = len (frames rs) /\ d_data d' = frames rs /\ re_foreign_scan env = [] /\
      (tail = [] \/ truncated_tail tail /\ no_record_from (d_data d) v)
  | (Err e, d') =>
      (exists foreign, d_data d' = d_data d ++ foreign) \/
      d_data d' = frames rs /\ truncated_tail tail /\ no_record_from (d_data d) (len (frames rs))
  | (Panic, _) => False
  end.
Proof.
  intros Hq Hmax Hs. pose proof (recover_torn_tail_spec env d rs tail Hq Hmax Hs) as Hp.
  destruct (recover_torn_tail env d) as [[v|e|] d']; [done|apply Hp|done].
Qed.

(** Complete records and a proper prefix of one more: the prefix is torn, or empty. *)
Lemma interrupted_scan rs r k : Forall record_ok rs -> record_ok r -> 0 <= k < frame_len r ->
  scans (frames rs ++ ztake k (frame r)) rs (ztake k (frame r)) /\ (truncated_tail (ztake k (frame r)) \/ ztake k (frame r) = []).
Proof.
  intros Hok Hr Hk. assert (truncated_tail (ztake k (frame r)) \/ ztake k (frame r) = []) as Htail.
  { destruct (Z.eq_dec k 0) as [->|]; [right; by apply ztake_0|left; apply prefix_truncated; [done|lia]]. }
  split; [|done]. apply scans_intro; [done|]. intros r' n Hp. destruct Htail as [(e & He & _)|He]; rewrite He in Hp; done.
Qed.

Lemma scan_opens data rs tail : scans data rs tail -> reads (set_pos 0 (open_file data)) data /\ (length rs < scan_fuel (open_file data))%nat.
Proof.
  intros Hs. split; [split_and!; [constructor|done|by apply zdrop_0]|]. apply (scan_fuel_enough _ 0 _ tail); [lia|]. by rewrite zdrop_0 by lia.
Qed.

(** Without interference recovery succeeds on every log whose tail is empty or torn,
    unless a complete record is found inside the torn bytes; torn tails of up
    to 5792 bytes never exhaust the probe's checksum budget. *)
Theorem recovery_succeeds env d rs tail :
  quiet (mkFile (d_data d) 0 (re_events env)) -> len (d_data d) <= u64_max -> scans (d_data d) rs tail ->
  undisturbed env d -> tail = [] \/ truncated_tail tail ->
  no_record_from (d_data d) (len (frames rs)) -> len tail <= 5792 ->
  exists d', recover_torn_tail env d = (Ok (len (frames rs)), d') /\ d_data d' = frames rs.
Proof.
  intros Hq Hmax Hs Hu Ht Hno Hlen. pose proof (recover_torn_tail_spec env d rs tail Hq Hmax Hs) as Hp.
  destruct (recover_torn_tail env d) as [[v|e|] d']; [| |done].
  - destruct Hp as (-> & Hd & _). by exists d'.
  - exfalso. destruct Hp as [_ Hp]. destruct (proj1 (Hp Hu)) as [(e' & Hc & Hct)|(_ & _ & [(_ & i & Hi & Hrec)|[_ Hb]])].
    + destruct Ht as [->|(e'' & He & Het)]; [done|]. rewrite Hc in He. injection He as <-. congruence.
    + by apply (Hno i).
    + unfold MAX_TORN_TAIL_CRC_BYTES_PER_WINDOW in Hb. len_facts. nia.
Qed.

(** C5: a crash in the middle of an append loses nothing but the interrupted record.  The
    file holds complete records followed by any proper prefix of one more.  The tolerant scan
    returns exactly the complete records.  Recovery, when nothing interferes, cuts the file
    back to them, so that a strict scan succeeds and recovering again succeeds and changes
    nothing; it refuses, and then leaves the file alone, only when a complete record starts
    inside the torn bytes or when there are more than 5792 of them and checking them exhausts
    the budget of the probe. *)
Theorem interrupted_append_recovered env d rs r k :
  Forall record_ok rs -> record_ok r -> 0 <= k < frame_len r ->
  d_data d = frames rs ++ ztake k (frame r) -> len (d_data d) <= u64_max ->
  quiet (mkFile (d_data d) 0 (re_events env)) -> undisturbed env d ->
  (iter_from_start_tolerant (open_file (d_data d))).1 = Ok rs /\
  match recover_torn_tail env d with
  | (Ok v, d') =>
      v = len (frames rs) /\ d_data d' = frames rs /\
      (iter_from_start (open_file (d_data d'))).1 = Ok rs /\
      forall env1 d1, d_data d1 = d_data d' -> quiet (mkFile (d_data d1) 0 (re_events env1)) -> undisturbed env1 d1 ->
        exists d2, recover_torn_tail env1 d1 = (Ok v, d2) /\ d_data d2 = d_data d'
  | (Err e, d') =>
      d_data d' = d_data d /\ ((exists i, len (frames rs) <= i /\ record_at (d_data d) i) \/ 5792 < k)
  | (Panic, _) => False
  end.
Proof.
  intros Hok Hr Hk Hd Hmax Hq Hu. destruct (interrupted_scan rs r k Hok Hr Hk) as [Hs Htail]. rewrite <- Hd in Hs. split.
  - unfold iter_from_start_tolerant, sbind, seek. destruct (scan_opens _ _ _ Hs) as [Hr0 Hf0].
    destruct (iter_tolerant_loop_spec _ [] _ _ _ _ Hr0 Hs Hf0) as (f' & _ & ->). simpl.
    destruct Htail as [(e & -> & ->)| ->]; done.
  - pose proof (recover_torn_tail_spec env d _ _ Hq Hmax Hs) as Hp. destruct (recover_torn_tail env d) as [[v|e|] d']; [| |done].
    + destruct Hp as (-> & Hd' & _ & _).
      assert (scans (frames rs) rs []) as Hs' by (rewrite <- (app_nil_r (frames rs)) at 1; apply scans_intro; [done|]; by intros ? ?).
      assert (len (frames rs) <= u64_max) as Hmax' by (rewrite Hd, len_app in Hmax; len_facts; lia).
      split_and!; [done|done| |].
      * rewrite Hd'. unfold iter_from_start, sbind, seek. destruct (scan_opens _ _ _ Hs') as [Hr0 Hf0].
        by destruct (iter_strict_loop_spec _ [] _ _ _ _ Hr0 Hs' Hf0) as (f' & _ & ->).
      * intros env1 d1 E1 Hq1 Hu1. rewrite Hd' in E1. rewrite <- E1 in Hs', Hmax'. pose proof (recover_torn_tail_spec env1 d1 _ _ Hq1 Hmax' Hs') as Hp.
        destruct (recover_torn_tail env1 d1) as [[v|e|] d2]; [| |done]; [destruct Hp as (-> & ? & _); exists d2; by rewrite Hd'|].
        destruct Hp as [_ Hp]. by destruct (proj1 (Hp Hu1)) as [(e' & He & _)|((e' & He & _) & _)].
    + destruct Hp as [_ Hp]. destruct (Hp Hu) as [Hun Hd']. split; [done|]. destruct Hun as [(e' & Hc & Hct)|(_ & _ & [(_ & Hrec)|[_ Hb]])].
      * destruct Htail as [(e'' & He & Het)|He]; rewrite He in Hc; [congruence|done].
      * by left.
      * right. unfold MAX_TORN_TAIL_CRC_BYTES_PER_WINDOW in Hb. rewrite len_ztake in Hb by lia. len_facts. nia.
Qed.
End ScanSpec.

(** ** Concrete runs *)

(** The smallest model of the digest contract: the digest is the input itself. *)
Definition transparent_digest : Sha256 := {|
  Digest := bytes;
  digest_new := [];
  digest_update := fun g d => g ++ d;
  digest_finalize := fun g => g;
  sha256 := fun l => l;
|}.
#[export] Instance transparent_digest_laws : Sha256Laws transparent_digest.
Proof. refine {| digested := fun (g : @Digest transparent_digest) l => g = l |}; simpl; by intros; subst. Defined.

Definition second_record : Record_ := mkRecord 1700000000001 0 (lit "user:2") None.
Definition sample_records : list Record_ := [sample_record; second_record].
Definition sample_frames : bytes := @frames crc32_iso_hdlc sample_records.
(** Two records and 30 bytes of a third. *)
Definition torn_log : bytes := sample_frames ++ ztake 30 (@frame crc32_iso_hdlc sample_record).
Definition torn_disk : Disk := mkDisk torn_log [] false.
Definition calm_env : RecoverEnv := mkRecoverEnv [EvShort 7; EvIntr] true [] [].

Lemma sample_records_ok : Forall record_ok sample_records.
Proof. repeat constructor; vm_compute; congruence. Qed.

Lemma torn_log_scans :
  @scans crc32_iso_hdlc torn_log sample_records (ztake 30 (@frame crc32_iso_hdlc sample_record)).
Proof.
  apply (@scans_intro crc32_iso_hdlc); [apply sample_records_ok|].
  intros r n Hp. vm_compute in Hp. discriminate Hp.
Qed.

Lemma torn_tail_truncated : @truncated_tail crc32_iso_hdlc (ztake 30 (@frame crc32_iso_hdlc sample_record)).
Proof. eexists. split; vm_compute; reflexivity. Qed.

Lemma scans_return_all_records_witness :
  (@iter_from_start_tolerant crc32_iso_hdlc (sample_file torn_log)).1 = Ok sample_records.
Proof.
  destruct (@scans_return_all_records crc32_iso_hdlc crc32_iso_hdlc_laws (sample_file torn_log))
    as (rs & tail & _ & _ & Huniq & _ & Htol & _); [repeat constructor|].
  destruct (Huniq _ _ torn_log_scans) as [<- <-]. rewrite Htol. vm_compute. reflexivity.
Defined.

Lemma metadata_pages_complete_witness :
  @collect_pages crc32_iso_hdlc (S (length sample_records)) 0 1 (sample_file torn_log) = Ok (metadata_run 0 sample_records, 69).
Proof.
  rewrite (@metadata_pages_complete crc32_iso_hdlc crc32_iso_hdlc_laws (sample_file torn_log) 1 sample_records
    (ztake 30 (@frame crc32_iso_hdlc sample_record)));
    [vm_compute; reflexivity|repeat constructor|vm_compute; congruence|lia|apply torn_log_scans].
Defined.

Lemma prefix_digest_exact_witness :
  (@validated_prefix_digest crc32_iso_hdlc transparent_digest 37 (open_file torn_log)).1 =
  Ok (@frame crc32_iso_hdlc sample_record).
Proof.
  apply (@prefix_digest_exact crc32_iso_hdlc crc32_iso_hdlc_laws transparent_digest transparent_digest_laws
    (open_file torn_log) 37); [constructor|done|vm_compute; congruence|lia|].
  split_and!; [vm_compute; congruence|vm_compute; reflexivity|].
  exists [sample_record]. split; [constructor; [apply sample_record_ok|constructor]|vm_compute; reflexivity].
Defined.

Lemma recovery_never_loses_records_witness :
  exists d', @recover_torn_tail crc32_iso_hdlc calm_env torn_disk = (Ok 69, d') /\ d_data d' = sample_frames.
Proof.
  pose proof (@recovery_never_loses_records crc32_iso_hdlc crc32_iso_hdlc_laws calm_env torn_disk sample_records
    _ ltac:(repeat constructor) ltac:(vm_compute; congruence) torn_log_scans) as Hsafe.
  destruct (@recover_torn_tail crc32_iso_hdlc calm_env torn_disk) as [r d'] eqn:E.
  assert (r = Ok 69) as -> by (vm_compute in E; congruence).
  exists d'. split; [done|]. by destruct Hsafe as (_ & ? & _).
Defined.

Lemma torn_disk_no_record : @no_record_from crc32_iso_hdlc (d_data torn_disk) (len sample_frames).
Proof.
  pose proof (@recover_torn_tail_spec crc32_iso_hdlc crc32_iso_hdlc_laws calm_env torn_disk sample_records
    _ ltac:(repeat constructor) ltac:(vm_compute; congruence) torn_log_scans) as Hp.
  destruct (@recover_torn_tail crc32_iso_hdlc calm_env torn_disk) as [r d'] eqn:E.
  assert (r = Ok 69) as -> by (vm_compute in E; congruence).
  destruct Hp as (Hv & _ & _ & [Hnil|[_ Hno]]); [vm_compute in Hnil; discriminate Hnil|].
  by rewrite Hv in Hno.
Qed.

Lemma recovery_succeeds_witness :
  exists d', @recover_torn_tail crc32_iso_hdlc calm_env torn_disk = (Ok (len sample_frames), d') /\
  d_data d' = sample_frames.
Proof.
  apply (@recovery_succeeds crc32_iso_hdlc crc32_iso_hdlc_laws calm_env torn_disk sample_records
    (ztake 30 (@frame crc32_iso_hdlc sample_record))).
  - repeat constructor.
  - vm_compute; congruence.
  - apply torn_log_scans.
  - by repeat split.
  - right. apply torn_tail_truncated.
  - apply torn_disk_no_record.
  - vm_compute; congruence.
Defined.

Lemma interrupted_append_recovered_witness :
  (@iter_from_start_tolerant crc32_iso_hdlc (open_file torn_log)).1 = Ok sample_records /\
  exists d', @recover_torn_tail crc32_iso_hdlc calm_env torn_disk = (Ok 69, d') /\ d_data d' = sample_frames /\
  exists d2, @recover_torn_tail crc32_iso_hdlc calm_env (mkDisk sample_frames [] false) = (Ok 69, d2) /\ d_data d2 = d_data d'.
Proof.
  destruct (@interrupted_append_recovered crc32_iso_hdlc crc32_iso_hdlc_laws calm_env torn_disk sample_records
    sample_record 30 sample_records_ok sample_record_ok) as [Hscan Hrec];
    [vm_compute; split; congruence|done|vm_compute; congruence|repeat constructor|by repeat split|].
  split; [exact Hscan|]. destruct (@recover_torn_tail crc32_iso_hdlc calm_env torn_disk) as [r d'] eqn:E.
  assert (r = Ok 69) as -> by (vm_compute in E; congruence).
  destruct Hrec as (_ & Hd & _ & Hagain). exists d'. split_and!; [done|done|].
  apply (Hagain calm_env (mkDisk sample_frames [] false)); [by rewrite Hd|repeat constructor|by repeat split].
Defined.
