(* ===== verification/Hint.v ===== *)
(** * Hint files ([hint.rs], and the hint builders of [part_02.rs])

    A hint file holds one checksummed entry per live record of a log, without its
    value: [crc32 | file_id u64 | offset u64 | value_size u32 | expire_at_ms u64 | key_size u16 | key].

    [HintWriter] writes a temporary file and renames it over the final one on commit;
    the state is the temporary file's disk and the contents of the final path.  Pages
    of entries are read by [read_page].  [build_hint_from_log] is the loop of
    [v2_build_hint_file_from_log], [write_hint_file] that of [v2_write_hint_file].

    Theorems: the final file is replaced atomically; what was written is read back
    page by page, with progress on every page; a hint built from a log lists exactly
    its live records at their offsets. *)

From Stdlib Require Import ZArith Lia Ascii String.
From S2P Require Import Prelude Bytes Crc Files IoBackend LogFormat LogWriter LogRecover.

Definition CRC_SIZE : Z := 4.
Definition HINT_BODY_HEADER_SIZE : Z := 30.
Definition HINT_HEADER_SIZE : Z := CRC_SIZE + HINT_BODY_HEADER_SIZE.
Definition MAX_HINT_PAGE_ENTRIES : Z := 65536.
Definition MAX_HINT_PAGE_BYTES : Z := 67108864.

Record HintEntry : Type := mkHintEntry {
  he_file_id : Z;
  he_offset : Z;
  he_value_size : Z;
  he_expire_at_ms : Z;
  he_key : bytes;
}.

(** [format!("{:#010x}", z)]. *)
Definition hex_digit (z : Z) : Ascii.ascii :=
  Ascii.ascii_of_nat (Z.to_nat (if z <? 10 then 48 + z else 87 + z)).
Fixpoint hex_digits (n : nat) (z : Z) (acc : string) : string :=
  match n with O => acc | S n => hex_digits n (z / 16) (String.String (hex_digit (z mod 16)) acc) end.
Definition hex8 (z : Z) : string := "0x" +:+ hex_digits 8 z "".

(** The writer's world: the buffered temporary file and the final path ([None] when it
    does not exist). *)
Record HintFs : Type := mkHintFs {
  hf_writer : BufWriter;
  hf_tmp : Disk;
  hf_final : option bytes;
}.

Section WithCrc.
Context {C : Crc32fast}.

Definition crc32_parts (header key : bytes) : Z :=
  hasher_finalize (hasher_update (hasher_update hasher_new header) key).

Definition on_tmp {A : Type} (m : SR (BufWriter * Disk) A) : SR HintFs A := fun s =>
  match m (hf_writer s, hf_tmp s) with
  | (r, (w, d)) => (r, mkHintFs w d (hf_final s))
  end.

(** [HintWriter::open]: the temporary file is created or truncated. *)
Definition hint_open : SR HintFs unit := fun s =>
  match sys_simple (fun _ => []) (hf_tmp s) with
  | (r, d) => (r, mkHintFs (mkBufWriter [] 8192) d (hf_final s))
  end.

(** The fixed-size header of an entry, filled field by field. *)
Definition hint_header (entry : HintEntry) (key_size : Z) : bytes :=
  let header := replicate 30 x00 in
  let header := copy_from_slice header 0 (le_bytes 8 (he_file_id entry)) in
  let header := copy_from_slice header 8 (le_bytes 8 (he_offset entry)) in
  let header := copy_from_slice header 16 (le_bytes 4 (he_value_size entry)) in
  let header := copy_from_slice header 20 (le_bytes 8 (he_expire_at_ms entry)) in
  copy_from_slice header 28 (le_bytes 2 key_size).

Definition write_entry (entry : HintEntry) : SR HintFs unit :=
  let! key_size := slift (if u16_max <? len (he_key entry) then
                            Err ("hint key too large: " +:+ pretty (len (he_key entry)) +:+ " bytes (max "
                                 +:+ pretty u16_max +:+ ")")
                          else Ok (len (he_key entry))) in
  let header := hint_header entry key_size in
  let crc := crc32_parts header (he_key entry) in
  let! _ := on_tmp (bw_write_all (le_bytes 4 crc)) in
  let! _ := on_tmp (bw_write_all header) in
  on_tmp (bw_write_all (he_key entry)).

(** A system call on the temporary file. *)
Definition on_tmp_file {A : Type} (m : SR Disk A) : SR HintFs A :=
  on_tmp (fun '(w, d) => match m d with (r, d') => (r, (w, d')) end).

(** [rename_nofollow(tmp, final)]. *)
Definition rename_tmp : SR HintFs unit := fun s =>
  match sys_simple (fun data => data) (hf_tmp s) with
  | (Ok _, d) => (Ok tt, mkHintFs (hf_writer s) (mkDisk [] (d_faults d) (d_poisoned d)) (Some (d_data (hf_tmp s))))
  | (r, d) => (r, mkHintFs (hf_writer s) d (hf_final s))
  end.

Definition commit : SR HintFs unit :=
  let! _ := on_tmp bw_flush in
  let! _ := on_tmp_file sys_sync_data in
  rename_tmp.

(** [map_err(|error| error.to_string())] with the [Display] of the error types. *)
Definition hint_display (e : string) : string := "HintError: " +:+ e.
Definition log_display (e : string) : string := "LogError: " +:+ e.
Definition map_err {S A : Type} (g : string -> string) (m : SR S A) : SR S A := fun s =>
  match m s with
  | (Err e, s') => (Err (g e), s')
  | o => o
  end.

(** [Drop]: the temporary file is removed, errors are ignored. *)
Definition hint_drop (s : HintFs) : HintFs :=
  mkHintFs (hf_writer s) (mkDisk [] (d_faults (hf_tmp s)) (d_poisoned (hf_tmp s))) (hf_final s).

Fixpoint write_entries (entries : list HintEntry) : SR HintFs unit :=
  match entries with
  | [] => sret tt
  | e :: entries => let! _ := write_entry e in write_entries entries
  end.

(** [v2_write_hint_file]: the writer is dropped on every path. *)
Definition write_hint_file (entries : list HintEntry) : SR HintFs unit := map_err hint_display (fun s =>
  match hint_open s with
  | (Ok _, s) =>
      match (let! _ := write_entries entries in commit) s with
      | (r, s) => (r, hint_drop s)
      end
  | (r, s) => (r, s)
  end).

(** ** Reading *)

(** [reader.read(&mut crc_buf[..1])], retried on [EINTR]. *)
Fixpoint read_first_byte (fuel : nat) (f : File) : result (option bytes) * File :=
  match fuel with
  | O => (Panic, f)
  | S fuel =>
      match file_read 1 f with
      | (ReadOk [], f') => (Ok None, f')
      | (ReadOk bs, f') => (Ok (Some bs), f')
      | (ReadIntr, f') => read_first_byte fuel f'
      | (ReadErr m, f') => (Err m, f')
      end
  end.

Definition read_exact_map (n : Z) (wrap : string -> string) : SR File bytes := fun f =>
  match read_exact n f with
  | (ExactOk bs, f') => (Ok bs, f')
  | (ExactEof, f') => (Err (wrap eof_message), f')
  | (ExactErr m, f') => (Err (wrap m), f')
  end.

Definition hint_crc_mismatch (stored computed : Z) : string :=
  "hint entry CRC mismatch: stored=" +:+ hex8 stored +:+ ", computed=" +:+ hex8 computed.

Definition read_hint_entry : SR File (option HintEntry) := fun f =>
  (let! first := read_first_byte (length (f_events f) + 1) in
   match first with
   | None => sret None
   | Some b =>
       let! crc_tail := read_exact_map 3 (fun e => "truncated hint CRC: " +:+ e) in
       let stored_crc := le_val (b ++ crc_tail) in
       let! header := read_exact_map HINT_BODY_HEADER_SIZE (fun e => e) in
       let file_id := le_val (zslice header 0 8) in
       let offset := le_val (zslice header 8 16) in
       let value_size := le_val (zslice header 16 20) in
       let expire_at_ms := le_val (zslice header 20 28) in
       let key_size := le_val (zslice header 28 30) in
       let! key := read_exact_map key_size (fun e => e) in
       let computed_crc := crc32_parts header key in
       if computed_crc =? stored_crc
       then sret (Some (mkHintEntry file_id offset value_size expire_at_ms key))
       else serr (hint_crc_mismatch stored_crc computed_crc)
   end) f.

Fixpoint read_page_loop (fuel : nat) (entries : list HintEntry) (bytes_ max_entries max_bytes file_size : Z)
    : SR File (list HintEntry * Z * bool) := fun f =>
  if (len entries <? max_entries) && ((len entries =? 0) || (bytes_ <? max_bytes)) then
    match fuel with
    | O => (Panic, f)
    | S fuel =>
        match read_hint_entry f with
        | (Ok (Some entry), f') =>
            read_page_loop fuel (entries ++ [entry])
              (saturating_add64 bytes_ (HINT_HEADER_SIZE + len (he_key entry))) max_entries max_bytes file_size f'
        | (Ok None, f') => (Ok (entries, f_pos f', true), f')
        | (Err e, f') => (Err e, f')
        | (Panic, f') => (Panic, f')
        end
    end
  else (Ok (entries, f_pos f, file_size <=? f_pos f), f).

Definition read_page (offset max_entries max_bytes : Z) : SR File (list HintEntry * Z * bool) := fun f =>
  if (max_entries =? 0) || (max_bytes =? 0) then (Err "hint page limits must be positive", f) else
  if MAX_HINT_PAGE_ENTRIES <? max_entries then
    (Err ("hint page entries exceed maximum " +:+ pretty MAX_HINT_PAGE_ENTRIES), f)
  else if MAX_HINT_PAGE_BYTES <? max_bytes then
    (Err ("hint page bytes exceed maximum " +:+ pretty MAX_HINT_PAGE_BYTES), f)
  else
    (let! _ := seek offset in
     read_page_loop (Z.to_nat (file_len f / HINT_HEADER_SIZE) + 2) [] 0 max_entries max_bytes (file_len f)) f.

(** ** Building a hint from a sealed log *)

(** State: the log being read, and the hint writer. *)
Definition on_log {A : Type} (m : SR File A) : SR (File * HintFs) A := fun '(f, s) =>
  match m f with (r, f') => (r, (f', s)) end.
Definition on_hint {A : Type} (m : SR HintFs A) : SR (File * HintFs) A := fun '(f, s) =>
  match m s with (r, s') => (r, (f, s')) end.

Fixpoint build_hint_loop (fuel : nat) (file_id offset entry_count : Z) : SR (File * HintFs) (Z * Z) := fun s =>
  match fuel with
  | O => (Panic, s)
  | S fuel =>
      (let! r := on_log (map_err log_display (read_next_record_metadata offset)) in
       match r with
       | Some record =>
           let! offset := slift (ok_or (checked_add64 offset (md_record_size record))
                                   "hint builder offset overflow") in
           if md_is_tombstone record then build_hint_loop fuel file_id offset entry_count
           else
             let! _ := on_hint (map_err hint_display
                         (write_entry (mkHintEntry file_id (md_offset record) (md_value_size record)
                                         (md_expire_at_ms record) (md_key record)))) in
             build_hint_loop fuel file_id offset (saturating_add64 entry_count 1)
       | None =>
           let! _ := on_hint (map_err hint_display commit) in
           sret (entry_count, offset)
       end) s
  end.

Definition build_hint_from_log (file_id : Z) : SR (File * HintFs) (Z * Z) := fun '(f, s) =>
  match map_err hint_display hint_open s with
  | (Ok _, s) =>
      match build_hint_loop (scan_fuel f) file_id 0 0 (f, s) with
      | (r, (f, s)) => (r, (f, hint_drop s))
      end
  | (Err e, s) => (Err e, (f, s))
  | (Panic, s) => (Panic, (f, s))
  end.

End WithCrc.

(** ** Reference codec *)

Section Spec.
Context {C : Crc32fast} {L : Crc32fastLaws C}.

Definition hint_body_header (e : HintEntry) : bytes :=
  le_bytes 8 (he_file_id e) ++ le_bytes 8 (he_offset e) ++ le_bytes 4 (he_value_size e) ++
  le_bytes 8 (he_expire_at_ms e) ++ le_bytes 2 (len (he_key e)).
Definition hint_frame (e : HintEntry) : bytes :=
  le_bytes 4 (crc32 (hint_body_header e ++ he_key e)) ++ hint_body_header e ++ he_key e.
Definition hint_frames (es : list HintEntry) : bytes := mjoin (hint_frame <$> es).
Definition hint_frame_len (e : HintEntry) : Z := HINT_HEADER_SIZE + len (he_key e).

Definition hint_entry_ok (e : HintEntry) : Prop :=
  u64_ok (he_file_id e) /\ u64_ok (he_offset e) /\ u32_ok (he_value_size e) /\ u64_ok (he_expire_at_ms e) /\
  len (he_key e) <= u16_max.

Lemma len_hint_frame e : len (hint_frame e) = hint_frame_len e.
Proof.
  unfold hint_frame, hint_body_header, hint_frame_len, HINT_HEADER_SIZE, CRC_SIZE, HINT_BODY_HEADER_SIZE.
  rewrite !len_app, !len_le_bytes. lia.
Qed.

Lemma hint_frame_len_ge e : HINT_HEADER_SIZE <= hint_frame_len e.
Proof. unfold hint_frame_len. len_facts. lia. Qed.

Lemma HINT_HEADER_SIZE_val : HINT_HEADER_SIZE = 34.
Proof. done. Qed.

Lemma hint_frames_cons e es : hint_frames (e :: es) = hint_frame e ++ hint_frames es.
Proof. done. Qed.
Lemma hint_frames_app es1 es2 : hint_frames (es1 ++ es2) = hint_frames es1 ++ hint_frames es2.
Proof. unfold hint_frames. by rewrite fmap_app, join_app. Qed.

(** Filling the next bytes of a zeroed buffer. *)
Lemma fill_next (a src : bytes) n :
  len src <= Z.of_nat n ->
  copy_from_slice (a ++ replicate n x00) (len a) src = (a ++ src) ++ replicate (n - length src) x00.
Proof.
  intros Hn. unfold copy_from_slice. rewrite ztake_app_le, ztake_ge by lia.
  rewrite zdrop_app_ge by (len_facts; lia). rewrite <- app_assoc. do 2 f_equal.
  rewrite zdrop_drop, drop_replicate. f_equal. unfold len in *. lia.
Qed.

Lemma hint_header_spec e : hint_header e (len (he_key e)) = hint_body_header e.
Proof.
  unfold hint_header, hint_body_header. cbv zeta.
  assert (forall (a : bytes) n i z k, len a = i -> (k <= n)%nat ->
    copy_from_slice (a ++ replicate n x00) i (le_bytes k z) = (a ++ le_bytes k z) ++ replicate (n - k) x00) as Hf.
  { intros a n i z k <- Hk. rewrite fill_next; [|rewrite len_le_bytes; lia]. do 2 f_equal.
    pose proof (len_le_bytes k z) as Hl. unfold len in Hl. lia. }
  pose proof (Hf [] 30%nat 0 (he_file_id e) 8%nat) as H1. cbn [app] in H1.
  rewrite H1 by (done || lia). rewrite (Hf _ _ 8), (Hf _ _ 16), (Hf _ _ 20), (Hf _ _ 28)
    by (rewrite ?len_app, ?len_le_bytes; lia).
  simpl replicate. rewrite app_nil_r. by rewrite <- !app_assoc.
Qed.

Lemma crc32_parts_spec header key : crc32_parts header key = crc32 (header ++ key).
Proof.
  unfold crc32_parts. apply hashed_finalize, hashed_update. rewrite <- (app_nil_l header).
  apply hashed_update, hashed_new.
Qed.

(** *** Writing *)

(** What the temporary file will hold once the buffer is flushed. *)
Definition tmp_content (s : HintFs) : bytes := d_data (hf_tmp s) ++ bw_buf (hf_writer s).

Definition tmp_clean (s : HintFs) : Prop := d_faults (hf_tmp s) = [].

(** A step of the writer that adds [data]: it keeps the final file, fails only on a
    fault, and on success extends the content by exactly [data]. *)
Definition hint_adds (m : SR HintFs unit) (data : bytes) : Prop :=
  forall s r s', m s = (r, s') ->
  r <> Panic /\ hf_final s' = hf_final s /\ (tmp_clean s -> r = Ok tt /\ tmp_clean s') /\
  (r = Ok tt -> tmp_content s' = tmp_content s ++ data).

Lemma hint_adds_sbind m1 m2 d1 d2 :
  hint_adds m1 d1 -> hint_adds m2 d2 -> hint_adds (sbind m1 (fun _ => m2)) (d1 ++ d2).
Proof.
  intros H1 H2 s r s' E. unfold sbind in E. destruct (m1 s) as [r1 s1] eqn:E1.
  destruct (H1 _ _ _ E1) as (Hp1 & Hf1 & Hl1 & Hc1).
  destruct r1 as [[]|e|]; [| |done].
  - destruct (H2 _ _ _ E) as (Hp2 & Hf2 & Hl2 & Hc2). split_and!; [done|congruence| |].
    { intros Hcl. destruct (Hl1 Hcl) as [_ Hcl1]. by apply Hl2. }
    intros Hok. rewrite (Hc2 Hok), (Hc1 eq_refl). by rewrite app_assoc.
  - simplify_eq. split_and!; [done|done| |done]. intros Hcl. destruct (Hl1 Hcl). done.
Qed.

Lemma write_all_adds data : hint_adds (on_tmp (bw_write_all data)) data.
Proof.
  intros [w d fin] r s' E. unfold on_tmp in E. cbn [hf_writer hf_tmp hf_final] in E.
  destruct (bw_write_all data (w, d)) as [r1 [w1 d1]] eqn:E1. simplify_eq.
  apply bw_write_all_spec in E1 as (Hp & _ & _ & Hf & out & Hd & _ & Ho). unfold tmp_clean, tmp_content; simpl.
  split_and!; [done|done|done|]. intros Hr. rewrite Hd, <- app_assoc, (Ho Hr). by rewrite app_assoc.
Qed.

Lemma write_entry_adds e : len (he_key e) <= u16_max -> hint_adds (write_entry e) (hint_frame e).
Proof.
  intros Hk. unfold write_entry. destruct (Z.ltb_spec u16_max (len (he_key e))); [lia|].
  intros s r s' E. rewrite sbind_slift_Ok in E. cbv zeta in E. revert s r s' E.
  rewrite hint_header_spec, crc32_parts_spec. unfold hint_frame.
  repeat apply hint_adds_sbind; apply write_all_adds.
Qed.

Lemma write_entry_large e s : u16_max < len (he_key e) -> exists m, write_entry e s = (Err m, s).
Proof.
  intros Hk. unfold write_entry. destruct (Z.ltb_spec u16_max (len (he_key e))); [|lia]. by eexists.
Qed.

Lemma write_entries_adds es :
  Forall (fun e => len (he_key e) <= u16_max) es -> hint_adds (write_entries es) (hint_frames es).
Proof.
  induction 1 as [|e es He Hes IH]; simpl.
  - intros s r s' E. injection E as <- <-. split_and!; try done. intros _.
    unfold hint_frames; simpl. by rewrite app_nil_r.
  - rewrite hint_frames_cons. apply hint_adds_sbind; [by apply write_entry_adds|done].
Qed.

Lemma write_entries_large es s :
  ~ Forall (fun e => len (he_key e) <= u16_max) es ->
  exists m s', write_entries es s = (Err m, s') /\ hf_final s' = hf_final s.
Proof.
  revert s. induction es as [|e es IH]; intros s Hn; [by destruct Hn|]. simpl. unfold sbind.
  destruct (Z.le_gt_cases (len (he_key e)) u16_max) as [Hk|Hk].
  - destruct (write_entry e s) as [r1 s1] eqn:E1.
    destruct (write_entry_adds e Hk _ _ _ E1) as (Hp & Hf & _). destruct r1 as [[]|m|]; [|by eauto|done].
    destruct (IH s1) as (m & s' & -> & Hf'); [by intros Hes; destruct Hn; constructor|].
    exists m, s'. split; [done|congruence].
  - destruct (write_entry_large e s Hk) as (m & ->). by exists m, s.
Qed.

Lemma commit_spec s r s' :
  commit s = (r, s') ->
  r <> Panic /\ (tmp_clean s -> r = Ok tt) /\
  hf_final s' = (if r is Ok _ then Some (tmp_content s) else hf_final s).
Proof.
  intros E. unfold commit, sbind in E. destruct s as [w d fin]. unfold on_tmp_file, on_tmp in E.
  cbn [hf_writer hf_tmp hf_final] in E.
  destruct (bw_flush (w, d)) as [r1 [w1 d1]] eqn:E1.
  apply bw_flush_spec in E1 as (Hp1 & _ & _ & Hf1 & out & Hd1 & _ & Ho1). unfold tmp_clean, tmp_content; simpl.
  destruct r1 as [[]|e|]; [| |done]; [|simplify_eq; split_and!; try done; intros Hcl; by destruct (Hf1 Hcl)].
  destruct (Ho1 eq_refl) as [-> _]. unfold sys_sync_data in E. cbn [hf_writer hf_tmp hf_final] in E.
  destruct (sys_simple (fun data => data) d1) as [r2 d2] eqn:E2.
  apply sys_simple_spec in E2 as (Hp2 & _ & Hf2 & Hd2).
  destruct r2 as [[]|e|]; [| |done];
    [|simplify_eq; split_and!; try done; intros Hcl; destruct (Hf1 Hcl) as [_ Hcl1]; by destruct (Hf2 Hcl1)].
  unfold rename_tmp in E. cbn [hf_writer hf_tmp hf_final] in E.
  destruct (sys_simple (fun data => data) d2) as [r3 d3] eqn:E3.
  apply sys_simple_spec in E3 as (Hp3 & _ & Hf3 & Hd3).
  destruct r3 as [[]|e|]; simplify_eq; split_and!; try done.
  - simpl. congruence.
  - intros Hcl. destruct (Hf1 Hcl) as [_ Hcl1]. destruct (Hf2 Hcl1) as [_ Hcl2]. by destruct (Hf3 Hcl2).
Qed.

(** *** Reading *)

Definition parse_hint (rest : bytes) : result (option (HintEntry * Z)) :=
  if len rest =? 0 then Ok None else
  if len rest <? CRC_SIZE then Err ("truncated hint CRC: " +:+ eof_message) else
  if len rest <? HINT_HEADER_SIZE then Err eof_message else
  let header := zslice rest 4 34 in
  let key_size := le_val (zslice header 28 30) in
  if len rest <? HINT_HEADER_SIZE + key_size then Err eof_message else
  let key := zslice rest 34 (34 + key_size) in
  let stored_crc := le_val (zslice rest 0 4) in
  let computed_crc := crc32 (header ++ key) in
  if computed_crc =? stored_crc then
    Ok (Some (mkHintEntry (le_val (zslice header 0 8)) (le_val (zslice header 8 16))
                (le_val (zslice header 16 20)) (le_val (zslice header 20 28)) key, HINT_HEADER_SIZE + key_size))
  else Err (hint_crc_mismatch stored_crc computed_crc).

Lemma parse_hint_frame e rest :
  hint_entry_ok e -> parse_hint (hint_frame e ++ rest) = Ok (Some (e, hint_frame_len e)).
Proof.
  intros (Hf & Ho & Hv & He & Hk). pose proof (len_hint_frame e) as Hl. pose proof (hint_frame_len_ge e) as Hge.
  pose proof HINT_HEADER_SIZE_val as HH. assert (CRC_SIZE = 4) as HC by done.
  unfold parse_hint. rewrite len_app, Hl. len_facts.
  destruct (Z.eqb_spec (hint_frame_len e + len rest) 0); [lia|].
  destruct (Z.ltb_spec (hint_frame_len e + len rest) CRC_SIZE); [lia|].
  destruct (Z.ltb_spec (hint_frame_len e + len rest) HINT_HEADER_SIZE); [lia|].
  set (crc := le_bytes 4 (crc32 (hint_body_header e ++ he_key e))).
  set (fid := le_bytes 8 (he_file_id e)). set (off := le_bytes 8 (he_offset e)).
  set (vs := le_bytes 4 (he_value_size e)). set (ex := le_bytes 8 (he_expire_at_ms e)).
  set (ks := le_bytes 2 (len (he_key e))).
  assert (len crc = 4 /\ len fid = 8 /\ len off = 8 /\ len vs = 4 /\ len ex = 8 /\ len ks = 2)
    as (? & ? & ? & ? & ? & ?) by (unfold crc, fid, off, vs, ex, ks; by rewrite !len_le_bytes).
  assert (hint_frame e ++ rest = crc ++ (fid ++ off ++ vs ++ ex ++ ks) ++ he_key e ++ rest) as ->
    by (unfold hint_frame, hint_body_header; by rewrite <- !app_assoc).
  assert (zslice (crc ++ (fid ++ off ++ vs ++ ex ++ ks) ++ he_key e ++ rest) 4 34 = fid ++ off ++ vs ++ ex ++ ks)
    as -> by (by zslices).
  assert (le_val (zslice (fid ++ off ++ vs ++ ex ++ ks) 28 30) = len (he_key e)) as ->
    by (zslices; apply le_val_u16; unfold u16_ok; lia).
  cbv zeta. destruct (Z.ltb_spec (hint_frame_len e + len rest) (HINT_HEADER_SIZE + len (he_key e)));
    [unfold hint_frame_len in *; lia|].
  assert (zslice (crc ++ (fid ++ off ++ vs ++ ex ++ ks) ++ he_key e ++ rest) 34 (34 + len (he_key e)) = he_key e)
    as -> by (by zslices).
  assert (zslice (crc ++ (fid ++ off ++ vs ++ ex ++ ks) ++ he_key e ++ rest) 0 4 = crc) as -> by (by zslices).
  unfold crc. rewrite le_val_u32 by apply crc32_hash_u32. fold (hint_body_header e).
  rewrite Z.eqb_refl. unfold fid, off, vs, ex, ks.
  do 3 f_equal. destruct e as [a b c d k]; simpl in *. f_equal; zslices; by apply le_val_u64 || by apply le_val_u32.
Qed.

Lemma read_first_byte_quiet fuel f rest :
  reads f rest -> (length (f_events f) < fuel)%nat ->
  exists f', f_data f' = f_data f /\
    if len rest =? 0 then read_first_byte fuel f = (Ok None, f') /\ reads f' [] /\ f_pos f' = f_pos f
    else read_first_byte fuel f = (Ok (Some (ztake 1 rest)), f') /\ reads f' (zdrop 1 rest) /\
         f_pos f' = f_pos f + 1.
Proof.
  revert f. induction fuel as [|fuel IH]; intros f Hr Hf; [lia|]. cbn [read_first_byte].
  destruct (file_read_quiet 1 f rest ltac:(lia) Hr)
    as [(f' & -> & Hr' & Hd & Hp' & Hlt)|(k & f' & Hk & -> & Hr' & Hd & Hp' & _)].
  - destruct (IH f' Hr' ltac:(lia)) as (f'' & Hd'' & Hcase). exists f''. split; [congruence|].
    by rewrite <- Hp'.
  - assert (k = 1) as -> by lia. exists f'. split; [done|].
    destruct (Z.eqb_spec (len rest) 0) as [H0|H0].
    + apply len_zero in H0 as ->. rewrite ztake_nil, zdrop_nil, len_nil, Z.add_0_r in *. done.
    + assert (len (ztake 1 rest) = 1) as Hl by (rewrite len_ztake by lia; len_facts; lia).
      destruct (ztake 1 rest) as [|b bs]; [by rewrite len_nil in Hl|]. split_and!; [done|done|lia].
Qed.

Lemma read_exact_map_quiet n wrap f rest :
  0 <= n -> reads f rest ->
  exists f', f_data f' = f_data f /\
    if len rest <? n then read_exact_map n wrap f = (Err (wrap eof_message), f')
    else read_exact_map n wrap f = (Ok (ztake n rest), f') /\ reads f' (zdrop n rest) /\ f_pos f' = f_pos f + n.
Proof.
  intros Hn Hr. destruct (read_exact_quiet n f rest Hn Hr) as (f' & Hd & H'). exists f'. split; [done|].
  rewrite Z.ltb_antisym. unfold read_exact_map. destruct (n <=? len rest); simpl.
  - destruct H' as (-> & ? & ?). done.
  - by rewrite H'.
Qed.

Lemma read_hint_entry_computes f rest : reads f rest -> computes read_hint_entry (parse_hint rest) f rest.
Proof.
  intros Hr. unfold computes, parse_hint, read_hint_entry.
  pose proof HINT_HEADER_SIZE_val as HH. assert (CRC_SIZE = 4 /\ HINT_BODY_HEADER_SIZE = 30) as [HC HB] by done.
  destruct (read_first_byte_quiet (length (f_events f) + 1) f rest Hr ltac:(lia)) as (f1 & Hd1 & R1).
  destruct (Z.eqb_spec (len rest) 0).
  { destruct R1 as (R1 & Hr1 & _). exists f1. split; [done|]. by erewrite sbind_Ok by exact R1. }
  destruct R1 as (R1 & Hr1 & Hp1). erewrite sbind_Ok by exact R1. cbv iota. len_facts.
  destruct (read_exact_map_quiet 3 (fun e => "truncated hint CRC: " +:+ e) f1 _ ltac:(lia) Hr1)
    as (f2 & Hd2 & R2). rewrite len_zdrop in R2 by lia.
  destruct (Z.ltb_spec (len rest) CRC_SIZE); destruct (Z.ltb_spec (Z.max 0 (len rest - 1)) 3); try lia.
  { exists f2. split; [congruence|]. by erewrite sbind_Err by exact R2. }
  destruct R2 as (R2 & Hr2 & Hp2). erewrite sbind_Ok by exact R2. rewrite zdrop_zdrop in Hr2 by lia.
  destruct (read_exact_map_quiet HINT_BODY_HEADER_SIZE (fun e => e) f2 _ ltac:(lia) Hr2) as (f3 & Hd3 & R3).
  rewrite len_zdrop in R3 by lia.
  destruct (Z.ltb_spec (len rest) HINT_HEADER_SIZE);
    destruct (Z.ltb_spec (Z.max 0 (len rest - (1 + 3))) HINT_BODY_HEADER_SIZE); try lia.
  { exists f3. split; [congruence|]. by erewrite sbind_Err by exact R3. }
  destruct R3 as (R3 & Hr3 & Hp3). erewrite sbind_Ok by exact R3. rewrite zdrop_zdrop in Hr3 by lia.
  cbv zeta. change (ztake HINT_BODY_HEADER_SIZE (zdrop (1 + 3) rest)) with (zslice rest 4 34).
  set (header := zslice rest 4 34). set (ks := le_val (zslice header 28 30)).
  assert (0 <= ks) as Hks by apply le_val_range.
  destruct (read_exact_map_quiet ks (fun e => e) f3 _ Hks Hr3) as (f4 & Hd4 & R4). rewrite len_zdrop in R4 by lia.
  destruct (Z.ltb_spec (len rest) (HINT_HEADER_SIZE + ks));
    destruct (Z.ltb_spec (Z.max 0 (len rest - (1 + 3 + HINT_BODY_HEADER_SIZE))) ks); try lia.
  { exists f4. split; [congruence|]. by erewrite sbind_Err by exact R4. }
  destruct R4 as (R4 & Hr4 & Hp4). erewrite sbind_Ok by exact R4.
  exists f4. split; [congruence|]. rewrite crc32_parts_spec.
  assert (ztake ks (zdrop (1 + 3 + HINT_BODY_HEADER_SIZE) rest) = zslice rest 34 (34 + ks)) as ->
    by (unfold zslice; by replace (34 + ks - 34) with ks by lia).
  assert (ztake 1 rest ++ ztake 3 (zdrop 1 rest) = zslice rest 0 4) as ->
    by (rewrite ztake_split by lia; unfold zslice; by rewrite zdrop_0 by lia).
  destruct (_ =? le_val (zslice rest 0 4)); [|done]. split_and!; [done| |lia].
  rewrite zdrop_zdrop in Hr4 by lia. by rewrite HH.
Qed.

(** *** Pages *)

(** How many entries a page takes when [n] entries and [bytes_] bytes are already in it. *)
Fixpoint page_count (n bytes_ max_entries max_bytes : Z) (es : list HintEntry) : nat :=
  if (n <? max_entries) && ((n =? 0) || (bytes_ <? max_bytes)) then
    match es with
    | [] => O
    | e :: es =>
        S (page_count (n + 1) (saturating_add64 bytes_ (HINT_HEADER_SIZE + len (he_key e)))
             max_entries max_bytes es)
    end
  else O.

Lemma page_count_bounds n bytes_ me mb es :
  0 <= n -> (page_count n bytes_ me mb es <= length es)%nat /\
  Z.of_nat (page_count n bytes_ me mb es) <= Z.max 0 (me - n).
Proof.
  revert n bytes_. induction es as [|e es IH]; intros n bytes_ Hn; simpl;
    destruct (Z.ltb_spec n me); simpl; try lia; [destruct (_ || _); lia|].
  destruct (_ || _); [|lia].
  destruct (IH (n + 1) (saturating_add64 bytes_ (HINT_HEADER_SIZE + len (he_key e))) ltac:(lia)). lia.
Qed.

Lemma page_count_progress me mb e es : 0 < me -> (0 < page_count 0 0 me mb (e :: es))%nat.
Proof. intros H. simpl. destruct (Z.ltb_spec 0 me); [simpl; lia|lia]. Qed.

Lemma len_hint_frames_nonneg es : es <> [] -> 0 < len (hint_frames es).
Proof.
  destruct es as [|e es]; [done|]. intros _. rewrite hint_frames_cons, len_app, len_hint_frame.
  pose proof (hint_frame_len_ge e). pose proof HINT_HEADER_SIZE_val. len_facts. lia.
Qed.

Lemma read_hint_entry_eof f :
  reads f [] -> exists f', read_hint_entry f = (Ok None, f') /\ f_data f' = f_data f /\ f_pos f' = f_pos f.
Proof.
  intros Hr. unfold read_hint_entry.
  destruct (read_first_byte_quiet (length (f_events f) + 1) f [] Hr ltac:(lia)) as (f1 & Hd1 & E1).
  change (len (@nil byte) =? 0) with true in E1. destruct E1 as (E1 & _ & Hp). exists f1.
  erewrite sbind_Ok by exact E1. done.
Qed.

Lemma read_page_loop_spec fuel acc bytes_ me mb file_size f es :
  reads f (hint_frames es) -> Forall hint_entry_ok es -> (length es < fuel)%nat ->
  file_size = f_pos f + len (hint_frames es) ->
  let k := page_count (len acc) bytes_ me mb es in
  exists f', f_data f' = f_data f /\
    read_page_loop fuel acc bytes_ me mb file_size f =
      (Ok (acc ++ take k es, f_pos f + len (hint_frames (take k es)), (k =? length es)%nat), f').
Proof.
  revert acc bytes_ f es. induction fuel as [|fuel IH]; intros acc bytes_ f es Hr Hok Hf Hsz; [lia|].
  cbn [read_page_loop]. destruct es as [|e es]; cbn [page_count]; destruct (_ && _) eqn:Hcond; cbv zeta.
  - destruct (read_hint_entry_eof f Hr) as (f1 & -> & Hd1 & Hp1). exists f1. split; [done|].
    change (len (hint_frames (take 0 []))) with 0. by rewrite Hp1, Z.add_0_r, app_nil_r.
  - exists f. split; [done|]. change (len (hint_frames [])) with 0 in Hsz.
    change (len (hint_frames (take 0 []))) with 0. rewrite Hsz, Z.add_0_r, app_nil_r, Z.leb_refl. done.
  - inversion Hok as [|? ? He Hes]; subst.
    destruct (read_hint_entry_computes f _ Hr) as (f1 & Hd1 & E1).
    rewrite hint_frames_cons, parse_hint_frame in E1 by done. destruct E1 as (-> & Hr1 & Hp1).
    rewrite zdrop_app_ge, zdrop_0 in Hr1 by (rewrite len_hint_frame; lia).
    destruct (IH (acc ++ [e]) (saturating_add64 bytes_ (HINT_HEADER_SIZE + len (he_key e))) f1 es)
      as (f2 & Hd2 & E2); [done|done|simpl in *; lia| |].
    { rewrite Hp1, hint_frames_cons, len_app, len_hint_frame. lia. }
    rewrite E2. exists f2. split; [congruence|].
    assert (len (acc ++ [e]) = len acc + 1) as -> by (rewrite len_app; done).
    set (k := page_count _ _ _ _ es). cbn [take length Nat.eqb].
    rewrite hint_frames_cons, len_app, len_hint_frame, Hp1, <- app_assoc. cbn [app].
    do 4 f_equal. lia.
  - exists f. split; [done|]. change (len (hint_frames (take 0 (e :: es)))) with 0.
    rewrite Hsz, Z.add_0_r. cbn [take]. rewrite app_nil_r. pose proof (len_hint_frames_nonneg (e :: es) ltac:(done)).
    destruct (Z.leb_spec (f_pos f + len (hint_frames (e :: es))) (f_pos f)); [lia|done].
Qed.

(** *** Hints of a log *)

(** The entries of the live records of a log, in order. *)
Fixpoint live_hints (file_id offset : Z) (rs : list Record_) : list HintEntry :=
  match rs with
  | [] => []
  | r :: rs =>
      match value r with
      | Some v => mkHintEntry file_id offset (len v) (expire_at_ms r) (key r)
                    :: live_hints file_id (offset + frame_len r) rs
      | None => live_hints file_id (offset + frame_len r) rs
      end
  end.

Lemma live_hints_count file_id offset rs : (length (live_hints file_id offset rs) <= length rs)%nat.
Proof.
  revert offset. induction rs as [|r rs IH]; intros offset; simpl; [done|].
  specialize (IH (offset + frame_len r)). destruct (value r); simpl; lia.
Qed.

Lemma live_hints_keys file_id offset rs :
  Forall record_ok rs -> Forall (fun e => len (he_key e) <= u16_max) (live_hints file_id offset rs).
Proof.
  intros Hok. revert offset. induction Hok as [|r rs (_ & _ & Hk & _) Hrs IH]; intros offset; simpl; [constructor|].
  destruct (value r); [constructor; [done|]|]; apply IH.
Qed.

Lemma live_hints_describe file_id data pre rs tail :
  Forall record_ok rs -> data = pre ++ frames rs ++ tail ->
  Forall (fun e => exists r v, stored_at data (he_offset e) r /\ value r = Some v /\ he_file_id e = file_id /\
            he_key e = key r /\ he_value_size e = len v /\ he_expire_at_ms e = expire_at_ms r)
    (live_hints file_id (len pre) rs).
Proof.
  intros Hok. revert pre. induction Hok as [|r rs Hr Hrs IH]; intros pre Hd; simpl; [constructor|].
  rewrite frames_cons in Hd.
  assert (Forall (fun e => exists r v, stored_at data (he_offset e) r /\ value r = Some v /\ he_file_id e = file_id /\
            he_key e = key r /\ he_value_size e = len v /\ he_expire_at_ms e = expire_at_ms r)
    (live_hints file_id (len pre + frame_len r) rs)) as Hrest.
  { rewrite <- (len_frame r), <- len_app. apply IH. by rewrite Hd, <- !app_assoc. }
  destruct (value r) as [v|] eqn:Ev; [constructor|]; [|done..].
  exists r, v. simpl. split_and!; try done. split; [apply len_nonneg|].
  rewrite Hd, zdrop_app_ge, zdrop_0, <- app_assoc by lia. by apply parse_frame_app.
Qed.

(** The builder, from a record boundary on. *)
Lemma build_hint_loop_spec fuel file_id offset count f rest rs tail s r f' s' :
  reads f rest -> scans rest rs tail -> (length rs < fuel)%nat -> 0 <= offset ->
  offset + len rest <= u64_max -> 0 <= count -> count + Z.of_nat (length rs) <= u64_max ->
  build_hint_loop fuel file_id offset count (f, s) = (r, (f', s')) ->
  r <> Panic /\
  (forall n e, r = Ok (n, e) ->
     tail = [] /\ e = offset + len rest /\
     n = count + Z.of_nat (length (live_hints file_id offset rs)) /\
     hf_final s' = Some (tmp_content s ++ hint_frames (live_hints file_id offset rs))) /\
  (forall e, r = Err e -> hf_final s' = hf_final s /\ (tmp_clean s -> tail <> [])).
Proof.
  intros Hr Hs. revert fuel offset count f s Hr.
  induction Hs as [rest Hst|rec rest rs tail Hok Hs IH]; intros fuel offset count f s Hr Hf Ho Hle Hc0 Hc E;
    (destruct fuel as [|fuel]; [simpl in *; lia|]); cbn [build_hint_loop] in E;
    unfold sbind at 1 in E; unfold on_log, map_err in E;
    destruct (read_next_record_metadata_computes offset f _ Hr) as (f1 & Hd1 & E1); unfold parse_metadata in E1.
  - destruct (parse rest) as [[[r0 n]|]|e|] eqn:Ep; [by destruct (Hst _ _ Ep)| | |done]; simpl in E1.
    + apply parse_none in Ep as ->. destruct E1 as [E1 _]. rewrite E1 in E. unfold sbind, on_hint, sret in E.
      destruct (commit s) as [r2 s2] eqn:E2. apply commit_spec in E2 as (Hp2 & Hl2 & Hf2).
      destruct r2 as [[]|e|]; [| |by destruct Hp2]; simplify_eq; (split; [done|]); split; intros; simplify_eq.
      * split_and!; [done|rewrite len_nil; lia|simpl; lia|]. unfold hint_frames; simpl. by rewrite app_nil_r.
      * split; [done|]. intros Hcl. by specialize (Hl2 Hcl).
    + rewrite E1 in E. simplify_eq. split; [done|]. split; intros; simplify_eq. split; [done|].
      intros _ ->. done.
  - rewrite parse_frame_app in E1 by done. cbn [rbind] in E1. destruct E1 as (E1 & Hr1 & _). rewrite E1 in E.
    rewrite zdrop_app_ge, zdrop_0 in Hr1 by (rewrite len_frame; lia).
    rewrite len_app, len_frame in *. pose proof (frame_len_ge rec). pose proof HEADER_SIZE_val. len_facts.
    cbn [md_record_size metadata_of md_is_tombstone md_offset md_value_size md_expire_at_ms md_key] in E.
    unfold checked_add64 in E. destruct (Z.leb_spec (offset + frame_len rec) u64_max); [|lia].
    cbn [ok_or] in E. rewrite sbind_slift_Ok in E. cbn [live_hints length] in *.
    destruct (value rec) as [v|] eqn:Ev.
    + cbn [default] in E. unfold sbind at 1, on_hint in E. unfold id in E.
      set (he := mkHintEntry file_id offset (len v) (expire_at_ms rec) (key rec)) in *.
      destruct (write_entry he s) as [r2 s2] eqn:E2.
      destruct (write_entry_adds he ltac:(apply Hok) _ _ _ E2) as (Hp2 & Hf2 & Hl2 & Hc2).
      destruct r2 as [[]|e|]; [| |done].
      * apply IH in E as (Hp & HOk & HErr); [|done|simpl in *; lia|lia|lia|unfold saturating_add64; lia
          |unfold saturating_add64; lia].
        split; [done|]. split.
        -- intros n e' He. destruct (HOk n e' He) as (-> & -> & Hn & Hfin). split_and!; [done|lia| |].
           ++ rewrite Hn. unfold saturating_add64. simpl. lia.
           ++ rewrite Hfin, (Hc2 eq_refl), hint_frames_cons, app_assoc. done.
        -- intros e' He. destruct (HErr e' He) as [Hfin Hcl]. split; [congruence|].
           intros Hs0. apply Hcl. by apply Hl2.
      * simplify_eq. split; [done|]. split; intros; simplify_eq. split; [done|].
        intros Hcl. by destruct (Hl2 Hcl).
    + apply IH in E as (Hp & HOk & HErr); [|done|simpl in *; lia|lia|lia|lia|simpl in *; lia].
      split; [done|]. split; [|done]. intros n e' He. destruct (HOk n e' He) as (-> & -> & Hn & Hfin).
      split_and!; try done. lia.
Qed.

(** ** Properties *)

(** C10: the hint file is replaced atomically: after [v2_write_hint_file] the final path
    holds the complete encodings of all entries when the call succeeded, and exactly
    what it held before when it failed, whatever write, sync or rename failed; with no
    fault pending it fails only for a key that does not fit its length field. *)
Theorem hint_file_replaced_atomically es s r s' :
  write_hint_file es s = (r, s') ->
  match r with
  | Ok _ => hf_final s' = Some (hint_frames es) /\ Forall (fun e => len (he_key e) <= u16_max) es
  | Err _ => hf_final s' = hf_final s /\
      (tmp_clean s -> ~ Forall (fun e => len (he_key e) <= u16_max) es)
  | Panic => False
  end.
Proof.
  intros E. unfold write_hint_file, map_err in E. unfold hint_open in E.
  destruct (sys_simple (fun _ => []) (hf_tmp s)) as [r0 d0] eqn:E0.
  apply sys_simple_spec in E0 as (Hp0 & _ & Hf0 & Hd0).
  destruct r0 as [[]|e0|]; [| |done].
  2: { simplify_eq. simpl. split; [done|]. intros Hcl. by destruct (Hf0 Hcl). }
  set (s0 := mkHintFs _ d0 _) in E.
  assert (tmp_content s0 = []) as Hc0 by (unfold tmp_content, s0; simpl; by rewrite Hd0).
  assert (tmp_clean s -> tmp_clean s0) as Hcl0 by (intros Hcl; by destruct (Hf0 Hcl)).
  destruct (decide (Forall (fun e => len (he_key e) <= u16_max) es)) as [Hk|Hk].
  - unfold sbind in E. destruct (write_entries es s0) as [r1 s1] eqn:E1.
    destruct (write_entries_adds es Hk _ _ _ E1) as (Hp1 & Hf1 & Hl1 & Hc1).
    destruct r1 as [[]|e1|]; [| |done].
    + destruct (commit s1) as [r2 s2] eqn:E2. apply commit_spec in E2 as (Hp2 & Hl2 & Hf2).
      rewrite (Hc1 eq_refl), Hc0 in Hf2.
      destruct r2 as [[]|e2|]; [| |by destruct Hp2]; simplify_eq; simpl; [done|].
      split; [rewrite Hf2, Hf1; done|]. intros Hcl. destruct (Hl1 (Hcl0 Hcl)) as [_ Hcl1].
      by specialize (Hl2 Hcl1).
    + simplify_eq. simpl. split; [by rewrite Hf1|]. intros Hcl. by destruct (Hl1 (Hcl0 Hcl)).
  - destruct (write_entries_large es s0 Hk) as (m & s1 & E1 & Hf1).
    unfold sbind in E. rewrite E1 in E. simplify_eq. simpl. split; [by rewrite Hf1|done].
Qed.

(** The caller's loop over hint pages. *)
Fixpoint collect_hint_pages (fuel : nat) (offset max_entries max_bytes : Z) (f : File) : result (list HintEntry) :=
  match fuel with
  | O => Panic
  | S fuel =>
      match (read_page offset max_entries max_bytes f).1 with
      | Ok (page, next, true) => Ok page
      | Ok (page, next, false) =>
          let? rest := collect_hint_pages fuel next max_entries max_bytes f in Ok (page ++ rest)
      | Err e => Err e
      | Panic => Panic
      end
  end.

Lemma read_page_boundary f es k me mb :
  quiet f -> f_data f = hint_frames es -> Forall hint_entry_ok es ->
  0 < me <= MAX_HINT_PAGE_ENTRIES -> 0 < mb <= MAX_HINT_PAGE_BYTES -> (k <= length es)%nat ->
  let n := page_count 0 0 me mb (drop k es) in
  (read_page (len (hint_frames (take k es))) me mb f).1 =
    Ok (take n (drop k es), len (hint_frames (take (k + n) es)), (k + n =? length es)%nat).
Proof.
  intros Hq Hd Hok Hme Hmb Hk n. unfold read_page.
  destruct (Z.eqb_spec me 0); [lia|]. destruct (Z.eqb_spec mb 0); [lia|]. cbn [orb].
  destruct (Z.ltb_spec MAX_HINT_PAGE_ENTRIES me); [lia|]. destruct (Z.ltb_spec MAX_HINT_PAGE_BYTES mb); [lia|].
  set (o := len (hint_frames (take k es))). unfold sbind, seek.
  assert (hint_frames es = hint_frames (take k es) ++ hint_frames (drop k es)) as Hsplit
    by (rewrite <- hint_frames_app, take_drop; done).
  assert (reads (set_pos o f) (hint_frames (drop k es))) as Hr.
  { split_and!; [done|apply len_nonneg|]. simpl. rewrite Hd, Hsplit, zdrop_app_ge by (unfold o; lia).
    apply zdrop_0. unfold o. lia. }
  assert (Z.of_nat (length es) * HINT_HEADER_SIZE <= len (hint_frames es)) as Hcount.
  { clear. induction es as [|e es IH]; cbn [length]; [done|].
    rewrite hint_frames_cons, len_app, len_hint_frame. pose proof (hint_frame_len_ge e). lia. }
  destruct (read_page_loop_spec (Z.to_nat (file_len f / HINT_HEADER_SIZE) + 2) [] 0 me mb (file_len f)
    (set_pos o f) (drop k es) Hr) as (f' & _ & E).
  - by apply Forall_drop.
  - rewrite length_drop. unfold file_len. rewrite Hd. unfold HINT_HEADER_SIZE, CRC_SIZE, HINT_BODY_HEADER_SIZE in *.
    pose proof (Z.div_le_lower_bound (len (hint_frames es)) (4 + 30) (Z.of_nat (length es)) ltac:(lia) ltac:(lia)).
    lia.
  - unfold file_len. rewrite Hd, Hsplit, len_app. done.
  - rewrite E. cbn [fst app f_pos set_pos]. fold n. unfold o. rewrite <- len_app, <- hint_frames_app, take_take_drop.
    rewrite length_drop. do 2 f_equal. change (page_count (len []) 0 me mb (drop k es)) with n.
    destruct (Nat.eqb_spec n (length es - k)), (Nat.eqb_spec (k + n) (length es)); lia || done.
Qed.

(** Paging through a hint file returns every entry once and in order: a page read at
    a page boundary holds the next entries, at most [max_entries] of them, at least one
    unless the file is exhausted, reports the exact offset where the next page
    starts and says whether it was the last; the pages together are the whole file. *)
Theorem hint_pages_complete f es me mb :
  quiet f -> f_data f = hint_frames es -> Forall hint_entry_ok es ->
  0 < me <= MAX_HINT_PAGE_ENTRIES -> 0 < mb <= MAX_HINT_PAGE_BYTES ->
  (forall k, (k <= length es)%nat -> exists n, (k + n <= length es)%nat /\ Z.of_nat n <= me /\
     (k < length es -> 0 < n)%nat /\
     (read_page (len (hint_frames (take k es))) me mb f).1 =
       Ok (take n (drop k es), len (hint_frames (take (k + n) es)), (k + n =? length es)%nat)) /\
  collect_hint_pages (S (length es)) 0 me mb f = Ok es.
Proof.
  intros Hq Hd Hok Hme Hmb.
  assert (forall k, (k <= length es)%nat -> exists n, (k + n <= length es)%nat /\ Z.of_nat n <= me /\
     (k < length es -> 0 < n)%nat /\
     (read_page (len (hint_frames (take k es))) me mb f).1 =
       Ok (take n (drop k es), len (hint_frames (take (k + n) es)), (k + n =? length es)%nat)) as Hpage.
  { intros k Hk. exists (page_count 0 0 me mb (drop k es)).
    destruct (page_count_bounds 0 0 me mb (drop k es) ltac:(lia)) as [Hb1 Hb2]. rewrite length_drop in Hb1.
    split_and!; [lia|lia| |by apply read_page_boundary].
    intros Hlt. pose proof (length_drop es k) as Hl. destruct (drop k es) as [|e rest]; [simpl in Hl; lia|].
    apply page_count_progress. lia. }
  split; [done|].
  enough (forall fuel k, (k <= length es)%nat -> (length es - k < fuel)%nat ->
    collect_hint_pages fuel (len (hint_frames (take k es))) me mb f = Ok (drop k es)) as Hall.
  { by apply (Hall (S (length es)) 0%nat); lia. }
  induction fuel as [|fuel IH]; intros k Hk Hf; [lia|]. cbn [collect_hint_pages].
  destruct (Hpage k Hk) as (n & Hn & _ & Hprog & ->).
  destruct (Nat.eqb_spec (k + n) (length es)).
  - f_equal. apply take_ge. rewrite length_drop. lia.
  - rewrite IH by lia. cbn [rbind]. f_equal. rewrite <- (take_drop n (drop k es)) at 2. by rewrite drop_drop.
Qed.

(** C9: a hint built from a sealed log lists exactly its live records: the build succeeds
    only on a log of complete records, returns their number and the log's length, and the
    new hint file holds one entry per live record with the offset where a
    reader finds that record, its key, expiry and value size; on any failure the old hint
    file is kept. *)
Theorem hint_built_from_log file_id f s rs tail r f' s' :
  quiet f -> f_pos f = 0 -> len (f_data f) <= u64_max -> scans (f_data f) rs tail ->
  build_hint_from_log file_id (f, s) = (r, (f', s')) ->
  Forall (fun e => exists rec v, stored_at (f_data f) (he_offset e) rec /\ value rec = Some v /\
            he_file_id e = file_id /\ he_key e = key rec /\ he_value_size e = len v /\
            he_expire_at_ms e = expire_at_ms rec) (live_hints file_id 0 rs) /\
  match r with
  | Ok (n, end_offset) =>
      tail = [] /\ end_offset = len (f_data f) /\ n = Z.of_nat (length (live_hints file_id 0 rs)) /\
      hf_final s' = Some (hint_frames (live_hints file_id 0 rs))
  | Err _ => hf_final s' = hf_final s /\ (tmp_clean s -> tail <> [])
  | Panic => False
  end.
Proof.
  intros Hq H0 Hmax Hs E. pose proof (scans_records_ok _ _ _ Hs) as Hok.
  split. { apply (live_hints_describe file_id (f_data f) [] rs tail Hok). by apply scans_frames. }
  unfold build_hint_from_log, map_err, hint_open in E.
  destruct (sys_simple (fun _ => []) (hf_tmp s)) as [r0 d0] eqn:E0.
  apply sys_simple_spec in E0 as (Hp0 & _ & Hf0 & Hd0).
  destruct r0 as [[]|e0|]; [| |done].
  2: { simplify_eq. simpl. split; [done|]. intros Hcl. by destruct (Hf0 Hcl). }
  set (s0 := mkHintFs _ d0 _) in E.
  assert (tmp_content s0 = []) as Hc0 by (unfold tmp_content, s0; simpl; by rewrite Hd0).
  destruct (build_hint_loop (scan_fuel f) file_id 0 0 (f, s0)) as [r1 [f1 s1]] eqn:E1. simplify_eq.
  assert (reads f (f_data f)) as Hr by (split_and!; [done|lia|by apply zdrop_0; lia]).
  pose proof (scans_count _ _ _ Hs) as Hcnt. unfold HEADER_SIZE in Hcnt.
  assert (length rs < scan_fuel f)%nat as Hfuel
    by (apply (scan_fuel_enough f 0 rs tail); [lia|by rewrite zdrop_0 by lia]).
  pose proof (build_hint_loop_spec (scan_fuel f) file_id 0 0 f (f_data f) rs tail _ _ _ _ Hr Hs Hfuel ltac:(lia) ltac:(lia) ltac:(lia)
    ltac:(lia) E1) as (Hp & HOk & HErr).
  destruct r as [[n e]|e|]; [| |done].
  - destruct (HOk n e eq_refl) as (Ht & He & Hn & Hfin). rewrite Hc0 in Hfin. split_and!; [done|lia|lia|done].
  - destruct (HErr e eq_refl) as [Hfin Hcl]. split; [done|]. intros Hs0. apply Hcl. by destruct (Hf0 Hs0).
Qed.
End Spec.

(** ** Concrete runs *)

Definition sample_hint_fs : HintFs := mkHintFs (mkBufWriter [] 8192) (mkDisk (lit "stale") [] false) (Some (lit "old")).
Definition sample_hints : list HintEntry :=
  [mkHintEntry 1 0 5 0 (lit "user:1"); mkHintEntry 1 69 3 1800000000000 (lit "k")].
Definition sample_hint_bytes : bytes := @hint_frames crc32_iso_hdlc sample_hints.

Lemma sample_hints_ok : Forall hint_entry_ok sample_hints.
Proof. repeat constructor; vm_compute; congruence. Qed.

Lemma hint_file_replaced_atomically_witness :
  exists s', @write_hint_file crc32_iso_hdlc sample_hints sample_hint_fs = (Ok tt, s') /\
  hf_final s' = Some sample_hint_bytes.
Proof.
  destruct (@write_hint_file crc32_iso_hdlc sample_hints sample_hint_fs) as [r s'] eqn:E.
  pose proof (@hint_file_replaced_atomically crc32_iso_hdlc crc32_iso_hdlc_laws sample_hints sample_hint_fs r s' E)
    as H.
  assert (r = Ok tt) as -> by (vm_compute in E; congruence). exists s'. by destruct H.
Defined.

Lemma hint_pages_complete_witness :
  @collect_hint_pages crc32_iso_hdlc (S (length sample_hints)) 0 1 100 (sample_file sample_hint_bytes) =
  Ok sample_hints.
Proof.
  apply (@hint_pages_complete crc32_iso_hdlc crc32_iso_hdlc_laws (sample_file sample_hint_bytes) sample_hints 1 100);
    [repeat constructor|done|apply sample_hints_ok|vm_compute; split; congruence|vm_compute; split; congruence].
Defined.

Lemma hint_built_from_log_witness :
  exists f' s', @build_hint_from_log crc32_iso_hdlc 7 (sample_file sample_frames, sample_hint_fs) =
    (Ok (1, 69), (f', s')) /\
  hf_final s' = Some (@hint_frames crc32_iso_hdlc (live_hints 7 0 sample_records)).
Proof.
  destruct (@build_hint_from_log crc32_iso_hdlc 7 (sample_file sample_frames, sample_hint_fs))
    as [r [f' s']] eqn:E.
  assert (@scans crc32_iso_hdlc sample_frames sample_records []) as Hs.
  { rewrite <- (app_nil_r sample_frames). apply (@scans_intro crc32_iso_hdlc); [apply sample_records_ok|done]. }
  destruct (@hint_built_from_log crc32_iso_hdlc crc32_iso_hdlc_laws 7 (sample_file sample_frames) sample_hint_fs
    sample_records [] r f' s') as [_ H];
    [repeat constructor|done|vm_compute; congruence|exact Hs|exact E|].
  assert (r = Ok (1, 69)) as -> by (vm_compute in E; congruence). exists f', s'. split; [done|]. apply H.
Defined.
