(* ===== verification/F64.v ===== *)
(** * Machine floating point: [f64]

    A Rust [f64] is modelled by its bit pattern ([to_bits], a [u64]), so that
    [to_bits] and [from_bits] are the identity and NaN payloads and the sign of zero
    are kept.  The arithmetic is IEEE 754 binary64 as given by the Standard Library's
    [SpecFloat]: [f64_decode] reads a pattern, [f64_encode] writes one.

    [f64_key] is the sign-magnitude reading of a pattern as an integer;
    [f64_compare_key] shows that it orders the numbers as IEEE comparison does. *)

From Stdlib Require Import ZArith Lia SpecFloat.
From S2P Require Import Prelude.

Abbreviation f64 := Z (only parsing).

Definition f64_ok (x : f64) : Prop := u64_ok x.

Definition f64_sign (x : f64) : bool := 9223372036854775808 <=? x.
Definition f64_magnitude (x : f64) : Z := x mod 9223372036854775808.
Definition f64_exponent (x : f64) : Z := f64_magnitude x / 4503599627370496.
Definition f64_fraction (x : f64) : Z := f64_magnitude x mod 4503599627370496.

Definition f64_decode (x : f64) : spec_float :=
  let s := f64_sign x in
  let e := f64_exponent x in
  let f := f64_fraction x in
  if e =? 0 then (if f =? 0 then S754_zero s else S754_finite s (Z.to_pos f) (-1074))
  else if e =? 2047 then (if f =? 0 then S754_infinity s else S754_nan)
  else S754_finite s (Z.to_pos (f + 4503599627370496)) (e - 1075).

Definition f64_sign_bit (s : bool) : Z := if s then 9223372036854775808 else 0.
Definition f64_encode (x : spec_float) : f64 :=
  match x with
  | S754_zero s => f64_sign_bit s
  | S754_infinity s => f64_sign_bit s + 9218868437227405312
  | S754_nan => 9221120237041090560
  | S754_finite s m e =>
      f64_sign_bit s +
      (if Z.pos m <? 4503599627370496 then Z.pos m
       else (e + 1075) mod 2048 * 4503599627370496 + Z.pos m mod 4503599627370496)
  end.

(** [is_nan], [is_infinite], [is_finite]; [==], [<=] and [>=] are false on NaN. *)
Definition f64_is_nan (x : f64) : bool :=
  match f64_decode x with S754_nan => true | _ => false end.
Definition f64_is_infinite (x : f64) : bool :=
  match f64_decode x with S754_infinity _ => true | _ => false end.
Definition f64_is_finite (x : f64) : bool :=
  match f64_decode x with S754_infinity _ | S754_nan => false | _ => true end.

Definition f64_compare (x y : f64) : option comparison := SFcompare (f64_decode x) (f64_decode y).
Definition f64_eqb (x y : f64) : bool :=
  match f64_compare x y with Some Eq => true | _ => false end.
Definition f64_leb (x y : f64) : bool :=
  match f64_compare x y with Some (Lt | Eq) => true | _ => false end.
Definition f64_geb (x y : f64) : bool :=
  match f64_compare x y with Some (Gt | Eq) => true | _ => false end.

Definition f64_add (x y : f64) : f64 := f64_encode (SFadd 53 1024 (f64_decode x) (f64_decode y)).

(** Sign-magnitude reading. *)
Definition f64_key (x : f64) : Z := if f64_sign x then - f64_magnitude x else f64_magnitude x.

(** ** The order *)

Lemma f64_magnitude_parts x :
  f64_ok x ->
  f64_magnitude x = f64_exponent x * 4503599627370496 + f64_fraction x /\
  0 <= f64_fraction x < 4503599627370496 /\ 0 <= f64_exponent x <= 2047.
Proof.
  intros Hx. unfold f64_exponent, f64_fraction, f64_magnitude.
  pose proof (Z.mod_pos_bound x 9223372036854775808 ltac:(lia)).
  pose proof (Z.div_mod (x mod 9223372036854775808) 4503599627370496 ltac:(lia)).
  pose proof (Z.mod_pos_bound (x mod 9223372036854775808) 4503599627370496 ltac:(lia)).
  lia.
Qed.

(** A non-NaN pattern decodes to a number with the magnitude's exponent and mantissa. *)
Inductive decoded (x : f64) : spec_float -> Prop :=
| decoded_zero s : f64_sign x = s -> f64_magnitude x = 0 -> decoded x (S754_zero s)
| decoded_inf s : f64_sign x = s -> f64_magnitude x = 9218868437227405312 -> decoded x (S754_infinity s)
| decoded_finite s m e : f64_sign x = s -> -1074 <= e <= 971 ->
    f64_magnitude x = (e + 1074) * 4503599627370496 + Z.pos m ->
    Z.pos m < 9007199254740992 -> e = -1074 \/ 4503599627370496 <= Z.pos m -> decoded x (S754_finite s m e).

Lemma f64_decode_spec x : f64_ok x -> f64_is_nan x = false -> decoded x (f64_decode x).
Proof.
  intros Hx. destruct (f64_magnitude_parts x Hx) as (Hm & Hf & He).
  unfold f64_is_nan, f64_decode. cbv zeta.
  destruct (Z.eqb_spec (f64_exponent x) 0) as [E0|E0].
  { destruct (Z.eqb_spec (f64_fraction x) 0); intros _; constructor; try done; lia. }
  destruct (Z.eqb_spec (f64_exponent x) 2047) as [E1|E1].
  { destruct (Z.eqb_spec (f64_fraction x) 0); [|done]. intros _. constructor; [done|lia]. }
  intros _. constructor; try done; lia.
Qed.

(** Exponent then mantissa orders canonical finite numbers as their magnitudes. *)
Lemma finite_compare m1 e1 m2 e2 :
  -1074 <= e1 -> -1074 <= e2 -> Z.pos m1 < 9007199254740992 -> Z.pos m2 < 9007199254740992 ->
  e1 = -1074 \/ 4503599627370496 <= Z.pos m1 -> e2 = -1074 \/ 4503599627370496 <= Z.pos m2 ->
  match e1 ?= e2 with Lt => Lt | Gt => Gt | Eq => Pos.compare_cont Eq m1 m2 end =
  ((e1 + 1074) * 4503599627370496 + Z.pos m1 ?= (e2 + 1074) * 4503599627370496 + Z.pos m2).
Proof.
  intros. change (Pos.compare_cont Eq m1 m2) with (Pos.compare m1 m2). symmetry.
  destruct (Z.compare_spec e1 e2); [subst|..].
  - destruct (Pos.compare_spec m1 m2);
      [apply Z.compare_eq_iff|apply Z.compare_lt_iff|apply Z.compare_gt_iff]; lia.
  - apply Z.compare_lt_iff. lia.
  - apply Z.compare_gt_iff. lia.
Qed.

Lemma f64_compare_key x y :
  f64_ok x -> f64_ok y -> f64_is_nan x = false -> f64_is_nan y = false ->
  f64_compare x y = Some (f64_key x ?= f64_key y).
Proof.
  intros Hx Hy Nx Ny. unfold f64_compare.
  destruct (f64_decode_spec x Hx Nx) as [s1 S1 M1|s1 S1 M1|s1 m1 e1 S1 E1 M1 B1 C1];
  destruct (f64_decode_spec y Hy Ny) as [s2 S2 M2|s2 S2 M2|s2 m2 e2 S2 E2 M2 B2 C2];
  unfold f64_key; rewrite S1, S2, M1, M2; cbn [SFcompare]; f_equal;
  destruct s1, s2; try (symmetry; first
    [apply Z.compare_lt_iff; lia | apply Z.compare_gt_iff; lia | apply Z.compare_eq_iff; lia]); try done.
  - pose proof (finite_compare m1 e1 m2 e2 ltac:(lia) ltac:(lia) B1 B2 C1 C2) as Hc.
    rewrite Z.compare_opp, (Z.compare_antisym _ (_ + Z.pos m2)), <- Hc. by destruct (e1 ?= e2).
  - apply finite_compare; lia || done.
Qed.

Lemma f64_key_bounds x : f64_ok x -> f64_is_nan x = false -> -9218868437227405312 <= f64_key x <= 9218868437227405312.
Proof.
  intros Hx Nx. unfold f64_key.
  destruct (f64_decode_spec x Hx Nx) as [s1 S1 M1|s1 S1 M1|s1 m1 e1 S1 E1 M1 B1 C1]; destruct (f64_sign x); lia.
Qed.

Lemma f64_eqb_key x y :
  f64_ok x -> f64_ok y -> f64_is_nan x = false -> f64_is_nan y = false ->
  f64_eqb x y = (f64_key x =? f64_key y).
Proof.
  intros. unfold f64_eqb. rewrite f64_compare_key by done.
  destruct (Z.compare_spec (f64_key x) (f64_key y)), (Z.eqb_spec (f64_key x) (f64_key y)); done || lia.
Qed.

Lemma f64_encode_ok x : f64_ok (f64_encode x).
Proof.
  unfold f64_ok, u64_ok, u64_max, f64_encode, f64_sign_bit.
  destruct x as [[]|[]| |[] m e]; try lia.
  all: pose proof (Z.mod_pos_bound (e + 1075) 2048 ltac:(lia));
    pose proof (Z.mod_pos_bound (Z.pos m) 4503599627370496 ltac:(lia));
    destruct (Z.ltb_spec (Z.pos m) 4503599627370496); lia.
Qed.

Lemma f64_add_ok x y : f64_ok (f64_add x y).
Proof. apply f64_encode_ok. Qed.

(** A pattern is its sign bit and its magnitude. *)
Lemma f64_key_sign x : f64_ok x -> x = f64_sign_bit (f64_sign x) + f64_magnitude x.
Proof.
  intros Hx. unfold f64_sign_bit, f64_sign, f64_magnitude.
  destruct (Z.leb_spec 9223372036854775808 x) as [Hs|Hs].
  - rewrite <- (Z.mod_unique x 9223372036854775808 1 (x - 9223372036854775808)); [lia| |lia].
    unfold f64_ok, u64_ok, u64_max in Hx. lia.
  - rewrite Z.mod_small; [lia|]. unfold f64_ok, u64_ok in Hx. lia.
Qed.
