(* ===== verification/ZsetFormat.v ===== *)
(** * Sorted-set tree files: on-disk layout ([zset_tree/format.rs])

    Header slots, frame headers, trailers, logged changes and undo logs, and the
    order-preserving score prefix.  Scores are [f64] bit patterns.

    [score_prefix_order] shows that the eight prefix bytes sort as IEEE comparison
    does.  Each fixed-size structure decodes to what was encoded, and a structure
    decodes only from bytes with its magic number and checksum; the logged changes and
    the undo log are decoded exactly when they are an encoding. *)

From Stdlib Require Import ZArith Lia SpecFloat.
From S2P Require Import Prelude Bytes Crc F64.

Definition PAGE_SIZE : Z := 4096.
Definition HEADER_REGION : Z := 4096.
Definition SLOT_SIZE : Z := 256.
Definition FORMAT_VERSION : Z := 1.
Definition FRAME_HEADER_SIZE : Z := 40.
Definition TRAILER_SIZE : Z := 72.
Definition INLINE_KEY_MAX : Z := 512.
Definition OVERFLOW_PREFIX : Z := 64.
Definition MAX_MEMBER_LEN : Z := 16777216.

Definition SLOT_MAGIC : bytes := lit "FZSTHDR1".
Definition FRAME_MAGIC : Z := 1179798833.
Definition TRAILER_MAGIC : Z := 1414679601.

(** [#[derive(Ord)]]: the index first, then the ordinal. *)
Record Token : Type := mkToken { tk_index : Z; tk_ordinal : Z }.
Definition token_default : Token := mkToken 0 0.
Definition token_compare (a b : Token) : comparison :=
  match tk_index a ?= tk_index b with Eq => tk_ordinal a ?= tk_ordinal b | c => c end.
Definition token_ltb (a b : Token) : bool := match token_compare a b with Lt => true | _ => false end.
Definition token_leb (a b : Token) : bool := match token_compare a b with Gt => false | _ => true end.
Definition token_eqb (a b : Token) : bool := match token_compare a b with Eq => true | _ => false end.

Definition normalize_score (score : f64) : result f64 :=
  if f64_is_nan score then Err "zset tree: score is not a number"
  else if f64_eqb score 0 then Ok 0
  else Ok score.

(** [!bits] on negative numbers, [bits | (1 << 63)] on the others. *)
Definition sortable (bits : Z) : Z :=
  if Z.shiftr bits 63 =? 1 then u64_max - bits else Z.lor bits (Z.shiftl 1 63).
#[global] Arguments sortable : simpl never.

Definition score_prefix (score : f64) : result bytes :=
  let? bits := normalize_score score in
  Ok (be_bytes 8 (sortable bits)).

Definition next_score_prefix (prefix : bytes) : option bytes :=
  be_bytes 8 <$> checked_add64 (be_val prefix) 1.

Section WithCrc.
Context {C : Crc32fast}.

Definition crc (parts : list bytes) : Z := hasher_finalize (fold_left hasher_update parts hasher_new).

Definition get_u16 (bs : bytes) (at_ : Z) : result Z :=
  ok_or (le_val <$> get_range bs at_ (at_ + 2)) "zset tree: truncated field".
Definition get_u32 (bs : bytes) (at_ : Z) : result Z :=
  ok_or (le_val <$> get_range bs at_ (at_ + 4)) "zset tree: truncated field".
Definition get_u64 (bs : bytes) (at_ : Z) : result Z :=
  ok_or (le_val <$> get_range bs at_ (at_ + 8)) "zset tree: truncated field".

(** [.ok()]. *)
Definition ok {A : Type} (r : result A) : option A := match r with Ok a => Some a | _ => None end.

Record HeaderSlot : Type := mkHeaderSlot {
  hs_generation : Z;
  hs_latest_frame_end : Z;
  hs_synced_frame_end : Z;
}.

Definition slot_empty : HeaderSlot := mkHeaderSlot 1 HEADER_REGION HEADER_REGION.

Definition slot_encode (s : HeaderSlot) : bytes :=
  let out := SLOT_MAGIC in
  let out := out ++ le_bytes 4 FORMAT_VERSION in
  let out := out ++ le_bytes 4 PAGE_SIZE in
  let out := out ++ le_bytes 8 (hs_generation s) in
  let out := out ++ le_bytes 8 (hs_latest_frame_end s) in
  let out := out ++ le_bytes 8 (hs_synced_frame_end s) in
  let out := out ++ le_bytes 4 (crc [out]) in
  resize (Z.to_nat SLOT_SIZE) x00 out.

Definition slot_decode (bs : bytes) : option HeaderSlot :=
  if (len bs <? 44) || negb (bytes_eqb (zslice bs 0 8) SLOT_MAGIC) then None else
  checksum ← ok (get_u32 bs 40);
  if negb (crc [zslice bs 0 40] =? checksum) then None else
  version ← ok (get_u32 bs 8);
  if negb (version =? FORMAT_VERSION) then None else
  page_size ← ok (get_u32 bs 12);
  if negb (page_size =? PAGE_SIZE) then None else
  generation ← ok (get_u64 bs 16);
  latest_frame_end ← ok (get_u64 bs 24);
  synced_frame_end ← ok (get_u64 bs 32);
  if (HEADER_REGION <=? latest_frame_end) && (HEADER_REGION <=? synced_frame_end)
     && (synced_frame_end <=? latest_frame_end)
  then Some (mkHeaderSlot generation latest_frame_end synced_frame_end) else None.

(** Slot A holds odd generations, slot B even ones. *)
Definition slot_offset (s : HeaderSlot) : Z := if hs_generation s mod 2 =? 1 then 0 else SLOT_SIZE.

Record FrameHeader : Type := mkFrameHeader {
  fh_page_count : Z;
  fh_ops_len : Z;
  fh_token : Token;
  fh_base : bool;
}.

Definition frame_header_encode (h : FrameHeader) : bytes :=
  let out := le_bytes 4 FRAME_MAGIC in
  let out := out ++ le_bytes 4 (fh_page_count h) in
  let out := out ++ le_bytes 4 (fh_ops_len h) in
  let out := out ++ le_bytes 4 (if fh_base h then 1 else 0) in
  let out := out ++ le_bytes 8 (tk_index (fh_token h)) in
  let out := out ++ le_bytes 8 (tk_ordinal (fh_token h)) in
  let out := out ++ le_bytes 4 (crc [out]) in
  out ++ le_bytes 4 0.

Definition frame_header_decode (bs : bytes) : option FrameHeader :=
  if len bs <? FRAME_HEADER_SIZE then None else
  magic ← ok (get_u32 bs 0);
  if negb (magic =? FRAME_MAGIC) then None else
  checksum ← ok (get_u32 bs 32);
  if negb (crc [zslice bs 0 32] =? checksum) then None else
  page_count ← ok (get_u32 bs 4);
  ops_len ← ok (get_u32 bs 8);
  index ← ok (get_u64 bs 16);
  ordinal ← ok (get_u64 bs 24);
  base ← ok (get_u32 bs 12);
  Some (mkFrameHeader page_count ops_len (mkToken index ordinal) (Z.land base 1 =? 1)).

(** [u32] fields: the sum stays far below [u64::MAX]. *)
Definition frame_len (h : FrameHeader) : Z :=
  FRAME_HEADER_SIZE + fh_page_count h * PAGE_SIZE + fh_ops_len h + TRAILER_SIZE.

Record Trailer : Type := mkTrailer {
  tr_score_root : Z;
  tr_member_root : Z;
  tr_count : Z;
  tr_frame_start : Z;
  tr_generation : Z;
  tr_token : Token;
  tr_body_crc : Z;
}.

Definition trailer_encode (t : Trailer) : bytes :=
  let out := le_bytes 8 (tr_score_root t) in
  let out := out ++ le_bytes 8 (tr_member_root t) in
  let out := out ++ le_bytes 8 (tr_count t) in
  let out := out ++ le_bytes 8 (tr_frame_start t) in
  let out := out ++ le_bytes 8 (tr_generation t) in
  let out := out ++ le_bytes 8 (tk_index (tr_token t)) in
  let out := out ++ le_bytes 8 (tk_ordinal (tr_token t)) in
  let out := out ++ le_bytes 4 (tr_body_crc t) in
  let out := out ++ le_bytes 4 TRAILER_MAGIC in
  let out := out ++ le_bytes 4 (crc [out]) in
  out ++ le_bytes 4 0.

Definition trailer_decode (bs : bytes) : option Trailer :=
  if len bs <? TRAILER_SIZE then None else
  magic ← ok (get_u32 bs 60);
  if negb (magic =? TRAILER_MAGIC) then None else
  checksum ← ok (get_u32 bs 64);
  if negb (crc [zslice bs 0 64] =? checksum) then None else
  score_root ← ok (get_u64 bs 0);
  member_root ← ok (get_u64 bs 8);
  count ← ok (get_u64 bs 16);
  frame_start ← ok (get_u64 bs 24);
  generation ← ok (get_u64 bs 32);
  index ← ok (get_u64 bs 40);
  ordinal ← ok (get_u64 bs 48);
  body_crc ← ok (get_u32 bs 56);
  Some (mkTrailer score_root member_root count frame_start generation (mkToken index ordinal) body_crc).

End WithCrc.

(** ** Logged changes *)

Inductive LoggedOp : Type :=
| LogSet (member : bytes) (score : f64) (prev : option f64)
| LogRemove (member : bytes) (prev : f64).

Definition OP_SET_NEW : byte := x01.
Definition OP_REMOVE : byte := x02.
Definition OP_SET_CHANGED : byte := x03.

Definition encode_op (op : LoggedOp) : bytes :=
  let '(kind, member) :=
    match op with
    | LogSet member _ None => (OP_SET_NEW, member)
    | LogSet member _ _ => (OP_SET_CHANGED, member)
    | LogRemove member _ => (OP_REMOVE, member)
    end in
  [kind] ++ le_bytes 4 (len member) ++ member ++
  match op with
  | LogSet _ score prev => le_bytes 8 score ++ match prev with Some prev => le_bytes 8 prev | None => [] end
  | LogRemove _ prev => le_bytes 8 prev
  end.

Definition encode_ops (ops : list LoggedOp) : bytes := fold_left (fun out op => out ++ encode_op op) ops [].

(** The [next] closure: one score off the front. *)
Definition next_score : SR bytes f64 :=
  let! bs := sget in
  let! value := slift (get_u64 bs 0) in
  let! _ := sput (zdrop 8 bs) in
  sret value.

Definition decode_op : SR bytes LoggedOp :=
  let! bs := sget in
  let! kind := slift (unwrap (znth bs 0)) in
  let! length_ := slift (get_u32 bs 1) in
  let! member := slift (ok_or (get_range bs 5 (5 + length_)) "zset tree: truncated logged op") in
  let! _ := sput (zdrop (5 + length_) bs) in
  if bool_decide (kind = OP_SET_NEW) then
    let! score := next_score in
    sret (LogSet member score None)
  else if bool_decide (kind = OP_SET_CHANGED) then
    let! score := next_score in
    let! prev := next_score in
    sret (LogSet member score (Some prev))
  else if bool_decide (kind = OP_REMOVE) then
    let! prev := next_score in
    sret (LogRemove member prev)
  else serr "zset tree: unknown logged op".

(** Each step consumes at least five bytes, so the length is fuel enough. *)
Fixpoint decode_ops_loop (fuel : nat) (bs : bytes) (ops : list LoggedOp) : result (list LoggedOp) :=
  match bs with
  | [] => Ok ops
  | _ =>
      match fuel with
      | O => Panic
      | S fuel =>
          match decode_op bs with
          | (Ok op, bs) => decode_ops_loop fuel bs (ops ++ [op])
          | (Err e, _) => Err e
          | (Panic, _) => Panic
          end
      end
  end.
Definition decode_ops (bs : bytes) : result (list LoggedOp) := decode_ops_loop (length bs) bs [].

(** ** Undo logs *)

Record UndoLog : Type := mkUndoLog {
  ul_floor : Z;
  ul_groups : list (Token * list LoggedOp);
}.
Definition undo_default : UndoLog := mkUndoLog 0 [].

Definition encode_group (group : Token * list LoggedOp) : bytes :=
  let ops := encode_ops group.2 in
  le_bytes 8 (tk_index group.1) ++ le_bytes 8 (tk_ordinal group.1) ++ le_bytes 4 (len ops) ++ ops.

Definition undo_encode (u : UndoLog) : bytes :=
  fold_left (fun out group => out ++ encode_group group) (ul_groups u) (le_bytes 8 (ul_floor u)).

Definition decode_group (rest : bytes) : result ((Token * list LoggedOp) * bytes) :=
  let? index := get_u64 rest 0 in
  let? ordinal := get_u64 rest 8 in
  let? length_ := get_u32 rest 16 in
  let? ops := ok_or (get_range rest 20 (20 + length_)) "zset tree: truncated undo log" in
  let? decoded := decode_ops ops in
  Ok ((mkToken index ordinal, decoded), zdrop (20 + length_) rest).

Fixpoint undo_decode_loop (fuel : nat) (rest : bytes) (groups : list (Token * list LoggedOp))
    : result (list (Token * list LoggedOp)) :=
  match rest with
  | [] => Ok groups
  | _ =>
      match fuel with
      | O => Panic
      | S fuel =>
          let? group := decode_group rest in
          undo_decode_loop fuel group.2 (groups ++ [group.1])
      end
  end.

Definition undo_decode (bs : bytes) : result UndoLog :=
  match bs with
  | [] => Ok undo_default
  | _ =>
      let? floor := get_u64 bs 0 in
      let? groups := undo_decode_loop (length bs) (zdrop 8 bs) [] in
      Ok (mkUndoLog floor groups)
  end.

(** ** Score prefixes *)

(** The unsigned number whose big-endian bytes are the prefix. *)
Definition sort_val (k : Z) : Z := if k <? 0 then 9223372036854775807 + k else 9223372036854775808 + k.

Lemma lor_top b : 0 <= b < 9223372036854775808 -> Z.lor b (Z.shiftl 1 63) = b + 9223372036854775808.
Proof.
  intros Hb. change (Z.shiftl 1 63) with (2 ^ 63).
  assert (Z.land b (2 ^ 63) = 0) as Hl.
  { apply Z.bits_inj'. intros n Hn. rewrite Z.land_spec, Z.pow2_bits_eqb, Z.bits_0 by lia.
    destruct (Z.eqb_spec 63 n) as [<-|]; [|by rewrite andb_false_r].
    rewrite andb_true_r. destruct (decide (b = 0)) as [->|]; [done|].
    apply Z.bits_above_log2; [lia|]. apply Z.log2_lt_pow2; lia. }
  by rewrite <- Z.lxor_lor, <- Z.add_nocarry_lxor.
Qed.

Lemma score_prefix_val x :
  f64_ok x -> f64_is_nan x = false -> score_prefix x = Ok (be_bytes 8 (sort_val (f64_key x))).
Proof.
  intros Hx Nx. unfold score_prefix, normalize_score. rewrite Nx.
  rewrite f64_eqb_key by done. change (f64_key 0) with 0.
  destruct (Z.eqb_spec (f64_key x) 0) as [->|Hk]; [by vm_compute|]. cbn [rbind]. cbv zeta.
  pose proof (f64_key_bounds x Hx Nx) as Hb. pose proof (f64_key_sign x Hx) as Hs.
  unfold f64_key, sort_val, sortable in *. rewrite Z.shiftr_div_pow2 by lia. change (2 ^ 63) with 9223372036854775808.
  assert (0 <= f64_magnitude x < 9223372036854775808) as Hm by (apply Z.mod_pos_bound; lia).
  destruct (f64_sign x); simpl f64_sign_bit in Hs.
  - rewrite <- (Z.div_unique x 9223372036854775808 1 (f64_magnitude x)) by lia.
    destruct (Z.ltb_spec (- f64_magnitude x) 0); [|lia]. simpl Z.eqb. unfold u64_max. do 2 f_equal. lia.
  - rewrite Z.div_small by lia. destruct (Z.ltb_spec (f64_magnitude x) 0); [lia|].
    simpl Z.eqb. rewrite lor_top by lia. do 2 f_equal. lia.
Qed.

Lemma score_prefix_nan x : f64_is_nan x = true -> score_prefix x = Err "zset tree: score is not a number".
Proof. intros Nx. unfold score_prefix, normalize_score. by rewrite Nx. Qed.

Lemma score_prefix_inv x p : score_prefix x = Ok p -> f64_is_nan x = false.
Proof. intros Hp. destruct (f64_is_nan x) eqn:N; [|done]. by rewrite score_prefix_nan in Hp. Qed.

Lemma sort_val_range k : -9218868437227405312 <= k <= 9218868437227405312 -> 0 <= sort_val k < u64_max.
Proof. unfold sort_val, u64_max. destruct (Z.ltb_spec k 0); lia. Qed.

Lemma sort_val_compare a b : (sort_val a ?= sort_val b) = (a ?= b).
Proof.
  unfold sort_val. destruct (Z.ltb_spec a 0), (Z.ltb_spec b 0), (Z.compare_spec a b);
    first [apply Z.compare_lt_iff|apply Z.compare_gt_iff|apply Z.compare_eq_iff]; lia.
Qed.

Lemma score_prefix_len x p : score_prefix x = Ok p -> len p = 8.
Proof.
  unfold score_prefix. destruct (normalize_score x); cbn [rbind]; [|done..]. intros [= <-]. by rewrite len_be_bytes.
Qed.

Lemma score_prefix_be_val x p :
  f64_ok x -> score_prefix x = Ok p -> be_val p = sort_val (f64_key x) /\ be_val p < u64_max.
Proof.
  intros Hx Hp. pose proof (score_prefix_inv _ _ Hp) as Nx. rewrite score_prefix_val in Hp by done. simplify_eq.
  pose proof (sort_val_range _ (f64_key_bounds x Hx Nx)). rewrite be_val_u64 by (unfold u64_ok; lia). split; [done|lia].
Qed.

(** Comparing prefixes is comparing scores. *)
Lemma score_prefix_compare x y px py :
  f64_ok x -> f64_ok y -> score_prefix x = Ok px -> score_prefix y = Ok py ->
  f64_compare x y = Some (bytes_compare px py).
Proof.
  intros Hx Hy Hpx Hpy. pose proof (score_prefix_inv _ _ Hpx). pose proof (score_prefix_inv _ _ Hpy).
  rewrite f64_compare_key by done. f_equal.
  pose proof (score_prefix_len _ _ Hpx). pose proof (score_prefix_len _ _ Hpy).
  rewrite be_val_compare by (unfold len in *; lia).
  destruct (score_prefix_be_val _ _ Hx Hpx) as [-> _], (score_prefix_be_val _ _ Hy Hpy) as [-> _].
  by rewrite sort_val_compare.
Qed.

(** ** Fields of fixed-size structures *)

Lemma get_u16_skip l r n at_ : len l = n -> n <= at_ -> get_u16 (l ++ r) at_ = get_u16 r (at_ - n).
Proof.
  intros <- Ha. unfold get_u16, get_range. rewrite len_app. len_facts.
  destruct (Z.leb_spec (at_ + 2) (len l + len r)), (Z.leb_spec (at_ - len l + 2) (len r)); try lia;
    rewrite ?andb_false_r; [|done].
  rewrite zslice_app_skip by lia. rewrite !(proj2 (Z.leb_le _ _)) by lia. repeat f_equal; lia.
Qed.
Lemma get_u32_skip l r n at_ : len l = n -> n <= at_ -> get_u32 (l ++ r) at_ = get_u32 r (at_ - n).
Proof.
  intros <- Ha. unfold get_u32, get_range. rewrite len_app. len_facts.
  destruct (Z.leb_spec (at_ + 4) (len l + len r)), (Z.leb_spec (at_ - len l + 4) (len r)); try lia;
    rewrite ?andb_false_r; [|done].
  rewrite zslice_app_skip by lia. rewrite !(proj2 (Z.leb_le _ _)) by lia. repeat f_equal; lia.
Qed.
Lemma get_u64_skip l r n at_ : len l = n -> n <= at_ -> get_u64 (l ++ r) at_ = get_u64 r (at_ - n).
Proof.
  intros <- Ha. unfold get_u64, get_range. rewrite len_app. len_facts.
  destruct (Z.leb_spec (at_ + 8) (len l + len r)), (Z.leb_spec (at_ - len l + 8) (len r)); try lia;
    rewrite ?andb_false_r; [|done].
  rewrite zslice_app_skip by lia. rewrite !(proj2 (Z.leb_le _ _)) by lia. repeat f_equal; lia.
Qed.

Lemma get_u16_here z r : u16_ok z -> get_u16 (le_bytes 2 z ++ r) 0 = Ok z.
Proof.
  intros Hz. unfold get_u16. pose proof (len_le_bytes 2 z). zslices. simpl. by rewrite le_val_u16.
Qed.
Lemma get_u32_here z r : u32_ok z -> get_u32 (le_bytes 4 z ++ r) 0 = Ok z.
Proof.
  intros Hz. unfold get_u32. pose proof (len_le_bytes 4 z). zslices. simpl. by rewrite le_val_u32.
Qed.
Lemma get_u64_here z r : u64_ok z -> get_u64 (le_bytes 8 z ++ r) 0 = Ok z.
Proof.
  intros Hz. unfold get_u64. pose proof (len_le_bytes 8 z). zslices. simpl. by rewrite le_val_u64.
Qed.

Lemma get_u16_inv bs a v : get_u16 bs a = Ok v -> 0 <= a /\ a + 2 <= len bs /\ le_bytes 2 v = zslice bs a (a + 2) /\ u16_ok v.
Proof.
  unfold get_u16. destruct (get_range bs a (a + 2)) eqn:E; [|done]. intros [= <-].
  apply get_range_inv in E as (? & ? & ? & ->). assert (len (zslice bs a (a + 2)) = 2) by (rewrite len_zslice; lia).
  split_and!; [done..|by apply le_bytes_of|by apply le_val_u16_ok].
Qed.
Lemma get_u32_inv bs a v : get_u32 bs a = Ok v -> 0 <= a /\ a + 4 <= len bs /\ le_bytes 4 v = zslice bs a (a + 4) /\ u32_ok v.
Proof.
  unfold get_u32. destruct (get_range bs a (a + 4)) eqn:E; [|done]. intros [= <-].
  apply get_range_inv in E as (? & ? & ? & ->). assert (len (zslice bs a (a + 4)) = 4) by (rewrite len_zslice; lia).
  split_and!; [done..|by apply le_bytes_of|by apply le_val_u32_ok].
Qed.
Lemma get_u64_inv bs a v : get_u64 bs a = Ok v -> 0 <= a /\ a + 8 <= len bs /\ le_bytes 8 v = zslice bs a (a + 8) /\ u64_ok v.
Proof.
  unfold get_u64. destruct (get_range bs a (a + 8)) eqn:E; [|done]. intros [= <-].
  apply get_range_inv in E as (? & ? & ? & ->). assert (len (zslice bs a (a + 8)) = 8) by (rewrite len_zslice; lia).
  split_and!; [done..|by apply le_bytes_of|by apply le_val_u64_ok].
Qed.

(** [fields] evaluates [get_u*] on a concatenation of encoded fields. *)
Ltac zsubs :=
  repeat match goal with
         | |- context [Z.sub (Zpos ?a) (Zpos ?b)] =>
             let r := eval vm_compute in (Z.sub (Zpos a) (Zpos b)) in change (Z.sub (Zpos a) (Zpos b)) with r
         end.
Ltac fields :=
  repeat first
    [ rewrite get_u64_here by done
    | rewrite get_u32_here by done
    | rewrite get_u16_here by done
    | rewrite (get_u64_skip (le_bytes 8 _) _ 8) by (first [by rewrite len_le_bytes|lia]); zsubs
    | rewrite (get_u64_skip (le_bytes 4 _) _ 4) by (first [by rewrite len_le_bytes|lia]); zsubs
    | rewrite (get_u32_skip (le_bytes 8 _) _ 8) by (first [by rewrite len_le_bytes|lia]); zsubs
    | rewrite (get_u32_skip (le_bytes 4 _) _ 4) by (first [by rewrite len_le_bytes|lia]); zsubs ].

Section Structures.
Context {C : Crc32fast} {L : Crc32fastLaws C}.

Lemma crc_hashed h l parts : hashed h l -> hashed (fold_left hasher_update parts h) (l ++ mjoin parts).
Proof.
  revert h l; induction parts as [|p parts IH]; intros h l Hh; simpl; [by rewrite app_nil_r|].
  change (mjoin (p :: parts)) with (p ++ mjoin parts). rewrite app_assoc. by apply IH, hashed_update.
Qed.
Lemma crc_spec parts : crc parts = crc32_hash (mjoin parts).
Proof. apply hashed_finalize. rewrite <- (app_nil_l (mjoin parts)). apply crc_hashed, hashed_new. Qed.
Lemma crc_one part : crc [part] = crc32_hash part.
Proof. rewrite crc_spec. change (mjoin [part]) with (part ++ []). by rewrite app_nil_r. Qed.
Lemma crc_u32 parts : u32_ok (crc parts).
Proof. rewrite crc_spec. apply crc32_hash_u32. Qed.

(** A header slot's bytes: the checksummed fields, the checksum and padding. *)
Definition slot_body (s : HeaderSlot) : bytes :=
  SLOT_MAGIC ++ le_bytes 4 FORMAT_VERSION ++ le_bytes 4 PAGE_SIZE ++ le_bytes 8 (hs_generation s) ++
  le_bytes 8 (hs_latest_frame_end s) ++ le_bytes 8 (hs_synced_frame_end s).
Definition slot_image (s : HeaderSlot) : bytes := slot_body s ++ le_bytes 4 (crc [slot_body s]).

Definition slot_ok (s : HeaderSlot) : Prop :=
  u64_ok (hs_generation s) /\ u64_ok (hs_latest_frame_end s) /\ u64_ok (hs_synced_frame_end s) /\
  HEADER_REGION <= hs_synced_frame_end s <= hs_latest_frame_end s.

Lemma len_slot_body s : len (slot_body s) = 40.
Proof. unfold slot_body. by rewrite !len_app, !len_le_bytes. Qed.
Lemma len_slot_image s : len (slot_image s) = 44.
Proof. unfold slot_image. by rewrite len_app, len_slot_body, len_le_bytes. Qed.

Lemma slot_encode_eq s : slot_encode s = slot_image s ++ replicate 212 x00.
Proof.
  assert (slot_encode s = resize 256 x00 (slot_image s)) as ->
    by (unfold slot_encode, slot_image, slot_body; cbv zeta; by rewrite <- !app_assoc).
  assert (length (slot_image s) = 44%nat) as Hl by (pose proof (len_slot_image s); unfold len in *; lia).
  unfold resize. rewrite take_ge, Hl by lia. done.
Qed.

Lemma ok_inv {A : Type} (r : result A) a : ok r = Some a -> r = Ok a.
Proof. destruct r; simpl; congruence. Qed.

(** [undecode H] inverts a successful decoder run. *)
Ltac undecode H :=
  repeat match type of H with
         | (if ?b then None else _) = Some _ => destruct b eqn:?; [discriminate H|]
         | (if ?b then Some _ else None) = Some _ => destruct b eqn:?; [|discriminate H]
         | mbind _ (ok ?r) = Some _ => destruct (ok r) eqn:?; [simpl in H|discriminate H]
         end;
  repeat match goal with
         | E : ok _ = Some _ |- _ => apply ok_inv in E
         | E : get_u64 _ _ = Ok _ |- _ => apply get_u64_inv in E as (? & ? & ? & ?)
         | E : get_u32 _ _ = Ok _ |- _ => apply get_u32_inv in E as (? & ? & ? & ?)
         | E : _ || _ = false |- _ => apply orb_false_iff in E as [? ?]
         | E : _ && _ = true |- _ => apply andb_true_iff in E as [? ?]
         | E : negb _ = false |- _ => apply negb_false_iff in E
         | E : (_ =? _) = true |- _ => apply Z.eqb_eq in E
         | E : (_ <=? _) = true |- _ => apply Z.leb_le in E
         | E : (_ <? _) = false |- _ => apply Z.ltb_ge in E
         end.

(** [refields] reads encoded fields back as slices and joins them. *)
Ltac refields :=
  repeat match goal with E : le_bytes _ _ = zslice _ _ _ |- _ => try rewrite E; clear E end;
  cbn [Z.add Pos.add Pos.succ Pos.add_carry]; rewrite ?zslice_join by lia.

Lemma slot_decode_image s rest : slot_ok s -> slot_decode (slot_image s ++ rest) = Some s.
Proof.
  intros (Hg & Hl & Hs & Hb). unfold slot_decode.
  rewrite len_app, len_slot_image. len_facts. destruct (Z.ltb_spec (44 + len rest) 44); [lia|].
  pose proof (len_slot_body s) as Hlb.
  unfold slot_image. rewrite <- app_assoc.
  rewrite (zslice_app_take _ _ 0 40), (zslice_app_take _ _ 0 8), (zslice_full _ 0 40) by lia.
  rewrite (get_u32_skip (slot_body s) _ 40 40) by lia. zsubs. pose proof (crc_u32 [slot_body s]). fields. cbn [orb ok mbind option_bind].
  rewrite Z.eqb_refl. cbn [negb]. unfold slot_body. rewrite <- !app_assoc.
  rewrite zslice_app_exact by done. destruct (bytes_eqb_spec SLOT_MAGIC SLOT_MAGIC); [|done]. cbn [negb].
  rewrite !(get_u64_skip SLOT_MAGIC _ 8), !(get_u32_skip SLOT_MAGIC _ 8) by first [done|lia]. zsubs.
  fields. cbn [ok mbind option_bind]. rewrite !Z.eqb_refl. cbn [negb].
  rewrite !(proj2 (Z.leb_le _ _)) by lia. by destruct s.
Qed.

Lemma slot_decode_sound bs s : slot_decode bs = Some s -> slot_ok s /\ ztake 44 bs = slot_image s.
Proof.
  unfold slot_decode. intros H. undecode H. simplify_eq. split; [by unfold slot_ok|].
  destruct (bytes_eqb_spec (zslice bs 0 8) SLOT_MAGIC) as [Hm|]; [|done].
  unfold slot_image. assert (slot_body (mkHeaderSlot z2 z3 z4) = zslice bs 0 40) as Hb.
  { unfold slot_body. cbn [hs_generation hs_latest_frame_end hs_synced_frame_end].
    rewrite <- Hm. refields. done. }
  rewrite Hb. refields. unfold zslice. rewrite zdrop_0 by lia. done.
Qed.

(** Frame headers and trailers. *)

Definition token_ok (t : Token) : Prop := u64_ok (tk_index t) /\ u64_ok (tk_ordinal t).

Definition frame_header_ok (h : FrameHeader) : Prop :=
  u32_ok (fh_page_count h) /\ u32_ok (fh_ops_len h) /\ token_ok (fh_token h).
Definition frame_header_body (h : FrameHeader) : bytes :=
  le_bytes 4 FRAME_MAGIC ++ le_bytes 4 (fh_page_count h) ++ le_bytes 4 (fh_ops_len h) ++
  le_bytes 4 (if fh_base h then 1 else 0) ++ le_bytes 8 (tk_index (fh_token h)) ++ le_bytes 8 (tk_ordinal (fh_token h)).

Definition trailer_ok (t : Trailer) : Prop :=
  u64_ok (tr_score_root t) /\ u64_ok (tr_member_root t) /\ u64_ok (tr_count t) /\ u64_ok (tr_frame_start t) /\
  u64_ok (tr_generation t) /\ token_ok (tr_token t) /\ u32_ok (tr_body_crc t).
Definition trailer_body (t : Trailer) : bytes :=
  le_bytes 8 (tr_score_root t) ++ le_bytes 8 (tr_member_root t) ++ le_bytes 8 (tr_count t) ++
  le_bytes 8 (tr_frame_start t) ++ le_bytes 8 (tr_generation t) ++ le_bytes 8 (tk_index (tr_token t)) ++
  le_bytes 8 (tk_ordinal (tr_token t)) ++ le_bytes 4 (tr_body_crc t) ++ le_bytes 4 TRAILER_MAGIC.

Lemma len_frame_header_body h : len (frame_header_body h) = 32.
Proof. unfold frame_header_body. by rewrite !len_app, !len_le_bytes. Qed.
Lemma len_trailer_body t : len (trailer_body t) = 64.
Proof. unfold trailer_body. by rewrite !len_app, !len_le_bytes. Qed.

Lemma frame_header_encode_eq h :
  frame_header_encode h = frame_header_body h ++ le_bytes 4 (crc [frame_header_body h]) ++ le_bytes 4 0.
Proof. unfold frame_header_encode. cbv zeta. by rewrite <- !app_assoc. Qed.
Lemma trailer_encode_eq t :
  trailer_encode t = trailer_body t ++ le_bytes 4 (crc [trailer_body t]) ++ le_bytes 4 0.
Proof. unfold trailer_encode. cbv zeta. by rewrite <- !app_assoc. Qed.

Lemma len_frame_header_encode h : len (frame_header_encode h) = FRAME_HEADER_SIZE.
Proof. rewrite frame_header_encode_eq. by rewrite !len_app, len_frame_header_body, !len_le_bytes. Qed.
Lemma len_trailer_encode t : len (trailer_encode t) = TRAILER_SIZE.
Proof. rewrite trailer_encode_eq. by rewrite !len_app, len_trailer_body, !len_le_bytes. Qed.

Lemma frame_header_decode_encode h rest :
  frame_header_ok h -> frame_header_decode (frame_header_encode h ++ rest) = Some h.
Proof.
  intros (Hp & Ho & Hi & Hn). unfold frame_header_decode.
  rewrite len_app, len_frame_header_encode. len_facts.
  destruct (Z.ltb_spec (FRAME_HEADER_SIZE + len rest) FRAME_HEADER_SIZE); [lia|].
  rewrite frame_header_encode_eq, <- !app_assoc. pose proof (len_frame_header_body h) as Hlb.
  rewrite (zslice_app_take _ _ 0 32), (zslice_full _ 0 32) by lia.
  pose proof (crc_u32 [frame_header_body h]) as Hk. revert Hk. generalize (crc [frame_header_body h]) as k. intros k Hk.
  unfold frame_header_body. rewrite <- !app_assoc.
  assert (u32_ok (if fh_base h then 1 else 0)) by (destruct (fh_base h); done).
  fields. cbn [ok mbind option_bind]. rewrite !Z.eqb_refl. cbn [negb]. destruct h as [? ? [] []]; done.
Qed.

Lemma frame_header_decode_ok bs h : frame_header_decode bs = Some h -> frame_header_ok h.
Proof. unfold frame_header_decode. intros H. undecode H. by simplify_eq. Qed.

Lemma ztake_trailer t : ztake 68 (trailer_encode t) = trailer_body t ++ le_bytes 4 (crc [trailer_body t]).
Proof.
  rewrite trailer_encode_eq, app_assoc. pose proof (len_trailer_body t).
  pose proof (len_le_bytes 4 (crc [trailer_body t])). zslices. done.
Qed.

(** The last four bytes are padding. *)
Lemma trailer_decode_prefix t pad rest :
  trailer_ok t -> len pad = 4 -> trailer_decode (ztake 68 (trailer_encode t) ++ pad ++ rest) = Some t.
Proof.
  intros (Hs & Hm & Hc & Hf & Hg & [Hi Hn] & Hb) Hpad. unfold trailer_decode. rewrite ztake_trailer.
  pose proof (len_trailer_body t) as Hlb. rewrite !len_app, Hpad, Hlb, len_le_bytes. len_facts.
  unfold TRAILER_SIZE. destruct (Z.ltb_spec (64 + Z.of_nat 4 + (4 + len rest)) 72); [lia|].
  rewrite <- !app_assoc.
  rewrite (zslice_app_take _ _ 0 64), (zslice_full _ 0 64) by lia.
  pose proof (crc_u32 [trailer_body t]) as Hk. revert Hk. generalize (crc [trailer_body t]) as k. intros k Hk.
  unfold trailer_body. rewrite <- !app_assoc. fields. cbn [ok mbind option_bind].
  rewrite !Z.eqb_refl. cbn [negb]. by destruct t as [? ? ? ? ? [] ?].
Qed.

Lemma trailer_decode_encode t rest : trailer_ok t -> trailer_decode (trailer_encode t ++ rest) = Some t.
Proof.
  intros Ht. rewrite <- (trailer_decode_prefix t (le_bytes 4 0) rest Ht) by (by rewrite len_le_bytes).
  by rewrite ztake_trailer, trailer_encode_eq, <- !app_assoc.
Qed.

Lemma trailer_decode_sound bs t :
  trailer_decode bs = Some t ->
  trailer_ok t /\ ztake 68 bs = ztake 68 (trailer_encode t).
Proof.
  unfold trailer_decode. intros H. undecode H. simplify_eq. split; [by unfold trailer_ok, token_ok|].
  rewrite trailer_encode_eq. match goal with |- context [trailer_body ?t] => assert (trailer_body t = zslice bs 0 64) as Hb end.
  { unfold trailer_body. cbn [tr_score_root tr_member_root tr_count tr_frame_start tr_generation tr_token tr_body_crc
      tk_index tk_ordinal]. refields. done. }
  rewrite Hb, app_assoc. refields.
  rewrite ztake_app_le, (ztake_ge 68 (zslice _ _ _)) by (rewrite len_zslice; lia).
  unfold zslice. rewrite zdrop_0 by lia. done.
Qed.

End Structures.

(** ** Logged changes and undo logs *)

Definition op_ok (op : LoggedOp) : Prop :=
  match op with
  | LogSet member score prev => len member <= u32_max /\ f64_ok score /\ (if prev is Some p then f64_ok p else True)
  | LogRemove member prev => len member <= u32_max /\ f64_ok prev
  end.

Lemma encode_ops_join ops : encode_ops ops = mjoin (encode_op <$> ops).
Proof.
  unfold encode_ops. rewrite <- (app_nil_l (mjoin _)). generalize (@nil byte) as out.
  induction ops as [|op ops IH]; intros out; simpl; [by rewrite app_nil_r|].
  rewrite IH. by rewrite <- app_assoc.
Qed.
Lemma encode_ops_cons op ops : encode_ops (op :: ops) = encode_op op ++ encode_ops ops.
Proof. by rewrite !encode_ops_join. Qed.
Lemma encode_ops_app ops1 ops2 : encode_ops (ops1 ++ ops2) = encode_ops ops1 ++ encode_ops ops2.
Proof. rewrite !encode_ops_join, fmap_app, join_app. done. Qed.

Lemma encode_op_long op : (5 <= length (encode_op op))%nat.
Proof.
  unfold encode_op. destruct op as [m s [p|]|m p]; rewrite !length_app, ?length_le_bytes; simpl; lia.
Qed.

Lemma next_score_here z rest : f64_ok z -> next_score (le_bytes 8 z ++ rest) = (Ok z, rest).
Proof.
  intros Hz. unfold next_score, sbind, sget, slift, sput, sret. rewrite get_u64_here by done.
  f_equal. pose proof (len_le_bytes 8 z). zslices. done.
Qed.
Lemma next_score_inv bs z rest : next_score bs = (Ok z, rest) -> f64_ok z /\ bs = le_bytes 8 z ++ rest.
Proof.
  unfold next_score, sbind, sget, slift, sput, sret. destruct (get_u64 bs 0) eqn:E; [|done..].
  intros [= <- <-]. apply get_u64_inv in E as (_ & ? & -> & ?). split; [done|].
  unfold zslice. rewrite zdrop_0 by lia. by rewrite ztake_zdrop.
Qed.

Lemma decode_op_head kind (member tail : bytes) :
  len member <= u32_max ->
  let bs := kind :: le_bytes 4 (len member) ++ member ++ tail in
  znth bs 0 = Some kind /\ get_u32 bs 1 = Ok (len member) /\
  get_range bs 5 (5 + len member) = Some member /\ zdrop (5 + len member) bs = tail.
Proof.
  intros Hm bs. subst bs. pose proof (len_le_bytes 4 (len member)) as Hl. len_facts.
  change (kind :: le_bytes 4 (len member) ++ member ++ tail) with ([kind] ++ le_bytes 4 (len member) ++ member ++ tail).
  assert (len [kind] = 1) as H1 by done. split_and!.
  - done.
  - rewrite (get_u32_skip [kind] _ 1), get_u32_here by (unfold u32_ok; done || lia). done.
  - zslices. done.
  - zslices. done.
Qed.

Ltac eval_kinds :=
  repeat match goal with |- context [bool_decide (?a = ?b)] =>
    let r := eval vm_compute in (bool_decide (a = b)) in change (bool_decide (a = b)) with r
  end; cbv beta iota.

Lemma decode_op_encode op rest : op_ok op -> decode_op (encode_op op ++ rest) = (Ok op, rest).
Proof.
  intros Hop. unfold decode_op, encode_op.
  destruct op as [m s [p|]|m p]; cbn [op_ok] in Hop; destruct Hop as [Hm Hs];
    rewrite <- !app_assoc; cbn [app]; unfold sbind, sget, slift, sput;
    match goal with |- context [znth (?k :: _ ++ _ ++ ?tail) 0] =>
      destruct (decode_op_head k m tail Hm) as (E1 & E2 & E3 & E4) end;
    rewrite E1; cbn [unwrap]; rewrite E2, E3; cbn [ok_or]; rewrite E4; eval_kinds;
    repeat (rewrite next_score_here by first [done|apply Hs]); done.
Qed.

Lemma next_score_no_panic bs : (next_score bs).1 <> Panic.
Proof. unfold next_score, sbind, sget, slift, sput, get_u64. by destruct (get_range bs 0 _). Qed.

Lemma decode_op_no_panic bs : bs <> [] -> (decode_op bs).1 <> Panic.
Proof.
  destruct bs as [|b bs]; [done|]. intros _. unfold decode_op, sbind, sget, slift, sput.
  change (znth (b :: bs) 0) with (Some b). cbn [unwrap].
  unfold get_u32. destruct (get_range (b :: bs) 1 _); cbn [fmap option_fmap option_map ok_or]; [|done].
  destruct (get_range (b :: bs) 5 _); cbn [ok_or]; [|done].
  repeat case_bool_decide; try done; unfold sret;
  repeat match goal with |- context [next_score ?x] =>
    pose proof (next_score_no_panic x); destruct (next_score x) as [[?|?|] ?]; cbn [fst] in * end; done.
Qed.

Lemma decode_op_inv bs op rest : decode_op bs = (Ok op, rest) -> op_ok op /\ bs = encode_op op ++ rest.
Proof.
  unfold decode_op, sbind, sget, slift, sput.
  destruct bs as [|kind bs]; [done|]. change (znth (kind :: bs) 0) with (Some kind). cbn [unwrap].
  destruct (get_u32 (kind :: bs) 1) as [n| |] eqn:En; [|done..].
  destruct (get_range (kind :: bs) 5 (5 + n)) as [m|] eqn:Em; [|done]. cbn [ok_or].
  apply get_u32_inv in En as (_ & _ & En & Hn). apply get_range_inv in Em as (_ & Hn0 & Hlen & ->).
  assert (kind :: bs = [kind] ++ le_bytes 4 n ++ zslice (kind :: bs) 5 (5 + n) ++ zdrop (5 + n) (kind :: bs)) as Hbs.
  { rewrite <- (ztake_zdrop (5 + n) (kind :: bs)) at 1. rewrite !app_assoc. f_equal.
    assert ([kind] = zslice (kind :: bs) 0 1) as -> by (unfold zslice; by rewrite zdrop_0, ztake_take by lia).
    rewrite En. rewrite !zslice_join by lia.
    unfold zslice. rewrite zdrop_0 by lia. f_equal. lia. }
  assert (len (zslice (kind :: bs) 5 (5 + n)) = n) as Hzl by (rewrite len_zslice; lia).
  set (m := zslice (kind :: bs) 5 (5 + n)) in *. set (tl := zdrop (5 + n) (kind :: bs)) in *. rewrite Hbs.
  assert (len m <= u32_max) as Hm by (rewrite Hzl; apply Hn). rewrite <- Hzl.
  repeat case_bool_decide; unfold sret, serr; simplify_eq; try done; intros E;
  repeat match type of E with context [next_score ?x] =>
      let En := fresh "En" in destruct (next_score x) as [[?|?|] ?] eqn:En; try done; apply next_score_inv in En as [? ?] end;
  simplify_eq; (split; [done|]); unfold encode_op; rewrite <- ?app_assoc;
  do 3 f_equal; match goal with E : zdrop _ _ = _ |- _ => by rewrite E end.
Qed.

Lemma decode_ops_loop_spec fuel bs acc :
  (length bs <= fuel)%nat ->
  decode_ops_loop fuel bs acc <> Panic /\
  forall ops, decode_ops_loop fuel bs acc = Ok ops <->
    exists new, ops = acc ++ new /\ Forall op_ok new /\ bs = encode_ops new.
Proof.
  revert bs acc; induction fuel as [|fuel IH]; intros bs acc Hf.
  all: destruct bs as [|b bs]; simpl in Hf.
  1,3: split; [done|]; intros ops; split;
    [intros [= <-]; exists []; by rewrite app_nil_r
    |intros ([|op new] & -> & _ & E); [by rewrite app_nil_r|];
      rewrite encode_ops_cons in E; pose proof (encode_op_long op); apply (f_equal length) in E;
      rewrite length_app in E; simpl in E; lia].
  1: lia.
  cbn [decode_ops_loop]. pose proof (decode_op_no_panic (b :: bs) ltac:(done)) as Hnp.
  destruct (decode_op (b :: bs)) as [[op|e|] rest] eqn:E; [| |done].
  - apply decode_op_inv in E as [Hop E].
    assert (length rest <= fuel)%nat as Hf'.
    { apply (f_equal length) in E. simpl in E. rewrite length_app in E. pose proof (encode_op_long op). lia. }
    destruct (IH rest (acc ++ [op]) Hf') as [Hnp' Hok]. split; [done|]. intros ops. rewrite Hok. split.
    + intros (new & -> & Hnew & ->). exists (op :: new). rewrite encode_ops_cons, <- app_assoc. auto.
    + intros ([|op' new] & -> & Hnew & E'); [done|].
      rewrite encode_ops_cons in E'. inversion Hnew as [|? ? Hop' Hnew']; subst.
      pose proof (decode_op_encode op rest Hop) as D1. rewrite <- E, E', decode_op_encode in D1 by done.
      simplify_eq. exists new. by rewrite <- app_assoc.
  - split; [done|]. intros ops. split; [done|]. intros ([|op new] & -> & Hnew & E'); [done|].
    inversion Hnew; subst. rewrite encode_ops_cons in E'. rewrite E', decode_op_encode in E by done. done.
Qed.

Lemma decode_ops_iff bs ops : decode_ops bs = Ok ops <-> Forall op_ok ops /\ bs = encode_ops ops.
Proof.
  unfold decode_ops. destruct (decode_ops_loop_spec (length bs) bs [] ltac:(lia)) as [_ H]. rewrite H.
  split; [intros (new & -> & ?); done|]. intros ?. by exists ops.
Qed.
Lemma decode_ops_no_panic bs : decode_ops bs <> Panic.
Proof. unfold decode_ops. by destruct (decode_ops_loop_spec (length bs) bs [] ltac:(lia)). Qed.

Definition group_ok (g : Token * list LoggedOp) : Prop :=
  token_ok g.1 /\ Forall op_ok g.2 /\ len (encode_ops g.2) <= u32_max.
Definition undo_ok (u : UndoLog) : Prop := u64_ok (ul_floor u) /\ Forall group_ok (ul_groups u).

Definition encode_groups (gs : list (Token * list LoggedOp)) : bytes := mjoin (encode_group <$> gs).

Lemma encode_groups_cons g gs : encode_groups (g :: gs) = encode_group g ++ encode_groups gs.
Proof. done. Qed.
Lemma undo_encode_eq u : undo_encode u = le_bytes 8 (ul_floor u) ++ encode_groups (ul_groups u).
Proof.
  unfold undo_encode. generalize (le_bytes 8 (ul_floor u)) as out.
  induction (ul_groups u) as [|g gs IH]; intros out; simpl; [by rewrite app_nil_r|].
  rewrite IH. by rewrite encode_groups_cons, <- app_assoc.
Qed.
Lemma encode_group_long g : (20 <= length (encode_group g))%nat.
Proof. unfold encode_group. rewrite !length_app, !length_le_bytes. lia. Qed.

Lemma decode_group_iff rest g rest' :
  decode_group rest = Ok (g, rest') <-> group_ok g /\ rest = encode_group g ++ rest'.
Proof.
  unfold decode_group. split.
  - destruct (get_u64 rest 0) as [i| |] eqn:Ei; cbn [rbind ok_or]; [|done..].
    destruct (get_u64 rest 8) as [o| |] eqn:Eo; cbn [rbind ok_or]; [|done..].
    destruct (get_u32 rest 16) as [n| |] eqn:En; cbn [rbind ok_or]; [|done..].
    destruct (get_range rest 20 (20 + n)) as [bs|] eqn:Eb; cbn [rbind ok_or]; [|done].
    destruct (decode_ops bs) as [ops| |] eqn:Ed; cbn [rbind ok_or]; [|done..]. intros [= <- <-].
    apply decode_ops_iff in Ed as [Hops ->]. apply get_u64_inv in Ei as (_ & _ & Ei & ?), Eo as (_ & _ & Eo & ?).
    apply get_u32_inv in En as (_ & _ & En & [? ?]). apply get_range_inv in Eb as (_ & ? & ? & Eb).
    assert (len (encode_ops ops) = n) as Hl by (rewrite Eb, len_zslice; lia).
    split; [unfold group_ok, token_ok; simpl; rewrite Hl; done|].
    unfold encode_group. cbv zeta. cbn [fst snd tk_index tk_ordinal]. rewrite Hl. rewrite Ei, Eo, En, Eb. simpl Z.add. rewrite !zslice_join by lia.
    unfold zslice. rewrite (zdrop_0 0) by lia. rewrite Z.sub_0_r. by rewrite ztake_zdrop.
  - intros ([[Hi Ho] [Hops Hl]] & ->). unfold encode_group. cbv zeta. rewrite <- !app_assoc.
    len_facts. assert (u32_ok (len (encode_ops g.2))) by (unfold u32_ok; lia). fields. cbn [rbind].
    pose proof (len_le_bytes 8 (tk_index g.1)). pose proof (len_le_bytes 8 (tk_ordinal g.1)).
    pose proof (len_le_bytes 4 (len (encode_ops g.2))). zslices. cbn [ok_or rbind].
    rewrite (proj2 (decode_ops_iff (encode_ops g.2) g.2)) by done. cbn [rbind].
    destruct g as [[] ?]; cbn [fst snd tk_index tk_ordinal] in *. done.
Qed.

Lemma decode_group_no_panic rest : decode_group rest <> Panic.
Proof.
  unfold decode_group, get_u64, get_u32. destruct (get_range rest 0 _); simpl; [|done].
  destruct (get_range rest 8 _); simpl; [|done]. destruct (get_range rest 16 _); simpl; [|done].
  destruct (get_range rest 20 _) as [bs|]; simpl; [|done].
  pose proof (decode_ops_no_panic bs). by destruct (decode_ops bs).
Qed.

Lemma undo_decode_loop_spec fuel rest acc :
  (length rest <= fuel)%nat ->
  undo_decode_loop fuel rest acc <> Panic /\
  forall gs, undo_decode_loop fuel rest acc = Ok gs <->
    exists new, gs = acc ++ new /\ Forall group_ok new /\ rest = encode_groups new.
Proof.
  revert rest acc; induction fuel as [|fuel IH]; intros rest acc Hf.
  all: destruct rest as [|b rest]; simpl in Hf.
  1,3: split; [done|]; intros gs; split;
    [intros [= <-]; exists []; by rewrite app_nil_r
    |intros ([|g new] & -> & _ & E); [by rewrite app_nil_r|];
      rewrite encode_groups_cons in E; pose proof (encode_group_long g); apply (f_equal length) in E;
      rewrite length_app in E; simpl in E; lia].
  1: lia.
  cbn [undo_decode_loop]. pose proof (decode_group_no_panic (b :: rest)) as Hnp.
  destruct (decode_group (b :: rest)) as [[g rest']|e|] eqn:E; [| |done]; cbn [rbind fst snd].
  - pose proof E as E0. apply decode_group_iff in E as [Hg E].
    assert (length rest' <= fuel)%nat as Hf'.
    { apply (f_equal length) in E. simpl in E. rewrite length_app in E. pose proof (encode_group_long g). lia. }
    destruct (IH rest' (acc ++ [g]) Hf') as [Hnp' Hok]. split; [done|]. intros gs. rewrite Hok. split.
    + intros (new & -> & Hnew & ->). exists (g :: new). rewrite encode_groups_cons, <- app_assoc. auto.
    + intros ([|g' new] & -> & Hnew & E'); [done|]. inversion Hnew as [|? ? Hg' Hnew']; subst.
      rewrite E', encode_groups_cons, (proj2 (decode_group_iff _ _ _) (conj Hg' eq_refl)) in E0.
      simplify_eq. exists new. by rewrite <- app_assoc.
  - split; [done|]. intros gs. split; [done|]. intros ([|g new] & -> & Hnew & E'); [done|].
    inversion Hnew as [|? ? Hg' Hnew']; subst.
    by rewrite E', encode_groups_cons, (proj2 (decode_group_iff _ _ _) (conj Hg' eq_refl)) in E.
Qed.

Lemma undo_decode_iff bs u :
  undo_decode bs = Ok u <-> (bs = [] /\ u = undo_default) \/ (undo_ok u /\ bs = undo_encode u).
Proof.
  rewrite undo_encode_eq. destruct bs as [|b bs].
  { cbn [undo_decode]. split; [intros [= <-]; auto|]. intros [[_ ->]|[_ E]]; [done|].
    apply (f_equal length) in E. rewrite length_app, length_le_bytes in E. simpl in E. lia. }
  unfold undo_decode. split.
  - destruct (get_u64 (b :: bs) 0) as [f| |] eqn:Ef; cbn [rbind]; [|done..].
    destruct (undo_decode_loop _ _ _) as [gs| |] eqn:Eg; cbn [rbind]; [|done..]. intros [= <-]. right.
    apply get_u64_inv in Ef as (_ & Hl & Ef & ?).
    apply undo_decode_loop_spec in Eg as (new & -> & ? & Eg).
    + split; [done|]. cbn [ul_floor ul_groups app]. rewrite Ef, <- Eg. unfold zslice. by rewrite zdrop_0, ztake_zdrop by lia.
    + rewrite zdrop_drop, length_drop. simpl. lia.
  - intros [[? _]|[[Hf Hg] E]]; [done|]. rewrite E, get_u64_here by done. cbn [rbind].
    rewrite zdrop_app_ge by (rewrite len_le_bytes; lia). rewrite zdrop_0 by (rewrite len_le_bytes; lia).
    assert (length (encode_groups (ul_groups u)) <=
            length (le_bytes 8 (ul_floor u) ++ encode_groups (ul_groups u)))%nat as Hl by (rewrite length_app; lia).
    rewrite (proj2 (proj2 (undo_decode_loop_spec _ _ [] Hl) (ul_groups u))); [by destruct u|eauto].
Qed.

(** Below the next prefix are exactly the keys of lower or equal scores. *)
Lemma next_score_prefix_bound x y px py m :
  f64_ok x -> f64_ok y -> score_prefix x = Ok px -> score_prefix y = Ok py ->
  exists q, next_score_prefix px = Some q /\ len q = 8 /\ (bytes_lt (py ++ m) q <-> f64_leb y x = true).
Proof.
  intros Hx Hy Hpx Hpy. destruct (score_prefix_be_val _ _ Hx Hpx) as [Ex Bx].
  pose proof (be_val_range px) as Rx. exists (be_bytes 8 (be_val px + 1)).
  unfold next_score_prefix, checked_add64. destruct (Z.leb_spec (be_val px + 1) u64_max); [|lia].
  split; [done|]. split; [by rewrite len_be_bytes|].
  pose proof (score_prefix_len _ _ Hpy) as Ly. unfold f64_leb. rewrite (score_prefix_compare _ _ _ _ Hy Hx Hpy Hpx).
  pose proof (score_prefix_len _ _ Hpx) as Lx. rewrite (be_val_compare py px) by (unfold len in *; lia).
  unfold bytes_lt. rewrite <- (app_nil_r (be_bytes 8 _)), bytes_compare_same_length
    by (rewrite length_be_bytes; unfold len in Ly; lia).
  rewrite be_val_compare by (rewrite length_be_bytes; unfold len in Ly; lia).
  rewrite be_val_u64 by (unfold u64_ok; lia).
  destruct (Z.compare_spec (be_val py) (be_val px + 1)), (Z.compare_spec (be_val py) (be_val px));
    try lia; try done. by destruct m.
Qed.

Lemma prefix_bound x y px py m :
  f64_ok x -> f64_ok y -> score_prefix x = Ok px -> score_prefix y = Ok py ->
  bytes_lt (py ++ m) px <-> f64_geb y x = false.
Proof.
  intros Hx Hy Hpx Hpy. pose proof (score_prefix_len _ _ Hpy) as Ly. pose proof (score_prefix_len _ _ Hpx) as Lx.
  unfold f64_geb. rewrite (score_prefix_compare _ _ _ _ Hy Hx Hpy Hpx).
  unfold bytes_lt. rewrite <- (app_nil_r px) at 1. rewrite bytes_compare_same_length by (unfold len in *; lia).
  destruct (bytes_compare py px); try done. by destruct m.
Qed.

(** C11: score keys sort by score and then by member.  A NaN score has no prefix; for
    other scores, comparing [prefix ++ member] as bytes gives the IEEE comparison of the
    scores (-0 equal to 0) and, between equal scores, the order of the members; and the
    keys below the next prefix of [x] are exactly those with a score of at most [x]. *)
Theorem score_keys_sorted x y mx my :
  f64_ok x -> f64_ok y ->
  match score_prefix x, score_prefix y with
  | Ok px, Ok py =>
      match f64_compare x y with
      | Some Eq => bytes_compare (px ++ mx) (py ++ my) = bytes_compare mx my
      | Some c => bytes_compare (px ++ mx) (py ++ my) = c
      | None => False
      end /\
      exists q, next_score_prefix px = Some q /\ (bytes_lt (py ++ my) q <-> f64_leb y x = true)
  | Err _, _ => f64_is_nan x = true
  | _, Err _ => f64_is_nan y = true
  | _, _ => False
  end.
Proof.
  intros Hx Hy. destruct (f64_is_nan x) eqn:Nx; [by rewrite score_prefix_nan|].
  rewrite (score_prefix_val x) by done.
  destruct (f64_is_nan y) eqn:Ny; [by rewrite score_prefix_nan|]. rewrite (score_prefix_val y) by done.
  pose proof (score_prefix_val x Hx Nx) as Hpx. pose proof (score_prefix_val y Hy Ny) as Hpy. split.
  - rewrite (score_prefix_compare _ _ _ _ Hx Hy Hpx Hpy).
    rewrite bytes_compare_same_length by (by rewrite !length_be_bytes). by destruct (bytes_compare _ _).
  - destruct (next_score_prefix_bound x y _ _ my Hx Hy Hpx Hpy) as (q & ? & _ & ?). eauto.
Qed.

Lemma score_keys_sorted_witness :
  exists px py, score_prefix 13830554455654793216 = Ok px /\ score_prefix 4607182418800017408 = Ok py /\
    bytes_compare (px ++ lit "b") (py ++ lit "a") = Lt.
Proof.
  eexists _, _. split; [vm_compute; reflexivity|]. split; [vm_compute; reflexivity|].
  exact (proj1 (score_keys_sorted 13830554455654793216 4607182418800017408 (lit "b") (lit "a")
    ltac:(unfold f64_ok, u64_ok, u64_max; lia) ltac:(unfold f64_ok, u64_ok, u64_max; lia))).
Defined.

(** The fixed-size structures decode to what was encoded, whatever follows them, and
    a header slot or trailer decodes only from the bytes of its encoding (the decoded
    fields, the magic number and a matching checksum; padding is not read). *)
Theorem zset_headers_roundtrip {C : Crc32fast} {L : Crc32fastLaws C} :
  (forall s bs, slot_decode bs = Some s <-> slot_ok s /\ ztake 44 bs = ztake 44 (slot_encode s)) /\
  (forall t bs, TRAILER_SIZE <= len bs ->
     trailer_decode bs = Some t <-> trailer_ok t /\ ztake 68 bs = ztake 68 (trailer_encode t)) /\
  (forall h rest, frame_header_ok h -> frame_header_decode (frame_header_encode h ++ rest) = Some h).
Proof.
  split_and!; [..|intros; by apply frame_header_decode_encode].
  - intros s bs. pose proof (len_slot_image s).
    rewrite slot_encode_eq, (ztake_app_le 44), (ztake_ge 44 (slot_image s)) by lia.
    split; [apply slot_decode_sound|]. intros [Hs E]. rewrite <- (ztake_zdrop 44 bs), E. by apply slot_decode_image.
  - intros t bs Hl. split; [apply trailer_decode_sound|]. intros [Ht E].
    rewrite <- (ztake_zdrop 68 bs), E. pose proof (len_trailer_encode t) as Hlt. unfold TRAILER_SIZE in *.
    assert (exists r4 rest, zdrop 68 bs = r4 ++ rest /\ len r4 = 4) as (r4 & rest & -> & Hr4).
    { exists (ztake 4 (zdrop 68 bs)), (zdrop 4 (zdrop 68 bs)). rewrite ztake_zdrop. split; [done|].
      rewrite len_ztake, len_zdrop by lia. lia. }
    apply (trailer_decode_prefix t r4 rest Ht Hr4).
Qed.

Lemma undo_decode_no_panic bs : undo_decode bs <> Panic.
Proof.
  destruct bs as [|b bs]; [done|]. unfold undo_decode, get_u64. destruct (get_range _ _ _); cbn [fmap option_fmap option_map ok_or rbind]; [|done].
  assert (length (zdrop 8 (b :: bs)) <= length (b :: bs))%nat as Hl by (rewrite zdrop_drop, length_drop; lia).
  destruct (undo_decode_loop_spec _ _ [] Hl) as [Hnp _]. by destruct (undo_decode_loop _ _ _).
Qed.

(** A frame's logged changes and a base frame's undo log are decoded exactly from
    their canonical encoding: decoding returns a value only for the bytes that encode
    it (and the empty undo log for no bytes at all), and it always returns a value or an
    error. *)
Theorem undo_log_canonical bs :
  (forall ops, decode_ops bs = Ok ops <-> Forall op_ok ops /\ bs = encode_ops ops) /\
  (forall u, undo_decode bs = Ok u <-> (bs = [] /\ u = undo_default) \/ (undo_ok u /\ bs = undo_encode u)) /\
  decode_ops bs <> Panic /\ undo_decode bs <> Panic.
Proof.
  split_and!; [intros; apply decode_ops_iff|intros; apply undo_decode_iff|apply decode_ops_no_panic|
    apply undo_decode_no_panic].
Qed.
