(* ===== verification/Assoc.v ===== *)
(** * Ordered association lists and binary search

    The reference data structure of the sorted-set trees: a list of key/value pairs in
    strictly increasing byte order of the keys, with lookup, insertion, removal and rank
    as plain recursive functions.  The locality lemmas ([aset_mid], [adel_mid],
    [aget_mid], [arank_mid]) say that an operation on a concatenation happens inside
    the part whose keys surround the argument; they carry the proofs about trees.

    [binary_search_by] and [partition_point] are the slice methods of the Rust standard
    library; on sorted keys they compute the rank. *)

From Stdlib Require Import ZArith Lia Sorting.Sorted.
From stdpp Require Import sorting.
From S2P Require Import Prelude Bytes.

Section Assoc.
Context {V : Type}.
Implicit Types es l r m : list (bytes * V).

Fixpoint aget es (k : bytes) : option V :=
  match es with
  | [] => None
  | (k', v) :: es =>
      match bytes_compare k' k with Lt => aget es k | Eq => Some v | Gt => None end
  end.

Fixpoint aset es (k : bytes) (v : V) : list (bytes * V) :=
  match es with
  | [] => [(k, v)]
  | (k', v') :: es' =>
      match bytes_compare k' k with
      | Lt => (k', v') :: aset es' k v
      | Eq => (k, v) :: es'
      | Gt => (k, v) :: es
      end
  end.

Fixpoint adel es (k : bytes) : list (bytes * V) :=
  match es with
  | [] => []
  | (k', v') :: es' =>
      match bytes_compare k' k with
      | Lt => (k', v') :: adel es' k
      | Eq => es'
      | Gt => es
      end
  end.

(** The number of keys below [k]. *)
Fixpoint arank es (k : bytes) : nat :=
  match es with
  | [] => O
  | (k', _) :: es => if bytes_ltb k' k then S (arank es k) else O
  end.

Definition keys_lt es (k : bytes) : Prop := Forall (fun e => bytes_lt e.1 k) es.
Definition keys_ge es (k : bytes) : Prop := Forall (fun e => bytes_le k e.1) es.
Definition keys_gt es (k : bytes) : Prop := Forall (fun e => bytes_lt k e.1) es.

Definition asorted es : Prop := StronglySorted bytes_lt es.*1.

(** ** Sortedness *)

Lemma asorted_nil : asorted [].
Proof. constructor. Qed.
Lemma asorted_cons e es : asorted (e :: es) <-> keys_gt es e.1 /\ asorted es.
Proof.
  unfold asorted, keys_gt. cbn [fmap list_fmap]. split.
  - intros H. apply StronglySorted_inv in H as [? H]. split; [|done]. by rewrite Forall_fmap in H.
  - intros [H ?]. constructor; [done|]. by rewrite Forall_fmap.
Qed.

Lemma asorted_app l r :
  asorted (l ++ r) <-> asorted l /\ asorted r /\ Forall (fun e => keys_lt l e.1) r.
Proof.
  induction l as [|e l IH]; cbn [app].
  { split; [|by intros (_ & ? & _)]. intros H. split_and!; [constructor|done|]. apply Forall_forall. constructor. }
  rewrite !asorted_cons, IH. unfold keys_gt, keys_lt. rewrite Forall_app. split.
  - intros ([H1 H2] & H3 & H4 & H5). split_and!; [done..|]. rewrite !Forall_forall in *. intros x Hx.
    constructor; [by apply H2|by apply H5].
  - intros ((H1 & H2) & H3 & H4). split_and!; [done| |done|done|].
    + eapply Forall_impl; [done|]. intros x Hx. by inversion Hx.
    + eapply Forall_impl; [done|]. intros x Hx. by inversion Hx.
Qed.

Lemma keys_lt_trans es k k' : keys_lt es k -> bytes_le k k' -> keys_lt es k'.
Proof. intros H Hk. eapply Forall_impl; [done|]. intros e He. cbn in *. by eapply bytes_lt_le_trans. Qed.
Lemma keys_ge_trans es k k' : keys_ge es k -> bytes_lt k' k -> keys_gt es k'.
Proof. intros H Hk. eapply Forall_impl; [done|]. intros e He. cbn in *. by eapply bytes_lt_le_trans. Qed.
Lemma keys_ge_trans' es k k' : keys_ge es k -> bytes_le k' k -> keys_ge es k'.
Proof. intros H Hk. eapply Forall_impl; [done|]. intros e He. cbn in *. by eapply bytes_le_trans. Qed.

Lemma compare_lt_Gt a b : bytes_lt a b -> bytes_compare b a = Gt.
Proof. unfold bytes_lt. intros H. by rewrite bytes_compare_antisym, H. Qed.

(** ** Locality *)

Lemma aget_mid l m r k : keys_lt l k -> keys_gt r k -> aget (l ++ m ++ r) k = aget m k.
Proof.
  intros Hl Hr. induction Hl as [|[k' v'] l Hk _ IH]; cbn [app aget].
  - induction m as [|[k' v'] m IH]; cbn [app aget]; [|by rewrite IH].
    destruct Hr as [|[k' v'] r Hk _]; [done|]. cbn. by rewrite compare_lt_Gt.
  - cbn in Hk. unfold bytes_lt in Hk. by rewrite Hk.
Qed.
Lemma aset_mid l m r k v : keys_lt l k -> keys_gt r k -> aset (l ++ m ++ r) k v = l ++ aset m k v ++ r.
Proof.
  intros Hl Hr. induction Hl as [|[k' v'] l Hk _ IH]; cbn [app aset].
  - induction m as [|[k' v'] m IH]; cbn [app aset].
    + destruct Hr as [|[k' v'] r Hk _]; [done|]. cbn. by rewrite compare_lt_Gt.
    + destruct (bytes_compare k' k); [done| |done]. by rewrite IH.
  - cbn in Hk. unfold bytes_lt in Hk. by rewrite Hk, IH.
Qed.
Lemma adel_mid l m r k : keys_lt l k -> keys_gt r k -> adel (l ++ m ++ r) k = l ++ adel m k ++ r.
Proof.
  intros Hl Hr. induction Hl as [|[k' v'] l Hk _ IH]; cbn [app adel].
  - induction m as [|[k' v'] m IH]; cbn [app adel].
    + destruct Hr as [|[k' v'] r Hk _]; [done|]. cbn. by rewrite compare_lt_Gt.
    + destruct (bytes_compare k' k); [done| |done]. by rewrite IH.
  - cbn in Hk. unfold bytes_lt in Hk. by rewrite Hk, IH.
Qed.
Lemma arank_mid l m r k : keys_lt l k -> keys_gt r k -> arank (l ++ m ++ r) k = (length l + arank m k)%nat.
Proof.
  intros Hl Hr. induction Hl as [|[k' v'] l Hk _ IH]; cbn [app arank].
  - induction m as [|[k' v'] m IH]; cbn [app arank].
    + destruct Hr as [|[k' v'] r Hk _]; [done|]. cbn. unfold bytes_ltb. by rewrite compare_lt_Gt.
    + cbn [length plus] in IH |- *. destruct (bytes_ltb k' k); [|done]. by rewrite IH.
  - cbn in Hk. destruct (bytes_ltb_spec k' k); [|done]. rewrite IH. cbn. lia.
Qed.

(** ** The operations keep order *)

Lemma aset_keys es k v (P : bytes -> Prop) : Forall (fun e => P e.1) es -> P k -> Forall (fun e => P e.1) (aset es k v).
Proof.
  intros H Hk. induction H as [|[k' v'] es He Hes IH]; cbn [aset]; [by constructor|].
  destruct (bytes_compare k' k); constructor; try done; by constructor.
Qed.
Lemma adel_keys es k (P : bytes -> Prop) : Forall (fun e => P e.1) es -> Forall (fun e => P e.1) (adel es k).
Proof.
  intros H. induction H as [|[k' v'] es He ? IH]; cbn [adel]; [by constructor|].
  destruct (bytes_compare k' k); try done; by constructor.
Qed.
Lemma aset_sorted es k v : asorted es -> asorted (aset es k v).
Proof.
  induction es as [|[k' v'] es IH]; cbn [aset]; intros Hs.
  { apply asorted_cons. split; [constructor|constructor]. }
  pose proof Hs as Hs'. apply asorted_cons in Hs' as [Hk Hes]. cbn in Hk.
  destruct (bytes_compare k' k) eqn:E.
  - apply bytes_compare_eq in E as <-. apply asorted_cons. by split.
  - apply asorted_cons. split; [|by apply IH]. by apply (aset_keys es k v (bytes_lt k')).
  - apply asorted_cons. split; [|done]. cbn.
    assert (bytes_lt k k') by (unfold bytes_lt; by rewrite bytes_compare_antisym, E).
    constructor; [done|]. eapply Forall_impl; [done|]. intros e ?. cbn in *. by eapply bytes_lt_trans.
Qed.
Lemma adel_sorted es k : asorted es -> asorted (adel es k).
Proof.
  induction es as [|[k' v'] es IH]; cbn [adel]; intros Hs; [done|].
  pose proof Hs as Hs'. apply asorted_cons in Hs' as [Hk Hes].
  destruct (bytes_compare k' k); [done| |done]. apply asorted_cons. split; [|by apply IH].
  by apply (adel_keys es k (bytes_lt k')).
Qed.

Lemma aset_length es k v : length (aset es k v) = (match aget es k with Some _ => length es | None => S (length es) end).
Proof.
  induction es as [|[k' v'] es IH]; cbn [aset aget]; [done|].
  destruct (bytes_compare k' k); cbn [length]; [done| |done]. rewrite IH. by destruct (aget es k).
Qed.
Lemma adel_length es k : is_Some (aget es k) -> length es = S (length (adel es k)).
Proof.
  induction es as [|[k' v'] es IH]; cbn [adel aget]; [by intros []|].
  destruct (bytes_compare k' k); cbn [length]; [done| |by intros []]. intros H. by rewrite (IH H).
Qed.
Lemma adel_absent es k : aget es k = None -> adel es k = es.
Proof.
  induction es as [|[k' v'] es IH]; cbn [adel aget]; [done|].
  destruct (bytes_compare k' k); [done| |done]. intros H. by rewrite IH.
Qed.

(** ** Lookup after the operations *)

Lemma aget_aset es k v k' : asorted es -> aget (aset es k v) k' = if bytes_eqb k k' then Some v else aget es k'.
Proof.
  induction es as [|[k0 v0] es IH]; intros Hs; cbn [aset aget].
  { unfold bytes_eqb. by destruct (bytes_compare k k'). }
  apply asorted_cons in Hs as [Hk Hs]. cbn in Hk.
  destruct (bytes_compare k0 k) eqn:E.
  - apply bytes_compare_eq in E as ->. cbn [aget]. unfold bytes_eqb. by destruct (bytes_compare k k').
  - cbn [aget]. rewrite IH by done. destruct (bytes_eqb_spec k k') as [->|]; [by rewrite E|done].
  - cbn [aget]. unfold bytes_eqb. destruct (bytes_compare k k') eqn:E'; try done.
    assert (bytes_lt k k0) as Hlt by (unfold bytes_lt; by rewrite bytes_compare_antisym, E).
    assert (bytes_lt k' k) as Hlt' by (unfold bytes_lt; by rewrite bytes_compare_antisym, E').
    by rewrite compare_lt_Gt by (by eapply bytes_lt_trans).
Qed.
Lemma aget_gt es k : keys_gt es k -> aget es k = None.
Proof. destruct 1 as [|[k' v'] es Hk _]; [done|]. cbn. by rewrite compare_lt_Gt. Qed.
Lemma aget_adel es k k' : asorted es -> aget (adel es k) k' = if bytes_eqb k k' then None else aget es k'.
Proof.
  induction es as [|[k0 v0] es IH]; intros Hs; cbn [adel aget].
  { by destruct (bytes_eqb k k'). }
  apply asorted_cons in Hs as [Hk Hs]. cbn in Hk.
  destruct (bytes_compare k0 k) eqn:E.
  - apply bytes_compare_eq in E as ->. destruct (bytes_eqb_spec k k') as [->|Hne]; [by apply aget_gt|].
    destruct (bytes_compare k k') eqn:E'; [by apply bytes_compare_eq in E'|done|].
    apply aget_gt. eapply Forall_impl; [done|]. cbn. intros e He.
    eapply bytes_lt_trans; [|done]. unfold bytes_lt. by rewrite bytes_compare_antisym, E'.
  - cbn [aget]. rewrite IH by done. destruct (bytes_eqb_spec k k') as [->|]; [by rewrite E|done].
  - cbn [aget]. destruct (bytes_eqb_spec k k') as [->|]; [by rewrite E|done].
Qed.

Lemma aget_elem es k v : asorted es -> aget es k = Some v <-> (k, v) ∈ es.
Proof.
  induction es as [|[k0 v0] es IH]; intros Hs; cbn [aget].
  { split; [done|]. by intros ?%not_elem_of_nil. }
  apply asorted_cons in Hs as [Hk Hs]. cbn in Hk. rewrite elem_of_cons.
  destruct (bytes_compare k0 k) eqn:E.
  - apply bytes_compare_eq in E as ->. split; [intros [= ->]; by left|]. intros [[= ->]|H]; [done|].
    exfalso. unfold keys_gt in Hk. rewrite Forall_forall in Hk. apply Hk in H. by apply bytes_lt_irrefl in H.
  - rewrite IH by done. split; [by right|]. intros [[= -> ->]|?]; [|done]. by rewrite bytes_compare_refl in E.
  - split; [done|]. intros [[= -> ->]|H]; [by rewrite bytes_compare_refl in E|].
    exfalso. unfold keys_gt in Hk. rewrite Forall_forall in Hk. apply Hk in H. cbn in H. unfold bytes_lt in H. congruence.
Qed.

(** A sorted list splits around a key. *)
Lemma asplit es k :
  asorted es ->
  exists lo eq hi, es = lo ++ eq ++ hi /\ keys_lt lo k /\ keys_gt hi k /\
    ((eq = [] /\ aget es k = None) \/ exists v, eq = [(k, v)] /\ aget es k = Some v).
Proof.
  induction es as [|[k0 v0] es IH]; intros Hs.
  { exists [], [], []. split_and!; try constructor; done. }
  apply asorted_cons in Hs as [Hk Hs]. cbn in Hk. cbn [aget]. destruct (bytes_compare k0 k) eqn:E.
  - apply bytes_compare_eq in E as ->. exists [], [(k, v0)], es. split_and!; [done|constructor|done|]. right. eauto.
  - destruct (IH Hs) as (lo & eq & hi & -> & Hlo & Hhi & Heq). exists ((k0, v0) :: lo), eq, hi.
    split_and!; [done| |done|done]. by constructor.
  - exists [], [], ((k0, v0) :: es). split_and!; [done|constructor| |by left].
    assert (bytes_lt k k0) as Hlt by (unfold bytes_lt; by rewrite bytes_compare_antisym, E).
    constructor; [done|]. eapply Forall_impl; [done|]. cbn. intros e He. by eapply bytes_lt_trans.
Qed.

Lemma arank_le es k : (arank es k <= length es)%nat.
Proof. induction es as [|[k' v'] es IH]; cbn [arank length]; [lia|]. destruct (bytes_ltb k' k); lia. Qed.

End Assoc.

(** ** Binary search of the standard library *)

(** [slice::binary_search_by]: the size halves at each step, so it is fuel enough. *)
Fixpoint binary_search_loop {A : Type} (fuel : nat) (f : A -> comparison) (l : list A) (base size : nat) : nat :=
  if (1 <? size)%nat then
    match fuel with
    | O => base
    | S fuel =>
        let half := (size / 2)%nat in
        let mid := (base + half)%nat in
        let base := match f <$> l !! mid with Some Gt | None => base | _ => mid end in
        binary_search_loop fuel f l base (size - half)
    end
  else base.

Definition binary_search_by {A : Type} (f : A -> comparison) (l : list A) : nat + nat :=
  let base := binary_search_loop (length l) f l 0 (length l) in
  match f <$> l !! base with
  | None => inr O
  | Some Eq => inl base
  | Some Lt => inr (base + 1)%nat
  | Some Gt => inr base
  end.

Definition partition_point {A : Type} (p : A -> bool) (l : list A) : nat :=
  match binary_search_by (fun x => if p x then Lt else Gt) l with inl i | inr i => i end.

Lemma binary_search_loop_spec {A : Type} fuel (f : A -> comparison) l base size :
  (size <= S fuel)%nat -> (0 < size)%nat -> (base + size <= length l)%nat ->
  (forall i x, l !! i = Some x -> (base + size <= i)%nat -> f x = Gt) ->
  (forall x, l !! base = Some x -> f x = Gt -> base = O) ->
  (forall i j x y, l !! i = Some x -> l !! j = Some y -> (i <= j)%nat -> f x = Gt -> f y = Gt) ->
  let b := binary_search_loop fuel f l base size in
  (b < length l)%nat /\ (forall i x, l !! i = Some x -> (b < i)%nat -> f x = Gt) /\
  (forall x, l !! b = Some x -> f x = Gt -> b = O).
Proof.
  intros Hf Hs Hb Hgt Hbase Hmono. revert base size Hf Hs Hb Hgt Hbase.
  induction fuel as [|fuel IH]; intros base size Hf Hs Hb Hgt Hbase; cbn [binary_search_loop].
  - assert (size = 1)%nat as -> by lia. cbn. split_and!; [lia| |done]. intros i x Hi Hlt. apply (Hgt i x Hi). lia.
  - destruct (Nat.ltb_spec 1 size).
    + set (half := (size / 2)%nat). assert (0 < half < size)%nat as Hh.
      { split; [apply Nat.div_str_pos; lia|apply Nat.div_lt; lia]. }
      assert (2 * half <= size)%nat as Hh2 by (apply Nat.Div0.mul_div_le).
      destruct (l !! (base + half)%nat) as [x|] eqn:Ex; cbn [fmap option_fmap option_map].
      2:{ apply lookup_ge_None in Ex. lia. }
      destruct (f x) eqn:Efx; (apply IH; [lia|lia| | |]).
      all: try (intros; lia); try lia.
      * intros i y Hi Hle. apply (Hgt i y Hi). lia.
      * intros y Hy Hg. rewrite Ex in Hy. simplify_eq. congruence.
      * intros i y Hi Hle. apply (Hgt i y Hi). lia.
      * intros y Hy Hg. rewrite Ex in Hy. simplify_eq. congruence.
      * intros i y Hi Hle. eapply (Hmono (base + half)%nat i x y); try done. lia.
      * done.
    + assert (size = 1)%nat as -> by lia. split_and!; [lia| |done]. intros i x Hi Hlt. apply (Hgt i x Hi). lia.
Qed.

(** On a list ordered below, at and above, with at most one element at, the search
    finds the position. *)
Lemma binary_search_by_spec {A : Type} (f : A -> comparison) (lo eq hi : list A) :
  Forall (fun x => f x = Lt) lo -> Forall (fun x => f x = Eq) eq -> Forall (fun x => f x = Gt) hi ->
  (length eq <= 1)%nat ->
  binary_search_by f (lo ++ eq ++ hi) = if eq is _ :: _ then inl (length lo) else inr (length lo).
Proof.
  intros Hlo Heq Hhi Hone. unfold binary_search_by. set (l := lo ++ eq ++ hi).
  rewrite Forall_lookup in Hlo, Heq, Hhi.
  assert (forall i x, l !! i = Some x ->
    (f x = Lt /\ (i < length lo)%nat) \/ (f x = Eq /\ eq <> [] /\ i = length lo) \/
    (f x = Gt /\ (length lo + length eq <= i)%nat)) as Hl.
  { intros i x. unfold l. rewrite !lookup_app_Some. intros [H|[Hle [H|[Hle' H]]]].
    - left. split; [eauto|]. by eapply lookup_lt_Some.
    - right; left. pose proof (lookup_lt_Some _ _ _ H). split; [eauto|]. split; [by intros ->|lia].
    - right; right. split; [eauto|lia]. }
  assert (length l = length lo + length eq + length hi)%nat as Hlen.
  { change l with (lo ++ eq ++ hi). rewrite !length_app. lia. }
  clearbody l. destruct (decide (length l = 0)%nat) as [H0|H0].
  { destruct l; [|done]. destruct lo, eq; done. }
  destruct (binary_search_loop_spec (length l) f l 0 (length l)) as (Hb & Hgt & Hbase); try lia.
  { intros i x Hi Hle. apply lookup_lt_Some in Hi. lia. }
  { intros i j x y Hi Hj Hle Hg. destruct (Hl i x Hi) as [[? ?]|[[? ?]|[_ Hx]]]; [congruence..|].
    destruct (Hl j y Hj) as [[? ?]|[(? & Hne & ?)|[Hy ?]]]; [lia| |done]. destruct eq; [done|cbn in Hx; lia]. }
  set (b := binary_search_loop (length l) f l 0 (length l)) in *.
  destruct (l !! b) as [x|] eqn:Ex; cbn [fmap option_fmap option_map].
  2:{ apply lookup_ge_None in Ex. lia. }
  destruct (Hl b x Ex) as [[Hf Hi]|[(Hf & Hne & Hi)|[Hf Hi]]]; rewrite Hf.
  - assert (S b = length lo /\ eq = []) as [<- ->].
    { destruct (decide (S b < length lo + length eq)%nat) as [Hlt|].
      - destruct (lookup_lt_is_Some_2 l (S b) ltac:(lia)) as [y Hy].
        pose proof (Hgt (S b) y Hy ltac:(lia)) as Hg. destruct (Hl (S b) y Hy) as [[? _]|[[? _]|[_ ?]]]; [congruence..|lia].
      - destruct eq; [cbn in *; split; [lia|done]|cbn in *; lia]. }
    f_equal. lia.
  - rewrite Hi. by destruct eq.
  - rewrite (Hbase x eq_refl Hf) in *. destruct eq; [|cbn in Hi; lia]. f_equal. cbn in Hi. lia.
Qed.

Lemma partition_point_spec {A : Type} (p : A -> bool) (lo hi : list A) :
  Forall (fun x => p x = true) lo -> Forall (fun x => p x = false) hi ->
  partition_point p (lo ++ hi) = length lo.
Proof.
  intros Hlo Hhi. unfold partition_point.
  rewrite (binary_search_by_spec _ lo [] hi); [done| | |..].
  - eapply Forall_impl; [done|]. by intros x ->.
  - constructor.
  - eapply Forall_impl; [done|]. by intros x ->.
  - cbn. lia.
Qed.
