(* ===== verification/ZsetNode.v ===== *)
(** * Sorted-set tree nodes and their pages ([zset_tree/node.rs])

    A node is a leaf (keys with values) or a branch (separators, children and the
    number of keys under each child).  A node is written as one checksummed page of
    [PAGE_SIZE] bytes; keys longer than [INLINE_KEY_MAX] keep a prefix in the page and
    their bytes in a chain of overflow pages, read back by the [read_overflow]
    argument.

    [decode_node] copies a whole node out of its page, [PageView] compares keys where
    they lie.  The theorems show that a written node is read back as it was, whatever
    reader of overflow chains returns the long keys, and that the in-place view answers
    every question as the decoded node does. *)

From Stdlib Require Import ZArith Lia.
From S2P Require Import Prelude Bytes Crc F64 ZsetFormat Assoc.

Definition PAGE_HEADER : Z := 16.
Definition KIND_LEAF : Z := 1.
Definition KIND_BRANCH : Z := 2.
Definition KIND_OVERFLOW : Z := 3.
Definition OVERFLOW_KEY_SIZE : Z := 1 + 4 + OVERFLOW_PREFIX + 8.
Definition OVERFLOW_PAYLOAD : Z := PAGE_SIZE - PAGE_HEADER - 8.

Record Key : Type := mkKey { k_bytes : bytes; k_overflow : option Z }.
Definition key_new (bs : bytes) : Key := mkKey bs None.

Definition is_long (bs : bytes) : bool := INLINE_KEY_MAX <? len bs.

Definition key_encoded_len (k : Key) : Z :=
  if is_long (k_bytes k) then OVERFLOW_KEY_SIZE else 3 + len (k_bytes k).

(** A page on disk, or the index of a node changed in this transaction. *)
Inductive Child : Type :=
| Disk (offset : Z)
| Dirty (index : nat).
#[global] Instance child_eq_dec : EqDecision Child.
Proof. solve_decision. Defined.
Definition EMPTY : Child := Disk 0.

Record Leaf : Type := mkLeaf { lf_keys : list Key; lf_values : list bytes }.
Record Branch : Type := mkBranch { br_keys : list Key; br_children : list Child; br_counts : list Z }.
Inductive Node : Type :=
| NLeaf (leaf : Leaf)
| NBranch (branch : Branch).

Definition zsum (l : list Z) : Z := fold_right Z.add 0 l.

Definition entry_size (kv : Key * bytes) : Z := key_encoded_len kv.1 + 2 + len kv.2.
Definition sep_size (k : Key) : Z := key_encoded_len k + 16.

Definition leaf_encoded_len (l : Leaf) : Z :=
  PAGE_HEADER + zsum (entry_size <$> zip (lf_keys l) (lf_values l)).
Definition branch_encoded_len (b : Branch) : Z :=
  PAGE_HEADER + 16 + zsum (sep_size <$> br_keys b).
Definition total (b : Branch) : Z := sum64 (br_counts b).
Definition encoded_len (n : Node) : Z :=
  match n with NLeaf l => leaf_encoded_len l | NBranch b => branch_encoded_len b end.
Definition node_count (n : Node) : Z :=
  match n with NLeaf l => len (lf_keys l) | NBranch b => total b end.

Section WithCrc.
Context {C : Crc32fast}.

Definition page_header (kind n used : Z) : bytes :=
  [byte_of kind] ++ [x00] ++ le_bytes 2 n ++ le_bytes 4 used ++ replicate 8 x00.

Definition seal (page : bytes) : bytes :=
  let used := len page in
  let checksum := crc [zslice page 0 8; zslice page 12 used] in
  resize (Z.to_nat PAGE_SIZE) x00 (copy_from_slice page 8 (le_bytes 4 checksum)).

Definition encode_key (k : Key) : result bytes :=
  if is_long (k_bytes k) then
    let? head := ok_or (k_overflow k) "zset tree: long key written before its overflow pages" in
    Ok ([x01] ++ le_bytes 4 (len (k_bytes k)) ++ ztake OVERFLOW_PREFIX (k_bytes k) ++ le_bytes 8 head)
  else
    Ok ([x00] ++ le_bytes 2 (len (k_bytes k)) ++ k_bytes k).

Fixpoint encode_leaf_entries (entries : list (Key * bytes)) (page : bytes) : result bytes :=
  match entries with
  | [] => Ok page
  | (key, value) :: entries =>
      let? k := encode_key key in
      encode_leaf_entries entries (page ++ k ++ le_bytes 2 (len value) ++ value)
  end.

(** [branch.children[i]] and [branch.counts[i]] panic out of range. *)
Definition encode_child (b : Branch) (child_offset : Child -> result Z) (i : nat) : result bytes :=
  let? child := unwrap (br_children b !! i) in
  let? offset := child_offset child in
  let? count := unwrap (br_counts b !! i) in
  Ok (le_bytes 8 offset ++ le_bytes 8 count).

Fixpoint encode_branch_entries (b : Branch) (child_offset : Child -> result Z) (i : nat) (keys : list Key)
    (page : bytes) : result bytes :=
  match keys with
  | [] => Ok page
  | key :: keys =>
      let? k := encode_key key in
      let? c := encode_child b child_offset (i + 1) in
      encode_branch_entries b child_offset (i + 1) keys (page ++ k ++ c)
  end.

Definition encode_node (node : Node) (child_offset : Child -> result Z) : result bytes :=
  let used := encoded_len node in
  if PAGE_SIZE <? used then Err ("zset tree: node of " +:+ pretty used +:+ " bytes does not fit a page") else
  let? page :=
    match node with
    | NLeaf leaf =>
        encode_leaf_entries (zip (lf_keys leaf) (lf_values leaf)) (page_header KIND_LEAF (len (lf_keys leaf)) used)
    | NBranch branch =>
        let? first := encode_child branch child_offset 0 in
        encode_branch_entries branch child_offset 0 (br_keys branch)
          (page_header KIND_BRANCH (len (br_children branch)) used ++ first)
    end in
  Ok (seal page).

(** [bytes.chunks(OVERFLOW_PAYLOAD)]; the fuel is the length, each chunk takes at least
    one byte. *)
Fixpoint chunks (fuel : nat) (n : Z) (l : bytes) : list bytes :=
  match l with
  | [] => []
  | _ => match fuel with O => [] | S fuel => ztake n l :: chunks fuel n (zdrop n l) end
  end.

Fixpoint encode_chunks (i : Z) (n : Z) (first_offset : Z) (cs : list bytes) : list bytes :=
  match cs with
  | [] => []
  | chunk :: cs =>
      let next := if i + 1 <? n then first_offset + (i + 1) * PAGE_SIZE else 0 in
      let used := PAGE_HEADER + 8 + len chunk in
      seal (page_header KIND_OVERFLOW 0 used ++ le_bytes 8 next ++ chunk) ::
      encode_chunks (i + 1) n first_offset cs
  end.

Definition encode_overflow (bs : bytes) (first_offset : Z) : list bytes :=
  let cs := chunks (length bs) OVERFLOW_PAYLOAD bs in
  encode_chunks 0 (len cs) first_offset cs.

Definition verify_page (page : bytes) : result (Z * Z * Z) :=
  if negb (len page =? PAGE_SIZE) then Err "zset tree: short page" else
  let? n := get_u16 page 2 in
  let? used := get_u32 page 4 in
  if negb ((PAGE_HEADER <=? used) && (used <=? PAGE_SIZE)) then Err "zset tree: page length out of range" else
  let? checksum := get_u32 page 8 in
  if negb (crc [zslice page 0 8; zslice page 12 used] =? checksum) then Err "zset tree: page checksum mismatch" else
  let? kind := unwrap (znth page 0) in
  Ok (byte_val kind, n, used).

(** [&page[PAGE_HEADER + 8..used]] panics when the used length ends before it. *)
Definition decode_overflow (page : bytes) : result (Z * bytes) :=
  let? v := verify_page page in
  let '(kind, _, used) := v in
  if negb (kind =? KIND_OVERFLOW) then Err "zset tree: expected an overflow page" else
  let? next := get_u64 page PAGE_HEADER in
  let? chunk := unwrap (get_range page (PAGE_HEADER + 8) used) in
  Ok (next, chunk).

Inductive StoredKey : Type :=
| Inline (bs : bytes)
| Overflow (length_ : Z) (prefix : bytes) (head : Z).

(** The key at [at_] and the position after it. *)
Definition stored_key (page : bytes) (at_ : Z) : result (StoredKey * Z) :=
  match znth page at_ with
  | Some x00 =>
      let? length_ := get_u16 page (at_ + 1) in
      let? bs := ok_or (get_range page (at_ + 3) (at_ + 3 + length_)) "zset tree: truncated key" in
      Ok (Inline bs, at_ + 3 + length_)
  | Some x01 =>
      let? length_ := get_u32 page (at_ + 1) in
      let? prefix := ok_or (get_range page (at_ + 5) (at_ + 5 + OVERFLOW_PREFIX)) "zset tree: truncated key" in
      let? head := get_u64 page (at_ + 5 + OVERFLOW_PREFIX) in
      Ok (Overflow length_ prefix head, at_ + OVERFLOW_KEY_SIZE)
  | _ => Err "zset tree: unknown key encoding"
  end.

Section WithOverflow.
Variable read_overflow : Z -> Z -> result bytes.

Definition stored_bytes (k : StoredKey) : result bytes :=
  match k with
  | Inline bs => Ok bs
  | Overflow length_ prefix head =>
      let? bs := read_overflow head length_ in
      if negb (len bs =? length_) then Err "zset tree: overflow key does not match its prefix" else
      let? first := unwrap (get_range bs 0 OVERFLOW_PREFIX) in
      if negb (bytes_eqb first prefix) then Err "zset tree: overflow key does not match its prefix" else
      Ok bs
  end.

Definition stored_cmp (k : StoredKey) (key : bytes) : result comparison :=
  match k with
  | Inline bs => Ok (bytes_compare bs key)
  | Overflow _ prefix _ =>
      match bytes_compare prefix (ztake (Z.min (len key) OVERFLOW_PREFIX) key) with
      | Eq => let? bs := stored_bytes k in Ok (bytes_compare bs key)
      | order => Ok order
      end
  end.

Definition decode_key (page : bytes) (at_ : Z) : result (Key * Z) :=
  let? stored := stored_key page at_ in
  let? bs := stored_bytes stored.1 in
  Ok (mkKey bs match stored.1 with Inline _ => None | Overflow _ _ head => Some head end, stored.2).

Fixpoint decode_leaf_entries (n : nat) (page : bytes) (at_ : Z) (keys : list Key) (values : list bytes)
    : result Leaf :=
  match n with
  | O => Ok (mkLeaf keys values)
  | S n =>
      let? k := decode_key page at_ in
      let at_ := k.2 in
      let? length_ := get_u16 page at_ in
      let? value := ok_or (get_range page (at_ + 2) (at_ + 2 + length_)) "zset tree: truncated value" in
      decode_leaf_entries n page (at_ + 2 + length_) (keys ++ [k.1]) (values ++ [value])
  end.

Fixpoint decode_branch_entries (n : nat) (page : bytes) (at_ : Z) (b : Branch) : result Branch :=
  match n with
  | O => Ok b
  | S n =>
      let? k := decode_key page at_ in
      let at_ := k.2 in
      let? child := get_u64 page at_ in
      let? count := get_u64 page (at_ + 8) in
      decode_branch_entries n page (at_ + 16)
        (mkBranch (br_keys b ++ [k.1]) (br_children b ++ [Disk child]) (br_counts b ++ [count]))
  end.

Definition decode_node (page : bytes) : result Node :=
  let? v := verify_page page in
  let '(kind, n, used) := v in
  let page := ztake used page in
  if kind =? KIND_LEAF then
    let? leaf := decode_leaf_entries (Z.to_nat n) page PAGE_HEADER [] [] in
    Ok (NLeaf leaf)
  else if kind =? KIND_BRANCH then
    if n <? 2 then Err "zset tree: branch with fewer than two children" else
    let? child := get_u64 page PAGE_HEADER in
    let? count := get_u64 page (PAGE_HEADER + 8) in
    let? branch := decode_branch_entries (Z.to_nat n - 1) page (PAGE_HEADER + 16) (mkBranch [] [Disk child] [count]) in
    Ok (NBranch branch)
  else Err "zset tree: expected a leaf or branch page".

(** ** Pages read in place *)

Record PageView : Type := mkPageView {
  pv_page : bytes;
  pv_leaf : bool;
  pv_entries : list (StoredKey * Z);
}.

Fixpoint view_leaf_entries (n : nat) (page : bytes) (at_ : Z) (entries : list (StoredKey * Z))
    : result (list (StoredKey * Z)) :=
  match n with
  | O => Ok entries
  | S n =>
      let? k := stored_key page at_ in
      let at_ := k.2 in
      let? length_ := get_u16 page at_ in
      let? _ := ok_or (get_range page (at_ + 2) (at_ + 2 + length_)) "zset tree: truncated entry" in
      view_leaf_entries n page (at_ + 2 + length_) (entries ++ [(k.1, at_)])
  end.

Fixpoint view_branch_entries (n : nat) (page : bytes) (at_ : Z) (entries : list (StoredKey * Z))
    : result (list (StoredKey * Z)) :=
  match n with
  | O => Ok entries
  | S n =>
      let? k := stored_key page at_ in
      let at_ := k.2 in
      let? _ := ok_or (get_range page at_ (at_ + 16)) "zset tree: truncated entry" in
      view_branch_entries n page (at_ + 16) (entries ++ [(k.1, at_)])
  end.

Definition view_read (page : bytes) : result PageView :=
  let? v := verify_page page in
  let '(kind, n, used) := v in
  let page := ztake used page in
  if kind =? KIND_LEAF then
    let? entries := view_leaf_entries (Z.to_nat n) page PAGE_HEADER [] in
    Ok (mkPageView page true entries)
  else if kind =? KIND_BRANCH then
    if n <? 2 then Err "zset tree: branch with fewer than two children" else
    let? _ := ok_or (get_range page PAGE_HEADER (PAGE_HEADER + 16)) "zset tree: truncated entry" in
    let? entries := view_branch_entries (Z.to_nat n - 1) page (PAGE_HEADER + 16) [] in
    Ok (mkPageView page false entries)
  else Err "zset tree: expected a leaf or branch page".

Definition view_len (v : PageView) : nat := length (pv_entries v).
Definition view_children (v : PageView) : nat := (length (pv_entries v) + 1)%nat.

(** [self.entries[i]] panics out of range, as do the slices. *)
Definition view_key (v : PageView) (i : nat) : result bytes :=
  let? e := unwrap (pv_entries v !! i) in stored_bytes e.1.

Definition view_value (v : PageView) (i : nat) : result bytes :=
  let? e := unwrap (pv_entries v !! i) in
  let? b := unwrap (get_range (pv_page v) e.2 (e.2 + 2)) in
  let length_ := le_val b in
  unwrap (get_range (pv_page v) (e.2 + 2) (e.2 + 2 + length_)).

Fixpoint view_search_loop (fuel : nat) (v : PageView) (key : bytes) (low high : nat) : result (nat + nat) :=
  if (low <? high)%nat then
    match fuel with
    | O => Panic
    | S fuel =>
        let mid := (low + (high - low) / 2)%nat in
        let? e := unwrap (pv_entries v !! mid) in
        let? order := stored_cmp e.1 key in
        match order with
        | Lt => view_search_loop fuel v key (mid + 1) high
        | Gt => view_search_loop fuel v key low mid
        | Eq => Ok (inl mid)
        end
    end
  else Ok (inr low).
Definition view_search (v : PageView) (key : bytes) : result (nat + nat) :=
  view_search_loop (length (pv_entries v)) v key 0 (length (pv_entries v)).

Fixpoint view_child_index_loop (fuel : nat) (v : PageView) (key : bytes) (low high : nat) : result nat :=
  if (low <? high)%nat then
    match fuel with
    | O => Panic
    | S fuel =>
        let mid := (low + (high - low) / 2)%nat in
        let? e := unwrap (pv_entries v !! mid) in
        let? order := stored_cmp e.1 key in
        match order with
        | Gt => view_child_index_loop fuel v key low mid
        | _ => view_child_index_loop fuel v key (mid + 1) high
        end
    end
  else Ok low.
Definition view_child_index (v : PageView) (key : bytes) : result nat :=
  view_child_index_loop (length (pv_entries v)) v key 0 (length (pv_entries v)).

Definition view_child (v : PageView) (i : nat) : result (Z * Z) :=
  let? at_ := match i with
              | O => Ok PAGE_HEADER
              | S j => let? e := unwrap (pv_entries v !! j) in Ok e.2
              end in
  let? offset := get_u64 (pv_page v) at_ in
  let? count := get_u64 (pv_page v) (at_ + 8) in
  Ok (offset, count).

End WithOverflow.
End WithCrc.

(** ** Positions in a page *)

Lemma get_u16_at page pre z post at_ :
  page = pre ++ le_bytes 2 z ++ post -> at_ = len pre -> u16_ok z -> get_u16 page at_ = Ok z.
Proof. intros -> -> Hz. rewrite (get_u16_skip pre _ (len pre)), Z.sub_diag by (done || lia). by apply get_u16_here. Qed.
Lemma get_u32_at page pre z post at_ :
  page = pre ++ le_bytes 4 z ++ post -> at_ = len pre -> u32_ok z -> get_u32 page at_ = Ok z.
Proof. intros -> -> Hz. rewrite (get_u32_skip pre _ (len pre)), Z.sub_diag by (done || lia). by apply get_u32_here. Qed.
Lemma get_u64_at page pre z post at_ :
  page = pre ++ le_bytes 8 z ++ post -> at_ = len pre -> u64_ok z -> get_u64 page at_ = Ok z.
Proof. intros -> -> Hz. rewrite (get_u64_skip pre _ (len pre)), Z.sub_diag by (done || lia). by apply get_u64_here. Qed.
Lemma get_range_at {A : Type} (page pre mid post : list A) a b :
  page = pre ++ mid ++ post -> a = len pre -> b = a + len mid -> get_range page a b = Some mid.
Proof. intros -> -> ->. len_facts. rewrite get_range_Some by zlia. by zslices. Qed.
Lemma znth_at {A : Type} (page pre : list A) x post a : page = pre ++ x :: post -> a = len pre -> znth page a = Some x.
Proof. intros -> ->. len_facts. rewrite znth_lookup, len_to_nat by done. by apply list_lookup_middle. Qed.

(** ** Keys *)

Definition key_image (k : Key) : bytes :=
  if is_long (k_bytes k) then
    [x01] ++ le_bytes 4 (len (k_bytes k)) ++ ztake OVERFLOW_PREFIX (k_bytes k) ++ le_bytes 8 (default 0 (k_overflow k))
  else [x00] ++ le_bytes 2 (len (k_bytes k)) ++ k_bytes k.

Definition stored_of (k : Key) : StoredKey :=
  if is_long (k_bytes k) then Overflow (len (k_bytes k)) (ztake OVERFLOW_PREFIX (k_bytes k)) (default 0 (k_overflow k))
  else Inline (k_bytes k).

(** A key as decoding returns it: only long keys name a chain. *)
Definition key_norm (k : Key) : Key := if is_long (k_bytes k) then k else key_new (k_bytes k).

(** A long key whose chain [read_overflow] returns, or any short key. *)
Definition key_ok (read_overflow : Z -> Z -> result bytes) (k : Key) : Prop :=
  is_long (k_bytes k) = true ->
  len (k_bytes k) <= u32_max /\
  exists head, k_overflow k = Some head /\ u64_ok head /\ read_overflow head (len (k_bytes k)) = Ok (k_bytes k).

Lemma is_long_spec bs : Bool.reflect (INLINE_KEY_MAX < len bs) (is_long bs).
Proof. unfold is_long. apply Z.ltb_spec0. Qed.

Lemma encode_key_ok k : (is_long (k_bytes k) = true -> is_Some (k_overflow k)) -> encode_key k = Ok (key_image k).
Proof.
  unfold encode_key, key_image. destruct (is_long _); [|done]. intros [h ->]; done.
Qed.
Lemma encode_key_inv k bs : encode_key k = Ok bs -> bs = key_image k /\ (is_long (k_bytes k) = true -> is_Some (k_overflow k)).
Proof.
  unfold encode_key, key_image. destruct (is_long _); [|by intros [= <-]].
  destruct (k_overflow k); [|done]. cbn. intros [= <-]. eauto.
Qed.
Lemma len_key_image k : len (key_image k) = key_encoded_len k.
Proof.
  unfold key_image, key_encoded_len. destruct (is_long_spec (k_bytes k)) as [Hl|Hl];
    rewrite !len_app, ?len_le_bytes; change (len [x00]) with 1; change (len [x01]) with 1; [|lia].
  unfold INLINE_KEY_MAX in Hl. rewrite len_ztake by done. unfold OVERFLOW_KEY_SIZE, OVERFLOW_PREFIX in *. lia.
Qed.
Lemma key_encoded_len_ge k : 3 <= key_encoded_len k.
Proof. unfold key_encoded_len, OVERFLOW_KEY_SIZE, OVERFLOW_PREFIX. len_facts. destruct (is_long _); lia. Qed.

Lemma stored_key_image page pre k post ro :
  page = pre ++ key_image k ++ post -> key_ok ro k ->
  stored_key page (len pre) = Ok (stored_of k, len pre + key_encoded_len k).
Proof.
  intros Hp Hk. unfold stored_key, stored_of, key_encoded_len. unfold key_image in Hp.
  destruct (is_long_spec (k_bytes k)) as [Hl|Hl].
  - destruct Hk as (Hu & head & Hh & Hhu & _); [by destruct (is_long_spec (k_bytes k))|]. rewrite Hh in *. cbn [from_option id] in *.
    unfold INLINE_KEY_MAX in Hl. set (px := ztake OVERFLOW_PREFIX (k_bytes k)) in *.
    assert (len px = OVERFLOW_PREFIX) as Hpx by (subst px; rewrite len_ztake by done; unfold OVERFLOW_PREFIX; lia).
    rewrite <- !app_assoc in Hp. len_facts.
    rewrite (znth_at page pre x01 _ _ Hp eq_refl).
    rewrite (get_u32_at page (pre ++ [x01]) (len (k_bytes k)) (px ++ le_bytes 8 head ++ post));
      [|by rewrite <- app_assoc|by rewrite len_app|unfold u32_ok; lia]. cbn [rbind].
    rewrite (get_range_at page (pre ++ [x01] ++ le_bytes 4 (len (k_bytes k))) px (le_bytes 8 head ++ post));
      [|by rewrite <- !app_assoc|by rewrite !len_app, len_le_bytes|by rewrite Hpx]. cbn [ok_or rbind].
    rewrite (get_u64_at page (pre ++ [x01] ++ le_bytes 4 (len (k_bytes k)) ++ px) head post);
      [done|by rewrite <- !app_assoc|rewrite !len_app, len_le_bytes, Hpx; change (len [x01]) with 1; lia|done].
  - unfold INLINE_KEY_MAX in Hl. rewrite <- !app_assoc in Hp. len_facts.
    rewrite (znth_at page pre x00 _ _ Hp eq_refl).
    rewrite (get_u16_at page (pre ++ [x00]) (len (k_bytes k)) (k_bytes k ++ post));
      [|by rewrite <- app_assoc|by rewrite len_app|unfold u16_ok, u16_max; lia]. cbn [rbind].
    rewrite (get_range_at page (pre ++ [x00] ++ le_bytes 2 (len (k_bytes k))) (k_bytes k) post);
      [|by rewrite <- !app_assoc|by rewrite !len_app, len_le_bytes|done]. cbn [ok_or rbind]. do 2 f_equal. lia.
Qed.

Lemma stored_bytes_of ro k : key_ok ro k -> stored_bytes ro (stored_of k) = Ok (k_bytes k).
Proof.
  intros Hk. unfold stored_of. destruct (is_long_spec (k_bytes k)) as [Hl|Hl]; [|done].
  destruct Hk as (Hu & head & -> & _ & Hro); [by destruct (is_long_spec (k_bytes k))|]. cbn [stored_bytes from_option id].
  unfold INLINE_KEY_MAX in Hl. rewrite Hro. cbn [rbind]. rewrite Z.eqb_refl. cbn [negb].
  rewrite get_range_Some by (unfold OVERFLOW_PREFIX; lia). cbn [unwrap rbind].
  unfold zslice. rewrite zdrop_0, Z.sub_0_r by lia. by destruct (bytes_eqb_spec (ztake OVERFLOW_PREFIX (k_bytes k)) (ztake OVERFLOW_PREFIX (k_bytes k))).
Qed.

Lemma decode_key_image page pre k post ro :
  page = pre ++ key_image k ++ post -> key_ok ro k ->
  decode_key ro page (len pre) = Ok (key_norm k, len pre + key_encoded_len k).
Proof.
  intros Hp Hk. unfold decode_key. rewrite (stored_key_image page pre k post ro) by done. cbn [rbind fst snd].
  rewrite stored_bytes_of by done. cbn [rbind]. do 2 f_equal. unfold key_norm, stored_of.
  destruct (is_long (k_bytes k)) eqn:E; [|done]. destruct (Hk E) as (_ & head & Hh & _).
  destruct k as [bs o]. cbn in Hh. by subst o.
Qed.

(** ** Pages *)

Lemma len_page_header kind n used : len (page_header kind n used) = PAGE_HEADER.
Proof. unfold page_header. rewrite !len_app, !len_le_bytes, len_replicate. done. Qed.

Section Pages.
Context {C : Crc32fast} {L : Crc32fastLaws C}.

(** The header of a sealed page and the used part of it. *)
Definition sealed_header (kind n used : Z) (payload : bytes) : bytes :=
  [byte_of kind] ++ [x00] ++ le_bytes 2 n ++ le_bytes 4 used ++
  le_bytes 4 (crc [[byte_of kind] ++ [x00] ++ le_bytes 2 n ++ le_bytes 4 used; replicate 4 x00 ++ payload]) ++
  replicate 4 x00.

Lemma len_sealed_header kind n used payload : len (sealed_header kind n used payload) = PAGE_HEADER.
Proof. unfold sealed_header. rewrite !len_app, !len_le_bytes, len_replicate. done. Qed.

Lemma seal_eq kind n used payload :
  used = PAGE_HEADER + len payload -> used <= PAGE_SIZE ->
  exists pad, seal (page_header kind n used ++ payload) = (sealed_header kind n used payload ++ payload) ++ pad /\
    len pad = PAGE_SIZE - used.
Proof.
  intros Hu Hfit. unfold seal. cbv zeta. rewrite len_app, len_page_header, <- Hu. len_facts.
  unfold PAGE_HEADER, PAGE_SIZE in *.
  set (h := [byte_of kind] ++ [x00] ++ le_bytes 2 n ++ le_bytes 4 used).
  assert (len h = 8) as Hh by (unfold h; by rewrite !len_app, !len_le_bytes).
  assert (page_header kind n used ++ payload = h ++ replicate 4 x00 ++ replicate 4 x00 ++ payload) as ->.
  { unfold page_header, h. by rewrite <- !app_assoc. }
  assert (len (replicate 4 x00) = 4) as H4 by done.
  rewrite (zslice_app_take h _ 0 8), (zslice_full h 0 8) by lia.
  assert (zslice (h ++ replicate 4 x00 ++ replicate 4 x00 ++ payload) 12 used = replicate 4 x00 ++ payload) as ->.
  { rewrite zslice_app_skip, zslice_app_skip by lia. rewrite zslice_full by (rewrite ?len_app; lia). done. }
  unfold copy_from_slice. rewrite len_le_bytes. rewrite ztake_app_le, (ztake_ge 8 h) by lia.
  rewrite (zdrop_app_ge _ h), (zdrop_app_ge _ (replicate 4 x00)), (zdrop_0 _ (replicate 4 x00 ++ payload)) by lia.
  assert (h ++ le_bytes 4 (crc [h; replicate 4 x00 ++ payload]) ++ replicate 4 x00 ++ payload =
          sealed_header kind n used payload ++ payload) as ->.
  { unfold sealed_header. fold h. unfold h. by rewrite <- !app_assoc. }
  unfold resize. assert (length (sealed_header kind n used payload ++ payload) = Z.to_nat used) as Hl.
  { pose proof (len_sealed_header kind n used payload) as Hs. unfold len, PAGE_HEADER in *. rewrite length_app. lia. }
  rewrite take_ge by lia. eexists. split; [done|]. rewrite len_replicate, Hl. lia.
Qed.

Lemma verify_sealed kind n used payload pad :
  used = PAGE_HEADER + len payload -> len pad = PAGE_SIZE - used -> 0 <= kind < 256 -> u16_ok n ->
  verify_page ((sealed_header kind n used payload ++ payload) ++ pad) = Ok (kind, n, used).
Proof.
  intros Hu Hpad Hk Hn. pose proof (len_sealed_header kind n used payload) as Hs. len_facts.
  unfold verify_page. rewrite !len_app, Hs, Hpad. unfold PAGE_HEADER, PAGE_SIZE in *.
  destruct (Z.eqb_spec (16 + len payload + (4096 - used)) 4096); [|lia]. cbn [negb].
  set (h := [byte_of kind] ++ [x00] ++ le_bytes 2 n ++ le_bytes 4 used).
  assert (len h = 8) as Hh by (unfold h; by rewrite !len_app, !len_le_bytes).
  set (k := crc [h; replicate 4 x00 ++ payload]). assert (u32_ok k) as Hk32 by apply crc_u32.
  assert ((sealed_header kind n used payload ++ payload) ++ pad =
          h ++ le_bytes 4 k ++ (replicate 4 x00 ++ payload) ++ pad) as ->.
  { unfold sealed_header. fold h. fold k. unfold h. by rewrite <- !app_assoc. }
  assert (len (replicate 4 x00) = 4) as H4 by done. pose proof (len_le_bytes 4 k) as Hlk.
  set (page := h ++ le_bytes 4 k ++ (replicate 4 x00 ++ payload) ++ pad).
  rewrite (get_u16_at page ([byte_of kind] ++ [x00]) n (le_bytes 4 used ++ le_bytes 4 k ++ (replicate 4 x00 ++ payload) ++ pad));
    [|unfold page, h; by rewrite <- !app_assoc|done|done]. cbn [rbind].
  rewrite (get_u32_at page ([byte_of kind] ++ [x00] ++ le_bytes 2 n) used (le_bytes 4 k ++ (replicate 4 x00 ++ payload) ++ pad));
    [|unfold page, h; by rewrite <- !app_assoc|by rewrite !len_app, len_le_bytes|unfold u32_ok, u32_max; lia]. cbn [rbind].
  destruct (Z.leb_spec 16 used), (Z.leb_spec used 4096); [|lia..]. cbn [andb negb].
  rewrite (get_u32_at page h k ((replicate 4 x00 ++ payload) ++ pad)) by done. cbn [rbind].
  assert (zslice page 0 8 = h) as -> by (unfold page; rewrite zslice_app_take, zslice_full by lia; done).
  assert (zslice page 12 used = replicate 4 x00 ++ payload) as ->.
  { unfold page. rewrite zslice_app_skip, zslice_app_skip by lia.
    rewrite zslice_app_take, zslice_full by (rewrite ?len_app; lia). done. }
  fold k. rewrite Z.eqb_refl. cbn [negb]. change (znth page 0) with (Some (byte_of kind)). cbn [unwrap rbind].
  rewrite byte_val_of, Z.mod_small by done. done.
Qed.

End Pages.

(** ** Node images *)

Definition entry_image (kv : Key * bytes) : bytes := key_image kv.1 ++ le_bytes 2 (len kv.2) ++ kv.2.
Definition child_image (c : Z * Z) : bytes := le_bytes 8 c.1 ++ le_bytes 8 c.2.
Definition sep_image (kc : Key * (Z * Z)) : bytes := key_image kc.1 ++ child_image kc.2.

Definition writable (k : Key) : Prop := is_long (k_bytes k) = true -> is_Some (k_overflow k).

Definition node_keys (n : Node) : list Key :=
  match n with NLeaf l => lf_keys l | NBranch b => br_keys b end.
Definition node_shape (n : Node) : Prop :=
  match n with
  | NLeaf l => length (lf_values l) = length (lf_keys l)
  | NBranch b => length (br_children b) = S (length (br_keys b)) /\ length (br_counts b) = S (length (br_keys b)) /\
      (1 <= length (br_keys b))%nat
  end.

(** What a node decodes to once its children are at the offsets [offs]. *)
Definition placed (n : Node) (offs : list Z) : Node :=
  match n with
  | NLeaf l => NLeaf (mkLeaf (key_norm <$> lf_keys l) (lf_values l))
  | NBranch b => NBranch (mkBranch (key_norm <$> br_keys b) (Disk <$> offs) (br_counts b))
  end.

Lemma zsum_app l1 l2 : zsum (l1 ++ l2) = zsum l1 + zsum l2.
Proof. unfold zsum. induction l1 as [|x l1 IH]; cbn; [lia|]. rewrite IH. lia. Qed.
Lemma zsum_cons x l : zsum (x :: l) = x + zsum l.
Proof. done. Qed.
Lemma zsum_nonneg l : Forall (Z.le 0) l -> 0 <= zsum l.
Proof. induction 1; [done|]. rewrite zsum_cons. lia. Qed.
Lemma zsum_ge {A : Type} (f : A -> Z) c l : (forall x, c <= f x) -> c * len l <= zsum (f <$> l).
Proof.
  intros Hf. induction l as [|x l IH]; [rewrite len_nil; cbn; lia|].
  cbn [fmap list_fmap]. rewrite zsum_cons, len_cons. specialize (Hf x). lia.
Qed.

Lemma entry_size_ge kv : 5 <= entry_size kv.
Proof. unfold entry_size. pose proof (key_encoded_len_ge kv.1). len_facts. lia. Qed.
Lemma sep_size_ge k : 19 <= sep_size k.
Proof. unfold sep_size. pose proof (key_encoded_len_ge k). lia. Qed.

Lemma len_entry_image kv : len (entry_image kv) = entry_size kv.
Proof. unfold entry_image, entry_size. rewrite !len_app, len_key_image, len_le_bytes. lia. Qed.
Lemma len_sep_image kc : len (sep_image kc) = sep_size kc.1.
Proof. unfold sep_image, child_image, sep_size. rewrite !len_app, len_key_image, !len_le_bytes. lia. Qed.
Lemma len_mjoin {A : Type} (f : A -> bytes) l : len (mjoin (f <$> l)) = zsum ((fun x => len (f x)) <$> l).
Proof.
  induction l as [|x l IH]; [done|]. cbn [fmap list_fmap]. rewrite zsum_cons, <- IH.
  change (mjoin (f x :: (f <$> l))) with (f x ++ mjoin (f <$> l)). by rewrite len_app.
Qed.
Lemma len_leaf_image entries : len (mjoin (entry_image <$> entries)) = zsum (entry_size <$> entries).
Proof. rewrite len_mjoin. f_equal. apply list_fmap_ext. intros ? x ?. apply len_entry_image. Qed.
Lemma len_branch_image entries : len (mjoin (sep_image <$> entries)) = zsum (sep_size <$> entries.*1).
Proof. rewrite len_mjoin, <- list_fmap_compose. f_equal. apply list_fmap_ext. intros ? x ?. apply len_sep_image. Qed.

Lemma encode_leaf_entries_ok entries page :
  Forall (fun kv => writable kv.1) entries ->
  encode_leaf_entries entries page = Ok (page ++ mjoin (entry_image <$> entries)).
Proof.
  intros H. revert page. induction H as [|[k v] entries Hk _ IH]; intros page; cbn [encode_leaf_entries].
  { by rewrite app_nil_r. }
  rewrite encode_key_ok by done. cbn [rbind]. rewrite IH. f_equal. unfold entry_image at 2. cbn.
  by rewrite <- !app_assoc.
Qed.

Lemma encode_leaf_entries_inv entries page p : encode_leaf_entries entries page = Ok p -> Forall (fun kv => writable kv.1) entries.
Proof.
  revert page. induction entries as [|[k v] entries IH]; intros page; cbn [encode_leaf_entries]; [constructor|].
  destruct (encode_key k) eqn:E; cbn [rbind]; [|done..]. apply encode_key_inv in E as [-> Hw]. intros H.
  constructor; [done|]. by eapply IH.
Qed.

(** Children written so far: [offs] are the offsets [child_offset] gives. *)
Definition places (child_offset : Child -> result Z) : list Child -> list Z -> Prop :=
  Forall2 (fun c o => child_offset c = Ok o).

Lemma encode_child_ok b f i c o n :
  br_children b !! i = Some c -> f c = Ok o -> br_counts b !! i = Some n ->
  encode_child b f i = Ok (child_image (o, n)).
Proof. intros Hc Ho Hn. unfold encode_child. rewrite Hc. cbn. rewrite Ho. cbn. by rewrite Hn. Qed.

Lemma encode_branch_entries_ok b f offs i keys page :
  places f (br_children b) offs -> length (br_counts b) = length offs ->
  Forall writable keys -> (i + 1 + length keys = length offs)%nat ->
  encode_branch_entries b f i keys page =
    Ok (page ++ mjoin (sep_image <$> zip keys (zip (drop (i + 1) offs) (drop (i + 1) (br_counts b))))).
Proof.
  intros Hp Hn Hk. revert i page. induction Hk as [|k keys Hk _ IH]; intros i page Hl; cbn [encode_branch_entries].
  { cbn. by rewrite app_nil_r. }
  cbn [length] in Hl. rewrite encode_key_ok by done. cbn [rbind].
  destruct (lookup_lt_is_Some_2 offs (i + 1) ltac:(lia)) as [o Ho].
  destruct (lookup_lt_is_Some_2 (br_counts b) (i + 1) ltac:(lia)) as [n Hc].
  destruct (Forall2_lookup_r _ _ _ _ _ Hp Ho) as (c & Hch & Hf).
  rewrite (encode_child_ok b f (i + 1) c o n) by done. cbn [rbind]. rewrite IH by lia.
  rewrite (drop_S _ _ _ Ho), (drop_S _ _ _ Hc). cbn [zip zip_with fmap list_fmap].
  replace (S (i + 1)) with (i + 1 + 1)%nat by lia. f_equal.
  match goal with |- _ = page ++ mjoin (?x :: ?r) => change (mjoin (x :: r)) with (x ++ mjoin r) end.
  unfold sep_image at 2. cbn [fst snd]. by rewrite <- !app_assoc.
Qed.

Lemma encode_branch_entries_inv b f i keys page p :
  encode_branch_entries b f i keys page = Ok p -> Forall writable keys.
Proof.
  revert i page. induction keys as [|k keys IH]; intros i page; cbn [encode_branch_entries]; [constructor|].
  destruct (encode_key k) eqn:E; cbn [rbind]; [|done..]. apply encode_key_inv in E as [-> Hw].
  destruct (encode_child b f (i + 1)); cbn [rbind]; [|done..]. intros H. constructor; [done|]. by eapply IH.
Qed.

(** The payload of a node's page. *)
Definition payload (n : Node) (offs : list Z) : bytes :=
  match n with
  | NLeaf l => mjoin (entry_image <$> zip (lf_keys l) (lf_values l))
  | NBranch b => child_image (default 0 (offs !! 0%nat), default 0 (br_counts b !! 0%nat)) ++
      mjoin (sep_image <$> zip (br_keys b) (zip (drop 1 offs) (drop 1 (br_counts b))))
  end.
Definition node_kind (n : Node) : Z := match n with NLeaf _ => KIND_LEAF | NBranch _ => KIND_BRANCH end.
Definition node_n (n : Node) : Z :=
  match n with NLeaf l => len (lf_keys l) | NBranch b => len (br_children b) end.

Lemma zip_fst {A B : Type} (l : list A) (k : list B) : (length l <= length k)%nat -> (zip l k).*1 = l.
Proof. apply fst_zip. Qed.

Lemma len_payload n offs :
  node_shape n -> (if n is NBranch b then length offs = length (br_children b) else True) ->
  encoded_len n = PAGE_HEADER + len (payload n offs).
Proof.
  destruct n as [l|b]; cbn [node_shape encoded_len payload].
  - intros Hl _. by rewrite len_leaf_image.
  - intros (H1 & H2 & H3) Ho. unfold branch_encoded_len. rewrite len_app, len_branch_image.
    rewrite zip_fst by (rewrite length_zip_with, !length_drop; lia).
    unfold child_image. rewrite len_app, !len_le_bytes. lia.
Qed.

Lemma Ok_inj {A : Type} (a b : A) : Ok a = Ok b -> a = b.
Proof. congruence. Qed.

Lemma encode_node_iff `{Crc32fast} n f offs page :
  node_shape n -> (if n is NBranch b then places f (br_children b) offs else True) ->
  encode_node n f = Ok page <->
  encoded_len n <= PAGE_SIZE /\ Forall writable (node_keys n) /\
  page = seal (page_header (node_kind n) (node_n n) (encoded_len n) ++ payload n offs).
Proof.
  intros Hs Hp. unfold encode_node. destruct (Z.ltb_spec PAGE_SIZE (encoded_len n)) as [Hlt|Hle].
  { split; [done|]. intros [? _]. lia. }
  destruct n as [l|b]; cbn [node_shape node_keys node_kind node_n payload] in *.
  - split.
    + destruct (encode_leaf_entries _ _) eqn:E; cbn [rbind]; [|done..].
      pose proof (encode_leaf_entries_inv _ _ _ E) as Hw. rewrite encode_leaf_entries_ok in E by done. simplify_eq.
      intros [= <-]. split_and!; [done| |done]. apply Forall_fmap in Hw. rewrite fst_zip in Hw by lia. done.
    + intros (_ & Hw & ->). rewrite encode_leaf_entries_ok; [done|].
      apply (Forall_fmap fst writable). rewrite fst_zip by lia. done.
  - destruct Hs as (H1 & H2 & H3). pose proof (Forall2_length _ _ _ Hp) as Hlo.
    destruct (lookup_lt_is_Some_2 offs 0 ltac:(lia)) as [o Ho].
    destruct (lookup_lt_is_Some_2 (br_counts b) 0 ltac:(lia)) as [c Hc].
    destruct (Forall2_lookup_r _ _ _ _ _ Hp Ho) as (ch & Hch & Hf).
    rewrite (encode_child_ok b f 0 ch o c) by done. cbn [rbind]. rewrite Ho, Hc. cbn [from_option id].
    split.
    + destruct (encode_branch_entries _ _ _ _ _) eqn:E; cbn [rbind]; [|done..].
      pose proof (encode_branch_entries_inv _ _ _ _ _ _ E) as Hw.
      rewrite (encode_branch_entries_ok b f offs), <- app_assoc in E by (done || lia).
      intros Hpg. split_and!; [done..|]. apply Ok_inj in E, Hpg. by rewrite <- Hpg, <- E.
    + intros (_ & Hw & ->). rewrite (encode_branch_entries_ok b f offs) by (done || lia). cbn [rbind].
      by rewrite <- app_assoc.
Qed.

(** ** Decoding *)

Lemma mjoin_cons {A : Type} (x : list A) l : mjoin (x :: l) = x ++ mjoin l.
Proof. done. Qed.

Lemma decode_leaf_entries_image ro entries page pre post ks vs :
  page = pre ++ mjoin (entry_image <$> entries) ++ post ->
  Forall (fun kv => key_ok ro kv.1 /\ len kv.2 <= u16_max) entries ->
  decode_leaf_entries ro (length entries) page (len pre) ks vs =
    Ok (mkLeaf (ks ++ (key_norm <$> entries.*1)) (vs ++ entries.*2)).
Proof.
  intros Hp H. revert pre ks vs Hp. induction H as [|[k v] entries [Hk Hv] _ IH]; intros pre ks vs Hp;
    cbn [decode_leaf_entries length].
  { cbn. by rewrite !app_nil_r. }
  cbn [fmap list_fmap] in Hp. rewrite mjoin_cons in Hp. unfold entry_image at 1 in Hp. cbn [fst snd] in *.
  rewrite <- !app_assoc in Hp. cbn [fst snd] in Hk.
  rewrite (decode_key_image page pre k (le_bytes 2 (len v) ++ v ++ mjoin (entry_image <$> entries) ++ post)) by done.
  cbn [rbind fst snd]. len_facts. pose proof (len_key_image k) as Hlk.
  rewrite (get_u16_at page (pre ++ key_image k) (len v) (v ++ mjoin (entry_image <$> entries) ++ post));
    [|by rewrite <- app_assoc|by rewrite len_app, Hlk|unfold u16_ok; lia]. cbn [rbind].
  rewrite (get_range_at page (pre ++ key_image k ++ le_bytes 2 (len v)) v (mjoin (entry_image <$> entries) ++ post));
    [|by rewrite <- !app_assoc|rewrite !len_app, Hlk, len_le_bytes; lia|done]. cbn [ok_or rbind].
  replace (len pre + key_encoded_len k + 2 + len v) with (len (pre ++ entry_image (k, v)))
    by (rewrite len_app, len_entry_image; unfold entry_size; cbn [fst snd]; lia).
  rewrite IH; [by rewrite <- !app_assoc|]. unfold entry_image at 1. cbn [fst snd]. by rewrite <- !app_assoc.
Qed.

Lemma decode_branch_entries_image ro entries page pre post b :
  page = pre ++ mjoin (sep_image <$> entries) ++ post ->
  Forall (fun kc => key_ok ro kc.1 /\ u64_ok kc.2.1 /\ u64_ok kc.2.2) entries ->
  decode_branch_entries ro (length entries) page (len pre) b =
    Ok (mkBranch (br_keys b ++ (key_norm <$> entries.*1)) (br_children b ++ (Disk <$> entries.*2.*1))
          (br_counts b ++ entries.*2.*2)).
Proof.
  intros Hp H. revert pre b Hp. induction H as [|[k [o n]] entries (Hk & Ho & Hn) _ IH]; intros pre b Hp;
    cbn [decode_branch_entries length].
  { destruct b. cbn. by rewrite !app_nil_r. }
  cbn [fmap list_fmap] in Hp. rewrite mjoin_cons in Hp. unfold sep_image at 1, child_image in Hp. cbn [fst snd] in *.
  rewrite <- !app_assoc in Hp. pose proof (len_key_image k) as Hlk.
  rewrite (decode_key_image page pre k (le_bytes 8 o ++ le_bytes 8 n ++ mjoin (sep_image <$> entries) ++ post)) by done.
  cbn [rbind fst snd].
  rewrite (get_u64_at page (pre ++ key_image k) o (le_bytes 8 n ++ mjoin (sep_image <$> entries) ++ post));
    [|by rewrite <- app_assoc|by rewrite len_app, Hlk|done]. cbn [rbind].
  rewrite (get_u64_at page (pre ++ key_image k ++ le_bytes 8 o) n (mjoin (sep_image <$> entries) ++ post));
    [|by rewrite <- !app_assoc|rewrite !len_app, Hlk, len_le_bytes; lia|done]. cbn [rbind].
  replace (len pre + key_encoded_len k + 16) with (len (pre ++ sep_image (k, (o, n))))
    by (rewrite len_app, len_sep_image; unfold sep_size; cbn [fst]; lia).
  rewrite IH; [cbn; by rewrite <- !app_assoc|]. unfold sep_image at 1, child_image. cbn [fst snd].
  by rewrite <- !app_assoc.
Qed.

Lemma zsum_in {A : Type} (f : A -> Z) l x : (forall y, 0 <= f y) -> x ∈ l -> f x <= zsum (f <$> l).
Proof.
  intros Hf. induction l as [|y l IH]; [by intros ?%not_elem_of_nil|]. cbn [fmap list_fmap]. rewrite zsum_cons.
  assert (0 <= zsum (f <$> l)) by (apply zsum_nonneg, Forall_fmap, Forall_forall; intros; apply Hf).
  intros [->|Hx]%elem_of_cons; [lia|]. specialize (IH Hx). specialize (Hf y). lia.
Qed.

Section Roundtrip.
Context {C : Crc32fast} {L : Crc32fastLaws C}.

Lemma node_n_u16 n : node_shape n -> encoded_len n <= PAGE_SIZE -> u16_ok (node_n n).
Proof.
  unfold u16_ok, u16_max, PAGE_SIZE. destruct n as [l|b]; cbn [node_shape encoded_len node_n].
  - unfold leaf_encoded_len, PAGE_HEADER. intros Hl H. len_facts.
    pose proof (zsum_ge entry_size 5 (zip (lf_keys l) (lf_values l)) entry_size_ge) as Hz.
    assert (len (zip (lf_keys l) (lf_values l)) = len (lf_keys l)) as Hlz.
    { unfold len. rewrite length_zip_with. lia. }
    lia.
  - unfold branch_encoded_len, PAGE_HEADER. intros (H1 & _ & _) H.
    pose proof (zsum_ge sep_size 19 (br_keys b) sep_size_ge). unfold len in *. lia.
Qed.

Lemma leaf_values_fit l v : leaf_encoded_len l <= PAGE_SIZE -> v ∈ lf_values l -> length (lf_values l) = length (lf_keys l) ->
  len v <= u16_max.
Proof.
  intros Hfit Hv Hl. rewrite <- (snd_zip (lf_keys l) (lf_values l)) in Hv by lia.
  apply list_elem_of_fmap in Hv as ([k v'] & -> & Hin).
  assert (forall y, 0 <= entry_size y) as Hnn by (intros y; pose proof (entry_size_ge y); lia).
  pose proof (zsum_in entry_size _ _ Hnn Hin) as Hz. pose proof (key_encoded_len_ge k).
  unfold leaf_encoded_len, entry_size, PAGE_SIZE, PAGE_HEADER, u16_max in *. cbn [fst snd] in *. lia.
Qed.

Lemma decode_leaf_payload ro l h :
  length (lf_values l) = length (lf_keys l) -> leaf_encoded_len l <= PAGE_SIZE -> Forall (key_ok ro) (lf_keys l) ->
  decode_leaf_entries ro (length (lf_keys l)) (h ++ payload (NLeaf l) []) (len h) [] [] =
    Ok (mkLeaf (key_norm <$> lf_keys l) (lf_values l)).
Proof.
  intros Hl Hfit Hk. replace (length (lf_keys l)) with (length (zip (lf_keys l) (lf_values l)))
    by (rewrite length_zip_with; lia).
  rewrite (decode_leaf_entries_image ro _ _ h []); [|by rewrite app_nil_r|].
  - cbn [app]. rewrite fst_zip, snd_zip by lia. done.
  - apply Forall_forall. intros [k v] Hin. rewrite Forall_forall in Hk. split.
    + apply Hk. by eapply elem_of_zip_l.
    + eapply leaf_values_fit; [done| |done]. by eapply elem_of_zip_r.
Qed.

Lemma decode_branch_payload ro b h offs :
  node_shape (NBranch b) -> length offs = S (length (br_keys b)) -> Forall (key_ok ro) (br_keys b) ->
  Forall u64_ok offs -> Forall u64_ok (br_counts b) ->
  let page := h ++ payload (NBranch b) offs in
  exists o c, get_u64 page (len h) = Ok o /\ get_u64 page (len h + 8) = Ok c /\
    decode_branch_entries ro (length (br_keys b)) page (len h + 16) (mkBranch [] [Disk o] [c]) =
      Ok (mkBranch (key_norm <$> br_keys b) (Disk <$> offs) (br_counts b)).
Proof.
  intros (H1 & H2 & H3) Hlo Hk Hos Hcs. cbv zeta. cbn [payload].
  destruct offs as [|o offs]; [done|]. destruct (br_counts b) as [|c counts] eqn:Ec; [done|].
  cbn [lookup list_lookup from_option id drop length] in *. unfold child_image. cbn [fst snd].
  rewrite Forall_cons in Hcs, Hos. destruct Hcs as [Hc Hcs]. destruct Hos as [Ho Hos].
  set (entries := zip (br_keys b) (zip offs counts)). exists o, c.
  assert (length entries = length (br_keys b)) as Hle by (unfold entries; rewrite !length_zip_with; lia).
  split_and!.
  - apply (get_u64_at _ h o (le_bytes 8 c ++ mjoin (sep_image <$> entries))); rewrite <- ?app_assoc; done.
  - apply (get_u64_at _ (h ++ le_bytes 8 o) c (mjoin (sep_image <$> entries)));
      [by rewrite <- !app_assoc|by rewrite len_app, len_le_bytes|done].
  - rewrite <- Hle.
    replace (len h + 16) with (len (h ++ le_bytes 8 o ++ le_bytes 8 c)) by (rewrite !len_app, !len_le_bytes; lia).
    rewrite (decode_branch_entries_image ro entries _ _ []); [|by rewrite app_nil_r, <- !app_assoc|].
    + cbn [br_keys br_children br_counts app]. unfold entries.
      rewrite fst_zip, snd_zip, fst_zip, snd_zip by (rewrite ?length_zip_with; lia). done.
    + apply Forall_lookup. intros i [k [o' n']] Hi. unfold entries in Hi.
      apply lookup_zip_with_Some in Hi as (k' & [o'' n''] & [= <- <- <-] & Hki & Hi).
      apply lookup_zip_with_Some in Hi as (? & ? & [= <- <-] & Hoi & Hni).
      cbn. split_and!; [by eapply Forall_lookup_1 in Hki|by eapply Forall_lookup_1 in Hoi|by eapply Forall_lookup_1 in Hni].
Qed.

(** A written page decodes to the node with its children placed. *)
Lemma decode_encode_node ro n f offs page :
  encode_node n f = Ok page -> node_shape n -> Forall (key_ok ro) (node_keys n) ->
  (if n is NBranch b then places f (br_children b) offs /\ Forall u64_ok offs /\ Forall u64_ok (br_counts b) else True) ->
  len page = PAGE_SIZE /\ decode_node ro page = Ok (placed n offs).
Proof.
  intros He Hs Hk Hb. assert (if n is NBranch b then places f (br_children b) offs else True) as Hp.
  { destruct n; [done|apply Hb]. }
  apply (encode_node_iff n f offs page Hs Hp) in He as (Hfit & Hw & ->).
  assert (if n is NBranch b then length offs = length (br_children b) else True) as Ho.
  { destruct n; [done|]. symmetry. by eapply Forall2_length. }
  pose proof (len_payload n offs Hs Ho) as Hlen. pose proof (node_n_u16 n Hs Hfit) as Hn.
  destruct (seal_eq (node_kind n) (node_n n) (encoded_len n) (payload n offs) Hlen Hfit) as (pad & -> & Hpad).
  pose proof (len_sealed_header (node_kind n) (node_n n) (encoded_len n) (payload n offs)) as Hlh.
  split; [rewrite !len_app, Hlh, Hpad; lia|]. unfold decode_node.
  rewrite verify_sealed by (done || (destruct n; done)). cbn [rbind].
  rewrite ztake_app_le, ztake_ge by (rewrite len_app, Hlh; lia).
  set (h := sealed_header _ _ _ _) in *. clearbody h. rewrite <- Hlh. destruct n as [l|b]; cbn [node_kind node_n].
  - change (KIND_LEAF =? KIND_LEAF) with true. cbv iota. rewrite len_to_nat.
    change (payload (NLeaf l) offs) with (payload (NLeaf l) []). by rewrite decode_leaf_payload.
  - change (KIND_BRANCH =? KIND_LEAF) with false. change (KIND_BRANCH =? KIND_BRANCH) with true. cbv iota.
    destruct (Z.ltb_spec (len (br_children b)) 2); [destruct Hs as (? & _ & ?); unfold len in *; lia|].
    destruct Hb as (Hpl & Hos & Hc). pose proof Hs as (H1 & _ & _).
    destruct (decode_branch_payload ro b h offs) as (o & c & E1 & E2 & E3); try done; [by rewrite Ho, H1|].
    rewrite E1. cbn [rbind]. rewrite E2. cbn [rbind].
    replace (Z.to_nat (len (br_children b)) - 1)%nat with (length (br_keys b)) by (rewrite len_to_nat; lia).
    rewrite E3. done.
Qed.

End Roundtrip.

(** ** The view of a page answers as the decoded node *)

Lemma bytes_compare_take n a b :
  bytes_compare a b = match bytes_compare (take n a) (take n b) with
                      | Eq => bytes_compare (drop n a) (drop n b) | c => c end.
Proof.
  revert a b; induction n as [|n IH]; intros [|x a] [|y b]; cbn [take drop bytes_compare]; try done.
  destruct (byte_val x ?= byte_val y); [apply IH|done..].
Qed.

Lemma stored_cmp_spec ro sk bs key :
  stored_bytes ro sk = Ok bs -> stored_cmp ro sk key = Ok (bytes_compare bs key).
Proof.
  destruct sk as [bs'|n px h]; cbn [stored_cmp]; [cbn; by intros [= <-]|]. intros Hb. rewrite Hb. cbn [rbind].
  unfold stored_bytes in Hb. destruct (ro h n) as [bs'| |]; cbn [rbind] in Hb; [|done..].
  destruct (Z.eqb_spec (len bs') n); [|done]. cbn [negb] in Hb.
  destruct (get_range bs' 0 OVERFLOW_PREFIX) as [fst_|] eqn:Eg; [|done]. cbn [unwrap rbind] in Hb.
  destruct (bytes_eqb_spec fst_ px) as [->|]; [|done]. cbn [negb] in Hb. simplify_eq.
  apply get_range_inv in Eg as (_ & _ & Hl & ->). unfold zslice. rewrite zdrop_0, Z.sub_0_r, ztake_take by lia.
  rewrite (bytes_compare_take (Z.to_nat OVERFLOW_PREFIX) bs key).
  assert (ztake (Z.min (len key) OVERFLOW_PREFIX) key = take (Z.to_nat OVERFLOW_PREFIX) key) as ->.
  { rewrite ztake_take. len_facts. destruct (Z.min_spec (len key) OVERFLOW_PREFIX) as [[? ->]|[? ->]]; [|done].
    rewrite len_to_nat, !take_ge; [done|unfold len in *; lia|lia]. }
  by destruct (bytes_compare (take _ bs) _).
Qed.

Definition entry_shows (ro : Z -> Z -> result bytes) (page : bytes) (e : StoredKey * Z) (kv : Key * bytes) : Prop :=
  stored_bytes ro e.1 = Ok (k_bytes kv.1) /\
  get_u16 page e.2 = Ok (len kv.2) /\ get_range page (e.2 + 2) (e.2 + 2 + len kv.2) = Some kv.2.
Definition sep_shows (ro : Z -> Z -> result bytes) (page : bytes) (e : StoredKey * Z) (kc : Key * (Z * Z)) : Prop :=
  stored_bytes ro e.1 = Ok (k_bytes kc.1) /\ get_u64 page e.2 = Ok kc.2.1 /\ get_u64 page (e.2 + 8) = Ok kc.2.2.

Lemma decode_key_inv ro page at_ k at' :
  decode_key ro page at_ = Ok (k, at') ->
  exists sk, stored_key page at_ = Ok (sk, at') /\ stored_bytes ro sk = Ok (k_bytes k).
Proof.
  unfold decode_key. destruct (stored_key page at_) as [[sk a]| |]; cbn [rbind fst snd]; [|done..].
  destruct (stored_bytes ro sk) eqn:E; cbn [rbind]; [|done..]. intros [= <- <-]. eauto.
Qed.

Lemma view_leaf_entries_decode ro n page at_ ks vs es l :
  decode_leaf_entries ro n page at_ ks vs = Ok l ->
  exists new kvs, view_leaf_entries n page at_ es = Ok (es ++ new) /\
    l = mkLeaf (ks ++ kvs.*1) (vs ++ kvs.*2) /\ Forall2 (entry_shows ro page) new kvs.
Proof.
  revert at_ ks vs es. induction n as [|n IH]; intros at_ ks vs es; cbn [decode_leaf_entries view_leaf_entries].
  { intros [= <-]. exists [], []. cbn. rewrite !app_nil_r. done. }
  destruct (decode_key ro page at_) as [[k a]| |] eqn:Ek; cbn [rbind fst snd]; [|done..].
  apply decode_key_inv in Ek as (sk & -> & Hsk). cbn [rbind fst snd].
  destruct (get_u16 page a) as [n0| |] eqn:En; cbn [rbind]; [|done..].
  destruct (get_range page (a + 2) (a + 2 + n0)) as [v|] eqn:Ev; cbn [ok_or rbind]; [|done].
  intros H. apply (IH _ _ _ (es ++ [(sk, a)])) in H as (new & kvs & -> & -> & Hnew).
  exists ((sk, a) :: new), ((k, v) :: kvs). cbn. rewrite <- !app_assoc. split_and!; [done..|].
  constructor; [|done]. assert (n0 = len v) as ->.
  { apply get_range_inv in Ev as (? & ? & ? & ->). apply get_u16_inv in En as (_ & _ & _ & [? ?]).
    rewrite len_zslice; lia. }
  done.
Qed.

Lemma get_u64_range page a x y : get_u64 page a = Ok x -> get_u64 page (a + 8) = Ok y -> is_Some (get_range page a (a + 16)).
Proof.
  intros (? & _ & _ & _)%get_u64_inv (_ & ? & _ & _)%get_u64_inv. rewrite get_range_Some by lia. eauto.
Qed.

Lemma view_branch_entries_decode ro n page at_ b es b' :
  decode_branch_entries ro n page at_ b = Ok b' ->
  exists new kcs, view_branch_entries n page at_ es = Ok (es ++ new) /\
    b' = mkBranch (br_keys b ++ kcs.*1) (br_children b ++ (Disk <$> kcs.*2.*1)) (br_counts b ++ kcs.*2.*2) /\
    Forall2 (sep_shows ro page) new kcs.
Proof.
  revert at_ b es. induction n as [|n IH]; intros at_ b es; cbn [decode_branch_entries view_branch_entries].
  { intros [= <-]. exists [], []. destruct b. cbn. rewrite !app_nil_r. done. }
  destruct (decode_key ro page at_) as [[k a]| |] eqn:Ek; cbn [rbind fst snd]; [|done..].
  apply decode_key_inv in Ek as (sk & -> & Hsk). cbn [rbind fst snd].
  destruct (get_u64 page a) as [o| |] eqn:Eo; cbn [rbind]; [|done..].
  destruct (get_u64 page (a + 8)) as [c| |] eqn:Ec; cbn [rbind]; [|done..].
  destruct (get_u64_range page a o c Eo Ec) as [? ->]. cbn [ok_or rbind].
  intros H. apply (IH _ _ (es ++ [(sk, a)])) in H as (new & kcs & -> & -> & Hnew).
  exists ((sk, a) :: new), ((k, (o, c)) :: kcs). cbn. rewrite <- !app_assoc. split_and!; [done..|]. by constructor.
Qed.

Lemma decode_branch_entries_length ro n page at_ b b' :
  decode_branch_entries ro n page at_ b = Ok b' -> length (br_keys b') = (length (br_keys b) + n)%nat.
Proof.
  revert at_ b. induction n as [|n IH]; intros at_ b; cbn [decode_branch_entries]; [intros [= <-]; lia|].
  destruct (decode_key ro page at_) as [[k a]| |]; cbn [rbind fst snd]; [|done..].
  destruct (get_u64 page a); cbn [rbind]; [|done..]. destruct (get_u64 page (a + 8)); cbn [rbind]; [|done..].
  intros H. rewrite (IH _ _ H). cbn [br_keys]. rewrite length_app. cbn. lia.
Qed.

(** What the view says, for each kind of node. *)
Definition view_agrees (ro : Z -> Z -> result bytes) (v : PageView) (n : Node) : Prop :=
  match n with
  | NLeaf l => pv_leaf v = true /\ exists kvs, l = mkLeaf kvs.*1 kvs.*2 /\
      Forall2 (entry_shows ro (pv_page v)) (pv_entries v) kvs
  | NBranch b => pv_leaf v = false /\ exists c0 kcs,
      b = mkBranch kcs.*1 (Disk <$> c0.1 :: kcs.*2.*1) (c0.2 :: kcs.*2.*2) /\
      Forall2 (sep_shows ro (pv_page v)) (pv_entries v) kcs /\ (1 <= length kcs)%nat /\
      get_u64 (pv_page v) PAGE_HEADER = Ok c0.1 /\ get_u64 (pv_page v) (PAGE_HEADER + 8) = Ok c0.2
  end.

Lemma view_read_decode `{Crc32fast} ro page n :
  decode_node ro page = Ok n -> exists v, view_read page = Ok v /\ view_agrees ro v n.
Proof.
  unfold decode_node, view_read. destruct (verify_page page) as [[[kind n0] used]| |]; cbn [rbind]; [|done..].
  destruct (kind =? KIND_LEAF).
  - destruct (decode_leaf_entries ro _ _ _ _ _) as [l| |] eqn:E; cbn [rbind]; [|done..]. intros [= <-].
    apply (view_leaf_entries_decode _ _ _ _ _ _ []) in E as (new & kvs & -> & -> & Hnew). cbn [rbind].
    eexists. split; [done|]. cbn. split; [done|]. eauto.
  - destruct (kind =? KIND_BRANCH); [|done]. destruct (Z.ltb_spec n0 2); [done|].
    destruct (get_u64 (ztake used page) PAGE_HEADER) as [o| |] eqn:Eo; cbn [rbind]; [|done..].
    destruct (get_u64 (ztake used page) (PAGE_HEADER + 8)) as [c| |] eqn:Ec; cbn [rbind]; [|done..].
    destruct (get_u64_range _ _ o c Eo Ec) as [? ->]. cbn [ok_or rbind].
    destruct (decode_branch_entries ro _ _ _ _) as [b| |] eqn:E; cbn [rbind]; [|done..]. intros [= <-].
    assert (length (br_keys b) = (Z.to_nat n0 - 1)%nat) as Hlb by (by apply decode_branch_entries_length in E).
    apply (view_branch_entries_decode _ _ _ _ _ []) in E as (new & kcs & -> & -> & Hnew). cbn [rbind].
    eexists. split; [done|]. cbn. split; [done|]. exists (o, c), kcs. cbn in *. rewrite length_fmap in Hlb.
    split_and!; try done. lia.
Qed.

(** The stored keys of a view's entries. *)
Definition shows_keys (ro : Z -> Z -> result bytes) (v : PageView) (keys : list bytes) : Prop :=
  Forall2 (fun e k => stored_bytes ro e.1 = Ok k) (pv_entries v) keys.

Lemma mid_bounds low high : (low < high)%nat -> (low <= low + (high - low) / 2 < high)%nat.
Proof.
  intros H. assert ((high - low) / 2 < high - low)%nat by (apply Nat.div_lt; lia). lia.
Qed.

Lemma shows_lookup ro v keys i : shows_keys ro v keys -> (i < length keys)%nat ->
  exists e k, pv_entries v !! i = Some e /\ keys !! i = Some k /\
    forall key, stored_cmp ro e.1 key = Ok (bytes_compare k key).
Proof.
  intros Hs Hi. destruct (lookup_lt_is_Some_2 keys i Hi) as [k Hk].
  destruct (Forall2_lookup_r _ _ _ _ _ Hs Hk) as (e & He & Hb). exists e, k. split_and!; [done..|].
  intros key. by apply stored_cmp_spec.
Qed.

Lemma view_search_loop_spec ro v keys key lo eq hi fuel low high :
  shows_keys ro v keys -> keys = lo ++ eq ++ hi ->
  Forall (fun k => bytes_lt k key) lo -> Forall (fun k => k = key) eq -> Forall (fun k => bytes_lt key k) hi ->
  (length eq <= 1)%nat -> (high - low <= fuel)%nat -> (low <= length lo)%nat ->
  (length lo + length eq <= high <= length keys)%nat ->
  view_search_loop ro fuel v key low high = Ok (if eq is _ :: _ then inl (length lo) else inr (length lo)).
Proof.
  intros Hs Hkeys Hlo Heq Hhi Hone. revert low high.
  induction fuel as [|fuel IH]; intros low high Hf Hlow Hhigh; cbn [view_search_loop];
    (destruct (Nat.ltb_spec low high) as [Hlt|Hge]; [|destruct eq; [repeat f_equal; lia|cbn [length] in *; lia]]).
  { lia. }
  pose proof (mid_bounds low high Hlt) as Hmid. set (mid := (low + (high - low) / 2)%nat) in *.
  destruct (shows_lookup ro v keys mid Hs ltac:(lia)) as (e & k & -> & Hk & Hc). cbn [unwrap rbind].
  rewrite Hc. cbn [rbind]. rewrite Hkeys in Hk. apply lookup_app_Some in Hk as [Hk|[Hle Hk]].
  - pose proof (lookup_lt_Some _ _ _ Hk). eapply Forall_lookup_1 in Hk; [|exact Hlo]. unfold bytes_lt in Hk.
    rewrite Hk. apply IH; lia.
  - apply lookup_app_Some in Hk as [Hk|[Hle' Hk]].
    + pose proof (lookup_lt_Some _ _ _ Hk). eapply Forall_lookup_1 in Hk; [|exact Heq]. cbn in Hk. subst k.
      rewrite bytes_compare_refl. destruct eq; [cbn in *; lia|]. cbn [length] in *. repeat f_equal. lia.
    + eapply Forall_lookup_1 in Hk; [|exact Hhi]. rewrite compare_lt_Gt by done. apply IH; lia.
Qed.

Lemma view_search_spec ro v keys key lo eq hi :
  shows_keys ro v keys -> keys = lo ++ eq ++ hi ->
  Forall (fun k => bytes_lt k key) lo -> Forall (fun k => k = key) eq -> Forall (fun k => bytes_lt key k) hi ->
  (length eq <= 1)%nat ->
  view_search ro v key = Ok (if eq is _ :: _ then inl (length lo) else inr (length lo)).
Proof.
  intros Hs Hk Hlo Heq Hhi Hone. unfold view_search. pose proof (Forall2_length _ _ _ Hs) as Hl.
  rewrite Hl. eapply view_search_loop_spec; try done; rewrite ?Hk, ?length_app; lia.
Qed.

Lemma view_child_index_loop_spec ro v keys key lo hi fuel low high :
  shows_keys ro v keys -> keys = lo ++ hi ->
  Forall (fun k => bytes_le k key) lo -> Forall (fun k => bytes_lt key k) hi ->
  (high - low <= fuel)%nat -> (low <= length lo <= high)%nat -> (high <= length keys)%nat ->
  view_child_index_loop ro fuel v key low high = Ok (length lo).
Proof.
  intros Hs Hkeys Hlo Hhi. revert low high.
  induction fuel as [|fuel IH]; intros low high Hf Hlow Hhigh; cbn [view_child_index_loop];
    (destruct (Nat.ltb_spec low high) as [Hlt|Hge]; [|f_equal; lia]).
  { lia. }
  pose proof (mid_bounds low high Hlt) as Hmid. set (mid := (low + (high - low) / 2)%nat) in *.
  destruct (shows_lookup ro v keys mid Hs ltac:(lia)) as (e & k & -> & Hk & Hc). cbn [unwrap rbind].
  rewrite Hc. cbn [rbind]. rewrite Hkeys in Hk. apply lookup_app_Some in Hk as [Hk|[Hle Hk]].
  - pose proof (lookup_lt_Some _ _ _ Hk). eapply Forall_lookup_1 in Hk; [|exact Hlo]. unfold bytes_le in Hk.
    destruct (bytes_compare k key); [apply IH; lia..|done].
  - eapply Forall_lookup_1 in Hk; [|exact Hhi]. rewrite compare_lt_Gt by done. apply IH; lia.
Qed.

Lemma view_child_index_spec ro v keys key lo hi :
  shows_keys ro v keys -> keys = lo ++ hi ->
  Forall (fun k => bytes_le k key) lo -> Forall (fun k => bytes_lt key k) hi ->
  view_child_index ro v key = Ok (length lo).
Proof.
  intros Hs Hk Hlo Hhi. unfold view_child_index. pose proof (Forall2_length _ _ _ Hs) as Hl.
  rewrite Hl. eapply view_child_index_loop_spec; try done; rewrite ?Hk, ?length_app; lia.
Qed.

Lemma view_agrees_keys ro v n : view_agrees ro v n -> shows_keys ro v (k_bytes <$> node_keys n).
Proof.
  destruct n as [l|b]; cbn [view_agrees node_keys].
  - intros [_ (kvs & -> & H)]. cbn [lf_keys]. unfold shows_keys. rewrite <- list_fmap_compose, Forall2_fmap_r.
    eapply Forall2_impl; [done|]. by intros e kv (? & _).
  - intros [_ (c0 & kcs & -> & H & _)]. cbn [br_keys]. unfold shows_keys. rewrite <- list_fmap_compose, Forall2_fmap_r.
    eapply Forall2_impl; [done|]. by intros e kv (? & _).
Qed.

Lemma view_agrees_leaf ro v l i k val :
  view_agrees ro v (NLeaf l) -> lf_keys l !! i = Some k -> lf_values l !! i = Some val ->
  view_key ro v i = Ok (k_bytes k) /\ view_value v i = Ok val.
Proof.
  intros [_ (kvs & -> & H)]. cbn [lf_keys lf_values]. rewrite !list_lookup_fmap_Some.
  intros ([k' v'] & -> & Hi) ([k'' v''] & -> & Hi'). rewrite Hi in Hi'. simplify_eq.
  destruct (Forall2_lookup_r _ _ _ _ _ H Hi) as (e & He & Hb & Hn & Hv). cbn [fst snd] in *.
  unfold view_key, view_value. rewrite He. cbn [unwrap rbind]. split; [done|].
  unfold get_u16 in Hn. destruct (get_range (pv_page v) e.2 (e.2 + 2)); [|done]. cbn in Hn |- *.
  injection Hn as ->. by rewrite Hv.
Qed.

Lemma view_agrees_branch ro v b i c n :
  view_agrees ro v (NBranch b) -> br_children b !! i = Some c -> br_counts b !! i = Some n ->
  exists off, c = Disk off /\ view_child v i = Ok (off, n).
Proof.
  intros [_ (c0 & kcs & -> & H & _ & H1 & H2)]. cbn [br_children br_counts]. unfold view_child.
  destruct i as [|i]; cbn.
  - intros [= <-] [= <-]. exists c0.1. split; [done|]. by rewrite H1; cbn; rewrite H2.
  - rewrite !list_lookup_fmap_Some. intros (o & -> & (kc & -> & Hi)%list_lookup_fmap_Some) (kc' & -> & Hi').
    apply list_lookup_fmap_Some in Hi as (e1 & -> & Hi), Hi' as (e2 & -> & Hi'). rewrite Hi in Hi'. simplify_eq.
    destruct (Forall2_lookup_r _ _ _ _ _ H Hi) as (e & He & _ & Hn & Hv). rewrite He. cbn.
    rewrite Hn. cbn. rewrite Hv. cbn. eauto.
Qed.

(** ** Overflow chains *)

Lemma chunks_join fuel n l : 0 < n -> (length l <= fuel)%nat -> mjoin (chunks fuel n l) = l.
Proof.
  intros Hn. revert l; induction fuel as [|fuel IH]; intros [|x l] Hl; cbn [chunks length] in *; try done; try lia.
  rewrite mjoin_cons, IH, ztake_zdrop; [done|]. rewrite zdrop_drop, length_drop. cbn [length]. lia.
Qed.

Lemma chunks_lookup fuel n l i c :
  0 < n -> (length l <= fuel)%nat -> chunks fuel n l !! i = Some c ->
  0 < len c <= n /\ ((i + 1 < length (chunks fuel n l))%nat -> len c = n).
Proof.
  intros Hn. revert l i; induction fuel as [|fuel IH]; intros [|x l] i Hl; cbn [chunks length] in *; try done; try lia.
  assert (length (zdrop n (x :: l)) <= fuel)%nat as Hd by (rewrite zdrop_drop, length_drop; cbn [length]; lia).
  destruct i as [|i]; cbn [lookup list_lookup].
  - intros [= <-]. pose proof (len_cons x l) as Hc. len_facts. rewrite len_ztake by lia. split; [lia|].
    intros Hne. destruct (zdrop n (x :: l)) as [|y r] eqn:E; [destruct fuel; cbn in Hne; lia|].
    assert (len (zdrop n (x :: l)) = len (y :: r)) as El by (by rewrite E).
    rewrite len_zdrop, (len_cons y r) in El by lia. len_facts. lia.
  - intros Hi. destruct (IH _ _ Hd Hi) as [? Hlast]. split; [done|]. intros ?. apply Hlast. lia.
Qed.

Lemma chunks_count fuel n l :
  0 < n -> (length l <= fuel)%nat -> len (chunks fuel n l) = (len l + n - 1) / n.
Proof.
  intros Hn. revert l; induction fuel as [|fuel IH]; intros [|x l] Hl; cbn [chunks] in *.
  1,3: change (len (@nil bytes)) with 0; change (len (@nil byte)) with 0; symmetry; apply Z.div_small; lia.
  { cbn in Hl. lia. }
  assert (length (zdrop n (x :: l)) <= fuel)%nat as Hd by (rewrite zdrop_drop, length_drop; cbn [length] in *; lia).
  rewrite len_cons, IH, len_zdrop by (done || lia). pose proof (len_cons x l). len_facts.
  destruct (Z.max_spec 0 (len (x :: l) - n)) as [[? ->]|[? ->]].
  - replace (len (x :: l) + n - 1) with (len (x :: l) - n + n - 1 + 1 * n) by lia. rewrite Z.div_add by lia. lia.
  - rewrite (Z.div_small (0 + n - 1)) by lia. apply Z.div_unique with (r := len (x :: l) - 1); lia.
Qed.

Lemma encode_chunks_lookup `{Crc32fast} i n first cs j c :
  cs !! j = Some c ->
  encode_chunks i n first cs !! j =
    Some (seal (page_header KIND_OVERFLOW 0 (PAGE_HEADER + 8 + len c) ++
                le_bytes 8 (if i + Z.of_nat j + 1 <? n then first + (i + Z.of_nat j + 1) * PAGE_SIZE else 0) ++ c)).
Proof.
  revert i j; induction cs as [|c' cs IH]; intros i [|j]; cbn [encode_chunks lookup list_lookup]; try done.
  - intros [= <-]. rewrite Z.add_0_r. done.
  - intros Hj. rewrite (IH _ _ Hj). replace (i + 1 + Z.of_nat j) with (i + Z.of_nat (S j)) by lia. done.
Qed.

Lemma encode_chunks_length `{Crc32fast} i n first cs : length (encode_chunks i n first cs) = length cs.
Proof. revert i; induction cs as [|c cs IH]; intros i; cbn [encode_chunks length]; [done|]. by rewrite IH. Qed.

Lemma decode_overflow_sealed `{Crc32fastLaws} next c :
  u64_ok next -> len c <= OVERFLOW_PAYLOAD ->
  let page := seal (page_header KIND_OVERFLOW 0 (PAGE_HEADER + 8 + len c) ++ le_bytes 8 next ++ c) in
  len page = PAGE_SIZE /\ decode_overflow page = Ok (next, c).
Proof.
  intros Hn Hc. cbv zeta. set (body := le_bytes 8 next ++ c).
  assert (len body = 8 + len c) as Hlb by (unfold body; by rewrite len_app, len_le_bytes).
  set (used := PAGE_HEADER + 8 + len c). len_facts.
  assert (used = PAGE_HEADER + len body) as Hu by (unfold used; lia).
  assert (used <= PAGE_SIZE) as Hfit by (unfold used, OVERFLOW_PAYLOAD, PAGE_HEADER, PAGE_SIZE in *; lia).
  destruct (seal_eq KIND_OVERFLOW 0 used body Hu Hfit) as (pad & -> & Hpad).
  pose proof (len_sealed_header KIND_OVERFLOW 0 used body) as Hlh.
  split; [rewrite !len_app, Hlh, Hpad; lia|]. unfold decode_overflow. rewrite verify_sealed by done. cbn [rbind].
  change (KIND_OVERFLOW =? KIND_OVERFLOW) with true. cbn [negb].
  set (h := sealed_header _ _ _ _) in *. clearbody h. unfold body.
  rewrite (get_u64_at _ h next (c ++ pad)) by (rewrite <- ?app_assoc; done). cbn [rbind].
  rewrite (get_range_at _ (h ++ le_bytes 8 next) c pad);
    [done|by rewrite <- !app_assoc|by rewrite len_app, len_le_bytes, Hlh|done].
Qed.

(** ** Searching a page in place *)

(** How many keys are smaller than a key, and how many are not larger. *)
Definition keys_below (key : bytes) (keys : list bytes) : nat := length (filter (fun k => bytes_lt k key) keys).
Definition keys_upto (key : bytes) (keys : list bytes) : nat := length (filter (fun k => bytes_le k key) keys).

Lemma list_filter_none {A : Type} (P : A -> Prop) `{!forall x, Decision (P x)} l : (forall x, x ∈ l -> ~ P x) -> filter P l = [].
Proof. induction l as [|x l IH]; intros Hn; [done|]. rewrite filter_cons, decide_False by (apply Hn; by left). apply IH. intros y Hy. apply Hn. by right. Qed.
Lemma list_filter_all {A : Type} (P : A -> Prop) `{!forall x, Decision (P x)} l : Forall P l -> filter P l = l.
Proof. induction 1 as [|x l Hx _ IH]; [done|]. rewrite filter_cons, decide_True by done. by rewrite IH. Qed.

Lemma sorted_split keys key : StronglySorted bytes_lt keys ->
  let lo := filter (fun k => bytes_lt k key) keys in let eq := filter (fun k => k = key) keys in let hi := filter (fun k => bytes_lt key k) keys in
  keys = lo ++ eq ++ hi /\ filter (fun k => bytes_le k key) keys = lo ++ eq /\ eq = if decide (key ∈ keys) then [key] else [].
Proof.
  induction 1 as [|k keys _ IH Hk]; cbv zeta in *; [by rewrite decide_False by apply not_elem_of_nil|]. rewrite !filter_cons.
  destruct (bytes_lt_trichotomy k key) as [H|H].
  - destruct IH as (E1 & E2 & E3). assert (k <> key) as Hne by (intros ->; by apply bytes_lt_irrefl in H). assert (~ bytes_lt key k) as Hn by (intros H'; eapply bytes_lt_irrefl; by eapply bytes_lt_trans).
    rewrite (decide_True (P := bytes_lt k key)), (decide_True (P := bytes_le k key)), (decide_False (P := k = key)), (decide_False (P := bytes_lt key k)) by (done || by apply bytes_lt_le).
    cbn [app]. split; [by f_equal|]. split; [by f_equal|]. rewrite E3. destruct (decide (key ∈ keys)); [by rewrite decide_True by by right|]. rewrite decide_False; [done|]. by intros [->|?]%elem_of_cons.
  - assert (Forall (fun x => bytes_lt key x) keys) as Hgt by (eapply Forall_impl; [exact Hk|]; cbn; intros x Hx; destruct H as [->|H]; [done|by eapply bytes_lt_trans]).
    assert (forall x, x ∈ keys -> ~ bytes_le x key) as Hnle by (intros x Hx; apply bytes_lt_not_le; by apply (proj1 (Forall_forall _ _) Hgt)).
    assert (filter (fun x => bytes_lt x key) keys = []) as -> by (apply list_filter_none; intros x Hx Hl; by apply (Hnle x Hx), bytes_lt_le).
    assert (filter (fun x => x = key) keys = []) as -> by (apply list_filter_none; intros x Hx ->; by apply (Hnle key Hx), bytes_le_refl).
    assert (filter (fun x => bytes_le x key) keys = []) as -> by (apply list_filter_none; done).
    assert (filter (fun x => bytes_lt key x) keys = keys) as -> by (by apply list_filter_all).
    assert (key ∉ keys) as Hni by (intros Hx; by apply (Hnle key Hx), bytes_le_refl).
    destruct H as [->|H].
    + rewrite decide_False, decide_True, decide_False, decide_True, decide_True by (apply bytes_lt_irrefl || done || apply bytes_le_refl || by left). done.
    + assert (~ bytes_le k key) as Hk' by by apply bytes_lt_not_le.
      rewrite decide_False, decide_False, decide_True, decide_False, decide_False; [done| |done|done| |]; [|by intros ->; apply Hk', bytes_le_refl|by intros ?%bytes_lt_le].
      intros [->|?]%elem_of_cons; [|done]. by apply Hk', bytes_le_refl.
Qed.

(** What the view of a page says of the node that was written to it: its keys, values and
    children, and where a key is or belongs among sorted keys. *)
Definition view_reads (ro : Z -> Z -> result bytes) (v : PageView) (n : Node) (offs : list Z) : Prop :=
  let keys := k_bytes <$> node_keys n in
  view_len v = length keys /\ (forall i k, keys !! i = Some k -> view_key ro v i = Ok k) /\
  match n with
  | NLeaf l => pv_leaf v = true /\ forall i val, lf_values l !! i = Some val -> view_value v i = Ok val
  | NBranch b => pv_leaf v = false /\ forall i off count, offs !! i = Some off -> br_counts b !! i = Some count -> view_child v i = Ok (off, count)
  end /\
  (StronglySorted bytes_lt keys -> forall key,
    view_search ro v key = Ok (if decide (key ∈ keys) then inl (keys_below key keys) else inr (keys_below key keys)) /\
    view_child_index ro v key = Ok (keys_upto key keys)).

Lemma shows_searches ro v keys key : shows_keys ro v keys -> StronglySorted bytes_lt keys ->
  view_search ro v key = Ok (if decide (key ∈ keys) then inl (keys_below key keys) else inr (keys_below key keys)) /\ view_child_index ro v key = Ok (keys_upto key keys).
Proof.
  intros Hv Hs. destruct (sorted_split keys key Hs) as (E & E2 & E3). cbv zeta in *. unfold keys_below, keys_upto.
  assert (forall P `{!forall x, Decision (P x)}, Forall P (filter P keys)) as Hf by (intros P ?; apply Forall_forall; by intros x [? _]%list_elem_of_filter). split.
  - rewrite (view_search_spec ro v keys key _ _ _ Hv E (Hf _ _) (Hf _ _) (Hf _ _)); [|rewrite E3; destruct (decide _); cbn; lia]. rewrite E3. by destruct (decide _).
  - apply (view_child_index_spec ro v keys key (filter (fun k => bytes_le k key) keys) (filter (fun k => bytes_lt key k) keys) Hv); [by rewrite E2, <- app_assoc|apply Hf..].
Qed.

Lemma placed_keys n offs : k_bytes <$> node_keys (placed n offs) = k_bytes <$> node_keys n.
Proof. destruct n as [l|b]; cbn [placed node_keys lf_keys br_keys]; rewrite <- list_fmap_compose; apply list_fmap_ext; intros i k _; unfold compose, key_norm; by destruct (is_long _). Qed.

Lemma view_agrees_reads ro v n offs : node_shape n -> view_agrees ro v (placed n offs) -> view_reads ro v n offs.
Proof.
  intros Hs Hv. pose proof (view_agrees_keys _ _ _ Hv) as Hk. rewrite placed_keys in Hk. unfold view_reads. split; [by apply Forall2_length in Hk|]. split.
  { intros i k Hi. destruct (Forall2_lookup_r _ _ _ _ _ Hk Hi) as (e & He & Hb). unfold view_key. by rewrite He. }
  split; [|intros Hsort key; by apply shows_searches]. destruct n as [l|b]; cbn [placed] in Hv; (split; [apply Hv|]).
  - intros i val Hi. cbn [node_shape] in Hs. destruct (lookup_lt_is_Some_2 (lf_keys l) i) as [k Hki]; [rewrite <- Hs; by apply lookup_lt_Some in Hi|].
    apply (view_agrees_leaf _ _ _ i (key_norm k) val Hv); cbn [lf_keys lf_values]; [|done]. by rewrite list_lookup_fmap, Hki.
  - intros i off count Ho Hc. destruct (view_agrees_branch _ _ _ i (Disk off) count Hv) as (o & [= <-] & ?); cbn [br_children br_counts]; [by rewrite list_lookup_fmap, Ho|done|done].
Qed.

(** ** Properties *)

(** C12: a node is read back from its page, by decoding it and in place.  For a well-shaped
    node whose children are written and whose long keys are in overflow chains, encoding
    yields a page of exactly [PAGE_SIZE] bytes that decodes to the same keys, values and
    counts with the children at their offsets.  The view of the page returns the same keys,
    values and children, and when the keys are sorted its binary searches return the number
    of smaller keys, whether the key is there, and the child a key belongs to.  Encoding
    fails only when the node does not fit a page, and never panics. *)
Theorem node_page_roundtrip `{Crc32fastLaws} ro n f offs :
  node_shape n -> Forall (key_ok ro) (node_keys n) ->
  (if n is NBranch b then places f (br_children b) offs /\ Forall u64_ok offs /\ Forall u64_ok (br_counts b) else True) ->
  match encode_node n f with
  | Ok page => encoded_len n <= PAGE_SIZE /\ len page = PAGE_SIZE /\ decode_node ro page = Ok (placed n offs) /\
      exists v, view_read page = Ok v /\ view_reads ro v n offs
  | Err _ => PAGE_SIZE < encoded_len n
  | Panic => False
  end.
Proof.
  intros Hs Hk Hb. assert (if n is NBranch b then places f (br_children b) offs else True) as Hp.
  { destruct n; [done|apply Hb]. }
  destruct (Z.ltb_spec PAGE_SIZE (encoded_len n)) as [Hlt|Hle].
  { unfold encode_node. rewrite (proj2 (Z.ltb_lt _ _) Hlt). done. }
  assert (Forall writable (node_keys n)) as Hw.
  { eapply Forall_impl; [done|]. intros k Hk' Hl. destruct (Hk' Hl) as (_ & h & -> & _). eauto. }
  rewrite (proj2 (encode_node_iff n f offs _ Hs Hp) (conj Hle (conj Hw eq_refl))). split; [done|].
  destruct (decode_encode_node ro n f offs _ (proj2 (encode_node_iff n f offs _ Hs Hp) (conj Hle (conj Hw eq_refl))) Hs Hk Hb) as [Hl Hd].
  split; [done|]. split; [done|]. destruct (view_read_decode _ _ _ Hd) as (v & Ev & Hv). exists v. split; [done|]. by apply view_agrees_reads.
Qed.

Definition sample_long : bytes := replicate 600 x61.
Definition sample_leaf : Node :=
  NLeaf (mkLeaf [key_new (lit "aa"); mkKey sample_long (Some 8192)] [replicate 8 x01; replicate 8 x02]).

Lemma node_page_roundtrip_witness :
  let ro := fun _ _ : Z => Ok sample_long in
  exists page v, @encode_node crc32_iso_hdlc sample_leaf (fun _ => Err "no child") = Ok page /\ len page = PAGE_SIZE /\
    @decode_node crc32_iso_hdlc ro page = Ok (placed sample_leaf []) /\ @view_read crc32_iso_hdlc page = Ok v /\
    view_search ro v (lit "ab") = Ok (inr 2%nat) /\ view_value v 1 = Ok (replicate 8 x02).
Proof.
  intros ro. pose proof (node_page_roundtrip (H := crc32_iso_hdlc_laws) ro sample_leaf (fun _ => Err "no child") []) as H.
  assert (exists page, @encode_node crc32_iso_hdlc sample_leaf (fun _ => Err "no child") = Ok page) as (page & E) by (eexists; vm_compute; reflexivity).
  rewrite E in H. destruct H as (_ & Hl & Hd & v & Ev & _ & _ & [_ Hval] & Hsearch); [done| |done|].
  - constructor; [done|]. constructor; [|constructor]. intros _. split; [vm_compute; done|].
    exists 8192. split_and!; [done|split; [lia|vm_compute; done]|done].
  - exists page, v. split; [done|]. split; [done|]. split; [done|]. split; [done|]. split; [|by apply Hval].
    rewrite (proj1 (Hsearch ltac:(repeat constructor) (lit "ab"))). vm_compute. reflexivity.
Defined.
