(* ===== verification/ZsetStore.v ===== *)
(** * The sorted-set tree file ([zset_tree/store.rs])

    [TreeFile] is an open file: the disk behind it (with the outcomes of the coming
    writes, truncations and syncs, as in [IoBackend]) and the cached length.  Reads are
    functions of the file; writes, truncations and syncs are stateful and can fail, a
    failing write leaving any prefix of its bytes.

    The file lock is held by the one writer, so a call is one step on its file; readers
    see the file between steps.

    Theorems: an overflow chain that is in the file is read back whole; [state] follows
    the newest slot whose frame has a valid trailer. *)

From Stdlib Require Import ZArith Lia.
From S2P Require Import Prelude Bytes Crc IoBackend F64 ZsetFormat ZsetNode.

Record TreeState : Type := mkTreeState {
  ts_score_root : Z;
  ts_member_root : Z;
  ts_count : Z;
  ts_token : Token;
  ts_frame_end : Z;
  ts_generation : Z;
  ts_synced_frame_end : Z;
}.

Definition state_empty (slot : HeaderSlot) : TreeState :=
  mkTreeState 0 0 0 token_default HEADER_REGION (hs_generation slot) (hs_synced_frame_end slot).

Record TreeFile : Type := mkTreeFile {
  tf_disk : IoBackend.Disk;
  tf_len : Z;
}.
Definition tf_data (tf : TreeFile) : bytes := IoBackend.d_data (tf_disk tf).

Definition io_error (context error : string) : string := "zset tree: " +:+ context +:+ ": " +:+ error.

Definition sys_write_at (offset : Z) (bs : bytes) : SR IoBackend.Disk unit := fun d =>
  match IoBackend.d_faults d with
  | [] => (Ok tt, IoBackend.with_data (overwrite (IoBackend.d_data d) offset bs) [] d)
  | None :: ev => (Ok tt, IoBackend.with_data (overwrite (IoBackend.d_data d) offset bs) ev d)
  | Some (k, msg) :: ev => (Err msg, IoBackend.with_data (overwrite (IoBackend.d_data d) offset (ztake k bs)) ev d)
  end.

(** A system call on the file; its error is wrapped by [io_error]. *)
Definition on_disk {A : Type} (context : string) (m : SR IoBackend.Disk A) : SR TreeFile A := fun tf =>
  match m (tf_disk tf) with
  | (Ok a, d) => (Ok a, mkTreeFile d (tf_len tf))
  | (Err e, d) => (Err (io_error context e), mkTreeFile d (tf_len tf))
  | (Panic, d) => (Panic, mkTreeFile d (tf_len tf))
  end.

Definition write_at (offset : Z) (bs : bytes) : SR TreeFile unit := on_disk "write" (sys_write_at offset bs).

Definition set_len (n : Z) : SR TreeFile unit :=
  let! _ := on_disk "truncate" (IoBackend.sys_set_len n) in
  fun tf => (Ok tt, mkTreeFile (tf_disk tf) n).

Definition note_appended (end_ : Z) : SR TreeFile unit := fun tf =>
  (Ok tt, mkTreeFile (tf_disk tf) (Z.max (tf_len tf) end_)).

Definition sync_file : SR TreeFile unit := on_disk "fsync" IoBackend.sys_sync_data.

Definition read_exact (tf : TreeFile) (offset n : Z) : result bytes :=
  if match checked_add64 offset n with None => true | Some end_ => tf_len tf <? end_ end then
    Err ("zset tree: read of " +:+ pretty n +:+ " bytes at " +:+ pretty offset +:+ " past the end (" +:+
         pretty (tf_len tf) +:+ ")")
  else
    ok_or (get_range (tf_data tf) offset (offset + n)) (io_error "read" "failed to fill whole buffer").

Definition read_page (tf : TreeFile) (offset : Z) : result bytes :=
  if offset <? HEADER_REGION then Err ("zset tree: page offset " +:+ pretty offset +:+ " inside the header")
  else read_exact tf offset PAGE_SIZE.

Section WithCrc.
Context {C : Crc32fast}.

(** The loop over at most [max_pages] pages; it returns the bytes and the next offset. *)
Fixpoint read_overflow_loop (max_pages : nat) (tf : TreeFile) (next : Z) (bs : bytes) : result (bytes * Z) :=
  match max_pages with
  | O => Ok (bs, next)
  | S max_pages =>
      let? page := read_page tf next in
      let? chunk := decode_overflow page in
      let bs := bs ++ chunk.2 in
      let next := chunk.1 in
      if next =? 0 then Ok (bs, next) else read_overflow_loop max_pages tf next bs
  end.

(** [len.div_ceil(OVERFLOW_PAYLOAD)]. *)
Definition max_pages (n : Z) : nat := Z.to_nat ((n + OVERFLOW_PAYLOAD - 1) / OVERFLOW_PAYLOAD).

Definition read_overflow (tf : TreeFile) (head n : Z) : result bytes :=
  let? r := read_overflow_loop (max_pages n) tf head [] in
  if negb (len r.1 =? n) || negb (r.2 =? 0) then Err "zset tree: overflow chain length mismatch"
  else Ok r.1.

Definition slots (tf : TreeFile) : result (option HeaderSlot * option HeaderSlot) :=
  let? bs := read_exact tf 0 (2 * SLOT_SIZE) in
  Ok (slot_decode (ztake SLOT_SIZE bs), slot_decode (zdrop SLOT_SIZE bs)).

Definition write_slot (slot : HeaderSlot) : SR TreeFile unit := write_at (slot_offset slot) (slot_encode slot).

Definition trailer_ending_at (tf : TreeFile) (frame_end : Z) : result (option Trailer) :=
  if (tf_len tf <? frame_end) || (frame_end <? HEADER_REGION + TRAILER_SIZE) then Ok None else
  let? bs := read_exact tf (frame_end - TRAILER_SIZE) TRAILER_SIZE in
  Ok match trailer_decode bs with
     | Some trailer => if tr_frame_start trailer <? frame_end then Some trailer else None
     | None => None
     end.

(** [slots.sort_by_key(|slot| Reverse(slot.generation))] on the valid slots; the sort is
    stable. *)
Definition newest_first (s : option HeaderSlot * option HeaderSlot) : list HeaderSlot :=
  match s with
  | (Some a, Some b) => if hs_generation a <? hs_generation b then [b; a] else [a; b]
  | (Some a, None) => [a]
  | (None, Some b) => [b]
  | (None, None) => []
  end.

Fixpoint state_from (tf : TreeFile) (candidates : list HeaderSlot) : result TreeState :=
  match candidates with
  | [] => Err "zset tree: no header names a valid frame; the file needs recovery"
  | slot :: candidates =>
      if hs_latest_frame_end slot =? HEADER_REGION then Ok (state_empty slot) else
      let? trailer := trailer_ending_at tf (hs_latest_frame_end slot) in
      match trailer with
      | Some t => Ok (mkTreeState (tr_score_root t) (tr_member_root t) (tr_count t) (tr_token t)
                        (hs_latest_frame_end slot) (hs_generation slot) (hs_synced_frame_end slot))
      | None => state_from tf candidates
      end
  end.

Definition state (tf : TreeFile) : result TreeState :=
  let? s := slots tf in state_from tf (newest_first s).

(** [from_file]. *)
Definition from_file (d : IoBackend.Disk) : TreeFile := mkTreeFile d (len (IoBackend.d_data d)).

(** [open_write] once the file is open and locked: an empty file gets a header with an
    empty tree. *)
Definition init_header : SR TreeFile unit := fun tf =>
  if tf_len tf =? 0 then
    (let header := copy_from_slice (replicate (Z.to_nat HEADER_REGION) x00) 0 (slot_encode slot_empty) in
     let! _ := write_at 0 header in
     note_appended HEADER_REGION) tf
  else (Ok tt, tf).

End WithCrc.

(** ** Reading what is in the file *)

(** The file holds [bs] at [offset], within its known length. *)
Definition holds_at (tf : TreeFile) (offset : Z) (bs : bytes) : Prop :=
  0 <= offset /\ offset + len bs <= tf_len tf <= len (tf_data tf) /\ zslice (tf_data tf) offset (offset + len bs) = bs.

Lemma read_exact_holds tf offset bs :
  holds_at tf offset bs -> tf_len tf <= u64_max -> read_exact tf offset (len bs) = Ok bs.
Proof.
  intros (Ha & Hb & Hc) Hu. unfold read_exact, checked_add64. len_facts.
  destruct (Z.leb_spec (offset + len bs) u64_max); [|lia].
  destruct (Z.ltb_spec (tf_len tf) (offset + len bs)); [lia|].
  rewrite get_range_Some by lia. cbn. by rewrite Hc.
Qed.

Lemma read_page_holds tf offset page :
  holds_at tf offset page -> len page = PAGE_SIZE -> HEADER_REGION <= offset -> tf_len tf <= u64_max ->
  read_page tf offset = Ok page.
Proof.
  intros Hh Hl Ho Hu. unfold read_page. destruct (Z.ltb_spec offset HEADER_REGION); [lia|].
  rewrite <- Hl. by apply read_exact_holds.
Qed.

Lemma holds_at_app tf offset a b : holds_at tf offset (a ++ b) <-> holds_at tf offset a /\ holds_at tf (offset + len a) b.
Proof.
  unfold holds_at. rewrite len_app. pose proof (len_nonneg a). pose proof (len_nonneg b). split.
  - intros (Ha & Hb & Hc). rewrite Z.add_assoc in Hc.
    rewrite <- (zslice_join _ offset (offset + len a)) in Hc by lia.
    apply app_inj_1 in Hc as [E1 E2].
    + split_and!; try lia; done.
    + pose proof (len_zslice (tf_data tf) offset (offset + len a) ltac:(lia) ltac:(lia)) as Hl.
      unfold len in *. lia.
  - intros ((? & ? & E1) & (? & ? & E2)). split_and!; try lia.
    rewrite Z.add_assoc, <- (zslice_join _ offset (offset + len a)) by lia. by rewrite E1, E2.
Qed.

Section Chains.
Context {C : Crc32fast} {L : Crc32fastLaws C}.

Lemma read_overflow_loop_chain tf first cs i n acc :
  tf_len tf <= u64_max -> HEADER_REGION <= first -> 0 <= i -> cs <> [] -> n = i + len cs ->
  Forall (fun c => len c <= OVERFLOW_PAYLOAD) cs ->
  holds_at tf (first + i * PAGE_SIZE) (mjoin (encode_chunks i n first cs)) ->
  read_overflow_loop (length cs) tf (first + i * PAGE_SIZE) acc = Ok (acc ++ mjoin cs, 0).
Proof.
  intros Hu Hf. revert i acc. induction cs as [|c cs IH]; intros i acc Hi Hne Hn Hc Hh; [done|].
  cbn [encode_chunks] in Hh. rewrite mjoin_cons in Hh.
  inversion Hc as [|? ? Hc1 Hcs]; subst x l.
  set (next := if i + 1 <? n then first + (i + 1) * PAGE_SIZE else 0) in *.
  assert (len (c :: cs) = len cs + 1) as Hlc by apply len_cons. pose proof (len_nonneg cs).
  apply holds_at_app in Hh as [Hh1 Hh2].
  assert (0 <= next <= u64_max) as Hnext.
  { unfold next. destruct (Z.ltb_spec (i + 1) n); [|unfold u64_max; lia].
    destruct Hh2 as (? & ? & _). destruct Hh1 as (_ & Hb & _).
    pose proof (len_nonneg (mjoin (encode_chunks (i + 1) n first cs))).
    unfold HEADER_REGION, PAGE_SIZE in *.
    assert (forall z, len (seal (page_header KIND_OVERFLOW 0 (PAGE_HEADER + 8 + len c) ++ le_bytes 8 z ++ c)) = 4096) as Hps'.
    { intros z. unfold seal. cbv zeta. unfold len. rewrite len_resize. done. }
    rewrite Hps' in *. lia. }
  destruct (decode_overflow_sealed next c) as [Hps Hdec]; [done|done|].
  cbn [length read_overflow_loop]. rewrite (read_page_holds _ _ _ Hh1 Hps) by (unfold PAGE_SIZE; lia). cbn [rbind].
  rewrite Hdec. cbn [rbind fst snd]. rewrite mjoin_cons, app_assoc.
  destruct cs as [|c' cs'].
  - assert (next = 0) as ->. { unfold next. rewrite len_nil in *. destruct (Z.ltb_spec (i + 1) n); [lia|done]. }
    cbn. by rewrite app_nil_r.
  - assert (next = first + (i + 1) * PAGE_SIZE) as E.
    { unfold next. pose proof (len_cons c' cs'). pose proof (len_nonneg cs'). destruct (Z.ltb_spec (i + 1) n); [done|lia]. }
    destruct (Z.eqb_spec next 0); [unfold HEADER_REGION, PAGE_SIZE in *; lia|]. rewrite E.
    apply IH; [lia|done|lia|done|]. rewrite Hps in Hh2.
    replace (first + (i + 1) * PAGE_SIZE) with (first + i * PAGE_SIZE + PAGE_SIZE) by lia. done.
Qed.

(** A chain written by [encode_overflow] is read back. *)
Lemma read_overflow_chain tf head bs :
  tf_len tf <= u64_max -> HEADER_REGION <= head -> bs <> [] ->
  holds_at tf head (mjoin (encode_overflow bs head)) ->
  read_overflow tf head (len bs) = Ok bs.
Proof.
  intros Hu Hh Hne Hhold. unfold read_overflow, encode_overflow in *. cbv zeta in *.
  set (cs := chunks (length bs) OVERFLOW_PAYLOAD bs) in *.
  assert (0 < OVERFLOW_PAYLOAD) as Hp by done.
  pose proof (chunks_count (length bs) OVERFLOW_PAYLOAD bs Hp ltac:(lia)) as Hcount. fold cs in Hcount.
  pose proof (chunks_join (length bs) OVERFLOW_PAYLOAD bs Hp ltac:(lia)) as Hjoin. fold cs in Hjoin.
  assert (max_pages (len bs) = length cs) as ->.
  { unfold max_pages. rewrite <- Hcount. unfold len. lia. }
  rewrite <- (Z.add_0_r head) in Hhold at 1. change 0 with (0 * PAGE_SIZE) in Hhold at 1.
  rewrite <- (Z.add_0_r head) at 1. change 0 with (0 * PAGE_SIZE) at 1.
  rewrite (read_overflow_loop_chain tf head cs 0 (len cs) []); [|done|done|lia| |lia| |done].
  - cbn [app rbind fst snd]. by rewrite Hjoin, Z.eqb_refl.
  - intros E. apply Hne. by rewrite <- Hjoin, E.
  - apply Forall_lookup. intros j c Hj. apply chunks_lookup in Hj; [lia|done|lia].
Qed.

End Chains.
