(* ===== verification/ZsetTree.v ===== *)
(** * Copy-on-write transactions over the trees ([zset_tree/tree.rs])

    [Tx] is a transaction: the open file it reads, the nodes it has copied and changed
    (an arena indexed by [Dirty]), the two roots, the member count and the logged
    changes.  Reads walk pages in place; [insert] and [remove] copy the nodes on the
    path into the arena, split full nodes and merge underfull ones.

    Recursion follows the depth of the tree.  A branch has at least two children and a
    leaf at least one key, so a tree whose size fits a [u64] is at most 64 deep and
    [DEPTH] levels are enough; a run that would need more (a page that names itself as
    its child) has no result in the code either.

    The proofs are in [ZsetTreeProof]. *)

From Stdlib Require Import ZArith Lia.
From S2P Require Import Prelude Bytes Crc IoBackend F64 ZsetFormat Assoc ZsetNode ZsetStore.

Inductive Tree : Type := Score | Member.
#[global] Instance tree_eq_dec : EqDecision Tree.
Proof. solve_decision. Defined.

Record Split : Type := mkSplit {
  sp_sep : Key;
  sp_right : Child;
  sp_left_count : Z;
  sp_right_count : Z;
}.

Record Tx : Type := mkTx {
  tx_file : TreeFile;
  tx_base : TreeState;
  tx_nodes : list Node;
  tx_roots : Child * Child;
  tx_count : Z;
  tx_log : list LoggedOp;
}.

Definition DEPTH : nat := 65.

(** ** Vectors: indexing, insertion and removal panic out of range *)

Definition vec_set {A : Type} (i : nat) (x : A) (l : list A) : result (list A) :=
  if (i <? length l)%nat then Ok (<[i := x]> l) else Panic.
Definition vec_insert {A : Type} (i : nat) (x : A) (l : list A) : result (list A) :=
  if (i <=? length l)%nat then Ok (insert_at i x l) else Panic.
Definition vec_remove {A : Type} (i : nat) (l : list A) : result (list A) :=
  if (i <? length l)%nat then Ok (remove_at i l) else Panic.
(** [split_off]: what stays and what is split off. *)
Definition vec_split_off {A : Type} (i : nat) (l : list A) : result (list A * list A) :=
  if (i <=? length l)%nat then Ok (take i l, drop i l) else Panic.

Definition child_index (seps : list Key) (key : bytes) : nat :=
  partition_point (fun sep => bytes_leb (k_bytes sep) key) seps.

Definition leaf_search (leaf : Leaf) (key : bytes) : nat + nat :=
  binary_search_by (fun probe => bytes_compare (k_bytes probe) key) (lf_keys leaf).

Definition position_of (r : nat + nat) : nat := match r with inl i | inr i => i end.

Section WithCrc.
Context {C : Crc32fast}.

Definition begin (file : TreeFile) (base : TreeState) : Tx :=
  mkTx file base [] (Disk (ts_score_root base), Disk (ts_member_root base)) (ts_count base) [].

Definition root (tx : Tx) (t : Tree) : Child := match t with Score => (tx_roots tx).1 | Member => (tx_roots tx).2 end.

Definition set_root (t : Tree) (c : Child) : SR Tx unit := fun tx =>
  let roots := match t with Score => (c, (tx_roots tx).2) | Member => ((tx_roots tx).1, c) end in
  (Ok tt, mkTx (tx_file tx) (tx_base tx) (tx_nodes tx) roots (tx_count tx) (tx_log tx)).

Definition log (op : LoggedOp) : SR Tx unit := fun tx =>
  (Ok tt, mkTx (tx_file tx) (tx_base tx) (tx_nodes tx) (tx_roots tx) (tx_count tx) (tx_log tx ++ [op])).

Definition set_nodes (nodes : list Node) (tx : Tx) : Tx :=
  mkTx (tx_file tx) (tx_base tx) nodes (tx_roots tx) (tx_count tx) (tx_log tx).

Definition load (tx : Tx) (offset : Z) : result Node :=
  let? page := read_page (tx_file tx) offset in
  decode_node (read_overflow (tx_file tx)) page.

Definition node (tx : Tx) (child : Child) : result Node :=
  match child with
  | Disk offset =>
      if offset =? 0 then Err "zset tree: read of the empty tree's root" else load tx offset
  | Dirty index => unwrap (tx_nodes tx !! index)
  end.

Definition push (n : Node) : SR Tx Child := fun tx =>
  (Ok (Dirty (length (tx_nodes tx))), set_nodes (tx_nodes tx ++ [n]) tx).

(** [&self.nodes[index]] and its assignment. *)
Definition get_node (index : nat) : SR Tx Node := fun tx => (unwrap (tx_nodes tx !! index), tx).
Definition put_node (index : nat) (n : Node) : SR Tx unit := fun tx =>
  match vec_set index n (tx_nodes tx) with
  | Ok nodes => (Ok tt, set_nodes nodes tx)
  | Err e => (Err e, tx)
  | Panic => (Panic, tx)
  end.

Definition make_dirty (child : Child) : SR Tx nat := fun tx =>
  match child with
  | Dirty index => (Ok index, tx)
  | Disk offset =>
      if offset =? 0 then (Ok (length (tx_nodes tx)), set_nodes (tx_nodes tx ++ [NLeaf (mkLeaf [] [])]) tx)
      else
        match load tx offset with
        | Ok n => (Ok (length (tx_nodes tx)), set_nodes (tx_nodes tx ++ [n]) tx)
        | Err e => (Err e, tx)
        | Panic => (Panic, tx)
        end
  end.

(** ** Reads *)

Definition page (tx : Tx) (offset : Z) : result bytes :=
  if offset =? 0 then Err "zset tree: read of the empty tree's root" else read_page (tx_file tx) offset.

Fixpoint get_loop (fuel : nat) (tx : Tx) (child : Child) (key : bytes) : result (option bytes) :=
  match fuel with
  | O => Panic
  | S fuel =>
      match child with
      | Dirty index =>
          let? n := unwrap (tx_nodes tx !! index) in
          match n with
          | NLeaf leaf =>
              match leaf_search leaf key with
              | inl i => let? v := unwrap (lf_values leaf !! i) in Ok (Some v)
              | inr _ => Ok None
              end
          | NBranch branch =>
              let? child := unwrap (br_children branch !! child_index (br_keys branch) key) in
              get_loop fuel tx child key
          end
      | Disk offset =>
          let? pg := page tx offset in
          let? view := view_read pg in
          if pv_leaf view then
            let? found := view_search (read_overflow (tx_file tx)) view key in
            match found with
            | inl i => let? v := view_value view i in Ok (Some v)
            | inr _ => Ok None
            end
          else
            let? i := view_child_index (read_overflow (tx_file tx)) view key in
            let? child := view_child view i in
            get_loop fuel tx (Disk child.1) key
      end
  end.

Definition get (tx : Tx) (t : Tree) (key : bytes) : result (option bytes) :=
  let child := root tx t in
  if decide (child = EMPTY) then Ok None else get_loop DEPTH tx child key.

(** [for j in 0..i { below += view.child(j)?.1 }]. *)
Fixpoint sum_children (view : PageView) (j : nat) (i : nat) (below : Z) : result Z :=
  match i with
  | O => Ok below
  | S i =>
      let? child := view_child view j in
      sum_children view (S j) i (add64 below child.2)
  end.

Fixpoint rank_loop (fuel : nat) (tx : Tx) (child : Child) (key : bytes) (below : Z) : result Z :=
  match fuel with
  | O => Panic
  | S fuel =>
      match child with
      | Dirty index =>
          let? n := unwrap (tx_nodes tx !! index) in
          match n with
          | NLeaf leaf => Ok (add64 below (Z.of_nat (position_of (leaf_search leaf key))))
          | NBranch branch =>
              let i := child_index (br_keys branch) key in
              if (length (br_counts branch) <? i)%nat then Panic else
              let below := add64 below (sum64 (take i (br_counts branch))) in
              let? child := unwrap (br_children branch !! i) in
              rank_loop fuel tx child key below
          end
      | Disk offset =>
          let? pg := page tx offset in
          let? view := view_read pg in
          if pv_leaf view then
            let? found := view_search (read_overflow (tx_file tx)) view key in
            Ok (add64 below (Z.of_nat (position_of found)))
          else
            let? i := view_child_index (read_overflow (tx_file tx)) view key in
            let? below := sum_children view 0 i below in
            let? child := view_child view i in
            rank_loop fuel tx (Disk child.1) key below
      end
  end.

Definition rank (tx : Tx) (t : Tree) (key : bytes) : result Z :=
  let child := root tx t in
  if decide (child = EMPTY) then Ok 0 else rank_loop DEPTH tx child key 0.

(** [for i in start..stop] over a leaf: the entries pushed to [out]. *)
Fixpoint push_entries (entry : nat -> result (bytes * bytes)) (start n : nat) : result (list (bytes * bytes)) :=
  match n with
  | O => Ok []
  | S n =>
      let? e := entry start in
      let? rest := push_entries entry (S start) n in
      Ok (e :: rest)
  end.
Definition push_range (entry : nat -> result (bytes * bytes)) (start end_ : Z) (length_ : nat)
    : result (list (bytes * bytes)) :=
  let stop := Z.min end_ (Z.of_nat length_) in
  push_entries entry (Z.to_nat start) (Z.to_nat (stop - start)).

(** The loop over the children of a branch: [count i] and [child i] are the count and the
    pointer of child [i], [rec] the recursive call. *)
Fixpoint range_children (rec : Child -> Z -> Z -> result (list (bytes * bytes))) (count : nat -> result Z)
    (child : nat -> result Child) (i n : nat) (offset start end_ : Z) : result (list (bytes * bytes)) :=
  match n with
  | O => Ok []
  | S n =>
      if end_ <=? offset then Ok [] else
      let? c := count i in
      let? out :=
        if start <? add64 offset c then
          let? below := child i in
          rec below (saturating_sub64 start offset) (Z.min (sub64 end_ offset) c)
        else Ok [] in
      let? rest := range_children rec count child (S i) n (add64 offset c) start end_ in
      Ok (out ++ rest)
  end.

(** [range_rec] and [range_dirty]. *)
Fixpoint range_rec (fuel : nat) (tx : Tx) (child : Child) (start end_ : Z) : result (list (bytes * bytes)) :=
  match fuel with
  | O => Panic
  | S fuel =>
      match child with
      | Dirty _ =>
          let? n := node tx child in
          match n with
          | NLeaf leaf =>
              push_range (fun i => let? k := unwrap (lf_keys leaf !! i) in
                                   let? v := unwrap (lf_values leaf !! i) in Ok (k_bytes k, v))
                start end_ (length (lf_keys leaf))
          | NBranch branch =>
              range_children (range_rec fuel tx)
                (fun i => unwrap (br_counts branch !! i)) (fun i => unwrap (br_children branch !! i))
                0 (length (br_counts branch)) 0 start end_
          end
      | Disk offset =>
          let? pg := page tx offset in
          let? view := view_read pg in
          if pv_leaf view then
            push_range (fun i => let? k := view_key (read_overflow (tx_file tx)) view i in
                                 let? v := view_value view i in Ok (k, v))
              start end_ (view_len view)
          else
            range_children (range_rec fuel tx)
              (fun i => let? c := view_child view i in Ok c.2) (fun i => let? c := view_child view i in Ok (Disk c.1))
              0 (view_children view) 0 start end_
      end
  end.

Definition range (tx : Tx) (t : Tree) (start end_ : Z) : result (list (bytes * bytes)) :=
  let r := root tx t in
  if decide (r = EMPTY) then Ok [] else
  if start <? end_ then range_rec DEPTH tx r start end_ else Ok [].

(** ** Insertion *)

(** The loop that finds where to split: the bytes before it first reach half, and at
    least [keep] entries stay on the right.  [sizes.len() - keep] wraps below zero, and
    reading a size out of range panics. *)
Fixpoint split_loop (fuel : nat) (sizes : list Z) (keep half at_ acc : Z) : result Z :=
  if at_ <? sub64 (len sizes) keep then
    match fuel with
    | O => Panic
    | S fuel =>
        let? size := unwrap (znth sizes at_) in
        if acc + size <=? half then split_loop fuel sizes keep half (at_ + 1) (acc + size) else Ok at_
    end
  else Ok at_.
Definition split_position (sizes : list Z) (keep : Z) : result Z :=
  let half := zsum sizes / 2 in
  let? first := unwrap (znth sizes 0) in
  split_loop (length sizes) sizes keep half 1 first.

(** [split_leaf] and [split_branch] on a node of the arena; any other node is
    [unreachable!]. *)
Definition split_leaf (index : nat) : SR Tx Split :=
  let! n := get_node index in
  match n with
  | NBranch _ => slift Panic
  | NLeaf leaf =>
      let sizes := entry_size <$> zip (lf_keys leaf) (lf_values leaf) in
      let! at_ := slift (split_position sizes 1) in
      let! keys := slift (vec_split_off (Z.to_nat at_) (lf_keys leaf)) in
      let! values := slift (vec_split_off (Z.to_nat at_) (lf_values leaf)) in
      let! _ := put_node index (NLeaf (mkLeaf keys.1 values.1)) in
      let! sep := slift (unwrap (keys.2 !! 0%nat)) in
      let! right_child := push (NLeaf (mkLeaf keys.2 values.2)) in
      sret (mkSplit sep right_child (len keys.1) (len keys.2))
  end.

Definition split_branch (index : nat) : SR Tx Split :=
  let! n := get_node index in
  match n with
  | NLeaf _ => slift Panic
  | NBranch branch =>
      let sizes := sep_size <$> br_keys branch in
      let! mid := slift (split_position sizes 2) in
      let mid1 := Z.to_nat (mid + 1) in
      let! keys := slift (vec_split_off mid1 (br_keys branch)) in
      let! sep := slift (unwrap (last keys.1)) in
      let! children := slift (vec_split_off mid1 (br_children branch)) in
      let! counts := slift (vec_split_off mid1 (br_counts branch)) in
      let left_branch := mkBranch (removelast keys.1) children.1 counts.1 in
      let right_branch := mkBranch keys.2 children.2 counts.2 in
      let! _ := put_node index (NBranch left_branch) in
      let! right_child := push (NBranch right_branch) in
      sret (mkSplit sep right_child (total left_branch) (total right_branch))
  end.

(** [(node.encoded_len() > PAGE_SIZE).then(..)]. *)
Definition split_if_full (index : nat) (n : Node) : SR Tx (option Split) :=
  if PAGE_SIZE <? encoded_len n then
    let! split := match n with NLeaf _ => split_leaf index | NBranch _ => split_branch index end in
    sret (Some split)
  else sret None.

(** The branch with the new child in its place, and the new sibling behind it. *)
Definition grow_branch (branch : Branch) (position : nat) (nd : Child) (replaced : option bytes) (split : option Split)
    : result Branch :=
  let? children := vec_set position nd (br_children branch) in
  let? counts := match replaced with
                 | None => let? count := unwrap (br_counts branch !! position) in
                           vec_set position (add64 count 1) (br_counts branch)
                 | Some _ => Ok (br_counts branch)
                 end in
  match split with
  | None => Ok (mkBranch (br_keys branch) children counts)
  | Some split =>
      let? counts := vec_set position (sp_left_count split) counts in
      let? keys := vec_insert position (sp_sep split) (br_keys branch) in
      let? children := vec_insert (position + 1) (sp_right split) children in
      let? counts := vec_insert (position + 1) (sp_right_count split) counts in
      Ok (mkBranch keys children counts)
  end.

Fixpoint insert_rec (fuel : nat) (child : Child) (key : Key) (value : bytes)
    : SR Tx (Child * option bytes * option Split) :=
  match fuel with
  | O => slift Panic
  | S fuel =>
      let! index := make_dirty child in
      let! n := get_node index in
      match n with
      | NLeaf leaf =>
          match leaf_search leaf (k_bytes key) with
          | inl i =>
              let! old := slift (unwrap (lf_values leaf !! i)) in
              let! values := slift (vec_set i value (lf_values leaf)) in
              let! _ := put_node index (NLeaf (mkLeaf (lf_keys leaf) values)) in
              sret (Dirty index, Some old, None)
          | inr i =>
              let! keys := slift (vec_insert i key (lf_keys leaf)) in
              let! values := slift (vec_insert i value (lf_values leaf)) in
              let grown := NLeaf (mkLeaf keys values) in
              let! _ := put_node index grown in
              let! split := split_if_full index grown in
              sret (Dirty index, None, split)
          end
      | NBranch branch =>
          let position := child_index (br_keys branch) (k_bytes key) in
          let! below := slift (unwrap (br_children branch !! position)) in
          let! r := insert_rec fuel below key value in
          let '(nd, replaced, split) := r in
          let! n := get_node index in
          match n with
          | NLeaf _ => slift Panic
          | NBranch branch =>
              let! grown := slift (grow_branch branch position nd replaced split) in
              let! _ := put_node index (NBranch grown) in
              let! split := split_if_full index (NBranch grown) in
              sret (Dirty index, replaced, split)
          end
      end
  end.

Definition insert (t : Tree) (key value : bytes) : SR Tx (option bytes) := fun tx =>
  (let! r := insert_rec DEPTH (root tx t) (key_new key) value in
   let '(nd, replaced, split) := r in
   let! new_root :=
     match split with
     | None => sret nd
     | Some split =>
         push (NBranch (mkBranch [sp_sep split] [nd; sp_right split] [sp_left_count split; sp_right_count split]))
     end in
   let! _ := set_root t new_root in
   sret replaced) tx.

(** ** Removal *)

(** The merge of two siblings, [into] on the left. *)
Definition merge_nodes (into from : Node) (sep : Key) : result Node :=
  match into, from with
  | NLeaf into, NLeaf from => Ok (NLeaf (mkLeaf (lf_keys into ++ lf_keys from) (lf_values into ++ lf_values from)))
  | NBranch into, NBranch from =>
      Ok (NBranch (mkBranch (br_keys into ++ [sep] ++ br_keys from) (br_children into ++ br_children from)
                     (br_counts into ++ br_counts from)))
  | _, _ => Err "zset tree: siblings at different depths"
  end.

Definition get_branch (index : nat) : SR Tx Branch :=
  let! n := get_node index in
  match n with NBranch branch => sret branch | NLeaf _ => slift Panic end.

(** [self.node(child)?]. *)
Definition read_node (child : Child) : SR Tx Node := fun tx => (node tx child, tx).

(** The parent after the merge of its children [left] and [left + 1]: either the merge
    was split again, or one child is left. *)
Definition merged_branch (branch : Branch) (left_position left_index : nat) (split : option Split) : result Branch :=
  let? children := vec_set left_position (Dirty left_index) (br_children branch) in
  match split with
  | Some split =>
      let? keys := vec_set left_position (sp_sep split) (br_keys branch) in
      let? children := vec_set (left_position + 1) (sp_right split) children in
      let? counts := vec_set left_position (sp_left_count split) (br_counts branch) in
      let? counts := vec_set (left_position + 1) (sp_right_count split) counts in
      Ok (mkBranch keys children counts)
  | None =>
      let? left_count := unwrap (br_counts branch !! left_position) in
      let? right_count := unwrap (br_counts branch !! (left_position + 1)%nat) in
      let? counts := vec_set left_position (add64 left_count right_count) (br_counts branch) in
      let? children := vec_remove (left_position + 1) children in
      let? counts := vec_remove (left_position + 1) counts in
      let? keys := vec_remove left_position (br_keys branch) in
      Ok (mkBranch keys children counts)
  end.

Definition merge_children (index left_position : nat) (branch : Branch) : SR Tx unit :=
  let! left_child := slift (unwrap (br_children branch !! left_position)) in
  let! right_child := slift (unwrap (br_children branch !! (left_position + 1)%nat)) in
  let! sep := slift (unwrap (br_keys branch !! left_position)) in
  let! left_index := make_dirty left_child in
  let! right_node := read_node right_child in
  let! left_node := get_node left_index in
  let! merged := slift (merge_nodes left_node right_node sep) in
  let! _ := put_node left_index merged in
  let! split := split_if_full left_index merged in
  let! branch := get_branch index in
  let! branch := slift (merged_branch branch left_position left_index split) in
  put_node index (NBranch branch).

(** A child without entries. *)
Definition dropped_branch (branch : Branch) (position : nat) : result Branch :=
  let? children := vec_remove position (br_children branch) in
  let? counts := vec_remove position (br_counts branch) in
  let? keys := vec_remove (Nat.min (position - 1) (length (br_keys branch) - 1)) (br_keys branch) in
  Ok (mkBranch keys children counts).

Definition rebalance (index position : nat) : SR Tx unit :=
  let! branch := get_branch index in
  let! count := slift (unwrap (br_counts branch !! position)) in
  if count =? 0 then
    let! branch := slift (dropped_branch branch position) in
    put_node index (NBranch branch)
  else
    if (length (br_children branch) <? 2)%nat then sret tt else
    let! below := slift (unwrap (br_children branch !! position)) in
    let! child_node := read_node below in
    if PAGE_SIZE / 4 <=? encoded_len child_node then sret tt else
    merge_children index (if (0 <? position)%nat then (position - 1)%nat else position) branch.

Fixpoint remove_rec (fuel : nat) (child : Child) (key : bytes) : SR Tx (Child * bytes) :=
  match fuel with
  | O => slift Panic
  | S fuel =>
      let! index := make_dirty child in
      let! n := get_node index in
      match n with
      | NLeaf leaf =>
          match leaf_search leaf key with
          | inr _ => serr "zset tree: removed key vanished"
          | inl i =>
              let! keys := slift (vec_remove i (lf_keys leaf)) in
              let! value := slift (unwrap (lf_values leaf !! i)) in
              let! values := slift (vec_remove i (lf_values leaf)) in
              let! _ := put_node index (NLeaf (mkLeaf keys values)) in
              sret (Dirty index, value)
          end
      | NBranch branch =>
          let position := child_index (br_keys branch) key in
          let! below := slift (unwrap (br_children branch !! position)) in
          let! r := remove_rec fuel below key in
          let! branch := get_branch index in
          let! children := slift (vec_set position r.1 (br_children branch)) in
          let! count := slift (unwrap (br_counts branch !! position)) in
          let! counts := slift (vec_set position (sub64 count 1) (br_counts branch)) in
          let! _ := put_node index (NBranch (mkBranch (br_keys branch) children counts)) in
          let! _ := rebalance index position in
          sret (Dirty index, r.2)
      end
  end.

(** A root with one child hands over to it; an empty leaf root is the empty tree. *)
Fixpoint hand_over (fuel : nat) (tx : Tx) (nd : Child) : result Child :=
  match fuel with
  | O => Panic
  | S fuel =>
      let? n := node tx nd in
      match n with
      | NBranch branch =>
          match br_children branch with
          | [only] => hand_over fuel tx only
          | _ => Ok nd
          end
      | NLeaf leaf => match lf_keys leaf with [] => Ok EMPTY | _ => Ok nd end
      end
  end.

Definition remove (t : Tree) (key : bytes) : SR Tx (option bytes) := fun tx =>
  match get tx t key with
  | Ok None => (Ok None, tx)
  | Ok (Some _) =>
      (let! r := remove_rec DEPTH (root tx t) key in
       let! new_root := (fun tx => (hand_over DEPTH tx r.1, tx)) in
       let! _ := set_root t new_root in
       sret (Some r.2)) tx
  | Err e => (Err e, tx)
  | Panic => (Panic, tx)
  end.

End WithCrc.
