(* ===== verification/ZsetTreeProof.v ===== *)
(** * The trees are ordered maps

    [tree_at] relates a child pointer to the sorted association list it stands for: the
    shape of the nodes, the separator bounds, the counts, equal depth, and the arena
    indices the subtree owns (its footprint).  Each operation is shown to act on the
    list: [get] is [aget], [rank] is [arank], [range] is a slice, [insert] is [aset] and
    [remove] is [adel]; mutations change only the footprint and fresh indices.

    With the flag [md_fit], [tree_at] also says that every node fits a page, which
    insertion keeps and removal does not. *)

From Stdlib Require Import ZArith Lia Sorting.Sorted.
From S2P Require Import Prelude Bytes Crc IoBackend F64 ZsetFormat Assoc ZsetNode ZsetStore ZsetTree.

Abbreviation entries := (list (bytes * bytes)).
Abbreviation bound := (option bytes).

(** ** Bounds *)

Definition above (lo : bound) (k : bytes) : Prop := match lo with Some l => bytes_le l k | None => True end.
Definition under (hi : bound) (k : bytes) : Prop := match hi with Some h => bytes_lt k h | None => True end.
Definition bound_lt (lo hi : bound) : Prop :=
  match lo, hi with Some l, Some h => bytes_lt l h | _, _ => True end.
Definition within (lo hi : bound) (es : entries) : Prop := Forall (fun e => above lo e.1 /\ under hi e.1) es.

(** The bounds of the children of a branch. *)
Definition bounds (lo : bound) (seps : list bytes) (hi : bound) : list bound := lo :: (Some <$> seps) ++ [hi].

(** ** Forests *)

Record slot : Type := mkSlot { s_child : Child; s_count : Z; s_fp : list nat; s_es : entries }.

Inductive forest (P : Child -> bound -> bound -> list nat -> entries -> Prop) : list slot -> list bound -> Prop :=
| forest_nil b : forest P [] [b]
| forest_cons s ss b b' bs :
    P (s_child s) b b' (s_fp s) (s_es s) -> s_count s = len (s_es s) -> bound_lt b b' ->
    forest P ss (b' :: bs) -> forest P (s :: ss) (b :: b' :: bs).

Definition forest_fp (ss : list slot) : list nat := mjoin (s_fp <$> ss).
Definition forest_es (ss : list slot) : entries := mjoin (s_es <$> ss).

Definition own (c : Child) : list nat := match c with Disk _ => [] | Dirty i => [i] end.

Section Trees.
Context {C : Crc32fast}.

(** The entries of a leaf. *)
Definition leaf_es (l : Leaf) : entries := zip (k_bytes <$> lf_keys l) (lf_values l).
Definition leaf_wf (l : Leaf) : Prop := length (lf_values l) = length (lf_keys l).

(** Both trees store scores, of eight bytes.  The flag says that every node fits a page. *)
Definition value_len (_ : Tree) : Z := 8.
Record mode : Type := mkMode { md_fit : bool; md_tree : Tree }.
Definition loose (md : mode) : mode := mkMode false (md_tree md).

Definition leaf_vals (md : mode) (l : Leaf) : Prop := Forall (fun v => len v = value_len (md_tree md)) (lf_values l).
Definition fits (md : mode) (n : Node) : Prop := if md_fit md then encoded_len n <= PAGE_SIZE else True.

Fixpoint tree_at (md : mode) (tx : Tx) (d : nat) (c : Child) (lo hi : bound) (fp : list nat) (es : entries) : Prop :=
  exists n, node tx c = Ok n /\ fits md n /\
  match d, n with
  | O, NLeaf l =>
      leaf_wf l /\ leaf_vals md l /\ es = leaf_es l /\ es <> [] /\ asorted es /\ within lo hi es /\ fp = own c
  | S d, NBranch b =>
      exists ss, forest (tree_at md tx d) ss (bounds lo (k_bytes <$> br_keys b) hi) /\
        br_children b = s_child <$> ss /\ br_counts b = s_count <$> ss /\
        (2 <= length ss)%nat /\ fp = own c ++ forest_fp ss /\ es = forest_es ss
  | _, _ => False
  end.

End Trees.

(** ** Forest lemmas *)

Lemma forest_length P ss bs : forest P ss bs -> length bs = S (length ss).
Proof. induction 1 as [|s ss b b' bs _ _ _ _ IH]; cbn; [done|]. cbn in IH. lia. Qed.

Lemma forest_cons_inv P s ss bs :
  forest P (s :: ss) bs ->
  exists b b' bs', bs = b :: b' :: bs' /\ P (s_child s) b b' (s_fp s) (s_es s) /\ s_count s = len (s_es s) /\
    bound_lt b b' /\ forest P ss (b' :: bs').
Proof. intros H. inversion H; subst. naive_solver. Qed.

Lemma forest_nil_inv P bs : forest P [] bs -> exists b, bs = [b].
Proof. intros H. inversion H; subst. eauto. Qed.

Lemma forest_app P s1 s2 bs1 b bs2 :
  length bs1 = length s1 ->
  forest P (s1 ++ s2) (bs1 ++ b :: bs2) <-> forest P s1 (bs1 ++ [b]) /\ forest P s2 (b :: bs2).
Proof.
  revert bs1; induction s1 as [|s s1 IH]; intros [|b1 bs1] Hl; cbn [app length] in *; try done.
  - split; [intros H; split; [constructor|done]|by intros [_ ?]].
  - injection Hl as Hl. specialize (IH bs1 Hl). split.
    + intros (b0 & b' & bs' & [= <- E] & HP & Hc & Hb & Hf)%forest_cons_inv. rewrite <- E in Hf.
      apply IH in Hf as [Hf1 Hf2]. split; [|done].
      destruct bs1 as [|x bs1]; cbn [app] in *; injection E as -> _; by econstructor.
    + intros [(b0 & b' & bs' & [= <- E] & HP & Hc & Hb & Hf)%forest_cons_inv H2]. rewrite <- E in Hf.
      pose proof (proj2 IH (conj Hf H2)) as Hf'.
      destruct bs1 as [|x bs1]; cbn [app] in *; injection E as -> _; by econstructor.
Qed.

(** The forest around its [i]-th slot. *)
Lemma forest_at P ss bs i s :
  forest P ss bs -> ss !! i = Some s ->
  exists bs1 b b' bs2, bs = bs1 ++ b :: b' :: bs2 /\ length bs1 = i /\
    forest P (take i ss) (bs1 ++ [b]) /\ forest P (drop (S i) ss) (b' :: bs2) /\
    P (s_child s) b b' (s_fp s) (s_es s) /\ s_count s = len (s_es s) /\ bound_lt b b'.
Proof.
  intros H. revert i; induction H as [|s0 ss b b' bs HP Hc Hb Hf IH]; intros i Hi; [done|].
  destruct i as [|i]; cbn [lookup list_lookup] in Hi.
  - simplify_eq. exists [], b, b', bs. split_and!; try done. cbn. constructor.
  - destruct (IH i Hi) as (bs1 & b0 & b0' & bs2 & E & Hl & H1 & H2 & ? & ? & ?).
    exists (b :: bs1), b0, b0', bs2. cbn [app take drop length]. rewrite E. split_and!; try done; [lia|].
    destruct bs1 as [|x bs1]; cbn [app] in *; injection E as -> ->; by econstructor.
Qed.

Lemma forest_impl (P Q : Child -> bound -> bound -> list nat -> entries -> Prop) ss bs :
  (forall s b b', s ∈ ss -> P (s_child s) b b' (s_fp s) (s_es s) -> Q (s_child s) b b' (s_fp s) (s_es s)) ->
  forest P ss bs -> forest Q ss bs.
Proof.
  intros HPQ H. induction H as [|s ss b b' bs HP Hc Hb Hf IH]; constructor; try done.
  - apply HPQ; [left|done].
  - apply IH. intros. apply HPQ; [by right|done].
Qed.

Lemma forest_es_app s1 s2 : forest_es (s1 ++ s2) = forest_es s1 ++ forest_es s2.
Proof. unfold forest_es. by rewrite fmap_app, join_app. Qed.
Lemma forest_fp_app s1 s2 : forest_fp (s1 ++ s2) = forest_fp s1 ++ forest_fp s2.
Proof. unfold forest_fp. by rewrite fmap_app, join_app. Qed.
Lemma forest_es_cons s ss : forest_es (s :: ss) = s_es s ++ forest_es ss.
Proof. done. Qed.
Lemma forest_fp_cons s ss : forest_fp (s :: ss) = s_fp s ++ forest_fp ss.
Proof. done. Qed.

(** ** Order *)

Lemma within_app lo hi a b : within lo hi (a ++ b) <-> within lo hi a /\ within lo hi b.
Proof. apply Forall_app. Qed.

Lemma above_trans lo b k : bound_lt lo b -> (if b is Some _ then True else False) -> above b k -> above lo k.
Proof.
  destruct lo as [l|], b as [m|]; cbn; try done. intros. eapply bytes_le_trans; [|done]. by apply bytes_lt_le.
Qed.
Lemma under_trans hi b k : bound_lt b hi -> (if b is Some _ then True else False) -> under b k -> under hi k.
Proof. destruct hi as [h|], b as [m|]; cbn; try done. intros. by eapply bytes_lt_trans. Qed.

Definition inner (bs : list bound) : Prop := Forall (fun b => is_Some b) bs.

Section ForestOrder.
Context (P : Child -> bound -> bound -> list nat -> entries -> Prop).
Hypothesis P_within : forall c lo hi fp es, P c lo hi fp es -> within lo hi es.
Hypothesis P_sorted : forall c lo hi fp es, P c lo hi fp es -> asorted es.

Lemma forest_bound_lt ss b bs hi :
  forest P ss (b :: bs ++ [hi]) -> inner bs -> bound_lt b hi.
Proof.
  revert b bs; induction ss as [|s ss IH]; intros b bs H Hin.
  - apply forest_nil_inv in H as [? H]. by destruct bs.
  - apply forest_cons_inv in H as (b0 & b' & bs' & [= <- E] & HP & Hc & Hb & Hf).
    destruct bs as [|x bs]; cbn [app] in E; injection E as -> <-; [done|].
    apply Forall_cons in Hin as [[y ->] Hin]. specialize (IH _ _ Hf Hin).
    destruct b, hi; cbn in *; try done. by eapply bytes_lt_trans.
Qed.

Lemma forest_within ss b bs hi : forest P ss (b :: bs ++ [hi]) -> inner bs -> within b hi (forest_es ss).
Proof.
  revert b bs; induction ss as [|s ss IH]; intros b bs H Hin; [constructor|].
  apply forest_cons_inv in H as (b0 & b' & bs' & [= <- E] & HP & Hc & Hb & Hf).
  rewrite forest_es_cons. apply within_app. apply P_within in HP.
  destruct bs as [|x bs]; cbn [app] in E; injection E as -> <-.
  - destruct ss; [|apply forest_cons_inv in Hf as (? & ? & ? & ? & _); done]. split; [done|constructor].
  - apply Forall_cons in Hin as [[y ->] Hin]. split.
    + eapply Forall_impl; [done|]. cbn. intros e [? ?]. split; [done|].
      eapply (under_trans hi (Some y)); [by eapply forest_bound_lt|done|done].
    + eapply Forall_impl; [by eapply IH|]. cbn. intros e [? ?]. split; [by eapply (above_trans _ (Some y))|done].
Qed.

Lemma forest_sorted ss b bs hi : forest P ss (b :: bs ++ [hi]) -> inner bs -> asorted (forest_es ss).
Proof.
  revert b bs; induction ss as [|s ss IH]; intros b bs H Hin; [constructor|].
  apply forest_cons_inv in H as (b0 & b' & bs' & [= <- E] & HP & Hc & Hb & Hf).
  rewrite forest_es_cons. apply asorted_app. pose proof (P_within _ _ _ _ _ HP) as Hw.
  destruct bs as [|x bs]; cbn [app] in E; injection E as -> <-.
  - destruct ss; [|apply forest_cons_inv in Hf as (? & ? & ? & ? & _); done].
    split_and!; [by eapply P_sorted|constructor|constructor].
  - apply Forall_cons in Hin as [[y ->] Hin]. split_and!; [by eapply P_sorted|by eapply IH|].
    eapply Forall_impl; [by eapply forest_within|]. cbn. intros e [He _].
    eapply Forall_impl; [exact Hw|]. cbn. intros e' [_ ?]. by eapply bytes_lt_le_trans.
Qed.

Lemma forest_counts ss bs : forest P ss bs -> zsum (s_count <$> ss) = len (forest_es ss).
Proof.
  induction 1 as [|s ss b b' bs HP Hc Hb Hf IH]; [done|]. cbn [fmap list_fmap]. rewrite zsum_cons, IH, Hc.
  by rewrite forest_es_cons, len_app.
Qed.

End ForestOrder.

Lemma inner_seps (seps : list bytes) : inner (Some <$> seps).
Proof. apply Forall_fmap, Forall_forall. intros. cbn. eauto. Qed.

(** ** Basic facts about trees *)

Section Basics.
Context {C : Crc32fast}.

Lemma tree_at_order md tx d c lo hi fp es : tree_at md tx d c lo hi fp es -> within lo hi es /\ asorted es.
Proof.
  revert c lo hi fp es; induction d as [|d IH]; intros c lo hi fp es (n & Hn & _ & H); destruct n as [l|b]; try done.
  - by destruct H as (_ & _ & _ & _ & ? & ? & _).
  - destruct H as (ss & Hf & _ & _ & _ & _ & ->). split.
    + eapply (forest_within (tree_at md tx d)); [|exact Hf|apply inner_seps]. intros ????? H. by apply IH in H as [? _].
    + eapply (forest_sorted (tree_at md tx d)); [..|exact Hf|apply inner_seps];
        intros ????? H; by apply IH in H as [? ?].
Qed.
Lemma tree_at_within md tx d c lo hi fp es : tree_at md tx d c lo hi fp es -> within lo hi es.
Proof. intros H. by apply tree_at_order in H as [? _]. Qed.
Lemma tree_at_sorted md tx d c lo hi fp es : tree_at md tx d c lo hi fp es -> asorted es.
Proof. intros H. by apply tree_at_order in H as [_ ?]. Qed.

Lemma tree_at_weaken md tx d c lo hi fp es : tree_at md tx d c lo hi fp es -> tree_at (loose md) tx d c lo hi fp es.
Proof.
  revert c lo hi fp es; induction d as [|d IH]; intros c lo hi fp es (n & Hn & _ & H); exists n; (split; [done|]);
    (split; [done|]); destruct n as [l|b]; try done.
  destruct H as (ss & Hf & H). exists ss. split; [|done]. eapply forest_impl; [|done]. intros. by apply IH.
Qed.

(** At least two children under every branch and one key in every leaf. *)
Lemma tree_at_size md tx d c lo hi fp es : tree_at md tx d c lo hi fp es -> (2 ^ d <= length es)%nat.
Proof.
  revert c lo hi fp es; induction d as [|d IH]; intros c lo hi fp es (n & Hn & _ & H); destruct n as [l|b]; try done.
  - destruct H as (_ & _ & _ & Hne & _). destruct es; [done|]. cbn. lia.
  - destruct H as (ss & Hf & _ & _ & H2 & _ & ->). destruct ss as [|s1 [|s2 ss]]; cbn in H2; [lia..|].
    apply forest_cons_inv in Hf as (? & ? & ? & _ & H1 & _ & _ & Hf).
    apply forest_cons_inv in Hf as (? & ? & ? & _ & H2' & _ & _ & _).
    rewrite !forest_es_cons, !length_app. apply IH in H1, H2'. cbn. lia.
Qed.

Lemma tree_at_depth md tx d c lo hi fp es : tree_at md tx d c lo hi fp es -> len es <= u64_max -> (d < 64)%nat.
Proof.
  intros H Hl. apply tree_at_size in H. unfold len, u64_max in Hl.
  destruct (decide (d < 64)%nat); [done|]. exfalso.
  assert (2 ^ 64 <= 2 ^ d)%nat as Hp by (apply Nat.pow_le_mono_r; lia).
  assert (Z.of_nat (2 ^ 64) <= Z.of_nat (length es)) as Hz by lia. rewrite Nat2Z.inj_pow in Hz. cbn in Hz. lia.
Qed.

(** What a mutation leaves alone. *)
Definition agrees (tx tx' : Tx) (fp : list nat) : Prop :=
  tx_file tx' = tx_file tx /\ forall i, i ∈ fp -> tx_nodes tx' !! i = tx_nodes tx !! i.

Lemma node_agrees tx tx' c : agrees tx tx' (own c) -> node tx' c = node tx c.
Proof.
  intros [Hf Hn]. destruct c as [o|i]; cbn [node].
  - unfold load. by rewrite Hf.
  - rewrite Hn; [done|]. left.
Qed.

Lemma agrees_mono tx tx' fp fp' : agrees tx tx' fp -> (forall i, i ∈ fp' -> i ∈ fp) -> agrees tx tx' fp'.
Proof. intros [? H] Hs. split; [done|]. intros i Hi. by apply H, Hs. Qed.

Lemma forest_fp_elem s ss i : s ∈ ss -> i ∈ s_fp s -> i ∈ forest_fp ss.
Proof.
  intros Hs Hi. unfold forest_fp. apply list_elem_of_join. exists (s_fp s). split; [done|].
  apply list_elem_of_fmap. eauto.
Qed.

Lemma tree_at_frame md tx tx' d c lo hi fp es :
  tree_at md tx d c lo hi fp es -> agrees tx tx' fp -> tree_at md tx' d c lo hi fp es.
Proof.
  revert c lo hi fp es; induction d as [|d IH]; intros c lo hi fp es (n & Hn & Hfit & H) Ha; exists n.
  - destruct n as [l|b]; [|done]. destruct H as (? & ? & ? & ? & ? & ? & ->).
    rewrite (node_agrees tx tx') by done. done.
  - destruct n as [l|b]; [done|]. destruct H as (ss & Hf & ? & ? & ? & -> & ?).
    rewrite (node_agrees tx tx') by (eapply agrees_mono; [done|]; intros i Hi; apply elem_of_app; by left).
    split; [done|]. split; [done|]. exists ss. split_and!; try done.
    eapply forest_impl; [|done]. intros s b0 b0' Hs Ht. eapply IH; [done|]. eapply agrees_mono; [done|].
    intros i Hi. apply elem_of_app. right. by eapply forest_fp_elem.
Qed.

Lemma forest_frame md tx tx' d ss bs :
  forest (tree_at md tx d) ss bs -> agrees tx tx' (forest_fp ss) -> forest (tree_at md tx' d) ss bs.
Proof.
  intros Hf Ha. eapply forest_impl; [|done]. intros s b b' Hs Ht. eapply tree_at_frame; [done|].
  eapply agrees_mono; [done|]. intros i Hi. by eapply forest_fp_elem.
Qed.

End Basics.

(** ** Where a key belongs *)

Section Position.
Context (P : Child -> bound -> bound -> list nat -> entries -> Prop).
Hypothesis P_within : forall c lo hi fp es, P c lo hi fp es -> within lo hi es.

Lemma forest_seps_sorted ss lo seps hi : forest P ss (bounds lo seps hi) -> StronglySorted bytes_lt seps.
Proof.
  unfold bounds. revert lo ss; induction seps as [|s seps IH]; intros lo ss H; [constructor|].
  cbn [fmap list_fmap app] in H. destruct ss as [|x ss].
  { apply forest_nil_inv in H as [? H]. done. }
  apply forest_cons_inv in H as (b & b' & bs' & [= <- <- <-] & HP & Hc & Hb & Hf). constructor; [by eapply IH|].
  clear -Hf P_within. revert s ss Hf. induction seps as [|s' seps IH']; intros s ss Hf; [constructor|].
  cbn [fmap list_fmap app] in Hf. destruct ss as [|x ss].
  { apply forest_nil_inv in Hf as [? Hf]. done. }
  apply forest_cons_inv in Hf as (b & b' & bs' & [= <- <- <-] & HP & Hc & Hb & Hf). cbn in Hb. constructor; [done|].
  eapply Forall_impl; [by eapply IH'|]. cbn. intros. by eapply bytes_lt_trans.
Qed.

Lemma sorted_partition (keys : list Key) (key : bytes) :
  StronglySorted bytes_lt (k_bytes <$> keys) ->
  exists l r, keys = l ++ r /\ Forall (fun k => bytes_le (k_bytes k) key) l /\ Forall (fun k => bytes_lt key (k_bytes k)) r.
Proof.
  induction keys as [|k keys IH]; cbn [fmap list_fmap]; intros Hs.
  { exists [], []. done. }
  apply StronglySorted_inv in Hs as [Hs Hk]. destruct (bytes_leb_spec (k_bytes k) key) as [Hle|Hgt].
  - destruct (IH Hs) as (l & r & -> & Hl & Hr). exists (k :: l), r. split_and!; [done|by constructor|done].
  - exists [], (k :: keys). assert (bytes_lt key (k_bytes k)) as Hlt by (by apply bytes_lt_not_le).
    split_and!; [done|constructor|]. constructor; [done|]. rewrite Forall_fmap in Hk.
    eapply Forall_impl; [exact Hk|]. cbn. intros. by eapply bytes_lt_trans.
Qed.

Lemma child_index_split l r key :
  Forall (fun k => bytes_le (k_bytes k) key) l -> Forall (fun k => bytes_lt key (k_bytes k)) r ->
  child_index (l ++ r) key = length l.
Proof.
  intros Hl Hr. apply partition_point_spec.
  - eapply Forall_impl; [exact Hl|]. cbn. intros k ?. by destruct (bytes_leb_spec (k_bytes k) key).
  - eapply Forall_impl; [exact Hr|]. cbn. intros k Hk. destruct (bytes_leb_spec (k_bytes k) key) as [Hle|]; [|done].
    by apply bytes_lt_not_le in Hk.
Qed.

(** The child that holds [key], its bounds, and the two sides of it. *)
Record position_at (ss : list slot) (lo hi : bound) (keys : list Key) (key : bytes) (i : nat) (s : slot) : Prop := {
  pa_slot : ss !! i = Some s;
  pa_le : Forall (fun k => bytes_le (k_bytes k) key) (take i keys);
  pa_gt : Forall (fun k => bytes_lt key (k_bytes k)) (drop i keys);
  pa_left : keys_lt (forest_es (take i ss)) key;
  pa_right : keys_gt (forest_es (drop (S i) ss)) key;
  pa_bounds : exists bs1 b b' bs2, bounds lo (k_bytes <$> keys) hi = bs1 ++ b :: b' :: bs2 /\ length bs1 = i /\
    forest P (take i ss) (bs1 ++ [b]) /\ forest P (drop (S i) ss) (b' :: bs2) /\
    P (s_child s) b b' (s_fp s) (s_es s) /\ s_count s = len (s_es s) /\ bound_lt b b' /\
    above b key /\ under b' key;
}.

Lemma forest_position ss lo hi keys key :
  forest P ss (bounds lo (k_bytes <$> keys) hi) -> above lo key -> under hi key ->
  exists s, position_at ss lo hi keys key (child_index keys key) s.
Proof.
  intros Hf Hlo Hhi. pose proof (forest_seps_sorted _ _ _ _ Hf) as Hsort.
  destruct (sorted_partition keys key Hsort) as (l & r & -> & Hl & Hr). rewrite child_index_split by done.
  pose proof (forest_length _ _ _ Hf) as Hlen. unfold bounds in Hlen. cbn [length] in Hlen.
  rewrite length_app, !length_fmap, length_app in Hlen. cbn [length] in Hlen.
  destruct (lookup_lt_is_Some_2 ss (length l) ltac:(lia)) as [s Hs].
  destruct (forest_at P _ _ _ _ Hf Hs) as (bs1 & b & b' & bs2 & E & Hb1 & H1 & H2 & HP & Hc & Hb).
  exists s.
  assert (bs1 ++ [b] = lo :: (Some <$> (k_bytes <$> l)) /\ b' :: bs2 = (Some <$> (k_bytes <$> r)) ++ [hi]) as [E1 E2].
  { unfold bounds in E. rewrite !fmap_app, <- app_assoc, app_comm_cons, (cons_middle b bs1), (app_assoc bs1) in E.
    symmetry in E. apply (app_inj_1 _ _ _ _) in E; [done|].
    rewrite length_app. cbn [length]. rewrite !length_fmap. lia. }
  assert (above b key) as Hab.
  { destruct l as [|k l _] using rev_ind; cbn in E1.
    - destruct bs1; [|by destruct bs1]. cbn in E1. by injection E1 as ->.
    - rewrite !fmap_app in E1. cbn in E1. rewrite app_comm_cons in E1. apply app_inj_tail in E1 as [_ ->]. cbn.
      apply Forall_app in Hl as [_ Hl]. by apply Forall_cons in Hl as [? _]. }
  assert (under b' key) as Hub.
  { destruct r as [|k r]; cbn in E2; injection E2 as -> ->; [done|]. cbn. by apply Forall_cons in Hr as [? _]. }
  constructor; try done.
  - by rewrite take_app_length.
  - by rewrite drop_app_length.
  - destruct l as [|k l _] using rev_ind; [cbn; constructor|].
    rewrite !fmap_app in E1. cbn in E1. rewrite app_comm_cons in E1. apply app_inj_tail in E1 as [Eb ->].
    rewrite Eb in H1. pose proof (forest_within P P_within _ _ _ _ H1 (inner_seps _)) as Hw.
    eapply Forall_impl; [exact Hw|]. cbn. intros e [_ He]. eapply bytes_lt_le_trans; [done|].
    apply Forall_app in Hl as [_ Hl]. by apply Forall_cons in Hl as [? _].
  - destruct r as [|k r]; cbn in E2; injection E2 as -> ->.
    + destruct (drop (S (length l)) ss) eqn:Ed; [constructor|].
      apply (f_equal length) in Ed. rewrite length_drop in Ed. cbn in *. lia.
    + pose proof (forest_within P P_within _ _ _ _ H2 (inner_seps _)) as Hw.
      apply Forall_cons in Hr as [Hk _]. eapply Forall_impl; [exact Hw|]. cbn. intros e [He _].
      by eapply bytes_lt_le_trans.
  - exists bs1, b, b', bs2. split_and!; try done.
Qed.

End Position.

(** ** Searching a leaf *)

Lemma leaf_es_fst l : leaf_wf l -> (leaf_es l).*1 = k_bytes <$> lf_keys l.
Proof. unfold leaf_wf, leaf_es. intros H. rewrite fst_zip; [done|]. rewrite length_fmap. lia. Qed.
Lemma leaf_es_length l : leaf_wf l -> length (leaf_es l) = length (lf_keys l).
Proof. intros H. apply leaf_es_fst in H. apply (f_equal length) in H. by rewrite !length_fmap in H. Qed.

(** What a search of a leaf finds, in terms of its entries. *)
Definition search_spec (l : Leaf) (key : bytes) : Prop :=
  match leaf_search l key with
  | inl i => exists v, lf_values l !! i = Some v /\ aget (leaf_es l) key = Some v /\ arank (leaf_es l) key = i /\
      (exists k, lf_keys l !! i = Some k /\ k_bytes k = key) /\
      (forall v', aset (leaf_es l) key v' = leaf_es (mkLeaf (lf_keys l) (<[i := v']> (lf_values l)))) /\
      adel (leaf_es l) key = leaf_es (mkLeaf (remove_at i (lf_keys l)) (remove_at i (lf_values l)))
  | inr i => (i <= length (lf_keys l))%nat /\ aget (leaf_es l) key = None /\ arank (leaf_es l) key = i /\
      forall k v', k_bytes k = key ->
        aset (leaf_es l) key v' = leaf_es (mkLeaf (insert_at i k (lf_keys l)) (insert_at i v' (lf_values l)))
  end.

(** A list of entries between smaller and greater keys. *)
Lemma keys_of_lt (ks : list Key) (vs : list bytes) k :
  (length ks <= length vs)%nat -> keys_lt (zip (k_bytes <$> ks) vs) k -> Forall (fun x => bytes_lt (k_bytes x) k) ks.
Proof.
  intros Hl H. assert (Forall (fun x => bytes_lt x k) (zip (k_bytes <$> ks) vs).*1) as H' by (by rewrite Forall_fmap).
  rewrite fst_zip in H' by (rewrite length_fmap; lia). by rewrite Forall_fmap in H'.
Qed.
Lemma keys_of_gt (ks : list Key) (vs : list bytes) k :
  (length ks <= length vs)%nat -> keys_gt (zip (k_bytes <$> ks) vs) k -> Forall (fun x => bytes_lt k (k_bytes x)) ks.
Proof.
  intros Hl H. assert (Forall (fun x => bytes_lt k x) (zip (k_bytes <$> ks) vs).*1) as H' by (by rewrite Forall_fmap).
  rewrite fst_zip in H' by (rewrite length_fmap; lia). by rewrite Forall_fmap in H'.
Qed.

Lemma leaf_es_app k1 v1 k2 v2 : length v1 = length k1 ->
  leaf_es (mkLeaf (k1 ++ k2) (v1 ++ v2)) = leaf_es (mkLeaf k1 v1) ++ leaf_es (mkLeaf k2 v2).
Proof. intros H. unfold leaf_es. cbn. rewrite fmap_app, zip_with_app; [done|]. by rewrite length_fmap. Qed.

(** A well-formed leaf around a position of its entries. *)
Lemma leaf_split l lo hi :
  leaf_wf l -> leaf_es l = lo ++ hi ->
  exists k1 v1 k2 v2, l = mkLeaf (k1 ++ k2) (v1 ++ v2) /\ length k1 = length lo /\ length v1 = length lo /\
    length v2 = length k2 /\ lo = leaf_es (mkLeaf k1 v1) /\ hi = leaf_es (mkLeaf k2 v2).
Proof.
  intros Hwf E. pose proof (leaf_es_length l Hwf) as Hl. rewrite E, length_app in Hl.
  unfold leaf_wf in Hwf. destruct l as [ks vs]; cbn [lf_keys lf_values] in *.
  exists (take (length lo) ks), (take (length lo) vs), (drop (length lo) ks), (drop (length lo) vs).
  rewrite !take_drop, !length_take, !length_drop. split_and!; [done|lia..| |].
  - pose proof (f_equal (take (length lo)) E) as E'. rewrite take_app_length in E'. etrans; [symmetry; exact E'|].
    unfold leaf_es. cbn [lf_keys lf_values]. by rewrite zip_with_take, fmap_take.
  - pose proof (f_equal (drop (length lo)) E) as E'. rewrite drop_app_length in E'. etrans; [symmetry; exact E'|].
    unfold leaf_es. cbn [lf_keys lf_values]. by rewrite zip_with_drop, fmap_drop.
Qed.

Lemma leaf_search_lists k1 eq k2 key :
  Forall (fun x => bytes_lt (k_bytes x) key) k1 -> Forall (fun x => k_bytes x = key) eq ->
  Forall (fun x => bytes_lt key (k_bytes x)) k2 -> (length eq <= 1)%nat -> forall vs,
  leaf_search (mkLeaf (k1 ++ eq ++ k2) vs) key = if eq is _ :: _ then inl (length k1) else inr (length k1).
Proof.
  intros H1 He H2 Hone vs. apply binary_search_by_spec; [exact H1| | |done].
  - eapply Forall_impl; [exact He|]. cbn. intros x ->. apply bytes_compare_refl.
  - eapply Forall_impl; [exact H2|]. cbn. intros x Hx. by apply compare_lt_Gt.
Qed.

Lemma aget_between (lo hi : entries) k : keys_lt lo k -> keys_gt hi k -> aget (lo ++ hi) k = None.
Proof. intros ? ?. by rewrite (aget_mid lo [] hi). Qed.

Lemma leaf_search_spec l key : leaf_wf l -> asorted (leaf_es l) -> search_spec l key.
Proof.
  intros Hwf Hs. destruct (asplit (leaf_es l) key Hs) as (lo & eq & hi & E & Hlo & Hhi & Hcase).
  destruct (leaf_split l lo (eq ++ hi) Hwf E) as (k1 & v1 & k2' & v2' & -> & Hk1 & Hv1 & Hkv & -> & E2).
  set (l2 := mkLeaf k2' v2') in *. destruct (leaf_split l2 eq hi Hkv (eq_sym E2)) as (ke & ve & k2 & v2 & El & Hke & Hve & Hkv2 & -> & ->).
  unfold l2 in El. injection El as -> ->. clear E2 l2.
  assert (length (leaf_es (mkLeaf k1 v1)) = length k1) as Hl1 by done.
  unfold search_spec. rewrite E.
  pose proof (keys_of_lt k1 v1 key ltac:(lia) Hlo) as Hlo'. pose proof (keys_of_gt k2 v2 key ltac:(lia) Hhi) as Hhi'.
  destruct Hcase as [[Ee Ha]|(v & Ee & Ha)].
  - rewrite Ee in *. destruct ke; [|done]. destruct ve; [|done]. cbn [app] in *.
    rewrite (leaf_search_lists k1 [] k2 key) by (done || (cbn; lia) || by constructor). cbn [app].
    split_and!; [cbn [lf_keys]; rewrite length_app; lia|by apply aget_between| |].
    + pose proof (arank_mid _ [] _ key Hlo Hhi) as Hr. cbn [app arank] in Hr. rewrite Hr. lia.
    + intros k v' Hk. pose proof (aset_mid _ [] _ key v' Hlo Hhi) as Hr. cbn [app aset] in Hr. rewrite Hr.
      cbn [lf_keys lf_values].
      unfold insert_at. rewrite !take_app_length, !drop_app_length.
      replace (length k1) with (length v1) by lia. rewrite !take_app_length, !drop_app_length.
      rewrite leaf_es_app by lia. by rewrite <- Hk.
  - destruct ke as [|k [|]]; destruct ve as [|w [|]]; try (by rewrite Ee in Hke, Hve; cbn in *; lia).
    unfold leaf_es in Ee. cbn in Ee. injection Ee as Hk ->.
    rewrite (leaf_search_lists k1 [k] k2 key) by (done || (cbn; lia) || by repeat constructor).
    exists v. cbn [lf_keys lf_values]. split_and!.
    + replace (length k1) with (length v1) by lia. by rewrite lookup_app_r, Nat.sub_diag.
    + by rewrite <- E.
    + rewrite (arank_mid _ _ _) by done. rewrite Hl1. cbn.
      rewrite Hk. destruct (bytes_ltb_spec key key) as [Hx|_]; [by apply bytes_lt_irrefl in Hx|]. lia.
    + exists k. split; [|done]. by rewrite lookup_app_r, Nat.sub_diag.
    + intros v'. rewrite (aset_mid _ _ _) by done.
      replace (length k1) with (length v1) by lia. rewrite insert_app_r_alt, Nat.sub_diag by lia. cbn [insert list_insert app].
      rewrite leaf_es_app by lia. cbn. rewrite Hk, bytes_compare_refl. done.
    + rewrite (adel_mid _ _ _) by done. unfold remove_at.
      rewrite take_app_length, <- (Nat.add_1_r (length k1)), <- drop_drop, drop_app_length.
      replace (length k1) with (length v1) by lia. rewrite take_app_length, <- drop_drop, drop_app_length. cbn [drop app].
      rewrite leaf_es_app by lia. cbn. rewrite Hk, bytes_compare_refl. done.
Qed.

(** ** Reading a node in place *)

Lemma view_search_agrees ro v l key :
  view_agrees ro v (NLeaf l) -> leaf_wf l -> asorted (leaf_es l) -> view_search ro v key = Ok (leaf_search l key).
Proof.
  intros Hv Hwf Hs. apply view_agrees_keys in Hv. cbn [node_keys] in Hv. unfold asorted in Hs. rewrite leaf_es_fst in Hs by done.
  destruct (sorted_partition (lf_keys l) key Hs) as (k1 & k2 & E & H1 & H2). destruct l as [ks vs]; cbn [lf_keys] in *. subst ks.
  assert (exists lo eq, k1 = lo ++ eq /\ Forall (fun x => bytes_lt (k_bytes x) key) lo /\
    Forall (fun x => k_bytes x = key) eq /\ (length eq <= 1)%nat) as (lo & eq & -> & Hlo & Heq & Hone).
  { destruct k1 as [|k k1 _] using rev_ind; [exists [], []; split_and!; [done|constructor..|cbn; lia]|].
    rewrite fmap_app, fmap_app in Hs. cbn [fmap list_fmap] in Hs. apply Forall_app in H1 as [H1 Hk].
    apply Forall_cons in Hk as [Hk _]. assert (Forall (fun x => bytes_lt (k_bytes x) (k_bytes k)) k1) as Hk1.
    { clear -Hs. rewrite <- app_assoc in Hs. induction k1 as [|x k1 IH]; [constructor|]. cbn in Hs.
      apply StronglySorted_inv in Hs as [Hs Hx]. constructor; [|by apply IH].
      apply Forall_app in Hx as [_ Hx]. by apply Forall_cons in Hx as [? _]. }
    apply bytes_le_lteq in Hk as [Hk|Hk].
    - exists (k1 ++ [k]), []. rewrite app_nil_r. split_and!; [done| |constructor|cbn; lia].
      apply Forall_app. split; [|by repeat constructor]. eapply Forall_impl; [exact Hk1|]. cbn. intros x Hx. by eapply bytes_lt_trans.
    - exists k1, [k]. rewrite Hk in Hk1. split_and!; [done..|by repeat constructor|cbn; lia]. }
  rewrite <- app_assoc in Hv |- *. rewrite (leaf_search_lists lo eq k2 key) by done.
  rewrite (view_search_spec ro v _ key (k_bytes <$> lo) (k_bytes <$> eq) (k_bytes <$> k2) Hv).
  - rewrite length_fmap. by destruct eq.
  - by rewrite !fmap_app.
  - by rewrite Forall_fmap.
  - by rewrite Forall_fmap.
  - by rewrite Forall_fmap.
  - by rewrite length_fmap.
Qed.

Lemma view_child_index_agrees ro v b key :
  view_agrees ro v (NBranch b) -> StronglySorted bytes_lt (k_bytes <$> br_keys b) ->
  view_child_index ro v key = Ok (child_index (br_keys b) key).
Proof.
  intros Hv Hs. apply view_agrees_keys in Hv. cbn [node_keys] in Hv.
  destruct (sorted_partition (br_keys b) key Hs) as (l & r & E & Hl & Hr). rewrite E in *.
  rewrite child_index_split by done.
  rewrite (view_child_index_spec ro v _ key (k_bytes <$> l) (k_bytes <$> r) Hv).
  - by rewrite length_fmap.
  - by rewrite fmap_app.
  - by rewrite Forall_fmap.
  - by rewrite Forall_fmap.
Qed.

Section Reads.
Context {C : Crc32fast}.

Lemma node_inv tx c n :
  node tx c = Ok n ->
  (exists i, c = Dirty i /\ tx_nodes tx !! i = Some n) \/
  (exists o pg v, c = Disk o /\ page tx o = Ok pg /\ view_read pg = Ok v /\ view_agrees (read_overflow (tx_file tx)) v n).
Proof.
  destruct c as [o|i]; cbn [node].
  - destruct (o =? 0) eqn:E; [done|]. unfold load. destruct (read_page (tx_file tx) o) as [pg| |] eqn:Ep; cbn [rbind]; [|done..].
    intros (v & Hv & Ha)%view_read_decode. right. exists o, pg, v. unfold page. rewrite E. done.
  - destruct (tx_nodes tx !! i) eqn:E; cbn [unwrap]; [|done]. intros [= ->]. left. eauto.
Qed.

(** A branch and the child that holds [key]. *)
Lemma branch_child md tx d b ss lo hi key :
  forest (tree_at md tx d) ss (bounds lo (k_bytes <$> br_keys b) hi) ->
  br_children b = s_child <$> ss -> br_counts b = s_count <$> ss -> above lo key -> under hi key ->
  exists s l r, let i := child_index (br_keys b) key in
    br_children b !! i = Some (s_child s) /\ br_counts b !! i = Some (s_count s) /\
    (exists lo' hi', tree_at md tx d (s_child s) lo' hi' (s_fp s) (s_es s) /\ above lo' key /\ under hi' key) /\
    forest_es ss = l ++ s_es s ++ r /\ keys_lt l key /\ keys_gt r key /\ zsum (take i (br_counts b)) = len l /\
    (i <= length (br_counts b))%nat.
Proof.
  intros Hf Hch Hco Hlo Hhi.
  destruct (forest_position _ (tree_at_within md tx d) _ _ _ _ _ Hf Hlo Hhi) as (s & [Hs _ _ Hl Hr Hb]).
  destruct Hb as (bs1 & b0 & b0' & bs2 & _ & Hi & Hf1 & Hf2 & HP & Hc & _ & Hab & Hub).
  pose proof (take_drop_middle ss _ s Hs) as Hss. pose proof (lookup_lt_Some _ _ _ Hs) as Hlt.
  exists s, (forest_es (take (child_index (br_keys b) key) ss)), (forest_es (drop (S (child_index (br_keys b) key)) ss)).
  cbn zeta. rewrite Hch, Hco, !list_lookup_fmap, Hs. cbn [fmap option_fmap option_map]. split_and!; try done.
  - eauto 6.
  - rewrite <- forest_es_cons, <- forest_es_app. by rewrite Hss.
  - rewrite <- fmap_take. by eapply forest_counts.
  - rewrite length_fmap. lia.
Qed.

Theorem get_loop_at md tx d c lo hi fp es key fuel :
  tree_at md tx d c lo hi fp es -> above lo key -> under hi key -> (d < fuel)%nat ->
  get_loop fuel tx c key = Ok (aget es key).
Proof.
  revert c lo hi fp es fuel; induction d as [|d IH]; intros c lo hi fp es fuel (n & Hn & _ & H) Hlo Hhi Hfuel;
    destruct n as [l|b]; try done; destruct fuel as [|fuel]; try lia; cbn [get_loop].
  - destruct H as (Hwf & _ & -> & _ & Hs & _). pose proof (leaf_search_spec l key Hwf Hs) as Hspec. unfold search_spec in Hspec.
    destruct (node_inv _ _ _ Hn) as [(i & -> & Hi)|(o & pg & v & -> & Hpg & Hv & Ha)].
    + rewrite Hi. cbn [unwrap rbind]. destruct (leaf_search l key) as [j|j].
      * destruct Hspec as (w & -> & -> & _). done.
      * by destruct Hspec as (_ & -> & _).
    + rewrite Hpg; cbn [rbind]. rewrite Hv; cbn [rbind]. pose proof Ha as [-> _].
      rewrite (view_search_agrees _ _ l) by done. cbn [rbind]. destruct (leaf_search l key) as [j|j].
      * destruct Hspec as (w & Hw & -> & _ & (k & Hk & _) & _).
        destruct (view_agrees_leaf _ _ _ _ _ _ Ha Hk Hw) as [_ ->]. done.
      * by destruct Hspec as (_ & -> & _).
  - destruct H as (ss & Hf & Hch & Hco & _ & _ & ->).
    destruct (branch_child _ _ _ _ _ _ _ key Hf Hch Hco Hlo Hhi)
      as (s & l & r & Hci & Hcn & (lo' & hi' & Ht & Hlo' & Hhi') & -> & Hl & Hr & _). cbn zeta in *.
    rewrite (aget_mid l) by done.
    destruct (node_inv _ _ _ Hn) as [(i & -> & Hi)|(o & pg & v & -> & Hpg & Hv & Ha)].
    + rewrite Hi. cbn [unwrap rbind]. rewrite Hci. cbn [unwrap rbind]. eapply IH; try done. lia.
    + rewrite Hpg; cbn [rbind]. rewrite Hv; cbn [rbind]. pose proof Ha as [-> _].
      rewrite (view_child_index_agrees _ _ b) by (try done; by eapply forest_seps_sorted).
      cbn [rbind]. destruct (view_agrees_branch _ _ _ _ _ _ Ha Hci Hcn) as (off & Hoff & ->).
      cbn [rbind fst]. rewrite <- Hoff. eapply IH; try done. lia.
Qed.

End Reads.

(** ** Counts *)

Lemma fold_add64 l a : Forall (Z.le 0) l -> 0 <= a -> a + zsum l <= u64_max -> fold_left add64 l a = a + zsum l.
Proof.
  intros H. revert a; induction H as [|x l Hx H IH]; intros a Ha Hs; [cbn; lia|]. rewrite zsum_cons in *. cbn [fold_left].
  pose proof (zsum_nonneg l H). rewrite add64_small by lia. rewrite IH by lia. lia.
Qed.

Lemma sum64_small l : Forall (Z.le 0) l -> zsum l <= u64_max -> sum64 l = zsum l.
Proof. intros. unfold sum64. rewrite fold_add64; [lia|done|lia|lia]. Qed.

Lemma forest_counts_nonneg P ss bs : forest P ss bs -> Forall (Z.le 0) (s_count <$> ss).
Proof.
  induction 1 as [|s ss b b' bs HP Hc Hb Hf IH]; cbn [fmap list_fmap]; constructor; [|done].
  rewrite Hc. apply len_nonneg.
Qed.

Section Rank.
Context {C : Crc32fast}.

Lemma sum_children_agrees ro v b n j below :
  view_agrees ro v (NBranch b) -> length (br_children b) = length (br_counts b) -> (j + n <= length (br_counts b))%nat ->
  sum_children v j n below = Ok (fold_left add64 (take n (drop j (br_counts b))) below).
Proof.
  intros Ha Hl. revert j below; induction n as [|n IH]; intros j below Hn; cbn [sum_children]; [by rewrite take_0|].
  destruct (lookup_lt_is_Some_2 (br_counts b) j ltac:(lia)) as [x Hx].
  destruct (lookup_lt_is_Some_2 (br_children b) j ltac:(lia)) as [c Hc].
  destruct (view_agrees_branch _ _ _ _ _ _ Ha Hc Hx) as (off & _ & ->). cbn [rbind snd].
  rewrite IH by lia. by rewrite (drop_S _ _ _ Hx).
Qed.

Theorem rank_loop_at md tx d c lo hi fp es key fuel below :
  tree_at md tx d c lo hi fp es -> above lo key -> under hi key -> (d < fuel)%nat ->
  0 <= below -> below + len es <= u64_max ->
  rank_loop fuel tx c key below = Ok (below + Z.of_nat (arank es key)).
Proof.
  revert c lo hi fp es fuel below; induction d as [|d IH];
    intros c lo hi fp es fuel below (n & Hn & _ & H) Hlo Hhi Hfuel Hb Hmax;
    destruct n as [l|b]; try done; destruct fuel as [|fuel]; try lia; cbn [rank_loop].
  - destruct H as (Hwf & _ & -> & _ & Hs & _). pose proof (leaf_search_spec l key Hwf Hs) as Hspec. unfold search_spec in Hspec.
    assert (Z.of_nat (position_of (leaf_search l key)) = Z.of_nat (arank (leaf_es l) key)) as Hp.
    { destruct (leaf_search l key) as [j|j]; cbn [position_of].
      - by destruct Hspec as (w & _ & _ & -> & _).
      - by destruct Hspec as (_ & _ & -> & _). }
    pose proof (arank_le (leaf_es l) key). unfold len in Hmax.
    destruct (node_inv _ _ _ Hn) as [(i & -> & Hi)|(o & pg & v & -> & Hpg & Hv & Ha)].
    + rewrite Hi. cbn [unwrap rbind]. by rewrite Hp, add64_small by lia.
    + rewrite Hpg; cbn [rbind]. rewrite Hv; cbn [rbind]. pose proof Ha as [-> _].
      rewrite (view_search_agrees _ _ l) by done. cbn [rbind]. by rewrite Hp, add64_small by lia.
  - destruct H as (ss & Hf & Hch & Hco & _ & _ & ->).
    destruct (branch_child _ _ _ _ _ _ _ key Hf Hch Hco Hlo Hhi)
      as (s & l & r & Hci & Hcn & (lo' & hi' & Ht & Hlo' & Hhi') & E & Hl & Hr & Hsum & Hlt). cbn zeta in *.
    rewrite E in Hmax |- *. rewrite (arank_mid l) by done. rewrite !len_app in Hmax.
    pose proof (len_nonneg (s_es s)). pose proof (len_nonneg r). pose proof (len_nonneg l).
    set (i := child_index (br_keys b) key) in *.
    assert (Forall (Z.le 0) (take i (br_counts b))) as Hnn.
    { apply Forall_take. rewrite Hco. by eapply forest_counts_nonneg. }
    replace (below + Z.of_nat (length l + arank (s_es s) key)) with ((below + len l) + Z.of_nat (arank (s_es s) key))
      by (unfold len; lia).
    destruct (node_inv _ _ _ Hn) as [(j & -> & Hi)|(o & pg & v & -> & Hpg & Hv & Ha)].
    + rewrite Hi. cbn [unwrap rbind]. fold i. destruct (Nat.ltb_spec (length (br_counts b)) i); [lia|].
      rewrite Hci. cbn [unwrap rbind]. rewrite sum64_small, Hsum by (done || lia). rewrite add64_small by lia.
      eapply IH; try done; lia.
    + rewrite Hpg; cbn [rbind]. rewrite Hv; cbn [rbind]. pose proof Ha as [-> _].
      rewrite (view_child_index_agrees _ _ b) by (try done; by eapply forest_seps_sorted).
      cbn [rbind]. fold i. erewrite sum_children_agrees; [|done|rewrite Hch, Hco, !length_fmap; done|lia].
      rewrite drop_0, fold_add64, Hsum by (done || lia). cbn [rbind].
      destruct (view_agrees_branch _ _ _ _ _ _ Ha Hci Hcn) as (off & Hoff & ->).
      cbn [rbind fst]. rewrite <- Hoff. eapply IH; try done; lia.
Qed.

End Rank.

(** ** Ranges *)

Section Range.
Context {C : Crc32fast}.

Lemma push_entries_spec entry (es : entries) start n :
  (forall i e, es !! i = Some e -> entry i = Ok e) -> (start + n <= length es)%nat ->
  push_entries entry start n = Ok (take n (drop start es)).
Proof.
  intros He. revert start; induction n as [|n IH]; intros start Hn; cbn [push_entries]; [by rewrite take_0|].
  destruct (lookup_lt_is_Some_2 es start ltac:(lia)) as [e Hx]. rewrite (He _ _ Hx). cbn [rbind].
  rewrite IH by lia. cbn [rbind]. by rewrite (drop_S _ _ _ Hx).
Qed.

Lemma push_range_spec entry (es : entries) start end_ :
  (forall i e, es !! i = Some e -> entry i = Ok e) -> 0 <= start ->
  push_range entry start end_ (length es) = Ok (zslice es start end_).
Proof.
  intros He Hs. unfold push_range. destruct (Z.le_gt_cases (Z.min end_ (Z.of_nat (length es))) start) as [H|H].
  - replace (Z.to_nat (Z.min end_ (Z.of_nat (length es)) - start)) with 0%nat by lia. cbn [push_entries]. unfold zslice. f_equal. symmetry.
    destruct (Z.le_gt_cases end_ start); [apply ztake_0; lia|]. rewrite zdrop_ge by (unfold len; lia). apply ztake_nil.
  - rewrite (push_entries_spec _ es) by (done || lia). f_equal. unfold zslice. rewrite ztake_take, zdrop_drop.
    destruct (Z.le_gt_cases end_ (Z.of_nat (length es))); [by rewrite Z.min_l by lia|]. rewrite Z.min_r by lia.
    rewrite !take_ge by (rewrite length_drop; lia). done.
Qed.

Lemma range_children_spec P rec count child ss bs0 bs i offset start end_ :
  forest P ss bs -> ss = drop i bs0 ->
  (forall j s, bs0 !! j = Some s -> count j = Ok (s_count s) /\ child j = Ok (s_child s)) ->
  (forall s a b, s ∈ ss -> 0 <= a -> a <= b -> b <= u64_max -> rec (s_child s) a b = Ok (zslice (s_es s) a b)) ->
  0 <= offset -> offset + len (forest_es ss) <= u64_max -> 0 <= start -> start <= end_ -> end_ <= u64_max ->
  range_children rec count child i (length ss) offset start end_ =
    Ok (zslice (forest_es ss) (Z.max (start - offset) 0) (end_ - offset)).
Proof.
  intros Hf. revert i offset.
  induction Hf as [|s ss b b' bs HP Hc Hb Hf IH]; intros i offset Hss Hat Hrec Ho Hmax Hs Hse He; cbn [length range_children].
  { unfold zslice. change (forest_es []) with (@nil (bytes * bytes)). by rewrite zdrop_nil, ztake_nil. }
  destruct (Z.leb_spec end_ offset) as [Hle|Hgt].
  { unfold zslice. by rewrite ztake_0 by lia. }
  assert (bs0 !! i = Some s) as Hi.
  { rewrite <- (Nat.add_0_r i), <- lookup_drop, <- Hss. done. }
  destruct (Hat _ _ Hi) as [-> Hch]. cbn [rbind]. rewrite forest_es_cons in Hmax |- *. rewrite len_app in Hmax.
  pose proof (len_nonneg (s_es s)). pose proof (len_nonneg (forest_es ss)).
  rewrite add64_small by lia. rewrite Hc. rewrite zslice_app by lia.
  assert (ss = drop (S i) bs0) as Hss'.
  { rewrite (drop_S _ _ _ Hi) in Hss. by injection Hss. }
  rewrite (IH (S i) (offset + len (s_es s))) by (done || lia || (intros; apply Hrec; [by right|done..])).
  replace (Z.max (Z.max (start - offset) 0 - len (s_es s)) 0) with (Z.max (start - (offset + len (s_es s))) 0) by lia.
  replace (end_ - offset - len (s_es s)) with (end_ - (offset + len (s_es s))) by lia.
  destruct (Z.ltb_spec start (offset + len (s_es s))) as [Hlt|Hnlt].
  - rewrite Hch. cbn [rbind]. unfold saturating_sub64. rewrite sub64_small by lia.
    rewrite Hrec by (lia || left). cbn [rbind]. done.
  - cbn [rbind]. f_equal. f_equal. symmetry. unfold zslice. rewrite zdrop_ge by lia. apply ztake_nil.
Qed.

Theorem range_rec_at md tx d c lo hi fp es fuel start end_ :
  tree_at md tx d c lo hi fp es -> (d < fuel)%nat -> len es <= u64_max ->
  0 <= start -> start <= end_ -> end_ <= u64_max ->
  range_rec fuel tx c start end_ = Ok (zslice es start end_).
Proof.
  revert c lo hi fp es fuel start end_; induction d as [|d IH];
    intros c lo hi fp es fuel start end_ (n & Hn & _ & H) Hfuel Hmax Hs Hse He;
    destruct n as [l|b]; try done; destruct fuel as [|fuel]; try lia; cbn [range_rec].
  - destruct H as (Hwf & _ & -> & _ & Hsort & _). pose proof (leaf_es_length l Hwf) as Hlen.
    assert (forall i e, leaf_es l !! i = Some e -> exists k, lf_keys l !! i = Some k /\ lf_values l !! i = Some e.2 /\ e.1 = k_bytes k) as Hlook.
    { intros i [k v] Hi. unfold leaf_es in Hi. apply lookup_zip_Some in Hi as [Hk Hv].
      apply list_lookup_fmap_Some in Hk as (k' & -> & Hk). eauto. }
    destruct (node_inv _ _ _ Hn) as [(i & -> & Hi)|(o & pg & v & -> & Hpg & Hv & Ha)].
    + rewrite Hn. cbn [rbind]. rewrite <- Hlen. apply push_range_spec; [|done]. intros j e He'.
      destruct (Hlook _ _ He') as (k & -> & -> & Ek). cbn [unwrap rbind]. rewrite <- Ek. by destruct e.
    + rewrite Hpg; cbn [rbind]. rewrite Hv; cbn [rbind]. pose proof Ha as [-> _].
      replace (view_len v) with (length (leaf_es l)).
      * apply push_range_spec; [|done]. intros j e He'. destruct (Hlook _ _ He') as (k & Hk & Hw & Ek).
        destruct (view_agrees_leaf _ _ _ _ _ _ Ha Hk Hw) as [-> ->]. cbn [rbind]. rewrite <- Ek. by destruct e.
      * apply view_agrees_keys in Ha. apply Forall2_length in Ha. unfold view_len. rewrite Hlen.
        cbn [node_keys] in Ha. by rewrite length_fmap in Ha.
  - destruct H as (ss & Hf & Hch & Hco & _ & _ & ->).
    assert (forall j s, ss !! j = Some s -> br_children b !! j = Some (s_child s) /\ br_counts b !! j = Some (s_count s)) as Hat.
    { intros j s Hj. by rewrite Hch, Hco, !list_lookup_fmap, Hj. }
    assert (forall s a b, s ∈ ss -> 0 <= a -> a <= b -> b <= u64_max ->
      range_rec fuel tx (s_child s) a b = Ok (zslice (s_es s) a b)) as Hrec.
    { intros s a0 b0 Hin Ha0 Hab0 Hb0. apply list_elem_of_lookup in Hin as [j Hj].
      destruct (forest_at _ _ _ _ _ Hf Hj) as (? & ? & ? & ? & _ & _ & _ & _ & HP & _).
      eapply IH; try done; [lia|]. rewrite <- (take_drop_middle _ _ _ Hj), forest_es_app, forest_es_cons, !len_app in Hmax.
      pose proof (len_nonneg (forest_es (take j ss))). pose proof (len_nonneg (forest_es (drop (S j) ss))). lia. }
    assert (forall count child, (forall j s, ss !! j = Some s -> count j = Ok (s_count s) /\ child j = Ok (s_child s)) ->
      range_children (range_rec fuel tx) count child 0 (length ss) 0 start end_ = Ok (zslice (forest_es ss) start end_)) as Hall.
    { intros count child Hcc. rewrite (range_children_spec _ _ _ _ _ ss _ 0 0 start end_ Hf) by (done || lia).
      f_equal. f_equal; lia. }
    destruct (node_inv _ _ _ Hn) as [(j & -> & Hi)|(o & pg & v & -> & Hpg & Hv & Ha)].
    + rewrite Hn. cbn [rbind]. replace (length (br_counts b)) with (length ss) by (by rewrite Hco, length_fmap).
      apply Hall. intros k s Hk. destruct (Hat _ _ Hk) as [-> ->]. done.
    + rewrite Hpg; cbn [rbind]. rewrite Hv; cbn [rbind]. pose proof Ha as [-> _].
      replace (view_children v) with (length ss).
      * apply Hall. intros k s Hk. destruct (Hat _ _ Hk) as [H1 H2].
        destruct (view_agrees_branch _ _ _ _ _ _ Ha H1 H2) as (off & -> & ->). done.
      * apply view_agrees_keys in Ha. apply Forall2_length in Ha. unfold view_children. cbn [node_keys] in Ha.
        rewrite length_fmap in Ha. apply forest_length in Hf. unfold bounds in Hf. cbn [length] in Hf.
        rewrite length_app, !length_fmap in Hf. cbn [length] in Hf. lia.
Qed.

End Range.
