(* ===== verification/ZsetTreeInsert.v ===== *)
(** * Insertion into the trees

    [evolves tx tx' fp fp'] is the frame of a mutation: it owns the arena indices [fp],
    ends owning [fp'], takes new ones only behind the end of the arena and leaves every
    other node, the file, the roots, the count and the log alone.  On it the splits of
    full nodes and [insert_rec] are shown to act as [aset] on the entries of the tree,
    and never to produce a node that does not md a page. *)

From Stdlib Require Import ZArith Lia Sorting.Sorted.
From S2P Require Import Prelude Bytes Crc IoBackend F64 ZsetFormat Assoc ZsetNode ZsetStore ZsetTree ZsetTreeProof.

(** ** Footprints *)

Definition owned (tx : Tx) (fp : list nat) : Prop := NoDup fp /\ Forall (fun i => (i < length (tx_nodes tx))%nat) fp.

Record evolves (tx tx' : Tx) (fp fp' : list nat) : Prop := {
  ev_file : tx_file tx' = tx_file tx;
  ev_base : tx_base tx' = tx_base tx;
  ev_roots : tx_roots tx' = tx_roots tx;
  ev_count : tx_count tx' = tx_count tx;
  ev_log : tx_log tx' = tx_log tx;
  ev_grow : (length (tx_nodes tx) <= length (tx_nodes tx'))%nat;
  ev_frame : forall i, (i < length (tx_nodes tx))%nat -> i ∉ fp -> tx_nodes tx' !! i = tx_nodes tx !! i;
  ev_fresh : forall i, i ∈ fp' -> i ∈ fp \/ (length (tx_nodes tx) <= i)%nat;
  ev_owned : owned tx' fp';
}.

#[export] Instance owned_perm tx : Proper ((≡ₚ) ==> iff) (owned tx).
Proof. intros fp fp' E. unfold owned. by rewrite E. Qed.

#[export] Instance evolves_perm tx tx' : Proper ((≡ₚ) ==> (≡ₚ) ==> iff) (evolves tx tx').
Proof.
  intros a a' Ea b b' Eb. split; intros []; constructor; try done.
  - intros i Hi. rewrite <- Ea. by apply ev_frame0.
  - intros i Hi. rewrite <- Eb in Hi. rewrite <- Ea. by apply ev_fresh0.
  - by rewrite <- Eb.
  - intros i Hi. rewrite Ea. by apply ev_frame0.
  - intros i Hi. rewrite Eb in Hi. rewrite Ea. by apply ev_fresh0.
  - by rewrite Eb.
Qed.

Lemma owned_app tx a b : owned tx (a ++ b) <-> owned tx a /\ owned tx b /\ forall i, i ∈ a -> i ∉ b.
Proof. unfold owned. rewrite NoDup_app, Forall_app. split; [intros ((?&?&?)&?&?)|intros ((?&?)&(?&?)&?)]; auto. Qed.
Lemma owned_elem tx fp i : owned tx fp -> i ∈ fp -> (i < length (tx_nodes tx))%nat.
Proof. intros [_ H] Hi. rewrite Forall_forall in H. by apply H. Qed.

Lemma evolves_refl tx fp : owned tx fp -> evolves tx tx fp fp.
Proof. intros H. constructor; try done. intros i Hi. by left. Qed.

Lemma evolves_trans tx tx1 tx2 fp fp1 fp2 : evolves tx tx1 fp fp1 -> evolves tx1 tx2 fp1 fp2 -> evolves tx tx2 fp fp2.
Proof.
  intros [F1 B1 R1 C1 L1 G1 K1 N1 O1] [F2 B2 R2 C2 L2 G2 K2 N2 O2]. constructor; try congruence; [lia| |].
  - intros i Hi Hn. rewrite K2, K1; [done|done|done|lia|]. intros H. apply N1 in H as [?|?]; [done|lia].
  - intros i Hi. apply N2 in Hi as [Hi|Hi]; [by apply N1|]. right. lia.
Qed.

(** A mutation of a part of what is owned. *)
Lemma evolves_app tx tx' fp fp' fr :
  evolves tx tx' fp fp' -> owned tx (fp ++ fr) -> evolves tx tx' (fp ++ fr) (fp' ++ fr).
Proof.
  intros [F B R C L G K N O] Ho. apply owned_app in Ho as (Ho & [Hnd Hlt] & Hd). constructor; try done.
  - intros i Hi Hn. apply K; [done|]. intros H. apply Hn, elem_of_app. by left.
  - intros i [Hi|Hi]%elem_of_app; [|left; apply elem_of_app; by right].
    apply N in Hi as [?|?]; [left; apply elem_of_app; by left|by right].
  - apply owned_app. split_and!; [done| |].
    + split; [done|]. eapply Forall_impl; [exact Hlt|]. cbn. lia.
    + intros i Hi Hr. apply N in Hi as [Hi|Hi]; [by apply (Hd i)|].
      rewrite Forall_forall in Hlt. apply Hlt in Hr. lia.
Qed.

Lemma evolves_agrees tx tx' fp fp' fr : evolves tx tx' fp fp' -> owned tx (fp ++ fr) -> agrees tx tx' fr.
Proof.
  intros E Ho. apply owned_app in Ho as (_ & Hr & Hd). split; [by destruct E|].
  intros i Hi. apply (ev_frame _ _ _ _ E); [by eapply owned_elem|]. intros H. by apply (Hd i).
Qed.

Section Arena.
Context {C : Crc32fast}.

Lemma make_dirty_spec tx c n :
  node tx c = Ok n -> exists i tx', make_dirty c tx = (Ok i, tx') /\ tx_nodes tx' !! i = Some n /\ evolves tx tx' (own c) [i].
Proof.
  destruct c as [o|i]; cbn [node make_dirty own].
  - destruct (o =? 0); [done|]. intros ->. eexists _, _. split; [done|]. cbn [set_nodes tx_nodes]. split.
    + by rewrite lookup_app_r, Nat.sub_diag.
    + constructor; try done; cbn [set_nodes tx_nodes].
      * rewrite length_app. lia.
      * intros j Hj _. by rewrite lookup_app_l.
      * intros j ->%list_elem_of_singleton. right. lia.
      * split; [apply NoDup_singleton|]. repeat constructor. cbn. rewrite length_app. cbn. lia.
  - destruct (tx_nodes tx !! i) eqn:E; cbn [unwrap]; [|done]. intros [= ->]. exists i, tx. split_and!; [done..|].
    apply evolves_refl. split; [apply NoDup_singleton|]. repeat constructor. by eapply lookup_lt_Some.
Qed.

Lemma put_node_spec tx i n :
  owned tx [i] ->
  exists tx', put_node i n tx = (Ok tt, tx') /\ tx_nodes tx' !! i = Some n /\ evolves tx tx' [i] [i].
Proof.
  intros [_ Hi]. apply Forall_cons in Hi as [Hi _]. unfold put_node, vec_set. destruct (Nat.ltb_spec i (length (tx_nodes tx))); [|lia].
  eexists. split; [done|]. cbn [set_nodes tx_nodes]. split; [by apply list_lookup_insert_eq|].
  constructor; try done; cbn [set_nodes tx_nodes].
  - rewrite length_insert. lia.
  - intros j Hj Hn. rewrite list_lookup_insert_ne; [done|]. intros ->. apply Hn. left.
  - intros j Hj. by left.
  - split; [apply NoDup_singleton|]. repeat constructor. cbn. by rewrite length_insert.
Qed.

Lemma push_spec tx n :
  exists i tx', push n tx = (Ok (Dirty i), tx') /\ tx_nodes tx' !! i = Some n /\ evolves tx tx' [] [i].
Proof.
  eexists _, _. split; [done|]. cbn [set_nodes tx_nodes]. split; [by rewrite lookup_app_r, Nat.sub_diag|].
  constructor; try done; cbn [set_nodes tx_nodes].
  - rewrite length_app. lia.
  - intros j Hj _. by rewrite lookup_app_l.
  - intros j ->%list_elem_of_singleton. right. lia.
  - split; [apply NoDup_singleton|]. repeat constructor. cbn. rewrite length_app. cbn. lia.
Qed.

Lemma get_node_spec tx i n : tx_nodes tx !! i = Some n -> get_node i tx = (Ok n, tx).
Proof. unfold get_node. by intros ->. Qed.

Lemma dirty_node tx i n : tx_nodes tx !! i = Some n -> node tx (Dirty i) = Ok n.
Proof. cbn. by intros ->. Qed.

End Arena.

(** ** Where a full node is split *)

Section SplitPosition.
Context (sizes : list Z) (keep : nat).
Hypothesis Hkeep : (1 <= keep < length sizes)%nat.
Hypothesis Hlen : len sizes <= u64_max.

Let half : Z := zsum sizes / 2.

Lemma split_loop_spec fuel n :
  (1 <= n <= length sizes - keep)%nat -> (length sizes - n <= fuel)%nat ->
  (n = 1%nat \/ zsum (take n sizes) <= half) ->
  exists m, split_loop fuel sizes (Z.of_nat keep) half (Z.of_nat n) (zsum (take n sizes)) = Ok (Z.of_nat m) /\
    (1 <= m <= length sizes - keep)%nat /\ (m = 1%nat \/ zsum (take m sizes) <= half) /\
    (m = (length sizes - keep)%nat \/ half < zsum (take (S m) sizes)).
Proof using Hkeep Hlen.
  revert n; induction fuel as [|fuel IH]; intros n Hn Hf Hh; [lia|].
  cbn [split_loop]. unfold len. rewrite sub64_small by (unfold len in Hlen; lia).
  destruct (Z.ltb_spec (Z.of_nat n) (Z.of_nat (length sizes) - Z.of_nat keep)) as [Hlt|Hge].
  - destruct (lookup_lt_is_Some_2 sizes n ltac:(lia)) as [x Hx]. rewrite znth_lookup, Nat2Z.id, Hx by lia. cbn [unwrap rbind].
    pose proof (take_S_r _ _ _ Hx) as Ht. assert (zsum (take (S n) sizes) = zsum (take n sizes) + x) as Hsum.
    { rewrite Ht, zsum_app, zsum_cons. cbn. lia. }
    rewrite <- Hsum. destruct (Z.leb_spec (zsum (take (S n) sizes)) half) as [Hle|Hgt].
    + replace (Z.of_nat n + 1) with (Z.of_nat (S n)) by lia. apply IH; [lia|lia|by right].
    + exists n. split_and!; [done|lia|lia|done|by right].
  - exists n. split_and!; [done|lia|lia|done|left; lia].
Qed.

Lemma split_position_spec :
  exists m, split_position sizes (Z.of_nat keep) = Ok (Z.of_nat m) /\
    (1 <= m <= length sizes - keep)%nat /\ (m = 1%nat \/ zsum (take m sizes) <= half) /\
    (m = (length sizes - keep)%nat \/ half < zsum (take (S m) sizes)).
Proof using Hkeep Hlen.
  unfold split_position. fold half. destruct (lookup_lt_is_Some_2 sizes 0 ltac:(lia)) as [x Hx].
  rewrite znth_lookup by lia. change (Z.to_nat 0) with 0%nat. rewrite Hx. cbn [unwrap rbind].
  pose proof (split_loop_spec (length sizes) 1) as H. rewrite (take_S_r _ _ _ Hx), take_0 in H.
  replace (zsum ([] ++ [x])) with x in H by (cbn; lia). apply H; [lia|lia|by left].
Qed.

End SplitPosition.

(** ** Splitting full nodes *)

Lemma key_encoded_len_le k : key_encoded_len k <= 515.
Proof.
  unfold key_encoded_len, is_long. destruct (Z.ltb_spec INLINE_KEY_MAX (len (k_bytes k))); unfold INLINE_KEY_MAX in *; [|lia].
  unfold OVERFLOW_KEY_SIZE, OVERFLOW_PREFIX. lia.
Qed.

Lemma value_len_bound t : 0 <= value_len t <= 8.
Proof. unfold value_len. lia. Qed.

Definition ENTRY_MAX : Z := 525.
Definition SEP_MAX : Z := 531.

Lemma zsum_le M l : Forall (fun x => x <= M) l -> zsum l <= M * len l.
Proof. induction 1 as [|x l Hx H IH]; [unfold len; cbn; lia|]. rewrite zsum_cons, len_cons. lia. Qed.

Lemma zsum_take_drop n l : zsum (take n l) + zsum (drop n l) = zsum l.
Proof. by rewrite <- zsum_app, take_drop. Qed.

(** The halves of a leaf, and of a branch around the separator that moves up. *)
Lemma split_position_halves sizes keep M :
  (1 <= keep <= 2)%nat -> Forall (fun x => 0 <= x <= M) sizes -> 4000 < zsum sizes -> M <= 531 -> len sizes <= u64_max ->
  exists m, split_position sizes (Z.of_nat keep) = Ok (Z.of_nat m) /\ (1 <= m)%nat /\ (m + keep <= length sizes)%nat /\
    zsum (take m sizes) <= zsum sizes / 2 + M /\
    (keep = 1%nat -> zsum (drop m sizes) <= zsum sizes / 2 + 1 + M) /\
    (keep = 2%nat -> zsum (drop (S m) sizes) <= zsum sizes / 2 + 1 + M).
Proof.
  intros Hk Hs Hbig HM Hlen. assert (Forall (fun x => x <= M) sizes) as Hs' by (eapply Forall_impl; [exact Hs|]; cbn; lia).
  pose proof (zsum_le _ _ Hs') as Hz. assert (8 <= length sizes)%nat as Hn by (unfold len in Hz; nia).
  destruct (split_position_spec sizes keep ltac:(lia) Hlen) as (m & -> & Hm & Hleft & Hright).
  exists m. pose proof (zsum_take_drop m sizes). pose proof (zsum_take_drop (S m) sizes).
  pose proof (Z_div_mod_eq_full (zsum sizes) 2). pose proof (Z.mod_pos_bound (zsum sizes) 2 ltac:(lia)).
  destruct (lookup_lt_is_Some_2 sizes m ltac:(lia)) as [x Hx]. pose proof (Forall_lookup_1 _ _ _ _ Hs Hx) as Hxb. cbn in Hxb.
  assert (zsum (take (S m) sizes) = zsum (take m sizes) + x) as Hsum by (rewrite (take_S_r _ _ _ Hx), zsum_app, zsum_cons; cbn; lia).
  split_and!; [done|lia|lia| | |].
  - destruct Hleft as [->|?]; [|lia]. pose proof (zsum_le M (take 1 sizes) (Forall_take _ _ _ Hs')) as Hone.
    unfold len in Hone. rewrite length_take in Hone. lia.
  - intros ->. destruct Hright as [->|?]; [|lia].
    pose proof (zsum_le M (drop (length sizes - 1) sizes) (Forall_drop _ _ _ Hs')) as Hone.
    unfold len in Hone. rewrite length_drop in Hone. lia.
  - intros ->. destruct Hright as [->|?]; [|lia].
    pose proof (zsum_le M (drop (S (length sizes - 2)) sizes) (Forall_drop _ _ _ Hs')) as Hone.
    unfold len in Hone. rewrite length_drop in Hone. lia.
Qed.

Lemma split_entries_order es1 es2 lo hi sep :
  asorted (es1 ++ es2) -> within lo hi (es1 ++ es2) -> es1 <> [] -> es2.*1 !! 0%nat = Some sep ->
  asorted es1 /\ asorted es2 /\ within lo (Some sep) es1 /\ within (Some sep) hi es2 /\
  bound_lt lo (Some sep) /\ bound_lt (Some sep) hi.
Proof.
  intros Hs Hw Hne Hsep. apply asorted_app in Hs as (H1 & H2 & Hlt). apply within_app in Hw as [Hw1 Hw2].
  destruct es2 as [|[k v] es2]; [done|]. cbn in Hsep. injection Hsep as ->.
  pose proof H2 as H2'. apply asorted_cons in H2' as [Hgt _]. apply Forall_cons in Hlt as [Hlt _]. cbn in Hgt, Hlt.
  apply Forall_cons in Hw2 as Hw2'. destruct Hw2' as [[Hk Hk'] Hw2']. cbn in Hk, Hk'.
  assert (within lo (Some sep) es1) as Hleft.
  { apply Forall_forall. intros e He. unfold within in Hw1. unfold keys_lt in Hlt. rewrite Forall_forall in Hw1, Hlt. split; [by apply Hw1|by apply Hlt]. }
  split_and!; [done|done|done| | |done].
  - constructor; [split; [apply bytes_le_refl|done]|]. apply Forall_forall. intros e He.
    unfold within in Hw2'. unfold keys_gt in Hgt. rewrite Forall_forall in Hw2', Hgt. split; [|by apply Hw2']. by apply bytes_lt_le, Hgt.
  - destruct es1 as [|e es1]; [done|]. apply Forall_cons in Hleft as [[Ha Hu] _]. destruct lo as [l|]; [|done].
    cbn in *. by eapply bytes_le_lt_trans.
Qed.

(** One node, or two of the same depth around a separator. *)
Definition spread `{Crc32fast} (md : mode) (tx : Tx) (d : nat) (lo hi : bound) (fp : list nat) (es : entries)
    (nd : Child) (split : option Split) : Prop :=
  match split with
  | None => tree_at md tx d nd lo hi fp es
  | Some sp => exists fp1 fp2 es1 es2, fp = fp1 ++ fp2 /\ es = es1 ++ es2 /\
      let sep := k_bytes (sp_sep sp) in
      tree_at md tx d nd lo (Some sep) fp1 es1 /\ tree_at md tx d (sp_right sp) (Some sep) hi fp2 es2 /\
      sp_left_count sp = len es1 /\ sp_right_count sp = len es2 /\ bound_lt lo (Some sep) /\ bound_lt (Some sep) hi
  end.

(** Steps of the monad whose first action is known. *)
Ltac sstep H := rewrite (sbind_Ok _ _ _ _ _ H).
Ltac slifted := rewrite sbind_slift_Ok.

Lemma vec_split_off_Ok {A : Type} i (l : list A) : (i <= length l)%nat -> vec_split_off i l = Ok (take i l, drop i l).
Proof. intros H. unfold vec_split_off. by rewrite (proj2 (Nat.leb_le _ _) H). Qed.
Lemma vec_set_Ok {A : Type} i (x : A) l : (i < length l)%nat -> vec_set i x l = Ok (<[i := x]> l).
Proof. intros H. unfold vec_set. by rewrite (proj2 (Nat.ltb_lt _ _) H). Qed.
Lemma vec_insert_Ok {A : Type} i (x : A) l : (i <= length l)%nat -> vec_insert i x l = Ok (insert_at i x l).
Proof. intros H. unfold vec_insert. by rewrite (proj2 (Nat.leb_le _ _) H). Qed.
Lemma vec_remove_Ok {A : Type} i (l : list A) : (i < length l)%nat -> vec_remove i l = Ok (remove_at i l).
Proof. intros H. unfold vec_remove. by rewrite (proj2 (Nat.ltb_lt _ _) H). Qed.

Section Splits.
Context {C : Crc32fast}.

(** A leaf of the arena with these entries. *)
Definition leaf_in (md : mode) (tx : Tx) (idx : nat) (l : Leaf) (lo hi : bound) : Prop :=
  tx_nodes tx !! idx = Some (NLeaf l) /\ leaf_wf l /\ leaf_vals md l /\ asorted (leaf_es l) /\ within lo hi (leaf_es l).

Lemma leaf_tree_at md tx idx l lo hi :
  leaf_in md tx idx l lo hi -> leaf_es l <> [] -> fits md (NLeaf l) -> tree_at md tx 0 (Dirty idx) lo hi [idx] (leaf_es l).
Proof. intros (Hn & Hw & Hsm & Hs & Hin) Hne Hf. exists (NLeaf l). split; [by apply dirty_node|]. done. Qed.

Lemma leaf_sizes md l : leaf_wf l -> leaf_vals md l ->
  Forall (fun x => 0 <= x <= ENTRY_MAX) (entry_size <$> zip (lf_keys l) (lf_values l)) /\
  length (entry_size <$> zip (lf_keys l) (lf_values l)) = length (lf_keys l).
Proof.
  intros Hw Hs. split.
  - apply Forall_fmap, Forall_forall. intros [k v] Hin. cbn. apply elem_of_zip_r in Hin as Hv.
    unfold leaf_vals in Hs. rewrite Forall_forall in Hs. specialize (Hs v Hv). unfold entry_size, ENTRY_MAX in *. cbn [fst snd].
    pose proof (value_len_bound (md_tree md)).
    pose proof (key_encoded_len_le k). pose proof (key_encoded_len_ge k). pose proof (len_nonneg v). lia.
  - rewrite length_fmap, length_zip_with. unfold leaf_wf in Hw. lia.
Qed.

Lemma leaf_in_cut md l m :
  leaf_wf l -> leaf_vals md l ->
  let l1 := mkLeaf (take m (lf_keys l)) (take m (lf_values l)) in
  let l2 := mkLeaf (drop m (lf_keys l)) (drop m (lf_values l)) in
  leaf_wf l1 /\ leaf_wf l2 /\ leaf_vals md l1 /\ leaf_vals md l2 /\ leaf_es l = leaf_es l1 ++ leaf_es l2 /\
  entry_size <$> zip (lf_keys l1) (lf_values l1) = take m (entry_size <$> zip (lf_keys l) (lf_values l)) /\
  entry_size <$> zip (lf_keys l2) (lf_values l2) = drop m (entry_size <$> zip (lf_keys l) (lf_values l)) /\
  (leaf_es l2).*1 = drop m (k_bytes <$> lf_keys l).
Proof.
  intros Hw Hs l1 l2. assert (leaf_wf l1) as H1 by (unfold leaf_wf in *; cbn; rewrite !length_take; lia).
  assert (leaf_wf l2) as H2 by (unfold leaf_wf in *; cbn; rewrite !length_drop; lia).
  split_and!; [done|done|by apply Forall_take|by apply Forall_drop| | | |].
  - unfold l1, l2. rewrite <- leaf_es_app by (rewrite !length_take; unfold leaf_wf in *; lia). rewrite !take_drop. by destruct l.
  - unfold l1. cbn [lf_keys lf_values]. by rewrite <- zip_with_take, fmap_take.
  - unfold l2. cbn [lf_keys lf_values]. by rewrite <- zip_with_drop, fmap_drop.
  - rewrite leaf_es_fst by done. unfold l2. cbn [lf_keys]. by rewrite fmap_drop.
Qed.

(** A node of the arena replaced by its left half, with the right half pushed. *)
Lemma put_push_spec tx idx n1 n2 :
  owned tx [idx] ->
  exists r tx1 tx2, put_node idx n1 tx = (Ok tt, tx1) /\ push n2 tx1 = (Ok (Dirty r), tx2) /\
    tx_nodes tx2 !! idx = Some n1 /\ tx_nodes tx2 !! r = Some n2 /\ evolves tx tx2 [idx] [idx; r].
Proof.
  intros Ho. destruct (put_node_spec tx idx n1 Ho) as (tx1 & Hput & Hn1 & Hev1).
  destruct (push_spec tx1 n2) as (r & tx2 & Hpush & Hn2 & Hev2). exists r, tx1, tx2. split_and!; try done.
  - rewrite (ev_frame _ _ _ _ Hev2); [done|by eapply lookup_lt_Some|apply not_elem_of_nil].
  - eapply evolves_trans; [exact Hev1|]. pose proof (evolves_app _ _ _ _ [idx] Hev2 (ev_owned _ _ _ _ Hev1)) as Hev3.
    cbn [app] in Hev3. by rewrite (Permutation_swap r idx).
Qed.

Lemma split_leaf_run tx idx l m :
  tx_nodes tx !! idx = Some (NLeaf l) -> leaf_wf l -> owned tx [idx] ->
  split_position (entry_size <$> zip (lf_keys l) (lf_values l)) 1 = Ok (Z.of_nat m) -> (m < length (lf_keys l))%nat ->
  let l1 := mkLeaf (take m (lf_keys l)) (take m (lf_values l)) in
  let l2 := mkLeaf (drop m (lf_keys l)) (drop m (lf_values l)) in
  exists sep r tx', split_leaf idx tx = (Ok (mkSplit sep (Dirty r) (len (lf_keys l1)) (len (lf_keys l2))), tx') /\
    lf_keys l !! m = Some sep /\ tx_nodes tx' !! idx = Some (NLeaf l1) /\ tx_nodes tx' !! r = Some (NLeaf l2) /\
    evolves tx tx' [idx] [idx; r].
Proof.
  intros Hn Hw Ho Hm Hlt l1 l2. destruct (lookup_lt_is_Some_2 (lf_keys l) m Hlt) as [sep Hsep].
  destruct (put_push_spec tx idx (NLeaf l1) (NLeaf l2) Ho) as (r & tx1 & tx2 & Hput & Hpush & Hn1 & Hn2 & Hev).
  exists sep, r, tx2. split_and!; try done. unfold split_leaf. sstep (get_node_spec _ _ _ Hn). rewrite Hm. slifted.
  rewrite Nat2Z.id, !vec_split_off_Ok by (unfold leaf_wf in Hw; lia). do 2 slifted. cbn [fst snd]. fold l1 l2. sstep Hput.
  rewrite lookup_drop, Nat.add_0_r, Hsep. cbn [unwrap]. slifted. by sstep Hpush.
Qed.

Lemma half_fits total M room : total <= room + M -> 3 * M + 4 <= room -> total / 2 + 1 + M <= room.
Proof. intros. pose proof (Z_div_mod_eq_full total 2). pose proof (Z.mod_pos_bound total 2 ltac:(lia)). lia. Qed.

Lemma finish_leaf md tx idx l lo hi :
  leaf_in md tx idx l lo hi -> leaf_es l <> [] -> owned tx [idx] -> len (leaf_es l) <= u64_max ->
  (md_fit md = true -> leaf_encoded_len l <= PAGE_SIZE + ENTRY_MAX) ->
  exists split tx' fp', split_if_full idx (NLeaf l) tx = (Ok split, tx') /\ evolves tx tx' [idx] fp' /\
    spread md tx' 0 lo hi fp' (leaf_es l) (Dirty idx) split.
Proof.
  intros (Hn & Hw & Hsm & Hs & Hin) Hne Ho Hmax Hfit. unfold split_if_full. cbn [encoded_len].
  destruct (Z.ltb_spec PAGE_SIZE (leaf_encoded_len l)) as [Hbig|Hsmall].
  2:{ exists None, tx, [idx]. split_and!; [done|by apply evolves_refl|]. cbn [spread]. apply leaf_tree_at; try done.
      unfold fits; by destruct (md_fit md). }
  pose proof (leaf_sizes md l Hw Hsm) as [Hsz Hszl]. pose proof (leaf_es_length l Hw) as Hesl.
  unfold leaf_encoded_len, PAGE_HEADER, PAGE_SIZE in *. set (sizes := entry_size <$> zip (lf_keys l) (lf_values l)) in *.
  destruct (split_position_halves sizes 1 ENTRY_MAX) as (m & Hm & Hm1 & Hm2 & Hleft & Hright & _);
    [lia|done|lia|unfold ENTRY_MAX; lia|unfold len in *; lia|]. specialize (Hright eq_refl).
  destruct (split_leaf_run tx idx l m Hn Hw Ho Hm ltac:(lia)) as (sep & r & tx' & Hrun & Hsep & Hn1 & Hn2 & Hev).
  destruct (leaf_in_cut md l m Hw Hsm) as (Hw1 & Hw2 & Hsm1 & Hsm2 & Ees & Esz1 & Esz2 & Efst). fold sizes in Esz1, Esz2.
  set (l1 := mkLeaf (take m (lf_keys l)) (take m (lf_values l))) in *.
  set (l2 := mkLeaf (drop m (lf_keys l)) (drop m (lf_values l))) in *.
  exists (Some (mkSplit sep (Dirty r) (len (lf_keys l1)) (len (lf_keys l2)))), tx', [idx; r]. split_and!; [by sstep Hrun|done|].
  assert (leaf_es l1 <> []) as Hne1.
  { intros E. apply (f_equal length) in E. rewrite leaf_es_length in E by done. cbn in E. rewrite length_take in E. lia. }
  assert (leaf_es l2 <> []) as Hne2.
  { intros E. apply (f_equal length) in E. rewrite leaf_es_length in E by done. cbn in E. rewrite length_drop in E. lia. }
  rewrite Ees in Hs, Hin. destruct (split_entries_order _ _ lo hi (k_bytes sep) Hs Hin Hne1) as (Hs1 & Hs2 & Hi1 & Hi2 & Hb1 & Hb2).
  { rewrite Efst, lookup_drop, Nat.add_0_r, list_lookup_fmap, Hsep. done. }
  assert (md_fit md = true -> zsum sizes / 2 + 1 + ENTRY_MAX <= 4080) as Hhalf.
  { intros E. specialize (Hfit E). apply half_fits; unfold ENTRY_MAX in *; lia. }
  exists [idx], [r], (leaf_es l1), (leaf_es l2). cbn [sp_sep sp_right sp_left_count sp_right_count].
  split_and!; try done; try (unfold len; by rewrite leaf_es_length);
    (apply leaf_tree_at; [done|done|]); (unfold fits; destruct (md_fit md) eqn:Efit; [|done]); specialize (Hhalf eq_refl);
    cbn; unfold leaf_encoded_len, PAGE_HEADER, PAGE_SIZE; rewrite ?Esz1, ?Esz2; lia.
Qed.

(** A branch of the arena over these subtrees. *)
Definition branch_in (md : mode) (tx : Tx) (d idx : nat) (b : Branch) (ss : list slot) (lo hi : bound) : Prop :=
  tx_nodes tx !! idx = Some (NBranch b) /\ forest (tree_at md tx d) ss (bounds lo (k_bytes <$> br_keys b) hi) /\
  br_children b = s_child <$> ss /\ br_counts b = s_count <$> ss.

Lemma branch_tree_at md tx d idx b ss lo hi :
  branch_in md tx d idx b ss lo hi -> (2 <= length ss)%nat -> fits md (NBranch b) ->
  tree_at md tx (S d) (Dirty idx) lo hi (idx :: forest_fp ss) (forest_es ss).
Proof. intros (Hn & Hf & Hch & Hco) H2 Hfit. exists (NBranch b). split; [by apply dirty_node|]. split; [done|]. by exists ss. Qed.

Lemma branch_in_length md tx d idx b ss lo hi :
  branch_in md tx d idx b ss lo hi -> length ss = S (length (br_keys b)).
Proof.
  intros (_ & Hf & _). apply forest_length in Hf. unfold bounds in Hf. cbn [length] in Hf.
  rewrite length_app, !length_fmap in Hf. cbn in Hf. lia.
Qed.

Lemma split_branch_run tx idx b m :
  tx_nodes tx !! idx = Some (NBranch b) -> owned tx [idx] ->
  length (br_children b) = S (length (br_keys b)) -> length (br_counts b) = S (length (br_keys b)) ->
  split_position (sep_size <$> br_keys b) 2 = Ok (Z.of_nat m) -> (m < length (br_keys b))%nat ->
  let b1 := mkBranch (take m (br_keys b)) (take (S m) (br_children b)) (take (S m) (br_counts b)) in
  let b2 := mkBranch (drop (S m) (br_keys b)) (drop (S m) (br_children b)) (drop (S m) (br_counts b)) in
  exists sep r tx', split_branch idx tx = (Ok (mkSplit sep (Dirty r) (total b1) (total b2)), tx') /\
    br_keys b !! m = Some sep /\ tx_nodes tx' !! idx = Some (NBranch b1) /\ tx_nodes tx' !! r = Some (NBranch b2) /\
    evolves tx tx' [idx] [idx; r].
Proof.
  intros Hn Ho Hlc Hlo Hm Hlt b1 b2. destruct (lookup_lt_is_Some_2 (br_keys b) m Hlt) as [sep Hsep].
  destruct (put_push_spec tx idx (NBranch b1) (NBranch b2) Ho) as (r & tx1 & tx2 & Hput & Hpush & Hn1 & Hn2 & Hev).
  exists sep, r, tx2. split_and!; try done. unfold split_branch. sstep (get_node_spec _ _ _ Hn). rewrite Hm. slifted.
  replace (Z.to_nat (Z.of_nat m + 1)) with (S m) by lia. rewrite !vec_split_off_Ok by lia. slifted. cbn [fst snd].
  rewrite (take_S_r _ _ _ Hsep), last_snoc, removelast_last. cbn [unwrap]. do 3 slifted. cbn [fst snd]. fold b1 b2.
  sstep Hput. by sstep Hpush.
Qed.

Lemma bounds_cut lo (keys : list Key) hi m sep :
  keys !! m = Some sep ->
  exists bs1 bs2, bounds lo (k_bytes <$> keys) hi = bs1 ++ Some (k_bytes sep) :: bs2 /\ length bs1 = S m /\
    bs1 ++ [Some (k_bytes sep)] = bounds lo (k_bytes <$> take m keys) (Some (k_bytes sep)) /\
    Some (k_bytes sep) :: bs2 = bounds (Some (k_bytes sep)) (k_bytes <$> drop (S m) keys) hi.
Proof.
  intros Hm. exists (lo :: (Some <$> (k_bytes <$> take m keys))), ((Some <$> (k_bytes <$> drop (S m) keys)) ++ [hi]).
  pose proof (lookup_lt_Some _ _ _ Hm). split_and!; [|cbn; rewrite !length_fmap, length_take; lia|done|done].
  unfold bounds. rewrite <- (take_drop_middle keys m sep Hm) at 1. rewrite !fmap_app, !fmap_cons. cbn [app]. by rewrite <- app_assoc.
Qed.

Lemma total_forest P ss bs ks cs :
  forest P ss bs -> len (forest_es ss) <= u64_max -> total (mkBranch ks cs (s_count <$> ss)) = len (forest_es ss).
Proof.
  intros Hf Hmax. unfold total. cbn [br_counts]. pose proof (forest_counts _ _ _ Hf) as E.
  rewrite sum64_small; [done|by eapply forest_counts_nonneg|lia].
Qed.

Lemma branch_in_cut md tx tx' d idx r b ss lo hi m sep :
  branch_in md tx d idx b ss lo hi -> br_keys b !! m = Some sep -> agrees tx tx' (forest_fp ss) ->
  let b1 := mkBranch (take m (br_keys b)) (take (S m) (br_children b)) (take (S m) (br_counts b)) in
  let b2 := mkBranch (drop (S m) (br_keys b)) (drop (S m) (br_children b)) (drop (S m) (br_counts b)) in
  tx_nodes tx' !! idx = Some (NBranch b1) -> tx_nodes tx' !! r = Some (NBranch b2) ->
  branch_in md tx' d idx b1 (take (S m) ss) lo (Some (k_bytes sep)) /\
  branch_in md tx' d r b2 (drop (S m) ss) (Some (k_bytes sep)) hi /\
  bound_lt lo (Some (k_bytes sep)) /\ bound_lt (Some (k_bytes sep)) hi.
Proof.
  intros Hb Hm Ha b1 b2 Hn1 Hn2. pose proof (branch_in_length _ _ _ _ _ _ _ _ Hb) as Hl. destruct Hb as (_ & Hf & Hch & Hco).
  pose proof (lookup_lt_Some _ _ _ Hm). apply (forest_frame _ _ tx') in Hf; [|done].
  destruct (bounds_cut lo (br_keys b) hi m sep Hm) as (bs1 & bs2 & E & Hl1 & E1 & E2).
  rewrite E, <- (take_drop (S m) ss) in Hf. apply forest_app in Hf as [Hf1 Hf2]; [|rewrite length_take; lia].
  rewrite E1 in Hf1. rewrite E2 in Hf2. split_and!.
  - split_and!; [done|done| |]; unfold b1; cbn [br_children br_counts]; by rewrite ?Hch, ?Hco, fmap_take.
  - split_and!; [done|done| |]; unfold b2; cbn [br_children br_counts]; by rewrite ?Hch, ?Hco, fmap_drop.
  - eapply forest_bound_lt; [exact Hf1|apply inner_seps].
  - eapply forest_bound_lt; [exact Hf2|apply inner_seps].
Qed.

Lemma finish_branch md tx d idx b ss lo hi :
  branch_in md tx d idx b ss lo hi -> (2 <= length ss)%nat -> owned tx (idx :: forest_fp ss) ->
  len (forest_es ss) <= u64_max -> len (br_keys b) <= u64_max ->
  (md_fit md = true -> branch_encoded_len b <= PAGE_SIZE + SEP_MAX) ->
  exists split tx' fp', split_if_full idx (NBranch b) tx = (Ok split, tx') /\ evolves tx tx' (idx :: forest_fp ss) fp' /\
    spread md tx' (S d) lo hi fp' (forest_es ss) (Dirty idx) split.
Proof.
  intros Hb H2 Ho Hmax Hkmax Hfit. unfold split_if_full. cbn [encoded_len].
  destruct (Z.ltb_spec PAGE_SIZE (branch_encoded_len b)) as [Hbig|Hsmall].
  2:{ exists None, tx, (idx :: forest_fp ss). split_and!; [done|by apply evolves_refl|]. cbn [spread].
      eapply branch_tree_at; try done. unfold fits; by destruct (md_fit md). }
  pose proof (branch_in_length _ _ _ _ _ _ _ _ Hb) as Hl. pose proof Hb as (Hn & Hf & Hch & Hco).
  assert (Forall (fun x => 0 <= x <= SEP_MAX) (sep_size <$> br_keys b)) as Hsz.
  { apply Forall_fmap, Forall_forall. intros k _. cbn. unfold sep_size, SEP_MAX.
    pose proof (key_encoded_len_le k). pose proof (key_encoded_len_ge k). lia. }
  unfold branch_encoded_len, PAGE_HEADER, PAGE_SIZE in *. set (sizes := sep_size <$> br_keys b) in *.
  assert (length sizes = length (br_keys b)) as Hszl by (unfold sizes; by rewrite length_fmap).
  destruct (split_position_halves sizes 2 SEP_MAX) as (m & Hm & Hm1 & Hm2 & Hleft & _ & Hright);
    [lia|done|lia|unfold SEP_MAX; lia|unfold len in *; lia|]. specialize (Hright eq_refl).
  destruct (split_branch_run tx idx b m Hn) as (sep & r & tx' & Hrun & Hsep & Hn1 & Hn2 & Hev);
    [by apply (owned_app tx [idx]) in Ho as [? _]|rewrite Hch, length_fmap; lia|rewrite Hco, length_fmap; lia|done|lia|].
  destruct (branch_in_cut md tx tx' d idx r b ss lo hi m sep Hb Hsep) as (Hb1 & Hb2 & Hlt1 & Hlt2); [|done|done|].
  { by eapply evolves_agrees. }
  pose proof (take_drop (S m) ss) as Ess. rewrite <- Ess, forest_es_app, len_app in Hmax.
  pose proof (len_nonneg (forest_es (take (S m) ss))). pose proof (len_nonneg (forest_es (drop (S m) ss))).
  eexists _, tx', ((idx :: forest_fp (take (S m) ss)) ++ (r :: forest_fp (drop (S m) ss))). split_and!; [by sstep Hrun| |].
  { pose proof (evolves_app _ _ _ _ _ Hev Ho) as Hev'. eapply evolves_perm; [done| |exact Hev'].
    rewrite <- Ess at 3. rewrite forest_fp_app. cbn [app]. constructor. symmetry. apply Permutation_middle. }
  assert (md_fit md = true -> zsum sizes / 2 + 1 + SEP_MAX <= 4064) as Hhalf.
  { intros E. specialize (Hfit E). apply half_fits; unfold SEP_MAX in *; lia. }
  eexists _, _, (forest_es (take (S m) ss)), (forest_es (drop (S m) ss)). split; [done|]. cbn [sp_sep sp_right sp_left_count sp_right_count].
  split_and!; try done; [by rewrite <- forest_es_app, Ess|..].
  - eapply branch_tree_at; [done|rewrite length_take; lia|]. unfold fits; destruct (md_fit md) eqn:Efit; [|done]. specialize (Hhalf eq_refl).
    cbn. unfold branch_encoded_len, PAGE_HEADER, PAGE_SIZE. cbn [br_keys]. rewrite fmap_take. fold sizes. lia.
  - eapply branch_tree_at; [done|rewrite length_drop; lia|]. unfold fits; destruct (md_fit md) eqn:Efit; [|done]. specialize (Hhalf eq_refl).
    cbn. unfold branch_encoded_len, PAGE_HEADER, PAGE_SIZE. cbn [br_keys]. rewrite fmap_drop. fold sizes. lia.
  - destruct Hb1 as (_ & Hf1 & _ & Hc1). cbn [br_counts] in Hc1. rewrite Hc1. eapply total_forest; [exact Hf1|lia].
  - destruct Hb2 as (_ & Hf2 & _ & Hc2). cbn [br_counts] in Hc2. rewrite Hc2. eapply total_forest; [exact Hf2|lia].
Qed.

End Splits.

(** ** Insertion *)

Lemma aset_nonempty (es : entries) k v : aset es k v <> [].
Proof. destruct es as [|[k' v'] es]; cbn; [done|]. by destruct (bytes_compare k' k). Qed.

Lemma aset_within lo hi (es : entries) k v : within lo hi es -> above lo k -> under hi k -> within lo hi (aset es k v).
Proof. intros. by apply (aset_keys es k v (fun x => above lo x /\ under hi x)). Qed.

Lemma leaf_encoded_len_vals md l :
  leaf_wf l -> leaf_vals md l ->
  leaf_encoded_len l = PAGE_HEADER + zsum ((fun k => key_encoded_len k + 2 + value_len (md_tree md)) <$> lf_keys l).
Proof.
  destruct l as [ks vs]. unfold leaf_wf, leaf_vals, leaf_encoded_len. cbn [lf_keys lf_values]. intros Hl Hv. f_equal.
  revert vs Hl Hv; induction ks as [|k ks IH]; intros [|v vs] Hl Hv; try done. apply Forall_cons in Hv as [Hv1 Hv].
  cbn [zip_with fmap list_fmap]. rewrite !zsum_cons. f_equal; [|apply IH; [by injection Hl|done]].
  unfold entry_size. cbn [fst snd]. lia.
Qed.

Lemma zsum_insert_at {A : Type} (f : A -> Z) i x l : zsum (f <$> insert_at i x l) = zsum (f <$> l) + f x.
Proof.
  unfold insert_at. rewrite fmap_app, fmap_cons, zsum_app, zsum_cons.
  rewrite <- (take_drop i l) at 3. rewrite fmap_app, zsum_app. lia.
Qed.

Section Insert.
Context {C : Crc32fast}.

(** The code behind [get_node] when the node is a leaf. *)
Lemma insert_rec_leaf md c k v fuel tx idx tx1 l lo hi :
  make_dirty c tx = (Ok idx, tx1) -> leaf_in md tx1 idx l lo hi -> owned tx1 [idx] -> len (leaf_es l) < u64_max ->
  above lo (k_bytes k) -> under hi (k_bytes k) -> len v = value_len (md_tree md) -> fits md (NLeaf l) ->
  exists split tx' fp', insert_rec (S fuel) c k v tx = (Ok (Dirty idx, aget (leaf_es l) (k_bytes k), split), tx') /\
    evolves tx1 tx' [idx] fp' /\ spread md tx' 0 lo hi fp' (aset (leaf_es l) (k_bytes k) v) (Dirty idx) split.
Proof.
  intros Hmd (Hn & Hw & Hvs & Hs & Hin) Ho Hmax Hlo Hhi Hv Hfit. cbn [insert_rec].
  sstep Hmd. sstep (get_node_spec _ _ _ Hn). pose proof (leaf_search_spec l (k_bytes k) Hw Hs) as Hspec.
  pose proof (aset_sorted (leaf_es l) (k_bytes k) v Hs) as Hs'.
  pose proof (aset_within lo hi (leaf_es l) (k_bytes k) v Hin Hlo Hhi) as Hin'.
  pose proof (aset_nonempty (leaf_es l) (k_bytes k) v) as Hne'. unfold search_spec in Hspec. unfold leaf_wf in Hw.
  destruct (leaf_search l (k_bytes k)) as [i|i].
  - destruct Hspec as (old & Hold & -> & _ & _ & Hset & _). specialize (Hset v). rewrite Hset in Hs', Hin', Hne' |- *.
    set (l' := mkLeaf (lf_keys l) (<[i:=v]> (lf_values l))) in *.
    destruct (put_node_spec tx1 idx (NLeaf l') Ho) as (tx2 & Hput & Hn2 & Hev).
    exists None, tx2, [idx]. split_and!; [|done|].
    + rewrite Hold. cbn [unwrap]. slifted. rewrite vec_set_Ok by (by eapply lookup_lt_Some). slifted. by sstep Hput.
    + cbn [spread]. assert (leaf_wf l') as Hw' by (unfold leaf_wf; cbn; by rewrite length_insert).
      assert (leaf_vals md l') as Hvs' by (by apply Forall_insert). apply leaf_tree_at; [done|done|].
      unfold fits in *. destruct (md_fit md); [|done]. cbn [encoded_len] in *.
      rewrite (leaf_encoded_len_vals md l') by done. by rewrite (leaf_encoded_len_vals md l) in Hfit.
  - destruct Hspec as (Hi & -> & _ & Hset). specialize (Hset k v eq_refl). rewrite Hset in Hs', Hin', Hne' |- *.
    set (l' := mkLeaf (insert_at i k (lf_keys l)) (insert_at i v (lf_values l))) in *.
    destruct (put_node_spec tx1 idx (NLeaf l') Ho) as (tx2 & Hput & Hn2 & Hev).
    assert (leaf_wf l') as Hw'.
    { unfold leaf_wf. cbn. unfold insert_at. rewrite !length_app, !length_take. cbn. rewrite !length_drop. lia. }
    assert (leaf_vals md l') as Hvs'.
    { apply Forall_app. split; [by apply Forall_take|]. constructor; [done|by apply Forall_drop]. }
    destruct (finish_leaf md tx2 idx l' lo hi) as (split & tx3 & fp' & Hrun & Hev' & Hsp); [done|done|by destruct Hev| | |].
    + rewrite <- Hset. unfold len in *. rewrite aset_length. destruct (aget _ _); lia.
    + unfold fits in Hfit. intros E. rewrite E in Hfit. cbn [encoded_len] in Hfit.
      rewrite (leaf_encoded_len_vals md l') by done. rewrite (leaf_encoded_len_vals md l) in Hfit by done.
      cbn [l' lf_keys]. rewrite zsum_insert_at. pose proof (key_encoded_len_le k). pose proof (value_len_bound (md_tree md)).
      unfold ENTRY_MAX. lia.
    + exists split, tx3, fp'. split_and!; [|by eapply evolves_trans|done].
      rewrite !vec_insert_Ok by lia. do 2 slifted. fold l'. sstep Hput. by sstep Hrun.
Qed.

Lemma insert_slot {A : Type} (l : list A) i x y : l !! i = Some x -> <[i := y]> l = take i l ++ y :: drop (S i) l.
Proof. intros H. by rewrite insert_take_drop by (by eapply lookup_lt_Some). Qed.

Lemma insert_slot_after {A : Type} (l : list A) i x y z :
  l !! i = Some x -> insert_at (i + 1) z (<[i := y]> l) = take i l ++ y :: z :: drop (S i) l.
Proof.
  intros H. pose proof (lookup_lt_Some _ _ _ H). unfold insert_at. rewrite (insert_slot _ _ _ _ H).
  rewrite (cons_middle y (take i l)), (app_assoc (take i l)). rewrite take_app_length', drop_app_length' by (rewrite length_app, length_take; cbn; lia).
  by rewrite <- app_assoc.
Qed.

Lemma bounds_insert lo seps hi bs1 b b' bs2 sep :
  bounds lo seps hi = bs1 ++ b :: b' :: bs2 ->
  bounds lo (insert_at (length bs1) sep seps) hi = bs1 ++ b :: Some sep :: b' :: bs2.
Proof.
  intros E. assert (length bs1 <= length seps)%nat as Hl.
  { apply (f_equal length) in E. unfold bounds in E. cbn [length] in E. rewrite length_app, length_fmap, length_app in E. cbn in E. lia. }
  pose proof (f_equal (take (S (length bs1))) E) as E1. pose proof (f_equal (drop (S (length bs1))) E) as E2.
  rewrite (cons_middle b bs1), app_assoc in E1, E2. rewrite take_app_length' in E1 by (rewrite length_app; cbn; lia).
  rewrite drop_app_length' in E2 by (rewrite length_app; cbn; lia). unfold bounds in E1, E2. cbn [take drop] in E1, E2.
  rewrite take_app_le in E1 by (rewrite length_fmap; lia). rewrite drop_app_le in E2 by (rewrite length_fmap; lia).
  unfold bounds, insert_at. rewrite fmap_app, fmap_cons, fmap_take, fmap_drop, <- app_assoc. cbn [app].
  rewrite app_comm_cons, E1, E2. by rewrite <- app_assoc.
Qed.

(** The branch with its [i]-th child replaced by one or two. *)
Definition regrown (b : Branch) (i : nat) (nd : Child) (count : Z) (split : option Split) : Branch :=
  match split with
  | None => mkBranch (br_keys b) (<[i := nd]> (br_children b)) (<[i := count]> (br_counts b))
  | Some sp => mkBranch (insert_at i (sp_sep sp) (br_keys b)) (insert_at (i + 1) (sp_right sp) (<[i := nd]> (br_children b)))
                 (insert_at (i + 1) (sp_right_count sp) (<[i := sp_left_count sp]> (br_counts b)))
  end.

Lemma regrown_forest md tx d b ss lo hi bs1 b0 b0' bs2 s nd split fp es :
  bounds lo (k_bytes <$> br_keys b) hi = bs1 ++ b0 :: b0' :: bs2 ->
  br_children b = s_child <$> ss -> br_counts b = s_count <$> ss -> ss !! length bs1 = Some s ->
  forest (tree_at md tx d) (take (length bs1) ss) (bs1 ++ [b0]) ->
  forest (tree_at md tx d) (drop (S (length bs1)) ss) (b0' :: bs2) ->
  bound_lt b0 b0' -> spread md tx d b0 b0' fp es nd split ->
  let grown := regrown b (length bs1) nd (len es) split in
  exists ss', forest (tree_at md tx d) ss' (bounds lo (k_bytes <$> br_keys grown) hi) /\
    br_children grown = s_child <$> ss' /\ br_counts grown = s_count <$> ss' /\
    forest_es ss' = forest_es (take (length bs1) ss) ++ es ++ forest_es (drop (S (length bs1)) ss) /\
    forest_fp ss' = forest_fp (take (length bs1) ss) ++ fp ++ forest_fp (drop (S (length bs1)) ss) /\
    (length ss <= length ss')%nat.
Proof.
  intros E Hch Hco Hs H1 H2 Hlt Hsp. set (i := length bs1) in *. pose proof (lookup_lt_Some _ _ _ Hs) as Hi.
  assert (length (take i ss) = length bs1) as Hti by (rewrite length_take; lia).
  assert (br_children b !! i = Some (s_child s)) as Hci by (by rewrite Hch, list_lookup_fmap, Hs).
  assert (br_counts b !! i = Some (s_count s)) as Hcn by (by rewrite Hco, list_lookup_fmap, Hs).
  destruct split as [sp|]; cbn [regrown spread] in *.
  - destruct Hsp as (fp1 & fp2 & es1 & es2 & -> & -> & Ht1 & Ht2 & Hc1 & Hc2 & Hb1 & Hb2).
    exists (take i ss ++ mkSlot nd (len es1) fp1 es1 :: mkSlot (sp_right sp) (len es2) fp2 es2 :: drop (S i) ss).
    cbn [br_keys br_children br_counts]. rewrite (insert_slot_after _ _ _ _ _ Hci), (insert_slot_after _ _ _ _ _ Hcn), Hc1, Hc2.
    split_and!.
    + replace (k_bytes <$> insert_at i (sp_sep sp) (br_keys b)) with (insert_at i (k_bytes (sp_sep sp)) (k_bytes <$> br_keys b))
        by (unfold insert_at; by rewrite fmap_app, fmap_cons, fmap_take, fmap_drop).
      unfold i. rewrite (bounds_insert _ _ _ _ _ _ _ _ E). apply forest_app; [done|]. split; [done|]. by repeat constructor.
    + by rewrite fmap_app, !fmap_cons, fmap_take, fmap_drop, Hch.
    + by rewrite fmap_app, !fmap_cons, fmap_take, fmap_drop, Hco.
    + rewrite forest_es_app, !forest_es_cons. cbn [s_es]. by rewrite <- app_assoc.
    + rewrite forest_fp_app, !forest_fp_cons. cbn [s_fp]. by rewrite <- app_assoc.
    + rewrite length_app, length_take. cbn [length]. rewrite length_drop. lia.
  - exists (take i ss ++ mkSlot nd (len es) fp es :: drop (S i) ss). cbn [br_keys br_children br_counts].
    rewrite (insert_slot _ _ _ _ Hci), (insert_slot _ _ _ _ Hcn). split_and!.
    + rewrite E. apply forest_app; [done|]. split; [done|]. by constructor.
    + by rewrite fmap_app, !fmap_cons, fmap_take, fmap_drop, Hch.
    + by rewrite fmap_app, !fmap_cons, fmap_take, fmap_drop, Hco.
    + by rewrite forest_es_app, !forest_es_cons.
    + by rewrite forest_fp_app, !forest_fp_cons.
    + rewrite length_app, length_take. cbn [length]. rewrite length_drop. lia.
Qed.

Lemma forest_es_length md tx d ss bs : forest (tree_at md tx d) ss bs -> (length ss <= length (forest_es ss))%nat.
Proof.
  induction 1 as [|s ss b b' bs HP Hc Hb Hf IH]; [cbn; lia|]. rewrite forest_es_cons, length_app. cbn [length].
  apply tree_at_size in HP. pose proof (Nat.pow_nonzero 2 d ltac:(lia)). lia.
Qed.

Lemma grow_branch_Ok b ss i s nd replaced split n :
  br_children b = s_child <$> ss -> br_counts b = s_count <$> ss -> (length ss = S (length (br_keys b)))%nat ->
  ss !! i = Some s -> 0 <= s_count s < u64_max -> n = s_count s + (if replaced is None then 1 else 0) ->
  grow_branch b i nd replaced split = Ok (regrown b i nd n split).
Proof.
  intros Hch Hco Hl Hs Hc ->. pose proof (lookup_lt_Some _ _ _ Hs) as Hi.
  assert (length (br_children b) = length ss) as Hlc by (by rewrite Hch, length_fmap).
  assert (length (br_counts b) = length ss) as Hlo by (by rewrite Hco, length_fmap).
  assert (br_counts b !! i = Some (s_count s)) as Hci by (by rewrite Hco, list_lookup_fmap, Hs).
  unfold grow_branch. rewrite vec_set_Ok by lia. cbn [rbind].
  replace (match replaced with Some _ => _ | None => _ end)
    with (Ok (<[i := s_count s + (if replaced is None then 1 else 0)]> (br_counts b))).
  2:{ destruct replaced; [rewrite Z.add_0_r; by rewrite list_insert_id|]. rewrite Hci. cbn [unwrap rbind].
      by rewrite vec_set_Ok, add64_small by lia. }
  cbn [rbind]. destruct split as [sp|]; [|done]. rewrite vec_set_Ok by (rewrite length_insert; lia). cbn [rbind].
  rewrite list_insert_insert_eq, vec_insert_Ok by lia. cbn [rbind]. rewrite !vec_insert_Ok by (rewrite length_insert; lia). done.
Qed.

(** Following a key from a branch, now in the arena at [idx], into its child [s]. *)
Record descent (md : mode) (tx tx1 : Tx) (d : nat) (c : Child) (b : Branch) (ss : list slot) (lo hi : bound) (key : bytes)
    (idx : nat) (s : slot) (bs1 : list bound) (b0 b0' : bound) (bs2 : list bound) : Prop := {
  de_dirty : make_dirty c tx = (Ok idx, tx1);
  de_node : tx_nodes tx1 !! idx = Some (NBranch b);
  de_evolves : evolves tx tx1 (own c ++ forest_fp ss) (idx :: forest_fp ss);
  de_index : child_index (br_keys b) key = length bs1;
  de_bounds : bounds lo (k_bytes <$> br_keys b) hi = bs1 ++ b0 :: b0' :: bs2;
  de_slot : ss !! length bs1 = Some s;
  de_child : tree_at md tx1 d (s_child s) b0 b0' (s_fp s) (s_es s);
  de_count : s_count s = len (s_es s);
  de_lt : bound_lt b0 b0';
  de_above : above b0 key;
  de_under : under b0' key;
  de_left : forest (tree_at md tx1 d) (take (length bs1) ss) (bs1 ++ [b0]);
  de_right : forest (tree_at md tx1 d) (drop (S (length bs1)) ss) (b0' :: bs2);
  de_keys_left : keys_lt (forest_es (take (length bs1) ss)) key;
  de_keys_right : keys_gt (forest_es (drop (S (length bs1)) ss)) key;
  de_owned : owned tx1 (s_fp s ++ idx :: forest_fp (take (length bs1) ss) ++ forest_fp (drop (S (length bs1)) ss));
}.

Lemma slot_perm (ss : list slot) i s idx :
  ss !! i = Some s -> idx :: forest_fp ss ≡ₚ s_fp s ++ idx :: forest_fp (take i ss) ++ forest_fp (drop (S i) ss).
Proof.
  intros Hs. rewrite <- (take_drop_middle ss i s Hs) at 1. rewrite forest_fp_app, forest_fp_cons.
  by rewrite <- Permutation_middle, !app_assoc, (Permutation_app_comm (forest_fp (take i ss))).
Qed.

Lemma descend md tx d c b ss lo hi key :
  node tx c = Ok (NBranch b) -> forest (tree_at md tx d) ss (bounds lo (k_bytes <$> br_keys b) hi) ->
  owned tx (own c ++ forest_fp ss) -> above lo key -> under hi key ->
  exists tx1 idx s bs1 b0 b0' bs2, descent md tx tx1 d c b ss lo hi key idx s bs1 b0 b0' bs2.
Proof.
  intros Hn Hf Ho Hlo Hhi. destruct (make_dirty_spec tx c _ Hn) as (idx & tx1 & Hmd & Hn1 & Hev1).
  pose proof (evolves_app _ _ _ _ _ Hev1 Ho) as Hev1'. pose proof (evolves_agrees _ _ _ _ _ Hev1 Ho) as Ha1.
  pose proof (forest_frame _ _ _ _ _ _ Hf Ha1) as Hf1.
  destruct (forest_position _ (tree_at_within md tx1 d) _ _ _ _ _ Hf1 Hlo Hhi) as (s & [Hs _ _ Hl Hr Hb]).
  destruct Hb as (bs1 & b0 & b0' & bs2 & E & Hi & HfL & HfR & HP & Hc & Hlt & Hab & Hub). rewrite <- Hi in *.
  exists tx1, idx, s, bs1, b0, b0', bs2. constructor; try done. rewrite <- slot_perm by done. by destruct Hev1'.
Qed.

Lemma ascend md tx tx1 tx2 d c b ss lo hi key idx s bs1 b0 b0' bs2 fp' :
  descent md tx tx1 d c b ss lo hi key idx s bs1 b0 b0' bs2 -> evolves tx1 tx2 (s_fp s) fp' ->
  tx_nodes tx2 !! idx = Some (NBranch b) /\
  forest (tree_at md tx2 d) (take (length bs1) ss) (bs1 ++ [b0]) /\
  forest (tree_at md tx2 d) (drop (S (length bs1)) ss) (b0' :: bs2) /\
  evolves tx tx2 (own c ++ forest_fp ss)
    (idx :: forest_fp (take (length bs1) ss) ++ fp' ++ forest_fp (drop (S (length bs1)) ss)).
Proof.
  intros D Hev. pose proof (de_owned _ _ _ _ _ _ _ _ _ _ _ _ _ _ _ _ D) as Ho.
  pose proof (evolves_agrees _ _ _ _ _ Hev Ho) as Ha. pose proof (evolves_app _ _ _ _ _ Hev Ho) as Hev'. destruct D. split_and!.
  - destruct Ha as [_ Ha]. rewrite Ha; [done|]. left.
  - eapply forest_frame; [done|]. eapply agrees_mono; [exact Ha|]. intros i Hi. right. apply elem_of_app. by left.
  - eapply forest_frame; [done|]. eapply agrees_mono; [exact Ha|]. intros i Hi. right. apply elem_of_app. by right.
  - eapply evolves_trans; [exact de_evolves0|]. rewrite (slot_perm _ _ _ _ de_slot0).
    eapply evolves_perm; [done| |exact Hev'].
    rewrite <- Permutation_middle. constructor. rewrite !app_assoc. by rewrite (Permutation_app_comm fp').
Qed.

Lemma zsum_regrown b i nd n split :
  branch_encoded_len (regrown b i nd n split) <= branch_encoded_len b + SEP_MAX.
Proof.
  unfold branch_encoded_len, SEP_MAX. destruct split as [sp|]; cbn [regrown br_keys]; [|lia].
  rewrite zsum_insert_at. unfold sep_size at 2. pose proof (key_encoded_len_le (sp_sep sp)). lia.
Qed.

(** The rest of [insert_rec] at a branch once its child has been changed. *)
Lemma insert_branch_finish md tx tx1 tx2 d c b ss lo hi key idx s bs1 b0 b0' bs2 fp' es' nd split replaced :
  descent md tx tx1 d c b ss lo hi key idx s bs1 b0 b0' bs2 -> evolves tx1 tx2 (s_fp s) fp' ->
  spread md tx2 d b0 b0' fp' es' nd split -> br_children b = s_child <$> ss -> br_counts b = s_count <$> ss ->
  (2 <= length ss)%nat -> fits md (NBranch b) -> len es' = s_count s + (if replaced is None then 1 else 0) ->
  len (forest_es ss) < u64_max ->
  let es2 := forest_es (take (length bs1) ss) ++ es' ++ forest_es (drop (S (length bs1)) ss) in
  exists grown tx3 split' tx4 fp4, get_node idx tx2 = (Ok (NBranch b), tx2) /\
    grow_branch b (length bs1) nd replaced split = Ok grown /\ put_node idx (NBranch grown) tx2 = (Ok tt, tx3) /\
    split_if_full idx (NBranch grown) tx3 = (Ok split', tx4) /\ evolves tx tx4 (own c ++ forest_fp ss) fp4 /\
    spread md tx4 (S d) lo hi fp4 es2 (Dirty idx) split'.
Proof.
  intros D Hev2 Hsp Hch Hco H2 Hfit Hlen' Hmax es2. destruct (ascend _ _ _ _ _ _ _ _ _ _ _ _ _ _ _ _ _ _ D Hev2) as (Hn2 & HfL & HfR & Hev).
  pose proof (de_slot _ _ _ _ _ _ _ _ _ _ _ _ _ _ _ _ D) as Hs.
  assert (length ss = S (length (br_keys b))) as Hl.
  { pose proof (f_equal length (de_bounds _ _ _ _ _ _ _ _ _ _ _ _ _ _ _ _ D)) as E. unfold bounds in E. cbn [length] in E.
    rewrite !length_app, !length_fmap in E. cbn in E.
    pose proof (forest_length _ _ _ (de_right _ _ _ _ _ _ _ _ _ _ _ _ _ _ _ _ D)) as E'. cbn in E'. rewrite length_drop in E'.
    pose proof (lookup_lt_Some _ _ _ Hs). lia. }
  assert (len (forest_es ss) = len (forest_es (take (length bs1) ss)) + s_count s + len (forest_es (drop (S (length bs1)) ss))) as Hlen.
  { rewrite <- (take_drop_middle ss _ s Hs) at 1. rewrite forest_es_app, forest_es_cons, !len_app.
    rewrite (de_count _ _ _ _ _ _ _ _ _ _ _ _ _ _ _ _ D). lia. }
  pose proof (len_nonneg (forest_es (take (length bs1) ss))). pose proof (len_nonneg (forest_es (drop (S (length bs1)) ss))).
  pose proof (len_nonneg (s_es s)). assert (0 <= s_count s < u64_max) as Hcount.
  { rewrite (de_count _ _ _ _ _ _ _ _ _ _ _ _ _ _ _ _ D) in *. lia. }
  destruct (regrown_forest md tx2 d b ss lo hi bs1 b0 b0' bs2 s nd split fp' es') as (ss' & Hf' & Hch' & Hco' & Ees' & Efp' & Hlen'');
    try done; [by destruct D|by destruct D|].
  pose proof (ev_owned _ _ _ _ Hev) as Ho2. rewrite <- Efp' in Ho2, Hev. set (grown := regrown b (length bs1) nd (len es') split) in *.
  destruct (put_node_spec tx2 idx (NBranch grown)) as (tx3 & Hput & Hn3 & Hev3).
  { by apply (owned_app tx2 [idx]) in Ho2 as [? _]. }
  pose proof (evolves_app _ _ _ _ _ Hev3 Ho2) as Hev3'. pose proof (evolves_agrees _ _ _ _ _ Hev3 Ho2) as Ha3.
  assert (branch_in md tx3 d idx grown ss' lo hi) as Hin by (split_and!; [done|by eapply forest_frame|done|done]).
  assert (len (forest_es ss') <= u64_max) as Hmax'.
  { rewrite Ees', !len_app. destruct replaced; lia. }
  destruct (finish_branch md tx3 d idx grown ss' lo hi) as (split' & tx4 & fp4 & Hrun4 & Hev4 & Hsp4); try done.
  { lia. }
  { by destruct Hev3'. }
  { pose proof (branch_in_length _ _ _ _ _ _ _ _ Hin). pose proof (forest_es_length _ _ _ _ _ Hf'). unfold len in *. lia. }
  { intros E. unfold fits in Hfit. rewrite E in Hfit. cbn [encoded_len] in Hfit. pose proof (zsum_regrown b (length bs1) nd (len es') split).
    unfold grown. lia. }
  exists grown, tx3, split', tx4, fp4. unfold es2. rewrite <- Ees'. split_and!; try done; [by apply get_node_spec| |].
  - eapply grow_branch_Ok; try done.
  - eapply evolves_trans; [exact Hev|]. by eapply evolves_trans.
Qed.

Theorem insert_rec_at md tx d c lo hi fp es k v fuel :
  tree_at md tx d c lo hi fp es -> owned tx fp -> above lo (k_bytes k) -> under hi (k_bytes k) ->
  len v = value_len (md_tree md) -> len es < u64_max -> (d < fuel)%nat ->
  exists idx split tx' fp', insert_rec fuel c k v tx = (Ok (Dirty idx, aget es (k_bytes k), split), tx') /\
    evolves tx tx' fp fp' /\ spread md tx' d lo hi fp' (aset es (k_bytes k) v) (Dirty idx) split.
Proof.
  intros Ht Ho Hlo Hhi Hv Hmax Hfuel. revert tx c lo hi fp es fuel Ht Ho Hlo Hhi Hmax Hfuel; induction d as [|d IH];
    intros tx c lo hi fp es fuel (n & Hn & Hfit & Ht) Ho Hlo Hhi Hmax Hfuel; destruct n as [l|b]; try done;
    (destruct fuel as [|fuel]; [lia|]).
  - destruct Ht as (Hw & Hvs & -> & Hne & Hs & Hin & ->).
    destruct (make_dirty_spec tx c _ Hn) as (idx & tx1 & Hmd & Hn1 & Hev1).
    destruct (insert_rec_leaf md c k v fuel tx idx tx1 l lo hi) as (split & tx' & fp' & Hrun & Hev & Hsp); try done.
    { by destruct Hev1. }
    exists idx, split, tx', fp'. split_and!; [done|by eapply evolves_trans|done].
  - destruct Ht as (ss & Hf & Hch & Hco & H2 & -> & ->).
    destruct (descend md tx d c b ss lo hi (k_bytes k) Hn Hf Ho Hlo Hhi) as (tx1 & idx & s & bs1 & b0 & b0' & bs2 & D).
    pose proof D as [Hdirty Hnode _ Hindex _ Hs Hchild Hcnt _ Hab Hub _ _ HkL HkR Howned].
    pose proof (take_drop_middle ss _ s Hs) as Ess. pose proof (f_equal forest_es Ess) as Ees. rewrite forest_es_app, forest_es_cons in Ees.
    pose proof (f_equal len Ees) as Hlen. rewrite !len_app in Hlen.
    pose proof (len_nonneg (forest_es (take (length bs1) ss))). pose proof (len_nonneg (forest_es (drop (S (length bs1)) ss))).
    destruct (IH tx1 (s_child s) b0 b0' (s_fp s) (s_es s) fuel) as (idx' & split & tx2 & fp' & Hrun & Hev2 & Hsp);
      [done|by apply owned_app in Howned as [? _]|done|done|lia|lia|].
    destruct (insert_branch_finish md tx tx1 tx2 d c b ss lo hi (k_bytes k) idx s bs1 b0 b0' bs2 fp' _ (Dirty idx') split
      (aget (s_es s) (k_bytes k)) D Hev2 Hsp) as (grown & tx3 & split' & tx4 & fp4 & Hget & Hgrow & Hput & Hfull & Hev & Hsp4); try done.
    { unfold len in *. rewrite aset_length, Hcnt. destruct (aget _ _); lia. }
    exists idx, split', tx4, fp4. rewrite <- Ees, (aget_mid (forest_es _)), (aset_mid (forest_es _)) by done. split_and!; try done.
    cbn [insert_rec]. sstep Hdirty. sstep (get_node_spec _ _ _ Hnode). rewrite Hindex, Hch, list_lookup_fmap, Hs. cbn [fmap option_fmap option_map unwrap].
    slifted. sstep Hrun. sstep Hget. rewrite Hgrow. slifted. sstep Hput. by sstep Hfull.
Qed.

End Insert.

(** ** A transaction and its two trees *)

Definition upd (f : Tree -> entries) (t : Tree) (es : entries) : Tree -> entries :=
  fun t' => match t, t' with Score, Score | Member, Member => es | _, _ => f t' end.
Definition other (t : Tree) : Tree := match t with Score => Member | Member => Score end.

Lemma upd_eq f t es : upd f t es t = es.
Proof. by destruct t. Qed.
Lemma upd_other f t es : upd f t es (other t) = f (other t).
Proof. by destruct t. Qed.

Section Roots.
Context {C : Crc32fast}.

(** The tree under a root, [EMPTY] for no entries. *)
Definition tree_under (fit : bool) (tx : Tx) (t : Tree) (c : Child) (fp : list nat) (es : entries) : Prop :=
  (c = EMPTY /\ fp = [] /\ es = []) \/ exists d, tree_at (mkMode fit t) tx d c None None fp es.

(** The transaction holds the entries [f], in trees that share no node. *)
Definition tx_repr (fit : bool) (tx : Tx) (f : Tree -> entries) : Prop :=
  exists fps : Tree -> list nat, (forall t, tree_under fit tx t (root tx t) (fps t) (f t)) /\ owned tx (fps Score ++ fps Member).

Lemma tree_at_not_empty md tx d c lo hi fp es : tree_at md tx d c lo hi fp es -> c <> EMPTY /\ es <> [].
Proof.
  intros H. split.
  - intros ->. destruct d; destruct H as (n & Hn & _); done.
  - intros ->. apply tree_at_size in H. cbn in H. pose proof (Nat.pow_nonzero 2 d ltac:(lia)). lia.
Qed.

Lemma tree_under_sorted fit tx t c fp es : tree_under fit tx t c fp es -> asorted es.
Proof. intros [(_ & _ & ->)|[d H]]; [constructor|by eapply tree_at_sorted]. Qed.
Lemma tx_repr_sorted fit tx f t : tx_repr fit tx f -> asorted (f t).
Proof. intros (fps & H & _). by eapply tree_under_sorted. Qed.

Lemma tree_under_frame fit tx tx' t c fp es : tree_under fit tx t c fp es -> agrees tx tx' fp -> tree_under fit tx' t c fp es.
Proof. intros [?|[d H]] Ha; [by left|]. right. exists d. by eapply tree_at_frame. Qed.

Lemma get_repr fit tx f t key : tx_repr fit tx f -> len (f t) <= u64_max -> get tx t key = Ok (aget (f t) key).
Proof.
  intros (fps & H & _) Hmax. unfold get. destruct (H t) as [(-> & _ & ->)|[d Ht]].
  - by rewrite decide_True.
  - rewrite decide_False by (by apply tree_at_not_empty in Ht as [? _]). eapply get_loop_at; try done.
    pose proof (tree_at_depth _ _ _ _ _ _ _ _ Ht Hmax). unfold DEPTH. lia.
Qed.

Lemma rank_repr fit tx f t key :
  tx_repr fit tx f -> len (f t) <= u64_max -> rank tx t key = Ok (Z.of_nat (arank (f t) key)).
Proof.
  intros (fps & H & _) Hmax. unfold rank. destruct (H t) as [(-> & _ & ->)|[d Ht]].
  - by rewrite decide_True.
  - rewrite decide_False by (by apply tree_at_not_empty in Ht as [? _]).
    pose proof (tree_at_depth _ _ _ _ _ _ _ _ Ht Hmax).
    erewrite rank_loop_at; [|exact Ht|done|done|unfold DEPTH; lia|lia|lia]. f_equal.
Qed.

Lemma range_repr fit tx f t start end_ :
  tx_repr fit tx f -> len (f t) <= u64_max -> u64_ok start -> u64_ok end_ ->
  range tx t start end_ = Ok (zslice (f t) start end_).
Proof.
  intros (fps & H & _) Hmax [? ?] [? ?]. unfold range. destruct (H t) as [(-> & _ & ->)|[d Ht]].
  - rewrite decide_True by done. unfold zslice. by rewrite zdrop_nil, ztake_nil.
  - rewrite decide_False by (by apply tree_at_not_empty in Ht as [? _]).
    pose proof (tree_at_depth _ _ _ _ _ _ _ _ Ht Hmax).
    destruct (Z.ltb_spec start end_); [eapply range_rec_at; try done; [unfold DEPTH; lia|lia]|].
    unfold zslice. by rewrite ztake_0 by lia.
Qed.

Lemma begin_repr fit file base f :
  (forall t, tree_under fit (begin file base) t (root (begin file base) t) [] (f t)) -> tx_repr fit (begin file base) f.
Proof. intros H. exists (fun _ => []). split; [done|]. split; [constructor|constructor]. Qed.

(** A new root for a spread node. *)
Lemma new_root_spec fit tx t d fp es nd split :
  spread (mkMode fit t) tx d None None fp es nd split -> owned tx fp ->
  exists r tx' fp', (match split with
     | None => sret nd
     | Some split => push (NBranch (mkBranch [sp_sep split] [nd; sp_right split] [sp_left_count split; sp_right_count split]))
     end) tx = (Ok r, tx') /\ evolves tx tx' fp fp' /\ exists d', tree_at (mkMode fit t) tx' d' r None None fp' es.
Proof.
  intros Hsp Ho. destruct split as [sp|]; cbn [spread] in Hsp.
  2:{ exists nd, tx, fp. split; [done|]. split; [by apply evolves_refl|]. by exists d. }
  destruct Hsp as (fp1 & fp2 & es1 & es2 & -> & -> & H1 & H2 & Hc1 & Hc2 & Hb1 & Hb2). cbn zeta in *.
  set (b := mkBranch [sp_sep sp] [nd; sp_right sp] [sp_left_count sp; sp_right_count sp]).
  destruct (push_spec tx (NBranch b)) as (r & tx' & Hpush & Hn & Hev).
  pose proof (evolves_app _ _ _ _ _ Hev Ho) as Hev'. pose proof (evolves_agrees _ _ _ _ _ Hev Ho) as Ha.
  exists (Dirty r), tx', (r :: fp1 ++ fp2). split; [done|]. split; [done|]. exists (S d).
  set (ss := [mkSlot nd (len es1) fp1 es1; mkSlot (sp_right sp) (len es2) fp2 es2]).
  replace (fp1 ++ fp2) with (forest_fp ss) by (unfold forest_fp; cbn; by rewrite app_nil_r).
  replace (es1 ++ es2) with (forest_es ss) by (unfold forest_es; cbn; by rewrite app_nil_r).
  eapply (branch_tree_at _ _ _ _ b); [|cbn; lia|].
  - split_and!; [done| |done|cbn; by rewrite Hc1, Hc2]. cbn [b br_keys fmap list_fmap bounds app]. apply forest_cons; [|done|done|].
    + eapply tree_at_frame; [exact H1|]. eapply agrees_mono; [exact Ha|]. intros. apply elem_of_app. by left.
    + apply forest_cons; [|done|done|constructor]. eapply tree_at_frame; [exact H2|]. eapply agrees_mono; [exact Ha|].
      intros. apply elem_of_app. by right.
  - unfold fits. cbn [md_fit]. destruct fit; [|done]. cbn. pose proof (key_encoded_len_le (sp_sep sp)).
    unfold branch_encoded_len, PAGE_HEADER, PAGE_SIZE, sep_size. cbn. lia.
Qed.

(** Making a mutated tree the root of [t]. *)
Lemma set_root_repr fit tx tx' t f (fps : Tree -> list nat) fp' r es :
  (forall t, tree_under fit tx t (root tx t) (fps t) (f t)) -> owned tx (fps t ++ fps (other t)) ->
  evolves tx tx' (fps t) fp' -> tree_under fit tx' t r fp' es ->
  exists tx2, set_root t r tx' = (Ok tt, tx2) /\ tx_repr fit tx2 (upd f t es) /\
    tx_file tx2 = tx_file tx /\ tx_base tx2 = tx_base tx /\ tx_count tx2 = tx_count tx /\ tx_log tx2 = tx_log tx.
Proof.
  intros H Ho Hev Hr. pose proof (evolves_app _ _ _ _ _ Hev Ho) as Hev'. pose proof (evolves_agrees _ _ _ _ _ Hev Ho) as Ha.
  pose proof (ev_owned _ _ _ _ Hev') as Ho'. pose proof (tree_under_frame _ _ _ _ _ _ _ (H (other t)) Ha) as Hoth.
  set (tx2 := snd (set_root t r tx')). exists tx2. split; [done|]. pose proof Hev as [? ? Hroots ? ?]. split_and!; try done.
  assert (forall fp, agrees tx' tx2 fp) as Hsame by (intros; split; done).
  exists (fun t' => if decide (t' = t) then fp' else fps (other t)). split.
  - intros t'. assert (root tx2 t = r) as E1 by (by destruct t). assert (root tx2 (other t) = root tx (other t)) as E2.
    { unfold tx2. destruct t; cbn; by rewrite Hroots. }
    assert (t' = t \/ t' = other t) as [-> | ->] by (destruct t, t'; auto).
    + rewrite decide_True, upd_eq, E1 by done. by eapply tree_under_frame.
    + rewrite decide_False, upd_other, E2 by (by destruct t). by eapply tree_under_frame.
  - assert (owned tx2 (fp' ++ fps (other t))) as Ho2 by exact Ho'. destruct t; cbn; [exact Ho2|].
    by rewrite Permutation_app_comm.
Qed.

Lemma make_dirty_empty tx :
  exists i tx', make_dirty EMPTY tx = (Ok i, tx') /\ tx_nodes tx' !! i = Some (NLeaf (mkLeaf [] [])) /\ evolves tx tx' [] [i].
Proof.
  destruct (push_spec tx (NLeaf (mkLeaf [] []))) as (i & tx' & Hpush & Hn & Hev). injection Hpush as Hi Htx.
  exists i, tx'. split; [by rewrite <- Hi, <- Htx|]. done.
Qed.

(** Both cases of the root. *)
Lemma insert_root_at fit tx t c fp es key v :
  tree_under fit tx t c fp es -> owned tx fp -> len v = value_len t -> len es < u64_max ->
  exists idx split tx' fp' d, insert_rec DEPTH c (key_new key) v tx = (Ok (Dirty idx, aget es key, split), tx') /\
    evolves tx tx' fp fp' /\ spread (mkMode fit t) tx' d None None fp' (aset es key v) (Dirty idx) split.
Proof.
  intros [(-> & -> & ->)|[d Ht]] Ho Hv Hmax.
  - destruct (make_dirty_empty tx) as (idx & tx1 & Hmd & Hn & Hev).
    destruct (insert_rec_leaf (mkMode fit t) EMPTY (key_new key) v 64 tx idx tx1 (mkLeaf [] []) None None)
      as (split & tx' & fp' & Hrun & Hev' & Hsp); try done.
    + split_and!; [done|done|constructor|constructor|constructor].
    + by destruct Hev.
    + unfold fits. by destruct (md_fit _).
    + exists idx, split, tx', fp', 0%nat. split_and!; [done|by eapply evolves_trans|done].
  - pose proof (tree_at_depth _ _ _ _ _ _ _ _ Ht ltac:(lia)).
    destruct (insert_rec_at (mkMode fit t) tx d c None None fp es (key_new key) v DEPTH) as (idx & split & tx' & fp' & H');
      [done|done|done|done|done|done|unfold DEPTH; lia|]. by exists idx, split, tx', fp', d.
Qed.

Lemma owned_both tx (fps : Tree -> list nat) t : owned tx (fps Score ++ fps Member) -> owned tx (fps t ++ fps (other t)).
Proof. destruct t; cbn; [done|]. by rewrite Permutation_app_comm. Qed.

(** What every operation on the trees leaves alone. *)
Definition same_header (tx tx' : Tx) : Prop :=
  tx_file tx' = tx_file tx /\ tx_base tx' = tx_base tx /\ tx_count tx' = tx_count tx /\ tx_log tx' = tx_log tx.

Lemma insert_repr fit tx f t key v :
  tx_repr fit tx f -> len v = value_len t -> len (f t) < u64_max ->
  exists tx', insert t key v tx = (Ok (aget (f t) key), tx') /\ tx_repr fit tx' (upd f t (aset (f t) key v)) /\ same_header tx tx'.
Proof.
  intros (fps & H & Ho) Hv Hmax. apply (owned_both _ _ t) in Ho.
  destruct (insert_root_at fit tx t (root tx t) (fps t) (f t) key v) as (idx & split & tx1 & fp1 & d & Hrun & Hev1 & Hsp);
    [done|by apply owned_app in Ho as [? _]|done|done|].
  destruct (new_root_spec fit tx1 t d fp1 _ _ split Hsp) as (r & tx2 & fp2 & Hroot & Hev2 & d' & Ht); [by destruct Hev1|].
  destruct (set_root_repr fit tx tx2 t f fps fp2 r (aset (f t) key v)) as (tx3 & Hset & Hrep & Hsame); [done|done| | |].
  - by eapply evolves_trans.
  - right. by exists d'.
  - exists tx3. split; [|done]. unfold insert. sstep Hrun. sstep Hroot. by sstep Hset.
Qed.

End Roots.
