(* ===== verification/ZsetTreeRemove.v ===== *)
(** * Removal from the trees

    Below the root a removal may leave a leaf empty or a branch with one child; the
    parent's [rebalance] drops the former and merges the latter into a sibling, and
    [hand_over] does the same for the root.  [lean] describes such a node.  [remove] is
    shown to act as [adel] on the entries of the tree. *)

From Stdlib Require Import ZArith Lia Sorting.Sorted.
From S2P Require Import Prelude Bytes Crc IoBackend F64 ZsetFormat Assoc ZsetNode ZsetStore ZsetTree ZsetTreeProof ZsetTreeInsert.

(** ** Wider bounds *)

Definition below_lo (lo' lo : bound) : Prop :=
  (forall k, above lo k -> above lo' k) /\ (forall b, bound_lt lo b -> bound_lt lo' b).
Definition beyond_hi (hi hi' : bound) : Prop :=
  (forall k, under hi k -> under hi' k) /\ (forall b, bound_lt b hi -> bound_lt b hi').

Lemma below_lo_refl lo : below_lo lo lo.
Proof. by split. Qed.
Lemma beyond_hi_refl hi : beyond_hi hi hi.
Proof. by split. Qed.
Lemma below_lo_lt lo s : bound_lt lo (Some s) -> below_lo lo (Some s).
Proof.
  intros H. split; [intros k; by apply (above_trans lo (Some s))|].
  intros [b|]; destruct lo as [l|]; cbn in *; try done. intros. by eapply bytes_lt_trans.
Qed.
Lemma beyond_hi_lt hi s : bound_lt (Some s) hi -> beyond_hi (Some s) hi.
Proof.
  intros H. split; [intros k; by apply (under_trans hi (Some s))|].
  intros [b|]; destruct hi as [h|]; cbn in *; try done. intros. by eapply bytes_lt_trans.
Qed.

Lemma forest_widen (P : Child -> bound -> bound -> list nat -> entries -> Prop) ss lo lo' mid hi hi' :
  (forall c a a' b b' fp es, P c a b fp es -> below_lo a' a -> beyond_hi b b' -> P c a' b' fp es) ->
  forest P ss (lo :: mid ++ [hi]) -> ss <> [] -> below_lo lo' lo -> beyond_hi hi hi' -> forest P ss (lo' :: mid ++ [hi']).
Proof.
  intros HP. revert lo lo' mid; induction ss as [|s ss IH]; intros lo lo' mid Hf Hne Hl Hh; [done|].
  apply forest_cons_inv in Hf as (b & b' & bs & [= <- E] & Hs & Hc & Hb & Hf).
  destruct mid as [|x mid]; cbn [app] in E |- *; injection E as <- <-.
  - destruct ss; [|by apply forest_cons_inv in Hf as (? & ? & ? & ? & _)].
    constructor; [by eapply HP|done| |constructor]. by apply Hl, Hh.
  - constructor; [eapply HP; [done|done|apply beyond_hi_refl]|done|by apply Hl|]. destruct ss.
    + apply forest_nil_inv in Hf as [? E']. by destruct mid.
    + eapply IH; [done|done|apply below_lo_refl|done].
Qed.

Section Lean.
Context {C : Crc32fast}.

Lemma tree_at_widen md tx d c lo lo' hi hi' fp es :
  tree_at md tx d c lo hi fp es -> below_lo lo' lo -> beyond_hi hi hi' -> tree_at md tx d c lo' hi' fp es.
Proof.
  revert c lo lo' hi hi' fp es; induction d as [|d IH]; intros c lo lo' hi hi' fp es (n & Hn & Hf & H) Hl Hh; exists n;
    (split; [done|]); (split; [done|]); destruct n as [l|b]; try done.
  - destruct H as (? & ? & ? & ? & ? & Hin & ?). split_and!; try done. eapply Forall_impl; [exact Hin|]. cbn.
    intros e [? ?]. split; [by apply Hl|by apply Hh].
  - destruct H as (ss & Hfo & ? & ? & H2 & ?). exists ss. split; [|done].
    eapply forest_widen; [|exact Hfo| |done|done]; [by eauto|]. by destruct ss; cbn in H2; [lia|].
Qed.

Definition lean (md : mode) (tx : Tx) (d : nat) (c : Child) (lo hi : bound) (fp : list nat) (es : entries) : Prop :=
  exists n, node tx c = Ok n /\
  match d, n with
  | O, NLeaf l => leaf_wf l /\ leaf_vals md l /\ es = leaf_es l /\ asorted es /\ within lo hi es /\ fp = own c
  | S d, NBranch b =>
      exists ss, forest (tree_at md tx d) ss (bounds lo (k_bytes <$> br_keys b) hi) /\
        br_children b = s_child <$> ss /\ br_counts b = s_count <$> ss /\ fp = own c ++ forest_fp ss /\ es = forest_es ss
  | _, _ => False
  end.

Lemma tree_at_lean md tx d c lo hi fp es : tree_at md tx d c lo hi fp es -> lean md tx d c lo hi fp es.
Proof.
  destruct d; intros (n & Hn & Hf & H); exists n; (split; [done|]); destruct n; try done.
  - destruct H as (? & ? & ? & ? & ? & ? & ?). done.
  - destruct H as (ss & ? & ? & ? & ? & ? & ?). exists ss. done.
Qed.

Lemma lean_order md tx d c lo hi fp es : lean md tx d c lo hi fp es -> within lo hi es /\ asorted es.
Proof.
  destruct d; intros (n & Hn & H); destruct n; try done.
  - destruct H as (? & ? & ? & ? & ? & ?). done.
  - destruct H as (ss & Hf & _ & _ & _ & ->). split.
    + eapply (forest_within (tree_at md tx d)); [apply tree_at_within|exact Hf|apply inner_seps].
    + eapply (forest_sorted (tree_at md tx d)); [apply tree_at_within|apply tree_at_sorted|exact Hf|apply inner_seps].
Qed.

Lemma lean_frame md tx tx' d c lo hi fp es : lean md tx d c lo hi fp es -> agrees tx tx' fp -> lean md tx' d c lo hi fp es.
Proof.
  destruct d; intros (n & Hn & H) Ha; exists n; destruct n as [l|b]; try done.
  - destruct H as (? & ? & ? & ? & ? & ->). by rewrite (node_agrees tx tx').
  - destruct H as (ss & Hf & ? & ? & -> & ?).
    rewrite (node_agrees tx tx') by (eapply agrees_mono; [done|]; intros i Hi; apply elem_of_app; by left).
    split; [done|]. exists ss. split_and!; try done. eapply forest_frame; [done|]. eapply agrees_mono; [done|].
    intros i Hi. apply elem_of_app. by right.
Qed.

(** A lean node that is neither an empty leaf nor smaller than a quarter of a page. *)
Lemma lean_proper md tx d c lo hi fp es n :
  lean md tx d c lo hi fp es -> md_fit md = false -> es <> [] -> node tx c = Ok n -> PAGE_SIZE / 4 <= encoded_len n ->
  tree_at md tx d c lo hi fp es.
Proof.
  intros (n' & Hn' & H) Hfit Hne Hn Hbig. rewrite Hn in Hn'. apply Ok_inj in Hn' as <-.
  destruct d; exists n; (split; [done|]); (split; [unfold fits; by rewrite Hfit|]); destruct n as [l|b]; try done.
  - destruct H as (? & ? & ? & ? & ? & ?). done.
  - destruct H as (ss & Hf & ? & ? & ? & ?). exists ss. split_and!; try done.
    apply forest_length in Hf. unfold bounds in Hf. cbn [length] in Hf. rewrite length_app, !length_fmap in Hf. cbn in Hf.
    cbn [encoded_len] in Hbig. unfold branch_encoded_len, PAGE_SIZE, PAGE_HEADER in Hbig. destruct (br_keys b); cbn in *; [done|lia].
Qed.

End Lean.

(** ** Merging siblings *)

Section Merge.
Context {C : Crc32fast}.

Lemma evolves_drop tx tx' fp fp' more : evolves tx tx' fp fp' -> evolves tx tx' (fp ++ more) fp'.
Proof.
  intros [? ? ? ? ? ? Hk Hn ?]. constructor; try done.
  - intros i Hi Hnot. apply Hk; [done|]. intros H'. apply Hnot, elem_of_app. by left.
  - intros i Hi. destruct (Hn i Hi); [left; apply elem_of_app; by left|by right].
Qed.

(** What the merge of two lean siblings runs through. *)
Definition merges (md : mode) (tx tx' : Tx) (d : nat) (cl cr : Child) (sep : Key) (lo hi : bound) (fp fp' : list nat)
    (es : entries) (li : nat) (split : option Split) : Prop :=
  exists nl nr merged tx1 tx2, make_dirty cl tx = (Ok li, tx1) /\ node tx1 cr = Ok nr /\ tx_nodes tx1 !! li = Some nl /\
    merge_nodes nl nr sep = Ok merged /\ put_node li merged tx1 = (Ok tt, tx2) /\ split_if_full li merged tx2 = (Ok split, tx') /\
    evolves tx tx' fp fp' /\ spread md tx' d lo hi fp' es (Dirty li) split.

Lemma merge_sorted lo mid hi (a b : entries) :
  within lo (Some mid) a -> within (Some mid) hi b -> asorted a -> asorted b -> asorted (a ++ b).
Proof.
  intros Ha Hb Hsa Hsb. apply asorted_app. split_and!; [done|done|]. eapply Forall_impl; [exact Hb|]. cbn. intros e [He _].
  eapply Forall_impl; [exact Ha|]. cbn. intros e' [_ He']. by eapply bytes_lt_le_trans.
Qed.

Lemma merge_within lo mid hi (a b : entries) :
  within lo (Some mid) a -> within (Some mid) hi b -> bound_lt lo (Some mid) -> bound_lt (Some mid) hi -> within lo hi (a ++ b).
Proof.
  intros Ha Hb Hl Hh. apply within_app. split; (eapply Forall_impl; [eassumption|]); cbn; intros e [? ?]; split; try done.
  - by apply (under_trans hi (Some mid)).
  - by apply (above_trans lo (Some mid)).
Qed.

Lemma own_evolves tx tx' c i fp : evolves tx tx' (own c) [i] -> owned tx (own c ++ fp) ->
  evolves tx tx' (own c ++ fp) (i :: fp) /\ agrees tx tx' fp /\ owned tx' (i :: fp).
Proof.
  intros Hev Ho. pose proof (evolves_app _ _ _ _ _ Hev Ho) as Hev'. split; [done|]. split; [exact (evolves_agrees _ _ _ _ _ Hev Ho)|by destruct Hev'].
Qed.

Lemma merge_leaves md tx cl cr sep lo hi fpl fpr esl esr :
  lean md tx 0 cl lo (Some (k_bytes sep)) fpl esl -> lean md tx 0 cr (Some (k_bytes sep)) hi fpr esr ->
  owned tx (fpl ++ fpr) -> md_fit md = false -> bound_lt lo (Some (k_bytes sep)) -> bound_lt (Some (k_bytes sep)) hi ->
  esl ++ esr <> [] -> len (esl ++ esr) <= u64_max ->
  exists tx' fp' li split, merges md tx tx' 0 cl cr sep lo hi (fpl ++ fpr) fp' (esl ++ esr) li split.
Proof.
  intros (nl & Hnl & Hl) (nr & Hnr & Hr) Ho Hfit Hb1 Hb2 Hne Hmax. destruct nl as [l|]; [|done]. destruct nr as [r|]; [|done].
  destruct Hl as (Hwl & Hvl & -> & Hsl & Hil & ->). destruct Hr as (Hwr & Hvr & -> & Hsr & Hir & ->).
  destruct (make_dirty_spec tx cl _ Hnl) as (li & tx1 & Hmd & Hn1 & Hev1).
  destruct (own_evolves _ _ _ _ _ Hev1 Ho) as (Hev1' & Ha1 & Ho1).
  set (m := mkLeaf (lf_keys l ++ lf_keys r) (lf_values l ++ lf_values r)).
  assert (leaf_es m = leaf_es l ++ leaf_es r) as Ees by (unfold m; rewrite leaf_es_app by done; by destruct l, r).
  destruct (put_node_spec tx1 li (NLeaf m)) as (tx2 & Hput & Hn2 & Hev2); [by apply (owned_app tx1 [li]) in Ho1 as [? _]|].
  destruct (finish_leaf md tx2 li m lo hi) as (split & tx3 & fp' & Hrun & Hev3 & Hsp).
  - split_and!; [done| |by apply Forall_app|rewrite Ees; by eapply merge_sorted|rewrite Ees; by eapply merge_within].
    unfold leaf_wf in *. cbn. rewrite !length_app. lia.
  - by rewrite Ees.
  - by destruct Hev2.
  - by rewrite Ees.
  - by rewrite Hfit.
  - rewrite Ees in Hsp. exists tx3, fp', li, split, (NLeaf l), (NLeaf r), (NLeaf m), tx1, tx2. split_and!; try done.
    + by rewrite (node_agrees tx tx1).
    + eapply evolves_trans; [exact Hev1'|]. apply (evolves_drop _ _ [li]). by eapply evolves_trans.
Qed.

Lemma bounds_join lo seps1 mid seps2 hi :
  bounds lo (seps1 ++ mid :: seps2) hi = (lo :: (Some <$> seps1)) ++ Some mid :: ((Some <$> seps2) ++ [hi]).
Proof. unfold bounds. rewrite fmap_app, fmap_cons. cbn [app]. by rewrite <- app_assoc. Qed.

Lemma forest_join P s1 s2 lo seps1 mid seps2 hi :
  forest P s1 (bounds lo seps1 (Some mid)) -> forest P s2 (bounds (Some mid) seps2 hi) ->
  forest P (s1 ++ s2) (bounds lo (seps1 ++ mid :: seps2) hi).
Proof.
  intros H1 H2. rewrite bounds_join. apply forest_app; [|done].
  apply forest_length in H1. unfold bounds in H1. cbn [length] in *. rewrite length_app in H1. cbn in H1. lia.
Qed.

Lemma merge_branches md tx d cl cr sep lo hi fpl fpr esl esr :
  lean md tx (S d) cl lo (Some (k_bytes sep)) fpl esl -> lean md tx (S d) cr (Some (k_bytes sep)) hi fpr esr ->
  owned tx (fpl ++ fpr) -> md_fit md = false -> len (esl ++ esr) <= u64_max ->
  exists tx' fp' li split, merges md tx tx' (S d) cl cr sep lo hi (fpl ++ fpr) fp' (esl ++ esr) li split.
Proof.
  intros (nl & Hnl & Hl) (nr & Hnr & Hr) Ho Hfit Hmax. destruct nl as [|l]; [done|]. destruct nr as [|r]; [done|].
  destruct Hl as (s1 & Hf1 & Hch1 & Hco1 & -> & ->). destruct Hr as (s2 & Hf2 & Hch2 & Hco2 & -> & ->).
  destruct (make_dirty_spec tx cl _ Hnl) as (li & tx1 & Hmd & Hn1 & Hev1). rewrite <- app_assoc in Ho.
  destruct (own_evolves _ _ _ _ _ Hev1 Ho) as (Hev1' & Ha1 & Ho1).
  set (m := mkBranch (br_keys l ++ [sep] ++ br_keys r) (br_children l ++ br_children r) (br_counts l ++ br_counts r)).
  destruct (put_node_spec tx1 li (NBranch m)) as (tx2 & Hput & Hn2 & Hev2); [by apply (owned_app tx1 [li]) in Ho1 as [? _]|].
  pose proof (evolves_agrees _ _ _ _ _ Hev2 Ho1) as Ha2. pose proof (evolves_app _ _ _ _ _ Hev2 Ho1) as Hev2'.
  assert (agrees tx tx2 (forest_fp s1 ++ own cr ++ forest_fp s2)) as Ha.
  { destruct Ha1 as [E1 A1], Ha2 as [E2 A2]. split; [congruence|]. intros i Hi. by rewrite A2, A1. }
  assert (forest (tree_at md tx2 d) (s1 ++ s2) (bounds lo (k_bytes <$> br_keys m) hi)) as Hf.
  { cbn [m br_keys]. rewrite fmap_app, fmap_app. cbn [fmap list_fmap app]. apply forest_join.
    - eapply forest_frame; [exact Hf1|]. eapply agrees_mono; [exact Ha|]. intros. rewrite !elem_of_app. by left.
    - eapply forest_frame; [exact Hf2|]. eapply agrees_mono; [exact Ha|]. intros. rewrite !elem_of_app. by right; right. }
  pose proof (forest_es_length _ _ _ _ _ Hf) as Hlen. rewrite <- forest_es_app in Hmax |- *.
  assert (branch_in md tx2 d li m (s1 ++ s2) lo hi) as Hb.
  { split_and!; [done|done| |]; cbn [m br_children br_counts]; by rewrite fmap_app, ?Hch1, ?Hch2, ?Hco1, ?Hco2. }
  pose proof (branch_in_length _ _ _ _ _ _ _ _ Hb) as Hkl.
  assert (li :: forest_fp s1 ++ own cr ++ forest_fp s2 ≡ₚ (li :: forest_fp (s1 ++ s2)) ++ own cr) as Hperm.
  { rewrite forest_fp_app. cbn [app]. constructor. rewrite <- app_assoc. f_equiv. apply Permutation_app_comm. }
  assert (owned tx2 ((li :: forest_fp (s1 ++ s2)) ++ own cr)) as Ho2.
  { rewrite <- Hperm. by destruct Hev2'. }
  destruct (finish_branch md tx2 d li m (s1 ++ s2) lo hi) as (split & tx3 & fp' & Hrun & Hev3 & Hsp); try done.
  - rewrite Hkl. cbn [m br_keys]. rewrite length_app. cbn. lia.
  - by apply owned_app in Ho2 as [? _].
  - unfold len in *. lia.
  - by rewrite Hfit.
  - exists tx3, fp', li, split, (NBranch l), (NBranch r), (NBranch m), tx1, tx2. split_and!; try done.
    + rewrite (node_agrees tx tx1); [done|]. eapply agrees_mono; [exact Ha1|]. intros. rewrite !elem_of_app. by right; left.
    + rewrite <- app_assoc. eapply evolves_trans; [exact Hev1'|]. eapply evolves_trans; [exact Hev2'|].
      rewrite Hperm. by apply evolves_drop.
Qed.

End Merge.

(** ** Rebalancing a branch *)

Lemma bounds_remove lo seps hi bs1 b bs2 j :
  bounds lo seps hi = bs1 ++ b :: bs2 -> length bs1 = S j -> bs2 <> [] -> bounds lo (remove_at j seps) hi = bs1 ++ bs2.
Proof.
  intros E Hl Hne. unfold bounds in E. destruct bs1 as [|x bs1]; [done|]. cbn [app] in E. injection E as -> E. injection Hl as Hl.
  assert (j < length seps)%nat as Hj.
  { apply (f_equal length) in E. rewrite !length_app, length_fmap in E. destruct bs2; [done|]. cbn in E. lia. }
  pose proof (f_equal (take j) E) as E1. pose proof (f_equal (drop (S j)) E) as E2.
  rewrite take_app_le in E1 by (rewrite length_fmap; lia). rewrite take_app_length' in E1 by done.
  rewrite drop_app_le in E2 by (rewrite length_fmap; lia). rewrite (cons_middle b bs1), app_assoc in E2.
  rewrite drop_app_length' in E2 by (rewrite length_app; cbn; lia).
  unfold bounds, remove_at. rewrite fmap_app, fmap_take, fmap_drop, E1, <- app_assoc, E2. done.
Qed.

Lemma bounds_key lo (keys : list Key) hi bs1 b bs2 j :
  bounds lo (k_bytes <$> keys) hi = bs1 ++ b :: bs2 -> length bs1 = S j -> bs2 <> [] ->
  exists sep, keys !! j = Some sep /\ b = Some (k_bytes sep).
Proof.
  intros E Hl Hne. unfold bounds in E. destruct bs1 as [|x bs1]; [done|]. cbn [app] in E. injection E as -> E. injection Hl as Hl.
  assert (j < length keys)%nat as Hj.
  { apply (f_equal length) in E. rewrite !length_app, !length_fmap in E. destruct bs2; [done|]. cbn in E. lia. }
  destruct (lookup_lt_is_Some_2 keys j Hj) as [sep Hsep]. exists sep. split; [done|].
  apply (f_equal (lookup j)) in E. rewrite lookup_app_l in E by (rewrite !length_fmap; lia).
  rewrite !list_lookup_fmap, Hsep in E. rewrite lookup_app_r, Hl, Nat.sub_diag in E by lia. cbn in E. by injection E.
Qed.

Lemma fmap_remove_at {A B : Type} (g : A -> B) i l : g <$> remove_at i l = remove_at i (g <$> l).
Proof. unfold remove_at. by rewrite fmap_app, fmap_take, fmap_drop. Qed.
Lemma forest_fp_nil : forest_fp [] = [].
Proof. done. Qed.

Section Rebalance.
Context {C : Crc32fast}.

(** A branch of which the child [s] at [length bs1] may be lean. *)
Record hinge (md : mode) (tx : Tx) (d idx : nat) (b : Branch) (ss : list slot) (lo hi : bound)
    (bs1 : list bound) (b0 b0' : bound) (bs2 : list bound) (s : slot) : Prop := {
  hi_node : tx_nodes tx !! idx = Some (NBranch b);
  hi_bounds : bounds lo (k_bytes <$> br_keys b) hi = bs1 ++ b0 :: b0' :: bs2;
  hi_slot : ss !! length bs1 = Some s;
  hi_children : br_children b = s_child <$> ss;
  hi_counts : br_counts b = s_count <$> ss;
  hi_two : (2 <= length ss)%nat;
  hi_lean : lean md tx d (s_child s) b0 b0' (s_fp s) (s_es s);
  hi_count : s_count s = len (s_es s);
  hi_lt : bound_lt b0 b0';
  hi_left : forest (tree_at md tx d) (take (length bs1) ss) (bs1 ++ [b0]);
  hi_right : forest (tree_at md tx d) (drop (S (length bs1)) ss) (b0' :: bs2);
  hi_owned : owned tx (idx :: forest_fp ss);
}.

Lemma hinge_keys md tx d idx b ss lo hi bs1 b0 b0' bs2 s :
  hinge md tx d idx b ss lo hi bs1 b0 b0' bs2 s -> length ss = S (length (br_keys b)).
Proof.
  intros H. pose proof (f_equal length (hi_bounds _ _ _ _ _ _ _ _ _ _ _ _ _ H)) as E. unfold bounds in E. cbn [length] in E.
  rewrite !length_app, !length_fmap in E. cbn in E. pose proof (forest_length _ _ _ (hi_right _ _ _ _ _ _ _ _ _ _ _ _ _ H)) as E'.
  cbn in E'. rewrite length_drop in E'. pose proof (lookup_lt_Some _ _ _ (hi_slot _ _ _ _ _ _ _ _ _ _ _ _ _ H)). lia.
Qed.

(** The branch without the child: the separator on one side of it goes too. *)
Lemma drop_child_forest md tx d idx b ss lo hi bs1 b0 b0' bs2 s :
  hinge md tx d idx b ss lo hi bs1 b0 b0' bs2 s -> s_es s = [] ->
  let i := length bs1 in
  exists b', dropped_branch b i = Ok b' /\
    forest (tree_at md tx d) (remove_at i ss) (bounds lo (k_bytes <$> br_keys b') hi) /\
    br_children b' = s_child <$> remove_at i ss /\ br_counts b' = s_count <$> remove_at i ss /\
    forest_es (remove_at i ss) = forest_es ss.
Proof.
  intros H Hes i. pose proof (hinge_keys _ _ _ _ _ _ _ _ _ _ _ _ _ H) as Hk. destruct H as [_ E Hs Hch Hco H2 _ _ Hlt HL HR _].
  fold i in Hs, HL, HR. pose proof (lookup_lt_Some _ _ _ Hs) as Hi.
  set (j := Nat.min (i - 1) (length (br_keys b) - 1)).
  exists (mkBranch (remove_at j (br_keys b)) (remove_at i (br_children b)) (remove_at i (br_counts b))). split_and!.
  - unfold dropped_branch. rewrite !vec_remove_Ok by (rewrite ?Hch, ?Hco, ?length_fmap; lia). cbn [rbind].
    done.
  - cbn [br_keys]. rewrite fmap_remove_at. destruct bs1 as [|x bs1].
    + unfold i in *. cbn [length] in *. replace j with 0%nat by (unfold j; lia). cbn [app] in E.
      assert (bs2 <> []) as Hne.
      { intros ->. apply forest_length in HR. rewrite length_drop in HR. cbn in HR. lia. }
      rewrite (bounds_remove _ _ _ [b0] b0' bs2 0) by (try done). unfold remove_at. rewrite take_0. cbn [app].
      destruct (bounds_key _ _ _ [b0] b0' bs2 0 E) as (sep & _ & ->); [done|done|].
      destruct bs2 as [|y bs2 _] using rev_ind; [done|].
      eapply forest_widen; [intros; by eapply tree_at_widen|exact HR| |by apply below_lo_lt|apply beyond_hi_refl].
      intros E'. apply (f_equal length) in E'. rewrite length_drop in E'. cbn in E'. lia.
    + replace j with (length bs1) by (unfold j, i in *; cbn [length] in *; lia).
      rewrite (bounds_remove _ _ _ (x :: bs1) b0 (b0' :: bs2) (length bs1)) by done.
      destruct (bounds_key _ _ _ (x :: bs1) b0 (b0' :: bs2) (length bs1) E) as (sep & _ & ->); [done|done|].
      unfold remove_at. apply forest_app; [rewrite length_take; unfold i in *; lia|]. split; [|done].
      cbn [app] in HL |- *. eapply forest_widen; [intros; by eapply tree_at_widen|exact HL| |apply below_lo_refl|by apply beyond_hi_lt].
      intros E'. apply (f_equal length) in E'. rewrite length_take in E'. unfold i in E', Hi. cbn [length] in E', Hi. lia.
  - cbn [br_children]. by rewrite Hch, fmap_remove_at.
  - cbn [br_counts]. by rewrite Hco, fmap_remove_at.
  - unfold remove_at. rewrite <- (take_drop_middle ss i s Hs) at 3. by rewrite !forest_es_app, forest_es_cons, Hes.
Qed.

(** Two neighbours, either of which may be lean. *)
Record pair_at (md : mode) (tx : Tx) (d : nat) (b : Branch) (ss : list slot) (lo hi : bound)
    (bsl : list bound) (c0 : bound) (sep : Key) (c2 : bound) (bsr : list bound) (sl sr : slot) : Prop := {
  pr_bounds : bounds lo (k_bytes <$> br_keys b) hi = bsl ++ c0 :: Some (k_bytes sep) :: c2 :: bsr;
  pr_key : br_keys b !! length bsl = Some sep;
  pr_slots : ss = take (length bsl) ss ++ sl :: sr :: drop (S (S (length bsl))) ss;
  pr_len : (S (length bsl) < length ss)%nat;
  pr_lean_l : lean md tx d (s_child sl) c0 (Some (k_bytes sep)) (s_fp sl) (s_es sl);
  pr_lean_r : lean md tx d (s_child sr) (Some (k_bytes sep)) c2 (s_fp sr) (s_es sr);
  pr_count_l : s_count sl = len (s_es sl);
  pr_count_r : s_count sr = len (s_es sr);
  pr_lt_l : bound_lt c0 (Some (k_bytes sep));
  pr_lt_r : bound_lt (Some (k_bytes sep)) c2;
  pr_left : forest (tree_at md tx d) (take (length bsl) ss) (bsl ++ [c0]);
  pr_right : forest (tree_at md tx d) (drop (S (S (length bsl))) ss) (c2 :: bsr);
}.

Lemma hinge_pair md tx d idx b ss lo hi bs1 b0 b0' bs2 s :
  hinge md tx d idx b ss lo hi bs1 b0 b0' bs2 s ->
  exists bsl c0 sep c2 bsr sl sr, pair_at md tx d b ss lo hi bsl c0 sep c2 bsr sl sr /\
    length bsl = (if (0 <? length bs1)%nat then (length bs1 - 1)%nat else length bs1) /\ (s = sl \/ s = sr).
Proof.
  intros [_ E Hs Hch Hco H2 Hlean Hc Hlt HL HR _]. pose proof (lookup_lt_Some _ _ _ Hs) as Hi.
  pose proof (take_drop_middle ss _ s Hs) as Ess. destruct bs1 as [|c0 bsl _] using rev_ind.
  - cbn [length app take] in *. destruct (drop 1 ss) as [|sr RR] eqn:ER.
    { apply (f_equal length) in ER. rewrite length_drop in ER. cbn in ER. lia. }
    assert (drop 2 ss = RR) as E2 by (by rewrite <- Ess; cbn).
    apply forest_cons_inv in HR as (? & c2 & bsr & [= <- ->] & Hsr & Hcr & Hltr & HRR).
    destruct (bounds_key _ _ _ [b0] b0' (c2 :: bsr) 0 E) as (sep & Hsep & ->); [done|done|].
    exists [], b0, sep, c2, bsr, s, sr. split; [|split; [done|by left]]. constructor; try done.
    + cbn [length take app]. by rewrite E2.
    + by apply tree_at_lean.
    + cbn [length]. by rewrite E2.
  - rewrite length_app in *. cbn [length] in *. set (l := length bsl) in *.
    replace (l + 1)%nat with (S l) in * by lia. destruct (lookup_lt_is_Some_2 ss l ltac:(lia)) as [sl Hsl].
    rewrite (take_S_r _ _ _ Hsl), <- app_assoc in HL. cbn [app] in HL. apply forest_app in HL as [HLL HL]; [|rewrite length_take; lia].
    apply forest_cons_inv in HL as (? & ? & ? & [= <- <- <-] & Hl & Hcl & Hltl & _).
    rewrite <- app_assoc in E. cbn [app] in E.
    destruct (bounds_key lo (br_keys b) hi (bsl ++ [c0]) b0 (b0' :: bs2) l) as (sep & Hsep & ->);
      [by rewrite <- app_assoc|rewrite length_app; cbn; lia|done|].
    exists bsl, c0, sep, b0', bs2, sl, s. split; [|split; [cbn; lia|by right]]. fold l. constructor; try done.
    + fold l. rewrite <- Ess at 1. rewrite (take_S_r _ _ _ Hsl), <- app_assoc. done.
    + by apply tree_at_lean.
Qed.

Lemma insert_mid {A : Type} (l : list A) x y z r : <[length l := z]> (l ++ x :: y :: r) = l ++ z :: y :: r.
Proof. by rewrite insert_app_r_alt, Nat.sub_diag by lia. Qed.
Lemma insert_mid_next {A : Type} (l : list A) x y z r : <[(length l + 1)%nat := z]> (l ++ x :: y :: r) = l ++ x :: z :: r.
Proof. rewrite insert_app_r_alt by lia. by replace (length l + 1 - length l)%nat with 1%nat by lia. Qed.
Lemma remove_mid_next {A : Type} (l : list A) x y r : remove_at (length l + 1) (l ++ x :: y :: r) = l ++ x :: r.
Proof.
  unfold remove_at. rewrite take_app, drop_app, take_ge, drop_ge by lia.
  replace (length l + 1 - length l)%nat with 1%nat by lia. replace (S (length l + 1) - length l)%nat with 2%nat by lia.
  cbn. by rewrite <- app_assoc.
Qed.

Lemma merged_forest md tx' d b (ss L R : list slot) lo hi bsl c0 sep c2 bsr sl sr fp li split :
  bounds lo (k_bytes <$> br_keys b) hi = bsl ++ c0 :: Some (k_bytes sep) :: c2 :: bsr ->
  br_keys b !! length bsl = Some sep -> ss = L ++ sl :: sr :: R -> length L = length bsl ->
  br_children b = s_child <$> ss -> br_counts b = s_count <$> ss ->
  s_count sl = len (s_es sl) -> s_count sr = len (s_es sr) -> len (forest_es ss) <= u64_max -> bound_lt c0 c2 ->
  forest (tree_at md tx' d) L (bsl ++ [c0]) -> forest (tree_at md tx' d) R (c2 :: bsr) ->
  spread md tx' d c0 c2 fp (s_es sl ++ s_es sr) (Dirty li) split ->
  exists b' ss', merged_branch b (length bsl) li split = Ok b' /\
    forest (tree_at md tx' d) ss' (bounds lo (k_bytes <$> br_keys b') hi) /\
    br_children b' = s_child <$> ss' /\ br_counts b' = s_count <$> ss' /\
    forest_es ss' = forest_es ss /\ forest_fp ss' = forest_fp L ++ fp ++ forest_fp R.
Proof.
  intros E Hkey -> Hl Hch Hco Hcl Hcr Hmax Hlt HL HR Hsp. pose proof (lookup_lt_Some _ _ _ Hkey) as Hkl.
  assert (br_children b = (s_child <$> L) ++ s_child sl :: s_child sr :: (s_child <$> R)) as Ech by (by rewrite Hch, fmap_app, !fmap_cons).
  assert (br_counts b = (s_count <$> L) ++ s_count sl :: s_count sr :: (s_count <$> R)) as Eco by (by rewrite Hco, fmap_app, !fmap_cons).
  assert (length bsl = length (s_child <$> L)) as Hi1 by (by rewrite length_fmap).
  assert (length bsl = length (s_count <$> L)) as Hi2 by (by rewrite length_fmap).
  rewrite !forest_es_app, !forest_es_cons, !len_app in Hmax. unfold merged_branch.
  pose proof (len_nonneg (forest_es L)). pose proof (len_nonneg (forest_es R)). pose proof (len_nonneg (s_es sl)). pose proof (len_nonneg (s_es sr)).
  rewrite vec_set_Ok by (rewrite Ech, length_app; cbn; lia). cbn [rbind]. rewrite Ech, Hi1, insert_mid, <- Hi1.
  assert (bounds lo (remove_at (length bsl) (k_bytes <$> br_keys b)) hi = bsl ++ c0 :: c2 :: bsr) as Hrem.
  { rewrite (bounds_remove lo _ hi (bsl ++ [c0]) (Some (k_bytes sep)) (c2 :: bsr));
      [by rewrite <- app_assoc|by rewrite <- app_assoc|rewrite length_app; cbn; lia|done]. }
  destruct split as [sp|]; cbn [spread] in Hsp.
  - destruct Hsp as (fp1 & fp2 & es1 & es2 & -> & Ees & Ht1 & Ht2 & Hc1 & Hc2 & Hb1 & Hb2).
    eexists _, (L ++ mkSlot (Dirty li) (len es1) fp1 es1 :: mkSlot (sp_right sp) (len es2) fp2 es2 :: R).
    rewrite vec_set_Ok by done. cbn [rbind]. rewrite vec_set_Ok by (rewrite length_app; cbn; lia). cbn [rbind].
    rewrite vec_set_Ok by (rewrite Eco, length_app; cbn; lia). cbn [rbind].
    rewrite vec_set_Ok by (rewrite length_insert, Eco, length_app; cbn; lia). cbn [rbind]. split; [done|]. cbn [br_keys br_children br_counts].
    split_and!.
    + rewrite list_fmap_insert, (insert_slot _ _ (k_bytes sep)) by (by rewrite list_lookup_fmap, Hkey).
      apply (bounds_insert _ _ _ _ _ _ _ (k_bytes (sp_sep sp))) in Hrem. unfold insert_at, remove_at in Hrem.
      rewrite take_app_length', drop_app_length' in Hrem by (rewrite length_take, length_fmap; lia). cbn [app] in Hrem. rewrite Hrem.
      apply forest_app; [done|]. split; [done|]. by repeat constructor.
    + rewrite Hi1, insert_mid_next. by rewrite fmap_app, !fmap_cons.
    + rewrite Eco, Hi2, insert_mid, insert_mid_next, Hc1, Hc2. by rewrite fmap_app, !fmap_cons.
    + rewrite !forest_es_app, !forest_es_cons. cbn [s_es]. by rewrite !app_assoc, <- (app_assoc _ (s_es sl)), Ees, !app_assoc.
    + rewrite !forest_fp_app, !forest_fp_cons. cbn [s_fp]. by rewrite !app_assoc.
  - eexists _, (L ++ mkSlot (Dirty li) (len (s_es sl ++ s_es sr)) fp (s_es sl ++ s_es sr) :: R).
    rewrite Eco, lookup_app_r, Hi2, Nat.sub_diag by lia. cbn [lookup list_lookup unwrap rbind].
    rewrite lookup_app_r by lia. replace (length (s_count <$> L) + 1 - length (s_count <$> L))%nat with 1%nat by lia. cbn [lookup list_lookup unwrap rbind].
    rewrite vec_set_Ok by (rewrite length_app; cbn; lia). cbn [rbind]. rewrite vec_remove_Ok by (rewrite length_app, <- Hi1, Hi2; cbn; lia). cbn [rbind].
    rewrite insert_mid, vec_remove_Ok by (rewrite length_app; cbn; lia). cbn [rbind]. rewrite vec_remove_Ok by lia. cbn [rbind].
    split; [done|]. cbn [br_keys br_children br_counts]. split_and!.
    + rewrite fmap_remove_at, <- Hi2, Hrem. apply forest_app; [done|]. split; [done|]. by constructor.
    + rewrite <- Hi2, Hi1, remove_mid_next. by rewrite fmap_app, fmap_cons.
    + rewrite remove_mid_next, Hcl, Hcr, add64_small by lia. rewrite <- len_app. by rewrite fmap_app, fmap_cons.
    + rewrite !forest_es_app, !forest_es_cons. cbn [s_es]. by rewrite <- app_assoc.
    + by rewrite !forest_fp_app, !forest_fp_cons.
Qed.

Lemma get_branch_spec tx idx b : tx_nodes tx !! idx = Some (NBranch b) -> get_branch idx tx = (Ok b, tx).
Proof. intros H. unfold get_branch. by sstep (get_node_spec _ _ _ H). Qed.

(** A branch of the arena whose children are proper is lean. *)
Lemma branch_in_lean md tx d idx b ss lo hi :
  branch_in md tx d idx b ss lo hi -> lean md tx (S d) (Dirty idx) lo hi (idx :: forest_fp ss) (forest_es ss).
Proof. intros (Hn & Hf & Hch & Hco). exists (NBranch b). split; [by apply dirty_node|]. by exists ss. Qed.

(** Writing the branch back over unchanged children. *)
Lemma put_branch_spec md tx d idx b ss lo hi :
  forest (tree_at md tx d) ss (bounds lo (k_bytes <$> br_keys b) hi) ->
  br_children b = s_child <$> ss -> br_counts b = s_count <$> ss -> owned tx (idx :: forest_fp ss) ->
  exists tx', put_node idx (NBranch b) tx = (Ok tt, tx') /\ evolves tx tx' (idx :: forest_fp ss) (idx :: forest_fp ss) /\
    branch_in md tx' d idx b ss lo hi.
Proof.
  intros Hf Hch Hco Ho. destruct (put_node_spec tx idx (NBranch b)) as (tx' & Hput & Hn & Hev).
  { by apply (owned_app tx [idx]) in Ho as [? _]. }
  exists tx'. split; [done|]. split; [exact (evolves_app _ _ _ _ _ Hev Ho)|]. split_and!; [done| |done|done].
  eapply forest_frame; [done|]. exact (evolves_agrees _ _ _ _ _ Hev Ho).
Qed.

Lemma merge_pair md tx d b ss lo hi bsl c0 sep c2 bsr sl sr :
  pair_at md tx d b ss lo hi bsl c0 sep c2 bsr sl sr -> md_fit md = false -> owned tx (s_fp sl ++ s_fp sr) ->
  s_es sl ++ s_es sr <> [] -> len (s_es sl ++ s_es sr) <= u64_max ->
  exists tx' fp' li split, merges md tx tx' d (s_child sl) (s_child sr) sep c0 c2 (s_fp sl ++ s_fp sr) fp' (s_es sl ++ s_es sr) li split.
Proof. intros [] **. destruct d; [by apply merge_leaves|by apply merge_branches]. Qed.

Lemma merge_children_at md tx d idx b ss lo hi bsl c0 sep c2 bsr sl sr :
  pair_at md tx d b ss lo hi bsl c0 sep c2 bsr sl sr -> md_fit md = false -> tx_nodes tx !! idx = Some (NBranch b) ->
  br_children b = s_child <$> ss -> br_counts b = s_count <$> ss -> owned tx (idx :: forest_fp ss) ->
  s_es sl ++ s_es sr <> [] -> len (forest_es ss) <= u64_max ->
  exists tx' fp', merge_children idx (length bsl) b tx = (Ok tt, tx') /\ evolves tx tx' (idx :: forest_fp ss) fp' /\
    lean md tx' (S d) (Dirty idx) lo hi fp' (forest_es ss).
Proof.
  intros P Hfit Hn Hch Hco Ho Hne Hmax. pose proof (pr_slots _ _ _ _ _ _ _ _ _ _ _ _ _ _ P) as Ess.
  set (L := take (length bsl) ss) in *. set (R := drop (S (S (length bsl))) ss) in *.
  assert (length L = length bsl) as HL by (unfold L; rewrite length_take; destruct P; lia).
  assert (idx :: forest_fp ss ≡ₚ (s_fp sl ++ s_fp sr) ++ idx :: forest_fp L ++ forest_fp R) as Hperm.
  { rewrite Ess at 1. rewrite forest_fp_app, !forest_fp_cons. rewrite <- Permutation_middle. constructor.
    by rewrite !app_assoc, <- (app_assoc (forest_fp L)), (Permutation_app_comm (forest_fp L)). }
  rewrite Hperm in Ho. assert (len (s_es sl ++ s_es sr) <= u64_max) as Hmax'.
  { rewrite Ess, forest_es_app, !forest_es_cons, !len_app in Hmax. rewrite len_app.
    pose proof (len_nonneg (forest_es L)). pose proof (len_nonneg (forest_es R)). lia. }
  destruct (merge_pair _ _ _ _ _ _ _ _ _ _ _ _ _ _ P Hfit) as (tx1 & fp1 & li & split & nl & nr & mg & txa & txb & Hdirty & Hnr & Hnl & Hmg & Hputm & Hfull & Hev & Hsp);
    [by apply owned_app in Ho as [? _]|done|done|].
  pose proof (evolves_agrees _ _ _ _ _ Hev Ho) as Ha. pose proof (evolves_app _ _ _ _ _ Hev Ho) as Hev'.
  destruct (merged_forest md tx1 d b ss L R lo hi bsl c0 sep c2 bsr sl sr fp1 li split) as (b' & ss' & Hmb & Hf' & Hch' & Hco' & Ees & Efp);
    try done; try (by destruct P).
  { destruct P, c0, c2; cbn in *; try done. by eapply bytes_lt_trans. }
  { eapply forest_frame; [by destruct P|]. eapply agrees_mono; [exact Ha|]. intros i Hi. right. apply elem_of_app. by left. }
  { eapply forest_frame; [by destruct P|]. eapply agrees_mono; [exact Ha|]. intros i Hi. right. apply elem_of_app. by right. }
  assert (fp1 ++ idx :: forest_fp L ++ forest_fp R ≡ₚ idx :: forest_fp ss') as Hperm'.
  { rewrite Efp, <- Permutation_middle. constructor. by rewrite !app_assoc, (Permutation_app_comm (forest_fp L)). }
  rewrite Hperm' in Hev'. destruct (put_branch_spec md tx1 d idx b' ss' lo hi) as (tx2 & Hput & Hev2 & Hb2); [done|done|done|by destruct Hev'|].
  exists tx2, (idx :: forest_fp ss'). split_and!.
  - unfold merge_children. rewrite Hch, !list_lookup_fmap, Ess, lookup_app_r, <- HL, Nat.sub_diag by lia. cbn [lookup list_lookup fmap option_fmap option_map unwrap].
    slifted. rewrite lookup_app_r by lia. replace (length L + 1 - length L)%nat with 1%nat by lia. cbn [lookup list_lookup fmap option_fmap option_map unwrap].
    slifted. rewrite HL, (pr_key _ _ _ _ _ _ _ _ _ _ _ _ _ _ P). cbn [unwrap]. slifted. sstep Hdirty.
    rewrite (sbind_Ok (read_node _) _ _ nr txa) by (unfold read_node; by rewrite Hnr). sstep (get_node_spec _ _ _ Hnl). rewrite Hmg. slifted.
    sstep Hputm. sstep Hfull. assert (tx_nodes tx1 !! idx = Some (NBranch b)) as Hn1 by (destruct Ha as [_ Ha]; rewrite Ha; [done|left]).
    sstep (get_branch_spec _ _ _ Hn1). rewrite Hmb. slifted. exact Hput.
  - rewrite Hperm. eapply evolves_trans; [exact Hev'|exact Hev2].
  - rewrite <- Ees. by eapply branch_in_lean.
Qed.

Lemma hinge_proper md tx d idx b ss lo hi bs1 b0 b0' bs2 s :
  hinge md tx d idx b ss lo hi bs1 b0 b0' bs2 s -> tree_at md tx d (s_child s) b0 b0' (s_fp s) (s_es s) ->
  branch_in md tx d idx b ss lo hi.
Proof.
  intros [Hn E Hs Hch Hco _ _ Hc Hlt HL HR _] Ht. split_and!; try done. rewrite E, <- (take_drop_middle ss _ s Hs).
  apply forest_app; [rewrite length_take; apply lookup_lt_Some in Hs; lia|]. split; [done|]. by constructor.
Qed.

Lemma rebalance_at md tx d idx b ss lo hi bs1 b0 b0' bs2 s :
  hinge md tx d idx b ss lo hi bs1 b0 b0' bs2 s -> md_fit md = false -> len (forest_es ss) <= u64_max ->
  exists tx' fp', rebalance idx (length bs1) tx = (Ok tt, tx') /\ evolves tx tx' (idx :: forest_fp ss) fp' /\
    lean md tx' (S d) (Dirty idx) lo hi fp' (forest_es ss).
Proof.
  intros H Hfit Hmax. pose proof H as [Hn _ Hs Hch Hco H2 Hlean Hcnt _ _ _ Ho].
  pose proof (lookup_lt_Some _ _ _ Hs) as Hi. unfold rebalance. sstep (get_branch_spec _ _ _ Hn).
  rewrite Hco, list_lookup_fmap, Hs. cbn [fmap option_fmap option_map unwrap]. slifted. rewrite Hcnt.
  destruct (Z.eqb_spec (len (s_es s)) 0) as [E0|E0].
  - apply len_zero in E0. destruct (drop_child_forest _ _ _ _ _ _ _ _ _ _ _ _ _ H E0) as (b' & Hdrop & Hf & Hch' & Hco' & Ees).
    rewrite Hdrop. slifted. assert (idx :: forest_fp ss ≡ₚ (idx :: forest_fp (remove_at (length bs1) ss)) ++ s_fp s) as Hperm.
    { rewrite (slot_perm ss _ s) by done. unfold remove_at. rewrite forest_fp_app. apply Permutation_app_comm. }
    rewrite Hperm in Ho. destruct (put_branch_spec md tx d idx b' (remove_at (length bs1) ss) lo hi) as (tx' & Hput & Hev & Hb); try done.
    { by apply owned_app in Ho as [? _]. }
    exists tx', (idx :: forest_fp (remove_at (length bs1) ss)). split_and!; [done|rewrite Hperm; by apply evolves_drop|].
    rewrite <- Ees. by eapply branch_in_lean.
  - assert (length (br_children b) = length ss) as Hlc by (by rewrite Hch, length_fmap).
    destruct (Nat.ltb_spec (length (br_children b)) 2); [lia|].
    rewrite Hch, list_lookup_fmap, Hs. cbn [fmap option_fmap option_map unwrap]. slifted.
    pose proof Hlean as (n & Hnode & _). rewrite (sbind_Ok (read_node _) _ _ n tx) by (unfold read_node; by rewrite Hnode).
    assert (s_es s <> []) as Hne by (intros E; by rewrite E in E0).
    destruct (Z.leb_spec (PAGE_SIZE / 4) (encoded_len n)) as [Hbig|Hsmall].
    + exists tx, (idx :: forest_fp ss). split; [done|]. split; [by apply evolves_refl|]. eapply branch_in_lean, hinge_proper; [done|].
      by eapply lean_proper.
    + destruct (hinge_pair _ _ _ _ _ _ _ _ _ _ _ _ _ H) as (bsl & c0 & sep & c2 & bsr & sl & sr & P & <- & Hcase).
      eapply merge_children_at; try done. intros E%app_nil. destruct E, Hcase; congruence.
Qed.

(** ** Removing a key *)

Lemma adel_within lo hi (es : entries) k : within lo hi es -> within lo hi (adel es k).
Proof. intros. by apply (adel_keys es k (fun x => above lo x /\ under hi x)). Qed.

Lemma remove_rec_leaf md c key v fuel tx idx tx1 l lo hi :
  make_dirty c tx = (Ok idx, tx1) -> leaf_in md tx1 idx l lo hi -> owned tx1 [idx] -> aget (leaf_es l) key = Some v ->
  exists tx', remove_rec (S fuel) c key tx = (Ok (Dirty idx, v), tx') /\ evolves tx1 tx' [idx] [idx] /\
    lean md tx' 0 (Dirty idx) lo hi [idx] (adel (leaf_es l) key).
Proof.
  intros Hmd (Hn & Hw & Hvs & Hs & Hin) Ho Hget. cbn [remove_rec]. sstep Hmd. sstep (get_node_spec _ _ _ Hn).
  pose proof (leaf_search_spec l key Hw Hs) as Hspec. unfold search_spec in Hspec. unfold leaf_wf in Hw.
  destruct (leaf_search l key) as [i|i]; [|destruct Hspec as (_ & E & _); congruence].
  destruct Hspec as (v' & Hv & Hget' & _ & (k & Hk & _) & _ & Hdel). assert (v' = v) as -> by congruence.
  pose proof (adel_sorted _ key Hs) as Hs'. pose proof (adel_within lo hi _ key Hin) as Hin'. rewrite Hdel in Hs', Hin' |- *.
  set (l' := mkLeaf (remove_at i (lf_keys l)) (remove_at i (lf_values l))) in *.
  destruct (put_node_spec tx1 idx (NLeaf l') Ho) as (tx2 & Hput & Hn2 & Hev). exists tx2. split_and!; [|done|].
  - pose proof (lookup_lt_Some _ _ _ Hk). rewrite !vec_remove_Ok by lia. slifted. rewrite Hv. cbn [unwrap]. do 2 slifted.
    fold l'. by sstep Hput.
  - exists (NLeaf l'). split; [by apply dirty_node|]. split_and!; try done.
    + unfold leaf_wf. cbn. unfold remove_at. rewrite !length_app, !length_take, !length_drop. lia.
    + apply Forall_app. split; [by apply Forall_take|by apply Forall_drop].
Qed.

(** The branch once its child has been changed, before [rebalance]. *)
Lemma remove_branch_hinge md tx tx1 tx2 d c b ss lo hi key idx s bs1 b0 b0' bs2 fp' es' nd :
  descent md tx tx1 d c b ss lo hi key idx s bs1 b0 b0' bs2 -> evolves tx1 tx2 (s_fp s) fp' ->
  lean md tx2 d nd b0 b0' fp' es' -> br_children b = s_child <$> ss -> br_counts b = s_count <$> ss ->
  (2 <= length ss)%nat -> len es' = s_count s - 1 ->
  let b' := mkBranch (br_keys b) (<[length bs1 := nd]> (br_children b)) (<[length bs1 := len es']> (br_counts b)) in
  let s' := mkSlot nd (len es') fp' es' in
  let ss' := take (length bs1) ss ++ s' :: drop (S (length bs1)) ss in
  exists tx3, get_branch idx tx2 = (Ok b, tx2) /\ put_node idx (NBranch b') tx2 = (Ok tt, tx3) /\
    evolves tx tx3 (own c ++ forest_fp ss) (idx :: forest_fp ss') /\ hinge md tx3 d idx b' ss' lo hi bs1 b0 b0' bs2 s'.
Proof.
  intros D Hev2 Hlean Hch Hco H2 Hlen b' s' ss'.
  destruct (ascend _ _ _ _ _ _ _ _ _ _ _ _ _ _ _ _ _ _ D Hev2) as (Hn2 & HfL & HfR & Hev). destruct D as [_ _ _ _ HE Hs _ _ Hlt _ _ _ _ _ _ _].
  pose proof (lookup_lt_Some _ _ _ Hs) as Hi. assert (length (take (length bs1) ss) = length bs1) as HL by (rewrite length_take; lia).
  assert (forest_fp ss' = forest_fp (take (length bs1) ss) ++ fp' ++ forest_fp (drop (S (length bs1)) ss)) as Efp
    by (unfold ss'; by rewrite forest_fp_app, forest_fp_cons).
  rewrite <- Efp in Hev. pose proof (ev_owned _ _ _ _ Hev) as Ho.
  destruct (put_node_spec tx2 idx (NBranch b')) as (tx3 & Hput & Hn3 & Hev3); [by apply (owned_app tx2 [idx]) in Ho as [? _]|].
  pose proof (evolves_agrees _ _ _ _ _ Hev3 Ho) as Ha. pose proof (evolves_app _ _ _ _ _ Hev3 Ho) as Hev3'. rewrite Efp in Ha.
  exists tx3. split; [by apply get_branch_spec|]. split; [done|]. split; [by eapply evolves_trans|]. constructor; try done.
  - unfold ss'. rewrite lookup_app_r, HL, Nat.sub_diag by lia. done.
  - cbn [b' br_children]. rewrite (insert_slot _ _ (s_child s)) by (by rewrite Hch, list_lookup_fmap, Hs).
    unfold ss'. by rewrite Hch, fmap_app, fmap_cons, fmap_take, fmap_drop.
  - cbn [b' br_counts]. rewrite (insert_slot _ _ (s_count s)) by (by rewrite Hco, list_lookup_fmap, Hs).
    unfold ss'. by rewrite Hco, fmap_app, fmap_cons, fmap_take, fmap_drop.
  - unfold ss'. rewrite length_app, HL. cbn [length]. rewrite length_drop. lia.
  - eapply lean_frame; [exact Hlean|]. eapply agrees_mono; [exact Ha|]. intros i Hin. rewrite !elem_of_app. by right; left.
  - unfold ss'. rewrite take_app_length' by done. eapply forest_frame; [exact HfL|]. eapply agrees_mono; [exact Ha|].
    intros i Hin. rewrite !elem_of_app. by left.
  - unfold ss'. rewrite cons_middle, app_assoc, drop_app_length' by (rewrite length_app; cbn; lia).
    eapply forest_frame; [exact HfR|]. eapply agrees_mono; [exact Ha|]. intros i Hin. rewrite !elem_of_app. by right; right.
  - by destruct Hev3'.
Qed.

Theorem remove_rec_at md tx d c lo hi fp es key v fuel :
  tree_at md tx d c lo hi fp es -> md_fit md = false -> owned tx fp -> above lo key -> under hi key ->
  aget es key = Some v -> len es <= u64_max -> (d < fuel)%nat ->
  exists idx tx' fp', remove_rec fuel c key tx = (Ok (Dirty idx, v), tx') /\ evolves tx tx' fp fp' /\
    lean md tx' d (Dirty idx) lo hi fp' (adel es key).
Proof.
  intros Ht Hfit Ho Hlo Hhi Hv Hmax Hfuel. revert tx c lo hi fp es fuel Ht Ho Hlo Hhi Hv Hmax Hfuel; induction d as [|d IH];
    intros tx c lo hi fp es fuel (n & Hn & _ & Ht) Ho Hlo Hhi Hv Hmax Hfuel; destruct n as [l|b]; try done;
    (destruct fuel as [|fuel]; [lia|]).
  - destruct Ht as (Hw & Hvs & -> & Hne & Hs & Hin & ->).
    destruct (make_dirty_spec tx c _ Hn) as (idx & tx1 & Hmd & Hn1 & Hev1).
    destruct (remove_rec_leaf md c key v fuel tx idx tx1 l lo hi) as (tx' & Hrun & Hev & Hl); try done.
    { by destruct Hev1. }
    exists idx, tx', [idx]. split_and!; [done|by eapply evolves_trans|done].
  - destruct Ht as (ss & Hf & Hch & Hco & H2 & -> & ->).
    destruct (descend md tx d c b ss lo hi key Hn Hf Ho Hlo Hhi) as (tx1 & idx & s & bs1 & b0 & b0' & bs2 & D).
    pose proof D as [Hdirty Hnode _ Hindex _ Hs Hchild Hcnt _ Hab Hub _ _ HkL HkR Howned].
    pose proof (f_equal forest_es (take_drop_middle ss _ s Hs)) as Ees. rewrite forest_es_app, forest_es_cons in Ees.
    pose proof (f_equal len Ees) as Hlen. rewrite !len_app in Hlen.
    pose proof (len_nonneg (forest_es (take (length bs1) ss))). pose proof (len_nonneg (forest_es (drop (S (length bs1)) ss))).
    rewrite <- Ees, (aget_mid (forest_es _)) in Hv by done.
    destruct (IH tx1 (s_child s) b0 b0' (s_fp s) (s_es s) fuel) as (idx' & tx2 & fp' & Hrun & Hev2 & Hl);
      [done|by apply owned_app in Howned as [? _]|done|done|done|lia|lia|].
    pose proof (adel_length (s_es s) key ltac:(by rewrite Hv)) as Hdl.
    assert (len (adel (s_es s) key) = s_count s - 1) as Hlen' by (rewrite Hcnt; unfold len; lia).
    destruct (remove_branch_hinge md tx tx1 tx2 d c b ss lo hi key idx s bs1 b0 b0' bs2 fp' _ (Dirty idx') D Hev2 Hl Hch Hco H2 Hlen')
      as (tx3 & Hget & Hput & Hev3 & Hh). set (b' := mkBranch _ _ _) in *. set (s' := mkSlot _ _ _ _) in *.
    set (ss' := take (length bs1) ss ++ s' :: drop (S (length bs1)) ss) in *.
    assert (forest_es ss' = adel (forest_es ss) key) as Ees'.
    { unfold ss'. rewrite forest_es_app, forest_es_cons. cbn [s' s_es]. by rewrite <- Ees, (adel_mid (forest_es _)). }
    destruct (rebalance_at _ _ _ _ _ _ _ _ _ _ _ _ _ Hh Hfit) as (tx4 & fp4 & Hreb & Hev4 & Hl4).
    { rewrite Ees', <- Ees, (adel_mid (forest_es _)), !len_app by done. lia. }
    exists idx, tx4, fp4. rewrite <- Ees'. split_and!; [|by eapply evolves_trans|done].
    cbn [remove_rec]. sstep Hdirty. sstep (get_node_spec _ _ _ Hnode). pose proof (lookup_lt_Some _ _ _ Hs) as Hi.
    rewrite Hindex, Hch, list_lookup_fmap, Hs. cbn [fmap option_fmap option_map unwrap]. slifted. sstep Hrun. cbn [fst snd].
    sstep Hget. rewrite vec_set_Ok by (by rewrite Hch, length_fmap). slifted. rewrite Hco, list_lookup_fmap, Hs. cbn [fmap option_fmap option_map unwrap].
    slifted. assert (0 <= s_count s - 1 <= u64_max) as Hrange by (pose proof (len_nonneg (adel (s_es s) key)); lia).
    rewrite sub64_small by done. rewrite vec_set_Ok by (by rewrite length_fmap). slifted.
    rewrite <- Hlen', <- Hco. fold b'. sstep Hput. by sstep Hreb.
Qed.

(** ** The root *)

Lemma hand_over_proper md tx d c lo hi fp es fuel : tree_at md tx d c lo hi fp es -> hand_over (S fuel) tx c = Ok c.
Proof.
  intros H. destruct d; destruct H as (n & Hn & _ & H); cbn [hand_over]; rewrite Hn; cbn [rbind]; destruct n as [l|b]; try done.
  - destruct H as (Hw & _ & -> & Hne & _). destruct (lf_keys l) eqn:E; [|done]. exfalso. apply Hne.
    apply length_zero_iff_nil. rewrite leaf_es_length by done. by rewrite E.
  - destruct H as (ss & _ & Hch & _ & H2 & _). rewrite Hch. by destruct ss as [|? [|]]; cbn in *; try lia.
Qed.

Lemma hand_over_lean md tx d c fp es fuel :
  lean md tx d c None None fp es -> md_fit md = false ->
  exists r, hand_over (S (S fuel)) tx c = Ok r /\
    ((r = EMPTY /\ es = []) \/ exists d' fp', tree_at md tx d' r None None fp' es /\ fp' `sublist_of` fp).
Proof.
  intros H Hfit. destruct d; pose proof H as (n & Hn & Hl); destruct n as [l|b]; try done.
  - destruct Hl as (Hw & Hvs & -> & Hs & Hin & ->). cbn [hand_over]. rewrite Hn. cbn [rbind].
    pose proof (leaf_es_length l Hw) as Hlen. destruct (lf_keys l) as [|k ks] eqn:E.
    + exists EMPTY. split; [done|]. left. split; [done|]. by apply length_zero_iff_nil.
    + exists c. split; [done|]. right. exists 0%nat, (own c). split; [|done]. exists (NLeaf l). split; [done|].
      split; [unfold fits; by rewrite Hfit|]. split_and!; try done. intros E'. by rewrite E' in Hlen.
  - destruct Hl as (ss & Hf & Hch & Hco & -> & ->). destruct ss as [|s [|s2 ss]].
    + apply forest_length in Hf. unfold bounds in Hf. cbn in Hf. rewrite length_app in Hf. cbn in Hf. lia.
    + assert (br_keys b = []) as Hk.
      { apply forest_length in Hf. unfold bounds in Hf. cbn [length] in Hf. rewrite length_app, !length_fmap in Hf. cbn in Hf.
        destruct (br_keys b); [done|cbn in Hf; lia]. }
      rewrite Hk in Hf. apply forest_cons_inv in Hf as (? & ? & ? & [= <- <- <-] & Ht & _).
      exists (s_child s). cbn [hand_over]. rewrite Hn. cbn [rbind]. rewrite Hch. cbn [fmap list_fmap]. split.
      * by eapply (hand_over_proper _ _ _ _ _ _ _ _ fuel).
      * right. exists d, (s_fp s). rewrite forest_es_cons, app_nil_r. split; [done|]. rewrite forest_fp_cons, app_nil_r. by apply sublist_inserts_l.
    + assert (tree_at md tx (S d) c None None (own c ++ forest_fp (s :: s2 :: ss)) (forest_es (s :: s2 :: ss))) as Ht.
      { exists (NBranch b). split; [done|]. split; [unfold fits; by rewrite Hfit|]. exists (s :: s2 :: ss). split_and!; try done. cbn. lia. }
      exists c. split; [by eapply hand_over_proper|]. right. eexists _, _. by split.
Qed.

Lemma tree_under_loose fit tx t c fp es : tree_under fit tx t c fp es -> tree_under false tx t c fp es.
Proof. intros [?|[d H]]; [by left|]. right. exists d. by apply tree_at_weaken in H. Qed.

Lemma owned_sublist tx a b : owned tx b -> a `sublist_of` b -> owned tx a.
Proof.
  intros [Hn Hl] Hs. split; [by eapply sublist_NoDup|]. rewrite Forall_forall in *. intros i Hi. apply Hl. by eapply elem_of_sublist.
Qed.

Lemma remove_repr fit tx f t key :
  tx_repr fit tx f -> len (f t) <= u64_max ->
  exists tx', remove t key tx = (Ok (aget (f t) key), tx') /\ tx_repr false tx' (upd f t (adel (f t) key)) /\ same_header tx tx'.
Proof.
  intros Hrep Hmax. pose proof (get_repr _ _ _ _ key Hrep Hmax) as Hget. destruct Hrep as (fps & H & Ho).
  assert (forall t, tree_under false tx t (root tx t) (fps t) (f t)) as H' by (intros; by eapply tree_under_loose).
  unfold remove. rewrite Hget. destruct (aget (f t) key) as [v|] eqn:Ev.
  2:{ exists tx. split; [done|]. split; [|by unfold same_header]. exists fps. split; [|done]. intros t'. rewrite adel_absent by done.
      specialize (H' t'). by destruct t, t'. }
  apply (owned_both _ _ t) in Ho. pose proof (H' t) as Ht. destruct Ht as [(_ & _ & E)|[d Ht]]; [by rewrite E in Ev|].
  pose proof (tree_at_depth _ _ _ _ _ _ _ _ Ht Hmax).
  destruct (remove_rec_at (mkMode false t) tx d (root tx t) None None (fps t) (f t) key v DEPTH) as (idx & tx1 & fp1 & Hrun & Hev & Hl);
    [done|done|by apply owned_app in Ho as [? _]|done|done|done|done|unfold DEPTH; lia|].
  destruct (hand_over_lean _ _ _ _ _ _ 63 Hl) as (r & Hho & Hr); [done|]. change (S (S 63)) with DEPTH in Hho.
  assert (exists fp2, tree_under false tx1 t r fp2 (adel (f t) key) /\ evolves tx tx1 (fps t) fp2) as (fp2 & Hu & Hev2).
  { destruct Hr as [[-> ->]|(d' & fp' & Ht' & Hsub)].
    - exists []. split; [by left|]. destruct Hev. constructor; try done; [by intros i ?%not_elem_of_nil|split; constructor].
    - exists fp'. split; [right; by exists d'|]. destruct Hev. constructor; try done; [|by eapply owned_sublist].
      intros i Hi. apply ev_fresh. by eapply elem_of_sublist. }
  destruct (set_root_repr false tx tx1 t f fps fp2 r (adel (f t) key)) as (tx2 & Hset & Hrep & Hsame); try done.
  exists tx2. split; [|done]. sstep Hrun. cbn [fst snd]. rewrite (sbind_Ok _ _ _ r tx1) by (by rewrite Hho). by sstep Hset.
Qed.

End Rebalance.
