(* ===== verification/ZsetCommit.v ===== *)
(** * Committing a transaction ([zset_tree/tree.rs], [commit] and [write_child])

    A commit encodes the changed nodes, children before their parents and overflow pages
    before the node that names them, appends them with the logged changes and a trailer
    as one frame behind the frame the transaction started from, and then points the
    older header slot at it.  [WriteCtx] is what [write_child] threads: the arena (whose
    keys learn their overflow pages), the pages so far, and the offsets of written nodes
    and overflow chains.

    The proofs are in [ZsetArena] and [ZsetCommitProof]. *)

From Stdlib Require Import ZArith Lia.
From stdpp Require Import gmap.
From S2P Require Import Prelude Bytes Crc IoBackend F64 ZsetFormat Assoc ZsetNode ZsetStore ZsetTree.

Record WriteCtx : Type := mkWriteCtx {
  wc_nodes : list Node;
  wc_pages : list bytes;
  wc_written : gmap nat Z;
  wc_overflow : list (bytes * Z);
}.

(** [overflow.get(&key.bytes)]; a key is inserted once. *)
Fixpoint find_head (overflow : list (bytes * Z)) (key : bytes) : option Z :=
  match overflow with
  | [] => None
  | (k, head) :: overflow => if bytes_eqb k key then Some head else find_head overflow key
  end.

(** The offset of the next page. *)
Definition next_offset (base : Z) (wc : WriteCtx) : Z := add64 base (len (wc_pages wc) * PAGE_SIZE).

Definition set_keys (n : Node) (keys : list Key) : Node :=
  match n with
  | NLeaf l => NLeaf (mkLeaf keys (lf_values l))
  | NBranch b => NBranch (mkBranch keys (br_children b) (br_counts b))
  end.

(** [for x in l { f(x)?; }]. *)
Fixpoint sfor {S A B : Type} (f : A -> SR S B) (l : list A) : SR S unit :=
  match l with
  | [] => sret tt
  | x :: l => let! _ := f x in sfor f l
  end.

Section WithCrc.
Context {C : Crc32fast}.

(** One key of the loop over a node's keys. *)
Definition write_key (base : Z) (key : Key) : SR WriteCtx Key := fun wc =>
  if is_long (k_bytes key) && bool_decide (k_overflow key = None) then
    match find_head (wc_overflow wc) (k_bytes key) with
    | Some head => (Ok (mkKey (k_bytes key) (Some head)), wc)
    | None =>
        let head := next_offset base wc in
        (Ok (mkKey (k_bytes key) (Some head)),
         mkWriteCtx (wc_nodes wc) (wc_pages wc ++ encode_overflow (k_bytes key) head) (wc_written wc)
           ((k_bytes key, head) :: wc_overflow wc))
    end
  else (Ok key, wc).

Fixpoint write_keys (base : Z) (keys : list Key) : SR WriteCtx (list Key) :=
  match keys with
  | [] => sret []
  | key :: keys =>
      let! key := write_key base key in
      let! keys := write_keys base keys in
      sret (key :: keys)
  end.

(** The closure that [encode_node] asks for its children. *)
Definition child_offset (wc : WriteCtx) (below : Child) : result Z :=
  match below with
  | Disk offset => Ok offset
  | Dirty i => ok_or (wc_written wc !! i) "zset tree: child written after its parent"
  end.

Definition wc_node (index : nat) : SR WriteCtx Node := fun wc => (unwrap (wc_nodes wc !! index), wc).
Definition wc_put (index : nat) (n : Node) : SR WriteCtx unit := fun wc =>
  (Ok tt, mkWriteCtx (<[index := n]> (wc_nodes wc)) (wc_pages wc) (wc_written wc) (wc_overflow wc)).

(** The encoded node appended to the pages. *)
Definition write_page (base : Z) (index : nat) (n : Node) : SR WriteCtx Z := fun wc =>
  match encode_node n (child_offset wc) with
  | Ok page =>
      let offset := next_offset base wc in
      (Ok offset, mkWriteCtx (wc_nodes wc) (wc_pages wc ++ [page]) (<[index := offset]> (wc_written wc)) (wc_overflow wc))
  | Err e => (Err e, wc)
  | Panic => (Panic, wc)
  end.

Fixpoint write_child (fuel : nat) (base : Z) (child : Child) : SR WriteCtx Z :=
  match fuel with
  | O => slift Panic
  | S fuel =>
      match child with
      | Disk offset => sret offset
      | Dirty index => fun wc =>
          match wc_written wc !! index with
          | Some offset => (Ok offset, wc)
          | None =>
              (let! n := wc_node index in
               let! _ := match n with
                         | NBranch branch => sfor (write_child fuel base) (br_children branch)
                         | NLeaf _ => sret tt
                         end in
               let! n := wc_node index in
               let! keys := write_keys base (node_keys n) in
               let n := set_keys n keys in
               let! _ := wc_put index n in
               write_page base index n) wc
          end
      end
  end.

(** Both trees: the roots and the pages of the frame. *)
Definition write_trees (tx : Tx) : result (Z * Z * list bytes) :=
  let base := add64 (ts_frame_end (tx_base tx)) FRAME_HEADER_SIZE in
  match (let! score_root := write_child DEPTH base (tx_roots tx).1 in
         let! member_root := write_child DEPTH base (tx_roots tx).2 in
         sret (score_root, member_root)) (mkWriteCtx (tx_nodes tx) [] ∅ []) with
  | (Ok roots, wc) => Ok (roots, wc_pages wc)
  | (Err e, _) => Err e
  | (Panic, _) => Panic
  end.

(** The frame, its trailer included; [as u32] keeps the low 32 bits. *)
Definition commit_body (tx : Tx) (token : Token) (pages : list bytes) : bytes :=
  let ops := encode_ops (tx_log tx) in
  frame_header_encode (mkFrameHeader (len pages mod 2 ^ 32) (len ops mod 2 ^ 32) token false) ++ mjoin pages ++ ops.
Definition commit_trailer (tx : Tx) (token : Token) (roots : Z * Z) (body : bytes) : Trailer :=
  mkTrailer roots.1 roots.2 (tx_count tx) (ts_frame_end (tx_base tx)) (add64 (ts_generation (tx_base tx)) 1) token (crc [body]).

Definition commit (tx : Tx) (token : Token) : SR TreeFile TreeState :=
  match tx_log tx with
  | [] => sret (tx_base tx)
  | _ =>
      let! written := slift (write_trees tx) in
      let '(roots, pages) := written in
      let body := commit_body tx token pages in
      let trailer := commit_trailer tx token roots body in
      let frame := body ++ trailer_encode trailer in
      let frame_start := ts_frame_end (tx_base tx) in
      let frame_end := add64 frame_start (len frame) in
      let! _ := write_at frame_start frame in
      let! _ := note_appended frame_end in
      let slot := mkHeaderSlot (tr_generation trailer) frame_end (ts_synced_frame_end (tx_base tx)) in
      let! _ := write_slot slot in
      sret (mkTreeState roots.1 roots.2 (tx_count tx) token frame_end (tr_generation trailer) (hs_synced_frame_end slot))
  end.

End WithCrc.
