(* ===== verification/ZsetArena.v ===== *)
(** * Where a transaction's pages are

    A transaction may only depend on pages of the tree it started from: everything
    behind that tree's frame is overwritten by the next commit.  [limit tf n] is the
    file as a reader sees it that knows only its first [n] bytes.  [tx_settled] says that
    every page and overflow chain a transaction refers to is readable under the limit of
    its base frame; every operation on the trees keeps it, whatever its outcome. *)

From Stdlib Require Import ZArith Lia Sorting.Sorted.
From S2P Require Import Prelude Bytes Crc IoBackend F64 ZsetFormat Assoc ZsetNode ZsetStore ZsetTree ZsetTreeProof ZsetTreeInsert.

Definition limit (tf : TreeFile) (n : Z) : TreeFile := mkTreeFile (tf_disk tf) n.

(** [tf'] reads, outside the header, what [tf] reads. *)
Definition reads (tf tf' : TreeFile) : Prop :=
  forall offset n bs, HEADER_REGION <= offset -> read_exact tf offset n = Ok bs -> read_exact tf' offset n = Ok bs.

Lemma reads_refl tf : reads tf tf.
Proof. by intros offset n bs. Qed.

Lemma read_exact_inv tf offset n bs :
  read_exact tf offset n = Ok bs -> offset + n <= tf_len tf /\ offset + n <= u64_max /\ get_range (tf_data tf) offset (offset + n) = Some bs.
Proof.
  unfold read_exact, checked_add64. destruct (Z.leb_spec (offset + n) u64_max); [|done].
  destruct (Z.ltb_spec (tf_len tf) (offset + n)); [done|].
  destruct (get_range (tf_data tf) offset (offset + n)); cbn; [|done]. intros [= ->]. done.
Qed.
Lemma read_exact_intro tf offset n bs :
  offset + n <= tf_len tf -> offset + n <= u64_max -> get_range (tf_data tf) offset (offset + n) = Some bs -> read_exact tf offset n = Ok bs.
Proof.
  intros H1 H2 H3. unfold read_exact, checked_add64. destruct (Z.leb_spec (offset + n) u64_max); [|lia].
  destruct (Z.ltb_spec (tf_len tf) (offset + n)); [lia|]. by rewrite H3.
Qed.

Lemma reads_limit tf n m : n <= m -> reads (limit tf n) (limit tf m).
Proof. intros Hn offset k bs _ (H1 & H2 & H3)%read_exact_inv. apply read_exact_intro; [cbn in *; lia|done|done]. Qed.
Lemma limit_len tf : limit tf (tf_len tf) = tf.
Proof. by destruct tf. Qed.

Lemma read_page_reads tf tf' o pg : reads tf tf' -> read_page tf o = Ok pg -> read_page tf' o = Ok pg.
Proof.
  intros H. unfold read_page. destruct (Z.ltb_spec o HEADER_REGION); [done|]. apply H. lia.
Qed.

Section Stability.
Context {C : Crc32fast}.

Lemma read_overflow_loop_reads tf tf' fuel next bs r :
  reads tf tf' -> read_overflow_loop fuel tf next bs = Ok r -> read_overflow_loop fuel tf' next bs = Ok r.
Proof.
  intros H. revert next bs; induction fuel as [|fuel IH]; intros next bs; cbn [read_overflow_loop]; [done|].
  destruct (read_page tf next) as [pg| |] eqn:E; cbn [rbind]; [|done..]. rewrite (read_page_reads _ _ _ _ H E). cbn [rbind].
  destruct (decode_overflow pg) as [ch| |]; cbn [rbind]; [|done..]. destruct (ch.1 =? 0); [done|]. apply IH.
Qed.

Lemma read_overflow_reads tf tf' h n bs : reads tf tf' -> read_overflow tf h n = Ok bs -> read_overflow tf' h n = Ok bs.
Proof.
  intros H. unfold read_overflow. destruct (read_overflow_loop (max_pages n) tf h []) as [r| |] eqn:E; cbn [rbind]; [|done..].
  by rewrite (read_overflow_loop_reads _ _ _ _ _ _ H E).
Qed.

Section Decode.
Context (ro ro' : Z -> Z -> result bytes).
Hypothesis Hro : forall h n bs, ro h n = Ok bs -> ro' h n = Ok bs.

Lemma decode_key_mono page at_ k : decode_key ro page at_ = Ok k -> decode_key ro' page at_ = Ok k.
Proof using Hro.
  unfold decode_key. destruct (stored_key page at_) as [[sk a]| |]; cbn [rbind fst snd]; [|done..].
  destruct sk as [b|l p h]; cbn [stored_bytes rbind]; [done|]. destruct (ro h l) eqn:E; cbn [rbind]; [|done..]. by rewrite (Hro _ _ _ E).
Qed.

Lemma decode_node_mono page n : decode_node ro page = Ok n -> decode_node ro' page = Ok n.
Proof using Hro.
  unfold decode_node. destruct (verify_page page) as [[[kind m] used]| |]; cbn [rbind]; [|done..].
  assert (forall k pg at_ ks vs l, decode_leaf_entries ro k pg at_ ks vs = Ok l -> decode_leaf_entries ro' k pg at_ ks vs = Ok l) as Hleaf.
  { induction k as [|k IH]; intros pg at_ ks vs l; cbn [decode_leaf_entries]; [done|].
    destruct (decode_key ro pg at_) eqn:E; cbn [rbind]; [|done..]. rewrite (decode_key_mono _ _ _ E). cbn [rbind].
    destruct (get_u16 _ _); cbn [rbind]; [|done..]. destruct (ok_or _ _); cbn [rbind]; [|done..]. apply IH. }
  assert (forall k pg at_ b l, decode_branch_entries ro k pg at_ b = Ok l -> decode_branch_entries ro' k pg at_ b = Ok l) as Hbranch.
  { induction k as [|k IH]; intros pg at_ b l; cbn [decode_branch_entries]; [done|].
    destruct (decode_key ro pg at_) eqn:E; cbn [rbind]; [|done..]. rewrite (decode_key_mono _ _ _ E). cbn [rbind].
    destruct (get_u64 _ _); cbn [rbind]; [|done..]. destruct (get_u64 _ _); cbn [rbind]; [|done..]. apply IH. }
  destruct (kind =? KIND_LEAF).
  - destruct (decode_leaf_entries ro _ _ _ _ _) eqn:E; cbn [rbind]; [|done..]. by rewrite (Hleaf _ _ _ _ _ _ E).
  - destruct (kind =? KIND_BRANCH); [|done]. destruct (m <? 2); [done|]. destruct (get_u64 _ _); cbn [rbind]; [|done..].
    destruct (get_u64 _ _); cbn [rbind]; [|done..]. destruct (decode_branch_entries ro _ _ _ _) eqn:E; cbn [rbind]; [|done..].
    by rewrite (Hbranch _ _ _ _ _ E).
Qed.

End Decode.

(** The trees of a file, without a transaction. *)
Definition reader (tf : TreeFile) : Tx := begin tf (state_empty slot_empty).

Lemma node_reads tx tx' o n :
  reads (tx_file tx) (tx_file tx') -> node tx (Disk o) = Ok n -> node tx' (Disk o) = Ok n.
Proof.
  intros H. cbn [node]. destruct (o =? 0); [done|]. unfold load. destruct (read_page (tx_file tx) o) eqn:E; cbn [rbind]; [|done..].
  rewrite (read_page_reads _ _ _ _ H E). cbn [rbind]. apply decode_node_mono. intros. by eapply read_overflow_reads.
Qed.

(** The children of a page are pages. *)
Lemma disk_children tx o b c : node tx (Disk o) = Ok (NBranch b) -> c ∈ br_children b -> exists o', c = Disk o'.
Proof.
  intros Hn Hc. destruct (node_inv _ _ _ Hn) as [(? & [=] & _)|(? & ? & v & _ & _ & _ & _ & c0 & kcs & -> & _)].
  cbn [br_children] in Hc. apply list_elem_of_fmap in Hc as (o' & -> & _). by exists o'.
Qed.

Lemma forest_elem P ss bs s : forest P ss bs -> s ∈ ss -> exists b b', P (s_child s) b b' (s_fp s) (s_es s).
Proof.
  intros Hf Hs. apply list_elem_of_lookup in Hs as [i Hi].
  destruct (forest_at _ _ _ _ _ Hf Hi) as (? & b & b' & ? & _ & _ & _ & _ & HP & _). eauto.
Qed.

(** A tree on disk is read alike from a file that reads as much. *)
Lemma tree_at_reads md tx tx' d o lo hi fp es :
  reads (tx_file tx) (tx_file tx') -> tree_at md tx d (Disk o) lo hi fp es -> tree_at md tx' d (Disk o) lo hi fp es /\ fp = [].
Proof.
  intros Hr. revert o lo hi fp es; induction d as [|d IH]; intros o lo hi fp es (n & Hn & Hf & H);
    pose proof (node_reads _ _ _ _ Hr Hn) as Hn'; destruct n as [l|b]; try done.
  - split; [|by destruct H as (_ & _ & _ & _ & _ & _ & ->)]. exists (NLeaf l). done.
  - destruct H as (ss & Hfo & Hch & Hco & H2 & -> & ->).
    assert (forall s b0 b0', s ∈ ss -> tree_at md tx d (s_child s) b0 b0' (s_fp s) (s_es s) ->
      tree_at md tx' d (s_child s) b0 b0' (s_fp s) (s_es s) /\ s_fp s = []) as Hs.
    { intros s b0 b0' Hin Ht. destruct (disk_children _ _ _ (s_child s) Hn) as [o' Ho'].
      - rewrite Hch. apply list_elem_of_fmap. eauto.
      - rewrite Ho' in *. by apply IH. }
    split.
    + exists (NBranch b). split; [done|]. split; [done|]. exists ss. split_and!; try done.
      eapply forest_impl; [|done]. intros s b0 b0' Hin Ht. by apply Hs.
    + cbn [own app]. clear -Hs Hfo. assert (Forall (fun s => s_fp s = []) ss) as Hall.
      { apply Forall_forall. intros s Hin. destruct (forest_elem _ _ _ _ Hfo Hin) as (b0 & b0' & Ht). by destruct (Hs _ _ _ Hin Ht). }
      clear Hs Hfo. induction Hall as [|s ss E _ IH]; [done|]. by rewrite forest_fp_cons, E, IH.
Qed.

End Stability.

(** ** Operations keep a transaction on its base *)

Section Vectors.
Context {A : Type} (P : A -> Prop).

Lemma vec_set_Forall i x l l' : vec_set i x l = Ok l' -> P x -> Forall P l -> Forall P l'.
Proof. unfold vec_set. destruct (i <? length l)%nat; [|done]. intros [= <-] ? ?. by apply Forall_insert. Qed.
Lemma vec_insert_Forall i x l l' : vec_insert i x l = Ok l' -> P x -> Forall P l -> Forall P l'.
Proof.
  unfold vec_insert, insert_at. destruct (i <=? length l)%nat; [|done]. intros [= <-] ? ?.
  apply Forall_app. split; [by apply Forall_take|]. constructor; [done|by apply Forall_drop].
Qed.
Lemma vec_remove_Forall i l l' : vec_remove i l = Ok l' -> Forall P l -> Forall P l'.
Proof.
  unfold vec_remove, remove_at. destruct (i <? length l)%nat; [|done]. intros [= <-] ?.
  apply Forall_app. split; [by apply Forall_take|by apply Forall_drop].
Qed.
Lemma vec_split_off_Forall i l lr : vec_split_off i l = Ok lr -> Forall P l -> Forall P lr.1 /\ Forall P lr.2.
Proof.
  unfold vec_split_off. destruct (i <=? length l)%nat; [|done]. intros [= <-] ?. split; [by apply Forall_take|by apply Forall_drop].
Qed.
Lemma unwrap_Forall i l x : unwrap (l !! i) = Ok x -> Forall P l -> P x.
Proof. destruct (l !! i) eqn:E; cbn; [|done]. intros [= <-] H. by eapply Forall_lookup_1. Qed.

End Vectors.

Section Arena.
Context {C : Crc32fast}.
(** The base of the transaction, and the file it has open. *)
Context (tfs tf : TreeFile) (base : TreeState).
Hypothesis Hreads : reads tfs tf.

Definition key_good (k : Key) : Prop :=
  len (k_bytes k) <= u32_max /\
  (is_long (k_bytes k) = true -> forall h, k_overflow k = Some h -> u64_ok h /\ read_overflow tfs h (len (k_bytes k)) = Ok (k_bytes k)).

Definition disk_good (o : Z) : Prop := exists md d lo hi fp es, tree_at md (reader tfs) d (Disk o) lo hi fp es.
Definition child_good (c : Child) : Prop := match c with Disk o => o = 0 \/ disk_good o | Dirty _ => True end.
Definition node_good (n : Node) : Prop :=
  Forall key_good (node_keys n) /\ match n with NBranch b => Forall child_good (br_children b) | NLeaf _ => True end.

Definition settled (tx : Tx) : Prop :=
  tx_file tx = tf /\ tx_base tx = base /\ Forall node_good (tx_nodes tx) /\ child_good (tx_roots tx).1 /\ child_good (tx_roots tx).2.

Lemma stored_key_good page at_ sk a bs :
  stored_key page at_ = Ok (sk, a) -> stored_bytes (read_overflow tfs) sk = Ok bs ->
  key_good (mkKey bs match sk with Inline _ => None | Overflow _ _ head => Some head end).
Proof.
  intros H Hb. unfold key_good. cbn [k_bytes k_overflow]. destruct sk as [b|l p h]; cbn [stored_bytes] in Hb.
  - injection Hb as ->. split; [|done]. unfold stored_key in H. destruct (znth page at_) as [[]|]; try done.
    + destruct (get_u16 page (at_ + 1)) as [n| |] eqn:En; cbn [rbind] in H; [|done..]. apply get_u16_inv in En as (_ & _ & _ & Hn).
      destruct (get_range page (at_ + 3) (at_ + 3 + n)) as [x|] eqn:Er; cbn [ok_or rbind] in H; [|done]. injection H as -> _.
      apply get_range_inv in Er as (? & ? & ? & ->). rewrite len_zslice by lia. unfold u16_ok, u16_max, u32_max in *. lia.
    + destruct (get_u32 page (at_ + 1)); cbn [rbind] in H; [|done..]. destruct (ok_or _ _); cbn [rbind] in H; [|done..].
      by destruct (get_u64 _ _).
  - unfold stored_key in H. destruct (znth page at_) as [[]|]; try done.
    + destruct (get_u16 page (at_ + 1)); cbn [rbind] in H; [|done..]. by destruct (ok_or _ _).
    + destruct (get_u32 page (at_ + 1)) as [n| |] eqn:En; cbn [rbind] in H; [|done..]. apply get_u32_inv in En as (_ & _ & _ & Hn).
      destruct (ok_or _ _); cbn [rbind] in H; [|done..]. destruct (get_u64 page (at_ + 5 + OVERFLOW_PREFIX)) as [hd| |] eqn:Eh; cbn [rbind] in H; [|done..].
      apply get_u64_inv in Eh as (_ & _ & _ & Hh). injection H as -> -> -> _.
      destruct (read_overflow tfs h l) as [x| |] eqn:Er; cbn [rbind] in Hb; [|done..].
      destruct (Z.eqb_spec (len x) l) as [El|]; cbn [negb] in Hb; [|done].
      destruct (get_range x 0 OVERFLOW_PREFIX); cbn [unwrap rbind] in Hb; [|done]. destruct (bytes_eqb _ _); cbn [negb] in Hb; [|done].
      injection Hb as <-. rewrite El. unfold u32_ok in Hn. split; [lia|]. intros _ h' [= <-]. by split; [|rewrite Er].
Qed.

Lemma decode_key_good page at_ k : decode_key (read_overflow tfs) page at_ = Ok k -> key_good k.1.
Proof.
  unfold decode_key. destruct (stored_key page at_) as [[sk a]| |] eqn:E; cbn [rbind fst snd]; [|done..].
  destruct (stored_bytes _ sk) eqn:Eb; cbn [rbind]; [|done..]. intros [= <-]. by eapply stored_key_good.
Qed.

Lemma decode_node_good page n : decode_node (read_overflow tfs) page = Ok n -> Forall key_good (node_keys n).
Proof.
  unfold decode_node. destruct (verify_page page) as [[[kind m] used]| |]; cbn [rbind]; [|done..].
  assert (forall k pg at_ ks vs l, decode_leaf_entries (read_overflow tfs) k pg at_ ks vs = Ok l -> Forall key_good ks -> Forall key_good (lf_keys l)) as Hleaf.
  { induction k as [|k IH]; intros pg at_ ks vs l; cbn [decode_leaf_entries]; [by intros [= <-]|].
    destruct (decode_key _ pg at_) eqn:E; cbn [rbind]; [|done..]. destruct (get_u16 _ _); cbn [rbind]; [|done..].
    destruct (ok_or _ _); cbn [rbind]; [|done..]. intros H Hks. eapply IH; [exact H|]. apply Forall_app. split; [done|].
    constructor; [by eapply decode_key_good|constructor]. }
  assert (forall k pg at_ b b', decode_branch_entries (read_overflow tfs) k pg at_ b = Ok b' -> Forall key_good (br_keys b) -> Forall key_good (br_keys b')) as Hbranch.
  { induction k as [|k IH]; intros pg at_ b b'; cbn [decode_branch_entries]; [by intros [= <-]|].
    destruct (decode_key _ pg at_) eqn:E; cbn [rbind]; [|done..]. destruct (get_u64 _ _); cbn [rbind]; [|done..].
    destruct (get_u64 _ _); cbn [rbind]; [|done..]. intros H Hks. eapply IH; [exact H|]. cbn [br_keys]. apply Forall_app. split; [done|].
    constructor; [by eapply decode_key_good|constructor]. }
  destruct (kind =? KIND_LEAF).
  - destruct (decode_leaf_entries _ _ _ _ _ _) eqn:E; cbn [rbind]; [|done..]. intros [= <-]. by eapply Hleaf.
  - destruct (kind =? KIND_BRANCH); [|done]. destruct (m <? 2); [done|]. destruct (get_u64 _ _); cbn [rbind]; [|done..].
    destruct (get_u64 _ _); cbn [rbind]; [|done..]. destruct (decode_branch_entries _ _ _ _ _) eqn:E; cbn [rbind]; [|done..].
    intros [= <-]. eapply Hbranch; [exact E|]. constructor.
Qed.

(** Loading a page of the base. *)
Lemma load_good tx o n : tx_file tx = tf -> disk_good o -> node tx (Disk o) = Ok n -> node_good n.
Proof using Hreads.
  intros Htf (md & d & lo & hi & fp & es & Ht) Hn. assert (exists n', node (reader tfs) (Disk o) = Ok n') as [n' Hn'].
  { destruct d; destruct Ht as (n' & Hn' & _); eauto. }
  pose proof (node_reads (reader tfs) tx o n') as Hr. rewrite Htf in Hr. specialize (Hr Hreads Hn'). rewrite Hn in Hr. apply Ok_inj in Hr as <-.
  split.
  - cbn [node] in Hn'. destruct (o =? 0); [done|]. unfold load in Hn'. destruct (read_page _ _); cbn [rbind] in Hn'; [|done..].
    by eapply decode_node_good.
  - destruct n as [l|b]; [done|]. destruct d; destruct Ht as (n' & Hn'' & _ & H); rewrite Hn' in Hn''; apply Ok_inj in Hn'' as <-; [done|].
    destruct H as (ss & Hf & Hch & _). rewrite Hch. apply Forall_fmap, Forall_forall. intros s Hs. cbn.
    destruct (forest_elem _ _ _ _ Hf Hs) as (b0 & b0' & Ht').
    destruct (disk_children _ _ _ (s_child s) Hn') as [o' Ho']; [rewrite Hch; apply list_elem_of_fmap; eauto|].
    rewrite Ho' in Ht' |- *. right. by exists md, d, b0, b0', (s_fp s), (s_es s).
Qed.

(** A step that keeps the transaction settled, whatever it returns. *)
Definition keeps {A : Type} (Q : A -> Prop) (m : SR Tx A) : Prop :=
  forall tx, settled tx -> settled (m tx).2 /\ forall a, (m tx).1 = Ok a -> Q a.

Lemma keeps_ret {A : Type} (Q : A -> Prop) a : Q a -> keeps Q (sret a).
Proof. intros H tx Hs. split; [done|]. by intros a' [= <-]. Qed.
Lemma keeps_lift {A : Type} (Q : A -> Prop) (r : result A) : (forall a, r = Ok a -> Q a) -> keeps Q (slift r).
Proof. intros H tx Hs. split; [done|]. apply H. Qed.
Lemma keeps_err {A : Type} (Q : A -> Prop) e : keeps Q (serr e).
Proof. intros tx Hs. split; [done|]. by intros a. Qed.
Lemma keeps_bind {A B : Type} (P : A -> Prop) (Q : B -> Prop) m k :
  keeps P m -> (forall a, P a -> keeps Q (k a)) -> keeps Q (sbind m k).
Proof.
  intros Hm Hk tx Hs. unfold sbind. specialize (Hm tx Hs). destruct (m tx) as [[a|e|] tx']; cbn [fst snd] in *.
  - destruct Hm as [Hs' Hp]. apply Hk; [by apply Hp|done].
  - split; [apply Hm|by intros a].
  - split; [apply Hm|by intros a].
Qed.
Lemma keeps_bind_lift {A B : Type} (Q : B -> Prop) (r : result A) (k : A -> SR Tx B) :
  (forall a, r = Ok a -> keeps Q (k a)) -> keeps Q (sbind (slift r) k).
Proof. intros H. apply (keeps_bind (fun a => r = Ok a)); [by apply keeps_lift|done]. Qed.

Lemma settled_nodes tx nodes : settled tx -> Forall node_good nodes -> settled (set_nodes nodes tx).
Proof. intros (? & ? & _ & ?) ?. done. Qed.

Lemma keeps_get_node i : keeps node_good (get_node i).
Proof. intros tx Hs. split; [done|]. cbn. intros n Hn. eapply unwrap_Forall; [done|]. by destruct Hs as (_ & _ & ? & _). Qed.
Lemma keeps_get_branch i : keeps (fun b => node_good (NBranch b)) (get_branch i).
Proof.
  eapply keeps_bind; [apply keeps_get_node|]. intros [l|b] Hn; [by apply keeps_lift|by apply keeps_ret].
Qed.
Lemma keeps_put_node i n : node_good n -> keeps (fun _ => True) (put_node i n).
Proof.
  intros Hn tx Hs. split; [|done]. unfold put_node. pose proof Hs as (_ & _ & Hnodes & _).
  destruct (vec_set i n (tx_nodes tx)) eqn:E; cbn [snd]; [|done..]. apply settled_nodes; [done|]. by eapply vec_set_Forall.
Qed.
Lemma keeps_push n : node_good n -> keeps child_good (push n).
Proof.
  intros Hn tx Hs. split; [|by intros a [= <-]]. apply settled_nodes; [done|]. pose proof Hs as (_ & _ & Hnodes & _).
  apply Forall_app. split; [done|]. by apply Forall_singleton.
Qed.
Lemma keeps_read_node c : child_good c -> keeps node_good (read_node c).
Proof using Hreads.
  intros Hc tx Hs. split; [done|]. cbn. pose proof Hs as (Hf & _ & Hn & _). destruct c as [o|i].
  - intros n Hn'. destruct Hc as [->|Hc]; [done|]. by eapply load_good.
  - intros n Hn'. by eapply unwrap_Forall.
Qed.
Lemma empty_leaf_good : node_good (NLeaf (mkLeaf [] [])).
Proof. split; [constructor|done]. Qed.
Lemma keeps_make_dirty c : child_good c -> keeps (fun _ => True) (make_dirty c).
Proof using Hreads.
  intros Hc tx Hs. split; [|done]. pose proof Hs as (Hf & _ & Hn & _). destruct c as [o|i]; cbn [make_dirty]; [|done].
  destruct (Z.eqb_spec o 0) as [->|Hne].
  - apply settled_nodes; [done|]. apply Forall_app. split; [done|]. apply Forall_singleton, empty_leaf_good.
  - destruct (load tx o) as [n| |] eqn:E; cbn [snd]; [|done..]. apply settled_nodes; [done|]. apply Forall_app. split; [done|].
    constructor; [|constructor]. destruct Hc as [->|Hc]; [done|]. eapply (load_good tx o); [done|done|]. cbn [node].
    by rewrite (proj2 (Z.eqb_neq _ _) Hne).
Qed.
Lemma keeps_set_root t c : child_good c -> keeps (fun _ => True) (set_root t c).
Proof. intros Hc tx (? & ? & ? & ? & ?). split; [|done]. by destruct t. Qed.

Definition split_good (sp : Split) : Prop := key_good (sp_sep sp) /\ child_good (sp_right sp).
Definition split_opt (s : option Split) : Prop := match s with Some sp => split_good sp | None => True end.

Lemma keeps_split_leaf i : keeps split_good (split_leaf i).
Proof.
  eapply keeps_bind; [apply keeps_get_node|]. intros [l|b] Hn; [|by apply keeps_lift]. destruct Hn as [Hk _]. cbn [node_keys] in Hk.
  apply keeps_bind_lift. intros at_ _. apply keeps_bind_lift. intros ks Hks. apply keeps_bind_lift. intros vs _.
  destruct (vec_split_off_Forall _ _ _ _ Hks Hk) as [Hk1 Hk2].
  eapply keeps_bind; [by apply keeps_put_node|]. intros _ _. apply keeps_bind_lift. intros sep Hsep.
  eapply keeps_bind; [by apply keeps_push|]. intros r Hr. apply keeps_ret. split; [|done]. by eapply unwrap_Forall.
Qed.
Lemma last_Forall {A : Type} (P : A -> Prop) l x : unwrap (last l) = Ok x -> Forall P l -> P x.
Proof. rewrite last_lookup. apply unwrap_Forall. Qed.
Lemma removelast_Forall {A : Type} (P : A -> Prop) l : Forall P l -> Forall P (removelast l).
Proof. induction 1 as [|x l Hx H IH]; [constructor|]. cbn. destruct l; [constructor|]. by constructor. Qed.
Lemma keeps_split_branch i : keeps split_good (split_branch i).
Proof.
  eapply keeps_bind; [apply keeps_get_node|]. intros [l|b] Hn; [by apply keeps_lift|]. destruct Hn as [Hk Hc]. cbn [node_keys] in Hk.
  apply keeps_bind_lift. intros mid _. apply keeps_bind_lift. intros ks Hks. apply keeps_bind_lift. intros sep Hsep.
  apply keeps_bind_lift. intros cs Hcs. apply keeps_bind_lift. intros ns _.
  destruct (vec_split_off_Forall _ _ _ _ Hks Hk) as [Hk1 Hk2]. destruct (vec_split_off_Forall _ _ _ _ Hcs Hc) as [Hc1 Hc2].
  eapply keeps_bind; [apply keeps_put_node; split; [by apply removelast_Forall|done]|]. intros _ _.
  eapply keeps_bind; [by apply keeps_push|]. intros r Hr. apply keeps_ret. split; [|done]. by eapply last_Forall.
Qed.
Lemma keeps_split_if_full i n : keeps split_opt (split_if_full i n).
Proof.
  unfold split_if_full. destruct (PAGE_SIZE <? encoded_len n); [|by apply keeps_ret].
  eapply (keeps_bind split_good); [destruct n; [apply keeps_split_leaf|apply keeps_split_branch]|]. intros sp Hsp. by apply keeps_ret.
Qed.

Lemma grow_branch_good b position nd replaced split b' :
  grow_branch b position nd replaced split = Ok b' -> node_good (NBranch b) -> child_good nd -> split_opt split -> node_good (NBranch b').
Proof.
  intros H [Hk Hc] Hnd Hsp. unfold grow_branch in H. cbn [node_keys] in Hk.
  destruct (vec_set position nd (br_children b)) as [cs| |] eqn:Ec; cbn [rbind] in H; [|done..].
  pose proof (vec_set_Forall _ _ _ _ _ Ec Hnd Hc) as Hcs.
  destruct (match replaced with Some _ => _ | None => _ end) as [ns| |]; cbn [rbind] in H; [|done..].
  destruct split as [sp|]; [|by apply Ok_inj in H as <-]. destruct Hsp as [Hsep Hright].
  destruct (vec_set position (sp_left_count sp) ns) as [ns'| |]; cbn [rbind] in H; [|done..].
  destruct (vec_insert position (sp_sep sp) (br_keys b)) as [ks| |] eqn:Ek; cbn [rbind] in H; [|done..].
  destruct (vec_insert (position + 1) (sp_right sp) cs) as [cs'| |] eqn:Ec'; cbn [rbind] in H; [|done..].
  destruct (vec_insert (position + 1) (sp_right_count sp) ns'); cbn [rbind] in H; [|done..]. apply Ok_inj in H as <-. split; cbn [node_keys br_keys br_children].
  - by eapply vec_insert_Forall.
  - by eapply vec_insert_Forall.
Qed.

Lemma keeps_insert_rec fuel c k v :
  child_good c -> key_good k -> keeps (fun r => child_good r.1.1 /\ split_opt r.2) (insert_rec fuel c k v).
Proof using Hreads.
  intros Hc Hk. revert c Hc; induction fuel as [|fuel IH]; intros c Hc; cbn [insert_rec]; [by apply keeps_lift|].
  eapply keeps_bind; [by apply keeps_make_dirty|]. intros idx _. eapply keeps_bind; [apply keeps_get_node|]. intros [l|b] Hn.
  - destruct Hn as [Hks _]. cbn [node_keys] in Hks. destruct (leaf_search l (k_bytes k)) as [i|i].
    + apply keeps_bind_lift. intros old _. apply keeps_bind_lift. intros vs _.
      eapply keeps_bind; [by apply keeps_put_node|]. intros _ _. by apply keeps_ret.
    + apply keeps_bind_lift. intros ks Hks'. apply keeps_bind_lift. intros vs _. pose proof (vec_insert_Forall _ _ _ _ _ Hks' Hk Hks) as Hks2.
      eapply keeps_bind; [by apply keeps_put_node|]. intros _ _. eapply keeps_bind; [apply keeps_split_if_full|].
      intros sp Hsp. by apply keeps_ret.
  - destruct Hn as [Hks Hcs]. apply keeps_bind_lift. intros below Hb.
    eapply keeps_bind; [apply IH; by eapply unwrap_Forall|]. intros [[nd replaced] split] [Hnd Hsp]. cbn [fst snd] in *.
    eapply keeps_bind; [apply keeps_get_node|]. intros [l|b'] Hn'; [by apply keeps_lift|]. apply keeps_bind_lift. intros grown Hg.
    eapply keeps_bind; [apply keeps_put_node; by eapply grow_branch_good|]. intros _ _.
    eapply keeps_bind; [apply keeps_split_if_full|]. intros sp' Hsp'. by apply keeps_ret.
Qed.

Lemma keeps_insert t key v : len key <= u32_max -> keeps (fun _ => True) (insert t key v).
Proof using Hreads.
  intros Hk tx Hs. unfold insert. assert (child_good (root tx t)) as Hr by (destruct Hs as (_ & _ & _ & ? & ?); by destruct t).
  revert tx Hs Hr. assert (forall c, child_good c -> keeps (fun _ => True)
   (let! r := insert_rec DEPTH c (key_new key) v in
   let '(nd, replaced, split) := r in
   let! new_root :=
     match split with
     | None => sret nd
     | Some split =>
         push (NBranch (mkBranch [sp_sep split] [nd; sp_right split] [sp_left_count split; sp_right_count split]))
     end in
   let! _ := set_root t new_root in
   sret replaced)) as H; [|intros tx Hs Hr; by apply H].
  intros c Hc. eapply keeps_bind; [apply keeps_insert_rec; [done|by split]|]. intros [[nd replaced] split] [Hnd Hsp]. cbn [fst snd] in *.
  eapply (keeps_bind child_good).
  - destruct split as [sp|]; [|by apply keeps_ret]. destruct Hsp. apply keeps_push. split; [by apply Forall_singleton|].
    cbn [br_children]. constructor; [done|]. by apply Forall_singleton.
  - intros r Hr. eapply keeps_bind; [by apply keeps_set_root|]. intros _ _. by apply keeps_ret.
Qed.

(** Results built by [let?]. *)
Lemma rbind_Ok_inv {A B : Type} (r : result A) (k : A -> result B) b :
  (let? a := r in k a) = Ok b -> exists a, r = Ok a /\ k a = Ok b.
Proof. destruct r; cbn [rbind]; [eauto|done|done]. Qed.

Lemma merge_nodes_good a b sep m :
  merge_nodes a b sep = Ok m -> node_good a -> node_good b -> key_good sep -> node_good m.
Proof.
  destruct a as [l|bl], b as [r|br]; cbn [merge_nodes]; try done; intros E [Hk1 Hc1] [Hk2 Hc2] Hs; apply Ok_inj in E as <-;
    (split; cbn [node_keys lf_keys br_keys br_children]); try done.
  - by apply Forall_app.
  - apply Forall_app. split; [done|]. by constructor.
  - by apply Forall_app.
Qed.

Lemma merged_branch_good b l li split b' :
  merged_branch b l li split = Ok b' -> node_good (NBranch b) -> split_opt split -> node_good (NBranch b').
Proof.
  intros H [Hk Hc] Hsp. unfold merged_branch in H. cbn [node_keys] in Hk. apply rbind_Ok_inv in H as (cs & Ec & H).
  pose proof (vec_set_Forall child_good _ _ _ _ Ec I Hc) as Hcs. destruct split as [sp|].
  - destruct Hsp as [Hsep Hright]. apply rbind_Ok_inv in H as (ks & Ek & H). apply rbind_Ok_inv in H as (cs' & Ec' & H).
    apply rbind_Ok_inv in H as (n1 & _ & H). apply rbind_Ok_inv in H as (n2 & _ & H). apply Ok_inj in H as <-.
    split; cbn [node_keys br_keys br_children]; by eapply vec_set_Forall.
  - apply rbind_Ok_inv in H as (x1 & _ & H). apply rbind_Ok_inv in H as (x2 & _ & H). apply rbind_Ok_inv in H as (n1 & _ & H).
    apply rbind_Ok_inv in H as (cs' & Ec' & H). apply rbind_Ok_inv in H as (n2 & _ & H). apply rbind_Ok_inv in H as (ks & Ek & H).
    apply Ok_inj in H as <-. split; cbn [node_keys br_keys br_children]; by eapply vec_remove_Forall.
Qed.

Lemma dropped_branch_good b i b' : dropped_branch b i = Ok b' -> node_good (NBranch b) -> node_good (NBranch b').
Proof.
  intros H [Hk Hc]. unfold dropped_branch in H. apply rbind_Ok_inv in H as (cs & Ec & H). apply rbind_Ok_inv in H as (ns & _ & H).
  apply rbind_Ok_inv in H as (ks & Ek & H). apply Ok_inj in H as <-. split; cbn [node_keys br_keys br_children]; by eapply vec_remove_Forall.
Qed.

Lemma keeps_merge_children idx l b : node_good (NBranch b) -> keeps (fun _ => True) (merge_children idx l b).
Proof using Hreads.
  intros Hb. pose proof Hb as [Hk Hc]. cbn [node_keys] in Hk. apply keeps_bind_lift. intros lc Hlc. apply keeps_bind_lift. intros rc Hrc.
  apply keeps_bind_lift. intros sep Hsep. pose proof (unwrap_Forall _ _ _ _ Hlc Hc) as Hlc'. pose proof (unwrap_Forall _ _ _ _ Hrc Hc) as Hrc'.
  pose proof (unwrap_Forall _ _ _ _ Hsep Hk) as Hsep'. eapply keeps_bind; [by apply keeps_make_dirty|]. intros li _.
  eapply keeps_bind; [by apply keeps_read_node|]. intros nr Hnr. eapply keeps_bind; [apply keeps_get_node|]. intros nl Hnl.
  apply keeps_bind_lift. intros m Hm. eapply keeps_bind; [apply keeps_put_node; by eapply merge_nodes_good|]. intros _ _.
  eapply keeps_bind; [apply keeps_split_if_full|]. intros sp Hsp. eapply keeps_bind; [apply keeps_get_branch|]. intros b2 Hb2.
  apply keeps_bind_lift. intros b3 Hb3. apply keeps_put_node. by eapply merged_branch_good.
Qed.

Lemma keeps_rebalance idx i : keeps (fun _ => True) (rebalance idx i).
Proof using Hreads.
  eapply keeps_bind; [apply keeps_get_branch|]. intros b Hb. apply keeps_bind_lift. intros count _. destruct (count =? 0).
  - apply keeps_bind_lift. intros b' Hb'. apply keeps_put_node. by eapply dropped_branch_good.
  - destruct (length (br_children b) <? 2)%nat; [by apply keeps_ret|]. apply keeps_bind_lift. intros below Hbelow.
    eapply keeps_bind; [apply keeps_read_node; destruct Hb; by eapply unwrap_Forall|]. intros n _.
    destruct (PAGE_SIZE / 4 <=? encoded_len n); [by apply keeps_ret|]. by apply keeps_merge_children.
Qed.

Lemma keeps_remove_rec fuel c key : child_good c -> keeps (fun r => child_good r.1) (remove_rec fuel c key).
Proof using Hreads.
  revert c; induction fuel as [|fuel IH]; intros c Hc; cbn [remove_rec]; [by apply keeps_lift|].
  eapply keeps_bind; [by apply keeps_make_dirty|]. intros idx _. eapply keeps_bind; [apply keeps_get_node|]. intros [l|b] [Hk Hcs].
  - destruct (leaf_search l key) as [i|i]; [|apply keeps_err]. apply keeps_bind_lift. intros ks Hks. apply keeps_bind_lift. intros v _.
    apply keeps_bind_lift. intros vs _. eapply keeps_bind; [apply keeps_put_node; split; [by eapply vec_remove_Forall|done]|].
    intros _ _. by apply keeps_ret.
  - apply keeps_bind_lift. intros below Hb. eapply keeps_bind; [apply IH; by eapply unwrap_Forall|]. intros r Hr.
    eapply keeps_bind; [apply keeps_get_branch|]. intros b2 [Hk2 Hc2]. apply keeps_bind_lift. intros cs Ecs.
    apply keeps_bind_lift. intros n1 _. apply keeps_bind_lift. intros n2 _.
    eapply keeps_bind; [apply keeps_put_node; split; [done|by eapply vec_set_Forall]|]. intros _ _.
    eapply keeps_bind; [apply keeps_rebalance|]. intros _ _. by apply keeps_ret.
Qed.

Lemma hand_over_good fuel tx c r : settled tx -> child_good c -> hand_over fuel tx c = Ok r -> child_good r.
Proof using Hreads.
  intros Hs. revert c; induction fuel as [|fuel IH]; intros c Hc; cbn [hand_over]; [done|].
  destruct (node tx c) as [n| |] eqn:E; cbn [rbind]; [|done..]. destruct (keeps_read_node c Hc tx Hs) as [_ Hn]. specialize (Hn n E).
  destruct n as [l|b].
  - destruct (lf_keys l); [|by intros [= <-]]. intros [= <-]. by left.
  - destruct Hn as [_ Hn]. destruct (br_children b) as [|only [|]]; try (by intros [= <-]).
    apply IH. by apply Forall_cons in Hn as [? _].
Qed.

Lemma keeps_remove t key : keeps (fun _ => True) (remove t key).
Proof using Hreads.
  intros tx Hs. split; [|done]. unfold remove. destruct (get tx t key) as [[v|]| |]; try done.
  assert (child_good (root tx t)) as Hr by (destruct Hs as (_ & _ & _ & ? & ?); by destruct t).
  assert (forall c, child_good c -> keeps (fun _ => True)
    (let! r := remove_rec DEPTH c key in
     let! new_root := (fun tx => (hand_over DEPTH tx r.1, tx)) in
     let! _ := set_root t new_root in
     sret (Some r.2))) as H; [|by apply (H _ Hr)].
  intros c Hc. eapply keeps_bind; [by apply keeps_remove_rec|]. intros r Hr'. eapply (keeps_bind child_good).
  - intros tx' Hs'. split; [done|]. intros a. by eapply hand_over_good.
  - intros a Ha. eapply keeps_bind; [by apply keeps_set_root|]. intros _ _. by apply keeps_ret.
Qed.


(** A tree of the transaction that is on disk is a tree of the base. *)
Lemma tree_settles md tx d o lo hi fp es :
  tx_file tx = tf -> tree_at md tx d (Disk o) lo hi fp es -> disk_good o -> tree_at md (reader tfs) d (Disk o) lo hi [] es.
Proof using Hreads.
  intros Htf. revert o lo hi fp es; induction d as [|d IH]; intros o lo hi fp es Ht Hg;
    (assert (fp = []) as -> by (by destruct (tree_at_reads md tx tx _ _ _ _ _ _ (reads_refl _) Ht)));
    destruct Ht as (n & Hn & Hfit & H); pose proof Hg as (md' & d' & lo' & hi' & fp' & es' & Hg');
    (assert (node (reader tfs) (Disk o) = Ok n) as Hn';
     [assert (exists n', node (reader tfs) (Disk o) = Ok n') as [n' E] by (destruct d'; destruct Hg' as (n' & ? & _); eauto);
      pose proof (node_reads (reader tfs) tx o n') as Hr; rewrite Htf in Hr; specialize (Hr Hreads E); congruence|]).
  - exists n. destruct n; [|done]. done.
  - destruct n as [|b]; [done|]. pose proof (load_good tx o (NBranch b) Htf Hg Hn) as [_ Hc].
    destruct H as (ss & Hf & Hch & Hco & H2 & Hfp & Hes). rewrite Hch in Hc. rewrite Forall_fmap, Forall_forall in Hc.
    exists (NBranch b). split; [done|]. split; [done|]. exists ss. split_and!; try done.
    eapply forest_impl; [|exact Hf]. intros s b0 b0' Hin Hts.
    destruct (disk_children _ _ _ (s_child s) Hn) as [o' Ho']; [rewrite Hch; apply list_elem_of_fmap; eauto|]. specialize (Hc s Hin). cbn in Hc.
    rewrite Ho' in *. destruct Hc as [->|Hc]; [by apply tree_at_not_empty in Hts as [? _]|].
    assert (s_fp s = []) as -> by (by destruct (tree_at_reads md tx tx _ _ _ _ _ _ (reads_refl _) Hts)). by eapply IH.
Qed.

End Arena.
