(* ===== verification/ZsetCommitProof.v ===== *)
(** * A commit publishes the transaction's trees

    [shows F pb pages] is a file that still reads the base and holds [pages] at [pb].
    [write_child] is followed through: in every file that shows the pages it has
    produced, the offset it returns is the root of the same tree.  [commit] then writes
    those pages, and either publishes the new state or leaves the old one in force. *)

From Stdlib Require Import ZArith Lia Sorting.Sorted.
From stdpp Require Import gmap.
From S2P Require Import Prelude Bytes Crc IoBackend F64 ZsetFormat Assoc ZsetNode ZsetStore ZsetTree ZsetTreeProof ZsetTreeInsert ZsetTreeRemove ZsetCommit ZsetArena.

Lemma len_seal `{Crc32fast} page : len (seal page) = PAGE_SIZE.
Proof. unfold seal. cbv zeta. unfold len. rewrite len_resize. done. Qed.

Lemma encode_chunks_sizes `{Crc32fast} i n first cs : Forall (fun p => len p = PAGE_SIZE) (encode_chunks i n first cs).
Proof. revert i; induction cs as [|c cs IH]; intros i; cbn [encode_chunks]; constructor; [apply len_seal|apply IH]. Qed.

Lemma len_pages pages : Forall (fun p : bytes => len p = PAGE_SIZE) pages -> len (mjoin pages) = len pages * PAGE_SIZE.
Proof. induction 1 as [|p pages Hp H IH]; [done|]. rewrite mjoin_cons, len_app, len_cons, IH, Hp. lia. Qed.

Section Write.
Context {C : Crc32fast} {CL : Crc32fastLaws C}.
Context (tfs tf : TreeFile) (base : TreeState) (pb : Z).
Hypothesis Hreads : reads tfs tf.
Hypothesis Hpb : HEADER_REGION <= pb.

Definition shows (F : TreeFile) (pages : list bytes) : Prop :=
  reads tfs F /\ tf_len F <= u64_max /\ holds_at F pb (mjoin pages).

Lemma shows_app F pages more : shows F (pages ++ more) -> shows F pages.
Proof. intros (? & ? & H). rewrite join_app in H. apply holds_at_app in H as [? _]. done. Qed.

(** What the context remembers is true of every file that shows its pages. *)
Definition wc_ok (wc : WriteCtx) : Prop :=
  Forall (fun p => len p = PAGE_SIZE) (wc_pages wc) /\
  forall k h, find_head (wc_overflow wc) k = Some h ->
    forall F, shows F (wc_pages wc) -> u64_ok h /\ read_overflow F h (len k) = Ok k.

(** The pages only grow, and only the nodes of [fp] are touched. *)
Record wc_step (wc wc' : WriteCtx) (fp : list nat) : Prop := {
  ws_pages : exists more, wc_pages wc' = wc_pages wc ++ more;
  ws_ok : wc_ok wc';
  ws_nodes : forall i, i ∉ fp -> wc_nodes wc' !! i = wc_nodes wc !! i;
  ws_written : forall i, i ∉ fp -> wc_written wc' !! i = wc_written wc !! i;
}.

Lemma wc_step_refl wc fp : wc_ok wc -> wc_step wc wc fp.
Proof. intros H. constructor; try done. exists []. by rewrite app_nil_r. Qed.
Lemma wc_step_trans wc wc1 wc2 fp1 fp2 fp :
  wc_step wc wc1 fp1 -> wc_step wc1 wc2 fp2 -> (forall i, i ∈ fp1 -> i ∈ fp) -> (forall i, i ∈ fp2 -> i ∈ fp) -> wc_step wc wc2 fp.
Proof.
  intros [[m1 P1] O1 N1 W1] [[m2 P2] O2 N2 W2] H1 H2. constructor.
  - exists (m1 ++ m2). by rewrite P2, P1, app_assoc.
  - done.
  - intros i Hi. rewrite N2, N1; [done|intros H; by apply Hi, H1|intros H; by apply Hi, H2].
  - intros i Hi. rewrite W2, W1; [done|intros H; by apply Hi, H1|intros H; by apply Hi, H2].
Qed.
Lemma wc_step_shows wc wc' fp F : wc_step wc wc' fp -> shows F (wc_pages wc') -> shows F (wc_pages wc).
Proof. intros [[m ->] _ _ _]. apply shows_app. Qed.

(** The next offset, in a file with more pages. *)
Lemma next_offset_shows wc more F :
  wc_ok wc -> more <> [] -> Forall (fun p => len p = PAGE_SIZE) more -> shows F (wc_pages wc ++ more) ->
  next_offset pb wc = pb + len (wc_pages wc) * PAGE_SIZE /\ u64_ok (next_offset pb wc) /\
  holds_at F (next_offset pb wc) (mjoin more) /\ HEADER_REGION <= next_offset pb wc.
Proof using Hpb.
  intros [Hp _] Hne Hm (_ & Hu & H). rewrite join_app in H. apply holds_at_app in H as [H1 H2]. rewrite len_pages in H2 by done.
  assert (PAGE_SIZE <= len (mjoin more)) as Hlm.
  { rewrite len_pages by done. destruct more; [done|]. rewrite len_cons. pose proof (len_nonneg more). unfold PAGE_SIZE. lia. }
  pose proof (len_nonneg (wc_pages wc)). unfold next_offset. destruct H2 as (Ha & Hb & Hc). unfold PAGE_SIZE, HEADER_REGION in *.
  rewrite add64_small by lia. split; [done|]. split; [unfold u64_ok; lia|]. split; [done|lia].
Qed.

Lemma write_key_spec k wc :
  wc_ok wc -> key_good tfs k ->
  exists k' wc', write_key pb k wc = (Ok k', wc') /\ wc_step wc wc' [] /\ k_bytes k' = k_bytes k /\ writable k' /\
    forall F, shows F (wc_pages wc') -> key_ok (read_overflow F) k'.
Proof using CL Hpb.
  intros Hok [Hlen Hgood]. unfold write_key. destruct (is_long (k_bytes k)) eqn:El; cbn [andb].
  2:{ exists k, wc. split; [done|]. split; [by apply wc_step_refl|]. split; [done|]. unfold writable, key_ok. rewrite El. done. }
  case_bool_decide as Eo.
  2:{ destruct (k_overflow k) as [h|] eqn:Eh; [|done]. destruct (Hgood eq_refl h eq_refl) as [Hh Hr]. exists k, wc.
      split; [done|]. split; [by apply wc_step_refl|]. split; [done|]. split; [by intros _; rewrite Eh|].
      intros F (HrF & _) _. split; [done|]. exists h. split; [done|]. split; [done|]. by eapply read_overflow_reads. }
  destruct (find_head (wc_overflow wc) (k_bytes k)) as [h|] eqn:Ef.
  - eexists _, wc. split; [done|]. split; [by apply wc_step_refl|]. split; [done|]. split; [by intros _; eexists|].
    intros F HF _. destruct Hok as [_ Hov]. destruct (Hov _ _ Ef F HF) as [? ?]. split; [done|]. exists h. done.
  - set (head := next_offset pb wc). set (more := encode_overflow (k_bytes k) head).
    assert (Forall (fun p => len p = PAGE_SIZE) more) as Hmore.
    { unfold more, encode_overflow. cbv zeta. apply encode_chunks_sizes. }
    assert (k_bytes k <> []) as Hne.
    { destruct (is_long_spec (k_bytes k)) as [Hl|]; [|done]. intros E. rewrite E, len_nil in Hl. unfold INLINE_KEY_MAX in Hl. lia. }
    assert (more <> []) as Hmne.
    { unfold more, encode_overflow. cbv zeta. destruct (k_bytes k) as [|x b] eqn:Ek; [done|]. cbn [length chunks encode_chunks]. congruence. }
    assert (forall F, shows F (wc_pages wc ++ more) -> u64_ok head /\ read_overflow F head (len (k_bytes k)) = Ok (k_bytes k)) as Hread.
    { intros F HF. destruct (next_offset_shows wc more F Hok Hmne Hmore HF) as (_ & ? & Hh & ?). split; [done|].
      destruct HF as (_ & Hu & _). by apply read_overflow_chain. }
    eexists _, _. split; [done|]. cbn [wc_pages]. split; [constructor; cbn [wc_pages wc_nodes wc_written]; try done|].
    + by exists more.
    + destruct Hok as [Hp Hov]. split; [by apply Forall_app|]. cbn [wc_pages wc_overflow find_head]. intros k0 h.
      destruct (bytes_eqb_spec (k_bytes k) k0) as [<-|]; [intros [= <-]; done|]. intros Hf F HF. eapply Hov; [done|]. by eapply shows_app.
    + split; [done|]. split; [by intros _; eexists|]. intros F HF _. split; [done|]. exists head. destruct (Hread F HF). done.
Qed.

Lemma write_keys_spec ks wc :
  wc_ok wc -> Forall (key_good tfs) ks ->
  exists ks' wc', write_keys pb ks wc = (Ok ks', wc') /\ wc_step wc wc' [] /\ k_bytes <$> ks' = k_bytes <$> ks /\ Forall writable ks' /\
    forall F, shows F (wc_pages wc') -> Forall (key_ok (read_overflow F)) ks'.
Proof using CL Hpb.
  intros Hok Hks. revert wc Hok; induction Hks as [|k ks Hk _ IH]; intros wc Hok; cbn [write_keys].
  { exists [], wc. split; [done|]. split; [by apply wc_step_refl|]. split; [done|]. split; [constructor|]. by constructor. }
  destruct (write_key_spec k wc Hok Hk) as (k' & wc1 & E1 & S1 & B1 & W1 & F1).
  destruct (IH wc1) as (ks' & wc2 & E2 & S2 & B2 & W2 & F2); [by destruct S1|].
  exists (k' :: ks'), wc2. split; [by sstep E1; sstep E2|]. split; [by eapply wc_step_trans|]. split; [cbn; by rewrite B1; f_equal|].
  split; [by constructor|]. intros F HF. constructor; [|by apply F2]. apply F1. by eapply wc_step_shows.
Qed.

Definition write_node (index : nat) : SR WriteCtx Z :=
  let! n := wc_node index in
  let! keys := write_keys pb (node_keys n) in
  let n := set_keys n keys in
  let! _ := wc_put index n in
  write_page pb index n.

Lemma set_keys_len n ks : k_bytes <$> ks = k_bytes <$> node_keys n -> node_shape n ->
  encoded_len (set_keys n ks) = encoded_len n /\ node_shape (set_keys n ks) /\ node_keys (set_keys n ks) = ks.
Proof.
  intros E Hs. pose proof (f_equal length E) as El. rewrite !length_fmap in El.
  assert (forall g : bytes -> Z, zsum ((fun k => g (k_bytes k)) <$> ks) = zsum ((fun k => g (k_bytes k)) <$> node_keys n)) as Hz.
  { intros g. change (zsum (g ∘ k_bytes <$> ks) = zsum (g ∘ k_bytes <$> node_keys n)). by rewrite !list_fmap_compose, E. }
  destruct n as [l|b]; cbn [set_keys node_keys encoded_len node_shape] in *; (split; [|split; [|done]]).
  - unfold leaf_encoded_len. f_equal. cbn [lf_keys lf_values].
    assert (forall ks vs, entry_size <$> zip ks vs =
      zip_with (fun (kb v : bytes) => (if is_long kb then OVERFLOW_KEY_SIZE else 3 + len kb) + 2 + len v) (k_bytes <$> ks) vs) as Hzip.
    { clear. intros ks. induction ks as [|k ks IH]; intros [|v vs]; try done. cbn. by rewrite IH. }
    by rewrite !Hzip, E.
  - cbn. lia.
  - unfold branch_encoded_len. f_equal. cbn [br_keys]. apply (Hz (fun kb => (if is_long kb then OVERFLOW_KEY_SIZE else 3 + len kb) + 16)).
  - cbn. lia.
Qed.

Lemma child_offset_step wc wc' cs offs :
  wc_step wc wc' [] -> places (child_offset wc) cs offs -> places (child_offset wc') cs offs.
Proof.
  intros S H. eapply Forall2_impl; [exact H|]. intros [o|i] off Ho; [done|]. cbn [child_offset] in *.
  by rewrite (ws_written _ _ _ S) by apply not_elem_of_nil.
Qed.

Lemma write_node_spec wc idx n offs :
  wc_ok wc -> wc_nodes wc !! idx = Some n -> node_shape n -> Forall (key_good tfs) (node_keys n) ->
  (if n is NBranch b then places (child_offset wc) (br_children b) offs else True) ->
  match write_node idx wc with
  | (Ok off, wc') => wc_step wc wc' [idx] /\ wc_written wc' !! idx = Some off /\
      exists ks, k_bytes <$> ks = k_bytes <$> node_keys n /\ forall F, shows F (wc_pages wc') ->
        (if n is NBranch b then Forall u64_ok offs /\ Forall u64_ok (br_counts b) else True) ->
        u64_ok off /\ node (reader F) (Disk off) = Ok (placed (set_keys n ks) offs)
  | (Err _, _) => PAGE_SIZE < encoded_len n
  | (Panic, _) => False
  end.
Proof using CL Hpb.
  intros Hok Hn Hsh Hk Hpl. unfold write_node. rewrite (sbind_Ok (wc_node idx) _ _ n wc) by (unfold wc_node; by rewrite Hn).
  destruct (write_keys_spec _ _ Hok Hk) as (ks & wc1 & E1 & S1 & B1 & W1 & F1). sstep E1.
  destruct (set_keys_len n ks B1 Hsh) as (Elen & Hsh' & Ekeys). set (n' := set_keys n ks) in *.
  rewrite (sbind_Ok (wc_put idx n') _ _ tt (mkWriteCtx (<[idx:=n']> (wc_nodes wc1)) (wc_pages wc1) (wc_written wc1) (wc_overflow wc1))) by done.
  set (wc2 := mkWriteCtx _ _ _ _). assert (if n' is NBranch b then places (child_offset wc2) (br_children b) offs else True) as Hpl'.
  { destruct n; [done|]. cbn. by eapply (child_offset_step wc wc1). }
  unfold write_page. destruct (Z.ltb_spec PAGE_SIZE (encoded_len n')) as [Hbig|Hsmall].
  { unfold encode_node. rewrite (proj2 (Z.ltb_lt _ _) Hbig). by rewrite <- Elen. }
  assert (Forall writable (node_keys n')) as Hw by (by rewrite Ekeys).
  pose proof (proj2 (encode_node_iff n' (child_offset wc2) offs _ Hsh' Hpl') (conj Hsmall (conj Hw eq_refl))) as Henc. rewrite Henc.
  set (page := seal _) in *. assert (len page = PAGE_SIZE) as Hpage by apply len_seal. clearbody page.
  assert (wc_ok wc1) as Hok1 by (by destruct S1). split; [|split].
  - constructor; unfold wc2; cbn [wc_pages wc_nodes wc_written].
    + destruct S1 as [[m ->] _ _ _]. exists (m ++ [page]). by rewrite app_assoc.
    + destruct Hok1 as [Hp Hov]. split; [by apply Forall_app; split; [|apply Forall_singleton]|]. cbn [wc_pages wc_overflow].
      intros k h Hf F HF. eapply Hov; [done|]. by eapply shows_app.
    + intros i Hi. rewrite list_lookup_insert_ne by (intros ->; apply Hi; left). apply (ws_nodes _ _ _ S1), not_elem_of_nil.
    + intros i Hi. rewrite lookup_insert_ne by (intros ->; apply Hi; left). apply (ws_written _ _ _ S1), not_elem_of_nil.
  - cbn [wc_written]. by rewrite lookup_insert_eq.
  - exists ks. split; [done|]. cbn [wc_pages wc2]. intros F HF Hu. change (next_offset pb wc2) with (next_offset pb wc1).
    destruct (next_offset_shows wc1 [page] F Hok1) as (_ & Hoff & Hh & Hreg); [done|by apply Forall_singleton|done|]. split; [done|].
    assert (mjoin [page] = page) as Ej by (cbn; by rewrite app_nil_r). rewrite Ej in Hh.
    pose proof (shows_app _ _ _ HF) as HF1. destruct HF as (_ & Hmax & _). cbn [node].
    destruct (Z.eqb_spec (next_offset pb wc1) 0) as [E0|_]; [unfold HEADER_REGION in Hreg; lia|]. unfold load. cbn [reader begin tx_file].
    rewrite (read_page_holds _ _ _ Hh Hpage Hreg Hmax). cbn [rbind].
    eapply (decode_encode_node _ n' (child_offset wc2)); [done|done|rewrite Ekeys; by apply F1|].
    destruct n; [done|]. cbn in Hpl' |- *. split; [done|]. destruct Hu. done.
Qed.

Lemma key_norm_bytes (ks : list Key) : k_bytes <$> (key_norm <$> ks) = k_bytes <$> ks.
Proof. rewrite <- list_fmap_compose. apply list_fmap_ext. intros i k _. cbn. unfold key_norm. by destruct (is_long (k_bytes k)). Qed.

Lemma leaf_tree_placed md F off l ks lo hi :
  leaf_wf l -> leaf_vals md l -> leaf_es l <> [] -> asorted (leaf_es l) -> within lo hi (leaf_es l) -> fits md (NLeaf l) ->
  k_bytes <$> ks = k_bytes <$> lf_keys l -> node (reader F) (Disk off) = Ok (placed (set_keys (NLeaf l) ks) []) ->
  tree_at md (reader F) 0 (Disk off) lo hi [] (leaf_es l).
Proof.
  intros Hw Hv Hne Hs Hi Hf Hks Hn. pose proof (set_keys_len (NLeaf l) (key_norm <$> ks)) as Hlen. rewrite key_norm_bytes in Hlen.
  specialize (Hlen Hks Hw). destruct Hlen as (Elen & Hsh & _). cbn [set_keys placed lf_keys lf_values] in Hn.
  exists (NLeaf (mkLeaf (key_norm <$> ks) (lf_values l))). split; [done|]. cbn [set_keys node_shape] in Hsh, Elen. split.
  { unfold fits in *. destruct (md_fit md); [|done]. by rewrite Elen. }
  assert (leaf_es (mkLeaf (key_norm <$> ks) (lf_values l)) = leaf_es l) as Ees.
  { unfold leaf_es. cbn [lf_keys lf_values]. by rewrite key_norm_bytes, Hks. }
  rewrite Ees. done.
Qed.

Definition placed_slot (s : slot) (off : Z) : slot := mkSlot (Disk off) (s_count s) [] (s_es s).

Lemma placed_slots_fst ss offs : length ss = length offs ->
  s_child <$> zip_with placed_slot ss offs = Disk <$> offs /\ s_count <$> zip_with placed_slot ss offs = s_count <$> ss /\
  forest_es (zip_with placed_slot ss offs) = forest_es ss /\ forest_fp (zip_with placed_slot ss offs) = [] /\
  length (zip_with placed_slot ss offs) = length ss.
Proof.
  revert offs; induction ss as [|s ss IH]; intros [|o offs] Hl; try done. injection Hl as Hl. destruct (IH offs Hl) as (E1 & E2 & E3 & E4 & E5).
  cbn [zip_with fmap list_fmap]. rewrite !forest_es_cons, forest_fp_cons. cbn [placed_slot s_child s_count s_es s_fp length].
  split_and!; [by f_equal|by f_equal|by f_equal|done|by f_equal].
Qed.

Lemma branch_tree_placed md F d off b ss offs ks lo hi :
  br_children b = s_child <$> ss -> br_counts b = s_count <$> ss -> (2 <= length ss)%nat -> length ss = length offs ->
  length ss = S (length (br_keys b)) -> fits md (NBranch b) ->
  k_bytes <$> ks = k_bytes <$> br_keys b -> node (reader F) (Disk off) = Ok (placed (set_keys (NBranch b) ks) offs) ->
  forest (tree_at md (reader F) d) (zip_with placed_slot ss offs) (bounds lo (k_bytes <$> br_keys b) hi) ->
  tree_at md (reader F) (S d) (Disk off) lo hi [] (forest_es ss).
Proof.
  intros Hch Hco H2 Hlo Hlk Hf Hks Hn Hfo. destruct (placed_slots_fst ss offs Hlo) as (E1 & E2 & E3 & E4 & E5).
  pose proof (set_keys_len (NBranch b) (key_norm <$> ks)) as Hlen. rewrite key_norm_bytes in Hlen.
  destruct Hlen as (Elen & _ & _); [done| |].
  { cbn. rewrite Hch, Hco, !length_fmap. lia. }
  cbn [set_keys placed br_keys br_counts] in Hn. eexists. split; [exact Hn|]. split.
  { unfold fits in *. destruct (md_fit md); [|done]. cbn [set_keys encoded_len] in Elen, Hf |- *. unfold branch_encoded_len in *. cbn [br_keys] in *. lia. }
  exists (zip_with placed_slot ss offs). cbn [br_keys br_children br_counts]. rewrite key_norm_bytes, Hks, E1, E2, E3, E4, E5, Hco. done.
Qed.

(** The result of writing the tree under [c]. *)
Definition written_tree (md : mode) (d : nat) (c : Child) (lo hi : bound) (fp : list nat) (es : entries) (wc : WriteCtx)
    (r : result Z * WriteCtx) : Prop :=
  match r with
  | (Ok off, wc') => wc_step wc wc' fp /\ child_offset wc' c = Ok off /\
      forall F, shows F (wc_pages wc') -> u64_ok off /\ tree_at md (reader F) d (Disk off) lo hi [] es
  | (Err _, _) => md_fit md = false
  | (Panic, _) => False
  end.

(** What the context must know of the nodes to write. *)
Definition unwritten (tx : Tx) (wc : WriteCtx) (fp : list nat) : Prop :=
  wc_ok wc /\ forall i, i ∈ fp -> wc_nodes wc !! i = tx_nodes tx !! i /\ wc_written wc !! i = None.

Lemma unwritten_app tx wc a b : unwritten tx wc (a ++ b) <-> unwritten tx wc a /\ unwritten tx wc b.
Proof.
  unfold unwritten. setoid_rewrite elem_of_app. split; [intros [? H]; split; (split; [done|]); auto|].
  intros [[? H1] [_ H2]]. split; [done|]. intros i [?|?]; auto.
Qed.

Lemma unwritten_step tx wc wc' a b : unwritten tx wc b -> wc_step wc wc' a -> (forall i, i ∈ a -> i ∉ b) -> unwritten tx wc' b.
Proof.
  intros [_ H] [_ Hok Hn Hw] Hd. split; [done|]. intros i Hi. assert (i ∉ a) as Ha by (intros ?; by apply (Hd i)).
  rewrite Hn, Hw by done. by apply H.
Qed.

Lemma child_offset_keep wc wc' fp c off :
  child_offset wc c = Ok off -> wc_step wc wc' fp -> (forall i, i ∈ own c -> i ∉ fp) -> child_offset wc' c = Ok off.
Proof.
  intros H S Hd. destruct c as [o|i]; [done|]. cbn [child_offset] in *. rewrite (ws_written _ _ _ S); [done|]. apply Hd. left.
Qed.

Lemma tree_at_own md tx d c lo hi fp es : tree_at md tx d c lo hi fp es -> forall i, i ∈ own c -> i ∈ fp.
Proof.
  destruct d; intros (n & _ & _ & H) i Hi; destruct n; try done.
  - by destruct H as (_ & _ & _ & _ & _ & _ & ->).
  - destruct H as (ss & _ & _ & _ & _ & -> & _). apply elem_of_app. by left.
Qed.

Lemma tree_offset_u64 md tx d o lo hi fp es : tree_at md tx d (Disk o) lo hi fp es -> u64_ok o.
Proof.
  intros H. assert (exists n, node tx (Disk o) = Ok n) as [n Hn] by (destruct d; destruct H as (n & ? & _); eauto).
  cbn [node] in Hn. destruct (o =? 0); [done|]. unfold load in Hn. destruct (read_page (tx_file tx) o) as [pg| |] eqn:E; cbn [rbind] in Hn; [|done..].
  unfold read_page in E. destruct (Z.ltb_spec o HEADER_REGION); [done|]. apply read_exact_inv in E as (_ & ? & _).
  unfold u64_ok, HEADER_REGION, PAGE_SIZE in *. lia.
Qed.

Lemma forest_counts_le P ss bs : forest P ss bs -> Forall (fun c => 0 <= c <= len (forest_es ss)) (s_count <$> ss).
Proof.
  induction 1 as [|s ss b b' bs HP Hc Hb Hf IH]; cbn [fmap list_fmap]; [constructor|]. rewrite forest_es_cons, len_app.
  pose proof (len_nonneg (s_es s)). pose proof (len_nonneg (forest_es ss)). constructor; [lia|]. eapply Forall_impl; [exact IH|]. cbn. lia.
Qed.

Section WriteTree.
Context (md : mode) (tx : Tx).
Hypothesis Hset : settled tfs tf base tx.

(** The children of a branch, one after the other. *)
Lemma write_forest d fuel ss bs wc :
  (forall s lo hi wc, s ∈ ss -> tree_at md tx d (s_child s) lo hi (s_fp s) (s_es s) -> child_good tfs (s_child s) -> owned tx (s_fp s) ->
    unwritten tx wc (s_fp s) -> written_tree md d (s_child s) lo hi (s_fp s) (s_es s) wc (write_child fuel pb (s_child s) wc)) ->
  forest (tree_at md tx d) ss bs -> Forall (child_good tfs) (s_child <$> ss) -> owned tx (forest_fp ss) -> unwritten tx wc (forest_fp ss) ->
  match sfor (write_child fuel pb) (s_child <$> ss) wc with
  | (Ok _, wc') => wc_step wc wc' (forest_fp ss) /\ exists offs, length ss = length offs /\
      places (child_offset wc') (s_child <$> ss) offs /\
      forall F, shows F (wc_pages wc') -> Forall u64_ok offs /\ forest (tree_at md (reader F) d) (zip_with placed_slot ss offs) bs
  | (Err _, _) => md_fit md = false
  | (Panic, _) => False
  end.
Proof.
  intros Hrec Hf. revert wc Hrec; induction Hf as [b|s ss b b' bs HP Hc Hb Hf IH]; intros wc Hrec Hg Ho Hu; cbn [fmap list_fmap sfor].
  { split; [by apply wc_step_refl; destruct Hu|]. exists []. split; [done|]. split; [constructor|]. intros F HF. split; [constructor|constructor]. }
  rewrite forest_fp_cons in *. apply owned_app in Ho as (Ho1 & Ho2 & Hd). apply unwritten_app in Hu as [Hu1 Hu2].
  apply Forall_cons in Hg as [Hg1 Hg2]. pose proof (Hrec s _ _ wc ltac:(left) HP Hg1 Ho1 Hu1) as Hs. unfold written_tree in Hs. unfold sbind.
  destruct (write_child fuel pb (s_child s) wc) as [[off|e|] wc1]; [|done|done]. destruct Hs as (S1 & Hoff & HF1).
  specialize (IH wc1 ltac:(intros; apply Hrec; [by right|done..]) Hg2 Ho2 (unwritten_step _ _ _ _ _ Hu2 S1 Hd)).
  change (match sfor (write_child fuel pb) (s_child <$> ss) wc1 with
    | (Ok _, wc') => wc_step wc wc' (s_fp s ++ forest_fp ss) /\ exists offs, length (s :: ss) = length offs /\
        places (child_offset wc') (s_child s :: (s_child <$> ss)) offs /\
        forall F, shows F (wc_pages wc') -> Forall u64_ok offs /\ forest (tree_at md (reader F) d) (zip_with placed_slot (s :: ss) offs) (b :: b' :: bs)
    | (Err _, _) => md_fit md = false
    | (Panic, _) => False end).
  destruct (sfor _ _ wc1) as [[u|e|] wc2]; [|done|done].
  destruct IH as (S2 & offs & Hl & Hpl & HF2). split.
  { eapply wc_step_trans; [exact S1|exact S2|..]; intros i Hi; apply elem_of_app; auto. }
  exists (off :: offs). split; [cbn; by f_equal|]. split.
  - constructor; [|done]. eapply child_offset_keep; [exact Hoff|exact S2|]. intros i Hi. apply Hd. by eapply tree_at_own.
  - intros F HF. destruct (HF2 F HF) as [Hu64 Hfo]. destruct (HF1 F) as [Hu1' Ht]; [by eapply wc_step_shows|].
    split; [by constructor|]. cbn [zip_with]. by constructor.
Qed.

Lemma node_shape_branch d b ss lo hi :
  forest (tree_at md tx d) ss (bounds lo (k_bytes <$> br_keys b) hi) -> br_children b = s_child <$> ss -> br_counts b = s_count <$> ss ->
  (2 <= length ss)%nat -> node_shape (NBranch b) /\ length ss = S (length (br_keys b)).
Proof.
  intros Hf Hch Hco H2. apply forest_length in Hf. unfold bounds in Hf. cbn [length] in Hf. rewrite length_app, !length_fmap in Hf. cbn in Hf.
  cbn [node_shape]. rewrite Hch, Hco, !length_fmap. lia.
Qed.

Lemma settled_node i n : tx_nodes tx !! i = Some n -> node_good tfs n.
Proof using Hset. destruct Hset as (_ & _ & H & _). intros Hn. by eapply Forall_lookup_1 in H. Qed.

Theorem write_child_at d fuel c lo hi fp es wc :
  tree_at md tx d c lo hi fp es -> child_good tfs c -> owned tx fp -> unwritten tx wc fp -> len es <= u64_max -> (d < fuel)%nat ->
  written_tree md d c lo hi fp es wc (write_child fuel pb c wc).
Proof using CL Hpb Hreads Hset.
  intros Ht Hg Ho Hu Hmax Hd. revert fuel c lo hi fp es wc Ht Hg Ho Hu Hmax Hd; induction d as [|d IH];
    intros fuel c lo hi fp es wc Ht Hg Ho Hu Hmax Hd; (destruct fuel as [|fuel]; [lia|]); destruct c as [o|idx]; cbn [write_child].
  1,3: destruct Hg as [->|Hg]; [by apply tree_at_not_empty in Ht as [? _]|]; cbn [written_tree];
    (split; [apply wc_step_refl; by destruct Hu|]); (split; [done|]); intros F (HrF & _ & _);
    (pose proof Hset as (Htf & _)); pose proof (tree_settles tfs tf Hreads _ _ _ _ _ _ _ _ Htf Ht Hg) as Ht';
    destruct (tree_at_reads _ (reader tfs) (reader F) _ _ _ _ _ _ HrF Ht') as [Ht'' _]; split; [|done];
    by eapply tree_offset_u64.
  - destruct Ht as (n & Hn & Hfit & H). destruct n as [l|]; [|done]. destruct H as (Hw & Hv & -> & Hne & Hs & Hi & ->).
    cbn [node own] in *. destruct (tx_nodes tx !! idx) as [n'|] eqn:En; [|done]. cbn [unwrap] in Hn. apply Ok_inj in Hn as ->.
    destruct Hu as [Hok Hu]. destruct (Hu idx ltac:(left)) as [Hnode ->]. rewrite En in Hnode.
    rewrite (sbind_Ok (wc_node idx) _ _ (NLeaf l) wc) by (unfold wc_node; by rewrite Hnode). rewrite (sbind_Ok (sret tt) _ _ tt wc) by done.
    pose proof (write_node_spec wc idx (NLeaf l) [] Hok Hnode Hw (proj1 (settled_node _ _ En)) I) as Hspec.
    change (written_tree md 0 (Dirty idx) lo hi [idx] (leaf_es l) wc (write_node idx wc)).
    destruct (write_node idx wc) as [[off|e|] wc']; cbn [written_tree].
    + destruct Hspec as (S & Hwr & ks & Hks & HF). split; [done|]. split; [cbn; by rewrite Hwr|]. intros F HsF.
      destruct (HF F HsF I) as [? ?]. split; [done|]. by eapply leaf_tree_placed.
    + unfold fits in Hfit. destruct (md_fit md); [lia|done].
    + done.
  - destruct Ht as (n & Hn & Hfit & H). destruct n as [|b]; [done|]. destruct H as (ss & Hf & Hch & Hco & H2 & -> & ->).
    cbn [node own app] in *. destruct (tx_nodes tx !! idx) as [n'|] eqn:En; [|done]. cbn [unwrap] in Hn. apply Ok_inj in Hn as ->.
    pose proof Hu as [Hok Hu']. destruct (Hu' idx ltac:(left)) as [Hnode ->]. rewrite En in Hnode.
    apply (owned_app tx [idx]) in Ho as (_ & Ho & Hdisj). apply (unwritten_app tx wc [idx]) in Hu as [_ Hu].
    destruct (node_shape_branch _ _ _ _ _ Hf Hch Hco H2) as [Hsh Hlk]. pose proof (settled_node _ _ En) as [Hkg Hcg].
    rewrite (sbind_Ok (wc_node idx) _ _ (NBranch b) wc) by (unfold wc_node; by rewrite Hnode).
    assert (forall s, s ∈ ss -> len (s_es s) <= u64_max) as Hsub.
    { intros s Hin. apply list_elem_of_lookup in Hin as [j Hj]. rewrite <- (take_drop_middle _ _ _ Hj), forest_es_app, forest_es_cons, !len_app in Hmax.
      pose proof (len_nonneg (forest_es (take j ss))). pose proof (len_nonneg (forest_es (drop (S j) ss))). lia. }
    pose proof (write_forest d fuel ss (bounds lo (k_bytes <$> br_keys b) hi) wc) as Hfor. rewrite <- Hch in Hfor. specialize (Hfor ltac:(intros; apply IH; [done..|by apply Hsub|lia]) Hf Hcg Ho Hu).
    destruct (sfor (write_child fuel pb) (br_children b) wc) as [[u|e|] wc1] eqn:Efor; [|by rewrite (sbind_Err _ _ _ _ _ Efor)|done].
    sstep Efor. destruct Hfor as (S1 & offs & Hlo & Hpl & HF1).
    assert (wc_nodes wc1 !! idx = Some (NBranch b)) as Hnode1 by (rewrite (ws_nodes _ _ _ S1); [done|apply Hdisj; left]).
    pose proof (write_node_spec wc1 idx (NBranch b) offs (ws_ok _ _ _ S1) Hnode1 Hsh Hkg Hpl) as Hspec.
    change (written_tree md (S d) (Dirty idx) lo hi (idx :: forest_fp ss) (forest_es ss) wc (write_node idx wc1)).
    destruct (write_node idx wc1) as [[off|e|] wc2]; cbn [written_tree].
    + destruct Hspec as (S2 & Hwr & ks & Hks & HF). split.
      { eapply wc_step_trans; [exact S1|exact S2|..]; intros i Hi; [by right|]. apply list_elem_of_singleton in Hi as ->. left. }
      split; [cbn; by rewrite Hwr|]. intros F HsF. destruct (HF1 F) as [Hu64 Hfo]; [by eapply wc_step_shows|].
      destruct (HF F HsF) as [? ?].
      { split; [done|]. rewrite Hco. pose proof (forest_counts_le _ _ _ Hf) as Hcl. eapply Forall_impl; [exact Hcl|]. cbn. unfold u64_ok. lia. }
      split; [done|]. by eapply branch_tree_placed.
    + unfold fits in Hfit. destruct (md_fit md); [lia|done].
    + done.
Qed.
End WriteTree.

End Write.

(** ** Files after a write *)

Lemma holds_at_slice tf a bs : holds_at tf a bs -> zslice (tf_data tf) a (a + len bs) = bs.
Proof. by intros (_ & _ & ?). Qed.

(** A file whose bytes are those of [tf] from the header to [n]. *)
Lemma reads_same tf tf' n :
  n <= tf_len tf' -> n <= len (tf_data tf) -> n <= len (tf_data tf') ->
  (forall a b, HEADER_REGION <= a -> b <= n -> zslice (tf_data tf') a b = zslice (tf_data tf) a b) ->
  reads (limit tf n) tf'.
Proof.
  intros Hl Hd Hd' H offset k bs Ho (H1 & H2 & H3)%read_exact_inv. cbn [limit tf_len] in H1. apply read_exact_intro; [lia|done|].
  change (tf_data (limit tf n)) with (tf_data tf) in H3. apply get_range_inv in H3 as (? & ? & ? & ->).
  rewrite get_range_Some by lia. by rewrite H by lia.
Qed.

(** ** The published state *)

Definition other_offset (s : HeaderSlot) : Z := if hs_generation s mod 2 =? 1 then SLOT_SIZE else 0.
Definition slot_at `{Crc32fast} (tf : TreeFile) (o : Z) : option HeaderSlot := slot_decode (zslice (tf_data tf) o (o + SLOT_SIZE)).
Definition home (st : TreeState) : HeaderSlot := mkHeaderSlot (ts_generation st) (ts_frame_end st) (ts_synced_frame_end st).

(** The newest slot names [st], whose frame is whole as far as its trailer says. *)
Definition published `{Crc32fast} (tf : TreeFile) (st : TreeState) : Prop :=
  HEADER_REGION <= ts_frame_end st <= tf_len tf /\ tf_len tf <= len (tf_data tf) /\ tf_len tf <= u64_max /\
  slot_at tf (slot_offset (home st)) = Some (home st) /\
  (forall s, slot_at tf (other_offset (home st)) = Some s -> hs_generation s < ts_generation st) /\
  ((ts_frame_end st = HEADER_REGION /\ st = state_empty (home st)) \/
   (HEADER_REGION + TRAILER_SIZE <= ts_frame_end st /\ exists t,
      trailer_decode (zslice (tf_data tf) (ts_frame_end st - TRAILER_SIZE) (ts_frame_end st)) = Some t /\
      tr_frame_start t < ts_frame_end st /\
      st = mkTreeState (tr_score_root t) (tr_member_root t) (tr_count t) (tr_token t) (ts_frame_end st) (ts_generation st)
             (ts_synced_frame_end st))).

Lemma slots_at `{Crc32fast} tf :
  HEADER_REGION <= tf_len tf <= len (tf_data tf) -> tf_len tf <= u64_max -> slots tf = Ok (slot_at tf 0, slot_at tf SLOT_SIZE).
Proof.
  intros Hl Hu. unfold slots. rewrite (read_exact_intro tf 0 (2 * SLOT_SIZE) (zslice (tf_data tf) 0 512)).
  - cbn [rbind]. unfold slot_at. f_equal. f_equal; f_equal.
    + change (2 * SLOT_SIZE) with 512. unfold zslice. rewrite !Z.sub_0_r, ztake_ztake. done.
    + unfold zslice. rewrite zdrop_ztake by (unfold SLOT_SIZE; lia). rewrite zdrop_zdrop by (unfold SLOT_SIZE; lia). done.
  - unfold HEADER_REGION, SLOT_SIZE in *. lia.
  - unfold SLOT_SIZE, u64_max. lia.
  - unfold HEADER_REGION, SLOT_SIZE in *. change (0 + 2 * 256) with 512. apply get_range_Some; lia.
Qed.

Lemma published_state `{Crc32fast} tf st : published tf st -> state tf = Ok st.
Proof.
  intros (Hfe & Hlen & Hu & Hhome & Hother & Hst). unfold state. rewrite slots_at by lia. cbn [rbind].
  assert (exists rest, newest_first (slot_at tf 0, slot_at tf SLOT_SIZE) = home st :: rest) as [rest ->].
  { unfold slot_offset, other_offset in *. cbn [hs_generation home] in *. destruct (ts_generation st mod 2 =? 1).
    - rewrite Hhome. cbn [newest_first]. destruct (slot_at tf SLOT_SIZE) as [s|]; [|by eexists].
      specialize (Hother s eq_refl). cbn [hs_generation home]. destruct (Z.ltb_spec (ts_generation st) (hs_generation s)); [lia|by eexists].
    - rewrite Hhome. cbn [newest_first]. destruct (slot_at tf 0) as [s|]; [|by eexists].
      specialize (Hother s eq_refl). cbn [hs_generation home]. destruct (Z.ltb_spec (hs_generation s) (ts_generation st)); [by eexists|lia]. }
  cbn [state_from hs_latest_frame_end home]. destruct Hst as [[Hfe' Hst]|(Hfe' & t & Ht & Hlt & Hst)].
  - rewrite Hfe', Z.eqb_refl. by rewrite Hst at 2.
  - destruct (Z.eqb_spec (ts_frame_end st) HEADER_REGION) as [E|_]; [unfold HEADER_REGION, TRAILER_SIZE in *; lia|].
    unfold trailer_ending_at. destruct (Z.ltb_spec (tf_len tf) (ts_frame_end st)); [lia|].
    destruct (Z.ltb_spec (ts_frame_end st) (HEADER_REGION + TRAILER_SIZE)); [lia|]. cbn [orb].
    rewrite (read_exact_intro tf _ _ (zslice (tf_data tf) (ts_frame_end st - TRAILER_SIZE) (ts_frame_end st))).
    + cbn [rbind]. rewrite Ht. rewrite (proj2 (Z.ltb_lt _ _) Hlt). f_equal. by symmetry.
    + lia.
    + lia.
    + replace (ts_frame_end st - TRAILER_SIZE + TRAILER_SIZE) with (ts_frame_end st) by lia. unfold HEADER_REGION, TRAILER_SIZE in *. apply get_range_Some; lia.
Qed.

(** ** Transactions on a published state *)

Section Transaction.
Context {C : Crc32fast} {CL : Crc32fastLaws C}.

Definition state_root (st : TreeState) (t : Tree) : Child := match t with Score => Disk (ts_score_root st) | Member => Disk (ts_member_root st) end.

(** The trees of a state, readable without what follows its frame. *)
Definition trees_in (fit : bool) (tf : TreeFile) (st : TreeState) (f : Tree -> entries) : Prop :=
  forall t, tree_under fit (reader (limit tf (ts_frame_end st))) t (state_root st t) [] (f t).

(** A transaction on [st] that holds [f]. *)
Definition tx_on (fit : bool) (tf : TreeFile) (st : TreeState) (tx : Tx) (f : Tree -> entries) : Prop :=
  tx_repr fit tx f /\ settled (limit tf (ts_frame_end st)) tf st tx.

Lemma tree_under_reads fit tx tx' t o es :
  reads (tx_file tx) (tx_file tx') -> tree_under fit tx t (Disk o) [] es -> tree_under fit tx' t (Disk o) [] es.
Proof.
  intros Hr [H|[d H]]; [by left|]. right. exists d. by destruct (tree_at_reads _ _ _ _ _ _ _ _ _ Hr H) as [? _].
Qed.

Lemma state_root_disk st t : exists o, state_root st t = Disk o.
Proof. destruct t; by eexists. Qed.

Lemma tree_under_good fit tf t c es : tree_under fit (reader tf) t c [] es -> (exists o, c = Disk o) -> child_good tf c.
Proof.
  intros H [o ->]. destruct H as [([= ->] & _)|[d H]]; [by left|]. right. by exists (mkMode fit t), d, None, None, [], es.
Qed.

Lemma begin_on fit tf st f : published tf st -> trees_in fit tf st f -> tx_on fit tf st (begin tf st) f.
Proof.
  intros (Hfe & _) Ht. split.
  - apply begin_repr. intros t. specialize (Ht t). destruct (state_root_disk st t) as [o E].
    replace (root (begin tf st) t) with (Disk o) by (rewrite <- E; by destruct t). rewrite E in Ht.
    eapply tree_under_reads; [|exact Ht]. cbn [reader begin tx_file]. rewrite <- (limit_len tf) at 2. apply reads_limit. lia.
  - split_and!; try done.
    + eapply (tree_under_good fit _ Score); [apply (Ht Score)|by eexists].
    + eapply (tree_under_good fit _ Member); [apply (Ht Member)|by eexists].
Qed.

(** Both trees of a transaction, written. *)
Lemma write_trees_spec fit tf st tx f :
  tx_on fit tf st tx f -> reads (limit tf (ts_frame_end st)) tf -> HEADER_REGION <= ts_frame_end st ->
  ts_frame_end st + FRAME_HEADER_SIZE <= u64_max -> (forall t, len (f t) <= u64_max) ->
  match write_trees tx with
  | Ok (roots, pages) => Forall (fun p => len p = PAGE_SIZE) pages /\
      forall F, shows (limit tf (ts_frame_end st)) (ts_frame_end st + FRAME_HEADER_SIZE) F pages ->
        u64_ok roots.1 /\ u64_ok roots.2 /\
        tree_under fit (reader F) Score (Disk roots.1) [] (f Score) /\ tree_under fit (reader F) Member (Disk roots.2) [] (f Member)
  | Err _ => fit = false
  | Panic => False
  end.
Proof.
  intros [(fps & Hu & Ho) Hset] Hr Hfe Hpb64 Hmax. pose proof Hset as (_ & Hb & _ & Hg1 & Hg2). unfold write_trees. rewrite Hb.
  rewrite add64_small by (unfold HEADER_REGION, FRAME_HEADER_SIZE in *; lia). set (pb := ts_frame_end st + FRAME_HEADER_SIZE).
  set (tfs := limit tf (ts_frame_end st)) in *.
  assert (HEADER_REGION <= pb) as Hpb by (unfold pb, FRAME_HEADER_SIZE; lia).
  assert (forall t wc, child_good tfs (root tx t) -> unwritten tfs pb tx wc (fps t) ->
    match write_child DEPTH pb (root tx t) wc with
    | (Ok off, wc') => wc_step tfs pb wc wc' (fps t) /\ forall F, shows tfs pb F (wc_pages wc') -> u64_ok off /\ tree_under fit (reader F) t (Disk off) [] (f t)
    | (Err _, _) => fit = false
    | (Panic, _) => False end) as Hone.
  { intros t wc Hg Huw. destruct (Hu t) as [(-> & E1 & E2)|[d Ht]].
    - cbn. rewrite E1 in *. split; [apply wc_step_refl; by destruct Huw|]. intros F HF. split; [unfold u64_ok, u64_max; lia|]. left. done.
    - pose proof (tree_at_depth _ _ _ _ _ _ _ _ Ht (Hmax t)) as Hd.
      assert (owned tx (fps t)) as Hot by (apply (owned_both _ _ t) in Ho; by apply owned_app in Ho as [? _]).
      pose proof (write_child_at tfs tf st pb Hr Hpb (mkMode fit t) tx Hset d DEPTH _ _ _ _ _ wc Ht Hg Hot Huw (Hmax t)) as Hw.
      specialize (Hw ltac:(unfold DEPTH; lia)). unfold written_tree in Hw. destruct (write_child DEPTH pb (root tx t) wc) as [[off|e|] wc']; [|done|done].
      destruct Hw as (S & _ & HF). split; [done|]. intros F HsF. destruct (HF F HsF). split; [done|]. right. by exists d. }
  set (wc0 := mkWriteCtx (tx_nodes tx) [] ∅ []).
  assert (wc_ok tfs pb wc0) as Hok0 by (split; [constructor|done]).
  assert (forall fp, unwritten tfs pb tx wc0 fp) as Hu0 by (intros fp; split; [done|]; intros i _; split; [done|apply lookup_empty]).
  pose proof (Hone Score wc0 Hg1 (Hu0 _)) as H1. change (root tx Score) with (tx_roots tx).1 in H1. unfold sbind.
  destruct (write_child DEPTH pb (tx_roots tx).1 wc0) as [[sr|e|] wc1]; [|done|done]. destruct H1 as (S1 & HF1).
  assert (unwritten tfs pb tx wc1 (fps Member)) as Hu1.
  { eapply unwritten_step; [apply Hu0|exact S1|]. by apply owned_app in Ho as (_ & _ & ?). }
  pose proof (Hone Member wc1 Hg2 Hu1) as H2. change (root tx Member) with (tx_roots tx).2 in H2.
  destruct (write_child DEPTH pb (tx_roots tx).2 wc1) as [[mr|e|] wc2]; [|done|done]. destruct H2 as (S2 & HF2).
  cbn [sret fst snd]. split; [by destruct (ws_ok _ _ _ _ _ S2)|]. intros F HF.
  destruct (HF1 F) as [? ?]; [by eapply wc_step_shows|]. destruct (HF2 F HF) as [? ?]. done.
Qed.

(** What [commit] writes and returns. *)
Definition commit_frame (tx : Tx) (token : Token) (roots : Z * Z) (pages : list bytes) : bytes :=
  let body := commit_body tx token pages in body ++ trailer_encode (commit_trailer tx token roots body).
Definition commit_state (tx : Tx) (token : Token) (roots : Z * Z) (pages : list bytes) : TreeState :=
  let st := tx_base tx in
  mkTreeState roots.1 roots.2 (tx_count tx) token (add64 (ts_frame_end st) (len (commit_frame tx token roots pages)))
    (add64 (ts_generation st) 1) (ts_synced_frame_end st).

(** The base of a transaction, unchanged in [F] up to its frame. *)
Definition base_kept (tf F : TreeFile) (n : Z) : Prop :=
  forall a b, HEADER_REGION <= a -> b <= n -> zslice (tf_data F) a b = zslice (tf_data tf) a b.

Lemma len_commit_frame tx token roots pages :
  len (commit_frame tx token roots pages) = FRAME_HEADER_SIZE + len (mjoin pages) + len (encode_ops (tx_log tx)) + TRAILER_SIZE.
Proof.
  unfold commit_frame, commit_body. cbv zeta. rewrite !len_app, len_frame_header_encode, len_trailer_encode. lia.
Qed.

(** The frame in a file: its trees are the transaction's. *)
Lemma frame_trees fit tf st tx f token roots pages F :
  published tf st -> tx_on fit tf st tx f -> (forall t, len (f t) <= u64_max) -> write_trees tx = Ok (roots, pages) ->
  let fs := ts_frame_end st in let fe := fs + len (commit_frame tx token roots pages) in
  fe <= u64_max -> fe <= len (tf_data F) -> base_kept tf F fs -> zslice (tf_data F) fs fe = commit_frame tx token roots pages ->
  u64_ok roots.1 /\ u64_ok roots.2 /\ ts_frame_end (commit_state tx token roots pages) = fe /\
  trees_in fit F (commit_state tx token roots pages) f.
Proof.
  intros (Hfe & Hld & Hu & _) Hon Hmax Hw fs fe Hmax64 HlF Hkept Hz.
  pose proof (len_commit_frame tx token roots pages) as Hlen. pose proof (len_nonneg (mjoin pages)). pose proof (len_nonneg (encode_ops (tx_log tx))).
  unfold HEADER_REGION, TRAILER_SIZE, FRAME_HEADER_SIZE in *.
  assert (reads (limit tf fs) tf) as Hr by (rewrite <- (limit_len tf) at 2; apply reads_limit; lia).
  pose proof (write_trees_spec fit tf st tx f Hon Hr) as Hspec. rewrite Hw in Hspec.
  destruct Hspec as [Hsz HF]; [unfold HEADER_REGION; lia|unfold FRAME_HEADER_SIZE, fe, fs in *; lia|done|].
  pose proof Hon as [_ (_ & Hbase & _)].
  assert (ts_frame_end (commit_state tx token roots pages) = fe) as Efe.
  { unfold commit_state. cbn [ts_frame_end]. rewrite Hbase, add64_small by (unfold fe, fs in *; lia). done. }
  assert (holds_at (limit F fe) fs (commit_frame tx token roots pages)) as Hh.
  { split; [unfold fs; lia|]. cbn [limit tf_len]. change (tf_data (limit F fe)) with (tf_data F). fold fe. split; [lia|done]. }
  unfold commit_frame in Hh at 1. cbv zeta in Hh. unfold commit_body in Hh at 1. rewrite <- !app_assoc in Hh.
  apply holds_at_app in Hh as [_ Hh]. rewrite len_frame_header_encode in Hh. apply holds_at_app in Hh as [Hh _].
  destruct (HF (limit F fe)) as (? & ? & T1 & T2).
  { split; [|split; [done|exact Hh]]. apply reads_same; [cbn; unfold fe, fs; lia|unfold fs; lia|change (fs <= len (tf_data F)); unfold fe, fs in *; lia|exact Hkept]. }
  split; [done|]. split; [done|]. split; [done|]. unfold trees_in. rewrite Efe. intros []; [exact T1|exact T2].
Qed.

Lemma write_at_cases o bs tf :
  (exists tf', write_at o bs tf = (Ok tt, tf') /\ tf_data tf' = overwrite (tf_data tf) o bs /\ tf_len tf' = tf_len tf) \/
  (exists tf' e k, write_at o bs tf = (Err e, tf') /\ tf_data tf' = overwrite (tf_data tf) o (ztake k bs) /\ tf_len tf' = tf_len tf).
Proof.
  unfold write_at, on_disk, sys_write_at, tf_data. destruct (IoBackend.d_faults (tf_disk tf)) as [|[[k e]|] ev].
  - left. eexists. split; [done|]. done.
  - right. eexists _, _, k. split; [done|]. done.
  - left. eexists. split; [done|]. done.
Qed.

Lemma len_slot_encode s : len (slot_encode s) = SLOT_SIZE.
Proof. rewrite slot_encode_eq, len_app, len_slot_image, len_replicate. done. Qed.

(** The next slot goes where the home slot is not. *)
Lemma next_slot_offset (s s' : HeaderSlot) :
  hs_generation s' = hs_generation s + 1 -> slot_offset s' = other_offset s /\ other_offset s' = slot_offset s.
Proof.
  intros E. unfold slot_offset, other_offset. rewrite E. pose proof (Z.mod_pos_bound (hs_generation s) 2 ltac:(lia)).
  rewrite Z.add_mod by lia. destruct (Z.eqb_spec (hs_generation s mod 2) 1) as [->|]; [done|].
  assert (hs_generation s mod 2 = 0) as -> by lia. done.
Qed.

Lemma slot_offset_range s : 0 <= slot_offset s /\ slot_offset s + SLOT_SIZE <= 512 /\ 0 <= other_offset s /\ other_offset s + SLOT_SIZE <= 512 /\
  (slot_offset s + SLOT_SIZE <= other_offset s \/ other_offset s + SLOT_SIZE <= slot_offset s).
Proof. unfold slot_offset, other_offset, SLOT_SIZE. destruct (_ =? 1); lia. Qed.

(** A file with the frame, in which the new slot is in place. *)
Lemma publish fit tf st tx f token roots pages F :
  published tf st -> tx_on fit tf st tx f -> (forall t, len (f t) <= u64_max) -> write_trees tx = Ok (roots, pages) ->
  token_ok token -> u64_ok (tx_count tx) -> ts_generation st < u64_max -> 
  let fs := ts_frame_end st in let fe := fs + len (commit_frame tx token roots pages) in
  fe <= u64_max -> fe <= tf_len F -> tf_len F <= len (tf_data F) -> tf_len F <= u64_max -> base_kept tf F fs ->
  zslice (tf_data F) fs fe = commit_frame tx token roots pages ->
  let st' := commit_state tx token roots pages in
  slot_at F (slot_offset (home st')) = Some (home st') -> slot_at F (slot_offset (home st)) = Some (home st) ->
  published F st' /\ trees_in fit F st' f.
Proof.
  intros Hpub Hon Hmax Hw Htok Hcnt Hgen fs fe Hfe HfF HlF Hu Hkept Hz st' Hs' Hs.
  destruct (frame_trees fit tf st tx f token roots pages F Hpub Hon Hmax Hw) as (Hr1 & Hr2 & Efe & Htrees); try done; [lia|].
  fold st' in Efe, Htrees. split; [|done]. pose proof Hpub as (Hfe0 & Hld & Hu0 & _). pose proof Hon as [_ (_ & Hbase & _)].
  pose proof (len_commit_frame tx token roots pages) as Hlen. pose proof (len_nonneg (mjoin pages)). pose proof (len_nonneg (encode_ops (tx_log tx))).
  assert (slot_ok (home st)) as (Hg64 & _ & _ & _) by (unfold slot_at in Hs; by apply slot_decode_sound in Hs as [? _]). cbn [home hs_generation] in Hg64.
  assert (ts_generation st' = ts_generation st + 1) as Egen.
  { unfold st', commit_state. cbn [ts_generation]. rewrite Hbase, add64_small; [done|]. unfold u64_ok in Hg64. lia. }
  unfold published. rewrite Efe. fold fs in Hfe0. unfold HEADER_REGION, TRAILER_SIZE, FRAME_HEADER_SIZE in *.
  split; [lia|]. split; [done|]. split; [done|]. split; [done|]. split.
  - intros s. destruct (next_slot_offset (home st) (home st') Egen) as [_ ->]. rewrite Hs. intros [= <-]. rewrite Egen. cbn [home hs_generation]. lia.
  - right. split; [unfold fe; lia|]. set (body := commit_body tx token pages). exists (commit_trailer tx token roots body).
    assert (zslice (tf_data F) (fe - 72) fe = trailer_encode (commit_trailer tx token roots body)) as Ez.
    { pose proof (f_equal (zdrop (len body)) Hz) as E. unfold commit_frame in E. cbv zeta in E. fold body in E.
      rewrite (zdrop_app_ge (len body)) in E by lia. rewrite Z.sub_diag, (zdrop_0 0) in E by lia. rewrite <- E. unfold zslice.
      assert (len body = fe - 72 - fs) as Elb.
      { unfold fe, commit_frame. cbv zeta. fold body. rewrite len_app, len_trailer_encode. unfold TRAILER_SIZE. lia. }
      pose proof (len_nonneg body). rewrite zdrop_ztake, zdrop_zdrop by lia. f_equal; [lia|f_equal; lia]. }
    fold fs. fold fe. rewrite Ez, <- (app_nil_r (trailer_encode _)), trailer_decode_encode. 2:{
      unfold trailer_ok, commit_trailer. cbn. rewrite Hbase. split_and!; try done; [unfold u64_ok; lia| |apply crc_u32].
      rewrite add64_small; unfold u64_ok in *; lia. }
    split; [done|]. cbn [commit_trailer tr_frame_start]. rewrite Hbase. split; [unfold fe; lia|]. rewrite Egen. unfold st', commit_state.
    cbn [tr_score_root tr_member_root tr_count tr_token ts_synced_frame_end]. unfold st', commit_state in Efe, Egen. cbn [ts_frame_end ts_generation] in Efe, Egen.
    by rewrite Efe, Egen.
Qed.

(** A file that kept the state: its slots and everything up to its frame's end. *)
Lemma still_published tf st F :
  published tf st -> ts_frame_end st <= tf_len F -> tf_len F <= len (tf_data F) -> tf_len F <= u64_max ->
  base_kept tf F (ts_frame_end st) -> slot_at F (slot_offset (home st)) = slot_at tf (slot_offset (home st)) ->
  (slot_at F (other_offset (home st)) = None \/ slot_at F (other_offset (home st)) = slot_at tf (other_offset (home st))) ->
  published F st /\ forall fit f, trees_in fit tf st f -> trees_in fit F st f.
Proof.
  intros (Hfe & Hl & Hu & Hh & Ho & Hst) HfF HlF HuF Hk Eh Eo. split.
  - split; [lia|]. split; [done|]. split; [done|]. split; [by rewrite Eh|]. split.
    + intros s Hs. destruct Eo as [Eo|Eo]; [by rewrite Eo in Hs|]. apply Ho. by rewrite <- Eo.
    + destruct Hst as [?|(Hfe' & t & Ht & ? & ?)]; [by left|]. right. split; [done|]. exists t.
      rewrite Hk; [done|unfold TRAILER_SIZE in *; lia|lia].
  - intros fit f Ht t. specialize (Ht t). destruct (state_root_disk st t) as [o E]. rewrite E in *.
    eapply tree_under_reads; [|exact Ht]. apply reads_same; [cbn; lia|lia| |exact Hk].
    change (tf_data (tx_file (reader (limit F (ts_frame_end st))))) with (tf_data F). lia.
Qed.

(** A write into one slot of the header, whole or torn. *)
Lemma slot_write F F' o o' x :
  tf_data F' = overwrite (tf_data F) o x -> len x <= SLOT_SIZE -> HEADER_REGION <= len (tf_data F) ->
  0 <= o -> o + SLOT_SIZE <= 512 -> 0 <= o' -> (o + SLOT_SIZE <= o' \/ o' + SLOT_SIZE <= o) ->
  slot_at F' o = slot_decode (overwrite (zslice (tf_data F) o (o + SLOT_SIZE)) 0 x) /\ slot_at F' o' = slot_at F o' /\
  len (tf_data F') = len (tf_data F) /\ forall a b, HEADER_REGION <= a -> zslice (tf_data F') a b = zslice (tf_data F) a b.
Proof.
  intros E Hx Hl Ho Ho5 Ho' Hd. pose proof (len_nonneg x). unfold slot_at. rewrite E. unfold HEADER_REGION, SLOT_SIZE in *. split.
  { by rewrite overwrite_inside by lia. }
  split; [|split; [rewrite len_overwrite; lia|intros a b Ha; apply overwrite_after; lia]].
  destruct Hd; [by rewrite overwrite_after by lia|by rewrite overwrite_before by lia].
Qed.

(** What a crash or a failure in the middle of a slot's write leaves there: the old slot, the new one, or one whose
    checksum fails. *)
Definition torn_ok (old : bytes) (s : HeaderSlot) : Prop :=
  forall k, let d := slot_decode (overwrite old 0 (ztake k (slot_encode s))) in d = None \/ d = slot_decode old \/ d = Some s.

(** The frame of a transaction, behind an unchanged base. *)
Definition laid_out (tx : Tx) (token : Token) (tf' : TreeFile) (st' : TreeState) : Prop :=
  exists roots pages, write_trees tx = Ok (roots, pages) /\ st' = commit_state tx token roots pages /\
    Forall (fun p => len p = PAGE_SIZE) pages /\ u64_ok roots.1 /\ u64_ok roots.2 /\
    base_kept (tx_file tx) tf' (ts_frame_end (tx_base tx)) /\
    zslice (tf_data tf') (ts_frame_end (tx_base tx)) (ts_frame_end st') = commit_frame tx token roots pages.

(** The outcome of a commit, told from the file it leaves behind. *)
Definition committed (fit : bool) (tx : Tx) (token : Token) (f : Tree -> entries) (tf' : TreeFile) (st' : TreeState) : Prop :=
  published tf' st' /\ trees_in fit tf' st' f /\ ts_count st' = tx_count tx /\ ts_token st' = token /\
  ts_generation st' = ts_generation (tx_base tx) + 1 /\ ts_synced_frame_end st' = ts_synced_frame_end (tx_base tx) /\
  laid_out tx token tf' st'.
Definition uncommitted (tf : TreeFile) (st : TreeState) (tf' : TreeFile) : Prop :=
  published tf' st /\ forall fit f, trees_in fit tf st f -> trees_in fit tf' st f.

(** What the caller owes a commit: machine-width bounds. *)
Definition can_commit (st : TreeState) (tx : Tx) (token : Token) (f : Tree -> entries) : Prop :=
  tx_log tx <> [] /\ (forall t, len (f t) <= u64_max) /\ token_ok token /\ u64_ok (tx_count tx) /\ ts_generation st < u64_max /\
  ts_frame_end st + FRAME_HEADER_SIZE <= u64_max /\
  forall roots pages, write_trees tx = Ok (roots, pages) ->
    ts_frame_end st + len (commit_frame tx token roots pages) <= u64_max.

(** That no torn slot passes for a third one. *)
Definition tears (tf : TreeFile) (st : TreeState) (tx : Tx) (token : Token) : Prop :=
  forall roots pages, write_trees tx = Ok (roots, pages) ->
    let o := other_offset (home st) in torn_ok (zslice (tf_data tf) o (o + SLOT_SIZE)) (home (commit_state tx token roots pages)).

Lemma home_ok tf st : published tf st -> slot_ok (home st).
Proof. intros (_ & _ & _ & Hh & _). unfold slot_at in Hh. by apply slot_decode_sound in Hh as [? _]. Qed.

Lemma len_ztake_le {A : Type} k (l : list A) : len (ztake k l) <= len l.
Proof. rewrite <- (ztake_zdrop k l) at 2. rewrite len_app. pose proof (len_nonneg (zdrop k l)). lia. Qed.

Lemma overwritten_slot old s : slot_ok s -> slot_decode (overwrite old 0 (slot_encode s)) = Some s.
Proof.
  intros Hs. rewrite overwrite_eq by (pose proof (len_nonneg old); lia). rewrite slot_encode_eq, ztake_0 by lia. cbn [app]. rewrite <- app_assoc.
  by apply slot_decode_image.
Qed.

Lemma commit_state_ok tf st tx token roots pages :
  published tf st -> tx_base tx = st -> ts_generation st < u64_max ->
  ts_frame_end st + len (commit_frame tx token roots pages) <= u64_max ->
  ts_generation (commit_state tx token roots pages) = ts_generation st + 1 /\ slot_ok (home (commit_state tx token roots pages)).
Proof.
  intros Hpub Hbase Hgen H64. pose proof (home_ok _ _ Hpub) as (Hg & Hlat & Hsy & Hsb).
  cbn [home hs_generation hs_latest_frame_end hs_synced_frame_end] in Hg, Hlat, Hsy, Hsb. pose proof (len_nonneg (commit_frame tx token roots pages)).
  unfold commit_state, slot_ok, u64_ok in *. cbn [home ts_generation ts_frame_end ts_synced_frame_end hs_generation hs_latest_frame_end hs_synced_frame_end].
  rewrite Hbase, !add64_small by lia. lia.
Qed.

(** The file with the whole frame written after the base. *)
Definition framed (tf : TreeFile) (st : TreeState) (frame : bytes) (F : TreeFile) : Prop :=
  let fs := ts_frame_end st in
  fs + len frame <= tf_len F /\ tf_len F <= len (tf_data F) /\ tf_len F <= u64_max /\ zslice (tf_data F) fs (fs + len frame) = frame /\
  forall a b, 0 <= a -> b <= fs -> zslice (tf_data F) a b = zslice (tf_data tf) a b.

Lemma write_frame tf st frame tf' F :
  published tf st -> ts_frame_end st + len frame <= u64_max -> tf_data tf' = overwrite (tf_data tf) (ts_frame_end st) frame ->
  tf_data F = tf_data tf' -> tf_len F = Z.max (tf_len tf) (ts_frame_end st + len frame) -> framed tf st frame F.
Proof.
  intros (Hfe & Hl & Hu & _) H64 E EF ElF. unfold framed. rewrite EF, E, ElF. unfold HEADER_REGION in *. split; [lia|]. split; [rewrite len_overwrite; lia|].
  split; [lia|]. split; [apply overwrite_at; lia|]. intros a b Ha Hb. apply overwrite_before; lia.
Qed.

Lemma laid_out_intro fit tf st tx f token roots pages F :
  published tf st -> tx_on fit tf st tx f -> (forall t, len (f t) <= u64_max) -> write_trees tx = Ok (roots, pages) ->
  let fe := ts_frame_end st + len (commit_frame tx token roots pages) in
  fe <= u64_max -> fe <= len (tf_data F) -> base_kept tf F (ts_frame_end st) ->
  zslice (tf_data F) (ts_frame_end st) fe = commit_frame tx token roots pages -> laid_out tx token F (commit_state tx token roots pages).
Proof.
  intros Hpub Hon Hmax Hw fe H64 HlF Hk Hz. destruct (frame_trees fit tf st tx f token roots pages F Hpub Hon Hmax Hw) as (R1 & R2 & Efe & _); try done.
  pose proof Hon as [_ (Htf & Hbase & _)]. exists roots, pages. split; [done|]. split; [done|]. rewrite Htf, Hbase, Efe. split; [|done].
  pose proof Hpub as (Hfe & Hl & _). assert (reads (limit tf (ts_frame_end st)) tf) as Hr by (rewrite <- (limit_len tf) at 2; apply reads_limit; lia).
  pose proof (len_commit_frame tx token roots pages) as Hlen. pose proof (len_nonneg (mjoin pages)). pose proof (len_nonneg (encode_ops (tx_log tx))).
  pose proof (write_trees_spec fit tf st tx f Hon Hr) as Hspec. rewrite Hw in Hspec.
  unfold FRAME_HEADER_SIZE, TRAILER_SIZE, fe in *. destruct Hspec as [? _]; [lia|lia|done|done].
Qed.

(** The slot's write on such a file, whole or torn. *)
Lemma write_slot_outcome fit tf st tx f token roots pages F F' k :
  published tf st -> tx_on fit tf st tx f -> can_commit st tx token f -> write_trees tx = Ok (roots, pages) -> (k < SLOT_SIZE -> tears tf st tx token) ->
  framed tf st (commit_frame tx token roots pages) F -> tf_len F' = tf_len F ->
  let s := home (commit_state tx token roots pages) in
  tf_data F' = overwrite (tf_data F) (slot_offset s) (ztake k (slot_encode s)) ->
  committed fit tx token f F' (commit_state tx token roots pages) \/ (k < SLOT_SIZE /\ uncommitted tf st F').
Proof.
  intros Hpub Hon (_ & Hmax & Htok & Hcnt & Hgen & _ & Hcan) Hw Htears (HfF & HlF & HuF & Hz & Hk) EF' s E.
  pose proof (Hcan _ _ Hw) as H64. pose proof Hpub as (Hfe & Hl & Hu & Hh & Ho & _). pose proof Hon as [_ (_ & Hbase & _)].
  destruct (commit_state_ok tf st tx token roots pages) as [Egen Hsok]; [done..|].
  set (st' := commit_state tx token roots pages) in *. fold s in Hsok.
  destruct (next_slot_offset (home st) s) as [Eo Eo']; [exact Egen|]. destruct (slot_offset_range (home st)) as (R1 & R2 & R3 & R4 & R5).
  pose proof (len_slot_encode s) as Els. rewrite Eo in E.
  assert (len (ztake k (slot_encode s)) <= SLOT_SIZE) as Hlx by (rewrite <- Els; apply len_ztake_le).
  unfold HEADER_REGION in Hfe. pose proof (len_nonneg (commit_frame tx token roots pages)).
  destruct (slot_write F F' _ (slot_offset (home st)) _ E Hlx) as (D & Dh & Dl & Dk); try done; [unfold HEADER_REGION; lia|tauto|].
  assert (slot_at F' (slot_offset (home st)) = slot_at tf (slot_offset (home st))) as Eh.
  { rewrite Dh. unfold slot_at. by rewrite Hk by lia. }
  rewrite Hk in D by lia.
  assert (base_kept tf F' (ts_frame_end st)) as Hk'.
  { intros a b Ha Hb. unfold HEADER_REGION in Ha. rewrite Dk by done. apply Hk; lia. }
  assert (slot_at F' (other_offset (home st)) = Some s -> committed fit tx token f F' st') as Hnew.
  { intros Es. destruct (publish fit tf st tx f token roots pages F') as [? ?]; try done; try lia; [|by rewrite <- Eo in Es|by rewrite Eh|].
    - rewrite Dk; [done|unfold HEADER_REGION; lia].
    - split; [done|]. split; [done|]. rewrite Hbase, Egen.
      assert (laid_out tx token F' st') as Hlay; [|split; [done|]; split; [done|]; split; [done|]; split; [|exact Hlay]; unfold st', commit_state; cbn; by rewrite Hbase].
      apply (laid_out_intro fit tf st tx f); try done; [lia|]. rewrite Dk; [done|unfold HEADER_REGION; lia]. }
  destruct (Z.lt_ge_cases k SLOT_SIZE) as [Hks|Hks]; [|left; apply Hnew; rewrite D, ztake_ge by lia; by apply overwritten_slot].
  pose proof (Htears Hks _ _ Hw k) as Htorn. cbv zeta in Htorn. fold st' s in Htorn. rewrite <- D in Htorn.
  destruct Htorn as [Hd|[Hd|Hd]]; [| |left; by apply Hnew].
  all: right; split; [done|]; apply still_published; try done; try lia; tauto.
Qed.

Lemma commit_frame_eq tx token roots pages :
  commit_body tx token pages ++ trailer_encode (commit_trailer tx token roots (commit_body tx token pages)) = commit_frame tx token roots pages.
Proof. done. Qed.

(** A frame that did not get written whole. *)
Lemma frame_failed tf st frame k tf' :
  published tf st -> tf_data tf' = overwrite (tf_data tf) (ts_frame_end st) (ztake k frame) -> tf_len tf' = tf_len tf -> uncommitted tf st tf'.
Proof.
  intros Hpub E El. pose proof Hpub as (Hfe & Hl & Hu & _). destruct (slot_offset_range (home st)) as (R1 & R2 & R3 & R4 & R5).
  unfold HEADER_REGION in *. pose proof (len_nonneg (ztake k frame)).
  assert (forall o, 0 <= o -> o + SLOT_SIZE <= 512 -> slot_at tf' o = slot_at tf o) as Hs.
  { intros o ? ?. unfold slot_at. rewrite E, overwrite_before by lia. done. }
  apply still_published; [done|lia|rewrite E, len_overwrite; lia|lia| |by apply Hs|right; by apply Hs].
  intros a b Ha Hb. unfold HEADER_REGION in *. rewrite E. apply overwrite_before; lia.
Qed.

(** [commit] once the trees are laid out: the frame, then the slot. *)
Lemma commit_steps fit tf st tx f token roots pages :
  published tf st -> tx_on fit tf st tx f -> can_commit st tx token f -> write_trees tx = Ok (roots, pages) ->
  match commit tx token tf with
  | (Ok st', tf') => committed fit tx token f tf' st'
  | (Err _, tf') => tears tf st tx token -> uncommitted tf st tf' \/ exists st', committed fit tx token f tf' st'
  | (Panic, _) => False
  end.
Proof.
  intros Hpub Hon Hcan Hw. pose proof Hcan as (Hlog & _ & _ & _ & _ & _ & Hroom). pose proof Hon as [_ (_ & Hbase & _)].
  pose proof (Hroom _ _ Hw) as H64. unfold commit. destruct (tx_log tx) as [|op ops]; [done|].
  rewrite Hw, sbind_slift_Ok. cbv zeta. rewrite commit_frame_eq, Hbase. set (frame := commit_frame tx token roots pages) in *.
  pose proof (len_nonneg frame). pose proof Hpub as (Hfe & Hl & Hu & _). unfold HEADER_REGION in Hfe.
  rewrite add64_small by lia. unfold sbind at 1.
  destruct (write_at_cases (ts_frame_end st) frame tf) as [(tf1 & -> & E1 & El1)|(tf1 & e & k & -> & E1 & El1)]; [|left; by eapply frame_failed].
  cbv beta iota. unfold sbind, note_appended. set (F := mkTreeFile _ _).
  assert (framed tf st frame F) as HF by (eapply write_frame; [done|done|exact E1|done|cbn; by rewrite El1]).
  assert (home (commit_state tx token roots pages) = mkHeaderSlot (tr_generation (commit_trailer tx token roots (commit_body tx token pages)))
            (ts_frame_end st + len frame) (ts_synced_frame_end st)) as Es.
  { unfold home, commit_state. cbn [ts_generation ts_frame_end ts_synced_frame_end]. fold frame. rewrite Hbase, (add64_small _ (len frame)) by lia. by rewrite <- Hbase. }
  assert (mkTreeState roots.1 roots.2 (tx_count tx) token (ts_frame_end st + len frame)
            (tr_generation (commit_trailer tx token roots (commit_body tx token pages))) (ts_synced_frame_end st) = commit_state tx token roots pages) as Est.
  { unfold commit_state. fold frame. rewrite Hbase, (add64_small _ (len frame)) by lia. by rewrite <- Hbase. }
  rewrite <- Es. unfold write_slot.
  destruct (write_at_cases (slot_offset (home (commit_state tx token roots pages))) (slot_encode (home (commit_state tx token roots pages))) F)
    as [(F' & -> & E2 & El2)|(F' & e & k & -> & E2 & El2)].
  - cbv beta iota. cbn [sret]. rewrite Es. cbn [hs_synced_frame_end]. rewrite Est.
    rewrite <- (ztake_ge SLOT_SIZE (slot_encode _)) in E2 by (rewrite len_slot_encode; lia).
    destruct (write_slot_outcome fit tf st tx f token roots pages F F' SLOT_SIZE) as [?|[? _]]; try done; lia.
  - cbv beta iota. intros Ht. destruct (write_slot_outcome fit tf st tx f token roots pages F F' k) as [?|[_ ?]]; try done; [right; by eexists|by left].
Qed.

End Transaction.
