(* ===== verification/ZsetTx.v ===== *)
(** * Transactions on a tree file

    The theorems about zset_tree/tree.rs as its callers use it: a transaction starts on
    the published state of a file, reads and changes both trees, and commits.

    [run_act] is one call of a transaction's interface; [spec_act] is the same call on
    the two ordered maps it stands for.  The calls refine the maps, and [commit] publishes
    the maps or leaves the old state, whatever the disk does. *)

From Stdlib Require Import ZArith Lia.
From stdpp Require Import gmap.
From S2P Require Import Prelude Bytes Crc IoBackend F64 ZsetFormat Assoc ZsetNode ZsetStore ZsetTree ZsetTreeProof ZsetTreeInsert ZsetTreeRemove ZsetCommit ZsetArena ZsetCommitProof.

(** ** Calls *)

Inductive act : Type :=
| AGet (t : Tree) (key : bytes)
| ARank (t : Tree) (key : bytes)
| ARange (t : Tree) (start end_ : Z)
| AInsert (t : Tree) (key value : bytes)
| ARemove (t : Tree) (key : bytes).

Inductive answer : Type :=
| AValue (v : option bytes)
| APosition (n : Z)
| AEntries (es : entries).

Section Acts.
Context {C : Crc32fast}.

Definition run_act (a : act) : SR Tx answer :=
  match a with
  | AGet t key => fun tx => (let? v := get tx t key in Ok (AValue v), tx)
  | ARank t key => fun tx => (let? n := rank tx t key in Ok (APosition n), tx)
  | ARange t start end_ => fun tx => (let? es := range tx t start end_ in Ok (AEntries es), tx)
  | AInsert t key value => let! v := insert t key value in sret (AValue v)
  | ARemove t key => let! v := remove t key in sret (AValue v)
  end.

Fixpoint run_acts (acts : list act) : SR Tx (list answer) :=
  match acts with
  | [] => sret []
  | a :: acts => let! x := run_act a in let! xs := run_acts acts in sret (x :: xs)
  end.

End Acts.

(** The same calls on ordered maps. *)
Definition spec_act (a : act) (f : Tree -> entries) : answer * (Tree -> entries) :=
  match a with
  | AGet t key => (AValue (aget (f t) key), f)
  | ARank t key => (APosition (Z.of_nat (arank (f t) key)), f)
  | ARange t start end_ => (AEntries (zslice (f t) start end_), f)
  | AInsert t key value => (AValue (aget (f t) key), upd f t (aset (f t) key value))
  | ARemove t key => (AValue (aget (f t) key), upd f t (adel (f t) key))
  end.

Fixpoint spec_acts (acts : list act) (f : Tree -> entries) : list answer * (Tree -> entries) :=
  match acts with
  | [] => ([], f)
  | a :: acts => let '(x, f) := spec_act a f in let '(xs, f) := spec_acts acts f in (x :: xs, f)
  end.

Definition removes (a : act) : bool := if a is ARemove _ _ then true else false.

(** The arguments the callers pass, and fewer entries than a [u64] counts. *)
Definition act_ok (a : act) (f : Tree -> entries) : Prop :=
  match a with
  | AGet t _ | ARank t _ | ARemove t _ => len (f t) <= u64_max
  | ARange t start end_ => len (f t) <= u64_max /\ u64_ok start /\ u64_ok end_
  | AInsert t key value => len (f t) < u64_max /\ len key <= u32_max /\ len value = 8
  end.
Fixpoint acts_ok (acts : list act) (f : Tree -> entries) : Prop :=
  match acts with
  | [] => True
  | a :: acts => act_ok a f /\ acts_ok acts (spec_act a f).2
  end.

Section Refines.
Context {C : Crc32fast} {CL : Crc32fastLaws C}.

(** Everything a call leaves alone. *)
Lemma base_reads tf st : published tf st -> reads (limit tf (ts_frame_end st)) tf.
Proof. intros (? & ? & _). rewrite <- (limit_len tf) at 2. apply reads_limit. lia. Qed.

Lemma insert_on fit tf st tx f t key v :
  published tf st -> tx_on fit tf st tx f -> len v = 8 -> len key <= u32_max -> len (f t) < u64_max ->
  exists tx', insert t key v tx = (Ok (aget (f t) key), tx') /\ tx_on fit tf st tx' (upd f t (aset (f t) key v)) /\ same_header tx tx'.
Proof.
  intros Hp [Hr Hs] Hv Hk Hl. destruct (insert_repr fit tx f t key v Hr Hv Hl) as (tx' & E & Hr' & Hsame).
  exists tx'. split; [done|]. split; [|done]. split; [done|].
  destruct (keeps_insert _ tf st (base_reads _ _ Hp) t key v Hk tx Hs) as [H _]. by rewrite E in H.
Qed.

Lemma remove_on fit tf st tx f t key :
  published tf st -> tx_on fit tf st tx f -> len (f t) <= u64_max ->
  exists tx', remove t key tx = (Ok (aget (f t) key), tx') /\ tx_on false tf st tx' (upd f t (adel (f t) key)) /\ same_header tx tx'.
Proof.
  intros Hp [Hr Hs] Hl. destruct (remove_repr fit tx f t key Hr Hl) as (tx' & E & Hr' & Hsame).
  exists tx'. split; [done|]. split; [|done]. split; [done|].
  destruct (keeps_remove _ tf st (base_reads _ _ Hp) t key tx Hs) as [H _]. by rewrite E in H.
Qed.

Lemma same_header_refl tx : same_header tx tx.
Proof. by unfold same_header. Qed.
Lemma same_header_trans tx1 tx2 tx3 : same_header tx1 tx2 -> same_header tx2 tx3 -> same_header tx1 tx3.
Proof. unfold same_header. intros (? & ? & ? & ?) (? & ? & ? & ?). split_and!; congruence. Qed.

Lemma act_refines fit tf st tx f a :
  published tf st -> tx_on fit tf st tx f -> act_ok a f ->
  exists tx', run_act a tx = (Ok (spec_act a f).1, tx') /\ tx_on (fit && negb (removes a)) tf st tx' (spec_act a f).2 /\ same_header tx tx'.
Proof.
  intros Hp Hon Hok. pose proof Hon as [Hr _]. destruct a as [t key|t key|t start end_|t key v|t key]; cbn [act_ok run_act spec_act removes fst snd negb] in *;
    rewrite ?andb_true_r, ?andb_false_r.
  - exists tx. erewrite get_repr by done. split; [done|]. split; [done|apply same_header_refl].
  - exists tx. erewrite rank_repr by done. split; [done|]. split; [done|apply same_header_refl].
  - destruct Hok as (? & ? & ?). exists tx. erewrite range_repr by done. split; [done|]. split; [done|apply same_header_refl].
  - destruct Hok as (? & ? & ?). destruct (insert_on fit tf st tx f t key v) as (tx' & E & ? & ?); try done.
    exists tx'. by rewrite (sbind_Ok _ _ _ _ _ E).
  - destruct (remove_on fit tf st tx f t key) as (tx' & E & ? & ?); try done. exists tx'. by rewrite (sbind_Ok _ _ _ _ _ E).
Qed.

Lemma acts_refine acts : forall fit tf st tx f,
  published tf st -> tx_on fit tf st tx f -> acts_ok acts f ->
  exists tx', run_acts acts tx = (Ok (spec_acts acts f).1, tx') /\
    tx_on (fit && negb (existsb removes acts)) tf st tx' (spec_acts acts f).2 /\ same_header tx tx'.
Proof.
  induction acts as [|a acts IH]; intros fit tf st tx f Hp Hon Hok; cbn [run_acts spec_acts existsb].
  - exists tx. rewrite andb_true_r. split; [done|]. split; [done|apply same_header_refl].
  - destruct Hok as [Ha Hok]. destruct (act_refines fit tf st tx f a) as (tx1 & E1 & Hon1 & Hs1); [done..|].
    rewrite (sbind_Ok _ _ _ _ _ E1). destruct (spec_act a f) as [x f1]. cbn [fst snd] in *.
    destruct (IH _ tf st tx1 f1 Hp Hon1 Hok) as (tx2 & E2 & Hon2 & Hs2). exists tx2.
    rewrite (sbind_Ok _ _ _ _ _ E2). destruct (spec_acts acts f1) as [xs f2]. cbn [fst snd] in *. split; [done|].
    split; [|by eapply same_header_trans]. by rewrite negb_orb, andb_assoc.
Qed.

(** ** A new file *)

Lemma zero_slot : slot_decode (replicate 256 x00) = None.
Proof. done. Qed.

Lemma header_image : copy_from_slice (replicate (Z.to_nat HEADER_REGION) x00) 0 (slot_encode slot_empty) =
  slot_encode slot_empty ++ replicate 256 x00 ++ replicate 3584 x00.
Proof.
  unfold copy_from_slice. rewrite len_slot_encode, (ztake_0 0) by lia. cbn [app]. done.
Qed.

(** [init_header] on an empty file publishes the empty tree. *)
Lemma fresh_published tf tf' :
  tf_len tf = 0 -> tf_data tf = [] -> init_header tf = (Ok tt, tf') ->
  published tf' (state_empty slot_empty) /\ trees_in true tf' (state_empty slot_empty) (fun _ => []).
Proof.
  intros Hl Hd. unfold init_header. rewrite Hl. cbn [Z.eqb]. cbv zeta. rewrite header_image. unfold sbind.
  destruct (write_at_cases 0 (slot_encode slot_empty ++ replicate 256 x00 ++ replicate 3584 x00) tf)
    as [(tf1 & -> & E & El)|(tf1 & e & k & -> & E & El)]; [|done]. cbv beta iota. unfold note_appended. intros [= <-].
  rewrite Hd, overwrite_eq in E by (unfold len; cbn; lia). rewrite (ztake_0 0), zdrop_nil, app_nil_r in E by lia. cbn [app] in E.
  split; [|intros []; by left].
  set (F := mkTreeFile _ _). assert (tf_data F = slot_encode slot_empty ++ replicate 256 x00 ++ replicate 3584 x00) as EF by exact E.
  assert (tf_len F = 4096) as Hlen by (cbn; rewrite El, Hl; done).
  pose proof (len_slot_encode slot_empty) as Hls. unfold SLOT_SIZE in Hls.
  unfold published. rewrite EF, Hlen. cbn [state_empty ts_frame_end]. rewrite !len_app, Hls. split; [unfold HEADER_REGION; lia|]. split; [unfold len; rewrite !length_replicate; lia|].
  split; [unfold u64_max; lia|]. change (home (state_empty slot_empty)) with slot_empty. change (slot_offset slot_empty) with 0.
  change (other_offset slot_empty) with 256. unfold slot_at. rewrite EF. unfold SLOT_SIZE, zslice. split; [|split].
  - rewrite (zdrop_0 0), ztake_app_le, ztake_ge by lia. rewrite slot_encode_eq. apply slot_decode_image. unfold slot_ok, u64_ok, u64_max, HEADER_REGION. cbn. unfold HEADER_REGION. lia.
  - rewrite zdrop_app_ge by lia. rewrite zdrop_0 by lia. rewrite ztake_app_le by (unfold len; rewrite length_replicate; lia).
    rewrite ztake_ge by (unfold len; rewrite length_replicate; lia). by rewrite zero_slot.
  - left. done.
Qed.

(** The count and the log of a transaction are beside its trees. *)
Definition retitle (tx : Tx) (count : Z) (ops : list LoggedOp) : Tx :=
  mkTx (tx_file tx) (tx_base tx) (tx_nodes tx) (tx_roots tx) count ops.

Lemma retitle_on fit tf st tx f count ops : tx_on fit tf st tx f -> tx_on fit tf st (retitle tx count ops) f.
Proof.
  intros [(fps & Hu & Ho) Hs]. split; [|exact Hs]. exists fps. split; [|exact Ho]. intros t.
  change (root (retitle tx count ops) t) with (root tx t). eapply tree_under_frame; [apply Hu|]. by split.
Qed.

(** ** Torn slots, checked *)

#[global] Instance header_slot_eq_dec : EqDecision HeaderSlot.
Proof. solve_decision. Defined.

Definition torn_check (old : bytes) (s : HeaderSlot) : bool :=
  forallb (fun k => let d := slot_decode (overwrite old 0 (ztake (Z.of_nat k) (slot_encode s))) in
    bool_decide (d = None) || bool_decide (d = slot_decode old) || bool_decide (d = Some s)) (seq 0 257).

Lemma torn_check_ok old s : torn_check old s = true -> torn_ok old s.
Proof.
  unfold torn_check. rewrite forallb_forall. intros H k.
  assert (ztake k (slot_encode s) = ztake (Z.of_nat (Z.to_nat (Z.min k 256))) (slot_encode s)) as ->.
  { destruct (Z.le_gt_cases k 0); [by rewrite !(ztake_0 _ (slot_encode s)) by lia|]. rewrite Z2Nat.id by lia.
    destruct (Z.le_gt_cases k 256); [by replace (Z.min k 256) with k by lia|].
    by rewrite !ztake_ge by (rewrite len_slot_encode; unfold SLOT_SIZE; lia). }
  specialize (H (Z.to_nat (Z.min k 256))). cbv zeta in *. rewrite !orb_true_iff, !bool_decide_eq_true in H.
  destruct H as [[H|H]|H]; [apply in_seq; lia|tauto..].
Qed.

Lemma write_at_healthy o bs tf : IoBackend.d_faults (tf_disk tf) = [] ->
  exists tf', write_at o bs tf = (Ok tt, tf') /\ IoBackend.d_faults (tf_disk tf') = [].
Proof. intros H. unfold write_at, on_disk, sys_write_at. rewrite H. by eexists. Qed.

Lemma commit_healthy tx token tf roots pages :
  IoBackend.d_faults (tf_disk tf) = [] -> write_trees tx = Ok (roots, pages) ->
  exists st tf', commit tx token tf = (Ok st, tf') /\ IoBackend.d_faults (tf_disk tf') = [].
Proof.
  intros Hf Hw. unfold commit. destruct (tx_log tx); [by eexists _, _|]. rewrite Hw, sbind_slift_Ok. cbv zeta.
  edestruct write_at_healthy as (tf1 & E1 & Hf1); [exact Hf|]. rewrite (sbind_Ok _ _ _ _ _ E1).
  unfold sbind, note_appended. set (F := mkTreeFile _ _). unfold write_slot.
  edestruct (write_at_healthy) as (tf2 & E2 & Hf2); [|rewrite E2]; [exact Hf1|]. by eexists _, _.
Qed.

Lemma write_trees_outcome fit tf st tx f token :
  published tf st -> tx_on fit tf st tx f -> can_commit st tx token f ->
  match write_trees tx with Ok _ => True | Err _ => fit = false | Panic => False end.
Proof.
  intros Hp Hon (_ & Hmax & _ & _ & _ & Hle & _). pose proof Hp as ([? _] & _).
  pose proof (write_trees_spec fit tf st tx f Hon (base_reads _ _ Hp)) as Hw.
  destruct (write_trees tx) as [[roots pages]|e|]; [done|by apply Hw|by apply Hw].
Qed.

End Refines.

(** ** Properties *)

(** C13: a transaction refines two ordered maps.  Any sequence of lookups, ranks, ranges,
    insertions and removals returns what the maps return, and leaves a transaction that
    holds the changed maps; while nothing has been removed, every node still fits a page. *)
Theorem transaction_refines {C : Crc32fast} {CL : Crc32fastLaws C} fit tf st f acts :
  published tf st -> trees_in fit tf st f -> acts_ok acts f ->
  exists tx, run_acts acts (begin tf st) = (Ok (spec_acts acts f).1, tx) /\
    tx_on (fit && negb (existsb removes acts)) tf st tx (spec_acts acts f).2.
Proof.
  intros Hp Ht Hok. destruct (acts_refine acts fit tf st (begin tf st) f) as (tx & E & Hon & _); [done|by apply begin_on|done|].
  by exists tx.
Qed.

(** C14: a commit is atomic.  Whatever the disk does, and wherever a write stops, the file
    afterwards publishes the new state, with the transaction's maps in its trees, or
    still publishes the old one with everything that was readable in it; a commit that
    reports success has done the former, and none panics. *)
Theorem commit_atomic {C : Crc32fast} {CL : Crc32fastLaws C} fit tf st tx f token :
  published tf st -> tx_on fit tf st tx f -> can_commit st tx token f -> tears tf st tx token ->
  match commit tx token tf with
  | (Ok st', tf') => committed fit tx token f tf' st' /\ state tf' = Ok st'
  | (Err _, tf') => (uncommitted tf st tf' /\ state tf' = Ok st) \/
                    exists st', committed fit tx token f tf' st' /\ state tf' = Ok st'
  | (Panic, _) => False
  end.
Proof.
  intros Hp Hon Hcan Htears. pose proof (write_trees_outcome fit tf st tx f token Hp Hon Hcan) as Hw.
  destruct (write_trees tx) as [[roots pages]|e|] eqn:E; [| |done].
  - pose proof (commit_steps fit tf st tx f token roots pages Hp Hon Hcan E) as H.
    destruct (commit tx token tf) as [[st'|e|] tf']; [|destruct (H Htears) as [H'|[st' H']]; clear H; rename H' into H|done].
    + split; [done|]. apply published_state. by destruct H.
    + left. split; [done|]. apply published_state. by destruct H.
    + right. exists st'. split; [done|]. apply published_state. by destruct H.
  - unfold commit. destruct Hcan as [Hlog _]. destruct (tx_log tx); [done|]. rewrite E. left. split; [by split|]. by apply published_state.
Qed.

(** A commit succeeds on a healthy disk when every node fits its page, which holds
    after any number of insertions. *)
Theorem commit_succeeds {C : Crc32fast} {CL : Crc32fastLaws C} tf st tx f token :
  published tf st -> tx_on true tf st tx f -> can_commit st tx token f -> IoBackend.d_faults (tf_disk tf) = [] ->
  exists st' tf', commit tx token tf = (Ok st', tf') /\ committed true tx token f tf' st' /\ IoBackend.d_faults (tf_disk tf') = [].
Proof.
  intros Hp Hon Hcan Hf. pose proof (write_trees_outcome true tf st tx f token Hp Hon Hcan) as Hw.
  destruct (write_trees tx) as [[roots pages]|e|] eqn:E; [|done..].
  pose proof (commit_steps true tf st tx f token roots pages Hp Hon Hcan E) as H.
  destruct (commit_healthy tx token tf roots pages Hf E) as (st' & tf' & Ec & Hf'). rewrite Ec in H. by exists st', tf'.
Qed.

(** ** A concrete file *)

#[local] Existing Instance crc32_iso_hdlc.

Module Example.

Definition new_file : TreeFile := (init_header (from_file (IoBackend.mkDisk [] [] false))).2.
Definition st0 : TreeState := state_empty slot_empty.
Definition one : bytes := le_bytes 8 4607182418800017408.
Definition acts : list act :=
  [AInsert Member (lit "b") one; AInsert Member (lit "a") one; AInsert Score (lit "key") one; ARank Member (lit "b");
   ARange Member 0 2; AGet Score (lit "key")].
Definition tx : Tx := retitle (run_acts acts (begin new_file st0)).2 2 [LogSet (lit "a") 4607182418800017408 None].
Definition f : Tree -> entries := (spec_acts acts (fun _ => [])).2.
Definition token : Token := mkToken 1 1.

Lemma file_published : published new_file st0 /\ trees_in true new_file st0 (fun _ => []).
Proof. apply (fresh_published (from_file (IoBackend.mkDisk [] [] false))); [done|done|vm_compute; reflexivity]. Qed.

Lemma acts_fine : acts_ok acts (fun _ => []).
Proof. vm_compute. repeat split; discriminate. Qed.

Lemma tx_holds : tx_on true new_file st0 tx f.
Proof.
  destruct file_published as [Hp Ht]. apply retitle_on.
  destruct (acts_refine acts true new_file st0 (begin new_file st0) (fun _ => [])) as (tx' & E & Hon & _);
    [done|by apply begin_on|apply acts_fine|]. rewrite E. exact Hon.
Qed.

Lemma commits : can_commit st0 tx token f.
Proof.
  split; [done|]. split; [intros []; vm_compute; discriminate|]. split; [vm_compute; repeat split; discriminate|].
  split; [vm_compute; repeat split; discriminate|]. split; [done|]. split; [vm_compute; discriminate|].
  intros roots pages Hw. vm_compute in Hw. injection Hw as <- <-. vm_compute. discriminate.
Qed.

Lemma slot_tears : tears new_file st0 tx token.
Proof. intros roots pages Hw. vm_compute in Hw. injection Hw as <- <-. apply torn_check_ok. vm_compute. reflexivity. Qed.

End Example.

Lemma transaction_refines_witness : exists tx,
  run_acts Example.acts (begin Example.new_file Example.st0) = (Ok (spec_acts Example.acts (fun _ => [])).1, tx).
Proof.
  destruct Example.file_published as [Hp Ht].
  destruct (transaction_refines true _ _ _ Example.acts Hp Ht Example.acts_fine) as (tx & E & _). exists tx. exact E.
Defined.

Lemma commit_atomic_witness : match commit Example.tx Example.token Example.new_file with
  | (Ok st', tf') => committed true Example.tx Example.token Example.f tf' st' /\ state tf' = Ok st'
  | (Err _, tf') => (uncommitted Example.new_file Example.st0 tf' /\ state tf' = Ok Example.st0) \/
                    exists st', committed true Example.tx Example.token Example.f tf' st' /\ state tf' = Ok st'
  | (Panic, _) => False
  end.
Proof. exact (commit_atomic true _ _ _ _ _ (proj1 Example.file_published) Example.tx_holds Example.commits Example.slot_tears). Defined.

Lemma commit_succeeds_witness : exists st' tf', commit Example.tx Example.token Example.new_file = (Ok st', tf') /\
  committed true Example.tx Example.token Example.f tf' st'.
Proof.
  destruct (commit_succeeds _ _ _ _ _ (proj1 Example.file_published) Example.tx_holds Example.commits eq_refl) as (st' & tf' & E & H & _).
  exists st', tf'. split; [exact E|exact H].
Defined.
