(* ===== verification/ZsetOps.v ===== *)
(** * Sorted-set operations on a transaction ([zset_tree/ops.rs])

    ZADD, ZINCRBY, ZREM and the pops change both trees of a transaction; the reads turn
    their bounds into positions of one of the trees.  A method of [Tx] that the source
    calls [f] and whose name is taken is [tx_f] here.  The proofs are in [ZsetOpsProof]. *)

From Stdlib Require Import ZArith Lia.
From stdpp Require Import gmap pretty.
From S2P Require Import Prelude Bytes Crc F64 ZsetFormat ZsetNode ZsetStore ZsetTree.

Record Conditions : Type := mkConditions { nx : bool; xx : bool; gt : bool; lt : bool }.

Inductive Op : Type :=
| OpAdd (member : bytes) (score : f64) (conditions : Conditions)
| OpIncr (member : bytes) (delta : f64) (conditions : Conditions)
| OpRemove (member : bytes)
| OpPopMin (count : Z)
| OpPopMax (count : Z).

Abbreviation Entry := (bytes * Z)%type (only parsing).

Inductive Outcome : Type :=
| OutAdd (added changed : bool)
| OutIncr (score : option f64)
| OutRemoved (removed : bool)
| OutPopped (popped : list (bytes * Z)).

Inductive ScoreBound : Type :=
| ScoreNegInf
| ScorePosInf
| ScoreIncl (score : f64)
| ScoreExcl (score : f64).

Inductive LexBound : Type :=
| LexMin
| LexMax
| LexIncl (member : bytes)
| LexExcl (member : bytes).

(** [as i64] and the wrapping arithmetic of [i64]. *)
Definition wrap_i64 (z : Z) : Z := (z + 9223372036854775808) mod 18446744073709551616 - 9223372036854775808.

Definition score_key (score : f64) (member : bytes) : result bytes :=
  let? prefix := score_prefix score in Ok (prefix ++ member).

Definition score_value (score : f64) : bytes := le_bytes 8 score.

Definition decode_score_value (value : bytes) : result f64 :=
  if len value =? 8 then Ok (le_val value) else Err "zset tree: member value is not a score".

Definition score_entry (e : bytes * bytes) : result (bytes * Z) :=
  let '(key, value) := e in
  if len key <? 8 then Err "zset tree: short score key" else
  let? score := decode_score_value value in Ok (zdrop 8 key, score).

Definition member_entry (e : bytes * bytes) : result (bytes * Z) :=
  let '(member, value) := e in
  let? score := decode_score_value value in Ok (member, score).

Definition with_zero (key : bytes) : bytes := key ++ [x00].

(** [iter().map(f).collect::<Result<Vec<_>>>()]. *)
Fixpoint collect {A B : Type} (f : A -> result B) (l : list A) : result (list B) :=
  match l with
  | [] => Ok []
  | x :: l => let? y := f x in let? ys := collect f l in Ok (y :: ys)
  end.

Section WithCrc.
Context {C : Crc32fast}.

Definition tx_score (tx : Tx) (member : bytes) : result (option f64) :=
  let? value := get tx Member member in
  match value with
  | None => Ok None
  | Some value => let? score := decode_score_value value in Ok (Some score)
  end.

(** [self.count += 1] and [self.count -= 1]. *)
Definition set_count (count : Z) : SR Tx unit := fun tx =>
  (Ok tt, mkTx (tx_file tx) (tx_base tx) (tx_nodes tx) (tx_roots tx) count (tx_log tx)).
Definition count_up : SR Tx unit := fun tx => set_count (add64 (tx_count tx) 1) tx.
Definition count_down : SR Tx unit := fun tx => set_count (sub64 (tx_count tx) 1) tx.

(** A read of the transaction. *)
Definition reading {A : Type} (r : Tx -> result A) : SR Tx A := fun tx => (r tx, tx).

Definition tx_set (member : bytes) (score : f64) : SR Tx bool :=
  let! _ := slift (normalize_score score) in
  let! previous := reading (fun tx => tx_score tx member) in
  if match previous with Some old => f64_eqb old score | None => false end then sret false else
  let! _ := match previous with
            | Some old => let! key := slift (score_key old member) in let! _ := remove Score key in sret tt
            | None => sret tt
            end in
  let! key := slift (score_key score member) in
  let! _ := insert Score key (score_value score) in
  let! _ := insert Member member (score_value score) in
  let! _ := log (LogSet member score previous) in
  let! _ := match previous with None => count_up | Some _ => sret tt end in
  sret (match previous with None => true | Some _ => false end).

Definition tx_delete (member : bytes) : SR Tx (option f64) :=
  let! score := reading (fun tx => tx_score tx member) in
  match score with
  | None => sret None
  | Some score =>
      let! key := slift (score_key score member) in
      let! _ := remove Score key in
      let! _ := remove Member member in
      let! _ := log (LogRemove member score) in
      let! _ := count_down in
      sret (Some score)
  end.

Definition replay (op : LoggedOp) : SR Tx unit :=
  match op with
  | LogSet member score _ => let! _ := tx_set member score in sret tt
  | LogRemove member _ => let! _ := tx_delete member in sret tt
  end.

Definition revert (op : LoggedOp) : SR Tx unit :=
  match op with
  | LogSet member _ (Some prev) | LogRemove member prev => let! _ := tx_set member prev in sret tt
  | LogSet member _ None => let! _ := tx_delete member in sret tt
  end.

(** The loops of compaction and rewind over logged changes. *)
Fixpoint replay_all (ops : list LoggedOp) : SR Tx unit :=
  match ops with [] => sret tt | op :: ops => let! _ := replay op in replay_all ops end.
Fixpoint revert_all (ops : list LoggedOp) : SR Tx unit :=
  match ops with [] => sret tt | op :: ops => let! _ := revert op in revert_all ops end.

Definition tx_entries (tx : Tx) (t : Tree) (start end_ : Z) (rev : bool) : result (list (bytes * Z)) :=
  let? raw := range tx t start end_ in
  let? out := collect (match t with Score => score_entry | Member => member_entry end) raw in
  Ok (if rev then reverse out else out).

Fixpoint delete_all (popped : list (bytes * Z)) : SR Tx unit :=
  match popped with
  | [] => sret tt
  | (member, _) :: popped => let! _ := tx_delete member in delete_all popped
  end.

Definition apply_add (member : bytes) (score : f64) (conditions : Conditions) : SR Tx Outcome :=
  let! _ := slift (normalize_score score) in
  let! current := reading (fun tx => tx_score tx member) in
  match current with
  | None =>
      if xx conditions then sret (OutAdd false false) else
      let! _ := tx_set member score in sret (OutAdd true true)
  | Some old =>
      if nx conditions || (gt conditions && f64_leb score old) || (lt conditions && f64_geb score old) || f64_eqb score old
      then sret (OutAdd false false)
      else let! _ := tx_set member score in sret (OutAdd false true)
  end.

Definition apply_incr (member : bytes) (delta : f64) (conditions : Conditions) : SR Tx Outcome :=
  let! current := reading (fun tx => tx_score tx member) in
  if match current with None => xx conditions | Some _ => nx conditions end then sret (OutIncr None) else
  let old := match current with Some old => old | None => 0 end in
  let new := f64_add old delta in
  if f64_is_nan new then serr "resulting score is not a number (NaN)" else
  if f64_is_infinite new && f64_is_finite old && f64_is_finite delta then serr "increment would produce NaN or Infinity" else
  if match current with
     | Some _ => (gt conditions && f64_leb new old) || (lt conditions && f64_geb new old)
     | None => false
     end
  then sret (OutIncr None)
  else let! _ := tx_set member new in sret (OutIncr (Some new)).

Definition tx_apply (op : Op) : SR Tx Outcome :=
  match op with
  | OpAdd member score conditions => apply_add member score conditions
  | OpIncr member delta conditions => apply_incr member delta conditions
  | OpRemove member =>
      let! old := tx_delete member in sret (OutRemoved (match old with Some _ => true | None => false end))
  | OpPopMin count => fun tx =>
      let take := Z.min count (tx_count tx) in
      (let! popped := reading (fun tx => tx_entries tx Score 0 take false) in
       let! _ := delete_all popped in
       sret (OutPopped popped)) tx
  | OpPopMax count => fun tx =>
      let take := Z.min count (tx_count tx) in
      (let! popped := reading (fun tx => tx_entries tx Score (sub64 (tx_count tx) take) (tx_count tx) true) in
       let! _ := delete_all popped in
       sret (OutPopped popped)) tx
  end.

(** [ops.iter().map(|op| tx.apply(op)).collect()]. *)
Fixpoint tx_apply_all (ops : list Op) : SR Tx (list Outcome) :=
  match ops with
  | [] => sret []
  | op :: ops => let! out := tx_apply op in let! outs := tx_apply_all ops in sret (out :: outs)
  end.

(** ** Reads *)

Definition member_rank (tx : Tx) (member : bytes) (rev : bool) : result (option Z) :=
  let? score := tx_score tx member in
  match score with
  | None => Ok None
  | Some score =>
      let? key := score_key score member in
      let? r := rank tx Score key in
      Ok (Some (if rev then sub64 (sub64 (tx_count tx) 1) r else r))
  end.

Definition range_by_index (tx : Tx) (start stop : Z) (rev : bool) : result (list (bytes * Z)) :=
  let n := wrap_i64 (tx_count tx) in
  let start := Z.max (if start <? 0 then wrap_i64 (start + n) else start) 0 in
  let stop := Z.min (if stop <? 0 then wrap_i64 (stop + n) else stop) (wrap_i64 (n - 1)) in
  if (stop <? start) || (n <=? start) then Ok [] else
  let start := wrap64 start in
  let stop := wrap64 stop in
  if rev then
    let n := wrap64 n in tx_entries tx Score (sub64 (sub64 n 1) stop) (sub64 n start) true
  else tx_entries tx Score start (add64 stop 1) false.

Definition score_lower (tx : Tx) (bound : ScoreBound) : result Z :=
  match bound with
  | ScoreNegInf => Ok 0
  | ScorePosInf => Ok (tx_count tx)
  | ScoreIncl score => let? prefix := score_prefix score in rank tx Score prefix
  | ScoreExcl score =>
      let? prefix := score_prefix score in
      match next_score_prefix prefix with Some next => rank tx Score next | None => Ok (tx_count tx) end
  end.

Definition score_upper (tx : Tx) (bound : ScoreBound) : result Z :=
  match bound with
  | ScoreNegInf => Ok 0
  | ScorePosInf => Ok (tx_count tx)
  | ScoreIncl score =>
      let? prefix := score_prefix score in
      match next_score_prefix prefix with Some next => rank tx Score next | None => Ok (tx_count tx) end
  | ScoreExcl score => let? prefix := score_prefix score in rank tx Score prefix
  end.

Definition lex_lower (tx : Tx) (bound : LexBound) : result Z :=
  match bound with
  | LexMin => Ok 0
  | LexMax => Ok (tx_count tx)
  | LexIncl member => rank tx Member member
  | LexExcl member => rank tx Member (with_zero member)
  end.

Definition lex_upper (tx : Tx) (bound : LexBound) : result Z :=
  match bound with
  | LexMin => Ok 0
  | LexMax => Ok (tx_count tx)
  | LexIncl member => rank tx Member (with_zero member)
  | LexExcl member => rank tx Member member
  end.

Definition window (low high : Z) (rev : bool) (offset : Z) (limit : option Z) : Z * Z :=
  if (high <=? low) || (sub64 high low <=? offset) then (0, 0) else
  if rev then
    let end_ := sub64 high offset in
    (match limit with None => low | Some limit => Z.max (saturating_sub64 end_ limit) low end, end_)
  else
    let start := add64 low offset in
    (start, match limit with None => high | Some limit => Z.min (saturating_add64 start limit) high end).

Definition range_by_score (tx : Tx) (min max : ScoreBound) (rev : bool) (offset : Z) (limit : option Z) : result (list (bytes * Z)) :=
  let? low := score_lower tx min in
  let? high := score_upper tx max in
  let '(start, end_) := window low high rev offset limit in
  tx_entries tx Score start end_ rev.

Definition range_by_lex (tx : Tx) (min max : LexBound) (rev : bool) (offset : Z) (limit : option Z) : result (list (bytes * Z)) :=
  let? low := lex_lower tx min in
  let? high := lex_upper tx max in
  let '(start, end_) := window low high rev offset limit in
  tx_entries tx Member start end_ rev.

Definition count_by_score (tx : Tx) (min max : ScoreBound) : result Z :=
  let? high := score_upper tx max in
  let? low := score_lower tx min in
  Ok (saturating_sub64 high low).

Definition count_by_lex (tx : Tx) (min max : LexBound) : result Z :=
  let? high := lex_upper tx max in
  let? low := lex_lower tx min in
  Ok (saturating_sub64 high low).

Definition at_positions (tx : Tx) (positions : list Z) : result (list (bytes * Z)) :=
  collect (fun position =>
    let? es := tx_entries tx Score position (add64 position 1) false in
    ok_or (last es) ("zset tree: no member at position " +:+ pretty position)) positions.

Definition scan (tx : Tx) (after : option bytes) (count : Z) : result (list (bytes * Z) * option bytes) :=
  let? start := match after with Some member => rank tx Member (with_zero member) | None => Ok 0 end in
  let end_ := Z.min (saturating_add64 start count) (tx_count tx) in
  let? es := tx_entries tx Member start end_ false in
  Ok (es, if end_ <? tx_count tx then fst <$> last es else None).

End WithCrc.
