(* ===== verification/ZsetOpsProof.v ===== *)
(** * Sorted-set operations refine a sorted set

    A sorted set is a list [z] of members and scores in member order ([Assoc]).  [ranked z]
    lists the same entries by score and then by member.  [zset_on] says that a transaction
    holds [z]: the member tree maps each member to its score, the score tree lists the
    entries of [ranked z] under their score keys, and the count is the number of members.

    Every operation of zset_tree/ops.rs is shown to compute on [z] what its Redis command
    means, with [spec_apply] as the reference for the changes and list functions
    ([filter], [reverse], slices) as the reference for the reads. *)

From Stdlib Require Import ZArith Lia.
From stdpp Require Import gmap pretty.
From S2P Require Import Prelude Bytes Crc IoBackend F64 ZsetFormat Assoc ZsetNode ZsetStore ZsetTree ZsetTreeProof ZsetTreeInsert ZsetTreeRemove ZsetCommit ZsetArena ZsetCommitProof ZsetTx ZsetOps.

Abbreviation zset := (list (bytes * Z)) (only parsing).

Definition score_ok (s : f64) : Prop := f64_ok s /\ f64_is_nan s = false.
Definition entry_ok (e : bytes * Z) : Prop := score_ok e.2 /\ len e.1 <= MAX_MEMBER_LEN.

(** Entries by score and then by member. *)
Definition entry_compare (a b : bytes * Z) : comparison :=
  match f64_compare a.2 b.2 with Some Lt => Lt | Some Gt => Gt | _ => bytes_compare a.1 b.1 end.
Fixpoint rinsert (e : bytes * Z) (l : zset) : zset :=
  match l with
  | [] => [e]
  | e' :: l' => match entry_compare e' e with Lt => e' :: rinsert e l' | _ => e :: l end
  end.
Definition ranked (z : zset) : zset := foldr rinsert [] z.

(** ** Maps over values *)

Section MapValues.
Context {V W : Type} (g : V -> W).
Definition vmap (es : list (bytes * V)) : list (bytes * W) := (fun e => (e.1, g e.2)) <$> es.

Lemma aget_vmap es k : aget (vmap es) k = g <$> aget es k.
Proof. induction es as [|[k' v] es IH]; [done|]. cbn. by destruct (bytes_compare k' k). Qed.
Lemma aset_vmap es k v : aset (vmap es) k (g v) = vmap (aset es k v).
Proof. induction es as [|[k' v'] es IH]; [done|]. cbn. destruct (bytes_compare k' k); cbn; [done| |done]. f_equal. apply IH. Qed.
Lemma adel_vmap es k : adel (vmap es) k = vmap (adel es k).
Proof. induction es as [|[k' v'] es IH]; [done|]. cbn. destruct (bytes_compare k' k); cbn; [done| |done]. f_equal. apply IH. Qed.
Lemma arank_vmap es k : arank (vmap es) k = arank es k.
Proof. induction es as [|[k' v'] es IH]; [done|]. cbn. destruct (bytes_ltb k' k); [|done]. f_equal. apply IH. Qed.
Lemma asorted_vmap es : asorted (vmap es) <-> asorted es.
Proof. unfold asorted, vmap. rewrite <- list_fmap_compose. done. Qed.
End MapValues.

(** Sorted lists with the same entries are equal. *)
Lemma asorted_ext {V : Type} (l l' : list (bytes * V)) : asorted l -> asorted l' -> (forall e, e ∈ l <-> e ∈ l') -> l = l'.
Proof.
  assert (forall (e : bytes * V) es x, asorted (e :: es) -> x ∈ es -> bytes_lt e.1 x.1) as Hgt.
  { intros e es x [H _]%asorted_cons Hx. unfold keys_gt in H. rewrite Forall_forall in H. by apply H. }
  revert l'; induction l as [|e l IH]; intros l' Hs Hs' H.
  - destruct l' as [|e' l']; [done|]. assert (e' ∈ []) as Hx by (apply H; left). by apply not_elem_of_nil in Hx.
  - destruct l' as [|e' l']; [assert (e ∈ []) as Hx by (apply H; left); by apply not_elem_of_nil in Hx|].
    assert (e = e') as <-.
    { assert (e ∈ e' :: l') as [?|H1]%elem_of_cons by (apply H; left); [done|].
      assert (e' ∈ e :: l) as [?|H2]%elem_of_cons by (apply H; left); [done|].
      pose proof (Hgt _ _ _ Hs' H1). pose proof (Hgt _ _ _ Hs H2). exfalso. eapply bytes_lt_irrefl. by eapply bytes_lt_trans. }
    f_equal. apply IH; [by apply asorted_cons in Hs as [_ ?]|by apply asorted_cons in Hs' as [_ ?]|]. intros x. split; intros Hx.
    + assert (x ∈ e :: l') as [->|?]%elem_of_cons by (apply H; by right); [|done]. pose proof (Hgt _ _ _ Hs Hx) as Hb. by apply bytes_lt_irrefl in Hb.
    + assert (x ∈ e :: l) as [->|?]%elem_of_cons by (apply H; by right); [|done]. pose proof (Hgt _ _ _ Hs' Hx) as Hb. by apply bytes_lt_irrefl in Hb.
Qed.

(** ** Score keys *)

Definition skey (e : bytes * Z) : bytes := be_bytes 8 (sort_val (f64_key e.2)) ++ e.1.
Definition kv (e : bytes * Z) : bytes * bytes := (skey e, score_value e.2).

Lemma score_key_ok s m : score_ok s -> score_key s m = Ok (skey (m, s)).
Proof. intros [? ?]. unfold score_key. by rewrite score_prefix_val. Qed.

Lemma skey_compare a b : score_ok a.2 -> score_ok b.2 -> bytes_compare (skey a) (skey b) = entry_compare a b.
Proof.
  intros [Ha Na] [Hb Nb]. unfold skey, entry_compare.
  rewrite bytes_compare_same_length by (by rewrite !length_be_bytes).
  rewrite (score_prefix_compare _ _ _ _ Ha Hb (score_prefix_val _ Ha Na) (score_prefix_val _ Hb Nb)).
  by destruct (bytes_compare (be_bytes 8 _) _).
Qed.

Lemma skey_inj a b : skey a = skey b -> a.1 = b.1 /\ be_bytes 8 (sort_val (f64_key a.2)) = be_bytes 8 (sort_val (f64_key b.2)).
Proof. unfold skey. intros E. apply app_inj_1 in E as [? ?]; [done|]. by rewrite !length_be_bytes. Qed.

Lemma zdrop_skey e : zdrop 8 (skey e) = e.1.
Proof. unfold skey. rewrite zdrop_app_ge by (rewrite len_be_bytes; lia). rewrite zdrop_0 by (rewrite len_be_bytes; lia). done. Qed.

Lemma len_skey e : len (skey e) = 8 + len e.1.
Proof. unfold skey. by rewrite len_app, len_be_bytes. Qed.

Lemma decode_score_value_ok s : f64_ok s -> decode_score_value (score_value s) = Ok s.
Proof. intros Hs. unfold decode_score_value, score_value. rewrite len_le_bytes. cbn [Z.eqb]. f_equal. by apply le_val_u64. Qed.

(** ** The ranking *)

Lemma rinsert_kv e l :
  score_ok e.2 -> Forall (fun e => score_ok e.2) l -> Forall (fun e' => e'.1 <> e.1) l -> kv <$> rinsert e l = aset (kv <$> l) (skey e) (score_value e.2).
Proof.
  intros He Hl Hne. induction Hl as [|e' l He' Hl IH]; [done|]. apply Forall_cons in Hne as [Hn Hne]. cbn [rinsert fmap list_fmap aset kv].
  rewrite skey_compare by done. destruct (entry_compare e' e) eqn:E; [|cbn; by rewrite IH|done].
  rewrite <- skey_compare in E by done. apply bytes_compare_eq in E. apply skey_inj in E as [? _]. done.
Qed.

Lemma rinsert_perm e l : rinsert e l ≡ₚ e :: l.
Proof. induction l as [|e' l IH]; cbn; [done|]. destruct (entry_compare e' e); [done| |done]. rewrite IH. constructor. Qed.
Lemma ranked_perm z : ranked z ≡ₚ z.
Proof. induction z as [|e z IH]; cbn; [done|]. by rewrite rinsert_perm, IH. Qed.

Lemma members_apart e z : asorted (e :: z) -> Forall (fun e' : bytes * Z => e'.1 <> e.1) z.
Proof. intros [H _]%asorted_cons. eapply Forall_impl; [exact H|]. cbn. intros e' He Heq. rewrite Heq in He. by apply bytes_lt_irrefl in He. Qed.

Lemma ranked_sorted z : asorted z -> Forall entry_ok z -> asorted (kv <$> ranked z).
Proof.
  induction z as [|e z IH]; intros Hs Hok; [constructor|]. cbn [ranked foldr]. pose proof (members_apart _ _ Hs) as Hne.
  apply asorted_cons in Hs as [_ Hs]. apply Forall_cons in Hok as [[He _] Hok]. rewrite rinsert_kv.
  - apply aset_sorted. by apply IH.
  - done.
  - change (Forall (fun e => score_ok e.2) (ranked z)). rewrite ranked_perm. eapply Forall_impl; [exact Hok|]. by intros ? [? _].
  - change (Forall (fun e' => e'.1 <> e.1) (ranked z)). by rewrite ranked_perm.
Qed.

(** ** A transaction holds a sorted set *)

Definition trees (z : zset) (t : Tree) : entries := match t with Score => kv <$> ranked z | Member => vmap score_value z end.

Definition zset_ok (z : zset) : Prop := asorted z /\ Forall entry_ok z /\ len z < 9223372036854775808.

Lemma score_tree_get z k v : asorted z -> Forall entry_ok z ->
  aget (kv <$> ranked z) k = Some v <-> exists m s, aget z m = Some s /\ k = skey (m, s) /\ v = score_value s.
Proof.
  intros Hs Hok. rewrite aget_elem by (by apply ranked_sorted). rewrite list_elem_of_fmap. split.
  - intros ([m s] & E & He). rewrite ranked_perm in He. exists m, s. unfold kv in E. apply pair_equal_spec in E as [-> ->].
    split; [by apply aget_elem|done].
  - intros (m & s & He & -> & ->). exists (m, s). split; [done|]. rewrite ranked_perm. by apply aget_elem.
Qed.

(** A member's score key finds its score. *)
Lemma score_tree_member z m s k : asorted z -> Forall entry_ok z -> aget z m = Some s -> k = skey (m, s) ->
  aget (kv <$> ranked z) k = Some (score_value s).
Proof. intros Hs Hok Hg ->. apply score_tree_get; [done..|]. by exists m, s. Qed.

Lemma skey_member m s m' s' : skey (m, s) = skey (m', s') -> m = m'.
Proof. intros [E _]%skey_inj. done. Qed.

Lemma entry_ok_aset z m s : Forall entry_ok z -> entry_ok (m, s) -> Forall entry_ok (aset z m s).
Proof.
  intros H Hm. induction H as [|[k v] z He Hz IH]; cbn [aset]; [by constructor|].
  destruct (bytes_compare k m); constructor; try done; by constructor.
Qed.
Lemma entry_ok_adel z m : Forall entry_ok z -> Forall entry_ok (adel z m).
Proof. intros H. induction H as [|[k v] z He Hz IH]; cbn [adel]; [done|]. destruct (bytes_compare k m); [done|by constructor|by constructor]. Qed.

Lemma asorted_aget {V : Type} (l l' : list (bytes * V)) : asorted l -> asorted l' -> (forall k v, aget l k = Some v <-> aget l' k = Some v) -> l = l'.
Proof. intros Hs Hs' H. apply asorted_ext; [done..|]. intros [k v]. rewrite <- !aget_elem by done. apply H. Qed.

(** The score tree after a member's old key is taken out. *)
Lemma score_tree_del z m s : asorted z -> Forall entry_ok z -> aget z m = Some s ->
  adel (kv <$> ranked z) (skey (m, s)) = kv <$> ranked (adel z m).
Proof.
  intros Hs Hok Hg. pose proof (adel_sorted z m Hs) as Hs'. pose proof (entry_ok_adel z m Hok) as Hok'.
  pose proof (ranked_sorted _ Hs Hok) as Hr. apply asorted_aget; [by apply adel_sorted|by apply ranked_sorted|]. intros k v.
  rewrite aget_adel, score_tree_get by done. setoid_rewrite aget_adel; [|done].
  destruct (bytes_eqb_spec (skey (m, s)) k) as [<-|Hne].
  - split; [done|]. intros (m' & s' & He & E & _). apply skey_member in E as <-. by destruct (bytes_eqb_spec m m).
  - rewrite score_tree_get by done. split; intros (m' & s' & He & -> & ->); exists m', s'; (split; [|done]).
    + destruct (bytes_eqb_spec m m') as [<-|]; [|done]. congruence.
    + by destruct (bytes_eqb m m').
Qed.

(** The score tree after a new member's key is put in. *)
Lemma score_tree_new z m s : asorted z -> Forall entry_ok z -> aget z m = None -> entry_ok (m, s) ->
  aset (kv <$> ranked z) (skey (m, s)) (score_value s) = kv <$> ranked (aset z m s).
Proof.
  intros Hs Hok Hg Hm. pose proof (aset_sorted z m s Hs) as Hs'. pose proof (entry_ok_aset z m s Hok Hm) as Hok'.
  pose proof (ranked_sorted _ Hs Hok) as Hr. apply asorted_aget; [by apply aset_sorted|by apply ranked_sorted|]. intros k v.
  rewrite aget_aset, score_tree_get by done. setoid_rewrite aget_aset; [|done].
  destruct (bytes_eqb_spec (skey (m, s)) k) as [<-|Hne].
  - split.
    + intros Hv%(inj Some). exists m, s. destruct (bytes_eqb_spec m m); [|done]. by rewrite <- Hv.
    + intros (m' & s' & He & E & ->). apply skey_member in E as <-. destruct (bytes_eqb_spec m m); [congruence|done].
  - rewrite score_tree_get by done. split; intros (m' & s' & He & -> & ->); exists m', s'; (split; [|done]).
    + destruct (bytes_eqb_spec m m') as [<-|]; [congruence|done].
    + destruct (bytes_eqb_spec m m') as [<-|]; [congruence|done].
Qed.

Lemma aset_adel {V : Type} (z : list (bytes * V)) m s : asorted z -> aset (adel z m) m s = aset z m s.
Proof.
  intros Hs. apply asorted_aget; [by apply aset_sorted, adel_sorted|by apply aset_sorted|]. intros k v.
  rewrite !aget_aset, aget_adel by first [done|by apply adel_sorted]. by destruct (bytes_eqb m k).
Qed.

Section Holds.
Context {C : Crc32fast} {CL : Crc32fastLaws C}.
Context (tf : TreeFile) (st : TreeState).
Hypothesis Hpub : published tf st.

Definition zset_on (fit : bool) (tx : Tx) (z : zset) : Prop :=
  tx_on fit tf st tx (trees z) /\ tx_count tx = len z /\ zset_ok z.

Lemma tx_on_ext fit tx f g : (forall t, f t = g t) -> tx_on fit tf st tx f -> tx_on fit tf st tx g.
Proof using Type*.
  intros E [(fps & Hu & Ho) Hs]. split; [|done]. exists fps. split; [|done]. intros t. rewrite <- E. apply Hu.
Qed.

Lemma tx_on_loose fit tx f : tx_on fit tf st tx f -> tx_on false tf st tx f.
Proof using Type*.
  intros [(fps & Hu & Ho) Hs]. split; [|done]. exists fps. split; [|done]. intros t. by eapply tree_under_loose.
Qed.

Lemma len_trees z t : len (trees z t) = len z.
Proof using Type*.
  unfold len. destruct t; cbn [trees]; unfold vmap; rewrite length_fmap; [by rewrite ranked_perm|done].
Qed.

Lemma tx_score_on fit tx z m : zset_on fit tx z -> tx_score tx m = Ok (aget z m).
Proof using Hpub.
  intros ([Hr _] & _ & Hs & Hok & Hlen). unfold tx_score. rewrite (get_repr _ _ _ _ _ Hr) by (rewrite len_trees; unfold u64_max; lia).
  cbn [rbind trees]. rewrite aget_vmap. destruct (aget z m) as [s|] eqn:E; [|done]. cbn [fmap option_fmap option_map].
  apply aget_elem in E; [|done]. rewrite Forall_forall in Hok. destruct (Hok _ E) as [[Hf _] _]. by rewrite decode_score_value_ok.
Qed.

Lemma aget_ok z m s : zset_ok z -> aget z m = Some s -> entry_ok (m, s).
Proof using Type*. intros (Hs & Hok & _) E. apply aget_elem in E; [|done]. rewrite Forall_forall in Hok. by apply Hok. Qed.

Lemma len_aset (z : zset) m s : len (aset z m s) = len z + match aget z m with Some _ => 0 | None => 1 end.
Proof using Type*. unfold len. rewrite aset_length. destruct (aget z m); lia. Qed.
Lemma len_adel (z : zset) m s : aget z m = Some s -> len (adel z m) = len z - 1.
Proof using Type*. intros E. unfold len. rewrite (adel_length z m) by (by rewrite E). lia. Qed.

Lemma zset_ok_aset z m s : zset_ok z -> entry_ok (m, s) -> len (aset z m s) < 9223372036854775808 -> zset_ok (aset z m s).
Proof using Type*. intros (? & ? & ?) ? ?. split; [by apply aset_sorted|]. split; [by apply entry_ok_aset|done]. Qed.
Lemma aset_room (z : zset) m s : len z + 1 < 9223372036854775808 -> len (aset z m s) < 9223372036854775808.
Proof using Type*. intros ?. rewrite len_aset. destruct (aget z m); lia. Qed.
Lemma zset_ok_adel z m : zset_ok z -> zset_ok (adel z m).
Proof using Type*.
  intros (? & ? & ?). split; [by apply adel_sorted|]. split; [by apply entry_ok_adel|].
  destruct (aget z m) as [s|] eqn:E; [rewrite (len_adel _ _ _ E); lia|by rewrite adel_absent].
Qed.

Lemma sbind_reading {A B : Type} (r : Tx -> result A) (k : A -> SR Tx B) tx a : r tx = Ok a -> sbind (reading r) k tx = k a tx.
Proof using Type*. intros E. unfold sbind, reading. by rewrite E. Qed.

Lemma normalize_ok s : f64_is_nan s = false -> exists n, normalize_score s = Ok n.
Proof using Type*. intros N. unfold normalize_score. rewrite N. destruct (f64_eqb s 0); by eexists. Qed.

(** The two insertions of [set], when the member's old key is out of the score tree. *)
Lemma tx_set_insert fit tx z m s g :
  tx_on fit tf st tx g -> g Score = kv <$> ranked (adel z m) -> g Member = vmap score_value z ->
  zset_ok z -> entry_ok (m, s) ->
  exists tx1 tx2 old1 old2, insert Score (skey (m, s)) (score_value s) tx = (Ok old1, tx1) /\ insert Member m (score_value s) tx1 = (Ok old2, tx2) /\
    tx_on fit tf st tx2 (trees (aset z m s)) /\ same_header tx tx2.
Proof using CL Hpub.
  intros Hon Gs Gm Hz Hm. pose proof Hz as (Hs & Hok & Hlen). pose proof (zset_ok_adel z m Hz) as (Hs' & Hok' & Hlen').
  pose proof Hm as [Hsc Hml]. cbn in Hml. unfold MAX_MEMBER_LEN in Hml.
  destruct (insert_on fit tf st tx g Score (skey (m, s)) (score_value s)) as (tx1 & E1 & Hon1 & Hs1); try done.
  { rewrite len_skey. cbn [fst]. unfold u32_max. lia. }
  { rewrite Gs. change (len (trees (adel z m) Score) < u64_max). rewrite len_trees. unfold u64_max. lia. }
  rewrite Gs in Hon1. rewrite score_tree_new in Hon1 by (try done; rewrite aget_adel by done; by destruct (bytes_eqb_spec m m)).
  rewrite aset_adel in Hon1 by done.
  destruct (insert_on fit tf st tx1 _ Member m (score_value s) Hpub Hon1) as (tx2 & E2 & Hon2 & Hs2); try done.
  { unfold u32_max. lia. }
  { cbn [upd]. rewrite Gm. change (len (trees z Member) < u64_max). rewrite len_trees. unfold u64_max. lia. }
  eexists tx1, tx2, _, _. split; [exact E1|]. split; [exact E2|].
  split; [|by eapply same_header_trans]. eapply tx_on_ext; [|exact Hon2]. intros []; [done|]. cbn [upd]. rewrite Gm. apply aset_vmap.
Qed.

(** [set], by whether the member is there. *)
Lemma tx_set_on fit tx z m s :
  zset_on fit tx z -> entry_ok (m, s) -> len (aset z m s) < 9223372036854775808 ->
  match aget z m with
  | Some old => if f64_eqb old s then tx_set m s tx = (Ok false, tx) else
      exists tx', tx_set m s tx = (Ok false, tx') /\ zset_on false tx' (aset z m s) /\ tx_log tx' = tx_log tx ++ [LogSet m s (Some old)]
  | None => exists tx', tx_set m s tx = (Ok true, tx') /\ zset_on fit tx' (aset z m s) /\ tx_log tx' = tx_log tx ++ [LogSet m s None]
  end.
Proof using CL Hpub.
  intros Hz Hm Hroom. pose proof (tx_score_on _ _ _ m Hz) as Hsc. pose proof Hz as (Hon & Hc & Hzok). pose proof Hm as [[Hf Hn] _]. cbn in Hf, Hn.
  destruct (normalize_ok s Hn) as [n En]. unfold tx_set. rewrite En, sbind_slift_Ok, (sbind_reading _ _ _ _ Hsc).
  pose proof (zset_ok_aset z m s Hzok Hm Hroom) as Hz'. pose proof (len_aset z m s) as Hla.
  destruct (aget z m) as [old|] eqn:Eo.
  - destruct (f64_eqb old s); [done|]. pose proof (aget_ok z m old Hzok Eo) as [Hold _]. pose proof Hzok as (Hs & Hok & Hlen).
    rewrite (score_key_ok old m) by done. rewrite (score_key_ok s m) by done.
    destruct (remove_on fit tf st tx (trees z) Score (skey (m, old))) as (tx0 & E0 & Hon0 & Hs0); [done|done|rewrite len_trees; unfold u64_max; lia|].
    cbn [trees] in Hon0. rewrite score_tree_del in Hon0 by done.
    destruct (tx_set_insert false tx0 z m s _ Hon0) as (tx1 & tx2 & o1 & o2 & E1 & E2 & Hon2 & Hs2); try done.
    assert (same_header tx tx2) as (_ & _ & Hcnt & Hlog) by (by eapply same_header_trans).
    exists (retitle tx2 (tx_count tx2) (tx_log tx2 ++ [LogSet m s (Some old)])). split.
    { unfold sbind. cbn [slift]. rewrite E0. cbn [sret]. rewrite E1, E2. cbn [log]. done. }
    split; [|cbn; by rewrite Hlog]. split; [by apply retitle_on|]. cbn. split; [|done]. rewrite Hcnt, Hc, Hla. lia.
  - rewrite (score_key_ok s m) by done.
    destruct (tx_set_insert fit tx z m s _ Hon) as (tx1 & tx2 & o1 & o2 & E1 & E2 & Hon2 & Hs2); try done; [by rewrite adel_absent|].
    pose proof Hs2 as (_ & _ & Hcnt & Hlog).
    exists (retitle tx2 (add64 (tx_count tx2) 1) (tx_log tx2 ++ [LogSet m s None])). split.
    { unfold sbind. cbn [slift sret]. rewrite E1, E2. cbn [log]. done. }
    split; [|cbn; by rewrite Hlog]. split; [by apply retitle_on|]. cbn. split; [|done]. pose proof (len_nonneg z).
    rewrite Hcnt, Hc, Hla, add64_small by (unfold u64_max; lia). done.
Qed.

Lemma tx_set_nan tx m s : f64_is_nan s = true -> tx_set m s tx = (Err "zset tree: score is not a number", tx).
Proof using Type*. intros N. unfold tx_set, normalize_score. by rewrite N. Qed.

(** [delete]. *)
Lemma tx_delete_on fit tx z m :
  zset_on fit tx z ->
  match aget z m with
  | Some old => exists tx', tx_delete m tx = (Ok (Some old), tx') /\ zset_on false tx' (adel z m) /\ tx_log tx' = tx_log tx ++ [LogRemove m old]
  | None => tx_delete m tx = (Ok None, tx)
  end.
Proof using CL Hpub.
  intros Hz. pose proof (tx_score_on _ _ _ m Hz) as Hsc. pose proof Hz as (Hon & Hc & Hzok). pose proof Hzok as (Hs & Hok & Hlen).
  unfold tx_delete. rewrite (sbind_reading _ _ _ _ Hsc). destruct (aget z m) as [old|] eqn:Eo; [|done].
  pose proof (aget_ok z m old Hzok Eo) as [Hold _]. rewrite (score_key_ok old m) by done.
  destruct (remove_on fit tf st tx (trees z) Score (skey (m, old))) as (tx0 & E0 & Hon0 & Hs0); [done|done|rewrite len_trees; unfold u64_max; lia|].
  cbn [trees] in Hon0. rewrite score_tree_del in Hon0 by done.
  destruct (remove_on false tf st tx0 _ Member m Hpub Hon0) as (tx1 & E1 & Hon1 & Hs1).
  { cbn [upd]. change (len (trees z Member) <= u64_max). rewrite len_trees. unfold u64_max. lia. }
  assert (same_header tx tx1) as (_ & _ & Hcnt & Hlog) by (by eapply same_header_trans).
  exists (retitle tx1 (sub64 (tx_count tx1) 1) (tx_log tx1 ++ [LogRemove m old])). split.
  { unfold sbind. cbn [slift sret]. rewrite E0, E1. cbn [log]. done. }
  split; [|cbn; by rewrite Hlog]. split.
  - apply retitle_on. eapply tx_on_ext; [|exact Hon1]. intros []; [done|]. cbn [upd]. apply adel_vmap.
  - cbn. split; [|by apply zset_ok_adel]. pose proof (len_adel z m old Eo). pose proof (len_nonneg (adel z m)).
    rewrite Hcnt, Hc, sub64_small by (unfold u64_max; lia). lia.
Qed.

(** ** Reading entries *)

Lemma zslice_fmap {A B : Type} (g : A -> B) l a b : zslice (g <$> l) a b = g <$> zslice l a b.
Proof using Type*. unfold zslice. by rewrite !ztake_take, !zdrop_drop, fmap_take, fmap_drop. Qed.

Lemma collect_fmap {A B : Type} (g : A -> result B) (h : B -> A) (P : B -> Prop) l :
  (forall x, P x -> g (h x) = Ok x) -> Forall P l -> collect g (h <$> l) = Ok l.
Proof using Type*. intros H Hl. induction Hl as [|x l Hx _ IH]; [done|]. cbn [fmap list_fmap collect]. rewrite H by done. cbn [rbind]. change (list_fmap _ _ h l) with (h <$> l). by rewrite IH. Qed.

Lemma score_entry_kv e : entry_ok e -> score_entry (kv e) = Ok e.
Proof using Type*.
  intros [[Hf _] _]. unfold score_entry, kv. rewrite len_skey, zdrop_skey. pose proof (len_nonneg e.1).
  destruct (Z.ltb_spec (8 + len e.1) 8); [lia|]. rewrite decode_score_value_ok by done. by destruct e.
Qed.
Lemma member_entry_mv e : entry_ok e -> member_entry (e.1, score_value e.2) = Ok e.
Proof using Type*. intros [[Hf _] _]. unfold member_entry. rewrite decode_score_value_ok by done. by destruct e. Qed.

Lemma Forall_zslice {A : Type} (P : A -> Prop) l a b : Forall P l -> Forall P (zslice l a b).
Proof using Type*. intros H. unfold zslice. rewrite ztake_take, zdrop_drop. by apply Forall_take, Forall_drop. Qed.

Definition maybe_reverse {A : Type} (rev : bool) (l : list A) : list A := if rev then reverse l else l.
Definition ordered (t : Tree) (z : zset) : zset := match t with Score => ranked z | Member => z end.

Lemma tx_entries_on fit tx z t start end_ rev :
  zset_on fit tx z -> u64_ok start -> u64_ok end_ ->
  tx_entries tx t start end_ rev = Ok (maybe_reverse rev (zslice (ordered t z) start end_)).
Proof using Hpub.
  intros ([Hr _] & _ & Hs & Hok & Hlen) Ha Hb. unfold tx_entries.
  rewrite (range_repr _ _ _ _ _ _ Hr) by (try done; rewrite len_trees; unfold u64_max; lia). cbn [rbind].
  assert (collect (match t with Score => score_entry | Member => member_entry end) (zslice (trees z t) start end_) = Ok (zslice (ordered t z) start end_)) as ->; [|done].
  destruct t; cbn [trees ordered]; unfold vmap; rewrite zslice_fmap; eapply collect_fmap.
  - apply score_entry_kv.
  - apply Forall_zslice. by rewrite ranked_perm.
  - apply member_entry_mv.
  - by apply Forall_zslice.
Qed.

End Holds.

(** ** The changes, on sorted sets *)

(** What a caller sees of a changed set: the outcome, the set, and the changes logged. *)
Definition changed_set : Type := (Outcome * zset * list LoggedOp)%type.

Definition put (z : zset) (m : bytes) (s : f64) (out : Outcome) : changed_set :=
  match aget z m with
  | Some old => if f64_key old =? f64_key s then (out, z, []) else (out, aset z m s, [LogSet m s (Some old)])
  | None => (out, aset z m s, [LogSet m s None])
  end.

(** GT and LT admit only a greater or lower score than the member has. *)
Definition admits (c : Conditions) (old new : f64) : bool :=
  (if gt c then f64_key old <? f64_key new else true) && (if lt c then f64_key new <? f64_key old else true).

Definition spec_add (z : zset) (m : bytes) (s : f64) (c : Conditions) : changed_set :=
  match aget z m with
  | None => if xx c then (OutAdd false false, z, []) else put z m s (OutAdd true true)
  | Some old =>
      if negb (nx c) && admits c old s && negb (f64_key s =? f64_key old) then put z m s (OutAdd false true) else (OutAdd false false, z, [])
  end.

Definition spec_incr (z : zset) (m : bytes) (delta : f64) (c : Conditions) : result changed_set :=
  let current := aget z m in
  if match current with None => xx c | Some _ => nx c end then Ok (OutIncr None, z, []) else
  let old := default 0 current in
  let new := f64_add old delta in
  if f64_is_nan new then Err "resulting score is not a number (NaN)" else
  if f64_is_infinite new && f64_is_finite old && f64_is_finite delta then Err "increment would produce NaN or Infinity" else
  if match current with Some old => admits c old new | None => true end then Ok (put z m new (OutIncr (Some new)))
  else Ok (OutIncr None, z, []).

Fixpoint without (popped z : zset) : zset :=
  match popped with [] => z | (m, _) :: popped => without popped (adel z m) end.

Definition pop (z popped : zset) : changed_set := (OutPopped popped, without popped z, (fun e => LogRemove e.1 e.2) <$> popped).

Definition spec_apply (op : Op) (z : zset) : result changed_set :=
  match op with
  | OpAdd m s c => if f64_is_nan s then Err "zset tree: score is not a number" else Ok (spec_add z m s c)
  | OpIncr m delta c => spec_incr z m delta c
  | OpRemove m => Ok (match aget z m with
                      | Some old => (OutRemoved true, adel z m, [LogRemove m old])
                      | None => (OutRemoved false, z, [])
                      end)
  | OpPopMin n => Ok (pop z (ztake n (ranked z)))
  | OpPopMax n => Ok (pop z (ztake n (reverse (ranked z))))
  end.

(** What a caller passes, and fewer members than an [i64] counts. *)
Definition op_fits (op : Op) (z : zset) : Prop :=
  match op with
  | OpAdd m s _ | OpIncr m s _ => f64_ok s /\ len m <= MAX_MEMBER_LEN /\ len z + 1 < 9223372036854775808
  | OpRemove _ => True
  | OpPopMin n | OpPopMax n => u64_ok n
  end.

Lemma f64_leb_key x y : score_ok x -> score_ok y -> f64_leb x y = (f64_key x <=? f64_key y).
Proof.
  intros [? ?] [? ?]. unfold f64_leb. rewrite f64_compare_key by done.
  destruct (Z.compare_spec (f64_key x) (f64_key y)), (Z.leb_spec (f64_key x) (f64_key y)); done || lia.
Qed.
Lemma f64_geb_key x y : score_ok x -> score_ok y -> f64_geb x y = (f64_key y <=? f64_key x).
Proof.
  intros [? ?] [? ?]. unfold f64_geb. rewrite f64_compare_key by done.
  destruct (Z.compare_spec (f64_key x) (f64_key y)), (Z.leb_spec (f64_key y) (f64_key x)); done || lia.
Qed.

(** The code's refusals are the condition's negation. *)
Lemma admits_spec c old new : score_ok old -> score_ok new ->
  (gt c && f64_leb new old) || (lt c && f64_geb new old) = negb (admits c old new).
Proof.
  intros Ho Hn. rewrite f64_leb_key, f64_geb_key by done. unfold admits. rewrite (Z.leb_antisym (f64_key old) (f64_key new)), (Z.leb_antisym (f64_key new) (f64_key old)).
  by destruct (gt c), (lt c), (f64_key old <? f64_key new), (f64_key new <? f64_key old).
Qed.

Section Applies.
Context {C : Crc32fast} {CL : Crc32fastLaws C}.
Context (tf : TreeFile) (st : TreeState).
Hypothesis Hpub : published tf st.

(** A step of the transaction against the changed set. *)
Definition applies (r : result Outcome * Tx) (tx : Tx) (spec : changed_set) : Prop :=
  exists tx', r = (Ok spec.1.1, tx') /\ zset_on tf st false tx' spec.1.2 /\ tx_log tx' = tx_log tx ++ spec.2.

Lemma applies_same fit tx z out : zset_on tf st fit tx z -> applies (Ok out, tx) tx (out, z, []).
Proof using Type*.
  intros (Hon & Hc & Hz). exists tx. split; [done|]. split; [split; [by eapply tx_on_loose|done]|]. by rewrite app_nil_r.
Qed.

Lemma put_applies fit tx z m s out :
  zset_on tf st fit tx z -> entry_ok (m, s) -> len z + 1 < 9223372036854775808 ->
  applies ((let! _ := tx_set m s in sret out) tx) tx (put z m s out).
Proof using CL Hpub.
  intros Hz Hm Hroom. pose proof (tx_set_on tf st Hpub fit tx z m s Hz Hm (aset_room z m s Hroom)) as H. unfold put.
  destruct (aget z m) as [old|] eqn:E.
  - destruct (aget_ok z m old) as [[? ?] _]; [by destruct Hz as (_ & _ & ?)|done|]. destruct Hm as [[? ?] _]. cbn in *.
    rewrite f64_eqb_key in H by done. destruct (f64_key old =? f64_key s).
    + rewrite (sbind_Ok _ _ _ _ _ H). by eapply applies_same.
    + destruct H as (tx' & E' & ? & ?). rewrite (sbind_Ok _ _ _ _ _ E'). by exists tx'.
  - destruct H as (tx' & E' & (? & ? & ?) & ?). rewrite (sbind_Ok _ _ _ _ _ E'). exists tx'. split; [done|]. split; [|done]. split; [by eapply tx_on_loose|done].
Qed.

Lemma apply_add_on fit tx z m s c :
  zset_on tf st fit tx z -> entry_ok (m, s) -> len z + 1 < 9223372036854775808 -> applies (apply_add m s c tx) tx (spec_add z m s c).
Proof using CL Hpub.
  intros Hz Hm Hroom. pose proof Hm as [Hs _]. cbn in Hs. destruct (normalize_ok s) as [n En]; [by destruct Hs|].
  unfold apply_add, spec_add. rewrite En, sbind_slift_Ok, (sbind_reading _ _ _ _ (tx_score_on tf st Hpub _ _ _ m Hz)).
  destruct (aget z m) as [old|] eqn:E.
  - destruct (aget_ok z m old) as [Ho _]; [by destruct Hz as (_ & _ & ?)|done|]. cbn in Ho.
    rewrite <- (orb_assoc (nx c) (gt c && _) (lt c && _)), admits_spec, f64_eqb_key by (done || by destruct Ho, Hs).
    destruct (nx c), (admits c old s), (f64_key s =? f64_key old); cbn [negb orb andb]; try (by eapply applies_same). by eapply put_applies.
  - destruct (xx c); [by eapply applies_same|]. by eapply put_applies.
Qed.

Lemma apply_incr_on fit tx z m d c :
  zset_on tf st fit tx z -> f64_ok d -> len m <= MAX_MEMBER_LEN -> len z + 1 < 9223372036854775808 ->
  match spec_incr z m d c with
  | Ok spec => applies (apply_incr m d c tx) tx spec
  | Err e => apply_incr m d c tx = (Err e, tx)
  | Panic => False
  end.
Proof using CL Hpub.
  intros Hz Hd Hm Hroom. unfold apply_incr, spec_incr. rewrite (sbind_reading _ _ _ _ (tx_score_on tf st Hpub _ _ _ m Hz)).
  assert (match aget z m with Some old => old | None => 0 end = default 0 (aget z m)) as -> by (by destruct (aget z m)).
  destruct (match aget z m with None => xx c | Some _ => nx c end); [by eapply applies_same|]. cbv zeta.
  set (new := f64_add (default 0 (aget z m)) d). destruct (f64_is_nan new) eqn:En; [done|].
  destruct (f64_is_infinite new && _ && _); [done|].
  assert (entry_ok (m, new)) as Hnew by (split; [split; [apply f64_add_ok|done]|done]).
  destruct (aget z m) as [old|] eqn:E.
  - destruct (aget_ok z m old) as [Ho _]; [by destruct Hz as (_ & _ & ?)|done|]. cbn in Ho.
    change (default 0 (Some old)) with old. rewrite admits_spec by (done || by destruct Hnew). destruct (admits c old new); cbn [negb]; [by eapply put_applies|by eapply applies_same].
  - by eapply put_applies.
Qed.

(** ** Pops *)

Lemma delete_all_on popped : forall tx z,
  zset_on tf st false tx z -> NoDup popped.*1 -> Forall (fun e => aget z e.1 = Some e.2) popped ->
  exists tx', delete_all popped tx = (Ok tt, tx') /\ zset_on tf st false tx' (without popped z) /\
    tx_log tx' = tx_log tx ++ ((fun e => LogRemove e.1 e.2) <$> popped).
Proof using CL Hpub.
  induction popped as [|[m s] popped IH]; intros tx z Hz Hnd Hin; cbn [delete_all without].
  - exists tx. split; [done|]. split; [done|]. by rewrite app_nil_r.
  - cbn in Hnd. apply NoDup_cons in Hnd as [Hm Hnd]. apply Forall_cons in Hin as [Hs Hin]. cbn in Hs.
    pose proof (tx_delete_on tf st Hpub false tx z m Hz) as H. rewrite Hs in H. destruct H as (tx1 & E1 & Hz1 & Hl1).
    rewrite (sbind_Ok _ _ _ _ _ E1). destruct (IH tx1 (adel z m) Hz1 Hnd) as (tx2 & E2 & Hz2 & Hl2).
    + rewrite Forall_forall in *. intros [m' s'] He. cbn. rewrite aget_adel by (by destruct Hz as (_ & _ & ? & _)).
      destruct (bytes_eqb_spec m m') as [->|_]; [|by apply (Hin (m', s'))]. destruct Hm. apply list_elem_of_fmap. by exists (m', s').
    + exists tx2. split; [done|]. split; [done|]. rewrite Hl2, Hl1, <- app_assoc. done.
Qed.

Lemma members_nodup (z : zset) : asorted z -> NoDup z.*1.
Proof using Type*.
  induction z as [|e z IH]; intros Hs; [constructor|]. cbn. constructor; [|apply IH; by apply asorted_cons in Hs as [_ ?]].
  intros (e' & E & He)%list_elem_of_fmap. pose proof (members_apart _ _ Hs) as H. rewrite Forall_forall in H. by apply (H e').
Qed.

Lemma ranked_facts (z : zset) : asorted z -> NoDup (ranked z).*1 /\ Forall (fun e => aget z e.1 = Some e.2) (ranked z).
Proof using Type*.
  intros Hs. split; [rewrite ranked_perm; by apply members_nodup|]. rewrite ranked_perm. apply Forall_forall. intros [m s] He. by apply aget_elem.
Qed.

Lemma pop_on tx z r popped :
  zset_on tf st false tx z -> r tx = Ok popped -> (exists rest, popped ++ rest ≡ₚ z) ->
  applies ((let! popped := reading r in let! _ := delete_all popped in sret (OutPopped popped)) tx) tx (pop z popped).
Proof using CL Hpub.
  intros Hz Hr [rest Hp]. pose proof Hz as (_ & _ & Hs & _). rewrite (sbind_reading _ _ _ _ Hr).
  destruct (delete_all_on popped tx z Hz) as (tx' & E & Hz' & Hl).
  - apply members_nodup in Hs. rewrite <- Hp, fmap_app in Hs. by apply NoDup_app in Hs as [? _].
  - apply Forall_forall. intros [m s] He. apply aget_elem; [done|]. rewrite <- Hp. apply elem_of_app. by left.
  - rewrite (sbind_Ok _ _ _ _ _ E). by exists tx'.
Qed.

Lemma zslice_front {A : Type} (l : list A) n : 0 <= n -> zslice l 0 (Z.min n (len l)) = ztake n l.
Proof using Type*.
  intros Hn. unfold zslice. rewrite zdrop_0, Z.sub_0_r by lia. destruct (Z.le_gt_cases n (len l)); [by rewrite Z.min_l by lia|].
  rewrite Z.min_r by lia. by rewrite !ztake_ge by lia.
Qed.

Lemma zslice_back {A : Type} (l : list A) n : 0 <= n -> reverse (zslice l (len l - Z.min n (len l)) (len l)) = ztake n (reverse l).
Proof using Type*.
  intros Hn. pose proof (len_nonneg l). unfold zslice. rewrite (ztake_ge _ (zdrop _ l)) by (rewrite len_zdrop by lia; lia). rewrite zdrop_drop, ztake_take.
  rewrite take_reverse. f_equal. f_equal. unfold len. lia.
Qed.

Lemma len_ranked z : len (ranked z) = len z.
Proof using Type*. unfold len. by rewrite ranked_perm. Qed.

Lemma tx_apply_on fit tx z op :
  zset_on tf st fit tx z -> op_fits op z ->
  match spec_apply op z with
  | Ok spec => applies (tx_apply op tx) tx spec
  | Err e => tx_apply op tx = (Err e, tx)
  | Panic => False
  end.
Proof using CL Hpub.
  intros Hz Hop. assert (zset_on tf st false tx z) as Hz0 by (destruct Hz as [? ?]; split; [by eapply tx_on_loose|done]).
  pose proof Hz as (_ & Hc & Hs & Hok & Hlen). pose proof (len_nonneg z). pose proof (len_ranked z) as Hlr.
  destruct op as [m s c|m d c|m|n|n]; cbn [spec_apply tx_apply].
  - destruct Hop as (? & ? & ?). destruct (f64_is_nan s) eqn:N.
    + unfold apply_add, normalize_score. by rewrite N.
    + eapply apply_add_on; try done.
  - destruct Hop as (? & ? & ?). by eapply apply_incr_on.
  - pose proof (tx_delete_on tf st Hpub fit tx z m Hz) as H'. destruct (aget z m) as [old|] eqn:E.
    + destruct H' as (tx' & E' & ? & ?). rewrite (sbind_Ok _ _ _ _ _ E'). by exists tx'.
    + rewrite (sbind_Ok _ _ _ _ _ H'). by eapply applies_same.
  - destruct Hop as [Hn0 Hn]. rewrite Hc. apply pop_on; [done| |].
    + rewrite (tx_entries_on tf st Hpub fit tx z) by (try done; unfold u64_ok, u64_max in *; lia). cbn [maybe_reverse ordered].
      by rewrite <- Hlr, zslice_front.
    + exists (zdrop n (ranked z)). by rewrite ztake_zdrop, ranked_perm.
  - destruct Hop as [Hn0 Hn]. rewrite Hc. apply pop_on; [done| |].
    + rewrite Hc, sub64_small by (unfold u64_max; lia).
      rewrite (tx_entries_on tf st Hpub fit tx z) by (try done; unfold u64_ok, u64_max in *; lia). cbn [maybe_reverse ordered].
      by rewrite <- Hlr, zslice_back.
    + exists (zdrop n (reverse (ranked z))). by rewrite ztake_zdrop, reverse_Permutation, ranked_perm.
Qed.

End Applies.

(** ** Sequences of operations *)

Fixpoint spec_apply_all (ops : list Op) (z : zset) : result (list Outcome * zset * list LoggedOp) :=
  match ops with
  | [] => Ok ([], z, [])
  | op :: ops =>
      let? r := spec_apply op z in
      let? rs := spec_apply_all ops r.1.2 in
      Ok (r.1.1 :: rs.1.1, rs.1.2, r.2 ++ rs.2)
  end.

Fixpoint ops_fit (ops : list Op) (z : zset) : Prop :=
  match ops with
  | [] => True
  | op :: ops => op_fits op z /\ match spec_apply op z with Ok r => ops_fit ops r.1.2 | _ => True end
  end.

Section AppliesAll.
Context {C : Crc32fast} {CL : Crc32fastLaws C}.
Context (tf : TreeFile) (st : TreeState).
Hypothesis Hpub : published tf st.

Lemma tx_apply_all_on ops : forall fit tx z,
  zset_on tf st fit tx z -> ops_fit ops z ->
  match spec_apply_all ops z with
  | Ok (outs, z', logged) => exists tx', tx_apply_all ops tx = (Ok outs, tx') /\ zset_on tf st false tx' z' /\ tx_log tx' = tx_log tx ++ logged
  | Err e => exists tx', tx_apply_all ops tx = (Err e, tx')
  | Panic => False
  end.
Proof using CL Hpub.
  induction ops as [|op ops IH]; intros fit tx z Hz Hfit; cbn [spec_apply_all tx_apply_all].
  - exists tx. split; [done|]. split; [destruct Hz; split; [by eapply tx_on_loose|done]|by rewrite app_nil_r].
  - destruct Hfit as [Hop Hops]. pose proof (tx_apply_on tf st Hpub fit tx z op Hz Hop) as H.
    destruct (spec_apply op z) as [[[out z1] l1]|e|]; [|rewrite (sbind_Err _ _ _ _ _ H); by eexists|done].
    destruct H as (tx1 & E1 & Hz1 & Hl1). cbn [rbind fst snd] in *. rewrite (sbind_Ok _ _ _ _ _ E1).
    specialize (IH _ tx1 z1 Hz1 Hops). destruct (spec_apply_all ops z1) as [[[outs z2] l2]|e|]; [|destruct IH as [tx2 E2]; rewrite (sbind_Err _ _ _ _ _ E2); by eexists|done].
    destruct IH as (tx2 & E2 & Hz2 & Hl2). rewrite (sbind_Ok _ _ _ _ _ E2). exists tx2. split; [done|]. split; [done|].
    by rewrite Hl2, Hl1, <- app_assoc.
Qed.

End AppliesAll.
