(* ===== verification/ZsetReads.v ===== *)
(** * Sorted-set reads return what their commands mean

    The reads of zset_tree/ops.rs turn bounds into positions of a tree and slice it.  Here
    they are equated with plain list functions on the sorted set: filters by score or
    member, reversal, offset and limit. *)

From Stdlib Require Import ZArith Lia.
From stdpp Require Import gmap pretty.
From S2P Require Import Prelude Bytes Crc IoBackend F64 ZsetFormat Assoc ZsetNode ZsetStore ZsetTree ZsetTreeProof ZsetTreeInsert ZsetTreeRemove ZsetCommit ZsetArena ZsetCommitProof ZsetTx ZsetOps ZsetOpsProof.

(** ** Cuts: a predicate that holds on a prefix and fails on the rest *)

Definition cut {A : Type} (p : A -> bool) (l : list A) (n : Z) : Prop :=
  0 <= n <= len l /\ Forall (fun x => p x = true) (ztake n l) /\ Forall (fun x => p x = false) (zdrop n l).

Section Cuts.
Context {A : Type}.
Implicit Types (p q : A -> bool) (l : list A).

Lemma cut_fmap {B : Type} (g : B -> A) p (l : list B) n : cut p (g <$> l) n -> cut (fun x => p (g x)) l n.
Proof.
  unfold cut, len. rewrite length_fmap, !ztake_take, !zdrop_drop, <- fmap_take, <- fmap_drop. by rewrite !Forall_fmap.
Qed.

Lemma cut_ext p q l n : (forall x, x ∈ l -> p x = q x) -> cut p l n -> cut q l n.
Proof.
  intros E (Hn & H1 & H2). split; [done|]. rewrite ztake_take, zdrop_drop in *.
  assert (forall x, x ∈ take (Z.to_nat n) l -> x ∈ l) as Hin1 by (intros x Hx; rewrite <- (take_drop (Z.to_nat n) l); apply elem_of_app; by left).
  assert (forall x, x ∈ drop (Z.to_nat n) l -> x ∈ l) as Hin2 by (intros x Hx; rewrite <- (take_drop (Z.to_nat n) l); apply elem_of_app; by right).
  rewrite !Forall_forall in *. split; intros x Hx; rewrite <- E; [by apply H1|by apply Hin1|by apply H2|by apply Hin2].
Qed.

Lemma cut_all l : cut (fun _ => true) l (len l).
Proof. split; [pose proof (len_nonneg l); lia|]. rewrite ztake_ge, zdrop_ge by lia. split; [by apply Forall_forall|constructor]. Qed.
Lemma cut_none l : cut (fun _ => false) l 0.
Proof. split; [pose proof (len_nonneg l); lia|]. rewrite ztake_0, zdrop_0 by lia. split; [constructor|by apply Forall_forall]. Qed.

Lemma filter_all p l : Forall (fun x => p x = true) l -> filter p l = l.
Proof. intros H. induction H as [|x l Hx _ IH]; [done|]. rewrite filter_cons_True by (by rewrite Hx). by rewrite IH. Qed.
Lemma filter_none p l : Forall (fun x => p x = false) l -> filter p l = [].
Proof. intros H. induction H as [|x l Hx _ IH]; [done|]. rewrite filter_cons_False by (rewrite Hx; by intros []). by rewrite IH. Qed.

(** What lies between two cuts. *)
Lemma filter_between p q l a b :
  cut p l a -> cut q l b -> filter (fun x => negb (p x) && q x) l = zslice l a b.
Proof.
  intros (Ha & Hp1 & Hp2) (Hb & Hq1 & Hq2).
  assert (filter (fun x => negb (p x) && q x) (ztake a l) = []) as H1.
  { apply filter_none. eapply Forall_impl; [exact Hp1|]. cbn. by intros x ->. }
  assert (filter (fun x => negb (p x) && q x) (zdrop a l) = filter q (zdrop a l)) as H2.
  { clear -Hp2. induction Hp2 as [|x r Hx _ IH]; [done|]. rewrite !filter_cons, Hx. cbn [negb andb]. by rewrite IH. }
  rewrite <- (ztake_zdrop a l) at 1. rewrite filter_app, H1, H2. cbn [app]. unfold zslice.
  rewrite <- (ztake_zdrop (b - a) (zdrop a l)) at 1. rewrite filter_app.
  rewrite (filter_all q), (filter_none q); [by rewrite app_nil_r| |].
  - destruct (Z.le_gt_cases b a) as [Hle|Hgt].
    + rewrite (zdrop_0 (b - a)) by lia. rewrite ztake_take, !zdrop_drop in *. replace (Z.to_nat a) with (Z.to_nat b + (Z.to_nat a - Z.to_nat b))%nat by lia.
      rewrite <- drop_drop. by apply Forall_drop.
    + rewrite zdrop_zdrop by lia. by replace (a + (b - a)) with b by lia.
  - destruct (Z.le_gt_cases b a) as [Hle|Hgt]; [rewrite ztake_0 by lia; constructor|].
    rewrite <- zdrop_ztake by lia. rewrite zdrop_drop. by apply Forall_drop.
Qed.

Lemma len_between p q l a b :
  cut p l a -> cut q l b -> len (filter (fun x => negb (p x) && q x) l) = saturating_sub64 b a.
Proof.
  intros Hp Hq. rewrite (filter_between p q l a b) by done. destruct Hp as (? & _), Hq as (? & _).
  unfold zslice, saturating_sub64. destruct (Z.le_gt_cases b a); [rewrite ztake_0, Z.max_r by lia; done|].
  rewrite len_ztake, len_zdrop by lia. lia.
Qed.

End Cuts.

Lemma arank_cut {V : Type} (es : list (bytes * V)) k : asorted es -> cut (fun e => bytes_ltb e.1 k) es (Z.of_nat (arank es k)).
Proof.
  intros Hs. split; [pose proof (arank_le es k); unfold len; lia|]. rewrite ztake_take, zdrop_drop, Nat2Z.id.
  induction es as [|[k' v] es IH]; [split; constructor|]. apply asorted_cons in Hs as [Hk Hs]. cbn [arank]. cbn in Hk.
  destruct (bytes_ltb_spec k' k) as [Hlt|Hge]; cbn [take drop].
  - destruct (IH Hs) as [? ?]. split; [|done]. constructor; [|done]. cbn. by destruct (bytes_ltb_spec k' k).
  - split; [constructor|]. constructor; [cbn; by destruct (bytes_ltb_spec k' k)|]. eapply Forall_impl; [exact Hk|]. cbn. intros e He.
    destruct (bytes_ltb_spec e.1 k) as [Hlt|]; [|done]. destruct Hge. by eapply bytes_lt_trans.
Qed.

(** ** Offset and limit *)

Definition limited {A : Type} (offset : Z) (limit : option Z) (l : list A) : list A :=
  let l := zdrop offset l in match limit with None => l | Some n => ztake n l end.

Section Window.
Context {A : Type}.
Implicit Types l : list A.

Lemma zdrop_zslice l a b n : 0 <= a -> 0 <= n -> zdrop n (zslice l a b) = zslice l (a + n) b.
Proof.
  intros Ha Hn. unfold zslice. destruct (Z.le_gt_cases (b - a) 0); [by rewrite !ztake_0, zdrop_nil by lia|].
  rewrite zdrop_ztake, zdrop_zdrop by lia. f_equal. lia.
Qed.
Lemma ztake_zslice l a b n : 0 <= n -> ztake n (zslice l a b) = zslice l a (Z.min (a + n) b).
Proof. intros Hn. unfold zslice. rewrite ztake_ztake. f_equal. lia. Qed.
Lemma zdrop_reverse l n : 0 <= n -> zdrop n (reverse l) = reverse (ztake (len l - n) l).
Proof. intros Hn. rewrite zdrop_drop, ztake_take, drop_reverse. do 2 f_equal. unfold len. lia. Qed.
Lemma ztake_reverse l n : 0 <= n -> ztake n (reverse l) = reverse (zdrop (len l - n) l).
Proof. intros Hn. rewrite zdrop_drop, ztake_take, take_reverse. do 2 f_equal. unfold len. lia. Qed.

Lemma len_zslice_in l a b : 0 <= a <= b -> b <= len l -> len (zslice l a b) = b - a.
Proof. intros Ha Hb. unfold zslice. rewrite len_ztake, len_zdrop by lia. lia. Qed.

Lemma zslice_zdrop l a b n : 0 <= a <= b -> b <= len l -> n <= b - a -> zdrop n (zslice l a b) = zslice l (Z.max a (a + n)) b.
Proof.
  intros Ha Hb Hn. destruct (Z.le_gt_cases n 0); [rewrite zdrop_0, Z.max_l by lia; done|]. rewrite zdrop_zslice by lia. f_equal. lia.
Qed.

Lemma window_spec low high rev offset limit l :
  0 <= low <= len l -> 0 <= high <= len l -> len l <= u64_max -> u64_ok offset -> (forall n, limit = Some n -> u64_ok n) ->
  let '(start, end_) := window low high rev offset limit in
  u64_ok start /\ u64_ok end_ /\ maybe_reverse rev (zslice l start end_) = limited offset limit (maybe_reverse rev (zslice l low high)).
Proof.
  intros Hl Hh Hu Ho Hlim. unfold window, u64_ok in *. destruct (Z.leb_spec high low) as [Hle|Hlt]; cbn [orb].
  { split; [unfold u64_max; lia|]. split; [unfold u64_max; lia|]. unfold zslice. rewrite !ztake_0 by lia. unfold limited, maybe_reverse.
    replace (if rev then reverse [] else []) with (@nil A) by (by destruct rev). rewrite zdrop_nil. destruct limit; [by rewrite ztake_nil|done]. }
  rewrite sub64_small by lia. destruct (Z.leb_spec (high - low) offset) as [Hle|Hgt].
  { split; [unfold u64_max; lia|]. split; [unfold u64_max; lia|]. unfold limited. rewrite zdrop_ge.
    - unfold zslice. rewrite ztake_0 by lia. destruct rev, limit; cbn [maybe_reverse]; by rewrite ?ztake_nil.
    - unfold len, maybe_reverse. destruct rev; [rewrite length_reverse|]; fold (len (zslice l low high)); rewrite len_zslice_in by lia; lia. }
  destruct rev; cbn [maybe_reverse].
  - rewrite sub64_small by lia. unfold limited. cbv zeta. rewrite zdrop_reverse, len_zslice_in by lia. rewrite ztake_zslice by lia.
    replace (Z.min (low + (high - low - offset)) high) with (high - offset) by lia. destruct limit as [n|]; [|split; [lia|]; split; [lia|done]].
    specialize (Hlim n eq_refl). unfold saturating_sub64. split; [lia|]. split; [lia|]. rewrite ztake_reverse, len_zslice_in by lia.
    rewrite zslice_zdrop by lia. f_equal. f_equal. lia.
  - rewrite add64_small by lia. unfold limited. cbv zeta. rewrite zdrop_zslice by lia. destruct limit as [n|]; [|split; [lia|]; split; [lia|done]].
    specialize (Hlim n eq_refl). unfold saturating_add64. split; [lia|]. split; [lia|]. rewrite ztake_zslice by lia. f_equal. lia.
Qed.

End Window.

(** ** Bounds *)

Definition above_min (b : ScoreBound) (e : bytes * Z) : bool :=
  match b with
  | ScoreNegInf => true
  | ScorePosInf => false
  | ScoreIncl s => f64_key s <=? f64_key e.2
  | ScoreExcl s => f64_key s <? f64_key e.2
  end.
Definition below_max (b : ScoreBound) (e : bytes * Z) : bool :=
  match b with
  | ScoreNegInf => false
  | ScorePosInf => true
  | ScoreIncl s => f64_key e.2 <=? f64_key s
  | ScoreExcl s => f64_key e.2 <? f64_key s
  end.
Definition lex_above (b : LexBound) (e : bytes * Z) : bool :=
  match b with
  | LexMin => true
  | LexMax => false
  | LexIncl m => negb (bytes_ltb e.1 m)
  | LexExcl m => bytes_ltb m e.1
  end.
Definition lex_below (b : LexBound) (e : bytes * Z) : bool :=
  match b with
  | LexMin => false
  | LexMax => true
  | LexIncl m => negb (bytes_ltb m e.1)
  | LexExcl m => bytes_ltb e.1 m
  end.

Definition bound_ok (b : ScoreBound) : Prop := match b with ScoreIncl s | ScoreExcl s => score_ok s | _ => True end.

Lemma with_zero_ltb m b : bytes_ltb m (with_zero b) = negb (bytes_ltb b m).
Proof.
  unfold bytes_ltb, with_zero. revert m; induction b as [|x b IH]; intros [|y m]; cbn [app bytes_compare negb]; [done| |done|].
  - change (byte_val x00) with 0. pose proof (byte_val_range y). destruct (Z.compare_spec (byte_val y) 0); [by destruct m|lia|done].
  - rewrite (Z.compare_antisym (byte_val y) (byte_val x)). destruct (byte_val y ?= byte_val x); cbn [CompOpp negb]; [apply IH|done|done].
Qed.

Section Reads.
Context {C : Crc32fast} {CL : Crc32fastLaws C}.
Context (tf : TreeFile) (st : TreeState) (fit : bool) (tx : Tx) (z : zset).
Hypothesis Hpub : published tf st.
Hypothesis Hz : zset_on tf st fit tx z.

Lemma rank_cut t key : exists n, rank tx t key = Ok n /\ cut (fun e => bytes_ltb (match t with Score => skey e | Member => e.1 end) key) (ordered t z) n.
Proof using Hz.
  destruct Hz as ([Hr _] & _ & Hs & Hok & Hlen). exists (Z.of_nat (arank (trees z t) key)).
  split; [apply (rank_repr _ _ _ _ _ Hr); rewrite len_trees; unfold u64_max; lia|].
  destruct t; cbn [trees ordered].
  - eapply cut_ext; [|apply (cut_fmap kv (fun e : bytes * bytes => bytes_ltb e.1 key)), arank_cut; by apply ranked_sorted]. done.
  - rewrite arank_vmap. by apply arank_cut.
Qed.

Lemma ranked_ok : Forall entry_ok (ranked z).
Proof using Hz. rewrite ranked_perm. by destruct Hz as (_ & _ & _ & ? & _). Qed.

(** The keys below a score's prefix, and below the next one. *)
Lemma prefix_cut s : score_ok s -> exists n, (let? p := score_prefix s in rank tx Score p) = Ok n /\
  cut (fun e => f64_key e.2 <? f64_key s) (ranked z) n.
Proof using Hz.
  intros [Hs Hn]. rewrite (score_prefix_val _ Hs Hn). cbn [rbind]. edestruct (rank_cut Score) as (n & E & Hc). exists n. split; [exact E|].
  eapply cut_ext; [|exact Hc]. intros e He. cbn [ordered]. pose proof ranked_ok as Hok. rewrite Forall_forall in Hok. destruct (Hok e He) as [[He1 He2] _].
  pose proof (prefix_bound s e.2 _ _ e.1 Hs He1 (score_prefix_val _ Hs Hn) (score_prefix_val _ He1 He2)) as Hb.
  rewrite f64_geb_key in Hb by done. unfold skey. destruct (bytes_ltb_spec (be_bytes 8 (sort_val (f64_key e.2)) ++ e.1) (be_bytes 8 (sort_val (f64_key s)))) as [Hlt|Hge];
    destruct (Z.ltb_spec (f64_key e.2) (f64_key s)) as [?|?]; try done.
  - apply Hb in Hlt. lia.
  - destruct Hge. apply Hb. lia.
Qed.

Lemma next_prefix_cut s : score_ok s -> exists n,
  (let? p := score_prefix s in match next_score_prefix p with Some q => rank tx Score q | None => Ok (tx_count tx) end) = Ok n /\
  cut (fun e => f64_key e.2 <=? f64_key s) (ranked z) n.
Proof using Hz.
  intros [Hs Hn]. rewrite (score_prefix_val _ Hs Hn). cbn [rbind].
  destruct (next_score_prefix_bound s s _ _ [] Hs Hs (score_prefix_val _ Hs Hn) (score_prefix_val _ Hs Hn)) as (q & Eq & _). rewrite Eq.
  edestruct (rank_cut Score) as (n & E & Hc). exists n. split; [exact E|].
  eapply cut_ext; [|exact Hc]. intros e He. cbn [ordered]. pose proof ranked_ok as Hok. rewrite Forall_forall in Hok. destruct (Hok e He) as [[He1 He2] _].
  destruct (next_score_prefix_bound s e.2 _ _ e.1 Hs He1 (score_prefix_val _ Hs Hn) (score_prefix_val _ He1 He2)) as (q' & Eq' & _ & Hb).
  rewrite Eq in Eq'. apply (inj Some) in Eq' as <-. rewrite f64_leb_key in Hb by done. unfold skey.
  destruct (bytes_ltb_spec (be_bytes 8 (sort_val (f64_key e.2)) ++ e.1) q) as [Hlt|Hge]; destruct (f64_key e.2 <=? f64_key s); try done.
  - by apply Hb in Hlt.
  - destruct Hge. by apply Hb.
Qed.

Lemma count_is : tx_count tx = len (ranked z) /\ tx_count tx = len z.
Proof using Hz. destruct Hz as (_ & Hc & _). by rewrite len_ranked. Qed.

Lemma score_lower_cut b : bound_ok b -> exists n, score_lower tx b = Ok n /\ cut (fun e => negb (above_min b e)) (ranked z) n.
Proof using Hz.
  destruct count_is as [Ec _]. destruct b as [| |s|s]; intros Hb; cbn [score_lower].
  - exists 0. split; [done|]. eapply cut_ext; [|apply cut_none]. done.
  - exists (tx_count tx). split; [done|]. rewrite Ec. eapply cut_ext; [|apply cut_all]. done.
  - destruct (prefix_cut s Hb) as (n & E & Hc). exists n. split; [done|]. eapply cut_ext; [|exact Hc]. intros e _. cbn. by rewrite Z.ltb_antisym.
  - destruct (next_prefix_cut s Hb) as (n & E & Hc). exists n. split; [done|]. eapply cut_ext; [|exact Hc]. intros e _. cbn. by rewrite Z.leb_antisym.
Qed.

Lemma score_upper_cut b : bound_ok b -> exists n, score_upper tx b = Ok n /\ cut (below_max b) (ranked z) n.
Proof using Hz.
  destruct count_is as [Ec _]. destruct b as [| |s|s]; intros Hb; cbn [score_upper].
  - exists 0. split; [done|]. eapply cut_ext; [|apply cut_none]. done.
  - exists (tx_count tx). split; [done|]. rewrite Ec. eapply cut_ext; [|apply cut_all]. done.
  - destruct (next_prefix_cut s Hb) as (n & E & Hc). by exists n.
  - destruct (prefix_cut s Hb) as (n & E & Hc). by exists n.
Qed.

Lemma lex_lower_cut b : exists n, lex_lower tx b = Ok n /\ cut (fun e => negb (lex_above b e)) z n.
Proof using Hz.
  destruct count_is as [_ Ec]. destruct b as [| |m|m]; cbn [lex_lower].
  - exists 0. split; [done|]. eapply cut_ext; [|apply cut_none]. done.
  - exists (tx_count tx). split; [done|]. rewrite Ec. eapply cut_ext; [|apply cut_all]. done.
  - destruct (rank_cut Member m) as (n & E & Hc). exists n. split; [done|]. eapply cut_ext; [|exact Hc]. intros e _. cbn. by rewrite negb_involutive.
  - destruct (rank_cut Member (with_zero m)) as (n & E & Hc). exists n. split; [done|]. eapply cut_ext; [|exact Hc]. intros e _. cbn. apply with_zero_ltb.
Qed.

Lemma lex_upper_cut b : exists n, lex_upper tx b = Ok n /\ cut (lex_below b) z n.
Proof using Hz.
  destruct count_is as [_ Ec]. destruct b as [| |m|m]; cbn [lex_upper].
  - exists 0. split; [done|]. eapply cut_ext; [|apply cut_none]. done.
  - exists (tx_count tx). split; [done|]. rewrite Ec. eapply cut_ext; [|apply cut_all]. done.
  - destruct (rank_cut Member (with_zero m)) as (n & E & Hc). exists n. split; [done|]. eapply cut_ext; [|exact Hc]. intros e _. cbn. apply with_zero_ltb.
  - destruct (rank_cut Member m) as (n & E & Hc). by exists n.
Qed.

Lemma len_bound : len z <= u64_max /\ len (ranked z) <= u64_max.
Proof using Hz. destruct Hz as (_ & _ & _ & _ & Hl). rewrite len_ranked. unfold u64_max. lia. Qed.

Lemma filter_ext_neg (p q : bytes * Z -> bool) (l : zset) : filter (fun e => negb (negb (p e)) && q e) l = filter (fun e => p e && q e) l.
Proof using Type*. induction l as [|e l IH]; [done|]. rewrite !filter_cons, negb_involutive. by destruct (decide (p e && q e)); rewrite IH. Qed.

(** A window of a tree, between two cuts. *)
Lemma window_entries t p q low high rev offset limit :
  cut (fun e => negb (p e)) (ordered t z) low -> cut q (ordered t z) high -> u64_ok offset -> (forall n, limit = Some n -> u64_ok n) ->
  (let '(start, end_) := window low high rev offset limit in tx_entries tx t start end_ rev) =
  Ok (limited offset limit (maybe_reverse rev (filter (fun e => p e && q e) (ordered t z)))).
Proof using Hz Hpub.
  intros Hp Hq Ho Hl. rewrite <- filter_ext_neg, (filter_between _ _ _ _ _ Hp Hq).
  assert (len (ordered t z) <= u64_max) as Hlen by (destruct len_bound; by destruct t).
  pose proof (window_spec low high rev offset limit (ordered t z) (proj1 Hp) (proj1 Hq) Hlen Ho Hl) as H.
  destruct (window low high rev offset limit) as [start end_]. destruct H as (H1 & H2 & <-).
  by apply (tx_entries_on tf st Hpub fit tx z t start end_ rev).
Qed.

Lemma range_by_score_on min max rev offset limit :
  bound_ok min -> bound_ok max -> u64_ok offset -> (forall n, limit = Some n -> u64_ok n) ->
  range_by_score tx min max rev offset limit =
  Ok (limited offset limit (maybe_reverse rev (filter (fun e => above_min min e && below_max max e) (ranked z)))).
Proof using Hz Hpub.
  intros Hmin Hmax Ho Hl. unfold range_by_score. destruct (score_lower_cut min Hmin) as (low & -> & Hp). destruct (score_upper_cut max Hmax) as (high & -> & Hq).
  cbn [rbind]. by apply (window_entries Score).
Qed.

Lemma range_by_lex_on min max rev offset limit :
  u64_ok offset -> (forall n, limit = Some n -> u64_ok n) ->
  range_by_lex tx min max rev offset limit = Ok (limited offset limit (maybe_reverse rev (filter (fun e => lex_above min e && lex_below max e) z))).
Proof using Hz Hpub.
  intros Ho Hl. unfold range_by_lex. destruct (lex_lower_cut min) as (low & -> & Hp). destruct (lex_upper_cut max) as (high & -> & Hq).
  cbn [rbind]. by apply (window_entries Member).
Qed.

Lemma count_by_score_on min max : bound_ok min -> bound_ok max ->
  count_by_score tx min max = Ok (len (filter (fun e => above_min min e && below_max max e) z)).
Proof using Hz.
  intros Hmin Hmax. unfold count_by_score. destruct (score_lower_cut min Hmin) as (low & -> & Hp). destruct (score_upper_cut max Hmax) as (high & -> & Hq).
  cbn [rbind]. f_equal. rewrite <- (len_between _ _ _ _ _ Hp Hq), filter_ext_neg. unfold len. f_equal. apply Permutation_length. by rewrite ranked_perm.
Qed.

Lemma count_by_lex_on min max : count_by_lex tx min max = Ok (len (filter (fun e => lex_above min e && lex_below max e) z)).
Proof using Hz.
  unfold count_by_lex. destruct (lex_lower_cut min) as (low & -> & Hp). destruct (lex_upper_cut max) as (high & -> & Hq).
  cbn [rbind]. f_equal. by rewrite <- (len_between _ _ _ _ _ Hp Hq), filter_ext_neg.
Qed.

(** ** Positions *)

Lemma wrap_i64_small n : -9223372036854775808 <= n < 9223372036854775808 -> wrap_i64 n = n.
Proof using Type*. intros Hn. unfold wrap_i64. rewrite Z.mod_small by lia. lia. Qed.

Lemma reverse_zslice {A : Type} (l : list A) s e : 0 <= s <= e -> e < len l ->
  reverse (zslice l (len l - 1 - e) (len l - s)) = zslice (reverse l) s (e + 1).
Proof using Type*.
  intros Hs He. unfold zslice. rewrite (zdrop_reverse l s) by lia. rewrite ztake_reverse by lia. f_equal.
  rewrite len_ztake by lia. rewrite Z.min_l by lia. rewrite zdrop_ztake by lia. f_equal; [lia|]. f_equal. lia.
Qed.

Definition by_index {A : Type} (start stop : Z) (l : list A) : list A :=
  let n := len l in
  zslice l (Z.max (if start <? 0 then start + n else start) 0) (Z.min (if stop <? 0 then stop + n else stop) (n - 1) + 1).

Definition i64_ok (n : Z) : Prop := -9223372036854775808 <= n < 9223372036854775808.

Lemma range_by_index_on start stop rev : i64_ok start -> i64_ok stop ->
  range_by_index tx start stop rev = Ok (by_index start stop (maybe_reverse rev (ranked z))).
Proof using Hz Hpub.
  intros Ha Hb. destruct count_is as [Ec Ec']. unfold range_by_index. rewrite Ec.
  assert (len (maybe_reverse rev (ranked z)) = len (ranked z)) as Elen by (unfold len; destruct rev; cbn [maybe_reverse]; by rewrite ?length_reverse).
  unfold by_index. rewrite Elen. pose proof (len_nonneg (ranked z)) as Hn0.
  assert (len (ranked z) < 9223372036854775808) as Hn by (rewrite len_ranked; by destruct Hz as (_ & _ & _ & _ & ?)).
  set (n := len (ranked z)) in *. unfold i64_ok in *. rewrite (wrap_i64_small n), (wrap_i64_small (n - 1)) by lia.
  replace (if start <? 0 then wrap_i64 (start + n) else start) with (if start <? 0 then start + n else start)
    by (destruct (Z.ltb_spec start 0); [by rewrite wrap_i64_small by lia|done]).
  replace (if stop <? 0 then wrap_i64 (stop + n) else stop) with (if stop <? 0 then stop + n else stop)
    by (destruct (Z.ltb_spec stop 0); [by rewrite wrap_i64_small by lia|done]).
  set (s := Z.max (if start <? 0 then start + n else start) 0). set (e := Z.min (if stop <? 0 then stop + n else stop) (n - 1)).
  assert (0 <= s) by lia. assert (e < n) by lia. clearbody s e.
  destruct (Z.ltb_spec e s) as [?|?]; cbn [orb]; [unfold zslice; by rewrite ztake_0 by lia|]. destruct (Z.leb_spec n s) as [?|?]; [lia|].
  rewrite !wrap64_small by (unfold u64_max; lia). destruct rev.
  - rewrite (sub64_small n 1), !sub64_small by (unfold u64_max; lia). rewrite (tx_entries_on tf st Hpub fit tx z Score) by (try done; unfold u64_ok, u64_max; lia).
    cbn [maybe_reverse ordered]. f_equal. apply reverse_zslice; lia.
  - rewrite add64_small by (unfold u64_max; lia). by rewrite (tx_entries_on tf st Hpub fit tx z Score) by (try done; unfold u64_ok, u64_max; lia).
Qed.

Lemma arank_lookup {V : Type} (es : list (bytes * V)) i k v : asorted es -> es !! i = Some (k, v) -> arank es k = i.
Proof using Type*.
  revert i; induction es as [|[k' v'] es IH]; intros i Hs Hi; [done|]. apply asorted_cons in Hs as [Hk Hs]. cbn [arank]. cbn in Hk.
  destruct i as [|i]; cbn in Hi.
  - simplify_eq. destruct (bytes_ltb_spec k k) as [H|]; [by apply bytes_lt_irrefl in H|done].
  - assert (bytes_lt k' k) as Hlt by (unfold keys_gt in Hk; rewrite Forall_lookup in Hk; apply (Hk i _ Hi)).
    destruct (bytes_ltb_spec k' k); [|done]. f_equal. by apply IH.
Qed.

Lemma member_rank_on m rev :
  match aget z m with
  | None => member_rank tx m rev = Ok None
  | Some s => exists i, member_rank tx m rev = Ok (Some (Z.of_nat i)) /\ maybe_reverse rev (ranked z) !! i = Some (m, s)
  end.
Proof using Hz Hpub.
  unfold member_rank. rewrite (tx_score_on tf st Hpub _ _ _ m Hz). cbn [rbind]. destruct count_is as [Ec _]. pose proof Hz as ([Hr _] & _ & Hs & Hok & Hlen).
  destruct (aget z m) as [s|] eqn:E; [|done]. apply aget_elem in E; [|done].
  pose proof (proj1 (Forall_forall _ _) Hok _ E) as [Hsc _]. cbn in Hsc. rewrite score_key_ok by done. cbn [rbind].
  rewrite (rank_repr _ _ _ _ _ Hr) by (rewrite len_trees; unfold u64_max; lia). cbn [rbind trees].
  rewrite <- (ranked_perm z) in E. apply list_elem_of_lookup in E as [i Ei].
  assert (arank (kv <$> ranked z) (skey (m, s)) = i) as ->.
  { eapply arank_lookup; [by apply ranked_sorted|]. rewrite list_lookup_fmap, Ei. done. }
  pose proof (lookup_lt_Some _ _ _ Ei) as Hi. pose proof len_bound as [_ Hb]. destruct rev; [|by exists i].
  exists (length (ranked z) - S i)%nat. split.
  - f_equal. f_equal. rewrite Ec. unfold len in *. rewrite (sub64_small _ 1), sub64_small by lia. lia.
  - cbn [maybe_reverse]. rewrite reverse_lookup by lia. rewrite <- Ei. f_equal. lia.
Qed.

Lemma last_zslice_one {A : Type} (l : list A) p : 0 <= p -> last (zslice l p (p + 1)) = l !! Z.to_nat p.
Proof using Type*.
  intros Hp. unfold zslice. replace (p + 1 - p) with 1 by lia. rewrite ztake_take, zdrop_drop. change (Z.to_nat 1) with 1%nat.
  rewrite <- (Nat.add_0_r (Z.to_nat p)) at 2. rewrite <- lookup_drop. by destruct (drop (Z.to_nat p) l).
Qed.

Lemma at_positions_on ps : Forall u64_ok ps ->
  at_positions tx ps = collect (fun p => ok_or (ranked z !! Z.to_nat p) ("zset tree: no member at position " +:+ pretty p)) ps.
Proof using Hz Hpub.
  intros H. unfold at_positions. induction H as [|p ps Hp _ IH]; [done|]. cbn [collect]. rewrite IH. f_equal.
  pose proof len_bound as [_ Hb]. rewrite (tx_entries_on tf st Hpub fit tx z Score) by
    (try done; unfold add64, wrap64, u64_ok, u64_max in *; pose proof (Z.mod_pos_bound (p + 1) 18446744073709551616 ltac:(lia)); lia).
  cbn [rbind maybe_reverse ordered]. f_equal. destruct Hp as [Hp0 Hp]. destruct (Z.eq_dec p u64_max) as [->|Hne].
  - change (add64 u64_max 1) with 0. unfold zslice. rewrite ztake_0 by (unfold u64_max; lia). symmetry. apply lookup_ge_None. unfold len in Hb. lia.
  - rewrite add64_small by lia. by apply last_zslice_one.
Qed.

(** ** Scans *)

Definition rest_after (after : option bytes) (z : zset) : zset :=
  match after with None => z | Some m => filter (fun e => bytes_ltb m e.1) z end.
Definition scan_page (after : option bytes) (count : Z) (z : zset) : zset * option bytes :=
  let rest := rest_after after z in
  (ztake count rest, if count <? len rest then fst <$> last (ztake count rest) else None).

Lemma zslice_min_end {A : Type} (l : list A) a n : 0 <= a <= len l -> 0 <= n -> zslice l a (Z.min (a + n) (len l)) = ztake n (zdrop a l).
Proof using Type*.
  intros Ha Hn. unfold zslice. destruct (Z.le_gt_cases (a + n) (len l)); [f_equal; lia|].
  rewrite !ztake_ge by (rewrite len_zdrop by lia; lia). done.
Qed.

Lemma scan_start after : exists n, match after with Some m => rank tx Member (with_zero m) | None => Ok 0 end = Ok n /\
  0 <= n <= len z /\ rest_after after z = zdrop n z.
Proof using Hz.
  destruct after as [m|]; cbn [rest_after].
  - destruct (rank_cut Member (with_zero m)) as (n & E & Hc). exists n. split; [done|]. split; [apply Hc|].
    assert (cut (fun e => negb (bytes_ltb m e.1)) z n) as Hc' by (eapply cut_ext; [|exact Hc]; intros e _; apply with_zero_ltb).
    pose proof (filter_between _ _ _ _ _ Hc' (cut_all z)) as Hf. rewrite (filter_ext_neg (fun e => bytes_ltb m e.1) (fun _ => true)) in Hf.
    transitivity (filter (fun e => bytes_ltb m e.1 && true) z).
    + clear. induction z as [|e l IH]; [done|]. rewrite !filter_cons, andb_true_r, IH. done.
    + rewrite Hf. unfold zslice. rewrite ztake_ge; [done|]. pose proof (proj1 Hc). rewrite len_zdrop by lia. cbn [ordered] in *. lia.
  - exists 0. split; [done|]. pose proof (len_nonneg z). split; [lia|]. by rewrite zdrop_0 by lia.
Qed.

Lemma scan_on after count : u64_ok count -> scan tx after count = Ok (scan_page after count z).
Proof using Hz Hpub.
  intros [Hc0 Hc]. unfold scan, scan_page. destruct (scan_start after) as (n & -> & Hn & ->). cbn [rbind]. destruct count_is as [_ Ec]. rewrite Ec.
  destruct Hz as (_ & _ & _ & _ & Hlen). unfold saturating_add64.
  replace (Z.min (Z.min (n + count) u64_max) (len z)) with (Z.min (n + count) (len z)) by (unfold u64_max; lia).
  rewrite (tx_entries_on tf st Hpub fit tx z Member) by (try done; unfold u64_ok, u64_max; lia). cbn [rbind maybe_reverse ordered].
  rewrite zslice_min_end by lia. f_equal. f_equal. rewrite len_zdrop by lia.
  destruct (Z.ltb_spec (Z.min (n + count) (len z)) (len z)), (Z.ltb_spec count (Z.max 0 (len z - n))); try done; lia.
Qed.

End Reads.

Section Paging.
Context {C : Crc32fast}.

(** A client that scans from cursor to cursor. *)
Fixpoint scan_all (fuel : nat) (tx : Tx) (after : option bytes) (count : Z) : result zset :=
  match fuel with
  | O => Panic
  | S fuel =>
      let? r := scan tx after count in
      match r.2 with
      | None => Ok r.1
      | Some m => let? more := scan_all fuel tx (Some m) count in Ok (r.1 ++ more)
      end
  end.

End Paging.

(** The entries after the last one of a page are those that follow the page. *)
Lemma rest_after_last (pre q : zset) m s : asorted (pre ++ (m, s) :: q) -> rest_after (Some m) (pre ++ (m, s) :: q) = q.
Proof.
  intros Hs. cbn [rest_after]. apply asorted_app in Hs as (_ & Hq & Hpre). apply asorted_cons in Hq as [Hq _]. apply Forall_cons in Hpre as [Hpre _]. cbn in Hpre, Hq.
  rewrite filter_app, filter_cons. rewrite filter_none, filter_all; cbn [app].
  - destruct (decide _) as [H|]; [|done]. cbn in H. by destruct (bytes_ltb_spec m m) as [H'|]; [apply bytes_lt_irrefl in H'|].
  - eapply Forall_impl; [exact Hq|]. cbn. intros e He. by destruct (bytes_ltb_spec m e.1).
  - eapply Forall_impl; [exact Hpre|]. cbn. intros e He. destruct (bytes_ltb_spec m e.1) as [Hl|]; [|done].
    exfalso. eapply bytes_lt_irrefl. by eapply bytes_lt_trans.
Qed.

Section PagingOn.
Context {C : Crc32fast} {CL : Crc32fastLaws C}.
Context (tf : TreeFile) (st : TreeState) (fit : bool) (tx : Tx) (z : zset).
Hypothesis Hpub : published tf st.
Hypothesis Hz : zset_on tf st fit tx z.

Lemma scan_all_on count fuel : u64_ok count -> 0 < count -> forall after pre,
  z = pre ++ rest_after after z -> len (rest_after after z) < Z.of_nat fuel -> scan_all fuel tx after count = Ok (rest_after after z).
Proof using Hz Hpub.
  intros Hc Hpos. induction fuel as [|fuel IH]; intros after pre Hpre Hf; [pose proof (len_nonneg (rest_after after z)); lia|].
  cbn [scan_all]. rewrite (scan_on tf st fit tx z Hpub Hz after count Hc). cbn [rbind]. unfold scan_page. cbn [fst snd].
  set (rest := rest_after after z) in *. destruct (Z.ltb_spec count (len rest)) as [Hlt|Hge]; [|by rewrite ztake_ge by lia].
  pose proof (ztake_zdrop count rest) as Hsplit. pose proof (len_ztake count rest ltac:(lia)) as Hlt'.
  destruct (last (ztake count rest)) as [[m s]|] eqn:El.
  2:{ apply last_None in El. rewrite El in Hlt'. change (len (@nil (bytes * Z))) with 0 in Hlt'. lia. }
  apply last_Some in El as [p' Ep]. cbn [fmap option_fmap option_map fst].
  assert (z = (pre ++ p') ++ (m, s) :: zdrop count rest) as Hz'.
  { rewrite Hpre at 1. rewrite <- Hsplit at 1. rewrite Ep. by rewrite <- !app_assoc. }
  assert (rest_after (Some m) z = zdrop count rest) as Er.
  { rewrite Hz'. apply rest_after_last. rewrite <- Hz'. by destruct Hz as (_ & _ & ? & _). }
  rewrite (IH (Some m) (pre ++ ztake count rest)).
  - cbn [rbind]. by rewrite Er, Hsplit.
  - rewrite Er, <- app_assoc, Hsplit. done.
  - rewrite Er, len_zdrop by lia. lia.
Qed.

End PagingOn.
