(* ===== verification/ZsetHistory.v ===== *)
(** * Logged changes: replay and revert

    Every change of a transaction is logged with what it replaced.  [logged z ops z'] says
    that [ops] are the changes that lead from the sorted set [z] to [z'].  The operations
    log such a chain; replaying it on [z] gives [z'], and reverting it on [z'], newest
    change first, gives [z] back. *)

From Stdlib Require Import ZArith Lia.
From stdpp Require Import gmap.
From S2P Require Import Prelude Bytes Crc IoBackend F64 ZsetFormat Assoc ZsetNode ZsetStore ZsetTree ZsetTreeProof ZsetTreeInsert ZsetTreeRemove ZsetCommit ZsetArena ZsetCommitProof ZsetTx ZsetOps ZsetOpsProof.

(** One change. *)
Inductive change (z : zset) : LoggedOp -> zset -> Prop :=
| change_new m s : aget z m = None -> entry_ok (m, s) -> change z (LogSet m s None) (aset z m s)
| change_set m s old : aget z m = Some old -> f64_key old <> f64_key s -> entry_ok (m, s) ->
    change z (LogSet m s (Some old)) (aset z m s)
| change_remove m old : aget z m = Some old -> change z (LogRemove m old) (adel z m).

(** A chain of changes through sets of acceptable size. *)
Inductive logged : zset -> list LoggedOp -> zset -> Prop :=
| logged_nil z : logged z [] z
| logged_cons z op z1 ops z' : change z op z1 -> zset_ok z1 -> logged z1 ops z' -> logged z (op :: ops) z'.

Lemma logged_one z op z' : change z op z' -> zset_ok z' -> logged z [op] z'.
Proof. intros H ?. econstructor; [exact H|done|constructor]. Qed.
Lemma logged_app z ops1 z1 ops2 z2 : logged z ops1 z1 -> logged z1 ops2 z2 -> logged z (ops1 ++ ops2) z2.
Proof. induction 1 as [|z op z1 ops z' Hc Hok _ IH]; intros H2; [done|]. econstructor; [exact Hc|done|by apply IH]. Qed.
Lemma logged_ok z ops z' : logged z ops z' -> zset_ok z -> zset_ok z'.
Proof. induction 1; auto. Qed.
Lemma logged_app_inv z ops1 ops2 z2 : logged z (ops1 ++ ops2) z2 -> exists z1, logged z ops1 z1 /\ logged z1 ops2 z2.
Proof.
  revert z; induction ops1 as [|op ops1 IH]; intros z H; [exists z; split; [constructor|done]|]. inversion H as [|? ? z1 ? ? Hc Hok Hl]; subst.
  destruct (IH _ Hl) as (z3 & ? & ?). exists z3. split; [by econstructor|done].
Qed.

(** ** The operations log what they do *)

Lemma put_logged z m s out : zset_ok z -> entry_ok (m, s) -> len z + 1 < 9223372036854775808 -> logged z (put z m s out).2 (put z m s out).1.2.
Proof.
  intros Hz He Hroom. pose proof (zset_ok_aset z m s Hz He (aset_room z m s Hroom)). unfold put.
  destruct (aget z m) as [old|] eqn:E; [|by apply logged_one; [apply change_new|]].
  destruct (Z.eqb_spec (f64_key old) (f64_key s)); [constructor|]. by apply logged_one; [apply change_set|].
Qed.

Lemma without_logged popped z :
  zset_ok z -> NoDup popped.*1 -> Forall (fun e => aget z e.1 = Some e.2) popped ->
  logged z ((fun e => LogRemove e.1 e.2) <$> popped) (without popped z).
Proof.
  revert z; induction popped as [|[m s] popped IH]; intros z Hz Hnd Hin; [constructor|]. cbn in Hnd. apply NoDup_cons in Hnd as [Hm Hnd].
  apply Forall_cons in Hin as [Hg Hin]. cbn in Hg. cbn [without fmap list_fmap fst snd].
  econstructor; [by apply change_remove|by apply zset_ok_adel|]. apply IH; [by apply zset_ok_adel|done|].
  rewrite Forall_forall in *. intros [m' s'] He. cbn. rewrite aget_adel by (by destruct Hz). destruct (bytes_eqb_spec m m') as [->|_]; [|by apply (Hin (m', s'))].
  destruct Hm. apply list_elem_of_fmap. by exists (m', s').
Qed.

Lemma pop_logged z popped rest : zset_ok z -> popped ++ rest ≡ₚ z -> logged z (pop z popped).2 (pop z popped).1.2.
Proof.
  intros Hz Hp. pose proof Hz as [Hs _]. unfold pop. cbn [fst snd]. apply without_logged; [done| |].
  - apply members_nodup in Hs. rewrite <- Hp, fmap_app in Hs. by apply NoDup_app in Hs as [? _].
  - apply Forall_forall. intros [m s] He. apply aget_elem; [done|]. rewrite <- Hp. apply elem_of_app. by left.
Qed.

Lemma spec_apply_logged op z r : zset_ok z -> op_fits op z -> spec_apply op z = Ok r -> logged z r.2 r.1.2.
Proof.
  intros Hz Hf. destruct op as [m s c|m d c|m|n|n]; cbn [spec_apply].
  - destruct (f64_is_nan s) eqn:N; [done|]. intros [= <-]. destruct Hf as (? & ? & ?). unfold spec_add.
    destruct (aget z m) as [old|]; [destruct (_ && _ && _)|destruct (xx c)]; try constructor; by apply put_logged.
  - destruct Hf as (? & ? & ?). unfold spec_incr. destruct (match aget z m with None => xx c | Some _ => nx c end); [intros [= <-]; constructor|].
    cbv zeta. destruct (f64_is_nan _) eqn:N; [done|]. destruct (_ && _ && _); [done|].
    destruct (match aget z m with Some old => _ | None => true end); intros [= <-]; [|constructor]. apply put_logged; [done| |done]. split; [split; [apply f64_add_ok|done]|done].
  - intros [= <-]. destruct (aget z m) as [old|] eqn:E; [by apply logged_one; [apply change_remove|apply zset_ok_adel]|constructor].
  - intros [= <-]. eapply (pop_logged _ _ (zdrop n (ranked z))); [done|]. by rewrite ztake_zdrop, ranked_perm.
  - intros [= <-]. eapply (pop_logged _ _ (zdrop n (reverse (ranked z)))); [done|]. by rewrite ztake_zdrop, reverse_Permutation, ranked_perm.
Qed.

Lemma spec_apply_all_logged ops : forall z r, zset_ok z -> ops_fit ops z -> spec_apply_all ops z = Ok r -> logged z r.2 r.1.2.
Proof.
  induction ops as [|op ops IH]; intros z r Hz Hf; cbn [spec_apply_all]; [intros [= <-]; constructor|].
  destruct Hf as [Hop Hops]. destruct (spec_apply op z) as [[[out z1] l1]|e|] eqn:E; cbn [rbind fst snd] in *; [|done..].
  destruct (spec_apply_all ops z1) as [[[outs z2] l2]|e|] eqn:E2; cbn [rbind fst snd]; [|done..]. intros [= <-]. cbn [fst snd].
  pose proof (spec_apply_logged op z _ Hz Hop E) as Hl. cbn in Hl. eapply logged_app; [exact Hl|].
  pose proof (logged_ok _ _ _ Hl Hz). by apply (IH z1 (outs, z2, l2)).
Qed.

(** ** Undoing a change on the set *)

Lemma bytes_eqb_refl m : bytes_eqb m m = true.
Proof. by destruct (bytes_eqb_spec m m). Qed.

Lemma adel_aset (z : zset) m s : asorted z -> aget z m = None -> adel (aset z m s) m = z.
Proof.
  intros Hs Hg. apply asorted_aget; [by apply adel_sorted, aset_sorted|done|]. intros k v.
  rewrite aget_adel, aget_aset by first [done|by apply aset_sorted]. destruct (bytes_eqb_spec m k) as [<-|]; [by rewrite Hg|done].
Qed.
Lemma aset_aset (z : zset) m s old : asorted z -> aget z m = Some old -> aset (aset z m s) m old = z.
Proof.
  intros Hs Hg. apply asorted_aget; [by apply aset_sorted, aset_sorted|done|]. intros k v.
  rewrite !aget_aset by first [done|by apply aset_sorted]. destruct (bytes_eqb_spec m k) as [<-|]; [by rewrite Hg|done].
Qed.
Lemma aset_removed (z : zset) m old : asorted z -> aget z m = Some old -> aset (adel z m) m old = z.
Proof.
  intros Hs Hg. rewrite aset_adel by done. apply asorted_aget; [by apply aset_sorted|done|]. intros k v.
  rewrite aget_aset by done. destruct (bytes_eqb_spec m k) as [<-|]; [by rewrite Hg|done].
Qed.

Section Replay.
Context {C : Crc32fast} {CL : Crc32fastLaws C}.
Context (tf : TreeFile) (st : TreeState).
Hypothesis Hpub : published tf st.

Lemma eqb_apart x y : score_ok x -> score_ok y -> f64_key x <> f64_key y -> f64_eqb x y = false.
Proof using Type*. intros [? ?] [? ?] Hne. rewrite f64_eqb_key by done. by destruct (Z.eqb_spec (f64_key x) (f64_key y)). Qed.

Lemma replay_on fit tx z op z' : zset_on tf st fit tx z -> change z op z' -> zset_ok z' ->
  exists tx', replay op tx = (Ok tt, tx') /\ zset_on tf st false tx' z' /\ tx_log tx' = tx_log tx ++ [op].
Proof using CL Hpub.
  intros Hz Hc Hz'. destruct Hc as [m s Hg He|m s old Hg Hne He|m old Hg]; cbn [replay].
  - pose proof (tx_set_on tf st Hpub fit tx z m s Hz He (proj2 (proj2 Hz'))) as H. rewrite Hg in H. destruct H as (tx' & E & (? & ?) & ?).
    rewrite (sbind_Ok _ _ _ _ _ E). exists tx'. split; [done|]. split; [|done]. split; [by eapply tx_on_loose|done].
  - pose proof (tx_set_on tf st Hpub fit tx z m s Hz He (proj2 (proj2 Hz'))) as H. rewrite Hg in H. pose proof Hz as (_ & _ & Hzok).
    rewrite eqb_apart in H; [|by destruct (aget_ok z m old Hzok Hg)|by destruct He|done]. destruct H as (tx' & E & ? & ?).
    rewrite (sbind_Ok _ _ _ _ _ E). by exists tx'.
  - pose proof (tx_delete_on tf st Hpub fit tx z m Hz) as H. rewrite Hg in H. destruct H as (tx' & E & ? & ?).
    rewrite (sbind_Ok _ _ _ _ _ E). by exists tx'.
Qed.

Lemma revert_on fit tx z op z' : zset_on tf st fit tx z' -> change z op z' -> zset_ok z ->
  exists tx', revert op tx = (Ok tt, tx') /\ zset_on tf st false tx' z /\ tx_log tx' <> [].
Proof using CL Hpub.
  intros Hz' Hc Hz. pose proof Hz as (Hs & Hok & Hlen). destruct Hc as [m s Hg He|m s old Hg Hne He|m old Hg]; cbn [revert].
  - pose proof (tx_delete_on tf st Hpub fit tx _ m Hz') as H. rewrite aget_aset, bytes_eqb_refl in H by done. destruct H as (tx' & E & Hz1 & Hl).
    rewrite (sbind_Ok _ _ _ _ _ E). exists tx'. rewrite adel_aset in Hz1 by done. split; [done|]. split; [done|]. rewrite Hl. by destruct (tx_log tx).
  - pose proof (aget_ok z m old Hz Hg) as Hold. pose proof (tx_set_on tf st Hpub fit tx _ m old Hz' Hold) as H.
    rewrite aset_aset, aget_aset, bytes_eqb_refl in H by done. rewrite eqb_apart in H; [|by destruct He|by destruct Hold|done].
    destruct (H Hlen) as (tx' & E & Hz1 & Hl). rewrite (sbind_Ok _ _ _ _ _ E). exists tx'. split; [done|]. split; [done|]. rewrite Hl. by destruct (tx_log tx).
  - pose proof (aget_ok z m old Hz Hg) as Hold. pose proof (tx_set_on tf st Hpub fit tx _ m old Hz' Hold) as H.
    rewrite aset_removed, aget_adel, bytes_eqb_refl in H by done. destruct (H Hlen) as (tx' & E & (? & ?) & Hl). rewrite (sbind_Ok _ _ _ _ _ E).
    exists tx'. split; [done|]. split; [split; [by eapply tx_on_loose|done]|]. rewrite Hl. by destruct (tx_log tx).
Qed.

(** Chains of changes. *)
Lemma replay_all_on z ops z' : logged z ops z' -> forall tx, zset_on tf st false tx z ->
  exists tx', replay_all ops tx = (Ok tt, tx') /\ zset_on tf st false tx' z' /\ tx_log tx' = tx_log tx ++ ops.
Proof using CL Hpub.
  induction 1 as [z|z op z1 ops z' Hc Hok _ IH]; intros tx Hz; cbn [replay_all]; [exists tx; by rewrite app_nil_r|].
  destruct (replay_on false tx z op z1 Hz Hc Hok) as (tx1 & E1 & Hz1 & Hl1). rewrite (sbind_Ok _ _ _ _ _ E1).
  destruct (IH tx1 Hz1) as (tx2 & E2 & Hz2 & Hl2). exists tx2. split; [done|]. split; [done|]. by rewrite Hl2, Hl1, <- app_assoc.
Qed.

Lemma logged_snoc z ops op z' : logged z (ops ++ [op]) z' -> exists z1, logged z ops z1 /\ change z1 op z'.
Proof using Type*. intros (z1 & H1 & H2)%logged_app_inv. exists z1. split; [done|]. inversion H2 as [|? ? ? ? ? Hc _ Hl]; subst. by inversion Hl; subst. Qed.

Lemma revert_all_on ops : forall z z' tx, logged z ops z' -> zset_ok z -> zset_on tf st false tx z' ->
  exists tx', revert_all (reverse ops) tx = (Ok tt, tx') /\ zset_on tf st false tx' z /\ ((ops = [] /\ tx' = tx) \/ tx_log tx' <> []).
Proof using CL Hpub.
  induction ops as [|op ops IH] using rev_ind; intros z z' tx Hl Hok Hz.
  - inversion Hl; subst. exists tx. split; [done|]. split; [done|by left].
  - apply logged_snoc in Hl as (z1 & Hl & Hc). rewrite reverse_snoc. cbn [revert_all]. pose proof (logged_ok _ _ _ Hl Hok) as Hok1.
    destruct (revert_on false tx z1 op z' Hz Hc Hok1) as (tx1 & E1 & Hz1 & Hne). rewrite (sbind_Ok _ _ _ _ _ E1).
    destruct (IH z z1 tx1 Hl Hok Hz1) as (tx2 & E2 & Hz2 & Hlog). exists tx2. split; [done|]. split; [done|]. right. by destruct Hlog as [[_ ->]|?].
Qed.

End Replay.
