(* ===== verification/ZsetMaintain.v ===== *)
(** * Recovery, sync and rewind of a tree file ([zset_tree/maintain.rs])

    The file-level part: the walk over frames, the validity check of a frame, recovery at
    start, sync, and the rewind to before a token.  A walk goes down strictly
    ([trailer_ending_at] only returns frames that start before their end) and recovery
    goes up by at least a frame header, so the file's length is fuel enough; the lemmas
    of [ZsetFrames] show it.  A rewind below a compacted base and a compaction are in
    [ZsetDir]. *)

From Stdlib Require Import ZArith Lia.
From stdpp Require Import gmap.
From S2P Require Import Prelude Bytes Crc IoBackend F64 ZsetFormat Assoc ZsetNode ZsetStore ZsetTree ZsetCommit ZsetOps.

Record Recovery : Type := mkRecovery {
  frames_checked : Z;
  truncated_bytes : Z;
  rec_state : TreeState;
}.

Record FrameAt : Type := mkFrameAt {
  fa_start : Z;
  fa_end : Z;
  fa_trailer : Trailer;
}.

#[global] Instance token_eq_dec : EqDecision Token.
Proof. solve_decision. Defined.
#[global] Instance trailer_eq_dec : EqDecision Trailer.
Proof. solve_decision. Defined.

Section WithCrc.
Context {C : Crc32fast}.

Definition frame_header (tf : TreeFile) (start : Z) : result FrameHeader :=
  let? bs := read_exact tf start FRAME_HEADER_SIZE in
  ok_or (frame_header_decode bs) "zset tree: damaged frame header".

Definition frame_ops (tf : TreeFile) (frame : FrameAt) (header : FrameHeader) : result bytes :=
  let n := fh_ops_len header in
  read_exact tf (sub64 (sub64 (fa_end frame) TRAILER_SIZE) n) n.

Fixpoint frames_back_loop (fuel : nat) (tf : TreeFile) (end_ : Z) : result (list FrameAt) :=
  if end_ <=? HEADER_REGION then Ok [] else
  match fuel with
  | O => Panic
  | S fuel =>
      let? t := trailer_ending_at tf end_ in
      let? trailer := ok_or t "zset tree: met a damaged frame" in
      let? frames := frames_back_loop fuel tf (tr_frame_start trailer) in
      Ok (mkFrameAt (tr_frame_start trailer) end_ trailer :: frames)
  end.
Definition frames_back (tf : TreeFile) (latest_end : Z) : result (list FrameAt) :=
  frames_back_loop (Z.to_nat latest_end) tf latest_end.

(** The loop of [rewind]: the end to cut at, or the base frame that is in the way. *)
Inductive rewind_target : Type :=
| CutAt (end_ : Z)
| BelowBase (frame : FrameAt) (undo : UndoLog).

Fixpoint rewind_loop (fuel : nat) (tf : TreeFile) (end_ : Z) (token : Token) : result rewind_target :=
  if end_ <=? HEADER_REGION then Ok (CutAt end_) else
  match fuel with
  | O => Panic
  | S fuel =>
      let? t := trailer_ending_at tf end_ in
      let? trailer := ok_or t "zset tree: rewind met a damaged frame" in
      if token_ltb (tr_token trailer) token then Ok (CutAt end_) else
      let frame := mkFrameAt (tr_frame_start trailer) end_ trailer in
      let? header := frame_header tf (fa_start frame) in
      if fh_base header then
        let? ops := frame_ops tf frame header in
        let? undo := undo_decode ops in
        Ok (BelowBase frame undo)
      else rewind_loop fuel tf (tr_frame_start trailer) token
  end.

(** The end of [rewind] when it stays in the file. *)
Definition cut_back (st : TreeState) (end_ : Z) : SR TreeFile TreeState :=
  let! _ := set_len end_ in
  let! _ := write_slot (mkHeaderSlot (add64 (ts_generation st) 1) end_ (Z.min (ts_synced_frame_end st) end_)) in
  fun tf => (state tf, tf).

Definition READ_CHUNK : Z := 1048576.

(** The loop that hashes the body of a frame, a chunk at a time. *)
Fixpoint hash_body (fuel : nat) (tf : TreeFile) (at_ trailer_at : Z) (hasher : Hasher) : result Hasher :=
  if at_ <? trailer_at then
    match fuel with
    | O => Panic
    | S fuel =>
        let n := Z.min (trailer_at - at_) READ_CHUNK in
        let? bs := read_exact tf at_ n in
        hash_body fuel tf (add64 at_ n) trailer_at (hasher_update hasher bs)
    end
  else Ok hasher.

Definition frame_valid (tf : TreeFile) (start : Z) : result (option Z) :=
  if tf_len tf <? add64 start FRAME_HEADER_SIZE then Ok None else
  let? bs := read_exact tf start FRAME_HEADER_SIZE in
  match frame_header_decode bs with
  | None => Ok None
  | Some header =>
      let end_ := saturating_add64 start (frame_len header) in
      if tf_len tf <? end_ then Ok None else
      let trailer_at := sub64 end_ TRAILER_SIZE in
      let? bs := read_exact tf trailer_at TRAILER_SIZE in
      match trailer_decode bs with
      | None => Ok None
      | Some trailer =>
          if negb (tr_frame_start trailer =? start) || negb (token_eqb (tr_token trailer) (fh_token header)) then Ok None else
          let? hasher := hash_body (S (Z.to_nat ((trailer_at - start) / READ_CHUNK))) tf start trailer_at hasher_new in
          if negb (hasher_finalize hasher =? tr_body_crc trailer) then Ok None else
          let? ops := read_exact tf (sub64 trailer_at (fh_ops_len header)) (fh_ops_len header) in
          let decoded :=
            if fh_base header then match undo_decode ops with Ok _ => true | _ => false end
            else match decode_ops ops with Ok _ => true | _ => false end in
          Ok (if decoded then Some end_ else None)
      end
  end.

(** [while let Some(frame_end) = frame_valid(..)?]: the end reached and the frames passed. *)
Fixpoint valid_frames (fuel : nat) (tf : TreeFile) (end_ checked : Z) : result (Z * Z) :=
  match fuel with
  | O => Panic
  | S fuel =>
      let? next := frame_valid tf end_ in
      match next with
      | Some frame_end => valid_frames fuel tf frame_end (checked + 1)
      | None => Ok (end_, checked)
      end
  end.

(** [slots.iter().max_by_key(|slot| slot.generation)]: the last of the greatest. *)
Definition newest_slot (s : option HeaderSlot * option HeaderSlot) : option HeaderSlot :=
  match s with
  | (Some a, Some b) => Some (if hs_generation b <? hs_generation a then a else b)
  | (Some a, None) | (None, Some a) => Some a
  | (None, None) => None
  end.

(** [recover] of a file with a whole header. *)
Definition recover : SR TreeFile Recovery := fun tf =>
  (let! s := slift (slots tf) in
   let newest := newest_slot s in
   let generation := match newest with Some slot => hs_generation slot | None => 0 end in
   let synced := match newest with Some slot => hs_synced_frame_end slot | None => HEADER_REGION end in
   let! start := slift (if synced =? HEADER_REGION then Ok synced else
                        let? t := trailer_ending_at tf synced in
                        Ok (match t with Some _ => synced | None => HEADER_REGION end)) in
   let! r := slift (valid_frames (S (Z.to_nat (tf_len tf))) tf start 0) in
   let '(end_, checked) := r in
   let truncated := sub64 (tf_len tf) end_ in
   let! _ := if 0 <? truncated then set_len end_ else sret tt in
   let! _ := write_slot (mkHeaderSlot (add64 generation 1) end_ start) in
   fun tf => (let? st := state tf in Ok (mkRecovery checked truncated st), tf)) tf.

(** [sync] once the file is open. *)
Definition sync : SR TreeFile bool := fun tf =>
  match state tf with
  | Ok st =>
      if ts_synced_frame_end st =? ts_frame_end st then (Ok true, tf) else
      (let! _ := sync_file in
       let! _ := write_slot (mkHeaderSlot (add64 (ts_generation st) 1) (ts_frame_end st) (ts_frame_end st)) in
       sret true) tf
  | Err e => (Err e, tf)
  | Panic => (Panic, tf)
  end.

(** ** The undo log that a compaction keeps *)

Fixpoint undo_groups (tf : TreeFile) (frames : list FrameAt) (floor : Z) (groups : list (Token * list LoggedOp))
    : result (Z * list (Token * list LoggedOp)) :=
  match frames with
  | [] => Ok (floor, groups)
  | frame :: frames =>
      let? header := frame_header tf (fa_start frame) in
      let? ops := frame_ops tf frame header in
      if fh_base header then
        let? undo := undo_decode ops in
        undo_groups tf frames (Z.max floor (ul_floor undo)) (groups ++ ul_groups undo)
      else
        let? ops := decode_ops ops in
        undo_groups tf frames floor (groups ++ [(tr_token (fa_trailer frame), ops)])
  end.

Definition undo_log_after (tf : TreeFile) (latest_end floor_index : Z) : result UndoLog :=
  let? frames := frames_back tf latest_end in
  let? r := undo_groups tf (reverse frames) floor_index [] in
  Ok (mkUndoLog r.1 (filter (fun g => r.1 < tk_index g.1) r.2)).

Fixpoint frames_after_loop (fuel : nat) (tf : TreeFile) (end_ base_end : Z) (tail : list FrameAt) : result (option (Z * list FrameAt)) :=
  if end_ <=? base_end then Ok (Some (end_, tail)) else
  match fuel with
  | O => Panic
  | S fuel =>
      let? t := trailer_ending_at tf end_ in
      match t with
      | None => Ok None
      | Some trailer => frames_after_loop fuel tf (tr_frame_start trailer) base_end (tail ++ [mkFrameAt (tr_frame_start trailer) end_ trailer])
      end
  end.

(** The frames after [base], oldest first. *)
Definition frames_after (tf : TreeFile) (latest_end : Z) (base : FrameAt) : result (option (list FrameAt)) :=
  let? r := frames_after_loop (Z.to_nat latest_end) tf latest_end (fa_end base) [] in
  match r with
  | None => Ok None
  | Some (end_, tail) =>
      if negb (end_ =? fa_end base) then Ok None else
      let? t := trailer_ending_at tf end_ in
      Ok (if bool_decide (t = Some (fa_trailer base)) then Some (reverse tail) else None)
  end.

End WithCrc.
