(* ===== verification/ZsetFrames.v ===== *)
(** * The frames of a tree file

    [chain tf e h] describes a file whose frames up to [e] are [h], newest first: the bytes
    of each frame, the sorted set its trees hold, and the changes logged since the frame
    before.  [history tf st h] adds that the newest frame is the published one.  The walks
    of zset_tree/maintain.rs see exactly these frames, and a commit adds one. *)

From Stdlib Require Import ZArith Lia Sorting.Sorted.
From stdpp Require Import gmap.
From S2P Require Import Prelude Bytes Crc IoBackend F64 ZsetFormat Assoc ZsetNode ZsetStore ZsetTree ZsetTreeProof ZsetTreeInsert ZsetTreeRemove ZsetCommit ZsetArena ZsetCommitProof ZsetTx ZsetOps ZsetOpsProof ZsetHistory ZsetMaintain.

(** A frame: its parts as bytes or decoded, and the set in its trees. *)
Record Frame : Type := mkFrame {
  fr_start : Z;
  fr_header : FrameHeader;
  fr_pages : bytes;
  fr_payload : bytes;
  fr_trailer : Trailer;
  fr_set : zset;
}.

Definition set_of (h : list Frame) : zset := match h with [] => [] | fr :: _ => fr_set fr end.

Section Frames.
Context {C : Crc32fast} {CL : Crc32fastLaws C}.

Definition fr_body (fr : Frame) : bytes := frame_header_encode (fr_header fr) ++ fr_pages fr ++ fr_payload fr.
Definition fr_image (fr : Frame) : bytes := fr_body fr ++ trailer_encode (fr_trailer fr).
Definition fr_end (fr : Frame) : Z := fr_start fr + len (fr_image fr).

(** The fields of a frame agree with each other. *)
Record frame_wf (fr : Frame) : Prop := {
  fw_header : frame_header_ok (fr_header fr);
  fw_trailer : trailer_ok (fr_trailer fr);
  fw_pages : len (fr_pages fr) = fh_page_count (fr_header fr) * PAGE_SIZE;
  fw_payload : len (fr_payload fr) = fh_ops_len (fr_header fr);
  fw_start : tr_frame_start (fr_trailer fr) = fr_start fr;
  fw_token : tr_token (fr_trailer fr) = fh_token (fr_header fr);
  fw_crc : tr_body_crc (fr_trailer fr) = crc [fr_body fr];
  fw_count : tr_count (fr_trailer fr) = len (fr_set fr);
  fw_set : zset_ok (fr_set fr);
}.

Definition trailer_root (tr : Trailer) (t : Tree) : Child := match t with Score => Disk (tr_score_root tr) | Member => Disk (tr_member_root tr) end.

(** The frame is in the file, with its trees. *)
Record frame_in (tf : TreeFile) (fr : Frame) : Prop := {
  fi_start : HEADER_REGION <= fr_start fr;
  fi_end : fr_end fr <= len (tf_data tf);
  fi_u64 : fr_end fr <= u64_max;
  fi_bytes : zslice (tf_data tf) (fr_start fr) (fr_end fr) = fr_image fr;
  fi_trees : forall t, tree_under false (reader (limit tf (fr_end fr))) t (trailer_root (fr_trailer fr) t) [] (trees (fr_set fr) t);
}.

(** What a frame records of the way from the set before it. *)
Definition follows (z : zset) (fr : Frame) : Prop :=
  if fh_base (fr_header fr) then fr_start fr = HEADER_REGION /\ exists undo, undo_decode (fr_payload fr) = Ok undo
  else exists ops, decode_ops (fr_payload fr) = Ok ops /\ ops <> [] /\ logged z ops (fr_set fr).

Fixpoint chain (tf : TreeFile) (e : Z) (h : list Frame) : Prop :=
  match h with
  | [] => e = HEADER_REGION
  | fr :: h => e = fr_end fr /\ frame_wf fr /\ frame_in tf fr /\ follows (set_of h) fr /\ chain tf (fr_start fr) h
  end.

Definition history (tf : TreeFile) (st : TreeState) (h : list Frame) : Prop :=
  published tf st /\ chain tf (ts_frame_end st) h.

(** ** Sizes *)

Lemma len_fr_body fr : frame_wf fr -> len (fr_body fr) = FRAME_HEADER_SIZE + fh_page_count (fr_header fr) * PAGE_SIZE + fh_ops_len (fr_header fr).
Proof using CL. intros [? ? Hp Ho _ _ _ _ _]. unfold fr_body. rewrite !len_app, len_frame_header_encode, Hp, Ho. lia. Qed.
Lemma len_fr_image fr : frame_wf fr -> len (fr_image fr) = frame_len (fr_header fr).
Proof using CL. intros H. unfold fr_image. rewrite len_app, len_trailer_encode, len_fr_body by done. unfold frame_len. lia. Qed.

Lemma frame_sizes fr : frame_wf fr ->
  FRAME_HEADER_SIZE + TRAILER_SIZE <= len (fr_image fr) /\ 0 <= fh_page_count (fr_header fr) /\ 0 <= fh_ops_len (fr_header fr) <= u32_max.
Proof using CL.
  intros H. rewrite len_fr_image by done. destruct (fw_header _ H) as ([? ?] & [? ?] & _). unfold frame_len, PAGE_SIZE. lia.
Qed.

(** The parts of a frame, in the file. *)
Lemma frame_slice tf fr a b :
  frame_in tf fr -> 0 <= a <= b -> b <= len (fr_image fr) -> zslice (tf_data tf) (fr_start fr + a) (fr_start fr + b) = zslice (fr_image fr) a b.
Proof using Type.
  intros [Hs He Hu Hb _] Ha Hle. rewrite <- Hb. unfold fr_end, HEADER_REGION in *. unfold zslice.
  rewrite zdrop_ztake, zdrop_zdrop by lia. rewrite ztake_ztake. f_equal. lia.
Qed.

Lemma slice_header fr : frame_wf fr -> zslice (fr_image fr) 0 FRAME_HEADER_SIZE = frame_header_encode (fr_header fr).
Proof using CL.
  intros H. unfold fr_image, fr_body. unfold zslice. rewrite zdrop_0, <- app_assoc by lia. rewrite Z.sub_0_r, ztake_app_le, ztake_ge by (rewrite len_frame_header_encode; lia). done.
Qed.

Lemma slice_trailer fr : frame_wf fr -> zslice (fr_image fr) (len (fr_image fr) - TRAILER_SIZE) (len (fr_image fr)) = trailer_encode (fr_trailer fr).
Proof using CL.
  intros H. unfold fr_image at 1. unfold zslice. pose proof (len_trailer_encode (fr_trailer fr)) as Ht.
  assert (len (fr_image fr) = len (fr_body fr) + TRAILER_SIZE) as El by (unfold fr_image; rewrite len_app; lia).
  rewrite zdrop_app_ge by lia. rewrite zdrop_0, ztake_ge by lia. done.
Qed.

Lemma slice_payload fr : frame_wf fr ->
  zslice (fr_image fr) (len (fr_image fr) - TRAILER_SIZE - fh_ops_len (fr_header fr)) (len (fr_image fr) - TRAILER_SIZE) = fr_payload fr.
Proof using CL.
  intros H. pose proof (frame_sizes _ H) as (_ & Hp & Ho). pose proof (fw_payload _ H) as Hl. pose proof (len_trailer_encode (fr_trailer fr)) as Ht.
  assert (len (fr_image fr) = len (frame_header_encode (fr_header fr) ++ fr_pages fr) + len (fr_payload fr) + TRAILER_SIZE) as El.
  { unfold fr_image, fr_body. rewrite !len_app. lia. }
  rewrite El. unfold fr_image, fr_body, zslice. rewrite <- !app_assoc, app_assoc. rewrite (zdrop_app_ge _ (_ ++ _)) by lia.
  rewrite zdrop_0 by lia. rewrite ztake_app_le, ztake_ge by lia. done.
Qed.

(** ** What the readers see *)

Lemma read_frame tf fr a b :
  frame_wf fr -> frame_in tf fr -> fr_end fr <= tf_len tf -> 0 <= a <= b -> b <= len (fr_image fr) ->
  read_exact tf (fr_start fr + a) (b - a) = Ok (zslice (fr_image fr) a b).
Proof using CL.
  intros Hw Hi Hl Ha Hb. pose proof Hi as [Hs He Hu _ _]. unfold fr_end, HEADER_REGION in *. apply read_exact_intro; [lia|lia|].
  replace (fr_start fr + a + (b - a)) with (fr_start fr + b) by lia. rewrite get_range_Some by lia. by rewrite frame_slice by done.
Qed.

Lemma trailer_seen tf fr :
  frame_wf fr -> frame_in tf fr -> fr_end fr <= tf_len tf -> trailer_ending_at tf (fr_end fr) = Ok (Some (fr_trailer fr)).
Proof using CL.
  intros Hw Hi Hl. pose proof (frame_sizes _ Hw) as (Hsz & _). pose proof (fi_start _ _ Hi). unfold trailer_ending_at.
  destruct (Z.ltb_spec (tf_len tf) (fr_end fr)); [lia|]. unfold FRAME_HEADER_SIZE, TRAILER_SIZE, HEADER_REGION in *.
  destruct (Z.ltb_spec (fr_end fr) (4096 + 72)); [unfold fr_end in *; lia|]. cbn [orb].
  replace (fr_end fr - 72) with (fr_start fr + (len (fr_image fr) - 72)) by (unfold fr_end; lia).
  pose proof (read_frame tf fr (len (fr_image fr) - 72) (len (fr_image fr)) Hw Hi Hl ltac:(lia) ltac:(lia)) as Hr.
  replace (len (fr_image fr) - (len (fr_image fr) - 72)) with 72 in Hr by lia. rewrite Hr. cbn [rbind].
  pose proof (slice_trailer fr Hw) as Ht. unfold TRAILER_SIZE in Ht. rewrite Ht.
  rewrite <- (app_nil_r (trailer_encode _)), trailer_decode_encode by apply Hw. rewrite (fw_start _ Hw).
  destruct (Z.ltb_spec (fr_start fr) (fr_end fr)); [done|unfold fr_end in *; lia].
Qed.

Lemma header_seen tf fr : frame_wf fr -> frame_in tf fr -> fr_end fr <= tf_len tf -> read_exact tf (fr_start fr) FRAME_HEADER_SIZE = Ok (frame_header_encode (fr_header fr)).
Proof using CL.
  intros Hw Hi Hl. pose proof (frame_sizes _ Hw) as (Hsz & _). pose proof (read_frame tf fr 0 FRAME_HEADER_SIZE Hw Hi Hl) as Hr.
  rewrite Z.add_0_r, Z.sub_0_r, slice_header in Hr by done. apply Hr; unfold FRAME_HEADER_SIZE, TRAILER_SIZE in *; lia.
Qed.

Lemma frame_header_seen tf fr : frame_wf fr -> frame_in tf fr -> fr_end fr <= tf_len tf -> frame_header tf (fr_start fr) = Ok (fr_header fr).
Proof using CL.
  intros Hw Hi Hl. unfold frame_header. rewrite header_seen by done. cbn [rbind].
  rewrite <- (app_nil_r (frame_header_encode _)), frame_header_decode_encode by apply Hw. done.
Qed.

Lemma payload_seen tf fr : frame_wf fr -> frame_in tf fr -> fr_end fr <= tf_len tf ->
  read_exact tf (fr_end fr - TRAILER_SIZE - fh_ops_len (fr_header fr)) (fh_ops_len (fr_header fr)) = Ok (fr_payload fr).
Proof using CL.
  intros Hw Hi Hl. pose proof (frame_sizes _ Hw) as (Hsz & Hp & Ho). rewrite <- (slice_payload fr Hw).
  assert (fh_ops_len (fr_header fr) + FRAME_HEADER_SIZE + TRAILER_SIZE <= len (fr_image fr)) by (rewrite len_fr_image by done; unfold frame_len, PAGE_SIZE; lia).
  unfold FRAME_HEADER_SIZE, TRAILER_SIZE in *.
  pose proof (read_frame tf fr (len (fr_image fr) - 72 - fh_ops_len (fr_header fr)) (len (fr_image fr) - 72) Hw Hi Hl ltac:(lia) ltac:(lia)) as Hr.
  replace (fr_end fr - 72 - fh_ops_len (fr_header fr)) with (fr_start fr + (len (fr_image fr) - 72 - fh_ops_len (fr_header fr))) by (unfold fr_end; lia).
  rewrite <- Hr. f_equal. lia.
Qed.

Lemma fr_end_bounds tf fr : frame_wf fr -> frame_in tf fr ->
  HEADER_REGION <= fr_start fr /\ fr_start fr + FRAME_HEADER_SIZE + TRAILER_SIZE + fh_ops_len (fr_header fr) <= fr_end fr /\ fr_end fr <= u64_max /\ 0 <= fh_ops_len (fr_header fr).
Proof using CL.
  intros Hw Hi. pose proof (frame_sizes _ Hw) as (_ & Hp & Ho). pose proof (fi_start _ _ Hi). pose proof (fi_u64 _ _ Hi).
  unfold fr_end in *. rewrite len_fr_image in * by done. unfold frame_len, PAGE_SIZE in *. lia.
Qed.

Lemma frame_ops_seen tf fr : frame_wf fr -> frame_in tf fr -> fr_end fr <= tf_len tf ->
  frame_ops tf (mkFrameAt (fr_start fr) (fr_end fr) (fr_trailer fr)) (fr_header fr) = Ok (fr_payload fr).
Proof using CL.
  intros Hw Hi Hl. pose proof (fr_end_bounds _ _ Hw Hi) as (? & ? & ? & ?). unfold frame_ops. cbn [fa_end].
  unfold FRAME_HEADER_SIZE, TRAILER_SIZE, HEADER_REGION in *. rewrite (sub64_small _ 72), sub64_small by lia. by apply payload_seen.
Qed.

(** The chunked checksum is that of the whole body. *)
Lemma hash_body_spec tf fuel : forall at_ trailer_at hasher l,
  hashed hasher l -> 0 <= at_ <= trailer_at -> trailer_at <= tf_len tf -> tf_len tf <= len (tf_data tf) -> tf_len tf <= u64_max ->
  trailer_at - at_ <= Z.of_nat fuel * READ_CHUNK ->
  exists hasher', hash_body fuel tf at_ trailer_at hasher = Ok hasher' /\ hashed hasher' (l ++ zslice (tf_data tf) at_ trailer_at).
Proof using CL.
  induction fuel as [|fuel IH]; intros at_ trailer_at hasher l Hh Ha Ht Hl Hu Hf; cbn [hash_body].
  all: destruct (Z.ltb_spec at_ trailer_at) as [Hlt|Hge]; [|exists hasher; split; [done|]; unfold zslice; rewrite ztake_0 by lia; by rewrite app_nil_r].
  - lia.
  - set (n := Z.min (trailer_at - at_) READ_CHUNK). assert (0 < n <= trailer_at - at_) as Hn by (unfold n, READ_CHUNK; lia).
    rewrite (read_exact_intro tf at_ n (zslice (tf_data tf) at_ (at_ + n))); [|lia|lia|apply get_range_Some; lia]. cbn [rbind].
    rewrite add64_small by lia.
    destruct (IH (at_ + n) trailer_at (hasher_update hasher (zslice (tf_data tf) at_ (at_ + n))) (l ++ zslice (tf_data tf) at_ (at_ + n)))
      as (h' & E & Hh'); [by apply hashed_update|lia|done|done|done|unfold n, READ_CHUNK in *; lia|].
    exists h'. split; [done|]. rewrite <- app_assoc, zslice_join in Hh' by lia. done.
Qed.

Definition payload_decodes (fr : Frame) : Prop :=
  if fh_base (fr_header fr) then exists undo, undo_decode (fr_payload fr) = Ok undo else exists ops, decode_ops (fr_payload fr) = Ok ops.
Lemma follows_decodes z fr : follows z fr -> payload_decodes fr.
Proof using Type. unfold follows, payload_decodes. destruct (fh_base _); [by intros [_ ?]|]. intros (ops & ? & _). by exists ops. Qed.

Lemma token_eqb_refl t : token_eqb t t = true.
Proof using Type. unfold token_eqb, token_compare. by rewrite !Z.compare_refl. Qed.

(** A whole frame passes the check. *)
Lemma frame_valid_seen tf fr :
  frame_wf fr -> frame_in tf fr -> payload_decodes fr -> fr_end fr <= tf_len tf -> tf_len tf <= len (tf_data tf) -> tf_len tf <= u64_max ->
  frame_valid tf (fr_start fr) = Ok (Some (fr_end fr)).
Proof using CL.
  intros Hw Hi Hd Hl Hld Hu. pose proof (fr_end_bounds _ _ Hw Hi) as (Hs & He & _ & Ho). unfold frame_valid. unfold HEADER_REGION in Hs.
  rewrite add64_small by (unfold FRAME_HEADER_SIZE, TRAILER_SIZE in *; lia).
  destruct (Z.ltb_spec (tf_len tf) (fr_start fr + FRAME_HEADER_SIZE)); [unfold FRAME_HEADER_SIZE, TRAILER_SIZE in *; lia|].
  rewrite header_seen by done. cbn [rbind]. rewrite <- (app_nil_r (frame_header_encode _)), frame_header_decode_encode by apply Hw.
  assert (saturating_add64 (fr_start fr) (frame_len (fr_header fr)) = fr_end fr) as ->.
  { unfold saturating_add64. rewrite <- (len_fr_image fr Hw). change (fr_start fr + len (fr_image fr)) with (fr_end fr). lia. }
  destruct (Z.ltb_spec (tf_len tf) (fr_end fr)); [lia|]. unfold TRAILER_SIZE, FRAME_HEADER_SIZE in He.
  rewrite sub64_small by (unfold TRAILER_SIZE; lia). cbv zeta.
  assert (read_exact tf (fr_end fr - TRAILER_SIZE) TRAILER_SIZE = Ok (trailer_encode (fr_trailer fr))) as ->.
  { rewrite <- (slice_trailer fr Hw). pose proof (frame_sizes _ Hw) as [Hsz _]. unfold FRAME_HEADER_SIZE, TRAILER_SIZE in *.
    replace (fr_end fr - 72) with (fr_start fr + (len (fr_image fr) - 72)) by (unfold fr_end; lia).
    rewrite <- (read_frame tf fr _ _ Hw Hi Hl) by lia. f_equal. lia. }
  cbn [rbind]. rewrite <- (app_nil_r (trailer_encode _)), trailer_decode_encode by apply Hw.
  rewrite (fw_start _ Hw), Z.eqb_refl, (fw_token _ Hw), token_eqb_refl. cbn [negb orb].
  destruct (hash_body_spec tf (S (Z.to_nat ((fr_end fr - TRAILER_SIZE - fr_start fr) / READ_CHUNK))) (fr_start fr) (fr_end fr - TRAILER_SIZE) hasher_new [])
    as (h' & -> & Hh'); [apply hashed_new|unfold TRAILER_SIZE; lia|unfold TRAILER_SIZE; lia|done|done| |].
  { unfold READ_CHUNK, TRAILER_SIZE in *. rewrite Nat2Z.inj_succ, Z2Nat.id by (apply Z.div_pos; lia). Z.to_euclidean_division_equations. lia. }
  cbn [rbind]. rewrite (hashed_finalize _ _ Hh'). cbn [app].
  assert (zslice (tf_data tf) (fr_start fr) (fr_end fr - TRAILER_SIZE) = fr_body fr) as ->.
  { pose proof (len_trailer_encode (fr_trailer fr)) as Ht. assert (len (fr_image fr) = len (fr_body fr) + TRAILER_SIZE) as El by (unfold fr_image; rewrite len_app; lia).
    replace (fr_end fr - TRAILER_SIZE) with (fr_start fr + len (fr_body fr)) by (unfold fr_end; lia). pose proof (len_nonneg (fr_body fr)).
    rewrite <- (Z.add_0_r (fr_start fr)) at 1. rewrite frame_slice by (done || unfold TRAILER_SIZE in *; lia).
    unfold fr_image, zslice. rewrite zdrop_0 by lia. rewrite Z.sub_0_r, ztake_app_le, ztake_ge by lia. done. }
  rewrite (fw_crc _ Hw), crc_one, Z.eqb_refl. cbn [negb]. rewrite sub64_small by (unfold TRAILER_SIZE; lia). rewrite payload_seen by done. cbn [rbind].
  unfold payload_decodes in Hd. destruct (fh_base (fr_header fr)); destruct Hd as [x ->]; done.
Qed.

(** ** Walks over a chain *)

Definition at_of (fr : Frame) : FrameAt := mkFrameAt (fr_start fr) (fr_end fr) (fr_trailer fr).

Lemma chain_bounds tf e h : chain tf e h -> HEADER_REGION <= e <= u64_max /\ (h <> [] -> HEADER_REGION + FRAME_HEADER_SIZE + TRAILER_SIZE <= e <= len (tf_data tf)).
Proof using CL.
  destruct h as [|fr h]; cbn [chain].
  - intros ->. split; [unfold HEADER_REGION, u64_max; lia|done].
  - intros (-> & Hw & Hi & _). pose proof (fr_end_bounds _ _ Hw Hi). pose proof (fi_end _ _ Hi). split; [unfold FRAME_HEADER_SIZE, TRAILER_SIZE in *; lia|]. intros _. lia.
Qed.

Lemma chain_step tf e fr h : chain tf e (fr :: h) -> e <= tf_len tf ->
  e = fr_end fr /\ HEADER_REGION < e /\ fr_start fr < e /\ trailer_ending_at tf e = Ok (Some (fr_trailer fr)) /\
  frame_header tf (fr_start fr) = Ok (fr_header fr) /\ frame_ops tf (at_of fr) (fr_header fr) = Ok (fr_payload fr) /\
  tr_frame_start (fr_trailer fr) = fr_start fr /\ chain tf (fr_start fr) h.
Proof using CL.
  intros (-> & Hw & Hi & _ & Hc) Hl. pose proof (fr_end_bounds _ _ Hw Hi) as (? & ? & _ & ?). unfold FRAME_HEADER_SIZE, TRAILER_SIZE in *.
  split; [done|]. split; [lia|]. split; [lia|]. split; [by apply trailer_seen|]. split; [by apply frame_header_seen|]. split; [by apply frame_ops_seen|].
  split; [apply Hw|done].
Qed.

Lemma frames_back_loop_chain tf h : forall fuel e, chain tf e h -> e <= tf_len tf -> e <= Z.of_nat fuel -> frames_back_loop fuel tf e = Ok (at_of <$> h).
Proof using CL.
  induction h as [|fr h IH]; intros fuel e Hc Hl Hf.
  - cbn in Hc. subst e. by destruct fuel.
  - pose proof (chain_step _ _ _ _ Hc Hl) as (He & Hh & Hs & Ht & _ & _ & Hst & Hc'). destruct fuel as [|fuel]; [unfold HEADER_REGION in *; lia|].
    cbn [frames_back_loop]. destruct (Z.leb_spec e HEADER_REGION); [lia|]. rewrite Ht. cbn [rbind ok_or]. rewrite Hst, (IH fuel) by (done || lia).
    cbn [rbind]. by rewrite He.
Qed.

Lemma frames_back_chain tf e h : chain tf e h -> e <= tf_len tf -> frames_back tf e = Ok (at_of <$> h).
Proof using CL. intros Hc Hl. apply frames_back_loop_chain; [done|done|]. pose proof (chain_bounds _ _ _ Hc) as [[? _] _]. unfold HEADER_REGION in *. lia. Qed.

Definition fr_token (fr : Frame) : Token := tr_token (fr_trailer fr).

(** The frames that a rewind to before [token] keeps. *)
Fixpoint before (token : Token) (h : list Frame) : list Frame :=
  match h with
  | [] => []
  | fr :: h' => if token_ltb (fr_token fr) token then h else before token h'
  end.
Definition end_of (h : list Frame) : Z := match h with [] => HEADER_REGION | fr :: _ => fr_end fr end.

Lemma chain_end tf e h : chain tf e h -> e = end_of h.
Proof using Type. destruct h; cbn; [done|by intros [? _]]. Qed.

Lemma chain_before tf e h token : chain tf e h -> chain tf (end_of (before token h)) (before token h) /\ end_of (before token h) <= e.
Proof using CL.
  revert e; induction h as [|fr h IH]; intros e Hc; cbn [before].
  - cbn in *. split; [done|lia].
  - destruct (token_ltb (fr_token fr) token).
    + pose proof (chain_end _ _ _ Hc) as <-. split; [done|lia].
    + destruct Hc as (-> & Hw & Hi & _ & Hc). destruct (IH _ Hc). pose proof (fr_end_bounds _ _ Hw Hi). unfold FRAME_HEADER_SIZE, TRAILER_SIZE in *. split; [done|lia].
Qed.

(** A rewind that meets no base cuts behind those frames; else it stops at the base. *)
Lemma rewind_loop_chain tf token h : forall fuel e, chain tf e h -> e <= tf_len tf -> e <= Z.of_nat fuel ->
  rewind_loop fuel tf e token = Ok (CutAt (end_of (before token h))) \/
  (exists fr undo, fr ∈ h /\ fr_start fr = HEADER_REGION /\ fh_base (fr_header fr) = true /\ undo_decode (fr_payload fr) = Ok undo /\
     token_ltb (fr_token fr) token = false /\ rewind_loop fuel tf e token = Ok (BelowBase (at_of fr) undo)).
Proof using CL.
  induction h as [|fr h IH]; intros fuel e Hc Hl Hf.
  - left. cbn in Hc. subst e. by destruct fuel.
  - pose proof (chain_step _ _ _ _ Hc Hl) as (He & Hh & Hs & Ht & Hhd & Hops & Hst & Hc'). destruct fuel as [|fuel]; [unfold HEADER_REGION in *; lia|].
    cbn [rewind_loop before]. destruct (Z.leb_spec e HEADER_REGION); [lia|]. rewrite Ht. cbn [rbind ok_or]. fold (fr_token fr).
    destruct (token_ltb (fr_token fr) token) eqn:Etok; [left; by rewrite He|]. cbn [fa_start]. rewrite Hst, Hhd. cbn [rbind].
    destruct (fh_base (fr_header fr)) eqn:Eb.
    + right. destruct Hc as (_ & _ & _ & Hfol & _). unfold follows in Hfol. rewrite Eb in Hfol. destruct Hfol as (Hs0 & undo & Hu).
      exists fr, undo. split; [by left|]. split; [done|]. split; [done|]. split; [done|]. split; [done|]. subst e. unfold at_of in Hops. rewrite Hops. cbn [rbind]. by rewrite Hu.
    + destruct (IH fuel (fr_start fr)) as [->|(fr' & undo & ? & ? & ? & ? & ? & ->)]; [done|lia|lia|by left|]. right. exists fr', undo. split; [by right|done].
Qed.

(** ** Chains in another file *)

Lemma frame_keep tf F n fr : frame_in tf fr -> fr_end fr <= n -> n <= len (tf_data tf) -> n <= len (tf_data F) -> base_kept tf F n -> frame_in F fr.
Proof using Type.
  intros [Hs He Hu Hb Ht] Hn Hld HlF Hk. split; [done|lia|done|by rewrite Hk by done|].
  intros t. assert (exists o, trailer_root (fr_trailer fr) t = Disk o) as [o E] by (destruct t; by eexists). specialize (Ht t). rewrite E in *.
  eapply tree_under_reads; [|exact Ht]. apply reads_same; [cbn; lia|lia| |].
  - change (tf_data (tx_file (reader (limit F (fr_end fr))))) with (tf_data F). lia.
  - intros a b Ha Hb'. apply Hk; [done|lia].
Qed.

Lemma chain_keep tf F n e h : chain tf e h -> e <= n -> n <= len (tf_data tf) -> n <= len (tf_data F) -> base_kept tf F n -> chain F e h.
Proof using CL.
  revert e; induction h as [|fr h IH]; intros e; cbn [chain]; [done|]. intros (-> & Hw & Hi & Hf & Hc) Hn Hld HlF Hk.
  split; [done|]. split; [done|]. split; [by eapply frame_keep|]. split; [done|]. apply IH; try done.
  pose proof (fr_end_bounds _ _ Hw Hi). unfold FRAME_HEADER_SIZE, TRAILER_SIZE in *. lia.
Qed.

(** ** The published state of a chain *)

Definition state_at (h : list Frame) (generation synced : Z) : TreeState :=
  match h with
  | [] => mkTreeState 0 0 0 token_default HEADER_REGION generation synced
  | fr :: _ => let t := fr_trailer fr in mkTreeState (tr_score_root t) (tr_member_root t) (tr_count t) (tr_token t) (fr_end fr) generation synced
  end.

Lemma state_at_end h g s : ts_frame_end (state_at h g s) = end_of h.
Proof using Type. by destruct h. Qed.
Lemma home_state_at h g s : home (state_at h g s) = mkHeaderSlot g (end_of h) s.
Proof using Type. by destruct h. Qed.

Lemma frame_trailer_slice tf fr : frame_wf fr -> frame_in tf fr ->
  trailer_decode (zslice (tf_data tf) (fr_end fr - TRAILER_SIZE) (fr_end fr)) = Some (fr_trailer fr).
Proof using CL.
  intros Hw Hi. pose proof (frame_sizes _ Hw) as (Hsz & _). unfold FRAME_HEADER_SIZE, TRAILER_SIZE in *.
  replace (fr_end fr - 72) with (fr_start fr + (len (fr_image fr) - 72)) by (unfold fr_end; lia). unfold fr_end.
  rewrite frame_slice by (done || lia). pose proof (slice_trailer fr Hw) as Ht. unfold TRAILER_SIZE in Ht. rewrite Ht.
  rewrite <- (app_nil_r (trailer_encode _)). apply trailer_decode_encode, Hw.
Qed.

Definition slot_below (F : TreeFile) (o g : Z) : Prop := forall s, slot_at F o = Some s -> hs_generation s < g.

Lemma chain_published F h g synced :
  chain F (end_of h) h -> HEADER_REGION <= tf_len F -> end_of h <= tf_len F -> tf_len F <= len (tf_data F) -> tf_len F <= u64_max ->
  let s := mkHeaderSlot g (end_of h) synced in slot_at F (slot_offset s) = Some s -> slot_below F (other_offset s) g ->
  history F (state_at h g synced) h.
Proof using CL.
  intros Hc H4 Hl Hld Hu s Hs Ho. split; [|by rewrite state_at_end]. pose proof (chain_bounds _ _ _ Hc) as [[? _] Hne].
  unfold published. rewrite state_at_end, home_state_at. split; [lia|]. split; [done|]. split; [done|]. split; [done|]. split.
  { intros s' Hs'. apply Ho in Hs'. by destruct h. }
  destruct h as [|fr h]; [left; done|]. right. cbn [end_of]. destruct Hc as (_ & Hw & Hi & _ & _). pose proof (fr_end_bounds _ _ Hw Hi).
  split; [unfold FRAME_HEADER_SIZE, TRAILER_SIZE in *; lia|]. exists (fr_trailer fr). split; [by apply frame_trailer_slice|]. split; [|done].
  rewrite (fw_start _ Hw). unfold FRAME_HEADER_SIZE, TRAILER_SIZE in *. lia.
Qed.

Lemma history_state tf st h : history tf st h -> st = state_at h (ts_generation st) (ts_synced_frame_end st).
Proof using CL.
  intros [(_ & _ & _ & _ & _ & Hst) Hc]. destruct h as [|fr h]; cbn [state_at].
  - cbn in Hc. destruct Hst as [[_ ->]|[Hfe _]]; [done|]. rewrite Hc in Hfe. unfold HEADER_REGION, TRAILER_SIZE in Hfe. lia.
  - destruct Hc as (E & Hw & Hi & _ & _). pose proof (fr_end_bounds _ _ Hw Hi). destruct Hst as [[Hfe _]|(_ & t & Ht & _ & Hst)].
    + unfold FRAME_HEADER_SIZE, TRAILER_SIZE in *. lia.
    + rewrite E, frame_trailer_slice in Ht by done. apply (inj Some) in Ht as <-. rewrite <- E. exact Hst.
Qed.

(** A published sorted set. *)
Definition stored (fit : bool) (tf : TreeFile) (st : TreeState) (z : zset) : Prop :=
  published tf st /\ trees_in fit tf st (trees z) /\ ts_count st = len z /\ zset_ok z.

Lemma zset_ok_nil : zset_ok [].
Proof using Type. split; [constructor|]. split; [constructor|]. unfold len. cbn. lia. Qed.

Lemma history_stored tf st h : history tf st h -> stored false tf st (set_of h).
Proof using CL.
  intros H. pose proof (history_state _ _ _ H) as E. destruct H as [Hp Hc]. split; [done|]. rewrite E in *. destruct h as [|fr h].
  - split; [intros []; by left|]. split; [done|apply zset_ok_nil].
  - destruct Hc as (_ & Hw & Hi & _). cbn [set_of state_at ts_count]. split; [|split; [apply Hw|apply Hw]].
    intros t. cbn [state_at ts_frame_end state_root]. pose proof (fi_trees _ _ Hi t). by destruct t.
Qed.

Lemma stored_begin fit tf st z : stored fit tf st z -> zset_on tf st fit (begin tf st) z.
Proof using Type. intros (Hp & Ht & Hc & Hz). split; [by apply begin_on|]. by split. Qed.

(** ** A new slot over a file with a chain *)

Lemma publish_chain F F' h g synced :
  chain F (end_of h) h -> HEADER_REGION <= tf_len F -> end_of h <= tf_len F -> tf_len F <= len (tf_data F) -> tf_len F <= u64_max ->
  0 <= g <= u64_max -> HEADER_REGION <= synced <= end_of h -> slot_below F 0 g -> slot_below F SLOT_SIZE g ->
  let s := mkHeaderSlot g (end_of h) synced in
  tf_data F' = overwrite (tf_data F) (slot_offset s) (slot_encode s) -> tf_len F' = tf_len F -> history F' (state_at h g synced) h.
Proof using CL.
  intros Hc H4 Hl Hld Hu Hg Hsy B0 B1 s E El. pose proof (chain_bounds _ _ _ Hc) as [[? ?] _].
  destruct (slot_offset_range s) as (R1 & R2 & R3 & R4 & R5). unfold HEADER_REGION in *.
  destruct (slot_write F F' (slot_offset s) (other_offset s) (slot_encode s) E) as (D & Do & Dl & Dk); [rewrite len_slot_encode; lia|unfold HEADER_REGION; lia|lia|lia|lia|lia|].
  assert (slot_below F (other_offset s) g) as Ho by (unfold other_offset; destruct (_ =? 1); done).
  assert (slot_ok s) as Hsok.
  { unfold slot_ok, u64_ok, HEADER_REGION. cbn [s hs_generation hs_latest_frame_end hs_synced_frame_end]. lia. }
  apply chain_published; try done; unfold HEADER_REGION; try lia.
  - eapply (chain_keep F F' (end_of h)); [done|lia|lia|lia|]. intros a b Ha Hb. by apply Dk.
  - fold s. rewrite D. by apply overwritten_slot.
  - intros s' Hs'. fold s in Hs'. rewrite Do in Hs'. by apply Ho.
Qed.

Lemma sbind_Ok_inv {S A B : Type} (m : SR S A) (k : A -> SR S B) s b s' : sbind m k s = (Ok b, s') -> exists a s1, m s = (Ok a, s1) /\ k a s1 = (Ok b, s').
Proof using Type. unfold sbind. destruct (m s) as [[a|e|] s1]; [|done..]. intros H. by exists a, s1. Qed.

Lemma set_len_ok n tf tf' : set_len n tf = (Ok tt, tf') -> 0 <= n <= len (tf_data tf) -> tf_data tf' = ztake n (tf_data tf) /\ tf_len tf' = n.
Proof using Type.
  intros (u & tf1 & E & [= <-])%sbind_Ok_inv Hn. unfold on_disk, IoBackend.sys_set_len, IoBackend.sys_simple in E.
  assert (tf_data tf1 = ztake n (tf_data tf) ++ replicate (Z.to_nat (n - len (tf_data tf))) x00) as Ed.
  { unfold tf_data in *. destruct (IoBackend.d_faults (tf_disk tf)) as [|[[k e]|] ev]; [..|done|]; injection E as _ <-; done. }
  split; [|done]. change (tf_data (mkTreeFile (tf_disk tf1) n)) with (tf_data tf1). rewrite Ed. replace (Z.to_nat (n - len (tf_data tf))) with 0%nat by lia. by rewrite app_nil_r.
Qed.

Lemma write_slot_ok s tf tf' : write_slot s tf = (Ok tt, tf') -> tf_data tf' = overwrite (tf_data tf) (slot_offset s) (slot_encode s) /\ tf_len tf' = tf_len tf.
Proof using Type.
  unfold write_slot. destruct (write_at_cases (slot_offset s) (slot_encode s) tf) as [(tf1 & -> & ? & ?)|(tf1 & e & k & -> & _)]; [by intros [= <-]|done].
Qed.

Lemma ztake_kept n (tf F : TreeFile) : 0 <= n <= len (tf_data tf) -> tf_data F = ztake n (tf_data tf) ->
  forall a b, 0 <= a -> b <= n -> zslice (tf_data F) a b = zslice (tf_data tf) a b.
Proof using Type.
  intros Hn E a b Ha Hb. rewrite E. unfold zslice. destruct (Z.le_gt_cases a n) as [Hle|Hgt].
  - rewrite zdrop_ztake by lia. rewrite ztake_ztake. f_equal. lia.
  - by rewrite !ztake_0 by lia.
Qed.

Lemma slot_kept (tf F : TreeFile) o : (forall a b, 0 <= a -> b <= 512 -> zslice (tf_data F) a b = zslice (tf_data tf) a b) -> 0 <= o -> o + SLOT_SIZE <= 512 -> slot_at F o = slot_at tf o.
Proof using Type. intros H Ho Hs. unfold slot_at. by rewrite H. Qed.

(** The slots of a published state are no newer than it. *)
Lemma published_slots tf st : published tf st -> slot_below tf 0 (ts_generation st + 1) /\ slot_below tf SLOT_SIZE (ts_generation st + 1).
Proof using Type.
  intros (_ & _ & _ & Hh & Ho & _). unfold slot_offset, other_offset in *. cbn [home hs_generation] in *.
  destruct (ts_generation st mod 2 =? 1); (split; intros s Hs; [|]); first [apply Ho in Hs; lia|rewrite Hh in Hs; injection Hs as <-; cbn; lia].
Qed.

(** [cut_back] to a chain of the file: what its two writes leave. *)
Lemma cut_back_writes tf st h0 h F F' :
  history tf st h0 -> chain tf (end_of h) h -> end_of h <= ts_frame_end st -> ts_generation st < u64_max ->
  set_len (end_of h) tf = (Ok tt, F) ->
  write_slot (mkHeaderSlot (add64 (ts_generation st) 1) (end_of h) (Z.min (ts_synced_frame_end st) (end_of h))) F = (Ok tt, F') ->
  history F' (state_at h (ts_generation st + 1) (Z.min (ts_synced_frame_end st) (end_of h))) h /\ tf_len F' = end_of h.
Proof using CL.
  intros [Hp _] Hc Hle Hgen E1 E2. pose proof Hp as (Hfe & Hld & Hu & _). pose proof (chain_bounds _ _ _ Hc) as [[Hb1 Hb2] _].
  pose proof (home_ok _ _ Hp) as (Hg & _ & _ & Hsb). cbn [home hs_generation hs_latest_frame_end hs_synced_frame_end] in Hg, Hsb. unfold u64_ok in Hg.
  destruct (published_slots _ _ Hp) as [B0 B1]. destruct (set_len_ok _ _ _ E1) as [D1 L1]; [unfold HEADER_REGION in *; lia|].
  apply write_slot_ok in E2 as [D2 L2]. rewrite add64_small in D2 by lia.
  assert (forall a b, 0 <= a -> b <= end_of h -> zslice (tf_data F) a b = zslice (tf_data tf) a b) as Hk by (apply ztake_kept; [unfold HEADER_REGION in *; lia|done]).
  assert (len (tf_data F) = end_of h) as LF by (rewrite D1, len_ztake; unfold HEADER_REGION in *; lia).
  assert (forall o, 0 <= o -> o + SLOT_SIZE <= 512 -> slot_at F o = slot_at tf o) as Hs by (intros; apply slot_kept; try done; intros; apply Hk; unfold HEADER_REGION in *; lia).
  split; [|by rewrite L2]. pose proof (publish_chain F F' h (ts_generation st + 1) (Z.min (ts_synced_frame_end st) (end_of h))) as Hpc. cbv zeta in Hpc.
  apply Hpc; try lia; [|unfold slot_below; rewrite Hs by (unfold SLOT_SIZE; lia); exact B0|unfold slot_below; rewrite Hs by (unfold SLOT_SIZE; lia); exact B1|done].
  eapply (chain_keep tf F (end_of h)); [done|lia|lia|lia|]. intros a b Ha Hb. apply Hk; unfold HEADER_REGION in *; lia.
Qed.

Lemma set_len_healthy n tf : IoBackend.d_faults (tf_disk tf) = [] -> exists F, set_len n tf = (Ok tt, F) /\ IoBackend.d_faults (tf_disk F) = [].
Proof using Type. intros Hf. unfold set_len, sbind, on_disk, IoBackend.sys_set_len, IoBackend.sys_simple. rewrite Hf. by eexists. Qed.

Lemma cut_back_history tf st h0 h :
  history tf st h0 -> chain tf (end_of h) h -> end_of h <= ts_frame_end st -> ts_generation st < u64_max -> IoBackend.d_faults (tf_disk tf) = [] ->
  let st' := state_at h (ts_generation st + 1) (Z.min (ts_synced_frame_end st) (end_of h)) in
  exists tf', cut_back st (end_of h) tf = (Ok st', tf') /\ history tf' st' h /\ IoBackend.d_faults (tf_disk tf') = [] /\
    tf_len tf' = end_of h /\ len (tf_data tf') = end_of h.
Proof using CL.
  intros Hh Hc Hle Hgen Hf st'. destruct (set_len_healthy (end_of h) tf Hf) as (F & E1 & Hf1). set (s := mkHeaderSlot (add64 (ts_generation st) 1) (end_of h) (Z.min (ts_synced_frame_end st) (end_of h))).
  destruct (write_at_healthy (slot_offset s) (slot_encode s) F Hf1) as (F' & E2 & Hf2). destruct (cut_back_writes tf st h0 h F F' Hh Hc Hle Hgen E1 E2) as [Hh' Hl'].
  exists F'. split; [|split; [done|split; [done|split; [done|]]]].
  - unfold cut_back. rewrite (sbind_Ok _ _ _ _ _ E1). fold s. unfold write_slot. rewrite (sbind_Ok _ _ _ _ _ E2). by rewrite (published_state _ _ (proj1 Hh')).
  - pose proof Hh as [(Hfe & Hld & _) _]. pose proof (chain_bounds _ _ _ Hc) as [[Hb1 _] _]. destruct (set_len_ok _ _ _ E1) as [D1 _]; [unfold HEADER_REGION in *; lia|].
    destruct (write_slot_ok _ _ _ E2) as [D2 _]. rewrite D2, len_overwrite, len_slot_encode, D1, len_ztake; unfold HEADER_REGION, SLOT_SIZE in *;
      destruct (slot_offset_range s) as (? & ? & _); unfold SLOT_SIZE in *; lia || (rewrite D1, len_ztake; lia).
Qed.

(** ** Sync *)

Lemma sync_history tf st h b tf' :
  history tf st h -> ts_generation st < u64_max -> sync tf = (Ok b, tf') ->
  b = true /\ exists g, ts_generation st <= g /\ history tf' (state_at h g (end_of h)) h.
Proof using CL.
  intros Hh Hgen E. pose proof (history_state _ _ _ Hh) as Est. pose proof Hh as [Hp Hc]. pose proof (chain_end _ _ _ Hc) as Ee.
  unfold sync in E. rewrite (published_state _ _ Hp) in E. destruct (Z.eqb_spec (ts_synced_frame_end st) (ts_frame_end st)) as [Hs|Hs].
  { injection E as <- <-. split; [done|]. exists (ts_generation st). split; [lia|]. by rewrite <- Ee, <- Hs, <- Est. }
  apply sbind_Ok_inv in E as (u1 & F & E1 & E). apply sbind_Ok_inv in E as (u2 & F' & E2 & [= <- <-]). destruct u1, u2. split; [done|].
  exists (ts_generation st + 1). split; [lia|]. apply write_slot_ok in E2 as [D2 L2].
  pose proof Hp as (Hfe & Hld & Hu & _). pose proof (home_ok _ _ Hp) as (Hg & _). cbn in Hg. unfold u64_ok in Hg. rewrite add64_small in D2 by lia.
  assert (tf_data F = tf_data tf /\ tf_len F = tf_len tf) as [D1 L1].
  { unfold sync_file, on_disk, IoBackend.sys_sync_data, IoBackend.sys_simple in E1. unfold tf_data.
    destruct (IoBackend.d_faults (tf_disk tf)) as [|[[k e]|] ev]; [..|done|]; injection E1 as <-; done. }
  destruct (published_slots _ _ Hp) as [B0 B1]. rewrite Ee in *. pose proof (publish_chain F F' h (ts_generation st + 1) (end_of h)) as Hpc. cbv zeta in Hpc.
  assert (tf_len F <= len (tf_data F)) by (rewrite D1; lia).
  apply Hpc; try done; try lia; [|unfold slot_below, slot_at; rewrite D1; exact B0|unfold slot_below, slot_at; rewrite D1; exact B1].
  eapply (chain_keep tf F (end_of h)); [done|lia|lia|rewrite D1; lia|]. intros a b Ha Hb. by rewrite D1.
Qed.

(** ** Recovery *)

Lemma chain_length tf e h : chain tf e h -> Z.of_nat (length h) < e.
Proof using CL.
  revert e; induction h as [|fr h IH]; intros e Hc; cbn [chain] in Hc; [subst e; cbn; unfold HEADER_REGION; lia|]. destruct Hc as (-> & Hw & Hi & _ & Hc).
  pose proof (IH _ Hc). pose proof (fr_end_bounds _ _ Hw Hi). unfold FRAME_HEADER_SIZE, TRAILER_SIZE in *. cbn [length]. lia.
Qed.

Lemma chain_app tf e h1 h2 : chain tf e (h1 ++ h2) -> chain tf (end_of h2) h2 /\ end_of h2 <= e.
Proof using CL.
  revert e; induction h1 as [|fr h1 IH]; intros e Hc; cbn [app chain] in Hc.
  - pose proof (chain_end _ _ _ Hc) as ->. split; [done|lia].
  - destruct Hc as (-> & Hw & Hi & _ & Hc). destruct (IH _ Hc). split; [done|]. pose proof (fr_end_bounds _ _ Hw Hi). unfold FRAME_HEADER_SIZE, TRAILER_SIZE in *. lia.
Qed.

Lemma valid_frames_chain tf h2 h1 : forall fuel n,
  chain tf (end_of (h1 ++ h2)) (h1 ++ h2) -> end_of (h1 ++ h2) <= tf_len tf -> tf_len tf <= len (tf_data tf) -> tf_len tf <= u64_max ->
  frame_valid tf (end_of (h1 ++ h2)) = Ok None -> (length h1 < fuel)%nat ->
  valid_frames fuel tf (end_of h2) n = Ok (end_of (h1 ++ h2), n + len h1).
Proof using CL.
  revert h2; induction h1 as [|fr h1 IH] using rev_ind; intros h2 fuel n Hc Hl Hld Hu Hstop Hf; (destruct fuel as [|fuel]; [lia|]).
  - cbn [app] in *. cbn [valid_frames]. rewrite Hstop. cbn [rbind]. unfold len. cbn. by rewrite Z.add_0_r.
  - rewrite <- app_assoc in *. cbn [app] in *. pose proof (chain_app _ _ h1 (fr :: h2) Hc) as [Hc2 Hle].
    destruct Hc2 as (_ & Hw & Hi & Hfol & Hc2). cbn [valid_frames]. pose proof (chain_end _ _ _ Hc2) as <-. cbn [end_of] in Hle.
    rewrite frame_valid_seen by (done || (by eapply follows_decodes) || lia). cbn [rbind].
    rewrite length_app in Hf. cbn in Hf. change (fr_end fr) with (end_of (fr :: h2)); rewrite (IH (fr :: h2) fuel (n + 1)) by (done || lia). rewrite len_app. unfold len. cbn. f_equal. f_equal. lia.
Qed.

(** What makes the bytes at [start] a whole frame: the header and the trailer belong
    together, the checksum covers everything before the trailer, and the payload decodes. *)
Definition whole_frame (tf : TreeFile) (start end_ : Z) : Prop := exists header trailer,
  frame_header_decode (zslice (tf_data tf) start (start + FRAME_HEADER_SIZE)) = Some header /\
  end_ = start + frame_len header /\ end_ <= tf_len tf /\
  trailer_decode (zslice (tf_data tf) (end_ - TRAILER_SIZE) end_) = Some trailer /\
  tr_frame_start trailer = start /\ tr_token trailer = fh_token header /\
  tr_body_crc trailer = crc32_hash (zslice (tf_data tf) start (end_ - TRAILER_SIZE)) /\
  let ops := zslice (tf_data tf) (end_ - TRAILER_SIZE - fh_ops_len header) (end_ - TRAILER_SIZE) in
  if fh_base header then exists undo, undo_decode ops = Ok undo else exists l, decode_ops ops = Ok l.

Lemma read_slice tf a n : 0 <= a -> 0 <= n -> a + n <= tf_len tf -> tf_len tf <= len (tf_data tf) -> tf_len tf <= u64_max -> read_exact tf a n = Ok (zslice (tf_data tf) a (a + n)).
Proof using Type. intros. apply read_exact_intro; [lia|lia|apply get_range_Some; lia]. Qed.

Lemma frame_len_bounds bs h : frame_header_decode bs = Some h -> 0 <= fh_ops_len h /\ FRAME_HEADER_SIZE + fh_ops_len h + TRAILER_SIZE <= frame_len h.
Proof using Type. intros H%frame_header_decode_ok. destruct H as (? & ? & _). unfold frame_len, PAGE_SIZE, u32_ok in *. lia. Qed.

Lemma token_eqb_true a b : token_eqb a b = true <-> a = b.
Proof using Type.
  split; [|intros ->; apply token_eqb_refl]. destruct a as [i o], b as [i' o']. unfold token_eqb, token_compare. cbn.
  destruct (Z.compare_spec i i'); [|done..]. destruct (Z.compare_spec o o'); [|done..]. by subst.
Qed.

(** The part of [whole_frame] after the header. *)
Definition payload_whole (tf : TreeFile) (start e : Z) (h : FrameHeader) : Prop := exists t,
  trailer_decode (zslice (tf_data tf) (e - TRAILER_SIZE) e) = Some t /\ tr_frame_start t = start /\ tr_token t = fh_token h /\
  tr_body_crc t = crc32_hash (zslice (tf_data tf) start (e - TRAILER_SIZE)) /\
  let ops := zslice (tf_data tf) (e - TRAILER_SIZE - fh_ops_len h) (e - TRAILER_SIZE) in
  if fh_base h then exists undo, undo_decode ops = Ok undo else exists l, decode_ops ops = Ok l.

Lemma frame_valid_payload tf start e h :
  0 <= start -> 0 <= fh_ops_len h -> start + FRAME_HEADER_SIZE + fh_ops_len h + TRAILER_SIZE <= e -> e <= tf_len tf -> tf_len tf <= len (tf_data tf) -> tf_len tf <= u64_max ->
  match
    (let trailer_at := sub64 e TRAILER_SIZE in
     let? bs := read_exact tf trailer_at TRAILER_SIZE in
     match trailer_decode bs with
     | None => Ok None
     | Some trailer =>
         if negb (tr_frame_start trailer =? start) || negb (token_eqb (tr_token trailer) (fh_token h)) then Ok None else
         let? hasher := hash_body (S (Z.to_nat ((trailer_at - start) / READ_CHUNK))) tf start trailer_at hasher_new in
         if negb (hasher_finalize hasher =? tr_body_crc trailer) then Ok None else
         let? ops := read_exact tf (sub64 trailer_at (fh_ops_len h)) (fh_ops_len h) in
         let decoded :=
           if fh_base h then match undo_decode ops with Ok _ => true | _ => false end
           else match decode_ops ops with Ok _ => true | _ => false end in
         Ok (if decoded then Some e else None)
     end)
  with
  | Ok (Some e') => e' = e /\ payload_whole tf start e h
  | Ok None => ~ payload_whole tf start e h
  | _ => False
  end.
Proof using CL.
  intros H0 Ho He Hel Hld Hu. unfold FRAME_HEADER_SIZE in He. unfold TRAILER_SIZE in He. rewrite sub64_small by (unfold TRAILER_SIZE; lia). cbv zeta. rewrite read_slice by (unfold TRAILER_SIZE; lia). cbn [rbind].
  replace (e - TRAILER_SIZE + TRAILER_SIZE) with e by lia. unfold payload_whole.
  destruct (trailer_decode _) as [t|]; [|by intros (t & [=] & _)].
  destruct (Z.eqb_spec (tr_frame_start t) start) as [Es|Es]; cbn [negb orb]; [|intros (t' & [= <-] & ? & _); done].
  destruct (token_eqb (tr_token t) (fh_token h)) eqn:Et; cbn [negb].
  2:{ intros (t' & [= <-] & _ & E & _). apply token_eqb_true in E. congruence. }
  apply token_eqb_true in Et.
  destruct (hash_body_spec tf (S (Z.to_nat ((e - TRAILER_SIZE - start) / READ_CHUNK))) start (e - TRAILER_SIZE) hasher_new [])
    as (hs & -> & Hh); [apply hashed_new|unfold TRAILER_SIZE; lia|unfold TRAILER_SIZE; lia|done|done| |].
  { unfold READ_CHUNK, TRAILER_SIZE. Z.to_euclidean_division_equations. lia. }
  cbn [rbind app] in *. rewrite (hashed_finalize _ _ Hh).
  destruct (Z.eqb_spec (crc32_hash (zslice (tf_data tf) start (e - TRAILER_SIZE))) (tr_body_crc t)) as [Ec|Ec]; cbn [negb].
  2:{ intros (t' & [= <-] & _ & _ & E & _). congruence. }
  rewrite sub64_small by (unfold TRAILER_SIZE; lia). rewrite read_slice by (unfold TRAILER_SIZE; lia). cbn [rbind].
  replace (e - TRAILER_SIZE - fh_ops_len h + fh_ops_len h) with (e - TRAILER_SIZE) by lia.
  destruct (fh_base h).
  - destruct (undo_decode _) as [u|?|]; [|intros (t' & _ & _ & _ & _ & u & E); discriminate E..].
    split; [done|]. exists t. split; [done|]. split; [done|]. split; [done|]. split; [done|by exists u].
  - destruct (decode_ops _) as [u|?|]; [|intros (t' & _ & _ & _ & _ & u & E); discriminate E..].
    split; [done|]. exists t. split; [done|]. split; [done|]. split; [done|]. split; [done|by exists u].
Qed.

Lemma frame_valid_whole tf start :
  0 <= start -> tf_len tf <= len (tf_data tf) -> start <= tf_len tf -> tf_len tf + FRAME_HEADER_SIZE <= u64_max ->
  match frame_valid tf start with
  | Ok (Some end_) => whole_frame tf start end_
  | Ok None => forall end_, ~ whole_frame tf start end_
  | _ => False
  end.
Proof using CL.
  intros H0 Hld Hs Hu. unfold frame_valid. rewrite add64_small by (unfold FRAME_HEADER_SIZE in *; lia).
  destruct (Z.ltb_spec (tf_len tf) (start + FRAME_HEADER_SIZE)) as [Hsh|Hsh].
  { intros e (h & t & Hd & -> & Hl & _). apply frame_len_bounds in Hd. unfold FRAME_HEADER_SIZE, TRAILER_SIZE in *. lia. }
  rewrite read_slice by (unfold FRAME_HEADER_SIZE in *; lia). cbn [rbind].
  destruct (frame_header_decode _) as [h|] eqn:Eh; [|intros e (h & t & Hd & _); by rewrite Eh in Hd]. cbv zeta.
  pose proof (frame_len_bounds _ _ Eh) as [Ho Hfl]. unfold saturating_add64.
  destruct (Z.ltb_spec (tf_len tf) (Z.min (start + frame_len h) u64_max)) as [Hlt|Hge].
  { intros e (h' & t & Hd & -> & Hl & _). rewrite Eh in Hd. injection Hd as <-. lia. }
  assert (Z.min (start + frame_len h) u64_max = start + frame_len h) as -> by (unfold FRAME_HEADER_SIZE in *; lia).
  assert (forall e, whole_frame tf start e -> e = start + frame_len h) as Hend by (intros e (h' & t & Hd & -> & _); rewrite Eh in Hd; by injection Hd as <-).
  unfold FRAME_HEADER_SIZE, TRAILER_SIZE in Hfl. set (e := start + frame_len h) in *.
  assert (start + FRAME_HEADER_SIZE + fh_ops_len h + TRAILER_SIZE <= e) as He by (unfold e, FRAME_HEADER_SIZE, TRAILER_SIZE; lia). assert (e <= tf_len tf) as Hel by (unfold FRAME_HEADER_SIZE in *; lia).
  assert (whole_frame tf start e <-> payload_whole tf start e h) as Hwh.
  { split; [intros (h' & t & Hd & _ & _ & H); rewrite Eh in Hd; injection Hd as <-; by exists t|intros (t & H); by exists h, t]. }
  clearbody e. unfold FRAME_HEADER_SIZE in Hu. pose proof (frame_valid_payload tf start e h H0 Ho He Hel Hld ltac:(lia)) as Hp.
  cbv zeta in Hp. match goal with |- match ?r with _ => _ end => destruct r as [[e'|]|x|] end; [|intros e' He'; pose proof (Hend _ He'); subst e'; tauto|done..].
  destruct Hp as [-> ?]. tauto.
Qed.
Definition newest_generation (tf : TreeFile) : Z :=
  match newest_slot (slot_at tf 0, slot_at tf SLOT_SIZE) with Some slot => hs_generation slot | None => 0 end.
Definition newest_synced (tf : TreeFile) : Z :=
  match newest_slot (slot_at tf 0, slot_at tf SLOT_SIZE) with Some slot => hs_synced_frame_end slot | None => HEADER_REGION end.

Lemma newest_above tf : slot_below tf 0 (newest_generation tf + 1) /\ slot_below tf SLOT_SIZE (newest_generation tf + 1).
Proof using Type.
  unfold slot_below, newest_generation, newest_slot. destruct (slot_at tf 0) as [a|], (slot_at tf SLOT_SIZE) as [b|]; split; intros s [= <-].
  all: try (destruct (Z.ltb_spec (hs_generation b) (hs_generation a))); lia.
Qed.

(** Recovery of a file whose leading frames, the synced ones among them, are whole. *)
Lemma recover_history tf h1 h2 :
  HEADER_REGION <= tf_len tf -> tf_len tf = len (tf_data tf) -> tf_len tf <= u64_max -> IoBackend.d_faults (tf_disk tf) = [] ->
  chain tf (end_of (h1 ++ h2)) (h1 ++ h2) -> end_of (h1 ++ h2) <= tf_len tf -> frame_valid tf (end_of (h1 ++ h2)) = Ok None ->
  newest_synced tf = end_of h2 -> newest_generation tf < u64_max -> 0 <= newest_generation tf ->
  exists st' tf', recover tf = (Ok (mkRecovery (len h1) (tf_len tf - end_of (h1 ++ h2)) st'), tf') /\ history tf' st' (h1 ++ h2) /\
    tf_len tf' = end_of (h1 ++ h2) /\ ts_synced_frame_end st' = end_of h2 /\ ts_generation st' = newest_generation tf + 1.
Proof using CL.
  intros H4 Hld Hu Hf Hc Hl Hstop Hsy Hgen Hg0. pose proof (chain_app _ _ _ _ Hc) as [Hc2 Hle]. pose proof (chain_bounds _ _ _ Hc2) as [[Hb2 _] _].
  pose proof (chain_length _ _ _ Hc) as Hlen. rewrite length_app in Hlen. destruct (newest_above tf) as [B0 B1].
  unfold recover. rewrite slots_at by lia. rewrite sbind_slift_Ok. cbv zeta.
  fold (newest_generation tf) (newest_synced tf). rewrite Hsy.
  assert ((if end_of h2 =? HEADER_REGION then Ok (end_of h2) else
           let? t := trailer_ending_at tf (end_of h2) in Ok (match t with Some _ => end_of h2 | None => HEADER_REGION end)) = Ok (end_of h2)) as ->.
  { destruct h2 as [|fr h2]; [done|]. cbn [end_of]. destruct (_ =? _); [done|]. destruct Hc2 as (_ & Hw & Hi & _). cbn [end_of] in Hle. by rewrite trailer_seen by (done || lia). }
  rewrite sbind_slift_Ok, (valid_frames_chain tf h2 h1) by (done || lia). rewrite sbind_slift_Ok. cbv beta iota. rewrite sub64_small by (unfold HEADER_REGION in *; lia).
  set (e := end_of (h1 ++ h2)) in *. cbn [Z.add].
  assert (exists F, (if 0 <? tf_len tf - e then set_len e else sret tt) tf = (Ok tt, F) /\ tf_data F = ztake e (tf_data tf) /\ tf_len F = e /\
            IoBackend.d_faults (tf_disk F) = []) as (F & E1 & D1 & L1 & Hf1).
  { destruct (Z.ltb_spec 0 (tf_len tf - e)) as [Hlt|Hge].
    - unfold set_len, sbind, on_disk, IoBackend.sys_set_len, IoBackend.sys_simple. rewrite Hf. eexists. split; [done|]. split; [|done].
      unfold tf_data at 1. cbn. replace (Z.to_nat (e - _)) with 0%nat by (unfold tf_data in *; lia). by rewrite app_nil_r.
    - exists tf. split; [done|]. rewrite ztake_ge by lia. split; [done|]. split; [lia|done]. }
  rewrite (sbind_Ok _ _ _ _ _ E1). unfold write_slot. rewrite add64_small by lia. set (s := mkHeaderSlot _ _ _).
  destruct (write_at_healthy (slot_offset s) (slot_encode s) F Hf1) as (F' & E2 & _). rewrite (sbind_Ok _ _ _ _ _ E2).
  apply write_slot_ok in E2 as [D2 L2]. unfold HEADER_REGION in *.
  assert (forall a b, 0 <= a -> b <= e -> zslice (tf_data F) a b = zslice (tf_data tf) a b) as Hk by (apply ztake_kept; [lia|done]).
  assert (len (tf_data F) = e) as LF by (rewrite D1, len_ztake; lia).
  assert (forall o, 0 <= o -> o + SLOT_SIZE <= 512 -> slot_at F o = slot_at tf o) as Hs by (intros; apply slot_kept; try done; intros; apply Hk; lia).
  pose proof (publish_chain F F' (h1 ++ h2) (newest_generation tf + 1) (end_of h2)) as Hpc. cbv zeta in Hpc. fold e s in Hpc.
  assert (history F' (state_at (h1 ++ h2) (newest_generation tf + 1) (end_of h2)) (h1 ++ h2)) as Hh.
  { apply Hpc; try done; unfold HEADER_REGION; try lia; [|unfold slot_below; rewrite Hs by (unfold SLOT_SIZE; lia); exact B0|unfold slot_below; rewrite Hs by (unfold SLOT_SIZE; lia); exact B1].
    eapply (chain_keep tf F e); [done|lia|lia|lia|]. intros a b Ha Hb. apply Hk; unfold HEADER_REGION in *; lia. }
  rewrite (published_state _ _ (proj1 Hh)). cbn [rbind]. eexists _, F'. split; [done|]. split; [done|]. split; [by rewrite L2|]. by destruct (h1 ++ h2).
Qed.

(** ** A commit adds a frame *)

Lemma change_op_ok z op z' : zset_ok z -> change z op z' -> op_ok op.
Proof using Type.
  intros Hz Hc. assert (forall m s, entry_ok (m, s) -> len m <= u32_max /\ f64_ok s) as He.
  { intros m s [[? _] Hl]. cbn in *. unfold MAX_MEMBER_LEN, u32_max in *. split; [lia|done]. }
  destruct Hc as [m s Hg Hm|m s old Hg _ Hm|m old Hg]; cbn [op_ok].
  - by destruct (He _ _ Hm).
  - destruct (He _ _ Hm), (He _ _ (aget_ok _ _ _ Hz Hg)). done.
  - by destruct (He _ _ (aget_ok _ _ _ Hz Hg)).
Qed.
Lemma logged_op_ok z ops z' : logged z ops z' -> zset_ok z -> Forall op_ok ops.
Proof using Type. induction 1 as [|z op z1 ops z' Hc Hok _ IH]; intros Hz; constructor; [by eapply change_op_ok|by apply IH]. Qed.

(** The frame that [commit] lays out. *)
Definition committed_frame (tx : Tx) (token : Token) (roots : Z * Z) (pages : list bytes) (z : zset) : Frame :=
  let body := commit_body tx token pages in
  mkFrame (ts_frame_end (tx_base tx)) (mkFrameHeader (len pages mod 2 ^ 32) (len (encode_ops (tx_log tx)) mod 2 ^ 32) token false)
    (mjoin pages) (encode_ops (tx_log tx)) (commit_trailer tx token roots body) z.

Definition small_frame (tx : Tx) : Prop :=
  len (encode_ops (tx_log tx)) <= u32_max /\ forall roots pages, write_trees tx = Ok (roots, pages) -> len pages <= u32_max.

Lemma commit_history tf st h fit tx z token st' tf' :
  history tf st h -> zset_on tf st fit tx z -> logged (set_of h) (tx_log tx) z -> tx_log tx <> [] -> token_ok token -> small_frame tx ->
  committed fit tx token (trees z) tf' st' -> ts_frame_end st <= ts_frame_end st' -> ts_generation st < u64_max ->
  exists fr, history tf' st' (fr :: h) /\ fr_set fr = z /\ fr_token fr = token /\ fh_base (fr_header fr) = false /\ decode_ops (fr_payload fr) = Ok (tx_log tx).
Proof using CL.
  intros Hh Hz Hlog Hne Htok [Hsm Hsp] (Hp' & Ht' & _ & _ & Hg' & _ & (roots & pages & Hw & Est & Hsz & R1 & R2 & Hk & Hb)) Hle Hgen.
  pose proof Hh as [Hp Hc]. pose proof Hz as ([_ (Htf & Hbase & _)] & Hcnt & Hzok). rewrite Htf, Hbase in *.
  pose proof (history_stored _ _ _ Hh) as (_ & _ & _ & Hzh). pose proof (logged_op_ok _ _ _ Hlog Hzh) as Hops.
  set (fr := committed_frame tx token roots pages z). assert (fr_image fr = commit_frame tx token roots pages) as Eimg.
  { unfold fr_image, fr_body, fr, committed_frame, commit_frame, commit_body. done. }
  pose proof (Hsp _ _ Hw) as Hpg. pose proof (len_nonneg pages) as Hn1. pose proof (len_nonneg (encode_ops (tx_log tx))) as Hn2. unfold u32_max in Hsm, Hpg.
  pose proof Hp as (Hfe & Hld & Hu & _). pose proof (home_ok _ _ Hp) as (Hg & _). cbn in Hg. unfold u64_ok in Hg. unfold HEADER_REGION in Hfe.
  pose proof Hp' as (Hfe' & Hld' & Hu' & _).
  assert (frame_wf fr) as Hwf.
  { split; unfold fr, committed_frame; cbn [fr_header fr_trailer fr_pages fr_payload fr_start fr_set fh_page_count fh_ops_len fh_token]; try done.
    - unfold frame_header_ok, u32_ok, u32_max. cbn [fh_page_count fh_ops_len fh_token]. rewrite !Z.mod_small by lia. split; [lia|]. split; [lia|done].
    - unfold trailer_ok, commit_trailer. cbn. rewrite Hbase, Hcnt. destruct Hzok as (_ & _ & ?). pose proof (len_nonneg z).
      split_and!; try done; unfold u64_ok, u64_max in *; try lia; try apply crc_u32. rewrite add64_small; unfold u64_max; lia.
    - rewrite Z.mod_small by lia. by apply len_pages.
    - rewrite Z.mod_small by lia. done. }
  assert (fr_end fr = ts_frame_end st') as Efe.
  { pose proof (f_equal len Hb) as El. rewrite <- Eimg in El. unfold zslice in El. rewrite len_ztake, len_zdrop in El by lia.
    pose proof (frame_sizes _ Hwf) as [Hs0 _]. unfold FRAME_HEADER_SIZE, TRAILER_SIZE in Hs0. unfold fr_end, fr. cbn [committed_frame fr_start]. rewrite Hbase. unfold fr in *. lia. }
  assert (chain tf' (fr_start fr) h) as Hch.
  { unfold fr. cbn [committed_frame fr_start]. rewrite Hbase. eapply (chain_keep tf tf' (ts_frame_end st)); [done|lia|lia|lia|exact Hk]. }
  exists fr. split; [|split; [done|split; [done|split; [done|by apply decode_ops_iff]]]]. split; [done|]. cbn [chain]. split; [done|]. split; [done|]. split; [|split; [|done]].
  - split; [unfold fr; cbn; rewrite Hbase; unfold HEADER_REGION; lia|rewrite Efe; lia|rewrite Efe; lia| |].
    + rewrite Efe, Eimg. unfold fr. cbn [committed_frame fr_start]. by rewrite Hbase.
    + intros t. rewrite Efe. specialize (Ht' t). rewrite Est in Ht' at 2. destruct t; cbn [state_root commit_state ts_score_root ts_member_root] in Ht'; by eapply tree_under_loose.
  - unfold follows. cbn. exists (tx_log tx). split; [by apply decode_ops_iff|done].
Qed.

End Frames.
