(* ===== verification/ZsetBulk.v ===== *)
(** * Building packed trees ([zset_tree/maintain.rs], [Bulk] and [write_base])

    A compaction reads the keys of a tree in order and writes them into new pages, filled
    to 7/8, bottom-up.  Each level keeps the node it is filling and the full one before it,
    so that the last two can be balanced when the tree ends.  [Bulk] is the builder's
    state; its methods are functions on it. *)

From Stdlib Require Import ZArith Lia.
From stdpp Require Import gmap.
From S2P Require Import Prelude Bytes Crc IoBackend F64 ZsetFormat Assoc ZsetNode ZsetStore ZsetTree ZsetCommit ZsetOps ZsetMaintain.

Record Open : Type := mkOpen { op_first : Key; op_node : Node }.
Record Level : Type := mkLevel { lv_held : option Open; lv_pending : option Open }.
Definition level_default : Level := mkLevel None None.

Definition FILL : Z := PAGE_SIZE * 7 / 8.

(** The index where the bytes before it first reach half, at least [min]. *)
Fixpoint split_point_loop (fuel : nat) (sizes : list Z) (half : Z) (at_ : nat) (acc : Z) : nat :=
  match fuel with
  | O => at_
  | S fuel =>
      match sizes !! at_ with
      | Some size =>
          if (at_ <? length sizes - 1)%nat && (acc + size <=? half) then split_point_loop fuel sizes half (S at_) (acc + size) else at_
      | None => at_
      end
  end.
Definition split_point (sizes : list Z) (min : nat) : nat :=
  split_point_loop (length sizes) sizes (zsum sizes / 2) min (zsum (take min sizes)).

(** The two parts of nodes that do not fit one page. *)
Definition split_leaf_open (first : Key) (leaf : Leaf) : result (list Open) :=
  let at_ := split_point (entry_size <$> zip (lf_keys leaf) (lf_values leaf)) 1 in
  let right := mkLeaf (drop at_ (lf_keys leaf)) (drop at_ (lf_values leaf)) in
  let? right_first := unwrap (lf_keys right !! 0%nat) in
  Ok [mkOpen first (NLeaf (mkLeaf (take at_ (lf_keys leaf)) (take at_ (lf_values leaf)))); mkOpen right_first (NLeaf right)].

Definition split_branch_open (first : Key) (branch : Branch) : result (list Open) :=
  let sizes := sep_size <$> br_keys branch in
  let mid := Nat.min (split_point sizes 1) (length sizes - 2) in
  let? right_first := unwrap (br_keys branch !! mid) in
  Ok [mkOpen first (NBranch (mkBranch (take mid (br_keys branch)) (take (mid + 1) (br_children branch)) (take (mid + 1) (br_counts branch))));
      mkOpen right_first (NBranch (mkBranch (drop (mid + 1) (br_keys branch)) (drop (mid + 1) (br_children branch)) (drop (mid + 1) (br_counts branch))))].

Definition merge_open (held pending : Open) : result Node :=
  match op_node held, op_node pending with
  | NLeaf into, NLeaf from => Ok (NLeaf (mkLeaf (lf_keys into ++ lf_keys from) (lf_values into ++ lf_values from)))
  | NBranch into, NBranch from =>
      Ok (NBranch (mkBranch (br_keys into ++ op_first pending :: br_keys from) (br_children into ++ br_children from) (br_counts into ++ br_counts from)))
  | _, _ => Err "zset tree: bulk nodes at different depths"
  end.

Definition balance_last (held pending : option Open) : result (list Open) :=
  match held, pending with
  | None, None => Ok []
  | Some only, None | None, Some only => Ok [only]
  | Some held, Some pending =>
      let first := op_first held in
      let? merged := merge_open held pending in
      if encoded_len merged <=? PAGE_SIZE then Ok [mkOpen first merged] else
      match merged with
      | NLeaf leaf => split_leaf_open first leaf
      | NBranch branch => split_branch_open first branch
      end
  end.

Section WithCrc.
Context {C : Crc32fast}.

Record Bulk : Type := mkBulk {
  bk_file : TreeFile;
  bk_next : Z;
  bk_page_count : Z;
  bk_crc : Hasher;
  bk_levels : list Level;
  bk_roots : list Z;
}.

Definition bulk_new (file : TreeFile) (first_page : Z) : Bulk := mkBulk file first_page 0 hasher_new [] [].

Definition set_levels (levels : list Level) : SR Bulk unit := fun b =>
  (Ok tt, mkBulk (bk_file b) (bk_next b) (bk_page_count b) (bk_crc b) levels (bk_roots b)).

(** A page appended to the target; [page_count] is a [u32]. *)
Definition bulk_write_page (page : bytes) : SR Bulk Z := fun b =>
  let offset := bk_next b in
  match write_at offset page (bk_file b) with
  | (Ok _, file) =>
      (Ok offset, mkBulk file (add64 (bk_next b) PAGE_SIZE) ((bk_page_count b + 1) mod 2 ^ 32) (hasher_update (bk_crc b) page) (bk_levels b) (bk_roots b))
  | (Err e, file) => (Err e, mkBulk file (bk_next b) (bk_page_count b) (bk_crc b) (bk_levels b) (bk_roots b))
  | (Panic, file) => (Panic, mkBulk file (bk_next b) (bk_page_count b) (bk_crc b) (bk_levels b) (bk_roots b))
  end.

Fixpoint bulk_write_pages (pages : list bytes) : SR Bulk unit :=
  match pages with [] => sret tt | page :: pages => let! _ := bulk_write_page page in bulk_write_pages pages end.

(** Fresh overflow pages for the long keys of a node. *)
Fixpoint bulk_write_keys (keys : list Key) : SR Bulk (list Key) :=
  match keys with
  | [] => sret []
  | key :: keys => fun b =>
      if is_long (k_bytes key) then
        let head := bk_next b in
        (let! _ := bulk_write_pages (encode_overflow (k_bytes key) head) in
         let! keys := bulk_write_keys keys in
         sret (mkKey (k_bytes key) (Some head) :: keys)) b
      else (let! keys := bulk_write_keys keys in sret (mkKey (k_bytes key) None :: keys)) b
  end.

Definition bulk_child_offset (child : Child) : result Z :=
  match child with Disk offset => Ok offset | Dirty _ => Err "zset tree: bulk node with an unwritten child" end.

Definition bulk_write_node (node : Node) : SR Bulk (Z * Z) :=
  let! keys := bulk_write_keys (node_keys node) in
  let node := set_keys node keys in
  let count := node_count node in
  let! page := slift (encode_node node bulk_child_offset) in
  let! offset := bulk_write_page page in
  sret (offset, count).

(** [self.level(index)]: the levels grow to hold it. *)
Definition bulk_level (index : nat) : SR Bulk Level := fun b =>
  let levels := bk_levels b ++ replicate (S index - length (bk_levels b)) level_default in
  (let! _ := set_levels levels in slift (unwrap (levels !! index))) b.
Definition put_level (index : nat) (level : Level) : SR Bulk unit := fun b => set_levels (<[index := level]> (bk_levels b)) b.

(** [push_child] and [rotate] call each other one level up; a level that holds nothing
    ends it, so one more than the number of levels is fuel enough. *)
Fixpoint push_child (fuel : nat) (index : nat) (first : Key) (offset count : Z) : SR Bulk unit :=
  match fuel with
  | O => slift Panic
  | S fuel =>
      let rotate (fresh : Open) : SR Bulk unit :=
        let! level := bulk_level index in
        let! _ := put_level index (match lv_pending level with
                                   | Some full => mkLevel (Some full) (Some fresh)
                                   | None => mkLevel (lv_held level) (Some fresh)
                                   end) in
        match lv_pending level, lv_held level with
        | Some _, Some open =>
            let! r := bulk_write_node (op_node open) in
            push_child fuel (S index) (op_first open) r.1 r.2
        | _, _ => sret tt
        end in
      let grows := key_encoded_len first + 16 in
      let! level := bulk_level index in
      let fresh := mkOpen first (NBranch (mkBranch [] [Disk offset] [count])) in
      match lv_pending level with
      | Some open =>
          match op_node open with
          | NLeaf _ => slift Panic
          | NBranch branch =>
              if branch_encoded_len branch + grows <=? FILL then
                put_level index (mkLevel (lv_held level)
                  (Some (mkOpen (op_first open) (NBranch (mkBranch (br_keys branch ++ [first]) (br_children branch ++ [Disk offset]) (br_counts branch ++ [count]))))))
              else rotate fresh
          end
      | None => rotate fresh
      end
  end.

Definition rotate_fuel (b : Bulk) : nat := S (S (length (bk_levels b))).

(** [rotate] of the lowest level. *)
Definition rotate_leaf (fresh : Open) : SR Bulk unit :=
  let! level := bulk_level 0 in
  let! _ := put_level 0 (match lv_pending level with
                         | Some full => mkLevel (Some full) (Some fresh)
                         | None => mkLevel (lv_held level) (Some fresh)
                         end) in
  match lv_pending level, lv_held level with
  | Some _, Some open =>
      let! r := bulk_write_node (op_node open) in
      fun b => push_child (rotate_fuel b) 1 (op_first open) r.1 r.2 b
  | _, _ => sret tt
  end.

Definition push_entry (key : Key) (value : bytes) : SR Bulk unit :=
  let grows := key_encoded_len key + 2 + len value in
  let! level := bulk_level 0 in
  let fresh := mkOpen key (NLeaf (mkLeaf [key] [value])) in
  match lv_pending level with
  | Some open =>
      match op_node open with
      | NBranch _ => slift Panic
      | NLeaf leaf =>
          if leaf_encoded_len leaf + grows <=? FILL then
            put_level 0 (mkLevel (lv_held level) (Some (mkOpen (op_first open) (NLeaf (mkLeaf (lf_keys leaf ++ [key]) (lf_values leaf ++ [value]))))))
          else rotate_leaf fresh
      end
  | None => rotate_leaf fresh
  end.

(** The nodes a finished level passes up. *)
Fixpoint pass_up (index : nat) (nodes : list Open) : SR Bulk unit :=
  match nodes with
  | [] => sret tt
  | open :: nodes =>
      let! r := bulk_write_node (op_node open) in
      let! _ := (fun b => push_child (rotate_fuel b) (S index) (op_first open) r.1 r.2 b) in
      pass_up index nodes
  end.

Definition level_empty (level : Level) : bool :=
  match level with mkLevel None None => true | _ => false end.

(** The loop of [finish_tree]; [DEPTH] levels hold more keys than a [u64] counts. *)
Fixpoint finish_loop (fuel : nat) (index : nat) : SR Bulk Z := fun b =>
  if (length (bk_levels b) <=? index)%nat then (Ok 0, b) else
  match fuel with
  | O => (Panic, b)
  | S fuel =>
      (let! level := slift (unwrap (bk_levels b !! index)) in
       let! _ := put_level index level_default in
       let! nodes := slift (balance_last (lv_held level) (lv_pending level)) in
       fun b =>
         let top := forallb level_empty (drop (S index) (bk_levels b)) in
         match nodes with
         | [open] =>
             if top then
               match op_node open with
               | NBranch branch =>
                   if (length (br_children branch) =? 1)%nat then
                     match br_children branch !! 0%nat with
                     | Some (Disk offset) => (Ok offset, b)
                     | _ => (Panic, b)
                     end
                   else (let! r := bulk_write_node (NBranch branch) in sret r.1) b
               | node => (let! r := bulk_write_node node in sret r.1) b
               end
             else (let! _ := pass_up index nodes in finish_loop fuel (S index)) b
         | _ => (let! _ := pass_up index nodes in finish_loop fuel (S index)) b
         end) b
  end.

Definition finish_tree : SR Bulk unit := fun b =>
  (let! root := finish_loop DEPTH 0 in
   fun b => (Ok tt, mkBulk (bk_file b) (bk_next b) (bk_page_count b) (bk_crc b) [] (bk_roots b ++ [root]))) b.

(** [visit]: every key and value of a tree, in order. *)
Fixpoint visit (fuel : nat) (file : TreeFile) (root : Z) : SR Bulk unit :=
  if root =? 0 then sret tt else
  match fuel with
  | O => slift Panic
  | S fuel =>
      let! node := slift (let? page := read_page file root in decode_node (read_overflow file) page) in
      match node with
      | NLeaf leaf => sfor (fun kv => push_entry (key_new (k_bytes kv.1)) kv.2) (zip (lf_keys leaf) (lf_values leaf))
      | NBranch branch =>
          sfor (fun child => match child with
                             | Disk offset => visit fuel file offset
                             | Dirty _ => serr "zset tree: unwritten child on disk"
                             end) (br_children branch)
      end
  end.

(** [write_base]: both trees of [base], packed into the empty [target]. *)
Definition bulk_trees (source : TreeFile) (base : Trailer) : SR Bulk unit :=
  let! _ := visit DEPTH source (tr_score_root base) in
  let! _ := finish_tree in
  let! _ := visit DEPTH source (tr_member_root base) in
  finish_tree.

Definition base_trailer (base : Trailer) (roots : Z * Z) (body_crc : Z) : Trailer :=
  mkTrailer roots.1 roots.2 (tr_count base) HEADER_REGION 2 (tr_token base) body_crc.

Definition write_base (source : TreeFile) (base : Trailer) (undo : UndoLog) : SR TreeFile TreeState := fun target =>
  match bulk_trees source base (bulk_new target (HEADER_REGION + FRAME_HEADER_SIZE)) with
  | (Ok _, b) =>
      (let! roots := slift (let? r0 := unwrap (bk_roots b !! 0%nat) in let? r1 := unwrap (bk_roots b !! 1%nat) in Ok (r0, r1)) in
       let pages_end := bk_next b in
       let undo := undo_encode undo in
       let header := frame_header_encode (mkFrameHeader (bk_page_count b) (len undo mod 2 ^ 32) (tr_token base) true) in
       let! _ := write_at HEADER_REGION header in
       let! _ := write_at pages_end undo in
       let body := hasher_update (hasher_combine (hasher_update hasher_new header) (bk_crc b)) undo in
       let trailer := base_trailer base roots (hasher_finalize body) in
       let trailer_at := add64 pages_end (len undo) in
       let! _ := write_at trailer_at (trailer_encode trailer) in
       let frame_end := add64 trailer_at TRAILER_SIZE in
       let! _ := note_appended frame_end in
       let! _ := write_slot (mkHeaderSlot 2 frame_end HEADER_REGION) in
       fun tf => (state tf, tf)) (bk_file b)
  | (Err e, b) => (Err e, bk_file b)
  | (Panic, b) => (Panic, bk_file b)
  end.

End WithCrc.
