(* ===== verification/ZsetBulkProof.v ===== *)
(** * Packed trees hold the keys they were built from

    The theorems about [ZsetBulk].  The builder's invariant says that the levels, from the
    highest to the lowest, hold the entries pushed so far in order, that every child named
    by an open node is a tree in the pages written so far, and that the pages are in the
    file.  At the end the root is a tree of all entries, whose nodes fit their pages.

    The builder fails only when the disk does, or when the last two leaves cannot be split
    into two pages; entries of at most 512 bytes always can. *)

From Stdlib Require Import ZArith Lia.
From stdpp Require Import gmap.
From S2P Require Import Prelude Bytes Crc IoBackend F64 ZsetFormat Assoc ZsetNode ZsetStore ZsetTree ZsetTreeProof ZsetTreeInsert ZsetTreeRemove ZsetCommit ZsetArena ZsetCommitProof ZsetTx ZsetOps ZsetOpsProof ZsetMaintain ZsetFrames ZsetBulk.

(** ** Trees under other bounds *)

Definition first_key (es : entries) : bytes := match es with e :: _ => e.1 | [] => [] end.

Lemma within_lt lo hi es : within lo hi es -> es <> [] -> bound_lt lo hi.
Proof.
  destruct es as [|e es]; [done|]. intros [[Ha Hu] _]%Forall_cons _. destruct lo as [l|], hi as [h|]; cbn in *; try done. by eapply bytes_le_lt_trans.
Qed.

Section Rebound.
Context (P : Child -> bound -> bound -> list nat -> entries -> Prop).
Hypothesis Pin : forall c lo hi fp es, P c lo hi fp es -> within lo hi es /\ es <> [].
Hypothesis Pre : forall c lo hi lo' hi' fp es, P c lo hi fp es -> within lo' hi' es -> P c lo' hi' fp es.

Lemma forest_rebound ss : forall lo lo' mid hi hi', forest P ss (lo :: (Some <$> mid) ++ [hi]) -> ss <> [] -> within lo' hi' (forest_es ss) ->
  forest P ss (lo' :: (Some <$> mid) ++ [hi']).
Proof using All.
  induction ss as [|s ss IH]; intros lo lo' mid hi hi' Hf Hne Hw; [done|]. rewrite forest_es_cons in Hw. apply within_app in Hw as [Hw1 Hw2].
  apply forest_cons_inv in Hf as (b & b' & bs & [= <- E] & Hs & Hc & Hb & Hf). destruct (Pin _ _ _ _ _ Hs) as [Hin Hes].
  destruct mid as [|x mid]; cbn [fmap list_fmap app] in E |- *; injection E as <- <-.
  - destruct ss; [|by apply forest_cons_inv in Hf as (? & ? & ? & ? & _)]. constructor; [by eapply Pre|done|exact (within_lt _ _ _ Hw1 Hes)|constructor].
  - assert (within lo' (Some x) (s_es s)) as Hw1'.
    { eapply Forall_impl; [exact (proj2 (Forall_and _ _) (conj Hin Hw1))|]. cbn. tauto. }
    constructor; [by eapply Pre|done|exact (within_lt _ _ _ Hw1' Hes)|]. destruct ss as [|s' ss].
    + apply forest_nil_inv in Hf as [? E']. by destruct mid.
    + eapply IH; [exact Hf|done|].
      pose proof (forest_within P (fun c lo hi fp es H => proj1 (Pin c lo hi fp es H)) _ _ _ _ Hf (inner_seps mid)) as Hw3.
      eapply Forall_impl; [exact (proj2 (Forall_and _ _) (conj Hw3 Hw2))|]. cbn. tauto.
Qed.

(** Trees in order, under the first key of each. *)
Lemma forest_of_kids ss : forall lo hi,
  Forall (fun s => P (s_child s) None None (s_fp s) (s_es s) /\ s_count s = len (s_es s)) ss -> ss <> [] -> asorted (forest_es ss) -> within lo hi (forest_es ss) ->
  forest P ss (bounds lo ((fun s => first_key (s_es s)) <$> tail ss) hi).
Proof using All.
  induction ss as [|s ss IH]; intros lo hi Hk Hne Hso Hw; [done|]. apply Forall_cons in Hk as [[Hs Hc] Hk]. destruct (Pin _ _ _ _ _ Hs) as [_ Hes].
  rewrite forest_es_cons in Hso, Hw. apply within_app in Hw as [Hw1 Hw2]. apply asorted_app in Hso as (Hs1 & Hs2 & Hlt).
  destruct ss as [|s' ss]; cbn [tail fmap list_fmap]; unfold bounds; cbn [fmap list_fmap app].
  { constructor; [by eapply Pre|done|exact (within_lt _ _ _ Hw1 Hes)|constructor]. }
  apply Forall_cons in Hk as Hk'. destruct Hk' as [[Hs' _] _]. destruct (Pin _ _ _ _ _ Hs') as [_ Hes'].
  destruct (s_es s') as [|e' es'] eqn:Es'; [done|]. rewrite forest_es_cons, Es' in Hlt, Hs2, Hw2. cbn [app] in Hlt, Hs2, Hw2.
  apply Forall_cons in Hlt as [Hlt _]. apply asorted_cons in Hs2 as Hs2'. destruct Hs2' as [Hgt _].
  assert (within lo (Some e'.1) (s_es s)) as Hw1' by (eapply Forall_impl; [exact (proj2 (Forall_and _ _) (conj Hw1 Hlt))|]; cbn; tauto).
  cbn [first_key]. constructor; [by eapply Pre|done|exact (within_lt _ _ _ Hw1' Hes)|].
  specialize (IH (Some e'.1) hi Hk). cbn [tail] in IH. rewrite forest_es_cons, Es' in IH. cbn [app] in IH. apply IH; [done|done|].
  apply Forall_cons in Hw2 as [[_ Hu'] Hw2]. constructor; [split; [apply bytes_le_refl|done]|].
  eapply Forall_impl; [exact (proj2 (Forall_and _ _) (conj Hgt Hw2))|]. cbn. intros e [? [_ ?]]. split; [by apply bytes_lt_le|done].
Qed.
End Rebound.

Lemma tree_at_rebound {C : Crc32fast} md tx d c lo hi lo' hi' fp es : tree_at md tx d c lo hi fp es -> within lo' hi' es -> tree_at md tx d c lo' hi' fp es.
Proof.
  revert c lo hi lo' hi' fp es; induction d as [|d IH]; intros c lo hi lo' hi' fp es (n & Hn & Hf & H) Hw; exists n;
    (split; [done|]); (split; [done|]); destruct n as [l|b]; try done.
  - destruct H as (? & ? & ? & ? & ? & _ & ?). done.
  - destruct H as (ss & Hfo & ? & ? & H2 & ? & ->). exists ss. split; [|done]. eapply (forest_rebound (tree_at md tx d)); [|exact IH|exact Hfo|by destruct ss; cbn in H2; [lia|]|done].
    intros c' lo1 hi1 fp' es' Ht. split; [by eapply tree_at_within|]. apply tree_at_size in Ht. destruct es'; [|done]. cbn in Ht. pose proof (Nat.pow_nonzero 2 d). lia.
Qed.

Section Bulk.
Context {C : Crc32fast} {CL : Crc32fastLaws C}.

(** ** Steps of the builder *)

Definition bk_data (b : Bulk) : bytes := tf_data (bk_file b).

(** The file stays within the offsets a [u64] has. *)
Definition small (b : Bulk) : Prop := len (bk_data b) + PAGE_SIZE <= u64_max.
Definition faultless (b : Bulk) : Prop := IoBackend.d_faults (tf_disk (bk_file b)) = [].

(** A step never shrinks the file, and a disk without faults stays so. *)
Definition mono {A : Type} (m : SR Bulk A) : Prop := forall b, 0 <= bk_next b ->
  0 <= bk_next (m b).2 /\ len (bk_data b) <= len (bk_data (m b).2) /\ (faultless b -> faultless (m b).2).

Lemma mono_ret {A : Type} (a : A) : mono (sret a).
Proof using Type. by intros b. Qed.
Lemma mono_lift {A : Type} (r : result A) : mono (slift r).
Proof using Type. by intros b. Qed.
Lemma mono_bind {A B : Type} (m : SR Bulk A) (k : A -> SR Bulk B) : mono m -> (forall a, mono (k a)) -> mono (sbind m k).
Proof using Type.
  intros Hm Hk b Hb. unfold sbind. destruct (Hm b Hb) as (H1 & H2 & H3). destruct (m b) as [[a|e|] b']; cbn [snd] in *; [|done..].
  destruct (Hk a b' H1) as (? & ? & ?). split; [done|]. split; [lia|auto].
Qed.

(** The step succeeds with [Q], or fails as the code may; [tidy] tells that all entries are
    small enough for the last two leaves. *)
Definition does {A : Type} (tidy : Prop) (m : SR Bulk A) (b : Bulk) (Q : A -> Bulk -> Prop) : Prop :=
  match m b with
  | (Ok a, b') => small b' -> Q a b'
  | (Err _, b') => small b' -> faultless b -> tidy -> False
  | (Panic, b') => small b' -> False
  end.

Lemma does_ret {A : Type} tidy (a : A) b (Q : A -> Bulk -> Prop) : Q a b -> does tidy (sret a) b Q.
Proof using Type. intros H _. exact H. Qed.

Lemma does_bind {A B : Type} tidy (m : SR Bulk A) (k : A -> SR Bulk B) b (Q : A -> Bulk -> Prop) (R : B -> Bulk -> Prop) :
  0 <= bk_next b -> mono m -> (forall a, mono (k a)) -> does tidy m b Q -> (forall a b', Q a b' -> does tidy (k a) b' R) -> does tidy (sbind m k) b R.
Proof using Type.
  intros Hb Hm Hk Hd Hkd. unfold does, sbind in *. destruct (Hm b Hb) as (H1 & H2 & H3). destruct (m b) as [[a|e|] b']; cbn [snd] in *; [|done..].
  destruct (Hk a b' H1) as (H4 & H5 & H6). specialize (Hkd a b'). unfold does in Hkd. destruct (k a b') as [[a'|e|] b'']; cbn [snd] in *; unfold small in *.
  - intros Hs. apply Hkd; [|done]. apply Hd. lia.
  - intros Hs Hf Ht. apply Hkd; auto; try lia. apply Hd. lia.
  - intros Hs. apply Hkd; auto; try lia. apply Hd. lia.
Qed.

Lemma does_lift {A : Type} tidy (r : result A) b (Q : A -> Bulk -> Prop) : (exists a, r = Ok a /\ Q a b) -> does tidy (slift r) b Q.
Proof using Type. intros (a & -> & H) _. exact H. Qed.

Lemma does_mono {A : Type} tidy (m : SR Bulk A) b (Q R : A -> Bulk -> Prop) : does tidy m b Q -> (forall a b', Q a b' -> R a b') -> does tidy m b R.
Proof using Type. unfold does. destruct (m b) as [[a|e|] b']; [|done..]. auto. Qed.

(** ** Pages *)

(** The first page, and what the target holds before it. *)
Context (pb : Z) (hd : bytes).
Hypothesis Hpb : HEADER_REGION <= pb.
Hypothesis Hpb64 : pb + PAGE_SIZE <= u64_max.
Hypothesis Hhd : len hd = HEADER_REGION.

Record file_ok (ps : list bytes) (b : Bulk) : Prop := {
  fo_sizes : Forall (fun p => len p = PAGE_SIZE) ps;
  fo_next : bk_next b = pb + len ps * PAGE_SIZE;
  fo_pages : zslice (bk_data b) pb (bk_next b) = mjoin ps;
  fo_len : if decide (ps = []) then len (bk_data b) <= pb else len (bk_data b) = bk_next b;
  fo_head : zslice (bk_data b) 0 HEADER_REGION = hd /\ HEADER_REGION <= len (bk_data b);
  fo_crc : hashed (bk_crc b) (mjoin ps);
  fo_count : bk_page_count b = len ps mod 2 ^ 32;
  fo_tlen : tf_len (bk_file b) = HEADER_REGION;
}.

(** The rest of the builder's state. *)
Definition same_rest (b b' : Bulk) : Prop := bk_levels b' = bk_levels b /\ bk_roots b' = bk_roots b.

Lemma next_nonneg ps b : file_ok ps b -> 0 <= bk_next b.
Proof using Hpb. intros H. rewrite (fo_next _ _ H). pose proof (len_nonneg ps). unfold HEADER_REGION, PAGE_SIZE in *. lia. Qed.

Lemma mono_page page : mono (bulk_write_page page).
Proof using Type.
  intros b Hb. unfold bulk_write_page. cbv zeta. unfold faultless, bk_data.
  assert (forall bs, len (tf_data (bk_file b)) <= len (overwrite (tf_data (bk_file b)) (bk_next b) bs)) as Hg by (intros bs; rewrite len_overwrite_past by done; lia).
  assert (0 <= add64 (bk_next b) PAGE_SIZE) by (unfold add64, wrap64; apply Z.mod_pos_bound; lia).
  unfold write_at, on_disk, sys_write_at, tf_data in *. destruct (IoBackend.d_faults (tf_disk (bk_file b))) as [|[[k e]|] ev]; cbn [snd bk_next bk_file tf_disk IoBackend.with_data IoBackend.d_data IoBackend.d_faults]; (split; [done|]); split; try done; apply Hg.
Qed.

Lemma write_page_ok tidy ps b page :
  file_ok ps b -> len page = PAGE_SIZE ->
  does tidy (bulk_write_page page) b (fun off b' => off = bk_next b /\ file_ok (ps ++ [page]) b' /\ same_rest b b').
Proof using All.
  intros H Hl. pose proof (next_nonneg _ _ H) as Hn. destruct H as [Hs Hnx Hpg Hlen Hh Hc Hcnt Htl]. unfold does, bulk_write_page. cbv zeta.
  destruct (write_at_cases (bk_next b) page (bk_file b)) as [(tf' & -> & D & L)|(tf' & e & k & Ew & D & L)].
  - intros Hsm. split; [done|]. split; [|done]. unfold small, bk_data in Hsm. cbn [bk_file] in Hsm.
    assert (len (tf_data tf') = bk_next b + PAGE_SIZE) as Hd.
    { rewrite D, len_overwrite_past by done. unfold bk_data in Hlen. pose proof (len_nonneg ps). unfold PAGE_SIZE in *. destruct (decide (ps = [])); lia. }
    assert (bk_next b <= len (bk_data b) \/ ps = []) as Hle by (destruct (decide (ps = [])); [by right|left; lia]).
    constructor; unfold bk_data; cbn [bk_next bk_file bk_crc bk_page_count].
    + apply Forall_app. split; [done|by apply Forall_singleton].
    + rewrite len_app, len_cons, len_nil, Hnx. rewrite add64_small by (unfold PAGE_SIZE in *; lia). lia.
    + rewrite add64_small by (unfold PAGE_SIZE in *; lia). rewrite <- (zslice_join _ pb (bk_next b)) by (rewrite ?Hnx; pose proof (len_nonneg ps); unfold HEADER_REGION, PAGE_SIZE in *; lia).
      rewrite D, join_app. f_equal; [|rewrite <- Hl, overwrite_at_past by done; cbn; by rewrite app_nil_r].
      destruct Hle as [Hle| ->]; [rewrite overwrite_before_past by (done || unfold HEADER_REGION in *; lia); exact Hpg|].
      rewrite Hnx. unfold len. cbn. unfold zslice. by rewrite ztake_0 by lia.
    + destruct (decide (ps ++ [page] = [])) as [E|_]; [by destruct ps|]. rewrite Hd, add64_small by (unfold PAGE_SIZE in *; lia). done.
    + destruct Hh as [Hh1 Hh2]. pose proof (len_nonneg ps). rewrite D, overwrite_before_past by (unfold bk_data, HEADER_REGION, PAGE_SIZE in *; lia). split; [done|]. rewrite <- D, Hd. unfold HEADER_REGION, PAGE_SIZE in *. lia.
    + rewrite join_app. cbn. rewrite app_nil_r. by apply hashed_update.
    + rewrite Hcnt, len_app, len_cons, len_nil. by rewrite Zplus_mod_idemp_l.
    + by rewrite L.
  - rewrite Ew. intros _ Hf _. unfold write_at, on_disk, sys_write_at in Ew. unfold faultless in Hf. by rewrite Hf in Ew.
Qed.

(** A file with the pages. *)
Definition pages_at (F : TreeFile) (ps : list bytes) : Prop := tf_len F <= u64_max /\ holds_at F pb (mjoin ps).

Lemma pages_at_app F ps more : pages_at F (ps ++ more) -> pages_at F ps.
Proof using Type. intros [? H]. rewrite join_app in H. by apply holds_at_app in H as [? _]. Qed.

(** The pages that follow [ps], in a file that has them. *)
Lemma pages_after F ps more : Forall (fun p => len p = PAGE_SIZE) ps -> more <> [] -> Forall (fun p => len p = PAGE_SIZE) more -> pages_at F (ps ++ more) ->
  holds_at F (pb + len ps * PAGE_SIZE) (mjoin more) /\ u64_ok (pb + len ps * PAGE_SIZE) /\ HEADER_REGION <= pb + len ps * PAGE_SIZE.
Proof using Hpb.
  intros Hp Hne Hm [Hu H]. rewrite join_app in H. apply holds_at_app in H as [_ H]. rewrite len_pages in H by done. split; [done|].
  destruct H as (Ha & Hb & _). pose proof (len_nonneg (mjoin more)). pose proof (len_nonneg ps). unfold u64_ok, HEADER_REGION, PAGE_SIZE in *. split; lia.
Qed.

Lemma mono_pages pages : mono (bulk_write_pages pages).
Proof using Type. induction pages as [|p pages IH]; [apply mono_ret|]. apply mono_bind; [apply mono_page|done]. Qed.

Lemma mono_keys keys : mono (bulk_write_keys keys).
Proof using Type.
  induction keys as [|k keys IH]; [apply mono_ret|]. intros b. cbn [bulk_write_keys]. destruct (is_long (k_bytes k)).
  - refine (mono_bind _ _ (mono_pages _) _ b). intros _. apply mono_bind; [done|]. intros ?. apply mono_ret.
  - refine (mono_bind _ _ IH _ b). intros ?. apply mono_ret.
Qed.

Lemma mono_node n : mono (bulk_write_node n).
Proof using Type.
  unfold bulk_write_node. apply mono_bind; [apply mono_keys|]. intros ks. cbv zeta. apply mono_bind; [apply mono_lift|]. intros page.
  apply mono_bind; [apply mono_page|]. intros off. apply mono_ret.
Qed.

Lemma write_pages_ok tidy pages : forall ps b, file_ok ps b -> Forall (fun p => len p = PAGE_SIZE) pages ->
  does tidy (bulk_write_pages pages) b (fun _ b' => file_ok (ps ++ pages) b' /\ same_rest b b').
Proof using All.
  induction pages as [|p pages IH]; intros ps b H Hl; cbn [bulk_write_pages]; [apply does_ret; by rewrite app_nil_r|].
  apply Forall_cons in Hl as [Hl Hls]. eapply does_bind; [by eapply next_nonneg|apply mono_page|intros _; apply mono_pages|by apply write_page_ok|].
  intros off b1 (_ & H1 & [R1 R2]). eapply does_mono; [by apply (IH (ps ++ [p]))|]. intros _ b2 [H2 [R3 R4]]. rewrite <- app_assoc in H2.
  split; [done|]. split; congruence.
Qed.

Lemma overflow_pages bs head : bs <> [] -> Forall (fun p => len p = PAGE_SIZE) (encode_overflow bs head) /\ encode_overflow bs head <> [].
Proof using Type.
  intros Hne. unfold encode_overflow. cbv zeta. split; [apply encode_chunks_sizes|]. destruct bs as [|x bs]; [done|]. cbn [length chunks encode_chunks]. congruence.
Qed.

Definition keys_written (ps : list bytes) (keys ks : list Key) : Prop :=
  k_bytes <$> ks = k_bytes <$> keys /\ Forall writable ks /\ forall F, pages_at F ps -> Forall (key_ok (read_overflow F)) ks.

Lemma write_keys_ok tidy keys : forall ps b, file_ok ps b -> Forall (fun k => len (k_bytes k) <= u32_max) keys ->
  does tidy (bulk_write_keys keys) b (fun ks b' => exists more, file_ok (ps ++ more) b' /\ same_rest b b' /\ keys_written (ps ++ more) keys ks).
Proof using All.
  induction keys as [|k keys IH]; intros ps b H Hl.
  { apply does_ret. exists []. rewrite app_nil_r. split; [done|]. split; [done|]. split; [done|]. by split; [constructor|intros; constructor]. }
  apply Forall_cons in Hl as [Hl Hls]. unfold does. cbn [bulk_write_keys]. destruct (is_long (k_bytes k)) eqn:El.
  - assert (k_bytes k <> []) as Hne.
    { destruct (is_long_spec (k_bytes k)) as [Hlg|]; [|done]. intros E. rewrite E, len_nil in Hlg. unfold INLINE_KEY_MAX in Hlg. lia. }
    destruct (overflow_pages (k_bytes k) (bk_next b) Hne) as [Hsz Hno]. set (pages := encode_overflow (k_bytes k) (bk_next b)) in *.
    refine (does_bind tidy (bulk_write_pages pages) (fun _ => let! ks := bulk_write_keys keys in sret (mkKey (k_bytes k) (Some (bk_next b)) :: ks)) b _ _ _ (mono_pages _) _ (write_pages_ok tidy pages ps b H Hsz) _); [by eapply next_nonneg| |].
    { intros _. apply mono_bind; [apply mono_keys|intros; apply mono_ret]. }
    intros _ b1 [H1 [R1 R2]]. eapply does_bind; [by eapply next_nonneg|apply mono_keys|intros; apply mono_ret|by apply (IH (ps ++ pages))|].
    intros ks b2 (more & H2 & [R3 R4] & (Eb & Hw & Hk)). apply does_ret. exists (pages ++ more). rewrite app_assoc. split; [done|]. split; [split; congruence|].
    split; [cbn; by f_equal|]. split; [constructor; [by intros _; eexists|done]|]. intros F HF. constructor; [|by apply Hk].
    intros _. split; [done|]. exists (bk_next b). split; [done|]. apply pages_at_app in HF. rewrite (fo_next _ _ H).
    destruct (pages_after F ps pages (fo_sizes _ _ H) Hno Hsz HF) as (Hh & Hu & Hr). split; [done|]. destruct HF as [HF _].
    apply read_overflow_chain; [done|done|done|]. by rewrite <- (fo_next _ _ H) in Hh |- *.
  - refine (does_bind tidy (bulk_write_keys keys) (fun ks => sret (mkKey (k_bytes k) None :: ks)) b _ _ _ (mono_keys _) _ (IH ps b H Hls) _); [by eapply next_nonneg|intros; apply mono_ret|].
    intros ks b2 (more & H2 & R & (Eb & Hw & Hk)). apply does_ret. exists more. split; [done|]. split; [done|]. split; [cbn; by f_equal|].
    split; [constructor; [intros Hlg; cbn in Hlg; congruence|done]|]. intros F HF. constructor; [|by apply Hk]. intros Hlg; cbn in Hlg; congruence.
Qed.

(** ** Nodes *)

Context (t : Tree) (tidy : Prop).

(** What the builder may assume of its entries. *)
Definition entry_fine (e : bytes * bytes) : Prop :=
  len e.1 <= u32_max /\ len e.2 = 8 /\ (tidy -> entry_size (key_new e.1, e.2) <= 512).
Definition good (es : entries) : Prop := asorted es /\ Forall entry_fine es /\ len es < 9223372036854775808.

Lemma good_app a b : good (a ++ b) -> good a /\ good b.
Proof using Type.
  intros (Hs & Hf & Hl). apply asorted_app in Hs as (? & ? & _). apply Forall_app in Hf as [? ?]. rewrite len_app in Hl.
  pose proof (len_nonneg a). pose proof (len_nonneg b). split; (split; [done|]); (split; [done|lia]).
Qed.

(** A tree of depth [d] in the pages. *)
Record kid (ps : list bytes) (d : nat) (s : slot) : Prop := {
  kd_child : exists off, s_child s = Disk off;
  kd_fp : s_fp s = [];
  kd_count : s_count s = len (s_es s);
  kd_size : (2 ^ d <= length (s_es s))%nat;
  kd_tree : forall F, pages_at F ps -> tree_at (mkMode true t) (reader F) d (s_child s) None None [] (s_es s);
}.

Lemma kid_more ps more d s : kid ps d s -> kid (ps ++ more) d s.
Proof using Type. intros [? ? ? ? Ht]. constructor; try done. intros F HF. apply Ht. by eapply pages_at_app. Qed.

Lemma kid_es ps d s : kid ps d s -> s_es s <> [].
Proof using Type. intros [_ _ _ H _] E. rewrite E in H. cbn in H. pose proof (Nat.pow_nonzero 2 d). lia. Qed.

Definition node_ok (ps : list bytes) (d : nat) (n : Node) (es : entries) : Prop :=
  match d, n with
  | O, NLeaf l => leaf_wf l /\ leaf_es l = es /\ es <> []
  | S d, NBranch b => exists ss, Forall (kid ps d) ss /\ ss <> [] /\ br_children b = s_child <$> ss /\ br_counts b = s_count <$> ss /\
      k_bytes <$> br_keys b = (fun s => first_key (s_es s)) <$> tail ss /\ forest_es ss = es
  | _, _ => False
  end.

(** Branches with one child are never written. *)
Definition wide (n : Node) : Prop := match n with NBranch b => br_keys b <> [] | NLeaf _ => True end.

Lemma node_more ps more d n es : node_ok ps d n es -> node_ok (ps ++ more) d n es.
Proof using Type.
  destruct d, n; cbn; try done. intros (ss & Hk & H). exists ss. split; [|done]. eapply Forall_impl; [exact Hk|]. intros s. apply kid_more.
Qed.

Lemma forest_es_elem ss s e : s ∈ ss -> e ∈ s_es s -> e ∈ forest_es ss.
Proof using Type. intros Hs He. unfold forest_es. apply list_elem_of_join. exists (s_es s). split; [done|]. apply list_elem_of_fmap. by exists s. Qed.

(** The keys of a node are keys of its entries. *)
Lemma node_keys_in ps d n es k : node_ok ps d n es -> k ∈ node_keys n -> exists v, (k_bytes k, v) ∈ es.
Proof using Type.
  destruct d, n as [l|b]; cbn; try done.
  - intros (Hw & <- & _) Hk. apply list_elem_of_lookup in Hk as [i Hi]. unfold leaf_wf in Hw.
    destruct (lookup_lt_is_Some_2 (lf_values l) i) as [v Hv]; [apply lookup_lt_Some in Hi; lia|]. exists v. apply list_elem_of_lookup. exists i.
    unfold leaf_es. apply lookup_zip_with_Some. exists (k_bytes k), v. split; [done|]. split; [|done]. by rewrite list_lookup_fmap, Hi.
  - intros (ss & Hk & Hne & _ & _ & Eb & <-) Hin. assert (k_bytes k ∈ k_bytes <$> br_keys b) as Hkb by (apply list_elem_of_fmap; by exists k).
    rewrite Eb in Hkb. apply list_elem_of_fmap in Hkb as (s & E & Hs). assert (s ∈ ss) as Hs' by (destruct ss; [done|by right]).
    pose proof (kid_es _ _ _ (proj1 (Forall_forall _ _) Hk s Hs')) as Hes. destruct (s_es s) as [|[k0 v] es] eqn:Ee; [done|]. exists v.
    eapply forest_es_elem; [exact Hs'|]. rewrite Ee. cbn in E. rewrite E. left.
Qed.

Lemma node_keys_short ps d n es : node_ok ps d n es -> Forall entry_fine es -> Forall (fun k => len (k_bytes k) <= u32_max) (node_keys n).
Proof using Type.
  intros Hn Hf. apply Forall_forall. intros k Hk. destruct (node_keys_in _ _ _ _ _ Hn Hk) as [v Hv]. by apply (proj1 (Forall_forall _ _) Hf) in Hv as [? _].
Qed.

Lemma zsum_kids ps d ss : Forall (kid ps d) ss -> zsum (s_count <$> ss) = len (forest_es ss) /\ Forall (Z.le 0) (s_count <$> ss).
Proof using Type.
  induction 1 as [|s ss Hs _ [IH1 IH2]]; [by split; [|constructor]|]. cbn [fmap list_fmap]. rewrite zsum_cons, forest_es_cons, len_app, IH1, (kd_count _ _ _ Hs).
  split; [done|]. constructor; [apply len_nonneg|done].
Qed.

Lemma node_count_es ps d n es : node_ok ps d n es -> len es <= u64_max -> node_count n = len es.
Proof using Type.
  destruct d, n as [l|b]; cbn; try done.
  - intros (Hw & <- & _) _. unfold leaf_es, leaf_wf in *. unfold len. rewrite length_zip_with, length_fmap. lia.
  - intros (ss & Hk & _ & _ & Ec & _ & <-) Hl. destruct (zsum_kids _ _ _ Hk) as [E H0]. unfold total. rewrite Ec, sum64_small; [done|done|lia].
Qed.

(** The offsets of the children. *)
Lemma kids_placed ps d ss : Forall (kid ps d) ss -> exists offs, length ss = length offs /\ s_child <$> ss = Disk <$> offs /\
  zip_with placed_slot ss offs = ss /\ places bulk_child_offset (s_child <$> ss) offs.
Proof using Type.
  induction 1 as [|s ss Hs _ (offs & IH1 & IH2 & IH3 & IH4)]; [by exists []; repeat split; constructor|].
  destruct Hs as [[off Ec] Ef _ _ _]. exists (off :: offs). split; [cbn; by f_equal|]. split; [cbn; by f_equal|]. split.
  - cbn [zip_with]. f_equal; [|done]. destruct s; unfold placed_slot; cbn in *. by subst.
  - cbn. constructor; [by rewrite Ec|done].
Qed.

Lemma kid_offsets F ps d ss offs : Forall (kid ps d) ss -> pages_at F ps -> s_child <$> ss = Disk <$> offs -> Forall u64_ok offs.
Proof using Type.
  intros Hk HF. revert offs; induction Hk as [|s ss Hs _ IH]; intros [|o offs] E; try done. cbn in E. injection E as Eo E. constructor; [|by apply IH].
  pose proof (kd_tree _ _ _ Hs F HF) as Ht. rewrite Eo in Ht. by eapply tree_offset_u64.
Qed.

Lemma node_ok_shape ps d n es : node_ok ps d n es -> wide n -> node_shape n.
Proof using Type.
  destruct d, n as [l|b]; cbn; try done; [by intros [? _]|]. intros (ss & _ & Hne & Ec & En & Eb & _) Hw. rewrite Ec, En, !length_fmap.
  assert (length (br_keys b) = length (tail ss)) as El by (rewrite <- (length_fmap k_bytes), Eb; by rewrite length_fmap). destruct ss as [|s ss]; [done|]. cbn in *.
  destruct (br_keys b); [done|]. cbn in *. lia.
Qed.

Definition node_places (n : Node) (offs : list Z) : Prop := if n is NBranch b then places bulk_child_offset (br_children b) offs else True.

Lemma node_ok_places ps d n es : node_ok ps d n es -> exists offs, node_places n offs.
Proof using Type.
  destruct d, n as [l|b]; cbn; try done; [by exists []|]. intros (ss & Hk & _ & Ec & _). destruct (kids_placed _ _ _ Hk) as (offs & _ & _ & _ & H). exists offs. by rewrite Ec.
Qed.

(** The tree of a node that was written. *)
Lemma node_tree F ps d n es ks offs off :
  node_ok ps d n es -> wide n -> good es -> encoded_len n <= PAGE_SIZE -> pages_at F ps -> node_places n offs -> k_bytes <$> ks = k_bytes <$> node_keys n ->
  node (reader F) (Disk off) = Ok (placed (set_keys n ks) offs) -> tree_at (mkMode true t) (reader F) d (Disk off) None None [] es.
Proof using Type.
  intros Hn Hw (Hso & Hfi & _) Hfit HF Hpl Hks Hnode. assert (within None None es) as Hwi by (by apply Forall_forall).
  destruct d as [|d], n as [l|b]; cbn in Hn; try done.
  - destruct Hn as (Hwf & <- & Hne). eapply (leaf_tree_placed (mkMode true t) F off l ks); try done.
    unfold leaf_vals. apply Forall_forall. intros v Hv. apply list_elem_of_lookup in Hv as [i Hi]. unfold leaf_wf in Hwf.
    destruct (lookup_lt_is_Some_2 (lf_keys l) i) as [k Hk]; [apply lookup_lt_Some in Hi; lia|].
    assert ((k_bytes k, v) ∈ leaf_es l) as He.
    { apply list_elem_of_lookup. exists i. unfold leaf_es. apply lookup_zip_with_Some. exists (k_bytes k), v. rewrite list_lookup_fmap, Hk. done. }
    apply (proj1 (Forall_forall _ _) Hfi) in He as (_ & ? & _). done.
  - destruct Hn as (ss & Hk & Hne & Ec & En & Eb & <-). destruct (kids_placed _ _ _ Hk) as (offs' & Hl & Eo & Ez & Hp').
    assert (offs = offs') as ->.
    { cbn in Hpl. rewrite Ec in Hpl. revert Hpl Hp'. unfold places. clear. revert offs offs'. induction (s_child <$> ss) as [|c cs IH]; intros ?? H1 H2; inversion H1; inversion H2; subst; [done|].
      f_equal; [congruence|by eapply IH]. }
    assert (length (br_keys b) = length (tail ss)) as El by (rewrite <- (length_fmap k_bytes), Eb; by rewrite length_fmap).
    assert (br_keys b <> []) as Hw' by exact Hw.
    eapply (branch_tree_placed (mkMode true t) F d off b ss offs' ks); try done.
    + destruct ss as [|s [|s' ss]]; [done| |cbn; lia]. cbn in El. by destruct (br_keys b).
    + destruct ss; [done|]. cbn in *. lia.
    + rewrite Ez, Eb. apply forest_of_kids; [|intros; by eapply tree_at_rebound| |done|done|done].
      * intros c lo hi fp es Ht. split; [by eapply tree_at_within|]. apply tree_at_size in Ht. destruct es; [|done]. cbn in Ht. pose proof (Nat.pow_nonzero 2 d). lia.
      * eapply Forall_impl; [exact Hk|]. intros s Hs. rewrite (kd_fp _ _ _ Hs). split; [by apply (kd_tree _ _ _ Hs)|apply (kd_count _ _ _ Hs)].
Qed.

Lemma node_size ps d n es : node_ok ps d n es -> wide n -> (2 ^ d <= length es)%nat.
Proof using Type.
  destruct d as [|d], n as [l|b]; cbn [node_ok]; try done; [intros (_ & _ & Hne) _; destruct es; [done|cbn; lia]|]. intros (ss & Hk & Hne & _ & _ & Eb & <-) Hw.
  cbn [wide] in Hw. destruct ss as [|s [|s' ss]]; [done|by destruct (br_keys b)|]. apply Forall_cons in Hk as [H1 [H2 _]%Forall_cons].
  rewrite !forest_es_cons, !length_app. pose proof (kd_size _ _ _ H1). pose proof (kd_size _ _ _ H2). cbn [Nat.pow]. lia.
Qed.

(** Writing a node gives a tree of its depth. *)
Lemma write_node_ok ps d n es b :
  file_ok ps b -> node_ok ps d n es -> wide n -> good es -> (tidy -> encoded_len n <= PAGE_SIZE) ->
  does tidy (bulk_write_node n) b (fun r b' => exists more, file_ok (ps ++ more) b' /\ same_rest b b' /\ r.2 = len es /\
    kid (ps ++ more) d (mkSlot (Disk r.1) (len es) [] es)).
Proof using All.
  intros H Hn Hw Hg Hfit. pose proof Hg as (_ & Hfi & Hl). unfold bulk_write_node.
  eapply does_bind; [by eapply next_nonneg|apply mono_keys| |apply (write_keys_ok tidy (node_keys n) ps b H); by eapply node_keys_short|].
  { intros ks. cbv zeta. apply mono_bind; [apply mono_lift|]. intros page. apply mono_bind; [apply mono_page|]. intros off. apply mono_ret. }
  intros ks b1 (more & H1 & [R1 R2] & (Eb & Hwr & Hk)). cbv zeta. pose proof (node_ok_shape _ _ _ _ Hn Hw) as Hsh.
  destruct (set_keys_len n ks Eb Hsh) as (Elen & Hsh' & Ekeys). destruct (node_ok_places _ _ _ _ Hn) as [offs Hpl].
  assert (node_places (set_keys n ks) offs) as Hpl' by (by destruct n).
  assert (node_count (set_keys n ks) = len es) as Ecnt.
  { rewrite <- (node_count_es _ _ _ _ Hn) by (unfold u64_max; lia). destruct n as [l|br]; cbn; [|done]. cbn in Ekeys, Eb. unfold len. rewrite <- (length_fmap k_bytes ks), Eb. by rewrite length_fmap. }
  destruct (Z.ltb_spec PAGE_SIZE (encoded_len (set_keys n ks))) as [Hbig|Hsmall].
  { unfold does, sbind, slift, encode_node. rewrite (proj2 (Z.ltb_lt _ _) Hbig). intros _ _ Ht. specialize (Hfit Ht). lia. }
  pose proof (proj2 (encode_node_iff (set_keys n ks) bulk_child_offset offs _ Hsh' Hpl') (conj Hsmall (conj (eq_ind_r (Forall writable) Hwr Ekeys) eq_refl))) as Henc.
  unfold does. rewrite Henc, sbind_slift_Ok. set (page := seal _) in *. assert (len page = PAGE_SIZE) as Hpage by apply len_seal. clearbody page.
  refine (does_bind tidy (bulk_write_page page) (fun off => sret (off, node_count (set_keys n ks))) b1 _ _ _ (mono_page page) (fun _ => mono_ret _) (write_page_ok tidy _ b1 page H1 Hpage) _); [by eapply next_nonneg|].
  intros off b2 (-> & H2 & [R3 R4]). apply does_ret. exists (more ++ [page]). rewrite app_assoc. split; [done|]. split; [split; congruence|]. split; [done|].
  constructor; cbn [s_child s_fp s_count s_es fst]; [by eexists|done|done|by eapply node_size|].
  intros F HF. pose proof (pages_at_app _ _ _ HF) as HF1. rewrite (fo_next _ _ H1).
  destruct (pages_after F (ps ++ more) [page] (fo_sizes _ _ H1)) as (Hh & Hu & Hr); [done|by apply Forall_singleton|done|].
  assert (mjoin [page] = page) as Ej by (cbn; by rewrite app_nil_r). rewrite Ej in Hh.
  apply (node_tree F (ps ++ more) d n es ks offs); [by apply node_more|done|done|by rewrite <- Elen|done|done|done|].
  cbn [node]. destruct (Z.eqb_spec (pb + len (ps ++ more) * PAGE_SIZE) 0) as [E0|_]; [unfold HEADER_REGION in Hr; lia|]. unfold load. cbn [reader begin tx_file].
  rewrite (read_page_holds _ _ _ Hh Hpage Hr) by (by destruct HF). cbn [rbind].
  eapply (decode_encode_node _ (set_keys n ks) bulk_child_offset); [done|done|rewrite Ekeys; by apply Hk|].
  destruct d as [|d], n as [l|br]; cbn in Hn; try done. cbn. destruct Hn as (ss & Hkd & _ & Ec & En & _ & Ees). split; [done|]. split.
  - eapply (kid_offsets F (ps ++ more) d ss); [|done|].
    + eapply Forall_impl; [exact Hkd|]. intros s. apply kid_more.
    + cbn in Hpl. rewrite Ec in Hpl. clear -Hpl. revert offs Hpl. induction (s_child <$> ss) as [|c cs IH]; intros offs Hpl; inversion Hpl as [|? o ? os Hc Hcs]; subst; [done|]. cbn. f_equal; [|by apply IH]. destruct c; cbn in Hc; congruence.
  - rewrite En. destruct (zsum_kids _ _ _ Hkd) as [Ez Hz]. clear -Hkd Ees Hl. rewrite <- Ees in Hl. clear Ees es. induction Hkd as [|s ss Hs _ IH]; cbn [fmap list_fmap]; constructor.
    + rewrite (kd_count _ _ _ Hs). rewrite forest_es_cons, len_app in Hl. pose proof (len_nonneg (forest_es ss)). pose proof (len_nonneg (s_es s)). unfold u64_ok, u64_max. lia.
    + apply IH. rewrite forest_es_cons, len_app in Hl. pose proof (len_nonneg (s_es s)). lia.
Qed.

(** ** Levels *)

Definition open_ok (ps : list bytes) (d : nat) (o : Open) (es : entries) : Prop :=
  node_ok ps d (op_node o) es /\ k_bytes (op_first o) = first_key es /\ encoded_len (op_node o) <= FILL.

Definition level_ok (ps : list bytes) (d : nat) (lv : Level) (es : entries) : Prop :=
  match lv_held lv, lv_pending lv with
  | None, None => es = []
  | None, Some p => open_ok ps d p es
  | Some h, Some p => exists e1 e2, es = e1 ++ e2 /\ open_ok ps d h e1 /\ wide (op_node h) /\ open_ok ps d p e2
  | Some _, None => False
  end.

(** The levels from depth [d] up: higher ones hold earlier entries, which they were passed
    when a held node was replaced. *)
Fixpoint levels_ok (ps : list bytes) (d : nat) (ls : list Level) (es : entries) : Prop :=
  match ls with
  | [] => es = []
  | lv :: ls => exists e1 e2, es = e1 ++ e2 /\ levels_ok ps (S d) ls e1 /\ level_ok ps d lv e2 /\ (e1 <> [] -> is_Some (lv_held lv))
  end.

Lemma open_more ps more d o es : open_ok ps d o es -> open_ok (ps ++ more) d o es.
Proof using Type. intros (? & ? & ?). split; [by apply node_more|done]. Qed.
Lemma level_more ps more d lv es : level_ok ps d lv es -> level_ok (ps ++ more) d lv es.
Proof using Type.
  unfold level_ok. destruct (lv_held lv), (lv_pending lv); try done; [|apply open_more].
  intros (e1 & e2 & ? & ? & ? & ?). exists e1, e2. split; [done|]. split; [by apply open_more|]. split; [done|by apply open_more].
Qed.
Lemma levels_more ps more ls : forall d es, levels_ok ps d ls es -> levels_ok (ps ++ more) d ls es.
Proof using Type.
  induction ls as [|lv ls IH]; intros d es; [done|]. intros (e1 & e2 & ? & ? & ? & ?). exists e1, e2. split; [done|]. split; [by apply IH|]. split; [by apply level_more|done].
Qed.

Definition with_levels (ls : list Level) (b : Bulk) : Bulk := mkBulk (bk_file b) (bk_next b) (bk_page_count b) (bk_crc b) ls (bk_roots b).

Lemma file_with_levels ps ls b : file_ok ps b -> file_ok ps (with_levels ls b).
Proof using Type. by intros [? ? ? ? ? ? ? ?]. Qed.

(** The levels around [index], which exists or is next. *)
Lemma level_view index ls : (index <= length ls)%nat -> exists lv rest,
  ls ++ replicate (S index - length ls) level_default = take index ls ++ lv :: rest /\
  forall ps d es, levels_ok ps d (drop index ls) es -> levels_ok ps d (lv :: rest) es.
Proof using Type.
  intros Hi. destruct (decide (index = length ls)) as [->|Hne].
  - exists level_default, []. rewrite take_ge, drop_ge by lia. replace (S (length ls) - length ls)%nat with 1%nat by lia. split; [done|].
    intros ps d es Hes. cbn in Hes. exists [], []. by rewrite Hes.
  - destruct (drop index ls) as [|lv rest] eqn:E.
    { apply (f_equal length) in E. rewrite length_drop in E. cbn in E. lia. }
    exists lv, rest. replace (S index - length ls)%nat with 0%nat by lia. cbn [replicate]. rewrite app_nil_r, <- E, take_drop. done.
Qed.

Lemma bulk_level_eq index b lv rest : bk_levels b ++ replicate (S index - length (bk_levels b)) level_default = take index (bk_levels b) ++ lv :: rest -> (index <= length (bk_levels b))%nat ->
  bulk_level index b = (Ok lv, with_levels (take index (bk_levels b) ++ lv :: rest) b).
Proof using Type.
  intros E Hi. unfold bulk_level. cbv zeta. rewrite E. unfold sbind, set_levels, slift. rewrite lookup_app_r by (rewrite length_take; lia).
  rewrite length_take. replace (index - Init.Nat.min index (length (bk_levels b)))%nat with 0%nat by lia. done.
Qed.

Lemma bulk_level_at index b pre lv rest : bk_levels b = pre ++ lv :: rest -> length pre = index -> bulk_level index b = (Ok lv, b).
Proof using Type.
  intros E Hi. pose proof (bulk_level_eq index b lv rest) as H. rewrite E in H. rewrite length_app in H. cbn [length] in H.
  rewrite take_app_length' in H by done. replace (S index - (length pre + S (length rest)))%nat with 0%nat in H by lia. cbn [replicate] in H. rewrite app_nil_r in H.
  rewrite H by (done || lia). unfold with_levels. rewrite <- E. by destruct b.
Qed.

Lemma put_level_at index b pre lv rest x : bk_levels b = pre ++ lv :: rest -> length pre = index -> put_level index x b = (Ok tt, with_levels (pre ++ x :: rest) b).
Proof using Type. intros E <-. unfold put_level, set_levels, with_levels. rewrite E. by rewrite insert_app_r_alt, Nat.sub_diag by lia. Qed.

Lemma does_step {A B : Type} (m : SR Bulk A) (k : A -> SR Bulk B) b a b1 Q : m b = (Ok a, b1) -> (faultless b -> faultless b1) -> does tidy (k a) b1 Q -> does tidy (sbind m k) b Q.
Proof using Type. intros E Hf. unfold does, sbind. rewrite E. destruct (k a b1) as [[?|?|] ?]; auto. Qed.

Lemma mono_bulk_level index : mono (bulk_level index).
Proof using Type.
  intros b Hb. unfold bulk_level. cbv zeta. unfold sbind, set_levels, slift. destruct (unwrap _); cbn; (split; [done|]); split; done.
Qed.
Lemma mono_put_level index x : mono (put_level index x).
Proof using Type. intros b Hb. cbn. split; [done|]. by split. Qed.

(** [es] is held from level [i] up, the levels below are untouched. *)
Definition holding (ps : list bytes) (i : nat) (es : entries) (b b' : Bulk) : Prop := exists more,
  file_ok (ps ++ more) b' /\ bk_roots b' = bk_roots b /\ take i (bk_levels b') = take i (bk_levels b) /\ (i < length (bk_levels b') <= 64)%nat /\
  levels_ok (ps ++ more) i (drop i (bk_levels b')) es.

Definition branch_of (first : Key) (offset count : Z) : Open := mkOpen first (NBranch (mkBranch [] [Disk offset] [count])).

Lemma branch_of_ok ps d first off es : k_bytes first = first_key es -> kid ps d (mkSlot (Disk off) (len es) [] es) -> open_ok ps (S d) (branch_of first off (len es)) es.
Proof using Type.
  intros Ef Hk. split; [|split; [done|cbn; unfold FILL, PAGE_SIZE; vm_compute; discriminate]]. cbn. exists [mkSlot (Disk off) (len es) [] es].
  split; [by apply Forall_singleton|]. split; [done|]. split; [done|]. split; [done|]. split; [done|]. unfold forest_es. cbn. apply app_nil_r.
Qed.

(** A child appended to an open branch. *)
Lemma branch_grows ps d o branch first off e1 es :
  op_node o = NBranch branch -> open_ok ps (S d) o e1 -> k_bytes first = first_key es -> kid ps d (mkSlot (Disk off) (len es) [] es) ->
  branch_encoded_len branch + (key_encoded_len first + 16) <= FILL ->
  open_ok ps (S d) (mkOpen (op_first o) (NBranch (mkBranch (br_keys branch ++ [first]) (br_children branch ++ [Disk off]) (br_counts branch ++ [len es])))) (e1 ++ es).
Proof using Type.
  intros En (Hn & Ho & _) Ef Hk Hl. rewrite En in Hn. destruct Hn as (ss & Hss & Hne & Ec & Ecn & Eb & Ees).
  split; [|split; [|]].
  - cbn. exists (ss ++ [mkSlot (Disk off) (len es) [] es]). split; [apply Forall_app; split; [done|by apply Forall_singleton]|]. split; [by destruct ss|].
    rewrite !fmap_app, Ec, Ecn, Eb. split; [done|]. split; [done|]. destruct ss as [|s0 ss]; [done|]. cbn [tail app]. rewrite fmap_app. cbn. rewrite Ef.
    split; [done|]. rewrite <- Ees. etransitivity; [apply (forest_es_app (s0 :: ss))|]. f_equal. unfold forest_es. cbn. apply app_nil_r.
  - cbn [op_first]. rewrite Ho, <- Ees. destruct ss as [|s0 ss]; [done|]. rewrite forest_es_cons. apply Forall_cons in Hss as [Hs0 _].
    pose proof (kid_es _ _ _ Hs0). by destruct (s_es s0).
  - cbn [op_node encoded_len]. unfold branch_encoded_len in *. cbn [br_keys]. rewrite fmap_app, zsum_app. cbn [fmap list_fmap]. rewrite zsum_cons. unfold sep_size at 2. cbn. lia.
Qed.

Lemma full_branch_wide branch k : ~ branch_encoded_len branch + (key_encoded_len k + 16) <= FILL -> wide (NBranch branch).
Proof using Type.
  intros H E. apply H. unfold branch_encoded_len. rewrite E. pose proof (key_encoded_len_le k). unfold PAGE_HEADER, FILL, PAGE_SIZE. cbn. change (4096 * 7 / 8) with 3584. lia.
Qed.

Lemma mono_push_child fuel : forall index first off cnt, mono (push_child fuel index first off cnt).
Proof using Type.
  induction fuel as [|fuel IH]; intros index first off cnt; cbn [push_child]; [apply mono_lift|]. cbv zeta.
  assert (forall fresh, mono (let! level := bulk_level index in
    let! _ := put_level index match lv_pending level with Some full => mkLevel (Some full) (Some fresh) | None => mkLevel (lv_held level) (Some fresh) end in
    match lv_pending level, lv_held level with
    | Some _, Some open => let! r := bulk_write_node (op_node open) in push_child fuel (S index) (op_first open) r.1 r.2
    | _, _ => sret tt
    end)) as Hrot.
  { intros fresh. apply mono_bind; [apply mono_bulk_level|]. intros level. apply mono_bind; [apply mono_put_level|]. intros _.
    destruct (lv_pending level), (lv_held level); try apply mono_ret. apply mono_bind; [apply mono_node|]. intros r. apply IH. }
  apply mono_bind; [apply mono_bulk_level|]. intros level. destruct (lv_pending level) as [o|]; [|apply Hrot].
  destruct (op_node o) as [?|branch]; [apply mono_lift|]. destruct (_ <=? FILL); [apply mono_put_level|apply Hrot].
Qed.

Definition rotated (push : Key -> Z -> Z -> SR Bulk unit) (index : nat) (fresh : Open) : SR Bulk unit :=
  let! level := bulk_level index in
  let! _ := put_level index match lv_pending level with Some full => mkLevel (Some full) (Some fresh) | None => mkLevel (lv_held level) (Some fresh) end in
  match lv_pending level, lv_held level with
  | Some _, Some open => let! r := bulk_write_node (op_node open) in push (op_first open) r.1 r.2
  | _, _ => sret tt
  end.

(** What [push] does with a tree of depth [index]. *)
Definition pushes (push : Key -> Z -> Z -> SR Bulk unit) (index bound_ : nat) : Prop := forall first off es eup ps b,
  file_ok ps b -> (index < length (bk_levels b) <= 64)%nat -> (length (bk_levels b) <= bound_)%nat -> levels_ok ps (S index) (drop (S index) (bk_levels b)) eup -> kid ps index (mkSlot (Disk off) (len es) [] es) ->
  good (eup ++ es) -> k_bytes first = first_key es -> does tidy (push first off (len es)) b (fun _ b' => holding ps (S index) (eup ++ es) b b').

Lemma fill_fits n : encoded_len n <= FILL -> encoded_len n <= PAGE_SIZE.
Proof using Type. unfold FILL, PAGE_SIZE. change (4096 * 7 / 8) with 3584. lia. Qed.

Lemma holding_at ps index b pre x rest eup elv :
  file_ok ps b -> length pre = index -> (length (pre ++ x :: rest) <= 64)%nat -> take index (bk_levels b) = pre -> levels_ok ps (S index) rest eup -> level_ok ps index x elv -> (eup <> [] -> is_Some (lv_held x)) ->
  holding ps index (eup ++ elv) b (with_levels (pre ++ x :: rest) b).
Proof using Type.
  intros H Hi Hl Ht Hup Hlv Hheld0. exists []. rewrite app_nil_r. split; [by apply file_with_levels|]. split; [done|]. cbn [with_levels bk_levels].
  rewrite take_app_length', drop_app_length' by done. split; [done|]. split; [rewrite length_app in *; cbn in *; lia|]. by exists eup, elv.
Qed.

Lemma rotated_ok push index bound_ fresh b pre lv rest ps eup elv enew :
  bk_levels b = pre ++ lv :: rest -> length pre = index -> file_ok ps b -> levels_ok ps (S index) rest eup -> level_ok ps index lv elv -> open_ok ps index fresh enew -> (eup <> [] -> is_Some (lv_held lv)) ->
  (forall p, lv_pending lv = Some p -> wide (op_node p)) -> good (eup ++ elv ++ enew) -> (length (bk_levels b) <= 64)%nat -> (length (bk_levels b) <= bound_)%nat ->
  (forall k o c, mono (push k o c)) -> (lv_held lv <> None -> pushes push index bound_) ->
  does tidy (rotated push index fresh) b (fun _ b' => holding ps index (eup ++ elv ++ enew) b b').
Proof using All.
  intros El Hi H Hup Hlv Hfr Hheld0 Hwd Hg Hl Hbd Hm Hpush. unfold rotated.
  eapply does_step; [by eapply bulk_level_at|done|]. cbv beta. eapply does_step; [by eapply put_level_at|done|]. cbv beta.
  assert (take index (bk_levels b) = pre) as Ht by (rewrite El; by apply take_app_length'). rewrite El in Hl, Hbd. rewrite length_app in Hl, Hbd. cbn [length] in Hl, Hbd.
  unfold level_ok in Hlv. destruct lv as [held pending]. cbn [lv_held lv_pending] in *. destruct held as [h|], pending as [p|]; [|done| |].
  - destruct Hlv as (e1 & e2 & -> & Hh & Hhw & Hp). destruct (good_app _ _ Hg) as [Hgu Hgr]. rewrite <- app_assoc in Hgr. destruct (good_app _ _ Hgr) as [Hg1 _].
    assert (good (eup ++ e1)) as Hgu1 by (rewrite <- app_assoc, app_assoc in Hg; by destruct (good_app _ _ Hg)).
    set (b1 := with_levels _ b). assert (file_ok ps b1) as H1 by (by apply file_with_levels). pose proof Hh as (Hn & Hf & Hfill).
    eapply does_bind; [by eapply next_nonneg|apply mono_node|intros; apply Hm|eapply (write_node_ok ps index); [done|exact Hn|done|done|intros _; by apply fill_fits]|].
    intros r b2 (more & H2 & [R1 R2] & Er & Hk). rewrite Er.
    assert (bk_levels b2 = pre ++ mkLevel (Some p) (Some fresh) :: rest) as El2 by (rewrite R1; done).
    assert (drop (S index) (bk_levels b2) = rest) as Ed by (rewrite El2, <- Hi, drop_app_ge by lia; replace (S (length pre) - length pre)%nat with 1%nat by lia; done).
    eapply does_mono.
    { apply (Hpush ltac:(done) (op_first h) r.1 e1 eup (ps ++ more) b2); [done|rewrite El2, length_app; cbn; lia|rewrite El2, length_app; cbn; lia|rewrite Ed; by apply levels_more|done|done|done]. }
    intros _ b3 (more' & H3 & R3 & T3 & L3 & Hup3). exists (more ++ more'). rewrite app_assoc. split; [done|]. split; [by rewrite R3, R2|].
    assert (bk_levels b3 = pre ++ mkLevel (Some p) (Some fresh) :: drop (S index) (bk_levels b3)) as El3.
    { rewrite <- (take_drop (S index) (bk_levels b3)) at 1. rewrite T3, El2, <- Hi, take_app_ge by lia. replace (S (length pre) - length pre)%nat with 1%nat by lia. cbn. by rewrite <- app_assoc. }
    split; [rewrite El3, Ht; by apply take_app_length'|]. split; [lia|]. rewrite El3, drop_app_length' by done.
    exists (eup ++ e1), (e2 ++ enew). split; [by rewrite <- !app_assoc|]. split; [done|]. split; [|done]. exists e2, enew. split; [done|].
    split; [by apply open_more, open_more|]. split; [by apply Hwd|by apply open_more, open_more].
  - apply does_ret. apply holding_at; try done; [rewrite length_app; cbn; lia|]. exists elv, enew. split; [done|]. split; [done|]. split; [by apply Hwd|done].
  - subst elv. apply does_ret. apply holding_at; try done. rewrite length_app; cbn; lia.
Qed.

Lemma holding_from ps i es b b1 b' : holding ps i es b1 b' -> take i (bk_levels b1) = take i (bk_levels b) -> bk_roots b1 = bk_roots b -> holding ps i es b b'.
Proof using Type. intros (more & ? & E1 & E2 & ? & ?) Et Er. exists more. rewrite E1, E2, Et, Er. done. Qed.

(** The pending node of a level grew. *)
Lemma level_grows ps d lv o o' e2 es :
  level_ok ps d lv e2 -> lv_pending lv = Some o -> (forall e, open_ok ps d o e -> open_ok ps d o' (e ++ es)) -> level_ok ps d (mkLevel (lv_held lv) (Some o')) (e2 ++ es).
Proof using Type.
  destruct lv as [[h|] p]; unfold level_ok; cbn [lv_held lv_pending]; intros Hlv -> Ho; [|by apply Ho].
  destruct Hlv as (ea & eb & -> & ? & ? & Hp). exists ea, (eb ++ es). rewrite <- app_assoc. split; [done|]. split; [done|]. split; [done|by apply Ho].
Qed.

Lemma pending_ok ps d lv o es : level_ok ps d lv es -> lv_pending lv = Some o -> exists e, open_ok ps d o e.
Proof using Type. destruct lv as [[h|] p]; unfold level_ok; cbn; intros H ->; [destruct H as (? & e & _ & _ & _ & ?); by exists e|by exists es]. Qed.

Lemma depth_small d (es : entries) : (2 ^ d <= length es)%nat -> len es < 9223372036854775808 -> (d < 63)%nat.
Proof using Type.
  intros H Hl. apply Nat.nle_gt. intros Hd. assert (2 ^ 63 <= 2 ^ d)%nat as Hp by (apply Nat.pow_le_mono_r; lia).
  unfold len in Hl. assert (Z.of_nat (2 ^ 63) <= Z.of_nat (length es)) as Hz by (apply inj_le; lia). rewrite Nat2Z.inj_pow in Hz. change (Z.of_nat 2 ^ Z.of_nat 63) with 9223372036854775808 in Hz. lia.
Qed.

Lemma push_child_ok fuel : forall d bound_, (bound_ - S d < fuel)%nat -> pushes (push_child fuel (S d)) d bound_.
Proof using All.
  induction fuel as [|fuel IH]; intros d bound_ Hfu; [lia|]. intros first off es eup ps b H [Hl1 Hl2] Hbd Hup Hk Hg Hf.
  destruct (level_view (S d) (bk_levels b)) as (lv & rest & Eext & Hview); [lia|]. apply Hview in Hup as (e1 & e2 & -> & Hr & Hlv & Hheld0). clear Hview.
  pose proof Hg as (_ & _ & Hlen). pose proof (depth_small d es (kd_size _ _ _ Hk)) as Hd. rewrite len_app in Hlen. pose proof (len_nonneg (e1 ++ e2)). specialize (Hd ltac:(lia)).
  assert (length (take (S d) (bk_levels b)) = S d) as Hpre by (rewrite length_take; lia).
  assert (length (bk_levels b ++ replicate (S (S d) - length (bk_levels b)) level_default) = Nat.max (length (bk_levels b)) (S (S d))) as Hel by (rewrite length_app, length_replicate; lia).
  rewrite Eext in Hel. cbn [push_child]. eapply does_step; [apply bulk_level_eq; [exact Eext|lia]|done|]. cbv beta zeta.
  set (b1 := with_levels (take (S d) (bk_levels b) ++ lv :: rest) b). assert (file_ok ps b1) as H1 by (by apply file_with_levels).
  assert (take (S d) (bk_levels b1) = take (S d) (bk_levels b)) as Ht1 by (by apply take_app_length').
  pose proof (branch_of_ok ps d first off es Hf Hk) as Hfr. rewrite <- app_assoc.
  assert ((forall p, lv_pending lv = Some p -> wide (op_node p)) -> does tidy (rotated (push_child fuel (S (S d))) (S d) (branch_of first off (len es))) b1 (fun _ b' => holding ps (S d) (e1 ++ e2 ++ es) b b')) as Hrot.
  { intros Hwd. apply (does_mono _ _ _ (fun _ b' => holding ps (S d) (e1 ++ e2 ++ es) b1 b')); [|intros u b' Hh; by eapply holding_from].
    eapply (rotated_ok _ (S d) (length (bk_levels b1)) (branch_of first off (len es)) b1 (take (S d) (bk_levels b)) lv rest ps e1 e2 es); try done.
    - by rewrite app_assoc.
    - cbn [b1 with_levels bk_levels]. lia.
    - intros k o c. apply mono_push_child.
    - intros Hheld. apply IH. cbn [b1 with_levels bk_levels]. rewrite Hel.
      destruct (decide (length (bk_levels b) = S d)) as [E|]; [|lia]. exfalso. apply Hheld.
      rewrite E in Eext. replace (S (S d) - S d)%nat with 1%nat in Eext by lia. rewrite take_ge in Eext by lia. apply app_inv_head in Eext. injection Eext as <- _. done. }
  destruct (lv_pending lv) as [o|] eqn:Ep; [|by apply Hrot]. destruct (pending_ok _ _ _ _ _ Hlv Ep) as [eo Hoo]. pose proof Hoo as (Hno & _).
  destruct (op_node o) as [lf|branch] eqn:En; [done|]. destruct (Z.leb_spec (branch_encoded_len branch + (key_encoded_len first + 16)) FILL) as [Hfit|Hfull].
  - unfold does. erewrite put_level_at; [|done|done]. intros _. change (with_levels ?x b1) with (with_levels x b). apply holding_at; try done.
    + rewrite length_app in *. cbn [length] in *. lia.
    + eapply level_grows; [done|done|]. intros e He. by eapply branch_grows.
  - apply Hrot. intros p [= <-]. rewrite En. eapply (full_branch_wide branch first). lia.
Qed.

(** ** Entries *)

Definition leaf_of (key : bytes) (v : bytes) : Open := mkOpen (key_new key) (NLeaf (mkLeaf [key_new key] [v])).

Lemma leaf_of_ok ps key v : len v = 8 -> open_ok ps 0 (leaf_of key v) [(key, v)].
Proof using Type.
  intros Hv. split; [done|]. split; [done|]. cbn [leaf_of op_node encoded_len]. unfold leaf_encoded_len. cbn [lf_keys lf_values zip zip_with fmap list_fmap]. rewrite zsum_cons.
  unfold entry_size. cbn [fst snd]. pose proof (key_encoded_len_le (key_new key)). unfold PAGE_HEADER, FILL, PAGE_SIZE. change (4096 * 7 / 8) with 3584. cbn [zsum fold_right]. lia.
Qed.

Lemma leaf_grows ps o leaf key v e1 :
  op_node o = NLeaf leaf -> open_ok ps 0 o e1 -> leaf_encoded_len leaf + (key_encoded_len (key_new key) + 2 + len v) <= FILL ->
  open_ok ps 0 (mkOpen (op_first o) (NLeaf (mkLeaf (lf_keys leaf ++ [key_new key]) (lf_values leaf ++ [v])))) (e1 ++ [(key, v)]).
Proof using Type.
  intros En (Hn & Ho & _) Hl. rewrite En in Hn. destruct Hn as (Hw & <- & Hne). unfold leaf_wf in Hw. split; [|split].
  - cbn. unfold leaf_wf. cbn. rewrite !length_app, Hw. split; [done|]. split; [|by destruct (leaf_es leaf)].
    unfold leaf_es. cbn. rewrite fmap_app, zip_with_app by (by rewrite length_fmap). done.
  - cbn [op_first]. rewrite Ho. by destruct (leaf_es leaf).
  - cbn [op_node encoded_len]. unfold leaf_encoded_len in *. cbn [lf_keys lf_values]. rewrite zip_with_app by done. rewrite fmap_app, zsum_app. cbn [zip_with fmap list_fmap]. rewrite zsum_cons. unfold entry_size at 2. cbn [fst snd zsum fold_right]. lia.
Qed.

Definition push_up : Key -> Z -> Z -> SR Bulk unit := fun first off cnt b => push_child (rotate_fuel b) 1 first off cnt b.

Lemma push_up_ok bound_ : pushes push_up 0 bound_.
Proof using All.
  intros first off es eup ps b H Hl Hbd Hup Hk Hg Hf. unfold push_up, does. apply (push_child_ok (rotate_fuel b) 0 (length (bk_levels b))); try done. unfold rotate_fuel. lia.
Qed.
Lemma mono_push_up k o c : mono (push_up k o c).
Proof using Type. intros b. apply mono_push_child. Qed.

Lemma mono_rotated push index fresh : (forall k o c, mono (push k o c)) -> mono (rotated push index fresh).
Proof using Type.
  intros Hm. apply mono_bind; [apply mono_bulk_level|]. intros level. apply mono_bind; [apply mono_put_level|]. intros _.
  destruct (lv_pending level), (lv_held level); try apply mono_ret. apply mono_bind; [apply mono_node|]. intros r. apply Hm.
Qed.

Lemma mono_push_entry key v : mono (push_entry key v).
Proof using Type.
  unfold push_entry. cbv zeta. apply mono_bind; [apply mono_bulk_level|]. intros level. destruct (lv_pending level) as [o|]; [|apply (mono_rotated push_up), mono_push_up].
  destruct (op_node o); [|apply mono_lift]. destruct (_ <=? FILL); [apply mono_put_level|apply (mono_rotated push_up), mono_push_up].
Qed.

Lemma push_entry_ok ps b es key v :
  file_ok ps b -> levels_ok ps 0 (bk_levels b) es -> (length (bk_levels b) <= 64)%nat -> good (es ++ [(key, v)]) ->
  does tidy (push_entry (key_new key) v) b (fun _ b' => holding ps 0 (es ++ [(key, v)]) b b').
Proof using All.
  intros H Hls Hl Hg. destruct (good_app _ _ Hg) as [_ (_ & [(_ & Hv & _) _]%Forall_cons & _)]. cbn [fst snd] in Hv.
  destruct (level_view 0 (bk_levels b)) as (lv & rest & Eext & Hview); [lia|]. rewrite drop_0 in Hview. apply Hview in Hls as (e1 & e2 & -> & Hr & Hlv & Hheld0). clear Hview.
  assert (length (bk_levels b ++ replicate (1 - length (bk_levels b)) level_default) = Nat.max (length (bk_levels b)) 1) as Hel by (rewrite length_app, length_replicate; lia).
  rewrite Eext in Hel. unfold push_entry. eapply does_step; [apply bulk_level_eq; [exact Eext|lia]|done|]. cbv beta zeta. rewrite take_0 in Hel, Eext |- *. cbn [app] in *.
  set (b1 := with_levels (lv :: rest) b). assert (file_ok ps b1) as H1 by (by apply file_with_levels). rewrite <- app_assoc.
  assert (does tidy (rotate_leaf (leaf_of key v)) b1 (fun _ b' => holding ps 0 (e1 ++ e2 ++ [(key, v)]) b b')) as Hrot.
  { apply (does_mono _ _ _ (fun _ b' => holding ps 0 (e1 ++ e2 ++ [(key, v)]) b1 b')); [|intros u b' Hh; by eapply holding_from].
    eapply (rotated_ok push_up 0 (length (bk_levels b1)) (leaf_of key v) b1 [] lv rest ps e1 e2 [(key, v)]); try done.
    - by apply leaf_of_ok.
    - intros p Hp. destruct (pending_ok _ _ _ _ _ Hlv Hp) as (e & Hn & _). by destruct (op_node p).
    - by rewrite app_assoc.
    - cbn [b1 with_levels bk_levels]. lia.
    - apply mono_push_up.
    - intros _. apply push_up_ok. }
  destruct (lv_pending lv) as [o|] eqn:Ep; [|by apply Hrot]. destruct (pending_ok _ _ _ _ _ Hlv Ep) as [eo Hoo]. pose proof Hoo as (Hno & _).
  destruct (op_node o) as [leaf|branch] eqn:En; [|done]. destruct (Z.leb_spec (leaf_encoded_len leaf + (key_encoded_len (key_new key) + 2 + len v)) FILL) as [Hfit|Hfull]; [|by apply Hrot].
  unfold does. erewrite (put_level_at 0 b1 []); [|done|done]. intros _. change (with_levels ?x b1) with (with_levels x b). apply (holding_at ps 0 b []); try done.
  - cbn [app length] in *. lia.
  - eapply level_grows; [done|done|]. intros e He. by eapply leaf_grows.
Qed.

(** ** The last two nodes of a level *)

Lemma zsum_nonneg' l : Forall (Z.le 0) l -> 0 <= zsum l.
Proof using Type. induction 1; [done|]. rewrite zsum_cons. lia. Qed.

Lemma zsum_take_S (l : list Z) n x : l !! n = Some x -> zsum (take (S n) l) = zsum (take n l) + x.
Proof using Type. intros H. rewrite (take_S_r _ _ _ H), zsum_app. cbn. lia. Qed.

Lemma zsum_split (l : list Z) n : zsum l = zsum (take n l) + zsum (drop n l).
Proof using Type. rewrite <- zsum_app. by rewrite take_drop. Qed.

Lemma point_loop_spec sizes half fuel : forall at_, (1 <= at_ < length sizes)%nat -> (length sizes - at_ <= fuel)%nat -> (zsum (take at_ sizes) <= half \/ at_ = 1%nat) ->
  let r := split_point_loop fuel sizes half at_ (zsum (take at_ sizes)) in
  (1 <= r < length sizes)%nat /\ (zsum (take r sizes) <= half \/ r = 1%nat) /\ (r = (length sizes - 1)%nat \/ exists x, sizes !! r = Some x /\ half < zsum (take r sizes) + x).
Proof using Type.
  induction fuel as [|fuel IH]; intros at_ Ha Hf Hs; cbn [split_point_loop]; [lia|].
  destruct (lookup_lt_is_Some_2 sizes at_) as [x Hx]; [lia|]. rewrite Hx. destruct (Nat.ltb_spec at_ (length sizes - 1)) as [Hlt|Hge]; cbn [andb].
  - destruct (Z.leb_spec (zsum (take at_ sizes) + x) half) as [Hle|Hgt].
    + rewrite <- (zsum_take_S _ _ _ Hx) in Hle |- *. apply IH; [lia|lia|by left].
    + split; [done|]. split; [done|]. right. by exists x.
  - split; [done|]. split; [done|]. left. lia.
Qed.

Lemma split_point_spec sizes : (2 <= length sizes)%nat -> let r := split_point sizes 1 in
  (1 <= r < length sizes)%nat /\ (zsum (take r sizes) <= zsum sizes / 2 \/ r = 1%nat) /\
  (r = (length sizes - 1)%nat \/ exists x, sizes !! r = Some x /\ zsum sizes / 2 < zsum (take r sizes) + x).
Proof using Type. intros Hl. apply point_loop_spec; [lia|lia|by right]. Qed.

(** Sizes of the two parts, when no size exceeds [M]. *)
Lemma split_sizes sizes M : (2 <= length sizes)%nat -> Forall (fun x => 0 <= x <= M) sizes -> let r := split_point sizes 1 in
  zsum (take r sizes) <= Z.max M (zsum sizes / 2) /\ zsum (drop r sizes) <= Z.max M (zsum sizes - zsum sizes / 2 + M - 1) /\
  zsum (drop (S r) sizes) <= zsum sizes - zsum sizes / 2.
Proof using Type.
  intros Hl HM r. destruct (split_point_spec sizes Hl) as (Hr & Hleft & Hright). fold r in Hr, Hleft, Hright.
  assert (Forall (Z.le 0) sizes) as H0 by (eapply Forall_impl; [exact HM|cbn; lia]).
  destruct (lookup_lt_is_Some_2 sizes r) as [x Hx]; [lia|]. pose proof (proj1 (Forall_forall _ _) HM x (list_elem_of_lookup_2 _ _ _ Hx)) as Hxm. cbn in Hxm.
  pose proof (zsum_split sizes r) as E. rewrite (drop_S _ _ _ Hx) in E. rewrite zsum_cons in E. rewrite (drop_S _ _ _ Hx), zsum_cons.
  pose proof (zsum_nonneg' _ (Forall_drop _ (S r) _ H0)). pose proof (zsum_nonneg' _ (Forall_take _ r _ H0)). pose proof (zsum_nonneg' _ H0).
  split; [|split].
  - destruct Hleft as [?|E1]; [lia|]. rewrite E1. destruct sizes as [|y sizes]; [cbn in Hl; lia|]. cbn [take]. rewrite zsum_cons, take_0. apply Forall_cons in HM as [? _]. cbn. lia.
  - destruct Hright as [E1|(x' & Hx' & Hh)]; [|rewrite Hx in Hx'; injection Hx' as <-; lia].
    rewrite (drop_ge sizes (S r)) by lia. cbn. lia.
  - destruct Hright as [E1|(x' & Hx' & Hh)]; [|rewrite Hx in Hx'; injection Hx' as <-; lia].
    rewrite (drop_ge sizes (S r)) by lia. cbn. Z.to_euclidean_division_equations. lia.
Qed.

(** Nodes of one depth that hold [es], ready to be written. *)
Fixpoint nodes_ok (ps : list bytes) (d : nat) (nodes : list Open) (es : entries) : Prop :=
  match nodes with
  | [] => es = []
  | o :: nodes => exists e1 e2, es = e1 ++ e2 /\ node_ok ps d (op_node o) e1 /\ k_bytes (op_first o) = first_key e1 /\
      (tidy -> encoded_len (op_node o) <= PAGE_SIZE) /\ nodes_ok ps d nodes e2
  end.

Lemma nodes_one ps d o es : node_ok ps d (op_node o) es -> k_bytes (op_first o) = first_key es -> (tidy -> encoded_len (op_node o) <= PAGE_SIZE) -> nodes_ok ps d [o] es.
Proof using Type. intros. exists es, []. by rewrite app_nil_r. Qed.

Lemma node_es ps d n es : node_ok ps d n es -> es <> [].
Proof using Type.
  destruct d as [|d], n; cbn; try done; [by intros (_ & _ & ?)|]. intros (ss & Hk & Hne & _ & _ & _ & <-). destruct ss as [|s ss]; [done|].
  apply Forall_cons in Hk as [Hs _]. rewrite forest_es_cons. pose proof (kid_es _ _ _ Hs). by destruct (s_es s).
Qed.

Lemma first_key_app a b : a <> [] -> first_key (a ++ b) = first_key a.
Proof using Type. by destruct a. Qed.

Lemma open_leaf_sizes l : leaf_wf l -> Forall entry_fine (leaf_es l) ->
  Forall (fun x => 0 <= x <= 525) (entry_size <$> zip (lf_keys l) (lf_values l)) /\ (tidy -> Forall (fun x => 0 <= x <= 512) (entry_size <$> zip (lf_keys l) (lf_values l))).
Proof using Type.
  unfold leaf_wf, leaf_es. intros Hw Hf. revert Hw Hf. generalize (lf_values l) as vs. induction (lf_keys l) as [|k ks IH]; intros [|v vs] Hw Hf; try done.
  cbn [fmap list_fmap zip zip_with] in *. apply Forall_cons in Hf as [(_ & Hv & Ht) Hf]. destruct (IH vs) as [IH1 IH2]; [by injection Hw|done|]. cbn [fst snd] in *.
  assert (entry_size (k, v) = entry_size (key_new (k_bytes k), v)) as E by done. pose proof (key_encoded_len_le k). pose proof (entry_size_ge (k, v)).
  split; [constructor; [unfold entry_size in *; cbn [fst snd] in *; lia|done]|]. intros T. constructor; [rewrite E in *; specialize (Ht T); lia|by apply IH2].
Qed.

Lemma split_leaf_ok ps first l es : node_ok ps 0 (NLeaf l) es -> (2 <= length es)%nat -> Forall entry_fine es -> k_bytes first = first_key es ->
  leaf_encoded_len l <= PAGE_HEADER + 7136 -> exists nodes, split_leaf_open first l = Ok nodes /\ nodes_ok ps 0 nodes es /\ Forall (fun o => wide (op_node o)) nodes.
Proof using Type.
  intros (Hw & <- & _) H2 Hf Hfk Hsz. destruct (open_leaf_sizes l Hw Hf) as [S1 S2]. unfold split_leaf_open. unfold leaf_encoded_len in Hsz.
  set (sizes := entry_size <$> zip (lf_keys l) (lf_values l)) in *. set (at_ := split_point sizes 1). unfold leaf_wf in Hw.
  assert (length sizes = length (lf_keys l)) as El by (unfold sizes; rewrite length_fmap, length_zip_with; lia).
  assert (length (leaf_es l) = length (lf_keys l)) as Ees by (unfold leaf_es; rewrite length_zip_with, length_fmap; lia).
  destruct (split_point_spec sizes ltac:(lia)) as (Hr & _ & _). fold at_ in Hr.
  destruct (split_sizes sizes 525 ltac:(lia) S1) as (L1 & _ & _). fold at_ in L1. cbv zeta. cbn [lf_keys].
  destruct (drop at_ (lf_keys l)) as [|k ks] eqn:Ed; [apply (f_equal length) in Ed; rewrite length_drop in Ed; cbn in Ed; lia|].
  eexists. split; [done|]. split; [|by repeat constructor].
  assert (forall n, leaf_es (mkLeaf (take n (lf_keys l)) (take n (lf_values l))) = take n (leaf_es l)) as Et by (intros n; unfold leaf_es; cbn; by rewrite zip_with_take, fmap_take).
  assert (leaf_es (mkLeaf (k :: ks) (drop at_ (lf_values l))) = drop at_ (leaf_es l)) as Edr by (unfold leaf_es; cbn [lf_keys lf_values]; by rewrite <- Ed, zip_with_drop, fmap_drop).
  assert (take at_ (leaf_es l) <> []) as Ht by (intros E; apply (f_equal length) in E; rewrite length_take in E; cbn in E; lia).
  exists (take at_ (leaf_es l)), (drop at_ (leaf_es l)). split; [by rewrite take_drop|]. split; [|split; [|split]].
  - cbn [op_node node_ok]. rewrite Et. unfold leaf_wf. cbn [lf_keys lf_values]. rewrite !length_take. split; [lia|done].
  - cbn [op_first]. rewrite Hfk, <- (take_drop at_ (leaf_es l)) at 1. by apply first_key_app.
  - intros _. cbn [op_node encoded_len]. unfold leaf_encoded_len. cbn [lf_keys lf_values]. rewrite <- zip_with_take, fmap_take. fold sizes. unfold PAGE_HEADER, PAGE_SIZE in *. Z.to_euclidean_division_equations. lia.
  - apply nodes_one.
    + cbn [op_node node_ok]. rewrite Edr. unfold leaf_wf. cbn [lf_keys lf_values length]. apply (f_equal length) in Ed. rewrite length_drop in Ed. rewrite (length_drop (lf_values l)). cbn [length] in Ed. split; [lia|]. split; [done|].
      intros E; apply (f_equal length) in E; rewrite length_drop in E; cbn in E; lia.
    + cbn [op_first]. rewrite <- Edr. unfold leaf_es. cbn. destruct (drop at_ (lf_values l)) eqn:Ev; [apply (f_equal length) in Ev; rewrite length_drop in Ev; cbn in Ev; lia|done].
    + intros T. destruct (split_sizes sizes 512 ltac:(lia) (S2 T)) as (_ & R1 & _). fold at_ in R1. cbn [op_node encoded_len]. unfold leaf_encoded_len. cbn [lf_keys lf_values].
      rewrite <- Ed, <- zip_with_drop, fmap_drop. fold sizes. unfold PAGE_HEADER, PAGE_SIZE in *. Z.to_euclidean_division_equations. lia.
Qed.

Lemma sep_sizes b : Forall (fun x => 0 <= x <= 531) (sep_size <$> br_keys b).
Proof using Type. apply Forall_fmap, Forall_forall. intros k _. cbn. pose proof (sep_size_ge k). unfold sep_size in *. pose proof (key_encoded_len_le k). lia. Qed.

Lemma zsum_bound l M : Forall (fun x => 0 <= x <= M) l -> zsum l <= M * Z.of_nat (length l).
Proof using Type. induction 1; [cbn; lia|]. rewrite zsum_cons. cbn [length]. lia. Qed.

Lemma forest_es_take_drop n ss : forest_es ss = forest_es (take n ss) ++ forest_es (drop n ss).
Proof using Type. by rewrite <- forest_es_app, take_drop. Qed.

Lemma tail_take {A : Type} n (l : list A) : tail (take (S n) l) = take n (tail l).
Proof using Type. destruct l; cbn; [by rewrite take_nil|done]. Qed.
Lemma tail_drop {A : Type} n (l : list A) : tail (drop n l) = drop n (tail l).
Proof using Type. revert l; induction n as [|n IH]; intros [|x l]; cbn; [by rewrite ?drop_nil|done|by rewrite ?drop_nil|]. rewrite IH. destruct l; cbn; [by rewrite drop_nil|done]. Qed.

Lemma kids_es_nil ps d ss : Forall (kid ps d) ss -> ss <> [] -> forest_es ss <> [].
Proof using Type. intros Hk Hne. destruct ss as [|s ss]; [done|]. apply Forall_cons in Hk as [Hs _]. rewrite forest_es_cons. pose proof (kid_es _ _ _ Hs). by destruct (s_es s). Qed.

(** Part of a branch. *)
Lemma part_ok ps d ss keys : Forall (kid ps d) ss -> ss <> [] -> k_bytes <$> keys = (fun s => first_key (s_es s)) <$> tail ss ->
  node_ok ps (S d) (NBranch (mkBranch keys (s_child <$> ss) (s_count <$> ss))) (forest_es ss).
Proof using Type. intros. by exists ss. Qed.

Lemma split_branch_ok ps d first b es : node_ok ps (S d) (NBranch b) es -> k_bytes first = first_key es ->
  PAGE_SIZE < branch_encoded_len b <= PAGE_HEADER + 16 + 7635 -> exists nodes, split_branch_open first b = Ok nodes /\ nodes_ok ps (S d) nodes es /\ Forall (fun o => wide (op_node o)) nodes.
Proof using Type.
  intros (ss & Hk & Hne & Ec & En & Eb & <-) Hfk [Hbig Hsz]. pose proof (sep_sizes b) as S1. pose proof (zsum_bound _ _ S1) as Hz. unfold split_branch_open. unfold branch_encoded_len in *.
  set (sizes := sep_size <$> br_keys b) in *. assert (length sizes = length (br_keys b)) as El by (unfold sizes; by rewrite length_fmap).
  assert (length (br_keys b) = length (tail ss)) as Ets by (rewrite <- (length_fmap k_bytes), Eb; by rewrite length_fmap).
  assert (length ss = S (length (br_keys b))) as Els by (destruct ss; [done|cbn in *; lia]).
  assert (4 <= length sizes)%nat as H4 by (unfold PAGE_SIZE, PAGE_HEADER in *; lia).
  destruct (split_point_spec sizes ltac:(lia)) as (Hr & _ & _). destruct (split_sizes sizes 531 ltac:(lia) S1) as (L1 & _ & R1).
  set (at_ := split_point sizes 1) in *. cbv zeta. set (mid := Nat.min at_ (length sizes - 2)). assert (1 <= mid /\ mid <= length sizes - 2 /\ mid <= at_)%nat as (Hm1 & Hm2 & Hm3) by lia.
  assert (zsum (take mid sizes) <= zsum (take at_ sizes)) as Hleft.
  { rewrite (zsum_split (take at_ sizes) mid), take_take, Nat.min_l by lia. pose proof (zsum_nonneg' (drop mid (take at_ sizes))) as Hp. enough (0 <= zsum (drop mid (take at_ sizes))) by lia.
    apply Hp, Forall_drop, Forall_take. eapply Forall_impl; [exact S1|cbn; lia]. }
  assert (zsum (drop (mid + 1) sizes) <= Z.max 531 (zsum sizes - zsum sizes / 2)) as Hright.
  { destruct (decide (mid = at_)) as [->|Hne']; [rewrite Nat.add_1_r; lia|]. pose proof (zsum_bound _ _ (Forall_drop _ (mid + 1) _ S1)) as Hb. rewrite length_drop in Hb. lia. }
  destruct (lookup_lt_is_Some_2 (br_keys b) mid) as [k Hkm]; [lia|]. rewrite Hkm. eexists. split; [done|].
  assert (mid + 1 = S mid)%nat as E1 by lia. rewrite Ec, En, <- !fmap_take, <- !fmap_drop. split.
  - exists (forest_es (take (mid + 1) ss)), (forest_es (drop (mid + 1) ss)). split; [apply forest_es_take_drop|].
    assert (take (mid + 1) ss <> []) as Ht by (destruct ss; [done|]; by rewrite E1). assert (drop (mid + 1) ss <> []) as Hd by (intros E; apply (f_equal length) in E; rewrite length_drop in E; cbn in E; lia).
    split; [|split; [|split]].
    + apply part_ok; [by apply Forall_take|done|]. by rewrite E1, tail_take, !fmap_take, Eb.
    + cbn [op_first]. rewrite Hfk, (forest_es_take_drop (mid + 1) ss). apply first_key_app. eapply kids_es_nil; [by apply Forall_take|done].
    + intros _. cbn [op_node encoded_len]. unfold branch_encoded_len. cbn [br_keys]. rewrite fmap_take. fold sizes. unfold PAGE_HEADER, PAGE_SIZE in *. Z.to_euclidean_division_equations. lia.
    + apply nodes_one.
      * apply part_ok; [by apply Forall_drop|done|]. by rewrite tail_drop, !fmap_drop, Eb.
      * cbn [op_first]. assert ((k_bytes <$> br_keys b) !! mid = Some (k_bytes k)) as Hl by (by rewrite list_lookup_fmap, Hkm). rewrite Eb, list_lookup_fmap in Hl.
        destruct (drop (mid + 1) ss) as [|s' ss'] eqn:Ed; [done|]. assert (tail ss !! mid = Some s') as Hs'.
        { assert (ss !! (mid + 1)%nat = Some s') as H by (rewrite <- (Nat.add_0_r (mid + 1)), <- lookup_drop, Ed; done). rewrite E1 in H. by destruct ss. }
        rewrite Hs' in Hl. injection Hl as <-. rewrite forest_es_cons, first_key_app; [done|]. eapply (kid_es ps d). eapply (Forall_inv (l := ss')). rewrite <- Ed. by apply Forall_drop.
      * intros _. cbn [op_node encoded_len]. unfold branch_encoded_len. cbn [br_keys]. rewrite fmap_drop. fold sizes. unfold PAGE_HEADER, PAGE_SIZE in *. Z.to_euclidean_division_equations. lia.
  - constructor; [|constructor; [|constructor]]; cbn; intros E; apply (f_equal length) in E; rewrite ?length_take, ?length_drop in E; cbn in E; lia.
Qed.

Lemma merge_open_ok ps d h p e1 e2 : open_ok ps d h e1 -> open_ok ps d p e2 ->
  exists n, merge_open h p = Ok n /\ node_ok ps d n (e1 ++ e2) /\ wide n /\
    match n with NLeaf l => leaf_encoded_len l <= PAGE_HEADER + 7136 | NBranch b => branch_encoded_len b <= PAGE_HEADER + 16 + 7635 end.
Proof using Type.
  intros (Hh & _ & Fh) (Hp & Fp & Fl). unfold merge_open. assert (FILL = 3584) as EF by done. rewrite EF in *.
  destruct d as [|d], (op_node h) as [a|a], (op_node p) as [c|c]; cbn [node_ok] in Hh, Hp; try done.
  - destruct Hh as (Hw1 & <- & Hne), Hp as (Hw2 & <- & _). eexists. split; [done|]. unfold leaf_wf in *. split; [|split; [done|]].
    + cbn [node_ok]. unfold leaf_wf, leaf_es in *. cbn [lf_keys lf_values]. rewrite !length_app. split; [lia|]. rewrite fmap_app, zip_with_app by (rewrite length_fmap; lia). split; [done|]. by destruct (zip_with _ (k_bytes <$> lf_keys a) _).
    + unfold encoded_len, leaf_encoded_len in *. cbn [lf_keys lf_values]. rewrite zip_with_app, fmap_app, zsum_app by lia. unfold PAGE_HEADER in *. lia.
  - destruct Hh as (s1 & Hk1 & Hn1 & Ec1 & En1 & Eb1 & <-), Hp as (s2 & Hk2 & Hn2 & Ec2 & En2 & Eb2 & <-). eexists. split; [done|]. split; [|split].
    + exists (s1 ++ s2). cbn [br_keys br_children br_counts]. rewrite !fmap_app, Ec1, Ec2, En1, En2, fmap_cons, Eb1, Eb2, Fp. split; [by apply Forall_app|]. split; [by destruct s1|]. split; [done|]. split; [done|]. split; [|apply forest_es_app].
      destruct s1 as [|x s1]; [done|]. cbn [tail app]. rewrite fmap_app. f_equal. destruct s2 as [|y s2]; [done|]. cbn [tail fmap list_fmap]. f_equal. rewrite forest_es_cons. apply first_key_app.
      apply Forall_cons in Hk2 as [Hy _]. by eapply kid_es.
    + cbn. by destruct (br_keys a).
    + unfold encoded_len, branch_encoded_len in *. cbn [br_keys]. rewrite fmap_app, fmap_cons, zsum_app, zsum_cons. unfold sep_size at 2. pose proof (key_encoded_len_le (op_first p)). unfold PAGE_HEADER in *. lia.
Qed.

Lemma balance_last_ok ps d lv es : level_ok ps d lv es -> Forall entry_fine es ->
  exists nodes, balance_last (lv_held lv) (lv_pending lv) = Ok nodes /\ nodes_ok ps d nodes es /\ (is_Some (lv_held lv) \/ (2 <= length nodes)%nat -> Forall (fun o => wide (op_node o)) nodes).
Proof using Type.
  unfold level_ok. destruct lv as [[h|] [p|]]; cbn [lv_held lv_pending balance_last]; [|done| |].
  - intros (e1 & e2 & -> & Hh & _ & Hp) Hf. destruct (merge_open_ok _ _ _ _ _ _ Hh Hp) as (n & -> & Hn & Hw & Hsz). cbn [rbind].
    pose proof Hh as (Hnh & Fh & _). pose proof (node_es _ _ _ _ Hnh) as Hne1. destruct Hp as (Hnp & _). pose proof (node_es _ _ _ _ Hnp) as Hne2.
    assert (k_bytes (op_first h) = first_key (e1 ++ e2)) as Ff by (by rewrite first_key_app).
    destruct (Z.leb_spec (encoded_len n) PAGE_SIZE) as [Hle|Hgt].
    + eexists. split; [done|]. split; [by apply nodes_one|]. intros _. by repeat constructor.
    + destruct d as [|d], n as [l|b]; try done.
      * destruct (split_leaf_ok ps (op_first h) l (e1 ++ e2) Hn) as (nodes & ? & ? & ?); [|done|done|done|by exists nodes].
        rewrite length_app. destruct e1, e2; try done. cbn. lia.
      * destruct (split_branch_ok ps d (op_first h) b (e1 ++ e2) Hn Ff) as (nodes & ? & ? & ?); [cbn in Hgt; lia|by exists nodes].
  - intros (Hn & Ff & Hl) _. exists [p]. split; [done|]. split; [|intros [[? ?]|Hl2]; [done|cbn in Hl2; lia]]. apply nodes_one; [done|done|]. intros _. by apply fill_fits.
  - intros -> _. by exists [].
Qed.

Lemma mono_pass_up index nodes : mono (pass_up index nodes).
Proof using Type.
  induction nodes as [|o nodes IH]; [apply mono_ret|]. cbn [pass_up]. apply mono_bind; [apply mono_node|]. intros r. apply mono_bind; [|done]. intros b. apply mono_push_child.
Qed.

(** The nodes of level [index], passed to the level above. *)
Lemma pass_up_ok index nodes : forall ps b eup es, file_ok ps b -> (index < length (bk_levels b) <= 64)%nat -> levels_ok ps (S index) (drop (S index) (bk_levels b)) eup ->
  nodes_ok ps index nodes es -> Forall (fun o => wide (op_node o)) nodes -> good (eup ++ es) ->
  does tidy (pass_up index nodes) b (fun _ b' => exists more, file_ok (ps ++ more) b' /\ bk_roots b' = bk_roots b /\ (index < length (bk_levels b') <= 64)%nat /\
    levels_ok (ps ++ more) (S index) (drop (S index) (bk_levels b')) (eup ++ es)).
Proof using All.
  induction nodes as [|o nodes IH]; intros ps b eup es H Hl Hup Hno Hw Hg; cbn [pass_up].
  { cbn in Hno. subst es. rewrite app_nil_r. apply does_ret. exists []. by rewrite app_nil_r. }
  destruct Hno as (e1 & e2 & -> & Hn & Ff & Hfit & Hno). apply Forall_cons in Hw as [Hw Hws]. rewrite app_assoc in Hg. destruct (good_app _ _ Hg) as [Hg1 _]. destruct (good_app _ _ Hg1) as [_ Hge].
  eapply does_bind; [by eapply next_nonneg|apply mono_node| |by eapply (write_node_ok ps index)|].
  { intros r. apply mono_bind; [|intros _; apply mono_pass_up]. intros b'. apply mono_push_child. }
  intros r b1 (more & H1 & [R1 R2] & Er & Hk). rewrite Er.
  eapply (does_bind tidy _ _ _ (fun _ b2 => holding (ps ++ more) (S index) (eup ++ e1) b1 b2)); [by eapply next_nonneg|intros b'; apply mono_push_child|intros _; apply mono_pass_up| |].
  { unfold does. apply (push_child_ok (rotate_fuel b1) index (length (bk_levels b1))); try done; [unfold rotate_fuel; lia|by rewrite R1|]. rewrite R1. by apply levels_more. }
  intros _ b2 (more' & H2 & R3 & _ & L2 & Hup2). assert (forall m', nodes_ok (ps ++ m') index nodes e2) as Hno'.
  { intros m'. clear -Hno. revert e2 Hno. induction nodes as [|o nodes IH]; intros e2; [done|]. intros (a & c & ? & ? & ? & ? & ?). exists a, c. split; [done|]. split; [by apply node_more|]. split; [done|]. split; [done|by apply IH]. }
  eapply does_mono; [apply (IH ((ps ++ more) ++ more') b2 (eup ++ e1) e2); try done; [lia|rewrite <- app_assoc; apply Hno']|].
  intros _ b3 (m3 & H3 & R5 & L3 & Hup3). exists (more ++ more' ++ m3). rewrite !app_assoc in *. split; [done|]. split; [congruence|]. done.
Qed.

(** ** The end of a tree *)

Definition rooted (ps : list bytes) (r : Z) (es : entries) : Prop :=
  (r = 0 /\ es = []) \/ exists d, forall F, pages_at F ps -> tree_at (mkMode true t) (reader F) d (Disk r) None None [] es.

Lemma level_empty_es ps d lv es : level_ok ps d lv es -> level_empty lv = true <-> es = [].
Proof using Type.
  unfold level_ok. destruct lv as [[h|] [p|]]; cbn; [|done| |done].
  - intros (e1 & e2 & -> & (Hh & _) & _). apply node_es in Hh. split; [done|]. by destruct e1.
  - intros (Hp & _). apply node_es in Hp. by split.
Qed.

Lemma levels_empty_es ps ls : forall d es, levels_ok ps d ls es -> forallb level_empty ls = true <-> es = [].
Proof using Type.
  induction ls as [|lv ls IH]; intros d es; [by intros ->|]. intros (e1 & e2 & -> & Hls & Hlv & _). cbn [forallb]. rewrite andb_true_iff, (level_empty_es _ _ _ _ Hlv), (IH _ _ Hls).
  split; [by intros [-> ->]|]. by intros [-> ->]%app_eq_nil.
Qed.

Lemma mono_finish_loop fuel : forall index, mono (finish_loop fuel index).
Proof using Type.
  induction fuel as [|fuel IH]; intros index b Hb; cbn [finish_loop]; (destruct (Nat.leb _ _); [done|]); [done|].
  refine (mono_bind _ _ (mono_lift _) _ b Hb). intros level. apply mono_bind; [apply mono_put_level|]. intros _. apply mono_bind; [apply mono_lift|]. intros nodes b' Hb'. cbv zeta.
  assert (mono (let! _ := pass_up index nodes in finish_loop fuel (S index))) as Hup by (apply mono_bind; [apply mono_pass_up|intros _; apply IH]).
  assert (forall n, mono (let! r := bulk_write_node n in sret r.1)) as Hn by (intros n; apply mono_bind; [apply mono_node|intros r; apply mono_ret]).
  destruct nodes as [|o [|o' nodes]]; [by apply Hup| |by apply Hup]. destruct (forallb _ _); [|by apply Hup]. destruct (op_node o) as [l|br]; [by apply Hn|].
  destruct (Nat.eqb _ _); [|by apply Hn]. by destruct (br_children br !! 0%nat) as [[?|?]|].
Qed.

Definition finished (ps : list bytes) (es : entries) (b : Bulk) (r : Z) (b' : Bulk) : Prop :=
  exists more, file_ok (ps ++ more) b' /\ bk_roots b' = bk_roots b /\ rooted (ps ++ more) r es.

(** The top node. *)
Lemma write_root_ok ps d n es b : file_ok ps b -> node_ok ps d n es -> wide n -> good es -> (tidy -> encoded_len n <= PAGE_SIZE) ->
  does tidy (let! r := bulk_write_node n in sret r.1) b (finished ps es b).
Proof using All.
  intros H Hn Hw Hg Hfit. eapply does_bind; [by eapply next_nonneg|apply mono_node|intros; apply mono_ret|by eapply (write_node_ok ps d)|].
  intros r b' (more & H' & [_ R] & _ & Hk). apply does_ret. exists more. split; [done|]. split; [done|]. right. exists d. intros F HF. apply (kd_tree _ _ _ Hk F HF).
Qed.

Lemma only_child_ok ps d br es : node_ok ps (S d) (NBranch br) es -> length (br_children br) = 1%nat -> exists off, br_children br !! 0%nat = Some (Disk off) /\ rooted ps off es.
Proof using Type.
  intros (ss & Hk & Hne & Ec & _ & _ & <-) Hl. rewrite Ec in Hl |- *. rewrite length_fmap in Hl. destruct ss as [|s [|]]; try done. pose proof (Forall_inv Hk) as Hs.
  destruct (kd_child _ _ _ Hs) as [off E]. exists off. split; [cbn; by rewrite E|]. right. exists d. intros F HF. rewrite <- E. unfold forest_es. cbn. rewrite app_nil_r. by apply (kd_tree _ _ _ Hs).
Qed.

Lemma finish_loop_ok fuel : forall index ps b es, file_ok ps b -> (length (bk_levels b) <= 64)%nat -> (65 <= index + fuel)%nat -> levels_ok ps index (drop index (bk_levels b)) es -> good es ->
  does tidy (finish_loop fuel index) b (finished ps es b).
Proof using All.
  induction fuel as [|fuel IH]; intros index ps b es H Hl Hfu Hls Hg; unfold does; cbn [finish_loop]; destruct (Nat.leb_spec (length (bk_levels b)) index) as [Hge|Hlt]; try lia.
  1,2: rewrite drop_ge in Hls by done; intros _; exists []; rewrite app_nil_r; split; [done|]; split; [done|by left].
  destruct (lookup_lt_is_Some_2 (bk_levels b) index Hlt) as [lv Hlv]. rewrite Hlv. cbn [unwrap]. rewrite sbind_slift_Ok.
  rewrite (drop_S _ _ _ Hlv) in Hls. destruct Hls as (e1 & e2 & -> & Hup & Hlv2 & Hheld). destruct (good_app _ _ Hg) as [_ Hg2].
  assert (bk_levels b = take index (bk_levels b) ++ lv :: drop (S index) (bk_levels b)) as Eb by (by rewrite <- (drop_S _ _ _ Hlv), take_drop).
  erewrite sbind_Ok; [|eapply (put_level_at index b); [exact Eb|rewrite length_take; lia]]. set (b1 := with_levels _ b).
  destruct (balance_last_ok ps index lv e2 Hlv2) as (nodes & -> & Hno & Hwd); [by destruct Hg2 as (_ & ? & _)|]. rewrite sbind_slift_Ok. cbv beta zeta.
  assert (file_ok ps b1) as H1 by (by apply file_with_levels).
  assert (drop (S index) (bk_levels b1) = drop (S index) (bk_levels b)) as Ed.
  { cbn [b1 with_levels bk_levels]. rewrite drop_app_ge by (rewrite length_take; lia). rewrite length_take. replace (S index - Init.Nat.min index (length (bk_levels b)))%nat with 1%nat by lia. done. }
  assert (length (bk_levels b1) = length (bk_levels b)) as El by (cbn [b1 with_levels bk_levels]; rewrite Eb at 3; rewrite !length_app; done).
  assert (Forall (fun o => wide (op_node o)) nodes -> does tidy (let! _ := pass_up index nodes in finish_loop fuel (S index)) b1 (finished ps (e1 ++ e2) b)) as Hpass.
  { intros Hw. eapply does_bind; [by eapply next_nonneg|apply mono_pass_up|intros _; apply mono_finish_loop|apply (pass_up_ok index nodes ps b1 e1 e2); try done; [lia|by rewrite Ed]|].
    intros _ b2 (more & H2 & R2 & L2 & Hup2). eapply does_mono; [apply (IH (S index) (ps ++ more) b2); try done; lia|].
    intros r b3 (more' & H3 & R3 & Hr). exists (more ++ more'). rewrite app_assoc. split; [done|]. split; [by rewrite R3, R2|done]. }
  rewrite Ed. assert (e1 <> [] -> Forall (fun o => wide (op_node o)) nodes) as Hwd' by auto. pose proof (levels_empty_es _ _ _ _ Hup) as Htop.
  destruct nodes as [|o [|o' nodes]].
  - apply Hpass. constructor.
  - destruct (forallb level_empty (drop (S index) (bk_levels b))); [|apply Hpass, Hwd'; intros E; by apply Htop in E].
    assert (e1 = []) as -> by (by apply Htop). cbn [app]. destruct Hno as (e & e' & E2 & Hn & _ & Hfit & E'). cbn in E'. rewrite E', app_nil_r in E2. subst e' e.
    destruct (op_node o) as [l|br] eqn:En; [exact (write_root_ok ps index (NLeaf l) e2 b1 H1 Hn I Hg2 Hfit)|].
    destruct index as [|d]; [done|]. destruct (Nat.eqb_spec (length (br_children br)) 1) as [E1|E1].
    + destruct (only_child_ok _ _ _ _ Hn E1) as (off & -> & Hr). intros _. exists []. by rewrite app_nil_r.
    + refine (write_root_ok ps (S d) (NBranch br) e2 b1 H1 Hn _ Hg2 Hfit). cbn. destruct Hn as (ss & _ & Hne & Ec & _ & Eb' & _). intros E. rewrite E in Eb'. rewrite Ec, length_fmap in E1. destruct ss as [|? [|]]; done.
  - apply Hpass, Hwd. right. cbn. lia.
Qed.

Lemma finish_tree_ok ps b es : file_ok ps b -> (length (bk_levels b) <= 64)%nat -> levels_ok ps 0 (bk_levels b) es -> good es ->
  does tidy finish_tree b (fun _ b' => exists more r, file_ok (ps ++ more) b' /\ bk_levels b' = [] /\ bk_roots b' = bk_roots b ++ [r] /\ rooted (ps ++ more) r es).
Proof using All.
  intros H Hl Hls Hg. unfold finish_tree, does.
  refine (does_bind tidy (finish_loop DEPTH 0) (fun root b => (Ok tt, mkBulk (bk_file b) (bk_next b) (bk_page_count b) (bk_crc b) [] (bk_roots b ++ [root]))) b (finished ps es b) _ _ (mono_finish_loop _ _) _ _ _).
  - by eapply next_nonneg.
  - intros r b' Hb'. done.
  - apply finish_loop_ok; [done|done|unfold DEPTH; lia|by rewrite drop_0|done].
  - intros r b' (more & H' & R & Hr) _. exists more, r. split; [by destruct H'|]. split; [done|]. cbn. split; [by rewrite R|done].
Qed.

(** ** Reading a tree into the builder *)

Definition push_all (es : entries) : SR Bulk unit := sfor (fun e => push_entry (key_new e.1) e.2) es.

Lemma mono_push_all es : mono (push_all es).
Proof using Type. induction es as [|e es IH]; [apply mono_ret|]. apply mono_bind; [apply mono_push_entry|done]. Qed.

Lemma push_all_ok es' : forall ps b es, file_ok ps b -> levels_ok ps 0 (bk_levels b) es -> (length (bk_levels b) <= 64)%nat -> good (es ++ es') ->
  does tidy (push_all es') b (fun _ b' => exists more, file_ok (ps ++ more) b' /\ bk_roots b' = bk_roots b /\ (length (bk_levels b') <= 64)%nat /\ levels_ok (ps ++ more) 0 (bk_levels b') (es ++ es')).
Proof using All.
  induction es' as [|[k v] es' IH]; intros ps b es H Hls Hl Hg.
  { apply does_ret. exists []. by rewrite !app_nil_r. }
  assert (good (es ++ [(k, v)])) as Hg1 by (change ((k, v) :: es') with ([(k, v)] ++ es') in Hg; rewrite app_assoc in Hg; by destruct (good_app _ _ Hg)).
  eapply does_bind; [by eapply next_nonneg|apply mono_push_entry|intros _; apply mono_push_all|by apply (push_entry_ok ps b es k v)|].
  intros _ b1 (more & H1 & R1 & _ & L1 & Hls1). rewrite drop_0 in Hls1. eapply does_mono; [apply (IH (ps ++ more) b1 (es ++ [(k, v)])); [done|done|lia|by rewrite <- app_assoc]|].
  intros _ b2 (more' & H2 & R2 & L2 & Hls2). exists (more ++ more'). rewrite app_assoc. split; [done|]. split; [by rewrite R2|]. split; [done|]. by rewrite <- (app_assoc es) in Hls2.
Qed.

Lemma sfor_app {S A B : Type} (f : A -> SR S B) l1 l2 s : sfor f (l1 ++ l2) s = (let! _ := sfor f l1 in sfor f l2) s.
Proof using Type.
  revert s; induction l1 as [|x l1 IH]; intros s; [done|]. cbn [app sfor]. unfold sbind in *. destruct (f x s) as [[?|?|] s']; [|done..]. apply IH.
Qed.

Lemma sfor_ext {S A B : Type} (f g : A -> SR S B) l : (forall x s, x ∈ l -> f x s = g x s) -> forall s, sfor f l s = sfor g l s.
Proof using Type.
  induction l as [|x l IH]; intros H s; [done|]. cbn [sfor]. unfold sbind. rewrite H by left. destruct (g x s) as [[?|?|] s']; [|done..]. apply IH. intros. apply H. by right.
Qed.

Lemma push_leaf ks vs b : sfor (fun kv => push_entry (key_new (k_bytes kv.1)) kv.2) (zip ks vs) b = push_all (zip (k_bytes <$> ks) vs) b.
Proof using Type.
  revert vs b; induction ks as [|k ks IH]; intros [|v vs] b; try done. cbn. unfold sbind. destruct (push_entry _ _ b) as [[?|?|] b']; [|done..]. apply IH.
Qed.

(** [visit] pushes the entries of a tree in order. *)
Lemma visit_push md src d : forall fuel root lo hi fp es b, tree_at md (reader src) d (Disk root) lo hi fp es -> (d < fuel)%nat -> visit fuel src root b = push_all es b.
Proof using Type.
  induction d as [|d IH]; intros [|fuel] root lo hi fp es b (n & Hn & _ & H) Hf; try lia; cbn [visit]; destruct n as [l|br]; try done; cbn [node] in Hn.
  - destruct H as (Hw & _ & -> & Hne & _). destruct (Z.eqb_spec root 0) as [->|Hr].
    { done. }
    unfold load in Hn. cbn [reader begin tx_file] in Hn. rewrite Hn, sbind_slift_Ok. apply push_leaf.
  - destruct H as (ss & Hfo & Ec & _ & H2 & _ & ->). destruct (Z.eqb_spec root 0) as [->|Hr]; [done|].
    unfold load in Hn. cbn [reader begin tx_file] in Hn. rewrite Hn, sbind_slift_Ok.
    pose proof (disk_children (reader src) root br) as Hdc. cbn [node] in Hdc. rewrite (proj2 (Z.eqb_neq root 0) Hr) in Hdc. unfold load in Hdc. cbn [reader begin tx_file] in Hdc.
    assert (forall s, s ∈ ss -> exists o, s_child s = Disk o) as Hdisk by (intros s Hs; apply Hdc; [done|]; rewrite Ec; apply list_elem_of_fmap; by exists s).
    rewrite Ec. clear Ec H2 Hdc Hn. revert b. generalize dependent (bounds lo (k_bytes <$> br_keys br) hi). induction ss as [|s ss IHs]; intros bs Hfo b; [done|].
    apply forest_cons_inv in Hfo as (lo' & hi' & bs' & -> & Hs & _ & _ & Hfo). destruct (Hdisk s) as [o Eo]; [left|]. rewrite Eo in Hs.
    cbn [fmap list_fmap sfor]. rewrite Eo, forest_es_cons. unfold push_all. rewrite sfor_app. unfold sbind. erewrite IH; [|exact Hs|lia]. unfold push_all.
    destruct (sfor _ (s_es s) b) as [[u|e|] b']; [|done..]. eapply IHs; [|exact Hfo]. intros. apply Hdisk. by right.
Qed.

Lemma visit_under fit src root es b : tree_under fit (reader src) t (Disk root) [] es -> len es <= u64_max -> visit DEPTH src root b = push_all es b.
Proof using Type.
  intros [([= ->] & _ & ->)|[d Ht]] Hl; [done|]. pose proof (tree_at_depth _ _ _ _ _ _ _ _ Ht Hl). eapply visit_push; [exact Ht|unfold DEPTH; lia].
Qed.

End Bulk.
