(* ===== verification/ZsetDir.v ===== *)
(** * Tree files by name ([zset_tree/maintain.rs], [store.rs] and [mod.rs])

    The operations that open files by path: applying a batch, rewinding, recovering,
    syncing and compacting.  A directory maps names to files; [dir_events] are the errors
    the operating system injects into the next directory operations, and [dir_fresh] the
    write faults of the files created next.  The exclusive lock of a writer is the order in
    which these operations run: each runs alone on the directory, and a compaction, which
    builds its file without the lock, runs in two parts with others in between.

    An open file is a [TreeFile]; [on_file] runs an operation on it and keeps the directory
    in step. *)

From Stdlib Require Import ZArith Lia.
From stdpp Require Import gmap strings pretty.
From S2P Require Import Prelude Bytes Crc IoBackend F64 ZsetFormat Assoc ZsetNode ZsetStore ZsetTree ZsetCommit ZsetOps ZsetMaintain ZsetBulk.

Record Dir : Type := mkDir {
  dir_files : gmap string IoBackend.Disk;
  dir_events : list (option string);
  dir_fresh : list (list (option (Z * string)));
}.

Definition with_files (files : gmap string IoBackend.Disk) (d : Dir) : Dir := mkDir files (dir_events d) (dir_fresh d).

(** The outcome of the next directory operation. *)
Definition dir_op (wrap : string -> string) : SR Dir unit := fun d =>
  match dir_events d with
  | [] => (Ok tt, d)
  | None :: ev => (Ok tt, mkDir (dir_files d) ev (dir_fresh d))
  | Some msg :: ev => (Err (wrap msg), mkDir (dir_files d) ev (dir_fresh d))
  end.

(** [open_read], [open_existing] and [open_read_locked]. *)
Definition open_existing (path : string) : SR Dir (option TreeFile) :=
  let! _ := dir_op (io_error "open") in
  fun d => (Ok (from_file <$> dir_files d !! path), d).

(** An operation on the open file, in place. *)
Definition on_file {A : Type} (path : string) (tf : TreeFile) (m : SR TreeFile A) : SR Dir (A * TreeFile) := fun d =>
  match m tf with
  | (Ok a, tf') => (Ok (a, tf'), with_files (<[path := tf_disk tf']> (dir_files d)) d)
  | (Err e, tf') => (Err e, with_files (<[path := tf_disk tf']> (dir_files d)) d)
  | (Panic, tf') => (Panic, with_files (<[path := tf_disk tf']> (dir_files d)) d)
  end.

(** [O_CREAT]. *)
Definition create (path : string) : SR Dir IoBackend.Disk := fun d =>
  match dir_files d !! path with
  | Some disk => (Ok disk, d)
  | None =>
      let disk := IoBackend.mkDisk [] (default [] (head (dir_fresh d))) false in
      (Ok disk, mkDir (<[path := disk]> (dir_files d)) (dir_events d) (tail (dir_fresh d)))
  end.

Definition temp_path (path suffix : string) : string := path +:+ suffix.
Definition TEMP_SUFFIXES : list string := [".compacting"; ".rewinding"; ".rewound"]%string.

Definition remove_stale (path : string) : SR Dir unit :=
  let! _ := dir_op (fun error => "zset tree: remove " +:+ path +:+ ": " +:+ error) in
  fun d => (Ok tt, with_files (delete path (dir_files d)) d).

Definition rename (from to : string) : SR Dir unit :=
  let! _ := dir_op (fun error => "zset tree: install rebuilt file: " +:+ error) in
  fun d => match dir_files d !! from with
           | Some disk => (Ok tt, with_files (<[to := disk]> (delete from (dir_files d))) d)
           | None => (Err "zset tree: install rebuilt file: No such file or directory (os error 2)", d)
           end.

Section WithCrc.
Context {C : Crc32fast}.

Definition open_write (path : string) : SR Dir TreeFile :=
  let! _ := dir_op (io_error "open") in
  let! disk := create path in
  let! r := on_file path (from_file disk) init_header in
  sret r.2.

(** Makes a rebuilt file durable and puts it in place. *)
Definition finish_rebuilt (path target_path : string) (target : TreeFile) (st : TreeState) : SR Dir unit :=
  let! r := on_file target_path target (
    let! _ := sync_file in
    let! _ := write_slot (mkHeaderSlot (add64 (ts_generation st) 1) (ts_frame_end st) (ts_frame_end st)) in
    sync_file) in
  let! _ := rename target_path path in
  dir_op (fun error => "zset tree: sync directory: " +:+ error).

(** ** Rewinding *)

Definition floor_error (token : Token) (floor : Z) : string :=
  "zset tree: entry " +:+ pretty (tk_index token) +:+ "." +:+ pretty (tk_ordinal token) +:+
  " is at or below the compacted file's floor (" +:+ pretty floor +:+ ")".

(** A token to the right of which the groups are undone: those before it, and those not. *)
Definition kept_groups (token : Token) (groups : list (Token * list LoggedOp)) : list (Token * list LoggedOp) :=
  filter (fun g => token_ltb g.1 token) groups.
Definition undone_groups (token : Token) (groups : list (Token * list LoggedOp)) : list (Token * list LoggedOp) :=
  filter (fun g => negb (token_ltb g.1 token)) groups.
Definition token_kept (token : Token) (kept : list (Token * list LoggedOp)) : Token :=
  match last kept with Some g => g.1 | None => mkToken (tk_index token) 0 end.

(** The changes to revert, newest first. *)
Definition undone_ops (undone : list (Token * list LoggedOp)) : list LoggedOp := reverse (mjoin (snd <$> undone)).

Definition with_token (token : Token) (t : Trailer) : Trailer :=
  mkTrailer (tr_score_root t) (tr_member_root t) (tr_count t) (tr_frame_start t) (tr_generation t) token (tr_body_crc t).

(** The base's tree in the scratch file, with the undone changes reverted. *)
Definition revert_base (file : TreeFile) (base : Trailer) (undone : list (Token * list LoggedOp)) (at_ : Token) : SR TreeFile Trailer :=
  let! copied := write_base file base undo_default in
  let! reverted := (fun step =>
    match revert_all (undone_ops undone) (begin step copied) with
    | (Ok _, tx) => commit tx at_ step
    | (Err e, _) => (Err e, step)
    | (Panic, _) => (Panic, step)
    end) in
  fun step =>
    (let? t := trailer_ending_at step (ts_frame_end reverted) in
     ok_or t "zset tree: rewind wrote a damaged frame", step).

Definition rewrite_below_base (path : string) (file : TreeFile) (base : FrameAt) (undo : UndoLog) (token : Token) : SR Dir unit :=
  if tk_index token <=? ul_floor undo then serr (floor_error token (ul_floor undo)) else
  let kept := kept_groups token (ul_groups undo) in
  let undone := undone_groups token (ul_groups undo) in
  let at_ := token_kept token kept in
  let step_path := temp_path path ".rewinding" in
  let! _ := remove_stale step_path in
  let! step := open_write step_path in
  let! r := on_file step_path step (revert_base file (fa_trailer base) undone at_) in
  let '(trailer, step) := r in
  let target_path := temp_path path ".rewound" in
  let! _ := remove_stale target_path in
  let! target := open_write target_path in
  let! r := on_file target_path target (write_base step (with_token at_ trailer) (mkUndoLog (ul_floor undo) kept)) in
  let! _ := finish_rebuilt path target_path r.2 r.1 in
  remove_stale step_path.

Inductive Rewound : Type := InPlace (st : TreeState) | Rewritten.

Definition rewind (path : string) (file : TreeFile) (st : TreeState) (token : Token) : SR Dir (Rewound * TreeFile) :=
  let! target := slift (rewind_loop (Z.to_nat (ts_frame_end st)) file (ts_frame_end st) token) in
  match target with
  | BelowBase frame undo =>
      let! _ := rewrite_below_base path file frame undo token in
      sret (Rewritten, file)
  | CutAt end_ =>
      let! r := on_file path file (cut_back st end_) in
      sret (InPlace r.1, r.2)
  end.

(** ** The calls of [mod.rs] *)

Definition op_member (op : Op) : option bytes :=
  match op with OpAdd member _ _ | OpIncr member _ _ | OpRemove member => Some member | OpPopMin _ | OpPopMax _ => None end.

Definition too_long (op : Op) : bool := match op_member op with Some member => MAX_MEMBER_LEN <? len member | None => false end.

Record Applied : Type := mkApplied { ap_outcomes : list Outcome; ap_state : TreeState }.

(** The transaction of [apply] on the open file. *)
Definition apply_tx (st : TreeState) (token : Token) (ops : list Op) : SR TreeFile Applied := fun file =>
  match tx_apply_all ops (begin file st) with
  | (Ok outcomes, tx) => (let! st := commit tx token in sret (mkApplied outcomes st)) file
  | (Err e, _) => (Err e, file)
  | (Panic, _) => (Panic, file)
  end.

Definition apply (path : string) (token : Token) (ops : list Op) : SR Dir Applied :=
  if existsb too_long ops then serr "zset tree: member too long" else
  let! file := open_write path in
  let! st := slift (state file) in
  let token := if tk_index token =? 0 then mkToken (add64 (tk_index (ts_token st)) 1) (Z.max (tk_ordinal token) 1) else token in
  let! r :=
    (if token_leb token (ts_token st) then
       let! r := rewind path file st token in
       match r.1 with
       | InPlace rewound => sret (r.2, rewound)
       | Rewritten =>
           let! file := open_write path in
           let! st := slift (state file) in
           sret (file, st)
       end
     else sret (file, st)) in
  let! applied := on_file path r.1 (apply_tx r.2 token ops) in
  sret applied.1.

Definition rewind_to (path : string) (token : Token) : SR Dir unit :=
  let! file := open_existing path in
  match file with
  | None => sret tt
  | Some file =>
      let! st := slift (state file) in
      if token_leb token (ts_token st) then let! _ := rewind path file st token in sret tt else sret tt
  end.

Definition file_stats (path : string) : SR Dir (option (Z * Z)) :=
  let! file := open_existing path in
  match file with
  | None => sret None
  | Some file =>
      let! first := slift (
        if HEADER_REGION + FRAME_HEADER_SIZE <=? tf_len file then
          let? bs := read_exact file HEADER_REGION FRAME_HEADER_SIZE in
          Ok (match frame_header_decode bs with Some header => frame_len header | None => 0 end)
        else Ok 0) in
      sret (Some (tf_len file, first))
  end.

(** [recover] and [sync] by path. *)
Definition recover_path (path : string) : SR Dir (option Recovery) :=
  let! file := open_existing path in
  match file with
  | None => sret None
  | Some file =>
      if tf_len file <? HEADER_REGION then
        let! _ := on_file path file (set_len 0) in
        let! file := open_write path in
        let! st := slift (state file) in
        sret (Some (mkRecovery 0 0 st))
      else let! r := on_file path file recover in sret (Some r.1)
  end.

Definition sync_path (path : string) : SR Dir bool :=
  let! file := open_existing path in
  match file with
  | None => sret false
  | Some file => let! r := on_file path file sync in sret r.1
  end.

(** ** Compaction *)

Record Compaction : Type := mkCompaction { bytes_before : Z; bytes_after : Z }.
Inductive Compacted : Type := Missing | Done (c : Compaction).

(** What the first part hands to the second: the base and the file being built. *)
Inductive compact_step : Type :=
| CompactEnd (c : Compacted)
| CompactBuilt (base : FrameAt) (target : TreeFile) (st : TreeState).

(** The part that runs without the lock. *)
Definition compact_build (path : string) (floor_index : Z) : SR Dir compact_step :=
  let! source := open_existing path in
  match source with
  | None => sret (CompactEnd Missing)
  | Some source =>
      let! latest := slift (state source) in
      if ts_frame_end latest =? HEADER_REGION then sret (CompactEnd (Done (mkCompaction (tf_len source) (tf_len source)))) else
      let! trailer := slift (let? t := trailer_ending_at source (ts_frame_end latest) in ok_or t "zset tree: compaction met a damaged frame") in
      let base := mkFrameAt (tr_frame_start trailer) (ts_frame_end latest) trailer in
      let! undo := slift (undo_log_after source (ts_frame_end latest) floor_index) in
      let target_path := temp_path path ".compacting" in
      let! _ := remove_stale target_path in
      let! target := open_write target_path in
      let! r := on_file target_path target (write_base source trailer undo) in
      sret (CompactBuilt base r.2 r.1)
  end.

(** The frames written meanwhile, replayed under their own tokens. *)
Fixpoint replay_frames (locked : TreeFile) (tail : list FrameAt) (st : TreeState) : SR TreeFile TreeState :=
  match tail with
  | [] => sret st
  | frame :: tail =>
      let! header := slift (frame_header locked (fa_start frame)) in
      if fh_base header then serr "zset tree: compaction met a base frame after its own" else
      let! ops := slift (let? bs := frame_ops locked frame header in decode_ops bs) in
      let! st := (fun target =>
        match replay_all ops (begin target st) with
        | (Ok _, tx) => commit tx (tr_token (fa_trailer frame)) target
        | (Err e, _) => (Err e, target)
        | (Panic, _) => (Panic, target)
        end) in
      replay_frames locked tail st
  end.

(** The part that holds the lock. *)
Definition compact_finish (path : string) (step : compact_step) : SR Dir Compacted :=
  match step with
  | CompactEnd c => sret c
  | CompactBuilt base target st =>
      let target_path := temp_path path ".compacting" in
      let! locked := open_existing path in
      match locked with
      | None =>
          let! _ := (fun d => (Ok tt, (remove_stale target_path d).2)) in
          sret Missing
      | Some locked =>
          let! latest := slift (state locked) in
          let! tail := slift (frames_after locked (ts_frame_end latest) base) in
          match tail with
          | None =>
              let! _ := (fun d => (Ok tt, (remove_stale target_path d).2)) in
              sret (Done (mkCompaction (tf_len locked) (tf_len locked)))
          | Some tail =>
              let! r := on_file target_path target (replay_frames locked tail st) in
              let! _ := finish_rebuilt path target_path r.2 r.1 in
              sret (Done (mkCompaction (tf_len locked) (ts_frame_end r.1)))
          end
      end
  end.

End WithCrc.
