(* ===== verification/ZsetApply.v ===== *)
(** * Applying batches to a tree file

    The theorems about zset_tree/mod.rs: a batch of operations applied to a file with a
    history of frames either becomes the next frame or leaves the history alone, and a
    batch that Raft replays is applied again from the state it first saw. *)

From Stdlib Require Import ZArith Lia.
From stdpp Require Import gmap strings pretty.
From S2P Require Import Prelude Bytes Crc IoBackend F64 ZsetFormat Assoc ZsetNode ZsetStore ZsetTree ZsetTreeProof ZsetTreeInsert ZsetTreeRemove ZsetCommit ZsetArena ZsetCommitProof ZsetTx ZsetOps ZsetOpsProof ZsetHistory ZsetMaintain ZsetFrames ZsetBulk ZsetDir.

Section Apply.
Context {C : Crc32fast} {CL : Crc32fastLaws C}.

Definition healthy (tf : TreeFile) : Prop := IoBackend.d_faults (tf_disk tf) = [].

Lemma sync_file_same tf tf' : sync_file tf = (Ok tt, tf') -> tf_data tf' = tf_data tf /\ tf_len tf' = tf_len tf.
Proof using Type.
  unfold sync_file, on_disk, IoBackend.sys_sync_data, IoBackend.sys_simple, tf_data. destruct (IoBackend.d_faults (tf_disk tf)) as [|[[k e]|] ev]; intros E; [..|done|]; injection E as <-; done.
Qed.

(** Sizes within the widths of the format: what a file can reach before its offsets or a
    frame's counters overflow. *)
Definition frame_room (st : TreeState) (tx : Tx) (token : Token) : Prop :=
  len (encode_ops (tx_log tx)) <= u32_max /\ ts_frame_end st + FRAME_HEADER_SIZE <= u64_max /\
  forall roots pages, write_trees tx = Ok (roots, pages) ->
    len pages <= u32_max /\ ts_frame_end st + len (commit_frame tx token roots pages) <= u64_max.

(** The transaction of a batch that goes through has room for its frame. *)
Definition batch_room (tf : TreeFile) (st : TreeState) (token : Token) (ops : list Op) : Prop :=
  ts_generation st < u64_max /\ forall outs tx, tx_apply_all ops (begin tf st) = (Ok outs, tx) -> frame_room st tx token.

Lemma room_can_commit tf st fit tx z token :
  zset_on tf st fit tx z -> tx_log tx <> [] -> token_ok token -> ts_generation st < u64_max -> frame_room st tx token -> can_commit st tx token (trees z).
Proof using Type.
  intros (_ & Hc & _ & _ & Hl) Hlog Htok Hgen (_ & Hfh & Hroom). split; [done|]. split; [intros t; rewrite len_trees; unfold u64_max; lia|].
  split; [done|]. split; [rewrite Hc; pose proof (len_nonneg z); unfold u64_ok, u64_max; lia|]. split; [done|]. split; [done|].
  intros roots pages Hw. by destruct (Hroom _ _ Hw).
Qed.

(** A commit on a healthy disk: the new frame, or an unchanged file when a node has
    outgrown its page. *)
Lemma commit_zset tf st h fit tx z token :
  history tf st h -> zset_on tf st fit tx z -> logged (set_of h) (tx_log tx) z -> tx_log tx <> [] -> token_ok token ->
  ts_generation st < u64_max -> frame_room st tx token -> healthy tf ->
  (exists st' tf' fr, commit tx token tf = (Ok st', tf') /\ history tf' st' (fr :: h) /\ healthy tf' /\ fr_set fr = z /\ fr_token fr = token /\ fh_base (fr_header fr) = false /\ decode_ops (fr_payload fr) = Ok (tx_log tx) /\ exists w, write_trees tx = Ok w) \/
  (exists e, write_trees tx = Err e /\ commit tx token tf = (Err e, tf)).
Proof using CL.
  intros Hh Hz Hlog Hne Htok Hgen Hroom Hf. pose proof (room_can_commit _ _ _ _ _ _ Hz Hne Htok Hgen Hroom) as Hcan.
  pose proof Hh as [Hp _]. pose proof Hz as (Hon & _ & _). pose proof Hroom as (Hsm & _ & Hrm).
  pose proof (write_trees_outcome fit tf st tx _ token Hp Hon Hcan) as Hw. destruct (write_trees tx) as [[roots pages]|e|] eqn:E; [| |done].
  - left. destruct (commit_healthy tx token tf roots pages Hf E) as (st' & tf' & Ec & Hf').
    pose proof (commit_steps fit tf st tx _ token roots pages Hp Hon Hcan E) as Hcm. rewrite Ec in Hcm.
    assert (small_frame tx) as Hsf by (split; [done|]; intros r p Hrp; rewrite E in Hrp; injection Hrp as <- <-; by destruct (Hrm _ _ eq_refl)).
    assert (ts_frame_end st <= ts_frame_end st') as Hle.
    { pose proof Hcm as (_ & _ & _ & _ & _ & _ & (r & p & Er & -> & _)). rewrite Er in E. injection E as <- <-. cbn [commit_state ts_frame_end].
      pose proof Hon as [_ (_ & -> & _)]. destruct (Hrm _ _ eq_refl) as [_ ?]. pose proof Hp as ([? _] & _). unfold HEADER_REGION in *.
      pose proof (len_nonneg (commit_frame tx token r p)). rewrite add64_small by lia. lia. }
    destruct (commit_history tf st h fit tx z token st' tf' Hh Hz Hlog Hne Htok Hsf Hcm Hle Hgen) as (fr & ? & ? & ? & ? & ?). exists st', tf', fr. split_and!; try done. by eexists.
  - right. exists e. split; [done|]. unfold commit. destruct (tx_log tx); [done|]. by rewrite E.
Qed.

(** ** Open files know their length *)

Definition tight (tf : TreeFile) : Prop := tf_len tf = len (tf_data tf).

Lemma from_file_tight tf : tight tf -> from_file (tf_disk tf) = tf.
Proof using Type. destruct tf as [disk n]. unfold tight, from_file, tf_data. cbn. by intros ->. Qed.

Lemma slot_write_tight s F F' : tight F -> HEADER_REGION <= tf_len F -> write_slot s F = (Ok tt, F') -> tight F'.
Proof using CL.
  unfold tight. intros Ht H4 E. destruct (write_slot_ok _ _ _ E) as [D L]. destruct (slot_offset_range s) as (? & ? & _).
  unfold HEADER_REGION, SLOT_SIZE in *. rewrite L, D, len_overwrite, len_slot_encode by lia. unfold SLOT_SIZE. lia.
Qed.

Lemma commit_tight tf st fit tx z token st' tf' :
  published tf st -> zset_on tf st fit tx z -> frame_room st tx token -> tight tf -> commit tx token tf = (Ok st', tf') -> tight tf'.
Proof using CL.
  intros Hp ([_ (_ & Hbase & _)] & _) (_ & _ & Hroom) Ht E. pose proof Hp as (Hfe & Hld & Hu & _). unfold commit in E. destruct (tx_log tx); [by injection E as <- <-|].
  apply sbind_Ok_inv in E as (w & F0 & E0 & E). injection E0 as Ew <-. destruct w as [roots pages]. cbv beta iota zeta in E. rewrite commit_frame_eq, Hbase in E.
  destruct (Hroom _ _ Ew) as [_ H64]. pose proof (len_nonneg (commit_frame tx token roots pages)). unfold HEADER_REGION in Hfe. rewrite add64_small in E by lia.
  apply sbind_Ok_inv in E as (u & F1 & E1 & E). destruct u. apply sbind_Ok_inv in E as (u & F2 & E2 & E). destruct u. injection E2 as <-.
  apply sbind_Ok_inv in E as (u & F3 & E3 & E). destruct u. injection E as _ <-. eapply (slot_write_tight _ _ _); [| |exact E3].
  - unfold tight in *. destruct (write_at_cases (ts_frame_end st) (commit_frame tx token roots pages) tf) as [(tf1 & Ew1 & D & L)|(tf1 & e & k & Ew1 & _)]; rewrite Ew1 in E1; [|done].
    injection E1 as ->. cbn [tf_len]. change (tf_data (mkTreeFile (tf_disk F1) _)) with (tf_data F1). rewrite D, L, len_overwrite by lia. lia.
  - cbn [tf_len]. unfold HEADER_REGION. lia.
Qed.

(** The error of a batch whose changes leave a node that does not fit its page. *)
Definition page_error (tf : TreeFile) (st : TreeState) (ops : list Op) : option string :=
  match tx_apply_all ops (begin tf st) with
  | (Ok _, tx) => match tx_log tx, write_trees tx with _ :: _, Err e => Some e | _, _ => None end
  | _ => None
  end.

(** The batch of [apply] on an open file. *)
Lemma apply_tx_history tf st h token ops :
  history tf st h -> healthy tf -> tight tf -> ops_fit ops (set_of h) -> token_ok token -> batch_room tf st token ops ->
  match spec_apply_all ops (set_of h) with
  | Ok (outs, z, changes) =>
      match page_error tf st ops with
      | Some e => apply_tx st token ops tf = (Err e, tf)
      | None =>
          (changes = [] /\ z = set_of h /\ apply_tx st token ops tf = (Ok (mkApplied outs st), tf)) \/
          (exists st' tf' fr, apply_tx st token ops tf = (Ok (mkApplied outs st'), tf') /\ history tf' st' (fr :: h) /\ healthy tf' /\ tight tf' /\
             changes <> [] /\ fr_set fr = z /\ fr_token fr = token /\ fh_base (fr_header fr) = false /\ decode_ops (fr_payload fr) = Ok changes)
      end
  | Err e => apply_tx st token ops tf = (Err e, tf)
  | Panic => False
  end.
Proof using CL.
  intros Hh Hf Htt Hfit Htok [Hgen Hroom]. pose proof (history_stored _ _ _ Hh) as Hst. pose proof Hst as (Hp & _ & _ & Hzok). pose proof (stored_begin _ _ _ _ Hst) as Hz.
  pose proof (tx_apply_all_on tf st Hp ops false (begin tf st) (set_of h) Hz Hfit) as H. unfold apply_tx, page_error.
  destruct (spec_apply_all ops (set_of h)) as [[[outs z] changes]|e|] eqn:Es; [|by destruct H as [tx' ->]|done].
  pose proof (spec_apply_all_logged ops (set_of h) _ Hzok Hfit Es) as Hlog. cbn in Hlog. destruct H as (tx & E & Hz' & Hl). cbn in Hl. rewrite E, Hl.
  destruct changes as [|op changes].
  - left. split; [done|]. inversion Hlog; subst. split; [done|]. unfold commit. rewrite Hl. pose proof Hz' as ([_ (_ & Hb & _)] & _). unfold sbind. by rewrite Hb.
  - destruct (commit_zset tf st h false tx z token) as [(st' & tf' & fr & Ec & ? & ? & ? & ? & ? & Hdec & w & Ew)|(e & Ew & Ec)]; try done; [by rewrite Hl|by rewrite Hl|by eapply Hroom|rewrite Ew..].
    + right. exists st', tf', fr. rewrite (sbind_Ok _ _ _ _ _ Ec). split; [done|]. split; [done|]. split; [done|]. rewrite Hl in Hdec. split; [|done]. eapply (commit_tight tf st false tx z token); [done|done|by eapply Hroom|done|exact Ec].
    + by rewrite (sbind_Err _ _ _ _ _ Ec).
Qed.

(** ** The directory *)

(** A healthy file at [path], with its history; nothing will fail. *)
Definition file_at (d : Dir) (path : string) (st : TreeState) (h : list Frame) : Prop :=
  dir_events d = [] /\ exists disk, dir_files d !! path = Some disk /\ IoBackend.d_faults disk = [] /\ history (from_file disk) st h.

Lemma with_files_same d path disk : dir_files d !! path = Some disk -> with_files (<[path := disk]> (dir_files d)) d = d.
Proof using Type. intros H. unfold with_files. rewrite insert_id by done. by destruct d. Qed.

Lemma open_write_existing d path st h : file_at d path st h -> exists tf, open_write path d = (Ok tf, d) /\ history tf st h /\ healthy tf /\ tight tf /\ dir_files d !! path = Some (tf_disk tf).
Proof using Type.
  intros (Hev & disk & Hd & Hf & Hh). exists (from_file disk). split; [|done]. unfold open_write, dir_op, sbind at 1. rewrite Hev. unfold create, sbind at 1. rewrite Hd.
  assert (init_header (from_file disk) = (Ok tt, from_file disk)) as Ei.
  { unfold init_header. pose proof Hh as [([? _] & _) _]. unfold HEADER_REGION in *. pose proof Hh as [([_ ?] & _) _]. destruct (Z.eqb_spec (tf_len (from_file disk)) 0); [lia|done]. }
  unfold sbind, on_file. rewrite Ei. cbn [tf_disk from_file]. by rewrite with_files_same.
Qed.

Lemma open_existing_file d path st h : file_at d path st h -> exists tf, open_existing path d = (Ok (Some tf), d) /\ history tf st h /\ healthy tf /\ tight tf /\ dir_files d !! path = Some (tf_disk tf).
Proof using Type.
  intros (Hev & disk & Hd & Hf & Hh). exists (from_file disk). split; [|done]. unfold open_existing, dir_op, sbind. rewrite Hev. by rewrite Hd.
Qed.

Lemma put_back d path tf st h : dir_events d = [] -> history tf st h -> healthy tf -> tight tf -> file_at (with_files (<[path := tf_disk tf]> (dir_files d)) d) path st h.
Proof using Type.
  intros Hev Hh Hf Ht. split; [done|]. exists (tf_disk tf). cbn. rewrite lookup_insert_eq. split; [done|]. split; [done|]. by rewrite from_file_tight.
Qed.

(** ** Rewinds above the base *)

(** [token] is newer than every base frame. *)
Definition above_base (token : Token) (h : list Frame) : Prop := forall fr, fr ∈ h -> fh_base (fr_header fr) = true -> token_ltb (fr_token fr) token = true.

Lemma rewind_in_place d path tf st h token :
  history tf st h -> healthy tf -> tight tf -> above_base token h -> ts_generation st < u64_max ->
  exists st' tf', rewind path tf st token d = (Ok (InPlace st', tf'), with_files (<[path := tf_disk tf']> (dir_files d)) d) /\
    history tf' st' (before token h) /\ healthy tf' /\ tight tf' /\ ts_generation st' = ts_generation st + 1.
Proof using CL.
  intros Hh Hf Ht Hab Hgen. pose proof Hh as [Hp Hc]. pose proof Hp as ([Hfe Hfl] & _). unfold rewind.
  destruct (rewind_loop_chain tf token h (Z.to_nat (ts_frame_end st)) (ts_frame_end st)) as [->|(fr & undo & Hin & _ & Hb & _ & Htok & _)]; [done|done|unfold HEADER_REGION in *; lia| |].
  2:{ by rewrite (Hab fr Hin Hb) in Htok. }
  rewrite sbind_slift_Ok. destruct (chain_before _ _ _ token Hc) as [Hc' Hle].
  destruct (cut_back_history tf st h (before token h) Hh Hc' Hle Hgen Hf) as (tf' & E & Hh' & Hf' & L1 & L2).
  exists (state_at (before token h) (ts_generation st + 1) (Z.min (ts_synced_frame_end st) (end_of (before token h)))), tf'.
  split; [unfold sbind, on_file; by rewrite E|]. split; [done|]. split; [done|]. split; [unfold tight; lia|]. by destruct (before token h).
Qed.

(** ** Batches by path *)

(** The part of [apply] before the batch: the file cut back to before the token. *)
Definition rewound_to (path : string) (token : Token) : SR Dir (TreeFile * TreeState) :=
  let! file := open_write path in
  let! st := slift (state file) in
  if token_leb token (ts_token st) then
    let! r := rewind path file st token in
    match r.1 with
    | InPlace rewound => sret (r.2, rewound)
    | Rewritten =>
        let! file := open_write path in
        let! st := slift (state file) in
        sret (file, st)
    end
  else sret (file, st).

Lemma apply_rewound path token ops d : existsb too_long ops = false -> tk_index token <> 0 ->
  ZsetDir.apply path token ops d = (let! r := rewound_to path token in let! applied := on_file path r.1 (apply_tx r.2 token ops) in sret applied.1) d.
Proof using Type.
  intros Hl Hi. unfold ZsetDir.apply, rewound_to. rewrite Hl. destruct (Z.eqb_spec (tk_index token) 0); [done|].
  unfold sbind, slift. destruct (open_write path d) as [[file|e|] d']; [|done..]. destruct (state file) as [st|e|]; done.
Qed.

Lemma token_leb_ltb a b : token_leb a b = negb (token_ltb b a).
Proof using Type. unfold token_leb, token_ltb, token_compare. rewrite (Z.compare_antisym (tk_index a) (tk_index b)), (Z.compare_antisym (tk_ordinal a) (tk_ordinal b)). by destruct (tk_index a ?= tk_index b), (tk_ordinal a ?= tk_ordinal b). Qed.

Lemma token_ltb_trans a b c : token_ltb a b = true -> token_ltb b c = true -> token_ltb a c = true.
Proof using Type.
  unfold token_ltb, token_compare. destruct (Z.compare_spec (tk_index a) (tk_index b)), (Z.compare_spec (tk_index b) (tk_index c)), (Z.compare_spec (tk_index a) (tk_index c)); try lia; try done;
    destruct (Z.compare_spec (tk_ordinal a) (tk_ordinal b)), (Z.compare_spec (tk_ordinal b) (tk_ordinal c)), (Z.compare_spec (tk_ordinal a) (tk_ordinal c)); try lia; done.
Qed.
Lemma token_ltb_leb_trans a b c : token_ltb a b = true -> token_leb b c = true -> token_ltb a c = true.
Proof using Type.
  rewrite token_leb_ltb. unfold token_ltb, token_compare. destruct (Z.compare_spec (tk_index a) (tk_index b)), (Z.compare_spec (tk_index c) (tk_index b)), (Z.compare_spec (tk_index a) (tk_index c)); try lia; try done;
    destruct (Z.compare_spec (tk_ordinal a) (tk_ordinal b)), (Z.compare_spec (tk_ordinal c) (tk_ordinal b)), (Z.compare_spec (tk_ordinal a) (tk_ordinal c)); try lia; done.
Qed.

Lemma before_newer token h g s : token_leb token (ts_token (state_at h g s)) = false -> before token h = h.
Proof using Type. destruct h as [|fr h]; [done|]. cbn [state_at ts_token before]. rewrite token_leb_ltb. fold (fr_token fr). by destruct (token_ltb (fr_token fr) token). Qed.

Lemma before_before token h : before token (before token h) = before token h.
Proof using Type. induction h as [|fr h IH]; [done|]. cbn [before]. destruct (token_ltb (fr_token fr) token) eqn:E; [|done]. cbn [before]. by rewrite E. Qed.

Lemma before_own fr h token : fr_token fr = token -> before token (fr :: h) = before token h.
Proof using Type. intros <-. cbn [before]. unfold token_ltb, token_compare. by rewrite !Z.compare_refl. Qed.

(** No other file is touched. *)
Definition elsewhere (path : string) (d d' : Dir) : Prop := forall p, p <> path -> dir_files d' !! p = dir_files d !! p.

Lemma elsewhere_put d path disk d0 : elsewhere path d0 d -> elsewhere path d0 (with_files (<[path := disk]> (dir_files d)) d).
Proof using Type. intros H p Hp. cbn. rewrite lookup_insert_ne by done. by apply H. Qed.

Lemma rewound_to_history d path st h token :
  file_at d path st h -> above_base token h -> ts_generation st < u64_max ->
  exists tf' st' d', rewound_to path token d = (Ok (tf', st'), d') /\ dir_events d' = [] /\ history tf' st' (before token h) /\ healthy tf' /\ tight tf' /\ elsewhere path d d' /\ ts_generation st' <= ts_generation st + 1.
Proof using CL.
  intros Hat Hab Hgen. pose proof Hat as [Hev _]. destruct (open_write_existing _ _ _ _ Hat) as (tf & Eo & Hh & Hf & Ht & _). pose proof Hh as [Hp _].
  unfold rewound_to. rewrite (sbind_Ok _ _ _ _ _ Eo), (published_state _ _ Hp), sbind_slift_Ok. destruct (token_leb token (ts_token st)) eqn:El.
  - destruct (rewind_in_place d path tf st h token Hh Hf Ht Hab Hgen) as (st' & tf' & Er & Hh' & Hf' & Ht' & Hg').
    rewrite (sbind_Ok _ _ _ _ _ Er). eexists tf', st', _. split_and!; try done; [by apply elsewhere_put|lia].
  - exists tf, st, d. rewrite (before_newer token h (ts_generation st) (ts_synced_frame_end st)); [split_and!; try done; lia|]. by rewrite <- (history_state _ _ _ Hh).
Qed.

(** A batch that can be applied at [token]: its token and sizes are within the format, and
    the file that the rewind leaves has room for its frame. *)
Record batch_ok (d : Dir) (path : string) (st : TreeState) (h : list Frame) (token : Token) (ops : list Op) : Prop := {
  bo_token : token_ok token /\ tk_index token <> 0;
  bo_above : above_base token h;
  bo_members : existsb too_long ops = false;
  bo_fit : ops_fit ops (set_of (before token h));
  bo_generation : ts_generation st < u64_max;
  bo_room : forall tf' st' d', rewound_to path token d = (Ok (tf', st'), d') -> batch_room tf' st' token ops }.

(** The state and frames that [apply] leaves in the directory. *)
Definition left_at (d : Dir) (path : string) (h : list Frame) : Prop := exists st, file_at d path st h.

(** The frames after a batch at [token] that makes [changes] and leaves [z]: those before
    the token, and on them one with the changes unless there are none. *)
Definition appended (token : Token) (h : list Frame) (changes : list LoggedOp) (z : zset) (h' : list Frame) : Prop :=
  match changes with
  | [] => h' = before token h
  | _ => exists fr, h' = fr :: before token h /\ fr_token fr = token /\ fh_base (fr_header fr) = false /\ fr_set fr = z /\ decode_ops (fr_payload fr) = Ok changes
  end.

(** Weaker: the frames before the token, and at most its own. *)
Definition grown (token : Token) (h h' : list Frame) : Prop :=
  h' = before token h \/ exists fr, h' = fr :: before token h /\ fr_token fr = token /\ fh_base (fr_header fr) = false.

Lemma appended_grown token h changes z h' : appended token h changes z h' -> grown token h h'.
Proof using Type. destruct changes; [by left|]. intros (fr & -> & ? & ? & _). right. by exists fr. Qed.

Lemma grown_before token h h' : grown token h h' -> before token h' = before token h.
Proof using Type. intros [->|(fr & -> & Ht & _)]; [apply before_before|]. by rewrite before_own, before_before. Qed.

Lemma before_subset token h fr : fr ∈ before token h -> fr ∈ h.
Proof using Type. induction h as [|fr0 h IH]; cbn [before]; [done|]. destruct (token_ltb _ _); [done|]. intros ?%IH. by right. Qed.

Lemma grown_above token t h h' : grown token h h' -> above_base t h -> above_base t h'.
Proof using Type.
  intros [->|(fr & -> & _ & Hb)] Hab f; [intros ?%before_subset; by apply Hab|]. intros [->|?%before_subset]%elem_of_cons; [by rewrite Hb|by apply Hab].
Qed.

(** The page error of a batch at [token] on the file at [path]. *)
Definition batch_page_error (path : string) (token : Token) (ops : list Op) (d : Dir) : option string :=
  match rewound_to path token d with (Ok (tf, st), _) => page_error tf st ops | _ => None end.

Lemma apply_outcome d path st h token ops :
  file_at d path st h -> batch_ok d path st h token ops ->
  match spec_apply_all ops (set_of (before token h)) with
  | Ok (outs, z, changes) =>
      match batch_page_error path token ops d with
      | Some e => exists d', ZsetDir.apply path token ops d = (Err e, d') /\ left_at d' path (before token h) /\ elsewhere path d d'
      | None => exists st' d' h', ZsetDir.apply path token ops d = (Ok (mkApplied outs st'), d') /\ file_at d' path st' h' /\ elsewhere path d d' /\
          set_of h' = z /\ appended token h changes z h'
      end
  | Err e => exists d', ZsetDir.apply path token ops d = (Err e, d') /\ left_at d' path (before token h) /\ elsewhere path d d'
  | Panic => False
  end.
Proof using CL.
  intros Hat [[Htok Hidx] Hab Hl Hfit Hgen Hroom]. destruct (rewound_to_history _ _ _ _ _ Hat Hab Hgen) as (tf & st' & d' & Er & Hev & Hh & Hf & Ht & Hel & _).
  pose proof (apply_tx_history tf st' _ token ops Hh Hf Ht Hfit Htok (Hroom _ _ _ Er)) as H. rewrite (apply_rewound _ _ _ _ Hl Hidx), (sbind_Ok _ _ _ _ _ Er). unfold batch_page_error. rewrite Er. cbn [fst snd].
  assert (forall e, apply_tx st' token ops tf = (Err e, tf) -> exists d2, (let! applied := on_file path tf (apply_tx st' token ops) in sret applied.1) d' = (Err e, d2) /\ left_at d2 path (before token h) /\ elsewhere path d d2) as He.
  { intros e E. unfold sbind, on_file. rewrite E. eexists. split; [done|]. split; [exists st'; by apply put_back|by apply elsewhere_put]. }
  destruct (spec_apply_all ops (set_of (before token h))) as [[[outs z] changes]|e|]; [|by apply He|done].
  destruct (page_error tf st' ops) as [e|]; [by apply He|]. destruct H as [(-> & -> & E)|(st2 & tf2 & fr & E & Hh2 & Hf2 & Ht2 & Hne & Hs & Hk & Hb & Hd)].
  - eexists st', _, (before token h). unfold sbind, on_file. rewrite E. split; [done|]. split; [by apply put_back|]. split; [by apply elsewhere_put|done].
  - eexists st2, _, (fr :: before token h). unfold sbind, on_file. rewrite E. split; [done|]. split; [by apply put_back|]. split; [by apply elsewhere_put|].
    split; [done|]. destruct changes; [done|]. by exists fr.
Qed.

End Apply.
