(* ===== verification/ZsetReplay.v ===== *)
(** * Batches depend on the frames they see

    A transaction reads a file only behind the header and, below the frame it started
    from, only pages of older frames.  So a run that goes through on the file cut at that
    frame goes through with the same results on every file with the same frames, whatever
    was appended, cut off or written into the header slots since.  That makes the replay
    of a batch produce the frame it produced the first time. *)

From Stdlib Require Import ZArith Lia.
From stdpp Require Import gmap strings.
From S2P Require Import Prelude Bytes Crc IoBackend F64 ZsetFormat Assoc ZsetNode ZsetStore ZsetTree ZsetTreeProof ZsetCommit ZsetArena ZsetCommitProof ZsetTx ZsetOps ZsetOpsProof ZsetHistory ZsetMaintain ZsetFrames ZsetBulk ZsetDir ZsetApply.

Create HintDb steady.

(** [r'] succeeds with what [r] succeeds with. *)
Definition gives {A : Type} (r r' : result A) : Prop := forall a, r = Ok a -> r' = Ok a.

Lemma gives_refl {A : Type} (r : result A) : gives r r.
Proof. by intros a. Qed.
Lemma gives_bind {A B : Type} (r r' : result A) (k k' : A -> result B) : gives r r' -> (forall a, gives (k a) (k' a)) -> gives (rbind r k) (rbind r' k').
Proof. intros Hr Hk b. destruct r as [a|e|] eqn:E; [|done..]. rewrite (Hr a eq_refl). apply Hk. Qed.
#[export] Hint Resolve gives_refl : steady.

(** Walks two runs of the same code, one over each reader. *)
Ltac give := repeat first [done | progress eauto with steady | apply gives_bind; [|intros ?] | case_match].

(** ** Pages read in place *)

Section Views.
Context (ro ro' : Z -> Z -> result bytes).
Hypothesis Hro : forall h n, gives (ro h n) (ro' h n).

Lemma gives_stored_bytes k : gives (stored_bytes ro k) (stored_bytes ro' k).
Proof using Hro. destruct k; cbn [stored_bytes]; give. Qed.
Lemma gives_stored_cmp k key : gives (stored_cmp ro k key) (stored_cmp ro' k key).
Proof using Hro. pose proof gives_stored_bytes. unfold stored_cmp. give. Qed.

Lemma gives_view_key v i : gives (view_key ro v i) (view_key ro' v i).
Proof using Hro. pose proof gives_stored_bytes. unfold view_key. give. Qed.
Lemma gives_view_search v key : gives (view_search ro v key) (view_search ro' v key).
Proof using Hro.
  pose proof gives_stored_cmp. assert (forall fuel low high, gives (view_search_loop ro fuel v key low high) (view_search_loop ro' fuel v key low high)) as Hl; [|apply Hl].
  induction fuel as [|fuel IH]; intros low high; cbn [view_search_loop]; give.
Qed.
Lemma gives_view_child_index v key : gives (view_child_index ro v key) (view_child_index ro' v key).
Proof using Hro.
  pose proof gives_stored_cmp. assert (forall fuel low high, gives (view_child_index_loop ro fuel v key low high) (view_child_index_loop ro' fuel v key low high)) as Hl; [|apply Hl].
  induction fuel as [|fuel IH]; intros low high; cbn [view_child_index_loop]; give.
Qed.

End Views.
#[export] Hint Resolve gives_view_key gives_view_search gives_view_child_index : steady.

Section Replay.
Context {C : Crc32fast}.

(** The transaction on another file and state, with the same nodes. *)
Definition moved (F : TreeFile) (st : TreeState) (tx : Tx) : Tx := mkTx F st (tx_nodes tx) (tx_roots tx) (tx_count tx) (tx_log tx).

Definition steady_read {A : Type} (r : Tx -> result A) : Prop := forall tx F st, reads (tx_file tx) F -> gives (r tx) (r (moved F st tx)).

Definition steady {A : Type} (m : SR Tx A) : Prop := forall tx a tx1 F st,
  reads (tx_file tx) F -> m tx = (Ok a, tx1) -> m (moved F st tx) = (Ok a, moved F st tx1) /\ tx_file tx1 = tx_file tx.

Lemma steady_ret {A : Type} (a : A) : steady (sret a).
Proof using Type. intros tx b tx1 F st _ [= <- <-]. done. Qed.
Lemma steady_lift {A : Type} (r : result A) : steady (slift r).
Proof using Type. intros tx b tx1 F st _ [= -> <-]. done. Qed.
Lemma steady_err {A : Type} e : steady (serr e : SR Tx A).
Proof using Type. by intros tx b tx1 F st _ [=]. Qed.
Lemma steady_bind {A B : Type} (m : SR Tx A) (k : A -> SR Tx B) : steady m -> (forall a, steady (k a)) -> steady (sbind m k).
Proof using Type.
  intros Hm Hk tx b tx2 F st Hr (a & tx1 & E1 & E2)%sbind_Ok_inv. destruct (Hm _ _ _ _ st Hr E1) as [E1' Hf]. rewrite <- Hf in Hr.
  destruct (Hk _ _ _ _ _ st Hr E2) as [E2' Hf2]. rewrite (sbind_Ok _ _ _ _ _ E1'). split; [done|congruence].
Qed.
Lemma steady_reading {A : Type} (r : Tx -> result A) : steady_read r -> steady (fun tx => (r tx, tx)).
Proof using Type. intros Hr tx a tx1 F st HF [= E <-]. by rewrite (Hr _ _ _ HF _ E). Qed.
Lemma steady_ext {A : Type} (m k : SR Tx A) : (forall tx, m tx = k tx) -> steady k -> steady m.
Proof using Type. intros E Hk tx a tx1 F st Hr. rewrite !E. by apply Hk. Qed.
(** Code that starts from a part of the transaction that does not depend on the file. *)
Lemma steady_from {A B : Type} (f : Tx -> B) (m : SR Tx A) :
  (forall tx F st, f (moved F st tx) = f tx) -> (forall b, exists k, (forall tx, f tx = b -> m tx = k tx) /\ steady k) -> steady m.
Proof using Type.
  intros Hf Hk tx a tx1 F st Hr. destruct (Hk (f tx)) as (k & E & Hs). rewrite (E tx eq_refl), (E (moved F st tx)) by apply Hf. by apply Hs.
Qed.

(** ** Reads *)

Lemma gives_page tx F st o : reads (tx_file tx) F -> gives (page tx o) (page (moved F st tx) o).
Proof using Type. intros Hr. unfold page. case_match; [give|]. intros pg. by apply read_page_reads. Qed.
Lemma gives_overflow tf F h n : reads tf F -> gives (read_overflow tf h n) (read_overflow F h n).
Proof using Type. intros Hr bs. by apply read_overflow_reads. Qed.
#[local] Hint Resolve gives_page gives_overflow : steady.

Lemma steady_node c : steady_read (fun tx => node tx c).
Proof using Type. intros tx F st Hr n. destruct c as [o|i]; [by apply (node_reads tx (moved F st tx))|done]. Qed.

Lemma steady_get t key : steady_read (fun tx => get tx t key).
Proof using Type.
  intros tx F st Hr. unfold get. change (root (moved F st tx) t) with (root tx t). case_match; [give|]. generalize (root tx t). generalize DEPTH as fuel.
  induction fuel as [|fuel IH]; intros c; cbn [get_loop]; [give|]. destruct c as [o|i]; cbn [moved tx_nodes tx_file]; give.
Qed.

Lemma gives_push_entries f g : (forall i, gives (f i) (g i)) -> forall n start, gives (push_entries f start n) (push_entries g start n).
Proof using Type. intros H. induction n as [|n IH]; intros start; cbn [push_entries]; give. Qed.
Lemma gives_range_children rec rec' count child : (forall c s e, gives (rec c s e) (rec' c s e)) ->
  forall n i offset start end_, gives (range_children rec count child i n offset start end_) (range_children rec' count child i n offset start end_).
Proof using Type. intros H. induction n as [|n IH]; intros i offset start end_; cbn [range_children]; give. Qed.

Lemma steady_range t start end_ : steady_read (fun tx => range tx t start end_).
Proof using Type.
  intros tx F st Hr. unfold range. change (root (moved F st tx) t) with (root tx t). case_match; [give|]. case_match; [|give].
  generalize (root tx t), start, end_. generalize DEPTH as fuel. induction fuel as [|fuel IH]; intros c s e; cbn [range_rec]; [give|].
  pose proof gives_range_children as Hc. assert (forall f g a b n, (forall i, gives (f i) (g i)) -> gives (push_range f a b n) (push_range g a b n)) as Hp by (intros; by apply gives_push_entries).
  destruct c as [o|i]; cbn [node moved tx_nodes tx_file]; apply gives_bind; [give| |give|].
  - intros pg. apply gives_bind; [give|]. intros v. case_match; [apply Hp; intros ?; give|by apply Hc].
  - intros [l|b]; [apply Hp; intros ?; give|by apply Hc].
Qed.

Lemma steady_entries t start end_ rev : steady_read (fun tx => tx_entries tx t start end_ rev).
Proof using Type. intros tx F st Hr. unfold tx_entries. apply gives_bind; [by apply steady_range|]. intros ?. give. Qed.
Lemma steady_score member : steady_read (fun tx => tx_score tx member).
Proof using Type. intros tx F st Hr. unfold tx_score. apply gives_bind; [by apply steady_get|]. intros ?. give. Qed.
Lemma steady_hand_over fuel c : steady_read (fun tx => hand_over fuel tx c).
Proof using Type.
  intros tx F st Hr. revert c. induction fuel as [|fuel IH]; intros c; cbn [hand_over]; [give|]. apply gives_bind; [by apply steady_node|]. intros ?. give.
Qed.

(** ** Changes *)

#[local] Hint Resolve steady_ret steady_lift steady_err steady_bind steady_reading steady_node steady_get steady_entries steady_score steady_hand_over : steady.
Ltac steady := repeat first [done | progress eauto with steady | apply steady_bind; [|intros ?] | case_match].

Lemma steady_set_root t c : steady (set_root t c).
Proof using Type. intros tx a tx1 F st _ [= <- <-]. done. Qed.
Lemma steady_log op : steady (log op).
Proof using Type. intros tx a tx1 F st _ [= <- <-]. done. Qed.
Lemma steady_push n : steady (push n).
Proof using Type. intros tx a tx1 F st _ [= <- <-]. done. Qed.
Lemma steady_get_node i : steady (get_node i).
Proof using Type. intros tx a tx1 F st _ [= E <-]. unfold get_node. cbn. by rewrite E. Qed.
Lemma steady_put_node i n : steady (put_node i n).
Proof using Type. intros tx a tx1 F st _. unfold put_node. cbn. destruct (vec_set i n (tx_nodes tx)); [|done..]. intros [= <- <-]. done. Qed.
Lemma steady_make_dirty c : steady (make_dirty c).
Proof using Type.
  intros tx a tx1 F st Hr. destruct c as [o|i]; cbn [make_dirty]; [|by intros [= <- <-]]. pose proof (steady_node (Disk o) tx F st Hr) as Hn. cbn [node] in Hn.
  destruct (o =? 0); [by intros [= <- <-]|]. destruct (load tx o) as [n|e|]; [|done..]. rewrite (Hn n eq_refl). by intros [= <- <-].
Qed.
Lemma steady_read_node c : steady (read_node c).
Proof using Type. unfold read_node. steady. Qed.
#[local] Hint Resolve steady_set_root steady_log steady_push steady_get_node steady_put_node steady_make_dirty steady_read_node : steady.

Lemma steady_split_if_full i n : steady (split_if_full i n).
Proof using Type. unfold split_if_full, split_leaf, split_branch. steady. Qed.
#[local] Hint Resolve steady_split_if_full : steady.

Lemma steady_insert_rec fuel c key value : steady (insert_rec fuel c key value).
Proof using Type. revert c; induction fuel as [|fuel IH]; intros c; cbn [insert_rec]; steady. Qed.
Lemma steady_insert t key value : steady (ZsetTree.insert t key value).
Proof using Type.
  pose proof steady_insert_rec. apply (steady_from (fun tx => root tx t)); [done|]. intros c. eexists. split; [intros tx Hc; unfold ZsetTree.insert; rewrite Hc; reflexivity|]. steady.
Qed.

Lemma steady_rebalance i j : steady (rebalance i j).
Proof using Type. unfold rebalance, merge_children, get_branch. steady. Qed.
#[local] Hint Resolve steady_rebalance : steady.
Lemma steady_remove_rec fuel c key : steady (remove_rec fuel c key).
Proof using Type. revert c; induction fuel as [|fuel IH]; intros c; cbn [remove_rec]; unfold get_branch; steady. Qed.
Lemma steady_remove t key : steady (remove t key).
Proof using Type.
  pose proof steady_remove_rec. apply (steady_from (fun tx => root tx t)); [done|]. intros c.
  exists (let! found := (fun tx => (get tx t key, tx)) in
          match found with
          | None => sret None
          | Some _ =>
              let! r := remove_rec DEPTH c key in let! new_root := (fun tx => (hand_over DEPTH tx r.1, tx)) in
              let! _ := set_root t new_root in sret (Some r.2)
          end).
  split; [|steady]. intros tx <-. unfold remove, sbind. by destruct (get tx t key) as [[v|]|e|].
Qed.
#[local] Hint Resolve steady_insert steady_remove : steady.

Lemma steady_count_up : steady count_up.
Proof using Type. intros tx a tx1 F st _ [= <- <-]. done. Qed.
Lemma steady_count_down : steady count_down.
Proof using Type. intros tx a tx1 F st _ [= <- <-]. done. Qed.
#[local] Hint Resolve steady_count_up steady_count_down : steady.

Lemma steady_tx_set member score : steady (tx_set member score).
Proof using Type. unfold tx_set, reading. steady. Qed.
Lemma steady_tx_delete member : steady (tx_delete member).
Proof using Type. unfold tx_delete, reading. steady. Qed.
#[local] Hint Resolve steady_tx_set steady_tx_delete : steady.
Lemma steady_delete_all popped : steady (delete_all popped).
Proof using Type. induction popped as [|[m s] popped IH]; cbn [delete_all]; steady. Qed.
#[local] Hint Resolve steady_delete_all : steady.

Lemma steady_tx_apply op : steady (tx_apply op).
Proof using Type.
  destruct op; cbn [tx_apply]; unfold apply_add, apply_incr, reading; [steady|steady|steady|..].
  all: apply (steady_from tx_count); [done|]; intros c; eexists; split; [intros tx Hc; rewrite Hc; reflexivity|steady].
  apply steady_reading. intros tx F st Hr. exact (steady_entries _ _ _ _ tx F st Hr).
Qed.
Lemma steady_tx_apply_all ops : steady (tx_apply_all ops).
Proof using Type. pose proof steady_tx_apply. induction ops as [|op ops IH]; cbn [tx_apply_all]; steady. Qed.

End Replay.

(** ** The same frames in another file *)

Section Same.
Context {C : Crc32fast} {CL : Crc32fastLaws C}.

Lemma chain_bytes F1 F2 e h : chain F1 e h -> chain F2 e h -> zslice (tf_data F1) HEADER_REGION e = zslice (tf_data F2) HEADER_REGION e.
Proof using CL.
  revert e; induction h as [|fr h IH]; intros e; cbn [chain].
  - intros -> _. unfold zslice. by rewrite !ztake_0 by lia.
  - intros (-> & Hw & Hi1 & _ & Hc1) (_ & _ & Hi2 & _ & Hc2). pose proof (fr_end_bounds _ _ Hw Hi1) as (? & ? & _ & ?). unfold FRAME_HEADER_SIZE, TRAILER_SIZE, HEADER_REGION in *.
    rewrite <- (zslice_join _ _ (fr_start fr)), <- (zslice_join (tf_data F2) _ (fr_start fr)) by lia. rewrite (IH _ Hc1 Hc2), (fi_bytes _ _ Hi1), (fi_bytes _ _ Hi2). done.
Qed.

(** A file with the same frames reads, below their end, the same pages. *)
Lemma chain_reads F1 F2 e h : chain F1 e h -> chain F2 e h -> e <= len (tf_data F2) -> e <= tf_len F2 -> reads (limit F1 e) F2.
Proof using CL.
  intros H1 H2 Hd Hl o n bs Ho (Hn & Hu & Hg)%read_exact_inv. cbn [limit tf_len] in Hn. change (tf_data (limit F1 e)) with (tf_data F1) in Hg.
  pose proof (chain_bytes _ _ _ _ H1 H2) as E. assert (0 <= HEADER_REGION) by (unfold HEADER_REGION; lia). apply read_exact_intro; [lia|done|].
  apply get_range_inv in Hg as (? & ? & ? & ->). rewrite (zslice_sub (tf_data F1) HEADER_REGION e), E, <- zslice_sub by lia. apply get_range_Some; lia.
Qed.

Lemma published_limit tf st : published tf st -> published (limit tf (ts_frame_end st)) st.
Proof using Type. intros (H1 & H2 & H3 & H4). split; [cbn; lia|]. split; [cbn; change (tf_data (limit tf (ts_frame_end st))) with (tf_data tf); lia|]. split; [cbn; lia|exact H4]. Qed.
Lemma stored_limit fit tf st z : stored fit tf st z -> stored fit (limit tf (ts_frame_end st)) st z.
Proof using Type. intros (Hp & Ht & H). split; [by apply published_limit|]. split; [exact Ht|exact H]. Qed.

Lemma history_end tf st h : history tf st h -> ts_frame_end st = end_of h.
Proof using Type. intros [_ Hc]. by apply chain_end in Hc. Qed.

Lemma begin_moved tf st F st' h : history tf st h -> history F st' h -> begin F st' = moved F st' (begin (limit tf (ts_frame_end st)) st).
Proof using CL. intros H1%history_state H2%history_state. rewrite H1, H2. by destruct h. Qed.

(** Two files with the same frames run a batch alike. *)
Lemma runs_alike tf1 st1 tf2 st2 h ops outs z changes :
  history tf1 st1 h -> history tf2 st2 h -> ops_fit ops (set_of h) -> spec_apply_all ops (set_of h) = Ok (outs, z, changes) ->
  exists tx, tx_apply_all ops (begin tf1 st1) = (Ok outs, moved tf1 st1 tx) /\ tx_apply_all ops (begin tf2 st2) = (Ok outs, moved tf2 st2 tx).
Proof using CL.
  intros H1 H2 Hf Es. pose proof (stored_limit _ _ _ _ (history_stored _ _ _ H1)) as Hs. pose proof Hs as (Hp & _).
  pose proof (tx_apply_all_on _ _ Hp ops false _ _ (stored_begin _ _ _ _ Hs) Hf) as H. rewrite Es in H. destruct H as (tx & E & _). exists tx.
  pose proof H1 as [([? ?] & ? & _) Hc1]. pose proof H2 as [([? ?] & ? & _) Hc2]. pose proof (history_end _ _ _ H1) as E1. pose proof (history_end _ _ _ H2) as E2. rewrite E1 in *. rewrite E2 in *.
  rewrite (begin_moved _ _ _ _ _ H1 H1), (begin_moved _ _ _ _ _ H1 H2), E1.
  split; apply steady_tx_apply_all; try exact E; cbn [begin tx_file]; apply (chain_reads _ _ _ h); try done; lia.
Qed.

Lemma write_trees_moved F st F' st' tx : ts_frame_end st = ts_frame_end st' -> write_trees (moved F st tx) = write_trees (moved F' st' tx).
Proof using Type. intros E. unfold write_trees. cbn [moved tx_base tx_nodes tx_roots]. by rewrite E. Qed.

Lemma page_error_alike tf1 st1 tf2 st2 h ops outs z changes :
  history tf1 st1 h -> history tf2 st2 h -> ops_fit ops (set_of h) -> spec_apply_all ops (set_of h) = Ok (outs, z, changes) -> page_error tf1 st1 ops = page_error tf2 st2 ops.
Proof using CL.
  intros H1 H2 Hf Es. destruct (runs_alike _ _ _ _ _ _ _ _ _ H1 H2 Hf Es) as (tx & E1 & E2). unfold page_error. rewrite E1, E2.
  rewrite (write_trees_moved tf1 st1 tf2 st2) by (by rewrite (history_end _ _ _ H1), (history_end _ _ _ H2)). done.
Qed.

Lemma batch_room_alike tf1 st1 tf2 st2 h token ops :
  history tf1 st1 h -> history tf2 st2 h -> ops_fit ops (set_of h) -> batch_room tf1 st1 token ops -> ts_generation st2 < u64_max -> batch_room tf2 st2 token ops.
Proof using CL.
  intros H1 H2 Hf [_ Hr] Hg. split; [done|]. intros outs tx2 E. pose proof (history_stored _ _ _ H2) as Hs. pose proof Hs as (Hp & _).
  pose proof (tx_apply_all_on _ _ Hp ops false _ _ (stored_begin _ _ _ _ Hs) Hf) as H.
  destruct (spec_apply_all ops (set_of h)) as [[[outs' z] changes]|e|] eqn:Es; [clear H|destruct H as [tx' Ex]; by rewrite E in Ex|done].
  destruct (runs_alike _ _ _ _ _ _ _ _ _ H1 H2 Hf Es) as (tx & E1 & E2). rewrite E2 in E. injection E as <- <-. destruct (Hr _ _ E1) as (Hl & Hfe & Hw).
  assert (ts_frame_end st2 = ts_frame_end st1) as Ee by (by rewrite (history_end _ _ _ H1), (history_end _ _ _ H2)).
  split; [exact Hl|]. split; [by rewrite Ee|]. intros roots pages Ew. rewrite (write_trees_moved _ _ tf1 st1) in Ew by done. destruct (Hw _ _ Ew) as [? Hc]. split; [done|].
  rewrite Ee, len_commit_frame. rewrite len_commit_frame in Hc. exact Hc.
Qed.

(** ** Calls by path *)

Lemma sync_healthy tf st h : history tf st h -> healthy tf -> tight tf -> ts_generation st < u64_max ->
  exists tf' st', sync tf = (Ok true, tf') /\ history tf' st' h /\ healthy tf' /\ tight tf'.
Proof using CL.
  intros Hh Hf Ht Hg. pose proof Hh as [Hp _]. unfold sync. rewrite (published_state _ _ Hp). destruct (_ =? _) eqn:Es; [by exists tf, st|].
  set (s := mkHeaderSlot _ _ _). assert (exists F, sync_file tf = (Ok tt, F) /\ healthy F) as (F & E1 & Hf1) by (unfold sync_file, on_disk, IoBackend.sys_sync_data, IoBackend.sys_simple; rewrite Hf; by eexists).
  destruct (write_at_healthy (slot_offset s) (slot_encode s) F Hf1) as (F' & E2 & Hf2).
  assert (sync tf = (Ok true, F')) as E by (unfold sync; rewrite (published_state _ _ Hp), Es, (sbind_Ok _ _ _ _ _ E1); unfold write_slot; by rewrite (sbind_Ok _ _ _ _ _ E2)).
  destruct (sync_history tf st h true F' Hh Hg E) as (_ & g & _ & Hh'). exists F', (state_at h g (end_of h)). split; [unfold sync in E; by rewrite (published_state _ _ Hp), Es in E|]. split; [done|]. split; [done|].
  destruct (sync_file_same _ _ E1) as [D1 L1]. eapply (slot_write_tight s F F'); [unfold tight in *; congruence|rewrite L1; destruct Hp as ([? ?] & _); lia|exact E2].
Qed.

(** What each call leaves at the path. *)
Lemma apply_leaves d path st h token ops r d' : file_at d path st h -> batch_ok d path st h token ops -> ZsetDir.apply path token ops d = (r, d') ->
  exists st' h', file_at d' path st' h' /\ grown token h h'.
Proof using CL.
  intros Hat Hb E. pose proof (apply_outcome _ _ _ _ _ _ Hat Hb) as H. rewrite E in H.
  assert (forall e, (exists d2, (r, d') = (Err e, d2) /\ left_at d2 path (before token h) /\ elsewhere path d d2) -> exists st' h', file_at d' path st' h' /\ grown token h h') as He.
  { intros e (d2 & [= _ ->] & [st' Hst] & _). exists st', (before token h). split; [done|by left]. }
  destruct (spec_apply_all _ _) as [[[outs z] changes]|e|]; [|by eapply He|done]. destruct (batch_page_error _ _ _ _); [by eapply He|].
  destruct H as (st' & d2 & h' & [= _ ->] & Hat' & _ & _ & Ha). exists st', h'. split; [done|]. by eapply appended_grown.
Qed.

Lemma rewind_leaves d path st h token r d' : file_at d path st h -> above_base token h -> ts_generation st < u64_max -> rewind_to path token d = (r, d') ->
  exists st', file_at d' path st' (before token h).
Proof using CL.
  intros Hat Hab Hg E. pose proof Hat as [Hev _]. destruct (open_existing_file _ _ _ _ Hat) as (tf & Eo & Hh & Hf & Ht & _). pose proof Hh as [Hp _].
  unfold rewind_to in E. rewrite (sbind_Ok _ _ _ _ _ Eo), (published_state _ _ Hp), sbind_slift_Ok in E. destruct (token_leb token (ts_token st)) eqn:El.
  - destruct (rewind_in_place d path tf st h token Hh Hf Ht Hab Hg) as (st' & tf' & Er & Hh' & Hf' & Ht' & _). rewrite (sbind_Ok _ _ _ _ _ Er) in E. injection E as _ <-.
    exists st'. by apply put_back.
  - injection E as _ <-. exists st. rewrite (before_newer token h (ts_generation st) (ts_synced_frame_end st)); [done|]. by rewrite <- (history_state _ _ _ Hh).
Qed.

Lemma sync_leaves d path st h r d' : file_at d path st h -> ts_generation st < u64_max -> sync_path path d = (r, d') -> exists st', file_at d' path st' h.
Proof using CL.
  intros Hat Hg E. pose proof Hat as [Hev _]. destruct (open_existing_file _ _ _ _ Hat) as (tf & Eo & Hh & Hf & Ht & _). unfold sync_path in E. rewrite (sbind_Ok _ _ _ _ _ Eo) in E.
  destruct (sync_healthy _ _ _ Hh Hf Ht Hg) as (tf' & st' & Es & Hh' & Hf' & Ht'). unfold sbind, on_file in E. rewrite Es in E. injection E as _ <-. exists st'. by apply put_back.
Qed.

(** ** Replays *)

(** Frames [h] and [h'] that agree before [token], which is above every base of [h']. *)
Definition agree_before (token : Token) (h h' : list Frame) : Prop := before token h' = before token h /\ above_base token h'.

(** What may reach the path between a batch at [token] and its replay: further batches,
    the replayed one included, rewinds and syncs, none of them below the token. *)
Inductive later (path : string) (token : Token) (h : list Frame) (d : Dir) : Dir -> Prop :=
| later_none : later path token h d d
| later_apply d1 st1 h1 t ops r d2 :
    later path token h d d1 -> token_leb token t = true -> file_at d1 path st1 h1 -> agree_before token h h1 -> batch_ok d1 path st1 h1 t ops ->
    ZsetDir.apply path t ops d1 = (r, d2) -> later path token h d d2
| later_rewind d1 st1 h1 t r d2 :
    later path token h d d1 -> token_leb token t = true -> file_at d1 path st1 h1 -> agree_before token h h1 -> above_base t h1 -> ts_generation st1 < u64_max ->
    rewind_to path t d1 = (r, d2) -> later path token h d d2
| later_sync d1 st1 h1 r d2 :
    later path token h d d1 -> file_at d1 path st1 h1 -> agree_before token h h1 -> ts_generation st1 < u64_max -> sync_path path d1 = (r, d2) -> later path token h d d2.

Lemma before_later token t h : token_leb token t = true -> before token (before t h) = before token h.
Proof using Type.
  intros Hle. induction h as [|fr h IH]; [done|]. cbn [before]. destruct (token_ltb (fr_token fr) t) eqn:Et; [done|]. rewrite IH.
  destruct (token_ltb (fr_token fr) token) eqn:E; [|done]. by rewrite (token_ltb_leb_trans _ _ _ E Hle) in Et.
Qed.

Lemma grown_later token t h h' : token_leb token t = true -> grown t h h' -> before token h' = before token h.
Proof using Type.
  intros Hle [->|(fr & -> & Ht & _)]; [by apply before_later|]. cbn [before]. rewrite Ht. pose proof Hle as Hlt. rewrite token_leb_ltb in Hlt. apply negb_true_iff in Hlt. rewrite Hlt. by apply before_later.
Qed.

Lemma later_file path token h d d' : later path token h d d' -> (exists st1 h1, file_at d path st1 h1 /\ agree_before token h h1) ->
  exists st' h', file_at d' path st' h' /\ agree_before token h h'.
Proof using CL.
  intros H H0. destruct H as [|d1 st1 h1 t ops r d2 _ Hle Hat [Hb Ha] Hok E|d1 st1 h1 t r d2 _ Hle Hat [Hb Ha] Hab Hg E|d1 st1 h1 r d2 _ Hat Hb Hg E]; [done|..].
  - destruct (apply_leaves _ _ _ _ _ _ _ _ Hat Hok E) as (st' & h' & Hat' & Hgr). exists st', h'. split; [done|]. split; [by rewrite (grown_later _ _ _ _ Hle Hgr)|]. by eapply grown_above.
  - destruct (rewind_leaves _ _ _ _ _ _ _ Hat Hab Hg E) as (st' & Hat'). exists st', (before t h1). split; [done|]. split; [by rewrite before_later|]. intros fr ?%before_subset. by apply Ha.
  - destruct (sync_leaves _ _ _ _ _ _ Hat Hg E) as (st' & Hat'). by exists st', h1.
Qed.

(** The batch of [token] can be applied again, and its pages are the same. *)
Lemma batch_again d path st h token ops d2 st2 h2 :
  file_at d path st h -> batch_ok d path st h token ops -> file_at d2 path st2 h2 -> agree_before token h h2 -> ts_generation st2 + 1 < u64_max ->
  batch_ok d2 path st2 h2 token ops /\
  forall outs z changes, spec_apply_all ops (set_of (before token h)) = Ok (outs, z, changes) -> batch_page_error path token ops d2 = batch_page_error path token ops d.
Proof using CL.
  intros Hat Hb Hat2 [Hbf Hab] Hg. pose proof Hb as [Htok Hab1 Hl Hf Hg1 Hr].
  destruct (rewound_to_history _ _ _ _ _ Hat Hab1 Hg1) as (tf & st' & d' & Er & _ & Hh & _). destruct (rewound_to_history _ _ _ _ _ Hat2 Hab ltac:(lia)) as (tf2 & st2' & d2' & Er2 & _ & Hh2 & _ & _ & _ & Hg').
  rewrite Hbf in Hh2. split.
  - split; try done; [by rewrite Hbf|lia|]. intros tf3 st3 d3 Er3. rewrite Er2 in Er3. injection Er3 as <- <- <-. eapply (batch_room_alike tf st'); try done; [by eapply Hr|lia].
  - intros outs z changes Es. unfold batch_page_error. rewrite Er, Er2. symmetry. by eapply page_error_alike.
Qed.

End Same.
