(* ===== verification/ZsetBase.v ===== *)
(** * A base frame holds the set it was built from

    The theorems about [write_base]: the packed copy of a stored sorted set is a file with
    one base frame, whose trees hold the same set.  It fails only when the disk does, or
    when a leaf outgrows its page, which members of 492 to 512 bytes can cause. *)

From Stdlib Require Import ZArith Lia.
From stdpp Require Import gmap strings.
From S2P Require Import Prelude Bytes Crc IoBackend F64 ZsetFormat Assoc ZsetNode ZsetStore ZsetTree ZsetTreeProof ZsetTreeInsert ZsetTreeRemove ZsetCommit ZsetArena ZsetCommitProof ZsetTx ZsetOps ZsetOpsProof ZsetHistory ZsetMaintain ZsetFrames ZsetBulk ZsetDir ZsetApply ZsetBulkProof.

Section Base.
Context {C : Crc32fast} {CL : Crc32fastLaws C}.

(** Members whose entries the last two leaves can always be split between. *)
Definition tidy_set (z : zset) : Prop := Forall (fun e => len e.1 <= 491 \/ 512 < len e.1) z.

Lemma len_score_value s : len (score_value s) = 8.
Proof using Type. unfold score_value. rewrite len_le_bytes. done. Qed.

Lemma tidy_entry k v : len v = 8 -> len k <= 499 \/ 512 < len k -> entry_size (key_new k, v) <= 512.
Proof using Type.
  intros Hv Hk. unfold entry_size, key_encoded_len. cbn [fst snd key_new k_bytes]. rewrite Hv.
  destruct (is_long_spec k); unfold OVERFLOW_KEY_SIZE, OVERFLOW_PREFIX, INLINE_KEY_MAX in *; lia.
Qed.

Lemma trees_good z t : zset_ok z -> good (tidy_set z) (trees z t).
Proof using Type.
  intros (Hs & Hok & Hl). split; [|split; [|by rewrite len_trees]]; destruct t; cbn [trees].
  - by apply ranked_sorted.
  - by apply asorted_vmap.
  - apply Forall_fmap, Forall_forall. intros e He. rewrite ranked_perm in He. pose proof (proj1 (Forall_forall _ _) Hok e He) as [_ Hm]. unfold compose, entry_fine, kv. cbn [fst snd].
    rewrite !len_skey. split; [unfold MAX_MEMBER_LEN, u32_max in *; lia|]. split; [apply len_score_value|]. intros T. apply tidy_entry; [apply len_score_value|].
    rewrite len_skey. pose proof (proj1 (Forall_forall _ _) T e He) as Ht. cbn in Ht. lia.
  - apply Forall_fmap, Forall_forall. intros e He. pose proof (proj1 (Forall_forall _ _) Hok e He) as [_ Hm]. unfold compose, entry_fine. cbn [fst snd].
    split; [unfold MAX_MEMBER_LEN, u32_max in *; lia|]. split; [apply len_score_value|]. intros T. apply tidy_entry; [apply len_score_value|].
    pose proof (proj1 (Forall_forall _ _) T e He) as Ht. cbn in Ht. lia.
Qed.

(** ** Both trees *)

Context (hd : bytes).
Hypothesis Hhd : len hd = HEADER_REGION.
Definition pb : Z := HEADER_REGION + FRAME_HEADER_SIZE.

Lemma Hpb : HEADER_REGION <= pb.
Proof using Type. done. Qed.
Lemma Hpb64 : pb + PAGE_SIZE <= u64_max.
Proof using Type. done. Qed.

Lemma does_ext {A : Type} tidy (m m' : SR Bulk A) b Q : m b = m' b -> does tidy m' b Q -> does tidy m b Q.
Proof using Type. intros E. unfold does. by rewrite E. Qed.

(** One tree of the source, packed. *)
Lemma pack_ok tidy t src root es ps b :
  tree_under false (reader src) t (Disk root) [] es -> good tidy es -> file_ok pb hd ps b -> bk_levels b = [] ->
  does tidy (let! _ := visit DEPTH src root in finish_tree) b (fun _ b' => exists more r, file_ok pb hd (ps ++ more) b' /\ bk_levels b' = [] /\ bk_roots b' = bk_roots b ++ [r] /\ rooted pb t (ps ++ more) r es).
Proof using CL Hhd.
  intros Ht Hg H Hls. pose proof Hg as (_ & _ & Hl). assert (forall b, visit DEPTH src root b = push_all es b) as Ev by (intros; eapply visit_under; [exact Ht|unfold u64_max; lia]).
  apply (does_ext _ _ (let! _ := push_all es in finish_tree)); [unfold sbind; by rewrite Ev|].
  eapply does_bind; [eapply next_nonneg; [apply Hpb|exact H]|apply mono_push_all| |eapply (push_all_ok pb hd Hpb Hpb64 Hhd t tidy es ps b []); [done|by rewrite Hls|by rewrite Hls; cbn; lia|done]|].
  { intros _ b0 Hb0. unfold finish_tree. refine (mono_bind _ _ (mono_finish_loop _ _) _ b0 Hb0). by intros r b'. }
  intros _ b1 (more & H1 & R1 & L1 & Hls1). eapply does_mono; [by eapply (finish_tree_ok pb hd Hpb Hpb64 Hhd t tidy)|].
  intros _ b2 (more' & r & H2 & L2 & R2 & Hr). exists (more ++ more'), r. rewrite app_assoc. split; [done|]. split; [done|]. split; [by rewrite R2, R1|done].
Qed.

Lemma mono_visit t src root es : tree_under false (reader src) t (Disk root) [] es -> len es <= u64_max -> mono (let! _ := visit DEPTH src root in finish_tree).
Proof using Type.
  intros Ht Hl. apply mono_bind; [intros b; rewrite (visit_under t _ _ _ _ b Ht Hl); apply mono_push_all|].
  intros _ b0 Hb0. unfold finish_tree. refine (mono_bind _ _ (mono_finish_loop _ _) _ b0 Hb0). by intros r b'.
Qed.

Lemma rooted_more t ps more r es : rooted pb t ps r es -> rooted pb t (ps ++ more) r es.
Proof using Type. intros [?|[d H]]; [by left|]. right. exists d. intros F HF. apply H. by eapply pages_at_app. Qed.

Lemma bulk_trees_ok src base z b :
  (forall t, tree_under false (reader src) t (trailer_root base t) [] (trees z t)) -> zset_ok z -> file_ok pb hd [] b -> bk_levels b = [] -> bk_roots b = [] ->
  does (tidy_set z) (bulk_trees src base) b (fun _ b' => exists ps r0 r1, file_ok pb hd ps b' /\ bk_roots b' = [r0; r1] /\
    rooted pb Score ps r0 (trees z Score) /\ rooted pb Member ps r1 (trees z Member)).
Proof using CL Hhd.
  intros Ht Hz H Hls Hro. pose proof (Ht Score) as Ht1. pose proof (Ht Member) as Ht2. cbn [trailer_root] in Ht1, Ht2.
  apply (does_ext _ _ (let! _ := (let! _ := visit DEPTH src (tr_score_root base) in finish_tree) in let! _ := visit DEPTH src (tr_member_root base) in finish_tree)).
  { unfold bulk_trees, sbind. by destruct (visit DEPTH src (tr_score_root base) b) as [[?|?|] ?]. }
  assert (forall t, len (trees z t) <= u64_max) as Hl by (intros t; rewrite len_trees; destruct Hz as (_ & _ & ?); unfold u64_max; lia).
  eapply does_bind; [eapply next_nonneg; [apply Hpb|exact H]|by eapply mono_visit|intros _; by eapply mono_visit|by apply (pack_ok _ Score src _ _ [] b Ht1 (trees_good z Score Hz))|].
  intros _ b1 (m1 & r0 & H1 & L1 & R1 & Hr0). eapply does_mono; [by apply (pack_ok _ Member src _ _ _ b1 Ht2 (trees_good z Member Hz) H1 L1)|].
  intros _ b2 (m2 & r1 & H2 & _ & R2 & Hr1). exists (([] ++ m1) ++ m2), r0, r1. split; [done|]. split; [by rewrite R2, R1, Hro|]. split; [by apply rooted_more|done].
Qed.

(** ** The frame *)

(** The target after the header is in place. *)
Lemma header_written ps b hdr : file_ok pb hd ps b -> len hdr = FRAME_HEADER_SIZE ->
  overwrite (bk_data b) HEADER_REGION hdr = hd ++ hdr ++ mjoin ps /\ bk_next b = len (hd ++ hdr ++ mjoin ps).
Proof using Hhd.
  intros H Hl. destruct H as [Hs Hnx Hpg Hlen [Hh1 Hh2] _ _ _]. pose proof (len_nonneg ps) as Hps. unfold pb, HEADER_REGION, FRAME_HEADER_SIZE, PAGE_SIZE in *.
  assert (bk_next b = len (hd ++ hdr ++ mjoin ps)) as En by (rewrite !len_app, len_pages, Hhd, Hl by done; unfold PAGE_SIZE; lia). split; [|done].
  set (D := overwrite (bk_data b) 4096 hdr). assert (len D = bk_next b) as LD.
  { unfold D. rewrite len_overwrite_past, Hl by lia. destruct (decide (ps = [])) as [->|]; [|lia]. unfold len in Hnx at 1. cbn in Hnx. lia. }
  rewrite <- (zslice_full D 0 (bk_next b)) by lia. rewrite <- (zslice_join D 0 4096), <- (zslice_join D 4096 (4096 + 40)) by lia. f_equal; [|f_equal].
  - unfold D. rewrite overwrite_before_past by lia. done.
  - unfold D. rewrite <- Hl, overwrite_at_past by lia. done.
  - unfold D. rewrite overwrite_padded. destruct (decide (ps = [])) as [->|].
    + unfold zslice. rewrite !ztake_0; [done|unfold len in Hnx; cbn in Hnx; lia].
    + rewrite overwrite_after by (rewrite ?len_padded; lia). rewrite zslice_padded by lia. exact Hpg.
Qed.

Definition base_frame (base : Trailer) (undo : UndoLog) (z : zset) (ps : list bytes) (r0 r1 : Z) : Frame :=
  let header := mkFrameHeader (len ps) (len (undo_encode undo)) (tr_token base) true in
  mkFrame HEADER_REGION header (mjoin ps) (undo_encode undo)
    (mkTrailer r0 r1 (tr_count base) HEADER_REGION 2 (tr_token base) (crc [frame_header_encode header ++ mjoin ps ++ undo_encode undo])) z.

(** A file of less than 16 TiB: its page count fits a [u32]. *)
Definition moderate (tf : TreeFile) : Prop := len (tf_data tf) + PAGE_SIZE <= 17592186044416.

(** What [write_base] is given besides the source. *)
Record base_ok (base : Trailer) (undo : UndoLog) (z : zset) : Prop := {
  bk_count : tr_count base = len z;
  bk_zset : zset_ok z;
  bk_token : token_ok (tr_token base);
  bk_undo : undo_ok undo;
  bk_undo_len : len (undo_encode undo) <= u32_max;
}.

Lemma rooted_u64 F t ps r es : rooted pb t ps r es -> pages_at pb F ps -> u64_ok r /\ tree_under false (reader F) t (Disk r) [] es.
Proof using Type.
  intros [[-> ->]|[d H]] HF; [split; [done|by left]|]. specialize (H F HF). split; [by eapply tree_offset_u64|]. right. exists d. by apply (tree_at_weaken (mkMode true t)).
Qed.

Section Frame.
Context (base : Trailer) (undo : UndoLog) (z : zset) (ps : list bytes) (r0 r1 : Z).
Hypothesis Hok : base_ok base undo z.
Hypothesis Hsz : Forall (fun p => len p = PAGE_SIZE) ps.
Hypothesis Hr0 : rooted pb Score ps r0 (trees z Score).
Hypothesis Hr1 : rooted pb Member ps r1 (trees z Member).

Let fr := base_frame base undo z ps r0 r1.

Lemma base_frame_end : fr_end fr = pb + len ps * PAGE_SIZE + len (undo_encode undo) + TRAILER_SIZE.
Proof using CL Hsz.
  unfold fr_end, fr, base_frame, fr_image, fr_body. cbn [fr_header fr_pages fr_payload fr_trailer fr_start]. rewrite !len_app, len_frame_header_encode, len_trailer_encode, len_pages by done.
  unfold pb. lia.
Qed.

(** A file with the frame behind its header. *)
Lemma base_chain F : tf_data F = hd ++ fr_image fr -> moderate F -> chain F (fr_end fr) [fr].
Proof using All.
  intros ED Hm. pose proof base_frame_end as Ee. pose proof (len_nonneg ps) as Hps. pose proof (len_nonneg (undo_encode undo)) as Hun. destruct Hok as [Hc Hz Htk Huk Hul].
  assert (len (tf_data F) = fr_end fr) as LD by (rewrite ED, len_app, Hhd; done). unfold moderate in Hm. unfold pb, HEADER_REGION, FRAME_HEADER_SIZE, TRAILER_SIZE, PAGE_SIZE in *.
  assert (pages_at pb (limit F (fr_end fr)) ps) as HP.
  { split; [cbn [limit tf_len]; unfold u64_max; lia|]. unfold holds_at. change (tf_data (limit F (fr_end fr))) with (tf_data F). cbn [limit tf_len]. rewrite len_pages by done. unfold pb, HEADER_REGION, FRAME_HEADER_SIZE, PAGE_SIZE.
    split; [lia|]. split; [lia|]. rewrite ED. unfold fr, base_frame, fr_image, fr_body. cbn [fr_header fr_pages fr_payload fr_trailer]. rewrite <- !app_assoc, app_assoc.
    rewrite zslice_app_skip by (rewrite len_app, len_frame_header_encode, Hhd; unfold FRAME_HEADER_SIZE; lia). rewrite len_app, len_frame_header_encode, Hhd. unfold FRAME_HEADER_SIZE.
    replace (4096 + 40 - (4096 + 40)) with 0 by lia. apply zslice_app_exact. rewrite len_pages by done. unfold PAGE_SIZE. lia. }
  destruct (rooted_u64 _ _ _ _ _ Hr0 HP) as [U0 T0]. destruct (rooted_u64 _ _ _ _ _ Hr1 HP) as [U1 T1].
  split; [done|]. split; [|split; [|split; [|done]]].
  - unfold fr, base_frame. constructor; cbn [fr_header fr_trailer fr_pages fr_payload fr_start fr_set fh_page_count fh_ops_len fh_token tr_frame_start tr_token tr_body_crc tr_count]; try done.
    + unfold frame_header_ok. cbn. unfold u32_ok, u32_max in *. split; [lia|]. split; [lia|done].
    + unfold trailer_ok. cbn [tr_score_root tr_member_root tr_count tr_frame_start tr_generation tr_token tr_body_crc]. rewrite Hc. repeat split; try apply U0; try apply U1; try apply Htk; try apply crc_u32; try (unfold HEADER_REGION, u64_max; lia); try apply len_nonneg.
      destruct Hz as (_ & _ & Hl). unfold u64_max. lia.
    + by rewrite len_pages.
  - constructor.
    + done.
    + lia.
    + unfold u64_max. lia.
    + rewrite ED. change (fr_start fr) with 4096. rewrite zslice_app_skip by (rewrite Hhd; lia). rewrite Hhd. apply zslice_full; [lia|]. unfold fr_end. change (fr_start fr) with 4096. lia.
    + intros []; [exact T0|exact T1].
  - split; [done|]. exists undo. apply undo_decode_iff. by right.
Qed.

End Frame.

(** ** The whole base frame *)

Lemma mono_bulk_trees src base z :
  (forall t, tree_under false (reader src) t (trailer_root base t) [] (trees z t)) -> zset_ok z -> mono (bulk_trees src base).
Proof using Type.
  intros Ht Hz. assert (forall t, len (trees z t) <= u64_max) as Hl by (intros t; rewrite len_trees; destruct Hz as (_ & _ & ?); unfold u64_max; lia).
  assert (forall b, bulk_trees src base b = (let! _ := (let! _ := visit DEPTH src (tr_score_root base) in finish_tree) in let! _ := visit DEPTH src (tr_member_root base) in finish_tree) b) as E.
  { intros b. unfold bulk_trees, sbind. by destruct (visit DEPTH src (tr_score_root base) b) as [[?|?|] ?]. }
  intros b. rewrite E. apply mono_bind; [by apply (mono_visit Score _ _ _ (Ht Score))|]. intros _. by apply (mono_visit Member _ _ _ (Ht Member)).
Qed.

(** A write and what follows it. *)
Lemma write_then {A : Type} o bs (k : SR TreeFile A) tf (P : result A * TreeFile -> Prop) :
  0 <= o ->
  (forall tf', tf_data tf' = overwrite (tf_data tf) o bs -> tf_len tf' = tf_len tf -> (healthy tf -> healthy tf') -> P (k tf')) ->
  (forall e tf', len (tf_data tf) <= len (tf_data tf') -> ~ healthy tf -> P (Err e, tf')) ->
  P ((let! _ := write_at o bs in k) tf).
Proof using Type.
  intros Ho Hk He. unfold sbind. destruct (write_at_cases o bs tf) as [(tf' & E & D & L)|(tf' & e & n & E & D & L)]; rewrite E.
  - apply Hk; [done..|]. unfold healthy. revert E. unfold write_at, on_disk, sys_write_at. intros E Hf. rewrite Hf in E. injection E as <-. done.
  - apply He; [rewrite D, len_overwrite_past by done; lia|]. intros Hf. revert E. unfold write_at, on_disk, sys_write_at. by rewrite Hf.
Qed.

(** What [write_base] leaves: the base frame, unless the disk or a page's size stops it. *)
Definition base_written (base : Trailer) (undo : UndoLog) (z : zset) (target : TreeFile) (r : result TreeState * TreeFile) : Prop :=
  moderate r.2 ->
  match r.1 with
  | Ok st => exists ps r0 r1, let h := [base_frame base undo z ps r0 r1] in st = state_at h 2 HEADER_REGION /\ history r.2 st h /\ tf_len r.2 = len (tf_data r.2) /\ (healthy target -> healthy r.2)
  | Err _ => healthy target -> tidy_set z -> False
  | Panic => False
  end.

Lemma written_failed base undo z target e tf tf' : ~ healthy tf -> (healthy target -> healthy tf) -> base_written base undo z target (Err e, tf').
Proof using Type. intros Hn Hh _ Ht _. by apply Hn, Hh. Qed.

Lemma base_header base undo (ps : list bytes) b : bk_page_count b = len ps mod 2 ^ 32 -> len ps * PAGE_SIZE <= 17592186044416 - PAGE_SIZE -> len (undo_encode undo) <= u32_max ->
  mkFrameHeader (bk_page_count b) (len (undo_encode undo) mod 2 ^ 32) (tr_token base) true = mkFrameHeader (len ps) (len (undo_encode undo)) (tr_token base) true.
Proof using Type.
  intros -> Hl Hu. pose proof (len_nonneg ps). pose proof (len_nonneg (undo_encode undo)). unfold PAGE_SIZE, u32_max in *. change (2 ^ 32) with 4294967296. rewrite !Z.mod_small by lia. done.
Qed.

(** The frame's CRC, computed from the parts as they were written. *)
Lemma base_crc hdr c (pages undo : bytes) : hashed c pages -> hasher_finalize (hasher_update (hasher_combine (hasher_update hasher_new hdr) c) undo) = crc [hdr ++ pages ++ undo].
Proof using CL.
  intros Hc. rewrite crc_one. apply hashed_finalize. rewrite app_assoc. apply hashed_update, hashed_combine; [|done].
  rewrite <- (app_nil_l hdr). apply hashed_update, hashed_new.
Qed.

(** The last write: the slot over a file that holds the frame. *)
Lemma slot_written base undo z target ps r0 r1 tf :
  let fr := base_frame base undo z ps r0 r1 in
  base_ok base undo z -> Forall (fun p => len p = PAGE_SIZE) ps -> rooted pb Score ps r0 (trees z Score) -> rooted pb Member ps r1 (trees z Member) ->
  tf_data tf = hd ++ fr_image fr -> tf_len tf = fr_end fr -> moderate tf -> slot_below tf 0 2 -> slot_below tf SLOT_SIZE 2 -> (healthy target -> healthy tf) ->
  base_written base undo z target ((let! _ := write_slot (mkHeaderSlot 2 (fr_end fr) HEADER_REGION) in fun tf => (state tf, tf)) tf).
Proof using All.
  intros fr Hok Hs Hr0 Hr1 ED EL Hm B0 B1 Hh. pose proof (base_chain base undo z ps r0 r1 Hok Hs Hr0 Hr1 tf ED Hm) as Hc. fold fr in Hc.
  assert (len (tf_data tf) = fr_end fr) as LD by (rewrite ED, len_app, Hhd; done). pose proof (chain_bounds _ _ _ Hc) as [[Hb Hb2] _]. unfold moderate in Hm.
  set (s := mkHeaderSlot 2 (fr_end fr) HEADER_REGION). destruct (slot_offset_range s) as (R1 & R2 & R3 & R4 & R5). unfold write_slot.
  apply write_then; [lia| |intros e tf' _ Hn; by eapply written_failed].
  intros tf' D L Hh' _. cbn [fst snd]. assert (history tf' (state_at [fr] 2 HEADER_REGION) [fr]) as H.
  { apply (publish_chain tf tf' [fr] 2 HEADER_REGION); cbn [end_of]; try done; unfold HEADER_REGION, PAGE_SIZE, u64_max in *; try lia. }
  rewrite (published_state tf' (state_at [fr] 2 HEADER_REGION)) by apply H. exists ps, r0, r1. fold fr. split; [done|]. split; [done|]. split; [|auto].
  rewrite L, D, len_overwrite_past, len_slot_encode by lia. unfold HEADER_REGION, PAGE_SIZE in *. lia.
Qed.

(** What [write_base] does once the trees are packed. *)
Definition base_tail (base : Trailer) (undo : UndoLog) (b : Bulk) (roots : Z * Z) : SR TreeFile TreeState :=
  let pages_end := bk_next b in
  let undo := undo_encode undo in
  let header := frame_header_encode (mkFrameHeader (bk_page_count b) (len undo mod 2 ^ 32) (tr_token base) true) in
  let! _ := write_at HEADER_REGION header in
  let! _ := write_at pages_end undo in
  let body := hasher_update (hasher_combine (hasher_update hasher_new header) (bk_crc b)) undo in
  let trailer := base_trailer base roots (hasher_finalize body) in
  let trailer_at := add64 pages_end (len undo) in
  let! _ := write_at trailer_at (trailer_encode trailer) in
  let frame_end := add64 trailer_at TRAILER_SIZE in
  let! _ := note_appended frame_end in
  let! _ := write_slot (mkHeaderSlot 2 frame_end HEADER_REGION) in
  fun tf => (state tf, tf).

Lemma slot_grows s tf : len (tf_data tf) <= len (tf_data ((let! _ := write_slot s in fun tf => (state tf, tf)) tf).2).
Proof using Type.
  destruct (slot_offset_range s) as (R1 & _). unfold write_slot.
  apply (write_then _ _ _ _ (fun r => len (tf_data tf) <= len (tf_data r.2))); [done| |done]. intros tf' D _ _. cbn [snd]. rewrite D, len_overwrite_past by done. lia.
Qed.

Lemma tail_grows base undo b roots tf : 0 <= bk_next b -> len (tf_data tf) <= len (tf_data (base_tail base undo b roots tf).2).
Proof using Type.
  intros Hn. unfold base_tail. cbv zeta. set (P := fun r : result TreeState * TreeFile => len (tf_data tf) <= len (tf_data r.2)). 
  match goal with |- len (tf_data tf) <= len (tf_data ?r.2) => change (P r) end. apply write_then; [done| |by intros e tf' ? _]. intros tf1 D1 _ _. assert (len (tf_data tf) <= len (tf_data tf1)) as G1 by (rewrite D1, len_overwrite_past by done; lia).
  apply write_then; [done| |intros e tf' ? _; unfold P; cbn [snd]; lia]. intros tf2 D2 _ _. assert (len (tf_data tf1) <= len (tf_data tf2)) as G2 by (rewrite D2, len_overwrite_past by done; lia).
  apply write_then; [by apply Z.mod_pos_bound| |intros e tf' ? _; unfold P; cbn [snd]; lia]. intros tf3 D3 _ _.
  assert (len (tf_data tf2) <= len (tf_data tf3)) as G3 by (rewrite D3, len_overwrite_past by (by apply Z.mod_pos_bound); lia).
  cbn [sbind note_appended]. unfold P. etrans; [|apply slot_grows]. change (tf_data (mkTreeFile (tf_disk tf3) _)) with (tf_data tf3). lia.
Qed.

(** The three writes of the frame, in a file small enough for its offsets. *)
Lemma frame_laid base undo z ps b r0 r1 hdr tr (D : bytes) :
  let un := undo_encode undo in
  let X := hd ++ hdr ++ mjoin ps in
  let fr := base_frame base undo z ps r0 r1 in
  base_ok base undo z -> file_ok pb hd ps b -> bk_next b = len X ->
  hdr = frame_header_encode (mkFrameHeader (bk_page_count b) (len un mod 2 ^ 32) (tr_token base) true) ->
  tr = trailer_encode (base_trailer base (r0, r1) (hasher_finalize (hasher_update (hasher_combine (hasher_update hasher_new hdr) (bk_crc b)) un))) ->
  D = overwrite (X ++ un) (add64 (bk_next b) (len un)) tr -> len D + PAGE_SIZE <= 17592186044416 ->
  D = hd ++ fr_image fr /\ add64 (add64 (bk_next b) (len un)) TRAILER_SIZE = fr_end fr.
Proof using All.
  intros un X fr Hok Hf En Eh Et ED Hm. pose proof (len_nonneg un) as Hun. pose proof (len_nonneg X) as HX. pose proof (len_nonneg ps) as Hps. assert (len tr = TRAILER_SIZE) as Ltr by (subst tr; apply len_trailer_encode).
  assert (0 <= add64 (bk_next b) (len un)) as Hadd by (apply Z.mod_pos_bound; done). pose proof (bk_undo_len _ _ _ Hok) as Hul. fold un in Hul.
  assert (len X + len un <= len D) as HD by (rewrite ED, len_overwrite_past, len_app by done; lia). unfold PAGE_SIZE in *.
  assert (len X = pb + len ps * 4096) as LX by (rewrite <- En; apply Hf). assert (0 <= pb) by done.
  rewrite (add64_small (bk_next b) (len un)) in * by (unfold u64_max; lia). rewrite overwrite_end in ED by (rewrite len_app; lia).
  unfold un in Eh. rewrite (base_header base undo ps b) in Eh by (apply Hf || done || (unfold PAGE_SIZE; lia)).
  rewrite add64_small by (unfold u64_max, TRAILER_SIZE; lia). split.
  - rewrite ED. unfold X, fr, base_frame, fr_image, fr_body. cbn [fr_header fr_pages fr_payload fr_trailer]. rewrite Eh in *. rewrite Et, (base_crc _ _ (mjoin ps)) by apply Hf. rewrite <- !app_assoc. done.
  - unfold fr. rewrite base_frame_end by apply Hf. fold un. unfold PAGE_SIZE. lia.
Qed.

Lemma base_tail_ok base undo z target ps b r0 r1 :
  base_ok base undo z -> file_ok pb hd ps b -> rooted pb Score ps r0 (trees z Score) -> rooted pb Member ps r1 (trees z Member) ->
  tf_data target = hd -> slot_below target 0 2 -> slot_below target SLOT_SIZE 2 -> (healthy target -> healthy (bk_file b)) ->
  base_written base undo z target (base_tail base undo b (r0, r1) (bk_file b)).
Proof using All.
  intros Hok Hf Hr0 Hr1 Et B0 B1 Hh. unfold base_tail. cbv zeta. set (hdr := frame_header_encode _). assert (len hdr = FRAME_HEADER_SIZE) as Lh by (unfold hdr; apply len_frame_header_encode).
  destruct (header_written ps b hdr Hf Lh) as [D0 En]. set (un := undo_encode undo). set (tr := trailer_encode _).
  apply write_then; [done| |intros e tf' _ Hn; by eapply written_failed]. intros tf1 D1 L1 H1. unfold bk_data in D0. rewrite D0 in D1.
  apply write_then; [rewrite En; apply len_nonneg| |intros e tf' _ Hn; eapply written_failed; eauto]. intros tf2 D2 L2 H2. rewrite D1, overwrite_end in D2 by done.
  apply write_then; [by apply Z.mod_pos_bound| |intros e tf' _ Hn; eapply written_failed; eauto 6]. intros tf3 D3 L3 H3. rewrite D2 in D3.
  cbn [sbind note_appended]. set (e := add64 (add64 _ _) _) in *. set (tf4 := mkTreeFile _ _). intros Hm. pose proof (slot_grows (mkHeaderSlot 2 e HEADER_REGION) tf4) as Hg. unfold moderate in Hm.
  change (tf_data tf4) with (tf_data tf3) in Hg. destruct (frame_laid base undo z ps b r0 r1 hdr tr (tf_data tf3) Hok Hf En eq_refl eq_refl D3) as [D4 E4]; [lia|]. assert (len (tf_data tf3) + PAGE_SIZE <= 17592186044416) as Hm3 by lia.
  change (e = fr_end (base_frame base undo z ps r0 r1)) in E4. set (fr := base_frame base undo z ps r0 r1) in *. revert Hm. change (base_written base undo z target ((let! _ := write_slot (mkHeaderSlot 2 e HEADER_REGION) in fun tf => (state tf, tf)) tf4)).
  assert (fr_start fr = HEADER_REGION) as Efs by done. pose proof (len_nonneg (fr_image fr)).
  clearbody e. subst e. apply slot_written; try done.
  - apply Hf.
  - cbn [tf4 tf_len]. rewrite L3, L2, L1, (fo_tlen _ _ _ _ Hf). unfold fr_end. fold fr. lia.
  - intros s Hs. apply B0. unfold slot_at in *. change (tf_data tf4) with (tf_data tf3) in Hs. rewrite D4, zslice_app_take in Hs by (rewrite ?Hhd; done). by rewrite Et.
  - intros s Hs. apply B1. unfold slot_at in *. change (tf_data tf4) with (tf_data tf3) in Hs. rewrite D4, zslice_app_take in Hs by (rewrite ?Hhd; done). by rewrite Et.
  - intros Ht. apply H3, H2, H1, Hh, Ht.
Qed.

Lemma write_base_ok src base undo target z :
  (forall t, tree_under false (reader src) t (trailer_root base t) [] (trees z t)) -> base_ok base undo z ->
  tf_data target = hd -> tf_len target = HEADER_REGION -> slot_below target 0 2 -> slot_below target SLOT_SIZE 2 ->
  base_written base undo z target (write_base src base undo target).
Proof using All.
  intros Ht Hok Ed El B0 B1. unfold write_base. set (b0 := bulk_new target _). pose proof (bk_zset _ _ _ Hok) as Hz.
  assert (file_ok pb hd [] b0) as Hf0.
  { unfold b0. constructor; unfold bk_data; cbn [bulk_new bk_file bk_next bk_crc bk_page_count]; rewrite ?Ed; try done.
    - fold pb. unfold zslice. by rewrite Z.sub_diag, ztake_0.
    - rewrite Hhd. unfold pb. done.
    - split; [apply zslice_full; rewrite ?Hhd; done|by rewrite Hhd].
    - apply hashed_new. }
  pose proof (bulk_trees_ok src base z b0 Ht Hz Hf0 eq_refl eq_refl) as Hd. pose proof (mono_bulk_trees src base z Ht Hz b0 ltac:(by eapply next_nonneg, Hf0; apply Hpb)) as (Hnn & _ & Hfl).
  unfold does in Hd. destruct (bulk_trees src base b0) as [[[]|e|] b]; cbn [snd] in Hfl, Hnn.
  - intros Hm. assert (small b) as Hsm.
    { unfold small, bk_data. unfold moderate in Hm. etrans; [|apply (ltac:(done) : 17592186044416 <= u64_max)]. etrans; [|exact Hm]. apply Z.add_le_mono_r.
      destruct (bk_roots b !! 0%nat) as [q0|], (bk_roots b !! 1%nat) as [q1|]; [|done..]. exact (tail_grows base undo b (q0, q1) (bk_file b) Hnn). }
    destruct (Hd Hsm) as (ps & r0 & r1 & Hf & Hro & Hr0 & Hr1). revert Hm. rewrite Hro. exact (base_tail_ok base undo z target ps b r0 r1 Hok Hf Hr0 Hr1 Ed B0 B1 Hfl).
  - intros Hm Hh Hti. cbn [fst snd] in Hm. refine (Hd _ Hh Hti). unfold moderate in Hm. unfold small, bk_data, u64_max. lia.
  - intros Hm. cbn [fst snd] in Hm. refine (Hd _). unfold moderate in Hm. unfold small, bk_data, u64_max. lia.
Qed.

End Base.
