(* ===== verification/ZsetCompact.v ===== *)
(** * Compaction and rewinds below the base

    The theorems about [compact] and [rewrite_below_base] of zset_tree/maintain.rs, the two
    operations that rebuild a tree file beside the old one and rename it into place.
    Whatever fails on the way, the path holds the old file or a rebuilt one with the same
    sets under the same tokens. *)

From Stdlib Require Import ZArith Lia.
From stdpp Require Import gmap strings pretty.
From S2P Require Import Prelude Bytes Crc IoBackend F64 ZsetFormat Assoc ZsetNode ZsetStore ZsetTree ZsetTreeProof ZsetTreeInsert ZsetTreeRemove ZsetCommit ZsetArena ZsetCommitProof ZsetTx ZsetOps ZsetOpsProof ZsetHistory ZsetMaintain ZsetFrames ZsetBulk ZsetBulkProof ZsetDir ZsetApply ZsetBase.

Section Compact.
Context {C : Crc32fast} {CL : Crc32fastLaws C}.

(** ** The frames after a base *)

Lemma frames_after_loop_chain tf base_end h : HEADER_REGION < base_end -> forall fuel e acc,
  chain tf e h -> e <= tf_len tf -> e <= Z.of_nat fuel ->
  exists h1 h2, h = h1 ++ h2 /\ frames_after_loop fuel tf e base_end acc = Ok (Some (end_of h2, acc ++ (at_of <$> h1))).
Proof using CL.
  intros Hb. induction h as [|fr h IH]; intros fuel e acc Hc Hl Hf.
  - exists [], []. split; [done|]. cbn in Hc. subst e. rewrite app_nil_r. destruct fuel; cbn [frames_after_loop end_of]; destruct (Z.leb_spec HEADER_REGION base_end); done || lia.
  - pose proof (chain_step _ _ _ _ Hc Hl) as (He & Hh & Hs & Ht & _ & _ & Hst & Hc'). destruct fuel as [|fuel]; [unfold HEADER_REGION in *; lia|].
    cbn [frames_after_loop]. destruct (Z.leb_spec e base_end).
    + exists [], (fr :: h). split; [done|]. by rewrite app_nil_r, He.
    + rewrite Ht. cbn [rbind]. rewrite Hst. destruct (IH fuel (fr_start fr) (acc ++ [mkFrameAt (fr_start fr) e (fr_trailer fr)])) as (h1 & h2 & -> & ->); [done|lia|lia|].
      exists (fr :: h1), h2. split; [done|]. rewrite <- app_assoc. by rewrite He.
Qed.

(** The frames that [frames_after] hands back follow a frame with the base's trailer. *)
Lemma frames_after_chain tf e h base :
  HEADER_REGION < fa_end base -> chain tf e h -> e <= tf_len tf ->
  frames_after tf e base = Ok None \/
  exists h1 fr h2, h = h1 ++ fr :: h2 /\ fr_end fr = fa_end base /\ fr_trailer fr = fa_trailer base /\ frames_after tf e base = Ok (Some (reverse (at_of <$> h1))).
Proof using CL.
  intros Hb Hc Hl. pose proof (chain_bounds _ _ _ Hc) as [[He _] _]. destruct (frames_after_loop_chain tf (fa_end base) h Hb (Z.to_nat e) e [] Hc Hl) as (h1 & h2 & -> & El); [unfold HEADER_REGION in *; lia|].
  unfold frames_after. rewrite El. cbn [rbind app]. destruct (Z.eqb_spec (end_of h2) (fa_end base)) as [E|E]; cbn [negb]; [|by left].
  destruct (chain_app _ _ _ _ Hc) as [Hc2 Hle]. destruct h2 as [|fr h2]; [cbn in E; lia|].
  pose proof (chain_step _ _ _ _ Hc2 ltac:(lia)) as (_ & _ & _ & Ht & _). rewrite Ht. cbn [rbind]. case_bool_decide as Heq; [|by left].
  right. exists h1, fr, h2. split; [done|]. split; [done|]. split; [congruence|done].
Qed.

(** A frame that is in the file is found again, with the frames after it. *)
Lemma frames_after_loop_above tf base h2 fuel : forall h1 e acc,
  chain tf e (h1 ++ base :: h2) -> e <= tf_len tf -> e <= Z.of_nat fuel ->
  frames_after_loop fuel tf e (fr_end base) acc = Ok (Some (fr_end base, acc ++ (at_of <$> h1))).
Proof using CL.
  induction fuel as [|fuel IH]; intros h1 e acc Hc Hl Hf; (destruct h1 as [|fr h1]; cbn [app] in Hc; pose proof (chain_step _ _ _ _ Hc Hl) as (He & Hh & Hs & Ht & _ & _ & Hst & Hc')); unfold HEADER_REGION in *; [lia..| |].
  - cbn [frames_after_loop]. rewrite He. destruct (Z.leb_spec (fr_end base) (fr_end base)); [|lia]. by rewrite app_nil_r.
  - destruct (chain_app _ _ _ _ Hc') as [_ Hle]. cbn [end_of] in Hle. cbn [frames_after_loop]. destruct (Z.leb_spec e (fr_end base)); [lia|]. rewrite Ht. cbn [rbind]. rewrite Hst, (IH h1) by (done || lia).
    rewrite <- app_assoc. by rewrite He.
Qed.

Lemma frames_after_above tf e h1 base h2 : chain tf e (h1 ++ base :: h2) -> e <= tf_len tf -> frames_after tf e (at_of base) = Ok (Some (reverse (at_of <$> h1))).
Proof using CL.
  intros Hc Hl. pose proof (chain_bounds _ _ _ Hc) as [[He _] _]. destruct (chain_app _ _ _ _ Hc) as [Hc2 Hle]. unfold frames_after. cbn [at_of fa_end fa_trailer].
  rewrite (frames_after_loop_above tf base h2 _ h1) by (done || (unfold HEADER_REGION in *; lia)). cbn [rbind]. rewrite Z.eqb_refl. cbn [negb].
  pose proof (chain_step _ _ _ _ Hc2 ltac:(lia)) as (_ & _ & _ & Ht & _). cbn [end_of] in Ht. rewrite Ht. cbn [rbind]. by rewrite bool_decide_eq_true_2.
Qed.

(** ** Commits that go through *)

Lemma moderate_mono (F F' : TreeFile) : len (tf_data F) <= len (tf_data F') -> moderate F' -> moderate F.
Proof using Type. unfold moderate. lia. Qed.

(** What a commit that returns has written. *)
Lemma commit_wrote tf st tx token st' tf' :
  published tf st -> tx_base tx = st -> tx_log tx <> [] -> commit tx token tf = (Ok st', tf') ->
  exists roots pages, write_trees tx = Ok (roots, pages) /\ len (tf_data tf) <= len (tf_data tf') /\ ts_frame_end st + len (commit_frame tx token roots pages) <= len (tf_data tf').
Proof using CL.
  intros ([Hfe _] & _) Hbase Hne E. unfold HEADER_REGION in Hfe. unfold commit in E. destruct (tx_log tx) as [|op log] eqn:El; [done|]. apply sbind_Ok_inv in E as ([roots pages] & F0 & E0 & E). injection E0 as Ew <-.
  exists roots, pages. split; [done|]. cbv beta iota zeta in E. rewrite commit_frame_eq, Hbase in E. apply sbind_Ok_inv in E as ([] & F1 & E1 & E). apply sbind_Ok_inv in E as ([] & F2 & E2 & E). injection E2 as <-.
  apply sbind_Ok_inv in E as ([] & F3 & E3 & E). injection E as _ <-. destruct (write_slot_ok _ _ _ E3) as [D3 _]. destruct (slot_offset_range (mkHeaderSlot (tr_generation (commit_trailer tx token roots (commit_body tx token pages))) (add64 (ts_frame_end st) (len (commit_frame tx token roots pages))) (ts_synced_frame_end st))) as (Ho & _).
  destruct (write_at_cases (ts_frame_end st) (commit_frame tx token roots pages) tf) as [(tf1 & Ew1 & D & L)|(tf1 & e & k & Ew1 & _)]; rewrite Ew1 in E1; [|done]. injection E1 as ->.
  change (tf_data (mkTreeFile (tf_disk F1) _)) with (tf_data F1) in D3. rewrite D3, len_overwrite_past, D, len_overwrite_past by (done || lia). lia.
Qed.

(** A commit that returns, in a file of moderate size, is published. *)
Lemma commit_committed tf st fit tx z token st' tf' :
  published tf st -> zset_on tf st fit tx z -> tx_log tx <> [] -> token_ok token -> ts_generation st < u64_max -> commit tx token tf = (Ok st', tf') -> moderate tf' ->
  len (tf_data tf) <= len (tf_data tf') /\ committed fit tx token (trees z) tf' st' /\ ts_frame_end st <= ts_frame_end st' /\
  forall roots pages, write_trees tx = Ok (roots, pages) -> len pages <= u32_max /\ ts_frame_end st + len (commit_frame tx token roots pages) <= u64_max.
Proof using CL.
  intros Hp Hz Hne Htok Hgen E Hm. pose proof Hz as (Hon & Hcnt & _ & _ & Hl). pose proof Hon as [_ (_ & Hbase & _)]. pose proof Hp as (Hfe & Hld & Hu & _).
  destruct (commit_wrote _ _ _ _ _ _ Hp Hbase Hne E) as (roots & pages & Ew & Hgr & Hsz). unfold moderate, PAGE_SIZE in Hm. pose proof (len_commit_frame tx token roots pages) as Hlc.
  assert (can_commit st tx token (trees z)) as Hcan.
  { split; [done|]. split; [intros t; rewrite len_trees; unfold u64_max; lia|]. split; [done|]. split; [rewrite Hcnt; pose proof (len_nonneg z); unfold u64_ok, u64_max; lia|].
    split; [done|]. split; [unfold FRAME_HEADER_SIZE, u64_max; lia|]. intros r p Erp. rewrite Ew in Erp. injection Erp as <- <-. unfold u64_max. lia. }
  pose proof (commit_steps fit tf st tx _ token roots pages Hp Hon Hcan Ew) as Hcm. rewrite E in Hcm. pose proof Hcm as (_ & _ & _ & _ & _ & _ & (r & p & Er & Est & Hpg & _)). rewrite Ew in Er. injection Er as <- <-.
  split; [done|]. split; [done|]. split.
  - rewrite Est. cbn [commit_state ts_frame_end]. rewrite Hbase, add64_small by (unfold HEADER_REGION, u64_max in *; pose proof (len_nonneg (commit_frame tx token roots pages)); lia). pose proof (len_nonneg (commit_frame tx token roots pages)). lia.
  - intros r p Erp. rewrite Ew in Erp. injection Erp as <- <-. rewrite len_pages in Hlc by done. pose proof (len_nonneg (encode_ops (tx_log tx))). unfold HEADER_REGION, PAGE_SIZE, FRAME_HEADER_SIZE, TRAILER_SIZE, u32_max, u64_max in *. lia.
Qed.

(** It is the next frame of the history. *)
Lemma commit_returned tf st h fit tx z token st' tf' :
  history tf st h -> tight tf -> zset_on tf st fit tx z -> logged (set_of h) (tx_log tx) z -> tx_log tx <> [] -> len (encode_ops (tx_log tx)) <= u32_max ->
  token_ok token -> ts_generation st < u64_max -> commit tx token tf = (Ok st', tf') -> moderate tf' ->
  tight tf' /\ ts_generation st' = ts_generation st + 1 /\
  exists fr, history tf' st' (fr :: h) /\ fr_set fr = z /\ fr_token fr = token /\ fh_base (fr_header fr) = false /\ decode_ops (fr_payload fr) = Ok (tx_log tx).
Proof using CL.
  intros Hh Ht Hz Hlog Hne Hol Htok Hgen E Hm. pose proof Hh as [Hp _]. destruct (commit_committed _ _ _ _ _ _ _ _ Hp Hz Hne Htok Hgen E Hm) as (Hgr & Hcm & Hle & Hsz).
  pose proof Hz as ([_ (_ & Hbase & _)] & _). pose proof Hcm as (_ & _ & _ & _ & Hg' & _). pose proof Hp as (Hfe & Hld & Hu & _). unfold moderate in Hm.
  assert (frame_room st tx token) as Hroom by (split; [done|]; split; [unfold FRAME_HEADER_SIZE, PAGE_SIZE, u64_max in *; lia|exact Hsz]).
  split; [by eapply (commit_tight tf st fit tx z token)|]. split; [by rewrite Hg', Hbase|].
  eapply (commit_history tf st h fit tx z token st' tf'); try done. split; [done|]. intros r p Erp. by apply Hsz in Erp as [? _].
Qed.

(** ** Writers never shrink a file *)

Definition grows {A : Type} (m : SR TreeFile A) : Prop := forall tf, len (tf_data tf) <= len (tf_data (m tf).2).

Lemma grows_ret {A : Type} (r : TreeFile -> result A) : grows (fun tf => (r tf, tf)).
Proof using Type. intros tf. cbn. lia. Qed.
Lemma grows_bind {A B : Type} (m : SR TreeFile A) (k : A -> SR TreeFile B) : grows m -> (forall a, grows (k a)) -> grows (sbind m k).
Proof using Type.
  intros Hm Hk tf. unfold sbind. specialize (Hm tf). destruct (m tf) as [[a|e|] tf1]; cbn [snd] in *; [|done..]. specialize (Hk a tf1). lia.
Qed.
Lemma grows_write o bs : grows (write_at o bs).
Proof using Type.
  intros tf. destruct (write_at_cases o bs tf) as [(tf1 & -> & D & _)|(tf1 & e & k & -> & D & _)]; cbn [snd]; rewrite D; apply overwrite_grows.
Qed.
Lemma grows_note e : grows (note_appended e).
Proof using Type. intros tf. cbn [note_appended snd]. change (tf_data (mkTreeFile (tf_disk tf) _)) with (tf_data tf). lia. Qed.
Lemma grows_sync : grows sync_file.
Proof using Type.
  intros tf. unfold sync_file, on_disk, IoBackend.sys_sync_data, IoBackend.sys_simple, tf_data. destruct (IoBackend.d_faults (tf_disk tf)) as [|[[k e]|] ev]; cbn; lia.
Qed.

Lemma grows_commit tx token : grows (commit tx token).
Proof using Type.
  unfold commit. destruct (tx_log tx); [apply grows_ret|]. apply grows_bind; [apply (grows_ret (fun _ => _))|]. intros [roots pages].
  apply grows_bind; [apply grows_write|]. intros _. apply grows_bind; [apply grows_note|]. intros _. apply grows_bind; [apply grows_write|]. intros _. apply (grows_ret (fun _ => _)).
Qed.

Lemma grows_replay locked tail : forall st, grows (replay_frames locked tail st).
Proof using Type.
  induction tail as [|frame tail IH]; intros st; cbn [replay_frames]; [apply (grows_ret (fun _ => _))|].
  apply grows_bind; [apply (grows_ret (fun _ => _))|]. intros header. destruct (fh_base header); [apply (grows_ret (fun _ => _))|].
  apply grows_bind; [apply (grows_ret (fun _ => _))|]. intros ops. apply grows_bind; [|done].
  intros tf. destruct (replay_all ops (begin tf st)) as [[[]|e|] tx]; [apply grows_commit|cbn; lia..].
Qed.

(** ** Replaying the later frames *)

(** What a reader sees of a frame. *)
Definition seen (fr : Frame) : Token * zset * result (list LoggedOp) := (fr_token fr, fr_set fr, decode_ops (fr_payload fr)).
Definition plain (fr : Frame) : Prop := fh_base (fr_header fr) = false.

Lemma frame_token_ok fr : frame_wf fr -> token_ok (fr_token fr).
Proof using Type. intros H. apply (fw_trailer _ H). Qed.

Lemma replay_frames_returned locked hs : forall hr e tf st ht st' tf',
  chain locked e (hs ++ hr) -> e <= tf_len locked -> history tf st ht -> tight tf -> set_of ht = set_of hr -> ts_generation st + Z.of_nat (length hs) <= u64_max ->
  replay_frames locked (reverse (at_of <$> hs)) st tf = (Ok st', tf') -> moderate tf' ->
  tight tf' /\ ts_generation st' = ts_generation st + Z.of_nat (length hs) /\
  exists hn, history tf' st' (hn ++ ht) /\ seen <$> hn = seen <$> hs /\ Forall plain hn /\ Forall plain hs.
Proof using CL.
  induction hs as [|fr hs IH] using rev_ind; intros hr e tf st ht st' tf' Hc Hl Hh Ht Hset Hgen E Hm.
  - cbn in E. injection E as <- <-. split; [done|]. split; [cbn; lia|]. by exists [].
  - rewrite <- app_assoc in Hc. cbn [app] in Hc. rewrite length_app in *. cbn [length] in *. rewrite fmap_app, reverse_app in E. cbn [fmap list_fmap reverse] in E. rewrite reverse_singleton in E. cbn [app replay_frames] in E.
    destruct (chain_app _ _ _ _ Hc) as [Hc2 Hle]. pose proof Hc2 as (_ & Hw & _ & Hfol & _). pose proof (chain_step _ _ _ _ Hc2 ltac:(lia)) as (_ & _ & _ & _ & Ehd & Eops & _ & _).
    cbn [at_of fa_start fa_trailer] in E. rewrite Ehd, sbind_slift_Ok in E. destruct (fh_base (fr_header fr)) eqn:Eb; [done|].
    unfold follows in Hfol. rewrite Eb in Hfol. destruct Hfol as (ops & Ed & Hne & Hlog). change (mkFrameAt (fr_start fr) (fr_end fr) (fr_trailer fr)) with (at_of fr) in E.
    rewrite Eops in E. cbn [rbind] in E. rewrite Ed, sbind_slift_Ok in E. apply sbind_Ok_inv in E as (st1 & tf1 & E1 & E2).
    pose proof Hh as [Hp _]. pose proof (stored_begin _ _ _ _ (history_stored _ _ _ Hh)) as Hz. rewrite Hset in Hz.
    destruct (replay_all_on tf st Hp _ _ _ Hlog _ Hz) as (tx & Er & Hz1 & Hl1). rewrite Er in E1. cbn [begin tx_log app] in Hl1.
    pose proof (grows_replay locked (reverse (at_of <$> hs)) st1 tf1) as Hgr. rewrite E2 in Hgr. cbn [snd] in Hgr. pose proof (moderate_mono _ _ Hgr Hm) as Hm1.
    pose proof (proj1 (decode_ops_iff _ _) Ed) as [_ Ep].
    destruct (commit_returned tf st ht false tx (fr_set fr) (fr_token fr) st1 tf1 Hh Ht Hz1) as (Ht1 & Hg1 & fr1 & Hh1 & Hs1 & Hk1 & Hb1 & Hd1); try done.
    + by rewrite Hset, Hl1.
    + by rewrite Hl1.
    + rewrite Hl1, <- Ep, (fw_payload _ Hw). apply (fw_header _ Hw).
    + by apply frame_token_ok.
    + lia.
    + destruct (IH (fr :: hr) e tf1 st1 (fr1 :: ht) st' tf' Hc Hl Hh1 Ht1 Hs1 ltac:(lia) E2 Hm) as (Ht' & Hg' & hn & Hh' & Hsn & Hp1 & Hp2).
      split; [done|]. split; [lia|]. exists (hn ++ [fr1]). rewrite <- app_assoc. split; [done|]. rewrite !fmap_app, Hsn. cbn. unfold seen at 2 4. rewrite Hs1, Hk1, Hd1, Hl1, Ed. rewrite !Forall_app, !Forall_singleton. done.
Qed.

(** ** The rebuilt file *)

Definition settle (st : TreeState) : SR TreeFile unit :=
  let! _ := sync_file in
  let! _ := write_slot (mkHeaderSlot (add64 (ts_generation st) 1) (ts_frame_end st) (ts_frame_end st)) in
  sync_file.

Lemma same_data_chain (F F' : TreeFile) e h : chain F e h -> e <= len (tf_data F) -> tf_data F' = tf_data F -> chain F' e h.
Proof using CL. intros Hc Hl D. eapply (chain_keep F F' e); [done|lia|done|by rewrite D|]. intros a b _ _. by rewrite D. Qed.

(** A file made durable is published as synced up to its last frame. *)
Lemma settle_history tf st h tf' : history tf st h -> tight tf -> ts_generation st < u64_max -> settle st tf = (Ok tt, tf') ->
  history tf' (state_at h (ts_generation st + 1) (end_of h)) h /\ tight tf'.
Proof using CL.
  intros Hh Ht Hgen E. pose proof Hh as [Hp Hc]. pose proof (chain_end _ _ _ Hc) as Ee. apply sbind_Ok_inv in E as ([] & F1 & E1 & E). apply sbind_Ok_inv in E as ([] & F2 & E2 & E3).
  pose proof Hp as (Hfe & Hld & Hu & _). pose proof (home_ok _ _ Hp) as (Hg & _). cbn in Hg. unfold u64_ok in Hg. destruct (published_slots _ _ Hp) as [B0 B1].
  apply sync_file_same in E1 as [D1 L1]. apply sync_file_same in E3 as [D3 L3]. assert (tight F1) as Ht1 by (unfold tight in *; congruence).
  assert (tight F2) as Ht2 by (eapply (slot_write_tight _ F1 F2); [done|lia|exact E2]). split; [|unfold tight in *; congruence].
  apply write_slot_ok in E2 as [D2 L2]. rewrite add64_small, Ee in D2 by lia. rewrite Ee in *.
  pose proof (publish_chain F1 tf' h (ts_generation st + 1) (end_of h)) as Hpc. cbv zeta in Hpc. unfold tight in *.
  apply Hpc; try lia; [|unfold slot_below, slot_at; rewrite D1; exact B0|unfold slot_below, slot_at; rewrite D1; exact B1|congruence].
  eapply same_data_chain; [exact Hc|lia|done].
Qed.

(** ** One path beside another *)

Lemma temp_path_apart path suffix : suffix <> ""%string -> temp_path path suffix <> path.
Proof using Type.
  intros Hs. unfold temp_path. induction path as [|c path IH]; [done|]. intros E. injection E as E. by apply IH.
Qed.

(** An operation that leaves the file at [p] alone. *)
Definition spares {A : Type} (p : string) (m : SR Dir A) : Prop := forall d, dir_files (m d).2 !! p = dir_files d !! p.

Lemma spares_pure {A : Type} p (r : Dir -> result A) : spares p (fun d => (r d, d)).
Proof using Type. by intros d. Qed.
Lemma spares_bind {A B : Type} p (m : SR Dir A) (k : A -> SR Dir B) : spares p m -> (forall a, spares p (k a)) -> spares p (sbind m k).
Proof using Type. intros Hm Hk d. unfold sbind. specialize (Hm d). destruct (m d) as [[a|e|] d1]; cbn [snd] in *; [|done..]. by rewrite (Hk a d1). Qed.
Lemma spares_dir_op p wrap : spares p (dir_op wrap).
Proof using Type. intros d. unfold dir_op. by destruct (dir_events d) as [|[msg|] ev]. Qed.
Lemma spares_on_file {A : Type} p q tf (m : SR TreeFile A) : q <> p -> spares p (on_file q tf m).
Proof using Type. intros Hq d. unfold on_file. destruct (m tf) as [[a|e|] tf']; cbn; by rewrite lookup_insert_ne. Qed.
Lemma spares_remove p q : q <> p -> spares p (remove_stale q).
Proof using Type. intros Hq. apply spares_bind; [apply spares_dir_op|]. intros _ d. cbn. by rewrite lookup_delete_ne. Qed.
Lemma spares_open_write p q : q <> p -> spares p (open_write q).
Proof using Type.
  intros Hq. apply spares_bind; [apply spares_dir_op|]. intros _. apply spares_bind.
  - intros d. unfold create. destruct (dir_files d !! q); [done|]. cbn. by rewrite lookup_insert_ne.
  - intros disk. apply spares_bind; [by apply spares_on_file|]. intros r. apply (spares_pure p (fun _ => _)).
Qed.
Lemma spares_open_existing p q : spares p (open_existing q).
Proof using Type. apply spares_bind; [apply spares_dir_op|]. intros _. apply spares_pure. Qed.

Lemma init_header_sizes disk tf : IoBackend.d_data disk = [] -> init_header (from_file disk) = (Ok tt, tf) -> tf_len tf = HEADER_REGION /\ len (tf_data tf) = HEADER_REGION.
Proof using Type.
  intros Hd E. unfold init_header in E. unfold from_file in E at 1. cbn [tf_len] in E. rewrite Hd in E. change (len [] =? 0) with true in E. cbv zeta iota in E. rewrite header_image in E.
  apply sbind_Ok_inv in E as ([] & F & E1 & E). injection E as <-. destruct (write_at_cases 0 (slot_encode slot_empty ++ replicate 256 x00 ++ replicate 3584 x00) (from_file disk)) as [(tf1 & Ew & D & L)|(tf1 & e & k & Ew & _)]; rewrite Ew in E1; [|done].
  injection E1 as ->. cbn [tf_len]. change (tf_data (mkTreeFile (tf_disk F) _)) with (tf_data F). rewrite D, L, len_overwrite_past, !len_app, len_slot_encode by done. unfold tf_data, from_file. cbn [tf_len tf_disk]. rewrite Hd. done.
Qed.

(** The file that [open_write] makes. *)
Lemma open_write_fresh p d tf d' : dir_files d !! p = None -> open_write p d = (Ok tf, d') ->
  tf_len tf = HEADER_REGION /\ len (tf_data tf) = HEADER_REGION /\ slot_below tf 0 2 /\ slot_below tf SLOT_SIZE 2.
Proof using CL.
  intros Hn E. apply sbind_Ok_inv in E as ([] & d1 & E1 & E). apply sbind_Ok_inv in E as (disk & d2 & E2 & E). apply sbind_Ok_inv in E as ([[] tf0] & d3 & E3 & E). injection E as <- <-. cbn [snd].
  assert (dir_files d1 !! p = None) as Hn1 by (pose proof (spares_dir_op p (io_error "open") d) as H; rewrite E1 in H; cbn [snd] in H; by rewrite H). unfold create in E2. rewrite Hn1 in E2. injection E2 as <- <-.
  unfold on_file in E3. destruct (init_header _) as [[[]|e|] tf1] eqn:Ei; [|done..]. injection E3 as <- _.
  destruct (fresh_published (from_file (IoBackend.mkDisk [] (default [] (head (dir_fresh d1))) false)) tf1 eq_refl eq_refl Ei) as [Hp _]. destruct (published_slots _ _ Hp) as [B0 B1].
  destruct (init_header_sizes (IoBackend.mkDisk [] (default [] (head (dir_fresh d1))) false) tf1 eq_refl Ei). done.
Qed.

Lemma remove_stale_gone p d d' : remove_stale p d = (Ok tt, d') -> dir_files d' !! p = None.
Proof using Type. intros E. apply sbind_Ok_inv in E as ([] & d1 & E1 & E). injection E as <-. cbn. apply lookup_delete_eq. Qed.

(** The end of a rebuild: the path keeps its file or gets the new one, made durable. *)
Lemma finish_rebuilt_cases path tp target st d r d' : tp <> path -> finish_rebuilt path tp target st d = (r, d') ->
  (r <> Ok tt /\ dir_files d' !! path = dir_files d !! path) \/
  (exists tf', settle st target = (Ok tt, tf') /\ dir_files d' !! path = Some (tf_disk tf')).
Proof using Type.
  intros Hne. unfold finish_rebuilt. fold (settle st). unfold sbind at 1, on_file. destruct (settle st target) as [[[]|e|] tf'] eqn:Es; [|intros E; injection E as <- <-; left; (split; [done|]); cbn; by rewrite lookup_insert_ne..].
  set (d1 := with_files _ d). assert (dir_files d1 !! path = dir_files d !! path) as H1 by (cbn; by rewrite lookup_insert_ne).
  assert (dir_files d1 !! tp = Some (tf_disk tf')) as H2 by (cbn; apply lookup_insert_eq). unfold rename. unfold sbind at 1 2.
  pose proof (spares_dir_op path (fun error => "zset tree: install rebuilt file: " +:+ error)%string d1) as Hs. pose proof (spares_dir_op tp (fun error => "zset tree: install rebuilt file: " +:+ error)%string d1) as Hs2.
  destruct (dir_op _ d1) as [[[]|e|] d2]; cbn [snd] in Hs, Hs2; [|intros E; injection E as <- <-; left; (split; [done|congruence])..].
  rewrite Hs2, H2. intros E. right. exists tf'. split; [done|].
  pose proof (spares_dir_op path (fun error => "zset tree: sync directory: " +:+ error)%string (with_files (<[path:=tf_disk tf']> (delete tp (dir_files d2))) d2)) as Hs3. rewrite E in Hs3. cbn [snd] in Hs3. rewrite Hs3. cbn. apply lookup_insert_eq.
Qed.

Lemma grows_settle st : grows (settle st).
Proof using Type. apply grows_bind; [apply grows_sync|]. intros _. apply grows_bind; [apply grows_write|]. intros _. apply grows_sync. Qed.

(** Sizes of the file at a path. *)
Definition moderate_at (d : Dir) (path : string) : Prop := forall disk, dir_files d !! path = Some disk -> len (IoBackend.d_data disk) + PAGE_SIZE <= 17592186044416.

(** ** The undo log *)

(** The batches a frame records, oldest first, and the index at or below which it records
    none. *)
Definition frame_groups (fr : Frame) : list (Token * list LoggedOp) :=
  if fh_base (fr_header fr) then match undo_decode (fr_payload fr) with Ok undo => ul_groups undo | _ => [] end
  else match decode_ops (fr_payload fr) with Ok ops => [(fr_token fr, ops)] | _ => [] end.
Definition frame_floor (fr : Frame) : Z :=
  if fh_base (fr_header fr) then match undo_decode (fr_payload fr) with Ok undo => ul_floor undo | _ => 0 end else 0.

Fixpoint groups_of (h : list Frame) : list (Token * list LoggedOp) :=
  match h with [] => [] | fr :: h => groups_of h ++ frame_groups fr end.
Fixpoint floor_of (h : list Frame) : Z :=
  match h with [] => 0 | fr :: h => Z.max (floor_of h) (frame_floor fr) end.

Lemma groups_of_app h1 h2 : groups_of (h1 ++ h2) = groups_of h2 ++ groups_of h1.
Proof using Type. induction h1 as [|fr h1 IH]; cbn [app groups_of]; [by rewrite app_nil_r|]. by rewrite IH, app_assoc. Qed.

Lemma undo_groups_chain tf hs : forall hr e floor acc, chain tf e (hs ++ hr) -> e <= tf_len tf -> 0 <= floor ->
  undo_groups tf (reverse (at_of <$> hs)) floor acc = Ok (Z.max floor (floor_of hs), acc ++ groups_of hs).
Proof using CL.
  induction hs as [|fr hs IH] using rev_ind; intros hr e floor acc Hc Hl Hf; [cbn; by rewrite Z.max_l, app_nil_r|].
  rewrite <- app_assoc in Hc. cbn [app] in Hc. rewrite fmap_app, reverse_app. cbn [fmap list_fmap]. rewrite reverse_singleton. cbn [app undo_groups].
  destruct (chain_app _ _ _ _ Hc) as [Hc2 Hle]. pose proof Hc2 as (_ & Hw & _ & Hfol & _). pose proof (chain_step _ _ _ _ Hc2 ltac:(lia)) as (_ & _ & _ & _ & Ehd & Eops & _ & _).
  cbn [at_of fa_start fa_trailer]. rewrite Ehd. cbn [rbind]. change (mkFrameAt (fr_start fr) (fr_end fr) (fr_trailer fr)) with (at_of fr). rewrite Eops. cbn [rbind]. rewrite groups_of_app. cbn [groups_of app].
  assert (forall x, floor_of (hs ++ [fr]) = x -> x = Z.max (floor_of hs) (frame_floor fr)) as Hfl.
  { intros x <-. clear. induction hs as [|f hs IH]; cbn [app floor_of]; [lia|]. rewrite IH. lia. }
  rewrite (Hfl _ eq_refl). unfold follows in Hfol. unfold frame_groups at 1, frame_floor. destruct (fh_base (fr_header fr)).
  - destruct Hfol as (_ & undo & ->). cbn [rbind]. assert (0 <= Z.max floor (ul_floor undo)) as Hm by lia. rewrite (IH (fr :: hr) e _ _ Hc Hl Hm), <- app_assoc. do 2 f_equal; lia.
  - destruct Hfol as (ops & -> & _). cbn [rbind]. rewrite (IH (fr :: hr) e _ _ Hc Hl Hf), <- app_assoc. do 2 f_equal; lia.
Qed.

Lemma frame_records_ok z fr : frame_wf fr -> follows z fr -> Forall group_ok (frame_groups fr) /\ u64_ok (frame_floor fr).
Proof using Type.
  intros Hw Hf. unfold follows in Hf. unfold frame_groups, frame_floor. destruct (fh_base (fr_header fr)).
  - destruct Hf as (_ & undo & E). rewrite E. apply undo_decode_iff in E as [[_ ->]|[[Hfl Hg] _]]; [|done]. split; [constructor|]. unfold undo_default, u64_ok, u64_max. cbn. lia.
  - destruct Hf as (ops & E & _). rewrite E. apply decode_ops_iff in E as [Hops Ep]. split; [|unfold u64_ok, u64_max; lia]. constructor; [|constructor]. split; [by apply frame_token_ok|]. split; [done|]. cbn [snd].
    rewrite <- Ep, (fw_payload _ Hw). apply (fw_header _ Hw).
Qed.

Lemma chain_records_ok tf e h : chain tf e h -> Forall group_ok (groups_of h) /\ u64_ok (floor_of h).
Proof using Type.
  revert e; induction h as [|fr h IH]; intros e; [split; [constructor|unfold u64_ok, u64_max; cbn; lia]|]. intros (_ & Hw & _ & Hf & Hc). destruct (IH _ Hc) as [H1 H2]. destruct (frame_records_ok _ _ Hw Hf) as [H3 H4].
  cbn [groups_of floor_of]. split; [by apply Forall_app|]. unfold u64_ok in *. lia.
Qed.

(** The undo log that a compaction of [h] with a floor keeps. *)
Definition undo_after (floor : Z) (h : list Frame) : UndoLog :=
  let f := Z.max floor (floor_of h) in mkUndoLog f (filter (fun g => f < tk_index g.1) (groups_of h)).

Lemma undo_log_after_chain tf e h floor : chain tf e h -> e <= tf_len tf -> u64_ok floor ->
  undo_log_after tf e floor = Ok (undo_after floor h) /\ undo_ok (undo_after floor h).
Proof using CL.
  intros Hc Hl Hf. destruct (chain_records_ok _ _ _ Hc) as [Hg Hfl]. split.
  - unfold undo_log_after. rewrite (frames_back_chain _ _ _ Hc Hl). cbn [rbind]. rewrite (undo_groups_chain tf h [] e) by (rewrite ?app_nil_r; (done || apply Hf)). done.
  - split; [unfold undo_after, u64_ok in *; cbn; lia|]. cbn [undo_after ul_groups]. apply Forall_forall. intros g [_ Hin]%list_elem_of_filter. by eapply (proj1 (Forall_forall _ _) Hg).
Qed.

(** ** Building the base *)

Lemma source_trees tf fr t : frame_in tf fr -> fr_end fr <= tf_len tf -> tree_under false (reader tf) t (trailer_root (fr_trailer fr) t) [] (trees (fr_set fr) t).
Proof using Type.
  intros Hi Hl. pose proof (fi_trees _ _ Hi t) as Ht. assert (reads (limit tf (fr_end fr)) tf) as Hr by (rewrite <- (limit_len tf) at 2; by apply reads_limit).
  destruct t; (eapply tree_under_reads; [|exact Ht]; exact Hr).
Qed.

(** A base frame written to a fresh file. *)
Lemma base_rebuilt tp d0 d1 target st tf src base undo z :
  dir_files d0 !! tp = None -> open_write tp d0 = (Ok target, d1) -> write_base src base undo target = (Ok st, tf) ->
  (forall t, tree_under false (reader src) t (trailer_root base t) [] (trees z t)) -> base_ok base undo z -> moderate tf ->
  tight tf /\ exists ps r0 r1, let b := base_frame base undo z ps r0 r1 in st = state_at [b] 2 HEADER_REGION /\ history tf st [b].
Proof using CL.
  intros Hn Eo Ew Ht Hok Hm. destruct (open_write_fresh _ _ _ _ Hn Eo) as (Hl & Hd & B0 & B1).
  pose proof (write_base_ok (tf_data target) Hd src base undo target z Ht Hok eq_refl Hl B0 B1) as H. rewrite Ew in H. destruct (H Hm) as (ps & r0 & r1 & Est & Hh & Htt & _).
  split; [done|]. by exists ps, r0, r1.
Qed.

Lemma slift_Ok_inv {S A : Type} (r : result A) (s s' : S) a : slift r s = (Ok a, s') -> r = Ok a /\ s' = s.
Proof using Type. unfold slift. by intros [= -> ->]. Qed.

Lemma compact_build_spares path floor : spares path (compact_build path floor).
Proof using Type.
  apply spares_bind; [apply spares_open_existing|]. intros [source|]; [|apply (spares_pure path (fun _ => _))].
  apply spares_bind; [apply (spares_pure path (fun _ => _))|]. intros latest. destruct (_ =? _); [apply (spares_pure path (fun _ => _))|].
  apply spares_bind; [apply (spares_pure path (fun _ => _))|]. intros trailer. apply spares_bind; [apply (spares_pure path (fun _ => _))|]. intros undo.
  assert (temp_path path ".compacting" <> path) as Hne by (by apply temp_path_apart). apply spares_bind; [by apply spares_remove|]. intros _. apply spares_bind; [by apply spares_open_write|]. intros target.
  apply spares_bind; [by apply spares_on_file|]. intros r. apply (spares_pure path (fun _ => _)).
Qed.

(** What the part without the lock hands over: the newest frame's set as a base. *)
Lemma compact_build_base path floor d disk st h base target st1 d1 :
  dir_files d !! path = Some disk -> history (from_file disk) st h -> u64_ok floor -> len (undo_encode (undo_after floor h)) <= u32_max ->
  compact_build path floor d = (Ok (CompactBuilt base target st1), d1) -> moderate target ->
  exists fr h', h = fr :: h' /\ base = at_of fr /\ tight target /\
    exists ps r0 r1, let b := base_frame (fr_trailer fr) (undo_after floor h) (fr_set fr) ps r0 r1 in st1 = state_at [b] 2 HEADER_REGION /\ history target st1 [b].
Proof using CL.
  intros Hd Hh Hfl Hul E Hm. pose proof Hh as [Hp Hc]. pose proof Hp as ([Hfe Hfl'] & _). apply sbind_Ok_inv in E as (source & d2 & E1 & E). apply sbind_Ok_inv in E1 as ([] & d3 & Eop & E1). injection E1 as <- <-.
  pose proof (spares_dir_op path (io_error "open") d) as Hs. rewrite Eop in Hs. cbn [snd] in Hs. rewrite Hs, Hd in E. cbn [fmap option_fmap option_map] in E.
  rewrite (published_state _ _ Hp), sbind_slift_Ok in E. destruct (Z.eqb_spec (ts_frame_end st) HEADER_REGION); [done|]. destruct h as [|fr h]; [done|].
  pose proof (chain_step _ _ _ _ Hc Hfl') as (He & _ & _ & Ht & _ & _ & Hst & _). rewrite Ht in E. cbn [rbind ok_or] in E. rewrite sbind_slift_Ok in E.
  destruct (undo_log_after_chain _ _ _ floor Hc Hfl' Hfl) as [Eu Huok]. rewrite Eu, sbind_slift_Ok in E.
  apply sbind_Ok_inv in E as ([] & d4 & Er & E). apply sbind_Ok_inv in E as (tgt & d5 & Eo & E). apply sbind_Ok_inv in E as ([s1 t1] & d6 & Ew & E). cbn [fst snd] in E. injection E as <- <- <- _.
  unfold on_file in Ew. destruct (write_base _ _ _ tgt) as [[s2|e|] t2] eqn:Ewb; [|done..]. injection Ew as -> -> _. pose proof Hc as (_ & Hw & Hi & _).
  exists fr, h. split; [done|]. split; [unfold at_of; by rewrite Hst, He|].
  eapply (base_rebuilt _ _ _ tgt s1 t1 (from_file disk)); [by eapply remove_stale_gone|exact Eo|exact Ewb| | |done].
  - intros t. apply source_trees; [done|]. by rewrite <- He.
  - constructor; [apply Hw|apply Hw|by apply frame_token_ok|done|done].
Qed.

(** ** Installing it *)

(** The frames of [h] from the base on. *)
Definition kept_from (base : FrameAt) (h hs : list Frame) : Prop := exists fr hr, h = hs ++ fr :: hr /\ fr_end fr = fa_end base /\ fr_trailer fr = fa_trailer base.

Lemma published_generation tf st : published tf st -> 0 <= ts_generation st <= u64_max.
Proof using Type. intros Hp. pose proof (home_ok _ _ Hp) as (Hg & _). exact Hg. Qed.

Lemma chain_long tf e h : chain tf e h -> HEADER_REGION + Z.of_nat (length h) <= e.
Proof using CL.
  revert e; induction h as [|fr h IH]; intros e Hc; cbn [chain] in Hc; [subst e; cbn; lia|]. destruct Hc as (-> & Hw & Hi & _ & Hc).
  pose proof (IH _ Hc). pose proof (fr_end_bounds _ _ Hw Hi). unfold FRAME_HEADER_SIZE, TRAILER_SIZE in *. cbn [length]. lia.
Qed.

Lemma compact_finish_installs path base target st1 b d disk stl hl r d' :
  dir_files d !! path = Some disk -> history (from_file disk) stl hl -> tight target -> history target st1 [b] -> ts_generation st1 = 2 -> HEADER_REGION < fa_end base ->
  (forall fr, fr ∈ hl -> fr_end fr = fa_end base -> fr_trailer fr = fa_trailer base -> fr_set fr = fr_set b) ->
  compact_finish path (CompactBuilt base target st1) d = (r, d') -> moderate_at d' path ->
  (dir_files d' !! path = Some disk /\ (forall c, r = Ok c -> frames_after (from_file disk) (ts_frame_end stl) base = Ok None)) \/
  exists disk' st' hs hn, dir_files d' !! path = Some disk' /\ kept_from base hl hs /\ history (from_file disk') st' (hn ++ [b]) /\ seen <$> hn = seen <$> hs /\ Forall plain hn /\ Forall plain hs.
Proof using CL.
  intros Hd Hh Ht Hb Hg Hbe Hid E Hm. pose proof Hh as [Hp Hc]. pose proof Hp as ([Hfe Hfl] & Hld & Hu & _). assert (temp_path path ".compacting" <> path) as Hne by (by apply temp_path_apart). cbn [compact_finish] in E. unfold open_existing in E. unfold sbind at 1 2 in E.
  pose proof (spares_dir_op path (io_error "open") d) as Hs. destruct (dir_op (io_error "open") d) as [[[]|e|] d1]; cbn [snd] in Hs; [|injection E as <- <-; left; (split; [congruence|done])..].
  rewrite Hs, Hd in E. cbn [fmap option_fmap option_map] in E. rewrite (published_state _ _ Hp), sbind_slift_Ok in E.
  destruct (frames_after_chain _ _ _ base Hbe Hc Hfl) as [Efa|(hs & fr & hr & -> & Hfe1 & Hft & Efa)]; rewrite Efa, sbind_slift_Ok in E.
  { unfold sbind at 1 in E. injection E as <- <-. left. split; [|done]. rewrite (spares_remove path _ Hne d1). congruence. }
  unfold sbind at 1 in E. pose proof (spares_on_file path (temp_path path ".compacting") target (replay_frames (from_file disk) (reverse (at_of <$> hs)) st1) Hne d1) as Hs2. unfold on_file in E, Hs2.
  destruct (replay_frames (from_file disk) (reverse (at_of <$> hs)) st1 target) as [[st2|e|] tf2] eqn:Er; cbn [snd] in Hs2; [|injection E as <- <-; left; (split; [congruence|done])..]. cbn [fst snd] in E.
  unfold sbind in E. destruct (finish_rebuilt path _ tf2 st2 _) as [r3 d3] eqn:Ef. destruct (finish_rebuilt_cases _ _ _ _ _ _ _ Hne Ef) as [[Hr3 Hs3]|(tf3 & Es & H3)].
  { destruct r3 as [[]|e|]; [done|..]; injection E as <- <-; left; (split; [congruence|done]). }
  assert (d' = d3) as -> by (destruct r3; by injection E as _ <-). right.
  assert (moderate tf3) as Hm3 by exact (Hm _ H3). assert (moderate tf2) as Hm2 by (eapply moderate_mono; [|exact Hm3]; pose proof (grows_settle st2 tf2) as Hgr; by rewrite Es in Hgr).
  pose proof (chain_long _ _ _ Hc) as Hlen. rewrite length_app in Hlen. cbn [length] in Hlen. unfold HEADER_REGION in Hlen.
  destruct (replay_frames_returned (from_file disk) hs (fr :: hr) (ts_frame_end stl) target st1 [b] st2 tf2 Hc Hfl Hb Ht) as (Ht2 & Hg2 & hn & Hh2 & Hsn & Hpl1 & Hpl2); [|lia|done|done|].
  { cbn [set_of]. symmetry. apply Hid; [|done|done]. apply elem_of_app. right. by left. }
  assert (ts_generation st2 < u64_max) as Hg2' by lia.
  destruct (settle_history _ _ _ _ Hh2 Ht2 Hg2' Es) as [Hh3 Ht3]. exists (tf_disk tf3), (state_at (hn ++ [b]) (ts_generation st2 + 1) (end_of (hn ++ [b]))), hs, hn.
  rewrite from_file_tight by done. split; [done|]. split; [by exists fr, hr|done].
Qed.

(** Two frames of a chain that end at the same place are one. *)
Lemma chain_below tf h : forall e fr, chain tf e h -> fr ∈ h -> fr_end fr <= e.
Proof using CL.
  induction h as [|f h IH]; intros e fr Hc Hin; [by apply elem_of_nil in Hin|]. destruct Hc as (-> & Hw & Hi & _ & Hc). pose proof (fr_end_bounds _ _ Hw Hi). unfold FRAME_HEADER_SIZE, TRAILER_SIZE in *.
  apply elem_of_cons in Hin as [->|Hin]; [lia|]. pose proof (IH _ _ Hc Hin). lia.
Qed.

Lemma chain_head_new tf e f h fr : chain tf e (f :: h) -> fr ∈ h -> fr_end fr < fr_end f.
Proof using CL.
  intros (_ & Hw & Hi & _ & Hc) Hin. pose proof (fr_end_bounds _ _ Hw Hi). unfold FRAME_HEADER_SIZE, TRAILER_SIZE in *. pose proof (chain_below _ _ _ _ Hc Hin). lia.
Qed.

Lemma chain_split tf h1 fr1 h2 fr2 h4 : forall e h3, chain tf e (h1 ++ fr1 :: h2) -> h1 ++ fr1 :: h2 = h3 ++ fr2 :: h4 -> fr_end fr1 = fr_end fr2 -> h1 = h3 /\ fr1 = fr2 /\ h2 = h4.
Proof using CL.
  induction h1 as [|f h1 IH]; intros e [|g h3] Hc E Ee; cbn [app] in *.
  - by injection E as -> ->.
  - injection E as -> ->. assert (fr2 ∈ h3 ++ fr2 :: h4) as Hin by (apply elem_of_app; right; by left). pose proof (chain_head_new _ _ _ _ _ Hc Hin). lia.
  - injection E as -> <-. assert (fr1 ∈ h1 ++ fr1 :: h2) as Hin by (apply elem_of_app; right; by left). pose proof (chain_head_new _ _ _ _ _ Hc Hin). lia.
  - injection E as <- E. destruct Hc as (_ & _ & _ & _ & Hc). destruct (IH _ _ Hc E Ee) as (-> & -> & ->). done.
Qed.

Lemma moderate_pair (F : TreeFile) d path : dir_files d !! path = Some (tf_disk F) -> moderate_at d path -> moderate F.
Proof using Type. intros H Hm. exact (Hm _ H). Qed.

(** What [path] holds after a compaction whose writers meanwhile appended [hs] to [h]: the
    untouched file, or the base with the later frames on it. *)
Definition compacted (floor : Z) (h hs h' : list Frame) : Prop :=
  exists b hn, h' = hn ++ [b] /\ fr_set b = set_of h /\ (exists fr, head h = Some fr /\ fr_token b = fr_token fr) /\ fh_base (fr_header b) = true /\
    undo_decode (fr_payload b) = Ok (undo_after floor h) /\ seen <$> hn = seen <$> hs /\ Forall plain hn.

Lemma set_of_seen hn hs h1 h2 : seen <$> hn = seen <$> hs -> set_of h1 = set_of h2 -> set_of (hn ++ h1) = set_of (hs ++ h2).
Proof using Type. destruct hn as [|f hn], hs as [|g hs]; cbn; try done. intros E _. unfold seen in E. injection E. done. Qed.

Lemma compact_outcome path floor d disk st h base target st1 d1 d2 disk2 st2 hs r d' :
  dir_files d !! path = Some disk -> history (from_file disk) st h -> u64_ok floor -> len (undo_encode (undo_after floor h)) <= u32_max ->
  compact_build path floor d = (Ok (CompactBuilt base target st1), d1) -> moderate target ->
  dir_files d2 !! path = Some disk2 -> history (from_file disk2) st2 (hs ++ h) ->
  compact_finish path (CompactBuilt base target st1) d2 = (r, d') -> moderate_at d' path ->
  (dir_files d' !! path = Some disk2 /\ forall c, r <> Ok c) \/
  (exists disk' st' h', dir_files d' !! path = Some disk' /\ history (from_file disk') st' h' /\ compacted floor h hs h').
Proof using CL.
  intros Hd Hh Hfl Hul Eb Hm Hd2 Hh2 Ef Hmd. pose proof Hh2 as [([_ Hfe2] & _) Hc2].
  destruct (compact_build_base _ _ _ _ _ _ _ _ _ _ Hd Hh Hfl Hul Eb Hm) as (fr & h0 & -> & -> & Ht & ps & r0 & r1 & Est & Hb). cbv zeta in *. set (b := base_frame _ _ _ _ _ _) in *.
  pose proof Hh as [_ (_ & Hw & Hi & _)]. pose proof (fr_end_bounds _ _ Hw Hi) as Hbd. unfold FRAME_HEADER_SIZE, TRAILER_SIZE in Hbd.
  assert (ts_generation st1 = 2) as Hg by (rewrite Est; done). assert (fr ∈ hs ++ fr :: h0) as Hin by (apply elem_of_app; right; by left).
  destruct (compact_finish_installs path (at_of fr) target st1 b d2 disk2 st2 (hs ++ fr :: h0) r d' Hd2 Hh2 Ht Hb Hg) as [[Hk Hn]|(disk' & st' & hs' & hn & Hd' & (fr' & hr & Eh & Efe & _) & Hh' & Hsn & Hp1 & Hp2)]; try done.
  - cbn. lia.
  - intros f Hf Hfe _. apply list_elem_of_split in Hf as (l1 & l2 & El). destruct (chain_split _ _ _ _ f l2 _ l1 Hc2 El) as (_ & <- & _); done.
  - left. split; [done|]. intros c Hr. specialize (Hn c Hr). rewrite (frames_after_above _ _ _ _ _ Hc2) in Hn by lia. done.
  - right. exists disk', st', (hn ++ [b]). split; [done|]. split; [done|]. exists b, hn. split; [done|]. split; [done|]. split; [by exists fr|]. split; [done|]. split.
    + apply undo_decode_iff. right. split; [|done]. by eapply undo_log_after_chain; [apply Hh|apply Hh|].
    + destruct (chain_split _ _ _ _ fr' hr _ hs' Hc2 Eh) as (-> & _ & _); done.
Qed.

(** ** Rewinds below the base *)

(** The trailer of a published frame, and its trees. *)
Lemma published_trailer tf st z : published tf st -> trees_in false tf st (trees z) -> ts_count st = len z -> HEADER_REGION < ts_frame_end st ->
  exists t, trailer_ending_at tf (ts_frame_end st) = Ok (Some t) /\ tr_count t = len z /\ forall tr, tree_under false (reader tf) tr (trailer_root t tr) [] (trees z tr).
Proof using CL.
  intros ((Hfe & Hfl) & Hld & Hu & _ & _ & Hst) Ht Hc Hgt. destruct Hst as [[E _]|(Hb & t & Et & Hlt & Est)]; [lia|]. exists t. split; [|split].
  - unfold trailer_ending_at. unfold HEADER_REGION, TRAILER_SIZE in *. destruct (Z.ltb_spec (tf_len tf) (ts_frame_end st)); [lia|]. destruct (Z.ltb_spec (ts_frame_end st) (4096 + 72)); [lia|]. cbn [orb].
    rewrite (read_slice tf (ts_frame_end st - 72) 72) by lia. replace (ts_frame_end st - 72 + 72) with (ts_frame_end st) by lia. cbn [rbind]. rewrite Et. destruct (Z.ltb_spec (tr_frame_start t) (ts_frame_end st)); [done|lia].
  - rewrite <- Hc, Est. done.
  - intros tr. specialize (Ht tr). assert (reads (limit tf (ts_frame_end st)) tf) as Hr by (rewrite <- (limit_len tf) at 2; by apply reads_limit).
    rewrite Est in Ht at 2. destruct tr; (eapply tree_under_reads; [|exact Ht]; exact Hr).
Qed.

Lemma undo_default_ok : undo_ok undo_default /\ len (undo_encode undo_default) <= u32_max.
Proof using Type. split; [split; [unfold u64_ok, u64_max; cbn; lia|constructor]|by vm_compute]. Qed.

(** The scratch file of a rewind: the base's set with the undone changes taken back. *)
Lemma revert_base_returned tp d0 d1 step src base undone at_ z0 z t step' :
  dir_files d0 !! tp = None -> open_write tp d0 = (Ok step, d1) ->
  (forall tr, tree_under false (reader src) tr (trailer_root base tr) [] (trees z tr)) -> tr_count base = len z -> token_ok (tr_token base) -> zset_ok z -> zset_ok z0 ->
  logged z0 (mjoin (snd <$> undone)) z -> token_ok at_ -> revert_base src base undone at_ step = (Ok t, step') -> moderate step' ->
  tr_count t = len z0 /\ forall tr, tree_under false (reader step') tr (trailer_root t tr) [] (trees z0 tr).
Proof using CL.
  intros Hn Eo Hsrc Hcnt Htok Hz Hz0 Hlog Hat E Hm. apply sbind_Ok_inv in E as (copied & F1 & E1 & E). apply sbind_Ok_inv in E as (rev & F2 & E2 & E). injection E as Et <-.
  assert (len (tf_data F1) <= len (tf_data F2)) as Hgr.
  { destruct (revert_all _ _) as [[[]|e|] tx] in E2; [|by injection E2 as _ <-..]. pose proof (grows_commit tx at_ F1) as Hg. by rewrite E2 in Hg. }
  pose proof (moderate_mono _ _ Hgr Hm) as Hm1. destruct undo_default_ok as [Hu1 Hu2].
  destruct (base_rebuilt tp d0 d1 step copied F1 src base undo_default z Hn Eo E1 Hsrc) as (Ht1 & ps & r0 & r1 & Est & Hh1); [by constructor|done|]. cbv zeta in *. set (b := base_frame _ _ _ _ _ _) in *.
  pose proof Hh1 as [Hp1 Hc1]. pose proof (history_stored _ _ _ Hh1) as Hst. cbn [set_of fr_set b base_frame] in Hst. pose proof (stored_begin _ _ _ _ Hst) as Hon.
  destruct (revert_all_on F1 copied Hp1 _ _ _ _ Hlog Hz0 Hon) as (tx & Er & Hz1 & Hcase). unfold undone_ops in E2. rewrite Er in E2.
  assert (published F2 rev /\ trees_in false F2 rev (trees z0) /\ ts_count rev = len z0 /\ HEADER_REGION < ts_frame_end rev) as (Hp2 & Ht2 & Hc2 & Hgt).
  { assert (HEADER_REGION < ts_frame_end copied) as Hgt1 by (pose proof (chain_bounds _ _ _ Hc1) as [_ Hb]; specialize (Hb ltac:(done)); unfold FRAME_HEADER_SIZE, TRAILER_SIZE in Hb; lia).
    destruct Hcase as [[E0 ->]|Hne].
    - rewrite E0 in Hlog. inversion Hlog; subst z0. cbn in E2. injection E2 as <- <-. destruct Hst as (? & ? & ? & _). done.
    - destruct (commit_committed F1 copied false tx z0 at_ rev F2 Hp1 Hz1 Hne Hat) as (_ & (Hp2 & Ht2 & Hc2 & _) & Hle & _); [by rewrite Est|done|done|].
      split; [done|]. split; [done|]. split; [by rewrite Hc2; apply Hz1|lia]. }
  destruct (published_trailer _ _ _ Hp2 Ht2 Hc2 Hgt) as (t' & E' & ? & ?). rewrite E' in Et. cbn [rbind ok_or] in Et. injection Et as ->. done.
Qed.

(** The first half of [rewrite_below_base]: the scratch file. *)
Definition rewind_step (path : string) (file : TreeFile) (base : Trailer) (undone : list (Token * list LoggedOp)) (at_ : Token) : SR Dir (Trailer * TreeFile) :=
  let! _ := remove_stale (temp_path path ".rewinding") in
  let! step := open_write (temp_path path ".rewinding") in
  on_file (temp_path path ".rewinding") step (revert_base file base undone at_).

(** Its second half. *)
Definition rewind_install (path : string) (trailer : Trailer) (step : TreeFile) (at_ : Token) (log : UndoLog) : SR Dir unit :=
  let! _ := remove_stale (temp_path path ".rewound") in
  let! target := open_write (temp_path path ".rewound") in
  let! r := on_file (temp_path path ".rewound") target (write_base step (with_token at_ trailer) log) in
  let! _ := finish_rebuilt path (temp_path path ".rewound") r.2 r.1 in
  remove_stale (temp_path path ".rewinding").

Lemma rewrite_halves path file base undo token d : (tk_index token <=? ul_floor undo) = false ->
  let kept := kept_groups token (ul_groups undo) in let at_ := token_kept token kept in
  rewrite_below_base path file base undo token d =
  (let! r := rewind_step path file (fa_trailer base) (undone_groups token (ul_groups undo)) at_ in rewind_install path r.1 r.2 at_ (mkUndoLog (ul_floor undo) kept)) d.
Proof using Type.
  intros E kept at_. unfold rewrite_below_base, rewind_step, rewind_install, sbind. rewrite E. cbv zeta. fold kept at_. destruct (remove_stale _ d) as [[[]|e|] d1]; [|done..].
  destruct (open_write _ d1) as [[step|e|] d2]; [|done..]. destruct (on_file _ step _ d2) as [[[t s']|e|] d3]; done.
Qed.

Lemma spares_rewind_step path file base undone at_ : spares path (rewind_step path file base undone at_).
Proof using Type.
  assert (temp_path path ".rewinding" <> path) as Hne by (by apply temp_path_apart). apply spares_bind; [by apply spares_remove|]. intros _. apply spares_bind; [by apply spares_open_write|]. intros step. by apply spares_on_file.
Qed.

(** A path that is left alone, or gets a file with one base frame. *)
Definition rebased (path : string) (d d' : Dir) (z : zset) (at_ : Token) (log : UndoLog) : Prop :=
  exists disk st b, dir_files d' !! path = Some disk /\ history (from_file disk) st [b] /\ fr_set b = z /\ fr_token b = at_ /\ fh_base (fr_header b) = true /\ undo_decode (fr_payload b) = Ok log.

Lemma rewind_install_outcome path trailer step at_ log z d r d' :
  (forall tr, tree_under false (reader step) tr (trailer_root trailer tr) [] (trees z tr)) -> tr_count trailer = len z -> zset_ok z -> token_ok at_ -> undo_ok log -> len (undo_encode log) <= u32_max ->
  rewind_install path trailer step at_ log d = (r, d') -> moderate_at d' path ->
  (r <> Ok tt /\ dir_files d' !! path = dir_files d !! path) \/ rebased path d d' z at_ log.
Proof using CL.
  intros Htr Hcnt Hz Hat Hlog Hll E Hm. assert (temp_path path ".rewinding" <> path) as Hne1 by (by apply temp_path_apart). assert (temp_path path ".rewound" <> path) as Hne2 by (by apply temp_path_apart).
  unfold rewind_install in E. unfold sbind at 1 in E. pose proof (spares_remove path _ Hne2 d) as S1. destruct (remove_stale (temp_path path ".rewound") d) as [[[]|e|] d1] eqn:E1; cbn [snd] in S1; [|injection E as <- <-; by left..].
  unfold sbind at 1 in E. pose proof (spares_open_write path _ Hne2 d1) as S2. destruct (open_write _ d1) as [[target|e|] d2] eqn:E2; cbn [snd] in S2; [|injection E as <- <-; left; (split; [done|congruence])..].
  unfold sbind at 1 in E. pose proof (spares_on_file path _ target (write_base step (with_token at_ trailer) log) Hne2 d2) as S3. unfold on_file in E, S3.
  destruct (write_base step (with_token at_ trailer) log target) as [[st|e|] tf] eqn:E3; cbn [snd] in S3; [|injection E as <- <-; left; (split; [done|congruence])..]. cbn [fst snd] in E.
  unfold sbind in E. destruct (finish_rebuilt path _ tf st _) as [r4 d4] eqn:E4. destruct (finish_rebuilt_cases _ _ _ _ _ _ _ Hne2 E4) as [[Hr4 S4]|(tf' & Es & S4)].
  { left. destruct r4 as [[]|e|]; [done|..]; injection E as <- <-; (split; [done|congruence]). }
  assert (dir_files d' !! path = Some (tf_disk tf')) as S5.
  { destruct r4 as [[]|e|]; [|injection E as _ <-; done..]. pose proof (spares_remove path _ Hne1 d4) as S5. rewrite E in S5. cbn [snd] in S5. congruence. }
  right. assert (moderate tf') as Hm' by exact (Hm _ S5). assert (moderate tf) as Hmt by (eapply moderate_mono; [|exact Hm']; pose proof (grows_settle st tf) as Hg; by rewrite Es in Hg).
  destruct (base_rebuilt _ _ _ target st tf step (with_token at_ trailer) log z (remove_stale_gone _ _ _ E1) E2 E3) as (Ht & ps & r0 & r1 & Est & Hh); [intros []; [exact (Htr Score)|exact (Htr Member)]|by constructor|done|].
  cbv zeta in *. set (b := base_frame _ _ _ _ _ _) in *. destruct (settle_history tf st [b] tf' Hh Ht) as [Hh' Ht']; [by rewrite Est|done|].
  exists (tf_disk tf'), (state_at [b] (ts_generation st + 1) (end_of [b])), b. rewrite from_file_tight by done. split; [done|]. split; [done|]. split; [done|]. split; [done|]. split; [done|]. apply undo_decode_iff. by right.
Qed.

Lemma len_encode_filter (P : Token * list LoggedOp -> Prop) `{!forall g, Decision (P g)} gs : len (encode_groups (filter P gs)) <= len (encode_groups gs).
Proof using Type.
  induction gs as [|g gs IH]; [done|]. rewrite filter_cons. rewrite encode_groups_cons, len_app. pose proof (len_nonneg (encode_group g)).
  case_decide; [rewrite encode_groups_cons, len_app; lia|lia].
Qed.

(** The log that a rewind keeps fits where the old one did. *)
Lemma kept_log_ok payload undo token : undo_decode payload = Ok undo -> len payload <= u32_max ->
  let kept := mkUndoLog (ul_floor undo) (kept_groups token (ul_groups undo)) in undo_ok kept /\ len (undo_encode kept) <= u32_max.
Proof using Type.
  intros E Hl kept. assert (undo_ok undo /\ len (undo_encode undo) <= u32_max) as [[Hf Hg] Hu].
  { apply undo_decode_iff in E as [[_ ->]|[Hok ->]]; [apply undo_default_ok|done]. }
  split.
  - split; [done|]. apply Forall_forall. intros g [_ Hin]%list_elem_of_filter. by eapply (proj1 (Forall_forall _ _) Hg).
  - rewrite undo_encode_eq in *. cbn [kept ul_floor ul_groups]. rewrite len_app in *. unfold kept_groups. pose proof (len_encode_filter (fun g => token_ltb g.1 token) (ul_groups undo)). lia.
Qed.

Lemma token_kept_ok token undo kept : token_ok token -> undo_ok undo -> kept ⊆ ul_groups undo -> token_ok (token_kept token kept).
Proof using Type.
  intros Ht [_ Hg] Hs. unfold token_kept. destruct (last kept) as [g|] eqn:El; [|split; [apply Ht|unfold u64_ok, u64_max; cbn; lia]].
  apply last_Some_elem_of in El. apply Hs in El. by apply (proj1 (Forall_forall _ _) Hg).
Qed.

(** A rewind to before a token that the base is not before. *)
Lemma rewind_loop_base tf token hs b undo : forall fuel e, chain tf e (hs ++ [b]) -> e <= tf_len tf -> e <= Z.of_nat fuel ->
  fh_base (fr_header b) = true -> undo_decode (fr_payload b) = Ok undo -> Forall plain hs -> Forall (fun fr => token_ltb (fr_token fr) token = false) (hs ++ [b]) ->
  rewind_loop fuel tf e token = Ok (BelowBase (at_of b) undo).
Proof using CL.
  induction hs as [|fr hs IH]; intros fuel e Hc Hl Hf Hb Hu Hp Ht; cbn [app] in *; pose proof (chain_step _ _ _ _ Hc Hl) as (He & Hh & Hs & Et & Ehd & Eops & Hst & Hc');
    (destruct fuel as [|fuel]; [unfold HEADER_REGION in *; lia|]); cbn [rewind_loop]; (destruct (Z.leb_spec e HEADER_REGION); [lia|]); rewrite Et; cbn [rbind ok_or]; apply Forall_cons in Ht as [Ht1 Ht2]; unfold fr_token in Ht1; rewrite Ht1; cbn [fa_start]; rewrite Hst, Ehd; cbn [rbind].
  - rewrite Hb. subst e. unfold at_of in Eops. rewrite Eops. cbn [rbind]. by rewrite Hu.
  - apply Forall_cons in Hp as [Hp1 Hp2]. unfold plain in Hp1. rewrite Hp1. apply IH; try done; lia.
Qed.

(** What it is given: a file whose base recorded the changes since [z0]. *)
Record below_ok (d : Dir) (path : string) (disk : IoBackend.Disk) (st : TreeState) (hs : list Frame) (b : Frame) (undo : UndoLog) (token : Token) (z0 : zset) : Prop := {
  bl_file : dir_files d !! path = Some disk;
  bl_history : history (from_file disk) st (hs ++ [b]);
  bl_plain : Forall plain hs;
  bl_base : fh_base (fr_header b) = true;
  bl_undo : undo_decode (fr_payload b) = Ok undo;
  bl_later : Forall (fun fr => token_ltb (fr_token fr) token = false) (hs ++ [b]);
  bl_floor : ul_floor undo < tk_index token;
  bl_token : token_ok token;
  bl_set : zset_ok z0;
  bl_logged : logged z0 (mjoin (snd <$> undone_groups token (ul_groups undo))) (fr_set b);
}.

(** The tokens and log that the rewritten base has. *)
Definition kept_log (undo : UndoLog) (token : Token) : UndoLog := mkUndoLog (ul_floor undo) (kept_groups token (ul_groups undo)).
Definition kept_token (undo : UndoLog) (token : Token) : Token := token_kept token (kept_groups token (ul_groups undo)).

Lemma rewrite_below_outcome d path disk st hs b undo token z0 r d' :
  below_ok d path disk st hs b undo token z0 ->
  (forall t step d1, rewind_step path (from_file disk) (fr_trailer b) (undone_groups token (ul_groups undo)) (kept_token undo token) d = (Ok (t, step), d1) -> moderate step) ->
  rewrite_below_base path (from_file disk) (at_of b) undo token d = (r, d') -> moderate_at d' path ->
  (r <> Ok tt /\ dir_files d' !! path = Some disk) \/ rebased path d d' z0 (kept_token undo token) (kept_log undo token).
Proof using CL.
  intros [Hd Hh _ Hb Hu _ Hfl Htok Hz0 Hlog] Hms E Hm. pose proof Hh as [([_ Hfe] & _) Hc]. destruct (chain_app _ _ _ _ Hc) as [Hcb Hle]. cbn [end_of] in Hle. destruct Hcb as (_ & Hw & Hi & _).
  rewrite (rewrite_halves path (from_file disk) (at_of b) undo token d) in E by (destruct (Z.leb_spec (tk_index token) (ul_floor undo)); [lia|done]). cbv zeta in E. cbn [at_of fa_trailer] in E. fold (kept_log undo token) in E. fold (kept_token undo token) in E.
  pose proof (spares_rewind_step path (from_file disk) (fr_trailer b) (undone_groups token (ul_groups undo)) (kept_token undo token) d) as Sp. unfold sbind in E.
  destruct (rewind_step _ _ _ _ _ d) as [[[t step]|e|] d1] eqn:Es; cbn [snd] in Sp; [|injection E as <- <-; left; (split; [done|congruence])..]. cbn [fst snd] in E.
  destruct (kept_log_ok _ _ token Hu) as [Hkok Hkl]; [rewrite (fw_payload _ Hw); apply (fw_header _ Hw)|]. fold (kept_log undo token) in Hkok, Hkl.
  assert (undo_ok undo) as Huok by (apply undo_decode_iff in Hu as [[_ ->]|[? _]]; [apply undo_default_ok|done]).
  assert (token_ok (kept_token undo token)) as Hat by (apply (token_kept_ok _ undo); [done..|]; by intros g [_ Hg]%list_elem_of_filter).
  pose proof (Hms _ _ _ eq_refl) as Hmst. apply sbind_Ok_inv in Es as ([] & d2 & E1 & Es). apply sbind_Ok_inv in Es as (step0 & d3 & E2 & Es). unfold on_file in Es. destruct (revert_base _ _ _ _ step0) as [[t'|e|] s'] eqn:Er; [|done..]. injection Es as -> -> _.
  destruct (revert_base_returned _ _ _ step0 (from_file disk) (fr_trailer b) (undone_groups token (ul_groups undo)) (kept_token undo token) z0 (fr_set b) t step (remove_stale_gone _ _ _ E1) E2) as [Hcnt Htr]; try done.
  - intros tr. apply source_trees; [done|lia].
  - apply Hw.
  - by apply frame_token_ok.
  - apply Hw.
  - destruct (rewind_install_outcome path t step (kept_token undo token) (kept_log undo token) z0 d1 r d' Htr Hcnt Hz0 Hat Hkok Hkl E Hm) as [[? Hp]|Hr]; [left; split; [done|congruence]|by right].
Qed.

(** ** What a compacted file remembers *)

(** Newer frames have greater tokens. *)
Definition newest_first (h : list Frame) : Prop := StronglySorted (fun a b => token_ltb (fr_token b) (fr_token a) = true) h.

Lemma token_geb_index a b : token_ltb a b = false -> tk_index b <= tk_index a.
Proof using Type. unfold token_ltb, token_compare. destruct (Z.compare_spec (tk_index a) (tk_index b)); done || lia. Qed.

Lemma undone_old token h : Forall plain h -> Forall (fun fr => token_ltb (fr_token fr) token = true) h -> undone_groups token (groups_of h) = [].
Proof using Type.
  intros Hp Ht. induction h as [|fr h IH]; [done|]. apply Forall_cons in Hp as [Hp1 Hp2]. apply Forall_cons in Ht as [Ht1 Ht2]. cbn [groups_of]. unfold undone_groups. rewrite filter_app. fold (undone_groups token (groups_of h)). rewrite IH by done.
  unfold frame_groups. unfold plain in Hp1. rewrite Hp1. destruct (decode_ops (fr_payload fr)); [|done..]. rewrite filter_cons_False; [done|]. cbn [fst]. rewrite Ht1. cbn. tauto.
Qed.

(** The logged batches from a token on lead from the set before it to the newest. *)
Lemma undone_logged tf token h : forall e, chain tf e h -> Forall plain h -> newest_first h ->
  logged (set_of (before token h)) (mjoin (snd <$> undone_groups token (groups_of h))) (set_of h).
Proof using Type.
  induction h as [|fr h IH]; intros e Hc Hp Hs; [constructor|]. apply StronglySorted_inv in Hs as [Hs1 Hs2]. apply Forall_cons in Hp as [Hp1 Hp2]. cbn [before]. destruct (token_ltb (fr_token fr) token) eqn:Et.
  - rewrite undone_old; [constructor|by constructor|]. constructor; [done|]. eapply Forall_impl; [exact Hs2|]. intros f Hf. exact (token_ltb_trans _ _ _ Hf Et).
  - destruct Hc as (_ & _ & _ & Hfol & Hc). cbn [groups_of]. unfold undone_groups. rewrite filter_app. fold (undone_groups token (groups_of h)). unfold follows in Hfol. unfold frame_groups. unfold plain in Hp1. rewrite Hp1 in *.
    destruct Hfol as (ops & -> & _ & Hlog). rewrite filter_cons_True by (cbn [fst]; by rewrite Et). rewrite filter_nil. rewrite fmap_app, join_app. cbn. rewrite app_nil_r. eapply logged_app; [by eapply IH|done].
Qed.

Lemma floor_plain h : Forall plain h -> floor_of h = 0.
Proof using Type. induction 1 as [|fr h Hp _ IH]; [done|]. cbn [floor_of]. rewrite IH. unfold frame_floor. unfold plain in Hp. by rewrite Hp. Qed.

(** Above its floor a compaction forgets no batch. *)
Lemma undone_after token floor h : Z.max floor (floor_of h) < tk_index token -> undone_groups token (ul_groups (undo_after floor h)) = undone_groups token (groups_of h).
Proof using Type.
  intros Hf. unfold undone_groups. cbn [undo_after ul_groups]. rewrite list_filter_filter. apply list_filter_iff. intros g. split; [by intros [? _]|]. intros Hg. split; [done|].
  destruct (token_ltb g.1 token) eqn:E; [done|]. apply token_geb_index in E. lia.
Qed.

End Compact.
