(* ===== verification/ZsetContract.v ===== *)
(** * What a sorted-set file promises

    The contract of zset_tree: operations and reads agree with a finite map from members to
    scores; a batch becomes one more frame of the file or leaves the file at the frames
    before it; frames undo and redo their changes; a crash loses only what was not synced.
    Each theorem is closed over the component lemmas, and its witness runs the code on a
    concrete file. *)

From Stdlib Require Import ZArith Lia.
From stdpp Require Import gmap strings pretty.
From S2P Require Import Prelude Bytes Crc IoBackend F64 ZsetFormat Assoc ZsetNode ZsetStore ZsetTree ZsetTreeProof ZsetCommit ZsetArena ZsetCommitProof ZsetTx ZsetOps ZsetOpsProof ZsetReads ZsetHistory ZsetMaintain ZsetFrames ZsetBulk ZsetDir ZsetApply ZsetReplay.

Section Contract.
Context {C : Crc32fast} {CL : Crc32fastLaws C}.

(** C17: The ZADD, ZINCRBY, ZREM, ZPOPMIN and ZPOPMAX operations of a batch, run on a stored
    sorted set, return the outcomes that a finite map from members to scores gives,
    leave both trees holding the changed map and its count, and log exactly the changes;
    the batch fails with the map's error when an operation does. *)
Theorem operations_refine fit tf st z ops : stored fit tf st z -> ops_fit ops z ->
  match spec_apply_all ops z with
  | Ok (outs, z', changes) => exists tx, tx_apply_all ops (begin tf st) = (Ok outs, tx) /\ zset_on tf st false tx z' /\ tx_log tx = changes /\ logged z changes z'
  | Err e => exists tx, tx_apply_all ops (begin tf st) = (Err e, tx)
  | Panic => False
  end.
Proof using CL.
  intros Hs Hf. pose proof Hs as (Hp & _ & _ & Hok). pose proof (tx_apply_all_on tf st Hp ops fit _ z (stored_begin _ _ _ _ Hs) Hf) as H.
  pose proof (spec_apply_all_logged ops z) as Hl. destruct (spec_apply_all ops z) as [[[outs z'] l]|e|]; [|done..].
  destruct H as (tx & E & Hz & El). exists tx. split; [done|]. split; [done|]. split; [by rewrite El|]. by apply (Hl _ Hok Hf eq_refl).
Qed.

(** C20: ZRANGEBYSCORE, ZRANGEBYLEX, ZCOUNT and ZLEXCOUNT return exactly the members within
    the bounds, in rank or member order, reversed on demand, after the offset and up to the
    limit. *)
Theorem range_reads_exact tf st fit tx z smin smax lmin lmax rev offset limit :
  published tf st -> zset_on tf st fit tx z -> bound_ok smin -> bound_ok smax -> u64_ok offset -> (forall n, limit = Some n -> u64_ok n) ->
  range_by_score tx smin smax rev offset limit = Ok (limited offset limit (maybe_reverse rev (filter (fun e => above_min smin e && below_max smax e) (ranked z)))) /\
  range_by_lex tx lmin lmax rev offset limit = Ok (limited offset limit (maybe_reverse rev (filter (fun e => lex_above lmin e && lex_below lmax e) z))) /\
  count_by_score tx smin smax = Ok (len (filter (fun e => above_min smin e && below_max smax e) z)) /\
  count_by_lex tx lmin lmax = Ok (len (filter (fun e => lex_above lmin e && lex_below lmax e) z)).
Proof using Type*.
  intros Hp Hz Ha Hb Ho Hl. split; [by eapply range_by_score_on|]. split; [by eapply range_by_lex_on|]. split; [by eapply count_by_score_on|by eapply count_by_lex_on].
Qed.

(** C21: For all 64-bit indices, negative and out of range ones included, ZRANGE by index
    returns the clamped slice of the ranking and never overflows; ZRANK is a member's
    position in it; positions past the end are an error. *)
Theorem positions_exact tf st fit tx z start stop rev m ps :
  published tf st -> zset_on tf st fit tx z -> i64_ok start -> i64_ok stop -> Forall u64_ok ps ->
  range_by_index tx start stop rev = Ok (by_index start stop (maybe_reverse rev (ranked z))) /\
  match aget z m with
  | None => member_rank tx m rev = Ok None
  | Some s => exists i, member_rank tx m rev = Ok (Some (Z.of_nat i)) /\ maybe_reverse rev (ranked z) !! i = Some (m, s)
  end /\
  at_positions tx ps = collect (fun p => ok_or (ranked z !! Z.to_nat p) ("zset tree: no member at position " +:+ pretty p)) ps.
Proof using Type*.
  intros Hp Hz Ha Hb Hps. split; [by eapply range_by_index_on|]. split; [by eapply member_rank_on|by eapply at_positions_on].
Qed.

(** A client that scans page by page reaches the end: as many calls as there are
    members, plus one, return every member once and in order, for every page size. *)
Theorem scan_terminates tf st fit tx z count :
  published tf st -> zset_on tf st fit tx z -> u64_ok count -> 0 < count -> scan_all (S (length z)) tx None count = Ok z.
Proof using Type*.
  intros Hp Hz Hu Hc. eapply (scan_all_on tf st) with (after := None) (pre := []); [done|done|done|done|done|]. unfold rest_after, len. lia.
Qed.

(** Logged changes redo and undo each other: replaying a frame's changes gives the set
    after it, and reverting them newest first gives back the set before it. *)
Theorem changes_redo_undo tf st z ops z' tx :
  published tf st -> zset_ok z -> logged z ops z' -> zset_on tf st false tx z ->
  exists tx1 tx2, replay_all ops tx = (Ok tt, tx1) /\ zset_on tf st false tx1 z' /\ tx_log tx1 = tx_log tx ++ ops /\
    revert_all (reverse ops) tx1 = (Ok tt, tx2) /\ zset_on tf st false tx2 z.
Proof using CL.
  intros Hp Hok Hl Hz. destruct (replay_all_on tf st Hp _ _ _ Hl tx Hz) as (tx1 & E1 & Hz1 & Hl1).
  destruct (revert_all_on tf st Hp ops z z' tx1 Hl Hok Hz1) as (tx2 & E2 & Hz2 & _). by exists tx1, tx2.
Qed.


(** C18: A batch that names a member over the limit is refused before the file is opened, in
    any directory.  A batch with an operation that fails (a score that is not a number, an
    increment that overflows) returns that error, publishes nothing and leaves the file
    with exactly the frames before its token; no other file is touched. *)
Theorem apply_rejects d path token ops :
  ((exists op m, op ∈ ops /\ op_member op = Some m /\ MAX_MEMBER_LEN < len m) -> ZsetDir.apply path token ops d = (Err "zset tree: member too long", d)) /\
  forall st h e, file_at d path st h -> batch_ok d path st h token ops -> spec_apply_all ops (set_of (before token h)) = Err e ->
    exists d', ZsetDir.apply path token ops d = (Err e, d') /\ left_at d' path (before token h) /\ elsewhere path d d'.
Proof using CL.
  split; [|intros st h e Hat Hb E; pose proof (apply_outcome d path st h token ops Hat Hb) as H; by rewrite E in H].
  intros (op & m & Hin & Hm & Hl). unfold ZsetDir.apply. assert (existsb too_long ops = true) as ->; [|done].
  apply existsb_exists. exists op. split; [by apply list_elem_of_In|]. unfold too_long. rewrite Hm. by apply Z.ltb_lt.
Qed.

(** What a batch answers, without the position of its frame. *)
Definition answer (r : result Applied) : result (list Outcome) := match r with Ok a => Ok (ap_outcomes a) | Err e => Err e | Panic => Panic end.

(** C16: A Raft entry above the compacted base that is replayed answers what it answered
    the first time, success or error, and leaves the frames it left the first time: those
    before its token, and on them one with the same changes and the same set.  Any
    batches, rewinds and syncs at or after its token may have come between, earlier
    replays of the entry included. *)
Theorem replay_same d path st h token ops r1 d1 d2 :
  file_at d path st h -> batch_ok d path st h token ops -> ZsetDir.apply path token ops d = (r1, d1) ->
  later path token h d1 d2 -> (forall st2 h2, file_at d2 path st2 h2 -> ts_generation st2 + 1 < u64_max) ->
  exists r2 d3 h1 h3 changes z, ZsetDir.apply path token ops d2 = (r2, d3) /\ answer r2 = answer r1 /\ r1 <> Panic /\
    left_at d1 path h1 /\ appended token h changes z h1 /\ left_at d3 path h3 /\ appended token h changes z h3 /\ set_of h1 = z /\ set_of h3 = z.
Proof using CL.
  intros Hat Hb E1 Hlater Hgen. destruct (apply_leaves _ _ _ _ _ _ _ _ Hat Hb E1) as (st1 & h1 & Hat1 & Hgr).
  destruct (later_file _ _ _ _ _ Hlater) as (st2 & h2 & Hat2 & Hag).
  { exists st1, h1. split; [done|]. split; [by apply grown_before|]. eapply grown_above; [exact Hgr|apply Hb]. }
  destruct (batch_again _ _ _ _ _ _ _ _ _ Hat Hb Hat2 Hag (Hgen _ _ Hat2)) as [Hb2 Hpe]. destruct Hag as [Hbf _].
  pose proof (apply_outcome _ _ _ _ _ _ Hat Hb) as H1. pose proof (apply_outcome _ _ _ _ _ _ Hat2 Hb2) as H2. rewrite Hbf in H2. rewrite E1 in H1.
  assert (forall e d0, (exists d', ((r1, d1) : result Applied * Dir) = (Err e, d') /\ left_at d' path (before token h) /\ elsewhere path d d') ->
            (exists d', ZsetDir.apply path token ops d2 = (Err e, d') /\ left_at d' path (before token h) /\ elsewhere path d0 d') ->
            exists r2 d3 h1 h3 changes z, ZsetDir.apply path token ops d2 = (r2, d3) /\ answer r2 = answer r1 /\ r1 <> Panic /\
              left_at d1 path h1 /\ appended token h changes z h1 /\ left_at d3 path h3 /\ appended token h changes z h3 /\ set_of h1 = z /\ set_of h3 = z) as He.
  { intros e d0 (d' & [= -> ->] & Hl1 & _) (d3 & -> & Hl3 & _). exists (Err e), d3, (before token h), (before token h), [], (set_of (before token h)). done. }
  destruct (spec_apply_all ops (set_of (before token h))) as [[[outs z] changes]|e|] eqn:Es; [|by eapply He|done]. rewrite (Hpe _ _ _ eq_refl) in H2.
  destruct (batch_page_error path token ops d); [by eapply He|]. destruct H1 as (s1 & d' & k1 & [= -> ->] & Hk1 & _ & Hs1 & Ha1). destruct H2 as (s3 & d3 & k3 & E3 & Hk3 & _ & Hs3 & Ha3).
  exists (Ok (mkApplied outs s3)), d3, k1, k3, changes, z. split_and!; try done; [by exists s1|by exists s3|]. unfold appended in *. by rewrite Hbf in Ha3.
Qed.

(** C19: Recovery after a crash: of a file whose synced frames are followed by whole frames
    and then by anything that is not a valid frame, exactly the whole frames are kept and
    published, the rest is cut off, and the synced frames are known as synced. *)
Theorem recovery_keeps_whole_frames tf unsynced synced :
  HEADER_REGION <= tf_len tf -> tf_len tf = len (tf_data tf) -> tf_len tf + FRAME_HEADER_SIZE <= u64_max -> healthy tf ->
  chain tf (end_of (unsynced ++ synced)) (unsynced ++ synced) -> end_of (unsynced ++ synced) <= tf_len tf ->
  (forall end_, ~ whole_frame tf (end_of (unsynced ++ synced)) end_) -> newest_synced tf = end_of synced -> 0 <= newest_generation tf < u64_max ->
  exists st' tf', recover tf = (Ok (mkRecovery (len unsynced) (tf_len tf - end_of (unsynced ++ synced)) st'), tf') /\
    history tf' st' (unsynced ++ synced) /\ stored false tf' st' (set_of (unsynced ++ synced)) /\
    tf_len tf' = end_of (unsynced ++ synced) /\ ts_synced_frame_end st' = end_of synced.
Proof using CL.
  intros H1 H2 H3 H4 H5 H6 H7 H8 [H9 H10]. pose proof (chain_bounds _ _ _ H5) as [[H0 _] _]. unfold HEADER_REGION, FRAME_HEADER_SIZE in *.
  assert (frame_valid tf (end_of (unsynced ++ synced)) = Ok None) as Hv.
  { pose proof (frame_valid_whole tf (end_of (unsynced ++ synced))) as Hw. unfold FRAME_HEADER_SIZE in Hw.
    destruct (frame_valid tf (end_of (unsynced ++ synced))) as [[e|]|e|]; [destruct (H7 e); apply Hw; lia|done|exfalso; apply Hw; lia..]. }
  destruct (recover_history tf unsynced synced) as (st' & tf' & E & Hh & Hl & Hs & _); [done|done|lia|done|done|done|done|done|done|done|].
  exists st', tf'. split; [done|]. split; [done|]. split; [by apply history_stored|done].
Qed.

(** C22: Rewinding to a token above the base leaves exactly the frames before it, with the
    set they recorded; a file with nothing at or past the token is left as it is. *)
Theorem rewind_to_exact d path st h token :
  file_at d path st h -> above_base token h -> ts_generation st < u64_max ->
  exists st' d', rewind_to path token d = (Ok tt, d') /\ file_at d' path st' (before token h) /\
    (forall p, p <> path -> dir_files d' !! p = dir_files d !! p) /\ (token_leb token (ts_token st) = false -> d' = d).
Proof using CL.
  intros Hat Hab Hgen. pose proof Hat as [Hev _]. destruct (open_existing_file _ _ _ _ Hat) as (tf & Eo & Hh & Hf & Ht & _). pose proof Hh as [Hp _].
  unfold rewind_to. rewrite (sbind_Ok _ _ _ _ _ Eo), (published_state _ _ Hp), sbind_slift_Ok. destruct (token_leb token (ts_token st)) eqn:El.
  - destruct (rewind_in_place d path tf st h token Hh Hf Ht Hab Hgen) as (st' & tf' & Er & Hh' & Hf' & Ht' & _).
    rewrite (sbind_Ok _ _ _ _ _ Er). exists st'. eexists. split; [done|]. split; [by apply put_back|]. split; [|done].
    intros p Hne. cbn [with_files dir_files]. by rewrite lookup_insert_ne.
  - exists st, d. rewrite (before_newer token h (ts_generation st) (ts_synced_frame_end st)); [done|]. by rewrite <- (history_state _ _ _ Hh).
Qed.

End Contract.

(** ** A concrete directory *)

#[local] Existing Instance crc32_iso_hdlc.

Module Dirs.

Definition no_conditions : Conditions := mkConditions false false false false.
Definition d0 : Dir := mkDir {["z" := tf_disk Example.new_file]} [] [].
Definition one : f64 := 4607182418800017408.
Definition two : f64 := 4611686018427387904.
Definition nan : f64 := 9221120237041090560.
Definition ops : list Op := [OpAdd (lit "a") one no_conditions; OpAdd (lit "b") two no_conditions; OpIncr (lit "a") two no_conditions; OpPopMin 1].
Definition token : Token := mkToken 5 1.

(** What [batch_room] asks, evaluated. *)
Definition room (d : Dir) (token : Token) (ops : list Op) : bool :=
  match rewound_to "z" token d with
  | (Ok (tf, st), _) =>
      (ts_generation st <? u64_max) &&
      match tx_apply_all ops (begin tf st) with
      | (Ok _, tx) =>
          (len (encode_ops (tx_log tx)) <=? u32_max) && (ts_frame_end st + FRAME_HEADER_SIZE <=? u64_max) &&
          match write_trees tx with
          | Ok (roots, pages) => (len pages <=? u32_max) && (ts_frame_end st + len (commit_frame tx token roots pages) <=? u64_max)
          | _ => true
          end
      | _ => true
      end
  | _ => true
  end.

Lemma room_ok d token ops : room d token ops = true -> forall tf' st' d', rewound_to "z" token d = (Ok (tf', st'), d') -> batch_room tf' st' token ops.
Proof.
  unfold room. intros H tf' st' d' E. rewrite E in H. apply andb_prop in H as [Hg H]. split; [lia|]. intros outs tx Et. rewrite Et in H.
  apply andb_prop in H as [[H1 H2]%andb_prop H]. split; [lia|]. split; [lia|]. intros roots pages Ew. rewrite Ew in H. apply andb_prop in H as [? ?]. lia.
Qed.

Lemma file_d0 : file_at d0 "z" Example.st0 [].
Proof.
  split; [done|]. exists (tf_disk Example.new_file). split; [done|]. split; [vm_compute; reflexivity|].
  assert (from_file (tf_disk Example.new_file) = Example.new_file) as -> by (vm_compute; reflexivity).
  split; [apply Example.file_published|done].
Qed.

Lemma batch_d0 ops : existsb too_long ops = false -> ops_fit ops [] -> room d0 token ops = true -> batch_ok d0 "z" Example.st0 [] token ops.
Proof.
  intros Hl Hf Hr. split.
  - split; [vm_compute; repeat split; discriminate|discriminate].
  - clear Hr. intros fr Hin. by apply not_elem_of_nil in Hin.
  - exact Hl.
  - exact Hf.
  - reflexivity.
  - exact (room_ok _ _ _ Hr).
Qed.

Lemma ops_small : ops_fit ops [].
Proof. vm_compute. repeat split; discriminate. Qed.

Lemma room_d0 : room d0 token ops = true.
Proof. vm_compute. reflexivity. Qed.
Lemma fits_d0 : batch_page_error "z" token ops d0 = None.
Proof. vm_compute. reflexivity. Qed.

(** The transaction of the batch. *)
Definition tx : Tx := (tx_apply_all ops (begin Example.new_file Example.st0)).2.
Definition z : zset := [(lit "a", 4613937818241073152)].

Lemma stored_new : stored true Example.new_file Example.st0 [].
Proof. destruct Example.file_published as [? ?]. split; [done|]. split; [by intros []; left|]. split; [done|apply zset_ok_nil]. Qed.

Lemma batch_holds : zset_on Example.new_file Example.st0 false tx z.
Proof.
  destruct Example.file_published as [Hp _].
  pose proof (tx_apply_all_on _ _ Hp ops true _ [] (stored_begin _ _ _ _ stored_new) ops_small) as H. unfold tx.
  destruct (spec_apply_all ops []) as [[[outs z'] l]|e|] eqn:E; [|by vm_compute in E..]. assert (z' = z) as -> by (vm_compute in E; vm_compute; congruence).
  destruct H as (tx' & -> & Hz & _). exact Hz.
Qed.

Definition bad_ops : list Op := ops ++ [OpAdd (lit "c") nan no_conditions].
Lemma bad_small : ops_fit bad_ops [].
Proof. vm_compute. repeat split; discriminate. Qed.
Lemma bad_room : room d0 token bad_ops = true.
Proof. vm_compute. reflexivity. Qed.

(** The directory after the batch, and after a second one. *)
Definition d1 : Dir := (ZsetDir.apply "z" token ops d0).2.
Definition ops2 : list Op := [OpAdd (lit "c") one no_conditions; OpRemove (lit "a")].
Definition token2 : Token := mkToken 6 1.
Definition d2 : Dir := (ZsetDir.apply "z" token2 ops2 d1).2.

Lemma room_d1 : room d1 token2 ops2 = true.
Proof. vm_compute. reflexivity. Qed.

(** The generation of the file at ["z"] is far from its limit. *)
Definition young (d : Dir) : bool :=
  match dir_files d !! "z" with
  | Some disk => match state (from_file disk) with Ok st => ts_generation st + 1 <? u64_max | _ => false end
  | None => false
  end.
Lemma young_d1 : young d1 = true.
Proof. vm_compute. reflexivity. Qed.
Lemma young_d2 : young d2 = true.
Proof. vm_compute. reflexivity. Qed.
Lemma young_file d st h : young d = true -> file_at d "z" st h -> ts_generation st + 1 < u64_max.
Proof. unfold young. intros Hy (_ & disk & Hd & _ & Hh). rewrite Hd, (published_state _ _ (proj1 Hh)) in Hy. lia. Qed.

(** The file after the batch. *)
Lemma file_d1_grown : exists st h, file_at d1 "z" st h /\ set_of h = z /\ above_base token h /\ ts_generation st < u64_max /\ grown token [] h.
Proof.
  pose proof (apply_outcome _ _ _ _ _ _ file_d0 (batch_d0 ops eq_refl ops_small room_d0)) as H. pose proof young_d1 as Hy.
  assert (spec_apply_all ops (set_of (before token [])) = Ok (_, z, _)) as Es by (vm_compute; reflexivity). rewrite Es, fits_d0 in H. clear Es.
  unfold d1 in *. revert H Hy. generalize (ZsetDir.apply "z" token ops d0). intros [a d'] H Hy. cbn [fst snd] in *.
  destruct H as (st & d & h & E1 & Hat & _ & Hs & Hap). apply pair_equal_spec in E1 as [_ ->]. apply appended_grown in Hap.
  exists st, h. split; [done|]. split; [done|]. split; [by eapply grown_above; [exact Hap|]; intros fr ?%not_elem_of_nil|]. split; [pose proof (young_file _ _ _ Hy Hat); lia|done].
Qed.

Lemma before_second h : grown token [] h -> before token2 h = h.
Proof. intros [->|(fr & -> & Ht & _)]; [done|]. cbn [before]. rewrite Ht. reflexivity. Qed.

Lemma batch_second d st h : room d token2 ops2 = true -> set_of h = z -> grown token [] h -> ts_generation st < u64_max -> batch_ok d "z" st h token2 ops2.
Proof.
  intros Hr Hs Hg Hgen. split.
  - split; [vm_compute; repeat split; discriminate|discriminate].
  - eapply grown_above; [exact Hg|]. by intros fr ?%not_elem_of_nil.
  - vm_compute. reflexivity.
  - rewrite before_second, Hs by done. vm_compute. repeat split; discriminate.
  - exact Hgen.
  - exact (room_ok _ _ _ Hr).
Qed.

(** Bytes of the file at ["z"]. *)
Definition size (d : Dir) : Z := match dir_files d !! "z" with Some disk => len (IoBackend.d_data disk) | None => 0 end.
Lemma d1_changed : d1 <> d2.
Proof. intros E. assert (size d1 <> size d2) as Hs by (vm_compute; discriminate). exact (Hs (f_equal size E)). Qed.

(** The second batch comes after the first. *)
Lemma later_d2 : later "z" token [] d1 d2.
Proof.
  destruct file_d1_grown as (st & h & Hat & Hs & Hab & Hgen & Hg).
  apply (later_apply "z" token [] d1 d1 st h token2 ops2 (ZsetDir.apply "z" token2 ops2 d1).1).
  - apply later_none.
  - vm_compute. reflexivity.
  - exact Hat.
  - split; [by apply grown_before|exact Hab].
  - by apply batch_second; [exact room_d1|..].
  - unfold d2. apply surjective_pairing.
Qed.

Lemma file_d1 : exists st h, file_at d1 "z" st h /\ set_of h = z /\ above_base token h /\ ts_generation st < u64_max.
Proof. destruct file_d1_grown as (st & h & ? & ? & ? & ? & _). by exists st, h. Qed.

(** The same file with a torn frame behind. *)
Definition disk1 : IoBackend.Disk := default (IoBackend.mkDisk [] [] false) (dir_files d1 !! "z").
Definition torn : TreeFile := from_file (IoBackend.mkDisk (IoBackend.d_data disk1 ++ lit "torn frame") [] false).
Definition torn_facts : bool :=
  match state (from_file disk1) with
  | Ok st =>
      match frame_valid torn (ts_frame_end st) with Ok None => true | _ => false end && (ts_frame_end st <=? len (IoBackend.d_data disk1)) &&
      (newest_synced torn =? HEADER_REGION) && (newest_generation torn <? u64_max) && (0 <=? newest_generation torn) && (tf_len torn + FRAME_HEADER_SIZE <=? u64_max) && (HEADER_REGION <=? tf_len torn)
  | _ => false
  end.
Lemma torn_check : torn_facts = true.
Proof. vm_compute. reflexivity. Qed.

Lemma disk1_history : exists h, set_of h = z /\ exists st, state (from_file disk1) = Ok st /\ history (from_file disk1) st h.
Proof.
  destruct file_d1 as (st & h & (_ & disk & Hd & _ & Hh) & Hs & _). unfold disk1. rewrite Hd. cbn [default].
  exists h. split; [exact Hs|]. exists st. split; [|exact Hh]. apply published_state, Hh.
Qed.

Lemma torn_chain h st : history (from_file disk1) st h -> ts_frame_end st <= len (IoBackend.d_data disk1) -> end_of h = ts_frame_end st /\ chain torn (end_of h) h.
Proof.
  intros [_ Hc] Hle. pose proof (chain_end _ _ _ Hc) as E. split; [by symmetry|]. rewrite <- E. unfold torn. revert Hc Hle.
  generalize disk1 as disk. intros disk Hc Hle. clear E. apply (chain_keep (from_file disk) _ (ts_frame_end st)); [exact Hc|reflexivity|exact Hle| |].
  - unfold tf_data. cbn [from_file tf_disk IoBackend.d_data]. rewrite len_app. pose proof (len_nonneg (lit "torn frame")). lia.
  - intros a b Ha Hb. unfold tf_data. cbn [from_file tf_disk IoBackend.d_data]. unfold HEADER_REGION in Ha. destruct (Z.le_gt_cases a b); [apply zslice_app_take; lia|]. unfold zslice. by rewrite !ztake_0 by lia.
Qed.

End Dirs.

Lemma operations_refine_witness : exists tx, tx_apply_all Dirs.ops (begin Example.new_file Example.st0) =
  (Ok [OutAdd true true; OutAdd true true; OutIncr (Some 4613937818241073152); OutPopped [(lit "b", Dirs.two)]], tx).
Proof.
  pose proof (operations_refine true _ _ [] Dirs.ops Dirs.stored_new Dirs.ops_small) as H.
  destruct (spec_apply_all Dirs.ops []) as [[[outs z'] l]|e|] eqn:E; [|vm_compute in E; discriminate E..]. vm_compute in E.
  destruct H as (tx & E1 & _). exists tx. rewrite E1. injection E as <- _ _. reflexivity.
Defined.


Lemma range_reads_exact_witness :
  range_by_score Dirs.tx (ScoreExcl Dirs.two) ScorePosInf false 0 None = Ok Dirs.z /\ count_by_lex Dirs.tx LexMin (LexIncl (lit "a")) = Ok 1.
Proof.
  assert (bound_ok (ScoreExcl Dirs.two)) as Hb by (vm_compute; repeat split; discriminate).
  assert (u64_ok 0) as H0 by (vm_compute; split; discriminate).
  destruct (range_reads_exact _ _ _ _ _ (ScoreExcl Dirs.two) ScorePosInf LexMin (LexIncl (lit "a")) false 0 None
    (proj1 Example.file_published) Dirs.batch_holds Hb I H0 (fun n (E : None = Some n) => match E with end)) as (E1 & _ & _ & E4).
  split; [etransitivity; [exact E1|]|etransitivity; [exact E4|]]; vm_compute; reflexivity.
Defined.

Lemma positions_exact_witness :
  range_by_index Dirs.tx (-1) 9223372036854775807 true = Ok Dirs.z /\ at_positions Dirs.tx [0; 7] = Err "zset tree: no member at position 7".
Proof.
  assert (i64_ok (-1)) as H1 by (vm_compute; split; [discriminate|reflexivity]).
  assert (i64_ok 9223372036854775807) as H2 by (vm_compute; split; [discriminate|reflexivity]).
  assert (Forall u64_ok [0; 7]) as H3 by (repeat constructor; discriminate).
  destruct (positions_exact _ _ _ _ _ (-1) 9223372036854775807 true [] [0; 7] (proj1 Example.file_published) Dirs.batch_holds H1 H2 H3) as (E1 & _ & E3).
  split; [etransitivity; [exact E1|]|etransitivity; [exact E3|]]; vm_compute; reflexivity.
Defined.

Lemma scan_terminates_witness : scan_all 2 Dirs.tx None 1 = Ok Dirs.z.
Proof.
  assert (u64_ok 1) as H1 by (vm_compute; split; discriminate).
  exact (scan_terminates _ _ _ _ _ 1 (proj1 Example.file_published) Dirs.batch_holds H1 eq_refl).
Defined.

Lemma changes_redo_undo_witness : exists tx1 tx2, replay_all [LogRemove (lit "a") 4613937818241073152] Dirs.tx = (Ok tt, tx1) /\
  revert_all (reverse [LogRemove (lit "a") 4613937818241073152]) tx1 = (Ok tt, tx2) /\ zset_on Example.new_file Example.st0 false tx2 Dirs.z.
Proof.
  assert (logged Dirs.z [LogRemove (lit "a") 4613937818241073152] []) as Hl
    by (apply (logged_one Dirs.z _ (adel Dirs.z (lit "a"))); [by apply change_remove|apply zset_ok_nil]).
  destruct (changes_redo_undo _ _ _ _ _ _ (proj1 Example.file_published) (proj2 (proj2 Dirs.batch_holds)) Hl Dirs.batch_holds) as (tx1 & tx2 & E1 & _ & _ & E2 & H2).
  exists tx1, tx2. split; [exact E1|]. split; [exact E2|exact H2].
Defined.

Lemma apply_rejects_witness :
  (exists d', ZsetDir.apply "z" Dirs.token Dirs.bad_ops Dirs.d0 = (Err "zset tree: score is not a number", d') /\ left_at d' "z" []) /\
  ZsetDir.apply "z" Dirs.token [OpPopMin 1; OpRemove (replicate (Z.to_nat (MAX_MEMBER_LEN + 1)) x00)] Dirs.d0 = (Err "zset tree: member too long", Dirs.d0).
Proof.
  split.
  - assert (spec_apply_all Dirs.bad_ops (set_of (before Dirs.token [])) = Err "zset tree: score is not a number") as Es by (vm_compute; reflexivity).
    destruct (proj2 (apply_rejects Dirs.d0 "z" Dirs.token Dirs.bad_ops) _ _ _ Dirs.file_d0 (Dirs.batch_d0 Dirs.bad_ops eq_refl Dirs.bad_small Dirs.bad_room) Es) as (d' & E & Hl & _).
    exists d'. split; [exact E|exact Hl].
  - apply (proj1 (apply_rejects Dirs.d0 "z" Dirs.token _)). eexists _, _. split; [apply list_elem_of_further, list_elem_of_here|]. split; [reflexivity|].
    unfold len. rewrite length_replicate. unfold MAX_MEMBER_LEN. lia.
Defined.

Lemma replay_same_witness : exists r1 r2 d3, ZsetDir.apply "z" Dirs.token Dirs.ops Dirs.d0 = (r1, Dirs.d1) /\ Dirs.d1 <> Dirs.d2 /\
  ZsetDir.apply "z" Dirs.token Dirs.ops Dirs.d2 = (r2, d3) /\ answer r2 = answer r1.
Proof.
  destruct (replay_same Dirs.d0 "z" Example.st0 [] Dirs.token Dirs.ops (ZsetDir.apply "z" Dirs.token Dirs.ops Dirs.d0).1 Dirs.d1 Dirs.d2
    Dirs.file_d0 (Dirs.batch_d0 Dirs.ops eq_refl Dirs.ops_small Dirs.room_d0) (surjective_pairing _) Dirs.later_d2 (fun st h => Dirs.young_file _ st h Dirs.young_d2))
    as (r2 & d3 & h1 & h3 & changes & z & E & Ha & _).
  exists (ZsetDir.apply "z" Dirs.token Dirs.ops Dirs.d0).1, r2, d3. split; [apply surjective_pairing|]. split; [exact Dirs.d1_changed|]. split; [exact E|exact Ha].
Defined.

Lemma rewind_to_exact_witness : exists st h st' d', file_at Dirs.d1 "z" st h /\ set_of h = Dirs.z /\
  rewind_to "z" Dirs.token Dirs.d1 = (Ok tt, d') /\ file_at d' "z" st' (before Dirs.token h).
Proof.
  destruct Dirs.file_d1 as (st & h & Hat & Hs & Hab & Hg). destruct (rewind_to_exact _ _ _ _ _ Hat Hab Hg) as (st' & d' & E & Hat' & _).
  exists st, h, st', d'. split; [exact Hat|]. split; [exact Hs|]. split; [exact E|exact Hat'].
Defined.

Lemma recovery_keeps_whole_frames_witness : exists h st' tf', set_of h = Dirs.z /\
  recover Dirs.torn = (Ok (mkRecovery (len h) (tf_len Dirs.torn - end_of h) st'), tf') /\ history tf' st' h.
Proof.
  destruct Dirs.disk1_history as (h & Hs & st & Est & Hh). pose proof Dirs.torn_check as H. unfold Dirs.torn_facts in H. rewrite Est in H.
  apply andb_prop in H as [H H7%Z.leb_le]. apply andb_prop in H as [H H6%Z.leb_le]. apply andb_prop in H as [H H5%Z.leb_le].
  apply andb_prop in H as [H H4%Z.ltb_lt]. apply andb_prop in H as [H H3%Z.eqb_eq]. apply andb_prop in H as [H1 H2%Z.leb_le].
  destruct (Dirs.torn_chain h st Hh H2) as [Ee Hc]. rewrite <- (app_nil_r h) in Ee, Hc.
  assert (end_of (h ++ []) <= tf_len Dirs.torn) as Hle.
  { rewrite Ee. unfold Dirs.torn, from_file. cbn [tf_len IoBackend.d_data]. rewrite len_app. pose proof (len_nonneg (lit "torn frame")). lia. }
  assert (forall end_, ~ whole_frame Dirs.torn (end_of (h ++ [])) end_) as Hv.
  { rewrite Ee in Hle |- *. pose proof (frame_valid_whole Dirs.torn (ts_frame_end st)) as Hw. pose proof Hh as [([Hb _] & _) _]. unfold HEADER_REGION in Hb.
    destruct (frame_valid Dirs.torn (ts_frame_end st)) as [[?|]|?|]; [discriminate H1|apply Hw; [lia|reflexivity|lia|exact H6]|discriminate H1..]. }
  destruct (recovery_keeps_whole_frames Dirs.torn h [] H7 eq_refl H6 eq_refl Hc Hle Hv H3 (conj H5 H4)) as (st' & tf' & E & Hh' & _).
  rewrite (app_nil_r h) in E, Hh'. exists h, st', tf'. split; [exact Hs|]. split; [exact E|exact Hh'].
Defined.
