(* ===== verification/ZsetRebuild.v ===== *)
(** * Rebuilt tree files: compaction, rewinds below the base, and the order of frames

    The contract of [compact] and of a rewind that reaches the base frame, both of which
    replace the file of a path by a rebuilt one, and the invariant that the calls of
    zset_tree/mod.rs keep: newer frames have greater tokens. *)

From Stdlib Require Import ZArith Lia Sorting.Sorted.
From stdpp Require Import gmap strings pretty.
From S2P Require Import Prelude Bytes Crc IoBackend F64 ZsetFormat Assoc ZsetNode ZsetStore ZsetTree ZsetTreeProof ZsetCommit ZsetArena ZsetCommitProof ZsetTx ZsetOps ZsetOpsProof ZsetReads ZsetHistory ZsetMaintain ZsetFrames ZsetBulk ZsetBulkProof ZsetDir ZsetApply ZsetReplay ZsetBase ZsetCompact ZsetContract.

Section Rebuild.
Context {C : Crc32fast} {CL : Crc32fastLaws C}.

(** ** Compaction *)

(** A build without a base: the file has no frames. *)
Lemma compact_build_end path floor d disk st h c d1 :
  dir_files d !! path = Some disk -> history (from_file disk) st h -> compact_build path floor d = (Ok (CompactEnd c), d1) ->
  h = [] /\ c = Done (mkCompaction (len (IoBackend.d_data disk)) (len (IoBackend.d_data disk))).
Proof using CL.
  intros Hd Hh E. pose proof Hh as [Hp Hc]. unfold compact_build, open_existing in E. unfold sbind at 1 2 in E.
  pose proof (spares_dir_op path (io_error "open") d) as Hs. destruct (dir_op (io_error "open") d) as [[[]|e|] d0]; cbn [snd] in Hs; [|done..]. rewrite Hs, Hd in E. cbn [fmap option_fmap option_map] in E.
  rewrite (published_state _ _ Hp), sbind_slift_Ok in E. destruct (Z.eqb_spec (ts_frame_end st) HEADER_REGION) as [He|He].
  - injection E as <- _. split; [|done]. destruct h as [|fr h]; [done|]. pose proof (chain_bounds _ _ _ Hc) as [_ Hb]. specialize (Hb ltac:(discriminate)). unfold FRAME_HEADER_SIZE, TRAILER_SIZE in Hb. lia.
  - repeat (apply sbind_Ok_inv in E as (? & ? & _ & E)). discriminate E.
Qed.

(** C23: Compaction beside writers, with any disk or directory operation failing.  Building
    the base of a file with frames [h] leaves the path's file alone, whether it succeeds or
    fails; there is nothing to do only for a file without frames.  Then writers may append
    [hs] before the rebuilt file is installed.  Afterwards the path holds the writers' file
    untouched (and the call has failed), or a file whose frames are one base with the set,
    the token and the changes above the floor of [h], and on it frames with the tokens,
    sets and changes of [hs].  Either way the set at the path is the newest one. *)
Theorem compaction_keeps_sets path floor d disk st h built d1 :
  dir_files d !! path = Some disk -> history (from_file disk) st h -> compact_build path floor d = (built, d1) ->
  dir_files d1 !! path = Some disk /\
  match built with
  | Ok (CompactBuilt base target st1) =>
      u64_ok floor -> len (undo_encode (undo_after floor h)) <= u32_max -> moderate target ->
      forall d2 disk2 st2 hs r d', dir_files d2 !! path = Some disk2 -> history (from_file disk2) st2 (hs ++ h) ->
        compact_finish path (CompactBuilt base target st1) d2 = (r, d') -> moderate_at d' path ->
        exists disk' st' h', dir_files d' !! path = Some disk' /\ history (from_file disk') st' h' /\ set_of h' = set_of (hs ++ h) /\
          ((disk' = disk2 /\ forall c, r <> Ok c) \/ compacted floor h hs h')
  | Ok (CompactEnd c) => h = [] /\ c = Done (mkCompaction (len (IoBackend.d_data disk)) (len (IoBackend.d_data disk)))
  | Err _ | Panic => True
  end.
Proof using CL.
  intros Hd Hh Eb. split; [pose proof (compact_build_spares path floor d) as Hs; rewrite Eb in Hs; cbn [snd] in Hs; congruence|]. destruct built as [[c|base target st1]|e|]; [| |done..].
  - by eapply compact_build_end.
  - intros Hfl Hul Hm d2 disk2 st2 hs r d' Hd2 Hh2 Ef Hmd.
    destruct (compact_outcome _ _ _ _ _ _ _ _ _ _ _ _ _ _ _ _ Hd Hh Hfl Hul Eb Hm Hd2 Hh2 Ef Hmd) as [[Hk Hr]|(disk' & st' & h' & Hd' & Hh' & Hc)].
    + exists disk2, st2, (hs ++ h). split; [done|]. split; [done|]. split; [done|by left].
    + exists disk', st', h'. split; [done|]. split; [done|]. split; [|by right]. destruct Hc as (b & hn & -> & Hsb & _ & _ & _ & Hsn & _). by apply set_of_seen.
Qed.

(** ** Rewinds *)

(** A rewind by path that reaches the base. *)
Lemma rewind_to_below d path disk st hs b undo token :
  dir_files d !! path = Some disk -> history (from_file disk) st (hs ++ [b]) -> fh_base (fr_header b) = true -> undo_decode (fr_payload b) = Ok undo -> Forall plain hs ->
  Forall (fun fr => token_ltb (fr_token fr) token = false) (hs ++ [b]) ->
  rewind_to path token d = (let! _ := dir_op (io_error "open") in rewrite_below_base path (from_file disk) (at_of b) undo token) d.
Proof using CL.
  intros Hd Hh Hb Hu Hp Ht. pose proof Hh as [Hpub Hc]. pose proof Hpub as ([Hfe Hfl] & _). unfold rewind_to, open_existing, sbind.
  pose proof (spares_dir_op path (io_error "open") d) as Hs. destruct (dir_op (io_error "open") d) as [[[]|e|] d1]; cbn [snd] in Hs; [|done..]. rewrite Hs, Hd. cbn [fmap option_fmap option_map slift]. rewrite (published_state _ _ Hpub).
  assert (token_leb token (ts_token st) = true) as ->.
  { rewrite token_leb_ltb, (history_state _ _ _ Hh). destruct hs as [|fr hs]; cbn [app] in Ht |- *; apply Forall_cons in Ht as [Ht _]; unfold fr_token in Ht; cbn [state_at ts_token]; by rewrite Ht. }
  unfold rewind, sbind. cbn [slift]. rewrite (rewind_loop_base _ token hs b undo) by (done || (unfold HEADER_REGION in *; lia)).
  destruct (rewrite_below_base _ _ _ _ _ d1) as [[[]|e|] d2]; done.
Qed.

(** The step of a rewind that [rewind_to] starts in this directory has a moderate size. *)
Definition step_moderate (path : string) (disk : IoBackend.Disk) (b : Frame) (undo : UndoLog) (token : Token) (d : Dir) : Prop :=
  forall d0 t step d1, dir_op (io_error "open") d = (Ok tt, d0) ->
    rewind_step path (from_file disk) (fr_trailer b) (undone_groups token (ul_groups undo)) (kept_token undo token) d0 = (Ok (t, step), d1) -> moderate step.

Lemma compacted_recorded tf e h hs hn b floor token :
  chain tf e h -> Forall plain h -> newest_first h -> 0 <= floor < tk_index token -> compacted floor h hs (hn ++ [b]) ->
  exists undo, undo = undo_after floor h /\ undo_decode (fr_payload b) = Ok undo /\ fh_base (fr_header b) = true /\ Forall plain hn /\ ul_floor undo = floor /\
    logged (set_of (before token h)) (mjoin (snd <$> undone_groups token (ul_groups undo))) (fr_set b).
Proof using CL.
  intros Hc Hp Hn Hf (b' & hn' & E & Hs & _ & Hb & Hu & _ & Hpl). apply app_inj_2 in E as [-> E]; [|done]. injection E as <-.
  exists (undo_after floor h). split; [done|]. split; [done|]. split; [done|]. split; [done|]. split; [cbn; rewrite floor_plain by done; lia|].
  rewrite undone_after by (rewrite floor_plain by done; lia). rewrite Hs. by eapply undone_logged.
Qed.

(** C24: Raft may replay an entry that a compaction has merged into the base.  A rewind to
    its token takes the recorded changes back: the path then holds a base frame with
    exactly the set that the frames before the token had when they were still apart, and
    the log of the changes before it.  When a disk or directory operation fails on the
    way, the path still holds its old file. *)
Theorem rewind_after_compaction d path disk st tf0 e0 h hs hn b floor token r d' :
  chain tf0 e0 h -> Forall plain h -> newest_first h -> 0 <= floor < tk_index token -> token_ok token ->
  compacted floor h hs (hn ++ [b]) -> dir_files d !! path = Some disk -> history (from_file disk) st (hn ++ [b]) ->
  Forall (fun fr => token_ltb (fr_token fr) token = false) (hn ++ [b]) ->
  step_moderate path disk b (undo_after floor h) token d -> rewind_to path token d = (r, d') -> moderate_at d' path ->
  (r <> Ok tt /\ dir_files d' !! path = Some disk) \/
  (exists disk' st' b', dir_files d' !! path = Some disk' /\ history (from_file disk') st' [b'] /\ fr_set b' = set_of (before token h) /\
     undo_decode (fr_payload b') = Ok (mkUndoLog floor (kept_groups token (ul_groups (undo_after floor h))))).
Proof using CL.
  intros Hc Hp Hn Hf Htok Hcd Hd Hh Ht Hsm E Hm. destruct (compacted_recorded _ _ _ _ _ _ _ token Hc Hp Hn Hf Hcd) as (undo & Eu & Hu & Hb & Hpl & Hfl & Hlog). rewrite <- Eu in *.
  rewrite (rewind_to_below d path disk st hn b undo token) in E by done. unfold sbind in E. pose proof (spares_dir_op path (io_error "open") d) as Hs. unfold step_moderate in Hsm.
  destruct (dir_op (io_error "open") d) as [[[]|e|] d1]; cbn [snd] in Hs; [|injection E as <- <-; left; (split; [done|congruence])..].
  assert (zset_ok (set_of (before token h))) as Hz.
  { destruct (chain_before _ _ _ token Hc) as [Hcb _]. destruct (before token h) as [|f h']; [apply zset_ok_nil|]. destruct Hcb as (_ & Hw & _). apply Hw. }
  destruct (rewrite_below_outcome d1 path disk st hn b undo token (set_of (before token h)) r d') as [?|(disk' & st' & b' & Hd' & Hh' & Hs' & _ & _ & Hu')]; [|by intros; eapply Hsm|done|done|by left|].
  - constructor; try done; [congruence|lia].
  - right. exists disk', st', b'. rewrite <- Hfl. done.
Qed.

(** A rewind to a token at or below the floor of a compacted file is refused, with the
    token and the floor in the message, and nothing is written. *)
Theorem rewind_below_floor d path disk st hs b undo token :
  dir_files d !! path = Some disk -> history (from_file disk) st (hs ++ [b]) -> fh_base (fr_header b) = true -> undo_decode (fr_payload b) = Ok undo -> Forall plain hs ->
  Forall (fun fr => token_ltb (fr_token fr) token = false) (hs ++ [b]) -> tk_index token <= ul_floor undo -> dir_events d = [] ->
  rewind_to path token d = (Err (floor_error token (ul_floor undo)), d).
Proof using CL.
  intros Hd Hh Hb Hu Hp Ht Hf Hev. rewrite (rewind_to_below d path disk st hs b undo token) by done. unfold sbind, dir_op. rewrite Hev. unfold rewrite_below_base.
  destruct (Z.leb_spec (tk_index token) (ul_floor undo)); [done|lia].
Qed.

(** ** The order of frames *)

Lemma newest_first_before token h : newest_first h -> newest_first (before token h).
Proof using Type. induction 1 as [|fr h Hs IH Hf]; cbn [before]; [constructor|]. destruct (token_ltb (fr_token fr) token); [by constructor|done]. Qed.

Lemma before_all token h : newest_first h -> Forall (fun fr => token_ltb (fr_token fr) token = true) (before token h).
Proof using Type.
  induction 1 as [|fr h Hs IH Hf]; cbn [before]; [constructor|]. destruct (token_ltb (fr_token fr) token) eqn:E; [|done]. constructor; [done|].
  eapply Forall_impl; [exact Hf|]. intros f Hlt. exact (token_ltb_trans _ _ _ Hlt E).
Qed.

Lemma newest_first_grown token h h' : newest_first h -> grown token h h' -> newest_first h'.
Proof using Type.
  intros Hn [->|(fr & -> & Ht & _)]; [by apply newest_first_before|]. constructor; [exact (newest_first_before _ _ Hn)|]. rewrite Ht. by apply before_all.
Qed.

(** One call on a path that no fault meets: a batch, a rewind or a sync, whose sizes and
    tokens stay within the format. *)
Inductive call (path : string) (d : Dir) : Dir -> Prop :=
| call_apply token ops r d' :
    (forall st h, file_at d path st h -> batch_ok d path st h token ops) -> ZsetDir.apply path token ops d = (r, d') -> call path d d'
| call_rewind token r d' :
    (forall st h, file_at d path st h -> above_base token h /\ ts_generation st < u64_max) -> rewind_to path token d = (r, d') -> call path d d'
| call_sync r d' :
    (forall st h, file_at d path st h -> ts_generation st < u64_max) -> sync_path path d = (r, d') -> call path d d'.

(** The invariant of a path: a file with a history of frames, newest first by token. *)
Definition ordered_file (path : string) (d : Dir) : Prop := exists st h, file_at d path st h /\ newest_first h.

Lemma call_ordered path d d' : call path d d' -> ordered_file path d -> ordered_file path d'.
Proof using CL.
  intros [token ops r d1 Hb E|token r d1 Hb E|r d1 Hb E] (st & h & Hat & Hn).
  - destruct (apply_leaves _ _ _ _ _ _ _ _ Hat (Hb _ _ Hat) E) as (st' & h' & Hat' & Hg). exists st', h'. split; [done|]. exact (newest_first_grown _ _ _ Hn Hg).
  - destruct (Hb _ _ Hat) as [Hab Hg]. destruct (rewind_leaves _ _ _ _ _ _ _ Hat Hab Hg E) as (st' & Hat'). exists st', (before token h). split; [done|by apply newest_first_before].
  - destruct (sync_leaves _ _ _ _ _ _ Hat (Hb _ _ Hat) E) as (st' & Hat'). by exists st', h.
Qed.

(** C25: Whatever batches (replayed, failing or new), rewinds and syncs reach a path, its
    file stays a history of whole frames in which newer frames have greater tokens, so a
    rewind that stops at the first older frame has undone every later one. *)
Theorem calls_keep_order path d d' : rtc (call path) d d' -> ordered_file path d ->
  exists st h, file_at d' path st h /\ newest_first h /\ forall token, Forall (fun fr => token_ltb (fr_token fr) token = true) (before token h).
Proof using CL.
  intros Hr Ho. assert (ordered_file path d') as (st & h & Hat & Hn) by (induction Hr as [|d1 d2 d3 Hc _ IH]; [done|]; apply IH; by eapply call_ordered).
  exists st, h. split; [done|]. split; [done|]. intros token. by apply before_all.
Qed.

End Rebuild.

(** ** A file compacted and rewound *)

#[local] Existing Instance crc32_iso_hdlc.

Module Rebuilt.

Definition floor : Z := 4.

(** Both halves of a compaction, with no writer between them. *)
Definition finish_of (b : result compact_step * Dir) : result Compacted * Dir :=
  match b with (Ok step, d) => compact_finish "z" step d | (Err e, d) => (Err e, d) | (Panic, d) => (Panic, d) end.
Definition built : result compact_step * Dir := compact_build "z" floor Dirs.d1.
Definition finished : result Compacted * Dir := finish_of built.

Definition moderate_size (n : Z) : bool := n + PAGE_SIZE <=? 17592186044416.
Definition moderate_disk (d : Dir) : bool := match dir_files d !! "z" with Some disk => moderate_size (len (IoBackend.d_data disk)) | None => true end.

(** What the theorem asks of the build, evaluated. *)
Definition built_ok (b : result compact_step * Dir) (f : result Compacted * Dir) : bool :=
  match b with (Ok (CompactBuilt _ target _), _) => moderate_size (len (tf_data target)) | _ => false end &&
  match f with (Ok (Done _), d) => moderate_disk d | _ => false end.
Definition undo_fits (tf : TreeFile) (floor : Z) : bool :=
  match state tf with
  | Ok st => match undo_log_after tf (ts_frame_end st) floor with Ok u => len (undo_encode u) <=? u32_max | _ => false end
  | _ => false
  end.
Lemma built_check : built_ok built finished = true.
Proof. vm_compute. reflexivity. Qed.
Lemma undo_check : undo_fits (from_file Dirs.disk1) floor = true.
Proof. vm_compute. reflexivity. Qed.

Lemma built_ok_inv b f : built_ok b f = true ->
  exists base target st1 c, b = (Ok (CompactBuilt base target st1), b.2) /\ moderate target /\ f = (Ok (Done c), f.2) /\ moderate_disk f.2 = true.
Proof.
  destruct b as [[[c|base target st1]|e|] d]; cbn [built_ok andb]; [discriminate|..|discriminate|discriminate]. destruct f as [[[|c]|e|] d']; intros [H1 H2]%andb_prop; [discriminate H2| |discriminate H2..].
  exists base, target, st1, c. split; [done|]. split; [by apply Z.leb_le in H1|done].
Qed.

Lemma finish_of_inv base target st1 d c d' b : b = (Ok (CompactBuilt base target st1), d) -> finish_of b = (Ok (Done c), d') -> compact_finish "z" (CompactBuilt base target st1) d = (Ok (Done c), d').
Proof. by intros ->. Qed.

Lemma moderate_disk_at d : moderate_disk d = true -> moderate_at d "z".
Proof. intros H disk Hd. unfold moderate_disk in H. rewrite Hd in H. by apply Z.leb_le in H. Qed.

(** The compacted file. *)
Lemma undo_fits_inv tf h st : undo_fits tf floor = true -> history tf st h -> len (undo_encode (undo_after floor h)) <= u32_max.
Proof.
  intros Hu Hh. unfold undo_fits in Hu. pose proof Hh as [Hp Hc]. rewrite (published_state _ _ Hp) in Hu.
  destruct (undo_log_after_chain _ _ _ floor Hc) as [E _]; [apply Hp|unfold u64_ok, u64_max, floor; lia|]. rewrite E in Hu. by apply Z.leb_le in Hu.
Qed.

Lemma disk1_grown : exists st h, dir_files Dirs.d1 !! "z" = Some Dirs.disk1 /\ history (from_file Dirs.disk1) st h /\ set_of h = Dirs.z /\ grown Dirs.token [] h.
Proof.
  destruct Dirs.file_d1_grown as (st & h & (_ & disk & Hd & _ & Hh) & Hs & _ & _ & Hg). assert (Dirs.disk1 = disk) as E by (unfold Dirs.disk1; rewrite Hd; exact eq_refl). rewrite E. exists st, h. exact (conj Hd (conj Hh (conj Hs Hg))).
Qed.

(** The same facts for the rewind that follows. *)
Lemma compacted_file : exists disk st b h, dir_files finished.2 !! "z" = Some disk /\ history (from_file disk) st [b] /\ compacted floor h [] [b] /\ grown Dirs.token [] h /\ set_of h = Dirs.z /\
  (exists tf0 e0, chain tf0 e0 h).
Proof.
  destruct disk1_grown as (st & h & Hd & Hh & Hs & Hg). destruct (built_ok_inv _ _ built_check) as (base & target & st1 & c & Eb & Hm & Ef & Hmd).
  pose proof (finish_of_inv _ _ _ _ _ _ _ Eb Ef) as Ef'. assert (u64_ok floor) as Hfl by (unfold u64_ok, u64_max, floor; lia).
  destruct (compact_outcome "z" floor Dirs.d1 Dirs.disk1 st h base target st1 built.2 built.2 Dirs.disk1 st [] (Ok (Done c)) finished.2 Hd Hh Hfl (undo_fits_inv _ _ _ undo_check Hh) Eb Hm) as [[_ Hr]|(disk' & st' & h' & Hd' & Hh' & Hc)].
  - pose proof (compact_build_spares "z" floor Dirs.d1) as Hsp. fold built in Hsp. rewrite Hsp. exact Hd.
  - exact Hh.
  - exact Ef'.
  - exact (moderate_disk_at _ Hmd).
  - by destruct (Hr (Done c)).
  - pose proof Hc as (b & hn & E & _ & _ & _ & _ & Hsn & _). apply fmap_nil_inv in Hsn as ->. cbn [app] in E. subst h'. exists disk', st', b, h.
    split; [exact Hd'|]. split; [exact Hh'|]. split; [exact Hc|]. split; [exact Hg|]. split; [exact Hs|]. exists (from_file Dirs.disk1), (ts_frame_end st). exact (proj2 Hh).
Qed.

(** The rewind to the batch's own token, and the size of its scratch file. *)
Definition rewound : result unit * Dir := rewind_to "z" Dirs.token finished.2.
Definition step_size (d : Dir) (token : Token) : bool :=
  match dir_files d !! "z" with
  | Some disk =>
      let tf := from_file disk in
      match state tf with
      | Ok st =>
          match trailer_ending_at tf (ts_frame_end st) with
          | Ok (Some t) =>
              match (let? h := frame_header tf (tr_frame_start t) in let? bs := frame_ops tf (mkFrameAt (tr_frame_start t) (ts_frame_end st) t) h in undo_decode bs) with
              | Ok undo => match rewind_step "z" tf t (undone_groups token (ul_groups undo)) (kept_token undo token) d with (Ok (_, step), _) => moderate_size (len (tf_data step)) | _ => true end
              | _ => false
              end
          | _ => false
          end
      | _ => false
      end
  | None => false
  end.
Definition no_events (d : Dir) : bool := match dir_events d with [] => true | _ => false end.
Lemma step_check : step_size finished.2 Dirs.token && no_events finished.2 = true.
Proof. vm_compute. reflexivity. Qed.
Definition rewound_ok (r : result unit * Dir) : bool := match r with (Ok tt, d) => moderate_disk d | _ => false end.
Lemma rewound_check : rewound_ok rewound = true.
Proof. vm_compute. reflexivity. Qed.

Lemma step_size_moderate d token disk st b undo :
  dir_files d !! "z" = Some disk -> history (from_file disk) st [b] -> undo_decode (fr_payload b) = Ok undo -> step_size d token = true -> no_events d = true -> step_moderate "z" disk b undo token d.
Proof.
  intros Hd Hh Hu Hs Hn d0 t step d1 E0 E1. unfold dir_op in E0. unfold no_events in Hn. destruct (dir_events d); [|discriminate Hn]. injection E0 as <-.
  unfold step_size in Hs. rewrite Hd in Hs. cbv zeta in Hs. pose proof Hh as [Hp Hc]. rewrite (published_state _ _ Hp) in Hs.
  pose proof (chain_step _ _ _ _ Hc (proj2 (proj1 Hp))) as (He & _ & _ & Et & Eh & Eo & Est & _). rewrite Et, Est, Eh in Hs. cbn [rbind] in Hs. unfold at_of in Eo. rewrite He, Eo in Hs. cbn [rbind] in Hs. rewrite Hu, E1 in Hs.
  by apply Z.leb_le in Hs.
Qed.

Lemma rewound_ok_inv r : rewound_ok r = true -> r = (Ok tt, r.2) /\ moderate_disk r.2 = true.
Proof. destruct r as [[[]|e|] d]; cbn; [done|discriminate..]. Qed.

Lemma fresh_only st h : file_at Dirs.d0 "z" st h -> st = Example.st0 /\ h = [].
Proof.
  intros (_ & disk & Hd & _ & Hh). destruct Dirs.file_d0 as (_ & disk' & Hd' & _ & Hh'). rewrite Hd in Hd'. apply (inj Some) in Hd' as <-. pose proof (published_state _ _ (proj1 Hh)) as E. rewrite (published_state _ _ (proj1 Hh')) in E. apply Ok_inj in E as <-.
  split; [reflexivity|]. destruct h as [|fr h]; [reflexivity|]. destruct Hh as [_ Hc]. pose proof (chain_bounds _ _ _ Hc) as [_ Hb]. specialize (Hb ltac:(discriminate)).
  change (ts_frame_end Example.st0) with HEADER_REGION in Hb. unfold FRAME_HEADER_SIZE, TRAILER_SIZE in Hb. lia.
Qed.

Lemma grown_one h : grown Dirs.token [] h -> h <> [] -> exists fr, h = [fr] /\ fr_token fr = Dirs.token /\ plain fr.
Proof. intros [->|(fr & -> & ? & ?)] Hne; [done|]. by exists fr. Qed.

(** A writer between the two halves of the compaction. *)
Definition written : result Applied * Dir := ZsetDir.apply "z" Dirs.token2 Dirs.ops2 built.2.
Definition finish_with (b : result compact_step) (d : Dir) : result Compacted * Dir :=
  match b with Ok step => compact_finish "z" step d | Err e => (Err e, d) | Panic => (Panic, d) end.
Definition finished2 : result Compacted * Dir := finish_with built.1 written.2.
Definition z2 : zset := [(lit "c", Dirs.one)].

Lemma written_check : Dirs.room built.2 Dirs.token2 Dirs.ops2 && no_events built.2 = true.
Proof. vm_compute. reflexivity. Qed.
Lemma written_fits : batch_page_error "z" Dirs.token2 Dirs.ops2 built.2 = None.
Proof. vm_compute. reflexivity. Qed.
Lemma finished2_check : built_ok built finished2 = true.
Proof. vm_compute. reflexivity. Qed.

Lemma built_file : exists st h, file_at built.2 "z" st h /\ file_at Dirs.d1 "z" st h /\ set_of h = Dirs.z /\ grown Dirs.token [] h /\ ts_generation st < u64_max.
Proof.
  destruct Dirs.file_d1_grown as (st & h & Hat & Hs & _ & Hgen & Hg). exists st, h. split; [|done]. pose proof (compact_build_spares "z" floor Dirs.d1) as Hsp. fold built in Hsp.
  pose proof (andb_prop _ _ written_check) as [_ Hn]. destruct Hat as (_ & disk & Hd & H). unfold no_events in Hn. split; [destruct (dir_events built.2); [done|discriminate Hn]|].
  exists disk. split; [by rewrite Hsp|exact H].
Qed.

Lemma written_file st h : file_at built.2 "z" st h -> set_of h = Dirs.z -> grown Dirs.token [] h -> ts_generation st < u64_max ->
  exists st2 fr, file_at written.2 "z" st2 (fr :: h) /\ fr_set fr = z2.
Proof.
  intros Hat Hs Hg Hgen. pose proof (andb_prop _ _ written_check) as [Hr _]. pose proof (apply_outcome _ _ _ _ _ _ Hat (Dirs.batch_second _ _ _ Hr Hs Hg Hgen)) as H.
  rewrite (Dirs.before_second _ Hg), Hs in H. assert (spec_apply_all Dirs.ops2 Dirs.z = Ok (_, z2, _)) as Es by (vm_compute; reflexivity). rewrite Es, written_fits in H. clear Es.
  unfold written. destruct H as (st' & d' & h' & -> & Hat' & _ & _ & (fr & -> & _ & _ & Hf & _)). rewrite (Dirs.before_second _ Hg) in Hat'. exists st', fr. split; [exact Hat'|exact Hf].
Qed.

(** A directory in which the second operation fails. *)
Definition broken : Dir := mkDir (dir_files Dirs.d1) [None; Some "No space left on device"] [].
Definition refused (r : result compact_step) : bool := match r with Err _ => true | _ => false end.
Lemma broken_check : refused (compact_build "z" floor broken).1 = true.
Proof. vm_compute. reflexivity. Qed.

End Rebuilt.

Lemma compaction_keeps_sets_witness :
  (exists disk' st' h' h fr, dir_files Rebuilt.finished2.2 !! "z" = Some disk' /\ history (from_file disk') st' h' /\ set_of h' = Rebuilt.z2 /\ compacted Rebuilt.floor h [fr] h' /\ set_of h = Dirs.z) /\
  (exists e d', compact_build "z" Rebuilt.floor Rebuilt.broken = (Err e, d') /\ dir_files d' !! "z" = Some Dirs.disk1).
Proof.
  destruct Rebuilt.disk1_grown as (st0 & h0 & Hd0 & Hh0 & _). split.
  - destruct Rebuilt.built_file as (st & h & Hb & (_ & disk & Hd & _ & Hh) & Hs & Hg & Hgen). destruct (Rebuilt.written_file st h Hb Hs Hg Hgen) as (st2 & fr & (_ & disk2 & Hd2 & _ & Hh2) & Hf).
    destruct (Rebuilt.built_ok_inv _ _ Rebuilt.finished2_check) as (base & target & st1 & c & Eb & Hm & Ef & Hmd). assert (u64_ok Rebuilt.floor) as Hfl by (unfold u64_ok, u64_max, Rebuilt.floor; lia).
    assert (disk = Dirs.disk1) as -> by (rewrite Hd in Hd0; by apply (inj Some) in Hd0).
    destruct (compaction_keeps_sets "z" Rebuilt.floor Dirs.d1 Dirs.disk1 st h _ _ Hd Hh Eb) as [_ H].
    assert (compact_finish "z" (CompactBuilt base target st1) Rebuilt.written.2 = (Ok (Done c), Rebuilt.finished2.2)) as Ef' by (rewrite <- Ef; unfold Rebuilt.finished2; rewrite Eb; reflexivity).
    destruct (H Hfl (Rebuilt.undo_fits_inv _ _ _ Rebuilt.undo_check Hh) Hm Rebuilt.written.2 disk2 st2 [fr] (Ok (Done c)) Rebuilt.finished2.2 Hd2 Hh2 Ef' (Rebuilt.moderate_disk_at _ Hmd)) as (disk' & st' & h' & Hd' & Hh' & Hs' & Hc).
    exists disk', st', h', h, fr. split; [exact Hd'|]. split; [exact Hh'|]. split; [rewrite Hs'; exact Hf|]. split; [|exact Hs]. destruct Hc as [[_ Hc]|Hc]; [by destruct (Hc (Done c))|exact Hc].
  - pose proof (compaction_keeps_sets "z" Rebuilt.floor Rebuilt.broken Dirs.disk1 st0 h0 _ _ Hd0 Hh0 (surjective_pairing _)) as [Hk _]. pose proof Rebuilt.broken_check as Hr.
    revert Hk Hr. generalize (compact_build "z" Rebuilt.floor Rebuilt.broken). intros [[s|e|] d'] Hk Hr; [discriminate Hr| |discriminate Hr]. exists e, d'. split; [reflexivity|exact Hk].
Defined.

Lemma rewind_after_compaction_witness : exists disk' st' b', dir_files Rebuilt.rewound.2 !! "z" = Some disk' /\ history (from_file disk') st' [b'] /\ fr_set b' = [].
Proof.
  destruct Rebuilt.compacted_file as (disk & st & b & h & Hd & Hh & Hc & Hg & Hs & tf0 & e0 & Hch). assert (h <> []) as Hne by (intros ->; discriminate Hs). destruct (Rebuilt.grown_one h Hg Hne) as (fr & -> & Ht & Hp).
  pose proof Hc as (b' & hn & E & _ & (f & [= <-] & Htb) & _ & Hu & Hsn & _). apply fmap_nil_inv in Hsn as ->. cbn [app] in E. injection E as <-.
  assert (newest_first [fr]) as Hnf by (repeat constructor). pose proof (andb_prop _ _ Rebuilt.step_check) as [H1 H2]. destruct (Rebuilt.rewound_ok_inv _ Rebuilt.rewound_check) as [Er Hm].
  destruct (rewind_after_compaction Rebuilt.finished.2 "z" disk st tf0 e0 [fr] [] [] b Rebuilt.floor Dirs.token (Ok tt) Rebuilt.rewound.2) as [[Hr _]|(disk' & st' & b' & Hd' & Hh' & Hs' & _)].
  - exact Hch.
  - by constructor.
  - exact Hnf.
  - unfold Rebuilt.floor, Dirs.token. cbn. lia.
  - unfold token_ok, u64_ok, u64_max, Dirs.token. cbn. lia.
  - exact Hc.
  - exact Hd.
  - exact Hh.
  - constructor; [|constructor]. rewrite Htb, Ht. reflexivity.
  - exact (Rebuilt.step_size_moderate _ _ _ _ _ _ Hd Hh Hu H1 H2).
  - exact Er.
  - exact (Rebuilt.moderate_disk_at _ Hm).
  - by destruct Hr.
  - exists disk', st', b'. split; [exact Hd'|]. split; [exact Hh'|]. rewrite Hs'. rewrite before_own by exact Ht. reflexivity.
Defined.

Lemma rewind_below_floor_witness : rewind_to "z" (mkToken 4 1) Rebuilt.finished.2 = (Err (floor_error (mkToken 4 1) 4), Rebuilt.finished.2).
Proof.
  destruct Rebuilt.compacted_file as (disk & st & b & h & Hd & Hh & Hc & Hg & Hs & tf0 & e0 & Hch). assert (h <> []) as Hne by (intros ->; discriminate Hs). destruct (Rebuilt.grown_one h Hg Hne) as (fr & -> & Ht & Hp).
  pose proof Hc as (b' & hn & E & _ & (f & [= <-] & Htb) & Hb & Hu & Hsn & _). apply fmap_nil_inv in Hsn as ->. cbn [app] in E. injection E as <-. pose proof (andb_prop _ _ Rebuilt.step_check) as [_ H2].
  assert (ul_floor (undo_after Rebuilt.floor [fr]) = 4) as Ef by (unfold undo_after; cbn [ul_floor]; rewrite floor_plain by (by constructor); reflexivity).
  pose proof (rewind_below_floor Rebuilt.finished.2 "z" disk st [] b (undo_after Rebuilt.floor [fr]) (mkToken 4 1) Hd Hh Hb Hu) as H. rewrite Ef in H. apply H.
  - constructor.
  - constructor; [|constructor]. rewrite Htb, Ht. reflexivity.
  - cbn. lia.
  - unfold Rebuilt.no_events in H2. destruct (dir_events Rebuilt.finished.2); [reflexivity|discriminate H2].
Defined.

Lemma calls_keep_order_witness : exists st h, file_at Dirs.d1 "z" st h /\ newest_first h.
Proof.
  destruct (calls_keep_order "z" Dirs.d0 Dirs.d1) as (st & h & Hat & Hn & _).
  - eapply rtc_l; [|apply rtc_refl]. apply (call_apply "z" Dirs.d0 Dirs.token Dirs.ops (ZsetDir.apply "z" Dirs.token Dirs.ops Dirs.d0).1); [|unfold Dirs.d1; apply surjective_pairing].
    intros st h Hat. destruct (Rebuilt.fresh_only _ _ Hat) as [-> ->]. exact (Dirs.batch_d0 Dirs.ops eq_refl Dirs.ops_small Dirs.room_d0).
  - exists Example.st0, []. split; [exact Dirs.file_d0|constructor].
  - exists st, h. split; [exact Hat|exact Hn].
Defined.
