(* ===== verification/ZsetFindings.v ===== *)
(** * Nodes that outgrow their page

    Two sorted sets of valid members, on a healthy disk, on which the code fails because
    it builds a tree node of more than [PAGE_SIZE] bytes.  Both nodes come from splits
    that look at half of the bytes only: [Tx::rebalance] puts a longer separator into a
    full parent without splitting it, and [balance_last] splits two nearly full leaves
    where the second half with one more long entry is over a page.

    [ZsetContract.apply_publishes] allows for the first with its second alternative. *)

From Stdlib Require Import ZArith.
From stdpp Require Import gmap strings.
From S2P Require Import Prelude Bytes Crc IoBackend F64 ZsetFormat ZsetStore ZsetOps ZsetDir ZsetContract.

#[local] Existing Instance crc32_iso_hdlc.

(** The member of [n] bytes that starts with byte [i]. *)
Definition member_of (i n : Z) : bytes := byte_of i :: replicate (Z.to_nat (n - 1)) x61.
Definition add_member (m : bytes) : Op := OpAdd m Dirs.one Dirs.no_conditions.

Definition succeeded (r : result Applied) : bool := match r with Ok _ => true | _ => false end.

Module Compacting.

(** Entries of 507, 508 and 525 bytes in the score tree, then of 509 and 512: the first
    seven fill a leaf to 3584 bytes, the others the last one to 3582. *)
Definition sizes : list Z := [486; 486; 486; 486; 486; 487; 504; 488; 488; 488; 488; 488; 488; 491].
Definition ops : list Op := imap (fun i n => add_member (member_of (97 + Z.of_nat i) n)) sizes.

(** C27: Compaction can fail on a healthy disk: after fourteen members of about 490 bytes
    are added, the last two leaves of the packed score tree are split into a part that
    does not fit a page. *)
Theorem compaction_outgrows_page :
  let '(added, d) := ZsetDir.apply "z" (mkToken 1 1) ops Dirs.d0 in
  succeeded added = true /\ (compact_build "z" 0 d).1 = Err "zset tree: node of 4107 bytes does not fit a page".
Proof. vm_compute. exact (conj eq_refl eq_refl). Qed.

End Compacting.

Module Removing.

(** Every fourth byte starts a member of 504 bytes, one of them is short, and the leaf
    before it has seven members. *)
Definition size (i : Z) : Z := if i =? 64 then 9 else 504.
Definition adds : list Op := (fun i => add_member (member_of i (size i))) <$> ((fun i => 4 * Z.of_nat i) <$> seq 0 37) ++ [61; 62; 63].
Definition removes : list Op := (fun i => OpRemove (member_of i (size i))) <$> [76; 72].

(** C26: A removal can fail on a healthy disk: with forty members stored, removing two
    merges two leaves and splits them again at a longer separator, which the full parent
    has no room for. *)
Theorem removal_outgrows_page :
  let '(added, d) := ZsetDir.apply "z" (mkToken 1 1) adds Dirs.d0 in
  succeeded added = true /\ (ZsetDir.apply "z" (mkToken 2 1) removes d).1 = Err "zset tree: node of 4280 bytes does not fit a page".
Proof. vm_compute. exact (conj eq_refl eq_refl). Qed.

End Removing.
