(* ===== verification/Sidecar.v ===== *)
(** * The files of the probabilistic sidecars

    Bloom, count-min, cuckoo and top-k structures live in sidecar files that are read and
    written with positioned system calls (sections/part_01.rs).  A [World] is the directory
    of those files, by file name, with the outcomes of the system calls to come: when the
    list of outcomes is empty every call succeeds.  A failing write may have written a
    prefix of its bytes first.

    A file is opened under an advisory lock held for the whole operation, so no other
    operation changes it in between: an open file is the name it was opened by.  A staged
    file is visible under its destination only once it is published; until then it is the
    bytes written so far, since nothing opens it by its temporary name. *)

From Stdlib Require Import ZArith Lia.
From stdpp Require Import gmap strings.
From S2P Require Import Prelude Bytes.

Inductive outcome : Type :=
  | Succeeds
  | Fails (written : Z) (error : string)
  | Stalls (written : Z).

Record World : Type := mkWorld {
  w_files : gmap string bytes;
  w_outcomes : list outcome;
}.

Definition with_files (files : gmap string bytes) (w : World) : World := mkWorld files (w_outcomes w).

(** The outcome of the next system call. *)
Definition next_outcome : SR World outcome := fun w =>
  match w_outcomes w with
  | [] => (Ok Succeeds, w)
  | o :: rest => (Ok o, mkWorld (w_files w) rest)
  end.

(** A call that does its work or returns an error. *)
Definition syscall : SR World unit :=
  let! o := next_outcome in
  match o with
  | Fails _ e => serr e
  | Succeeds | Stalls _ => sret tt
  end.

(** [.map_err(f)]. *)
Definition map_err {A : Type} (f : string -> string) (m : SR World A) : SR World A := fun w =>
  match m w with
  | (Err e, w) => (Err (f e), w)
  | r => r
  end.

Definition file_data (file : string) : SR World bytes := fun w => (ok_or (w_files w !! file) "Bad file descriptor", w).
Definition set_data (file : string) (data : bytes) : SR World unit := fun w => (Ok tt, with_files (<[file := data]> (w_files w)) w).

(** [open_random_read_locked], [open_random_rw_locked]: [None] is the error [NotFound]. *)
Definition open_random_locked (path : string) : SR World (option string) :=
  let! _ := syscall in
  fun w => (Ok (match w_files w !! path with Some _ => Some path | None => None end), w).
Definition open_random_read_locked : string -> SR World (option string) := open_random_locked.
Definition open_random_rw_locked : string -> SR World (option string) := open_random_locked.

(** [File::metadata().len()]. *)
Definition metadata_len (file : string) : SR World Z :=
  let! _ := syscall in
  let! data := file_data file in
  sret (len data).

(** [File::read_to_end]. *)
Definition read_to_end (file : string) : SR World bytes :=
  let! _ := syscall in
  file_data file.

(** The loops of [read_at] that fill a buffer of [n] bytes; [verb] and [kind] name the call
    and the file in errors.  An empty buffer needs no call. *)
Definition read_exact_as (verb kind file : string) (n offset : Z) (label : string) : SR World bytes :=
  if n =? 0 then sret [] else
  let! o := next_outcome in
  let truncated : string := "truncated " +:+ kind +:+ " while reading " +:+ label in
  match o with
  | Fails _ e => serr (verb +:+ label +:+ ": " +:+ e)
  | Stalls _ => serr truncated
  | Succeeds =>
      let! data := file_data file in
      slift (ok_or (get_range data offset (offset + n)) truncated)
  end.
Definition read_exact_at : string -> string -> Z -> Z -> string -> SR World bytes := read_exact_as "pread ".

(** [write_all_at]. *)
Definition write_all_at (file : string) (buf : bytes) (offset : Z) (label : string) : SR World unit :=
  match buf with
  | [] => sret tt
  | _ =>
      let! o := next_outcome in
      let! data := file_data file in
      match o with
      | Succeeds => set_data file (overwrite data offset buf)
      | Fails n e =>
          let! _ := set_data file (overwrite data offset (ztake n buf)) in
          serr ("pwrite " +:+ label +:+ ": " +:+ e)
      | Stalls n =>
          let! _ := set_data file (overwrite data offset (ztake n buf)) in
          serr ("short pwrite " +:+ label +:+ ": wrote 0 bytes")
      end
  end.

(** [prob_fsync]. *)
Definition prob_fsync (file : string) : SR World unit := map_err (fun e => "sync_data: " +:+ e) syscall.

(** ** Integers of other widths *)

Definition checked_mul64 (a b : Z) : option Z := if a * b <=? u64_max then Some (a * b) else None.
Definition checked_i64 (z : Z) : option Z := if (- 9223372036854775808 <=? z) && (z <=? i64_max) then Some z else None.
Definition checked_i128 (z : Z) : option Z := if (- 2 ^ 127 <=? z) && (z <=? 2 ^ 127 - 1) then Some z else None.
(** [i64::from_le_bytes], on the unsigned value of the bytes. *)
Definition i64_of (z : Z) : Z := if z <=? i64_max then z else z - 18446744073709551616.

(** ** Staged files *)

Record StagedFile : Type := mkStagedFile {
  sf_data : bytes;
  destination_path : string;
}.

Definition create_staged_locked_nofollow (path : string) : SR World StagedFile :=
  let! _ := syscall in
  sret (mkStagedFile [] path).

(** [Write::write_all] at the end of the staged file. *)
Definition staged_write_all (staged : StagedFile) (bs : bytes) : SR World StagedFile :=
  match bs with
  | [] => sret staged
  | _ =>
      let! _ := syscall in
      sret (mkStagedFile (sf_data staged ++ bs) (destination_path staged))
  end.

(** [File::set_len]. *)
Definition staged_set_len (staged : StagedFile) (size : Z) : SR World StagedFile :=
  let! _ := syscall in
  sret (mkStagedFile (resize (Z.to_nat size) x00 (sf_data staged)) (destination_path staged)).

(** [StagedFile::publish]: sync, rename, directory sync.  The file stays visible when only
    the last step fails. *)
Definition publish (staged : StagedFile) : SR World unit :=
  let! _ := syscall in
  let! _ := syscall in
  let! _ := set_data (destination_path staged) (sf_data staged) in
  syscall.

(** The common end of the [*_file_create] functions: the parent directory, the header, the
    size, and publication. *)
Definition create_sidecar (path : string) (header : bytes) (file_size : Z) : SR World unit :=
  let! _ := map_err (fun e => "mkdir: " +:+ e) syscall in
  let! staged := map_err (fun e => "create: " +:+ e) (create_staged_locked_nofollow path) in
  let! staged := map_err (fun e => "write header: " +:+ e) (staged_write_all staged header) in
  let! staged := map_err (fun e => "set file size: " +:+ e) (staged_set_len staged file_size) in
  map_err (fun e => "publish: " +:+ e) (publish staged).

(** [open_random_merge_locked]: the destination and the sources are opened, identified, and
    locked once each. *)
Fixpoint open_all (paths : list string) : SR World bool :=
  match paths with
  | [] => sret true
  | path :: paths =>
      let! opened := open_random_locked path in
      match opened with
      | None => sret false
      | Some _ => open_all paths
      end
  end.
Fixpoint syscalls (n : nat) : SR World unit :=
  match n with
  | O => sret tt
  | S n => let! _ := syscall in syscalls n
  end.
Definition open_random_merge_locked (destination_path : string) (source_paths : list string) : SR World (option string) :=
  let! opened := open_all (destination_path :: source_paths) in
  if negb opened then sret None else
  let! _ := syscalls (S (length source_paths)) in
  let! _ := syscalls (length (remove_dups (destination_path :: source_paths))) in
  sret (Some destination_path).

(** [path_open::rename_nofollow]. *)
Definition rename_nofollow (from to : string) : SR World unit :=
  let! _ := syscall in
  let! data := file_data from in
  fun w => (Ok tt, with_files (<[to := data]> (delete from (w_files w))) w).

(** ** Replies

    A NIF answers [{:ok, a}], [{:error, :enoent}] or [{:error, reason}]. *)
Inductive reply (A : Type) : Type :=
  | ReplyOk (a : A)
  | ReplyEnoent
  | ReplyError (reason : string)
  | ReplyPanic.
Arguments ReplyOk {A} a.
Arguments ReplyEnoent {A}.
Arguments ReplyError {A} reason.
Arguments ReplyPanic {A}.

Definition reply_of {A : Type} (r : result A * World) : reply A * World :=
  match r with
  | (Ok a, w) => (ReplyOk a, w)
  | (Err e, w) => (ReplyError e, w)
  | (Panic, w) => (ReplyPanic, w)
  end.

(** Opens the sidecar and runs the body; [map_io_error] tells a missing file apart. *)
Definition with_sidecar {A : Type} (open : string -> SR World (option string)) (path : string) (body : string -> SR World A) (w : World) : reply A * World :=
  match open path w with
  | (Ok (Some file), w) => reply_of (body file w)
  | (Ok None, w) => (ReplyEnoent, w)
  | (Err e, w) => (ReplyError e, w)
  | (Panic, w) => (ReplyPanic, w)
  end.

(** The same from a task: a missing file is the reason ["enoent"]. *)
Definition with_sidecar_task {A : Type} (path : string) (body : string -> SR World A) : SR World A :=
  let! opened := open_random_read_locked path in
  match opened with
  | Some file => body file
  | None => serr "enoent"
  end.

(** ** Hashes

    The [xxhash_rust] crate is a parameter: a 64-bit hash of the bytes under a seed, and a
    128-bit hash. *)
Class Xxh3 : Type := {
  xxh3_64_with_seed : bytes -> Z -> Z;
  xxh3_128 : bytes -> Z;
}.

(** A concrete instance for examples. *)
Definition sum_xxh3 : Xxh3 := {|
  xxh3_64_with_seed := fun bs seed => wrap64 (31 * le_val bs + seed);
  xxh3_128 := fun bs => 65537 * le_val bs;
|}.

(** ** What a call can do *)

(** [quiet]: the call leaves the files alone. *)
Definition quiet {A : Type} (m : SR World A) : Prop := forall w, w_files (m w).2 = w_files w.

(** Every call to come succeeds. *)
Definition healthy (w : World) : Prop := w_outcomes w = [].

Lemma world_eta w : mkWorld (w_files w) (w_outcomes w) = w.
Proof. by destruct w. Qed.
Lemma healthy_eta w : healthy w -> w = mkWorld (w_files w) [].
Proof. destruct w. unfold healthy. cbn. by intros ->. Qed.

Lemma quiet_sret {A : Type} (a : A) : quiet (sret a).
Proof. done. Qed.
Lemma quiet_serr {A : Type} e : quiet (@serr World A e).
Proof. done. Qed.
Lemma quiet_slift {A : Type} (r : result A) : quiet (slift r).
Proof. done. Qed.
Lemma quiet_bind {A B : Type} (m : SR World A) (k : A -> SR World B) : quiet m -> (forall a, quiet (k a)) -> quiet (sbind m k).
Proof.
  intros Hm Hk w. unfold sbind. specialize (Hm w). destruct (m w) as [[a| |] w']; cbn in *; [by rewrite Hk|done|done].
Qed.
Lemma quiet_map_err {A : Type} f (m : SR World A) : quiet m -> quiet (map_err f m).
Proof. intros Hm w. specialize (Hm w). unfold map_err. by destruct (m w) as [[| |] ?]. Qed.
Lemma quiet_next_outcome : quiet next_outcome.
Proof. intros [files [|o rest]]; done. Qed.
Lemma quiet_syscall : quiet syscall.
Proof. apply quiet_bind; [apply quiet_next_outcome|]. by intros [| |]. Qed.
Lemma quiet_file_data file : quiet (file_data file).
Proof. done. Qed.

Create HintDb quiet.
#[export] Hint Resolve quiet_sret quiet_serr quiet_slift quiet_bind quiet_map_err quiet_next_outcome quiet_syscall quiet_file_data : quiet.

Lemma quiet_open path : quiet (open_random_locked path).
Proof. apply quiet_bind; [apply quiet_syscall|done]. Qed.
Lemma quiet_metadata_len file : quiet (metadata_len file).
Proof. unfold metadata_len. auto with quiet. Qed.
Lemma quiet_read_to_end file : quiet (read_to_end file).
Proof. unfold read_to_end. auto with quiet. Qed.
Lemma quiet_read_exact_as verb kind file n offset label : quiet (read_exact_as verb kind file n offset label).
Proof.
  unfold read_exact_as. destruct (n =? 0); [auto with quiet|]. apply quiet_bind; [auto with quiet|]. intros [| |]; auto with quiet.
Qed.
Lemma quiet_prob_fsync file : quiet (prob_fsync file).
Proof. unfold prob_fsync. auto with quiet. Qed.
Lemma quiet_create_staged path : quiet (create_staged_locked_nofollow path).
Proof. unfold create_staged_locked_nofollow. auto with quiet. Qed.
Lemma quiet_staged_write_all staged bs : quiet (staged_write_all staged bs).
Proof. destruct bs; unfold staged_write_all; auto with quiet. Qed.
Lemma quiet_staged_set_len staged size : quiet (staged_set_len staged size).
Proof. unfold staged_set_len. auto with quiet. Qed.

#[export] Hint Resolve quiet_open quiet_metadata_len quiet_read_to_end quiet_read_exact_as quiet_prob_fsync quiet_create_staged quiet_staged_write_all quiet_staged_set_len : quiet.
#[export] Hint Unfold open_random_read_locked open_random_rw_locked : quiet.

(** A quiet call, by the state it leaves. *)
Lemma quiet_state {A : Type} (m : SR World A) w r w' : quiet m -> m w = (r, w') -> w_files w' = w_files w.
Proof. intros Hm E. specialize (Hm w). by rewrite E in Hm. Qed.

(** A write replaces the range, or a prefix of it when it fails. *)
Lemma write_all_at_cases file buf offset label w data :
  w_files w !! file = Some data -> 0 <= offset <= len data ->
  exists rest,
    write_all_at file buf offset label w = (Ok tt, mkWorld (<[file := overwrite data offset buf]> (w_files w)) rest) \/
    exists n e, write_all_at file buf offset label w = (Err e, mkWorld (<[file := overwrite data offset (ztake n buf)]> (w_files w)) rest).
Proof.
  intros E Ho. destruct w as [files os]. cbn in E. destruct buf as [|b buf].
  { exists os. left. rewrite overwrite_nil by done. by rewrite insert_id. }
  unfold write_all_at, next_outcome, sbind, file_data. cbn [w_files w_outcomes].
  destruct os as [|[|n e|n] os]; cbn [w_files w_outcomes]; rewrite E; cbn [ok_or];
    [exists []; by left|exists os; by left|exists os; right; by eexists n, _|exists os; right; by eexists n, _].
Qed.

Lemma write_all_at_healthy file buf offset label files data :
  files !! file = Some data -> 0 <= offset <= len data ->
  write_all_at file buf offset label (mkWorld files []) = (Ok tt, mkWorld (<[file := overwrite data offset buf]> files) []).
Proof.
  intros E Ho. destruct buf as [|b buf].
  - rewrite overwrite_nil by done. by rewrite insert_id.
  - unfold write_all_at, next_outcome, sbind, file_data. cbn [w_files w_outcomes]. by rewrite E.
Qed.

Lemma read_exact_as_healthy verb kind file n offset label files data bs :
  files !! file = Some data -> get_range data offset (offset + n) = Some bs ->
  read_exact_as verb kind file n offset label (mkWorld files []) = (Ok bs, mkWorld files []).
Proof.
  intros E Eb. unfold read_exact_as. destruct (Z.eqb_spec n 0) as [->|Hn].
  - apply get_range_inv in Eb as (_ & _ & _ & ->). unfold zslice. by rewrite ztake_0 by lia.
  - unfold next_outcome, sbind, file_data, slift. cbn [w_files w_outcomes]. by rewrite E; cbn [ok_or]; rewrite Eb.
Qed.

Lemma read_exact_at_healthy kind file n offset label files data bs :
  files !! file = Some data -> get_range data offset (offset + n) = Some bs ->
  read_exact_at kind file n offset label (mkWorld files []) = (Ok bs, mkWorld files []).
Proof. apply read_exact_as_healthy. Qed.

(** A header read into a buffer, and the size of the file. *)
Lemma zslice_header {A : Type} (l : list A) n a b : 0 <= a -> b <= n -> zslice (zslice l 0 n) a b = zslice l a b.
Proof.
  intros Ha Hb. destruct (Z.le_gt_cases b a); [unfold zslice; by rewrite !ztake_0 by lia|]. unfold zslice. rewrite (zdrop_0 0), Z.sub_0_r by lia.
  rewrite zdrop_ztake, ztake_ztake by lia. f_equal. lia.
Qed.
Lemma metadata_healthy f file files data : files !! file = Some data -> map_err f (metadata_len file) (mkWorld files []) = (Ok (len data), mkWorld files []).
Proof. intros E. unfold map_err, metadata_len, file_data, syscall, next_outcome, sbind, sret. cbn [w_files w_outcomes]. by rewrite E. Qed.

Lemma open_healthy path files data : files !! path = Some data -> open_random_locked path (mkWorld files []) = (Ok (Some path), mkWorld files []).
Proof. intros E. unfold open_random_locked, syscall, next_outcome, sbind, sret. cbn [w_files w_outcomes]. by rewrite E. Qed.

Lemma with_sidecar_healthy {A : Type} path files data (body : string -> SR World A) : files !! path = Some data ->
  with_sidecar open_random_rw_locked path body (mkWorld files []) = reply_of (body path (mkWorld files [])) /\
  with_sidecar open_random_read_locked path body (mkWorld files []) = reply_of (body path (mkWorld files [])).
Proof. intros E. unfold with_sidecar, open_random_rw_locked, open_random_read_locked. by rewrite (open_healthy _ _ _ E). Qed.

Lemma fsync_healthy file files : prob_fsync file (mkWorld files []) = (Ok tt, mkWorld files []).
Proof. done. Qed.

(** A fresh sidecar: the header followed by zeros. *)
Lemma create_sidecar_healthy path header n files : create_sidecar path header (len header + Z.of_nat n) (mkWorld files []) = (Ok tt, mkWorld (<[path := header ++ replicate n x00]> files) []).
Proof.
  unfold create_sidecar, map_err, syscall, create_staged_locked_nofollow, staged_write_all, staged_set_len, publish, sbind, next_outcome, syscall, sret, set_data, with_files. cbn [w_files w_outcomes].
  assert (resize (Z.to_nat (len header + Z.of_nat n)) x00 header = header ++ replicate n x00) as E.
  { unfold resize, len. replace (Z.to_nat (Z.of_nat (length header) + Z.of_nat n)) with (length header + n)%nat by lia. rewrite take_ge by lia. do 2 f_equal. lia. }
  destruct header as [|b header]; cbn [w_files w_outcomes sf_data destination_path app] in E |- *; rewrite <- E; reflexivity.
Qed.

Lemma publish_cases staged w :
  exists rest,
    publish staged w = (Ok tt, mkWorld (<[destination_path staged := sf_data staged]> (w_files w)) rest) \/
    (exists e, publish staged w = (Err e, mkWorld (<[destination_path staged := sf_data staged]> (w_files w)) rest)) \/
    (exists e, publish staged w = (Err e, mkWorld (w_files w) rest)).
Proof.
  destruct w as [files os]. unfold publish, syscall, next_outcome, sbind, set_data, sret, serr, with_files. cbn [w_files w_outcomes].
  destruct os as [|[|? ?|?] os]; cbn [w_files w_outcomes]; try (eexists; right; right; by eexists); [by eexists; left| |];
  destruct os as [|[|? ?|?] os]; cbn [w_files w_outcomes]; try (eexists; right; right; by eexists); try (by eexists; left);
  destruct os as [|[|? ?|?] os]; cbn [w_files w_outcomes]; try (eexists; right; left; by eexists); by eexists; left.
Qed.
