(* ===== verification/ProbTxn.v ===== *)
(** * Mutation receipts of the probabilistic sidecars (prob_txn.rs)

    Every mutation of a sidecar carries a token, the position of its entry in the log.  The
    sidecar's last 16 bytes hold the token of its newest mutation.  A mutation is first
    written as a receipt next to the sidecar, a checksummed file that holds the bytes to
    write (the after-images), the token and the reply; then the after-images are written to
    the sidecar in order, the token last.  An interrupted mutation is finished from its
    receipt by the next operation, and a replayed entry is answered from the receipt.

    The file holds the codec of receipts, its correctness, the operations [begin], [commit]
    and [recover], and what they do to the files. *)

From Stdlib Require Import ZArith Lia.
From stdpp Require Import gmap strings.
From S2P Require Import Prelude Bytes Crc Sidecar.

Definition MAGIC : bytes := lit "FPTXN001".
Definition VERSION : Z := 1.
Definition FIXED_HEADER_SIZE : Z := 56.
Definition CHECKSUM_SIZE : Z := 4.
Definition TOKEN_SIZE : Z := 16.
Definition MAX_TRANSACTION_BYTES : Z := 512 * 1024 * 1024.
Definition MAX_AFTER_IMAGES : Z := 20000000.
Definition COMPACT_RECEIPT_THRESHOLD_BYTES : Z := 1024 * 1024.

Record MutationToken : Type := mkMutationToken {
  mt_index : Z;
  mt_ordinal : Z;
}.
Definition ZERO : MutationToken := mkMutationToken 0 0.

(** The derived order: index first. *)
Definition token_cmp (a b : MutationToken) : comparison :=
  match mt_index a ?= mt_index b with
  | Eq => mt_ordinal a ?= mt_ordinal b
  | c => c
  end.
Definition token_eqb (a b : MutationToken) : bool := (mt_index a =? mt_index b) && (mt_ordinal a =? mt_ordinal b).

Definition token_encode (t : MutationToken) : bytes := le_bytes 8 (mt_index t) ++ le_bytes 8 (mt_ordinal t).
Definition token_decode (encoded : bytes) : result MutationToken :=
  if negb (len encoded =? TOKEN_SIZE) then Err "invalid probabilistic mutation token length"
  else Ok (mkMutationToken (le_val (zslice encoded 0 8)) (le_val (zslice encoded 8 16))).

Record AfterImage : Type := mkAfterImage {
  ai_offset : Z;
  ai_bytes : bytes;
}.

Inductive MutationDecision : Type :=
  | Apply
  | Replay (result : bytes)
  | Stale.

Record Transaction : Type := mkTransaction {
  tn_token : MutationToken;
  tn_token_offset : Z;
  tn_expected_file_size : Z;
  tn_images : list AfterImage;
  tn_result : bytes;
}.

(** Sidecars and their receipts are files of one directory. *)
Definition transaction_path (target : string) : string := target +:+ ".mutation".

Definition string_ends_with (suffix s : string) : bool :=
  String.prefix (String.rev suffix) (String.rev s).
Definition pending_transaction_path (target : string) : option string :=
  if string_ends_with ".pending-create" target then None
  else Some (target +:+ ".pending-create.mutation").

(** ** Validation *)

Definition validate_token_location (token_offset expected_file_size : Z) : result unit :=
  match checked_add64 token_offset TOKEN_SIZE with
  | Some end_ => if end_ =? expected_file_size then Ok tt else Err "probabilistic mutation token is not the file footer"
  | None => Err "probabilistic mutation token is not the file footer"
  end.

Fixpoint validate_image_ranges (images : list AfterImage) (expected_file_size : Z) : result unit :=
  match images with
  | [] => Ok tt
  | image :: images =>
      let? end_ := ok_or (checked_add64 (ai_offset image) (len (ai_bytes image))) "probabilistic mutation after-image range overflow" in
      if expected_file_size <? end_ then Err "probabilistic mutation after-image exceeds target file"
      else validate_image_ranges images expected_file_size
  end.

Definition validate_images (images : list AfterImage) (expected_file_size : Z) : result unit :=
  if MAX_AFTER_IMAGES <? len images then Err "too many probabilistic mutation after-images"
  else validate_image_ranges images expected_file_size.

Fixpoint images_total_size (images : list AfterImage) (total_size : Z) : result Z :=
  match images with
  | [] => Ok total_size
  | image :: images =>
      let? total_size := ok_or (match checked_add64 total_size 16 with
                                | Some size => checked_add64 size (len (ai_bytes image))
                                | None => None
                                end) "probabilistic mutation receipt size overflow" in
      images_total_size images total_size
  end.

(** The image count, the length of the result and the size of the receipt. *)
Definition validate_transaction_encoding (t : Transaction) : result (Z * Z * Z) :=
  let? _ := validate_token_location (tn_token_offset t) (tn_expected_file_size t) in
  let? _ := validate_images (tn_images t) (tn_expected_file_size t) in
  let? image_count := (if len (tn_images t) <=? u32_max then Ok (len (tn_images t)) else Err "too many probabilistic mutation after-images") in
  let? result_len := (if len (tn_result t) <=? u32_max then Ok (len (tn_result t)) else Err "probabilistic mutation result is too large") in
  let total_size := add64 (add64 FIXED_HEADER_SIZE (len (tn_result t))) CHECKSUM_SIZE in
  let? total_size := images_total_size (tn_images t) total_size in
  if MAX_TRANSACTION_BYTES <? total_size then Err "probabilistic mutation receipt exceeds size limit"
  else Ok (image_count, result_len, total_size).

(** ** The bytes of a receipt *)

(** What [write_transaction] writes, call by call. *)
Definition image_chunks (image : AfterImage) : list bytes :=
  [le_bytes 8 (ai_offset image); le_bytes 8 (len (ai_bytes image)); ai_bytes image].
Definition transaction_chunks (t : Transaction) (image_count result_len : Z) : list bytes :=
  [MAGIC; le_bytes 4 VERSION; le_bytes 4 0; le_bytes 8 (mt_index (tn_token t)); le_bytes 8 (mt_ordinal (tn_token t));
   le_bytes 8 (tn_token_offset t); le_bytes 8 (tn_expected_file_size t); le_bytes 4 image_count; le_bytes 4 result_len] ++
  (tn_images t ≫= image_chunks) ++ [tn_result t].

Definition read_u32 (encoded : bytes) (offset : Z) : result Z :=
  let? end_ := ok_or (checked_add64 offset 4) "probabilistic mutation receipt offset overflow" in
  let? bs := ok_or (get_range encoded offset end_) "truncated probabilistic mutation receipt header" in
  Ok (le_val bs).
Definition read_u64 (encoded : bytes) (offset : Z) : result Z :=
  let? end_ := ok_or (checked_add64 offset 8) "probabilistic mutation receipt offset overflow" in
  let? bs := ok_or (get_range encoded offset end_) "truncated probabilistic mutation receipt header" in
  Ok (le_val bs).
Definition read_u64_at_cursor (encoded : bytes) (cursor content_len : Z) : result (Z * Z) :=
  let? end_ := ok_or (checked_add64 cursor 8) "probabilistic mutation receipt cursor overflow" in
  if content_len <? end_ then Err "truncated probabilistic mutation receipt"
  else Ok (le_val (zslice encoded cursor end_), end_).

Fixpoint decode_images (image_count : nat) (encoded : bytes) (cursor content_len : Z) : result (list AfterImage * Z) :=
  match image_count with
  | O => Ok ([], cursor)
  | S image_count =>
      let? (offset, cursor) := read_u64_at_cursor encoded cursor content_len in
      let? (length, cursor) := read_u64_at_cursor encoded cursor content_len in
      let? end_ := ok_or (checked_add64 cursor length) "probabilistic mutation after-image length overflow" in
      if content_len <? end_ then Err "truncated probabilistic mutation after-image" else
      let? (images, cursor) := decode_images image_count encoded end_ content_len in
      Ok (mkAfterImage offset (zslice encoded (end_ - length) end_) :: images, cursor)
  end.

Section Receipts.
Context `{C : Crc32fast}.

Definition decode_transaction (encoded : bytes) : result Transaction :=
  if (len encoded <? FIXED_HEADER_SIZE + CHECKSUM_SIZE) || (MAX_TRANSACTION_BYTES <? len encoded) then
    Err "invalid probabilistic mutation receipt size" else
  let content_len := len encoded - CHECKSUM_SIZE in
  let expected_checksum := le_val (zdrop content_len encoded) in
  if negb (crc32_hash (ztake content_len encoded) =? expected_checksum) then
    Err "probabilistic mutation receipt checksum mismatch" else
  if negb (bytes_eqb (zslice encoded 0 8) MAGIC) then Err "invalid probabilistic mutation receipt magic" else
  let? version := read_u32 encoded 8 in
  let? unsupported := (if negb (version =? VERSION) then Ok true else let? reserved := read_u32 encoded 12 in Ok (negb (reserved =? 0))) in
  if (unsupported : bool) then Err "unsupported probabilistic mutation receipt version" else
  let? index := read_u64 encoded 16 in
  let? ordinal := read_u64 encoded 24 in
  let? token_offset := read_u64 encoded 32 in
  let? expected_file_size := read_u64 encoded 40 in
  let? image_count := read_u32 encoded 48 in
  let? result_len := read_u32 encoded 52 in
  if MAX_AFTER_IMAGES <? image_count then Err "too many probabilistic mutation after-images" else
  let? _ := validate_token_location token_offset expected_file_size in
  let? (images, cursor) := decode_images (Z.to_nat image_count) encoded FIXED_HEADER_SIZE content_len in
  let? result_end := ok_or (checked_add64 cursor result_len) "probabilistic mutation result length overflow" in
  if negb (result_end =? content_len) then Err "invalid probabilistic mutation receipt payload length" else
  let result := zslice encoded cursor result_end in
  let? _ := validate_images images expected_file_size in
  Ok (mkTransaction (mkMutationToken index ordinal) token_offset expected_file_size images result).

(** [write_checksummed], for each chunk in turn. *)
Definition write_checksummed (staged : StagedFile) (checksum : Hasher) (bs : bytes) : SR World (StagedFile * Hasher) :=
  let! staged := map_err (fun e => "write probabilistic mutation receipt: " +:+ e) (staged_write_all staged bs) in
  sret (staged, hasher_update checksum bs).
Fixpoint write_chunks (staged : StagedFile) (checksum : Hasher) (chunks : list bytes) : SR World (StagedFile * Hasher) :=
  match chunks with
  | [] => sret (staged, checksum)
  | bs :: chunks =>
      let! (staged, checksum) := write_checksummed staged checksum bs in
      write_chunks staged checksum chunks
  end.

Definition write_transaction (target : string) (t : Transaction) : SR World unit :=
  let! (image_count, result_len, _) := slift (validate_transaction_encoding t) in
  let receipt_path := transaction_path target in
  let! staged := map_err (fun e => "create probabilistic mutation receipt: " +:+ e) (create_staged_locked_nofollow receipt_path) in
  let! (staged, checksum) := write_chunks staged hasher_new (transaction_chunks t image_count result_len) in
  let! staged := map_err (fun e => "write probabilistic mutation receipt checksum: " +:+ e)
                   (staged_write_all staged (le_bytes 4 (hasher_finalize checksum))) in
  map_err (fun e => "publish probabilistic mutation receipt: " +:+ e) (publish staged).

Definition read_transaction_at_path (path : string) : SR World (option Transaction) :=
  let! opened := map_err (fun e => "open probabilistic mutation receipt: " +:+ e) (open_random_read_locked path) in
  match opened with
  | None => sret None
  | Some file =>
      let! size := map_err (fun e => "stat probabilistic mutation receipt: " +:+ e) (metadata_len file) in
      if negb ((FIXED_HEADER_SIZE + CHECKSUM_SIZE <=? size) && (size <=? MAX_TRANSACTION_BYTES)) then
        serr "invalid probabilistic mutation receipt size"
      else
        let! encoded := map_err (fun e => "read probabilistic mutation receipt: " +:+ e) (read_to_end file) in
        let! t := slift (decode_transaction encoded) in
        sret (Some t)
  end.

(** The receipt, and whether it is the one of a sidecar still being created. *)
Definition read_transaction_if_present (target : string) : SR World (option (Transaction * bool)) :=
  let! t := read_transaction_at_path (transaction_path target) in
  match t with
  | Some t => sret (Some (t, false))
  | None =>
      match pending_transaction_path target with
      | None => sret None
      | Some pending_path =>
          let! t := read_transaction_at_path pending_path in
          sret (match t with Some t => Some (t, true) | None => None end)
      end
  end.

(** ** Operations *)

(** [let _ = ...]: the result is dropped. *)
Definition ignore {A : Type} (m : SR World A) : SR World unit := fun w => (Ok tt, (m w).2).

Definition promote_pending_transaction (target : string) : SR World unit :=
  match pending_transaction_path target with
  | None => sret tt
  | Some pending_path => ignore (rename_nofollow pending_path (transaction_path target))
  end.

Fixpoint apply_images (file : string) (images : list AfterImage) : SR World unit :=
  match images with
  | [] => sret tt
  | image :: images =>
      let! _ := write_all_at file (ai_bytes image) (ai_offset image) "probabilistic mutation after-image" in
      apply_images file images
  end.
Definition apply_transaction (file : string) (t : Transaction) : SR World unit :=
  let! _ := apply_images file (tn_images t) in
  prob_fsync file.

Definition read_token (file : string) (token_offset : Z) : SR World MutationToken :=
  let! encoded := read_exact_at "file" file TOKEN_SIZE token_offset "probabilistic mutation token" in
  slift (token_decode encoded).

Definition compact_receipt_if_large (target : string) (t : Transaction) : SR World unit :=
  match validate_transaction_encoding t with
  | Ok (_, _, encoded_size) =>
      if (encoded_size <? COMPACT_RECEIPT_THRESHOLD_BYTES) || bool_decide (tn_images t = []) then sret tt
      else ignore (write_transaction target (mkTransaction (tn_token t) (tn_token_offset t) (tn_expected_file_size t) [] (tn_result t)))
  | _ => sret tt
  end.

Definition recover (file target : string) (token_offset expected_file_size : Z) : SR World unit :=
  let! _ := slift (validate_token_location token_offset expected_file_size) in
  let! present := read_transaction_if_present target in
  match present with
  | None => sret tt
  | Some (t, pending) =>
      if negb (tn_token_offset t =? token_offset) || negb (tn_expected_file_size t =? expected_file_size) then
        serr "probabilistic mutation receipt does not match target layout"
      else
        let! current := read_token file token_offset in
        let! _ := (match token_cmp current (tn_token t) with Lt => apply_transaction file t | _ => sret tt end) in
        let! _ := (if (pending : bool) then promote_pending_transaction target else sret tt) in
        compact_receipt_if_large target t
  end.

Definition effective_token (file target : string) (token : MutationToken) (token_offset expected_file_size : Z) : SR World MutationToken :=
  if negb (mt_index token =? 0) then sret token else
  let! _ := recover file target token_offset expected_file_size in
  let! current := read_token file token_offset in
  let! index := slift (ok_or (checked_add64 (mt_index current) 1) "probabilistic mutation token overflow") in
  sret (mkMutationToken index (Z.max (mt_ordinal token) 1)).

Definition begin_ (file target : string) (token : MutationToken) (token_offset expected_file_size : Z) : SR World MutationDecision :=
  let! _ := recover file target token_offset expected_file_size in
  let! current := read_token file token_offset in
  match token_cmp token current with
  | Gt => sret Apply
  | Lt => sret Stale
  | Eq =>
      let! present := read_transaction_if_present target in
      match present with
      | Some (t, _) => if token_eqb (tn_token t) token then sret (Replay (tn_result t)) else sret Stale
      | None => sret Stale
      end
  end.

Definition commit (file target : string) (token : MutationToken) (token_offset expected_file_size : Z) (images : list AfterImage) (result : bytes) : SR World unit :=
  let! _ := slift (validate_token_location token_offset expected_file_size) in
  let! _ := slift (validate_images images expected_file_size) in
  let images := images ++ [mkAfterImage token_offset (token_encode token)] in
  let t := mkTransaction token token_offset expected_file_size images result in
  let! _ := write_transaction target t in
  let! _ := apply_transaction file t in
  compact_receipt_if_large target t.

End Receipts.

(** ** Receipts decode to what was encoded *)

Definition images_bytes (images : list AfterImage) : bytes := concat (images ≫= image_chunks).
Definition transaction_content (t : Transaction) : bytes := concat (transaction_chunks t (len (tn_images t)) (len (tn_result t))).
Definition token_ok (t : MutationToken) : Prop := u64_ok (mt_index t) /\ u64_ok (mt_ordinal t).
Definition image_ok (size : Z) (i : AfterImage) : Prop := 0 <= ai_offset i /\ ai_offset i + len (ai_bytes i) <= size.

Record transaction_ok (t : Transaction) : Prop := {
  tno_token : token_ok (tn_token t);
  tno_offset : 0 <= tn_token_offset t;
  tno_footer : tn_token_offset t + TOKEN_SIZE = tn_expected_file_size t;
  tno_size : tn_expected_file_size t <= u64_max;
  tno_count : len (tn_images t) <= MAX_AFTER_IMAGES;
  tno_images : Forall (image_ok (tn_expected_file_size t)) (tn_images t);
  tno_total : len (transaction_content t) + CHECKSUM_SIZE <= MAX_TRANSACTION_BYTES;
}.

Lemma images_bytes_cons i l : images_bytes (i :: l) = le_bytes 8 (ai_offset i) ++ le_bytes 8 (len (ai_bytes i)) ++ ai_bytes i ++ images_bytes l.
Proof. unfold images_bytes, image_chunks. cbn [mbind list_bind app concat]. done. Qed.

Lemma len_images_bytes_cons i l : len (images_bytes (i :: l)) = 16 + len (ai_bytes i) + len (images_bytes l).
Proof. rewrite images_bytes_cons, !len_app, !len_le_bytes. lia. Qed.

Definition header_bytes (t : Transaction) : bytes :=
  MAGIC ++ le_bytes 4 VERSION ++ le_bytes 4 0 ++ le_bytes 8 (mt_index (tn_token t)) ++ le_bytes 8 (mt_ordinal (tn_token t)) ++
  le_bytes 8 (tn_token_offset t) ++ le_bytes 8 (tn_expected_file_size t) ++ le_bytes 4 (len (tn_images t)) ++ le_bytes 4 (len (tn_result t)).

Lemma transaction_content_eq t : transaction_content t = header_bytes t ++ images_bytes (tn_images t) ++ tn_result t.
Proof.
  unfold transaction_content, transaction_chunks, header_bytes, images_bytes. rewrite !concat_app. cbn [concat]. rewrite !app_nil_r.
  rewrite <- !app_assoc. done.
Qed.

Lemma len_MAGIC : len MAGIC = 8.
Proof. done. Qed.
Lemma len_header_bytes t : len (header_bytes t) = 56.
Proof. unfold header_bytes. rewrite !len_app, !len_le_bytes, len_MAGIC. lia. Qed.
Lemma len_transaction_content t : len (transaction_content t) = 56 + len (images_bytes (tn_images t)) + len (tn_result t).
Proof. rewrite transaction_content_eq, !len_app, len_header_bytes. lia. Qed.

(** A field read is the slice it is stored in. *)
Lemma read_field_iff (n : nat) bs o v :
  0 <= o -> o + Z.of_nat n <= u64_max -> o + Z.of_nat n <= len bs ->
  (let? end_ := ok_or (checked_add64 o (Z.of_nat n)) "probabilistic mutation receipt offset overflow" in
   let? l := ok_or (get_range bs o end_) "truncated probabilistic mutation receipt header" in Ok (le_val l)) = Ok v <->
  0 <= v < 256 ^ Z.of_nat n /\ zslice bs o (o + Z.of_nat n) = le_bytes n v.
Proof.
  intros Ho Hu Hl. unfold checked_add64. rewrite (proj2 (Z.leb_le _ _) Hu). cbn [ok_or rbind]. rewrite get_range_Some by lia. cbn [ok_or rbind].
  pose proof (len_zslice bs o (o + Z.of_nat n) Ho ltac:(lia) Hl) as E. split.
  - intros [= <-]. split; [|symmetry; apply le_bytes_of; lia]. pose proof (le_val_range (zslice bs o (o + Z.of_nat n))) as R. rewrite E in R.
    by replace (o + Z.of_nat n - o) with (Z.of_nat n) in R by lia.
  - intros [Hv ->]. by rewrite le_val_le_bytes, Z.mod_small.
Qed.

Lemma read_u64_iff bs o v : 0 <= o -> o + 8 <= u64_max -> o + 8 <= len bs -> read_u64 bs o = Ok v <-> u64_ok v /\ zslice bs o (o + 8) = le_bytes 8 v.
Proof.
  intros. etrans; [exact (read_field_iff 8 bs o v ltac:(lia) ltac:(lia) ltac:(lia))|]. change (Z.of_nat 8) with 8. change (256 ^ 8) with (u64_max + 1).
  unfold u64_ok. by assert (0 <= v < u64_max + 1 <-> 0 <= v <= u64_max) as -> by lia.
Qed.
Lemma read_u32_iff bs o v : 0 <= o -> o + 4 <= u64_max -> o + 4 <= len bs -> read_u32 bs o = Ok v <-> u32_ok v /\ zslice bs o (o + 4) = le_bytes 4 v.
Proof.
  intros. etrans; [exact (read_field_iff 4 bs o v ltac:(lia) ltac:(lia) ltac:(lia))|]. change (Z.of_nat 4) with 4. change (256 ^ 4) with (u32_max + 1).
  unfold u32_ok. by assert (0 <= v < u32_max + 1 <-> 0 <= v <= u32_max) as -> by lia.
Qed.

Lemma read_cursor_inv bs c cl v c' : 0 <= c -> cl <= len bs -> read_u64_at_cursor bs c cl = Ok (v, c') ->
  c' = c + 8 /\ c' <= cl /\ u64_ok v /\ zslice bs c c' = le_bytes 8 v.
Proof.
  intros Hc Hcl. unfold read_u64_at_cursor, checked_add64. destruct (Z.leb_spec (c + 8) u64_max); cbn [ok_or rbind]; [|done].
  destruct (Z.ltb_spec cl (c + 8)); [done|]. intros [= <- <-]. pose proof (len_zslice bs c (c + 8) Hc ltac:(lia) ltac:(lia)) as E.
  split; [done|]. split; [done|]. split; [apply le_val_u64_ok; lia|]. symmetry. apply le_bytes_of. lia.
Qed.
Lemma read_cursor_ok bs c cl v : 0 <= c -> c + 8 <= u64_max -> c + 8 <= cl -> u64_ok v -> zslice bs c (c + 8) = le_bytes 8 v ->
  read_u64_at_cursor bs c cl = Ok (v, c + 8).
Proof.
  intros Hc Hu Hl Hv E. unfold read_u64_at_cursor, checked_add64. rewrite (proj2 (Z.leb_le _ _) Hu). cbn [ok_or rbind].
  rewrite (proj2 (Z.ltb_ge _ _) Hl). by rewrite E, le_val_u64.
Qed.

Lemma decode_images_inv n bs cl : forall c images c', 0 <= c <= cl -> cl <= len bs -> decode_images n bs c cl = Ok (images, c') ->
  length images = n /\ c <= c' <= cl /\ zslice bs c c' = images_bytes images /\ Forall (fun i => u64_ok (ai_offset i)) images.
Proof.
  induction n as [|n IH]; intros c images c' Hc Hcl; cbn [decode_images].
  { intros [= <- <-]. split; [done|]. split; [lia|]. split; [|constructor]. unfold zslice. by rewrite ztake_0 by lia. }
  destruct (read_u64_at_cursor bs c cl) as [[o c1]| |] eqn:E1; cbn [rbind]; [|done..]. apply read_cursor_inv in E1 as (-> & H1 & Ho & Eo); [|lia..].
  destruct (read_u64_at_cursor bs (c + 8) cl) as [[l c2]| |] eqn:E2; cbn [rbind]; [|done..]. apply read_cursor_inv in E2 as (-> & H2 & Hl & El); [|lia..].
  unfold checked_add64. destruct (Z.leb_spec (c + 8 + 8 + l) u64_max); cbn [ok_or rbind]; [|done]. destruct (Z.ltb_spec cl (c + 8 + 8 + l)); [done|].
  unfold u64_ok in Hl. destruct (decode_images n bs (c + 8 + 8 + l) cl) as [[ims c3]| |] eqn:E3; cbn [rbind]; [|done..]. intros [= <- <-].
  apply IH in E3 as (En & Hc3 & Eb & Hf); [|lia..]. replace (c + 8 + 8 + l - l) with (c + 8 + 8) by lia.
  split; [by cbn; rewrite En|]. split; [lia|]. split; [|by constructor].
  rewrite images_bytes_cons. cbn [ai_offset ai_bytes]. rewrite len_zslice by lia. replace (c + 8 + 8 + l - (c + 8 + 8)) with l by lia.
  rewrite <- Eo, <- El, <- Eb. rewrite !zslice_join by lia. done.
Qed.

Lemma decode_images_ok bs cl images : forall c, 0 <= c -> cl <= len bs -> cl <= u64_max -> Forall (fun i => u64_ok (ai_offset i)) images ->
  c + len (images_bytes images) <= cl -> zslice bs c (c + len (images_bytes images)) = images_bytes images ->
  decode_images (length images) bs c cl = Ok (images, c + len (images_bytes images)).
Proof.
  induction images as [|i images IH]; intros c Hc Hcl Hu Hf Hl Es; cbn [decode_images length].
  { change (len (images_bytes [])) with 0. by rewrite Z.add_0_r. }
  apply Forall_cons in Hf as [Hi Hf]. rewrite len_images_bytes_cons in Hl, Es |- *. pose proof (len_nonneg (ai_bytes i)). pose proof (len_nonneg (images_bytes images)).
  assert (u64_ok (len (ai_bytes i))) by (unfold u64_ok; lia).
  rewrite images_bytes_cons in Es.
  rewrite <- (zslice_join bs c (c + 8)), <- (zslice_join bs (c + 8) (c + 8 + 8)), <- (zslice_join bs (c + 8 + 8) (c + 8 + 8 + len (ai_bytes i))) in Es by lia.
  apply app_inj_1 in Es as [E1 Es]; [|apply Nat2Z.inj; change (len (zslice bs c (c + 8)) = len (le_bytes 8 (ai_offset i))); rewrite len_zslice, len_le_bytes by lia; lia].
  apply app_inj_1 in Es as [E2 Es]; [|apply Nat2Z.inj; change (len (zslice bs (c + 8) (c + 8 + 8)) = len (le_bytes 8 (len (ai_bytes i)))); rewrite len_zslice, len_le_bytes by lia; lia].
  apply app_inj_1 in Es as [E3 E4]; [|apply Nat2Z.inj; change (len (zslice bs (c + 8 + 8) (c + 8 + 8 + len (ai_bytes i))) = len (ai_bytes i)); rewrite len_zslice by lia; lia].
  rewrite (read_cursor_ok bs c cl (ai_offset i)) by (done || lia). cbn [rbind]. rewrite (read_cursor_ok bs (c + 8) cl (len (ai_bytes i))) by (done || lia). cbn [rbind].
  unfold checked_add64. rewrite (proj2 (Z.leb_le (c + 8 + 8 + len (ai_bytes i)) u64_max)) by lia. cbn [ok_or rbind].
  rewrite (proj2 (Z.ltb_ge cl (c + 8 + 8 + len (ai_bytes i)))) by lia. rewrite IH; [|lia|done|done|done|lia|].
  2:{ rewrite <- E4 at 2. f_equal. lia. }
  cbn [rbind]. rewrite Z.add_simpl_r. rewrite E3. destruct i as [o bb]. cbn [ai_offset ai_bytes]. do 2 f_equal. lia.
Qed.

Lemma validate_token_location_iff o s : validate_token_location o s = Ok tt <-> o + TOKEN_SIZE = s /\ s <= u64_max.
Proof.
  unfold validate_token_location, checked_add64. destruct (Z.leb_spec (o + TOKEN_SIZE) u64_max); [|split; [done|lia]].
  destruct (Z.eqb_spec (o + TOKEN_SIZE) s); split; [lia|done|done|lia].
Qed.

Lemma validate_image_ranges_iff images s : s <= u64_max ->
  validate_image_ranges images s = Ok tt <-> Forall (fun i => ai_offset i + len (ai_bytes i) <= s) images.
Proof.
  intros Hs. induction images as [|i images IH]; cbn [validate_image_ranges]; [by split|]. rewrite Forall_cons. unfold checked_add64.
  destruct (Z.leb_spec (ai_offset i + len (ai_bytes i)) u64_max); cbn [ok_or rbind]; [|split; [done|lia]].
  destruct (Z.ltb_spec s (ai_offset i + len (ai_bytes i))); [split; [done|lia]|]. rewrite IH. intuition lia.
Qed.

Lemma validate_images_iff images s : s <= u64_max ->
  validate_images images s = Ok tt <-> len images <= MAX_AFTER_IMAGES /\ Forall (fun i => ai_offset i + len (ai_bytes i) <= s) images.
Proof.
  intros Hs. unfold validate_images. destruct (Z.ltb_spec MAX_AFTER_IMAGES (len images)); [split; [done|lia]|].
  rewrite validate_image_ranges_iff by done. intuition lia.
Qed.

Section Codec.
Context `{C : Crc32fast} {CL : Crc32fastLaws C}.

Definition encode_transaction (t : Transaction) : bytes := transaction_content t ++ le_bytes 4 (crc32_hash (transaction_content t)).

Lemma len_encode_transaction t : len (encode_transaction t) = len (transaction_content t) + CHECKSUM_SIZE.
Proof. unfold encode_transaction. by rewrite len_app, len_le_bytes. Qed.

Lemma encode_transaction_eq t : encode_transaction t = header_bytes t ++ images_bytes (tn_images t) ++ tn_result t ++ le_bytes 4 (crc32_hash (transaction_content t)).
Proof. unfold encode_transaction. rewrite transaction_content_eq at 1. by rewrite <- !app_assoc. Qed.

(** The header's fields. *)
Lemma header_fields t rest :
  let bs := header_bytes t ++ rest in
  zslice bs 0 8 = MAGIC /\ zslice bs 8 12 = le_bytes 4 VERSION /\ zslice bs 12 16 = le_bytes 4 0 /\ zslice bs 16 24 = le_bytes 8 (mt_index (tn_token t)) /\
  zslice bs 24 32 = le_bytes 8 (mt_ordinal (tn_token t)) /\ zslice bs 32 40 = le_bytes 8 (tn_token_offset t) /\ zslice bs 40 48 = le_bytes 8 (tn_expected_file_size t) /\
  zslice bs 48 52 = le_bytes 4 (len (tn_images t)) /\ zslice bs 52 56 = le_bytes 4 (len (tn_result t)).
Proof.
  intros bs. unfold bs, header_bytes. rewrite <- !app_assoc. pose proof len_MAGIC. repeat split; zslices; done.
Qed.

Lemma fields_header t bs : 56 <= len bs ->
  zslice bs 0 8 = MAGIC -> zslice bs 8 12 = le_bytes 4 VERSION -> zslice bs 12 16 = le_bytes 4 0 -> zslice bs 16 24 = le_bytes 8 (mt_index (tn_token t)) ->
  zslice bs 24 32 = le_bytes 8 (mt_ordinal (tn_token t)) -> zslice bs 32 40 = le_bytes 8 (tn_token_offset t) -> zslice bs 40 48 = le_bytes 8 (tn_expected_file_size t) ->
  zslice bs 48 52 = le_bytes 4 (len (tn_images t)) -> zslice bs 52 56 = le_bytes 4 (len (tn_result t)) ->
  zslice bs 0 56 = header_bytes t.
Proof.
  intros Hl E1 E2 E3 E4 E5 E6 E7 E8 E9. unfold header_bytes. rewrite <- E1, <- E2, <- E3, <- E4, <- E5, <- E6, <- E7, <- E8, <- E9.
  rewrite !zslice_join by lia. done.
Qed.

Lemma images_total_size_iff images : forall total size, 0 <= total -> images_total_size images total = Ok size ->
  size = total + len (images_bytes images).
Proof.
  induction images as [|i images IH]; intros total size Ht; cbn [images_total_size].
  { intros [= <-]. change (len (images_bytes [])) with 0. lia. }
  unfold checked_add64. destruct (Z.leb_spec (total + 16) u64_max); cbn [ok_or rbind]; [|done].
  destruct (Z.leb_spec (total + 16 + len (ai_bytes i)) u64_max); cbn [ok_or rbind]; [|done]. pose proof (len_nonneg (ai_bytes i)).
  intros ->%IH; [|lia]. rewrite len_images_bytes_cons. lia.
Qed.
Lemma images_total_size_ok images : forall total, 0 <= total -> total + len (images_bytes images) <= u64_max ->
  images_total_size images total = Ok (total + len (images_bytes images)).
Proof.
  induction images as [|i images IH]; intros total Ht Hu; cbn [images_total_size].
  { change (len (images_bytes [])) with 0. f_equal. lia. }
  rewrite len_images_bytes_cons in *. pose proof (len_nonneg (ai_bytes i)). pose proof (len_nonneg (images_bytes images)).
  unfold checked_add64. rewrite (proj2 (Z.leb_le (total + 16) u64_max)) by lia. rewrite (proj2 (Z.leb_le (total + 16 + len (ai_bytes i)) u64_max)) by lia.
  cbn [ok_or rbind]. rewrite IH by lia. f_equal. lia.
Qed.

(** A transaction the writer accepts. *)
Lemma validate_transaction_encoding_ok t : transaction_ok t ->
  validate_transaction_encoding t = Ok (len (tn_images t), len (tn_result t), len (encode_transaction t)).
Proof.
  intros [_ Ho Hf Hs Hc Hi Ht]. rewrite len_encode_transaction. rewrite len_transaction_content in Ht |- *. unfold validate_transaction_encoding.
  pose proof (len_nonneg (tn_result t)). pose proof (len_nonneg (images_bytes (tn_images t))). unfold MAX_TRANSACTION_BYTES, CHECKSUM_SIZE, MAX_AFTER_IMAGES, FIXED_HEADER_SIZE in *.
  rewrite (proj2 (validate_token_location_iff _ _)) by done. cbn [rbind]. rewrite (proj2 (validate_images_iff _ _ Hs)).
  2:{ split; [done|]. eapply Forall_impl; [exact Hi|]. by intros ? [_ ?]. }
  cbn [rbind]. assert (u32_max = 4294967295) as Hu by done. rewrite (proj2 (Z.leb_le _ _)) by lia. cbn [rbind]. rewrite (proj2 (Z.leb_le _ _)) by lia. cbn [rbind].
  assert (u64_max = 18446744073709551615) as Hu64 by done.
  rewrite (add64_small 56) by lia. rewrite add64_small by lia. rewrite images_total_size_ok by lia. cbn [rbind].
  rewrite (proj2 (Z.ltb_ge _ _)) by lia. do 2 f_equal. lia.
Qed.

Lemma validate_transaction_encoding_inv t r : token_ok (tn_token t) -> 0 <= tn_token_offset t -> Forall (fun i => 0 <= ai_offset i) (tn_images t) ->
  validate_transaction_encoding t = Ok r -> transaction_ok t.
Proof.
  intros Ht Ho Hi. unfold validate_transaction_encoding. destruct (validate_token_location _ _) as [[]| |] eqn:E1; cbn [rbind]; [|done..].
  apply validate_token_location_iff in E1 as [Hf Hs]. destruct (validate_images _ _) as [[]| |] eqn:E2; cbn [rbind]; [|done..].
  apply validate_images_iff in E2 as [Hc Hr]; [|done]. destruct (Z.leb_spec (len (tn_images t)) u32_max); cbn [rbind]; [|done].
  destruct (Z.leb_spec (len (tn_result t)) u32_max); cbn [rbind]; [|done]. pose proof (len_nonneg (tn_result t)).
  assert (u64_max = 18446744073709551615) as Hu64 by done. assert (u32_max = 4294967295) as Hu by done.
  rewrite (add64_small FIXED_HEADER_SIZE) by (unfold FIXED_HEADER_SIZE; lia). rewrite add64_small by (unfold FIXED_HEADER_SIZE, CHECKSUM_SIZE; lia).
  destruct (images_total_size _ _) as [size| |] eqn:E3; cbn [rbind]; [|done..]. apply images_total_size_iff in E3; [|unfold FIXED_HEADER_SIZE, CHECKSUM_SIZE; lia].
  destruct (Z.ltb_spec MAX_TRANSACTION_BYTES size); [done|]. intros _. split; try done.
  - rewrite Forall_forall in Hi, Hr |- *. intros i Hin. split; auto.
  - rewrite len_transaction_content. unfold FIXED_HEADER_SIZE, CHECKSUM_SIZE in *. lia.
Qed.

Lemma decode_encode t : transaction_ok t -> decode_transaction (encode_transaction t) = Ok t.
Proof.
  intros Hok. pose proof Hok as [[Hti Hto] Ho Hf Hs Hc Hi Ht]. pose proof (len_encode_transaction t) as Hl. pose proof (len_transaction_content t) as Hl'.
  pose proof (len_nonneg (tn_result t)). pose proof (len_nonneg (images_bytes (tn_images t))). pose proof (len_nonneg (tn_images t)).
  assert (u64_max = 18446744073709551615) as Hu64 by done. assert (u32_max = 4294967295) as Hu by done.
  unfold MAX_TRANSACTION_BYTES, CHECKSUM_SIZE, MAX_AFTER_IMAGES, TOKEN_SIZE in *. unfold decode_transaction, FIXED_HEADER_SIZE, CHECKSUM_SIZE, MAX_TRANSACTION_BYTES.
  rewrite (proj2 (Z.ltb_ge (len (encode_transaction t)) _)) by lia. rewrite (proj2 (Z.ltb_ge _ (len (encode_transaction t)))) by lia. cbn [orb]. cbv zeta. rewrite Hl, Z.add_simpl_r.
  assert (ztake (len (transaction_content t)) (encode_transaction t) = transaction_content t) as ->.
  { unfold encode_transaction. rewrite ztake_app_le by lia. by apply ztake_ge. }
  assert (zdrop (len (transaction_content t)) (encode_transaction t) = le_bytes 4 (crc32_hash (transaction_content t))) as ->.
  { unfold encode_transaction. rewrite zdrop_app_ge by lia. apply zdrop_0. lia. }
  rewrite le_val_u32 by apply crc32_hash_u32. rewrite Z.eqb_refl. cbn [negb].
  pose proof (header_fields t (images_bytes (tn_images t) ++ tn_result t ++ le_bytes 4 (crc32_hash (transaction_content t)))) as F. cbv zeta in F. rewrite <- encode_transaction_eq in F.
  destruct F as (F1 & F2 & F3 & F4 & F5 & F6 & F7 & F8 & F9). rewrite F1. destruct (bytes_eqb_spec MAGIC MAGIC) as [_|]; [|done]. cbn [negb].
  rewrite (proj2 (read_u32_iff (encode_transaction t) 8 VERSION ltac:(lia) ltac:(lia) ltac:(lia))) by done. cbn [rbind]. rewrite Z.eqb_refl. cbn [negb].
  rewrite (proj2 (read_u32_iff (encode_transaction t) 12 0 ltac:(lia) ltac:(lia) ltac:(lia))) by done. cbn [rbind]. rewrite Z.eqb_refl. cbn [negb].
  rewrite (proj2 (read_u64_iff (encode_transaction t) 16 (mt_index (tn_token t)) ltac:(lia) ltac:(lia) ltac:(lia))) by done. cbn [rbind].
  rewrite (proj2 (read_u64_iff (encode_transaction t) 24 (mt_ordinal (tn_token t)) ltac:(lia) ltac:(lia) ltac:(lia))) by done. cbn [rbind].
  rewrite (proj2 (read_u64_iff (encode_transaction t) 32 (tn_token_offset t) ltac:(lia) ltac:(lia) ltac:(lia))) by (split; [unfold u64_ok; lia|done]). cbn [rbind].
  rewrite (proj2 (read_u64_iff (encode_transaction t) 40 (tn_expected_file_size t) ltac:(lia) ltac:(lia) ltac:(lia))) by (split; [unfold u64_ok; lia|done]). cbn [rbind].
  rewrite (proj2 (read_u32_iff (encode_transaction t) 48 (len (tn_images t)) ltac:(lia) ltac:(lia) ltac:(lia))) by (split; [unfold u32_ok; lia|done]). cbn [rbind].
  rewrite (proj2 (read_u32_iff (encode_transaction t) 52 (len (tn_result t)) ltac:(lia) ltac:(lia) ltac:(lia))) by (split; [unfold u32_ok; lia|done]). cbn [rbind].
  rewrite (proj2 (Z.ltb_ge _ _)) by (unfold MAX_AFTER_IMAGES; lia). rewrite (proj2 (validate_token_location_iff _ _)) by done. cbn [rbind].
  rewrite len_to_nat, (decode_images_ok (encode_transaction t)); [|lia..| |lia|].
  2:{ eapply Forall_impl; [exact Hi|]. intros i [? ?]. pose proof (len_nonneg (ai_bytes i)). unfold u64_ok. lia. }
  2:{ rewrite encode_transaction_eq. pose proof (len_header_bytes t). rewrite zslice_app_skip by lia. rewrite zslice_app_take by lia. apply zslice_full; lia. }
  cbn [rbind]. unfold checked_add64. rewrite (proj2 (Z.leb_le _ _)) by lia. cbn [ok_or rbind]. rewrite (proj2 (Z.eqb_eq _ _)) by lia. cbn [negb].
  rewrite (proj2 (validate_images_iff _ _ Hs)).
  2:{ split; [done|]. eapply Forall_impl; [exact Hi|]. by intros ? [_ ?]. }
  cbn [rbind]. f_equal. destruct t as [[ti to] off size images res]. cbn [tn_token tn_token_offset tn_expected_file_size tn_images tn_result mt_index mt_ordinal] in *.
  f_equal. rewrite encode_transaction_eq. pose proof (len_header_bytes (mkTransaction (mkMutationToken ti to) off size images res)). cbn [tn_images tn_result].
  rewrite zslice_app_skip, zslice_app_skip, zslice_app_take by lia. apply zslice_full; lia.
Qed.

(** What the checks of [decode_transaction] establish. *)
Lemma decode_transaction_fields bs t : decode_transaction bs = Ok t ->
  60 <= len bs <= MAX_TRANSACTION_BYTES /\ token_ok (tn_token t) /\ u64_ok (tn_token_offset t) /\
  crc32_hash (ztake (len bs - 4) bs) = le_val (zdrop (len bs - 4) bs) /\ zslice bs 0 56 = header_bytes t /\
  validate_token_location (tn_token_offset t) (tn_expected_file_size t) = Ok tt /\ validate_images (tn_images t) (tn_expected_file_size t) = Ok tt /\
  Forall (fun i => u64_ok (ai_offset i)) (tn_images t) /\ 56 + len (images_bytes (tn_images t)) + len (tn_result t) = len bs - 4 /\
  zslice bs 56 (len bs - 4) = images_bytes (tn_images t) ++ tn_result t.
Proof.
  unfold decode_transaction, FIXED_HEADER_SIZE, CHECKSUM_SIZE. cbv zeta. assert (u64_max = 18446744073709551615) as Hu64 by done.
  destruct (Z.ltb_spec (len bs) (56 + 4)); [done|]. destruct (Z.ltb_spec MAX_TRANSACTION_BYTES (len bs)); [done|]. cbn [orb].
  destruct (Z.eqb_spec (crc32_hash (ztake (len bs - 4) bs)) (le_val (zdrop (len bs - 4) bs))) as [Ecrc|]; cbn [negb]; [|done].
  destruct (bytes_eqb_spec (zslice bs 0 8) MAGIC) as [Em|]; cbn [negb]; [|done].
  destruct (read_u32 bs 8) as [v| |] eqn:E1; cbn [rbind]; [|done..]. destruct (Z.eqb_spec v VERSION) as [->|]; cbn [negb rbind]; [|done].
  destruct (read_u32 bs 12) as [z| |] eqn:E2; cbn [rbind]; [|done..]. destruct (Z.eqb_spec z 0) as [->|]; cbn [negb]; [|done].
  destruct (read_u64 bs 16) as [ti| |] eqn:E3; cbn [rbind]; [|done..]. destruct (read_u64 bs 24) as [to| |] eqn:E4; cbn [rbind]; [|done..].
  destruct (read_u64 bs 32) as [off| |] eqn:E5; cbn [rbind]; [|done..]. destruct (read_u64 bs 40) as [size| |] eqn:E6; cbn [rbind]; [|done..].
  destruct (read_u32 bs 48) as [n| |] eqn:E7; cbn [rbind]; [|done..]. destruct (read_u32 bs 52) as [rl| |] eqn:E8; cbn [rbind]; [|done..].
  apply read_u32_iff in E1 as [_ E1], E2 as [_ E2], E7 as [Hn E7], E8 as [Hrl E8]; [|lia..].
  apply read_u64_iff in E3 as [Hti E3], E4 as [Hto E4], E5 as [Hoff E5], E6 as [_ E6]; [|lia..].
  destruct (Z.ltb_spec MAX_AFTER_IMAGES n); [done|]. destruct (validate_token_location off size) as [[]| |] eqn:Ev; cbn [rbind]; [|done..].
  destruct (decode_images _ _ _ _) as [[images c]| |] eqn:Ei; cbn [rbind]; [|done..]. apply decode_images_inv in Ei as (Elen & Hc & Eb & Hf); [|lia..].
  unfold checked_add64. destruct (Z.leb_spec (c + rl) u64_max); cbn [ok_or rbind]; [|done]. destruct (Z.eqb_spec (c + rl) (len bs - 4)) as [Ec|]; cbn [negb]; [|done].
  destruct (validate_images images size) as [[]| |] eqn:Evi; cbn [rbind]; [|done..]. intros [= <-].
  cbn [tn_token tn_token_offset tn_expected_file_size tn_images tn_result].
  unfold u32_ok in Hrl.
  assert (c = 56 + len (images_bytes images)) as -> by (rewrite <- Eb, len_zslice by lia; lia).
  assert (len images = n) as Hlen by (unfold len; rewrite Elen; unfold u32_ok in Hn; lia). subst n.
  split; [lia|]. do 3 (split; [done|]). split.
  { apply (fields_header (mkTransaction (mkMutationToken ti to) off size images (zslice bs (56 + len (images_bytes images)) (56 + len (images_bytes images) + rl)))); try done; [lia|].
    cbn [tn_result]. rewrite len_zslice by lia. etrans; [exact E8|]. f_equal. lia. }
  split; [done|]. split; [done|]. split; [done|]. split; [rewrite len_zslice by lia; lia|]. rewrite <- Ec, <- (zslice_join bs 56 (56 + len (images_bytes images))) by lia. by rewrite Eb.
Qed.

(** Receipts that decode are exactly the encodings of well-formed transactions. *)
Lemma decode_iff bs t : decode_transaction bs = Ok t <-> transaction_ok t /\ bs = encode_transaction t.
Proof.
  split; [|by intros [H ->]; apply decode_encode].
  intros (Hl & Ht & Hoff & Ecrc & Eh & [Hf Hs]%validate_token_location_iff & Hi & Ho & El & Eb)%decode_transaction_fields.
  apply validate_images_iff in Hi as [Hc Hr]; [|done]. assert (ztake (len bs - 4) bs = transaction_content t) as Ec.
  { rewrite transaction_content_eq, <- Eh, <- Eb, zslice_join by lia. unfold zslice. by rewrite zdrop_0, Z.sub_0_r by lia. }
  split.
  - split; try done; [unfold u64_ok in Hoff; lia| |rewrite len_transaction_content; unfold CHECKSUM_SIZE; lia].
    rewrite Forall_forall in Ho, Hr |- *. intros i Hin. split; [|auto]. apply (Ho i Hin).
  - unfold encode_transaction. rewrite <- Ec, Ecrc. rewrite le_bytes_of by (rewrite len_zdrop by lia; lia). symmetry. apply ztake_zdrop.
Qed.
End Codec.
