(* ===== verification/ProbTxnProof.v ===== *)
(** * Interrupted mutations are finished exactly once

    What [commit], [recover] and [begin_] of [ProbTxn] do to the files, for every failure of
    a system call.  [patched data images] is the sidecar after the after-images were written
    in order.  Writing the images again over a sidecar that already holds some of them gives
    the same bytes, so recovery may start over. *)

From Stdlib Require Import ZArith Lia.
From stdpp Require Import gmap strings.
From S2P Require Import Prelude Bytes Crc Sidecar ProbTxn.

(** ** Writing after-images again *)

Lemma overwrite_lookup data o bs (p : nat) : 0 <= o -> o + len bs <= len data ->
  overwrite data o bs !! p = if decide (o <= Z.of_nat p < o + len bs) then bs !! Z.to_nat (Z.of_nat p - o) else data !! p.
Proof.
  intros Ho Hl. pose proof (len_nonneg bs). rewrite overwrite_eq by lia. rewrite ztake_take, zdrop_drop. unfold len in *.
  assert (length (take (Z.to_nat o) data) = Z.to_nat o) as Ht by (rewrite length_take; lia).
  destruct (decide (o <= Z.of_nat p < o + Z.of_nat (length bs))) as [Hp|Hp].
  - rewrite lookup_app_r by lia. rewrite Ht. rewrite lookup_app_l by lia. f_equal. lia.
  - destruct (Z.le_gt_cases o (Z.of_nat p)).
    + rewrite lookup_app_r by lia. rewrite Ht. rewrite lookup_app_r by lia. rewrite lookup_drop. f_equal. lia.
    + rewrite lookup_app_l by lia. apply lookup_take_lt. lia.
Qed.

Definition image_write (data : bytes) (i : AfterImage) : bytes := overwrite data (ai_offset i) (ai_bytes i).
Definition patched (data : bytes) (images : list AfterImage) : bytes := foldl image_write data images.
Definition covers (p : nat) (i : AfterImage) : Prop := ai_offset i <= Z.of_nat p < ai_offset i + len (ai_bytes i).

Lemma patched_app data l1 l2 : patched data (l1 ++ l2) = patched (patched data l1) l2.
Proof. apply foldl_app. Qed.

Lemma len_image_write n data i : image_ok n i -> n <= len data -> len (image_write data i) = len data.
Proof. intros [Ho Hl] Hn. pose proof (len_nonneg (ai_bytes i)). unfold image_write. rewrite len_overwrite; lia. Qed.

Lemma len_patched n images : forall data, Forall (image_ok n) images -> n <= len data -> len (patched data images) = len data.
Proof.
  induction images as [|i images IH]; intros data Hi Hn; [done|]. apply Forall_cons in Hi as [Hi His]. change (len (patched (image_write data i) images) = len data).
  rewrite IH; [by apply (len_image_write n)|done|]. by rewrite (len_image_write n).
Qed.

Lemma image_write_lookup n data i p : image_ok n i -> n <= len data ->
  image_write data i !! p = if decide (covers p i) then ai_bytes i !! Z.to_nat (Z.of_nat p - ai_offset i) else data !! p.
Proof. intros [Ho Hl] Hn. unfold image_write. rewrite overwrite_lookup by lia. done. Qed.

(** The bytes under the images do not matter. *)
Lemma patched_same n images : forall d d', Forall (image_ok n) images -> n <= len d -> len d = len d' ->
  (forall p, ~ Exists (covers p) images -> d !! p = d' !! p) -> patched d images = patched d' images.
Proof.
  induction images as [|i images IH]; intros d d' Hi Hn Hl Hsame.
  { apply list_eq. intros p. apply Hsame. by intros ?%Exists_nil. }
  apply Forall_cons in Hi as [Hi His]. change (patched (image_write d i) images = patched (image_write d' i) images).
  apply IH; [done|by rewrite (len_image_write n)|by rewrite !(len_image_write n) by (try done; lia)|].
  intros p Hp. rewrite !(image_write_lookup n) by (try done; lia). destruct (decide (covers p i)); [done|]. apply Hsame. rewrite Exists_cons. tauto.
Qed.

(** [partly data images data']: [data'] is [data] after some of the writes, the last of them
    possibly cut short. *)
Definition partly (data : bytes) (images : list AfterImage) (data' : bytes) : Prop :=
  exists before i after k, images = before ++ i :: after /\ data' = overwrite (patched data before) (ai_offset i) (ztake k (ai_bytes i)).

Lemma patched_outside n images data p : Forall (image_ok n) images -> n <= len data -> ~ Exists (covers p) images -> patched data images !! p = data !! p.
Proof.
  revert data. induction images as [|i images IH]; intros data Hi Hn Hp; [done|]. apply Forall_cons in Hi as [Hi His]. rewrite Exists_cons in Hp.
  change (patched (image_write data i) images !! p = data !! p). rewrite IH; [|done|by rewrite (len_image_write n)|tauto].
  rewrite (image_write_lookup n) by done. destruct (decide (covers p i)); tauto.
Qed.

Lemma image_ok_prefix n i k : image_ok n i -> image_ok n (mkAfterImage (ai_offset i) (ztake k (ai_bytes i))).
Proof.
  intros [Ho Hl]. split; [done|]. cbn [ai_offset ai_bytes]. destruct (Z.le_gt_cases 0 k); [rewrite len_ztake by done; lia|].
  rewrite ztake_0 by lia. rewrite len_nil. pose proof (len_nonneg (ai_bytes i)). lia.
Qed.

Lemma len_ztake_bound {A : Type} k (l : list A) : len (ztake k l) <= len l.
Proof. destruct (Z.le_gt_cases 0 k); [rewrite len_ztake by done; lia|]. rewrite ztake_0 by lia. apply len_nonneg. Qed.

Lemma len_partly n data images data' : Forall (image_ok n) images -> n <= len data -> partly data images data' -> len data' = len data.
Proof.
  intros Hi Hn (before & i & after & k & -> & ->). apply Forall_app in Hi as [Hb [Hi _]%Forall_cons].
  change (len (image_write (patched data before) (mkAfterImage (ai_offset i) (ztake k (ai_bytes i)))) = len data).
  rewrite (len_image_write n), (len_patched n); try done; [by apply image_ok_prefix|]. by rewrite (len_patched n).
Qed.

(** Writing all images over an interrupted run completes it. *)
Lemma patched_again n data images data' : Forall (image_ok n) images -> n <= len data -> partly data images data' -> patched data' images = patched data images.
Proof.
  intros Hi Hn Hp. pose proof (len_partly n _ _ _ Hi Hn Hp) as Hl. apply (patched_same n); [done|lia|done|]. intros p Hout.
  destruct Hp as (before & i & after & k & -> & ->). apply Forall_app in Hi as [Hb [Hi _]%Forall_cons]. rewrite Exists_app, Exists_cons in Hout.
  change (image_write (patched data before) (mkAfterImage (ai_offset i) (ztake k (ai_bytes i))) !! p = data !! p).
  rewrite (image_write_lookup n); [|by apply image_ok_prefix|by rewrite (len_patched n)]. rewrite decide_False.
  - apply (patched_outside n); [done|done|tauto].
  - intros Hc. unfold covers in Hc, Hout. cbn [ai_offset ai_bytes] in Hc. pose proof (len_ztake_bound k (ai_bytes i)). apply Hout. right. left. lia.
Qed.

Lemma patched_done n data images : Forall (image_ok n) images -> n <= len data -> patched (patched data images) images = patched data images.
Proof.
  intros Hi Hn. apply (patched_same n); [done|by rewrite (len_patched n)|by rewrite (len_patched n)|]. intros p Hp. by apply (patched_outside n).
Qed.

(** Images that hold the bytes of [data] carry any file that agrees with it elsewhere to [data]. *)
Lemma image_write_same data i : image_ok (len data) i -> zslice data (ai_offset i) (ai_offset i + len (ai_bytes i)) = ai_bytes i -> image_write data i = data.
Proof.
  intros [Ho Hl] E. pose proof (len_nonneg (ai_bytes i)). unfold image_write. rewrite overwrite_eq by lia. rewrite <- E at 1. unfold zslice.
  rewrite Z.add_simpl_l. rewrite <- (zdrop_zdrop (len (ai_bytes i)) (ai_offset i)) by lia. by rewrite ztake_zdrop, ztake_zdrop.
Qed.

Lemma patched_to data0 data images : len data0 = len data -> Forall (fun i => image_ok (len data) i /\ zslice data (ai_offset i) (ai_offset i + len (ai_bytes i)) = ai_bytes i) images ->
  (forall p, ~ Exists (covers p) images -> data0 !! p = data !! p) -> patched data0 images = data.
Proof.
  intros Hl Hi Hout. rewrite (patched_same (len data) images data0 data); [|eapply Forall_impl; [exact Hi|by intros ? [? _]]|lia|done|done].
  clear Hout. induction images as [|i images IH]; [done|]. apply Forall_cons in Hi as [[Hi1 Hi2] Hi]. change (patched (image_write data i) images = data). rewrite image_write_same by done. by apply IH.
Qed.

(** ** Outcomes of the steps *)

Definition written (data : bytes) (images : list AfterImage) (data' : bytes) : Prop := data' = patched data images \/ partly data images data'.

Lemma apply_images_cases file n images : forall w data, w_files w !! file = Some data -> Forall (image_ok n) images -> n <= len data ->
  exists rest,
    apply_images file images w = (Ok tt, mkWorld (<[file := patched data images]> (w_files w)) rest) \/
    exists e data', apply_images file images w = (Err e, mkWorld (<[file := data']> (w_files w)) rest) /\ partly data images data'.
Proof.
  induction images as [|i images IH]; intros w data Ed Hi Hn; cbn [apply_images].
  { exists (w_outcomes w). left. cbn [patched foldl]. rewrite insert_id by done. by rewrite world_eta. }
  apply Forall_cons in Hi as [[Hi1 Hi2] His]. pose proof (len_nonneg (ai_bytes i)).
  destruct (write_all_at_cases file (ai_bytes i) (ai_offset i) "probabilistic mutation after-image" w data Ed ltac:(lia)) as (rest & [E|(k & e & E)]).
  - change (overwrite data (ai_offset i) (ai_bytes i)) with (image_write data i) in E. rewrite (sbind_Ok _ _ _ _ _ E). destruct (IH (mkWorld (<[file := image_write data i]> (w_files w)) rest) (image_write data i)) as (rest' & [E'|(e & data' & E' & Hp)]).
    + apply lookup_insert_eq.
    + done.
    + by rewrite (len_image_write n).
    + exists rest'. left. rewrite E'. cbn [w_files]. by rewrite insert_insert_eq.
    + exists rest'. right. exists e, data'. rewrite E'. cbn [w_files]. rewrite insert_insert_eq. split; [done|].
      destruct Hp as (before & j & after & k & -> & ->). by exists (i :: before), j, after, k.
  - exists rest. right. exists e, (overwrite data (ai_offset i) (ztake k (ai_bytes i))). rewrite (sbind_Err _ _ _ _ _ E). split; [done|]. by exists [], i, images, k.
Qed.

Lemma apply_transaction_cases file n t w data : w_files w !! file = Some data -> Forall (image_ok n) (tn_images t) -> n <= len data ->
  exists rest,
    apply_transaction file t w = (Ok tt, mkWorld (<[file := patched data (tn_images t)]> (w_files w)) rest) \/
    exists e data', apply_transaction file t w = (Err e, mkWorld (<[file := data']> (w_files w)) rest) /\ written data (tn_images t) data'.
Proof.
  intros Ed Hi Hn. unfold apply_transaction. destruct (apply_images_cases file n _ w data Ed Hi Hn) as (rest & [E|(e & data' & E & Hp)]).
  - rewrite (sbind_Ok _ _ _ _ _ E). pose proof (quiet_prob_fsync file (mkWorld (<[file := patched data (tn_images t)]> (w_files w)) rest)) as Hq.
    destruct (prob_fsync file _) as [r [files' rest']] eqn:Ef. cbn [snd w_files] in Hq. subst files'. exists rest'.
    destruct r as [[]|e|]; [by left|right; exists e, (patched data (tn_images t)); split; [done|by left]|].
    exfalso. revert Ef. unfold prob_fsync, map_err, syscall, sbind, next_outcome. destruct rest as [|[| |] ?]; done.
  - exists rest. right. exists e, data'. rewrite (sbind_Err _ _ _ _ _ E). split; [done|by right].
Qed.

Lemma apply_transaction_healthy file n t files data : files !! file = Some data -> Forall (image_ok n) (tn_images t) -> n <= len data ->
  apply_transaction file t (mkWorld files []) = (Ok tt, mkWorld (<[file := patched data (tn_images t)]> files) []).
Proof.
  intros Ed Hi Hn. unfold apply_transaction. enough (apply_images file (tn_images t) (mkWorld files []) = (Ok tt, mkWorld (<[file := patched data (tn_images t)]> files) [])) as E
    by (by rewrite (sbind_Ok _ _ _ _ _ E)).
  revert files data Ed Hi Hn. generalize (tn_images t) as images. induction images as [|i images IH]; intros files data Ed Hi Hn; cbn [apply_images].
  { cbn [patched foldl]. by rewrite insert_id. }
  apply Forall_cons in Hi as [[Hi1 Hi2] His]. pose proof (len_nonneg (ai_bytes i)).
  rewrite (sbind_Ok _ _ _ _ _ (write_all_at_healthy file (ai_bytes i) (ai_offset i) "probabilistic mutation after-image" files data Ed ltac:(lia))).
  rewrite (IH _ (image_write data i)); [by rewrite insert_insert_eq|apply lookup_insert_eq|done|by rewrite (len_image_write n)].
Qed.

(** ** System calls and power failures *)

(** The calls that change a file or make its contents durable. *)
Inductive call : Type :=
| CallWrite (offset : Z) (bs : bytes)
| CallSync.

Fixpoint perform (file : string) (calls : list call) : SR World unit :=
  match calls with
  | [] => sret tt
  | CallWrite offset bs :: calls => let! _ := write_all_at file bs offset "probabilistic mutation after-image" in perform file calls
  | CallSync :: calls => let! _ := prob_fsync file in perform file calls
  end.

Definition write_call (i : AfterImage) : call := CallWrite (ai_offset i) (ai_bytes i).
Definition transaction_calls (t : Transaction) : list call := (write_call <$> tn_images t) ++ [CallSync].

(** What is on the disk and what is in the page cache after some calls. *)
Definition after_call (s : bytes * bytes) (c : call) : bytes * bytes :=
  match c with
  | CallWrite offset bs => (s.1, overwrite s.2 offset bs)
  | CallSync => (s.2, s.2)
  end.

(** A power failure after any number of the calls: every page holds what the disk held or
    what the cache held. *)
Definition survives (page : Z) (calls : list call) (data data' : bytes) : Prop :=
  exists made missing, calls = made ++ missing /\
    let s := foldl after_call (data, data) made in
    len data' = len s.2 /\ forall k, 0 <= k -> zslice data' (k * page) ((k + 1) * page) = zslice s.1 (k * page) ((k + 1) * page) \/
                                  zslice data' (k * page) ((k + 1) * page) = zslice s.2 (k * page) ((k + 1) * page).

Lemma apply_transaction_calls file t w : apply_transaction file t w = perform file (transaction_calls t) w.
Proof.
  unfold apply_transaction, transaction_calls. revert w. generalize (tn_images t) as images. induction images as [|i images IH]; intros w.
  - cbn. unfold sbind, sret. by destruct (prob_fsync file w) as [[[]|e|] w'].
  - cbn [apply_images fmap list_fmap app perform write_call]. specialize (IH). unfold sbind in *. destruct (write_all_at _ _ _ _ w) as [[[]|e|] w']; [apply IH|done..].
Qed.

Lemma run_writes images : forall data cache, foldl after_call (data, cache) (write_call <$> images) = (data, patched cache images).
Proof. induction images as [|i images IH]; intros data cache; [done|]. apply IH. Qed.

Section Protocol.
Context `{C : Crc32fast} {CL : Crc32fastLaws C}.

(** A call that only consumes outcomes, and succeeds when no failure is to come. *)
Definition passes {A : Type} (m : SR World A) (a : A) : Prop :=
  (forall w, exists rest, m w = (Ok a, mkWorld (w_files w) rest) \/ exists e, m w = (Err e, mkWorld (w_files w) rest)) /\
  forall files, m (mkWorld files []) = (Ok a, mkWorld files []).

Lemma syscall_passes : passes syscall tt.
Proof.
  split; [|done]. intros [files os]. unfold syscall, next_outcome, sbind. destruct os as [|[|? ?|?] os]; cbn; eexists; (by left) || (right; by eexists).
Qed.
Lemma passes_sbind {A B : Type} (m : SR World A) (k : A -> SR World B) a b : passes m a -> passes (k a) b -> passes (sbind m k) b.
Proof.
  intros [Hm Hm'] [Hk Hk']. split; [|intros files; by rewrite (sbind_Ok _ _ _ _ _ (Hm' files))]. intros w. destruct (Hm w) as (rest & [E|(e & E)]).
  - rewrite (sbind_Ok _ _ _ _ _ E). exact (Hk (mkWorld (w_files w) rest)).
  - exists rest. right. exists e. by rewrite (sbind_Err _ _ _ _ _ E).
Qed.
Lemma passes_sret {A : Type} (a : A) : passes (sret a) a.
Proof. split; [|done]. intros w. exists (w_outcomes w). left. unfold sret. by rewrite world_eta. Qed.
Lemma passes_map_err {A : Type} f (m : SR World A) a : passes m a -> passes (map_err f m) a.
Proof.
  intros [Hm Hm']. unfold map_err. split; [|intros files; by rewrite Hm']. intros w. destruct (Hm w) as (rest & [->|(e & ->)]); exists rest; [by left|right; by eexists].
Qed.
Lemma staged_write_all_passes s bs : passes (staged_write_all s bs) (mkStagedFile (sf_data s ++ bs) (destination_path s)).
Proof.
  destruct bs as [|b bs]; cbn [staged_write_all]; [rewrite app_nil_r; destruct s; apply passes_sret|].
  eapply passes_sbind; [apply syscall_passes|apply passes_sret].
Qed.
Lemma create_staged_passes path : passes (create_staged_locked_nofollow path) (mkStagedFile [] path).
Proof. eapply passes_sbind; [apply syscall_passes|apply passes_sret]. Qed.

Lemma write_chunks_passes chunks : forall s h l, hashed h l ->
  exists h', passes (write_chunks s h chunks) (mkStagedFile (sf_data s ++ concat chunks) (destination_path s), h') /\ hashed h' (l ++ concat chunks).
Proof using CL.
  induction chunks as [|bs chunks IH]; intros s h l Hh; cbn [write_chunks concat].
  { exists h. rewrite !app_nil_r. split; [destruct s; apply passes_sret|done]. }
  destruct (IH (mkStagedFile (sf_data s ++ bs) (destination_path s)) (hasher_update h bs) (l ++ bs) (hashed_update _ _ _ Hh)) as (h' & Hp & Hh').
  exists h'. rewrite <- !app_assoc in Hh'. cbn [sf_data destination_path] in Hp. rewrite <- app_assoc in Hp. split; [|done].
  apply (passes_sbind _ _ (mkStagedFile (sf_data s ++ bs) (destination_path s), hasher_update h bs)); [|exact Hp]. eapply passes_sbind; [apply passes_map_err, staged_write_all_passes|apply passes_sret].
Qed.

(** The receipt that [write_transaction] publishes. *)
Definition receipt_file (t : Transaction) (target : string) : StagedFile := mkStagedFile (encode_transaction t) (transaction_path target).

Lemma write_transaction_cases target t w : transaction_ok t ->
  exists rest,
    write_transaction target t w = (Ok tt, mkWorld (<[transaction_path target := encode_transaction t]> (w_files w)) rest) \/
    exists e, write_transaction target t w = (Err e, mkWorld (<[transaction_path target := encode_transaction t]> (w_files w)) rest) \/
              write_transaction target t w = (Err e, mkWorld (w_files w) rest).
Proof using CL.
  intros Hok. unfold write_transaction. rewrite validate_transaction_encoding_ok by done. rewrite sbind_slift_Ok. cbv beta iota.
  destruct (write_chunks_passes (transaction_chunks t (len (tn_images t)) (len (tn_result t))) (mkStagedFile [] (transaction_path target)) hasher_new [] hashed_new) as (h & Hp & Hh).
  fold (transaction_content t) in Hp, Hh. cbn [sf_data destination_path app] in Hp, Hh.
  pose proof (proj1 (passes_map_err (fun e => "create probabilistic mutation receipt: " +:+ e) _ _ (create_staged_passes (transaction_path target)))) as Hc. apply proj1 in Hp.
  destruct (Hc w) as (r1 & [E1|(e & E1)]); [rewrite (sbind_Ok _ _ _ _ _ E1)|exists r1; right; exists e; right; by rewrite (sbind_Err _ _ _ _ _ E1)].
  destruct (Hp (mkWorld (w_files w) r1)) as (r2 & [E2|(e & E2)]); [rewrite (sbind_Ok _ _ _ _ _ E2)|exists r2; right; exists e; right; by rewrite (sbind_Err _ _ _ _ _ E2)].
  cbv beta iota. rewrite (hashed_finalize _ _ Hh). cbn [w_files].
  pose proof (proj1 (passes_map_err (fun e => "write probabilistic mutation receipt checksum: " +:+ e) _ _ (staged_write_all_passes (mkStagedFile (transaction_content t) (transaction_path target)) (le_bytes 4 (crc32_hash (transaction_content t)))))) as Hs.
  destruct (Hs (mkWorld (w_files w) r2)) as (r3 & [E3|(e & E3)]); [rewrite (sbind_Ok _ _ _ _ _ E3)|exists r3; right; exists e; right; by rewrite (sbind_Err _ _ _ _ _ E3)].
  cbn [w_files sf_data destination_path]. fold (encode_transaction t). fold (receipt_file t target). unfold map_err.
  destruct (publish_cases (receipt_file t target) (mkWorld (w_files w) r3)) as (r4 & [->|[(e & ->)|(e & ->)]]); exists r4; [by left|right; eexists; by left|right; eexists; by right].
Qed.

Lemma write_transaction_healthy target t files : transaction_ok t ->
  write_transaction target t (mkWorld files []) = (Ok tt, mkWorld (<[transaction_path target := encode_transaction t]> files) []).
Proof using CL.
  intros Hok. unfold write_transaction. rewrite validate_transaction_encoding_ok by done. rewrite sbind_slift_Ok. cbv beta iota.
  rewrite (sbind_Ok _ _ _ _ _ (proj2 (passes_map_err _ _ _ (create_staged_passes (transaction_path target))) files)).
  destruct (write_chunks_passes (transaction_chunks t (len (tn_images t)) (len (tn_result t))) (mkStagedFile [] (transaction_path target)) hasher_new [] hashed_new) as (h & [_ Hp] & Hh).
  rewrite (sbind_Ok _ _ _ _ _ (Hp files)). rewrite (hashed_finalize _ _ Hh).
  by rewrite (sbind_Ok _ _ _ _ _ (proj2 (passes_map_err _ _ _ (staged_write_all_passes _ _)) files)).
Qed.

(** ** Recovery *)

Definition token_at (data : bytes) (offset : Z) : MutationToken :=
  mkMutationToken (le_val (zslice data offset (offset + 8))) (le_val (zslice data (offset + 8) (offset + 16))).

(** The receipt a fault-free run finds. *)
Definition receipt_at (files : gmap string bytes) (path : string) : result (option Transaction) :=
  match files !! path with
  | None => Ok None
  | Some bs => let? t := decode_transaction bs in Ok (Some t)
  end.
Definition receipt_of (files : gmap string bytes) (target : string) : result (option (Transaction * bool)) :=
  let? t := receipt_at files (transaction_path target) in
  match t with
  | Some t => Ok (Some (t, false))
  | None =>
      match pending_transaction_path target with
      | None => Ok None
      | Some path => let? t := receipt_at files path in Ok (match t with Some t => Some (t, true) | None => None end)
      end
  end.

Lemma read_transaction_at_path_healthy path files : read_transaction_at_path path (mkWorld files []) = (receipt_at files path, mkWorld files []).
Proof.
  unfold read_transaction_at_path, receipt_at. destruct (files !! path) as [bs|] eqn:E.
  2:{ unfold map_err, open_random_read_locked, open_random_locked, syscall, next_outcome, sbind, sret. cbn. by rewrite E. }
  assert (map_err (fun e => "open probabilistic mutation receipt: " +:+ e) (open_random_read_locked path) (mkWorld files []) = (Ok (Some path), mkWorld files [])) as E1
    by (unfold map_err, open_random_read_locked, open_random_locked, syscall, next_outcome, sbind, sret; cbn; by rewrite E).
  rewrite (sbind_Ok _ _ _ _ _ E1). assert (map_err (fun e => "stat probabilistic mutation receipt: " +:+ e) (metadata_len path) (mkWorld files []) = (Ok (len bs), mkWorld files [])) as E2
    by (unfold map_err, metadata_len, file_data, syscall, next_outcome, sbind, sret; cbn; by rewrite E).
  rewrite (sbind_Ok _ _ _ _ _ E2). assert (map_err (fun e => "read probabilistic mutation receipt: " +:+ e) (read_to_end path) (mkWorld files []) = (Ok bs, mkWorld files [])) as E3
    by (unfold map_err, read_to_end, file_data, syscall, next_outcome, sbind, sret; cbn; by rewrite E).
  destruct (Z.leb_spec (FIXED_HEADER_SIZE + CHECKSUM_SIZE) (len bs)), (Z.leb_spec (len bs) MAX_TRANSACTION_BYTES); cbn [andb negb].
  { rewrite (sbind_Ok _ _ _ _ _ E3). unfold sbind, slift. by destruct (decode_transaction bs). }
  all: unfold decode_transaction; destruct (Z.ltb_spec (len bs) (FIXED_HEADER_SIZE + CHECKSUM_SIZE)), (Z.ltb_spec MAX_TRANSACTION_BYTES (len bs)); cbn [orb rbind]; done || lia.
Qed.

Lemma read_transaction_if_present_healthy target files : read_transaction_if_present target (mkWorld files []) = (receipt_of files target, mkWorld files []).
Proof.
  unfold read_transaction_if_present, receipt_of, sbind. rewrite read_transaction_at_path_healthy. destruct (receipt_at files (transaction_path target)) as [[t|]| |]; cbn [rbind]; [done| |done..].
  destruct (pending_transaction_path target) as [p|]; [|done]. rewrite read_transaction_at_path_healthy. by destruct (receipt_at files p) as [[t|]| |].
Qed.

Lemma read_token_healthy file offset files data : files !! file = Some data -> 0 <= offset -> offset + TOKEN_SIZE <= len data ->
  read_token file offset (mkWorld files []) = (Ok (token_at data offset), mkWorld files []).
Proof.
  intros Ed Ho Hl. unfold read_token. unfold TOKEN_SIZE in *.
  rewrite (sbind_Ok _ _ _ _ _ (read_exact_at_healthy "file" file 16 offset _ files data (zslice data offset (offset + 16)) Ed (get_range_Some data offset (offset + 16) ltac:(lia) ltac:(lia) ltac:(lia)))).
  unfold slift, token_decode, TOKEN_SIZE. rewrite len_zslice by lia. replace (offset + 16 - offset) with 16 by lia. cbn [Z.eqb Pos.eqb negb]. unfold token_at. do 4 f_equal.
  - rewrite <- (zslice_join data offset (offset + 8) (offset + 16)) by lia. rewrite zslice_app_exact; [done|]. rewrite len_zslice by lia. lia.
  - rewrite <- (zslice_join data offset (offset + 8) (offset + 16)) by lia. rewrite zslice_app_skip by (rewrite len_zslice by lia; lia). rewrite len_zslice by lia.
    apply zslice_full; [lia|]. rewrite len_zslice by lia. lia.
Qed.

Definition compact (t : Transaction) : Transaction := mkTransaction (tn_token t) (tn_token_offset t) (tn_expected_file_size t) [] (tn_result t).

Lemma compact_ok t : transaction_ok t -> transaction_ok (compact t).
Proof.
  intros [? ? ? ? ? ? Ht]. split; try done. rewrite len_transaction_content in *. cbn [compact tn_images tn_result]. change (len (images_bytes [])) with 0.
  pose proof (len_nonneg (images_bytes (tn_images t))). lia.
Qed.

(** Compaction keeps the receipt or replaces it by the compact one. *)
Lemma compact_receipt_cases target t w : transaction_ok t -> exists files rest,
  compact_receipt_if_large target t w = (Ok tt, mkWorld files rest) /\ (w_outcomes w = [] -> rest = []) /\
  (files = w_files w \/ files = <[transaction_path target := encode_transaction (compact t)]> (w_files w)).
Proof using CL.
  intros Hok. unfold compact_receipt_if_large. rewrite validate_transaction_encoding_ok by done.
  destruct ((len (encode_transaction t) <? COMPACT_RECEIPT_THRESHOLD_BYTES) || bool_decide (tn_images t = [])).
  { exists (w_files w), (w_outcomes w). rewrite world_eta. split; [done|]. split; [done|by left]. }
  unfold ignore. fold (compact t). destruct w as [files [|o os]].
  - rewrite write_transaction_healthy by by apply compact_ok. eexists _, []. split; [done|]. split; [done|by right].
  - destruct (write_transaction_cases target (compact t) (mkWorld files (o :: os)) (compact_ok _ Hok)) as (rest & [->|(e & [->| ->])]); cbn [snd w_files w_outcomes];
      eexists _, rest; (split; [done|split; [done|]]); [by right|by right|by left].
Qed.

Definition separate (file target : string) : Prop := file <> transaction_path target /\ pending_transaction_path target <> Some file.

(** The sidecar after recovery. *)
Definition recovered (data : bytes) (offset : Z) (t : Transaction) : bytes :=
  match token_cmp (token_at data offset) (tn_token t) with Lt => patched data (tn_images t) | _ => data end.

Lemma receipt_of_ok files target t pending : receipt_of files target = Ok (Some (t, pending)) ->
  transaction_ok t /\ (pending = false \/ exists path bs, pending_transaction_path target = Some path /\ files !! path = Some bs /\ decode_transaction bs = Ok t).
Proof using CL.
  unfold receipt_of, receipt_at. destruct (files !! transaction_path target) as [bs|].
  - destruct (decode_transaction bs) as [t'| |] eqn:E; cbn [rbind]; [|done..]. intros [= <- <-]. split; [by apply decode_iff in E as [? _]|by left].
  - cbn [rbind]. destruct (pending_transaction_path target) as [p|]; [|done]. destruct (files !! p) as [bs|] eqn:Ep; [|done].
    destruct (decode_transaction bs) as [t'| |] eqn:E; cbn [rbind]; [|done..]. intros [= <- <-]. split; [by apply decode_iff in E as [? _]|right; eauto].
Qed.

Lemma receipt_of_insert files target t : transaction_ok t -> receipt_of (<[transaction_path target := encode_transaction t]> files) target = Ok (Some (t, false)).
Proof using CL. intros Hok. unfold receipt_of, receipt_at. rewrite lookup_insert_eq, decode_encode by done. done. Qed.
Lemma receipt_of_other files file target d : separate file target -> receipt_of (<[file := d]> files) target = receipt_of files target.
Proof.
  intros [H1 H2]. unfold receipt_of, receipt_at. rewrite lookup_insert_ne by done. destruct (files !! transaction_path target) as [bs|]; [by destruct (decode_transaction bs)|]. cbn [rbind].
  destruct (pending_transaction_path target) as [p|]; [|done]. by rewrite lookup_insert_ne by congruence.
Qed.

Lemma promote_healthy file target files t pending : separate file target -> receipt_of files target = Ok (Some (t, pending)) -> exists files',
  (if pending then promote_pending_transaction target else sret tt) (mkWorld files []) = (Ok tt, mkWorld files' []) /\ files' !! file = files !! file /\ receipt_of files' target = Ok (Some (t, false)).
Proof using CL.
  intros [Hs1 Hs2] Hr. pose proof Hr as [_ [->|(p & bs & Ep & Eb & Ed)]]%receipt_of_ok; [by exists files|]. destruct pending; [|by exists files].
  exists (<[transaction_path target := bs]> (delete p files)). unfold promote_pending_transaction, ignore, rename_nofollow. rewrite Ep.
  unfold syscall, next_outcome, sbind, sret, file_data, with_files. cbn [w_files w_outcomes]. rewrite Eb. cbn [ok_or snd]. split; [done|]. split.
  - rewrite lookup_insert_ne by done. apply lookup_delete_ne. congruence.
  - unfold receipt_of, receipt_at. by rewrite lookup_insert_eq, Ed.
Qed.

Lemma recover_healthy file target files data t pending offset size :
  separate file target -> files !! file = Some data -> 0 <= offset -> offset + TOKEN_SIZE = size -> len data = size -> size <= u64_max ->
  receipt_of files target = Ok (Some (t, pending)) -> tn_token_offset t = offset -> tn_expected_file_size t = size ->
  exists files', recover file target offset size (mkWorld files []) = (Ok tt, mkWorld files' []) /\ files' !! file = Some (recovered data offset t) /\
    (receipt_of files' target = Ok (Some (t, false)) \/ receipt_of files' target = Ok (Some (compact t, false))).
Proof using CL.
  intros Hs Ed Ho Hf Hl Hu Hr Eo Es. pose proof Hr as [Hok _]%receipt_of_ok. unfold recover.
  rewrite (proj2 (validate_token_location_iff offset size)) by done. rewrite sbind_slift_Ok.
  rewrite (sbind_Ok _ _ _ _ _ (eq_trans (read_transaction_if_present_healthy target files) (f_equal (fun r => (r, _)) Hr))). cbv beta iota.
  rewrite Eo, Es, !Z.eqb_refl. cbn [negb orb]. rewrite (sbind_Ok _ _ _ _ _ (read_token_healthy file offset files data Ed Ho ltac:(lia))).
  assert ((match token_cmp (token_at data offset) (tn_token t) with Lt => apply_transaction file t | _ => sret tt end) (mkWorld files []) = (Ok tt, mkWorld (<[file := recovered data offset t]> files) [])) as E1.
  { unfold recovered. destruct (token_cmp _ _); [by unfold sret; rewrite insert_id| |by unfold sret; rewrite insert_id].
    apply (apply_transaction_healthy file size); [done| |lia]. rewrite <- Es. apply (tno_images _ Hok). }
  rewrite (sbind_Ok _ _ _ _ _ E1). destruct (promote_healthy file target (<[file := recovered data offset t]> files) t pending Hs) as (files1 & E2 & Ef & Er); [by rewrite receipt_of_other|].
  rewrite (sbind_Ok _ _ _ _ _ E2). destruct (compact_receipt_cases target t (mkWorld files1 []) Hok) as (files2 & rest & E3 & Hrest & Hcase). rewrite E3. cbn [w_outcomes w_files] in *.
  rewrite Hrest by done. exists files2. split; [done|]. rewrite lookup_insert_eq in Ef. destruct Hcase as [->| ->].
  - split; [done|by left].
  - destruct Hs as [Hs1 _]. rewrite lookup_insert_ne by done. split; [done|]. right. apply receipt_of_insert. by apply compact_ok.
Qed.

Lemma recover_nothing file target files offset size : offset + TOKEN_SIZE = size -> size <= u64_max -> receipt_of files target = Ok None ->
  recover file target offset size (mkWorld files []) = (Ok tt, mkWorld files []).
Proof.
  intros Hf Hu Hr. unfold recover. rewrite (proj2 (validate_token_location_iff offset size)) by done. rewrite sbind_slift_Ok.
  by rewrite (sbind_Ok _ _ _ _ _ (eq_trans (read_transaction_if_present_healthy target files) (f_equal (fun r => (r, _)) Hr))).
Qed.

(** ** Tokens in the footer *)

Lemma token_cmp_refl t : token_cmp t t = Eq.
Proof. unfold token_cmp. by rewrite !Z.compare_refl. Qed.
Lemma token_cmp_eq a b : token_cmp a b = Eq -> a = b.
Proof.
  unfold token_cmp. destruct a as [ai ao], b as [bi bo]. cbn. destruct (Z.compare_spec ai bi) as [->| |]; [|done..]. by intros ->%Z.compare_eq.
Qed.
Lemma token_cmp_antisym a b : token_cmp b a = CompOpp (token_cmp a b).
Proof. unfold token_cmp. rewrite (Z.compare_antisym (mt_index a)), (Z.compare_antisym (mt_ordinal a)). by destruct (_ ?= _). Qed.
Lemma mutation_token_eqb_refl t : token_eqb t t = true.
Proof. unfold token_eqb. by rewrite !Z.eqb_refl. Qed.

Lemma len_token_encode t : len (token_encode t) = TOKEN_SIZE.
Proof. unfold token_encode. by rewrite len_app, !len_le_bytes. Qed.

Lemma token_at_encode data offset t : token_ok t -> zslice data offset (offset + TOKEN_SIZE) = token_encode t -> 0 <= offset -> offset + TOKEN_SIZE <= len data -> token_at data offset = t.
Proof.
  intros [Hi Ho] E H0 Hl. unfold TOKEN_SIZE, token_encode in *. rewrite <- (zslice_join data offset (offset + 8)) in E by lia.
  apply app_inj_1 in E as [E1 E2]; [|apply Nat2Z.inj; change (len (zslice data offset (offset + 8)) = len (le_bytes 8 (mt_index t))); rewrite len_zslice, len_le_bytes by lia; lia].
  unfold token_at. rewrite E1, E2, !le_val_u64 by done. by destruct t.
Qed.

Lemma token_at_bytes data offset t : token_at data offset = t -> 0 <= offset -> offset + TOKEN_SIZE <= len data -> zslice data offset (offset + TOKEN_SIZE) = token_encode t.
Proof.
  intros <- H0 Hl. unfold TOKEN_SIZE, token_encode, token_at in *. cbn [mt_index mt_ordinal]. rewrite !le_bytes_of by (rewrite len_zslice by lia; lia).
  by rewrite zslice_join by lia.
Qed.

Lemma image_write_slice n data i a b : image_ok n i -> n <= a -> b <= len data -> zslice (image_write data i) a b = zslice data a b.
Proof.
  intros [Ho Hl] Hn Hb. pose proof (len_nonneg (ai_bytes i)). destruct (Z.le_gt_cases b a); [unfold zslice; by rewrite !ztake_0 by lia|].
  unfold image_write. apply overwrite_after; lia.
Qed.

Lemma patched_slice n images a b : forall data, Forall (image_ok n) images -> n <= a -> b <= len data -> n <= len data -> zslice (patched data images) a b = zslice data a b.
Proof.
  induction images as [|i images IH]; intros data Hi Ha Hb Hn; [done|]. apply Forall_cons in Hi as [Hi His].
  change (zslice (patched (image_write data i) images) a b = zslice data a b). rewrite IH; try done; [by apply (image_write_slice n)|by rewrite (len_image_write n)..].
Qed.

Lemma token_at_slice d d' offset : 0 <= offset -> offset + TOKEN_SIZE <= len d -> offset + TOKEN_SIZE <= len d' ->
  zslice d offset (offset + TOKEN_SIZE) = zslice d' offset (offset + TOKEN_SIZE) -> token_at d offset = token_at d' offset.
Proof.
  intros H0 Hl Hl' E. unfold TOKEN_SIZE in *. rewrite <- (zslice_join d offset (offset + 8)), <- (zslice_join d' offset (offset + 8)) in E by lia.
  apply app_inj_1 in E as [E1 E2]; [|apply Nat2Z.inj; change (len (zslice d offset (offset + 8)) = len (zslice d' offset (offset + 8))); rewrite !len_zslice by lia; lia].
  unfold token_at. by rewrite E1, E2.
Qed.

(** ** Committing *)

Section Commit.
Context (file target : string) (offset size : Z).
Hypothesis Hsep : separate file target.
Hypothesis Hoffset : 0 <= offset.
Hypothesis Hfooter : offset + TOKEN_SIZE = size.
Hypothesis Hsize : size <= u64_max.

(** The sidecar holds [data] and recovery has nothing to do. *)
Definition settled (files : gmap string bytes) (data : bytes) : Prop :=
  files !! file = Some data /\ len data = size /\
  match receipt_of files target with
  | Ok None => True
  | Ok (Some (t, _)) => tn_token_offset t = offset /\ tn_expected_file_size t = size /\ token_cmp (token_at data offset) (tn_token t) <> Lt
  | _ => False
  end.

Lemma recover_settled files data : settled files data -> exists files', recover file target offset size (mkWorld files []) = (Ok tt, mkWorld files' []) /\ settled files' data.
Proof using CL Hsep Hoffset Hfooter Hsize.
  intros (Ed & Hl & Hr). destruct (receipt_of files target) as [[[t pending]|]| |] eqn:Er; [|by exists files; split; [apply recover_nothing|split; [done|split; [done|by rewrite Er]]]|done..].
  destruct Hr as (Eo & Es & Hc). destruct (recover_healthy file target files data t pending offset size Hsep Ed Hoffset Hfooter Hl Hsize Er Eo Es) as (files' & E & Ef & Er').
  exists files'. split; [done|]. unfold recovered in Ef. assert (files' !! file = Some data) by (by destruct (token_cmp _ _)). split; [done|]. split; [done|]. by destruct Er' as [-> | ->].
Qed.

Definition token_image (token : MutationToken) : AfterImage := mkAfterImage offset (token_encode token).
Definition mutation (token : MutationToken) (images : list AfterImage) (result : bytes) : Transaction := mkTransaction token offset size (images ++ [token_image token]) result.
Definition mutated (data : bytes) (token : MutationToken) (images : list AfterImage) : bytes := patched data (images ++ [token_image token]).

Lemma token_image_ok token : image_ok size (token_image token).
Proof using Hoffset Hfooter. split; [done|]. cbn [token_image ai_offset ai_bytes]. rewrite len_token_encode. lia. Qed.

Lemma image_ok_le n m i : n <= m -> image_ok n i -> image_ok m i.
Proof. intros H [? ?]. split; lia. Qed.

Lemma mutation_images_ok token images : Forall (image_ok offset) images -> Forall (image_ok size) (images ++ [token_image token]).
Proof using Hoffset Hfooter.
  intros Hi. apply Forall_app. split; [|constructor; [apply token_image_ok|constructor]]. eapply Forall_impl; [exact Hi|]. intros i. apply image_ok_le. unfold TOKEN_SIZE in *. lia.
Qed.

Lemma len_mutated data token images : Forall (image_ok offset) images -> len data = size -> len (mutated data token images) = size.
Proof using Hoffset Hfooter. intros Hi Hl. unfold mutated. rewrite (len_patched size); [done|by apply mutation_images_ok|lia]. Qed.

Lemma token_mutated data token images : token_ok token -> Forall (image_ok offset) images -> len data = size -> token_at (mutated data token images) offset = token.
Proof using Hoffset Hfooter.
  intros Ht Hi Hl. apply token_at_encode; [done| |done|rewrite len_mutated by done; lia]. unfold mutated. rewrite patched_app.
  change (zslice (overwrite (patched data images) offset (token_encode token)) offset (offset + TOKEN_SIZE) = token_encode token). rewrite <- (len_token_encode token).
  apply overwrite_at. rewrite (len_patched offset) by (try done; unfold TOKEN_SIZE in *; lia). unfold TOKEN_SIZE in *. lia.
Qed.

Lemma commit_cases token images result w data r w' :
  token_ok token -> Forall (image_ok offset) images -> w_files w !! file = Some data -> len data = size ->
  commit file target token offset size images result w = (r, w') ->
  let t := mutation token images result in
  (w_files w' = w_files w /\ r <> Ok tt) \/
  transaction_ok t /\
  ((w_files w' = <[transaction_path target := encode_transaction t]> (w_files w) /\ r <> Ok tt) \/
   (exists data', w_files w' = <[file := data']> (<[transaction_path target := encode_transaction t]> (w_files w)) /\ written data (tn_images t) data' /\ r <> Ok tt) \/
   (exists t', (t' = t \/ t' = compact t) /\ w_files w' = <[file := mutated data token images]> (<[transaction_path target := encode_transaction t']> (w_files w)) /\ r = Ok tt)).
Proof using CL Hsep Hoffset Hfooter Hsize.
  intros Ht Hi Ed Hl E t. pose proof (mutation_images_ok token images Hi) as Hi'. unfold commit in E. rewrite (proj2 (validate_token_location_iff offset size)), sbind_slift_Ok in E by done.
  unfold sbind in E at 1. unfold slift in E at 1. destruct (validate_images images size) as [[]| |]; [|injection E as <- <-; by left..].
  change (mkTransaction token offset size (images ++ [mkAfterImage offset (token_encode token)]) result) with t in E. cbv zeta in E.
  destruct (validate_transaction_encoding t) as [v| |] eqn:Ev; [|unfold write_transaction in E; rewrite Ev in E; injection E as <- <-; by left..].
  apply validate_transaction_encoding_inv in Ev; [|done|done|cbn [mutation tn_images t]; eapply Forall_impl; [exact Hi'|by intros i [? _]]].
  destruct (write_transaction_cases target t w Ev) as (r1 & [E1|(e & [E1|E1])]).
  - rewrite (sbind_Ok _ _ _ _ _ E1) in E. destruct Hsep as [Hs1 _].
    destruct (apply_transaction_cases file size t (mkWorld (<[transaction_path target := encode_transaction t]> (w_files w)) r1) data) as (r2 & [E2|(e & data' & E2 & Hw)]);
      [by cbn [w_files]; rewrite lookup_insert_ne|done|lia| |].
    + rewrite (sbind_Ok _ _ _ _ _ E2) in E. destruct (compact_receipt_cases target t (mkWorld (<[file := patched data (tn_images t)]> (<[transaction_path target := encode_transaction t]> (w_files w))) r2) Ev) as (files & rest & E3 & _ & Hcase).
      cbn [w_files] in *. rewrite E3 in E. injection E as <- <-. cbn [w_files]. right. split; [done|]. right. right. destruct Hcase as [->| ->]; [exists t; split; [by left|done]|].
      exists (compact t). split; [by right|]. split; [|done]. rewrite insert_insert_ne by done. by rewrite insert_insert_eq.
    + rewrite (sbind_Err _ _ _ _ _ E2) in E. injection E as <- <-. right. split; [done|]. right. left. by exists data'.
  - rewrite (sbind_Err _ _ _ _ _ E1) in E. injection E as <- <-. right. split; [done|]. by left.
  - rewrite (sbind_Err _ _ _ _ _ E1) in E. injection E as <- <-. by left.
Qed.

(** ** The decision after a restart *)

Lemma begin_settled token files data : settled files data -> token_cmp (token_at data offset) token = Lt ->
  exists files', begin_ file target token offset size (mkWorld files []) = (Ok Apply, mkWorld files' []) /\ settled files' data.
Proof using CL Hsep Hoffset Hfooter Hsize.
  intros Hst Hc. destruct (recover_settled files data Hst) as (files' & E & Hst'). exists files'. split; [|done]. unfold begin_. rewrite (sbind_Ok _ _ _ _ _ E).
  destruct Hst' as (Ed & Hl & _). rewrite (sbind_Ok _ _ _ _ _ (read_token_healthy file offset files' data Ed Hoffset ltac:(lia))). by rewrite token_cmp_antisym, Hc.
Qed.

(** A receipt whose token the recovered sidecar holds answers its own entry. *)
Lemma begin_replays files data t pending :
  files !! file = Some data -> len data = size -> receipt_of files target = Ok (Some (t, pending)) -> tn_token_offset t = offset -> tn_expected_file_size t = size ->
  token_at (recovered data offset t) offset = tn_token t ->
  exists files', begin_ file target (tn_token t) offset size (mkWorld files []) = (Ok (Replay (tn_result t)), mkWorld files' []) /\ settled files' (recovered data offset t).
Proof using CL Hsep Hoffset Hfooter Hsize.
  intros Ed Hl Er Eo Es Et. destruct (recover_healthy file target files data t pending offset size Hsep Ed Hoffset Hfooter Hl Hsize Er Eo Es) as (files' & E & Ef & Er').
  assert (len (recovered data offset t) = size) as Hl'.
  { unfold recovered. destruct (token_cmp _ _); try done. rewrite (len_patched size); [done| |lia]. rewrite <- Es. apply receipt_of_ok in Er as [Hok _]. apply (tno_images _ Hok). }
  exists files'. split.
  - unfold begin_. rewrite (sbind_Ok _ _ _ _ _ E). rewrite (sbind_Ok _ _ _ _ _ (read_token_healthy file offset files' _ Ef Hoffset ltac:(lia))). rewrite Et, token_cmp_refl.
    destruct Er' as [Er'|Er']; rewrite (sbind_Ok _ _ _ _ _ (eq_trans (read_transaction_if_present_healthy target files') (f_equal (fun r => (r, _)) Er'))); cbv beta iota;
      cbn [compact tn_token tn_result]; by rewrite mutation_token_eqb_refl.
  - split; [done|]. split; [done|]. destruct Er' as [-> | ->]; cbn [compact tn_token tn_token_offset tn_expected_file_size]; by rewrite Et, token_cmp_refl.
Qed.

(** The sidecar holds [data], and its receipt answers [token] with [result]. *)
Definition answered (files : gmap string bytes) (data : bytes) (token : MutationToken) (result : bytes) : Prop :=
  files !! file = Some data /\ len data = size /\ token_at data offset = token /\
  exists t pending, receipt_of files target = Ok (Some (t, pending)) /\ tn_token_offset t = offset /\ tn_expected_file_size t = size /\ tn_token t = token /\ tn_result t = result.

Lemma answered_settled files data token result : answered files data token result -> settled files data.
Proof.
  intros (Ed & Hl & Et & t & pending & Er & Eo & Es & Ett & _). split; [done|]. split; [done|]. rewrite Er. split; [done|]. split; [done|]. by rewrite Et, Ett, token_cmp_refl.
Qed.

Lemma recovered_same data t : token_cmp (token_at data offset) (tn_token t) <> Lt -> recovered data offset t = data.
Proof. unfold recovered. by destruct (token_cmp _ _). Qed.

Lemma begin_answered files data token result : answered files data token result ->
  exists files', begin_ file target token offset size (mkWorld files []) = (Ok (Replay result), mkWorld files' []) /\ answered files' data token result.
Proof using CL Hsep Hoffset Hfooter Hsize.
  intros (Ed & Hl & Et & t & pending & Er & Eo & Es & Ett & Ers).
  assert (recovered data offset t = data) as Erec by (apply recovered_same; by rewrite Et, Ett, token_cmp_refl).
  destruct (recover_healthy file target files data t pending offset size Hsep Ed Hoffset Hfooter Hl Hsize Er Eo Es) as (files' & E & Ef & Er'). rewrite Erec in Ef.
  exists files'. split.
  - unfold begin_. rewrite (sbind_Ok _ _ _ _ _ E). rewrite (sbind_Ok _ _ _ _ _ (read_token_healthy file offset files' _ Ef Hoffset ltac:(lia))). rewrite Et, token_cmp_refl.
    destruct Er' as [Er'|Er']; rewrite (sbind_Ok _ _ _ _ _ (eq_trans (read_transaction_if_present_healthy target files') (f_equal (fun r => (r, _)) Er'))); cbv beta iota;
      cbn [compact tn_token tn_result]; by rewrite Ett, Ers, mutation_token_eqb_refl.
  - split; [done|]. split; [done|]. split; [done|]. destruct Er' as [->| ->]; eexists _, false; (split; [done|]); cbn [compact tn_token tn_result tn_token_offset tn_expected_file_size]; done.
Qed.

Lemma begin_stale token files data : settled files data -> token_cmp token (token_at data offset) = Lt ->
  exists files', begin_ file target token offset size (mkWorld files []) = (Ok Stale, mkWorld files' []) /\ settled files' data.
Proof using CL Hsep Hoffset Hfooter Hsize.
  intros Hst Hc. destruct (recover_settled files data Hst) as (files' & E & Hst'). exists files'. split; [|done]. unfold begin_. rewrite (sbind_Ok _ _ _ _ _ E).
  destruct Hst' as (Ed & Hl & _). rewrite (sbind_Ok _ _ _ _ _ (read_token_healthy file offset files' data Ed Hoffset ltac:(lia))). by rewrite Hc.
Qed.

Lemma effective_token_log token w : mt_index token <> 0 -> effective_token file target token offset size w = (Ok token, w).
Proof. intros H. unfold effective_token. by rewrite (proj2 (Z.eqb_neq _ _) H). Qed.

Lemma mutation_commit_healthy token images result files data :
  Forall (image_ok offset) images -> files !! file = Some data -> len data = size -> transaction_ok (mutation token images result) ->
  exists files', commit file target token offset size images result (mkWorld files []) = (Ok tt, mkWorld files' []) /\ answered files' (mutated data token images) token result.
Proof using CL Hsep Hoffset Hfooter Hsize.
  intros Hi Ed Hl Hok. pose proof (mutation_images_ok token images Hi) as Hi'. pose proof (tno_token _ Hok) as Ht. unfold commit.
  rewrite (proj2 (validate_token_location_iff offset size)) by done. rewrite sbind_slift_Ok. rewrite (proj2 (validate_images_iff images size Hsize)).
  2:{ pose proof (tno_count _ Hok) as Hc. cbn [mutation tn_images] in Hc. rewrite len_app, len_cons, len_nil in Hc. split; [lia|]. apply Forall_app in Hi' as [Hi' _]. eapply Forall_impl; [exact Hi'|by intros ? [_ ?]]. }
  rewrite sbind_slift_Ok. fold (token_image token). fold (mutation token images result). cbv zeta. set (t := mutation token images result) in *.
  rewrite (sbind_Ok _ _ _ _ _ (write_transaction_healthy target t files Hok)). pose proof Hsep as [Hs1 _].
  rewrite (sbind_Ok _ _ _ _ _ (apply_transaction_healthy file size t _ data ltac:(by rewrite lookup_insert_ne) Hi' ltac:(lia))).
  destruct (compact_receipt_cases target t (mkWorld (<[file := mutated data token images]> (<[transaction_path target := encode_transaction t]> files)) []) Hok) as (files' & rest & E & Hrest & Hcase).
  cbn [w_files w_outcomes] in *. rewrite Hrest in E by done. exists files'. split; [exact E|]. split; [|split; [by apply len_mutated|split; [by apply token_mutated|]]].
  - destruct Hcase as [->| ->]; [by rewrite lookup_insert_eq|]. rewrite lookup_insert_ne by done. by rewrite lookup_insert_eq.
  - destruct Hcase as [->| ->]; [exists t, false; rewrite receipt_of_other by done; by rewrite receipt_of_insert|]. exists (compact t), false. by rewrite receipt_of_insert by by apply compact_ok.
Qed.

(** A partly written sidecar holds the old token, or all after-images and a part of the new
    token. *)
Lemma partly_split data token images data' : Forall (image_ok offset) images -> len data = size -> partly data (images ++ [token_image token]) data' ->
  token_at data' offset = token_at data offset \/ exists k, data' = overwrite (patched data images) offset (ztake k (token_encode token)).
Proof using Hoffset Hfooter.
  intros Hi Hl Hp. pose proof (len_partly size data _ _ (mutation_images_ok token images Hi) ltac:(lia) Hp) as Hl'. unfold TOKEN_SIZE in *.
  destruct Hp as (before & i & after & k & E & ->). destruct after as [|j after _] using rev_ind.
  - right. exists k. apply app_inj_tail in E as [<- <-]. done.
  - left. rewrite app_comm_cons, app_assoc in E. apply app_inj_tail in E as [-> _]. apply Forall_app in Hi as [Hb [Hi _]%Forall_cons].
    symmetry. apply token_at_slice; unfold TOKEN_SIZE; [done|lia|lia|].
    change (zslice data offset (offset + 16) = zslice (image_write (patched data before) (mkAfterImage (ai_offset i) (ztake k (ai_bytes i)))) offset (offset + 16)).
    rewrite (image_write_slice offset), (patched_slice offset); [done|done|lia|lia|lia|by apply image_ok_prefix|lia|]. rewrite (len_patched offset) by (try done; lia). lia.
Qed.

(** A sidecar that holds [token] is complete. *)
Lemma partly_token data token images data' : Forall (image_ok offset) images -> len data = size -> token_cmp (token_at data offset) token = Lt ->
  partly data (images ++ [token_image token]) data' -> token_at data' offset = token -> data' = mutated data token images.
Proof using Hoffset Hfooter.
  intros Hi Hl Hc Hp Et. destruct (partly_split _ _ _ _ Hi Hl Hp) as [E|[k ->]]; [by rewrite <- E, Et, token_cmp_refl in Hc|]. unfold TOKEN_SIZE in *.
  assert (len (patched data images) = size) as Hlp by (rewrite (len_patched offset) by (try done; lia); done).
  pose proof (len_token_encode token) as Hlt. unfold TOKEN_SIZE in *. pose proof (len_ztake_bound k (token_encode token)).
  assert (len (overwrite (patched data images) offset (ztake k (token_encode token))) = size) as Hlo by (rewrite len_overwrite by lia; lia).
  apply token_at_bytes in Et; [|done|unfold TOKEN_SIZE; lia]. unfold TOKEN_SIZE in Et. unfold mutated. rewrite patched_app.
  change (overwrite (patched data images) offset (ztake k (token_encode token)) = overwrite (patched data images) offset (token_encode token)).
  rewrite <- (zslice_full (overwrite (patched data images) offset (ztake k (token_encode token))) 0 size) by lia.
  rewrite <- (zslice_join _ 0 offset size), <- Hfooter, Et, overwrite_before by lia. rewrite overwrite_eq by lia. rewrite (zdrop_ge (offset + len (token_encode token))) by lia.
  rewrite app_nil_r. unfold zslice. by rewrite zdrop_0, Z.sub_0_r by lia.
Qed.

(** The sidecar after the after-images and the first [k] bytes of the token. *)
Definition torn_token (data : bytes) (token : MutationToken) (images : list AfterImage) (k : Z) : bytes :=
  overwrite (patched data images) offset (ztake k (token_encode token)).

(** A sidecar that holds a newer token has a torn one. *)
Lemma partly_torn data token images data' : token_ok token -> Forall (image_ok offset) images -> len data = size -> token_cmp (token_at data offset) token = Lt ->
  partly data (images ++ [token_image token]) data' -> token_cmp (token_at data' offset) token = Gt -> exists k, 0 < k < TOKEN_SIZE /\ data' = torn_token data token images k.
Proof using Hoffset Hfooter.
  intros Ht Hi Hl Hc Hp Hg. destruct (partly_split _ _ _ _ Hi Hl Hp) as [E|[k ->]]; [by rewrite E, Hc in Hg|]. exists k. split; [|done].
  assert (len (patched data images) = size) as Hlp by (rewrite (len_patched offset) by (try done; unfold TOKEN_SIZE in *; lia); done). pose proof (len_token_encode token) as Hlt.
  split; apply Z.nle_gt; intros Hk.
  - rewrite (ztake_0 k), overwrite_nil in Hg by (unfold TOKEN_SIZE in *; lia). assert (token_at (patched data images) offset = token_at data offset) as E; [|by rewrite E, Hc in Hg].
    apply token_at_slice; [done|lia|lia|]. apply (patched_slice offset); [done|lia|lia|unfold TOKEN_SIZE in *; lia].
  - rewrite (ztake_ge k) in Hg by lia. pose proof (token_mutated data token images Ht Hi Hl) as E. unfold mutated in E. rewrite patched_app in E.
    change (patched (patched data images) [token_image token]) with (overwrite (patched data images) offset (token_encode token)) in E. by rewrite E, token_cmp_refl in Hg.
Qed.

Lemma written_len data token images data' : Forall (image_ok offset) images -> len data = size -> written data (images ++ [token_image token]) data' -> len data' = size.
Proof using Hoffset Hfooter.
  intros Hi Hl [->|Hp]; [by apply len_mutated|]. by rewrite (len_partly size data _ data' (mutation_images_ok token images Hi) ltac:(lia) Hp).
Qed.

(** Recovery of a sidecar whose token is not newer completes it. *)
Lemma recovered_mutation data token images result data' : token_ok token -> Forall (image_ok offset) images -> len data = size -> token_cmp (token_at data offset) token = Lt ->
  written data (images ++ [token_image token]) data' -> token_cmp (token_at data' offset) token <> Gt -> recovered data' offset (mutation token images result) = mutated data token images.
Proof using Hoffset Hfooter.
  intros Ht Hi Hl Hc Hw Hn. pose proof (mutation_images_ok token images Hi) as Hi'. unfold recovered. cbn [mutation tn_token tn_images]. destruct Hw as [->|Hp].
  - fold (mutated data token images). by rewrite token_mutated, token_cmp_refl by done.
  - destruct (token_cmp (token_at data' offset) token) eqn:E; [by apply partly_token; [..|apply token_cmp_eq]|by apply (patched_again size); [done|lia|]|done].
Qed.

(** C28: a mutation happens entirely or not at all, and once.  Whatever system calls fail while
    it is committed, and wherever the writes stop, the next operation with the same token
    finds the sidecar as it was and is told to apply the mutation, or finds it complete and
    is given the stored reply; after a successful commit it is always the latter.  The one
    exception is a write that stops inside the 16 bytes of the token and leaves a token that
    reads newer: then all after-images are in place, but the operation is called stale.
    Nothing is left to recover afterwards. *)
Theorem mutation_atomic token images result w data r w' :
  token_ok token -> Forall (image_ok offset) images -> settled (w_files w) data -> token_cmp (token_at data offset) token = Lt ->
  commit file target token offset size images result w = (r, w') ->
  exists files,
    (begin_ file target token offset size (mkWorld (w_files w') []) = (Ok Apply, mkWorld files []) /\ settled files data /\ r <> Ok tt) \/
    (begin_ file target token offset size (mkWorld (w_files w') []) = (Ok (Replay result), mkWorld files []) /\ settled files (mutated data token images)) \/
    (exists k, 0 < k < TOKEN_SIZE /\ w_files w' !! file = Some (torn_token data token images k) /\ token_cmp (token_at (torn_token data token images k) offset) token = Gt /\
       begin_ file target token offset size (mkWorld (w_files w') []) = (Ok Stale, mkWorld files []) /\ settled files (torn_token data token images k) /\ r <> Ok tt).
Proof using CL Hsep Hoffset Hfooter Hsize.
  intros Ht Hi Hst Hc E. pose proof Hst as (Ed & Hl & _). pose proof (token_mutated data token images Ht Hi Hl) as Etm.
  destruct (commit_cases _ _ _ _ _ _ _ Ht Hi Ed Hl E) as [(Ef & Hr)|(Hok & [(Ef & Hr)|[(d & Ef & Hw & Hr)|(t' & Ht' & Ef & Hr)]])].
  - destruct (begin_settled token (w_files w') data) as (files & Eb & Hst'); [by rewrite Ef|done|]. exists files. by left.
  - destruct (begin_replays (w_files w') data (mutation token images result) false) as (files & Eb & Hst'); [by rewrite Ef, lookup_insert_ne by (destruct Hsep; congruence)|done|by rewrite Ef, receipt_of_insert|done..| |].
    + unfold recovered. cbn [mutation tn_token tn_images]. by rewrite Hc.
    + exists files. right. left. split; [done|]. unfold recovered in Hst'. cbn [mutation tn_token tn_images] in Hst'. by rewrite Hc in Hst'.
  - assert (w_files w' !! file = Some d) as Ed' by (by rewrite Ef, lookup_insert_eq). pose proof (written_len _ _ _ _ Hi Hl Hw) as Hld.
    assert (receipt_of (w_files w') target = Ok (Some (mutation token images result, false))) as Er by (rewrite Ef, receipt_of_other by done; by apply receipt_of_insert).
    destruct (decide (token_cmp (token_at d offset) token = Gt)) as [Hg|Hg].
    + destruct Hw as [->|Hp]; [change (token_cmp (token_at (mutated data token images) offset) token = Gt) in Hg; by rewrite Etm, token_cmp_refl in Hg|]. destruct (partly_torn _ _ _ _ Ht Hi Hl Hc Hp Hg) as (k & Hk & ->).
      destruct (begin_stale token (w_files w') (torn_token data token images k)) as (files & Eb & Hst').
      * split; [done|]. split; [done|]. rewrite Er. split; [done|]. split; [done|]. cbn [mutation tn_token]. by rewrite Hg.
      * by rewrite token_cmp_antisym, Hg.
      * exists files. right. right. by exists k.
    + pose proof (recovered_mutation data token images result d Ht Hi Hl Hc Hw Hg) as Erec.
      destruct (begin_replays (w_files w') d (mutation token images result) false) as (files & Eb & Hst'); [done|done|done|done|done|by rewrite Erec|]. rewrite Erec in Hst'. exists files. right. by left.
  - assert (transaction_ok t' /\ tn_token_offset t' = offset /\ tn_expected_file_size t' = size /\ tn_token t' = token /\ tn_result t' = result) as (Hok' & Eo & Es & Ett & Ers) by (destruct Ht' as [->| ->]; [done|split; [by apply compact_ok|done]]).
    assert (recovered (mutated data token images) offset t' = mutated data token images) as Erec by (unfold recovered; by rewrite Etm, Ett, token_cmp_refl).
    destruct (begin_replays (w_files w') (mutated data token images) t' false) as (files & Eb & Hst'); [by rewrite Ef, lookup_insert_eq|by apply len_mutated|rewrite Ef, receipt_of_other by done; by apply receipt_of_insert|done..|by rewrite Erec, Etm|].
    rewrite Ett, Ers in Eb. rewrite Erec in Hst'. exists files. right. by left.
Qed.

(** ** Power failures *)

(** The pages of the sidecar that the mutation's images do not touch. *)
Lemma patched_drop data images n : Forall (image_ok n) images -> 0 <= n <= offset -> len data = size -> zslice (patched data images) n offset = zslice data n offset.
Proof using Hoffset Hfooter. intros Hi Hn Hl. apply (patched_slice n); unfold TOKEN_SIZE in *; [done|lia|lia|lia]. Qed.

(** A footer written over data: what is behind [a]. *)
Lemma footer_slice data token a b : len data = size -> 0 <= a <= offset -> size <= b -> zslice (image_write data (token_image token)) a b = zslice data a offset ++ token_encode token.
Proof using Hoffset Hfooter.
  intros Hl Ha Hb. pose proof (len_token_encode token) as Ht. unfold TOKEN_SIZE in *. unfold image_write. cbn [token_image ai_offset ai_bytes]. rewrite overwrite_eq by lia.
  rewrite (zdrop_ge (offset + _)), app_nil_r by lia. unfold zslice. rewrite zdrop_app_le by (rewrite len_ztake; lia). rewrite zdrop_ztake by lia.
  apply ztake_ge. rewrite len_app, len_ztake, len_zdrop by (rewrite ?len_zdrop; lia). lia.
Qed.

(** The footer page alone survives: one of the states after a power failure that comes
    before the sync. *)
Lemma footer_survives page token images result data :
  Forall (image_ok offset) images -> len data = size -> 0 < page -> offset / page = (size - 1) / page -> Forall (fun i => ai_offset i + len (ai_bytes i) <= offset / page * page) images ->
  survives page (transaction_calls (mutation token images result)) data (image_write data (token_image token)).
Proof using Hoffset Hfooter Hsize.
  intros Hi Hl Hp Hq Hpg. exists (write_call <$> images ++ [token_image token]), [CallSync]. split; [done|]. rewrite run_writes. cbn [fst snd].
  pose proof (token_image_ok token) as Htk. unfold TOKEN_SIZE in *. split; [rewrite (len_image_write size) by (done || lia); rewrite (len_patched size) by (try lia; by apply mutation_images_ok); lia|].
  assert (0 <= offset / page * page <= offset) as Hb by (pose proof (Z.div_pos offset page); pose proof (Z.mul_div_le offset page); nia). set (q := offset / page) in *.
  assert (Forall (image_ok (q * page)) images) as Hiq by (rewrite Forall_forall in Hi, Hpg; apply Forall_forall; intros i Hin; split; [by apply Hi|by apply Hpg]).
  intros k Hk. destruct (Z.lt_trichotomy k q) as [Hlt|[->|Hgt]].
  - left. unfold image_write. cbn [token_image ai_offset ai_bytes]. apply overwrite_before; nia.
  - right. assert (size <= (q + 1) * page) as He by (pose proof (Z.mul_succ_div_gt (size - 1) page); rewrite <- Hq in *; nia). unfold mutation. cbn [tn_images]. rewrite patched_app.
    change (patched (patched data images) [token_image token]) with (image_write (patched data images) (token_image token)).
    rewrite !footer_slice; [|rewrite (len_patched offset); [done|done|lia]|lia|lia|done|lia|lia]. by rewrite patched_drop.
  - left. assert (size <= k * page) as He by (pose proof (Z.mul_succ_div_gt (size - 1) page); rewrite <- Hq in *; nia). unfold zslice. rewrite !zdrop_ge; [done|lia|]. rewrite (len_image_write size); [lia|done|lia].
Qed.

(** C29: the after-images and the token are flushed by one sync at the end, so a power failure
    before it may keep the page of the token and lose those of the images.  From any settled
    sidecar, [commit] publishes the receipt and then makes exactly these writes and this sync;
    when no image shares the token's page, one of the states that a power failure can leave
    has every byte before the footer as it was and the new token behind them.  The next
    operation with the token is then given the stored reply, and the sidecar stays without
    the mutation. *)
Theorem footer_first_loses_mutation page token images result files data :
  token_ok token -> Forall (image_ok offset) images -> settled files data -> transaction_ok (mutation token images result) ->
  0 < page -> offset / page = (size - 1) / page -> Forall (fun i => ai_offset i + len (ai_bytes i) <= offset / page * page) images ->
  exists files1 torn files2,
    write_transaction target (mutation token images result) (mkWorld files []) = (Ok tt, mkWorld files1 []) /\
    (forall w, apply_transaction file (mutation token images result) w = perform file (transaction_calls (mutation token images result)) w) /\
    survives page (transaction_calls (mutation token images result)) data torn /\ zslice torn 0 offset = zslice data 0 offset /\
    begin_ file target token offset size (mkWorld (<[file := torn]> files1) []) = (Ok (Replay result), mkWorld files2 []) /\ settled files2 torn.
Proof using CL Hsep Hoffset Hfooter Hsize.
  intros Ht Hi (Ed & Hl & _) Hok Hp Hq Hpg. pose proof (token_mutated data token [] Ht (Forall_nil_2 _) Hl) as Et. change (mutated data token []) with (image_write data (token_image token)) in Et.
  set (torn := image_write data (token_image token)) in *. set (t := mutation token images result) in *. set (files1 := <[transaction_path target := encode_transaction t]> files).
  assert (recovered torn offset t = torn) as Erec by (unfold recovered; cbn [t mutation tn_token]; by rewrite Et, token_cmp_refl).
  destruct (begin_replays (<[file := torn]> files1) torn t false) as (files2 & Eb & Hst); [apply lookup_insert_eq| |rewrite receipt_of_other by done; by apply receipt_of_insert|done|done|by rewrite Erec|].
  - unfold torn. rewrite (len_image_write size); [done|apply token_image_ok|lia].
  - rewrite Erec in Hst. exists files1, torn, files2. split; [by apply write_transaction_healthy|]. split; [by apply apply_transaction_calls|]. split; [by apply footer_survives|]. split; [|done].
    unfold torn, image_write. cbn [token_image ai_offset ai_bytes]. apply overwrite_before; unfold TOKEN_SIZE in *; lia.
Qed.

End Commit.
End Protocol.

(** ** Witnesses *)

Module Example1.
#[local] Existing Instance crc32_iso_hdlc.

(** A sidecar of eight bytes and a footer, and a mutation of two of them. *)
Definition old_token : MutationToken := mkMutationToken 1 3.
Definition new_token : MutationToken := mkMutationToken 2 1.
Definition data : bytes := replicate 8 x00 ++ token_encode old_token.
Definition images : list AfterImage := [mkAfterImage 0 [x01; x02]; mkAfterImage 5 [x03]].
Definition files : gmap string bytes := {["f" := data]}.

(** The write of the second image fails after the receipt is published. *)
Definition failing : World := mkWorld files (replicate 25 Succeeds ++ [Fails 0 "Input/output error"]).
Definition run : result unit * World := commit "f" "f" new_token 8 24 images [x01] failing.

Lemma sep : separate "f" "f".
Proof. split; discriminate. Qed.
Lemma image_oks : Forall (image_ok 8) images.
Proof. repeat constructor; cbn; done. Qed.

(** The write of the token stops after its first half. *)
Definition tearing : World := mkWorld files (replicate 26 Succeeds ++ [Fails 8 "Input/output error"]).
Definition torn_run : result unit * World := commit "f" "f" new_token 8 24 images [x01] tearing.

Lemma run_pair : commit "f" "f" new_token 8 24 images [x01] failing = (run.1, run.2).
Proof. unfold run. apply surjective_pairing. Qed.
Lemma torn_pair : commit "f" "f" new_token 8 24 images [x01] tearing = (torn_run.1, torn_run.2).
Proof. unfold torn_run. apply surjective_pairing. Qed.

(** What the next operation with the token decides. *)
Lemma decided r files : begin_ "f" "f" new_token 8 24 (mkWorld (w_files run.2) []) = (Ok r, mkWorld files []) -> r = Replay [x01].
Proof. intros H. apply (f_equal fst) in H. vm_compute in H. by injection H as <-. Qed.
Lemma torn_decided r files : begin_ "f" "f" new_token 8 24 (mkWorld (w_files torn_run.2) []) = (Ok r, mkWorld files []) -> r = Stale.
Proof. intros H. apply (f_equal fst) in H. vm_compute in H. by injection H as <-. Qed.
Lemma torn_data : w_files torn_run.2 !! "f" = Some (torn_token 8 data new_token images 8).
Proof. vm_compute. reflexivity. Qed.
End Example1.

Lemma mutation_atomic_witness :
  (exists files,
     @begin_ crc32_iso_hdlc "f" "f" Example1.new_token 8 24 (mkWorld (w_files Example1.run.2) []) = (Ok (Replay [x01]), mkWorld files []) /\
     @settled crc32_iso_hdlc "f" "f" 8 24 files (mutated 8 Example1.data Example1.new_token Example1.images)) /\
  (exists files,
     @begin_ crc32_iso_hdlc "f" "f" Example1.new_token 8 24 (mkWorld (w_files Example1.torn_run.2) []) = (Ok Stale, mkWorld files []) /\
     @settled crc32_iso_hdlc "f" "f" 8 24 files (torn_token 8 Example1.data Example1.new_token Example1.images 8)).
Proof.
  assert (token_ok Example1.new_token) as Ht by (by split; split). assert (@settled crc32_iso_hdlc "f" "f" 8 24 Example1.files Example1.data) as Hst by (split; [reflexivity|]; split; [reflexivity|exact I]).
  assert (token_cmp (token_at Example1.data 8) Example1.new_token = Lt) as Hc by (vm_compute; reflexivity).
  pose proof (@mutation_atomic crc32_iso_hdlc _ "f" "f" 8 24 Example1.sep ltac:(lia) eq_refl ltac:(unfold u64_max; lia) Example1.new_token Example1.images [x01]) as H. split.
  - destruct (H Example1.failing Example1.data Example1.run.1 Example1.run.2 Ht Example1.image_oks Hst Hc Example1.run_pair) as (files & [(E & _)|[E|(k & _ & _ & _ & E & _)]]); [|exists files; exact E|]; discriminate (Example1.decided _ _ E).
  - destruct (H Example1.tearing Example1.data Example1.torn_run.1 Example1.torn_run.2 Ht Example1.image_oks Hst Hc Example1.torn_pair) as (files & [(E & _)|[(E & _)|(k & Hk & Ed & _ & E & Hst' & _)]]);
      [discriminate (Example1.torn_decided _ _ E)..|].
    exists files. split; [exact E|]. pose proof Example1.torn_data as Et. rewrite Ed in Et. apply (inj Some) in Et. rewrite <- Et. exact Hst'.
Defined.

Module Example2.
#[local] Existing Instance crc32_iso_hdlc.

(** A sidecar of one page, its footer on the next. *)
Definition data : bytes := replicate 4096 x00 ++ token_encode Example1.old_token.
Definition files : gmap string bytes := {["f" := data]}.

Lemma page_images : Forall (image_ok 4096) Example1.images.
Proof. repeat constructor; cbn; done. Qed.
Lemma transaction_oks : transaction_ok (mutation 4096 4112 Example1.new_token Example1.images [x01]).
Proof. split; try (vm_compute; done). repeat constructor; vm_compute; done. Qed.
Lemma page_settled : settled "f" "f" 4096 4112 files data.
Proof. split; [reflexivity|]. split; [vm_compute; reflexivity|exact I]. Qed.
End Example2.

Lemma footer_first_loses_mutation_witness : exists files1 torn files2,
  @write_transaction crc32_iso_hdlc "f" (mutation 4096 4112 Example1.new_token Example1.images [x01]) (mkWorld Example2.files []) = (Ok tt, mkWorld files1 []) /\
  survives 4096 (transaction_calls (mutation 4096 4112 Example1.new_token Example1.images [x01])) Example2.data torn /\
  @begin_ crc32_iso_hdlc "f" "f" Example1.new_token 4096 4112 (mkWorld (<["f" := torn]> files1) []) = (Ok (Replay [x01]), mkWorld files2 []) /\
  zslice torn 0 4096 = replicate 4096 x00.
Proof.
  destruct (@footer_first_loses_mutation crc32_iso_hdlc _ "f" "f" 4096 4112 Example1.sep ltac:(lia) eq_refl ltac:(unfold u64_max; lia) 4096 Example1.new_token Example1.images [x01] Example2.files Example2.data)
    as (files1 & torn & files2 & E1 & _ & Hs & Hz & E2 & _).
  - by split; split.
  - exact Example2.page_images.
  - exact Example2.page_settled.
  - exact Example2.transaction_oks.
  - lia.
  - reflexivity.
  - apply Forall_cons_2; [vm_compute; discriminate|]. apply Forall_cons_2; [vm_compute; discriminate|apply Forall_nil_2].
  - exists files1, torn, files2. split; [exact E1|]. split; [exact Hs|]. split; [exact E2|]. rewrite Hz. vm_compute. reflexivity.
Defined.

Lemma example1_transaction_ok : transaction_ok (mutation 8 24 Example1.new_token Example1.images [x01]).
Proof. split; try (vm_compute; done). repeat constructor; vm_compute; done. Qed.

(** Receipts on disk are exactly the encodings of well-formed mutations.  A receipt is
    accepted if and only if its bytes are those the writer produces for the mutation it is
    read as: what was written is read back, and nothing else is ever replayed. *)
Theorem receipt_roundtrip `{CL : Crc32fastLaws} bs t : decode_transaction bs = Ok t <-> transaction_ok t /\ bs = encode_transaction t.
Proof. apply decode_iff. Qed.

Lemma receipt_roundtrip_witness :
  @decode_transaction crc32_iso_hdlc (@encode_transaction crc32_iso_hdlc (mutation 8 24 Example1.new_token Example1.images [x01])) = Ok (mutation 8 24 Example1.new_token Example1.images [x01]).
Proof. apply (@receipt_roundtrip crc32_iso_hdlc _). exact (conj example1_transaction_ok eq_refl). Defined.
