(* ===== verification/Bloom.v ===== *)
(** * Bloom filters (bloom.rs)

    A filter is a file: a 32-byte header (magic number, number of bits, number of hashes,
    count of insertions), the bits, and the token of its newest mutation.  Elements are
    added one by one or in batches; a batch loads the bytes it touches once, in runs of
    consecutive offsets, and stores the runs that changed.  The variants that carry a token
    stage the same changes as after-images of [ProbTxn].

    The file holds the operations; [BloomProof] shows what they do. *)

From Stdlib Require Import ZArith Lia.
From stdpp Require Import gmap strings sorting.
From S2P Require Import Prelude Bytes Crc Sidecar ProbTxn.

Definition BLOOM_MAGIC : Z := 0x424C4F4F4D465F31.
Definition BLOOM_HEADER_SIZE : Z := 32.
Definition MAX_NUM_HASHES : Z := 1024.
Definition MAX_BLOOM_BYTES : Z := 1073741824.
Definition MAX_BLOOM_BITS : Z := MAX_BLOOM_BYTES * 8.
Definition MAX_BLOOM_HASH_VISITS : Z := 131072.
Definition SEED_2 : Z := 0x9E3779B97F4A7C15.

(** The bytes a batch touches, by offset: as loaded, and as they are now. *)
Abbreviation Touched := (gmap Z (byte * byte)).

Section Bloom.
Context `{C : Crc32fast} `{X : Xxh3}.

Definition file_hash_positions (element : bytes) (num_bits num_hashes : Z) : list Z :=
  let h1 := xxh3_64_with_seed element 0 in
  let h2 := xxh3_64_with_seed element SEED_2 in
  map (fun i => add64 h1 (wrap64 (i * h2)) mod num_bits) (seqZ 0 num_hashes).

Definition bloom_mutation_token_offset (num_bits : Z) : result Z :=
  if MAX_BLOOM_BITS <? num_bits then Err "bloom bit array exceeds 1073741824 bytes" else
  let byte_count := (num_bits + 7) / 8 in
  ok_or (checked_add64 BLOOM_HEADER_SIZE byte_count) "bloom mutation token offset overflow".

Definition bloom_file_size (num_bits : Z) : result Z :=
  let? offset := bloom_mutation_token_offset num_bits in
  ok_or (checked_add64 offset TOKEN_SIZE) "bloom file size overflow".

Definition bloom_count_after_add (count : Z) : result Z := ok_or (checked_add64 count 1) "bloom count overflow".

Definition validate_bloom_batch_work (item_count num_hashes : Z) : result unit :=
  let? visits := ok_or (checked_mul64 item_count num_hashes) "bloom batch work overflow" in
  if MAX_BLOOM_HASH_VISITS <? visits then
    Err ("bloom batch work limit exceeded (" +:+ pretty visits +:+ " hash visits, maximum 131072)")
  else Ok tt.

(** ** Bits and bytes *)

(** The offset of a bit's byte, and its mask. *)
Definition bit_offset (position : Z) : Z := BLOOM_HEADER_SIZE + position / 8.
Definition bit_mask (position : Z) : Z := Z.shiftl 1 (position mod 8).
Definition has_mask (b : byte) (mask : Z) : bool := negb (Z.land (byte_val b) mask =? 0).
Definition or_mask (b : byte) (mask : Z) : byte := byte_of (Z.lor (byte_val b) mask).

Definition bloom_read_exact_at (file : string) (n offset : Z) (label : string) : SR World bytes := read_exact_at "bloom file" file n offset label.

(** A byte read into a one-byte buffer. *)
Definition bloom_read_byte (file : string) (offset : Z) : SR World byte :=
  let! buf := bloom_read_exact_at file 1 offset "bit" in
  match buf with
  | b :: _ => sret b
  | [] => slift Panic
  end.

Definition file_read_header (file : string) : SR World (Z * Z * Z) :=
  let! header := bloom_read_exact_at file BLOOM_HEADER_SIZE 0 "header" in
  if negb (le_val (zslice header 0 8) =? BLOOM_MAGIC) then serr "invalid bloom file magic" else
  let num_bits := le_val (zslice header 8 16) in
  let num_hashes := le_val (zslice header 16 20) in
  let count := le_val (zslice header 24 32) in
  if num_bits =? 0 then serr "num_bits must be > 0" else
  if existsb (fun b => negb (byte_val b =? 0)) (zslice header 20 24) then serr "bloom reserved header bytes must be zero" else
  if num_bits <? count then serr "bloom count must not exceed num_bits" else
  let! expected_size := slift (bloom_file_size num_bits) in
  if num_hashes =? 0 then serr "num_hashes must be > 0" else
  if MAX_NUM_HASHES <? num_hashes then serr "num_hashes must be <= 1024" else
  let! actual_size := map_err (fun e => "read bloom file metadata: " +:+ e) (metadata_len file) in
  if negb (actual_size =? expected_size) then
    serr ("bloom file size mismatch: expected " +:+ pretty expected_size +:+ ", got " +:+ pretty actual_size)
  else sret (num_bits, num_hashes, count).

(** ** Runs of touched bytes *)

(** The offsets that follow [prev] without a gap. *)
Fixpoint take_run (prev : Z) (offsets : list Z) : list Z * list Z :=
  match offsets with
  | o :: rest => if o =? add64 prev 1 then let '(run, rest) := take_run o rest in (o :: run, rest) else ([], offsets)
  | [] => ([], [])
  end.
Fixpoint runs_loop (fuel : nat) (offsets : list Z) : list (list Z) :=
  match fuel, offsets with
  | S fuel, o :: rest => let '(run, rest) := take_run o rest in (o :: run) :: runs_loop fuel rest
  | _, _ => []
  end.
Definition runs (offsets : list Z) : list (list Z) := runs_loop (length offsets) offsets.
Definition run_start (run : list Z) : Z := match run with o :: _ => o | [] => 0 end.

Definition insert_run (run : list Z) (buffer : bytes) (touched : Touched) : Touched :=
  foldl (fun touched '(offset, b) => <[offset := (b, b)]> touched) touched (zip run buffer).

Fixpoint load_runs (file : string) (rs : list (list Z)) (touched : Touched) : SR World Touched :=
  match rs with
  | [] => sret touched
  | run :: rs =>
      let! buffer := bloom_read_exact_at file (len run) (run_start run) "bit run" in
      load_runs file rs (insert_run run buffer touched)
  end.
Definition bloom_load_touched_bytes (file : string) (offsets : list Z) (touched : Touched) : SR World Touched := load_runs file (runs offsets) touched.

(** [touched[offset]] panics on a missing key. *)
Definition touched_at (touched : Touched) (offset : Z) : result (byte * byte) := unwrap (touched !! offset).

(** The first and second components of the bytes of a run. *)
Fixpoint run_bytes (touched : Touched) (run : list Z) : result (list (byte * byte)) :=
  match run with
  | [] => Ok []
  | offset :: run =>
      let? b := touched_at touched offset in
      let? bs := run_bytes touched run in
      Ok (b :: bs)
  end.
Definition run_changed (bs : list (byte * byte)) : bool := existsb (fun b => negb (Byte.eqb b.1 b.2)) bs.

Fixpoint store_runs (file : string) (rs : list (list Z)) (touched : Touched) : SR World unit :=
  match rs with
  | [] => sret tt
  | run :: rs =>
      let! bs := slift (run_bytes touched run) in
      let! _ := (if run_changed bs then write_all_at file (map snd bs) (run_start run) "bloom bit run" else sret tt) in
      store_runs file rs touched
  end.
Definition bloom_store_touched_bytes (file : string) (offsets : list Z) (touched : Touched) : SR World unit := store_runs file (runs offsets) touched.

(** The after-images of the runs that changed. *)
Fixpoint run_images (rs : list (list Z)) (touched : Touched) : result (list AfterImage) :=
  match rs with
  | [] => Ok []
  | run :: rs =>
      let? bs := run_bytes touched run in
      let? images := run_images rs touched in
      Ok (if run_changed bs then mkAfterImage (run_start run) (map snd bs) :: images else images)
  end.

(** ** Results in receipts *)

Fixpoint bloom_encode_results (results : list Z) : result bytes :=
  match results with
  | [] => Ok []
  | r :: results =>
      if (r =? 0) || (r =? 1) then let? encoded := bloom_encode_results results in Ok (byte_of r :: encoded)
      else Err "invalid bloom mutation result"
  end.
Fixpoint decode_result_bytes (encoded : bytes) : result (list Z) :=
  match encoded with
  | [] => Ok []
  | b :: encoded =>
      if (byte_val b =? 0) || (byte_val b =? 1) then let? results := decode_result_bytes encoded in Ok (byte_val b :: results)
      else Err "invalid bloom mutation receipt result"
  end.
Definition bloom_decode_results (encoded : bytes) (expected_count : Z) : result (list Z) :=
  if negb (len encoded =? expected_count) then Err "bloom mutation receipt result length mismatch"
  else decode_result_bytes encoded.
Definition bloom_stale_results (count : Z) : result (list Z) := Ok (replicate (Z.to_nat count) 0).

(** ** Batches *)

Definition element_masks (num_bits num_hashes : Z) (element : bytes) : list (Z * Z) :=
  map (fun position => (bit_offset position, bit_mask position)) (file_hash_positions element num_bits num_hashes).

(** [touched.entry(offset).or_insert((0, 0))]. *)
Definition touch (touched : Touched) (offset : Z) : Touched :=
  match touched !! offset with
  | Some _ => touched
  | None => <[offset := (x00, x00)]> touched
  end.
Definition touch_all (masks : list (list (Z * Z))) : Touched := foldl touch ∅ (map fst (concat masks)).
Definition sorted_keys (touched : Touched) : list Z := merge_sort Z.le (elements (dom touched)).

(** One element: whether a bit was new, and the bytes with its bits. *)
Fixpoint set_masks (masks : list (Z * Z)) (touched : Touched) (any_new : bool) : result (Touched * bool) :=
  match masks with
  | [] => Ok (touched, any_new)
  | (offset, mask) :: masks =>
      let? (original, current) := unwrap (touched !! offset) in
      if negb (has_mask current mask) then set_masks masks (<[offset := (original, or_mask current mask)]> touched) true
      else set_masks masks touched any_new
  end.

Fixpoint set_elements (masks : list (list (Z * Z))) (touched : Touched) (count : Z) : result (list Z * Touched * Z) :=
  match masks with
  | [] => Ok ([], touched, count)
  | element :: masks =>
      let? (touched, any_new) := set_masks element touched false in
      let? count := (if (any_new : bool) then bloom_count_after_add count else Ok count) in
      let? (results, touched, count) := set_elements masks touched count in
      Ok ((if any_new then 1 else 0) :: results, touched, count)
  end.

(** What a batch computes before it writes anything: the offsets, the results, the touched
    bytes and the new count. *)
Definition stage_batch (file : string) (num_bits num_hashes count : Z) (elements : list bytes) : SR World (list Z * (list Z * Touched * Z)) :=
  let! _ := slift (validate_bloom_batch_work (len elements) num_hashes) in
  let masks := map (element_masks num_bits num_hashes) elements in
  let touched := touch_all masks in
  let offsets := sorted_keys touched in
  let! touched := bloom_load_touched_bytes file offsets touched in
  let! staged := slift (set_elements masks touched count) in
  sret (offsets, staged).

Definition bloom_stage_transactional_madd (file : string) (num_bits num_hashes count : Z) (elements : list bytes) : SR World (list Z * list AfterImage) :=
  let! (offsets, (results, touched, count)) := stage_batch file num_bits num_hashes count elements in
  let! images := slift (run_images (runs offsets) touched) in
  sret (results, if existsb (Z.eqb 1) results then images ++ [mkAfterImage 24 (le_bytes 8 count)] else images).

(** ** Operations *)

Definition bloom_transactional_madd (file receipt_path : string) (num_bits num_hashes : Z) (elements : list bytes) (token : MutationToken) : SR World (list Z) :=
  let! token_offset := slift (bloom_mutation_token_offset num_bits) in
  let! file_size := slift (bloom_file_size num_bits) in
  let! token := effective_token file receipt_path token token_offset file_size in
  let! decision := begin_ file receipt_path token token_offset file_size in
  match decision with
  | Replay result => slift (bloom_decode_results result (len elements))
  | Stale => slift (bloom_stale_results (len elements))
  | Apply =>
      let! (current_bits, current_hashes, count) := file_read_header file in
      if negb (current_bits =? num_bits) || negb (current_hashes =? num_hashes) then serr "bloom layout changed while mutation lock was held" else
      let! (results, images) := bloom_stage_transactional_madd file num_bits num_hashes count elements in
      let! encoded_result := slift (bloom_encode_results results) in
      let! _ := commit file receipt_path token token_offset file_size images encoded_result in
      sret results
  end.

Definition bloom_recover_sidecar (path : string) : SR World unit :=
  let! opened := map_err (fun e => "open bloom sidecar for recovery: " +:+ e) (open_random_rw_locked path) in
  match opened with
  | None => serr "open bloom sidecar for recovery: No such file or directory (os error 2)"
  | Some file =>
      let! (num_bits, _, _) := file_read_header file in
      let! token_offset := slift (bloom_mutation_token_offset num_bits) in
      let! file_size := slift (bloom_file_size num_bits) in
      recover file path token_offset file_size
  end.

Definition bloom_header (num_bits num_hashes : Z) : bytes :=
  let header := replicate 32 x00 in
  let header := copy_from_slice header 0 (le_bytes 8 BLOOM_MAGIC) in
  let header := copy_from_slice header 8 (le_bytes 8 num_bits) in
  copy_from_slice header 16 (le_bytes 4 num_hashes).

Definition bloom_file_create (path : string) (num_bits num_hashes : Z) : SR World unit :=
  if num_bits =? 0 then serr "num_bits must be > 0" else
  if num_hashes =? 0 then serr "num_hashes must be > 0" else
  if MAX_NUM_HASHES <? num_hashes then serr "num_hashes must be <= 1024" else
  let! file_size := slift (bloom_file_size num_bits) in
  create_sidecar path (bloom_header num_bits num_hashes) file_size.

(** The loop of [bloom_file_add] over the positions; [new_count] is set with the first new
    bit. *)
Fixpoint add_bits (file : string) (positions : list Z) (count : Z) (any_new : bool) (new_count : option Z) : SR World (bool * option Z) :=
  match positions with
  | [] => sret (any_new, new_count)
  | position :: positions =>
      let file_offset := bit_offset position in
      let mask := bit_mask position in
      let! b := bloom_read_byte file file_offset in
      if negb (has_mask b mask) then
        let! new_count := (match new_count with
                           | Some next => sret (Some next)
                           | None => let! next := slift (bloom_count_after_add count) in sret (Some next)
                           end) in
        let! _ := write_all_at file [or_mask b mask] file_offset "bloom bit" in
        add_bits file positions count true new_count
      else add_bits file positions count any_new new_count
  end.

Definition bloom_file_add (path : string) (element : bytes) : World -> reply Z * World :=
  with_sidecar open_random_rw_locked path (fun file =>
    let! (num_bits, num_hashes, count) := file_read_header file in
    let! (any_new, new_count) := add_bits file (file_hash_positions element num_bits num_hashes) count false None in
    let! _ := (match new_count with
               | Some new_count => write_all_at file (le_bytes 8 new_count) 24 "bloom count"
               | None => sret tt
               end) in
    let! _ := prob_fsync file in
    sret (if (any_new : bool) then 1 else 0)).

Definition bloom_file_madd (path : string) (elements : list bytes) : World -> reply (list Z) * World :=
  with_sidecar open_random_rw_locked path (fun file =>
    let! (num_bits, num_hashes, count) := file_read_header file in
    let! (offsets, (results, touched, count)) := stage_batch file num_bits num_hashes count elements in
    if forallb (Z.eqb 0) results then sret results else
    let! _ := bloom_store_touched_bytes file offsets touched in
    let! _ := write_all_at file (le_bytes 8 count) 24 "bloom count" in
    let! _ := prob_fsync file in
    sret results).

(** The variants with a token. *)
Definition bloom_file_madd_at (path receipt_path : string) (elements : list bytes) (mutation_index mutation_ordinal : Z) : World -> reply (list Z) * World :=
  let token := mkMutationToken mutation_index mutation_ordinal in
  if token_eqb token ZERO then fun w => (ReplyError "bloom mutation token must be non-zero", w) else
  with_sidecar open_random_rw_locked path (fun file =>
    let! (num_bits, num_hashes, _) := file_read_header file in
    bloom_transactional_madd file receipt_path num_bits num_hashes elements token).

Definition bloom_file_add_at (path receipt_path : string) (element : bytes) (mutation_index mutation_ordinal : Z) : World -> reply Z * World :=
  let token := mkMutationToken mutation_index mutation_ordinal in
  if token_eqb token ZERO then fun w => (ReplyError "bloom mutation token must be non-zero", w) else
  with_sidecar open_random_rw_locked path (fun file =>
    let! (num_bits, num_hashes, _) := file_read_header file in
    let! results := bloom_transactional_madd file receipt_path num_bits num_hashes [element] token in
    slift (unwrap (head results))).

(** Whether every bit is set; stops at the first that is not. *)
Fixpoint test_bits (file : string) (positions : list Z) : SR World bool :=
  match positions with
  | [] => sret true
  | position :: positions =>
      let! b := bloom_read_byte file (bit_offset position) in
      if negb (has_mask b (bit_mask position)) then sret false else test_bits file positions
  end.

Definition exists_body (element : bytes) (file : string) : SR World Z :=
  let! (num_bits, num_hashes, _) := file_read_header file in
  let! found := test_bits file (file_hash_positions element num_bits num_hashes) in
  sret (if (found : bool) then 1 else 0).
Definition bloom_file_exists (path : string) (element : bytes) : World -> reply Z * World := with_sidecar open_random_read_locked path (exists_body element).
Definition bloom_file_exists_async (path : string) (element : bytes) : SR World Z := with_sidecar_task path (exists_body element).

Fixpoint test_elements (file : string) (num_bits num_hashes : Z) (elements : list bytes) : SR World (list Z) :=
  match elements with
  | [] => sret []
  | element :: elements =>
      let! found := test_bits file (file_hash_positions element num_bits num_hashes) in
      let! results := test_elements file num_bits num_hashes elements in
      sret ((if (found : bool) then 1 else 0) :: results)
  end.
Definition mexists_body (elements : list bytes) (file : string) : SR World (list Z) :=
  let! (num_bits, num_hashes, _) := file_read_header file in
  let! _ := slift (validate_bloom_batch_work (len elements) num_hashes) in
  test_elements file num_bits num_hashes elements.
Definition bloom_file_mexists (path : string) (elements : list bytes) : World -> reply (list Z) * World := with_sidecar open_random_read_locked path (mexists_body elements).
Definition bloom_file_mexists_async (path : string) (elements : list bytes) : SR World (list Z) := with_sidecar_task path (mexists_body elements).

Definition card_body (file : string) : SR World Z :=
  let! (_, _, count) := file_read_header file in
  sret count.
Definition bloom_file_card (path : string) : World -> reply Z * World := with_sidecar open_random_read_locked path card_body.
Definition bloom_file_card_async (path : string) : SR World Z := with_sidecar_task path card_body.

Definition info_body (file : string) : SR World (Z * Z * Z) :=
  let! (num_bits, num_hashes, count) := file_read_header file in
  sret (num_bits, count, num_hashes).
Definition bloom_file_info (path : string) : World -> reply (Z * Z * Z) * World := with_sidecar open_random_read_locked path info_body.
Definition bloom_file_info_async (path : string) : SR World (Z * Z * Z) := with_sidecar_task path info_body.
End Bloom.
