(* ===== verification/BloomProof.v ===== *)
(** * What the operations on Bloom filters do

    [bit data p] is bit [p] of a filter's file, [set_bits data ps] the file with the bits
    [ps] set.  Adding elements one by one and adding them in a batch, with its cache of
    touched bytes and its runs, both come down to [set_bits] and one counter. *)

From Stdlib Require Import ZArith Lia.
From stdpp Require Import gmap strings sorting.
From S2P Require Import Prelude Bytes Crc Sidecar ProbTxn ProbTxnProof Bloom.

(** ** Bits of a byte *)

Lemma land_pow2 a i : 0 <= i -> (Z.land a (Z.shiftl 1 i) =? 0) = negb (Z.testbit a i).
Proof.
  intros Hi. rewrite Z.shiftl_1_l. destruct (Z.testbit a i) eqn:E; cbn [negb].
  - apply Z.eqb_neq. intros H. apply (f_equal (fun z => Z.testbit z i)) in H. rewrite Z.land_spec, Z.pow2_bits_true, E, Z.bits_0 in H by done. done.
  - apply Z.eqb_eq. apply Z.bits_inj'. intros j Hj. rewrite Z.land_spec, Z.bits_0, Z.pow2_bits_eqb by done.
    destruct (Z.eqb_spec i j) as [<-|]; [by rewrite E|apply andb_false_r].
Qed.

Lemma has_mask_testbit b i : 0 <= i -> has_mask b (Z.shiftl 1 i) = Z.testbit (byte_val b) i.
Proof. intros Hi. unfold has_mask. rewrite land_pow2 by done. apply negb_involutive. Qed.

Lemma byte_val_or_mask b i : 0 <= i < 8 -> byte_val (or_mask b (Z.shiftl 1 i)) = Z.lor (byte_val b) (Z.shiftl 1 i).
Proof.
  intros Hi. unfold or_mask. rewrite byte_val_of. apply Z.mod_small. pose proof (byte_val_range b). rewrite Z.shiftl_1_l.
  split; [apply Z.lor_nonneg; lia|]. change 256 with (2 ^ 8). apply Z.log2_lt_cancel. rewrite Z.log2_lor by lia. rewrite !Z.log2_pow2 by lia.
  apply Z.max_lub_lt; [|lia]. destruct (Z.eq_dec (byte_val b) 0) as [->|]; [done|]. apply Z.log2_lt_pow2; lia.
Qed.

Lemma has_mask_or b i j : 0 <= i < 8 -> 0 <= j -> has_mask (or_mask b (Z.shiftl 1 i)) (Z.shiftl 1 j) = (i =? j) || has_mask b (Z.shiftl 1 j).
Proof.
  intros Hi Hj. rewrite !has_mask_testbit by done. rewrite byte_val_or_mask, Z.lor_spec, Z.shiftl_1_l, Z.pow2_bits_eqb by lia. apply orb_comm.
Qed.

Lemma or_mask_id b i : 0 <= i < 8 -> has_mask b (Z.shiftl 1 i) = true -> or_mask b (Z.shiftl 1 i) = b.
Proof.
  intros Hi H. apply byte_val_inj. rewrite byte_val_or_mask by done. rewrite has_mask_testbit in H by lia. apply Z.bits_inj'. intros j Hj.
  rewrite Z.lor_spec, Z.shiftl_1_l, Z.pow2_bits_eqb by lia. destruct (Z.eqb_spec i j) as [<-|]; [by rewrite H|apply orb_false_r].
Qed.

(** ** Bits of a file *)

Definition byte_at (data : bytes) (offset : Z) : byte := default x00 (data !! Z.to_nat offset).
Definition bit (data : bytes) (p : Z) : bool := has_mask (byte_at data (bit_offset p)) (bit_mask p).
Definition set_bit (data : bytes) (p : Z) : bytes := overwrite data (bit_offset p) [or_mask (byte_at data (bit_offset p)) (bit_mask p)].
Definition set_bits (data : bytes) (ps : list Z) : bytes := foldl set_bit data ps.
Definition with_count (data : bytes) (count : Z) : bytes := overwrite data 24 (le_bytes 8 count).

(** Positions whose byte the file has. *)
Definition in_file (data : bytes) (p : Z) : Prop := 0 <= p /\ bit_offset p < len data.

Lemma bit_offset_range p : 0 <= p -> 32 <= bit_offset p.
Proof. intros H. unfold bit_offset, BLOOM_HEADER_SIZE. pose proof (Z.div_pos p 8). lia. Qed.

Lemma in_file_len data data' p : len data' = len data -> in_file data p -> in_file data' p.
Proof. unfold in_file. by intros ->. Qed.

Lemma len_set_bit data p : in_file data p -> len (set_bit data p) = len data.
Proof. intros [H0 Hl]. pose proof (bit_offset_range p H0). unfold set_bit. rewrite len_overwrite by lia. rewrite len_cons, len_nil. lia. Qed.

Lemma byte_at_overwrite1 data o b o' : 0 <= o < len data -> 0 <= o' -> byte_at (overwrite data o [b]) o' = if o =? o' then b else byte_at data o'.
Proof.
  intros Ho Ho'. unfold byte_at. rewrite overwrite_lookup by (rewrite ?len_cons, ?len_nil; lia). rewrite len_cons, len_nil, Z2Nat.id by done.
  destruct (Z.eqb_spec o o') as [<-|]; [rewrite decide_True by lia; by rewrite Z.sub_diag|by rewrite decide_False by lia].
Qed.

Lemma same_bit p q : 0 <= p -> 0 <= q -> bit_offset p = bit_offset q -> (p mod 8 =? q mod 8) = (p =? q).
Proof.
  intros Hp Hq E. unfold bit_offset in E. pose proof (Z.div_mod p 8). pose proof (Z.div_mod q 8).
  destruct (Z.eqb_spec (p mod 8) (q mod 8)), (Z.eqb_spec p q); lia || congruence.
Qed.

Lemma bit_set_bit data p q : in_file data p -> 0 <= q -> bit (set_bit data p) q = (p =? q) || bit data q.
Proof.
  intros [Hp Hl] Hq. pose proof (bit_offset_range p Hp). pose proof (bit_offset_range q Hq). unfold bit, set_bit. rewrite byte_at_overwrite1 by lia.
  pose proof (Z.mod_pos_bound p 8). pose proof (Z.mod_pos_bound q 8). unfold bit_mask in *. destruct (Z.eqb_spec (bit_offset p) (bit_offset q)) as [E|E].
  - rewrite has_mask_or by lia. rewrite same_bit by done. by rewrite E.
  - destruct (Z.eqb_spec p q) as [->|]; [done|]. done.
Qed.

Lemma set_bit_id data p : in_file data p -> bit data p = true -> set_bit data p = data.
Proof.
  intros [Hp Hl] Hb. pose proof (bit_offset_range p Hp). unfold set_bit. unfold bit, bit_mask in Hb. pose proof (Z.mod_pos_bound p 8).
  unfold bit_mask. rewrite or_mask_id by (try done; lia). apply list_eq. intros n. rewrite overwrite_lookup by (rewrite ?len_cons, ?len_nil; lia).
  rewrite len_cons, len_nil. destruct (decide _) as [Hn|]; [|done]. assert (Z.of_nat n = bit_offset p) as E by lia. rewrite E, Z.sub_diag. cbn.
  unfold byte_at. rewrite <- E, Nat2Z.id. destruct (data !! n) eqn:El; [done|]. apply lookup_ge_None in El. unfold len in Hl. lia.
Qed.

Lemma len_set_bits ps : forall data, Forall (in_file data) ps -> len (set_bits data ps) = len data.
Proof.
  induction ps as [|p ps IH]; intros data Hf; [done|]. apply Forall_cons in Hf as [Hp Hf]. change (len (set_bits (set_bit data p) ps) = len data).
  rewrite IH; [by apply len_set_bit|]. eapply Forall_impl; [exact Hf|]. intros q. apply in_file_len. by apply len_set_bit.
Qed.

Lemma in_file_set_bits data ps qs : Forall (in_file data) ps -> Forall (in_file data) qs -> Forall (in_file (set_bits data ps)) qs.
Proof. intros Hp Hq. eapply Forall_impl; [exact Hq|]. intros q. apply in_file_len. by apply len_set_bits. Qed.

Lemma set_bits_app data ps qs : set_bits data (ps ++ qs) = set_bits (set_bits data ps) qs.
Proof. apply foldl_app. Qed.

Lemma bit_set_bits q ps : 0 <= q -> forall data, Forall (in_file data) ps -> bit (set_bits data ps) q = existsb (Z.eqb q) ps || bit data q.
Proof.
  intros Hq. induction ps as [|p ps IH]; intros data Hf; [done|]. pose proof Hf as [Hp Hf']%Forall_cons. change (bit (set_bits (set_bit data p) ps) q = existsb (Z.eqb q) (p :: ps) || bit data q).
  rewrite IH by (eapply (in_file_set_bits data [p]); [by constructor|done]). rewrite bit_set_bit by done. cbn [existsb]. rewrite (Z.eqb_sym q p). by destruct (p =? q), (existsb (Z.eqb q) ps).
Qed.

(** ** The counter *)

Lemma overwrite_comm data o1 b1 o2 b2 : 0 <= o1 -> o1 + len b1 <= o2 -> o2 + len b2 <= len data ->
  overwrite (overwrite data o1 b1) o2 b2 = overwrite (overwrite data o2 b2) o1 b1.
Proof.
  intros H1 H2 H3. pose proof (len_nonneg b1). pose proof (len_nonneg b2). apply list_eq. intros n.
  rewrite !overwrite_lookup by (rewrite ?len_overwrite by lia; lia).
  destruct (decide (o2 <= Z.of_nat n < o2 + len b2)); destruct (decide (o1 <= Z.of_nat n < o1 + len b1)); done || lia.
Qed.

Lemma overwrite_twice data o b1 b2 : 0 <= o -> o + len b1 <= len data -> len b1 = len b2 -> overwrite (overwrite data o b1) o b2 = overwrite data o b2.
Proof.
  intros H1 H2 H3. pose proof (len_nonneg b1). apply list_eq. intros n. rewrite !overwrite_lookup by (rewrite ?len_overwrite by lia; lia).
  rewrite H3. by destruct (decide (o <= Z.of_nat n < o + len b2)).
Qed.

Lemma len_with_count data c : 32 <= len data -> len (with_count data c) = len data.
Proof. intros H. unfold with_count. rewrite len_overwrite, len_le_bytes by lia. lia. Qed.

Lemma with_count_twice data c c' : 32 <= len data -> with_count (with_count data c) c' = with_count data c'.
Proof. intros H. unfold with_count. apply overwrite_twice; rewrite ?len_le_bytes; lia. Qed.

Lemma with_count_id data c : 32 <= len data -> zslice data 24 32 = le_bytes 8 c -> with_count data c = data.
Proof.
  intros H E. unfold with_count. rewrite overwrite_eq, <- E, len_zslice by lia. replace (24 + (32 - 24)) with 32 by lia. unfold zslice. rewrite app_assoc.
  replace 32 with (24 + 8) at 2 by done. rewrite <- (zdrop_zdrop 8 24) by lia. rewrite <- app_assoc. rewrite ztake_zdrop. apply ztake_zdrop.
Qed.

Lemma byte_at_with_count data c o : 32 <= len data -> 32 <= o -> byte_at (with_count data c) o = byte_at data o.
Proof.
  intros H Ho. unfold byte_at, with_count. rewrite overwrite_lookup by (rewrite ?len_le_bytes; lia). rewrite len_le_bytes, decide_False by lia. done.
Qed.

Lemma bit_with_count data c p : 32 <= len data -> 0 <= p -> bit (with_count data c) p = bit data p.
Proof. intros H Hp. unfold bit. rewrite byte_at_with_count; [done|done|]. by apply bit_offset_range. Qed.

Lemma in_file_len32 data p : in_file data p -> 32 <= len data.
Proof. intros [H0 Hl]. pose proof (bit_offset_range p H0). lia. Qed.

Lemma set_bit_with_count data c p : in_file data p -> set_bit (with_count data c) p = with_count (set_bit data p) c.
Proof.
  intros Hf. pose proof (in_file_len32 _ _ Hf). destruct Hf as [Hp Hl]. pose proof (bit_offset_range p Hp). unfold set_bit. rewrite byte_at_with_count by lia.
  unfold with_count. apply overwrite_comm; rewrite ?len_le_bytes, ?len_cons, ?len_nil; lia.
Qed.

Lemma set_bits_with_count c ps : forall data, 32 <= len data -> Forall (in_file data) ps -> set_bits (with_count data c) ps = with_count (set_bits data ps) c.
Proof.
  induction ps as [|p ps IH]; intros data Hl Hf; [done|]. pose proof Hf as [Hp Hf']%Forall_cons. change (set_bits (set_bit (with_count data c) p) ps = with_count (set_bits (set_bit data p) ps) c).
  rewrite set_bit_with_count by done. apply IH; [by rewrite len_set_bit|]. eapply (in_file_set_bits data [p]); [by constructor|done].
Qed.

(** ** Filter files *)

Record bloom_file (data : bytes) (nb nh c : Z) : Prop := {
  bf_magic : zslice data 0 8 = le_bytes 8 BLOOM_MAGIC;
  bf_bits : zslice data 8 16 = le_bytes 8 nb;
  bf_hashes : zslice data 16 20 = le_bytes 4 nh;
  bf_reserved : zslice data 20 24 = replicate 4 x00;
  bf_count : zslice data 24 32 = le_bytes 8 c;
  bf_nb : 0 < nb <= MAX_BLOOM_BITS;
  bf_nh : 0 < nh <= MAX_NUM_HASHES;
  bf_c : 0 <= c <= nb;
  bf_len : len data = BLOOM_HEADER_SIZE + (nb + 7) / 8 + TOKEN_SIZE;
}.

Definition bits_end (nb : Z) : Z := BLOOM_HEADER_SIZE + (nb + 7) / 8.

Lemma byte_count_range nb : 0 < nb <= MAX_BLOOM_BITS -> 0 < (nb + 7) / 8 <= MAX_BLOOM_BYTES.
Proof. unfold MAX_BLOOM_BITS, MAX_BLOOM_BYTES. intros H. Z.to_euclidean_division_equations. lia. Qed.

Lemma token_offset_ok nb : 0 < nb <= MAX_BLOOM_BITS -> bloom_mutation_token_offset nb = Ok (bits_end nb).
Proof.
  intros H. pose proof (byte_count_range nb H) as Hb. unfold bloom_mutation_token_offset. rewrite (proj2 (Z.ltb_ge _ _)) by lia.
  unfold checked_add64, BLOOM_HEADER_SIZE, u64_max, MAX_BLOOM_BYTES in *. by rewrite (proj2 (Z.leb_le _ _)) by lia.
Qed.

Lemma file_size_ok nb : 0 < nb <= MAX_BLOOM_BITS -> bloom_file_size nb = Ok (bits_end nb + TOKEN_SIZE).
Proof.
  intros H. pose proof (byte_count_range nb H) as Hb. unfold bloom_file_size. rewrite token_offset_ok by done. cbn [rbind].
  unfold checked_add64, bits_end, BLOOM_HEADER_SIZE, u64_max, MAX_BLOOM_BYTES, TOKEN_SIZE in *. by rewrite (proj2 (Z.leb_le _ _)) by lia.
Qed.

Lemma in_file_positions data nb nh c p : bloom_file data nb nh c -> 0 <= p < nb -> in_file data p.
Proof.
  intros Hf Hp. split; [lia|]. rewrite (bf_len _ _ _ _ Hf). unfold bit_offset, TOKEN_SIZE. assert (p / 8 < (nb + 7) / 8); [|lia]. Z.to_euclidean_division_equations. lia.
Qed.

Lemma bloom_file_len32 data nb nh c : bloom_file data nb nh c -> 32 <= len data.
Proof. intros Hf. rewrite (bf_len _ _ _ _ Hf). pose proof (byte_count_range nb (bf_nb _ _ _ _ Hf)). unfold BLOOM_HEADER_SIZE, TOKEN_SIZE. lia. Qed.

Lemma read_header_healthy file files data nb nh c : files !! file = Some data -> bloom_file data nb nh c ->
  file_read_header file (mkWorld files []) = (Ok (nb, nh, c), mkWorld files []).
Proof.
  intros Ed Hf. pose proof (bloom_file_len32 _ _ _ _ Hf) as Hl. pose proof Hf as [H1 H2 H3 H4 H5 Hnb Hnh Hc Hlen]. unfold file_read_header, bloom_read_exact_at.
  rewrite (sbind_Ok _ _ _ _ _ (read_exact_at_healthy "bloom file" file BLOOM_HEADER_SIZE 0 "header" files data (zslice data 0 32) Ed (get_range_Some data 0 32 ltac:(lia) ltac:(lia) ltac:(lia)))).
  rewrite !zslice_header by lia. rewrite H1, H2, H3, H4, H5. unfold MAX_BLOOM_BITS, MAX_BLOOM_BYTES, MAX_NUM_HASHES in *.
  rewrite !le_val_u64, le_val_u32 by (unfold u64_ok, u32_ok, u64_max, u32_max, BLOOM_MAGIC; lia). rewrite Z.eqb_refl. cbn [negb].
  rewrite (proj2 (Z.eqb_neq nb 0)) by lia. change (existsb (fun b => negb (byte_val b =? 0)) (replicate 4 x00)) with false. cbv iota. rewrite (proj2 (Z.ltb_ge nb c)) by lia.
  rewrite file_size_ok by (unfold MAX_BLOOM_BITS, MAX_BLOOM_BYTES; lia). rewrite sbind_slift_Ok. rewrite (proj2 (Z.eqb_neq nh 0)) by lia. unfold MAX_NUM_HASHES. rewrite (proj2 (Z.ltb_ge _ nh)) by lia.
  rewrite (sbind_Ok _ _ _ _ _ (metadata_healthy _ file files data Ed)). rewrite Hlen. change (bits_end nb + TOKEN_SIZE) with (BLOOM_HEADER_SIZE + (nb + 7) / 8 + TOKEN_SIZE). by rewrite Z.eqb_refl.
Qed.

(** ** Adding one element *)

Lemma set_bits_before ps a b : 0 <= a -> b <= 32 -> forall data, Forall (in_file data) ps -> zslice (set_bits data ps) a b = zslice data a b.
Proof.
  intros Ha Hb. induction ps as [|p ps IH]; intros data Hf; [done|]. pose proof Hf as [Hp Hf']%Forall_cons. change (zslice (set_bits (set_bit data p) ps) a b = zslice data a b).
  rewrite IH by (eapply (in_file_set_bits data [p]); [by constructor|done]). destruct Hp as [Hp Hl]. pose proof (bit_offset_range p Hp). unfold set_bit. apply overwrite_before; lia.
Qed.

Lemma bloom_file_updated data nb nh c ps c' : bloom_file data nb nh c -> Forall (in_file data) ps -> 0 <= c' <= nb -> bloom_file (with_count (set_bits data ps) c') nb nh c'.
Proof.
  intros Hf Hps Hc'. pose proof (bloom_file_len32 _ _ _ _ Hf). pose proof (len_set_bits ps data Hps) as Hl. destruct Hf as [H1 H2 H3 H4 H5 Hnb Hnh Hc Hlen].
  assert (forall a b, 0 <= a -> b <= 24 -> zslice (with_count (set_bits data ps) c') a b = zslice data a b) as Hs.
  { intros a b Ha Hb. unfold with_count. rewrite overwrite_before by lia. apply set_bits_before; [done|lia|done]. }
  split; try done; [by rewrite Hs by lia..| |rewrite len_with_count by lia; lia]. pose proof (overwrite_at (set_bits data ps) 24 (le_bytes 8 c') ltac:(lia)) as E. rewrite len_le_bytes in E. exact E.
Qed.

Lemma read_byte_healthy file files data o : files !! file = Some data -> 0 <= o < len data -> bloom_read_byte file o (mkWorld files []) = (Ok (byte_at data o), mkWorld files []).
Proof.
  intros Ed Ho. unfold bloom_read_byte, bloom_read_exact_at. assert (zslice data o (o + 1) = [byte_at data o]) as E.
  { unfold zslice, byte_at. rewrite Z.add_simpl_l, ztake_take, zdrop_drop. change (Z.to_nat 1) with 1%nat. destruct (data !! Z.to_nat o) as [b|] eqn:El; [by rewrite (drop_S _ _ _ El)|].
    apply lookup_ge_None in El. unfold len in Ho. lia. }
  rewrite (sbind_Ok _ _ _ _ _ (read_exact_at_healthy "bloom file" file 1 o "bit" files data _ Ed (get_range_Some data o (o + 1) ltac:(lia) ltac:(lia) ltac:(lia)))). by rewrite E.
Qed.

Lemma add_bits_healthy file c ps : c + 1 <= u64_max -> forall files data any, files !! file = Some data -> Forall (in_file data) ps ->
  let any' := any || negb (forallb (bit data) ps) in
  add_bits file ps c any (if any then Some (c + 1) else None) (mkWorld files []) = (Ok (any', if any' then Some (c + 1) else None), mkWorld (<[file := set_bits data ps]> files) []).
Proof.
  intros Hc. induction ps as [|p ps IH]; intros files data any Ed Hf; cbn [add_bits forallb].
  { cbv zeta. cbn [negb]. rewrite orb_false_r, insert_id by done. done. }
  pose proof Hf as [Hp Hf']%Forall_cons. pose proof Hp as [Hp0 Hpl]. pose proof (bit_offset_range p Hp0). cbv zeta.
  rewrite (sbind_Ok _ _ _ _ _ (read_byte_healthy file files data (bit_offset p) Ed ltac:(lia))). change (has_mask (byte_at data (bit_offset p)) (bit_mask p)) with (bit data p).
  destruct (bit data p) eqn:Eb; cbn [negb andb].
  - specialize (IH files data any Ed Hf'). cbv zeta in IH. rewrite IH. change (set_bits data (p :: ps)) with (set_bits (set_bit data p) ps). by rewrite set_bit_id.
  - assert ((match (if any then Some (c + 1) else None) with Some next => sret (Some next) | None => let! next := slift (bloom_count_after_add c) in sret (Some next) end) (mkWorld files []) = (Ok (Some (c + 1)), mkWorld files [])) as E1.
    { destruct any; [done|]. unfold bloom_count_after_add, checked_add64. rewrite (proj2 (Z.leb_le _ _) Hc). done. }
    rewrite (sbind_Ok _ _ _ _ _ E1). rewrite (sbind_Ok _ _ _ _ _ (write_all_at_healthy file [or_mask (byte_at data (bit_offset p)) (bit_mask p)] (bit_offset p) "bloom bit" files data Ed ltac:(lia))).
    change (overwrite data (bit_offset p) [or_mask (byte_at data (bit_offset p)) (bit_mask p)]) with (set_bit data p).
    specialize (IH (<[file := set_bit data p]> files) (set_bit data p) true (lookup_insert_eq _ _ _) ltac:(eapply (in_file_set_bits data [p]); [by constructor|done])).
    cbv zeta in IH. cbn [orb] in IH. rewrite IH. rewrite insert_insert_eq, orb_true_r. done.
Qed.

Section Operations.
Context `{C : Crc32fast} `{X : Xxh3}.

Lemma positions_range element nb nh : 0 < nb -> Forall (fun p => 0 <= p < nb) (file_hash_positions element nb nh).
Proof. intros Hn. unfold file_hash_positions. apply Forall_map, Forall_true. intros i. apply Z.mod_pos_bound. done. Qed.

Lemma positions_in_file data nb nh c element : bloom_file data nb nh c -> Forall (in_file data) (file_hash_positions element nb nh).
Proof.
  intros Hf. eapply Forall_impl; [apply positions_range; apply (bf_nb _ _ _ _ Hf)|]. intros p. by apply (in_file_positions data nb nh c).
Qed.

Lemma set_bits_all ps : forall data, Forall (in_file data) ps -> forallb (bit data) ps = true -> set_bits data ps = data.
Proof.
  induction ps as [|p ps IH]; intros data Hf Hb; [done|]. pose proof Hf as [Hp Hf']%Forall_cons. cbn [forallb] in Hb. apply andb_true_iff in Hb as [Hb1 Hb2].
  change (set_bits (set_bit data p) ps = data). rewrite set_bit_id by done. by apply IH.
Qed.

(** Whether adding the positions sets a new bit. *)
Definition is_new (data : bytes) (ps : list Z) : Z := if forallb (bit data) ps then 0 else 1.

Lemma count_fits data nb nh c : bloom_file data nb nh c -> c + 1 <= u64_max.
Proof. intros Hf. pose proof (bf_c _ _ _ _ Hf). pose proof (bf_nb _ _ _ _ Hf). unfold MAX_BLOOM_BITS, MAX_BLOOM_BYTES, u64_max in *. lia. Qed.

Lemma bloom_add_healthy path files data nb nh c x : files !! path = Some data -> bloom_file data nb nh c ->
  let ps := file_hash_positions x nb nh in
  bloom_file_add path x (mkWorld files []) = (ReplyOk (is_new data ps), mkWorld (<[path := with_count (set_bits data ps) (c + is_new data ps)]> files) []).
Proof.
  intros Ed Hf ps. unfold bloom_file_add. rewrite (proj1 (with_sidecar_healthy path files data _ Ed)).
  rewrite (sbind_Ok _ _ _ _ _ (read_header_healthy path files data nb nh c Ed Hf)). fold ps. pose proof (positions_in_file data nb nh c x Hf) as Hps. fold ps in Hps.
  pose proof (add_bits_healthy path c ps (count_fits _ _ _ _ Hf) files data false Ed Hps) as Ea. cbv zeta in Ea. cbn [orb] in Ea. rewrite (sbind_Ok _ _ _ _ _ Ea).
  unfold is_new. destruct (forallb (bit data) ps) eqn:Eall; cbn [negb].
  - unfold sret at 1. unfold sbind at 1. rewrite (sbind_Ok _ _ _ _ _ (fsync_healthy path _)). cbn [reply_of sret]. rewrite Z.add_0_r, set_bits_all by done.
    rewrite with_count_id; [done|by eapply bloom_file_len32|apply (bf_count _ _ _ _ Hf)].
  - pose proof (bloom_file_len32 _ _ _ _ Hf). pose proof (len_set_bits ps data Hps).
    rewrite (sbind_Ok _ _ _ _ _ (write_all_at_healthy path (le_bytes 8 (c + 1)) 24 "bloom count" _ (set_bits data ps) (lookup_insert_eq _ _ _) ltac:(lia))).
    rewrite (sbind_Ok _ _ _ _ _ (fsync_healthy path _)). cbn [reply_of sret]. by rewrite insert_insert_eq.
Qed.

(** ** Runs *)

Definition consecutive (run : list Z) : Prop := run <> [] /\ run = seqZ (run_start run) (len run).

Lemma seqZ_step s n : 0 <= n -> seqZ s (n + 1) = s :: seqZ (s + 1) n.
Proof. intros Hn. rewrite seqZ_cons by lia. do 2 f_equal; lia. Qed.

Lemma take_run_spec offsets : forall prev run rest, 0 <= prev -> Forall (fun o => 0 <= o < u64_max) offsets -> prev < u64_max -> take_run prev offsets = (run, rest) ->
  offsets = run ++ rest /\ run = seqZ (prev + 1) (len run).
Proof.
  induction offsets as [|o offsets IH]; intros prev run rest Hp Hf Hu; cbn [take_run]; [by intros [= <- <-]|]. apply Forall_cons in Hf as [Ho Hf].
  rewrite add64_small by lia. destruct (Z.eqb_spec o (prev + 1)) as [->|]; [|by intros [= <- <-]].
  destruct (take_run (prev + 1) offsets) as [run' rest'] eqn:E. intros [= <- <-]. apply IH in E as [-> E]; [|lia|done|lia]. split; [done|].
  rewrite len_cons, seqZ_step by apply len_nonneg. by rewrite <- E.
Qed.

Lemma runs_loop_spec fuel : forall offsets, (length offsets <= fuel)%nat -> Forall (fun o => 0 <= o < u64_max) offsets ->
  concat (runs_loop fuel offsets) = offsets /\ Forall consecutive (runs_loop fuel offsets).
Proof.
  induction fuel as [|fuel IH]; intros [|o offsets] Hl Hf; cbn [runs_loop length] in *; [done|lia|done|]. apply Forall_cons in Hf as [Ho Hf].
  destruct (take_run o offsets) as [run rest] eqn:E. apply take_run_spec in E as [-> E]; [|lia|done|lia]. apply Forall_app in Hf as [_ Hf]. rewrite length_app in Hl.
  destruct (IH rest ltac:(lia) Hf) as [Ec Hc]. cbn [concat]. rewrite Ec. split; [done|]. constructor; [|done]. split; [done|]. cbn [run_start].
  rewrite len_cons, seqZ_step by apply len_nonneg. by rewrite <- E.
Qed.

Lemma runs_spec offsets : Forall (fun o => 0 <= o < u64_max) offsets -> concat (runs offsets) = offsets /\ Forall consecutive (runs offsets).
Proof. intros Hf. by apply runs_loop_spec. Qed.

(** ** The cache of touched bytes *)

Definition covered (data : bytes) (o : Z) : Prop := 0 <= o < len data.

(** The cache holds, for each touched offset, the byte of [data0] and that of [data]; the
    files agree elsewhere. *)
Record cached (data0 data : bytes) (touched : Touched) : Prop := {
  ca_len : len data = len data0;
  ca_in : forall o b, touched !! o = Some b -> covered data0 o /\ b = (byte_at data0 o, byte_at data o);
  ca_out : forall o, touched !! o = None -> 0 <= o -> byte_at data o = byte_at data0 o;
}.

Lemma slice_bytes (n : nat) : forall data o, 0 <= o -> o + Z.of_nat n <= len data -> zslice data o (o + Z.of_nat n) = map (byte_at data) (seqZ o (Z.of_nat n)).
Proof.
  induction n as [|n IH]; intros data o Ho Hl.
  { unfold zslice. by rewrite ztake_0 by lia. }
  rewrite Nat2Z.inj_succ, <- Z.add_1_r in *. rewrite seqZ_step by lia. cbn [map]. rewrite <- (zslice_join data o (o + 1)) by lia.
  replace (o + (Z.of_nat n + 1)) with (o + 1 + Z.of_nat n) by lia. rewrite IH by lia. change (byte_at data o :: ?l) with ([byte_at data o] ++ l). f_equal.
  unfold zslice, byte_at. rewrite Z.add_simpl_l, ztake_take, zdrop_drop. change (Z.to_nat 1) with 1%nat. destruct (data !! Z.to_nat o) as [b|] eqn:El; [by rewrite (drop_S _ _ _ El)|].
  apply lookup_ge_None in El. unfold len in Hl. lia.
Qed.

Lemma consecutive_slice data run : consecutive run -> Forall (covered data) run -> zslice data (run_start run) (run_start run + len run) = map (byte_at data) run /\ 0 <= run_start run /\ run_start run + len run <= len data.
Proof.
  intros [Hne E] Hc. assert (0 <= run_start run /\ run_start run + len run <= len data) as [H1 H2].
  { pose proof (len_nonneg run). assert (0 < len run) by (destruct run; [done|rewrite len_cons; pose proof (len_nonneg run); lia]). rewrite Forall_forall in Hc.
    assert (forall o, run_start run <= o < run_start run + len run -> covered data o) as Ho by (intros o Ho; apply Hc; rewrite E; apply elem_of_seqZ; lia).
    destruct (Ho (run_start run) ltac:(lia)). destruct (Ho (run_start run + len run - 1) ltac:(lia)). lia. }
  split; [|done]. etrans; [apply (slice_bytes (length run)); unfold len in *; lia|]. f_equal. symmetry. exact E.
Qed.

Lemma insert_run_lookup data run : forall touched o, insert_run run (map (byte_at data) run) touched !! o = if decide (o ∈ run) then Some (byte_at data o, byte_at data o) else touched !! o.
Proof.
  induction run as [|r run IH]; intros touched o; [by rewrite decide_False by (by intros ?%elem_of_nil)|]. unfold insert_run. cbn [map zip zip_with foldl].
  change (insert_run run (map (byte_at data) run) (<[r := (byte_at data r, byte_at data r)]> touched) !! o = if decide (o ∈ r :: run) then Some (byte_at data o, byte_at data o) else touched !! o).
  rewrite IH. destruct (decide (o ∈ run)); [by rewrite decide_True by (by right)|]. destruct (decide (o = r)) as [->|].
  - rewrite lookup_insert_eq, decide_True by (by left). done.
  - rewrite lookup_insert_ne, decide_False by (try congruence; by intros [?|?]%elem_of_cons). done.
Qed.

Lemma load_runs_healthy file files data rs : files !! file = Some data -> forall touched, Forall consecutive rs -> Forall (covered data) (concat rs) ->
  exists touched', load_runs file rs touched (mkWorld files []) = (Ok touched', mkWorld files []) /\
    forall o, touched' !! o = if decide (o ∈ concat rs) then Some (byte_at data o, byte_at data o) else touched !! o.
Proof.
  intros Ed. induction rs as [|run rs IH]; intros touched Hr Hc; cbn [load_runs concat] in *.
  { exists touched. split; [done|]. intros o. by rewrite decide_False by (by intros ?%elem_of_nil). }
  apply Forall_cons in Hr as [Hrun Hr]. apply Forall_app in Hc as [Hc1 Hc2]. destruct (consecutive_slice data run Hrun Hc1) as (Es & H1 & H2). pose proof (len_nonneg run).
  unfold bloom_read_exact_at. rewrite (sbind_Ok _ _ _ _ _ (read_exact_at_healthy "bloom file" file (len run) (run_start run) "bit run" files data _ Ed (get_range_Some data (run_start run) (run_start run + len run) ltac:(lia) ltac:(lia) ltac:(lia)))).
  rewrite Es. destruct (IH (insert_run run (map (byte_at data) run) touched) Hr Hc2) as (touched' & E & Hl). exists touched'. split; [done|]. intros o. rewrite Hl, insert_run_lookup.
  destruct (decide (o ∈ concat rs)); [by rewrite decide_True by (apply elem_of_app; by right)|]. destruct (decide (o ∈ run)); [by rewrite decide_True by (apply elem_of_app; by left)|].
  rewrite decide_False; [done|]. by intros [?|?]%elem_of_app.
Qed.

Lemma sorted_keys_elem touched o : o ∈ sorted_keys touched <-> is_Some (touched !! o).
Proof. unfold sorted_keys. rewrite merge_sort_Permutation, elem_of_elements. apply elem_of_dom. Qed.

Lemma touch_dom touched offset o : is_Some (touch touched offset !! o) <-> is_Some (touched !! o) \/ o = offset.
Proof.
  unfold touch. destruct (touched !! offset) eqn:E.
  - split; [by left|]. intros [?| ->]; [done|by rewrite E].
  - destruct (decide (o = offset)) as [->|]; [rewrite lookup_insert_eq; split; [by right|done]|]. rewrite lookup_insert_ne by done. split; [by left|]. by intros [?|?].
Qed.
Lemma touch_all_dom masks o : is_Some (touch_all masks !! o) <-> o ∈ map fst (concat masks).
Proof.
  unfold touch_all. generalize (map fst (concat masks)) as l. intros l. assert (forall t : Touched, is_Some (foldl touch t l !! o) <-> is_Some (t !! o) \/ o ∈ l) as H.
  { induction l as [|x l IH]; intros t; cbn [foldl]; [rewrite elem_of_nil; tauto|]. rewrite IH, touch_dom, elem_of_cons. tauto. }
  rewrite H, lookup_empty, is_Some_alt. cbn. tauto.
Qed.

(** ** Setting bits in the cache *)

Lemma elem_of_concat {A : Type} (x : A) ls : x ∈ concat ls <-> exists l, x ∈ l /\ l ∈ ls.
Proof. rewrite list_elem_of_In, in_concat. split; intros (l & H1 & H2); exists l; by rewrite ?list_elem_of_In in *. Qed.


Definition masks_of (ps : list Z) : list (Z * Z) := map (fun p => (bit_offset p, bit_mask p)) ps.

Lemma cached_set_bit data0 data touched p b : cached data0 data touched -> in_file data p -> touched !! bit_offset p = Some b ->
  cached data0 (set_bit data p) (<[bit_offset p := (b.1, or_mask b.2 (bit_mask p))]> touched).
Proof.
  intros [Hl Hin Hout] Hp E. pose proof Hp as [Hp0 Hpl]. pose proof (bit_offset_range p Hp0). destruct (Hin _ _ E) as [Hc ->]. cbn [fst snd]. split.
  - by rewrite len_set_bit.
  - intros o b. destruct (decide (o = bit_offset p)) as [->|].
    + rewrite lookup_insert_eq. intros [= <-]. split; [done|]. f_equal. unfold set_bit. by rewrite byte_at_overwrite1, Z.eqb_refl by lia.
    + rewrite lookup_insert_ne by done. intros Eo. destruct (Hin _ _ Eo) as [Ho ->]. split; [done|]. f_equal. unfold set_bit. destruct Ho. rewrite byte_at_overwrite1 by lia.
      by rewrite (proj2 (Z.eqb_neq _ _)) by congruence.
  - intros o Eo Ho. destruct (decide (o = bit_offset p)) as [->|]; [by rewrite lookup_insert_eq in Eo|]. rewrite lookup_insert_ne in Eo by done.
    unfold set_bit. rewrite byte_at_overwrite1 by lia. rewrite (proj2 (Z.eqb_neq _ _)) by congruence. by apply Hout.
Qed.

Lemma set_masks_spec data0 ps : forall data touched any, cached data0 data touched -> Forall (in_file data) ps -> Forall (fun p => is_Some (touched !! bit_offset p)) ps ->
  exists touched', set_masks (masks_of ps) touched any = Ok (touched', any || negb (forallb (bit data) ps)) /\ cached data0 (set_bits data ps) touched' /\
    forall o, is_Some (touched' !! o) <-> is_Some (touched !! o).
Proof.
  induction ps as [|p ps IH]; intros data touched any Hca Hf Hd; cbn [masks_of map set_masks forallb].
  { exists touched. cbn [negb]. by rewrite orb_false_r. }
  pose proof Hf as [Hp Hf']%Forall_cons. apply Forall_cons in Hd as [[b Eb] Hd]. rewrite Eb. cbn [unwrap rbind]. destruct b as [original current]. destruct (ca_in _ _ _ Hca _ _ Eb) as [_ [= -> ->]].
  change (has_mask (byte_at data (bit_offset p)) (bit_mask p)) with (bit data p). fold (masks_of ps). destruct (bit data p) eqn:Ebit; cbn [negb andb].
  - destruct (IH data touched any Hca Hf' Hd) as (t' & E & Hca' & Hdom). exists t'. split; [done|]. split; [|done]. change (set_bits data (p :: ps)) with (set_bits (set_bit data p) ps). by rewrite set_bit_id.
  - pose proof (cached_set_bit _ _ _ _ _ Hca Hp Eb) as Hca1. cbn [fst snd] in Hca1.
    destruct (IH (set_bit data p) (<[bit_offset p := (byte_at data0 (bit_offset p), or_mask (byte_at data (bit_offset p)) (bit_mask p))]> touched) true Hca1) as (t' & E & Hca' & Hdom).
    + eapply (in_file_set_bits data [p]); [by constructor|done].
    + eapply Forall_impl; [exact Hd|]. intros q Hq. destruct (decide (bit_offset q = bit_offset p)) as [->|]; [by rewrite lookup_insert_eq|by rewrite lookup_insert_ne].
    + exists t'. cbn [orb] in E. rewrite orb_true_r. split; [done|]. split; [done|]. intros o. rewrite Hdom.
      destruct (decide (o = bit_offset p)) as [->|]; [by rewrite lookup_insert_eq, Eb|by rewrite lookup_insert_ne].
Qed.

(** The reply to each element of a batch. *)
Fixpoint batch_results (data : bytes) (pss : list (list Z)) : list Z :=
  match pss with
  | [] => []
  | ps :: pss => is_new data ps :: batch_results (set_bits data ps) pss
  end.
Definition total (results : list Z) : Z := foldr Z.add 0 results.

Lemma set_elements_spec data0 pss : forall data touched c, cached data0 data touched -> Forall (in_file data) (concat pss) -> Forall (fun p => is_Some (touched !! bit_offset p)) (concat pss) ->
  c + len pss <= u64_max ->
  exists touched', set_elements (map masks_of pss) touched c = Ok (batch_results data pss, touched', c + total (batch_results data pss)) /\ cached data0 (set_bits data (concat pss)) touched' /\
    forall o, is_Some (touched' !! o) <-> is_Some (touched !! o).
Proof.
  induction pss as [|ps pss IH]; intros data touched c Hca Hf Hd Hc; cbn [map set_elements concat batch_results] in *.
  { exists touched. cbn [total foldr]. by rewrite Z.add_0_r. }
  rewrite len_cons in Hc. pose proof (len_nonneg pss). pose proof Hf as [Hf1 Hf2]%Forall_app. apply Forall_app in Hd as [Hd1 Hd2].
  destruct (set_masks_spec data0 ps data touched false Hca Hf1 Hd1) as (t1 & E1 & Hca1 & Hdom1). rewrite E1. cbn [rbind orb].
  assert ((if negb (forallb (bit data) ps) then bloom_count_after_add c else Ok c) = Ok (c + is_new data ps)) as ->.
  { unfold is_new. destruct (forallb (bit data) ps); cbn [negb]; [by rewrite Z.add_0_r|]. unfold bloom_count_after_add, checked_add64. by rewrite (proj2 (Z.leb_le _ _)) by lia. }
  cbn [rbind]. destruct (IH (set_bits data ps) t1 (c + is_new data ps) Hca1) as (t2 & E2 & Hca2 & Hdom2).
  - by apply in_file_set_bits.
  - eapply Forall_impl; [exact Hd2|]. intros q. cbn beta. apply Hdom1.
  - unfold is_new. destruct (forallb (bit data) ps); lia.
  - rewrite E2. cbn [rbind]. exists t2. split.
    + do 2 f_equal; [f_equal; unfold is_new; by destruct (forallb (bit data) ps)|]. cbn [total foldr]. fold (total (batch_results (set_bits data ps) pss)). lia.
    + split; [by rewrite set_bits_app|]. intros o. by rewrite Hdom2.
Qed.

(** ** Writing the runs back *)

Lemma run_bytes_spec data0 data touched run : cached data0 data touched -> Forall (fun o => is_Some (touched !! o)) run ->
  run_bytes touched run = Ok (map (fun o => (byte_at data0 o, byte_at data o)) run).
Proof.
  intros Hca. induction run as [|o run IH]; intros Hd; [done|]. apply Forall_cons in Hd as [[b Eb] Hd]. cbn [run_bytes map]. unfold touched_at. rewrite Eb. cbn [unwrap rbind].
  rewrite IH by done. cbn [rbind]. by destruct (ca_in _ _ _ Hca _ _ Eb) as [_ ->].
Qed.

Definition image_of (data0 data : bytes) (run : list Z) : option AfterImage :=
  if run_changed (map (fun o => (byte_at data0 o, byte_at data o)) run) then Some (mkAfterImage (run_start run) (map (byte_at data) run)) else None.

Lemma run_images_spec data0 data touched rs : cached data0 data touched -> Forall (fun o => is_Some (touched !! o)) (concat rs) ->
  run_images rs touched = Ok (omap (image_of data0 data) rs).
Proof.
  intros Hca. induction rs as [|run rs IH]; intros Hd; [done|]. cbn [concat] in Hd. apply Forall_app in Hd as [Hd1 Hd2]. cbn [run_images]. rewrite (run_bytes_spec data0 data) by done. cbn [rbind].
  rewrite IH by done. cbn [rbind omap list_omap]. unfold image_of. destruct (run_changed _); [|done]. by rewrite map_map.
Qed.

Lemma store_runs_healthy file data0 data touched rs : cached data0 data touched -> forall files d, files !! file = Some d -> len d = len data0 -> Forall (fun o => is_Some (touched !! o)) (concat rs) -> Forall consecutive rs ->
  store_runs file rs touched (mkWorld files []) = (Ok tt, mkWorld (<[file := patched d (omap (image_of data0 data) rs)]> files) []).
Proof.
  intros Hca. induction rs as [|run rs IH]; intros files d Ed Hl Hd Hc; cbn [store_runs omap list_omap]; [cbn [patched foldl]; by rewrite insert_id|].
  cbn [concat] in Hd. apply Forall_app in Hd as [Hd1 Hd2]. apply Forall_cons in Hc as [Hc1 Hc2]. rewrite (run_bytes_spec data0 data) by done. rewrite sbind_slift_Ok.
  assert (Forall (covered d) run) as Hcov by (eapply Forall_impl; [exact Hd1|]; intros o [b Eb]; destruct (ca_in _ _ _ Hca _ _ Eb) as [[? ?] _]; split; lia).
  destruct (consecutive_slice d run Hc1 Hcov) as (_ & H1 & H2). unfold image_of at 1. destruct (run_changed _); [|by apply IH].
  rewrite map_map. cbn [snd]. rewrite (sbind_Ok _ _ _ _ _ (write_all_at_healthy file (map (byte_at data) run) (run_start run) "bloom bit run" files d Ed ltac:(pose proof (len_nonneg run); lia))).
  rewrite (IH _ (overwrite d (run_start run) (map (byte_at data) run)) (lookup_insert_eq _ _ _)); [by rewrite insert_insert_eq| |done|done].
  rewrite len_overwrite, len_map by (pose proof (len_nonneg run); lia). lia.
Qed.

Lemma byte_at_lookup data (p : nat) : (p < length data)%nat -> data !! p = Some (byte_at data (Z.of_nat p)).
Proof. intros H. unfold byte_at. rewrite Nat2Z.id. apply lookup_lt_is_Some in H as [b ->]. done. Qed.

(** The runs that changed carry [data0] to [data]. *)
Lemma patched_runs data0 data touched rs : cached data0 data touched -> Forall consecutive rs -> (forall o, o ∈ concat rs <-> is_Some (touched !! o)) ->
  patched data0 (omap (image_of data0 data) rs) = data.
Proof.
  intros Hca Hc Hdom. pose proof (ca_len _ _ _ Hca) as Hl. apply patched_to; [done| |].
  - rewrite Forall_forall. intros i (run & Hr & Ei)%list_elem_of_omap. unfold image_of in Ei. destruct (run_changed _); [|done]. injection Ei as <-. rewrite Forall_forall in Hc.
    assert (Forall (covered data) run) as Hcov.
    { rewrite Forall_forall. intros o Ho. assert (is_Some (touched !! o)) as [b Eb] by (apply Hdom, elem_of_concat; eauto). destruct (ca_in _ _ _ Hca _ _ Eb) as [[? ?] _]. split; lia. }
    destruct (consecutive_slice data run (Hc run Hr) Hcov) as (Es & H1 & H2). unfold image_ok. cbn [ai_offset ai_bytes]. rewrite len_map. done.
  - intros p Hp. destruct (decide (p < length data)%nat); [|rewrite !lookup_ge_None_2; [done|lia|unfold len in Hl; lia]].
    rewrite !byte_at_lookup by (unfold len in Hl; lia). f_equal. destruct (touched !! Z.of_nat p) as [b|] eqn:Eb; [|symmetry; apply (ca_out _ _ _ Hca); [done|lia]].
    assert (Z.of_nat p ∈ concat rs) as (run & Hin & Hr)%elem_of_concat by (apply Hdom; eauto).
    destruct (run_changed (map (fun o => (byte_at data0 o, byte_at data o)) run)) eqn:Ech.
    + exfalso. apply Hp. apply Exists_exists. exists (mkAfterImage (run_start run) (map (byte_at data) run)). split.
      * apply list_elem_of_omap. exists run. split; [done|]. unfold image_of. by rewrite Ech.
      * unfold covers. cbn [ai_offset ai_bytes]. rewrite len_map. rewrite Forall_forall in Hc. destruct (Hc run Hr) as [_ E]. rewrite E in Hin. apply elem_of_seqZ in Hin. lia.
    + unfold run_changed in Ech. assert (negb (Byte.eqb (byte_at data0 (Z.of_nat p)) (byte_at data (Z.of_nat p))) = false) as Hb.
      { destruct (negb _) eqn:En; [|done]. exfalso. rewrite <- not_true_iff_false in Ech. apply Ech, existsb_exists. exists (byte_at data0 (Z.of_nat p), byte_at data (Z.of_nat p)). split; [|done].
        apply in_map_iff. exists (Z.of_nat p). split; [done|]. by apply list_elem_of_In. }
      apply negb_false_iff in Hb. by apply Byte.byte_dec_bl.
Qed.

(** ** Adding a batch *)

Definition batch_positions (nb nh : Z) (xs : list bytes) : list (list Z) := map (fun x => file_hash_positions x nb nh) xs.

Lemma batch_in_file data nb nh c xs : bloom_file data nb nh c -> Forall (in_file data) (concat (batch_positions nb nh xs)).
Proof.
  intros Hf. induction xs as [|x xs IH]; [constructor|]. cbn [batch_positions map concat]. apply Forall_app. split; [by eapply positions_in_file|exact IH].
Qed.

Lemma length_positions x nb nh : 0 <= nh -> len (file_hash_positions x nb nh) = nh.
Proof. intros H. unfold file_hash_positions. rewrite len_map. unfold len. rewrite length_seqZ. lia. Qed.

Lemma len_batch_positions nb nh xs : 0 <= nh -> len (concat (batch_positions nb nh xs)) = len xs * nh.
Proof.
  intros H. induction xs as [|x xs IH]; [done|]. cbn [batch_positions map concat]. rewrite len_app, length_positions, len_cons by done. fold (batch_positions nb nh xs). rewrite IH. lia.
Qed.

Lemma masks_of_batch nb nh xs : map (element_masks nb nh) xs = map masks_of (batch_positions nb nh xs).
Proof. unfold batch_positions. by rewrite map_map. Qed.

Lemma batch_dom (pss : list (list Z)) o : is_Some (touch_all (map masks_of pss) !! o) <-> exists p, p ∈ concat pss /\ o = bit_offset p.
Proof.
  rewrite touch_all_dom. assert (map fst (concat (map masks_of pss)) = map bit_offset (concat pss)) as ->.
  { induction pss as [|ps pss IH]; [done|]. cbn [map concat]. rewrite !map_app, IH. f_equal. unfold masks_of. by rewrite map_map. }
  rewrite list_elem_of_In, in_map_iff. split; intros (p & H1 & H2); exists p; rewrite ?list_elem_of_In in *; split; done.
Qed.

(** What a batch has staged: its offsets, its cache, and that they carry the file over. *)
Record staged_batch (data data' : bytes) (offsets : list Z) (touched : Touched) : Prop := {
  sb_cached : cached data data' touched;
  sb_runs : concat (runs offsets) = offsets /\ Forall consecutive (runs offsets);
  sb_dom : forall o, o ∈ offsets <-> is_Some (touched !! o);
}.

Lemma work_ok n nh : 0 <= n -> 0 < nh <= MAX_NUM_HASHES -> n * nh <= MAX_BLOOM_HASH_VISITS -> validate_bloom_batch_work n nh = Ok tt.
Proof.
  intros Hn Hh Hw. unfold validate_bloom_batch_work, checked_mul64. unfold MAX_BLOOM_HASH_VISITS in *. rewrite (proj2 (Z.leb_le _ _)) by (unfold u64_max; lia).
  cbn [ok_or rbind]. by rewrite (proj2 (Z.ltb_ge _ _)) by lia.
Qed.

Lemma stage_batch_healthy file files data nb nh c xs : files !! file = Some data -> bloom_file data nb nh c -> len xs * nh <= MAX_BLOOM_HASH_VISITS ->
  let pss := batch_positions nb nh xs in
  exists touched, stage_batch file nb nh c xs (mkWorld files []) = (Ok (sorted_keys (touch_all (map masks_of pss)), (batch_results data pss, touched, c + total (batch_results data pss))), mkWorld files []) /\
    staged_batch data (set_bits data (concat pss)) (sorted_keys (touch_all (map masks_of pss))) touched.
Proof.
  intros Ed Hf Hw pss. pose proof (bf_nh _ _ _ _ Hf) as Hnh. pose proof (batch_in_file data nb nh c xs Hf) as Hps. fold pss in Hps.
  unfold stage_batch. rewrite work_ok by (try done; apply len_nonneg). rewrite sbind_slift_Ok, masks_of_batch. fold pss. cbv zeta. set (t0 := touch_all (map masks_of pss)).
  assert (Forall (covered data) (sorted_keys t0)) as Hcov.
  { rewrite Forall_forall in Hps |- *. intros o (p & Hp & ->)%sorted_keys_elem%batch_dom. destruct (Hps p Hp) as [Hp0 Hpl]. pose proof (bit_offset_range p Hp0). split; lia. }
  assert (len data <= u64_max) as Hlu.
  { rewrite (bf_len _ _ _ _ Hf). pose proof (byte_count_range nb (bf_nb _ _ _ _ Hf)). unfold BLOOM_HEADER_SIZE, TOKEN_SIZE, MAX_BLOOM_BYTES, u64_max in *. lia. }
  destruct (runs_spec (sorted_keys t0)) as [Ec Hc]; [eapply Forall_impl; [exact Hcov|]; intros o [? ?]; lia|].
  destruct (load_runs_healthy file files data (runs (sorted_keys t0)) Ed t0 Hc ltac:(by rewrite Ec)) as (t1 & E1 & H1). rewrite Ec in H1.
  unfold bloom_load_touched_bytes. rewrite (sbind_Ok _ _ _ _ _ E1).
  assert (forall o, is_Some (t1 !! o) <-> o ∈ sorted_keys t0) as Hdom.
  { intros o. rewrite H1. destruct (decide (o ∈ sorted_keys t0)); [done|]. symmetry. apply sorted_keys_elem. }
  assert (cached data data t1) as Hca.
  { split; [done| |done]. intros o b. rewrite H1. destruct (decide (o ∈ sorted_keys t0)) as [Hi|Hi]; [intros [= <-]; split; [|done]; rewrite Forall_forall in Hcov; by apply Hcov|].
    intros Eb. exfalso. apply Hi, sorted_keys_elem. eauto. }
  destruct (set_elements_spec data pss data t1 c Hca Hps) as (t2 & E2 & Hca2 & Hdom2).
  - rewrite Forall_forall. intros p Hp. apply Hdom, sorted_keys_elem, batch_dom. eauto.
  - unfold pss, batch_positions. rewrite len_map. pose proof (bf_c _ _ _ _ Hf). pose proof (bf_nb _ _ _ _ Hf). pose proof (len_nonneg xs). unfold MAX_BLOOM_HASH_VISITS, MAX_BLOOM_BITS, MAX_BLOOM_BYTES, u64_max in *. nia.
  - rewrite E2, sbind_slift_Ok. exists t2. split; [done|]. split; [done|done|]. intros o. by rewrite Hdom2, Hdom.
Qed.

Lemma total_zero data pss : forallb (Z.eqb 0) (batch_results data pss) = true -> Forall (in_file data) (concat pss) -> set_bits data (concat pss) = data /\ total (batch_results data pss) = 0.
Proof.
  revert data. induction pss as [|ps pss IH]; intros data H Hf; [done|]. cbn [batch_results forallb concat total foldr] in *. apply andb_true_iff in H as [H1 H2]. pose proof Hf as [Hf1 Hf2]%Forall_app.
  unfold is_new in *. destruct (forallb (bit data) ps) eqn:E; [|done]. rewrite set_bits_app. rewrite (set_bits_all ps data Hf1 E) in *. destruct (IH data H2 Hf2) as [E1 E2]. fold (total (batch_results data pss)). by rewrite E2.
Qed.

Lemma bloom_madd_healthy path files data nb nh c xs : files !! path = Some data -> bloom_file data nb nh c -> len xs * nh <= MAX_BLOOM_HASH_VISITS ->
  let pss := batch_positions nb nh xs in
  bloom_file_madd path xs (mkWorld files []) =
    (ReplyOk (batch_results data pss), mkWorld (<[path := with_count (set_bits data (concat pss)) (c + total (batch_results data pss))]> files) []).
Proof.
  intros Ed Hf Hw pss. unfold bloom_file_madd. rewrite (proj1 (with_sidecar_healthy path files data _ Ed)). rewrite (sbind_Ok _ _ _ _ _ (read_header_healthy path files data nb nh c Ed Hf)).
  destruct (stage_batch_healthy path files data nb nh c xs Ed Hf Hw) as (t & E & Hsb). cbv zeta in E, Hsb. fold pss in E, Hsb. rewrite (sbind_Ok _ _ _ _ _ E).
  pose proof (batch_in_file data nb nh c xs Hf) as Hps. fold pss in Hps. pose proof (bloom_file_len32 _ _ _ _ Hf) as H32.
  destruct (forallb (Z.eqb 0) (batch_results data pss)) eqn:Ez.
  - destruct (total_zero data pss Ez Hps) as [-> ->]. rewrite Z.add_0_r, with_count_id by (try done; apply (bf_count _ _ _ _ Hf)). by rewrite insert_id.
  - destruct Hsb as [Hca [Ec Hc] Hdom]. unfold bloom_store_touched_bytes. rewrite (sbind_Ok _ _ _ _ _ (store_runs_healthy path data _ t _ Hca files data Ed eq_refl ltac:(rewrite Ec, Forall_forall; intros o Ho; by apply Hdom) Hc)).
    rewrite (patched_runs data _ t _ Hca Hc) by (intros o; rewrite Ec; apply Hdom). pose proof (len_set_bits _ _ Hps).
    rewrite (sbind_Ok _ _ _ _ _ (write_all_at_healthy path (le_bytes 8 (c + total (batch_results data pss))) 24 "bloom count" _ (set_bits data (concat pss)) (lookup_insert_eq _ _ _) ltac:(lia))).
    rewrite (sbind_Ok _ _ _ _ _ (fsync_healthy path _)). cbn [reply_of sret]. by rewrite insert_insert_eq.
Qed.
End Operations.
