(* ===== verification/BloomContract.v ===== *)
(** * What a Bloom filter promises

    The theorems about [Bloom]: membership after any sequence of additions, batches as
    sequences of single additions, the counter, and entries that carry a token. *)

From Stdlib Require Import ZArith Lia.
From stdpp Require Import gmap strings.
From S2P Require Import Prelude Bytes Crc Sidecar ProbTxn ProbTxnProof Bloom BloomProof.

Section Contract.
Context `{C : Crc32fast} {CL : Crc32fastLaws C} `{X : Xxh3}.

(** ** The counter never exceeds the bits set *)

Definition set_count (data : bytes) (nb : Z) : Z := len (filter (fun p => bit data p = true) (seqZ 0 nb)).

(** A filter file whose counter is at most the number of its bits that are set. *)
Definition bloom_inv (data : bytes) (nb nh c : Z) : Prop := bloom_file data nb nh c /\ c <= set_count data nb.

Lemma filter_len_mono {A : Type} (P Q : A -> Prop) `{!forall x, Decision (P x), !forall x, Decision (Q x)} l : (forall x, x ∈ l -> P x -> Q x) -> len (filter P l) <= len (filter Q l).
Proof using Type.
  induction l as [|x l IH]; intros Hpq; [done|]. rewrite !filter_cons. specialize (IH (fun y Hy => Hpq y (proj2 (elem_of_cons _ _ _) (or_intror Hy)))). specialize (Hpq x (proj2 (elem_of_cons _ _ _) (or_introl eq_refl))).
  destruct (decide (P x)), (decide (Q x)); rewrite ?len_cons; tauto || lia.
Qed.

Lemma filter_len_strict {A : Type} (P Q : A -> Prop) `{!forall x, Decision (P x), !forall x, Decision (Q x)} l y : (forall x, x ∈ l -> P x -> Q x) -> y ∈ l -> ~ P y -> Q y -> len (filter P l) + 1 <= len (filter Q l).
Proof using Type.
  induction l as [|x l IH]; intros Hpq Hy HP HQ; [by apply elem_of_nil in Hy|]. rewrite !filter_cons. pose proof (filter_len_mono P Q l (fun z Hz => Hpq z (proj2 (elem_of_cons _ _ _) (or_intror Hz)))).
  apply elem_of_cons in Hy as [<-|Hy].
  - rewrite decide_False, decide_True by done. rewrite len_cons. lia.
  - specialize (IH (fun z Hz => Hpq z (proj2 (elem_of_cons _ _ _) (or_intror Hz))) Hy HP HQ). specialize (Hpq x (proj2 (elem_of_cons _ _ _) (or_introl eq_refl))). destruct (decide (P x)), (decide (Q x)); rewrite ?len_cons; tauto || lia.
Qed.

Lemma set_count_bits data nb ps : Forall (in_file data) ps -> Forall (fun p => 0 <= p < nb) ps -> set_count data nb + is_new data ps <= set_count (set_bits data ps) nb.
Proof using Type.
  intros Hf Hr. unfold set_count, is_new. assert (forall p, p ∈ seqZ 0 nb -> bit data p = true -> bit (set_bits data ps) p = true) as Hmono.
  { intros p Hp%elem_of_seqZ Hb. rewrite bit_set_bits by (try done; lia). by rewrite Hb, orb_true_r. }
  destruct (forallb (bit data) ps) eqn:E; [rewrite Z.add_0_r; by apply filter_len_mono|].
  assert (exists p, p ∈ ps /\ bit data p = false) as (p & Hp & Hb).
  { clear -E. induction ps as [|q ps IH]; [done|]. cbn [forallb] in E. destruct (bit data q) eqn:Eq; [|exists q; split; [by left|done]]. destruct (IH E) as (p & ? & ?). exists p. split; [by right|done]. }
  rewrite Forall_forall in Hr. destruct (Hr p Hp). apply (filter_len_strict _ _ _ p); [done|apply elem_of_seqZ; lia|by rewrite Hb|].
  rewrite bit_set_bits by (try done; lia). assert (existsb (Z.eqb p) ps = true) as ->; [|done]. apply existsb_exists. exists p. split; [by apply list_elem_of_In|apply Z.eqb_refl].
Qed.

Lemma set_count_le data nb : 0 <= nb -> set_count data nb <= nb.
Proof using Type. intros H. unfold set_count, len. pose proof (length_filter (fun p => bit data p = true) (seqZ 0 nb)) as Hl. rewrite length_seqZ in Hl. lia. Qed.

Lemma set_count_with_count data c nb : 32 <= len data -> set_count (with_count data c) nb = set_count data nb.
Proof using Type.
  intros H. apply Z.le_antisymm; apply filter_len_mono; intros p Hp%elem_of_seqZ; by rewrite bit_with_count by lia.
Qed.

Lemma set_count_batch nb pss : forall data, Forall (in_file data) (concat pss) -> Forall (fun p => 0 <= p < nb) (concat pss) ->
  set_count data nb + total (batch_results data pss) <= set_count (set_bits data (concat pss)) nb.
Proof using Type.
  induction pss as [|ps pss IH]; intros data Hf Hr; cbn [batch_results total foldr concat] in *; [cbn; lia|]. fold (total (batch_results (set_bits data ps) pss)).
  pose proof Hf as [Hf1 Hf2]%Forall_app. apply Forall_app in Hr as [Hr1 Hr2]. rewrite set_bits_app. pose proof (set_count_bits data nb ps Hf1 Hr1).
  specialize (IH (set_bits data ps) (in_file_set_bits _ _ _ Hf1 Hf2) Hr2). lia.
Qed.

Lemma batch_range nb nh xs : 0 < nb -> Forall (fun p => 0 <= p < nb) (concat (batch_positions nb nh xs)).
Proof using Type. intros Hn. induction xs as [|x xs IH]; [constructor|]. cbn [batch_positions map concat]. apply Forall_app. split; [by apply positions_range|exact IH]. Qed.

Lemma total_nonneg data pss : 0 <= total (batch_results data pss).
Proof using Type.
  revert data. induction pss as [|ps pss IH]; intros data; [done|]. cbn [batch_results total foldr]. fold (total (batch_results (set_bits data ps) pss)). specialize (IH (set_bits data ps)).
  unfold is_new. destruct (forallb (bit data) ps); lia.
Qed.

(** Every batch keeps the invariant. *)
Lemma bloom_inv_batch data nb nh c xs : let pss := batch_positions nb nh xs in let results := batch_results data pss in
  bloom_inv data nb nh c -> bloom_inv (with_count (set_bits data (concat pss)) (c + total results)) nb nh (c + total results).
Proof using Type.
  intros pss results [Hf Hc]. pose proof (bf_nb _ _ _ _ Hf) as Hnb. pose proof (bf_c _ _ _ _ Hf). pose proof (batch_in_file data nb nh c xs Hf) as Hps. pose proof (batch_range nb nh xs ltac:(lia)) as Hr.
  fold pss in Hps, Hr. pose proof (set_count_batch nb pss data Hps Hr) as Hs. fold results in Hs. pose proof (total_nonneg data pss) as Ht. fold results in Ht. pose proof (len_set_bits _ _ Hps) as Hl. pose proof (bloom_file_len32 _ _ _ _ Hf).
  pose proof (set_count_le (set_bits data (concat pss)) nb ltac:(lia)). split; [apply (bloom_file_updated data nb nh c); [done|done|lia]|]. rewrite set_count_with_count by lia. lia.
Qed.

(** ** Histories of additions *)

Inductive bloom_op : Type :=
  | OpAdd (x : bytes)
  | OpMadd (xs : list bytes).
Definition op_elements (op : bloom_op) : list bytes := match op with OpAdd x => [x] | OpMadd xs => xs end.

Definition run_op (path : string) (op : bloom_op) (w : World) : reply (list Z) * World :=
  match op with
  | OpAdd x => match bloom_file_add path x w with
               | (ReplyOk r, w) => (ReplyOk [r], w)
               | (ReplyEnoent, w) => (ReplyEnoent, w)
               | (ReplyError e, w) => (ReplyError e, w)
               | (ReplyPanic, w) => (ReplyPanic, w)
               end
  | OpMadd xs => bloom_file_madd path xs w
  end.

(** The replies of a history, and the world after it. *)
Fixpoint run_ops (path : string) (ops : list bloom_op) (w : World) : list (reply (list Z)) * World :=
  match ops with
  | [] => ([], w)
  | op :: ops => let '(r, w) := run_op path op w in let '(rs, w) := run_ops path ops w in (r :: rs, w)
  end.

(** One operation is a batch. *)
Lemma run_op_healthy path files data nb nh c op : files !! path = Some data -> bloom_file data nb nh c -> len (op_elements op) * nh <= MAX_BLOOM_HASH_VISITS ->
  let pss := batch_positions nb nh (op_elements op) in
  run_op path op (mkWorld files []) = (ReplyOk (batch_results data pss), mkWorld (<[path := with_count (set_bits data (concat pss)) (c + total (batch_results data pss))]> files) []).
Proof using Type.
  intros Ed Hf Hw pss. destruct op as [x|xs]; cbn [run_op op_elements] in *; [|by apply bloom_madd_healthy].
  rewrite (bloom_add_healthy path files data nb nh c x Ed Hf). unfold pss. cbn [batch_positions map batch_results concat total foldr]. by rewrite app_nil_r, Z.add_0_r.
Qed.

(** The replies and the file after a history, as one batch of all its elements. *)
Lemma batch_results_with_count c pss : forall data, 32 <= len data -> Forall (in_file data) (concat pss) -> batch_results (with_count data c) pss = batch_results data pss.
Proof using Type.
  induction pss as [|ps pss IH]; intros data Hl Hf; [done|]. cbn [batch_results concat] in *. pose proof Hf as [Hf1 Hf2]%Forall_app. f_equal.
  - unfold is_new. assert (forallb (bit (with_count data c)) ps = forallb (bit data) ps) as ->; [|done]. clear -Hl Hf1. induction ps as [|p ps IH]; [done|]. apply Forall_cons in Hf1 as [[? _] Hf1].
    cbn [forallb]. by rewrite bit_with_count, IH by done.
  - rewrite set_bits_with_count by done. apply IH; [by rewrite len_set_bits|by apply in_file_set_bits].
Qed.

Lemma batch_results_app pss qss : forall data, batch_results data (pss ++ qss) = batch_results data pss ++ batch_results (set_bits data (concat pss)) qss.
Proof using Type. induction pss as [|ps pss IH]; intros data; [done|]. cbn [batch_results app concat]. by rewrite IH, set_bits_app. Qed.

Lemma total_app a b : total (a ++ b) = total a + total b.
Proof using Type. induction a as [|x a IH]; [done|]. cbn [app total foldr]. fold (total (a ++ b)) (total a). lia. Qed.

Lemma run_ops_healthy path nb nh ops : forall files data c, files !! path = Some data -> bloom_inv data nb nh c -> Forall (fun op => len (op_elements op) * nh <= MAX_BLOOM_HASH_VISITS) ops ->
  let pss := batch_positions nb nh (ops ≫= op_elements) in
  exists rss, run_ops path ops (mkWorld files []) = (map ReplyOk rss, mkWorld (<[path := with_count (set_bits data (concat pss)) (c + total (batch_results data pss))]> files) []) /\
    concat rss = batch_results data pss.
Proof using Type.
  induction ops as [|op ops IH]; intros files data c Ed Hinv Hw pss; cbn [run_ops].
  { exists []. destruct Hinv as [Hf _]. unfold pss. cbn. rewrite Z.add_0_r, with_count_id by (try (by eapply bloom_file_len32); apply (bf_count _ _ _ _ Hf)). by rewrite insert_id. }
  apply Forall_cons in Hw as [Hw1 Hw]. pose proof Hinv as [Hf _]. rewrite (run_op_healthy path files data nb nh c op Ed Hf Hw1). set (ps1 := batch_positions nb nh (op_elements op)).
  pose proof (bloom_inv_batch data nb nh c (op_elements op) Hinv) as Hinv1. cbv zeta in Hinv1. fold ps1 in Hinv1. pose proof (batch_in_file data nb nh c (op_elements op) Hf) as Hps1. fold ps1 in Hps1.
  set (c1 := c + total (batch_results data ps1)) in *. destruct (IH (<[path := with_count (set_bits data (concat ps1)) c1]> files) _ c1 (lookup_insert_eq _ _ _) Hinv1 Hw) as (rss & E & Ers). cbv zeta in E. rewrite E.
  set (ps2 := batch_positions nb nh (ops ≫= op_elements)) in *. pose proof (batch_in_file data nb nh c (ops ≫= op_elements) Hf) as Hps2. fold ps2 in Hps2.
  pose proof (bloom_file_len32 _ _ _ _ Hf) as H32. pose proof (len_set_bits _ _ Hps1) as Hl1. pose proof (in_file_set_bits _ _ _ Hps1 Hps2) as Hps2'. pose proof (len_set_bits _ _ Hps2') as Hl2.
  assert (pss = ps1 ++ ps2) as -> by (unfold pss, ps1, ps2, batch_positions; cbn [mbind list_bind]; apply map_app).
  rewrite batch_results_with_count in E, Ers |- * by (done || lia). rewrite set_bits_with_count by (done || lia). rewrite with_count_twice, insert_insert_eq by lia.
  exists (batch_results data ps1 :: rss). cbn [map concat]. rewrite Ers, batch_results_app, concat_app, set_bits_app, total_app. split; [|done]. unfold c1. by rewrite Z.add_assoc.
Qed.

(** ** New filters *)

Definition fresh (nb nh : Z) : bytes := bloom_header nb nh ++ replicate (Z.to_nat ((nb + 7) / 8 + TOKEN_SIZE)) x00.

Lemma bloom_header_eq nb nh : bloom_header nb nh = le_bytes 8 BLOOM_MAGIC ++ le_bytes 8 nb ++ le_bytes 4 nh ++ replicate 4 x00 ++ replicate 8 x00.
Proof using Type.
  unfold bloom_header, copy_from_slice. pose proof (len_le_bytes 8 BLOOM_MAGIC). pose proof (len_le_bytes 8 nb). pose proof (len_le_bytes 4 nh). change (replicate 32 x00) with (replicate 8 x00 ++ replicate 8 x00 ++ replicate 4 x00 ++ replicate 12 x00).
  rewrite !len_le_bytes. cbn [Z.of_nat]. zslices. cbn [app]. zslices. by rewrite <- ?app_assoc, ?app_nil_l.
Qed.

Lemma len_bloom_header nb nh : len (bloom_header nb nh) = 32.
Proof using Type. rewrite bloom_header_eq, !len_app, !len_le_bytes, !len_replicate. done. Qed.

Lemma bloom_file_fresh nb nh : 0 < nb <= MAX_BLOOM_BITS -> 0 < nh <= MAX_NUM_HASHES -> bloom_file (fresh nb nh) nb nh 0.
Proof using Type.
  intros Hnb Hnh. pose proof (byte_count_range nb Hnb). pose proof (len_bloom_header nb nh) as Hl.
  assert (forall a b, 0 <= a -> a <= b -> b <= 32 -> zslice (fresh nb nh) a b = zslice (bloom_header nb nh) a b) as Hs by (intros; apply zslice_app_take; lia).
  pose proof (len_le_bytes 8 BLOOM_MAGIC). pose proof (len_le_bytes 8 nb). pose proof (len_le_bytes 4 nh). split; try done; try (rewrite Hs, bloom_header_eq by lia; zslices; done); [lia|].
  unfold fresh. rewrite len_app, len_replicate, Hl. unfold BLOOM_HEADER_SIZE, TOKEN_SIZE. lia.
Qed.

Lemma bit_fresh nb nh p : 0 <= p -> bit (fresh nb nh) p = false.
Proof using Type.
  intros Hp. pose proof (bit_offset_range p Hp). pose proof (len_bloom_header nb nh) as Hl. unfold bit. assert (byte_at (fresh nb nh) (bit_offset p) = x00) as ->; [|by unfold has_mask].
  unfold byte_at, fresh. unfold len in Hl. rewrite lookup_app_r by lia. generalize (Z.to_nat ((nb + 7) / 8 + TOKEN_SIZE)) as n. intros n.
  destruct (decide (Z.to_nat (bit_offset p) - length (bloom_header nb nh) < n)%nat); [by rewrite lookup_replicate_2|]. by rewrite (proj1 (lookup_replicate_None _ _ _)) by lia.
Qed.

Lemma bloom_inv_fresh nb nh : 0 < nb <= MAX_BLOOM_BITS -> 0 < nh <= MAX_NUM_HASHES -> bloom_inv (fresh nb nh) nb nh 0.
Proof using Type. intros. split; [by apply bloom_file_fresh|]. unfold set_count. apply len_nonneg. Qed.

Lemma bloom_create_healthy path nb nh files : 0 < nb <= MAX_BLOOM_BITS -> 0 < nh <= MAX_NUM_HASHES ->
  bloom_file_create path nb nh (mkWorld files []) = (Ok tt, mkWorld (<[path := fresh nb nh]> files) []).
Proof using Type.
  intros Hnb Hnh. pose proof (byte_count_range nb Hnb). unfold bloom_file_create. rewrite (proj2 (Z.eqb_neq nb 0)), (proj2 (Z.eqb_neq nh 0)) by lia. rewrite (proj2 (Z.ltb_ge _ nh)) by lia.
  rewrite file_size_ok by done. rewrite sbind_slift_Ok. etrans; [|exact (create_sidecar_healthy path (bloom_header nb nh) (Z.to_nat ((nb + 7) / 8 + TOKEN_SIZE)) files)]. f_equal.
  rewrite len_bloom_header. unfold bits_end, BLOOM_HEADER_SIZE, TOKEN_SIZE. lia.
Qed.

(** ** Membership *)

(** Every position of [y] is a position of one of [xs]. *)
Definition all_covered (nb nh : Z) (xs : list bytes) (y : bytes) : bool :=
  forallb (fun p => existsb (Z.eqb p) (concat (batch_positions nb nh xs))) (file_hash_positions y nb nh).

Lemma test_bits_healthy file files data ps : files !! file = Some data -> Forall (in_file data) ps -> test_bits file ps (mkWorld files []) = (Ok (forallb (bit data) ps), mkWorld files []).
Proof using Type.
  intros Ed. induction ps as [|p ps IH]; intros Hf; [done|]. apply Forall_cons in Hf as [[Hp Hl] Hf]. pose proof (bit_offset_range p Hp). cbn [test_bits forallb].
  rewrite (sbind_Ok _ _ _ _ _ (read_byte_healthy file files data (bit_offset p) Ed ltac:(lia))). change (has_mask (byte_at data (bit_offset p)) (bit_mask p)) with (bit data p).
  destruct (bit data p); cbn [negb andb]; [by apply IH|done].
Qed.

Lemma bloom_exists_healthy path files data nb nh c y : files !! path = Some data -> bloom_file data nb nh c ->
  bloom_file_exists path y (mkWorld files []) = (ReplyOk (if forallb (bit data) (file_hash_positions y nb nh) then 1 else 0), mkWorld files []).
Proof using Type.
  intros Ed Hf. unfold bloom_file_exists. rewrite (proj2 (with_sidecar_healthy path files data _ Ed)). unfold exists_body. rewrite (sbind_Ok _ _ _ _ _ (read_header_healthy path files data nb nh c Ed Hf)).
  by rewrite (sbind_Ok _ _ _ _ _ (test_bits_healthy path files data _ Ed (positions_in_file data nb nh c y Hf))).
Qed.

(** C30: membership in a Bloom filter.  A filter is created and any sequence of single and
    batched additions is run on it.  Every addition succeeds, and a query answers 1 exactly
    when each of the element's positions is a position of some element added: an element
    that was added is always found. *)
Theorem bloom_membership path nb nh ops files y :
  0 < nb <= MAX_BLOOM_BITS -> 0 < nh <= MAX_NUM_HASHES -> Forall (fun op => len (op_elements op) * nh <= MAX_BLOOM_HASH_VISITS) ops ->
  exists w1 w2 rss,
    bloom_file_create path nb nh (mkWorld files []) = (Ok tt, w1) /\ run_ops path ops w1 = (map ReplyOk rss, w2) /\
    bloom_file_exists path y w2 = (ReplyOk (if all_covered nb nh (ops ≫= op_elements) y then 1 else 0), w2) /\
    (y ∈ ops ≫= op_elements -> bloom_file_exists path y w2 = (ReplyOk 1, w2)).
Proof using Type.
  intros Hnb Hnh Hw. pose proof (bloom_file_fresh nb nh Hnb Hnh) as Hf. eexists _. rewrite bloom_create_healthy by done.
  destruct (run_ops_healthy path nb nh ops (<[path := fresh nb nh]> files) _ 0 (lookup_insert_eq _ _ _) (bloom_inv_fresh nb nh Hnb Hnh) Hw) as (rss & E & _). cbv zeta in E.
  eexists _, rss. split; [done|]. split; [exact E|]. set (pss := batch_positions nb nh (ops ≫= op_elements)) in *. pose proof (batch_in_file _ nb nh 0 (ops ≫= op_elements) Hf) as Hps. fold pss in Hps.
  set (c' := 0 + total _) in *. pose proof (bloom_inv_batch (fresh nb nh) nb nh 0 (ops ≫= op_elements) (bloom_inv_fresh nb nh Hnb Hnh)) as [Hf' _]. cbv zeta in Hf'. fold pss c' in Hf'.
  rewrite (bloom_exists_healthy path _ _ nb nh c' y (lookup_insert_eq _ _ _) Hf'). pose proof (bloom_file_len32 _ _ _ _ Hf). pose proof (len_set_bits _ _ Hps).
  assert (forallb (bit (with_count (set_bits (fresh nb nh) (concat pss)) c')) (file_hash_positions y nb nh) = all_covered nb nh (ops ≫= op_elements) y) as Ec.
  { unfold all_covered. fold pss. pose proof (positions_range y nb nh ltac:(lia)) as Hr. revert Hr. generalize (file_hash_positions y nb nh) as ps. intros ps. induction ps as [|p ps IH]; intros Hr; [done|]. apply Forall_cons in Hr as [Hp Hr].
    cbn [forallb]. rewrite IH, bit_with_count, bit_set_bits, bit_fresh, orb_false_r by (done || lia). done. }
  rewrite Ec. split; [done|]. intros Hy. enough (all_covered nb nh (ops ≫= op_elements) y = true) as -> by done.
  unfold all_covered. apply forallb_forall. intros p Hp. apply existsb_exists. exists p. split; [|apply Z.eqb_refl]. apply in_concat. exists (file_hash_positions y nb nh). split; [|done].
  apply in_map_iff. exists y. split; [done|]. by apply list_elem_of_In.
Qed.

(** C31: adding a batch is adding its elements one by one.  On a filter whose counter is at
    most its bits set, both give the same replies and leave the same file, although the batch
    works on a cache of the touched bytes and writes whole runs; and the counter stays at
    most the bits set, so the filter is never rejected by its own header check. *)
Theorem bloom_batch_sequential path nb nh xs files data c :
  files !! path = Some data -> bloom_inv data nb nh c -> len xs * nh <= MAX_BLOOM_HASH_VISITS ->
  exists rs data', bloom_file_madd path xs (mkWorld files []) = (ReplyOk rs, mkWorld (<[path := data']> files) []) /\
    run_ops path (map OpAdd xs) (mkWorld files []) = (map (fun r => ReplyOk [r]) rs, mkWorld (<[path := data']> files) []) /\
    bloom_inv data' nb nh (c + total rs).
Proof using Type.
  intros Ed Hinv Hw. pose proof Hinv as [Hf _]. eexists _, _. rewrite (bloom_madd_healthy path files data nb nh c xs Ed Hf Hw). cbv zeta. split; [done|].
  destruct (run_ops_healthy path nb nh (map OpAdd xs) files data c Ed Hinv) as (rss & E & Er).
  { apply Forall_map, Forall_true. intros x. cbn [op_elements]. rewrite len_cons, len_nil. pose proof (bf_nh _ _ _ _ Hf). unfold MAX_NUM_HASHES, MAX_BLOOM_HASH_VISITS in *. lia. }
  cbv zeta in E, Er. assert (map OpAdd xs ≫= op_elements = xs) as Exs by (clear; induction xs as [|x xs IH]; [done|]; cbn [map mbind list_bind op_elements]; by f_equal/=).
  rewrite Exs in E, Er. split; [|by apply bloom_inv_batch]. rewrite E. f_equal. rewrite <- Er.
  assert (Forall (fun rs => exists r, rs = [r]) rss) as Hs.
  { assert (map ReplyOk rss = (run_ops path (map OpAdd xs) (mkWorld files [])).1) as Em by (by rewrite E). clear -Em. revert rss Em. generalize (mkWorld files []) as w. induction xs as [|x xs IH]; intros w rss Em; cbn [map run_ops run_op] in Em.
    - by destruct rss.
    - destruct (bloom_file_add path x w) as [[r| |e|] w1]; destruct (run_ops path (map OpAdd xs) w1) as [rs w2] eqn:E2; destruct rss as [|rs1 rss]; try done; cbn [map fst] in Em; injection Em as E1 Em; try done.
      subst rs1. constructor; [by exists r|]. apply (IH w1). by rewrite E2. }
  clear -Hs. induction Hs as [|rs rss [r ->] Hs IH]; [done|]. cbn [map concat app]. by rewrite IH.
Qed.

(** ** Entries with a token *)

Lemma encode_results_ok data pss : exists encoded, bloom_encode_results (batch_results data pss) = Ok encoded /\ len encoded = len pss /\ decode_result_bytes encoded = Ok (batch_results data pss).
Proof using Type.
  revert data. induction pss as [|ps pss IH]; intros data; cbn [batch_results bloom_encode_results]; [by exists []|]. destruct (IH (set_bits data ps)) as (e & E & Hl & Ed).
  unfold is_new. destruct (forallb (bit data) ps); cbn [orb Z.eqb]; rewrite E; cbn [rbind]; eexists; (split; [done|]); rewrite !len_cons, Hl; (split; [done|]);
    cbn [decode_result_bytes]; rewrite byte_val_of; cbn [Z.modulo Z.eqb orb]; rewrite Ed; done.
Qed.

Lemma length_offsets nb nh xs : 0 <= nh -> len (sorted_keys (touch_all (map masks_of (batch_positions nb nh xs)))) <= len xs * nh.
Proof using Type.
  intros Hn. rewrite <- (len_batch_positions nb nh xs Hn). set (pss := batch_positions nb nh xs). unfold len. apply Nat2Z.inj_le. rewrite <- (length_map bit_offset (concat pss)).
  apply submseteq_length, NoDup_submseteq.
  - unfold sorted_keys. rewrite merge_sort_Permutation. apply NoDup_elements.
  - intros o (p & Hp & ->)%sorted_keys_elem%batch_dom. apply list_elem_of_In, in_map_iff. exists p. split; [done|]. by apply list_elem_of_In.
Qed.

Lemma images_size data0 data rs : Forall consecutive rs -> len (omap (image_of data0 data) rs) <= len (concat rs) /\ len (images_bytes (omap (image_of data0 data) rs)) <= 17 * len (concat rs).
Proof using Type.
  induction rs as [|run rs IH]; intros Hc; [done|]. apply Forall_cons in Hc as [[Hne _] Hc]. destruct (IH Hc) as [H1 H2]. cbn [omap list_omap concat]. rewrite len_app.
  assert (1 <= len run) by (destruct run; [done|rewrite len_cons; pose proof (len_nonneg run); lia]). destruct (image_of data0 data run) as [i|] eqn:Ei; [|split; lia].
  unfold image_of in Ei. destruct (run_changed _); [|done]. injection Ei as <-. rewrite len_images_bytes_cons. cbn [ai_bytes]. rewrite len_map, len_cons. split; lia.
Qed.

Lemma images_below data0 data touched rs n : cached data0 data touched -> Forall consecutive rs -> (forall o, o ∈ concat rs -> 0 <= o < n) -> n <= len data -> Forall (image_ok n) (omap (image_of data0 data) rs).
Proof using Type.
  intros Hca Hc Hin Hn. rewrite Forall_forall. intros i (run & Hr & Ei)%list_elem_of_omap. unfold image_of in Ei. destruct (run_changed _); [|done]. injection Ei as <-. rewrite Forall_forall in Hc.
  destruct (decide (0 <= n)) as [H0|H0].
  - assert (Forall (covered (ztake n data)) run) as Hcov.
    { rewrite Forall_forall. intros o Ho. destruct (Hin o) as [? ?]; [apply elem_of_concat; eauto|]. split; [done|]. rewrite len_ztake by done. lia. }
    destruct (consecutive_slice (ztake n data) run (Hc run Hr) Hcov) as (_ & H1 & H2). rewrite len_ztake in H2 by done. split; cbn [ai_offset ai_bytes]; rewrite ?len_map; lia.
  - destruct (Hc run Hr) as [Hne _]. destruct run as [|o run]; [done|]. destruct (Hin o) as [? ?]; [apply elem_of_concat; exists (o :: run); split; [by left|done]|]. lia.
Qed.

Lemma stage_transactional_healthy file files data nb nh c xs : files !! file = Some data -> bloom_file data nb nh c -> len xs * nh <= MAX_BLOOM_HASH_VISITS ->
  let pss := batch_positions nb nh xs in let results := batch_results data pss in
  exists images, bloom_stage_transactional_madd file nb nh c xs (mkWorld files []) = (Ok (results, images), mkWorld files []) /\
    patched data images = with_count (set_bits data (concat pss)) (c + total results) /\ Forall (image_ok (bits_end nb)) images /\
    len images <= MAX_BLOOM_HASH_VISITS + 1 /\ len (images_bytes images) <= 17 * MAX_BLOOM_HASH_VISITS + 24.
Proof using Type.
  intros Ed Hf Hw pss results. destruct (stage_batch_healthy file files data nb nh c xs Ed Hf Hw) as (t & E & Hsb). cbv zeta in E, Hsb. fold pss in E, Hsb. fold results in E.
  unfold bloom_stage_transactional_madd. rewrite (sbind_Ok _ _ _ _ _ E). destruct Hsb as [Hca [Ec Hc] Hdom]. set (offsets := sorted_keys _) in *.
  rewrite (run_images_spec data _ t _ Hca) by (rewrite Ec, Forall_forall; intros o Ho; by apply Hdom). rewrite sbind_slift_Ok. pose proof (batch_in_file data nb nh c xs Hf) as Hps. fold pss in Hps.
  pose proof (bf_nb _ _ _ _ Hf) as Hnb. pose proof (len_set_bits _ _ Hps) as Hl. pose proof (bloom_file_len32 _ _ _ _ Hf) as H32.
  destruct (images_size data (set_bits data (concat pss)) (runs offsets) Hc) as [Hs1 Hs2]. rewrite Ec in Hs1, Hs2. pose proof (length_offsets nb nh xs ltac:(pose proof (bf_nh _ _ _ _ Hf); lia)) as Hlo. fold pss offsets in Hlo.
  assert (Forall (image_ok (bits_end nb)) (omap (image_of data (set_bits data (concat pss))) (runs offsets))) as Hbelow.
  { apply (images_below data _ t); [done|done| |rewrite Hl, (bf_len _ _ _ _ Hf); unfold bits_end, TOKEN_SIZE; lia]. intros o Ho. rewrite Ec in Ho. unfold offsets in Ho. apply sorted_keys_elem, batch_dom in Ho as (p & Hp & ->).
    pose proof (batch_range nb nh xs ltac:(lia)) as Hr. fold pss in Hr. rewrite Forall_forall in Hr. destruct (Hr p Hp). pose proof (bit_offset_range p ltac:(lia)). split; [lia|].
    unfold bits_end, bit_offset. assert (p / 8 < (nb + 7) / 8) by (Z.to_euclidean_division_equations; lia). lia. }
  pose proof (patched_runs data _ t _ Hca Hc ltac:(intros o; rewrite Ec; apply Hdom)) as Ep. eexists. split; [done|]. destruct (existsb (Z.eqb 1) results) eqn:E1.
  - rewrite patched_app, Ep. split; [done|]. split.
    + apply Forall_app. split; [done|]. constructor; [|constructor]. split; [done|]. cbn [ai_offset ai_bytes]. rewrite len_le_bytes. unfold bits_end, BLOOM_HEADER_SIZE. pose proof (byte_count_range nb Hnb). lia.
    + rewrite len_app, len_cons, len_nil. split; [lia|]. unfold images_bytes in *. rewrite bind_app, concat_app, len_app. cbn [mbind list_bind app image_chunks concat ai_offset ai_bytes]. rewrite !len_app, !len_le_bytes, len_nil. lia.
  - rewrite Ep. split; [|split; [done|lia]]. assert (forallb (Z.eqb 0) results = true) as Ez.
    { apply forallb_forall. intros r Hr. assert (r = 0 \/ r = 1) as [->| ->]; [|done|exfalso; rewrite <- not_true_iff_false in E1; apply E1, existsb_exists; by exists 1].
      clear -Hr. unfold results in Hr. revert Hr. generalize data as d. induction pss as [|ps pss IH]; intros d Hr; [done|]. cbn [batch_results] in Hr. destruct Hr as [<-|Hr]; [unfold is_new; destruct (forallb _ _); lia|by apply (IH (set_bits d ps))]. }
    destruct (total_zero data pss Ez Hps) as [-> Et]. fold results in Et. rewrite Et, Z.add_0_r. symmetry. apply with_count_id; [done|]. apply (bf_count _ _ _ _ Hf).
Qed.

Lemma bloom_file_footer data nb nh c token : bloom_file data nb nh c -> bloom_file (overwrite data (bits_end nb) (token_encode token)) nb nh c.
Proof using Type.
  intros Hf. pose proof (byte_count_range nb (bf_nb _ _ _ _ Hf)). pose proof Hf as [H1 H2 H3 H4 H5 Hnb Hnh Hc Hlen]. pose proof (len_token_encode token) as Ht. unfold TOKEN_SIZE, BLOOM_HEADER_SIZE in *.
  assert (forall a b, 0 <= a -> b <= 32 -> zslice (overwrite data (bits_end nb) (token_encode token)) a b = zslice data a b) as Hs
    by (intros a b Ha Hb; apply overwrite_before; unfold bits_end, BLOOM_HEADER_SIZE in *; lia).
  split; try done; try (by rewrite Hs by lia). unfold bits_end, BLOOM_HEADER_SIZE, TOKEN_SIZE in *. rewrite len_overwrite by lia. lia.
Qed.

Lemma bits_end_range nb : 0 < nb <= MAX_BLOOM_BITS -> 0 <= bits_end nb /\ bits_end nb + TOKEN_SIZE <= u64_max.
Proof using Type. intros H. pose proof (byte_count_range nb H). unfold bits_end, BLOOM_HEADER_SIZE, TOKEN_SIZE, MAX_BLOOM_BYTES, u64_max in *. lia. Qed.

Lemma mutation_transaction_ok nb token images result : 0 < nb <= MAX_BLOOM_BITS -> token_ok token -> Forall (image_ok (bits_end nb)) images ->
  len images <= MAX_BLOOM_HASH_VISITS + 1 -> len (images_bytes images) <= 17 * MAX_BLOOM_HASH_VISITS + 24 -> len result <= MAX_BLOOM_HASH_VISITS ->
  transaction_ok (mutation (bits_end nb) (bits_end nb + TOKEN_SIZE) token images result).
Proof using Type.
  intros Hnb Ht Hi Hl Hb Hr. destruct (bits_end_range nb Hnb) as [H0 H1]. unfold MAX_BLOOM_HASH_VISITS in *. split; cbn [mutation tn_token tn_token_offset tn_expected_file_size tn_images tn_result]; try done.
  - rewrite len_app, len_cons, len_nil. unfold MAX_AFTER_IMAGES. lia.
  - apply mutation_images_ok; done.
  - rewrite len_transaction_content. cbn [mutation tn_images tn_result]. unfold images_bytes in *. rewrite bind_app, concat_app, len_app. cbn [mbind list_bind app image_chunks concat token_image ai_offset ai_bytes].
    rewrite !len_app, !len_le_bytes, len_token_encode, len_nil. unfold MAX_TRANSACTION_BYTES, CHECKSUM_SIZE, TOKEN_SIZE. lia.
Qed.

(** A call with a new token: the batch is committed under it. *)
Lemma madd_at_applies path receipt_path nb nh c xs token files data :
  let pss := batch_positions nb nh xs in let results := batch_results data pss in
  let data' := overwrite (with_count (set_bits data (concat pss)) (c + total results)) (bits_end nb) (token_encode token) in
  separate path receipt_path -> bloom_inv data nb nh c -> settled path receipt_path (bits_end nb) (bits_end nb + TOKEN_SIZE) files data ->
  token_ok token -> mt_index token <> 0 -> token_cmp (token_at data (bits_end nb)) token = Lt -> len xs * nh <= MAX_BLOOM_HASH_VISITS ->
  exists files' encoded, bloom_transactional_madd path receipt_path nb nh xs token (mkWorld files []) = (Ok results, mkWorld files' []) /\
    answered path receipt_path (bits_end nb) (bits_end nb + TOKEN_SIZE) files' data' token encoded /\ bloom_decode_results encoded (len xs) = Ok results.
Proof using CL.
  intros pss results data' Hs [Hf Hcnt] Hst Ht Hne Hc Hw. pose proof (bf_nb _ _ _ _ Hf) as Hnb. destruct (bits_end_range nb Hnb) as [H0 H1]. unfold bloom_transactional_madd.
  rewrite token_offset_ok, file_size_ok by done. rewrite !sbind_slift_Ok. rewrite (sbind_Ok _ _ _ _ _ (effective_token_log _ _ _ _ _ _ Hne)).
  destruct (begin_settled path receipt_path (bits_end nb) (bits_end nb + TOKEN_SIZE) Hs H0 eq_refl H1 token files data Hst Hc) as (files1 & E1 & Hst1). rewrite (sbind_Ok _ _ _ _ _ E1).
  destruct Hst1 as (Ed1 & Hl1 & _). rewrite (sbind_Ok _ _ _ _ _ (read_header_healthy path files1 data nb nh c Ed1 Hf)). rewrite !Z.eqb_refl. cbn [negb orb].
  destruct (stage_transactional_healthy path files1 data nb nh c xs Ed1 Hf Hw) as (images & E2 & Ep & Hi & Hli & Hlb). cbv zeta in E2, Ep. fold pss in E2, Ep. fold results in E2, Ep. rewrite (sbind_Ok _ _ _ _ _ E2).
  destruct (encode_results_ok data pss) as (encoded & Ee & Hle & Ed). fold results in Ee, Ed. rewrite Ee, sbind_slift_Ok.
  assert (len pss = len xs) as Hlx by (unfold pss, batch_positions; by rewrite len_map). pose proof (bf_nh _ _ _ _ Hf). pose proof (len_nonneg xs).
  assert (len encoded <= MAX_BLOOM_HASH_VISITS) as Hlr by (rewrite Hle, Hlx; nia).
  destruct (mutation_commit_healthy path receipt_path (bits_end nb) (bits_end nb + TOKEN_SIZE) Hs H0 eq_refl H1 token images encoded files1 data Hi Ed1 Hl1 (mutation_transaction_ok nb token images encoded Hnb Ht Hi Hli Hlb Hlr)) as (files2 & E3 & Hans).
  rewrite (sbind_Ok _ _ _ _ _ E3). exists files2, encoded. split; [done|]. split.
  - unfold mutated in Hans. rewrite patched_app, Ep in Hans. exact Hans.
  - unfold bloom_decode_results. by rewrite Hle, Hlx, Z.eqb_refl.
Qed.

Lemma madd_at_run path receipt_path nb nh c xs token files data : files !! path = Some data -> bloom_file data nb nh c -> mt_index token <> 0 ->
  bloom_file_madd_at path receipt_path xs (mt_index token) (mt_ordinal token) (mkWorld files []) = reply_of (bloom_transactional_madd path receipt_path nb nh xs token (mkWorld files [])).
Proof using Type.
  intros Ed Hf Hne. unfold bloom_file_madd_at. unfold token_eqb at 1. cbn [mt_index mt_ordinal ZERO]. rewrite (proj2 (Z.eqb_neq _ _) Hne). cbn [andb].
  rewrite (proj1 (with_sidecar_healthy path files data _ Ed)). rewrite (sbind_Ok _ _ _ _ _ (read_header_healthy path files data nb nh c Ed Hf)). by destruct token.
Qed.

(** C32: an entry is applied once.  A batch that carries a new token gives the replies of the
    plain batch and leaves the plain batch's file with the token in the footer; the same
    entry run again gives the same replies and changes nothing in the filter; an entry with
    an older token changes nothing and answers zeros. *)
Theorem bloom_entry_once path receipt_path nb nh c xs token files data :
  separate path receipt_path -> bloom_inv data nb nh c -> settled path receipt_path (bits_end nb) (bits_end nb + TOKEN_SIZE) files data ->
  token_ok token -> mt_index token <> 0 -> token_cmp (token_at data (bits_end nb)) token = Lt -> len xs * nh <= MAX_BLOOM_HASH_VISITS ->
  exists rs plain files1 files2,
    bloom_file_madd path xs (mkWorld files []) = (ReplyOk rs, mkWorld (<[path := plain]> files) []) /\
    bloom_file_madd_at path receipt_path xs (mt_index token) (mt_ordinal token) (mkWorld files []) = (ReplyOk rs, mkWorld files1 []) /\
    files1 !! path = Some (overwrite plain (bits_end nb) (token_encode token)) /\
    bloom_file_madd_at path receipt_path xs (mt_index token) (mt_ordinal token) (mkWorld files1 []) = (ReplyOk rs, mkWorld files2 []) /\
    files2 !! path = files1 !! path /\
    forall ys old, token_ok old -> mt_index old <> 0 -> token_cmp old token = Lt -> exists files3,
      bloom_file_madd_at path receipt_path ys (mt_index old) (mt_ordinal old) (mkWorld files2 []) = (ReplyOk (replicate (length ys) 0), mkWorld files3 []) /\ files3 !! path = files1 !! path.
Proof using CL.
  intros Hs Hinv Hst Ht Hne Hc Hw. pose proof Hinv as [Hf _]. pose proof Hst as (Ed & Hl & _). pose proof (bf_nb _ _ _ _ Hf) as Hnb. destruct (bits_end_range nb Hnb) as [H0 H1].
  set (pss := batch_positions nb nh xs). set (results := batch_results data pss). set (plain := with_count (set_bits data (concat pss)) (c + total results)).
  destruct (madd_at_applies path receipt_path nb nh c xs token files data Hs Hinv Hst Ht Hne Hc Hw) as (files1 & encoded & E1 & Hans & Edec). fold pss in E1, Hans, Edec. fold results in E1, Hans, Edec. fold plain in Hans.
  pose proof (bloom_inv_batch data nb nh c xs Hinv) as [Hfp _]. cbv zeta in Hfp. fold pss in Hfp. fold results in Hfp. fold plain in Hfp. pose proof (bloom_file_footer _ _ _ _ token Hfp) as Hf1. pose proof Hans as (Ed1 & _).
  destruct (begin_answered path receipt_path (bits_end nb) (bits_end nb + TOKEN_SIZE) Hs H0 eq_refl H1 files1 _ token encoded Hans) as (files2 & E2 & Hans2). pose proof Hans2 as (Ed2 & Hl2 & Et2 & _).
  exists results, plain, files1, files2. split; [by apply bloom_madd_healthy|]. split; [by rewrite (madd_at_run path receipt_path nb nh c xs token files data Ed Hf Hne), E1|]. split; [done|]. split.
  { rewrite (madd_at_run path receipt_path nb nh _ xs token files1 _ Ed1 Hf1 Hne). unfold bloom_transactional_madd. rewrite token_offset_ok, file_size_ok by done. rewrite !sbind_slift_Ok.
    rewrite (sbind_Ok _ _ _ _ _ (effective_token_log _ _ _ _ _ _ Hne)). rewrite (sbind_Ok _ _ _ _ _ E2). unfold slift. by rewrite Edec. }
  split; [by rewrite Ed1, Ed2|]. intros ys old Ho Hone Hlt.
  destruct (begin_stale path receipt_path (bits_end nb) (bits_end nb + TOKEN_SIZE) Hs H0 eq_refl H1 old files2 _ (answered_settled _ _ _ _ _ _ _ _ Hans2)) as (files3 & E3 & (Ed3 & _)); [by rewrite Et2|].
  exists files3. split; [|by rewrite Ed3, Ed1]. rewrite (madd_at_run path receipt_path nb nh _ ys old files2 _ Ed2 Hf1 Hone). unfold bloom_transactional_madd. rewrite token_offset_ok, file_size_ok by done. rewrite !sbind_slift_Ok.
  rewrite (sbind_Ok _ _ _ _ _ (effective_token_log _ _ _ _ _ _ Hone)). rewrite (sbind_Ok _ _ _ _ _ E3). unfold slift, bloom_stale_results. by rewrite len_to_nat.
Qed.
End Contract.

(** ** Witnesses *)

Module BloomExample.
#[local] Existing Instance crc32_iso_hdlc.
#[local] Existing Instance sum_xxh3.

Definition ops : list bloom_op := [OpAdd (lit "a"); OpMadd [lit "b"; lit "a"; lit "c"]].
Definition data : bytes := fresh 64 3.
Definition files : gmap string bytes := {["f" := data]}.
Definition entry : MutationToken := mkMutationToken 7 1.

Lemma ops_fit : Forall (fun op => len (op_elements op) * 3 <= MAX_BLOOM_HASH_VISITS) ops.
Proof. repeat constructor; vm_compute; discriminate. Qed.
Lemma bloom_sep : separate "f" "f".
Proof. split; discriminate. Qed.
Lemma inv : bloom_inv data 64 3 0.
Proof. apply bloom_inv_fresh; vm_compute; split; done || discriminate. Qed.
Lemma settled_files : settled "f" "f" (bits_end 64) (bits_end 64 + TOKEN_SIZE) files data.
Proof. split; [reflexivity|]. split; [vm_compute; reflexivity|exact I]. Qed.
End BloomExample.

Lemma bloom_membership_witness : exists w1 w2 rss,
  @bloom_file_create "f" 64 3 (mkWorld ∅ []) = (Ok tt, w1) /\ @run_ops sum_xxh3 "f" BloomExample.ops w1 = (map ReplyOk rss, w2) /\
  @bloom_file_exists sum_xxh3 "f" (lit "a") w2 = (ReplyOk (if @all_covered sum_xxh3 64 3 (BloomExample.ops ≫= op_elements) (lit "a") then 1 else 0), w2) /\
  (lit "a" ∈ BloomExample.ops ≫= op_elements -> @bloom_file_exists sum_xxh3 "f" (lit "a") w2 = (ReplyOk 1, w2)).
Proof. apply (@bloom_membership sum_xxh3 "f" 64 3 BloomExample.ops ∅ (lit "a")); [vm_compute; split; done || discriminate..|exact BloomExample.ops_fit]. Defined.

Lemma bloom_batch_sequential_witness : exists rs data',
  @bloom_file_madd sum_xxh3 "f" [lit "x"; lit "y"] (mkWorld BloomExample.files []) = (ReplyOk rs, mkWorld (<["f" := data']> BloomExample.files) []) /\
  @run_ops sum_xxh3 "f" (map OpAdd [lit "x"; lit "y"]) (mkWorld BloomExample.files []) = (map (fun r => ReplyOk [r]) rs, mkWorld (<["f" := data']> BloomExample.files) []) /\
  bloom_inv data' 64 3 (0 + total rs).
Proof. apply (@bloom_batch_sequential sum_xxh3 "f" 64 3 [lit "x"; lit "y"] BloomExample.files BloomExample.data 0); [reflexivity|exact BloomExample.inv|vm_compute; discriminate]. Defined.

Lemma bloom_entry_once_witness : exists rs plain files1 files2,
  @bloom_file_madd sum_xxh3 "f" [lit "x"; lit "y"] (mkWorld BloomExample.files []) = (ReplyOk rs, mkWorld (<["f" := plain]> BloomExample.files) []) /\
  @bloom_file_madd_at crc32_iso_hdlc sum_xxh3 "f" "f" [lit "x"; lit "y"] 7 1 (mkWorld BloomExample.files []) = (ReplyOk rs, mkWorld files1 []) /\
  files1 !! "f" = Some (overwrite plain (bits_end 64) (token_encode BloomExample.entry)) /\
  @bloom_file_madd_at crc32_iso_hdlc sum_xxh3 "f" "f" [lit "x"; lit "y"] 7 1 (mkWorld files1 []) = (ReplyOk rs, mkWorld files2 []) /\
  files2 !! "f" = files1 !! "f" /\
  forall ys old, token_ok old -> mt_index old <> 0 -> token_cmp old BloomExample.entry = Lt -> exists files3,
    @bloom_file_madd_at crc32_iso_hdlc sum_xxh3 "f" "f" ys (mt_index old) (mt_ordinal old) (mkWorld files2 []) = (ReplyOk (replicate (length ys) 0), mkWorld files3 []) /\ files3 !! "f" = files1 !! "f".
Proof.
  apply (@bloom_entry_once crc32_iso_hdlc _ sum_xxh3 "f" "f" 64 3 0 [lit "x"; lit "y"] BloomExample.entry BloomExample.files BloomExample.data).
  - exact BloomExample.bloom_sep.
  - exact BloomExample.inv.
  - exact BloomExample.settled_files.
  - vm_compute. repeat split; discriminate.
  - discriminate.
  - vm_compute. reflexivity.
  - vm_compute. discriminate.
Defined.
