(* ===== verification/Cms.v ===== *)
(** * Count-min sketches (cms.rs)

    A sketch is a file: a 32-byte header (magic number, width, depth, total), a matrix of
    64-bit signed counters in row-major order, and the token of its newest mutation.  An
    increment adds to one counter per row; a query takes the least of them.  Increments are
    staged in a map from offsets to values before anything is written; a merge replaces the
    counters by a weighted sum of other sketches, chunk by chunk.

    The hash functions are the FNV-1a of the source. *)

From Stdlib Require Import ZArith Lia.
From stdpp Require Import gmap strings sorting.
From S2P Require Import Prelude Bytes Crc Sidecar ProbTxn.

Definition MMAP_MAGIC : Z := 0x434D535F46494C31.
Definition MMAP_HEADER_SIZE : Z := 32.
Definition MAX_CMS_DEPTH : Z := 1024.
Definition MAX_CMS_COUNTERS : Z := 16777216.
Definition MAX_CMS_MERGE_SOURCES : Z := 128.
Definition MAX_CMS_MERGE_COUNTER_VISITS : Z := MAX_CMS_COUNTERS.
Definition CMS_MERGE_CHUNK_COUNTERS : Z := 8192.

(** ** Hashes *)

Definition fnv_step (hash : Z) (b : byte) : Z := wrap64 (Z.lxor hash (byte_val b) * 0x0100000001b3).
Definition fnv1a_standalone (data : bytes) : Z := foldl fnv_step 0xcbf29ce484222325 data.
Definition fnv1a_salted_standalone (data : bytes) : Z := foldl fnv_step (foldl fnv_step 0xcbf29ce484222325 (lit "__cms_salt__")) data.

Definition hash_indices_standalone (element : bytes) (width depth : Z) : list Z :=
  let h1 := fnv1a_standalone element in
  let h2 := fnv1a_salted_standalone element in
  map (fun i => add64 h1 (wrap64 (i * h2)) mod width) (seqZ 0 depth).

(** ** Layout *)

Definition cms_counter_bytes (width depth : Z) : result Z :=
  let? counters := ok_or (checked_mul64 width depth) "CMS counter region size overflow" in
  if MAX_CMS_COUNTERS <? counters then Err "CMS counter region exceeds 16777216 counters" else
  ok_or (checked_mul64 counters 8) "CMS counter region size overflow".
Definition cms_mutation_token_offset (width depth : Z) : result Z :=
  let? counter_bytes := cms_counter_bytes width depth in
  ok_or (checked_add64 MMAP_HEADER_SIZE counter_bytes) "CMS mutation token offset overflow".
Definition cms_file_size (width depth : Z) : result Z :=
  let? offset := cms_mutation_token_offset width depth in
  ok_or (checked_add64 offset TOKEN_SIZE) "CMS file size overflow".

Definition cms_next_total_count (total_count count : Z) : result Z :=
  if 0 <=? count then ok_or (checked_add64 total_count count) "CMS total count overflow"
  else Ok (saturating_sub64 total_count (- count)).

Definition cms_next_merge_total_count (total_count src_count weight : Z) : result Z :=
  let? delta := ok_or (checked_i128 (src_count * weight)) "CMS total count overflow" in
  let? next := ok_or (checked_i128 (total_count + delta)) "CMS total count overflow" in
  if next <? 0 then Err "CMS total count cannot be negative" else
  if u64_max <? next then Err "CMS total count overflow" else Ok next.

Definition cms_finalize_merge_counter (acc : Z) : result Z :=
  if acc <? 0 then Err "CMS counter cannot be negative" else
  if i64_max <? acc then Err "CMS counter overflow" else Ok acc.

Definition cms_read_exact_at (file : string) (n offset : Z) (label : string) : SR World bytes := read_exact_as "read " "CMS file" file n offset label.

Definition cms_file_read_header (file : string) : SR World (Z * Z * Z) :=
  let! header := cms_read_exact_at file MMAP_HEADER_SIZE 0 "header" in
  if negb (le_val (zslice header 0 8) =? MMAP_MAGIC) then serr "invalid CMS file magic" else
  let width := le_val (zslice header 8 16) in
  let depth := le_val (zslice header 16 24) in
  let count := le_val (zslice header 24 32) in
  if (width =? 0) || (depth =? 0) then serr "width and depth must be > 0" else
  if MAX_CMS_DEPTH <? depth then serr "depth must be <= 1024" else
  let! expected_size := slift (cms_file_size width depth) in
  let! actual_size := map_err (fun e => "read CMS file metadata: " +:+ e) (metadata_len file) in
  if negb (actual_size =? expected_size) then
    serr ("CMS file size mismatch: expected " +:+ pretty expected_size +:+ ", got " +:+ pretty actual_size)
  else sret (width, depth, count).

(** ** Increments *)

Record CmsIncrementPlan : Type := mkCmsIncrementPlan {
  ip_counts : list Z;
  ip_updates : list (Z * Z);
  ip_total_count : Z;
}.

(** The counter of a row: no product overflows, the matrix has at most 2^24 counters. *)
Definition counter_offset (width row col : Z) : Z := MMAP_HEADER_SIZE + (row * width + col) * 8.

Abbreviation Staged := (gmap Z Z).

(** One element: [indices] are its columns from row [row] on. *)
Fixpoint stage_rows (file : string) (width count row : Z) (indices : list Z) (staged : Staged) (min_val : Z) : SR World (Staged * Z) :=
  match indices with
  | [] => sret (staged, min_val)
  | col :: indices =>
      let offset := counter_offset width row col in
      let! current := (match staged !! offset with
                       | Some value => sret value
                       | None => let! buf := cms_read_exact_at file 8 offset "counter" in sret (i64_of (le_val buf))
                       end) in
      let! next := slift (ok_or (checked_i64 (current + count)) ("CMS counter overflow: " +:+ pretty current +:+ " + " +:+ pretty count)) in
      stage_rows file width count (row + 1) indices (<[offset := next]> staged) (Z.min min_val next)
  end.

Fixpoint stage_items (file : string) (width depth : Z) (items : list (bytes * Z)) (staged : Staged) (total_count : Z) : SR World (list Z * Staged * Z) :=
  match items with
  | [] => sret ([], staged, total_count)
  | (element, count) :: items =>
      let! (staged, min_val) := stage_rows file width count 0 (hash_indices_standalone element width depth) staged i64_max in
      let! total_count := slift (cms_next_total_count total_count count) in
      let! (counts, staged, total_count) := stage_items file width depth items staged total_count in
      sret (min_val :: counts, staged, total_count)
  end.

(** [sort_unstable_by_key] on distinct offsets. *)
Definition by_offset (a b : Z * Z) : Prop := a.1 <= b.1.
#[export] Instance by_offset_dec a b : Decision (by_offset a b) := decide (a.1 <= b.1).
Definition sorted_updates (staged : Staged) : list (Z * Z) := merge_sort by_offset (map_to_list staged).

Definition cms_stage_increments (file : string) (width depth total_count : Z) (items : list (bytes * Z)) : SR World CmsIncrementPlan :=
  if (width =? 0) || (depth =? 0) then serr "width and depth must be > 0" else
  let! (counts, staged, total_count) := stage_items file width depth items ∅ total_count in
  sret (mkCmsIncrementPlan counts (sorted_updates staged) total_count).

(** ** Queries *)

Fixpoint query_rows (file : string) (width row : Z) (indices : list Z) (min_val : Z) : SR World Z :=
  match indices with
  | [] => sret min_val
  | col :: indices =>
      let! buf := cms_read_exact_at file 8 (counter_offset width row col) "counter" in
      query_rows file width (row + 1) indices (Z.min min_val (i64_of (le_val buf)))
  end.
Fixpoint cms_query_counts (file : string) (width depth : Z) (elements : list bytes) : SR World (list Z) :=
  match elements with
  | [] => sret []
  | element :: elements =>
      let! min_val := query_rows file width 0 (hash_indices_standalone element width depth) i64_max in
      let! counts := cms_query_counts file width depth elements in
      sret (min_val :: counts)
  end.

Definition cms_encode_counts (counts : list Z) : result bytes :=
  let? _ := ok_or (checked_mul64 (len counts) 8) "CMS mutation result size overflow" in
  Ok (counts ≫= le_bytes 8).

(** [chunks_exact(8)], each read as an [i64]. *)
Fixpoint chunk_values (n : nat) (encoded : bytes) : list Z :=
  match n with
  | O => []
  | S n => i64_of (le_val (ztake 8 encoded)) :: chunk_values n (zdrop 8 encoded)
  end.
Definition cms_decode_counts (encoded : bytes) (expected_count : Z) : result (list Z) :=
  let? expected_len := ok_or (checked_mul64 expected_count 8) "CMS mutation result size overflow" in
  if negb (len encoded =? expected_len) then Err "CMS mutation receipt result length mismatch"
  else Ok (chunk_values (Z.to_nat (len encoded / 8)) encoded).

Section Cms.
Context `{C : Crc32fast}.

Definition update_image (u : Z * Z) : AfterImage := mkAfterImage u.1 (le_bytes 8 u.2).

Definition cms_transactional_incrby (file receipt_path : string) (width depth : Z) (items : list (bytes * Z)) (token : MutationToken) : SR World (list Z) :=
  let! token_offset := slift (cms_mutation_token_offset width depth) in
  let! expected_file_size := slift (cms_file_size width depth) in
  let! token := effective_token file receipt_path token token_offset expected_file_size in
  let! decision := begin_ file receipt_path token token_offset expected_file_size in
  match decision with
  | Replay result => slift (cms_decode_counts result (len items))
  | Stale => cms_query_counts file width depth (map fst items)
  | Apply =>
      let! (_, _, total_count) := cms_file_read_header file in
      let! plan := cms_stage_increments file width depth total_count items in
      let images := map update_image (ip_updates plan) ++ [mkAfterImage 24 (le_bytes 8 (ip_total_count plan))] in
      let! result := slift (cms_encode_counts (ip_counts plan)) in
      let! _ := commit file receipt_path token token_offset expected_file_size images result in
      sret (ip_counts plan)
  end.

Definition cms_recover_sidecar (path : string) : SR World unit :=
  let! opened := map_err (fun e => "open CMS sidecar for recovery: " +:+ e) (open_random_rw_locked path) in
  match opened with
  | None => serr "open CMS sidecar for recovery: No such file or directory (os error 2)"
  | Some file =>
      let! (width, depth, _) := cms_file_read_header file in
      let! token_offset := slift (cms_mutation_token_offset width depth) in
      let! file_size := slift (cms_file_size width depth) in
      recover file path token_offset file_size
  end.

Definition cms_header (width depth : Z) : bytes :=
  let header := replicate 32 x00 in
  let header := copy_from_slice header 0 (le_bytes 8 MMAP_MAGIC) in
  let header := copy_from_slice header 8 (le_bytes 8 width) in
  copy_from_slice header 16 (le_bytes 8 depth).

Definition cms_file_create (path : string) (width depth : Z) : SR World unit :=
  if width =? 0 then serr "width must be > 0" else
  if depth =? 0 then serr "depth must be > 0" else
  if MAX_CMS_DEPTH <? depth then serr "depth must be <= 1024" else
  let! file_size := slift (cms_file_size width depth) in
  create_sidecar path (cms_header width depth) file_size.

Fixpoint write_updates (file : string) (updates : list (Z * Z)) : SR World unit :=
  match updates with
  | [] => sret tt
  | (offset, next_val) :: updates =>
      let! _ := write_all_at file (le_bytes 8 next_val) offset "cms counter" in
      write_updates file updates
  end.

Definition cms_file_incrby (path : string) (items : list (bytes * Z)) : World -> reply (list Z) * World :=
  with_sidecar open_random_rw_locked path (fun file =>
    let! (width, depth, total_count) := cms_file_read_header file in
    let! plan := cms_stage_increments file width depth total_count items in
    let! _ := write_updates file (ip_updates plan) in
    let! _ := write_all_at file (le_bytes 8 (ip_total_count plan)) 24 "cms count" in
    let! _ := prob_fsync file in
    sret (ip_counts plan)).

Definition cms_file_incrby_at (path receipt_path : string) (items : list (bytes * Z)) (mutation_index mutation_ordinal : Z) : World -> reply (list Z) * World :=
  let token := mkMutationToken mutation_index mutation_ordinal in
  if token_eqb token ZERO then fun w => (ReplyError "CMS mutation token must be non-zero", w) else
  with_sidecar open_random_rw_locked path (fun file =>
    let! (width, depth, _) := cms_file_read_header file in
    cms_transactional_incrby file receipt_path width depth items token).

Definition cms_query_body (elements : list bytes) (file : string) : SR World (list Z) :=
  let! (width, depth, _) := cms_file_read_header file in
  cms_query_counts file width depth elements.
Definition cms_file_query (path : string) (elements : list bytes) : World -> reply (list Z) * World := with_sidecar open_random_read_locked path (cms_query_body elements).
Definition cms_file_query_async (path : string) (elements : list bytes) : SR World (list Z) := with_sidecar_task path (cms_query_body elements).
Definition cms_file_info (path : string) : World -> reply (Z * Z * Z) * World := with_sidecar open_random_read_locked path cms_file_read_header.
Definition cms_file_info_async (path : string) : SR World (Z * Z * Z) := with_sidecar_task path cms_file_read_header.

(** ** Merges *)

(** The headers of the sources, checked against the destination. *)
Fixpoint source_counts (width depth : Z) (sources : list string) : SR World (list Z) :=
  match sources with
  | [] => sret []
  | source :: sources =>
      let! (source_width, source_depth, source_count) := cms_file_read_header source in
      if negb (source_width =? width) || negb (source_depth =? depth) then serr "width/depth mismatch" else
      let! counts := source_counts width depth sources in
      sret (source_count :: counts)
  end.

Fixpoint merged_total (total_count : Z) (counts : list (Z * Z)) : result Z :=
  match counts with
  | [] => Ok total_count
  | (source_count, weight) :: counts =>
      let? total_count := cms_next_merge_total_count total_count source_count weight in
      merged_total total_count counts
  end.

(** One source's chunk added to the accumulators. *)
Fixpoint accumulate (weight : Z) (accumulators values : list Z) : result (list Z) :=
  match accumulators, values with
  | accumulator :: accumulators, value :: values =>
      let? accumulator := ok_or (checked_i128 (accumulator + value * weight)) "CMS counter overflow" in
      let? accumulators := accumulate weight accumulators values in
      Ok (accumulator :: accumulators)
  | accumulators, _ => Ok accumulators
  end.
Fixpoint accumulate_sources (offset byte_count : Z) (sources : list (string * Z)) (accumulators : list Z) : SR World (list Z) :=
  match sources with
  | [] => sret accumulators
  | (source, weight) :: sources =>
      let! chunk := cms_read_exact_at source byte_count offset "source chunk" in
      let! accumulators := slift (accumulate weight accumulators (chunk_values (Z.to_nat (byte_count / 8)) chunk)) in
      accumulate_sources offset byte_count sources accumulators
  end.
Fixpoint finalize_counters (accumulators : list Z) : result bytes :=
  match accumulators with
  | [] => Ok []
  | accumulator :: accumulators =>
      let? counter := cms_finalize_merge_counter accumulator in
      let? output := finalize_counters accumulators in
      Ok (le_bytes 8 counter ++ output)
  end.
Fixpoint merge_chunks (total_counters : Z) (sources : list (string * Z)) (chunk_starts : list Z) : SR World (list AfterImage) :=
  match chunk_starts with
  | [] => sret []
  | chunk_start :: chunk_starts =>
      let counter_count := Z.min (total_counters - chunk_start) CMS_MERGE_CHUNK_COUNTERS in
      let byte_count := counter_count * 8 in
      let offset := MMAP_HEADER_SIZE + chunk_start * 8 in
      let! accumulators := accumulate_sources offset byte_count sources (replicate (Z.to_nat counter_count) 0) in
      let! output := slift (finalize_counters accumulators) in
      let! images := merge_chunks total_counters sources chunk_starts in
      sret (mkAfterImage offset output :: images)
  end.

Definition cms_stage_merge (dst_width dst_depth : Z) (sources : list string) (weights : list Z) : SR World (list AfterImage) :=
  if negb (len sources =? len weights) then serr "src_paths and weights must have the same length" else
  let! visits := slift (ok_or (match checked_mul64 dst_width dst_depth with
                               | Some counter_count => checked_mul64 counter_count (len sources)
                               | None => None
                               end) "CMS merge work overflow") in
  if MAX_CMS_MERGE_COUNTER_VISITS <? visits then serr "CMS merge work limit exceeded" else
  let! counts := source_counts dst_width dst_depth sources in
  match sources with
  | [] => sret []
  | _ =>
      let! next_dst_count := slift (merged_total 0 (zip counts weights)) in
      let total_counters := dst_width * dst_depth in
      let chunk_count := (total_counters + CMS_MERGE_CHUNK_COUNTERS - 1) / CMS_MERGE_CHUNK_COUNTERS in
      let! images := merge_chunks total_counters (zip sources weights) (map (Z.mul CMS_MERGE_CHUNK_COUNTERS) (seqZ 0 chunk_count)) in
      sret (images ++ [mkAfterImage 24 (le_bytes 8 next_dst_count)])
  end.

Fixpoint write_merge_images (destination : string) (images : list AfterImage) : SR World unit :=
  match images with
  | [] => sret tt
  | image :: images =>
      let! _ := write_all_at destination (ai_bytes image) (ai_offset image) "cms merge after-image" in
      write_merge_images destination images
  end.
Definition cms_apply_merge_plan (destination : string) (images : list AfterImage) : SR World unit :=
  let! _ := write_merge_images destination images in
  prob_fsync destination.

Definition cms_file_merge (dst_path : string) (src_paths : list string) (weights : list Z) : World -> reply unit * World :=
  if negb (len src_paths =? len weights) then fun w => (ReplyError "src_paths and weights must have the same length", w) else
  if MAX_CMS_MERGE_SOURCES <? len src_paths then fun w => (ReplyError "CMS merge accepts at most 128 sources", w) else
  with_sidecar (fun path => open_random_merge_locked path src_paths) dst_path (fun destination =>
    let! (dst_width, dst_depth, _) := cms_file_read_header destination in
    let! images := cms_stage_merge dst_width dst_depth src_paths weights in
    match images with
    | [] => sret tt
    | _ => cms_apply_merge_plan destination images
    end).

(** The decision on an entry before the sources are opened, and again under the locks. *)
Definition merge_decision (destination receipt_path : string) (token : MutationToken) : SR World (option (Z * Z * MutationToken * (Z * Z))) :=
  let! (width, depth, _) := cms_file_read_header destination in
  let! token_offset := slift (cms_mutation_token_offset width depth) in
  let! file_size := slift (cms_file_size width depth) in
  let! token := effective_token destination receipt_path token token_offset file_size in
  let! decision := begin_ destination receipt_path token token_offset file_size in
  match decision with
  | Replay _ | Stale => sret None
  | Apply => sret (Some (width, depth, token, (token_offset, file_size)))
  end.

Definition cms_file_merge_at (dst_path receipt_path : string) (src_paths : list string) (weights : list Z) (mutation_index mutation_ordinal : Z) : World -> reply unit * World :=
  if negb (len src_paths =? len weights) then fun w => (ReplyError "src_paths and weights must have the same length", w) else
  if MAX_CMS_MERGE_SOURCES <? len src_paths then fun w => (ReplyError "CMS merge accepts at most 128 sources", w) else
  let token := mkMutationToken mutation_index mutation_ordinal in
  if token_eqb token ZERO then fun w => (ReplyError "CMS mutation token must be non-zero", w) else
  fun w =>
  match with_sidecar open_random_rw_locked dst_path (fun destination => merge_decision destination receipt_path token) w with
  | (ReplyOk None, w) => (ReplyOk tt, w)
  | (ReplyOk (Some _), w) =>
      with_sidecar (fun path => open_random_merge_locked path src_paths) dst_path (fun destination =>
        let! decision := merge_decision destination receipt_path token in
        match decision with
        | None => sret tt
        | Some (width, depth, token, (token_offset, file_size)) =>
            let! images := cms_stage_merge width depth src_paths weights in
            match images with
            | [] => sret tt
            | _ => commit destination receipt_path token token_offset file_size images []
            end
        end) w
  | (ReplyEnoent, w) => (ReplyEnoent, w)
  | (ReplyError e, w) => (ReplyError e, w)
  | (ReplyPanic, w) => (ReplyPanic, w)
  end.
End Cms.
