(* ===== verification/CmsProof.v ===== *)
(** * What the operations on count-min sketches do

    A sketch is read as a matrix of integers, a function of row and column.  The abstract
    increment [spec_items] adds to one cell per row and fails when a cell or the total
    leaves its width; the staged increments on a file do exactly that, or fail and leave the
    file alone. *)

From Stdlib Require Import ZArith Lia.
From stdpp Require Import gmap strings sorting.
From S2P Require Import Prelude Bytes Crc Sidecar ProbTxn ProbTxnProof Cms.

(** ** Counters in a file *)

Definition i64_ok (z : Z) : Prop := - 9223372036854775808 <= z <= i64_max.
#[export] Instance i64_ok_dec z : Decision (i64_ok z).
Proof. unfold i64_ok. apply _. Defined.

Lemma i64_of_le v : i64_ok v -> i64_of (le_val (le_bytes 8 v)) = v.
Proof.
  intros Hv. rewrite le_val_le_bytes. change (256 ^ Z.of_nat 8) with 18446744073709551616. unfold i64_of, i64_ok, i64_max in *.
  destruct (Z.leb_spec (v mod 18446744073709551616) 9223372036854775807); Z.to_euclidean_division_equations; lia.
Qed.

Lemma i64_of_ok z : u64_ok z -> i64_ok (i64_of z).
Proof. unfold u64_ok, i64_ok, i64_of, u64_max, i64_max. intros H. destruct (Z.leb_spec z 9223372036854775807); lia. Qed.

Lemma checked_i64_iff z v : checked_i64 z = Some v <-> i64_ok z /\ v = z.
Proof.
  unfold checked_i64, i64_ok. destruct (Z.leb_spec (- 9223372036854775808) z), (Z.leb_spec z i64_max); cbn [andb]; split; try (intros [? ?]; lia); try done; [by intros [= ->]|by intros [_ ->]].
Qed.

(** The least of the values at some rows. *)
Lemma foldl_min_bounds (f : Z -> Z) (rows : list Z) : forall m, foldl (fun m r => Z.min m (f r)) m rows <= m /\ (forall r, r ∈ rows -> foldl (fun m r => Z.min m (f r)) m rows <= f r) /\
  forall b, b <= m -> (forall r, r ∈ rows -> b <= f r) -> b <= foldl (fun m r => Z.min m (f r)) m rows.
Proof.
  induction rows as [|r rows IH]; intros m; cbn [foldl]; [split; [lia|]; split; [intros r Hr; by apply elem_of_nil in Hr|done]|]. destruct (IH (Z.min m (f r))) as (H1 & H2 & H3). split; [lia|]. split.
  - intros r' [->|Hr]%elem_of_cons; [lia|by apply H2].
  - intros b Hb Hr. apply H3; [|intros r' Hr'; apply Hr; by right]. specialize (Hr r (list_elem_of_here _ _)). lia.
Qed.

Definition counter (data : bytes) (o : Z) : Z := i64_of (le_val (zslice data o (o + 8))).
Definition set_counter (data : bytes) (u : Z * Z) : bytes := overwrite data u.1 (le_bytes 8 u.2).

Lemma counter_ok data o : 0 <= o -> o + 8 <= len data -> i64_ok (counter data o).
Proof. intros H0 Hl. apply i64_of_ok, le_val_u64_ok. rewrite len_zslice by lia. lia. Qed.

Lemma len_set_counter data o v : 0 <= o -> o + 8 <= len data -> len (set_counter data (o, v)) = len data.
Proof. intros H0 Hl. unfold set_counter. cbn [fst snd]. rewrite len_overwrite, len_le_bytes by lia. lia. Qed.

Lemma counter_set_same data o v : 0 <= o -> o + 8 <= len data -> i64_ok v -> counter (set_counter data (o, v)) o = v.
Proof.
  intros H0 Hl Hv. unfold counter, set_counter. cbn [fst snd]. pose proof (overwrite_at data o (le_bytes 8 v) ltac:(lia)) as E. rewrite len_le_bytes in E. change (o + Z.of_nat 8) with (o + 8) in E.
  by rewrite E, i64_of_le.
Qed.

Lemma counter_set_other data o v o' : 0 <= o -> o + 8 <= len data -> 0 <= o' -> o' + 8 <= len data -> o' + 8 <= o \/ o + 8 <= o' -> counter (set_counter data (o, v)) o' = counter data o'.
Proof.
  intros H0 Hl H0' Hl' Hd. unfold counter, set_counter. cbn [fst snd]. destruct Hd.
  - by rewrite overwrite_before by lia.
  - by rewrite overwrite_after by (rewrite ?len_le_bytes; lia).
Qed.

(** ** Cells *)

Definition in_matrix (w d row col : Z) : Prop := 0 <= row < d /\ 0 <= col < w.
Definition column (x : bytes) (w row : Z) : Z := add64 (fnv1a_standalone x) (wrap64 (row * fnv1a_salted_standalone x)) mod w.

Lemma hash_indices_eq x w d : hash_indices_standalone x w d = map (column x w) (seqZ 0 d).
Proof. done. Qed.

Lemma column_range x w row : 0 < w -> 0 <= column x w row < w.
Proof. intros H. by apply Z.mod_pos_bound. Qed.

Lemma cell_inj w d r c r' c' : in_matrix w d r c -> in_matrix w d r' c' -> counter_offset w r c = counter_offset w r' c' -> r = r' /\ c = c'.
Proof.
  intros [Hr Hc] [Hr' Hc'] E. unfold counter_offset in E. assert (r * w + c = r' * w + c') as E' by lia.
  assert (r = r') as -> by nia. split; [done|lia].
Qed.

Lemma cell_apart w d r c r' c' : in_matrix w d r c -> in_matrix w d r' c' -> (r, c) <> (r', c') ->
  counter_offset w r' c' + 8 <= counter_offset w r c \/ counter_offset w r c + 8 <= counter_offset w r' c'.
Proof.
  intros H H' Hne. destruct (Z.lt_trichotomy (r * w + c) (r' * w + c')) as [Hlt|[E|Hgt]]; unfold counter_offset; [right; lia| |left; lia].
  exfalso. apply Hne. assert (counter_offset w r c = counter_offset w r' c') as E' by (unfold counter_offset; lia). by destruct (cell_inj w d r c r' c' H H' E') as [-> ->].
Qed.

Lemma cell_bounds w d r c : in_matrix w d r c -> MMAP_HEADER_SIZE <= counter_offset w r c /\ counter_offset w r c + 8 <= MMAP_HEADER_SIZE + w * d * 8.
Proof. intros [Hr Hc]. unfold counter_offset. nia. Qed.

(** ** Sketch files *)

Definition counters_end (w d : Z) : Z := MMAP_HEADER_SIZE + w * d * 8.

Record cms_file (data : bytes) (w d n : Z) : Prop := {
  cf_magic : zslice data 0 8 = le_bytes 8 MMAP_MAGIC;
  cf_width : zslice data 8 16 = le_bytes 8 w;
  cf_depth : zslice data 16 24 = le_bytes 8 d;
  cf_count : zslice data 24 32 = le_bytes 8 n;
  cf_w : 0 < w;
  cf_d : 0 < d <= MAX_CMS_DEPTH;
  cf_wd : w * d <= MAX_CMS_COUNTERS;
  cf_n : u64_ok n;
  cf_len : len data = counters_end w d + TOKEN_SIZE;
}.

(** The matrix of a file. *)
Definition matrix : Type := Z -> Z -> Z.
Definition holds (data : bytes) (w d : Z) (g : matrix) : Prop := forall r c, in_matrix w d r c -> counter data (counter_offset w r c) = g r c.

Lemma counters_end_range w d : 0 < w -> 0 < d -> w * d <= MAX_CMS_COUNTERS -> 40 <= counters_end w d /\ counters_end w d + TOKEN_SIZE <= u64_max.
Proof. intros Hw Hd H. unfold counters_end, MMAP_HEADER_SIZE, MAX_CMS_COUNTERS, TOKEN_SIZE, u64_max in *. nia. Qed.

Lemma cms_token_offset_ok w d : 0 < w -> 0 < d -> w * d <= MAX_CMS_COUNTERS -> cms_mutation_token_offset w d = Ok (counters_end w d).
Proof.
  intros Hw Hd H. pose proof (counters_end_range w d Hw Hd H) as [_ Hr]. unfold cms_mutation_token_offset, cms_counter_bytes, checked_mul64, checked_add64, counters_end, TOKEN_SIZE in *.
  unfold MAX_CMS_COUNTERS in *. assert (u64_max = 18446744073709551615) as Hu by done. rewrite (proj2 (Z.leb_le (w * d) _)) by lia. cbn [ok_or rbind].
  rewrite (proj2 (Z.ltb_ge _ (w * d))) by lia. rewrite (proj2 (Z.leb_le (w * d * 8) _)) by lia. cbn [ok_or rbind]. unfold MMAP_HEADER_SIZE in *. by rewrite (proj2 (Z.leb_le _ _)) by lia.
Qed.

Lemma cms_file_size_ok w d : 0 < w -> 0 < d -> w * d <= MAX_CMS_COUNTERS -> cms_file_size w d = Ok (counters_end w d + TOKEN_SIZE).
Proof.
  intros Hw Hd H. unfold cms_file_size. rewrite cms_token_offset_ok by done. cbn [rbind]. unfold checked_add64. pose proof (counters_end_range w d Hw Hd H) as [_ ?]. by rewrite (proj2 (Z.leb_le _ _)) by lia.
Qed.

Lemma cms_header_healthy file files data w d n : files !! file = Some data -> cms_file data w d n ->
  cms_file_read_header file (mkWorld files []) = (Ok (w, d, n), mkWorld files []).
Proof.
  intros Ed [H1 H2 H3 H4 Hw Hd Hwd Hn Hlen]. pose proof (counters_end_range w d Hw ltac:(lia) Hwd) as [Hc1 Hc2]. unfold cms_file_read_header, cms_read_exact_at. unfold TOKEN_SIZE in Hlen.
  rewrite (sbind_Ok _ _ _ _ _ (read_exact_as_healthy "read " "CMS file" file MMAP_HEADER_SIZE 0 "header" files data (zslice data 0 32) Ed (get_range_Some data 0 32 ltac:(lia) ltac:(lia) ltac:(lia)))).
  rewrite !zslice_header by lia. rewrite H1, H2, H3, H4. assert (u64_max = 18446744073709551615) as Hu by done. unfold MAX_CMS_DEPTH, MAX_CMS_COUNTERS in *.
  rewrite !le_val_u64 by (done || unfold u64_ok, MMAP_MAGIC; nia). rewrite Z.eqb_refl. cbn [negb]. rewrite (proj2 (Z.eqb_neq w 0)), (proj2 (Z.eqb_neq d 0)) by lia. cbn [orb].
  unfold MAX_CMS_DEPTH. rewrite (proj2 (Z.ltb_ge _ d)) by lia. rewrite cms_file_size_ok by (unfold MAX_CMS_COUNTERS; lia). rewrite sbind_slift_Ok.
  rewrite (sbind_Ok _ _ _ _ _ (metadata_healthy _ file files data Ed)). rewrite Hlen. unfold TOKEN_SIZE. by rewrite Z.eqb_refl.
Qed.

Lemma read_counter_healthy file files data o : files !! file = Some data -> 0 <= o -> o + 8 <= len data ->
  cms_read_exact_at file 8 o "counter" (mkWorld files []) = (Ok (zslice data o (o + 8)), mkWorld files []).
Proof. intros Ed H0 Hl. apply (read_exact_as_healthy _ _ _ _ _ _ _ data); [done|]. apply get_range_Some; lia. Qed.

(** ** The abstract increment *)

(** [count] added to the cell of [x] in every row. *)
Definition add_cells (w d : Z) (x : bytes) (count : Z) (g : matrix) : matrix :=
  fun r c => if bool_decide (0 <= r < d /\ c = column x w r) then g r c + count else g r c.

(** The rows in order: each cell must stay within 64 bits; the least new value is the reply. *)
Fixpoint spec_rows (w : Z) (x : bytes) (count : Z) (rows : list Z) (g : matrix) (least : Z) : option Z :=
  match rows with
  | [] => Some least
  | r :: rows =>
      let next := g r (column x w r) + count in
      if decide (i64_ok next) then spec_rows w x count rows g (Z.min least next) else None
  end.

(** The total: an increase must fit 64 bits, a decrease stops at zero. *)
Definition spec_total (total count : Z) : option Z :=
  if decide (u64_max < total + count /\ 0 <= count) then None else Some (Z.max 0 (total + count)).

(** The elements in order; the batch fails when a cell or the total does. *)
Fixpoint spec_items (w d : Z) (items : list (bytes * Z)) (g : matrix) (total : Z) : option (list Z * matrix * Z) :=
  match items with
  | [] => Some ([], g, total)
  | (x, count) :: items =>
      match spec_rows w x count (seqZ 0 d) g i64_max, spec_total total count with
      | Some least, Some total =>
          match spec_items w d items (add_cells w d x count g) total with
          | Some (counts, g, total) => Some (least :: counts, g, total)
          | None => None
          end
      | _, _ => None
      end
  end.

Lemma next_total_spec total count : 0 <= total ->
  match spec_total total count with
  | Some t => cms_next_total_count total count = Ok t
  | None => exists e, cms_next_total_count total count = Err e
  end.
Proof.
  intros Ht. unfold spec_total, cms_next_total_count, checked_add64, saturating_sub64. destruct (decide _) as [[H1 H2]|H].
  - rewrite (proj2 (Z.leb_le 0 count)), (proj2 (Z.leb_gt _ u64_max)) by lia. by eexists.
  - destruct (Z.leb_spec 0 count); [rewrite (proj2 (Z.leb_le _ u64_max)) by lia; cbn [ok_or]|]; f_equal; lia.
Qed.

Lemma spec_total_ok total count total' : u64_ok total -> spec_total total count = Some total' -> u64_ok total'.
Proof. unfold spec_total, u64_ok. intros Ht. destruct (decide _) as [|H]; [done|]. intros [= <-]. lia. Qed.

(** ** Staged increments *)

(** The staged values over the file are the matrix [g]; only cells are staged. *)
Record stages (data : bytes) (w d : Z) (staged : Staged) (g : matrix) : Prop := {
  sg_value : forall r c, in_matrix w d r c -> default (counter data (counter_offset w r c)) (staged !! counter_offset w r c) = g r c;
  sg_dom : forall o v, staged !! o = Some v -> i64_ok v /\ exists r c, in_matrix w d r c /\ o = counter_offset w r c;
}.

(** [g] with [count] added to the cells of [x] in the rows before [row]. *)
Definition add_cells_below (w : Z) (x : bytes) (count row : Z) (g : matrix) : matrix :=
  fun r c => if bool_decide (0 <= r < row /\ c = column x w r) then g r c + count else g r c.

Lemma stages_insert data w d staged x count row g next : 0 < w -> 0 <= row < d -> stages data w d staged (add_cells_below w x count row g) -> i64_ok next -> next = g row (column x w row) + count ->
  stages data w d (<[counter_offset w row (column x w row) := next]> staged) (add_cells_below w x count (row + 1) g).
Proof.
  intros Hw Hr [Hv Hd] Hn En. pose proof (column_range x w row Hw) as Hcol. assert (in_matrix w d row (column x w row)) as Hrow by (split; lia). split.
  - intros r c Hin. destruct (decide ((r, c) = (row, column x w row))) as [[= -> ->]|Hne].
    + rewrite lookup_insert_eq. unfold add_cells_below. rewrite bool_decide_true by (split; [lia|done]). done.
    + rewrite lookup_insert_ne by (intros E; apply Hne; destruct (cell_inj w d row (column x w row) r c) as [-> ->]; done). rewrite (Hv r c Hin). unfold add_cells_below.
      destruct (decide (0 <= r < row /\ c = column x w r)) as [H|H]; [rewrite !bool_decide_true by (try done; lia); done|]. rewrite !bool_decide_false; [done| |done].
      intros [? ->]. apply H. split; [|done]. assert (r <> row) by congruence. lia.
  - intros o v. destruct (decide (o = counter_offset w row (column x w row))) as [->|]; [rewrite lookup_insert_eq; intros [= <-]|rewrite lookup_insert_ne by done; apply Hd].
    split; [done|]. exists row, (column x w row). done.
Qed.

Lemma stage_rows_healthy file files data w d x count : files !! file = Some data -> 0 < w -> counters_end w d <= len data -> forall n row staged least g, Z.of_nat n = d - row -> 0 <= row ->
  stages data w d staged (add_cells_below w x count row g) ->
  match spec_rows w x count (seqZ row (d - row)) g least with
  | Some least' => exists staged', stage_rows file w count row (map (column x w) (seqZ row (d - row))) staged least (mkWorld files []) = (Ok (staged', least'), mkWorld files []) /\ stages data w d staged' (add_cells_below w x count d g)
  | None => exists e, stage_rows file w count row (map (column x w) (seqZ row (d - row))) staged least (mkWorld files []) = (Err e, mkWorld files [])
  end.
Proof.
  intros Ed Hw Hl. induction n as [|n IH]; intros row staged least g Hn Hrow Hst.
  { replace (d - row) with 0 by lia. cbn. exists staged. split; [done|]. by assert (row = d) as -> by lia. }
  rewrite seqZ_cons by lia. replace (Z.succ row) with (row + 1) by lia. replace (Z.pred (d - row)) with (d - (row + 1)) by lia. cbn [map spec_rows stage_rows].
  pose proof (column_range x w row Hw) as Hcol. assert (in_matrix w d row (column x w row)) as Hin by (split; lia). pose proof (cell_bounds w d row _ Hin) as [Hb1 Hb2]. unfold counters_end, MMAP_HEADER_SIZE in *.
  set (o := counter_offset w row (column x w row)) in *.
  assert ((match staged !! o with Some value => sret value | None => let! buf := cms_read_exact_at file 8 o "counter" in sret (i64_of (le_val buf)) end) (mkWorld files []) = (Ok (g row (column x w row)), mkWorld files [])) as E1.
  { pose proof (sg_value _ _ _ _ _ Hst row (column x w row) Hin) as Hv. fold o in Hv. unfold add_cells_below in Hv. rewrite bool_decide_false in Hv by lia. rewrite <- Hv. destruct (staged !! o) as [v|]; [done|].
    by rewrite (sbind_Ok _ _ _ _ _ (read_counter_healthy file files data o Ed ltac:(lia) ltac:(lia))). }
  rewrite (sbind_Ok _ _ _ _ _ E1). cbv zeta. destruct (decide _) as [Hok|Hno].
  2:{ destruct (checked_i64 _) as [next|] eqn:Ec; [by apply checked_i64_iff in Ec as [? _]|]. cbn [ok_or]. by eexists. }
  rewrite (proj2 (checked_i64_iff _ _) (conj Hok eq_refl)). cbn [ok_or]. rewrite sbind_slift_Ok. specialize (IH (row + 1) (<[o := g row (column x w row) + count]> staged) (Z.min least (g row (column x w row) + count)) g ltac:(lia) ltac:(lia)).
  apply IH. apply stages_insert; try done; lia.
Qed.

Lemma stages_ext data w d staged g g' : (forall r c, in_matrix w d r c -> g r c = g' r c) -> stages data w d staged g -> stages data w d staged g'.
Proof. intros E [Hv Hd]. split; [|done]. intros r c Hin. rewrite <- E by done. by apply Hv. Qed.

Lemma stage_items_healthy file files data w d : files !! file = Some data -> 0 < w -> 0 < d -> counters_end w d <= len data -> forall items staged g total,
  stages data w d staged g -> u64_ok total ->
  match spec_items w d items g total with
  | Some (counts, g', total') => exists staged', stage_items file w d items staged total (mkWorld files []) = (Ok (counts, staged', total'), mkWorld files []) /\ stages data w d staged' g'
  | None => exists e, stage_items file w d items staged total (mkWorld files []) = (Err e, mkWorld files [])
  end.
Proof.
  intros Ed Hw Hd Hl. induction items as [|[x count] items IH]; intros staged g total Hst Hn; cbn [spec_items stage_items]; [by exists staged|].
  rewrite hash_indices_eq. pose proof (stage_rows_healthy file files data w d x count Ed Hw Hl (Z.to_nat d) 0 staged i64_max g ltac:(lia) ltac:(lia)) as H. rewrite Z.sub_0_r in H.
  assert (stages data w d staged (add_cells_below w x count 0 g)) as Hst0.
  { eapply stages_ext; [|exact Hst]. intros r c _. unfold add_cells_below. by rewrite bool_decide_false by lia. }
  specialize (H Hst0). destruct (spec_rows w x count (seqZ 0 d) g i64_max) as [least|].
  - destruct H as (staged1 & E1 & Hst1). rewrite (sbind_Ok _ _ _ _ _ E1). pose proof (next_total_spec total count (proj1 Hn)) as Hnt. destruct (spec_total total count) as [total1|] eqn:Et.
    + apply spec_total_ok in Et; [|done]. rewrite Hnt, sbind_slift_Ok. change (add_cells_below w x count d g) with (add_cells w d x count g) in Hst1. specialize (IH staged1 _ total1 Hst1 Et).
      destruct (spec_items w d items (add_cells w d x count g) total1) as [[[counts g'] total']|].
      * destruct IH as (staged2 & E2 & Hst2). exists staged2. by rewrite (sbind_Ok _ _ _ _ _ E2).
      * destruct IH as (e & E2). exists e. by rewrite (sbind_Err _ _ _ _ _ E2).
    + destruct Hnt as (e & ->). by exists e.
  - destruct H as (e & E1). exists e. by rewrite (sbind_Err _ _ _ _ _ E1).
Qed.

(** ** Writing the staged values *)

Definition apply_updates (data : bytes) (ups : list (Z * Z)) : bytes := foldl set_counter data ups.

Definition cell_update (w d : Z) (u : Z * Z) : Prop := i64_ok u.2 /\ exists r c, in_matrix w d r c /\ u.1 = counter_offset w r c.

Lemma cell_update_bounds w d u : cell_update w d u -> MMAP_HEADER_SIZE <= u.1 /\ u.1 + 8 <= counters_end w d.
Proof. intros (_ & r & c & Hin & ->). by apply cell_bounds. Qed.

Lemma apply_updates_len w d ups : forall data, Forall (cell_update w d) ups -> counters_end w d <= len data -> len (apply_updates data ups) = len data.
Proof.
  induction ups as [|[o v] ups IH]; intros data Hu Hl; [done|]. apply Forall_cons in Hu as [Hu1 Hu]. pose proof (cell_update_bounds w d _ Hu1) as [H1 H2]. cbn [fst] in *. unfold MMAP_HEADER_SIZE in *.
  change (len (apply_updates (set_counter data (o, v)) ups) = len data). pose proof (len_set_counter data o v ltac:(lia) ltac:(lia)). rewrite IH; [done|done|lia].
Qed.

Lemma apply_updates_slice w d a b ups : 0 <= a -> b <= MMAP_HEADER_SIZE \/ counters_end w d <= a -> forall data, Forall (cell_update w d) ups -> counters_end w d <= len data -> b <= len data ->
  zslice (apply_updates data ups) a b = zslice data a b.
Proof.
  intros Ha Hab. induction ups as [|[o v] ups IH]; intros data Hu Hl Hb; [done|]. apply Forall_cons in Hu as [Hu1 Hu]. pose proof (cell_update_bounds w d _ Hu1) as [H1 H2]. cbn [fst] in *. unfold MMAP_HEADER_SIZE in *.
  change (zslice (apply_updates (set_counter data (o, v)) ups) a b = zslice data a b). pose proof (len_set_counter data o v ltac:(lia) ltac:(lia)). rewrite IH by (done || lia).
  unfold set_counter. cbn [fst snd]. destruct Hab; [apply overwrite_before; lia|apply overwrite_after; rewrite ?len_le_bytes; lia].
Qed.

Lemma apply_updates_counter w d ups r c : in_matrix w d r c -> forall data, Forall (cell_update w d) ups -> NoDup ups.*1 -> counters_end w d <= len data ->
  counter (apply_updates data ups) (counter_offset w r c) = default (counter data (counter_offset w r c)) ((list_to_map ups : Staged) !! counter_offset w r c).
Proof.
  intros Hin. pose proof (cell_bounds w d r c Hin) as [Hb1 Hb2]. fold (counters_end w d) in Hb2. unfold MMAP_HEADER_SIZE in *.
  induction ups as [|[o v] ups IH]; intros data Hu Hnd Hl; [by rewrite list_to_map_nil, lookup_empty|]. apply Forall_cons in Hu as [Hu1 Hu]. pose proof (cell_update_bounds w d _ Hu1) as [H1 H2].
  destruct Hu1 as (Hv & r' & c' & Hin' & Eo). cbn [fst snd fmap list_fmap] in *. unfold MMAP_HEADER_SIZE in *. apply NoDup_cons in Hnd as [Hni Hnd].
  change (counter (apply_updates (set_counter data (o, v)) ups) (counter_offset w r c) = default (counter data (counter_offset w r c)) ((list_to_map ((o, v) :: ups) : Staged) !! counter_offset w r c)).
  pose proof (len_set_counter data o v ltac:(lia) ltac:(lia)). rewrite IH by (done || lia). rewrite list_to_map_cons. destruct (decide (o = counter_offset w r c)) as [->|Hne].
  - rewrite lookup_insert_eq, (not_elem_of_list_to_map_1 ups) by done. cbn [default]. by rewrite counter_set_same by (done || lia).
  - rewrite lookup_insert_ne by done. f_equal. subst o. apply counter_set_other; try lia. apply (cell_apart w d); [done|done|]. intros [= -> ->]. done.
Qed.

Lemma sorted_updates_map staged : (list_to_map (sorted_updates staged) : Staged) = staged /\ NoDup (sorted_updates staged).*1.
Proof.
  unfold sorted_updates. pose proof (merge_sort_Permutation by_offset (map_to_list staged)) as Hp. assert (NoDup (merge_sort by_offset (map_to_list staged)).*1) as Hn by (rewrite Hp; apply NoDup_fst_map_to_list).
  split; [|done]. rewrite (list_to_map_proper _ (map_to_list staged)) by done. apply list_to_map_to_list.
Qed.

Lemma sorted_updates_cells data w d staged g : stages data w d staged g -> Forall (cell_update w d) (sorted_updates staged).
Proof.
  intros [_ Hd]. rewrite Forall_forall. intros [o v] Hin. unfold sorted_updates in Hin. rewrite merge_sort_Permutation in Hin. apply elem_of_map_to_list in Hin. destruct (Hd o v Hin) as (Hv & r & c & Hrc & ->). split; [done|]. by exists r, c.
Qed.

(** The file with the staged values and the new total. *)
Definition updated (data : bytes) (staged : Staged) (n : Z) : bytes := overwrite (apply_updates data (sorted_updates staged)) 24 (le_bytes 8 n).

Lemma updated_file data w d n staged g n' : cms_file data w d n -> stages data w d staged g -> u64_ok n' ->
  cms_file (updated data staged n') w d n' /\ holds (updated data staged n') w d g /\ zslice (updated data staged n') (counters_end w d) (len data) = zslice data (counters_end w d) (len data).
Proof.
  intros [H1 H2 H3 H4 Hw Hd Hwd Hn Hlen] Hst Hn'. pose proof (sorted_updates_cells _ _ _ _ _ Hst) as Hu. destruct (sorted_updates_map staged) as [Em Hnd].
  pose proof (counters_end_range w d Hw ltac:(lia) Hwd) as [Hc1 _]. assert (counters_end w d <= len data) as Hl by (unfold TOKEN_SIZE in *; lia). pose proof (apply_updates_len w d _ data Hu Hl) as Hl'.
  set (ups := sorted_updates staged) in *. assert (forall a b, 0 <= a -> b <= 24 -> zslice (updated data staged n') a b = zslice data a b) as Hs.
  { intros a b Ha Hb. unfold updated. fold ups. rewrite overwrite_before by lia. apply (apply_updates_slice w d); [done|left; unfold MMAP_HEADER_SIZE; lia|done|done|lia]. }
  pose proof (overwrite_at (apply_updates data ups) 24 (le_bytes 8 n') ltac:(lia)) as Ec. rewrite len_le_bytes in Ec. split; [|split].
  - split; try done; try (by rewrite Hs by lia); try exact Ec. unfold updated. fold ups. rewrite len_overwrite, len_le_bytes by lia. unfold TOKEN_SIZE in *. lia.
  - intros r c Hin. pose proof (cell_bounds w d r c Hin) as [Hb1 Hb2]. fold (counters_end w d) in Hb2. unfold MMAP_HEADER_SIZE in *. rewrite <- (sg_value _ _ _ _ _ Hst r c Hin).
    unfold updated, counter. fold ups. rewrite overwrite_after by (rewrite ?len_le_bytes; lia). fold (counter (apply_updates data ups) (counter_offset w r c)). fold (counter data (counter_offset w r c)).
    rewrite (apply_updates_counter w d) by done. by rewrite Em.
  - unfold updated. fold ups. rewrite overwrite_after by (rewrite ?len_le_bytes; lia). apply (apply_updates_slice w d); [lia|by right|done|done|lia].
Qed.

Lemma write_updates_healthy file w d ups : forall files data, files !! file = Some data -> Forall (cell_update w d) ups -> counters_end w d <= len data ->
  write_updates file ups (mkWorld files []) = (Ok tt, mkWorld (<[file := apply_updates data ups]> files) []).
Proof.
  induction ups as [|[o v] ups IH]; intros files data Ed Hu Hl; cbn [write_updates]; [cbn [apply_updates foldl]; by rewrite insert_id|]. apply Forall_cons in Hu as [Hu1 Hu].
  pose proof (cell_update_bounds w d _ Hu1) as [H1 H2]. cbn [fst] in *. unfold MMAP_HEADER_SIZE in *.
  rewrite (sbind_Ok _ _ _ _ _ (write_all_at_healthy file (le_bytes 8 v) o "cms counter" files data Ed ltac:(lia))). change (overwrite data o (le_bytes 8 v)) with (set_counter data (o, v)).
  pose proof (len_set_counter data o v ltac:(lia) ltac:(lia)). rewrite (IH _ (set_counter data (o, v)) (lookup_insert_eq _ _ _) Hu ltac:(lia)). by rewrite insert_insert_eq.
Qed.

Lemma spec_items_total w d items : forall g total r, u64_ok total -> spec_items w d items g total = Some r -> u64_ok r.2.
Proof.
  induction items as [|[x count] items IH]; intros g total r Ht; cbn [spec_items]; [by intros [= <-]|]. destruct (spec_rows _ _ _ _ _ _); [|done]. destruct (spec_total total count) as [t|] eqn:E; [|done].
  destruct (spec_items w d items _ t) as [[[counts g'] t']|] eqn:Es; [|done]. intros [= <-]. cbn [snd]. apply spec_total_ok in E; [|done]. exact (IH _ _ _ E Es).
Qed.

(** ** Queries *)

Definition spec_query (w d : Z) (g : matrix) (y : bytes) : Z := foldl (fun least r => Z.min least (g r (column y w r))) i64_max (seqZ 0 d).

Lemma query_rows_healthy file files data w d g y : files !! file = Some data -> 0 < w -> counters_end w d <= len data -> holds data w d g -> forall n row least, Z.of_nat n = d - row -> 0 <= row ->
  query_rows file w row (map (column y w) (seqZ row (d - row))) least (mkWorld files []) = (Ok (foldl (fun least r => Z.min least (g r (column y w r))) least (seqZ row (d - row))), mkWorld files []).
Proof.
  intros Ed Hw Hl Hh. induction n as [|n IH]; intros row least Hn Hrow; [by replace (d - row) with 0 by lia|].
  rewrite seqZ_cons by lia. replace (Z.succ row) with (row + 1) by lia. replace (Z.pred (d - row)) with (d - (row + 1)) by lia. cbn [map query_rows foldl].
  pose proof (column_range y w row Hw) as Hcol. assert (in_matrix w d row (column y w row)) as Hin by (split; lia). pose proof (cell_bounds w d row _ Hin) as [Hb1 Hb2]. fold (counters_end w d) in Hb2. unfold MMAP_HEADER_SIZE in *.
  rewrite (sbind_Ok _ _ _ _ _ (read_counter_healthy file files data (counter_offset w row (column y w row)) Ed ltac:(lia) ltac:(lia))). fold (counter data (counter_offset w row (column y w row))). rewrite (Hh _ _ Hin). apply IH; lia.
Qed.

Lemma query_counts_healthy file files data w d g ys : files !! file = Some data -> 0 < w -> 0 < d -> counters_end w d <= len data -> holds data w d g ->
  cms_query_counts file w d ys (mkWorld files []) = (Ok (map (spec_query w d g) ys), mkWorld files []).
Proof.
  intros Ed Hw Hd Hl Hh. induction ys as [|y ys IH]; [done|]. cbn [cms_query_counts map]. rewrite hash_indices_eq.
  pose proof (query_rows_healthy file files data w d g y Ed Hw Hl Hh (Z.to_nat d) 0 i64_max ltac:(lia) ltac:(lia)) as E. rewrite Z.sub_0_r in E. rewrite (sbind_Ok _ _ _ _ _ E). by rewrite (sbind_Ok _ _ _ _ _ IH).
Qed.
