(* ===== verification/CmsContract.v ===== *)
(** * What a count-min sketch promises

    The theorems about [Cms]: increments and their overflow checks, estimates, and merges. *)

From Stdlib Require Import ZArith Lia.
From stdpp Require Import gmap strings sorting.
From S2P Require Import Prelude Bytes Crc Sidecar ProbTxn ProbTxnProof Cms CmsProof.

(** ** Increments *)

Lemma stages_empty data w d g : holds data w d g -> stages data w d ∅ g.
Proof. intros H. split; [intros r c Hin; rewrite lookup_empty; by apply H|]. intros o v. by rewrite lookup_empty. Qed.

(** What a run of increments does to a file and replies. *)
Lemma incrby_healthy path files data w d n g items : files !! path = Some data -> cms_file data w d n -> holds data w d g ->
  match spec_items w d items g n with
  | Some (counts, g', n') => exists data', cms_file_incrby path items (mkWorld files []) = (ReplyOk counts, mkWorld (<[path := data']> files) []) /\
      cms_file data' w d n' /\ holds data' w d g' /\ zslice data' (counters_end w d) (len data) = zslice data (counters_end w d) (len data)
  | None => exists e, cms_file_incrby path items (mkWorld files []) = (ReplyError e, mkWorld files [])
  end.
Proof.
  intros Ed Hf Hh. pose proof Hf as [_ _ _ _ Hw Hd Hwd Hn Hlen]. assert (counters_end w d <= len data) as Hl by (unfold TOKEN_SIZE in *; lia).
  unfold cms_file_incrby. rewrite (proj1 (with_sidecar_healthy path files data _ Ed)). rewrite (sbind_Ok _ _ _ _ _ (cms_header_healthy path files data w d n Ed Hf)). unfold cms_stage_increments.
  rewrite (proj2 (Z.eqb_neq w 0)), (proj2 (Z.eqb_neq d 0)) by lia. cbn [orb]. pose proof (stage_items_healthy path files data w d Ed Hw ltac:(lia) Hl items ∅ g n (stages_empty _ _ _ _ Hh) Hn) as H.
  destruct (spec_items w d items g n) as [[[counts g'] n']|] eqn:Es.
  - destruct H as (staged & E & Hst). assert (u64_ok n') as Hn' by exact (spec_items_total w d items g n _ Hn Es). pose proof (sorted_updates_cells _ _ _ _ _ Hst) as Hu.
    exists (updated data staged n'). destruct (updated_file data w d n staged g' n' Hf Hst Hn') as (H1 & H2 & H3). split; [|done]. unfold sbind at 1. rewrite (sbind_Ok _ _ _ _ _ E). cbn [sret ip_updates ip_total_count ip_counts].
    rewrite (sbind_Ok _ _ _ _ _ (write_updates_healthy path w d _ files data Ed Hu Hl)). pose proof (apply_updates_len w d _ data Hu Hl). pose proof (counters_end_range w d Hw ltac:(lia) Hwd).
    rewrite (sbind_Ok _ _ _ _ _ (write_all_at_healthy path (le_bytes 8 n') 24 "cms count" _ (apply_updates data (sorted_updates staged)) (lookup_insert_eq _ _ _) ltac:(lia))).
    rewrite (sbind_Ok _ _ _ _ _ (fsync_healthy path _)). cbn [reply_of sret]. by rewrite insert_insert_eq.
  - destruct H as (e & E). exists e. unfold sbind at 1. by rewrite (sbind_Err _ _ _ _ _ E).
Qed.

(** C33: increments do what they do to a matrix of integers, overflow included.  On a sketch
    file that holds the matrix [g] a batch of increments, of any sign, replies the least new
    cell of each element and leaves the file of the new matrix and total; when a cell leaves
    64 bits or the total overflows, the batch fails and the file is untouched. *)
Theorem cms_incrby_refines path files data w d n g items : files !! path = Some data -> cms_file data w d n -> holds data w d g ->
  match spec_items w d items g n with
  | Some (counts, g', n') => exists data', cms_file_incrby path items (mkWorld files []) = (ReplyOk counts, mkWorld (<[path := data']> files) []) /\
      cms_file data' w d n' /\ holds data' w d g' /\ zslice data' (counters_end w d) (len data) = zslice data (counters_end w d) (len data)
  | None => exists e, cms_file_incrby path items (mkWorld files []) = (ReplyError e, mkWorld files [])
  end.
Proof. apply incrby_healthy. Qed.

(** ** Estimates *)

(** The counts added for elements whose cell in row [r] is [c]; for [y] itself; and all. *)
Definition cell_sum (w : Z) (items : list (bytes * Z)) (r c : Z) : Z := foldr (fun i s => (if column i.1 w r =? c then i.2 else 0) + s) 0 items.
Definition occurrences (items : list (bytes * Z)) (y : bytes) : Z := foldr (fun i s => (if bytes_eqb i.1 y then i.2 else 0) + s) 0 items.
Definition added (items : list (bytes * Z)) : Z := foldr (fun i s => i.2 + s) 0 items.

Lemma cell_sum_bounds w items r c : Forall (fun i => 0 <= i.2) items -> 0 <= cell_sum w items r c <= added items.
Proof. induction 1 as [|i items Hi _ IH]; [done|]. cbn [cell_sum added foldr]. fold (cell_sum w items r c) (added items). destruct (column i.1 w r =? c); lia. Qed.

Lemma occurrences_bound w items y r : Forall (fun i => 0 <= i.2) items -> occurrences items y <= cell_sum w items r (column y w r).
Proof.
  induction 1 as [|[x n] items Hi _ IH]; [done|]. cbn [cell_sum occurrences foldr fst snd]. fold (cell_sum w items r (column y w r)) (occurrences items y). cbn [snd] in Hi.
  destruct (bytes_eqb_spec x y) as [->|]; [rewrite Z.eqb_refl; lia|]. destruct (_ =? _); lia.
Qed.

Lemma spec_rows_ok w x count g rows : forall least, (forall r, r ∈ rows -> i64_ok (g r (column x w r) + count)) -> exists least', spec_rows w x count rows g least = Some least'.
Proof.
  induction rows as [|r rows IH]; intros least H; [by eexists|]. cbn [spec_rows]. cbv zeta. rewrite decide_True by (apply H; by left). apply IH. intros r' Hr'. apply H. by right.
Qed.

(** Non-negative counts that fit: every increment succeeds. *)
Lemma spec_items_ok w d items : Forall (fun i => 0 <= i.2) items -> forall g total, (forall r c, 0 <= g r c /\ g r c + added items <= i64_max) -> 0 <= total -> total + added items <= u64_max ->
  exists counts g', spec_items w d items g total = Some (counts, g', total + added items) /\ forall r c, 0 <= r < d -> g' r c = g r c + cell_sum w items r c.
Proof.
  induction 1 as [|[x n] items Hi Hs IH]; intros g total Hg Ht Hu; cbn [spec_items added foldr fst snd] in *.
  { exists [], g. split; [by rewrite Z.add_0_r|]. intros r c _. cbn. lia. }
  fold (added items) in *. assert (0 <= added items) as Ha by (clear -Hs; induction Hs as [|i items Hi _ IH]; [done|]; cbn [added foldr]; fold (added items); lia).
  destruct (spec_rows_ok w x n g (seqZ 0 d) i64_max) as (least & ->).
  { intros r _. destruct (Hg r (column x w r)). unfold i64_ok, i64_max in *. lia. }
  unfold spec_total. rewrite decide_False by lia. rewrite Z.max_r by lia.
  destruct (IH (add_cells w d x n g) (total + n)) as (counts & g' & -> & Hg'); [|lia|lia|].
  - intros r c. destruct (Hg r c). unfold add_cells. destruct (bool_decide _); lia.
  - exists (least :: counts), g'. split; [do 2 f_equal; lia|]. intros r c Hr. rewrite Hg' by done. cbn [cell_sum foldr fst snd]. fold (cell_sum w items r c). unfold add_cells.
    destruct (Z.eqb_spec (column x w r) c) as [<-|]; [rewrite bool_decide_true by done; lia|]. rewrite bool_decide_false by (intros [_ ->]; done). lia.
Qed.

Lemma added_app a b : added (a ++ b) = added a + added b.
Proof. induction a as [|i a IH]; [done|]. cbn [app added foldr]. fold (added (a ++ b)) (added a). lia. Qed.
Lemma cell_sum_app w a b r c : cell_sum w (a ++ b) r c = cell_sum w a r c + cell_sum w b r c.
Proof. induction a as [|i a IH]; [done|]. cbn [app cell_sum foldr]. fold (cell_sum w (a ++ b) r c) (cell_sum w a r c). lia. Qed.
Lemma added_nonneg items : Forall (fun i => 0 <= i.2) items -> 0 <= added items.
Proof. induction 1 as [|i items Hi _ IH]; [done|]. cbn [added foldr]. fold (added items). lia. Qed.

(** Batches one after the other. *)
Fixpoint run_incrs (path : string) (batches : list (list (bytes * Z))) (w : World) : list (reply (list Z)) * World :=
  match batches with
  | [] => ([], w)
  | items :: batches => let '(r, w) := cms_file_incrby path items w in let '(rs, w) := run_incrs path batches w in (r :: rs, w)
  end.

Lemma run_incrs_healthy path w d batches : Forall (fun i => 0 <= i.2) (concat batches) -> forall files data n g, files !! path = Some data -> cms_file data w d n -> holds data w d g ->
  (forall r c, 0 <= g r c /\ g r c + added (concat batches) <= i64_max) -> n + added (concat batches) <= u64_max ->
  exists rss data' g', run_incrs path batches (mkWorld files []) = (map ReplyOk rss, mkWorld (<[path := data']> files) []) /\ cms_file data' w d (n + added (concat batches)) /\ holds data' w d g' /\
    forall r c, 0 <= r < d -> g' r c = g r c + cell_sum w (concat batches) r c.
Proof.
  induction batches as [|items batches IH]; intros Hpos files data n g Ed Hf Hh Hg Hn; cbn [run_incrs concat] in *.
  { exists [], data, g. rewrite insert_id, Z.add_0_r by done. split; [done|]. split; [done|]. split; [done|]. intros r c _. cbn. lia. }
  apply Forall_app in Hpos as [Hp1 Hp2]. pose proof (added_nonneg _ Hp1). pose proof (added_nonneg _ Hp2). rewrite added_app in *.
  destruct (spec_items_ok w d items Hp1 g n) as (counts & g1 & Es & Hg1); [intros r c; destruct (Hg r c); lia|apply (cf_n _ _ _ _ Hf)|lia|].
  pose proof (incrby_healthy path files data w d n g items Ed Hf Hh) as H1. rewrite Es in H1. destruct H1 as (data1 & E1 & Hf1 & Hh1 & _). rewrite E1.
  set (g1' := fun r c => if bool_decide (0 <= r < d) then g1 r c else 0). destruct (IH Hp2 (<[path := data1]> files) data1 (n + added items) g1' (lookup_insert_eq _ _ _) Hf1) as (rss & data' & g' & E & Hf' & Hh' & Hg').
  - intros r c [Hr Hc]. unfold g1'. rewrite bool_decide_true by done. apply Hh1. by split.
  - intros r c. unfold g1'. destruct (decide (0 <= r < d)); [rewrite bool_decide_true by done; rewrite Hg1 by done; pose proof (cell_sum_bounds w items r c Hp1); destruct (Hg r c); lia|].
    rewrite bool_decide_false by done. destruct (Hg r c). lia.
  - lia.
  - rewrite E, insert_insert_eq. exists (counts :: rss), data', g'. split; [done|]. split; [by rewrite Z.add_assoc|]. split; [done|]. intros r c Hr. rewrite Hg' by done. unfold g1'. rewrite bool_decide_true, Hg1, cell_sum_app by done. lia.
Qed.

(** ** New sketches *)

Definition fresh_sketch (w d : Z) : bytes := cms_header w d ++ replicate (Z.to_nat (w * d * 8 + TOKEN_SIZE)) x00.

Lemma cms_header_eq w d : cms_header w d = le_bytes 8 MMAP_MAGIC ++ le_bytes 8 w ++ le_bytes 8 d ++ replicate 8 x00.
Proof.
  unfold cms_header, copy_from_slice. pose proof (len_le_bytes 8 MMAP_MAGIC). pose proof (len_le_bytes 8 w). pose proof (len_le_bytes 8 d). change (replicate 32 x00) with (replicate 8 x00 ++ replicate 8 x00 ++ replicate 8 x00 ++ replicate 8 x00).
  rewrite !len_le_bytes. cbn [Z.of_nat]. zslices. cbn [app]. zslices. by rewrite <- ?app_assoc, ?app_nil_l.
Qed.
Lemma len_cms_header w d : len (cms_header w d) = 32.
Proof. rewrite cms_header_eq, !len_app, !len_le_bytes, !len_replicate. done. Qed.

Lemma counter_zeros n o : 0 <= o -> i64_of (le_val (zslice (replicate n x00) o (o + 8))) = 0.
Proof.
  intros Ho. unfold zslice. rewrite ztake_take, zdrop_drop, drop_replicate, take_replicate. generalize (Z.to_nat (o + 8 - o) `min` (n - Z.to_nat o))%nat as m. intros m.
  assert (le_val (replicate m x00) = 0) as ->; [|done]. induction m as [|m IH]; [done|]. change (le_val (replicate (S m) x00)) with (byte_val x00 + 256 * le_val (replicate m x00)). rewrite IH. done.
Qed.

Lemma fresh_sketch_file w d : 0 < w -> 0 < d <= MAX_CMS_DEPTH -> w * d <= MAX_CMS_COUNTERS -> cms_file (fresh_sketch w d) w d 0 /\ holds (fresh_sketch w d) w d (fun _ _ => 0).
Proof.
  intros Hw Hd Hwd. pose proof (len_cms_header w d) as Hl. pose proof (counters_end_range w d Hw ltac:(lia) Hwd) as [Hc _]. split.
  - assert (forall a b, 0 <= a -> a <= b -> b <= 32 -> zslice (fresh_sketch w d) a b = zslice (cms_header w d) a b) as Hs by (intros; apply zslice_app_take; lia).
    pose proof (len_le_bytes 8 MMAP_MAGIC). pose proof (len_le_bytes 8 w). pose proof (len_le_bytes 8 d). split; try done; try (rewrite Hs, cms_header_eq by lia; zslices; done).
    unfold fresh_sketch. rewrite len_app, len_replicate, Hl. unfold counters_end, MMAP_HEADER_SIZE, TOKEN_SIZE in *. lia.
  - intros r c Hin. pose proof (cell_bounds w d r c Hin) as [Hb1 Hb2]. unfold MMAP_HEADER_SIZE in *. unfold counter, fresh_sketch. rewrite zslice_app_skip by lia.
    rewrite Hl. replace (counter_offset w r c + 8 - 32) with (counter_offset w r c - 32 + 8) by lia. apply counter_zeros. lia.
Qed.

Lemma cms_create_healthy path w d files : 0 < w -> 0 < d <= MAX_CMS_DEPTH -> w * d <= MAX_CMS_COUNTERS ->
  cms_file_create path w d (mkWorld files []) = (Ok tt, mkWorld (<[path := fresh_sketch w d]> files) []).
Proof.
  intros Hw Hd Hwd. unfold cms_file_create. rewrite (proj2 (Z.eqb_neq w 0)), (proj2 (Z.eqb_neq d 0)) by lia. rewrite (proj2 (Z.ltb_ge _ d)) by lia. rewrite cms_file_size_ok by (done || lia). rewrite sbind_slift_Ok.
  etrans; [|exact (create_sidecar_healthy path (cms_header w d) (Z.to_nat (w * d * 8 + TOKEN_SIZE)) files)]. f_equal. rewrite len_cms_header. unfold counters_end, MMAP_HEADER_SIZE, TOKEN_SIZE. lia.
Qed.

Lemma query_healthy path files data w d n g ys : files !! path = Some data -> cms_file data w d n -> holds data w d g ->
  cms_file_query path ys (mkWorld files []) = (ReplyOk (map (spec_query w d g) ys), mkWorld files []).
Proof.
  intros Ed Hf Hh. pose proof Hf as [_ _ _ _ Hw Hd Hwd Hn Hlen]. unfold cms_file_query. rewrite (proj2 (with_sidecar_healthy path files data _ Ed)). unfold cms_query_body.
  rewrite (sbind_Ok _ _ _ _ _ (cms_header_healthy path files data w d n Ed Hf)). rewrite (query_counts_healthy path files data w d g ys Ed Hw ltac:(lia) ltac:(unfold TOKEN_SIZE in *; lia) Hh). done.
Qed.


(** C34: estimates never undercount.  A sketch is created and batches of non-negative
    increments whose sum fits are run on it: all succeed, and a query of any element replies
    the least, over the rows, of the counts that share its cell, which is at least what was
    added for the element and at most what was added in all. *)
Theorem cms_estimates path w d batches files y :
  0 < w -> 0 < d <= MAX_CMS_DEPTH -> w * d <= MAX_CMS_COUNTERS -> Forall (fun i => 0 <= i.2) (concat batches) -> added (concat batches) <= i64_max ->
  exists w1 w2 rss estimate,
    cms_file_create path w d (mkWorld files []) = (Ok tt, w1) /\ run_incrs path batches w1 = (map ReplyOk rss, w2) /\
    cms_file_query path [y] w2 = (ReplyOk [estimate], w2) /\ estimate = spec_query w d (cell_sum w (concat batches)) y /\
    occurrences (concat batches) y <= estimate <= added (concat batches).
Proof.
  intros Hw Hd Hwd Hpos Hsum. destruct (fresh_sketch_file w d Hw Hd Hwd) as [Hf Hh]. eexists. rewrite cms_create_healthy by done.
  destruct (run_incrs_healthy path w d batches Hpos (<[path := fresh_sketch w d]> files) _ 0 _ (lookup_insert_eq _ _ _) Hf Hh) as (rss & data' & g' & E & Hf' & Hh' & Hg'); [intros _ _; lia|unfold i64_max, u64_max in *; lia|].
  eexists _, rss, _. split; [done|]. split; [exact E|]. split; [rewrite (query_healthy path _ data' w d _ g' [y] (lookup_insert_eq _ _ _) Hf' Hh'); done|].
  assert (spec_query w d g' y = spec_query w d (cell_sum w (concat batches)) y) as ->.
  { unfold spec_query. assert (forall r, r ∈ seqZ 0 d -> g' r (column y w r) = cell_sum w (concat batches) r (column y w r)) as Hr by (intros r Hr%elem_of_seqZ; rewrite Hg' by lia; lia).
    revert Hr. generalize (seqZ 0 d) as rows, i64_max as start. induction rows as [|r rows IH]; intros start Hr; [done|]. cbn [foldl]. rewrite Hr by (by left). apply IH. intros q Hq. apply Hr. by right. }
  split; [done|]. unfold spec_query. destruct (foldl_min_bounds (fun r => cell_sum w (concat batches) r (column y w r)) (seqZ 0 d) i64_max) as (_ & H2 & H3). split.
  - apply H3; [|intros r _; by apply occurrences_bound]. pose proof (occurrences_bound w (concat batches) y 0 Hpos). pose proof (cell_sum_bounds w (concat batches) 0 (column y w 0) Hpos). lia.
  - etrans; [apply (H2 0); apply elem_of_seqZ; lia|]. by apply cell_sum_bounds.
Qed.

(** ** Merges *)

(** The counters in their order in the file. *)
Definition nth_counter (data : bytes) (k : Z) : Z := counter data (MMAP_HEADER_SIZE + k * 8).

(** A weighted sum of terms, and whether its partial sums stay between two bounds. *)
Definition dot (terms : list (Z * Z)) : Z := foldr (fun t sum => t.1 * t.2 + sum) 0 terms.
Fixpoint within (lo hi acc : Z) (terms : list (Z * Z)) : Prop :=
  match terms with
  | [] => True
  | t :: terms => lo <= acc + t.1 * t.2 <= hi /\ within lo hi (acc + t.1 * t.2) terms
  end.
#[export] Instance within_dec lo hi acc terms : Decision (within lo hi acc terms).
Proof. revert acc. induction terms as [|t terms IH]; intros acc; cbn [within]; apply _. Defined.

(** A source: its path, its bytes and its weight. *)
Abbreviation source := (string * bytes * Z)%type.
Definition src_path (s : source) : string := s.1.1.
Definition src_data (s : source) : bytes := s.1.2.
Definition src_weight (s : source) : Z := s.2.
Definition terms_at (sources : list source) (k : Z) : list (Z * Z) := map (fun s => (nth_counter (src_data s) k, src_weight s)) sources.

Lemma chunk_values_eq data n : forall s, 0 <= s -> MMAP_HEADER_SIZE + (s + Z.of_nat n) * 8 <= len data ->
  chunk_values n (zslice data (MMAP_HEADER_SIZE + s * 8) (MMAP_HEADER_SIZE + s * 8 + Z.of_nat n * 8)) = map (nth_counter data) (seqZ s (Z.of_nat n)).
Proof.
  unfold nth_counter, MMAP_HEADER_SIZE. induction n as [|n IH]; intros s Hs Hl; [done|]. cbn [chunk_values]. rewrite Nat2Z.inj_succ in *. rewrite seqZ_cons by lia. replace (Z.pred (Z.succ (Z.of_nat n))) with (Z.of_nat n) by lia. cbn [map]. f_equal.
  - unfold counter, zslice. rewrite ztake_ztake. do 3 f_equal. lia.
  - replace (Z.succ s) with (s + 1) by lia. rewrite <- IH by lia. f_equal. unfold zslice. rewrite zdrop_ztake, zdrop_zdrop by lia. f_equal; [lia|]. f_equal. lia.
Qed.

Lemma checked_i128_spec z : checked_i128 z = if decide (- 2 ^ 127 <= z <= 2 ^ 127 - 1) then Some z else None.
Proof.
  unfold checked_i128. destruct (decide _) as [[H1 H2]|H]; [by rewrite (proj2 (Z.leb_le _ z)), (proj2 (Z.leb_le z _))|].
  destruct (Z.leb_spec (- 2 ^ 127) z), (Z.leb_spec z (2 ^ 127 - 1)); cbn [andb]; try done. lia.
Qed.

Lemma Forall_decide_cons {A} (P : A -> Prop) x l {B} (a b : B) `{!forall x, Decision (P x)} :
  (if decide (Forall P (x :: l)) then a else b) = if decide (P x) then if decide (Forall P l) then a else b else b.
Proof. repeat destruct (decide _); try done; rewrite Forall_cons in *; tauto. Qed.

Lemma accumulate_spec weight (a v : Z -> Z) ks :
  if decide (Forall (fun k => - 2 ^ 127 <= a k + v k * weight <= 2 ^ 127 - 1) ks) then accumulate weight (map a ks) (map v ks) = Ok (map (fun k => a k + v k * weight) ks)
  else exists e, accumulate weight (map a ks) (map v ks) = Err e.
Proof.
  induction ks as [|k ks IH]; [done|]. rewrite Forall_decide_cons. cbn [map accumulate]. rewrite checked_i128_spec. destruct (decide (_ <= _ <= _)); cbn [ok_or rbind]; [|by eexists].
  destruct (decide _); [by rewrite IH|]. destruct IH as (e & ->). by exists e.
Qed.

(** The sources of a merge are sketches of the destination's shape. *)
Definition source_ok (files : gmap string bytes) (w d : Z) (n : Z) (s : source) : Prop := files !! src_path s = Some (src_data s) /\ cms_file (src_data s) w d n.

Lemma accumulate_sources_healthy files w d s n : 0 <= s -> 0 <= n -> s + n <= w * d -> forall sources acc, Forall (fun src => exists c, source_ok files w d c src) sources ->
  let run := accumulate_sources (MMAP_HEADER_SIZE + s * 8) (n * 8) (map (fun src => (src_path src, src_weight src)) sources) (map acc (seqZ s n)) (mkWorld files []) in
  if decide (Forall (fun k => within (- 2 ^ 127) (2 ^ 127 - 1) (acc k) (terms_at sources k)) (seqZ s n))
  then run = (Ok (map (fun k => acc k + dot (terms_at sources k)) (seqZ s n)), mkWorld files []) else exists e, run = (Err e, mkWorld files []).
Proof.
  intros Hs Hn Hsn. induction sources as [|src sources IH]; intros acc Hsrc run; subst run; cbn [map accumulate_sources].
  { rewrite decide_True by (apply Forall_seqZ; done). unfold sret. do 2 f_equal. apply map_ext. intros k. cbn. lia. }
  apply Forall_cons in Hsrc as [(c & Ed & Hf) Hsrc]. pose proof (cf_len _ _ _ _ Hf) as Hlen. unfold counters_end, TOKEN_SIZE in Hlen.
  unfold cms_read_exact_at. rewrite (sbind_Ok _ _ _ _ _ (read_exact_as_healthy "read " "CMS file" (src_path src) (n * 8) (MMAP_HEADER_SIZE + s * 8) "source chunk" files (src_data src) _ Ed
    (get_range_Some (src_data src) (MMAP_HEADER_SIZE + s * 8) (MMAP_HEADER_SIZE + s * 8 + n * 8) ltac:(unfold MMAP_HEADER_SIZE; lia) ltac:(lia) ltac:(lia)))).
  rewrite Z.div_mul by done. replace (MMAP_HEADER_SIZE + s * 8 + n * 8) with (MMAP_HEADER_SIZE + s * 8 + Z.of_nat (Z.to_nat n) * 8) by lia. rewrite chunk_values_eq by lia. rewrite Z2Nat.id by done.
  set (acc' := fun k => acc k + nth_counter (src_data src) k * src_weight src).
  pose proof (accumulate_spec (src_weight src) acc (nth_counter (src_data src)) (seqZ s n)) as Ha. destruct (decide (Forall _ (seqZ s n))) as [H1|H1] in Ha.
  - rewrite Ha, sbind_slift_Ok. specialize (IH acc' Hsrc). cbv zeta in IH. destruct (decide _) as [H2|H2] in IH.
    + rewrite decide_True by (apply Forall_forall; intros k Hk; cbn [terms_at map within]; split; [exact (proj1 (Forall_forall _ _) H1 k Hk)|exact (proj1 (Forall_forall _ _) H2 k Hk)]).
      etrans; [exact IH|]. do 2 f_equal. apply map_ext. intros k. unfold acc'. cbn [terms_at map dot foldr fst snd]. fold (terms_at sources k) (dot (terms_at sources k)). lia.
    + rewrite decide_False; [exact IH|]. intros H. apply H2. eapply Forall_impl; [exact H|]. by intros k [_ ?].
  - rewrite decide_False by (intros H; apply H1; eapply Forall_impl; [exact H|]; by intros k [? _]). destruct Ha as (e & ->). by exists e.
Qed.

Definition counters_bytes (values : list Z) : bytes := values ≫= le_bytes 8.
Lemma len_counters_bytes values : len (counters_bytes values) = len values * 8.
Proof. induction values as [|v values IH]; [done|]. change (len (le_bytes 8 v ++ counters_bytes values) = len (v :: values) * 8). rewrite len_app, len_le_bytes, len_cons, IH. lia. Qed.

Lemma finalize_spec values : if decide (Forall (fun v => 0 <= v <= i64_max) values) then finalize_counters values = Ok (counters_bytes values) else exists e, finalize_counters values = Err e.
Proof.
  induction values as [|v values IH]; [done|]. rewrite Forall_decide_cons. cbn [finalize_counters]. unfold cms_finalize_merge_counter. destruct (decide (0 <= v <= _)).
  - rewrite (proj2 (Z.ltb_ge v 0)), (proj2 (Z.ltb_ge i64_max v)) by lia. cbn [rbind]. destruct (decide _); [by rewrite IH|]. destruct IH as (e & ->). by exists e.
  - destruct (Z.ltb_spec v 0); [by eexists|]. rewrite (proj2 (Z.ltb_lt i64_max v)) by lia. by eexists.
Qed.

(** The image of the counters [s .. s + n]. *)
Definition counters_image (sum : Z -> Z) (s n : Z) : AfterImage := mkAfterImage (MMAP_HEADER_SIZE + s * 8) (counters_bytes (map sum (seqZ s n))).
Definition chunk_len (total s : Z) : Z := Z.min (total - s) CMS_MERGE_CHUNK_COUNTERS.

(** A counter of the merge: the weighted sum of the sources' counters must be a counter, and
    its partial sums must fit 128 bits. *)
Definition counter_fits (sources : list source) (k : Z) : Prop :=
  within (- 2 ^ 127) (2 ^ 127 - 1) 0 (terms_at sources k) /\ 0 <= dot (terms_at sources k) <= i64_max.
#[export] Instance counter_fits_dec sources k : Decision (counter_fits sources k).
Proof. unfold counter_fits. apply _. Defined.
Definition merged_counter (sources : list source) (k : Z) : Z := dot (terms_at sources k).

Lemma merge_chunks_healthy files w d sources starts : Forall (fun src => exists c, source_ok files w d c src) sources -> Forall (fun s => 0 <= s < w * d) starts ->
  let run := merge_chunks (w * d) (map (fun src => (src_path src, src_weight src)) sources) starts (mkWorld files []) in
  if decide (Forall (fun s => Forall (counter_fits sources) (seqZ s (chunk_len (w * d) s))) starts)
  then run = (Ok (map (fun s => counters_image (merged_counter sources) s (chunk_len (w * d) s)) starts), mkWorld files []) else exists e, run = (Err e, mkWorld files []).
Proof.
  intros Hsrc. induction starts as [|s starts IH]; intros Hst run; subst run; [done|]. apply Forall_cons in Hst as [Hs Hst]. cbn [merge_chunks map]. fold (chunk_len (w * d) s). set (n := chunk_len (w * d) s).
  assert (0 < n /\ s + n <= w * d) as [Hn1 Hn2] by (unfold n, chunk_len, CMS_MERGE_CHUNK_COUNTERS; lia). rewrite Forall_decide_cons. fold n.
  assert (replicate (Z.to_nat n) 0 = map (fun _ => 0) (seqZ s n)) as ->.
  { rewrite <- (length_seqZ s n). clear. induction (seqZ s n) as [|k l IH]; [done|]. cbn. by f_equal. }
  pose proof (accumulate_sources_healthy files w d s n ltac:(lia) ltac:(lia) Hn2 sources (fun _ => 0) Hsrc) as Ha. cbv zeta in Ha. destruct (decide (Forall _ (seqZ s n))) as [H1|H1] in Ha.
  2:{ rewrite decide_False by (intros H; apply H1; eapply Forall_impl; [exact H|]; by intros k [? _]). destruct Ha as (e & Ha). exists e. by rewrite (sbind_Err _ _ _ _ _ Ha). }
  rewrite (sbind_Ok _ _ _ _ _ Ha). pose proof (finalize_spec (map (fun k => 0 + dot (terms_at sources k)) (seqZ s n))) as Hfin. destruct (decide _) as [H2|H2] in Hfin.
  - rewrite decide_True by (apply Forall_forall; intros k Hk; split; [exact (proj1 (Forall_forall _ _) H1 k Hk)|apply Forall_map in H2; exact (proj1 (Forall_forall _ _) H2 k Hk)]).
    rewrite Hfin, sbind_slift_Ok. specialize (IH Hst). cbv zeta in IH. destruct (decide _); [by rewrite (sbind_Ok _ _ _ _ _ IH)|]. destruct IH as (e & IH). exists e. by rewrite (sbind_Err _ _ _ _ _ IH).
  - rewrite decide_False by (intros H; apply H2, Forall_map; eapply Forall_impl; [exact H|]; by intros k [_ ?]). destruct Hfin as (e & ->). by exists e.
Qed.

(** ** The merged file *)

Lemma overwrite_within data o bs a b : 0 <= o -> o + len bs <= len data -> o <= a -> a <= b -> b <= o + len bs -> zslice (overwrite data o bs) a b = zslice bs (a - o) (b - o).
Proof.
  intros Ho Hl Ha Hab Hb. rewrite overwrite_eq by (pose proof (len_nonneg bs); lia). rewrite zslice_app_skip by (rewrite len_ztake by lia; lia). rewrite len_ztake by lia. replace (Z.min o (len data)) with o by (pose proof (len_nonneg bs); lia).
  apply zslice_app_take; lia.
Qed.

Lemma counters_bytes_nth sum s n k : s <= k < s + n -> zslice (counters_bytes (map sum (seqZ s n))) ((k - s) * 8) ((k - s) * 8 + 8) = le_bytes 8 (sum k).
Proof.
  intros Hk. replace n with ((k - s) + (1 + (s + n - k - 1))) by lia. rewrite seqZ_app, (seqZ_app _ 1) by lia. rewrite !map_app. unfold counters_bytes. rewrite !bind_app. replace (s + (k - s)) with k by lia.
  change (mbind (le_bytes 8) (map sum (seqZ k 1))) with (le_bytes 8 (sum k) ++ []). fold (counters_bytes (map sum (seqZ s (k - s)))). rewrite app_nil_r.
  assert (len (counters_bytes (map sum (seqZ s (k - s)))) = (k - s) * 8) as Hl by (rewrite len_counters_bytes, len_map; unfold len; rewrite length_seqZ; lia).
  rewrite zslice_app_skip by lia. rewrite Hl. replace ((k - s) * 8 - (k - s) * 8) with 0 by lia. replace ((k - s) * 8 + 8 - (k - s) * 8) with 8 by lia. apply zslice_app_exact. by rewrite len_le_bytes.
Qed.

Lemma len_counters_image sum s n : 0 <= n -> len (ai_bytes (counters_image sum s n)) = n * 8.
Proof. intros Hn. cbn [counters_image ai_bytes]. rewrite len_counters_bytes, len_map. unfold len. rewrite length_seqZ. lia. Qed.

Lemma nth_counter_image data w d sum s n k : 0 <= s -> 0 <= n -> s + n <= w * d -> counters_end w d <= len data -> 0 <= k < w * d -> i64_ok (sum k) ->
  nth_counter (image_write data (counters_image sum s n)) k = if decide (s <= k < s + n) then sum k else nth_counter data k.
Proof.
  intros Hs Hn Hsn Hl Hk Hok. pose proof (len_counters_image sum s n Hn) as Hli. unfold counters_end in Hl. unfold nth_counter, counter, image_write. change (ai_offset (counters_image sum s n)) with (MMAP_HEADER_SIZE + s * 8) in *. unfold MMAP_HEADER_SIZE in *.
  destruct (decide (s <= k < s + n)).
  - rewrite overwrite_within by lia. replace (32 + k * 8 - (32 + s * 8)) with ((k - s) * 8) by lia. replace (32 + k * 8 + 8 - (32 + s * 8)) with ((k - s) * 8 + 8) by lia.
    change (ai_bytes (counters_image sum s n)) with (counters_bytes (map sum (seqZ s n))). by rewrite counters_bytes_nth, i64_of_le.
  - destruct (Z.le_gt_cases s k); [rewrite overwrite_after by lia|rewrite overwrite_before by lia]; done.
Qed.

Definition chunk_images (sum : Z -> Z) (total k0 m : Z) : list AfterImage := map (fun s => counters_image sum s (chunk_len total s)) (map (Z.mul CMS_MERGE_CHUNK_COUNTERS) (seqZ k0 m)).

Lemma chunk_images_ok sum w d k0 m : 0 <= k0 -> (forall k, k0 <= k < k0 + m -> CMS_MERGE_CHUNK_COUNTERS * k < w * d) ->
  Forall (fun i => MMAP_HEADER_SIZE <= ai_offset i /\ image_ok (counters_end w d) i) (chunk_images sum (w * d) k0 m).
Proof.
  intros Hk H. unfold chunk_images. rewrite map_map. apply Forall_map, Forall_seqZ. intros k Hk'. specialize (H k Hk'). unfold CMS_MERGE_CHUNK_COUNTERS in *.
  pose proof (len_counters_image sum (8192 * k) (chunk_len (w * d) (8192 * k)) ltac:(unfold chunk_len, CMS_MERGE_CHUNK_COUNTERS; lia)) as Hl. unfold image_ok. rewrite Hl. cbn [counters_image ai_offset]. unfold counters_end, chunk_len, CMS_MERGE_CHUNK_COUNTERS, MMAP_HEADER_SIZE. lia.
Qed.

Lemma patched_before n images a b lo : 0 <= a -> b <= lo -> forall data, Forall (fun i => lo <= ai_offset i /\ image_ok n i) images -> n <= len data -> zslice (patched data images) a b = zslice data a b.
Proof.
  intros Ha Hb. induction images as [|i images IH]; intros data Hi Hn; [done|]. apply Forall_cons in Hi as [[Hlo Hi] His]. change (zslice (patched (image_write data i) images) a b = zslice data a b).
  rewrite IH; [|done|by rewrite (len_image_write n)]. destruct Hi. pose proof (len_nonneg (ai_bytes i)). unfold image_write. apply overwrite_before; lia.
Qed.

Lemma nth_counter_chunks w d sum k : 0 <= k < w * d -> i64_ok (sum k) -> forall n data k0, 0 <= k0 -> counters_end w d <= len data -> (forall j, k0 <= j < k0 + Z.of_nat n -> CMS_MERGE_CHUNK_COUNTERS * j < w * d) ->
  nth_counter (patched data (chunk_images sum (w * d) k0 (Z.of_nat n))) k =
    if decide (CMS_MERGE_CHUNK_COUNTERS * k0 <= k < CMS_MERGE_CHUNK_COUNTERS * (k0 + Z.of_nat n)) then sum k else nth_counter data k.
Proof.
  intros Hk Hok. induction n as [|n IH]; intros data k0 Hk0 Hl Hj.
  { rewrite decide_False by (unfold CMS_MERGE_CHUNK_COUNTERS; lia). done. }
  rewrite Nat2Z.inj_succ in *. unfold chunk_images. rewrite seqZ_cons by lia. replace (Z.pred (Z.succ (Z.of_nat n))) with (Z.of_nat n) by lia. replace (Z.succ k0) with (k0 + 1) by lia. cbn [map].
  pose proof (Hj k0 ltac:(lia)) as H0. set (s := CMS_MERGE_CHUNK_COUNTERS * k0) in *. assert (0 <= s /\ 0 <= chunk_len (w * d) s /\ s + chunk_len (w * d) s <= w * d) as (Hs & Hn & Hsn) by (unfold s, chunk_len, CMS_MERGE_CHUNK_COUNTERS in *; lia).
  set (i := counters_image sum s (chunk_len (w * d) s)). fold (chunk_images sum (w * d) (k0 + 1) (Z.of_nat n)). change (nth_counter (patched (image_write data i) (chunk_images sum (w * d) (k0 + 1) (Z.of_nat n))) k = if decide (s <= k < CMS_MERGE_CHUNK_COUNTERS * (k0 + Z.succ (Z.of_nat n))) then sum k else nth_counter data k).
  assert (image_ok (counters_end w d) i) as Hi by (unfold image_ok, i; rewrite len_counters_image by done; cbn [counters_image ai_offset]; unfold counters_end, MMAP_HEADER_SIZE; lia).
  rewrite IH; [|lia|by rewrite (len_image_write (counters_end w d))|intros j Hj'; apply Hj; lia]. unfold i. rewrite (nth_counter_image data w d) by done.
  unfold s, chunk_len, CMS_MERGE_CHUNK_COUNTERS in *. repeat destruct (decide _); try done; lia.
Qed.

(** The number of chunks covers all counters and no chunk is empty. *)
Lemma chunk_count_spec total : 0 < total -> let m := (total + CMS_MERGE_CHUNK_COUNTERS - 1) / CMS_MERGE_CHUNK_COUNTERS in
  0 <= m /\ total <= CMS_MERGE_CHUNK_COUNTERS * m /\ forall j, 0 <= j < m -> CMS_MERGE_CHUNK_COUNTERS * j < total.
Proof. intros Ht. unfold CMS_MERGE_CHUNK_COUNTERS. cbv zeta. Z.to_euclidean_division_equations. split; [lia|]. split; [lia|]. intros j Hj. nia. Qed.

Definition merged (data : bytes) (w d : Z) (sum : Z -> Z) (n : Z) : list AfterImage :=
  chunk_images sum (w * d) 0 ((w * d + CMS_MERGE_CHUNK_COUNTERS - 1) / CMS_MERGE_CHUNK_COUNTERS) ++ [mkAfterImage 24 (le_bytes 8 n)].

Lemma merged_file data w d n sum n' : cms_file data w d n -> u64_ok n' -> (forall k, 0 <= k < w * d -> 0 <= sum k <= i64_max) ->
  let data' := patched data (merged data w d sum n') in
  cms_file data' w d n' /\ (forall k, 0 <= k < w * d -> nth_counter data' k = sum k) /\ zslice data' (counters_end w d) (len data) = zslice data (counters_end w d) (len data) /\ Forall (image_ok (counters_end w d)) (merged data w d sum n').
Proof.
  intros [H1 H2 H3 H4 Hw Hd Hwd Hn Hlen] Hn' Hsum data'. pose proof (counters_end_range w d Hw ltac:(lia) Hwd) as [Hc _]. assert (counters_end w d <= len data) as Hl by (unfold TOKEN_SIZE in *; lia).
  destruct (chunk_count_spec (w * d) ltac:(nia)) as (Hm & Hcov & Hne). unfold merged in data'. unfold merged. set (m := (w * d + CMS_MERGE_CHUNK_COUNTERS - 1) / CMS_MERGE_CHUNK_COUNTERS) in *.
  pose proof (chunk_images_ok sum w d 0 m ltac:(lia) ltac:(intros k Hk; apply Hne; lia)) as Hi. set (images := chunk_images sum (w * d) 0 m) in *.
  assert (Forall (image_ok (counters_end w d)) images) as Hi' by (eapply Forall_impl; [exact Hi|by intros ? [_ ?]]). pose proof (len_patched (counters_end w d) images data Hi' Hl) as Hlp.
  assert (data' = overwrite (patched data images) 24 (le_bytes 8 n')) as -> by (unfold data'; by rewrite patched_app).
  assert (forall a b, 0 <= a -> b <= 24 -> zslice (overwrite (patched data images) 24 (le_bytes 8 n')) a b = zslice data a b) as Hs.
  { intros a b Ha Hb. rewrite overwrite_before by lia. apply (patched_before (counters_end w d) images a b MMAP_HEADER_SIZE); [done|unfold MMAP_HEADER_SIZE; lia|done|done]. }
  pose proof (overwrite_at (patched data images) 24 (le_bytes 8 n') ltac:(lia)) as Ec. rewrite len_le_bytes in Ec. split; [|split; [|split]].
  - split; try done; try (by rewrite Hs by lia); try exact Ec. rewrite len_overwrite, len_le_bytes by lia. unfold TOKEN_SIZE in *. lia.
  - intros k Hk. unfold nth_counter, counter. unfold MMAP_HEADER_SIZE. rewrite overwrite_after by (rewrite ?len_le_bytes; lia). change (nth_counter (patched data images) k = sum k). unfold images. replace m with (Z.of_nat (Z.to_nat m)) by lia.
    destruct (Hsum k Hk). rewrite (nth_counter_chunks w d sum k Hk ltac:(unfold i64_ok, i64_max in *; lia) (Z.to_nat m) data 0 ltac:(lia) Hl ltac:(intros j Hj; apply Hne; lia)). rewrite decide_True; [done|]. rewrite Z.add_0_l, Z2Nat.id, Z.mul_0_r by lia. lia.
  - rewrite overwrite_after by (rewrite ?len_le_bytes; lia). apply (patched_slice (counters_end w d)); [done|lia|lia|done].
  - apply Forall_app. split; [done|]. constructor; [|constructor]. split; [done|]. cbn [ai_offset ai_bytes]. rewrite len_le_bytes. lia.
Qed.

(** The total of a merge: every partial sum of the sources' totals must fit 64 bits. *)
Lemma merged_total_spec terms : forall total, 0 <= total <= u64_max ->
  if decide (within 0 u64_max total terms) then merged_total total terms = Ok (total + dot terms) /\ u64_ok (total + dot terms) else exists e, merged_total total terms = Err e.
Proof.
  induction terms as [|[c weight] terms IH]; intros total Ht; cbn [merged_total]; [rewrite decide_True by done; cbn [dot foldr]; by rewrite Z.add_0_r|].
  unfold cms_next_merge_total_count. rewrite checked_i128_spec. unfold u64_max in *. destruct (decide (0 <= total + c * weight <= 18446744073709551615)) as [H1|H1].
  - rewrite (decide_True (P := _ <= c * weight <= _)) by lia. cbn [ok_or rbind]. rewrite checked_i128_spec, (decide_True (P := _ <= total + c * weight <= _)) by lia. cbn [ok_or rbind].
    rewrite (proj2 (Z.ltb_ge _ 0)), (proj2 (Z.ltb_ge 18446744073709551615 _)) by lia. cbn [rbind]. specialize (IH _ H1). destruct (decide (within _ _ (total + c * weight) _)) as [H2|H2].
    + rewrite decide_True by (by split). cbn [dot foldr fst snd]. fold (dot terms). by rewrite Z.add_assoc.
    + by rewrite decide_False by (by intros [_ ?]).
  - rewrite decide_False by (by intros [? _]). destruct (decide _); cbn [ok_or rbind]; [|by eexists]. rewrite checked_i128_spec. destruct (decide _); cbn [ok_or rbind]; [|by eexists].
    destruct (Z.ltb_spec (total + c * weight) 0); [by eexists|]. rewrite (proj2 (Z.ltb_lt 18446744073709551615 _)) by lia. by eexists.
Qed.

Lemma source_counts_healthy files w d sources counts : Forall2 (source_ok files w d) counts sources -> source_counts w d (map src_path sources) (mkWorld files []) = (Ok counts, mkWorld files []).
Proof.
  induction 1 as [|c src counts sources [Ed Hf] _ IH]; [done|]. cbn [map source_counts]. rewrite (sbind_Ok _ _ _ _ _ (cms_header_healthy _ files _ w d c Ed Hf)). rewrite !Z.eqb_refl. cbn [negb orb]. by rewrite (sbind_Ok _ _ _ _ _ IH).
Qed.

Lemma open_merge_healthy files dst paths : Forall (fun p => is_Some (files !! p)) (dst :: paths) -> open_random_merge_locked dst paths (mkWorld files []) = (Ok (Some dst), mkWorld files []).
Proof.
  intros H. unfold open_random_merge_locked. assert (forall l, Forall (fun p => is_Some (files !! p)) l -> open_all l (mkWorld files []) = (Ok true, mkWorld files [])) as E1.
  { induction 1 as [|p l [data Ed] _ IH]; [done|]. cbn [open_all]. by rewrite (sbind_Ok _ _ _ _ _ (open_healthy p files data Ed)). }
  assert (forall n, syscalls n (mkWorld files []) = (Ok tt, mkWorld files [])) as E2 by (induction n as [|n IH]; [done|exact IH]).
  rewrite (sbind_Ok _ _ _ _ _ (E1 _ H)). cbn [negb]. rewrite (sbind_Ok _ _ _ _ _ (E2 _)). by rewrite (sbind_Ok _ _ _ _ _ (E2 _)).
Qed.

(** The totals of the sources with their weights, and what a merge needs of its sources. *)
Definition totals (counts : list Z) (sources : list source) : list (Z * Z) := zip counts (map src_weight sources).
Definition mergeable (w d : Z) (counts : list Z) (sources : list source) : Prop :=
  within 0 u64_max 0 (totals counts sources) /\ Forall (counter_fits sources) (seqZ 0 (w * d)).
#[export] Instance mergeable_dec w d counts sources : Decision (mergeable w d counts sources).
Proof. unfold mergeable. apply _. Defined.

Lemma chunks_fit w d sources : 0 < w * d ->
  Forall (fun s => Forall (counter_fits sources) (seqZ s (chunk_len (w * d) s))) (map (Z.mul CMS_MERGE_CHUNK_COUNTERS) (seqZ 0 ((w * d + CMS_MERGE_CHUNK_COUNTERS - 1) / CMS_MERGE_CHUNK_COUNTERS))) <->
  Forall (counter_fits sources) (seqZ 0 (w * d)).
Proof.
  intros Hwd. destruct (chunk_count_spec (w * d) Hwd) as (Hm & Hcov & Hnc). rewrite Forall_map, !Forall_seqZ. unfold chunk_len, CMS_MERGE_CHUNK_COUNTERS in *. set (m := (w * d + 8192 - 1) / 8192) in *. split.
  - intros H k Hk. specialize (H (k / 8192) ltac:(Z.to_euclidean_division_equations; lia)). rewrite Forall_seqZ in H. apply H. Z.to_euclidean_division_equations. lia.
  - intros H j Hj. apply Forall_seqZ. intros k Hk. apply H. specialize (Hnc j ltac:(lia)). lia.
Qed.

Lemma stage_merge_healthy files data w d n sources counts :
  cms_file data w d n -> sources <> [] -> w * d * len sources <= MAX_CMS_MERGE_COUNTER_VISITS -> Forall2 (source_ok files w d) counts sources ->
  let run := cms_stage_merge w d (map src_path sources) (map src_weight sources) (mkWorld files []) in
  if decide (mergeable w d counts sources) then run = (Ok (merged data w d (merged_counter sources) (dot (totals counts sources))), mkWorld files []) else exists e, run = (Err e, mkWorld files []).
Proof.
  intros Hf Hne Hv Hsrc run. subst run. pose proof Hf as [_ _ _ _ Hw Hd Hwd Hn Hlen]. unfold cms_stage_merge. rewrite !len_map, Z.eqb_refl. cbn [negb]. unfold MAX_CMS_MERGE_COUNTER_VISITS, MAX_CMS_COUNTERS in *. assert (u64_max = 18446744073709551615) as Hu by done.
  unfold checked_mul64. rewrite (proj2 (Z.leb_le (w * d) _)) by lia. rewrite (proj2 (Z.leb_le (w * d * len sources) _)) by lia. cbn [ok_or]. rewrite sbind_slift_Ok. rewrite (proj2 (Z.ltb_ge _ (w * d * len sources))) by (unfold MAX_CMS_MERGE_COUNTER_VISITS, MAX_CMS_COUNTERS; lia).
  rewrite (sbind_Ok _ _ _ _ _ (source_counts_healthy files w d sources counts Hsrc)). fold (totals counts sources).
  pose proof (merged_total_spec (totals counts sources) 0 ltac:(lia)) as Ht. assert (map src_path sources <> []) as Hp by (by destruct sources). destruct (map src_path sources) as [|p ps] eqn:Eps; [done|]. rewrite <- Eps.
  unfold mergeable. destruct (decide (within _ _ _ _)) as [H1|H1] in Ht.
  2:{ rewrite decide_False by (by intros [? _]). destruct Ht as (e & ->). by exists e. }
  destruct Ht as [-> _]. rewrite sbind_slift_Ok. destruct (chunk_count_spec (w * d) ltac:(nia)) as (Hm & Hcov & Hnc).
  assert (forall l : list source, zip (map src_path l) (map src_weight l) = map (fun s => (src_path s, src_weight s)) l) as -> by (induction l as [|s l IH]; [done|]; cbn [map zip zip_with]; by rewrite IH).
  pose proof (merge_chunks_healthy files w d sources (map (Z.mul CMS_MERGE_CHUNK_COUNTERS) (seqZ 0 ((w * d + CMS_MERGE_CHUNK_COUNTERS - 1) / CMS_MERGE_CHUNK_COUNTERS))) ltac:(clear -Hsrc; induction Hsrc; constructor; eauto) ltac:(apply Forall_map, Forall_seqZ; intros j Hj; specialize (Hnc j Hj); unfold CMS_MERGE_CHUNK_COUNTERS in *; lia)) as Hc.
  cbv zeta in Hc. destruct (decide (Forall _ (map _ _))) as [H2|H2] in Hc.
  - rewrite decide_True by (split; [done|apply chunks_fit; [nia|done]]). by rewrite (sbind_Ok _ _ _ _ _ Hc).
  - rewrite decide_False by (intros [_ H]; apply H2, chunks_fit; [nia|done]). destruct Hc as (e & Hc). exists e. by rewrite (sbind_Err _ _ _ _ _ Hc).
Qed.

Lemma write_merge_images_healthy dst n images : forall files data, files !! dst = Some data -> Forall (image_ok n) images -> n <= len data ->
  write_merge_images dst images (mkWorld files []) = (Ok tt, mkWorld (<[dst := patched data images]> files) []).
Proof.
  induction images as [|i images IH]; intros files data Ed Hi Hn; cbn [write_merge_images]; [cbn [patched foldl]; by rewrite insert_id|]. apply Forall_cons in Hi as [Hi His]. pose proof Hi as [Hi1 Hi2]. pose proof (len_nonneg (ai_bytes i)).
  rewrite (sbind_Ok _ _ _ _ _ (write_all_at_healthy dst (ai_bytes i) (ai_offset i) "cms merge after-image" files data Ed ltac:(lia))). change (overwrite data (ai_offset i) (ai_bytes i)) with (image_write data i).
  rewrite (IH _ (image_write data i)); [by rewrite insert_insert_eq|apply lookup_insert_eq|done|by rewrite (len_image_write n)].
Qed.

(** C35: a merge computes weighted sums or changes nothing.  When the weighted sum of the
    sources is a counter in every cell and their weighted total fits 64 bits (with partial
    sums that fit 128 and 64 bits), every counter of the destination becomes the weighted sum
    of the sources' counters and its total the weighted sum of their totals, whatever it held
    and also when it is one of the sources; otherwise the merge fails and no file changes. *)
Theorem cms_merge_exact dst files data w d n sources counts :
  files !! dst = Some data -> cms_file data w d n -> sources <> [] -> len sources <= MAX_CMS_MERGE_SOURCES -> w * d * len sources <= MAX_CMS_MERGE_COUNTER_VISITS ->
  Forall2 (source_ok files w d) counts sources ->
  let run := cms_file_merge dst (map src_path sources) (map src_weight sources) (mkWorld files []) in
  (mergeable w d counts sources -> exists data', run = (ReplyOk tt, mkWorld (<[dst := data']> files) []) /\
    cms_file data' w d (dot (totals counts sources)) /\ (forall k, 0 <= k < w * d -> nth_counter data' k = dot (terms_at sources k)) /\
    zslice data' (counters_end w d) (len data) = zslice data (counters_end w d) (len data)) /\
  (~ mergeable w d counts sources -> exists e, run = (ReplyError e, mkWorld files [])).
Proof.
  intros Ed Hf Hne Hl Hv Hsrc run. subst run. pose proof (stage_merge_healthy files data w d n sources counts Hf Hne Hv Hsrc) as Hs. cbv zeta in Hs.
  unfold cms_file_merge. rewrite !len_map, Z.eqb_refl. cbn [negb]. rewrite (proj2 (Z.ltb_ge _ (len sources))) by lia. unfold with_sidecar.
  rewrite open_merge_healthy. 2:{ constructor; [by rewrite Ed|]. apply Forall_map. clear -Hsrc. induction Hsrc as [|c s counts sources [E _] _ IH]; [constructor|]. constructor; [by rewrite E|exact IH]. }
  rewrite (sbind_Ok _ _ _ _ _ (cms_header_healthy dst files data w d n Ed Hf)). split; intros Hm.
  2:{ rewrite decide_False in Hs by done. destruct Hs as (e & Hs). exists e. by rewrite (sbind_Err _ _ _ _ _ Hs). }
  rewrite decide_True in Hs by done. rewrite (sbind_Ok _ _ _ _ _ Hs). clear Hs. destruct Hm as [Ht Hk]. pose proof (merged_total_spec (totals counts sources) 0 ltac:(unfold u64_max; lia)) as Hn'. rewrite decide_True in Hn' by done. destruct Hn' as [_ Hn'].
  set (sum := merged_counter sources). set (n' := dot (totals counts sources)) in *.
  destruct (merged_file data w d n sum n' Hf Hn' (fun k Hk' => proj2 (proj1 (Forall_seqZ _ _ _) Hk k ltac:(lia)))) as (H1 & H2 & H3 & Hi). cbv zeta in H1, H2, H3. exists (patched data (merged data w d sum n')). split; [|done].
  assert (counters_end w d <= len data) as Hle by (rewrite (cf_len _ _ _ _ Hf); unfold TOKEN_SIZE; lia).
  assert (cms_apply_merge_plan dst (merged data w d sum n') (mkWorld files []) = (Ok tt, mkWorld (<[dst := patched data (merged data w d sum n')]> files) [])) as Ea
    by (unfold cms_apply_merge_plan; rewrite (sbind_Ok _ _ _ _ _ (write_merge_images_healthy dst (counters_end w d) _ files data Ed Hi Hle)); apply fsync_healthy).
  destruct (merged data w d sum n') as [|i l] eqn:Em; [by apply app_nil in Em as [_ ?]|]. by rewrite Ea.
Qed.

(** ** Witnesses *)

Module CmsExample.
Definition batches : list (list (bytes * Z)) := [[(lit "a", 2); (lit "b", 3)]; [(lit "a", 5)]].
Definition data : bytes := fresh_sketch 4 2.
Definition files : gmap string bytes := {["d" := data; "s" := data]}.
Definition sources : list source := [("s", data, 2); ("d", data, 1)].
Lemma data_file : cms_file data 4 2 0 /\ holds data 4 2 (fun _ _ => 0).
Proof. apply fresh_sketch_file; [done|split; vm_compute; done || discriminate|vm_compute; discriminate]. Qed.
End CmsExample.

Lemma cms_incrby_refines_witness :
  match spec_items 4 2 [(lit "a", 7); (lit "b", -2)] (fun _ _ => 0) 0 with
  | Some (counts, g', n') => exists data', cms_file_incrby "d" [(lit "a", 7); (lit "b", -2)] (mkWorld CmsExample.files []) = (ReplyOk counts, mkWorld (<["d" := data']> CmsExample.files) []) /\
      cms_file data' 4 2 n' /\ holds data' 4 2 g' /\ zslice data' (counters_end 4 2) (len CmsExample.data) = zslice CmsExample.data (counters_end 4 2) (len CmsExample.data)
  | None => exists e, cms_file_incrby "d" [(lit "a", 7); (lit "b", -2)] (mkWorld CmsExample.files []) = (ReplyError e, mkWorld CmsExample.files [])
  end.
Proof. apply (cms_incrby_refines "d" CmsExample.files CmsExample.data 4 2 0 (fun _ _ => 0)); [reflexivity|exact (proj1 CmsExample.data_file)|exact (proj2 CmsExample.data_file)]. Defined.

Lemma cms_estimates_witness : exists w1 w2 rss estimate,
  cms_file_create "f" 4 2 (mkWorld ∅ []) = (Ok tt, w1) /\ run_incrs "f" CmsExample.batches w1 = (map ReplyOk rss, w2) /\
  cms_file_query "f" [lit "a"] w2 = (ReplyOk [estimate], w2) /\ estimate = spec_query 4 2 (cell_sum 4 (concat CmsExample.batches)) (lit "a") /\
  occurrences (concat CmsExample.batches) (lit "a") <= estimate <= added (concat CmsExample.batches).
Proof. apply (cms_estimates "f" 4 2 CmsExample.batches ∅ (lit "a")); [done|vm_compute; split; done || discriminate|vm_compute; discriminate|repeat constructor; vm_compute; discriminate|vm_compute; discriminate]. Defined.

(** Two sketches with two counts each, the destination among the sources, and weights of
    different signs: the total and the first counter are 2 * 5 - 3. *)
Module MergeExample.
Definition sketch (n : Z) : bytes := overwrite (overwrite CmsExample.data 24 (le_bytes 8 n)) 32 (le_bytes 8 n).
Definition files : gmap string bytes := {["d" := sketch 3; "s" := sketch 5]}.
Definition sources : list source := [("s", sketch 5, 2); ("d", sketch 3, -1)].
Lemma sketch_file n : n = 3 \/ n = 5 -> cms_file (sketch n) 4 2 n.
Proof. intros [-> | ->]; split; done || (vm_compute; split; discriminate). Qed.
Lemma sources_ok : Forall2 (source_ok files 4 2) [5; 3] sources.
Proof. apply Forall2_cons_2; [split; [reflexivity|apply sketch_file; lia]|]. apply Forall2_cons_2; [split; [reflexivity|apply sketch_file; lia]|]. apply Forall2_nil_2. Qed.
End MergeExample.

Lemma cms_merge_exact_witness : exists data', cms_file_merge "d" ["s"; "d"] [2; -1] (mkWorld MergeExample.files []) = (ReplyOk tt, mkWorld (<["d" := data']> MergeExample.files) []) /\
  cms_file data' 4 2 7 /\ nth_counter data' 0 = 7 /\ nth_counter data' 1 = 0.
Proof.
  destruct (cms_merge_exact "d" MergeExample.files (MergeExample.sketch 3) 4 2 3 MergeExample.sources [5; 3]) as [H _].
  - reflexivity.
  - apply MergeExample.sketch_file. lia.
  - discriminate.
  - vm_compute. discriminate.
  - vm_compute. discriminate.
  - exact MergeExample.sources_ok.
  - destruct H as (data' & E & Hf & Hk & _); [apply (bool_decide_unpack _); vm_compute; exact I|]. exists data'. split; [exact E|]. split; [exact Hf|]. split; [exact (Hk 0 ltac:(lia))|exact (Hk 1 ltac:(lia))].
Defined.
