(* ===== verification/Cuckoo.v ===== *)
(** * Cuckoo filters (cuckoo.rs, sections/cuckoo_part_01.rs, sections/cuckoo_part_02.rs)

    A filter is a file: a 27-byte header (magic number, version, layout, counts of items and
    of deletions), a table of buckets of fingerprints, and the token of its newest mutation.
    A fingerprint may lie in either of two buckets, each computed from the other and the
    fingerprint; a fingerprint of zeros is a free slot.  When both buckets of a new element
    are full, fingerprints are moved to their other buckets along a chain of at most
    [max_kicks] moves, which is staged in a map before anything is written. *)

From Stdlib Require Import ZArith Lia.
From stdpp Require Import gmap strings sorting.
From S2P Require Import Prelude Bytes Crc Sidecar ProbTxn.

Definition CUCKOO_MAGIC : bytes := [xcf; x01].
Definition CUCKOO_VERSION : Z := 1.
Definition CUCKOO_HEADER_SIZE : Z := 27.
Definition FILE_DEFAULT_FINGERPRINT_SIZE : Z := 1.
Definition FILE_DEFAULT_MAX_KICKS : Z := 500.
Definition MAX_FINGERPRINT_SIZE : Z := 8.
Definition MAX_CUCKOO_BUCKET_BYTES : Z := 1073741824.
Definition OFF_NUM_ITEMS : Z := 11.
Definition OFF_NUM_DELETES : Z := 19.

Record CuckooFileHeader : Type := mkCuckooFileHeader {
  num_buckets : Z;
  bucket_size : Z;
  fingerprint_size : Z;
  max_kicks : Z;
  num_items : Z;
  num_deletes : Z;
}.

(** Staged slots, by bucket and slot. *)
Abbreviation Slots := (gmap (Z * Z) bytes).

(** ** Layout *)

Definition cuckoo_bucket_bytes (num_buckets bucket_size fingerprint_size : Z) : result Z :=
  let? slots := ok_or (checked_mul64 num_buckets bucket_size) "cuckoo bucket region size overflow" in
  let? region := ok_or (checked_mul64 slots fingerprint_size) "cuckoo bucket region size overflow" in
  if MAX_CUCKOO_BUCKET_BYTES <? region then Err "cuckoo bucket region exceeds 1073741824 bytes" else Ok region.

Definition cuckoo_bucket_count (capacity bucket_size : Z) : result Z :=
  if capacity =? 0 then Err "capacity must be > 0" else
  if bucket_size =? 0 then Err "bucket_size must be > 0" else
  let num_buckets := (capacity + bucket_size - 1) / bucket_size in
  if num_buckets <=? u32_max then Ok num_buckets else Err "cuckoo bucket count overflow".

Definition cuckoo_mutation_token_offset (num_buckets bucket_size fingerprint_size : Z) : result Z :=
  let? region := cuckoo_bucket_bytes num_buckets bucket_size fingerprint_size in
  ok_or (checked_add64 CUCKOO_HEADER_SIZE region) "cuckoo mutation token offset overflow".

Definition cuckoo_file_size (num_buckets bucket_size fingerprint_size : Z) : result Z :=
  let? offset := cuckoo_mutation_token_offset num_buckets bucket_size fingerprint_size in
  ok_or (checked_add64 offset TOKEN_SIZE) "cuckoo file size overflow".

Definition checked_sub64 (a b : Z) : option Z := if b <=? a then Some (a - b) else None.
Definition cuckoo_num_items_after_insert (num_items : Z) : result Z := ok_or (checked_add64 num_items 1) "cuckoo num_items overflow".
Definition cuckoo_num_items_after_delete (num_items : Z) : result Z := ok_or (checked_sub64 num_items 1) "cuckoo num_items underflow".
Definition cuckoo_num_deletes_after_delete (num_deletes : Z) : result Z := ok_or (checked_add64 num_deletes 1) "cuckoo num_deletes overflow".

Definition cuckoo_read_exact_at (file : string) (n offset : Z) (label : string) : SR World bytes := read_exact_as "read " "cuckoo file" file n offset label.

Definition cuckoo_read_header (file : string) : SR World CuckooFileHeader :=
  let! hdr := cuckoo_read_exact_at file CUCKOO_HEADER_SIZE 0 "header" in
  if negb (bytes_eqb (zslice hdr 0 2) CUCKOO_MAGIC) then serr "invalid cuckoo file magic" else
  let version := le_val (zslice hdr 2 3) in
  if negb (version =? CUCKOO_VERSION) then serr ("unsupported cuckoo version " +:+ pretty version) else
  let num_buckets := le_val (zslice hdr 3 7) in
  let bucket_size := le_val (zslice hdr 7 8) in
  let fingerprint_size := le_val (zslice hdr 8 9) in
  let max_kicks := le_val (zslice hdr 9 11) in
  let num_items := le_val (zslice hdr 11 19) in
  let num_deletes := le_val (zslice hdr 19 27) in
  if num_buckets =? 0 then serr "num_buckets must be > 0" else
  if bucket_size =? 0 then serr "bucket_size must be > 0" else
  if (fingerprint_size =? 0) || (MAX_FINGERPRINT_SIZE <? fingerprint_size) then serr "fingerprint_size must be between 1 and 8" else
  if max_kicks =? 0 then serr "max_kicks must be > 0" else
  if num_buckets * bucket_size <? num_items then serr "cuckoo num_items must not exceed total slots" else
  let! expected_size := slift (cuckoo_file_size num_buckets bucket_size fingerprint_size) in
  let! actual_size := map_err (fun e => "read cuckoo file metadata: " +:+ e) (metadata_len file) in
  if negb (actual_size =? expected_size) then
    serr ("cuckoo file size mismatch: expected " +:+ pretty expected_size +:+ ", got " +:+ pretty actual_size)
  else sret (mkCuckooFileHeader num_buckets bucket_size fingerprint_size max_kicks num_items num_deletes).

(** ** Fingerprints and buckets *)

Section Cuckoo.
Context `{C : Crc32fast} `{X : Xxh3}.

Definition all_zero (bs : bytes) : bool := forallb (fun b => byte_val b =? 0) bs.

Definition cuckoo_file_fingerprint_and_bucket (element : bytes) (fingerprint_size num_buckets : Z) : bytes * Z :=
  let hash := le_bytes 16 (xxh3_128 element) in
  let fp := ztake fingerprint_size hash in
  let fp := if all_zero fp then copy_from_slice fp 0 [x01] else fp in
  let hash_val := le_val (zslice hash fingerprint_size (fingerprint_size + 8)) in
  (fp, hash_val mod num_buckets).

Definition cuckoo_file_alternate_bucket (bucket : Z) (fp : bytes) (num_buckets : Z) : Z :=
  let hash := le_bytes 16 (xxh3_128 fp) in
  let fp_hash := le_val (zslice hash 0 8) in
  (fp_hash mod num_buckets + num_buckets - bucket) mod num_buckets.

Definition cuckoo_file_candidate_buckets (primary alternate : Z) : list Z :=
  if alternate =? primary then [primary] else [primary; alternate].

Definition cuckoo_file_slot_offset (bucket_idx slot_idx bucket_size fingerprint_size : Z) : Z :=
  CUCKOO_HEADER_SIZE + (bucket_idx * bucket_size + slot_idx) * fingerprint_size.

Definition cuckoo_file_read_slot (file : string) (hdr : CuckooFileHeader) (bucket_idx slot_idx : Z) : SR World bytes :=
  cuckoo_read_exact_at file (fingerprint_size hdr) (cuckoo_file_slot_offset bucket_idx slot_idx (bucket_size hdr) (fingerprint_size hdr)) "slot".

Definition cuckoo_file_write_slot (file : string) (hdr : CuckooFileHeader) (bucket_idx slot_idx : Z) (fp : bytes) : SR World unit :=
  write_all_at file fp (cuckoo_file_slot_offset bucket_idx slot_idx (bucket_size hdr) (fingerprint_size hdr)) "cuckoo slot".

Definition cuckoo_file_write_num_items (file : string) (num_items : Z) : SR World unit := write_all_at file (le_bytes 8 num_items) OFF_NUM_ITEMS "cuckoo num_items".
Definition cuckoo_file_write_num_deletes (file : string) (num_deletes : Z) : SR World unit := write_all_at file (le_bytes 8 num_deletes) OFF_NUM_DELETES "cuckoo num_deletes".

(** The loops [for slot in 0..bucket_size] that stop at the first slot that passes a test,
    for one bucket and for several in turn; [read] reads a slot. *)
Fixpoint find_slot (read : Z -> Z -> SR World bytes) (test : bytes -> bool) (bucket : Z) (slots : list Z) : SR World (option Z) :=
  match slots with
  | [] => sret None
  | slot :: slots =>
      let! s := read bucket slot in
      if test s then sret (Some slot) else find_slot read test bucket slots
  end.
Fixpoint find_in_buckets (read : Z -> Z -> SR World bytes) (test : bytes -> bool) (bucket_size : Z) (buckets : list Z) : SR World (option (Z * Z)) :=
  match buckets with
  | [] => sret None
  | bucket :: buckets =>
      let! found := find_slot read test bucket (seqZ 0 bucket_size) in
      match found with
      | Some slot => sret (Some (bucket, slot))
      | None => find_in_buckets read test bucket_size buckets
      end
  end.

(** ** Eviction *)

Definition cuckoo_file_read_slot_staged (file : string) (hdr : CuckooFileHeader) (staged : Slots) (bucket_idx slot_idx : Z) : SR World bytes :=
  match staged !! (bucket_idx, slot_idx) with
  | Some value => sret value
  | None => cuckoo_file_read_slot file hdr bucket_idx slot_idx
  end.

(** The loop [for kicks in 0..max_kicks], with [n] rounds left. *)
Fixpoint evict_loop (file : string) (hdr : CuckooFileHeader) (n : nat) (kicks : Z) (staged : Slots) (cur_fp : bytes) (cur_bucket : Z) : SR World (option Slots) :=
  match n with
  | O => sret None
  | S n =>
      let slot_idx := kicks mod bucket_size hdr in
      let! evicted := cuckoo_file_read_slot_staged file hdr staged cur_bucket slot_idx in
      let staged := <[(cur_bucket, slot_idx) := cur_fp]> staged in
      let alt := cuckoo_file_alternate_bucket cur_bucket evicted (num_buckets hdr) in
      let! found := find_slot (cuckoo_file_read_slot_staged file hdr staged) all_zero alt (seqZ 0 (bucket_size hdr)) in
      match found with
      | Some slot => sret (Some (<[(alt, slot) := evicted]> staged))
      | None => evict_loop file hdr n (kicks + 1) staged evicted alt
      end
  end.
Definition cuckoo_file_stage_eviction (file : string) (hdr : CuckooFileHeader) (fp : bytes) (start_bucket : Z) : SR World (option Slots) :=
  evict_loop file hdr (Z.to_nat (max_kicks hdr)) 0 ∅ fp start_bucket.

(** [updates.sort_unstable_by_key(|((bucket, slot), _)| (bucket, slot))]; the keys of a map
    differ, so the order is determined. *)
Definition by_slot (a b : (Z * Z) * bytes) : Prop := a.1.1 < b.1.1 \/ (a.1.1 = b.1.1 /\ a.1.2 <= b.1.2).
#[export] Instance by_slot_dec : RelDecision by_slot.
Proof. intros a b. unfold by_slot. apply _. Defined.
Definition sorted_slots (staged : Slots) : list ((Z * Z) * bytes) := merge_sort by_slot (map_to_list staged).

Fixpoint write_slots (file : string) (hdr : CuckooFileHeader) (updates : list ((Z * Z) * bytes)) : SR World unit :=
  match updates with
  | [] => sret tt
  | ((bucket, slot), value) :: updates =>
      let! _ := cuckoo_file_write_slot file hdr bucket slot value in
      write_slots file hdr updates
  end.

Definition cuckoo_file_try_eviction (file : string) (hdr : CuckooFileHeader) (fp : bytes) (start_bucket : Z) : SR World bool :=
  let! staged := cuckoo_file_stage_eviction file hdr fp start_bucket in
  match staged with
  | None => sret false
  | Some staged =>
      let! _ := write_slots file hdr (sorted_slots staged) in
      sret true
  end.

(** ** Mutations with a token *)

Inductive CuckooMutation : Type := CuckooAdd | CuckooAddNx | CuckooDelete.

Record CuckooMutationPlan : Type := mkCuckooMutationPlan {
  plan_result : Z;
  plan_images : list AfterImage;
}.

Definition cuckoo_slot_after_image (hdr : CuckooFileHeader) (bucket slot : Z) (value : bytes) : AfterImage :=
  mkAfterImage (cuckoo_file_slot_offset bucket slot (bucket_size hdr) (fingerprint_size hdr)) value.
Definition items_after_image (num_items : Z) : AfterImage := mkAfterImage OFF_NUM_ITEMS (le_bytes 8 num_items).

Definition cuckoo_insert_plan (file : string) (hdr : CuckooFileHeader) (element : bytes) (add_nx : bool) : SR World CuckooMutationPlan :=
  let '(fingerprint, primary) := cuckoo_file_fingerprint_and_bucket element (fingerprint_size hdr) (num_buckets hdr) in
  let alternate := cuckoo_file_alternate_bucket primary fingerprint (num_buckets hdr) in
  let buckets := cuckoo_file_candidate_buckets primary alternate in
  let read := cuckoo_file_read_slot file hdr in
  let! present := (if add_nx then find_in_buckets read (fun s => bytes_eqb s fingerprint) (bucket_size hdr) buckets else sret None) in
  match present with
  | Some _ => sret (mkCuckooMutationPlan 0 [])
  | None =>
      let! next_num_items := slift (cuckoo_num_items_after_insert (num_items hdr)) in
      let! free := find_in_buckets read all_zero (bucket_size hdr) buckets in
      match free with
      | Some (bucket, slot) => sret (mkCuckooMutationPlan 1 [cuckoo_slot_after_image hdr bucket slot fingerprint; items_after_image next_num_items])
      | None =>
          let! staged := cuckoo_file_stage_eviction file hdr fingerprint primary in
          match staged with
          | None => serr "filter is full"
          | Some staged =>
              let images := map (fun '((bucket, slot), value) => cuckoo_slot_after_image hdr bucket slot value) (sorted_slots staged) in
              sret (mkCuckooMutationPlan 1 (images ++ [items_after_image next_num_items]))
          end
      end
  end.

Definition cuckoo_delete_plan (file : string) (hdr : CuckooFileHeader) (element : bytes) : SR World CuckooMutationPlan :=
  let '(fingerprint, primary) := cuckoo_file_fingerprint_and_bucket element (fingerprint_size hdr) (num_buckets hdr) in
  let alternate := cuckoo_file_alternate_bucket primary fingerprint (num_buckets hdr) in
  let! found := find_in_buckets (cuckoo_file_read_slot file hdr) (fun s => bytes_eqb s fingerprint) (bucket_size hdr) (cuckoo_file_candidate_buckets primary alternate) in
  match found with
  | Some (bucket, slot) =>
      let! next_num_items := slift (cuckoo_num_items_after_delete (num_items hdr)) in
      let! next_num_deletes := slift (cuckoo_num_deletes_after_delete (num_deletes hdr)) in
      sret (mkCuckooMutationPlan 1
        [cuckoo_slot_after_image hdr bucket slot (replicate (Z.to_nat (fingerprint_size hdr)) x00);
         items_after_image next_num_items; mkAfterImage OFF_NUM_DELETES (le_bytes 8 next_num_deletes)])
  | None => sret (mkCuckooMutationPlan 0 [])
  end.

Definition cuckoo_decode_mutation_result (result : bytes) : Prelude.result Z :=
  match result with
  | [value] => if byte_val value <=? 1 then Ok (byte_val value) else Err "invalid cuckoo mutation receipt result"
  | _ => Err "invalid cuckoo mutation receipt result"
  end.

Definition cuckoo_transactional_mutation (file receipt_path : string) (header : CuckooFileHeader) (element : bytes) (mutation : CuckooMutation) (token : MutationToken) : SR World Z :=
  let! token_offset := slift (cuckoo_mutation_token_offset (num_buckets header) (bucket_size header) (fingerprint_size header)) in
  let! file_size := slift (cuckoo_file_size (num_buckets header) (bucket_size header) (fingerprint_size header)) in
  let! token := effective_token file receipt_path token token_offset file_size in
  let! decision := begin_ file receipt_path token token_offset file_size in
  match decision with
  | Replay result => slift (cuckoo_decode_mutation_result result)
  | Stale => sret (match mutation with CuckooAdd => 1 | CuckooAddNx | CuckooDelete => 0 end)
  | Apply =>
      let! current := cuckoo_read_header file in
      if negb (num_buckets current =? num_buckets header) || negb (bucket_size current =? bucket_size header)
         || negb (fingerprint_size current =? fingerprint_size header) || negb (max_kicks current =? max_kicks header)
      then serr "cuckoo layout changed while mutation lock was held" else
      let! plan := (match mutation with
                    | CuckooAdd => cuckoo_insert_plan file current element false
                    | CuckooAddNx => cuckoo_insert_plan file current element true
                    | CuckooDelete => cuckoo_delete_plan file current element
                    end) in
      let! _ := commit file receipt_path token token_offset file_size (plan_images plan) [byte_of (plan_result plan)] in
      sret (plan_result plan)
  end.

(** ** Operations *)

Definition cuckoo_file_open_read (path : string) : SR World (option string) := map_err (fun e => "open: " +:+ e) (open_random_read_locked path).
Definition cuckoo_file_open_rw (path : string) : SR World (option string) := map_err (fun e => "open: " +:+ e) (open_random_rw_locked path).

Definition cuckoo_recover_sidecar (path : string) : SR World unit :=
  let! opened := map_err (fun e => "open cuckoo sidecar for recovery: " +:+ e) (open_random_rw_locked path) in
  match opened with
  | None => serr "open cuckoo sidecar for recovery: No such file or directory (os error 2)"
  | Some file =>
      let! header := cuckoo_read_header file in
      let! token_offset := slift (cuckoo_mutation_token_offset (num_buckets header) (bucket_size header) (fingerprint_size header)) in
      let! file_size := slift (cuckoo_file_size (num_buckets header) (bucket_size header) (fingerprint_size header)) in
      recover file path token_offset file_size
  end.

Definition cuckoo_file_mutate_at (path receipt_path : string) (element : bytes) (mutation_index mutation_ordinal : Z) (mutation : CuckooMutation) : World -> reply Z * World :=
  let token := mkMutationToken mutation_index mutation_ordinal in
  if token_eqb token ZERO then fun w => (ReplyError "cuckoo mutation token must be non-zero", w) else
  with_sidecar cuckoo_file_open_rw path (fun file =>
    let! header := cuckoo_read_header file in
    cuckoo_transactional_mutation file receipt_path header element mutation token).
Definition cuckoo_file_add_at (path receipt_path : string) (element : bytes) (mutation_index mutation_ordinal : Z) : World -> reply Z * World :=
  cuckoo_file_mutate_at path receipt_path element mutation_index mutation_ordinal CuckooAdd.
Definition cuckoo_file_addnx_at (path receipt_path : string) (element : bytes) (mutation_index mutation_ordinal : Z) : World -> reply Z * World :=
  cuckoo_file_mutate_at path receipt_path element mutation_index mutation_ordinal CuckooAddNx.
Definition cuckoo_file_del_at (path receipt_path : string) (element : bytes) (mutation_index mutation_ordinal : Z) : World -> reply Z * World :=
  cuckoo_file_mutate_at path receipt_path element mutation_index mutation_ordinal CuckooDelete.

Definition cuckoo_header (num_buckets bucket_size fingerprint_size max_kicks : Z) : bytes :=
  let header := replicate 27 x00 in
  let header := copy_from_slice header 0 CUCKOO_MAGIC in
  let header := copy_from_slice header 2 [byte_of CUCKOO_VERSION] in
  let header := copy_from_slice header 3 (le_bytes 4 num_buckets) in
  let header := copy_from_slice header 7 [byte_of bucket_size] in
  let header := copy_from_slice header 8 [byte_of fingerprint_size] in
  copy_from_slice header 9 (le_bytes 2 max_kicks).

Definition cuckoo_file_create (path : string) (capacity bucket_size : Z) : SR World unit :=
  let fingerprint_size := FILE_DEFAULT_FINGERPRINT_SIZE in
  let max_kicks := FILE_DEFAULT_MAX_KICKS in
  let! num_buckets := slift (cuckoo_bucket_count capacity bucket_size) in
  let! file_size := slift (cuckoo_file_size num_buckets bucket_size fingerprint_size) in
  create_sidecar path (cuckoo_header num_buckets bucket_size fingerprint_size max_kicks) file_size.

(** The common part of [cuckoo_file_add] and [cuckoo_file_addnx]: a free slot of the primary
    bucket, then of the alternate one, then eviction. *)
Definition insert_fingerprint (file : string) (hdr : CuckooFileHeader) (fp : bytes) (b1 b2 next_num_items : Z) : SR World Z :=
  let! free := find_in_buckets (cuckoo_file_read_slot file hdr) all_zero (bucket_size hdr) [b1; b2] in
  match free with
  | Some (bucket, slot) =>
      let! _ := cuckoo_file_write_slot file hdr bucket slot fp in
      let! _ := cuckoo_file_write_num_items file next_num_items in
      let! _ := prob_fsync file in
      sret 1
  | None =>
      let! moved := cuckoo_file_try_eviction file hdr fp b1 in
      if (moved : bool) then
        let! _ := cuckoo_file_write_num_items file next_num_items in
        let! _ := prob_fsync file in
        sret 1
      else serr "filter is full"
  end.

Definition cuckoo_file_add (path : string) (element : bytes) : World -> reply Z * World :=
  with_sidecar cuckoo_file_open_rw path (fun file =>
    let! hdr := cuckoo_read_header file in
    let '(fp, b1) := cuckoo_file_fingerprint_and_bucket element (fingerprint_size hdr) (num_buckets hdr) in
    let b2 := cuckoo_file_alternate_bucket b1 fp (num_buckets hdr) in
    let! next_num_items := slift (cuckoo_num_items_after_insert (num_items hdr)) in
    insert_fingerprint file hdr fp b1 b2 next_num_items).

Definition cuckoo_file_addnx (path : string) (element : bytes) : World -> reply Z * World :=
  with_sidecar cuckoo_file_open_rw path (fun file =>
    let! hdr := cuckoo_read_header file in
    let '(fp, b1) := cuckoo_file_fingerprint_and_bucket element (fingerprint_size hdr) (num_buckets hdr) in
    let b2 := cuckoo_file_alternate_bucket b1 fp (num_buckets hdr) in
    let! present := find_in_buckets (cuckoo_file_read_slot file hdr) (fun s => bytes_eqb s fp) (bucket_size hdr) (cuckoo_file_candidate_buckets b1 b2) in
    match present with
    | Some _ => sret 0
    | None =>
        let! next_num_items := slift (cuckoo_num_items_after_insert (num_items hdr)) in
        insert_fingerprint file hdr fp b1 b2 next_num_items
    end).

Definition cuckoo_file_del (path : string) (element : bytes) : World -> reply Z * World :=
  with_sidecar cuckoo_file_open_rw path (fun file =>
    let! hdr := cuckoo_read_header file in
    let '(fp, b1) := cuckoo_file_fingerprint_and_bucket element (fingerprint_size hdr) (num_buckets hdr) in
    let b2 := cuckoo_file_alternate_bucket b1 fp (num_buckets hdr) in
    let empty := replicate (Z.to_nat (fingerprint_size hdr)) x00 in
    let! found := find_in_buckets (cuckoo_file_read_slot file hdr) (fun s => bytes_eqb s fp) (bucket_size hdr) [b1; b2] in
    match found with
    | Some (bucket, slot) =>
        let! next_num_items := slift (cuckoo_num_items_after_delete (num_items hdr)) in
        let! next_num_deletes := slift (cuckoo_num_deletes_after_delete (num_deletes hdr)) in
        let! _ := cuckoo_file_write_slot file hdr bucket slot empty in
        let! _ := cuckoo_file_write_num_items file next_num_items in
        let! _ := cuckoo_file_write_num_deletes file next_num_deletes in
        let! _ := prob_fsync file in
        sret 1
    | None => sret 0
    end).

Definition cuckoo_file_exists_in_open_file (file : string) (hdr : CuckooFileHeader) (element : bytes) : SR World Z :=
  let '(fp, b1) := cuckoo_file_fingerprint_and_bucket element (fingerprint_size hdr) (num_buckets hdr) in
  let b2 := cuckoo_file_alternate_bucket b1 fp (num_buckets hdr) in
  let! found := find_in_buckets (cuckoo_file_read_slot file hdr) (fun s => bytes_eqb s fp) (bucket_size hdr) (cuckoo_file_candidate_buckets b1 b2) in
  sret (match found with Some _ => 1 | None => 0 end).

Definition cuckoo_exists_body (element : bytes) (file : string) : SR World Z :=
  let! hdr := cuckoo_read_header file in
  cuckoo_file_exists_in_open_file file hdr element.
Definition cuckoo_file_exists (path : string) (element : bytes) : World -> reply Z * World := with_sidecar cuckoo_file_open_read path (cuckoo_exists_body element).
Definition cuckoo_file_exists_async (path : string) (element : bytes) : SR World Z := with_sidecar_task path (cuckoo_exists_body element).

Fixpoint exists_elements (file : string) (hdr : CuckooFileHeader) (elements : list bytes) : SR World (list Z) :=
  match elements with
  | [] => sret []
  | element :: elements =>
      let! result := cuckoo_file_exists_in_open_file file hdr element in
      let! results := exists_elements file hdr elements in
      sret (result :: results)
  end.
Definition cuckoo_mexists_body (elements : list bytes) (file : string) : SR World (list Z) :=
  let! hdr := cuckoo_read_header file in
  exists_elements file hdr elements.
Definition cuckoo_file_mexists (path : string) (elements : list bytes) : World -> reply (list Z) * World := with_sidecar cuckoo_file_open_read path (cuckoo_mexists_body elements).
Definition cuckoo_file_mexists_async (path : string) (elements : list bytes) : SR World (list Z) := with_sidecar_task path (cuckoo_mexists_body elements).

(** The slots of the buckets in order, counting those that hold [fp]. *)
Fixpoint count_slots (file : string) (hdr : CuckooFileHeader) (fp : bytes) (cells : list (Z * Z)) (total : Z) : SR World Z :=
  match cells with
  | [] => sret total
  | (bucket, slot) :: cells =>
      let! s := cuckoo_file_read_slot file hdr bucket slot in
      count_slots file hdr fp cells (if bytes_eqb s fp then total + 1 else total)
  end.
Definition bucket_cells (bucket_size : Z) (buckets : list Z) : list (Z * Z) := concat (map (fun bucket => map (pair bucket) (seqZ 0 bucket_size)) buckets).
Definition cuckoo_count_body (element : bytes) (file : string) : SR World Z :=
  let! hdr := cuckoo_read_header file in
  let '(fp, b1) := cuckoo_file_fingerprint_and_bucket element (fingerprint_size hdr) (num_buckets hdr) in
  let b2 := cuckoo_file_alternate_bucket b1 fp (num_buckets hdr) in
  count_slots file hdr fp (bucket_cells (bucket_size hdr) (cuckoo_file_candidate_buckets b1 b2)) 0.
Definition cuckoo_file_count (path : string) (element : bytes) : World -> reply Z * World := with_sidecar cuckoo_file_open_read path (cuckoo_count_body element).
Definition cuckoo_file_count_async (path : string) (element : bytes) : SR World Z := with_sidecar_task path (cuckoo_count_body element).

(** The header, with the number of slots. *)
Definition cuckoo_info_body (file : string) : SR World (CuckooFileHeader * Z) :=
  let! hdr := cuckoo_read_header file in
  sret (hdr, num_buckets hdr * bucket_size hdr).
Definition cuckoo_file_info (path : string) : World -> reply (CuckooFileHeader * Z) * World := with_sidecar cuckoo_file_open_read path cuckoo_info_body.
Definition cuckoo_file_info_async (path : string) : SR World (CuckooFileHeader * Z) := with_sidecar_task path cuckoo_info_body.
End Cuckoo.
