(* ===== verification/CuckooProof.v ===== *)
(** * What the operations on cuckoo filters do

    A filter is read as a bag of signatures: an occupied slot stands for its fingerprint
    with the unordered pair of its buckets.  Computing the other bucket twice gives the
    first one back, so the two slots where a fingerprint may lie stand for the same
    signature, and moving it does not change the bag. *)

From Stdlib Require Import ZArith Lia.
From stdpp Require Import gmap strings sorting.
From S2P Require Import Prelude Bytes Crc Sidecar ProbTxn ProbTxnProof Cuckoo.

Section Bags.
Context `{X : Xxh3}.

(** ** Fingerprints and their buckets *)

Lemma alternate_range b fp N : 0 < N -> 0 <= cuckoo_file_alternate_bucket b fp N < N.
Proof using Type. intros H. by apply Z.mod_pos_bound. Qed.

Lemma alternate_involutive b fp N : 0 <= b < N -> cuckoo_file_alternate_bucket (cuckoo_file_alternate_bucket b fp N) fp N = b.
Proof using Type.
  intros Hb. unfold cuckoo_file_alternate_bucket. set (h := le_val _ mod N). rewrite Zminus_mod_idemp_r. replace (h + N - (h + N - b)) with b by lia. by apply Z.mod_small.
Qed.

Definition primary_fp (x : bytes) (F N : Z) : bytes := (cuckoo_file_fingerprint_and_bucket x F N).1.
Definition primary_bucket (x : bytes) (F N : Z) : Z := (cuckoo_file_fingerprint_and_bucket x F N).2.

Lemma primary_bucket_range x F N : 0 < N -> 0 <= primary_bucket x F N < N.
Proof using Type. intros H. by apply Z.mod_pos_bound. Qed.

Lemma primary_fp_ok x F N : 1 <= F <= 8 -> len (primary_fp x F N) = F /\ all_zero (primary_fp x F N) = false.
Proof using Type.
  intros HF. unfold primary_fp, cuckoo_file_fingerprint_and_bucket. cbn [fst]. set (fp := ztake F _).
  assert (len fp = F) as Hl by (unfold fp; rewrite len_ztake, len_le_bytes by lia; lia). destruct (all_zero fp) eqn:E; [|done].
  unfold copy_from_slice. rewrite ztake_0 by lia. cbn [app]. split; [|done]. change (0 + len [x01]) with 1. rewrite len_cons, len_zdrop by lia. lia.
Qed.

(** ** Signatures *)

Definition signature : Type := bytes * (Z * Z).

(** What an occupied slot of bucket [b] stands for. *)
Definition signature_at (N b : Z) (fp : bytes) : signature :=
  let b' := cuckoo_file_alternate_bucket b fp N in (fp, (Z.min b b', Z.max b b')).
Definition slot_signature (N b : Z) (v : bytes) : option signature := if all_zero v then None else Some (signature_at N b v).
Definition signature_of (F N : Z) (x : bytes) : signature := signature_at N (primary_bucket x F N) (primary_fp x F N).

(** A fingerprint has the same signature in its other bucket, and in no third one. *)
Lemma signature_moved N b fp : 0 <= b < N -> signature_at N (cuckoo_file_alternate_bucket b fp N) fp = signature_at N b fp.
Proof using Type. intros Hb. unfold signature_at. rewrite alternate_involutive by done. cbv zeta. by rewrite Z.min_comm, Z.max_comm. Qed.

Lemma signature_eq N b b' fp fp' : 0 <= b < N -> 0 <= b' < N ->
  signature_at N b' fp' = signature_at N b fp <-> fp' = fp /\ (b' = b \/ b' = cuckoo_file_alternate_bucket b fp N).
Proof using Type.
  intros Hb Hb'. split; [|intros [-> [->| ->]]; [done|by apply signature_moved]]. unfold signature_at. cbv zeta. intros [= -> H1 H2]. split; [done|].
  set (a := cuckoo_file_alternate_bucket b fp N) in *. set (a' := cuckoo_file_alternate_bucket b' fp N) in *. lia.
Qed.

(** ** Tables and their bags *)

Definition table : Type := Z * Z -> bytes.
Definition cells (N B : Z) : list (Z * Z) := bucket_cells B (seqZ 0 N).
Definition bag (N B : Z) (t : table) : list signature := omap (fun c => slot_signature N c.1 (t c)) (cells N B).
Definition upd (t : table) (c : Z * Z) (v : bytes) : table := fun c' => if decide (c' = c) then v else t c'.

Lemma elem_of_bucket_cells B bs c : c ∈ bucket_cells B bs <-> c.1 ∈ bs /\ 0 <= c.2 < B.
Proof using Type.
  induction bs as [|b bs IH]; [split; [intros H; by apply elem_of_nil in H|intros [H _]; by apply elem_of_nil in H]|].
  change (bucket_cells B (b :: bs)) with (map (pair b) (seqZ 0 B) ++ bucket_cells B bs). rewrite elem_of_app, IH, elem_of_cons. split.
  - intros [H|H]; [|tauto]. apply list_elem_of_fmap in H as (s & -> & Hs). apply elem_of_seqZ in Hs. cbn [fst snd]. split; [by left|lia].
  - intros [[E|H] Hs]; [left|by right]. apply list_elem_of_fmap. exists c.2. split; [by destruct c; cbn in *; subst|]. apply elem_of_seqZ. lia.
Qed.

Lemma elem_of_cells N B c : c ∈ cells N B <-> 0 <= c.1 < N /\ 0 <= c.2 < B.
Proof using Type. unfold cells. rewrite elem_of_bucket_cells, elem_of_seqZ. lia. Qed.

Lemma NoDup_bucket_cells B bs : NoDup bs -> NoDup (bucket_cells B bs).
Proof using Type.
  induction 1 as [|b bs Hb _ IH]; [by apply NoDup_nil|]. change (NoDup (map (pair b) (seqZ 0 B) ++ bucket_cells B bs)). apply NoDup_app. split; [apply NoDup_fmap_2; [intros s s' [=]; done|apply NoDup_seqZ]|]. split; [|done].
  intros c Hc Hc'. apply list_elem_of_fmap in Hc as (s & -> & _). apply elem_of_bucket_cells in Hc' as [Hc' _]. by apply Hb.
Qed.
Lemma NoDup_cells N B : NoDup (cells N B).
Proof using Type. apply NoDup_bucket_cells, NoDup_seqZ. Qed.

Lemma omap_ext_in {A D : Type} (f g : A -> option D) (l : list A) : (forall a, a ∈ l -> f a = g a) -> omap f l = omap g l.
Proof using Type.
  induction l as [|a l IH]; intros H; [done|]. cbn [omap list_omap]. rewrite (H a) by apply list_elem_of_here. rewrite IH; [done|]. intros a' Ha. apply H. by right.
Qed.

Lemma bag_ext N B t t' : (forall c, c ∈ cells N B -> t c = t' c) -> bag N B t = bag N B t'.
Proof using Type. intros H. apply omap_ext_in. intros c Hc. by rewrite H. Qed.

(** A cell on its own: the rest of the bag does not depend on it. *)
Lemma bag_split N B t c : c ∈ cells N B -> exists rest,
  bag N B t ≡ₚ option_list (slot_signature N c.1 (t c)) ++ rest /\ forall v, bag N B (upd t c v) ≡ₚ option_list (slot_signature N c.1 v) ++ rest.
Proof using Type.
  intros Hc. exists (omap (fun c => slot_signature N c.1 (t c)) (filter (.≠ c) (cells N B))).
  assert (cells N B ≡ₚ c :: filter (.≠ c) (cells N B)) as Ep.
  { apply NoDup_Permutation; [apply NoDup_cells|apply NoDup_cons; split; [rewrite list_elem_of_filter; tauto|apply NoDup_filter, NoDup_cells]|].
    intros c'. rewrite elem_of_cons, list_elem_of_filter. destruct (decide (c' = c)) as [->|]; tauto. }
  assert (forall t', bag N B t' ≡ₚ option_list (slot_signature N c.1 (t' c)) ++ omap (fun c => slot_signature N c.1 (t' c)) (filter (.≠ c) (cells N B))) as H.
  { intros t'. unfold bag. rewrite Ep at 1. cbn [omap list_omap]. by destruct (slot_signature N c.1 (t' c)). }
  split; [apply H|]. intros v. rewrite H. unfold upd at 1. rewrite decide_True by done. apply Permutation_app_head. erewrite omap_ext_in; [done|].
  intros c' Hc'. apply list_elem_of_filter in Hc' as [Hne _]. unfold upd. by rewrite decide_False by done.
Qed.

(** ** Members of a bag *)

Definition occurrences (g : signature) (l : list signature) : Z := len (filter (fun g' => g' = g) l).

Lemma occurrences_omap {A : Type} (f : A -> option signature) g (l : list A) : occurrences g (omap f l) = len (filter (fun a => f a = Some g) l).
Proof using Type.
  unfold occurrences, len. f_equal. induction l as [|a l IH]; [done|]. cbn [omap list_omap]. rewrite (filter_cons _ a). destruct (f a) as [g'|] eqn:E.
  - rewrite filter_cons. destruct (decide (g' = g)) as [->|Hne]; [rewrite decide_True by done; cbn [length]; by rewrite IH|]. rewrite decide_False by congruence. done.
  - by rewrite decide_False by done.
Qed.

Definition candidates (N b : Z) (fp : bytes) : list Z := cuckoo_file_candidate_buckets b (cuckoo_file_alternate_bucket b fp N).

Lemma elem_of_candidates N b fp b' : b' ∈ candidates N b fp <-> b' = b \/ b' = cuckoo_file_alternate_bucket b fp N.
Proof using Type.
  unfold candidates, cuckoo_file_candidate_buckets. destruct (Z.eqb_spec (cuckoo_file_alternate_bucket b fp N) b) as [->|]; [rewrite list_elem_of_singleton; tauto|].
  rewrite !elem_of_cons. split; [|tauto]. intros [?|[?|H]]; [tauto..|]. by apply elem_of_nil in H.
Qed.
Lemma NoDup_candidates N b fp : NoDup (candidates N b fp).
Proof using Type.
  unfold candidates, cuckoo_file_candidate_buckets. destruct (Z.eqb_spec (cuckoo_file_alternate_bucket b fp N) b); [apply NoDup_singleton|].
  apply NoDup_cons. split; [|apply NoDup_singleton]. by intros H%list_elem_of_singleton.
Qed.

(** The slots of the two buckets that hold the fingerprint are the occurrences of its
    signature. *)
Lemma occurrences_bag N B t b fp : 0 <= b < N -> all_zero fp = false ->
  occurrences (signature_at N b fp) (bag N B t) = len (filter (fun c => t c = fp) (bucket_cells B (candidates N b fp))).
Proof using Type.
  intros Hb Hz. unfold bag. rewrite occurrences_omap. unfold len. f_equal. apply Permutation_length, NoDup_Permutation; [apply NoDup_filter, NoDup_cells|apply NoDup_filter, NoDup_bucket_cells, NoDup_candidates|].
  intros [b' s]. rewrite !list_elem_of_filter, elem_of_cells, elem_of_bucket_cells, elem_of_candidates. cbn [fst snd]. unfold slot_signature.
  pose proof (alternate_range b fp N ltac:(lia)). destruct (all_zero (t (b', s))) eqn:Ez.
  - split; [intros [? _]; done|]. intros [E _]. congruence.
  - split.
    + intros [E [Hb' Hs]]. apply (inj Some) in E. apply signature_eq in E as [-> E]; [|done..]. done.
    + intros [-> [E Hs]]. split; [|split; [destruct E; lia|done]]. f_equal. apply signature_eq; [done|destruct E; lia|]. by split.
Qed.

Lemma occurrences_pos g l : g ∈ l <-> 0 < occurrences g l.
Proof using Type.
  unfold occurrences. split.
  - intros H. assert (g ∈ filter (fun g' => g' = g) l) as Hf by by apply list_elem_of_filter. destruct (filter _ l); [by apply elem_of_nil in Hf|]. rewrite len_cons. pose proof (len_nonneg l0). lia.
  - intros H. destruct (filter _ l) as [|g' l'] eqn:E in H; [by change (0 < 0) in H|]. assert (g' ∈ g' :: l') as Hin by apply list_elem_of_here. rewrite <- E in Hin. by apply list_elem_of_filter in Hin as [-> Hin].
Qed.

(** ** Searching the slots of a table *)

Definition finds (t : table) (test : bytes -> bool) (B : Z) (bs : list Z) : option (Z * Z) := List.find (fun c => test (t c)) (bucket_cells B bs).

Lemma find_app {A : Type} (f : A -> bool) l1 l2 : List.find f (l1 ++ l2) = match List.find f l1 with Some a => Some a | None => List.find f l2 end.
Proof using Type. induction l1 as [|a l1 IH]; [done|]. cbn [app List.find]. by destruct (f a). Qed.

Lemma find_slot_table read t test b slots w : Forall (fun s => read b s w = (Ok (t (b, s)), w)) slots ->
  find_slot read test b slots w = (Ok (List.find (fun s => test (t (b, s))) slots), w).
Proof using Type.
  induction 1 as [|s slots E _ IH]; [done|]. cbn [find_slot List.find]. rewrite (sbind_Ok _ _ _ _ _ E). by destruct (test (t (b, s))).
Qed.

Lemma find_map_pair (f : Z * Z -> bool) b l : List.find f (map (pair b) l) = option_map (pair b) (List.find (fun s => f (b, s)) l).
Proof using Type. induction l as [|s l IH]; [done|]. cbn [map List.find]. by destruct (f (b, s)). Qed.

Lemma find_in_buckets_table read t test B w bs : (forall b s, b ∈ bs -> 0 <= s < B -> read b s w = (Ok (t (b, s)), w)) ->
  find_in_buckets read test B bs w = (Ok (finds t test B bs), w).
Proof using Type.
  induction bs as [|b bs IH]; intros H; [done|]. unfold finds. change (bucket_cells B (b :: bs)) with (map (pair b) (seqZ 0 B) ++ bucket_cells B bs). cbn [find_in_buckets].
  assert (Forall (fun s => read b s w = (Ok (t (b, s)), w)) (seqZ 0 B)) as Hf.
  { apply Forall_forall. intros s Hs. apply elem_of_seqZ in Hs. apply H; [apply list_elem_of_here|lia]. }
  rewrite (sbind_Ok _ _ _ _ _ (find_slot_table _ _ _ _ _ _ Hf)). rewrite find_app, find_map_pair. destruct (List.find (fun s => test (t (b, s))) (seqZ 0 B)) as [s|]; [done|].
  cbn [option_map]. apply IH. intros b' s Hb. apply H. by right.
Qed.

Lemma finds_Some t test B bs c : finds t test B bs = Some c -> c.1 ∈ bs /\ 0 <= c.2 < B /\ test (t c) = true.
Proof using Type. intros H. apply find_some in H as [Hin H]. apply list_elem_of_In, elem_of_bucket_cells in Hin. tauto. Qed.
Lemma finds_None t test B bs c : finds t test B bs = None -> c.1 ∈ bs -> 0 <= c.2 < B -> test (t c) = false.
Proof using Type. intros H Hb Hs. apply (find_none _ _ H c). by apply list_elem_of_In, elem_of_bucket_cells. Qed.

(** Scanning the bucket twice when the two are the same finds the same slot. *)
Lemma finds_candidates t test B N b fp : finds t test B [b; cuckoo_file_alternate_bucket b fp N] = finds t test B (candidates N b fp).
Proof using Type.
  unfold candidates, cuckoo_file_candidate_buckets. destruct (Z.eqb_spec (cuckoo_file_alternate_bucket b fp N) b) as [->|]; [|done].
  unfold finds, bucket_cells. cbn [map concat]. rewrite !find_app. by destruct (List.find _ (map (pair b) (seqZ 0 B))).
Qed.

(** ** Eviction on tables *)

Definition overlay (t : table) (staged : Slots) : table := fun c => default (t c) (staged !! c).

Fixpoint evicts (t : table) (N B : Z) (n : nat) (kicks : Z) (staged : Slots) (fp : bytes) (b : Z) : option Slots :=
  match n with
  | O => None
  | S n =>
      let evicted := overlay t staged (b, kicks mod B) in
      let staged := <[(b, kicks mod B) := fp]> staged in
      let alt := cuckoo_file_alternate_bucket b evicted N in
      match List.find (fun s => all_zero (overlay t staged (alt, s))) (seqZ 0 B) with
      | Some s => Some (<[(alt, s) := evicted]> staged)
      | None => evicts t N B n (kicks + 1) staged evicted alt
      end
  end.

Lemma overlay_insert t staged c v : overlay t (<[c := v]> staged) c = v /\ forall c', c' <> c -> overlay t (<[c := v]> staged) c' = overlay t staged c'.
Proof using Type. unfold overlay. rewrite lookup_insert_eq. split; [done|]. intros c' Hne. by rewrite lookup_insert_ne. Qed.

Lemma bag_overlay_insert N B t staged c v : bag N B (overlay t (<[c := v]> staged)) = bag N B (upd (overlay t staged) c v).
Proof using Type.
  apply bag_ext. intros c' _. destruct (overlay_insert t staged c v) as [H1 H2]. unfold upd. case_decide as E; [by rewrite E|by apply H2].
Qed.

(** Putting a fingerprint into a free slot adds its signature; swapping adds one and takes
    the other. *)
Lemma bag_put N B t c v : c ∈ cells N B -> all_zero (t c) = true -> all_zero v = false -> bag N B (upd t c v) ≡ₚ signature_at N c.1 v :: bag N B t.
Proof using Type.
  intros Hc Hz Hv. destruct (bag_split N B t c Hc) as (rest & H & Hu). rewrite (Hu v), H. unfold slot_signature. by rewrite Hz, Hv.
Qed.
Lemma bag_swap N B t c v : c ∈ cells N B -> all_zero (t c) = false -> all_zero v = false ->
  signature_at N c.1 (t c) :: bag N B (upd t c v) ≡ₚ signature_at N c.1 v :: bag N B t.
Proof using Type.
  intros Hc Hz Hv. destruct (bag_split N B t c Hc) as (rest & H & Hu). rewrite (Hu v), H. unfold slot_signature. rewrite Hz, Hv. apply Permutation_swap.
Qed.
Lemma bag_take N B t c v : c ∈ cells N B -> all_zero (t c) = false -> all_zero v = true -> bag N B t ≡ₚ signature_at N c.1 (t c) :: bag N B (upd t c v).
Proof using Type.
  intros Hc Hz Hv. destruct (bag_split N B t c Hc) as (rest & H & Hu). rewrite (Hu v), H. unfold slot_signature. by rewrite Hz, Hv.
Qed.

Definition slots_ok (N B F : Z) (staged : Slots) : Prop := map_Forall (fun c v => c ∈ cells N B /\ len v = F) staged.

Lemma overlay_len N B F t staged c : (forall c, c ∈ cells N B -> len (t c) = F) -> slots_ok N B F staged -> c ∈ cells N B -> len (overlay t staged c) = F.
Proof using Type. intros Ht Hs Hc. unfold overlay. destruct (staged !! c) as [v|] eqn:E; [by apply (Hs c v)|by apply Ht]. Qed.

Lemma evicts_bag N B F t : 0 < B -> (forall c, c ∈ cells N B -> len (t c) = F) -> forall n kicks staged fp b st,
  slots_ok N B F staged -> len fp = F -> all_zero fp = false -> 0 <= b < N -> (forall s, 0 <= s < B -> all_zero (overlay t staged (b, s)) = false) ->
  evicts t N B n kicks staged fp b = Some st ->
  slots_ok N B F st /\ bag N B (overlay t st) ≡ₚ signature_at N b fp :: bag N B (overlay t staged).
Proof using Type.
  intros HB Ht. induction n as [|n IH]; intros kicks staged fp b st Hst Hl Hz Hb Hfull; [done|]. cbn [evicts].
  pose proof (Z.mod_pos_bound kicks B HB) as Hs. assert ((b, kicks mod B) ∈ cells N B) as Hc by by apply elem_of_cells. set (evicted := overlay t staged (b, kicks mod B)).
  assert (len evicted = F) as Hle by by apply (overlay_len N B). pose proof (Hfull _ Hs) as Hze. fold evicted in Hze. set (staged1 := <[_ := fp]> staged). set (alt := cuckoo_file_alternate_bucket b evicted N).
  assert (slots_ok N B F staged1) as Hst1 by by apply map_Forall_insert_2.
  pose proof (bag_swap N B (overlay t staged) _ fp Hc Hze Hz) as Hsw. rewrite <- bag_overlay_insert in Hsw. fold evicted staged1 in Hsw. cbn [fst] in Hsw.
  pose proof (alternate_range b evicted N ltac:(lia)) as Ha. fold alt in Ha. rewrite <- (signature_moved N b evicted Hb) in Hsw. fold alt in Hsw.
  destruct (List.find _ _) as [s|] eqn:Ef.
  - intros [= <-]. apply find_some in Ef as [Hin Hf]. apply list_elem_of_In, elem_of_seqZ in Hin. assert ((alt, s) ∈ cells N B) as Hc2 by (apply elem_of_cells; cbn [fst snd]; lia).
    split; [by apply map_Forall_insert_2|]. rewrite bag_overlay_insert, bag_put by done. exact Hsw.
  - intros E. apply IH in E as [Hok E]; try done; [by rewrite E|]. intros s Hs'. apply (find_none _ _ Ef). apply list_elem_of_In, elem_of_seqZ. lia.
Qed.

Lemma read_staged_table file h t staged b s w : cuckoo_file_read_slot file h b s w = (Ok (t (b, s)), w) -> cuckoo_file_read_slot_staged file h staged b s w = (Ok (overlay t staged (b, s)), w).
Proof using Type. intros E. unfold cuckoo_file_read_slot_staged, overlay. by destruct (staged !! (b, s)). Qed.

Lemma evict_loop_table file h t w : 0 < num_buckets h -> 0 < bucket_size h ->
  (forall b s, 0 <= b < num_buckets h -> 0 <= s < bucket_size h -> cuckoo_file_read_slot file h b s w = (Ok (t (b, s)), w)) -> forall n kicks staged fp b, 0 <= b < num_buckets h ->
  evict_loop file h n kicks staged fp b w = (Ok (evicts t (num_buckets h) (bucket_size h) n kicks staged fp b), w).
Proof using Type.
  intros HN HB Hread. induction n as [|n IH]; intros kicks staged fp b Hb; [done|]. cbn [evict_loop evicts]. pose proof (Z.mod_pos_bound kicks _ HB) as Hs.
  rewrite (sbind_Ok _ _ _ _ _ (read_staged_table file h t staged b _ w (Hread b _ Hb Hs))). set (evicted := overlay t staged _). set (staged1 := <[_ := fp]> staged). set (alt := cuckoo_file_alternate_bucket b evicted _).
  pose proof (alternate_range b evicted (num_buckets h) HN) as Ha. fold alt in Ha.
  assert (Forall (fun s => cuckoo_file_read_slot_staged file h staged1 alt s w = (Ok (overlay t staged1 (alt, s)), w)) (seqZ 0 (bucket_size h))) as Hf.
  { apply Forall_forall. intros s Hin. apply elem_of_seqZ in Hin. apply read_staged_table, Hread; lia. }
  rewrite (sbind_Ok _ _ _ _ _ (find_slot_table _ _ _ _ _ _ Hf)). destruct (List.find _ _); [done|]. by apply IH.
Qed.

(** ** Filter files *)

Definition slots_end (h : CuckooFileHeader) : Z := CUCKOO_HEADER_SIZE + num_buckets h * bucket_size h * fingerprint_size h.
Definition slot_offset (h : CuckooFileHeader) (c : Z * Z) : Z := cuckoo_file_slot_offset c.1 c.2 (bucket_size h) (fingerprint_size h).
Definition table_of (data : bytes) (h : CuckooFileHeader) : table := fun c => zslice data (slot_offset h c) (slot_offset h c + fingerprint_size h).
Definition cells_of (h : CuckooFileHeader) : list (Z * Z) := cells (num_buckets h) (bucket_size h).
Definition bag_of (data : bytes) (h : CuckooFileHeader) : list signature := bag (num_buckets h) (bucket_size h) (table_of data h).

Record layout_ok (h : CuckooFileHeader) : Prop := {
  lo_N : 0 < num_buckets h;
  lo_B : 0 < bucket_size h;
  lo_F : 1 <= fingerprint_size h <= 8;
  lo_kicks : 0 < max_kicks h;
  lo_region : num_buckets h * bucket_size h * fingerprint_size h <= MAX_CUCKOO_BUCKET_BYTES;
}.

Record cuckoo_file (data : bytes) (h : CuckooFileHeader) : Prop := {
  ck_magic : zslice data 0 2 = CUCKOO_MAGIC;
  ck_version : le_val (zslice data 2 3) = CUCKOO_VERSION;
  ck_N : le_val (zslice data 3 7) = num_buckets h;
  ck_B : le_val (zslice data 7 8) = bucket_size h;
  ck_F : le_val (zslice data 8 9) = fingerprint_size h;
  ck_kicks : le_val (zslice data 9 11) = max_kicks h;
  ck_items : le_val (zslice data 11 19) = num_items h;
  ck_deletes : le_val (zslice data 19 27) = num_deletes h;
  ck_layout : layout_ok h;
  ck_fits : num_items h <= num_buckets h * bucket_size h;
  ck_len : len data = slots_end h + TOKEN_SIZE;
}.

Lemma region_slots h : layout_ok h -> 0 < num_buckets h * bucket_size h <= num_buckets h * bucket_size h * fingerprint_size h.
Proof using Type. intros [HN HB HF _ _]. nia. Qed.

Lemma slots_end_range h : layout_ok h -> 28 <= slots_end h /\ slots_end h + TOKEN_SIZE <= u64_max.
Proof using Type.
  intros Hl. pose proof (region_slots h Hl). pose proof (lo_region h Hl) as Hr. unfold slots_end. assert (u64_max = 18446744073709551615) as -> by done. unfold CUCKOO_HEADER_SIZE, MAX_CUCKOO_BUCKET_BYTES, TOKEN_SIZE in *. lia.
Qed.

Lemma cuckoo_token_offset_ok h : layout_ok h -> cuckoo_mutation_token_offset (num_buckets h) (bucket_size h) (fingerprint_size h) = Ok (slots_end h).
Proof using Type.
  intros Hl. pose proof (region_slots h Hl). pose proof (slots_end_range h Hl) as [_ He]. pose proof (lo_region h Hl) as Hr. unfold cuckoo_mutation_token_offset, cuckoo_bucket_bytes, checked_mul64, checked_add64. unfold slots_end in *.
  assert (u64_max = 18446744073709551615) as Hu by done. unfold MAX_CUCKOO_BUCKET_BYTES in *. unfold TOKEN_SIZE in He.
  rewrite (proj2 (Z.leb_le (num_buckets h * bucket_size h) _)) by lia. cbn [ok_or rbind]. rewrite (proj2 (Z.leb_le (num_buckets h * bucket_size h * fingerprint_size h) _)) by lia. cbn [ok_or rbind].
  rewrite (proj2 (Z.ltb_ge _ _)) by lia. cbn [rbind]. by rewrite (proj2 (Z.leb_le _ _)) by lia.
Qed.

Lemma cuckoo_file_size_ok h : layout_ok h -> cuckoo_file_size (num_buckets h) (bucket_size h) (fingerprint_size h) = Ok (slots_end h + TOKEN_SIZE).
Proof using Type.
  intros Hl. unfold cuckoo_file_size. rewrite cuckoo_token_offset_ok by done. cbn [rbind]. unfold checked_add64. pose proof (slots_end_range h Hl) as [_ ?]. by rewrite (proj2 (Z.leb_le _ _)) by lia.
Qed.

Lemma cuckoo_header_healthy file files data h : files !! file = Some data -> cuckoo_file data h -> cuckoo_read_header file (mkWorld files []) = (Ok h, mkWorld files []).
Proof using Type.
  intros Ed [Hm Hv HN HB HF Hk Hi Hd Hl Hfit Hlen]. pose proof (slots_end_range h Hl) as [Hs _]. unfold cuckoo_read_header, cuckoo_read_exact_at. unfold TOKEN_SIZE in Hlen.
  rewrite (sbind_Ok _ _ _ _ _ (read_exact_as_healthy "read " "cuckoo file" file CUCKOO_HEADER_SIZE 0 "header" files data (zslice data 0 27) Ed (get_range_Some data 0 27 ltac:(lia) ltac:(lia) ltac:(lia)))).
  rewrite !zslice_header by lia. rewrite Hm, Hv, HN, HB, HF, Hk, Hi, Hd. change (bytes_eqb CUCKOO_MAGIC CUCKOO_MAGIC) with true. rewrite Z.eqb_refl. cbn [negb]. pose proof Hl as [H1 H2 H3 H4 H5].
  rewrite (proj2 (Z.eqb_neq (num_buckets h) 0)), (proj2 (Z.eqb_neq (bucket_size h) 0)), (proj2 (Z.eqb_neq (fingerprint_size h) 0)), (proj2 (Z.eqb_neq (max_kicks h) 0)) by lia. cbn [orb].
  unfold MAX_FINGERPRINT_SIZE. rewrite (proj2 (Z.ltb_ge 8 _)), (proj2 (Z.ltb_ge _ (num_items h))) by lia. rewrite cuckoo_file_size_ok, sbind_slift_Ok by done.
  rewrite (sbind_Ok _ _ _ _ _ (metadata_healthy _ file files data Ed)). rewrite Hlen. unfold TOKEN_SIZE. rewrite Z.eqb_refl. cbn [negb]. by destruct h.
Qed.

(** ** Slots *)

Lemma slot_bounds h c : layout_ok h -> c ∈ cells_of h -> CUCKOO_HEADER_SIZE <= slot_offset h c /\ slot_offset h c + fingerprint_size h <= slots_end h.
Proof using Type.
  intros [HN HB HF _ _] Hc. apply elem_of_cells in Hc as [Hc1 Hc2]. unfold slot_offset, cuckoo_file_slot_offset, slots_end. set (F := fingerprint_size h) in *. set (B := bucket_size h) in *. set (N := num_buckets h) in *.
  assert (0 <= c.1 * B + c.2) by nia. assert (c.1 * B + c.2 + 1 <= N * B) by nia. nia.
Qed.

Lemma slot_apart h c c' : layout_ok h -> c ∈ cells_of h -> c' ∈ cells_of h -> c <> c' ->
  slot_offset h c + fingerprint_size h <= slot_offset h c' \/ slot_offset h c' + fingerprint_size h <= slot_offset h c.
Proof using Type.
  intros [HN HB HF _ _] Hc Hc' Hne. apply elem_of_cells in Hc as [Hc1 Hc2], Hc' as [Hc1' Hc2']. destruct c as [b s], c' as [b' s']. unfold slot_offset, cuckoo_file_slot_offset. cbn [fst snd] in *.
  set (F := fingerprint_size h) in *. set (B := bucket_size h) in *. assert (b * B + s <> b' * B + s') as Hi.
  { intros E. apply Hne. assert (b = b') as -> by nia. f_equal. lia. }
  destruct (Z.lt_trichotomy (b * B + s) (b' * B + s')) as [?|[?|?]]; [left; nia|lia|right; nia].
Qed.

Lemma slots_end_len data h : cuckoo_file data h -> slots_end h <= len data.
Proof using Type. intros Hf. rewrite (ck_len _ _ Hf). unfold TOKEN_SIZE. lia. Qed.

Lemma read_slot_healthy file files data h b s : files !! file = Some data -> cuckoo_file data h -> (b, s) ∈ cells_of h ->
  cuckoo_file_read_slot file h b s (mkWorld files []) = (Ok (table_of data h (b, s)), mkWorld files []).
Proof using Type.
  intros Ed Hf Hc. pose proof (ck_layout _ _ Hf) as Hl. pose proof (lo_F _ Hl). pose proof (slots_end_len _ _ Hf). pose proof (slot_bounds h _ Hl Hc) as [H1 H2]. unfold CUCKOO_HEADER_SIZE in H1.
  unfold cuckoo_file_read_slot, cuckoo_read_exact_at. apply (read_exact_as_healthy _ _ _ _ _ _ _ data); [done|]. change (cuckoo_file_slot_offset b s (bucket_size h) (fingerprint_size h)) with (slot_offset h (b, s)). apply get_range_Some; lia.
Qed.

Lemma table_len data h c : cuckoo_file data h -> c ∈ cells_of h -> len (table_of data h c) = fingerprint_size h.
Proof using Type.
  intros Hf Hc. pose proof (ck_layout _ _ Hf) as Hl. pose proof (lo_F _ Hl). pose proof (slots_end_len _ _ Hf). pose proof (slot_bounds h _ Hl Hc) as [H1 H2]. unfold CUCKOO_HEADER_SIZE in H1. unfold table_of. rewrite len_zslice by lia. lia.
Qed.

(** A write of a slot. *)
Lemma set_slot data h c v : cuckoo_file data h -> c ∈ cells_of h -> len v = fingerprint_size h ->
  let data' := overwrite data (slot_offset h c) v in
  cuckoo_file data' h /\ (forall c', c' ∈ cells_of h -> table_of data' h c' = upd (table_of data h) c v c') /\ zslice data' (slots_end h) (len data) = zslice data (slots_end h) (len data).
Proof using Type.
  intros Hf Hc Hv. pose proof (ck_layout _ _ Hf) as Hl. pose proof (lo_F _ Hl). pose proof (slots_end_len _ _ Hf) as He. pose proof (slot_bounds h _ Hl Hc) as [H1 H2]. unfold CUCKOO_HEADER_SIZE in H1. cbv zeta.
  assert (forall a b, 0 <= a -> b <= 27 -> zslice (overwrite data (slot_offset h c) v) a b = zslice data a b) as Hs by (intros a b Ha Hb; apply overwrite_before; lia). split; [|split].
  - destruct Hf as [Hm Hve HN HB HF Hk Hi Hd _ Hfit Hlen]. split; try done; rewrite ?Hs by lia; try done. rewrite len_overwrite by lia. lia.
  - intros c' Hc'. pose proof (slot_bounds h _ Hl Hc') as [H1' H2']. unfold CUCKOO_HEADER_SIZE in H1'. unfold upd. case_decide as E.
    + subst c'. unfold table_of. rewrite <- Hv. apply overwrite_at. lia.
    + unfold table_of. destruct (slot_apart h c' c Hl Hc' Hc E); [apply overwrite_before; lia|apply overwrite_after; lia].
  - apply overwrite_after; lia.
Qed.

(** Writes of the counts in the header. *)
Definition with_items (h : CuckooFileHeader) (n : Z) : CuckooFileHeader :=
  mkCuckooFileHeader (num_buckets h) (bucket_size h) (fingerprint_size h) (max_kicks h) n (num_deletes h).
Definition with_deletes (h : CuckooFileHeader) (n : Z) : CuckooFileHeader :=
  mkCuckooFileHeader (num_buckets h) (bucket_size h) (fingerprint_size h) (max_kicks h) (num_items h) n.

Lemma header_write data h o bs : cuckoo_file data h -> 0 <= o -> o + len bs <= 27 ->
  let data' := overwrite data o bs in len data' = len data /\ bag_of data' h = bag_of data h /\ zslice data' (slots_end h) (len data) = zslice data (slots_end h) (len data).
Proof using Type.
  intros Hf Ho Hb. pose proof (ck_layout _ _ Hf) as Hl. pose proof (slots_end_len _ _ Hf) as He. pose proof (slots_end_range h Hl) as [Hs _]. pose proof (len_nonneg bs). cbv zeta. split; [rewrite len_overwrite by lia; lia|]. split.
  - apply bag_ext. intros c Hc. pose proof (slot_bounds h c Hl Hc) as [H1 _]. unfold CUCKOO_HEADER_SIZE in H1. unfold table_of. apply overwrite_after; lia.
  - apply overwrite_after; lia.
Qed.

Lemma set_items data h n : cuckoo_file data h -> 0 <= n <= num_buckets h * bucket_size h -> cuckoo_file (overwrite data OFF_NUM_ITEMS (le_bytes 8 n)) (with_items h n).
Proof using Type.
  intros Hf Hn. pose proof (len_le_bytes 8 n) as Hb. pose proof (slots_end_len _ _ Hf) as He. pose proof (ck_layout _ _ Hf) as Hl. pose proof (slots_end_range h Hl) as [Hs _].
  assert (len (overwrite data OFF_NUM_ITEMS (le_bytes 8 n)) = len data) as Hlen by (rewrite len_overwrite, Hb by (unfold OFF_NUM_ITEMS; lia); unfold OFF_NUM_ITEMS; lia). pose proof (region_slots h Hl). pose proof (lo_region h Hl) as Hr. unfold MAX_CUCKOO_BUCKET_BYTES in Hr.
  pose proof (overwrite_at data 11 (le_bytes 8 n) ltac:(lia)) as Eat. rewrite Hb in Eat. change (11 + Z.of_nat 8) with 19 in Eat.
  destruct Hf as [Hm Hve HN HB HF Hk Hi Hd _ Hfit Hln]. unfold OFF_NUM_ITEMS in *. split; cbn [num_buckets bucket_size fingerprint_size max_kicks num_items num_deletes with_items].
  1-6: by rewrite overwrite_before by lia.
  - rewrite Eat. apply le_val_u64. unfold u64_ok. change u64_max with 18446744073709551615. lia.
  - by rewrite overwrite_after by lia.
  - by destruct Hl.
  - lia.
  - rewrite Hlen. exact Hln.
Qed.

Lemma set_deletes data h n : cuckoo_file data h -> u64_ok n -> cuckoo_file (overwrite data OFF_NUM_DELETES (le_bytes 8 n)) (with_deletes h n).
Proof using Type.
  intros Hf Hn. pose proof (len_le_bytes 8 n) as Hb. pose proof (slots_end_len _ _ Hf) as He. pose proof (ck_layout _ _ Hf) as Hl. pose proof (slots_end_range h Hl) as [Hs _].
  assert (len (overwrite data OFF_NUM_DELETES (le_bytes 8 n)) = len data) as Hlen by (rewrite len_overwrite, Hb by (unfold OFF_NUM_DELETES; lia); unfold OFF_NUM_DELETES; lia).
  pose proof (overwrite_at data 19 (le_bytes 8 n) ltac:(lia)) as Eat. rewrite Hb in Eat. change (19 + Z.of_nat 8) with 27 in Eat.
  destruct Hf as [Hm Hve HN HB HF Hk Hi Hd _ Hfit Hln]. unfold OFF_NUM_DELETES in *. split; cbn [num_buckets bucket_size fingerprint_size max_kicks num_items num_deletes with_deletes].
  1-7: by rewrite overwrite_before by lia.
  - rewrite Eat. by apply le_val_u64.
  - by destruct Hl.
  - done.
  - rewrite Hlen. exact Hln.
Qed.

(** ** Slots written in order *)

Definition slot_image (h : CuckooFileHeader) (u : (Z * Z) * bytes) : AfterImage := cuckoo_slot_after_image h u.1.1 u.1.2 u.2.
Definition slot_update (h : CuckooFileHeader) (u : (Z * Z) * bytes) : Prop := u.1 ∈ cells_of h /\ len u.2 = fingerprint_size h.

Lemma patched_slots h ups : forall data, cuckoo_file data h -> Forall (slot_update h) ups -> NoDup ups.*1 ->
  let data' := patched data (map (slot_image h) ups) in
  cuckoo_file data' h /\ bag_of data' h = bag (num_buckets h) (bucket_size h) (overlay (table_of data h) (list_to_map ups)) /\ zslice data' (slots_end h) (len data) = zslice data (slots_end h) (len data).
Proof using Type.
  induction ups as [|[c v] ups IH]; intros data Hf Hu Hn.
  { split; [done|]. split; [|done]. apply bag_ext. intros c _. unfold overlay. by rewrite list_to_map_nil, lookup_empty. }
  apply Forall_cons in Hu as [[Hc Hv] Hu]. apply NoDup_cons in Hn as [Hni Hn]. cbn [fst snd] in *. destruct (set_slot data h c v Hf Hc Hv) as (Hf1 & Ht1 & Hz1). set (data1 := overwrite data (slot_offset h c) v) in *.
  change (patched data (map (slot_image h) ((c, v) :: ups))) with (patched data1 (map (slot_image h) ups)). destruct (IH data1 Hf1 Hu Hn) as (Hf2 & Hb2 & Hz2). assert (len data1 = len data) as Hlen by (rewrite (ck_len _ _ Hf1), (ck_len _ _ Hf); done).
  split; [done|]. rewrite Hlen in Hz2. split; [|by rewrite Hz2]. rewrite Hb2. apply bag_ext. intros c' Hc'. unfold overlay. rewrite list_to_map_cons.
  rewrite (Ht1 c' Hc'). unfold upd. case_decide as E; [subst c'; by rewrite lookup_insert_eq, (not_elem_of_list_to_map_1 ups)|by rewrite lookup_insert_ne].
Qed.

Lemma sorted_slots_map staged : (list_to_map (sorted_slots staged) : Slots) = staged /\ NoDup (sorted_slots staged).*1.
Proof using Type.
  unfold sorted_slots. pose proof (merge_sort_Permutation by_slot (map_to_list staged)) as Hp. assert (NoDup (merge_sort by_slot (map_to_list staged)).*1) as Hn by (rewrite Hp; apply NoDup_fst_map_to_list).
  split; [|done]. rewrite (list_to_map_proper _ (map_to_list staged)) by done. apply list_to_map_to_list.
Qed.
Lemma sorted_slots_ok h staged : slots_ok (num_buckets h) (bucket_size h) (fingerprint_size h) staged -> Forall (slot_update h) (sorted_slots staged).
Proof using Type.
  intros Hs. apply Forall_forall. intros [c v] Hin. unfold sorted_slots in Hin. rewrite merge_sort_Permutation in Hin. apply elem_of_map_to_list in Hin. exact (Hs c v Hin).
Qed.

Lemma write_slots_healthy file h ups : forall files data, files !! file = Some data -> cuckoo_file data h -> Forall (slot_update h) ups ->
  write_slots file h ups (mkWorld files []) = (Ok tt, mkWorld (<[file := patched data (map (slot_image h) ups)]> files) []).
Proof using Type.
  induction ups as [|[[b s] v] ups IH]; intros files data Ed Hf Hu; cbn [write_slots]; [cbn [map patched foldl]; by rewrite insert_id|]. apply Forall_cons in Hu as [[Hc Hv] Hu]. cbn [fst snd] in *.
  destruct (set_slot data h (b, s) v Hf Hc Hv) as (Hf1 & _ & _). pose proof (ck_layout _ _ Hf) as Hl. pose proof (lo_F _ Hl). pose proof (slots_end_len _ _ Hf). pose proof (slot_bounds h _ Hl Hc) as [H1 H2]. unfold CUCKOO_HEADER_SIZE in H1.
  unfold cuckoo_file_write_slot at 1. change (cuckoo_file_slot_offset b s (bucket_size h) (fingerprint_size h)) with (slot_offset h (b, s)).
  rewrite (sbind_Ok _ _ _ _ _ (write_all_at_healthy file v (slot_offset h (b, s)) "cuckoo slot" files data Ed ltac:(lia))).
  rewrite (IH _ _ (lookup_insert_eq _ _ _) Hf1 Hu). by rewrite insert_insert_eq.
Qed.

(** ** Plans

    What an insertion or a deletion computes from the table of the file. *)

Definition insert_plan_of (t : table) (h : CuckooFileHeader) (x : bytes) (nx : bool) : result CuckooMutationPlan :=
  let fp := primary_fp x (fingerprint_size h) (num_buckets h) in
  let b := primary_bucket x (fingerprint_size h) (num_buckets h) in
  let buckets := candidates (num_buckets h) b fp in
  match (if nx then finds t (fun s => bytes_eqb s fp) (bucket_size h) buckets else None) with
  | Some _ => Ok (mkCuckooMutationPlan 0 [])
  | None =>
      let? next := cuckoo_num_items_after_insert (num_items h) in
      match finds t all_zero (bucket_size h) buckets with
      | Some c => Ok (mkCuckooMutationPlan 1 (map (slot_image h) [(c, fp)] ++ [items_after_image next]))
      | None =>
          match evicts t (num_buckets h) (bucket_size h) (Z.to_nat (max_kicks h)) 0 ∅ fp b with
          | Some staged => Ok (mkCuckooMutationPlan 1 (map (slot_image h) (sorted_slots staged) ++ [items_after_image next]))
          | None => Err "filter is full"
          end
      end
  end.

Definition delete_plan_of (t : table) (h : CuckooFileHeader) (x : bytes) : result CuckooMutationPlan :=
  let fp := primary_fp x (fingerprint_size h) (num_buckets h) in
  let b := primary_bucket x (fingerprint_size h) (num_buckets h) in
  match finds t (fun s => bytes_eqb s fp) (bucket_size h) (candidates (num_buckets h) b fp) with
  | Some c =>
      let? next_items := cuckoo_num_items_after_delete (num_items h) in
      let? next_deletes := cuckoo_num_deletes_after_delete (num_deletes h) in
      Ok (mkCuckooMutationPlan 1 (map (slot_image h) [(c, replicate (Z.to_nat (fingerprint_size h)) x00)] ++ [items_after_image next_items; mkAfterImage OFF_NUM_DELETES (le_bytes 8 next_deletes)]))
  | None => Ok (mkCuckooMutationPlan 0 [])
  end.

Section Reads.
Variables (file : string) (files : gmap string bytes) (data : bytes) (h : CuckooFileHeader).
Hypotheses (Ed : files !! file = Some data) (Hf : cuckoo_file data h).

Lemma read_range b s : 0 <= b < num_buckets h -> 0 <= s < bucket_size h -> cuckoo_file_read_slot file h b s (mkWorld files []) = (Ok (table_of data h (b, s)), mkWorld files []).
Proof using Ed Hf. intros Hb Hs. apply read_slot_healthy; [done|done|]. by apply elem_of_cells. Qed.

Lemma candidates_range x b' : let fp := primary_fp x (fingerprint_size h) (num_buckets h) in let b := primary_bucket x (fingerprint_size h) (num_buckets h) in
  b' ∈ candidates (num_buckets h) b fp -> 0 <= b' < num_buckets h.
Proof using Hf.
  intros fp b. pose proof (lo_N _ (ck_layout _ _ Hf)) as HN. rewrite elem_of_candidates. intros [->| ->]; [by apply primary_bucket_range|by apply alternate_range].
Qed.

Lemma find_candidates test x : let fp := primary_fp x (fingerprint_size h) (num_buckets h) in let b := primary_bucket x (fingerprint_size h) (num_buckets h) in
  find_in_buckets (cuckoo_file_read_slot file h) test (bucket_size h) (candidates (num_buckets h) b fp) (mkWorld files []) =
    (Ok (finds (table_of data h) test (bucket_size h) (candidates (num_buckets h) b fp)), mkWorld files []) /\
  find_in_buckets (cuckoo_file_read_slot file h) test (bucket_size h) [b; cuckoo_file_alternate_bucket b fp (num_buckets h)] (mkWorld files []) =
    (Ok (finds (table_of data h) test (bucket_size h) (candidates (num_buckets h) b fp)), mkWorld files []).
Proof using Ed Hf.
  intros fp b. rewrite <- finds_candidates at 2. split; apply find_in_buckets_table; intros b' s Hb Hs; apply read_range; try done.
  - by apply (candidates_range x).
  - apply (candidates_range x). apply elem_of_candidates. apply elem_of_cons in Hb as [Hb|Hb]; [by left|]. apply list_elem_of_singleton in Hb. by right.
Qed.

Lemma stage_eviction_healthy fp b : 0 <= b < num_buckets h ->
  cuckoo_file_stage_eviction file h fp b (mkWorld files []) = (Ok (evicts (table_of data h) (num_buckets h) (bucket_size h) (Z.to_nat (max_kicks h)) 0 ∅ fp b), mkWorld files []).
Proof using Ed Hf. intros Hb. pose proof (ck_layout _ _ Hf) as [HN HB _ _ _]. apply evict_loop_table; try done. apply read_range. Qed.

Lemma insert_plan_healthy x nx : cuckoo_insert_plan file h x nx (mkWorld files []) = (insert_plan_of (table_of data h) h x nx, mkWorld files []).
Proof using Ed Hf.
  unfold cuckoo_insert_plan, insert_plan_of. rewrite (surjective_pairing (cuckoo_file_fingerprint_and_bucket x _ _)). fold (primary_fp x (fingerprint_size h) (num_buckets h)) (primary_bucket x (fingerprint_size h) (num_buckets h)). cbv zeta.
  set (fp := primary_fp x _ _). set (b := primary_bucket x _ _). fold (candidates (num_buckets h) b fp).
  assert ((if nx then find_in_buckets (cuckoo_file_read_slot file h) (fun s => bytes_eqb s fp) (bucket_size h) (candidates (num_buckets h) b fp) else sret None) (mkWorld files []) =
    (Ok (if nx then finds (table_of data h) (fun s => bytes_eqb s fp) (bucket_size h) (candidates (num_buckets h) b fp) else None), mkWorld files [])) as E1 by (destruct nx; [apply (find_candidates _ x)|done]).
  rewrite (sbind_Ok _ _ _ _ _ E1). destruct (if nx then finds _ _ _ _ else None); [done|]. destruct (cuckoo_num_items_after_insert (num_items h)) as [next| |]; [|done..]. rewrite sbind_slift_Ok. cbn [rbind].
  rewrite (sbind_Ok _ _ _ _ _ (proj1 (find_candidates all_zero x))). fold fp b. destruct (finds _ all_zero _ _) as [[b' s]|]; [done|].
  pose proof (lo_N _ (ck_layout _ _ Hf)) as HN. rewrite (sbind_Ok _ _ _ _ _ (stage_eviction_healthy fp b (primary_bucket_range _ _ _ HN))). destruct (evicts _ _ _ _ _ _ _ _) as [staged|]; [|done].
  unfold sret. do 4 f_equal. apply map_ext. by intros [[b' s] v].
Qed.

Lemma delete_plan_healthy x : cuckoo_delete_plan file h x (mkWorld files []) = (delete_plan_of (table_of data h) h x, mkWorld files []).
Proof using Ed Hf.
  unfold cuckoo_delete_plan, delete_plan_of. rewrite (surjective_pairing (cuckoo_file_fingerprint_and_bucket x _ _)). fold (primary_fp x (fingerprint_size h) (num_buckets h)) (primary_bucket x (fingerprint_size h) (num_buckets h)). cbv zeta.
  set (fp := primary_fp x _ _). set (b := primary_bucket x _ _). fold (candidates (num_buckets h) b fp). rewrite (sbind_Ok _ _ _ _ _ (proj1 (find_candidates _ x))). fold fp b. destruct (finds _ _ _ _) as [[b' s]|]; [|done].
  destruct (cuckoo_num_items_after_delete (num_items h)) as [next| |]; [|done..]. rewrite sbind_slift_Ok. destruct (cuckoo_num_deletes_after_delete (num_deletes h)) as [nd| |]; [|done..]. by rewrite sbind_slift_Ok.
Qed.
End Reads.

(** ** Plans and bags *)

Section Plans.
Variables (data : bytes) (h : CuckooFileHeader).
Hypothesis Hf : cuckoo_file data h.

Abbreviation N := (num_buckets h).
Abbreviation B := (bucket_size h).
Abbreviation F := (fingerprint_size h).

Lemma finds_present x : let fp := primary_fp x F N in let b := primary_bucket x F N in
  match finds (table_of data h) (fun s => bytes_eqb s fp) B (candidates N b fp) with
  | Some c => c ∈ cells_of h /\ c.1 ∈ candidates N b fp /\ table_of data h c = fp /\ signature_of F N x ∈ bag_of data h
  | None => signature_of F N x ∉ bag_of data h
  end.
Proof using Hf.
  intros fp b. pose proof (ck_layout _ _ Hf) as Hl. pose proof (primary_bucket_range x F N (lo_N _ Hl)) as Hb. destruct (primary_fp_ok x F N (lo_F _ Hl)) as [_ Hz]. fold b in Hb. fold fp in Hz.
  pose proof (occurrences_bag N B (table_of data h) b fp Hb Hz) as Ho. fold (bag_of data h) in Ho. change (signature_at N b fp) with (signature_of F N x) in Ho.
  destruct (finds _ _ _ _) as [c|] eqn:E.
  - apply finds_Some in E as (H1 & H2 & H3). destruct (bytes_eqb_spec (table_of data h c) fp) as [H4|]; [|done]. clear H3. split; [apply elem_of_cells; split; [by apply (candidates_range data h Hf x)|done]|]. split; [done|]. split; [done|]. apply occurrences_pos. rewrite Ho.
    assert (c ∈ filter (fun c => table_of data h c = fp) (bucket_cells B (candidates N b fp))) as Hc by by apply list_elem_of_filter; split; [|apply elem_of_bucket_cells].
    destruct (filter _ _) as [|c' l]; [by apply elem_of_nil in Hc|]. rewrite len_cons. pose proof (len_nonneg l). lia.
  - rewrite occurrences_pos, Ho. destruct (filter _ _) as [|c l] eqn:El; [done|]. assert (c ∈ c :: l) as Hc by apply list_elem_of_here. rewrite <- El in Hc. apply list_elem_of_filter in Hc as [Hc [H1 H2]%elem_of_bucket_cells].
    exfalso. pose proof (finds_None _ _ _ _ c E H1 H2) as H. cbv beta in H. rewrite Hc in H. by destruct (bytes_eqb_spec fp fp).
Qed.

Lemma len_bag (t : table) : 0 <= N -> 0 <= B -> len (bag N B t) <= N * B.
Proof using Type.
  intros HN HB. assert (len (cells N B) = N * B) as <-.
  { unfold cells. assert (forall bs, len (bucket_cells B bs) = len bs * B) as E.
    { induction bs as [|b bs IH]; [done|]. change (bucket_cells B (b :: bs)) with (map (pair b) (seqZ 0 B) ++ bucket_cells B bs). rewrite len_app, IH, len_cons, len_map. unfold len. rewrite length_seqZ. lia. }
    rewrite E. unfold len. rewrite length_seqZ. lia. }
  unfold bag, len. induction (cells N B) as [|c l IH]; [done|]. cbn [omap list_omap]. destruct (slot_signature N c.1 (t c)); cbn [length]; lia.
Qed.

(** Slots and a new count of items: the file of the new bag. *)
Lemma patched_items ups n : Forall (slot_update h) ups -> NoDup ups.*1 -> 0 <= n <= N * B ->
  let data' := patched data (map (slot_image h) ups ++ [items_after_image n]) in
  cuckoo_file data' (with_items h n) /\ bag_of data' h = bag N B (overlay (table_of data h) (list_to_map ups)) /\ zslice data' (slots_end h) (len data) = zslice data (slots_end h) (len data).
Proof using Hf.
  intros Hu Hn Hr. cbv zeta. rewrite patched_app. destruct (patched_slots h ups data Hf Hu Hn) as (Hf1 & Eb & Ez). set (data1 := patched data _) in *. change (patched data1 [items_after_image n]) with (overwrite data1 OFF_NUM_ITEMS (le_bytes 8 n)).
  destruct (header_write data1 h OFF_NUM_ITEMS (le_bytes 8 n) Hf1) as (_ & Eb2 & Ez2); [done|rewrite len_le_bytes; unfold OFF_NUM_ITEMS; lia|]. split; [by apply set_items|]. split; [by rewrite Eb2|].
  assert (len data1 = len data) as El by (rewrite (ck_len _ _ Hf1), (ck_len _ _ Hf); done). rewrite El in Ez2. by rewrite Ez2.
Qed.

Definition plan_images_ok (images : list AfterImage) : Prop := Forall (image_ok (slots_end h)) images /\ Forall (fun i => len (ai_bytes i) <= 8) images /\ len images <= 65538.

Lemma slot_image_ok u : slot_update h u -> image_ok (slots_end h) (slot_image h u) /\ len (ai_bytes (slot_image h u)) <= 8.
Proof using Hf.
  intros [Hc Hv]. pose proof (ck_layout _ _ Hf) as Hl. pose proof (slot_bounds h _ Hl Hc) as [H1 H2]. unfold CUCKOO_HEADER_SIZE in H1. pose proof (lo_F _ Hl).
  unfold image_ok, slot_image, cuckoo_slot_after_image. cbn [ai_offset ai_bytes]. fold (slot_offset h u.1). rewrite Hv. lia.
Qed.
Lemma header_image_ok o v : 0 <= o -> o + 8 <= 27 -> image_ok (slots_end h) (mkAfterImage o (le_bytes 8 v)) /\ len (le_bytes 8 v) <= 8.
Proof using Hf.
  intros Ho H. pose proof (slots_end_range h (ck_layout _ _ Hf)) as [Hs _]. unfold image_ok. cbn [ai_offset ai_bytes]. rewrite len_le_bytes. lia.
Qed.

Lemma plan_images_ups ups tail : Forall (slot_update h) ups -> Forall (fun i => image_ok (slots_end h) i /\ len (ai_bytes i) <= 8) tail -> len ups + len tail <= 65538 -> plan_images_ok (map (slot_image h) ups ++ tail).
Proof using Hf.
  intros Hu Ht Hl. assert (Forall (fun i => image_ok (slots_end h) i /\ len (ai_bytes i) <= 8) (map (slot_image h) ups ++ tail)) as H.
  { apply Forall_app. split; [|done]. apply Forall_map. eapply Forall_impl; [exact Hu|apply slot_image_ok]. }
  split; [|split]; [eapply Forall_impl; [exact H|by intros i [? ?]]..|]. rewrite len_app, len_map. lia.
Qed.

Lemma evicts_size (t : table) : forall n kicks staged fp b st, evicts t N B n kicks staged fp b = Some st -> (size st <= size staged + n + 1)%nat.
Proof using Type.
  assert (forall (st : Slots) c v, (size (<[c := v]> st) <= S (size st))%nat) as Hi.
  { intros st c v. destruct (st !! c) eqn:E; [rewrite map_size_insert_Some by eauto; lia|rewrite map_size_insert_None by done; lia]. }
  induction n as [|n IH]; intros kicks staged fp b st; [done|]. cbn [evicts]. set (st1 := <[_ := fp]> staged). pose proof (Hi staged (b, kicks mod B) fp) as H1. fold st1 in H1.
  destruct (List.find _ _) as [s|]; [intros [= <-]|intros E; apply IH in E; lia]. pose proof (Hi st1 (cuckoo_file_alternate_bucket b (overlay t staged (b, kicks mod B)) N, s) (overlay t staged (b, kicks mod B))). lia.
Qed.

(** What a plan of an insertion is. *)
Definition inserts (x : bytes) (plan : CuckooMutationPlan) : Prop :=
  let data' := patched data (plan_images plan) in
  plan_result plan = 1 /\ plan_images_ok (plan_images plan) /\ cuckoo_file data' (with_items h (num_items h + 1)) /\
  bag_of data' h ≡ₚ signature_of F N x :: bag_of data h /\ zslice data' (slots_end h) (len data) = zslice data (slots_end h) (len data).

Hypothesis Hcount : num_items h = len (bag_of data h).

Lemma inserts_ups x ups : Forall (slot_update h) ups -> NoDup ups.*1 -> len ups <= 65537 ->
  bag N B (overlay (table_of data h) (list_to_map ups)) ≡ₚ signature_of F N x :: bag_of data h ->
  inserts x (mkCuckooMutationPlan 1 (map (slot_image h) ups ++ [items_after_image (num_items h + 1)])).
Proof using Hf Hcount.
  intros Hu Hn Hlu Hp. pose proof (ck_layout _ _ Hf) as Hl. pose proof (len_bag (overlay (table_of data h) (list_to_map ups)) ltac:(pose proof (lo_N _ Hl); lia) ltac:(pose proof (lo_B _ Hl); lia)) as Hle.
  assert (len (bag N B (overlay (table_of data h) (list_to_map ups))) = num_items h + 1) as El by (rewrite Hcount; unfold len; rewrite Hp; cbn [length]; lia).
  pose proof (len_nonneg (bag_of data h)). destruct (patched_items ups (num_items h + 1) Hu Hn ltac:(lia)) as (H1 & H2 & H3). unfold inserts. cbn [plan_result plan_images]. split; [done|]. split.
  - apply plan_images_ups; [done| |rewrite len_cons, len_nil; lia]. constructor; [|constructor]. apply header_image_ok; [done|unfold OFF_NUM_ITEMS; lia].
  - split; [done|]. split; [by rewrite H2|done].
Qed.

Lemma insert_plan_cases x nx : let fp := primary_fp x F N in let b := primary_bucket x F N in
  match insert_plan_of (table_of data h) h x nx with
  | Ok plan => (nx = true /\ signature_of F N x ∈ bag_of data h /\ plan = mkCuckooMutationPlan 0 []) \/ ((nx = true -> signature_of F N x ∉ bag_of data h) /\ inserts x plan)
  | Err e => e = "filter is full"%string /\ (nx = true -> signature_of F N x ∉ bag_of data h) /\ forall c, c.1 ∈ candidates N b fp -> 0 <= c.2 < B -> all_zero (table_of data h c) = false
  | Panic => False
  end.
Proof using Hf Hcount.
  intros fp b. pose proof (ck_layout _ _ Hf) as Hl. pose proof (primary_bucket_range x F N (lo_N _ Hl)) as Hb. destruct (primary_fp_ok x F N (lo_F _ Hl)) as [Hlf Hz]. fold b in Hb. fold fp in Hlf, Hz.
  assert (Z.of_nat (length (bag_of data h)) <= N * B) as Hle by (apply len_bag; pose proof (lo_N _ Hl); pose proof (lo_B _ Hl); lia). pose proof (region_slots h Hl). pose proof (lo_region _ Hl) as Hr. unfold MAX_CUCKOO_BUCKET_BYTES in Hr.
  unfold insert_plan_of. fold fp b. pose proof (finds_present x) as Hp. cbv zeta in Hp. fold fp b in Hp.
  assert (cuckoo_num_items_after_insert (num_items h) = Ok (num_items h + 1)) as En.
  { unfold cuckoo_num_items_after_insert, checked_add64. rewrite (proj2 (Z.leb_le _ _)); [done|]. change u64_max with 18446744073709551615. rewrite Hcount. unfold len. lia. }
  rewrite En. cbn [rbind]. destruct (if nx then _ else None) as [c0|] eqn:E0.
  { left. destruct nx; [|done]. rewrite E0 in Hp. tauto. }
  assert (nx = true -> signature_of F N x ∉ bag_of data h) as Hnx by (intros ->; by rewrite E0 in Hp). destruct (finds (table_of data h) all_zero B (candidates N b fp)) as [c|] eqn:E1.
  - right. split; [done|]. apply finds_Some in E1 as (H1 & H2 & H3). assert (c ∈ cells_of h) as Hc by (apply elem_of_cells; split; [by apply (candidates_range data h Hf x)|done]).
    apply inserts_ups; [by repeat constructor|apply NoDup_singleton|rewrite len_cons, len_nil; lia|]. change (list_to_map [(c, fp)] : Slots) with (<[c := fp]> (∅ : Slots)). rewrite bag_overlay_insert.
    rewrite bag_put; [|done| |done]; [|unfold overlay; by rewrite lookup_empty]. apply Permutation_cons; [|done].
    apply elem_of_candidates in H1. apply signature_eq; [done|destruct H1 as [->| ->]; [done|by apply alternate_range, lo_N]|done].
  - destruct (evicts _ _ _ _ _ _ _ _) as [staged|] eqn:Ev.
    + right. split; [done|]. assert (forall s, 0 <= s < B -> all_zero (overlay (table_of data h) ∅ (b, s)) = false) as Hfull.
      { intros s Hs. apply (finds_None _ _ _ _ (b, s) E1); [|done]. cbn [fst]. apply elem_of_candidates. by left. }
      destruct (evicts_bag N B F (table_of data h) (lo_B _ Hl) (fun c Hc => table_len data h c Hf Hc) (Z.to_nat (max_kicks h)) 0 ∅ fp b staged (map_Forall_empty _) Hlf Hz Hb Hfull Ev) as [Hok Hbag].
      destruct (sorted_slots_map staged) as [Em Hn]. apply inserts_ups; [by apply sorted_slots_ok|done| |by rewrite Em].
      apply evicts_size in Ev. rewrite map_size_empty in Ev. assert (len (sorted_slots staged) = Z.of_nat (size staged)) as ->.
      { unfold len, sorted_slots. rewrite merge_sort_Permutation. by rewrite length_map_to_list. }
      pose proof (le_val_range (zslice data 9 11)) as Hk. rewrite (ck_kicks _ _ Hf) in Hk. pose proof (slots_end_len _ _ Hf). pose proof (slots_end_range h Hl) as [? _]. assert (len (zslice data 9 11) = 2) as E2 by (rewrite len_zslice by lia; lia).
      rewrite E2 in Hk. change (256 ^ 2) with 65536 in Hk. lia.
    + split; [done|]. split; [done|]. intros c H1 H2. by apply (finds_None _ _ _ _ c E1).
Qed.

Definition deletes (x : bytes) (plan : CuckooMutationPlan) : Prop :=
  let data' := patched data (plan_images plan) in
  plan_result plan = 1 /\ plan_images_ok (plan_images plan) /\ cuckoo_file data' (with_deletes (with_items h (num_items h - 1)) (num_deletes h + 1)) /\
  bag_of data h ≡ₚ signature_of F N x :: bag_of data' h /\ zslice data' (slots_end h) (len data) = zslice data (slots_end h) (len data).

Lemma all_zero_replicate n : all_zero (replicate n x00) = true.
Proof using Type. induction n as [|n IH]; [done|]. exact IH. Qed.

Lemma delete_plan_cases x :
  match delete_plan_of (table_of data h) h x with
  | Ok plan => ((signature_of F N x ∉ bag_of data h) /\ plan = mkCuckooMutationPlan 0 []) \/ (signature_of F N x ∈ bag_of data h /\ num_deletes h < u64_max /\ deletes x plan)
  | Err e => num_deletes h = u64_max
  | Panic => False
  end.
Proof using Hf Hcount.
  pose proof (ck_layout _ _ Hf) as Hl. pose proof (primary_bucket_range x F N (lo_N _ Hl)) as Hb. destruct (primary_fp_ok x F N (lo_F _ Hl)) as [Hlf Hz]. unfold delete_plan_of. pose proof (finds_present x) as Hp. cbv zeta in Hp.
  set (fp := primary_fp x F N) in *. set (b := primary_bucket x F N) in *. destruct (finds _ _ _ _) as [c|]; [|by left]. destruct Hp as (Hc & Hcand & Et & Hin).
  set (empty := replicate (Z.to_nat F) x00). assert (len empty = F) as Hle by (unfold empty, len; rewrite length_replicate; pose proof (lo_F _ Hl); lia).
  assert (bag_of data h ≡ₚ signature_of F N x :: bag N B (overlay (table_of data h) (list_to_map [(c, empty)]))) as Hbag.
  { change (list_to_map [(c, empty)] : Slots) with (<[c := empty]> (∅ : Slots)). rewrite bag_overlay_insert. change (overlay (table_of data h) ∅) with (table_of data h). unfold bag_of at 1.
    rewrite (bag_take _ _ _ c empty) by (done || (rewrite Et; done) || apply all_zero_replicate). apply Permutation_cons; [|done]. rewrite Et. apply elem_of_candidates in Hcand.
    apply signature_eq; [done|apply elem_of_cells in Hc; tauto|done]. }
  assert (len (bag_of data h) = 1 + len (bag N B (overlay (table_of data h) (list_to_map [(c, empty)])))) as El by (unfold len; rewrite Hbag at 1; cbn [length]; lia).
  pose proof (len_nonneg (bag N B (overlay (table_of data h) (list_to_map [(c, empty)])))) as H0. pose proof (ck_fits _ _ Hf) as Hfit.
  unfold cuckoo_num_items_after_delete, checked_sub64. rewrite (proj2 (Z.leb_le 1 (num_items h))) by lia. cbn [ok_or rbind]. unfold cuckoo_num_deletes_after_delete, checked_add64.
  assert (0 <= num_deletes h <= u64_max) as Hnd.
  { pose proof (slots_end_len _ _ Hf). pose proof (slots_end_range h Hl) as [? _]. rewrite <- (ck_deletes _ _ Hf). apply le_val_u64_ok. rewrite len_zslice by lia. lia. }
  destruct (Z.leb_spec (num_deletes h + 1) u64_max) as [Hlt|Hlt]; cbn [ok_or rbind]; [|lia]. right. split; [done|]. split; [lia|].
  destruct (patched_items [(c, empty)] (num_items h - 1)) as (H1 & H2 & H3); [by repeat constructor|apply NoDup_singleton|lia|]. unfold deletes. cbn [plan_result plan_images]. split; [done|].
  set (data1 := patched data (map (slot_image h) [(c, empty)] ++ [items_after_image (num_items h - 1)])) in *.
  assert (patched data (map (slot_image h) [(c, empty)] ++ [items_after_image (num_items h - 1); mkAfterImage OFF_NUM_DELETES (le_bytes 8 (num_deletes h + 1))]) = overwrite data1 OFF_NUM_DELETES (le_bytes 8 (num_deletes h + 1))) as -> by done.
  destruct (header_write data1 (with_items h (num_items h - 1)) OFF_NUM_DELETES (le_bytes 8 (num_deletes h + 1)) H1) as (H4 & H5 & H6); [done|rewrite len_le_bytes; unfold OFF_NUM_DELETES; lia|].
  split; [|split; [|split]].
  - apply plan_images_ups; [by repeat constructor| |done]. apply Forall_cons; split; [|apply Forall_singleton]; apply header_image_ok; unfold OFF_NUM_ITEMS, OFF_NUM_DELETES; lia.
  - apply set_deletes; [done|]. unfold u64_ok. lia.
  - change (bag_of (overwrite data1 OFF_NUM_DELETES (le_bytes 8 (num_deletes h + 1))) h) with (bag_of (overwrite data1 OFF_NUM_DELETES (le_bytes 8 (num_deletes h + 1))) (with_items h (num_items h - 1))). rewrite H5.
    change (bag_of data1 (with_items h (num_items h - 1))) with (bag_of data1 h). by rewrite H2.
  - assert (len data1 = len data) as Eln by (rewrite (ck_len _ _ H1), (ck_len _ _ Hf); done). rewrite Eln in H6. by rewrite <- H3.
Qed.
End Plans.
End Bags.
