(* ===== verification/CuckooContract.v ===== *)
(** * What a cuckoo filter promises

    A filter behaves like a bag of signatures: additions put one in, deletions take one out,
    queries and counts look it up, whatever fingerprints were moved on the way. *)

From Stdlib Require Import ZArith Lia.
From stdpp Require Import gmap strings sorting.
From S2P Require Import Prelude Bytes Crc Sidecar ProbTxn ProbTxnProof Cuckoo CuckooProof.

Section Contract.
Context `{CL : Crc32fastLaws} `{X : Xxh3}.

Definition plain (m : CuckooMutation) (path : string) (x : bytes) : World -> reply Z * World :=
  match m with
  | CuckooAdd => cuckoo_file_add path x
  | CuckooAddNx => cuckoo_file_addnx path x
  | CuckooDelete => cuckoo_file_del path x
  end.
Definition plan_of (m : CuckooMutation) (t : table) (h : CuckooFileHeader) (x : bytes) : result CuckooMutationPlan :=
  match m with
  | CuckooAdd => insert_plan_of t h x false
  | CuckooAddNx => insert_plan_of t h x true
  | CuckooDelete => delete_plan_of t h x
  end.

(** ** Plain operations carry out the plan *)

Lemma cuckoo_open_healthy {A : Type} path files data (body : string -> SR World A) : files !! path = Some data ->
  with_sidecar cuckoo_file_open_rw path body (mkWorld files []) = reply_of (body path (mkWorld files [])) /\
  with_sidecar cuckoo_file_open_read path body (mkWorld files []) = reply_of (body path (mkWorld files [])).
Proof using Type.
  intros E. unfold with_sidecar, cuckoo_file_open_rw, cuckoo_file_open_read, map_err, open_random_rw_locked, open_random_read_locked. by rewrite (open_healthy _ _ _ E).
Qed.

(** The writes of the slots, then of the counts. *)
Lemma write_header_healthy file files data h o n label : files !! file = Some data -> cuckoo_file data h -> 0 <= o <= 27 ->
  write_all_at file (le_bytes 8 n) o label (mkWorld files []) = (Ok tt, mkWorld (<[file := overwrite data o (le_bytes 8 n)]> files) []).
Proof using Type.
  intros Ed Hf Ho. apply write_all_at_healthy; [done|]. pose proof (slots_end_len _ _ Hf). pose proof (slots_end_range h (ck_layout _ _ Hf)) as [? _]. lia.
Qed.

Lemma write_one_slot file files data h c v : files !! file = Some data -> cuckoo_file data h -> c ∈ cells_of h -> len v = fingerprint_size h ->
  cuckoo_file_write_slot file h c.1 c.2 v (mkWorld files []) = (Ok tt, mkWorld (<[file := patched data (map (slot_image h) [(c, v)])]> files) []) /\ cuckoo_file (patched data (map (slot_image h) [(c, v)])) h.
Proof using Type.
  intros Ed Hf Hc Hv. destruct (set_slot data h c v Hf Hc Hv) as (Hf1 & _). split; [|done]. pose proof (slot_bounds h c (ck_layout _ _ Hf) Hc) as [H1 H2]. unfold CUCKOO_HEADER_SIZE in H1.
  pose proof (slots_end_len _ _ Hf). pose proof (lo_F _ (ck_layout _ _ Hf)). unfold cuckoo_file_write_slot. apply (write_all_at_healthy file v (slot_offset h c) "cuckoo slot" files data Ed). lia.
Qed.

Lemma insert_fingerprint_healthy file files data h x next : files !! file = Some data -> cuckoo_file data h ->
  let fp := primary_fp x (fingerprint_size h) (num_buckets h) in let b := primary_bucket x (fingerprint_size h) (num_buckets h) in
  insert_fingerprint file h fp b (cuckoo_file_alternate_bucket b fp (num_buckets h)) next (mkWorld files []) =
  match finds (table_of data h) all_zero (bucket_size h) (candidates (num_buckets h) b fp) with
  | Some c => (Ok 1, mkWorld (<[file := patched data (map (slot_image h) [(c, fp)] ++ [items_after_image next])]> files) [])
  | None =>
      match evicts (table_of data h) (num_buckets h) (bucket_size h) (Z.to_nat (max_kicks h)) 0 ∅ fp b with
      | Some staged => (Ok 1, mkWorld (<[file := patched data (map (slot_image h) (sorted_slots staged) ++ [items_after_image next])]> files) [])
      | None => (Err "filter is full", mkWorld files [])
      end
  end.
Proof using Type.
  intros Ed Hf fp b. pose proof (ck_layout _ _ Hf) as Hl. destruct (primary_fp_ok x _ (num_buckets h) (lo_F _ Hl)) as [Hlf Hz]. fold fp in Hlf, Hz. pose proof (primary_bucket_range x (fingerprint_size h) _ (lo_N _ Hl)) as Hb. fold b in Hb.
  pose proof (proj2 (find_candidates file files data h Ed Hf all_zero x)) as E0. fold fp b in E0. unfold insert_fingerprint. rewrite (sbind_Ok _ _ _ _ _ E0). destruct (finds _ _ _ _) as [c|] eqn:E1.
  - apply finds_Some in E1 as (H1 & H2 & _). assert (c ∈ cells_of h) as Hc by (apply elem_of_cells; split; [by apply (candidates_range data h Hf x)|done]). destruct (write_one_slot file files data h c fp Ed Hf Hc Hlf) as [Ew Hf1].
    destruct c as [b' s]. cbn [fst snd] in Ew. rewrite (sbind_Ok _ _ _ _ _ Ew). unfold cuckoo_file_write_num_items. rewrite (sbind_Ok _ _ _ _ _ (write_header_healthy file _ _ h OFF_NUM_ITEMS next _ (lookup_insert_eq _ _ _) Hf1 ltac:(unfold OFF_NUM_ITEMS; lia))).
    rewrite (sbind_Ok _ _ _ _ _ (fsync_healthy _ _)). by rewrite insert_insert_eq, patched_app.
  - unfold cuckoo_file_try_eviction. unfold sbind at 1. rewrite (sbind_Ok _ _ _ _ _ (stage_eviction_healthy file files data h Ed Hf fp b Hb)). destruct (evicts _ _ _ _ _ _ _ _) as [staged|] eqn:Ev; [|done].
    assert (forall s, 0 <= s < bucket_size h -> all_zero (overlay (table_of data h) ∅ (b, s)) = false) as Hfull.
    { intros s Hs. apply (finds_None _ _ _ _ (b, s) E1); [|done]. cbn [fst]. apply elem_of_candidates. by left. }
    destruct (evicts_bag _ _ _ (table_of data h) (lo_B _ Hl) (fun c Hc => table_len data h c Hf Hc) (Z.to_nat (max_kicks h)) 0 ∅ fp b staged (map_Forall_empty _) Hlf Hz Hb Hfull Ev) as [Hok _].
    destruct (sorted_slots_map staged) as [_ Hn]. destruct (patched_slots h (sorted_slots staged) data Hf (sorted_slots_ok h staged Hok) Hn) as (Hf1 & _).
    rewrite (sbind_Ok _ _ _ _ _ (write_slots_healthy file h _ files data Ed Hf (sorted_slots_ok h staged Hok))). unfold sret at 1. cbv beta iota.
    unfold cuckoo_file_write_num_items. rewrite (sbind_Ok _ _ _ _ _ (write_header_healthy file _ _ h OFF_NUM_ITEMS next _ (lookup_insert_eq _ _ _) Hf1 ltac:(unfold OFF_NUM_ITEMS; lia))).
    rewrite (sbind_Ok _ _ _ _ _ (fsync_healthy _ _)). by rewrite insert_insert_eq, patched_app.
Qed.

Definition planned (path : string) (files : gmap string bytes) (data : bytes) (r : result CuckooMutationPlan) : reply Z * World :=
  match r with
  | Ok plan => (ReplyOk (plan_result plan), mkWorld (<[path := patched data (plan_images plan)]> files) [])
  | Err e => (ReplyError e, mkWorld files [])
  | Panic => (ReplyPanic, mkWorld files [])
  end.

Lemma plain_healthy m path files data h x : files !! path = Some data -> cuckoo_file data h ->
  plain m path x (mkWorld files []) = planned path files data (plan_of m (table_of data h) h x).
Proof using Type.
  intros Ed Hf. pose proof (insert_id files path data Ed) as Eid. pose proof (ck_layout _ _ Hf) as Hl. set (fp := primary_fp x (fingerprint_size h) (num_buckets h)). set (b := primary_bucket x (fingerprint_size h) (num_buckets h)).
  pose proof (find_candidates path files data h Ed Hf (fun s => bytes_eqb s fp) x) as [F1 F2]. fold fp b in F1, F2.
  destruct m; unfold plain, plan_of, cuckoo_file_add, cuckoo_file_addnx, cuckoo_file_del; rewrite (proj1 (cuckoo_open_healthy path files data _ Ed)); rewrite (sbind_Ok _ _ _ _ _ (cuckoo_header_healthy path files data h Ed Hf));
    rewrite (surjective_pairing (cuckoo_file_fingerprint_and_bucket x _ _)); fold (primary_fp x (fingerprint_size h) (num_buckets h)) (primary_bucket x (fingerprint_size h) (num_buckets h)); fold fp b; cbv zeta.
  - unfold insert_plan_of. fold fp b. cbv zeta iota. destruct (cuckoo_num_items_after_insert (num_items h)) as [next| |]; [|done..]. rewrite sbind_slift_Ok. cbn [rbind]. pose proof (insert_fingerprint_healthy path files data h x next Ed Hf) as Hi. cbv zeta in Hi. fold fp b in Hi. rewrite Hi.
    destruct (finds _ all_zero _ _) as [c|]; [done|]. by destruct (evicts _ _ _ _ _ _ _ _).
  - fold (candidates (num_buckets h) b fp). rewrite (sbind_Ok _ _ _ _ _ F1). unfold insert_plan_of. fold fp b. cbv zeta iota. destruct (finds _ (fun s => _) _ _) as [c|]; [cbn; by rewrite Eid|].
    destruct (cuckoo_num_items_after_insert (num_items h)) as [next| |]; [|done..]. rewrite sbind_slift_Ok. cbn [rbind]. pose proof (insert_fingerprint_healthy path files data h x next Ed Hf) as Hi. cbv zeta in Hi. fold fp b in Hi. rewrite Hi.
    destruct (finds _ all_zero _ _) as [c|]; [done|]. by destruct (evicts _ _ _ _ _ _ _ _).
  - rewrite (sbind_Ok _ _ _ _ _ F2). unfold delete_plan_of. fold fp b. destruct (finds _ (fun s => _) _ _) as [c|] eqn:E1; [|cbn; by rewrite Eid].
    apply finds_Some in E1 as (H1 & H2 & _). assert (c ∈ cells_of h) as Hc by (apply elem_of_cells; split; [by apply (candidates_range data h Hf x)|done]).
    set (empty := replicate _ x00). assert (len empty = fingerprint_size h) as Hle by (unfold empty, len; rewrite length_replicate; pose proof (lo_F _ Hl); lia). destruct (write_one_slot path files data h c empty Ed Hf Hc Hle) as [Ew Hf1].
    destruct c as [b' s]. cbn [fst snd] in Ew. destruct (cuckoo_num_items_after_delete (num_items h)) as [next| |] eqn:En; [|done..]. rewrite sbind_slift_Ok. cbn [rbind].
    destruct (cuckoo_num_deletes_after_delete (num_deletes h)) as [nd| |]; [|done..]. rewrite sbind_slift_Ok. cbn [rbind]. rewrite (sbind_Ok _ _ _ _ _ Ew). unfold cuckoo_file_write_num_items, cuckoo_file_write_num_deletes.
    rewrite (sbind_Ok _ _ _ _ _ (write_header_healthy path _ _ h OFF_NUM_ITEMS next _ (lookup_insert_eq _ _ _) Hf1 ltac:(unfold OFF_NUM_ITEMS; lia))). rewrite insert_insert_eq.
    assert (cuckoo_file (overwrite (patched data (map (slot_image h) [(b', s, empty)])) OFF_NUM_ITEMS (le_bytes 8 next)) (with_items h next)) as Hf2.
    { apply set_items; [done|]. revert En. unfold cuckoo_num_items_after_delete, checked_sub64. destruct (Z.leb_spec 1 (num_items h)); [|done]. intros [= <-]. pose proof (ck_fits _ _ Hf). lia. }
    rewrite (sbind_Ok _ _ _ _ _ (write_header_healthy path _ _ _ OFF_NUM_DELETES nd _ (lookup_insert_eq _ _ _) Hf2 ltac:(unfold OFF_NUM_DELETES; lia))). rewrite insert_insert_eq.
    by rewrite (sbind_Ok _ _ _ _ _ (fsync_healthy _ _)).
Qed.

Lemma exists_healthy path files data h x : files !! path = Some data -> cuckoo_file data h ->
  cuckoo_file_exists path x (mkWorld files []) = (ReplyOk (if bool_decide (signature_of (fingerprint_size h) (num_buckets h) x ∈ bag_of data h) then 1 else 0), mkWorld files []).
Proof using Type.
  intros Ed Hf. unfold cuckoo_file_exists. rewrite (proj2 (cuckoo_open_healthy path files data _ Ed)). unfold cuckoo_exists_body. rewrite (sbind_Ok _ _ _ _ _ (cuckoo_header_healthy path files data h Ed Hf)).
  unfold cuckoo_file_exists_in_open_file. rewrite (surjective_pairing (cuckoo_file_fingerprint_and_bucket x _ _)). fold (primary_fp x (fingerprint_size h) (num_buckets h)) (primary_bucket x (fingerprint_size h) (num_buckets h)). cbv zeta.
  pose proof (proj1 (find_candidates path files data h Ed Hf (fun s => bytes_eqb s (primary_fp x (fingerprint_size h) (num_buckets h))) x)) as F1. cbv zeta in F1. rewrite (sbind_Ok _ _ _ _ _ F1).
  pose proof (finds_present data h Hf x) as Hp. cbv zeta in Hp. destruct (finds _ _ _ _); [rewrite bool_decide_true by tauto; done|by rewrite bool_decide_false].
Qed.

Lemma count_slots_healthy file files data h fp cs : files !! file = Some data -> cuckoo_file data h -> forall total, Forall (fun c => c ∈ cells_of h) cs ->
  count_slots file h fp cs total (mkWorld files []) = (Ok (total + len (filter (fun c => table_of data h c = fp) cs)), mkWorld files []).
Proof using Type.
  intros Ed Hf. induction cs as [|[b s] cs IH]; intros total Hc; cbn [count_slots]; [rewrite filter_nil, len_nil; by rewrite Z.add_0_r|]. apply Forall_cons in Hc as [Hc Hcs].
  rewrite (sbind_Ok _ _ _ _ _ (read_slot_healthy file files data h b s Ed Hf Hc)). rewrite IH by done. rewrite filter_cons. destruct (bytes_eqb_spec (table_of data h (b, s)) fp) as [E|E]; [rewrite decide_True, len_cons by done|by rewrite decide_False by done].
  do 2 f_equal. lia.
Qed.

Lemma count_healthy path files data h x : files !! path = Some data -> cuckoo_file data h ->
  cuckoo_file_count path x (mkWorld files []) = (ReplyOk (occurrences (signature_of (fingerprint_size h) (num_buckets h) x) (bag_of data h)), mkWorld files []).
Proof using Type.
  intros Ed Hf. pose proof (ck_layout _ _ Hf) as Hl. unfold cuckoo_file_count. rewrite (proj2 (cuckoo_open_healthy path files data _ Ed)). unfold cuckoo_count_body. rewrite (sbind_Ok _ _ _ _ _ (cuckoo_header_healthy path files data h Ed Hf)).
  rewrite (surjective_pairing (cuckoo_file_fingerprint_and_bucket x _ _)). fold (primary_fp x (fingerprint_size h) (num_buckets h)) (primary_bucket x (fingerprint_size h) (num_buckets h)). cbv zeta.
  unfold bag_of, signature_of. rewrite occurrences_bag; [|by apply primary_bucket_range, lo_N|by apply primary_fp_ok, lo_F]. fold (candidates (num_buckets h) (primary_bucket x (fingerprint_size h) (num_buckets h)) (primary_fp x (fingerprint_size h) (num_buckets h))).
  rewrite (count_slots_healthy path files data h) by (done || (apply Forall_forall; intros c [H1 H2]%elem_of_bucket_cells; apply elem_of_cells; split; [by apply (candidates_range data h Hf x)|done])). done.
Qed.

(** ** The bag machine *)

#[export] Instance CuckooMutation_eq : EqDecision CuckooMutation.
Proof. solve_decision. Defined.

Inductive cuckoo_call : Type :=
  | Mutate (m : CuckooMutation) (x : bytes)
  | Exists_ (x : bytes)
  | Count (x : bytes).

Definition run_call (path : string) (c : cuckoo_call) : World -> reply Z * World :=
  match c with
  | Mutate m x => plain m path x
  | Exists_ x => cuckoo_file_exists path x
  | Count x => cuckoo_file_count path x
  end.
Fixpoint run_calls (path : string) (cs : list cuckoo_call) (w : World) : list (reply Z) * World :=
  match cs with
  | [] => ([], w)
  | c :: cs => let '(r, w) := run_call path c w in let '(rs, w) := run_calls path cs w in (r :: rs, w)
  end.

(** Both buckets of a signature are full: [B] items of the bag may sit in the first of them and,
    when the second is another one, [B] further items may sit there. *)
Definition touches (b : Z) (g : signature) : Prop := b = g.2.1 \/ b = g.2.2.
Definition buckets_full (B : Z) (g : signature) (l : list signature) : Prop :=
  exists first second rest, l ≡ₚ first ++ second ++ rest /\ len first = B /\ Forall (touches g.2.1) first /\
    (g.2.1 <> g.2.2 -> len second = B /\ Forall (touches g.2.2) second).

(** One call on a bag of signatures.  An insertion may fail only when both buckets of the
    element are full. *)
Inductive bag_step (F N B : Z) : list signature -> cuckoo_call -> reply Z -> list signature -> Prop :=
  | StepAdd l x : bag_step F N B l (Mutate CuckooAdd x) (ReplyOk 1) (signature_of F N x :: l)
  | StepAddNx l x : signature_of F N x ∉ l -> bag_step F N B l (Mutate CuckooAddNx x) (ReplyOk 1) (signature_of F N x :: l)
  | StepPresent l x : signature_of F N x ∈ l -> bag_step F N B l (Mutate CuckooAddNx x) (ReplyOk 0) l
  | StepFull l x m : m <> CuckooDelete -> buckets_full B (signature_of F N x) l -> (m = CuckooAddNx -> signature_of F N x ∉ l) -> bag_step F N B l (Mutate m x) (ReplyError "filter is full") l
  | StepDelete l x l' : l ≡ₚ signature_of F N x :: l' -> bag_step F N B l (Mutate CuckooDelete x) (ReplyOk 1) l'
  | StepAbsent l x : signature_of F N x ∉ l -> bag_step F N B l (Mutate CuckooDelete x) (ReplyOk 0) l
  | StepExists l x : bag_step F N B l (Exists_ x) (ReplyOk (if bool_decide (signature_of F N x ∈ l) then 1 else 0)) l
  | StepCount l x : bag_step F N B l (Count x) (ReplyOk (occurrences (signature_of F N x) l)) l.
Inductive bag_steps (F N B : Z) : list signature -> list cuckoo_call -> list (reply Z) -> list signature -> Prop :=
  | StepsNil l : bag_steps F N B l [] [] l
  | StepsCons l c r l' cs rs l'' : bag_step F N B l c r l' -> bag_steps F N B l' cs rs l'' -> bag_steps F N B l (c :: cs) (r :: rs) l''.

(** The file stands for the bag. *)
Record represents (data : bytes) (h : CuckooFileHeader) (l : list signature) : Prop := {
  rp_file : cuckoo_file data h;
  rp_bag : bag_of data h ≡ₚ l;
  rp_count : num_items h = len l;
}.

Lemma represents_count data h l : represents data h l -> num_items h = len (bag_of data h).
Proof using Type. intros [_ Hp Hc]. rewrite Hc. unfold len. by rewrite Hp. Qed.

(** The slots of a full bucket are [B] items that may sit in it. *)
Lemma bucket_items N B t b : 0 <= b < N -> 0 < B -> (forall s, 0 <= s < B -> all_zero (t (b, s)) = false) ->
  len (omap (fun c => slot_signature N c.1 (t c)) (map (pair b) (seqZ 0 B))) = B /\ Forall (touches b) (omap (fun c => slot_signature N c.1 (t c)) (map (pair b) (seqZ 0 B))).
Proof using Type.
  intros Hb HB Hfull. assert (omap (fun c => slot_signature N c.1 (t c)) (map (pair b) (seqZ 0 B)) = map (fun s => signature_at N b (t (b, s))) (seqZ 0 B)) as ->.
  { assert (forall s, s ∈ seqZ 0 B -> all_zero (t (b, s)) = false) as H by (intros s Hs%elem_of_seqZ; apply Hfull; lia). clear Hfull. induction (seqZ 0 B) as [|s l IH]; [done|]. cbn [map omap list_omap fst]. unfold slot_signature at 1.
    rewrite (H s) by apply list_elem_of_here. f_equal. apply IH. intros s' Hs'. apply H. by right. }
  split; [rewrite len_map; unfold len; rewrite length_seqZ; lia|]. apply Forall_map, Forall_true. intros s. unfold touches, signature_at. cbn [fst snd]. lia.
Qed.

Lemma bucket_cells_apart (b1 b2 B : Z) : b1 <> b2 -> NoDup (map (pair b1) (seqZ 0 B) ++ map (pair b2) (seqZ 0 B)).
Proof using Type.
  intros Hne. apply NoDup_app. split; [apply NoDup_fmap_2; [by intros ? ? [=]|apply NoDup_seqZ]|]. split; [|apply NoDup_fmap_2; [by intros ? ? [=]|apply NoDup_seqZ]].
  intros c (s & -> & _)%list_elem_of_fmap (s' & [= ? _] & _)%list_elem_of_fmap. done.
Qed.

(** When both candidate buckets of an element are full, so are the buckets of its signature. *)
Lemma full_buckets data h l b fp : represents data h l -> 0 <= b < num_buckets h ->
  (forall c, c.1 ∈ candidates (num_buckets h) b fp -> 0 <= c.2 < bucket_size h -> all_zero (table_of data h c) = false) -> buckets_full (bucket_size h) (signature_at (num_buckets h) b fp) l.
Proof using Type.
  intros [Hf Hp _] Hb Hfull. pose proof (lo_B _ (ck_layout _ _ Hf)) as HB. set (N := num_buckets h) in *. set (B := bucket_size h) in *. set (b' := cuckoo_file_alternate_bucket b fp N). assert (0 <= b' < N) as Hb' by (apply alternate_range; lia).
  unfold signature_at. fold b'. cbv zeta. unfold buckets_full. cbn [fst snd]. set (b1 := Z.min b b'). set (b2 := Z.max b b'). set (item := fun c => slot_signature N c.1 (table_of data h c)). set (row := fun q : Z => map (pair q) (seqZ 0 B)).
  assert (forall q, q = b \/ q = b' -> 0 <= q < N /\ len (omap item (row q)) = B /\ Forall (touches q) (omap item (row q))) as Hrow.
  { intros q Hq. split; [destruct Hq; subst q; done|]. apply bucket_items; [destruct Hq; subst q; done|done|]. intros s Hs. apply Hfull; [by apply elem_of_candidates|done]. }
  destruct (Hrow b1 ltac:(lia)) as (Hr1 & H1 & T1). destruct (Hrow b2 ltac:(lia)) as (Hr2 & H2 & T2).
  assert (forall cs, NoDup cs -> (forall c, c ∈ cs -> 0 <= c.1 < N /\ 0 <= c.2 < B) -> exists rest, l ≡ₚ omap item cs ++ rest) as Hsub.
  { intros cs Hn Hc. destruct (submseteq_Permutation cs (cells_of h)) as [rest Hrest]; [apply NoDup_submseteq; [done|]; intros c Hin; by apply elem_of_cells, Hc|].
    exists (omap item rest). rewrite <- Hp, <- omap_app. unfold bag_of, bag. fold (cells_of h) N item. by rewrite Hrest. }
  assert (forall q c, 0 <= q < N -> c ∈ row q -> 0 <= c.1 < N /\ 0 <= c.2 < B) as Hin by (intros q c Hq (s & -> & Hs%elem_of_seqZ)%list_elem_of_fmap; cbn [fst snd]; lia).
  destruct (decide (b1 = b2)) as [E|Hne].
  - destruct (Hsub (row b1)) as [rest Hl]; [apply NoDup_fmap_2; [by intros ? ? [=]|apply NoDup_seqZ]|intros c Hc; by apply (Hin b1)|]. by exists (omap item (row b1)), [], rest.
  - destruct (Hsub (row b1 ++ row b2)) as [rest Hl]; [by apply bucket_cells_apart|intros c [Hc|Hc]%elem_of_app; [by apply (Hin b1)|by apply (Hin b2)]|]. rewrite omap_app, <- app_assoc in Hl. by exists (omap item (row b1)), (omap item (row b2)), rest.
Qed.

Definition calls_delete (c : cuckoo_call) : Z := match c with Mutate CuckooDelete _ => 1 | _ => 0 end.

Lemma occurrences_perm g l l' : l ≡ₚ l' -> occurrences g l = occurrences g l'.
Proof using Type. intros H. unfold occurrences, len. by rewrite H. Qed.

(** One call on the file is one step of the bag. *)
Lemma call_step path files data h l c : files !! path = Some data -> represents data h l -> num_deletes h + calls_delete c <= u64_max ->
  exists r data' h' l', run_call path c (mkWorld files []) = (r, mkWorld (<[path := data']> files) []) /\ represents data' h' l' /\ bag_step (fingerprint_size h) (num_buckets h) (bucket_size h) l c r l' /\
    fingerprint_size h' = fingerprint_size h /\ num_buckets h' = num_buckets h /\ bucket_size h' = bucket_size h /\ num_deletes h' <= num_deletes h + calls_delete c.
Proof using Type.
  intros Ed Hr Hd. pose proof Hr as [Hf Hp Hc]. pose proof (represents_count _ _ _ Hr) as Hcount. pose proof (insert_id files path data Ed) as Eid. pose proof (ck_layout _ _ Hf) as Hl.
  assert (forall x, signature_of (fingerprint_size h) (num_buckets h) x ∈ bag_of data h <-> signature_of (fingerprint_size h) (num_buckets h) x ∈ l) as Hin by (intros x; by rewrite Hp).
  destruct c as [m x|x|x]; cbn [run_call].
  2:{ rewrite (exists_healthy path files data h x Ed Hf). eexists _, data, h, l. rewrite Eid. split; [done|]. split; [done|]. split; [|cbn; repeat split; lia]. rewrite (bool_decide_ext _ _ (Hin x)). apply StepExists. }
  2:{ rewrite (count_healthy path files data h x Ed Hf). eexists _, data, h, l. rewrite Eid. split; [done|]. split; [done|]. split; [|cbn; repeat split; lia]. rewrite (occurrences_perm _ _ _ Hp). apply StepCount. }
  rewrite (plain_healthy m path files data h x Ed Hf). destruct (decide (m = CuckooDelete)) as [->|Hm].
  - cbn [plan_of calls_delete] in *. pose proof (delete_plan_cases data h Hf Hcount x) as H. destruct (delete_plan_of _ _ _) as [plan|e|]; [|lia|done]. cbn [planned].
    destruct H as [[Hni ->]|(Hi & _ & H1 & _ & H3 & H4 & _)]; cbn [plan_result plan_images].
    + exists (ReplyOk 0), data, h, l. cbn [patched foldl]. split; [done|]. split; [done|]. split; [apply StepAbsent; by rewrite <- Hin|]. repeat split; lia.
    + rewrite H1. eexists _, _, _, (bag_of (patched data (plan_images plan)) h). split; [done|]. split; [split; [exact H3|done|]|].
      { cbn [num_items with_deletes with_items]. rewrite Hcount. unfold len. rewrite H4. cbn [length]. lia. }
      split; [apply StepDelete; by rewrite <- Hp|]. repeat split; cbn [num_deletes with_deletes with_items]; lia.
  - assert (exists nx, plan_of m (table_of data h) h x = insert_plan_of (table_of data h) h x nx /\ (nx = true <-> m = CuckooAddNx)) as (nx & -> & Hnx) by (destruct m; [by exists false|by exists true|done]).
    assert (calls_delete (Mutate m x) = 0) as -> by by destruct m. pose proof (insert_plan_cases data h Hf Hcount x nx) as H. cbv zeta in H. destruct (insert_plan_of _ _ _ _) as [plan|e|]; [| |done]; cbn [planned].
    + destruct H as [(-> & Hi & ->)|(Hni & H1 & _ & H3 & H4 & _)]; cbn [plan_result plan_images].
      * exists (ReplyOk 0), data, h, l. cbn [patched foldl]. split; [done|]. split; [done|]. split; [rewrite (proj1 Hnx eq_refl); apply StepPresent; by apply Hin|]. repeat split; lia.
      * rewrite H1. eexists _, _, _, (signature_of (fingerprint_size h) (num_buckets h) x :: l). split; [done|]. split; [split; [exact H3|change (bag_of (patched data (plan_images plan)) h ≡ₚ signature_of (fingerprint_size h) (num_buckets h) x :: l); by rewrite H4, Hp|cbn [num_items with_items]; rewrite len_cons; lia]|].
        split; [destruct m; [apply StepAdd|apply StepAddNx; rewrite <- Hin; apply Hni, Hnx; done|done]|]. repeat split; cbn [num_deletes with_items]; lia.
    + destruct H as (-> & Hni & Hfull). exists (ReplyError "filter is full"), data, h, l. rewrite Eid. split; [done|]. split; [done|]. split; [|repeat split; lia]. apply StepFull; [done| |intros E; rewrite <- Hin; by apply Hni, Hnx].
      by apply (full_buckets data h l (primary_bucket x (fingerprint_size h) (num_buckets h)) _ Hr); [apply primary_bucket_range, lo_N|].
Qed.

(** ** New filters *)

Definition fresh_header (N B : Z) : CuckooFileHeader := mkCuckooFileHeader N B FILE_DEFAULT_FINGERPRINT_SIZE FILE_DEFAULT_MAX_KICKS 0 0.
Definition fresh_filter (N B : Z) : bytes := cuckoo_header N B FILE_DEFAULT_FINGERPRINT_SIZE FILE_DEFAULT_MAX_KICKS ++ replicate (Z.to_nat (N * B + TOKEN_SIZE)) x00.

Lemma cuckoo_header_eq N B F K : cuckoo_header N B F K = CUCKOO_MAGIC ++ [byte_of CUCKOO_VERSION] ++ le_bytes 4 N ++ [byte_of B] ++ [byte_of F] ++ le_bytes 2 K ++ replicate 16 x00.
Proof using Type.
  unfold cuckoo_header, copy_from_slice. pose proof (len_le_bytes 4 N). pose proof (len_le_bytes 2 K). assert (len CUCKOO_MAGIC = 2) as Hm by done. assert (forall b : byte, len [b] = 1) as H1 by done.
  change (replicate 27 x00) with (replicate 2 x00 ++ replicate 1 x00 ++ replicate 4 x00 ++ replicate 1 x00 ++ replicate 1 x00 ++ replicate 2 x00 ++ replicate 16 x00).
  rewrite !len_le_bytes, !H1, Hm. cbn [Z.of_nat]. pose proof (H1 (byte_of CUCKOO_VERSION)). pose proof (H1 (byte_of B)). pose proof (H1 (byte_of F)). zslices. rewrite <- ?app_assoc, ?app_nil_l. zslices. by rewrite <- ?app_assoc, ?app_nil_l.
Qed.

Lemma le_val_single z : 0 <= z < 256 -> le_val [byte_of z] = z.
Proof using Type. intros H. change (le_val [byte_of z]) with (byte_val (byte_of z) + 256 * 0). rewrite byte_val_of, Z.mod_small by done. lia. Qed.

Lemma len_cuckoo_header N B F K : len (cuckoo_header N B F K) = 27.
Proof using Type. rewrite cuckoo_header_eq, !len_app, !len_le_bytes, !len_replicate. done. Qed.

Lemma fresh_layout N B : 0 < N -> 0 < B -> N * B <= MAX_CUCKOO_BUCKET_BYTES -> layout_ok (fresh_header N B).
Proof using Type.
  intros HN HB Hr. split; cbn [num_buckets bucket_size fingerprint_size max_kicks fresh_header]; unfold FILE_DEFAULT_FINGERPRINT_SIZE, FILE_DEFAULT_MAX_KICKS; lia.
Qed.

Lemma header_slices N B F K rest : let data := cuckoo_header N B F K ++ rest in
  zslice data 0 2 = CUCKOO_MAGIC /\ zslice data 2 3 = [byte_of CUCKOO_VERSION] /\ zslice data 3 7 = le_bytes 4 N /\ zslice data 7 8 = [byte_of B] /\ zslice data 8 9 = [byte_of F] /\ zslice data 9 11 = le_bytes 2 K /\
  zslice data 11 19 = replicate 8 x00 /\ zslice data 19 27 = replicate 8 x00.
Proof using Type.
  intros data. assert (forall a b, 0 <= a -> a <= b -> b <= 27 -> zslice data a b = zslice (cuckoo_header N B F K) a b) as Hs by (intros; apply zslice_app_take; rewrite ?len_cuckoo_header; lia).
  rewrite !Hs, cuckoo_header_eq by lia. pose proof (len_le_bytes 4 N). pose proof (len_le_bytes 2 K). assert (len CUCKOO_MAGIC = 2) as Hm by done. assert (forall b : byte, len [b] = 1) as H1 by done.
  pose proof (H1 (byte_of CUCKOO_VERSION)). pose proof (H1 (byte_of B)). pose proof (H1 (byte_of F)). change (replicate 16 x00) with (replicate 8 x00 ++ replicate 8 x00). repeat split; zslices; done.
Qed.

Lemma fresh_represents N B : 0 < N <= u32_max -> 0 < B < 256 -> N * B <= MAX_CUCKOO_BUCKET_BYTES -> represents (fresh_filter N B) (fresh_header N B) [].
Proof using Type.
  intros HN HB Hr. pose proof (fresh_layout N B ltac:(lia) ltac:(lia) Hr) as Hl. destruct (header_slices N B FILE_DEFAULT_FINGERPRINT_SIZE FILE_DEFAULT_MAX_KICKS (replicate (Z.to_nat (N * B + TOKEN_SIZE)) x00)) as (S1 & S2 & S3 & S4 & S5 & S6 & S7 & S8).
  fold (fresh_filter N B) in S1, S2, S3, S4, S5, S6, S7, S8. assert (cuckoo_file (fresh_filter N B) (fresh_header N B)) as Hf.
  { split; cbn [num_buckets bucket_size fingerprint_size max_kicks num_items num_deletes fresh_header].
    - done.
    - by rewrite S2, le_val_single.
    - rewrite S3. apply le_val_u32. unfold u32_ok. lia.
    - rewrite S4. apply le_val_single. lia.
    - by rewrite S5, le_val_single.
    - rewrite S6. by rewrite le_val_le_bytes.
    - by rewrite S7.
    - by rewrite S8.
    - exact Hl.
    - lia.
    - unfold fresh_filter. rewrite len_app, len_cuckoo_header, len_replicate. unfold slots_end. cbn [num_buckets bucket_size fingerprint_size fresh_header]. unfold FILE_DEFAULT_FINGERPRINT_SIZE, CUCKOO_HEADER_SIZE, TOKEN_SIZE. lia. }
  split; [done| |done]. assert (bag_of (fresh_filter N B) (fresh_header N B) = []) as ->; [|done]. unfold bag_of, bag. assert (forall c, c ∈ cells_of (fresh_header N B) -> all_zero (table_of (fresh_filter N B) (fresh_header N B) c) = true) as Hz.
  { intros c Hc. pose proof (slot_bounds _ c Hl Hc) as [H1 _]. unfold CUCKOO_HEADER_SIZE in H1. unfold table_of, fresh_filter. rewrite zslice_app_skip by (rewrite len_cuckoo_header; lia). unfold zslice.
    rewrite ztake_take, zdrop_drop, drop_replicate, take_replicate. apply all_zero_replicate. }
  fold (cells_of (fresh_header N B)). induction (cells_of (fresh_header N B)) as [|c cs IH]; [done|]. cbn [omap list_omap]. unfold slot_signature at 1. rewrite Hz by apply list_elem_of_here. apply IH. intros c' Hc'. apply Hz. by right.
Qed.

Lemma cuckoo_create_healthy path capacity B files : 0 < capacity <= u32_max -> 0 < B < 256 -> let N := (capacity + B - 1) / B in N * B <= MAX_CUCKOO_BUCKET_BYTES ->
  0 < N <= u32_max /\ cuckoo_file_create path capacity B (mkWorld files []) = (Ok tt, mkWorld (<[path := fresh_filter N B]> files) []).
Proof using Type.
  intros Hc HB N Hr. assert (0 < N <= u32_max) as HN.
  { unfold N. assert (u32_max = 4294967295) as Hu by done. split; [apply Z.div_str_pos; lia|]. apply Z.div_le_upper_bound; nia. }
  split; [done|]. unfold cuckoo_file_create, cuckoo_bucket_count. rewrite (proj2 (Z.eqb_neq capacity 0)), (proj2 (Z.eqb_neq B 0)) by lia. cbv zeta. fold N. rewrite (proj2 (Z.leb_le _ _)) by lia. rewrite sbind_slift_Ok.
  pose proof (cuckoo_file_size_ok (fresh_header N B) (fresh_layout N B ltac:(lia) ltac:(lia) Hr)) as Es. cbn [num_buckets bucket_size fingerprint_size fresh_header] in Es. rewrite Es, sbind_slift_Ok.
  etrans; [|exact (create_sidecar_healthy path (cuckoo_header N B FILE_DEFAULT_FINGERPRINT_SIZE FILE_DEFAULT_MAX_KICKS) (Z.to_nat (N * B + TOKEN_SIZE)) files)]. f_equal. rewrite len_cuckoo_header.
  unfold slots_end. cbn [num_buckets bucket_size fingerprint_size fresh_header]. unfold FILE_DEFAULT_FINGERPRINT_SIZE, CUCKOO_HEADER_SIZE, TOKEN_SIZE. lia.
Qed.

Lemma run_calls_steps path cs : forall files data h l, files !! path = Some data -> represents data h l -> num_deletes h + len cs <= u64_max ->
  exists rs data' h' l', run_calls path cs (mkWorld files []) = (rs, mkWorld (<[path := data']> files) []) /\ represents data' h' l' /\ bag_steps (fingerprint_size h) (num_buckets h) (bucket_size h) l cs rs l'.
Proof using Type.
  induction cs as [|c cs IH]; intros files data h l Ed Hr Hd; cbn [run_calls].
  { exists [], data, h, l. rewrite insert_id by done. split; [done|]. split; [done|]. constructor. }
  rewrite len_cons in Hd. assert (0 <= calls_delete c <= 1) as Hcd by (destruct c as [[]| |]; cbn; lia). pose proof (len_nonneg cs).
  destruct (call_step path files data h l c Ed Hr ltac:(lia)) as (r & data1 & h1 & l1 & E1 & Hr1 & Hs1 & EF & EN & EB & Hd1). rewrite E1.
  destruct (IH (<[path := data1]> files) data1 h1 l1 (lookup_insert_eq _ _ _) Hr1 ltac:(lia)) as (rs & data2 & h2 & l2 & E2 & Hr2 & Hs2). rewrite E2, insert_insert_eq. exists (r :: rs), data2, h2, l2.
  split; [done|]. split; [done|]. econstructor; [exact Hs1|]. by rewrite <- EF, <- EN, <- EB.
Qed.

(** C36: a cuckoo filter is a bag of signatures.  A new filter of any capacity is used by any
    sequence of additions, conditional additions, deletions, queries and counts: the replies
    are those of a bag that starts empty, in which an element counts as present when its
    fingerprint and pair of buckets do, although the filter moves fingerprints around; an
    addition is refused only when both buckets of the element are full, and then changes
    nothing. *)
Theorem cuckoo_refines_bag path capacity B cs files :
  0 < capacity <= u32_max -> 0 < B < 256 -> (capacity + B - 1) / B * B <= MAX_CUCKOO_BUCKET_BYTES -> len cs <= u64_max ->
  exists w1 w2 rs l data h,
    cuckoo_file_create path capacity B (mkWorld files []) = (Ok tt, w1) /\ run_calls path cs w1 = (rs, w2) /\
    bag_steps FILE_DEFAULT_FINGERPRINT_SIZE ((capacity + B - 1) / B) B [] cs rs l /\
    w_files w2 !! path = Some data /\ represents data h l /\ delete path (w_files w2) = delete path files.
Proof using Type.
  intros Hc HB Hr Hl. destruct (cuckoo_create_healthy path capacity B files Hc HB Hr) as [HN E]. pose proof (fresh_represents _ B HN HB Hr) as Hrep.
  destruct (run_calls_steps path cs _ _ _ _ (lookup_insert_eq files path _) Hrep Hl) as (rs & data & h & l & E2 & Hr2 & Hs). eexists _, _, rs, l, data, h. split; [exact E|]. split; [exact E2|].
  split; [exact Hs|]. cbn [w_files]. rewrite insert_insert_eq, lookup_insert_eq, delete_insert_eq. done.
Qed.

(** ** Entries *)

Lemma cuckoo_footer data h token : cuckoo_file data h -> cuckoo_file (overwrite data (slots_end h) (token_encode token)) h.
Proof using Type.
  intros Hf. pose proof (slots_end_len _ _ Hf). pose proof (slots_end_range h (ck_layout _ _ Hf)) as [Hs _]. pose proof (len_token_encode token) as Ht. destruct Hf as [Hm Hve HN HB HF Hk Hi Hd Hl Hfit Hln].
  unfold TOKEN_SIZE in *. split; try done; rewrite ?overwrite_before by lia; try done. rewrite len_overwrite by lia. unfold TOKEN_SIZE. lia.
Qed.

Lemma plan_transaction_ok data h token images result : cuckoo_file data h -> token_ok token -> plan_images_ok h images -> len result = 1 ->
  transaction_ok (mutation (slots_end h) (slots_end h + TOKEN_SIZE) token images result).
Proof using Type.
  intros Hf Ht (Hi & H8 & Hn) Hr. pose proof (slots_end_range h (ck_layout _ _ Hf)) as [H0 H1]. assert (len (images_bytes images) <= 24 * len images) as Hb.
  { clear Hi Hn. induction H8 as [|i l H _ IH]; [done|]. rewrite len_images_bytes_cons, len_cons. lia. }
  split; cbn [mutation tn_token tn_token_offset tn_expected_file_size tn_images tn_result]; try done; try lia.
  - rewrite len_app, len_cons, len_nil. unfold MAX_AFTER_IMAGES. lia.
  - apply mutation_images_ok; [lia|done|done].
  - rewrite len_transaction_content. cbn [mutation tn_images tn_result]. unfold images_bytes in *. rewrite bind_app, concat_app, len_app. cbn [mbind list_bind app image_chunks concat token_image ai_offset ai_bytes].
    rewrite !len_app, !len_le_bytes, len_token_encode, len_nil. unfold MAX_TRANSACTION_BYTES, CHECKSUM_SIZE, TOKEN_SIZE. lia.
Qed.

Lemma mutate_at_run m path receipt_path x token files data h : files !! path = Some data -> cuckoo_file data h -> mt_index token <> 0 ->
  cuckoo_file_mutate_at path receipt_path x (mt_index token) (mt_ordinal token) m (mkWorld files []) = reply_of (cuckoo_transactional_mutation path receipt_path h x m token (mkWorld files [])).
Proof using Type.
  intros Ed Hf Hne. unfold cuckoo_file_mutate_at. unfold token_eqb at 1. cbn [mt_index mt_ordinal ZERO]. rewrite (proj2 (Z.eqb_neq _ _) Hne). cbn [andb].
  rewrite (proj1 (cuckoo_open_healthy path files data _ Ed)). rewrite (sbind_Ok _ _ _ _ _ (cuckoo_header_healthy path files data h Ed Hf)). by destruct token.
Qed.

(** What every plan that succeeds provides. *)
Lemma plan_of_ok m data h l x plan : represents data h l -> plan_of m (table_of data h) h x = Ok plan ->
  plan_images_ok h (plan_images plan) /\ (plan_result plan = 0 \/ plan_result plan = 1) /\
  exists h', cuckoo_file (patched data (plan_images plan)) h' /\ slots_end h' = slots_end h /\ num_buckets h' = num_buckets h /\ bucket_size h' = bucket_size h /\ fingerprint_size h' = fingerprint_size h.
Proof using Type.
  intros Hr E. pose proof Hr as [Hf _ _]. pose proof (represents_count _ _ _ Hr) as Hcount. assert (plan = mkCuckooMutationPlan 0 [] \/ inserts data h x plan \/ deletes data h x plan) as H.
  { destruct m; cbn [plan_of] in E.
    - pose proof (insert_plan_cases data h Hf Hcount x false) as H. cbv zeta in H. rewrite E in H. destruct H as [(? & _)|[_ H]]; [done|tauto].
    - pose proof (insert_plan_cases data h Hf Hcount x true) as H. cbv zeta in H. rewrite E in H. tauto.
    - pose proof (delete_plan_cases data h Hf Hcount x) as H. rewrite E in H. tauto. }
  destruct H as [->|[(H1 & H2 & H3 & _)|(H1 & H2 & H3 & _)]].
  - cbn [plan_images plan_result]. split; [split; [constructor|split; [constructor|done]]|]. split; [by left|]. by exists h.
  - split; [done|]. split; [by right|]. eexists. split; [exact H3|done].
  - split; [done|]. split; [by right|]. eexists. split; [exact H3|done].
Qed.

(** A call with a new token: the plan is committed under it, or the call fails and leaves the
    sidecar alone. *)
Lemma mutate_at_applies m path receipt_path x token files data h l :
  separate path receipt_path -> represents data h l -> settled path receipt_path (slots_end h) (slots_end h + TOKEN_SIZE) files data ->
  token_ok token -> mt_index token <> 0 -> token_cmp (token_at data (slots_end h)) token = Lt ->
  match plan_of m (table_of data h) h x with
  | Ok plan => exists files', cuckoo_transactional_mutation path receipt_path h x m token (mkWorld files []) = (Ok (plan_result plan), mkWorld files' []) /\
      answered path receipt_path (slots_end h) (slots_end h + TOKEN_SIZE) files' (overwrite (patched data (plan_images plan)) (slots_end h) (token_encode token)) token [byte_of (plan_result plan)]
  | Err e => exists files', cuckoo_transactional_mutation path receipt_path h x m token (mkWorld files []) = (Err e, mkWorld files' []) /\ files' !! path = Some data
  | Panic => False
  end.
Proof using CL.
  intros Hs Hr Hst Ht Hne Hc. pose proof Hr as [Hf _ _]. pose proof (ck_layout _ _ Hf) as Hl. pose proof (slots_end_range h Hl) as [H0' H1]. assert (0 <= slots_end h) as H0 by lia. unfold cuckoo_transactional_mutation.
  rewrite cuckoo_token_offset_ok, cuckoo_file_size_ok by done. rewrite !sbind_slift_Ok. rewrite (sbind_Ok _ _ _ _ _ (effective_token_log _ _ _ _ _ _ Hne)).
  destruct (begin_settled path receipt_path (slots_end h) (slots_end h + TOKEN_SIZE) Hs H0 eq_refl H1 token files data Hst Hc) as (files1 & E1 & Hst1). rewrite (sbind_Ok _ _ _ _ _ E1). destruct Hst1 as (Ed1 & Hl1 & _).
  rewrite (sbind_Ok _ _ _ _ _ (cuckoo_header_healthy path files1 data h Ed1 Hf)). rewrite !Z.eqb_refl. cbn [negb orb].
  assert ((match m with CuckooAdd => cuckoo_insert_plan path h x false | CuckooAddNx => cuckoo_insert_plan path h x true | CuckooDelete => cuckoo_delete_plan path h x end) (mkWorld files1 []) = (plan_of m (table_of data h) h x, mkWorld files1 [])) as Ep
    by (destruct m; [by apply insert_plan_healthy..|by apply delete_plan_healthy]).
  destruct (plan_of m (table_of data h) h x) as [plan|e|] eqn:E.
  - rewrite (sbind_Ok _ _ _ _ _ Ep). destruct (plan_of_ok m data h l x plan Hr E) as (Hi & _ & _).
    destruct (mutation_commit_healthy path receipt_path (slots_end h) (slots_end h + TOKEN_SIZE) Hs H0 eq_refl H1 token (plan_images plan) [byte_of (plan_result plan)] files1 data (proj1 Hi) Ed1 Hl1
      (plan_transaction_ok data h token _ [byte_of (plan_result plan)] Hf Ht Hi eq_refl)) as (files2 & E3 & Hans).
    rewrite (sbind_Ok _ _ _ _ _ E3). exists files2. split; [done|]. unfold mutated in Hans. rewrite patched_app in Hans. exact Hans.
  - rewrite (sbind_Err _ _ _ _ _ Ep). by exists files1.
  - pose proof (represents_count _ _ _ Hr) as Hcount. destruct m; cbn [plan_of] in E.
    + pose proof (insert_plan_cases data h Hf Hcount x false) as H. cbv zeta in H. by rewrite E in H.
    + pose proof (insert_plan_cases data h Hf Hcount x true) as H. cbv zeta in H. by rewrite E in H.
    + pose proof (delete_plan_cases data h Hf Hcount x) as H. by rewrite E in H.
Qed.

(** The reply to an entry older than the newest one. *)
Definition stale_reply (m : CuckooMutation) : Z := match m with CuckooAdd => 1 | CuckooAddNx | CuckooDelete => 0 end.

(** C37: an entry is applied once.  A mutation that carries a new token gives the reply of the
    plain operation and leaves its file, with the token; a refused one leaves the filter as
    it was.  The same entry again gives the same reply and changes nothing, whatever the
    filter would answer now, and an older entry changes nothing. *)
Theorem cuckoo_entry_once m path receipt_path x token files data h l :
  separate path receipt_path -> represents data h l -> settled path receipt_path (slots_end h) (slots_end h + TOKEN_SIZE) files data ->
  token_ok token -> mt_index token <> 0 -> token_cmp (token_at data (slots_end h)) token = Lt ->
  exists r data' files1,
    plain m path x (mkWorld files []) = (r, mkWorld (<[path := data']> files) []) /\
    cuckoo_file_mutate_at path receipt_path x (mt_index token) (mt_ordinal token) m (mkWorld files []) = (r, mkWorld files1 []) /\
    ((exists e, r = ReplyError e /\ data' = data /\ files1 !! path = Some data) \/
     (exists v files2, r = ReplyOk v /\ files1 !! path = Some (overwrite data' (slots_end h) (token_encode token)) /\
       cuckoo_file_mutate_at path receipt_path x (mt_index token) (mt_ordinal token) m (mkWorld files1 []) = (r, mkWorld files2 []) /\ files2 !! path = files1 !! path /\
       forall m' y old, token_ok old -> mt_index old <> 0 -> token_cmp old token = Lt -> exists files3,
         cuckoo_file_mutate_at path receipt_path y (mt_index old) (mt_ordinal old) m' (mkWorld files2 []) = (ReplyOk (stale_reply m'), mkWorld files3 []) /\ files3 !! path = files1 !! path)).
Proof using CL.
  intros Hs Hr Hst Ht Hne Hc. pose proof Hr as [Hf _ _]. pose proof Hst as (Ed & _). pose proof (slots_end_range h (ck_layout _ _ Hf)) as [H0' H1]. assert (0 <= slots_end h) as H0 by lia.
  pose proof (mutate_at_applies m path receipt_path x token files data h l Hs Hr Hst Ht Hne Hc) as H. pose proof (plain_healthy m path files data h x Ed Hf) as Epl. pose proof (mutate_at_run m path receipt_path x token files data h Ed Hf Hne) as Erun.
  destruct (plan_of m (table_of data h) h x) as [plan|e|] eqn:E; [| |done].
  2:{ destruct H as (files1 & E1 & Ed1). exists (ReplyError e), data, files1. rewrite Epl, Erun, E1. cbn [planned reply_of]. rewrite insert_id by done. split; [done|]. split; [done|]. left. by exists e. }
  destruct H as (files1 & E1 & Hans). destruct (plan_of_ok m data h l x plan Hr E) as (_ & Hv & h' & Hf' & He' & EN & EB & EF). set (data' := patched data (plan_images plan)) in *.
  exists (ReplyOk (plan_result plan)), data', files1. rewrite Epl, Erun, E1. split; [done|]. split; [done|]. right. pose proof Hans as (Ed1 & _).
  destruct (begin_answered path receipt_path (slots_end h) (slots_end h + TOKEN_SIZE) Hs H0 eq_refl H1 files1 _ token _ Hans) as (files2 & E2 & Hans2). pose proof Hans2 as (Ed2 & Hl2 & Et2 & _).
  pose proof (cuckoo_footer data' h' token Hf') as Hff. rewrite He' in Hff. pose proof (ck_layout _ _ Hff) as Hl'. pose proof (cuckoo_token_offset_ok h' Hl') as To. pose proof (cuckoo_file_size_ok h' Hl') as Ts. rewrite He' in To, Ts.
  exists (plan_result plan), files2. split; [done|]. split; [done|]. split; [|split; [by rewrite Ed1, Ed2|]].
  - rewrite (mutate_at_run m path receipt_path x token files1 _ h' Ed1 Hff Hne). unfold cuckoo_transactional_mutation. rewrite To, Ts, !sbind_slift_Ok. rewrite (sbind_Ok _ _ _ _ _ (effective_token_log _ _ _ _ _ _ Hne)).
    rewrite (sbind_Ok _ _ _ _ _ E2). by destruct Hv as [-> | ->].
  - intros m' y old Ho Hone Hlt. destruct (begin_stale path receipt_path (slots_end h) (slots_end h + TOKEN_SIZE) Hs H0 eq_refl H1 old files2 _ (answered_settled _ _ _ _ _ _ _ _ Hans2)) as (files3 & E3 & (Ed3 & _)); [by rewrite Et2|].
    exists files3. split; [|by rewrite Ed3, Ed1]. rewrite (mutate_at_run m' path receipt_path y old files2 _ h' Ed2 Hff Hone). unfold cuckoo_transactional_mutation. rewrite To, Ts, !sbind_slift_Ok.
    rewrite (sbind_Ok _ _ _ _ _ (effective_token_log _ _ _ _ _ _ Hone)). by rewrite (sbind_Ok _ _ _ _ _ E3).
Qed.
End Contract.

(** ** Witnesses *)

Module CuckooExample.
#[local] Existing Instance crc32_iso_hdlc.
#[local] Existing Instance sum_xxh3.

Definition calls : list cuckoo_call :=
  [Mutate CuckooAdd (lit "a"); Mutate CuckooAddNx (lit "a"); Mutate CuckooAdd (lit "b"); Exists_ (lit "c"); Count (lit "a"); Mutate CuckooDelete (lit "b")].
Definition header : CuckooFileHeader := fresh_header 3 2.
Definition data : bytes := fresh_filter 3 2.
Definition files : gmap string bytes := {["f" := data]}.
Definition entry : MutationToken := mkMutationToken 7 1.

Lemma cuckoo_sep : separate "f" "f".
Proof. split; discriminate. Qed.
Lemma represented : represents data header [].
Proof. apply fresh_represents; vm_compute; try split; done || discriminate. Qed.
Lemma cuckoo_settled : settled "f" "f" (slots_end header) (slots_end header + TOKEN_SIZE) files data.
Proof. split; [reflexivity|]. split; [vm_compute; reflexivity|exact I]. Qed.
End CuckooExample.

Lemma cuckoo_refines_bag_witness : exists w1 w2 rs l data h,
  cuckoo_file_create "f" 6 2 (mkWorld ∅ []) = (Ok tt, w1) /\ @run_calls sum_xxh3 "f" CuckooExample.calls w1 = (rs, w2) /\
  @bag_steps sum_xxh3 FILE_DEFAULT_FINGERPRINT_SIZE ((6 + 2 - 1) / 2) 2 [] CuckooExample.calls rs l /\
  w_files w2 !! "f" = Some data /\ @represents sum_xxh3 data h l /\ delete "f" (w_files w2) = delete "f" (∅ : gmap string bytes).
Proof. apply (@cuckoo_refines_bag sum_xxh3 "f" 6 2 CuckooExample.calls ∅); vm_compute; try split; done || discriminate. Defined.

Lemma cuckoo_entry_once_witness : exists r data' files1,
  @plain sum_xxh3 CuckooAdd "f" (lit "a") (mkWorld CuckooExample.files []) = (r, mkWorld (<["f" := data']> CuckooExample.files) []) /\
  @cuckoo_file_mutate_at crc32_iso_hdlc sum_xxh3 "f" "f" (lit "a") 7 1 CuckooAdd (mkWorld CuckooExample.files []) = (r, mkWorld files1 []) /\
  ((exists e, r = ReplyError e /\ data' = CuckooExample.data /\ files1 !! "f" = Some CuckooExample.data) \/
   (exists v files2, r = ReplyOk v /\ files1 !! "f" = Some (overwrite data' (slots_end CuckooExample.header) (token_encode CuckooExample.entry)) /\
     @cuckoo_file_mutate_at crc32_iso_hdlc sum_xxh3 "f" "f" (lit "a") 7 1 CuckooAdd (mkWorld files1 []) = (r, mkWorld files2 []) /\ files2 !! "f" = files1 !! "f" /\
     forall m' y old, token_ok old -> mt_index old <> 0 -> token_cmp old CuckooExample.entry = Lt -> exists files3,
       @cuckoo_file_mutate_at crc32_iso_hdlc sum_xxh3 "f" "f" y (mt_index old) (mt_ordinal old) m' (mkWorld files2 []) = (ReplyOk (stale_reply m'), mkWorld files3 []) /\ files3 !! "f" = files1 !! "f")).
Proof.
  apply (@cuckoo_entry_once crc32_iso_hdlc _ sum_xxh3 CuckooAdd "f" "f" (lit "a") CuckooExample.entry CuckooExample.files CuckooExample.data CuckooExample.header []).
  - exact CuckooExample.cuckoo_sep.
  - exact CuckooExample.represented.
  - exact CuckooExample.cuckoo_settled.
  - vm_compute. repeat split; discriminate.
  - discriminate.
  - vm_compute. reflexivity.
Defined.
