(* ===== verification/TopK.v ===== *)
(** * Top-k lists (topk.rs)

    A list is a file: a 64-byte header (magic number, k, width, depth, length of the heap), a
    matrix of 64-bit signed counters, k heap entries of 264 bytes, and the token of its
    newest mutation.  An increment adds to the counters and offers the element with its
    estimate to the heap, which keeps the k elements with the largest estimates; the least
    of them is at its root.  The heap in memory indexes its elements by position. *)

From Stdlib Require Import ZArith Lia.
From stdpp Require Import gmap strings sorting.
From S2P Require Import Prelude Bytes Crc Sidecar ProbTxn Cms.

Definition TOPK_MAGIC : bytes := lit "TOPKFS01".
Definition TOPK_HEADER_SIZE : Z := 64.
Definition HEAP_ENTRY_SIZE : Z := 264.
Definition MAX_ELEMENT_LEN : Z := 252.
Definition MAX_TOPK_K : Z := 100000.
Definition MAX_TOPK_CMS_COUNTERS : Z := 1048576.

Definition fnv1a (data : bytes) (offset_basis : Z) : Z := foldl fnv_step offset_basis data.

(** ** Layout *)

Record TopKLayout : Type := mkTopKLayout {
  tl_heap_offset : Z;
  tl_token_offset : Z;
  tl_file_size : Z;
}.

Definition topk_layout (k width depth : Z) : result TopKLayout :=
  let? cms_entries := ok_or (checked_mul64 width depth) "TopK CMS counter count overflow" in
  if MAX_TOPK_CMS_COUNTERS <? cms_entries then Err "TopK CMS counter count exceeds 1048576" else
  if MAX_TOPK_K <? k then Err "k must be <= 100000" else
  let? cms_bytes := ok_or (checked_mul64 cms_entries 8) "TopK CMS byte size overflow" in
  let? heap_offset := ok_or (checked_add64 TOPK_HEADER_SIZE cms_bytes) "TopK heap offset overflow" in
  let? heap_bytes := ok_or (checked_mul64 k HEAP_ENTRY_SIZE) "TopK heap byte size overflow" in
  let? token_offset := ok_or (checked_add64 heap_offset heap_bytes) "TopK file size overflow" in
  let? file_size := ok_or (checked_add64 token_offset TOKEN_SIZE) "TopK mutation footer size overflow" in
  Ok (mkTopKLayout heap_offset token_offset file_size).

Definition heap_offset (width depth : Z) : Z :=
  match topk_layout 0 width depth with
  | Ok layout => tl_heap_offset layout
  | _ => u64_max
  end.

Definition topk_read_exact_at (file : string) (n offset : Z) (label : string) : SR World bytes := read_exact_as "read " "topk file" file n offset label.

Definition v2_read_header (file : string) : SR World (Z * Z * Z * Z) :=
  let! hdr := topk_read_exact_at file TOPK_HEADER_SIZE 0 "header" in
  if negb (bytes_eqb (zslice hdr 0 8) TOPK_MAGIC) then serr "invalid topk file magic" else
  let k := le_val (zslice hdr 8 12) in
  let width := le_val (zslice hdr 12 16) in
  let depth := le_val (zslice hdr 16 20) in
  let heap_len := le_val (zslice hdr 20 24) in
  if k =? 0 then serr "k must be > 0" else
  if width =? 0 then serr "width must be > 0" else
  if depth =? 0 then serr "depth must be > 0" else
  if k <? heap_len then serr "heap_len must be <= k" else
  if existsb (fun b => negb (byte_val b =? 0)) (zslice hdr 24 64) then serr "topk reserved header bytes must be zero" else
  let! layout := slift (topk_layout k width depth) in
  let! actual_size := map_err (fun e => "read TopK file metadata: " +:+ e) (metadata_len file) in
  if negb (actual_size =? tl_file_size layout) then
    serr ("TopK file size mismatch: expected " +:+ pretty (tl_file_size layout) +:+ ", got " +:+ pretty actual_size)
  else sret (k, width, depth, heap_len).

(** ** Counters *)

Definition v2_read_cms (file : string) (width depth : Z) : SR World (list Z) :=
  let cms_size := width * depth in
  let! buf := topk_read_exact_at file (cms_size * 8) TOPK_HEADER_SIZE "cms" in
  sret (chunk_values (Z.to_nat cms_size) buf).

Definition v2_encode_cms (counters : list Z) : result bytes :=
  let? _ := ok_or (checked_mul64 (len counters) 8) "TopK CMS encoding size overflow" in
  Ok (counters ≫= le_bytes 8).

(** The counter of each row. *)
Definition counter_indices (width depth : Z) (element : bytes) : list Z :=
  let h1 := fnv1a element 0x811c9dc5 in
  let h2 := fnv1a element 0x050c5d1f in
  map (fun i => i * width + add64 h1 (wrap64 (i * h2)) mod width) (seqZ 0 depth).

Fixpoint increment_rows (counters : list Z) (count : Z) (indices : list Z) (min_count : Z) : result (list (Z * Z) * Z) :=
  match indices with
  | [] => Ok ([], min_count)
  | idx :: indices =>
      let? c := unwrap (counters !! Z.to_nat idx) in
      let? next := ok_or (checked_i64 (c + count)) ("TopK CMS counter overflow: " +:+ pretty c +:+ " + " +:+ pretty count) in
      let? (updates, min_count) := increment_rows counters count indices (Z.min min_count next) in
      Ok ((idx, next) :: updates, min_count)
  end.
Definition v2_cms_increment (counters : list Z) (width depth : Z) (element : bytes) (count : Z) : result (list Z * Z) :=
  let? (updates, min_count) := increment_rows counters count (counter_indices width depth element) i64_max in
  Ok (foldl (fun counters '(idx, next) => <[Z.to_nat idx := next]> counters) counters updates, min_count).

Fixpoint estimate_rows (counters : list Z) (indices : list Z) (min_count : Z) : result Z :=
  match indices with
  | [] => Ok min_count
  | idx :: indices =>
      let? c := unwrap (counters !! Z.to_nat idx) in
      estimate_rows counters indices (Z.min min_count c)
  end.
Definition v2_cms_estimate (counters : list Z) (width depth : Z) (element : bytes) : result Z :=
  estimate_rows counters (counter_indices width depth element) i64_max.

(** ** The heap *)

Record V2HeapEntry : Type := mkV2HeapEntry {
  he_element : bytes;
  he_count : Z;
}.

Record V2IndexedHeap : Type := mkV2IndexedHeap {
  entries : list V2HeapEntry;
  positions : gmap bytes nat;
  capacity : Z;
}.

Definition entry_precedes (left right : V2HeapEntry) : bool :=
  (he_count left <? he_count right) || ((he_count left =? he_count right) && bytes_ltb (he_element left) (he_element right)).

(** Indexing panics out of range, [expect] on a missing element. *)
Definition entry_at (h : V2IndexedHeap) (index : nat) : result V2HeapEntry := unwrap (entries h !! index).

Definition swap (h : V2IndexedHeap) (left right : nat) : result V2IndexedHeap :=
  if (left =? right)%nat then Ok h else
  let? l := entry_at h left in
  let? r := entry_at h right in
  let swapped := <[left := r]> (<[right := l]> (entries h)) in
  let? _ := unwrap (positions h !! he_element r) in
  let moved := <[he_element r := left]> (positions h) in
  let? _ := unwrap (moved !! he_element l) in
  Ok (mkV2IndexedHeap swapped (<[he_element l := right]> moved) (capacity h)).

(** The loops that move an entry towards the root and towards the leaves. *)
Fixpoint sift_up_loop (fuel : nat) (h : V2IndexedHeap) (index : nat) : result V2IndexedHeap :=
  match fuel with
  | O => Ok h
  | S fuel =>
      if (index =? 0)%nat then Ok h else
      let parent := ((index - 1) / 2)%nat in
      let? e := entry_at h index in
      let? p := entry_at h parent in
      if negb (entry_precedes e p) then Ok h else
      let? h := swap h index parent in
      sift_up_loop fuel h parent
  end.
Definition sift_up (h : V2IndexedHeap) (index : nat) : result V2IndexedHeap := sift_up_loop (S index) h index.

Fixpoint sift_down_loop (fuel : nat) (h : V2IndexedHeap) (index : nat) : result V2IndexedHeap :=
  match fuel with
  | O => Ok h
  | S fuel =>
      let n := length (entries h) in
      let left := (index * 2 + 1)%nat in
      if (n <=? left)%nat then Ok h else
      let right := (left + 1)%nat in
      let? l := entry_at h left in
      let? right_first := (if (right <? n)%nat then let? r := entry_at h right in Ok (entry_precedes r l) else Ok false) in
      let child := if (right_first : bool) then right else left in
      let? c := entry_at h child in
      let? e := entry_at h index in
      if negb (entry_precedes c e) then Ok h else
      let? h := swap h index child in
      sift_down_loop fuel h child
  end.
Definition sift_down (h : V2IndexedHeap) (index : nat) : result V2IndexedHeap := sift_down_loop (length (entries h)) h index.

(** [V2IndexedHeap::new]: the index, then the order, from the last parent to the root. *)
Fixpoint index_entries (es : list V2HeapEntry) (index : nat) (positions : gmap bytes nat) : result (gmap bytes nat) :=
  match es with
  | [] => Ok positions
  | e :: es =>
      match positions !! he_element e with
      | Some _ => Err "TopK heap contains a duplicate element"
      | None => index_entries es (S index) (<[he_element e := index]> positions)
      end
  end.
Fixpoint heapify (n : nat) (h : V2IndexedHeap) : result V2IndexedHeap :=
  match n with
  | O => Ok h
  | S n =>
      let? h := sift_down h n in
      heapify n h
  end.
Definition heap_new (es : list V2HeapEntry) (capacity : Z) : result V2IndexedHeap :=
  if capacity <? len es then Err "TopK heap length exceeds k" else
  let? positions := index_entries es 0 ∅ in
  heapify (length es / 2) (mkV2IndexedHeap es positions capacity).

(** [V2IndexedHeap::add]: the evicted element, if any. *)
Definition heap_add (h : V2IndexedHeap) (element : bytes) (estimated : Z) : result (V2IndexedHeap * option bytes) :=
  match positions h !! element with
  | Some index =>
      let? e := entry_at h index in
      let previous := he_count e in
      let h := mkV2IndexedHeap (<[index := mkV2HeapEntry (he_element e) estimated]> (entries h)) (positions h) (capacity h) in
      let? h := (if estimated <? previous then sift_up h index else if previous <? estimated then sift_down h index else Ok h) in
      Ok (h, None)
  | None =>
      if len (entries h) <? capacity h then
        let index := length (entries h) in
        let h := mkV2IndexedHeap (entries h ++ [mkV2HeapEntry element estimated]) (<[element := index]> (positions h)) (capacity h) in
        let? h := sift_up h index in
        Ok (h, None)
      else
        let? root := entry_at h 0 in
        if estimated <=? he_count root then Ok (h, None) else
        let evicted := he_element root in
        let h := mkV2IndexedHeap (<[0%nat := mkV2HeapEntry element estimated]> (entries h)) (<[element := 0%nat]> (delete evicted (positions h))) (capacity h) in
        let? h := sift_down h 0 in
        Ok (h, Some evicted)
  end.

(** The element of an entry of the file, and whether it occurs twice. *)
Definition heap_entry_at (buf : bytes) (i : nat) : result V2HeapEntry :=
  let base := Z.of_nat i * HEAP_ENTRY_SIZE in
  let count := i64_of (le_val (zslice buf base (base + 8))) in
  let elem_len := le_val (zslice buf (base + 8) (base + 12)) in
  if MAX_ELEMENT_LEN <? elem_len then Err ("TopK heap element length " +:+ pretty elem_len +:+ " exceeds 252") else
  Ok (mkV2HeapEntry (zslice buf (base + 12) (base + 12 + elem_len)) count).
Fixpoint heap_entries (buf : bytes) (n i : nat) : result (list V2HeapEntry) :=
  match n with
  | O => Ok []
  | S n =>
      let? e := heap_entry_at buf i in
      let? es := heap_entries buf n (S i) in
      Ok (e :: es)
  end.
Fixpoint all_distinct (es : list V2HeapEntry) (seen : gset bytes) : bool :=
  match es with
  | [] => true
  | e :: es => if bool_decide (he_element e ∈ seen) then false else all_distinct es ({[he_element e]} ∪ seen)
  end.

Definition v2_read_heap (file : string) (width depth heap_len k : Z) : SR World (list V2HeapEntry) :=
  let heap_base := heap_offset width depth in
  let read_count := Z.min heap_len k in
  let! buf := topk_read_exact_at file (read_count * HEAP_ENTRY_SIZE) heap_base "heap" in
  let! es := slift (heap_entries buf (Z.to_nat read_count) 0) in
  if negb (all_distinct es ∅) then serr "TopK heap contains a duplicate element" else sret es.

(** An entry in its 264 bytes, zero-padded. *)
Definition encode_entry (e : V2HeapEntry) : result bytes :=
  let n := len (he_element e) in
  if MAX_ELEMENT_LEN <? n then Err ("TopK heap element length " +:+ pretty n +:+ " exceeds 252") else
  Ok (le_bytes 8 (he_count e) ++ le_bytes 4 n ++ he_element e ++ replicate (Z.to_nat (MAX_ELEMENT_LEN - n)) x00).
Fixpoint encode_entries (es : list V2HeapEntry) : result bytes :=
  match es with
  | [] => Ok []
  | e :: es =>
      let? b := encode_entry e in
      let? bs := encode_entries es in
      Ok (b ++ bs)
  end.
Definition v2_encode_heap (es : list V2HeapEntry) : result bytes :=
  let? _ := ok_or (checked_mul64 (len es) HEAP_ENTRY_SIZE) "TopK heap encoding size overflow" in
  encode_entries es.

(** ** Mutations *)

Record V2MutationPlan : Type := mkV2MutationPlan {
  mp_images : list AfterImage;
  mp_results : list (option bytes);
}.

Fixpoint apply_updates (width depth : Z) (updates : list (bytes * Z)) (counters : list Z) (h : V2IndexedHeap) : result (list Z * V2IndexedHeap * list (option bytes)) :=
  match updates with
  | [] => Ok (counters, h, [])
  | (element, increment) :: updates =>
      let? (counters, estimated) := v2_cms_increment counters width depth element increment in
      let? (h, evicted) := heap_add h element estimated in
      let? (counters, h, results) := apply_updates width depth updates counters h in
      Ok (counters, h, evicted :: results)
  end.

Definition v2_stage_mutation (file : string) (updates : list (bytes * Z)) : SR World V2MutationPlan :=
  let! (k, width, depth, heap_len) := v2_read_header file in
  let! layout := slift (topk_layout k width depth) in
  let! counters := v2_read_cms file width depth in
  let! heap_entries := v2_read_heap file width depth heap_len k in
  let! h := slift (heap_new heap_entries k) in
  let! (counters, h, results) := slift (apply_updates width depth updates counters h) in
  let! cms_bytes := slift (v2_encode_cms counters) in
  let! heap_bytes := slift (v2_encode_heap (entries h)) in
  let! _ := (if len (entries h) <=? u32_max then sret tt else serr "TopK heap length exceeds u32") in
  sret (mkV2MutationPlan
    ([mkAfterImage TOPK_HEADER_SIZE cms_bytes] ++
     match heap_bytes with [] => [] | _ => [mkAfterImage (tl_heap_offset layout) heap_bytes] end ++
     [mkAfterImage 20 (le_bytes 4 (len (entries h)))]) results).

(** The evicted elements in a receipt. *)
Fixpoint payload_size (results : list (option bytes)) (size : Z) : option Z :=
  match results with
  | [] => Some size
  | r :: results =>
      match checked_add64 size 4 with
      | None => None
      | Some next =>
          match (match r with None => Some next | Some value => checked_add64 next (len value) end) with
          | None => None
          | Some size => payload_size results size
          end
      end
  end.
Fixpoint encode_results (results : list (option bytes)) : result bytes :=
  match results with
  | [] => Ok []
  | None :: results =>
      let? rest := encode_results results in
      Ok (le_bytes 4 u32_max ++ rest)
  | Some value :: results =>
      if u32_max <? len value then Err "TopK mutation result element exceeds u32" else
      let? rest := encode_results results in
      Ok (le_bytes 4 (len value) ++ value ++ rest)
  end.
Definition v2_encode_mutation_results (results : list (option bytes)) : result bytes :=
  if u32_max <? len results then Err "TopK mutation result count exceeds u32" else
  let? _ := ok_or (payload_size results 4) "TopK mutation result size overflow" in
  let? encoded := encode_results results in
  Ok (le_bytes 4 (len results) ++ encoded).

Fixpoint decode_results (encoded : bytes) (n : nat) (cursor : Z) : result (list (option bytes) * Z) :=
  match n with
  | O => Ok ([], cursor)
  | S n =>
      let? length_end := ok_or (checked_add64 cursor 4) "TopK mutation result offset overflow" in
      let? length_bytes := ok_or (get_range encoded cursor length_end) "truncated TopK mutation result" in
      let length := le_val length_bytes in
      let cursor := length_end in
      if length =? u32_max then
        let? (results, cursor) := decode_results encoded n cursor in
        Ok (None :: results, cursor)
      else
        if MAX_ELEMENT_LEN <? length then Err "TopK mutation result element exceeds maximum length" else
        let? value_end := ok_or (checked_add64 cursor length) "TopK mutation result length overflow" in
        let? value := ok_or (get_range encoded cursor value_end) "truncated TopK mutation result" in
        let? (results, cursor) := decode_results encoded n value_end in
        Ok (Some value :: results, cursor)
  end.
Definition v2_decode_mutation_results (encoded : bytes) (expected_count : Z) : result (list (option bytes)) :=
  let? count_bytes := ok_or (get_range encoded 0 4) "truncated TopK mutation result" in
  let count := le_val count_bytes in
  if negb (count =? expected_count) then Err "TopK mutation result cardinality mismatch" else
  let? (results, cursor) := decode_results encoded (Z.to_nat count) 4 in
  if negb (cursor =? len encoded) then Err "TopK mutation result contains trailing bytes" else Ok results.

Definition v2_stale_mutation_results (count : Z) : result (list (option bytes)) := Ok (replicate (Z.to_nat count) None).

Fixpoint write_images (file : string) (images : list AfterImage) : SR World unit :=
  match images with
  | [] => sret tt
  | image :: images =>
      let! _ := write_all_at file (ai_bytes image) (ai_offset image) "TopK mutation after-image" in
      write_images file images
  end.
Definition v2_apply_mutation_plan (file : string) (plan : V2MutationPlan) : SR World unit :=
  let! _ := write_images file (mp_images plan) in
  prob_fsync file.

Section TopK.
Context `{C : Crc32fast}.

Definition v2_transactional_mutation (file receipt_path : string) (updates : list (bytes * Z)) (token : MutationToken) : SR World (list (option bytes)) :=
  let! (k, width, depth, _) := v2_read_header file in
  let! layout := slift (topk_layout k width depth) in
  let! token := effective_token file receipt_path token (tl_token_offset layout) (tl_file_size layout) in
  let! decision := begin_ file receipt_path token (tl_token_offset layout) (tl_file_size layout) in
  match decision with
  | Replay result => slift (v2_decode_mutation_results result (len updates))
  | Stale => slift (v2_stale_mutation_results (len updates))
  | Apply =>
      let! plan := v2_stage_mutation file updates in
      let! encoded_result := slift (v2_encode_mutation_results (mp_results plan)) in
      let! _ := commit file receipt_path token (tl_token_offset layout) (tl_file_size layout) (mp_images plan) encoded_result in
      sret (mp_results plan)
  end.

(** ** Operations *)

Definition topk_open_read (path : string) : SR World (option string) := map_err (fun e => "open: " +:+ e) (open_random_read_locked path).
Definition topk_open_rw (path : string) : SR World (option string) := map_err (fun e => "open: " +:+ e) (open_random_rw_locked path).

Definition topk_header (k width depth : Z) : bytes :=
  let header := replicate 64 x00 in
  let header := copy_from_slice header 0 TOPK_MAGIC in
  let header := copy_from_slice header 8 (le_bytes 4 k) in
  let header := copy_from_slice header 12 (le_bytes 4 width) in
  copy_from_slice header 16 (le_bytes 4 depth).

Definition topk_file_create_v2 (path : string) (k width depth : Z) : SR World unit :=
  if k =? 0 then serr "k must be > 0" else
  if width =? 0 then serr "width must be > 0" else
  if depth =? 0 then serr "depth must be > 0" else
  let! layout := slift (topk_layout k width depth) in
  create_sidecar path (topk_header k width depth) (tl_file_size layout).

(** The first element that is too long refuses the call. *)
Definition too_long (elements : list bytes) : option string :=
  match List.find (fun element => MAX_ELEMENT_LEN <? len element) elements with
  | Some element => Some ("TopK element length " +:+ pretty (len element) +:+ " exceeds 252")
  | None => None
  end.

Definition mutate (path : string) (updates : list (bytes * Z)) : World -> reply (list (option bytes)) * World :=
  with_sidecar topk_open_rw path (fun file =>
    let! plan := v2_stage_mutation file updates in
    let! _ := v2_apply_mutation_plan file plan in
    sret (mp_results plan)).
Definition mutate_at (path receipt_path : string) (updates : list (bytes * Z)) (mutation_index mutation_ordinal : Z) : World -> reply (list (option bytes)) * World :=
  let token := mkMutationToken mutation_index mutation_ordinal in
  if token_eqb token ZERO then fun w => (ReplyError "TopK mutation token must be non-zero", w) else
  with_sidecar topk_open_rw path (fun file => v2_transactional_mutation file receipt_path updates token).

Definition topk_file_add_v2 (path : string) (elements : list bytes) : World -> reply (list (option bytes)) * World :=
  match too_long elements with
  | Some e => fun w => (ReplyError e, w)
  | None => mutate path (map (fun element => (element, 1)) elements)
  end.
Definition topk_file_add_v2_at (path receipt_path : string) (elements : list bytes) (mutation_index mutation_ordinal : Z) : World -> reply (list (option bytes)) * World :=
  match too_long elements with
  | Some e => fun w => (ReplyError e, w)
  | None => mutate_at path receipt_path (map (fun element => (element, 1)) elements) mutation_index mutation_ordinal
  end.
Definition topk_file_incrby_v2 (path : string) (pairs : list (bytes * Z)) : World -> reply (list (option bytes)) * World :=
  if existsb (fun p => p.2 <=? 0) pairs then fun w => (ReplyError "TopK increment must be positive", w) else
  match too_long (map fst pairs) with
  | Some e => fun w => (ReplyError e, w)
  | None => mutate path pairs
  end.
Definition topk_file_incrby_v2_at (path receipt_path : string) (pairs : list (bytes * Z)) (mutation_index mutation_ordinal : Z) : World -> reply (list (option bytes)) * World :=
  if existsb (fun p => p.2 <=? 0) pairs then fun w => (ReplyError "TopK increment must be positive", w) else
  match too_long (map fst pairs) with
  | Some e => fun w => (ReplyError e, w)
  | None => mutate_at path receipt_path pairs mutation_index mutation_ordinal
  end.

Definition query_body (elements : list bytes) (file : string) : SR World (list Z) :=
  let! (k, width, depth, heap_len) := v2_read_header file in
  let! es := v2_read_heap file width depth heap_len k in
  sret (map (fun element => if existsb (fun e => bytes_eqb (he_element e) element) es then 1 else 0) elements).
Definition topk_file_query_v2 (path : string) (elements : list bytes) : World -> reply (list Z) * World := with_sidecar topk_open_read path (query_body elements).
Definition topk_file_query_v2_async (path : string) (elements : list bytes) : SR World (list Z) := with_sidecar_task path (query_body elements).

(** Counts descending, then elements ascending. *)
Definition listed_before (a b : V2HeapEntry) : Prop :=
  he_count b < he_count a \/ (he_count a = he_count b /\ bytes_compare (he_element a) (he_element b) <> Gt).
#[export] Instance listed_before_dec : RelDecision listed_before.
Proof. intros a b. unfold listed_before. apply _. Defined.
Definition sorted_entries (es : list V2HeapEntry) : list V2HeapEntry := merge_sort listed_before es.

Definition list_body (file : string) : SR World (list bytes) :=
  let! (k, width, depth, heap_len) := v2_read_header file in
  let! es := v2_read_heap file width depth heap_len k in
  sret (map he_element (sorted_entries es)).
Definition topk_file_list_v2 (path : string) : World -> reply (list bytes) * World := with_sidecar topk_open_read path list_body.
Definition topk_file_list_v2_async (path : string) : SR World (list bytes) := with_sidecar_task path list_body.

Fixpoint with_estimates (counters : list Z) (width depth : Z) (elements : list bytes) : result (list (bytes * Z)) :=
  match elements with
  | [] => Ok []
  | element :: elements =>
      let? count := v2_cms_estimate counters width depth element in
      let? rest := with_estimates counters width depth elements in
      Ok ((element, count) :: rest)
  end.
Definition v2_list_with_counts (file : string) : SR World (list (bytes * Z)) :=
  let! (k, width, depth, heap_len) := v2_read_header file in
  let! es := v2_read_heap file width depth heap_len k in
  let! counters := v2_read_cms file width depth in
  slift (with_estimates counters width depth (map he_element (sorted_entries es))).
Definition topk_file_list_with_count (path : string) : World -> reply (list (bytes * Z)) * World := with_sidecar topk_open_read path v2_list_with_counts.
Definition topk_file_list_with_count_async (path : string) : SR World (list (bytes * Z)) := with_sidecar_task path v2_list_with_counts.

Definition count_body (elements : list bytes) (file : string) : SR World (list Z) :=
  let! (_, width, depth, _) := v2_read_header file in
  let! counters := v2_read_cms file width depth in
  let! counts := slift (with_estimates counters width depth elements) in
  sret (map snd counts).
Definition topk_file_count_v2 (path : string) (elements : list bytes) : World -> reply (list Z) * World := with_sidecar topk_open_read path (count_body elements).
Definition topk_file_count_v2_async (path : string) (elements : list bytes) : SR World (list Z) := with_sidecar_task path (count_body elements).

Definition topk_info_body (file : string) : SR World (Z * Z * Z) :=
  let! (k, width, depth, _) := v2_read_header file in
  sret (k, width, depth).
Definition topk_file_info_v2 (path : string) : World -> reply (Z * Z * Z) * World := with_sidecar topk_open_read path topk_info_body.
Definition topk_file_info_v2_async (path : string) : SR World (Z * Z * Z) := with_sidecar_task path topk_info_body.

Definition topk_recover_sidecar (path : string) : SR World unit :=
  let! opened := map_err (fun e => "open TopK sidecar for recovery: " +:+ e) (open_random_rw_locked path) in
  match opened with
  | None => serr "open TopK sidecar for recovery: No such file or directory (os error 2)"
  | Some file =>
      let! (k, width, depth, _) := v2_read_header file in
      let! layout := slift (topk_layout k width depth) in
      recover file path (tl_token_offset layout) (tl_file_size layout)
  end.
End TopK.
