(* ===== verification/TopKHeap.v ===== *)
(** * The indexed heap of a top-k list

    The heap keeps its entries in heap order by count and element, and its index points at
    them.  What an addition does is stated on the map from elements to counts that the heap
    holds: the entry that leaves a full heap is the least one. *)

From Stdlib Require Import ZArith Lia.
From stdpp Require Import gmap strings sorting.
From S2P Require Import Prelude Bytes Crc Sidecar ProbTxn Cms TopK.

(** ** The order of entries *)

Definition prec (a b : V2HeapEntry) : Prop := entry_precedes a b = true.

Lemma prec_iff a b : prec a b <-> he_count a < he_count b \/ (he_count a = he_count b /\ bytes_lt (he_element a) (he_element b)).
Proof.
  unfold prec, entry_precedes. rewrite orb_true_iff, andb_true_iff, Z.ltb_lt, Z.eqb_eq. destruct (bytes_ltb_spec (he_element a) (he_element b)); intuition congruence.
Qed.

Lemma prec_irrefl a : ~ prec a a.
Proof. rewrite prec_iff. intros [?|[_ ?]]; [lia|by apply bytes_lt_irrefl in H]. Qed.
Lemma prec_trans a b c : prec a b -> prec b c -> prec a c.
Proof. rewrite !prec_iff. intros [?|[? ?]] [?|[? ?]]; [left; lia..|]. right. split; [lia|by eapply bytes_lt_trans]. Qed.
Lemma prec_asym a b : prec a b -> ~ prec b a.
Proof. intros H1 H2. by apply (prec_irrefl a), (prec_trans a b a). Qed.
Lemma nprec_trans a b c : ~ prec b a -> ~ prec c b -> ~ prec c a.
Proof.
  rewrite !prec_iff. intros H1 H2 [H|[H H']].
  - destruct (Z.lt_trichotomy (he_count b) (he_count a)) as [?|[?|?]]; [tauto| |apply H2; lia]. apply H2. left. lia.
  - destruct (Z.lt_trichotomy (he_count b) (he_count a)) as [?|[E|?]]; [tauto| |apply H2; lia].
    destruct (bytes_lt_trichotomy (he_element b) (he_element a)) as [?|[E'|?]]; [apply H1; by right|apply H2; right; split; [lia|by rewrite E']|].
    apply H2. right. split; [lia|by eapply bytes_lt_trans].
Qed.
Lemma prec_nprec_trans a b c : prec a b -> ~ prec c b -> ~ prec c a.
Proof. intros H1 H2. apply (nprec_trans a b c); [by apply prec_asym|done]. Qed.
Lemma prec_nprec a b : prec a b \/ ~ prec a b.
Proof. unfold prec. destruct (entry_precedes a b); [by left|by right]. Qed.
Lemma precedes_false a b : entry_precedes a b = false <-> ~ prec a b.
Proof. unfold prec. by destruct (entry_precedes a b). Qed.

Definition parent (i : nat) : nat := ((i - 1) / 2)%nat.
Lemma parent_lt i : (0 < i -> parent i < i)%nat.
Proof. intros H. unfold parent. apply Nat.Div0.div_lt_upper_bound. lia. Qed.
Lemma parent_child i j : (0 < j -> parent j = i <-> j = i * 2 + 1 \/ j = i * 2 + 1 + 1)%nat.
Proof. intros H. unfold parent. pose proof (Nat.div_mod_eq (j - 1) 2). pose proof (Nat.mod_upper_bound (j - 1) 2). lia. Qed.

(** ** The index *)

(** Each element stands at the position the index gives, and only there. *)
Definition indexed (h : V2IndexedHeap) : Prop :=
  forall x i, positions h !! x = Some i <-> exists e, entries h !! i = Some e /\ he_element e = x.

(** The entries as a map. *)
Definition holds_map (es : list V2HeapEntry) (M : gmap bytes Z) : Prop := forall x c, M !! x = Some c <-> exists i, es !! i = Some (mkV2HeapEntry x c).

Lemma indexed_inj h i j a b : indexed h -> entries h !! i = Some a -> entries h !! j = Some b -> he_element a = he_element b -> i = j.
Proof.
  intros Hi Ha Hb E. assert (positions h !! he_element a = Some i) as H1 by (apply Hi; eauto). assert (positions h !! he_element a = Some j) as H2 by (apply Hi; eauto). congruence.
Qed.

Lemma lookup_swapped {A : Type} (l : list A) i j a b p : (i < length l)%nat -> (j < length l)%nat -> i <> j ->
  <[i := b]> (<[j := a]> l) !! p = if decide (p = i) then Some b else if decide (p = j) then Some a else l !! p.
Proof.
  intros Hi Hj Hne. destruct (decide (p = i)) as [->|]; [apply list_lookup_insert_eq; rewrite length_insert; lia|]. rewrite list_lookup_insert_ne by done.
  destruct (decide (p = j)) as [->|]; [by apply list_lookup_insert_eq|by rewrite list_lookup_insert_ne].
Qed.

Definition swapped (es : list V2HeapEntry) (i j : nat) (a b : V2HeapEntry) : list V2HeapEntry := <[i := b]> (<[j := a]> es).

Lemma swap_ok h i j a b : indexed h -> i <> j -> entries h !! i = Some a -> entries h !! j = Some b ->
  exists h', swap h i j = Ok h' /\ indexed h' /\ entries h' = swapped (entries h) i j a b /\ capacity h' = capacity h.
Proof.
  intros Hi Hne Ha Hb. pose proof (lookup_lt_Some _ _ _ Ha) as Hli. pose proof (lookup_lt_Some _ _ _ Hb) as Hlj. unfold swap, entry_at. rewrite (proj2 (Nat.eqb_neq _ _) Hne), Ha, Hb. cbn [unwrap rbind].
  assert (positions h !! he_element a = Some i) as Pa by (apply Hi; eauto). assert (positions h !! he_element b = Some j) as Pb by (apply Hi; eauto).
  assert (he_element b <> he_element a) as Hne' by (intros E; apply Hne; by eapply indexed_inj). rewrite Pb. cbn [unwrap rbind]. rewrite lookup_insert_ne by done. rewrite Pa. cbn [unwrap rbind].
  eexists. split; [done|]. split; [|done]. intros x p. cbn [positions entries]. rewrite lookup_swapped by done.
  destruct (decide (x = he_element a)) as [->|Hxa]; [rewrite lookup_insert_eq|rewrite lookup_insert_ne by done; destruct (decide (x = he_element b)) as [->|Hxb]; [rewrite lookup_insert_eq|rewrite lookup_insert_ne by done; rewrite (Hi x p)]].
  - split; [intros [= <-]; exists a; rewrite decide_False, decide_True by done; done|]. intros (e & He & E). destruct (decide (p = i)); [congruence|]. destruct (decide (p = j)); [by subst|]. exfalso. assert (p = i) by by eapply indexed_inj. done.
  - split; [intros [= <-]; exists b; rewrite decide_True by done; done|]. intros (e & He & E). destruct (decide (p = i)); [by subst|]. destruct (decide (p = j)); [congruence|]. exfalso. assert (p = j) by by eapply indexed_inj. done.
  - split; intros (e & He & E).
    + exists e. destruct (decide (p = i)); [congruence|]. destruct (decide (p = j)); [congruence|]. done.
    + destruct (decide (p = i)); [congruence|]. destruct (decide (p = j)); [congruence|]. by exists e.
Qed.

Lemma swapped_map es i j a b M : i <> j -> es !! i = Some a -> es !! j = Some b -> holds_map (swapped es i j a b) M <-> holds_map es M.
Proof.
  intros Hne Ha Hb. pose proof (lookup_lt_Some _ _ _ Ha) as Hli. pose proof (lookup_lt_Some _ _ _ Hb) as Hlj.
  assert (forall e, (exists p, swapped es i j a b !! p = Some e) <-> exists p, es !! p = Some e) as H.
  { intros e. split; intros [p Hp].
    - unfold swapped in Hp. rewrite lookup_swapped in Hp by done. destruct (decide (p = i)) as [->|]; [injection Hp as <-; eauto|]. destruct (decide (p = j)) as [->|]; [injection Hp as <-; eauto|eauto].
    - destruct (decide (p = i)) as [->|]; [exists j|destruct (decide (p = j)) as [->|]; [exists i|exists p]]; unfold swapped; rewrite lookup_swapped by done; repeat case_decide; congruence. }
  unfold holds_map. by setoid_rewrite H.
Qed.

(** ** Heap order *)

(** The entries below parents at or after [lo] are in order, except below [skip]. *)
Definition ordered_but (es : list V2HeapEntry) (lo : nat) (skip : nat -> Prop) : Prop :=
  forall j a b, (0 < j)%nat -> (lo <= parent j)%nat -> ~ skip j -> es !! j = Some a -> es !! parent j = Some b -> ~ prec a b.
Definition ordered (es : list V2HeapEntry) : Prop := ordered_but es 0 (fun _ => False).

(** The entry at [i] may precede its parent; those below it do not precede its parent. *)
Definition up_ok (es : list V2HeapEntry) (i : nat) : Prop :=
  ordered_but es 0 (fun j => j = i) /\
  forall j a b, (0 < j)%nat -> (0 < i)%nat -> parent j = i -> es !! j = Some a -> es !! parent i = Some b -> ~ prec a b.

(** The entries below [i] may precede it; they do not precede its parent. *)
Definition down_ok (es : list V2HeapEntry) (lo i : nat) : Prop :=
  ordered_but es lo (fun j => parent j = i) /\
  forall j a b, (0 < j)%nat -> (0 < i)%nat -> (lo <= parent i)%nat -> parent j = i -> es !! j = Some a -> es !! parent i = Some b -> ~ prec a b.

(** What a sift leaves alone. *)
Definition same_contents (h h' : V2IndexedHeap) : Prop :=
  indexed h' /\ capacity h' = capacity h /\ length (entries h') = length (entries h) /\ forall M, holds_map (entries h') M <-> holds_map (entries h) M.

Lemma same_contents_refl h : indexed h -> same_contents h h.
Proof. by intros H. Qed.
Lemma same_contents_trans h1 h2 h3 : same_contents h1 h2 -> same_contents h2 h3 -> same_contents h1 h3.
Proof. intros (_ & H2 & H3 & H4) (H5 & H6 & H7 & H8). split; [done|]. split; [congruence|]. split; [congruence|]. intros M. by rewrite H8, H4. Qed.

Lemma swap_contents h i j a b : indexed h -> i <> j -> entries h !! i = Some a -> entries h !! j = Some b ->
  exists h', swap h i j = Ok h' /\ same_contents h h' /\ entries h' = swapped (entries h) i j a b.
Proof.
  intros Hi Hne Ha Hb. destruct (swap_ok h i j a b Hi Hne Ha Hb) as (h' & E & Hi' & Ee & Ec). exists h'. split; [done|]. split; [|done]. split; [done|]. split; [done|]. rewrite Ee.
  split; [unfold swapped; by rewrite !length_insert|]. intros M. by apply swapped_map.
Qed.

(** The new entries, seen from the old ones. *)
Lemma swapped_inv es i j a b p e : i <> j -> es !! i = Some a -> es !! j = Some b -> swapped es i j a b !! p = Some e ->
  (p = i /\ e = b) \/ (p = j /\ e = a) \/ (p <> i /\ p <> j /\ es !! p = Some e).
Proof.
  intros Hne Ha Hb. pose proof (lookup_lt_Some _ _ _ Ha) as Hli. pose proof (lookup_lt_Some _ _ _ Hb) as Hlj. unfold swapped. rewrite lookup_swapped by done.
  repeat case_decide; [intros [= <-]; auto..|auto].
Qed.

Lemma up_step es i a p : (0 < i)%nat -> up_ok es i -> es !! i = Some a -> es !! parent i = Some p -> prec a p -> up_ok (swapped es i (parent i) a p) (parent i).
Proof.
  intros H0 [Ho Hg] Ha Hp Hlt. pose proof (parent_lt i H0) as Hpi. assert (i <> parent i) as Hne by lia. split.
  - intros j x y Hj _ Hjp Hx Hy. pose proof (parent_lt j Hj) as Hpj. apply (swapped_inv es i (parent i) a p j x Hne Ha Hp) in Hx as [[-> ->]|[[-> _]|(Hj1 & Hj2 & Hx)]]; [| done |].
    + apply (swapped_inv es i (parent i) a p (parent i) y Hne Ha Hp) in Hy as [[? _]|[[_ ->]|(_ & ? & _)]]; [lia|by apply prec_asym|done].
    + apply (swapped_inv es i (parent i) a p (parent j) y Hne Ha Hp) in Hy as [[Ej ->]|[[Ej ->]|(Hq1 & Hq2 & Hy)]].
      * by apply (Hg j x p Hj H0 Ej).
      * apply (prec_nprec_trans a p x Hlt). apply (Ho j x p); [done|lia|done|done|by rewrite Ej].
      * apply (Ho j x y); [done|lia|done|done|done].
  - intros j x y Hj Hpp Ejp Hx Hy. pose proof (parent_lt (parent i) Hpp) as Hpp'. pose proof (parent_lt j Hj) as Hpj.
    apply (swapped_inv es i (parent i) a p (parent (parent i)) y Hne Ha Hp) in Hy as [[? _]|[[? _]|(_ & _ & Hy)]]; [lia..|].
    assert (~ prec p y) as Hpy by (apply (Ho (parent i) p y); [done|lia|done|done|done]).
    apply (swapped_inv es i (parent i) a p j x Hne Ha Hp) in Hx as [[-> ->]|[[-> _]|(Hj1 & Hj2 & Hx)]]; [done|lia|].
    apply (nprec_trans y p x Hpy). apply (Ho j x p); [done|lia|done|done|by rewrite Ejp].
Qed.

Lemma sift_up_ok fuel : forall h i, indexed h -> (i < length (entries h))%nat -> (i < fuel)%nat -> up_ok (entries h) i ->
  exists h', sift_up_loop fuel h i = Ok h' /\ same_contents h h' /\ ordered (entries h').
Proof.
  induction fuel as [|fuel IH]; intros h i Hi Hl Hf Hup; [lia|]. cbn [sift_up_loop]. destruct (Nat.eqb_spec i 0) as [->|H0].
  { exists h. split; [done|]. split; [done|]. intros j a b Hj _ _. apply (proj1 Hup); [done|lia|lia]. }
  pose proof (parent_lt i ltac:(lia)) as Hp. destruct (lookup_lt_is_Some_2 (entries h) i Hl) as [a Ha]. destruct (lookup_lt_is_Some_2 (entries h) (parent i) ltac:(lia)) as [p Hpe].
  unfold entry_at. change ((i - 1) / 2)%nat with (parent i). rewrite Ha, Hpe. cbn [unwrap rbind]. destruct (entry_precedes a p) eqn:E; cbn [negb].
  - destruct (swap_contents h i (parent i) a p Hi ltac:(lia) Ha Hpe) as (h1 & E1 & Hs1 & Ee). rewrite E1. cbn [rbind]. pose proof Hs1 as (Hi1 & _ & Hl1 & _).
    destruct (IH h1 (parent i) Hi1 ltac:(lia) ltac:(lia)) as (h' & E' & Hs' & Ho'); [rewrite Ee; apply up_step; [lia|done..]|]. exists h'. split; [done|]. split; [by eapply same_contents_trans|done].
  - exists h. split; [done|]. split; [done|]. intros j x y Hj _ _ Hx Hy. destruct (decide (j = i)) as [->|Hne]; [|apply (proj1 Hup j x y); [done|lia|done..]].
    apply precedes_false. congruence.
Qed.

Lemma down_step es lo i c e x : (lo <= i)%nat -> down_ok es lo i -> (0 < c)%nat -> parent c = i -> es !! c = Some x -> es !! i = Some e -> prec x e ->
  (forall j y, (0 < j)%nat -> parent j = i -> es !! j = Some y -> ~ prec y x) -> down_ok (swapped es i c e x) lo c.
Proof.
  intros Hlo [Ho Hg] Hc Ec Hx He Hlt Hmin. pose proof (parent_lt c Hc) as Hic. assert (i <> c) as Hne by lia. split.
  - intros j y z Hj Hjlo Hjc Hy Hz. pose proof (parent_lt j Hj) as Hpj. apply (swapped_inv es i c e x j y Hne He Hx) in Hy as [[-> ->]|[[-> ->]|(Hj1 & Hj2 & Hy)]].
    + apply (swapped_inv es i c e x (parent i) z Hne He Hx) in Hz as [[? _]|[[? _]|(_ & _ & Hz)]]; [lia..|]. apply (Hg c x z); [done|lia|done|done|done|done].
    + rewrite Ec in Hz. apply (swapped_inv es i c e x i z Hne He Hx) in Hz as [[_ ->]|[[? _]|(? & _ & _)]]; [by apply prec_asym|lia|done].
    + apply (swapped_inv es i c e x (parent j) z Hne He Hx) in Hz as [[Ej ->]|[[? _]|(Hq1 & Hq2 & Hz)]]; [by apply (Hmin j y)|done|]. by apply (Ho j y z).
  - intros j y z Hj _ Hclo Ejc Hy Hz. pose proof (parent_lt j Hj) as Hpj. rewrite Ec in Hz. apply (swapped_inv es i c e x i z Hne He Hx) in Hz as [[_ ->]|[[? _]|(? & _ & _)]]; [|lia|done].
    apply (swapped_inv es i c e x j y Hne He Hx) in Hy as [[-> _]|[[-> _]|(Hj1 & Hj2 & Hy)]]; [lia..|]. apply (Ho j y x); [done|lia|lia|done|by rewrite Ejc].
Qed.

(** The smaller child, and that neither child precedes it. *)
Lemma smaller_child h i l : entries h !! (i * 2 + 1)%nat = Some l ->
  exists c x, (if (i * 2 + 1 + 1 <? length (entries h))%nat then let? r := entry_at h (i * 2 + 1 + 1) in Ok (entry_precedes r l) else Ok false) = Ok (c =? i * 2 + 1 + 1)%nat /\
    (c = i * 2 + 1 \/ c = i * 2 + 1 + 1)%nat /\ entries h !! c = Some x /\ forall j y, (0 < j)%nat -> parent j = i -> entries h !! j = Some y -> ~ prec y x.
Proof.
  intros Hl. destruct (Nat.ltb_spec (i * 2 + 1 + 1) (length (entries h))) as [Hr|Hr].
  - destruct (lookup_lt_is_Some_2 _ _ Hr) as [r Er]. unfold entry_at. rewrite Er. cbn [unwrap rbind]. destruct (entry_precedes r l) eqn:E.
    + exists (i * 2 + 1 + 1)%nat, r. rewrite Nat.eqb_refl. split; [done|]. split; [by right|]. split; [done|]. intros j y Hj [->| ->]%parent_child Hy; [| |done].
      * assert (y = l) as -> by congruence. by apply prec_asym.
      * assert (y = r) as -> by congruence. apply prec_irrefl.
    + exists (i * 2 + 1)%nat, l. rewrite (proj2 (Nat.eqb_neq _ _)) by lia. split; [done|]. split; [by left|]. split; [done|]. intros j y Hj [->| ->]%parent_child Hy; [| |done].
      * assert (y = l) as -> by congruence. apply prec_irrefl.
      * assert (y = r) as -> by congruence. by apply precedes_false.
  - exists (i * 2 + 1)%nat, l. rewrite (proj2 (Nat.eqb_neq _ _)) by lia. split; [done|]. split; [by left|]. split; [done|]. intros j y Hj [->| ->]%parent_child Hy; [| |done].
    + assert (y = l) as -> by congruence. apply prec_irrefl.
    + apply lookup_lt_Some in Hy. lia.
Qed.

Lemma sift_down_ok lo fuel : forall h i, indexed h -> (lo <= i)%nat -> (length (entries h) <= i + fuel)%nat -> (i < length (entries h))%nat -> down_ok (entries h) lo i ->
  exists h', sift_down_loop fuel h i = Ok h' /\ same_contents h h' /\ ordered_but (entries h') lo (fun _ => False).
Proof.
  induction fuel as [|fuel IH]; intros h i Hi Hlo Hf Hl Hd; [lia|]. cbn [sift_down_loop]. cbv zeta. destruct (Nat.leb_spec (length (entries h)) (i * 2 + 1)) as [Hn|Hn].
  { exists h. split; [done|]. split; [done|]. intros j a b Hj Hjlo _ Ha Hb. apply (proj1 Hd j a b Hj Hjlo); [|done|done]. intros E%parent_child; [|done]. apply lookup_lt_Some in Ha. lia. }
  destruct (lookup_lt_is_Some_2 _ _ Hn) as [l El]. unfold entry_at at 1. rewrite El. cbn [unwrap rbind]. destruct (smaller_child h i l El) as (c & x & E1 & Hc & Ex & Hmin). rewrite E1. cbn [rbind].
  replace (if (c =? i * 2 + 1 + 1)%nat then (i * 2 + 1 + 1)%nat else (i * 2 + 1)%nat) with c by (destruct (Nat.eqb_spec c (i * 2 + 1 + 1)); lia).
  unfold entry_at. rewrite Ex. cbn [unwrap rbind]. destruct (lookup_lt_is_Some_2 _ _ Hl) as [e Ee]. rewrite Ee. cbn [unwrap rbind]. assert (parent c = i) as Ec by (apply parent_child; [lia|done]).
  destruct (entry_precedes x e) eqn:E; cbn [negb].
  - destruct (swap_contents h i c e x Hi ltac:(lia) Ee Ex) as (h1 & E2 & Hs1 & Ees). rewrite E2. cbn [rbind]. pose proof Hs1 as (Hi1 & _ & Hl1 & _). pose proof (lookup_lt_Some _ _ _ Ex) as Hcl.
    destruct (IH h1 c Hi1 ltac:(lia) ltac:(lia) ltac:(lia)) as (h' & E' & Hs' & Ho'); [rewrite Ees; apply down_step; [done|done|lia|done..]|]. exists h'. split; [done|]. split; [by eapply same_contents_trans|done].
  - exists h. split; [done|]. split; [done|]. intros j a b Hj Hjlo _ Ha Hb. destruct (decide (parent j = i)) as [Ej|Hne]; [|by apply (proj1 Hd j a b)].
    assert (b = e) as -> by congruence. apply (nprec_trans e x a); [by apply precedes_false|by apply (Hmin j)].
Qed.

(** No entry precedes the root. *)
Lemma root_least es r : ordered es -> es !! 0%nat = Some r -> forall j a, es !! j = Some a -> ~ prec a r.
Proof.
  intros Ho Hr j. induction j as [j IH] using lt_wf_ind. intros a Ha. destruct (decide (j = 0%nat)) as [->|H0]; [assert (a = r) as -> by congruence; apply prec_irrefl|].
  pose proof (parent_lt j ltac:(lia)) as Hp. pose proof (lookup_lt_Some _ _ _ Ha). destruct (lookup_lt_is_Some_2 es (parent j) ltac:(lia)) as [p Ep].
  apply (nprec_trans r p a); [by apply (IH (parent j))|]. apply (Ho j a p); [lia|lia|tauto|done|done].
Qed.

(** ** Heaps of maps *)

Record heap_of (h : V2IndexedHeap) (k : Z) (M : gmap bytes Z) : Prop := {
  ho_indexed : indexed h;
  ho_ordered : ordered (entries h);
  ho_map : holds_map (entries h) M;
  ho_capacity : capacity h = k;
  ho_len : len (entries h) <= k;
}.

(** The least entry of a map, by count and element. *)
Definition least (M : gmap bytes Z) (y : bytes) (c : Z) : Prop :=
  M !! y = Some c /\ forall z d, M !! z = Some d -> c < d \/ (c = d /\ bytes_le y z).

(** What an addition does to the map, and the element that leaves it. *)
Inductive track (k : Z) (M : gmap bytes Z) (x : bytes) (est : Z) : gmap bytes Z -> option bytes -> Prop :=
  | TrackUpdate c : M !! x = Some c -> track k M x est (<[x := est]> M) None
  | TrackRoom : M !! x = None -> Z.of_nat (size M) < k -> track k M x est (<[x := est]> M) None
  | TrackRefuse y c : M !! x = None -> Z.of_nat (size M) = k -> least M y c -> est <= c -> track k M x est M None
  | TrackEvict y c : M !! x = None -> Z.of_nat (size M) = k -> least M y c -> c < est -> track k M x est (<[x := est]> (delete y M)) (Some y).

Lemma he_eta e : mkV2HeapEntry (he_element e) (he_count e) = e.
Proof. by destruct e. Qed.

(** The index makes the elements of a heap distinct. *)
Lemma indexed_NoDup h : indexed h -> NoDup (map he_element (entries h)).
Proof.
  intros Hi. apply NoDup_alt. intros i j x Hx Hy. apply list_lookup_fmap_Some in Hx as (a & -> & Ha). apply list_lookup_fmap_Some in Hy as (b & E & Hb). by eapply (indexed_inj h i j a b).
Qed.

Lemma holds_map_size es M : NoDup (map he_element es) -> holds_map es M -> size M = length es.
Proof.
  intros Hn Hm. assert (M = list_to_map (map (fun e => (he_element e, he_count e)) es)) as ->.
  { apply map_eq. intros x. apply option_eq. intros c. rewrite (Hm x c). rewrite <- elem_of_list_to_map; [|rewrite <- list_fmap_compose; exact Hn].
    rewrite list_elem_of_fmap. split; [intros [i Hi]; exists (mkV2HeapEntry x c); split; [done|by eapply list_elem_of_lookup_2]|]. intros (e & [= -> ->] & He). apply list_elem_of_lookup in He as [i Hi]. exists i. by rewrite he_eta. }
  rewrite <- (length_map_to_list (list_to_map _)). rewrite map_to_list_to_map by (rewrite <- list_fmap_compose; exact Hn). by rewrite length_map.
Qed.

Lemma heap_size h k M : heap_of h k M -> Z.of_nat (size M) = len (entries h).
Proof. intros [Hi _ Hm _ _]. unfold len. by rewrite (holds_map_size (entries h) M (indexed_NoDup h Hi) Hm). Qed.

Lemma heap_lookup h k M x : heap_of h k M -> positions h !! x = None <-> M !! x = None.
Proof.
  intros [Hi _ Hm _ _]. split; intros H.
  - apply eq_None_not_Some. intros [c [i Hc]%Hm]. assert (positions h !! x = Some i) by (apply Hi; eauto). congruence.
  - apply eq_None_not_Some. intros [i (e & He & <-)%Hi]. assert (M !! he_element e = Some (he_count e)) by (apply Hm; exists i; by rewrite he_eta). congruence.
Qed.

Lemma heap_root h k M : heap_of h k M -> 0 < len (entries h) -> exists r, entries h !! 0%nat = Some r /\ least M (he_element r) (he_count r).
Proof.
  intros [Hi Ho Hm _ _] Hl. destruct (lookup_lt_is_Some_2 (entries h) 0) as [r Er]; [unfold len in Hl; lia|]. exists r. split; [done|]. split; [apply Hm; exists 0%nat; by rewrite he_eta|].
  intros z d [j Hj]%Hm. pose proof (root_least (entries h) r Ho Er j _ Hj) as H. rewrite prec_iff in H. cbn [he_count he_element] in H.
  destruct (Z.lt_trichotomy (he_count r) d) as [?|[E|?]]; [by left| |exfalso; apply H; by left]. right. split; [done|]. intros Hgt. apply H. right. split; [done|]. unfold bytes_lt. rewrite bytes_compare_antisym. by rewrite Hgt.
Qed.

(** A heap with one entry replaced. *)
Lemma replaced_map es i e x c M : es !! i = Some e -> NoDup (map he_element es) -> (forall j e', es !! j = Some e' -> he_element e' = x -> j = i) -> holds_map es M ->
  holds_map (<[i := mkV2HeapEntry x c]> es) (<[x := c]> (delete (he_element e) M)).
Proof.
  intros He Hn Hx Hm y d. pose proof (lookup_lt_Some _ _ _ He) as Hl. destruct (decide (y = x)) as [->|Hne].
  - rewrite lookup_insert_eq. split; [intros [= <-]; exists i; by apply list_lookup_insert_eq|]. intros [j Hj]. destruct (decide (j = i)) as [->|Hji]; [rewrite list_lookup_insert_eq in Hj by done; congruence|].
    rewrite list_lookup_insert_ne in Hj by done. exfalso. by apply Hji, (Hx j _ Hj).
  - rewrite lookup_insert_ne by done. destruct (decide (y = he_element e)) as [->|Hye].
    + rewrite lookup_delete_eq. split; [done|]. intros [j Hj]. destruct (decide (j = i)) as [->|Hji]; [rewrite list_lookup_insert_eq in Hj by done; congruence|]. rewrite list_lookup_insert_ne in Hj by done.
      exfalso. apply Hji. rewrite NoDup_alt in Hn. apply (Hn j i (he_element e)); apply list_lookup_fmap_Some; [exists (mkV2HeapEntry (he_element e) d)|exists e]; done.
    + rewrite lookup_delete_ne by done. rewrite (Hm y d). split; intros [j Hj]; exists j.
      * rewrite list_lookup_insert_ne; [done|]. intros ->. rewrite He in Hj. injection Hj as ->. by apply Hye.
      * destruct (decide (j = i)) as [->|Hji]; [rewrite list_lookup_insert_eq in Hj by done; congruence|by rewrite list_lookup_insert_ne in Hj].
Qed.

Lemma replaced_indexed (h : V2IndexedHeap) (i : nat) (e : V2HeapEntry) (x : bytes) (c : Z) (ps : gmap bytes nat) : indexed h -> entries h !! i = Some e ->
  (x = he_element e /\ ps = positions h) \/ (positions h !! x = None /\ ps = <[x := i]> (delete (he_element e) (positions h))) ->
  indexed (mkV2IndexedHeap (<[i := mkV2HeapEntry x c]> (entries h)) ps (capacity h)).
Proof.
  intros Hi He Hps y j. cbn [positions entries]. pose proof (lookup_lt_Some _ _ _ He) as Hl. assert (positions h !! he_element e = Some i) as Pe by (apply Hi; eauto). destruct Hps as [[-> ->]|[Px ->]].
  - rewrite (Hi y j). destruct (decide (j = i)) as [->|Hne]; [rewrite list_lookup_insert_eq, He by done|by rewrite list_lookup_insert_ne].
    split; intros (e' & [= <-] & <-); eexists; split; done.
  - destruct (decide (y = x)) as [->|Hyx].
    + rewrite lookup_insert_eq. split; [intros [= <-]; rewrite list_lookup_insert_eq by done; by eexists|]. intros (e' & He' & E). destruct (decide (j = i)) as [->|Hne]; [done|]. rewrite list_lookup_insert_ne in He' by done.
      assert (positions h !! x = Some j) by (apply Hi; eauto). congruence.
    + rewrite lookup_insert_ne by done. destruct (decide (y = he_element e)) as [->|Hye].
      * rewrite lookup_delete_eq. split; [done|]. intros (e' & He' & E). destruct (decide (j = i)) as [->|Hne]; [rewrite list_lookup_insert_eq in He' by done; by simplify_eq|]. rewrite list_lookup_insert_ne in He' by done.
        exfalso. apply Hne. by eapply (indexed_inj h j i e' e).
      * rewrite lookup_delete_ne by done. rewrite (Hi y j). split; intros (e' & He' & E); exists e'; (split; [|done]).
        -- rewrite list_lookup_insert_ne; [done|]. intros ->. congruence.
        -- destruct (decide (j = i)) as [->|Hne]; [rewrite list_lookup_insert_eq in He' by done; by simplify_eq|by rewrite list_lookup_insert_ne in He'].
Qed.

Lemma heap_of_contents h1 h2 k M : same_contents h1 h2 -> ordered (entries h2) -> holds_map (entries h1) M -> capacity h1 = k -> len (entries h1) <= k -> heap_of h2 k M.
Proof. intros (Hi & Hc & Hl & Hm) Ho HM Hk Hn. split; [done|done|by apply Hm|congruence|]. unfold len in *. lia. Qed.

(** An entry whose count changed. *)
Lemma recount_order es i e c : ordered es -> es !! i = Some e ->
  (c < he_count e -> up_ok (<[i := mkV2HeapEntry (he_element e) c]> es) i) /\ (he_count e < c -> down_ok (<[i := mkV2HeapEntry (he_element e) c]> es) 0 i).
Proof.
  intros Ho He. pose proof (lookup_lt_Some _ _ _ He) as Hl. set (e' := mkV2HeapEntry (he_element e) c).
  assert (forall j a, <[i := e']> es !! j = Some a -> (j = i /\ a = e') \/ (j <> i /\ es !! j = Some a)) as Hinv.
  { intros j a Ha. destruct (decide (j = i)) as [->|Hne]; [rewrite list_lookup_insert_eq in Ha by done; left; by simplify_eq|right; by rewrite list_lookup_insert_ne in Ha]. }
  assert (forall j a b, (0 < j)%nat -> es !! j = Some a -> es !! parent j = Some b -> ~ prec a b) as Hord by (intros j a b Hj Ha Hb; apply (Ho j a b); [done|lia|tauto|done|done]). split.
  - intros Hlt. assert (prec e' e) as Hp by (apply prec_iff; by left). split.
    + intros j a b Hj _ Hji [[-> _]|[_ Ha]]%Hinv [[Ej ->]|[_ Hb]]%Hinv; [done|done| |by apply (Hord j)]. apply (prec_nprec_trans e' e a Hp). apply (Hord j); [done|done|by rewrite Ej].
    + intros j a b Hj Hi0 Ej Ha Hb. pose proof (parent_lt j Hj). pose proof (parent_lt i Hi0). apply Hinv in Ha as [[-> _]|[_ Ha]]; [lia|]. apply Hinv in Hb as [[? _]|[_ Hb]]; [lia|].
      apply (nprec_trans b e a); [by apply (Hord i)|]. apply (Hord j); [done|done|by rewrite Ej].
  - intros Hlt. assert (prec e e') as Hp by (apply prec_iff; by left). split.
    + intros j a b Hj _ Hji [[-> ->]|[_ Ha]]%Hinv [[Ej ->]|[_ Hb]]%Hinv; [by pose proof (parent_lt i Hj); lia| |done|by apply (Hord j)]. intros H. apply (Hord i e b Hj He Hb). by apply (prec_trans e e' b).
    + intros j a b Hj Hi0 _ Ej Ha Hb. pose proof (parent_lt j Hj). pose proof (parent_lt i Hi0). apply Hinv in Ha as [[-> _]|[_ Ha]]; [lia|]. apply Hinv in Hb as [[? _]|[_ Hb]]; [lia|].
      apply (nprec_trans b e a); [by apply (Hord i)|]. apply (Hord j); [done|done|by rewrite Ej].
Qed.

Lemma appended_heap h k M x c : heap_of h k M -> M !! x = None -> len (entries h) < k ->
  let h1 := mkV2IndexedHeap (entries h ++ [mkV2HeapEntry x c]) (<[x := length (entries h)]> (positions h)) (capacity h) in
  indexed h1 /\ holds_map (entries h1) (<[x := c]> M) /\ up_ok (entries h1) (length (entries h)).
Proof.
  intros Hh Hx Hl. pose proof (proj2 (heap_lookup h k M x Hh) Hx) as Px. destruct Hh as [Hi Ho Hm Hc Hn]. set (n := length (entries h)). cbv zeta. cbn [entries].
  assert (forall j a, (entries h ++ [mkV2HeapEntry x c]) !! j = Some a <-> (j = n /\ a = mkV2HeapEntry x c) \/ entries h !! j = Some a) as Hinv.
  { intros j a. rewrite lookup_app_Some. fold n. rewrite list_lookup_singleton_Some. split.
    - intros [H|[Hj [Hj' <-]]]; [by right|]. left. split; [lia|done].
    - intros [[-> ->]|H]; [right|by left]. split; [lia|]. split; [lia|done]. }
  split; [|split].
  - intros y j. cbn [positions entries]. setoid_rewrite Hinv. destruct (decide (y = x)) as [->|Hne].
    + rewrite lookup_insert_eq. split; [intros [= <-]; exists (mkV2HeapEntry x c); auto|]. intros (e & [[-> ->]|He] & E); [done|]. assert (positions h !! x = Some j) by (apply Hi; eauto). congruence.
    + rewrite lookup_insert_ne by done. rewrite (Hi y j). split; [intros (e & He & E); eauto|]. intros (e & [[-> ->]|He] & E); [by subst|eauto].
  - intros y d. setoid_rewrite Hinv. destruct (decide (y = x)) as [->|Hne].
    + rewrite lookup_insert_eq. split; [intros [= <-]; exists n; by left|]. intros (j & [[_ [= ->]]|Hj]); [done|]. assert (M !! x = Some d) by (apply Hm; eauto). congruence.
    + rewrite lookup_insert_ne by done. rewrite (Hm y d). split; [intros [j Hj]; eauto|]. intros (j & [[_ [= ? ?]]|Hj]); [done|eauto].
  - split.
    + intros j a b Hj _ Hjn [[-> _]|Ha]%Hinv Hb; [done|]. pose proof (parent_lt j Hj). pose proof (lookup_lt_Some _ _ _ Ha). apply Hinv in Hb as [[? _]|Hb]; [unfold n in *; lia|]. apply (Ho j a b); [done|lia|tauto|done|done].
    + intros j a b Hj _ Ej [[-> _]|Ha]%Hinv _; [pose proof (parent_lt n Hj); lia|]. apply lookup_lt_Some in Ha. pose proof (parent_lt j Hj). unfold n in *. lia.
Qed.

(** An addition tracks the element, or refuses it, as on the map. *)
Lemma heap_add_ok h k M x est : 0 < k -> heap_of h k M -> exists h' ev M', heap_add h x est = Ok (h', ev) /\ heap_of h' k M' /\ track k M x est M' ev.
Proof.
  intros Hk Hh. pose proof Hh as [Hi Ho Hm Hc Hn]. pose proof (heap_size h k M Hh) as Hsz. unfold heap_add. destruct (positions h !! x) as [i|] eqn:Px.
  - pose proof Px as (e & He & Ex)%Hi. pose proof (lookup_lt_Some _ _ _ He) as Hl. unfold entry_at. rewrite He. cbn [unwrap rbind]. assert (M !! x = Some (he_count e)) as Mx by (apply Hm; exists i; rewrite <- Ex; by rewrite he_eta).
    set (h1 := mkV2IndexedHeap (<[i := mkV2HeapEntry (he_element e) est]> (entries h)) (positions h) (capacity h)). assert (indexed h1) as Hi1 by (apply (replaced_indexed h i e); [done|done|by left]).
    assert (holds_map (entries h1) (<[x := est]> M)) as Hm1.
    { rewrite <- (insert_delete_eq M x est). subst x. apply (replaced_map _ _ e); [done|by apply indexed_NoDup| |done]. intros j e' He' E. by eapply (indexed_inj h j i e' e). }
    assert (length (entries h1) = length (entries h)) as Hl1 by apply length_insert. assert (len (entries h1) <= k) as Hn1 by (unfold len in *; lia). destruct (recount_order (entries h) i e est Ho He) as [Hup Hdown].
    assert (exists h2, (if est <? he_count e then sift_up h1 i else if he_count e <? est then sift_down h1 i else Ok h1) = Ok h2 /\ heap_of h2 k (<[x := est]> M)) as (h2 & E2 & Hh2).
    { destruct (Z.ltb_spec est (he_count e)) as [H1|H1]; [|destruct (Z.ltb_spec (he_count e) est) as [H2|H2]].
      - destruct (sift_up_ok (S i) h1 i Hi1 ltac:(lia) ltac:(lia) (Hup H1)) as (h2 & E & Hs & Ho2). exists h2. split; [done|]. by apply (heap_of_contents h1).
      - destruct (sift_down_ok 0 (length (entries h1)) h1 i Hi1 ltac:(lia) ltac:(lia) ltac:(lia) (Hdown H2)) as (h2 & E & Hs & Ho2). exists h2. split; [done|]. by apply (heap_of_contents h1).
      - exists h1. split; [done|]. split; try done. assert (est = he_count e) as -> by lia. unfold h1. cbn [entries]. rewrite he_eta, list_insert_id by done. done. }
    rewrite E2. cbn [rbind]. exists h2, None, (<[x := est]> M). split; [done|]. split; [done|]. by apply (TrackUpdate _ _ _ _ (he_count e)).
  - pose proof (proj1 (heap_lookup h k M x Hh) Px) as Mx. rewrite Hc. destruct (Z.ltb_spec (len (entries h)) k) as [Hr|Hr].
    + destruct (appended_heap h k M x est Hh Mx Hr) as (Hi1 & Hm1 & Hup). cbv zeta in Hi1, Hm1, Hup. rewrite Hc in Hi1, Hm1, Hup. set (h1 := mkV2IndexedHeap (entries h ++ _) _ k) in *.
      assert (length (entries h1) = S (length (entries h))) as Hl1 by (unfold h1; cbn [entries]; rewrite length_app; cbn; lia).
      destruct (sift_up_ok (S (length (entries h))) h1 (length (entries h)) Hi1 ltac:(lia) ltac:(lia) Hup) as (h2 & E & Hs & Ho2). unfold sift_up. rewrite E. cbn [rbind]. exists h2, None, (<[x := est]> M). split; [done|].
      split; [apply (heap_of_contents h1); [done..|unfold len in *; lia]|]. apply TrackRoom; [done|lia].
    + destruct (heap_root h k M Hh ltac:(lia)) as (r & Er & Hleast). unfold entry_at. rewrite Er. cbn [unwrap rbind]. destruct (Z.leb_spec est (he_count r)) as [H1|H1].
      { exists h, None, M. split; [done|]. split; [done|]. apply (TrackRefuse _ _ _ _ (he_element r) (he_count r)); [done|lia|done|done]. }
      set (h1 := mkV2IndexedHeap _ _ k). assert (indexed h1) as Hi1 by (unfold h1; rewrite <- Hc; apply (replaced_indexed h 0 r); [done|done|by right]).
      assert (holds_map (entries h1) (<[x := est]> (delete (he_element r) M))) as Hm1.
      { apply (replaced_map _ _ r); [done|by apply indexed_NoDup| |done]. intros j e' He' E. assert (positions h !! x = Some j) by (apply Hi; eauto). congruence. }
      pose proof (lookup_lt_Some _ _ _ Er) as Hl0. assert (length (entries h1) = length (entries h)) as Hl1 by apply length_insert.
      assert (down_ok (entries h1) 0 0) as Hd.
      { split; [|intros; lia]. intros j a b Hj _ Hj0 Ha Hb. unfold h1 in Ha, Hb. cbn [entries] in Ha, Hb. rewrite list_lookup_insert_ne in Ha, Hb by lia. apply (Ho j a b); [done|lia|tauto|done|done]. }
      destruct (sift_down_ok 0 (length (entries h1)) h1 0 Hi1 ltac:(lia) ltac:(lia) ltac:(lia) Hd) as (h2 & E & Hs & Ho2). unfold sift_down. rewrite E. cbn [rbind].
      exists h2, (Some (he_element r)), (<[x := est]> (delete (he_element r) M)). split; [done|]. split; [apply (heap_of_contents h1); [done..|unfold len in *; lia]|]. apply (TrackEvict _ _ _ _ (he_element r) (he_count r)); [done|lia|done|lia].
Qed.

(** ** Building the heap *)

Lemma index_entries_ok es : forall n (ps : gmap bytes nat), NoDup (map he_element es) -> (forall e, e ∈ es -> ps !! he_element e = None) ->
  exists ps', index_entries es n ps = Ok ps' /\ forall x i, ps' !! x = Some i <-> ps !! x = Some i \/ exists e j, es !! j = Some e /\ he_element e = x /\ i = (n + j)%nat.
Proof.
  induction es as [|e es IH]; intros n ps Hn Hf; cbn [index_entries].
  { exists ps. split; [done|]. intros x i. split; [by left|]. intros [?|(e & j & H & _)]; [done|]. by rewrite lookup_nil in H. }
  cbn [map] in Hn. apply NoDup_cons in Hn as [He Hn]. rewrite (Hf e) by apply list_elem_of_here.
  destruct (IH (S n) (<[he_element e := n]> ps) Hn) as (ps' & E & Hps).
  { intros e' He'. rewrite lookup_insert_ne; [apply Hf; by right|]. intros E. apply He. rewrite E. by apply list_elem_of_fmap_2. }
  exists ps'. split; [done|]. intros x i. rewrite Hps. split.
  - intros [H|(e' & j & Hj & Ex & ->)].
    + destruct (decide (x = he_element e)) as [->|Hne]; [rewrite lookup_insert_eq in H; injection H as <-; right; exists e, 0%nat; split; [done|]; split; [done|lia]|]. rewrite lookup_insert_ne in H by done. by left.
    + right. exists e', (S j). split; [done|]. split; [done|lia].
  - intros [H|(e' & [|j] & Hj & Ex & ->)].
    + left. rewrite lookup_insert_ne; [done|]. intros <-. rewrite Hf in H by apply list_elem_of_here. done.
    + injection Hj as <-. left. rewrite Ex, lookup_insert_eq. f_equal. lia.
    + right. exists e', j. split; [done|]. split; [done|lia].
Qed.

Lemma heapify_ok n : forall h, indexed h -> (n <= length (entries h))%nat -> ordered_but (entries h) n (fun _ => False) ->
  exists h', heapify n h = Ok h' /\ same_contents h h' /\ ordered (entries h').
Proof.
  induction n as [|n IH]; intros h Hi Hn Ho; cbn [heapify]; [by exists h|]. unfold sift_down.
  assert (down_ok (entries h) n n) as Hd.
  { split; [intros j a b Hj Hjn Hne Ha Hb; apply (Ho j a b); [done|lia|tauto|done|done]|]. intros j a b Hj Hn0 Hp _. pose proof (parent_lt n Hn0). lia. }
  destruct (sift_down_ok n (length (entries h)) h n Hi ltac:(lia) ltac:(lia) ltac:(lia) Hd) as (h1 & E1 & Hs1 & Ho1). rewrite E1. cbn [rbind]. pose proof Hs1 as (Hi1 & _ & Hl1 & _).
  destruct (IH h1 Hi1 ltac:(lia) Ho1) as (h2 & E2 & Hs2 & Ho2). exists h2. split; [done|]. split; [by eapply same_contents_trans|done].
Qed.

Lemma heap_new_ok es k M : NoDup (map he_element es) -> len es <= k -> holds_map es M -> exists h, heap_new es k = Ok h /\ heap_of h k M.
Proof.
  intros Hn Hl Hm. unfold heap_new. rewrite (proj2 (Z.ltb_ge _ _)) by lia. destruct (index_entries_ok es 0 ∅ Hn) as (ps & E & Hps); [intros; apply lookup_empty|]. rewrite E. cbn [rbind].
  set (h := mkV2IndexedHeap es ps k). assert (indexed h) as Hi.
  { intros x i. unfold h. cbn [positions entries]. rewrite Hps, lookup_empty. split; [intros [?|(e & j & Hj & Ex & ->)]; [done|by exists e]|]. intros (e & He & Ex). right. by exists e, i. }
  pose proof (Nat.div_mod_eq (length es) 2). pose proof (Nat.mod_upper_bound (length es) 2 ltac:(lia)).
  destruct (heapify_ok (length es / 2) h Hi) as (h' & E' & Hs & Ho); [unfold h; cbn [entries]; lia| |].
  - intros j a b Hj Hp _ Ha _. unfold h in Ha. cbn [entries] in Ha. apply lookup_lt_Some in Ha. pose proof (parent_child (parent j) j Hj) as [Hc _]. specialize (Hc eq_refl). lia.
  - exists h'. split; [done|]. by apply (heap_of_contents h).
Qed.
