(* ===== verification/TopKProof.v ===== *)
(** * Counters and files of a top-k list

    The counters hold, for every cell, the sum of the increments that fall on it; estimates
    are the least sums.  A file is read as its counters and the entries of its heap, and a
    mutation stages exactly the counters and entries of the updated state. *)

From Stdlib Require Import ZArith Lia.
From stdpp Require Import gmap strings sorting.
From S2P Require Import Prelude Bytes Crc Sidecar ProbTxn ProbTxnProof Cms CmsProof TopK TopKHeap.

(** ** Cells *)

Definition topk_column (w : Z) (x : bytes) (r : Z) : Z := add64 (fnv1a x 0x811c9dc5) (wrap64 (r * fnv1a x 0x050c5d1f)) mod w.
Definition history : Type := list (bytes * Z).
Definition total_of (H : history) : Z := foldr (fun p s => p.2 + s) 0 H.
Definition true_count (H : history) (x : bytes) : Z := foldr (fun p s => if bytes_eqb p.1 x then p.2 + s else s) 0 H.
Definition cell_total (w : Z) (H : history) (r col : Z) : Z := foldr (fun p s => if topk_column w p.1 r =? col then p.2 + s else s) 0 H.
Definition positive (H : history) : Prop := Forall (fun p => 0 < p.2) H.

Lemma counter_indices_eq w d x : counter_indices w d x = map (fun r => r * w + topk_column w x r) (seqZ 0 d).
Proof. done. Qed.
Lemma topk_column_range w x r : 0 < w -> 0 <= topk_column w x r < w.
Proof. intros H. by apply Z.mod_pos_bound. Qed.

Lemma cell_total_app w H1 H2 r col : cell_total w (H1 ++ H2) r col = cell_total w H1 r col + cell_total w H2 r col.
Proof. unfold cell_total. induction H1 as [|p H1 IH]; [done|]. cbn [app foldr]. rewrite IH. destruct (_ =? _); lia. Qed.
Lemma true_count_app H1 H2 x : true_count (H1 ++ H2) x = true_count H1 x + true_count H2 x.
Proof. unfold true_count. induction H1 as [|p H1 IH]; [done|]. cbn [app foldr]. rewrite IH. destruct (bytes_eqb _ _); lia. Qed.
Lemma total_of_app H1 H2 : total_of (H1 ++ H2) = total_of H1 + total_of H2.
Proof. unfold total_of. induction H1 as [|p H1 IH]; [done|]. cbn [app foldr]. rewrite IH. lia. Qed.

Lemma cell_total_bounds w H r col : positive H -> 0 <= cell_total w H r col <= total_of H.
Proof. induction 1 as [|p H Hp _ IH]; cbn [cell_total total_of foldr]; [lia|]. fold (cell_total w H r col) (total_of H). cbv beta in Hp. destruct (_ =? _); lia. Qed.
Lemma true_count_cell w H r x : positive H -> true_count H x <= cell_total w H r (topk_column w x r).
Proof.
  induction 1 as [|p H Hp _ IH]; cbn [cell_total true_count foldr]; [lia|]. fold (cell_total w H r (topk_column w x r)) (true_count H x). cbv beta in Hp. destruct (bytes_eqb_spec p.1 x) as [->|]; [rewrite Z.eqb_refl; lia|]. destruct (_ =? _); lia.
Qed.
Lemma true_count_absent H x : x ∉ H.*1 -> true_count H x = 0.
Proof.
  induction H as [|p H IH]; [done|]. intros Hx. cbn [fmap list_fmap] in Hx. apply not_elem_of_cons in Hx as [Hne Hx]. cbn [true_count foldr]. destruct (bytes_eqb_spec p.1 x) as [E|_]; [by subst|by apply IH].
Qed.

(** ** Estimates *)

Definition spec_estimate (w d : Z) (H : history) (x : bytes) : Z := foldl (fun m r => Z.min m (cell_total w H r (topk_column w x r))) i64_max (seqZ 0 d).

Lemma estimate_bounds w d H x : 0 < d -> positive H -> total_of H <= i64_max -> true_count H x <= spec_estimate w d H x <= total_of H.
Proof.
  intros Hd Hp Ht. destruct (foldl_min_bounds (fun r => cell_total w H r (topk_column w x r)) (seqZ 0 d) i64_max) as (_ & H2 & H3). split.
  - apply H3; [pose proof (true_count_cell w H 0 x Hp); pose proof (cell_total_bounds w H 0 (topk_column w x 0) Hp); lia|]. intros r _. by apply true_count_cell.
  - etrans; [apply (H2 0); apply elem_of_seqZ; lia|]. by apply cell_total_bounds.
Qed.

Lemma estimate_grows w d H1 H2 x : positive H2 -> spec_estimate w d H1 x <= spec_estimate w d (H1 ++ H2) x.
Proof.
  intros Hp. destruct (foldl_min_bounds (fun r => cell_total w H1 r (topk_column w x r)) (seqZ 0 d) i64_max) as (B1 & B2 & _).
  destruct (foldl_min_bounds (fun r => cell_total w (H1 ++ H2) r (topk_column w x r)) (seqZ 0 d) i64_max) as (_ & _ & B3). apply B3; [done|]. intros r Hr. etrans; [by apply B2|]. rewrite cell_total_app.
  pose proof (cell_total_bounds w H2 r (topk_column w x r) Hp). lia.
Qed.

(** ** Counters *)

Record counts (cs : list Z) (w d : Z) (H : history) : Prop := {
  co_len : len cs = w * d;
  co_cell : forall r col, 0 <= r < d -> 0 <= col < w -> cs !! Z.to_nat (r * w + col) = Some (cell_total w H r col);
}.

Lemma estimate_rows_ok cs w d H x : 0 < w -> counts cs w d H -> forall rows m, Forall (fun r => 0 <= r < d) rows ->
  estimate_rows cs (map (fun r => r * w + topk_column w x r) rows) m = Ok (foldl (fun m r => Z.min m (cell_total w H r (topk_column w x r))) m rows).
Proof.
  intros Hw Hc rows. induction rows as [|r rows IH]; intros m Hr; [done|]. apply Forall_cons in Hr as [Hr Hrs]. cbn [map estimate_rows foldl]. rewrite (co_cell _ _ _ _ Hc) by (done || by apply topk_column_range). cbn [unwrap rbind]. by apply IH.
Qed.
Lemma rows_range d : Forall (fun r => 0 <= r < d) (seqZ 0 d).
Proof. apply Forall_forall. intros r Hr. apply elem_of_seqZ in Hr. lia. Qed.
Lemma estimate_ok cs w d H x : 0 < w -> counts cs w d H -> v2_cms_estimate cs w d x = Ok (spec_estimate w d H x).
Proof. intros Hw Hc. unfold v2_cms_estimate. rewrite counter_indices_eq. apply (estimate_rows_ok cs w d H x Hw Hc). apply rows_range. Qed.

(** Writing one counter per row. *)
Lemma row_index_inj w r col r' col' : 0 < w -> 0 <= r -> 0 <= r' -> 0 <= col < w -> 0 <= col' < w -> Z.to_nat (r * w + col) = Z.to_nat (r' * w + col') -> r = r' /\ col = col'.
Proof. intros Hw Hr Hr' Hc Hc' E. assert (r * w + col = r' * w + col') as E' by nia. assert (r = r') as -> by nia. split; [done|lia]. Qed.

Lemma write_rows_lookup w d x (v : Z -> Z) rows : 0 < w -> NoDup rows -> Forall (fun r => 0 <= r < d) rows -> forall cs, len cs = w * d ->
  let cs' := foldl (fun cs '(idx, next) => <[Z.to_nat idx := next]> cs) cs (map (fun r => (r * w + topk_column w x r, v r)) rows) in
  len cs' = w * d /\ forall r col, 0 <= r < d -> 0 <= col < w -> cs' !! Z.to_nat (r * w + col) = if decide (r ∈ rows /\ col = topk_column w x r) then Some (v r) else cs !! Z.to_nat (r * w + col).
Proof.
  intros Hw. induction rows as [|r0 rows IH]; intros Hn Hr cs Hl; cbn [map foldl].
  { split; [done|]. intros r col _ _. rewrite decide_False; [done|]. intros [H _]. by apply elem_of_nil in H. }
  apply NoDup_cons in Hn as [Hr0 Hn]. apply Forall_cons in Hr as [Hr1 Hr]. pose proof (topk_column_range w x r0 Hw) as Hc0. set (cs1 := <[_ := v r0]> cs). assert (len cs1 = w * d) as Hl1 by (unfold cs1, len; rewrite length_insert; done).
  destruct (IH Hn Hr cs1 Hl1) as [H1 H2]. split; [done|]. intros r col Hrr Hcc. rewrite H2 by done. destruct (decide (r ∈ rows /\ col = topk_column w x r)) as [[Hin ->]|Hno].
  - rewrite decide_True; [done|]. split; [by right|done].
  - destruct (decide (r = r0 /\ col = topk_column w x r0)) as [[-> ->]|Hne].
    + rewrite decide_True by (split; [apply list_elem_of_here|done]). unfold cs1. apply list_lookup_insert_eq. unfold len in Hl. nia.
    + rewrite decide_False; [|intros [[->|Hin]%elem_of_cons ->]; [by apply Hne|by apply Hno]]. unfold cs1. apply list_lookup_insert_ne. intros E. apply Hne.
      destruct (row_index_inj w r0 (topk_column w x r0) r col Hw ltac:(lia) ltac:(lia) Hc0 Hcc E) as [-> ->]. done.
Qed.

(** ** Batches of updates *)

(** What [c] more of [x] means for the counters: its cell of every row grows by [c] and stays
    within 64 bits, no other cell changes, and the estimate is the least of those cells. *)
Definition cell_at (w : Z) (cs : list Z) (r col : Z) : Z := default 0 (cs !! Z.to_nat (r * w + col)).
Record incremented (w d : Z) (cs : list Z) (x : bytes) (c : Z) (cs' : list Z) (est : Z) : Prop := {
  in_len : len cs' = w * d;
  in_cell : forall r col, 0 <= r < d -> 0 <= col < w -> cell_at w cs' r col = cell_at w cs r col + if topk_column w x r =? col then c else 0;
  in_fits : forall r, 0 <= r < d -> i64_ok (cell_at w cs r (topk_column w x r) + c);
  in_est : est = foldl (fun m r => Z.min m (cell_at w cs' r (topk_column w x r))) i64_max (seqZ 0 d);
}.
(** A cell of [x] would leave 64 bits. *)
Definition cell_overflows (w d : Z) (cs : list Z) (x : bytes) (c : Z) : Prop := exists r, 0 <= r < d /\ ~ i64_ok (cell_at w cs r (topk_column w x r) + c).

Inductive updates_run (k w d : Z) : list Z -> gmap bytes Z -> list (bytes * Z) -> list Z -> gmap bytes Z -> list (option bytes) -> Prop :=
  | RunNil cs M : updates_run k w d cs M [] cs M []
  | RunCons cs M x c ups cs1 est M1 ev cs2 M2 evs : incremented w d cs x c cs1 est -> track k M x est M1 ev -> updates_run k w d cs1 M1 ups cs2 M2 evs ->
      updates_run k w d cs M ((x, c) :: ups) cs2 M2 (ev :: evs).

(** A batch that meets a counter that leaves 64 bits. *)
Inductive overflows (k w d : Z) : list Z -> gmap bytes Z -> list (bytes * Z) -> Prop :=
  | OverflowHere cs M x c ups : cell_overflows w d cs x c -> overflows k w d cs M ((x, c) :: ups)
  | OverflowLater cs M x c ups cs1 est M1 ev : incremented w d cs x c cs1 est -> track k M x est M1 ev -> overflows k w d cs1 M1 ups -> overflows k w d cs M ((x, c) :: ups).

Lemma cell_lookup w d cs r col : len cs = w * d -> 0 <= r < d -> 0 <= col < w -> cs !! Z.to_nat (r * w + col) = Some (cell_at w cs r col).
Proof. intros Hl Hr Hc. unfold cell_at. destruct (lookup_lt_is_Some_2 cs (Z.to_nat (r * w + col))) as [v ->]; [unfold len in Hl; nia|done]. Qed.

Lemma increment_rows_spec cs w d x c : 0 < w -> len cs = w * d -> forall rows m, Forall (fun r => 0 <= r < d) rows ->
  let run := increment_rows cs c (map (fun r => r * w + topk_column w x r) rows) m in
  (Forall (fun r => i64_ok (cell_at w cs r (topk_column w x r) + c)) rows /\
    run = Ok (map (fun r => (r * w + topk_column w x r, cell_at w cs r (topk_column w x r) + c)) rows, foldl (fun m r => Z.min m (cell_at w cs r (topk_column w x r) + c)) m rows)) \/
  exists e, run = Err e /\ exists r, r ∈ rows /\ ~ i64_ok (cell_at w cs r (topk_column w x r) + c).
Proof.
  intros Hw Hl rows. induction rows as [|r rows IH]; intros m Hr run; subst run; cbn [map increment_rows foldl]; [by left|]. apply Forall_cons in Hr as [Hr Hrs].
  rewrite (cell_lookup w d) by (done || by apply topk_column_range). cbn [unwrap rbind]. destruct (checked_i64 _) as [next|] eqn:E; cbn [ok_or rbind].
  - apply checked_i64_iff in E as [Hok ->]. destruct (IH (Z.min m (cell_at w cs r (topk_column w x r) + c)) Hrs) as [[Hf ->]|(e & -> & r' & Hin & Hno)]; cbn [rbind].
    + left. split; [by constructor|done].
    + right. exists e. split; [done|]. exists r'. split; [by right|done].
  - right. eexists. split; [done|]. exists r. split; [apply list_elem_of_here|]. intros Hok. by rewrite (proj2 (checked_i64_iff _ _) (conj Hok eq_refl)) in E.
Qed.

(** The code adds to the counters, or fails because a cell overflows. *)
Lemma increment_spec cs w d x c : 0 < w -> len cs = w * d ->
  (exists cs' est, v2_cms_increment cs w d x c = Ok (cs', est) /\ incremented w d cs x c cs' est) \/ (exists e, v2_cms_increment cs w d x c = Err e /\ cell_overflows w d cs x c).
Proof.
  intros Hw Hl. unfold v2_cms_increment. rewrite counter_indices_eq. destruct (increment_rows_spec cs w d x c Hw Hl (seqZ 0 d) i64_max (rows_range d)) as [[Hf ->]|(e & -> & r & Hin & Hno)]; cbn [rbind].
  2:{ right. exists e. split; [done|]. exists r. split; [|done]. apply elem_of_seqZ in Hin. lia. }
  left. eexists _, _. split; [done|]. destruct (write_rows_lookup w d x (fun r => cell_at w cs r (topk_column w x r) + c) (seqZ 0 d) Hw (NoDup_seqZ 0 d) (rows_range d) cs Hl) as [H1 H2]. set (cs' := foldl _ cs _) in *.
  assert (forall r col, 0 <= r < d -> 0 <= col < w -> cell_at w cs' r col = cell_at w cs r col + if topk_column w x r =? col then c else 0) as Hcell.
  { intros r col Hr Hc. unfold cell_at at 1. rewrite H2 by done. destruct (Z.eqb_spec (topk_column w x r) col) as [<-|Hne]; [by rewrite decide_True by (split; [apply elem_of_seqZ; lia|done])|].
    rewrite decide_False by (by intros [_ ->]). rewrite (cell_lookup w d) by done. cbn [default]. unfold id. lia. }
  split; [done|done| |].
  - intros r Hr. apply (proj1 (Forall_forall _ _) Hf r). apply elem_of_seqZ. lia.
  - assert (forall r, r ∈ seqZ 0 d -> cell_at w cs' r (topk_column w x r) = cell_at w cs r (topk_column w x r) + c) as Hr by (intros r Hr%elem_of_seqZ; rewrite Hcell, Z.eqb_refl by (lia || by apply topk_column_range); done).
    revert Hr. generalize (seqZ 0 d) as rows, i64_max as m. induction rows as [|r rows IH]; intros m Hr; [done|]. cbn [foldl]. rewrite (Hr r) by apply list_elem_of_here. apply IH. intros q Hq. apply Hr. by right.
Qed.

(** On counters that hold a history it is the history that grows. *)
Lemma incremented_counts cs w d H x c cs' est : 0 < w -> counts cs w d H -> incremented w d cs x c cs' est -> counts cs' w d (H ++ [(x, c)]) /\ est = spec_estimate w d (H ++ [(x, c)]) x.
Proof.
  intros Hw Hc [Hl Hcell _ ->]. assert (forall r col, 0 <= r < d -> 0 <= col < w -> cell_at w cs' r col = cell_total w (H ++ [(x, c)]) r col) as Ht.
  { intros r col Hr Hcol. rewrite Hcell by done. unfold cell_at. rewrite (co_cell _ _ _ _ Hc) by done. rewrite cell_total_app. cbn [default cell_total foldr fst snd]. unfold id. destruct (_ =? _); lia. }
  split; [split; [done|]; intros r col Hr Hcol; by rewrite (cell_lookup w d), Ht|]. unfold spec_estimate.
  assert (forall r, r ∈ seqZ 0 d -> cell_at w cs' r (topk_column w x r) = cell_total w (H ++ [(x, c)]) r (topk_column w x r)) as Hr by (intros r Hr%elem_of_seqZ; apply Ht; [lia|by apply topk_column_range]).
  revert Hr. generalize (seqZ 0 d) as rows, i64_max as m. induction rows as [|r rows IH]; intros m Hr; [done|]. cbn [foldl]. rewrite (Hr r) by apply list_elem_of_here. apply IH. intros q Hq. apply Hr. by right.
Qed.

Lemma counts_no_overflow cs w d H x c : 0 < w -> counts cs w d H -> 0 < c -> positive H -> total_of H + c <= i64_max -> ~ cell_overflows w d cs x c.
Proof.
  intros Hw Hc H0 Hp Ht (r & Hr & Hno). apply Hno. unfold cell_at. rewrite (co_cell _ _ _ _ Hc) by (done || by apply topk_column_range). cbn [default]. unfold id.
  pose proof (cell_total_bounds w H r (topk_column w x r) Hp). unfold i64_ok, i64_max in *. lia.
Qed.

(** The loop over the updates runs them on the counters and the map, or stops at an
    overflow. *)
Lemma apply_updates_run k w d ups : 0 < k -> 0 < w -> forall cs h M, heap_of h k M -> len cs = w * d ->
  (exists cs' h' evs M', apply_updates w d ups cs h = Ok (cs', h', evs) /\ heap_of h' k M' /\ updates_run k w d cs M ups cs' M' evs) \/
  (exists e, apply_updates w d ups cs h = Err e /\ overflows k w d cs M ups).
Proof.
  intros Hk Hw. induction ups as [|[x c] ups IH]; intros cs h M Hh Hl; cbn [apply_updates].
  { left. exists cs, h, [], M. split; [done|]. split; [done|]. constructor. }
  destruct (increment_spec cs w d x c Hw Hl) as [(cs1 & est & E & Hi)|(e & E & Ho)]; rewrite E; cbn [rbind]; [|right; exists e; split; [done|by constructor]]. pose proof (in_len _ _ _ _ _ _ _ Hi) as Hl1. destruct (heap_add_ok h k M x est Hk Hh) as (h1 & ev & M1 & E1 & Hh1 & Ht). rewrite E1. cbn [rbind].
  destruct (IH cs1 h1 M1 Hh1 Hl1) as [(cs2 & h2 & evs & M2 & E2 & Hh2 & Hr)|(e & E2 & Ho)]; rewrite E2.
  - left. cbn [rbind]. exists cs2, h2, (ev :: evs), M2. split; [done|]. split; [done|]. by econstructor.
  - right. exists e. split; [done|]. by eapply OverflowLater.
Qed.

(** Tracked and evicted elements are elements that were added. *)
Definition map_ok (M : gmap bytes Z) : Prop := forall y c, M !! y = Some c -> len y <= MAX_ELEMENT_LEN /\ i64_ok c.

Lemma track_map_ok k M x est M' ev : len x <= MAX_ELEMENT_LEN -> i64_ok est -> map_ok M -> track k M x est M' ev -> map_ok M' /\ forall y, ev = Some y -> len y <= MAX_ELEMENT_LEN.
Proof.
  intros Hx He HM. destruct 1 as [c Hc|Hn Hs|y c Hn Hs Hl Hle|y c Hn Hs [Hy _] Hlt].
  - split; [|done]. intros y d [[-> <-]|[_ Hy]]%lookup_insert_Some; [done|by apply HM].
  - split; [|done]. intros y d [[-> <-]|[_ Hy]]%lookup_insert_Some; [done|by apply HM].
  - done.
  - split; [|intros z [= <-]; by eapply HM]. intros z d [[-> <-]|[_ [_ Hz]%lookup_delete_Some]]%lookup_insert_Some; [done|by apply HM].
Qed.

(** Increments keep the counters within 64 bits. *)
Lemma cells_range w d cs : 0 < w -> len cs = w * d -> Forall i64_ok cs <-> forall r col, 0 <= r < d -> 0 <= col < w -> i64_ok (cell_at w cs r col).
Proof.
  intros Hw Hl. split; [intros H r col Hr Hc; eapply Forall_lookup_1; [exact H|by apply (cell_lookup w d)]|]. intros H. apply Forall_lookup. intros i v Hi. pose proof (lookup_lt_Some _ _ _ Hi) as Hlt. unfold len in Hl.
  specialize (H (Z.of_nat i / w) (Z.of_nat i mod w) ltac:(split; [apply Z.div_pos; lia|apply Z.div_lt_upper_bound; lia]) ltac:(apply Z.mod_pos_bound; lia)). revert H. unfold cell_at.
  replace (Z.to_nat (Z.of_nat i / w * w + Z.of_nat i mod w)) with i by (rewrite Z.mul_comm, <- Z.div_mod by lia; lia). by rewrite Hi.
Qed.
Lemma increment_range cs w d x c cs' est : 0 < w -> len cs = w * d -> Forall i64_ok cs -> incremented w d cs x c cs' est -> Forall i64_ok cs' /\ len cs' = len cs /\ i64_ok est.
Proof.
  intros Hw Hl Hc [Hl' Hcell Hfit ->]. rewrite (cells_range w d) in Hc by done. assert (forall r col, 0 <= r < d -> 0 <= col < w -> i64_ok (cell_at w cs' r col)) as Hc'.
  { intros r col Hr Hcol. rewrite Hcell by done. destruct (Z.eqb_spec (topk_column w x r) col) as [<-|_]; [by apply Hfit|]. rewrite Z.add_0_r. by apply Hc. }
  split; [by apply (cells_range w d)|]. split; [congruence|]. destruct (foldl_min_bounds (fun r => cell_at w cs' r (topk_column w x r)) (seqZ 0 d) i64_max) as (B1 & _ & B3).
  unfold i64_ok. split; [|done]. apply B3; [done|]. intros r Hr%elem_of_seqZ. apply Hc'; [lia|by apply topk_column_range].
Qed.

Lemma run_range k w d cs M ups cs' M' evs : 0 < w -> len cs = w * d -> updates_run k w d cs M ups cs' M' evs -> Forall (fun u => len u.1 <= MAX_ELEMENT_LEN) ups -> Forall i64_ok cs -> map_ok M ->
  Forall i64_ok cs' /\ len cs' = len cs /\ map_ok M' /\ len evs = len ups /\ Forall (fun ev => forall y, ev = Some y -> len y <= MAX_ELEMENT_LEN) evs.
Proof.
  intros Hw Hl. induction 1 as [|cs M x c ups cs1 est M1 ev cs2 M2 evs Ei Ht _ IH]; intros Hu Hc HM; [split; [done|]; split; [done|]; split; [done|]; split; [done|constructor]|]. apply Forall_cons in Hu as [Hx Hu]. apply increment_range in Ei as (Hc1 & Hl1 & He); [|done..]. apply track_map_ok in Ht as [HM1 Hev]; [|done..].
  destruct (IH ltac:(congruence) Hu Hc1 HM1) as (H1 & H2 & H3 & H4 & H5). split; [done|]. split; [congruence|]. split; [done|]. rewrite !len_cons. split; [lia|]. by constructor.
Qed.

(** ** Counters and entries as bytes *)

Lemma len_bind_fixed {A : Type} (f : A -> bytes) (l : list A) n : (forall a, a ∈ l -> len (f a) = n) -> len (l ≫= f) = len l * n.
Proof.
  induction l as [|a l IH]; intros H; [done|]. change ((a :: l) ≫= f) with (f a ++ (l ≫= f)). rewrite len_app, len_cons, (H a) by apply list_elem_of_here. rewrite IH; [lia|]. intros a' Ha. apply H. by right.
Qed.

Definition cms_bytes (cs : list Z) : bytes := cs ≫= le_bytes 8.
Lemma len_cms_bytes cs : len (cms_bytes cs) = len cs * 8.
Proof. apply len_bind_fixed. intros c _. by rewrite len_le_bytes. Qed.

Lemma chunk_values_bytes cs : Forall i64_ok cs -> chunk_values (length cs) (cms_bytes cs) = cs.
Proof.
  unfold cms_bytes. induction 1 as [|c cs Hc _ IH]; [done|]. cbn [length chunk_values]. change ((c :: cs) ≫= le_bytes 8) with (le_bytes 8 c ++ (cs ≫= le_bytes 8)). pose proof (len_le_bytes 8 c) as Hl. change (Z.of_nat 8) with 8 in Hl.
  rewrite ztake_app_le, ztake_ge by lia. rewrite zdrop_app_ge, zdrop_0 by lia. by rewrite i64_of_le, IH.
Qed.

Definition entry_ok (e : V2HeapEntry) : Prop := len (he_element e) <= MAX_ELEMENT_LEN /\ i64_ok (he_count e).
Definition entry_bytes (e : V2HeapEntry) : bytes :=
  le_bytes 8 (he_count e) ++ le_bytes 4 (len (he_element e)) ++ he_element e ++ replicate (Z.to_nat (MAX_ELEMENT_LEN - len (he_element e))) x00.
Definition entries_bytes (es : list V2HeapEntry) : bytes := es ≫= entry_bytes.

Lemma len_entry_bytes e : entry_ok e -> len (entry_bytes e) = HEAP_ENTRY_SIZE.
Proof. intros [He _]. unfold entry_bytes. rewrite !len_app, !len_le_bytes, len_replicate. unfold MAX_ELEMENT_LEN, HEAP_ENTRY_SIZE in *. pose proof (len_nonneg (he_element e)). lia. Qed.
Lemma len_entries_bytes es : Forall entry_ok es -> len (entries_bytes es) = len es * HEAP_ENTRY_SIZE.
Proof. intros H. apply len_bind_fixed. intros e He. apply len_entry_bytes. by apply (proj1 (Forall_forall entry_ok es) H). Qed.

Lemma encode_entries_ok es : Forall entry_ok es -> encode_entries es = Ok (entries_bytes es).
Proof.
  induction 1 as [|e es [He Hc] _ IH]; [done|]. cbn [encode_entries]. unfold encode_entry. rewrite (proj2 (Z.ltb_ge _ _)) by lia. cbn [rbind]. by rewrite IH.
Qed.

Lemma entry_decodes es i e : Forall entry_ok es -> es !! i = Some e -> heap_entry_at (entries_bytes es) i = Ok e.
Proof.
  intros Hok Hi. apply list_elem_of_split_length in Hi as (l1 & l2 & -> & ->). apply Forall_app in Hok as [H1 H2]. apply Forall_cons in H2 as [He H2].
  assert (forall a b, 0 <= a -> a <= b -> b <= 264 -> zslice (entries_bytes (l1 ++ e :: l2)) (Z.of_nat (length l1) * HEAP_ENTRY_SIZE + a) (Z.of_nat (length l1) * HEAP_ENTRY_SIZE + b) = zslice (entry_bytes e) a b) as Hs.
  { intros a b Ha Hab Hb. unfold entries_bytes. rewrite bind_app. change ((e :: l2) ≫= entry_bytes) with (entry_bytes e ++ (l2 ≫= entry_bytes)). pose proof (len_entries_bytes l1 H1) as Hl1. unfold entries_bytes, len at 2 in Hl1.
    rewrite zslice_app_skip by lia. rewrite Hl1. replace (Z.of_nat (length l1) * HEAP_ENTRY_SIZE + a - Z.of_nat (length l1) * HEAP_ENTRY_SIZE) with a by lia.
    replace (Z.of_nat (length l1) * HEAP_ENTRY_SIZE + b - Z.of_nat (length l1) * HEAP_ENTRY_SIZE) with b by lia. apply zslice_app_take; [done|done|]. rewrite len_entry_bytes by done. unfold HEAP_ENTRY_SIZE. lia. }
  pose proof (Hs 0 8 ltac:(lia) ltac:(lia) ltac:(lia)) as Hs0. rewrite Z.add_0_r in Hs0. unfold heap_entry_at. cbv zeta. rewrite Hs0. pose proof (len_le_bytes 8 (he_count e)) as L8. pose proof (len_le_bytes 4 (len (he_element e))) as L4. pose proof (len_nonneg (he_element e)).
  destruct He as [He Hc]. unfold MAX_ELEMENT_LEN in *. rewrite (Hs 8 12) by lia. assert (zslice (entry_bytes e) 0 8 = le_bytes 8 (he_count e)) as -> by (unfold entry_bytes; by zslices).
  assert (zslice (entry_bytes e) 8 12 = le_bytes 4 (len (he_element e))) as -> by (unfold entry_bytes; by zslices). rewrite i64_of_le, le_val_u32 by (done || unfold u32_ok, u32_max; lia).
  rewrite (proj2 (Z.ltb_ge _ _)) by lia. rewrite <- Z.add_assoc, Hs by lia. assert (zslice (entry_bytes e) 12 (12 + len (he_element e)) = he_element e) as -> by (unfold entry_bytes; by zslices). by rewrite he_eta.
Qed.

Lemma entries_decode es : Forall entry_ok es -> heap_entries (entries_bytes es) (length es) 0 = Ok es.
Proof.
  intros Hok. assert (forall n i, (i + n = length es)%nat -> heap_entries (entries_bytes es) n i = Ok (drop i es)) as H; [|by rewrite (H (length es) 0%nat)].
  induction n as [|n IH]; intros i Hi; cbn [heap_entries]; [by rewrite drop_ge by lia|]. destruct (lookup_lt_is_Some_2 es i ltac:(lia)) as [e He]. rewrite (entry_decodes es i e Hok He). cbn [rbind]. rewrite IH by lia. cbn [rbind]. by rewrite (drop_S es e i).
Qed.

Lemma all_distinct_ok es : forall seen, NoDup (map he_element es) -> (forall e, e ∈ es -> he_element e ∉ seen) -> all_distinct es seen = true.
Proof.
  induction es as [|e es IH]; intros seen Hn Hs; [done|]. cbn [all_distinct map] in *. apply NoDup_cons in Hn as [He Hn]. rewrite bool_decide_false by (apply Hs, list_elem_of_here). apply IH; [done|].
  intros e' He'. rewrite not_elem_of_union, not_elem_of_singleton. split; [|apply Hs; by right]. intros E. apply He. rewrite <- E. by apply list_elem_of_fmap_2.
Qed.

(** ** Files *)

Definition heap_start (w d : Z) : Z := TOPK_HEADER_SIZE + w * d * 8.
Definition token_start (k w d : Z) : Z := heap_start w d + k * HEAP_ENTRY_SIZE.

Record limits (k w d : Z) : Prop := {
  li_k : 0 < k <= MAX_TOPK_K;
  li_w : 0 < w;
  li_d : 0 < d;
  li_wd : w * d <= MAX_TOPK_CMS_COUNTERS;
}.

Record topk_file (data : bytes) (k w d : Z) (cs : list Z) (es : list V2HeapEntry) : Prop := {
  tk_magic : zslice data 0 8 = TOPK_MAGIC;
  tk_k : zslice data 8 12 = le_bytes 4 k;
  tk_w : zslice data 12 16 = le_bytes 4 w;
  tk_d : zslice data 16 20 = le_bytes 4 d;
  tk_n : zslice data 20 24 = le_bytes 4 (len es);
  tk_reserved : zslice data 24 64 = replicate 40 x00;
  tk_limits : limits k w d;
  tk_len : len data = token_start k w d + TOKEN_SIZE;
  tk_cs : zslice data TOPK_HEADER_SIZE (heap_start w d) = cms_bytes cs;
  tk_cs_len : len cs = w * d;
  tk_cs_ok : Forall i64_ok cs;
  tk_es : zslice data (heap_start w d) (heap_start w d + len es * HEAP_ENTRY_SIZE) = entries_bytes es;
  tk_es_ok : Forall entry_ok es;
  tk_nodup : NoDup (map he_element es);
  tk_es_len : len es <= k;
}.

Lemma starts_range k w d : limits k w d -> 64 < heap_start w d /\ heap_start w d < token_start k w d /\ token_start k w d + TOKEN_SIZE <= u64_max.
Proof.
  intros [Hk Hw Hd Hwd]. unfold token_start, heap_start, TOPK_HEADER_SIZE, HEAP_ENTRY_SIZE, TOKEN_SIZE, MAX_TOPK_K, MAX_TOPK_CMS_COUNTERS in *. change u64_max with 18446744073709551615. nia.
Qed.

Lemma topk_layout_ok k w d : 0 <= k <= MAX_TOPK_K -> 0 < w -> 0 < d -> w * d <= MAX_TOPK_CMS_COUNTERS ->
  topk_layout k w d = Ok (mkTopKLayout (heap_start w d) (token_start k w d) (token_start k w d + TOKEN_SIZE)).
Proof.
  intros Hk Hw Hd Hwd. unfold topk_layout, checked_mul64, checked_add64, token_start, heap_start. unfold MAX_TOPK_K, MAX_TOPK_CMS_COUNTERS, HEAP_ENTRY_SIZE, TOPK_HEADER_SIZE, TOKEN_SIZE in *. assert (u64_max = 18446744073709551615) as Hu by done. assert (0 < w * d) by nia.
  rewrite (proj2 (Z.leb_le (w * d) _)) by lia. cbn [ok_or rbind]. rewrite (proj2 (Z.ltb_ge _ (w * d))), (proj2 (Z.ltb_ge _ k)) by lia. rewrite (proj2 (Z.leb_le (w * d * 8) _)) by lia. cbn [ok_or rbind].
  rewrite (proj2 (Z.leb_le (64 + w * d * 8) _)) by lia. cbn [ok_or rbind]. rewrite (proj2 (Z.leb_le (k * 264) _)) by lia. cbn [ok_or rbind]. rewrite (proj2 (Z.leb_le (64 + w * d * 8 + k * 264) _)) by lia. cbn [ok_or rbind].
  by rewrite (proj2 (Z.leb_le _ _)) by lia.
Qed.
Lemma layout_limits k w d : limits k w d -> topk_layout k w d = Ok (mkTopKLayout (heap_start w d) (token_start k w d) (token_start k w d + TOKEN_SIZE)).
Proof. intros [Hk Hw Hd Hwd]. apply topk_layout_ok; [lia|done..]. Qed.
Lemma heap_offset_limits k w d : limits k w d -> heap_offset w d = heap_start w d.
Proof. intros [Hk Hw Hd Hwd]. unfold heap_offset. by rewrite topk_layout_ok by (done || lia). Qed.

Lemma limits_u32 k w d : limits k w d -> u32_ok k /\ u32_ok w /\ u32_ok d.
Proof. intros [Hk Hw Hd Hwd]. unfold u32_ok, MAX_TOPK_K, MAX_TOPK_CMS_COUNTERS in *. assert (u32_max = 4294967295) as -> by done. nia. Qed.

Section Files.
Variables (file : string) (files : gmap string bytes) (data : bytes) (k w d : Z) (cs : list Z) (es : list V2HeapEntry).
Hypotheses (Ed : files !! file = Some data) (Hf : topk_file data k w d cs es).

Lemma topk_header_healthy : v2_read_header file (mkWorld files []) = (Ok (k, w, d, len es), mkWorld files []).
Proof using Ed Hf.
  pose proof Hf as [H1 H2 H3 H4 H5 H6 Hl Hlen _ _ _ _ _ _ Hes]. pose proof (starts_range k w d Hl) as (S1 & S2 & _). destruct (limits_u32 k w d Hl) as (U1 & U2 & U3). pose proof Hl as [Hk Hw Hd Hwd]. pose proof (len_nonneg es).
  unfold v2_read_header, topk_read_exact_at. unfold TOKEN_SIZE in Hlen.
  rewrite (sbind_Ok _ _ _ _ _ (read_exact_as_healthy "read " "topk file" file TOPK_HEADER_SIZE 0 "header" files data (zslice data 0 64) Ed (get_range_Some data 0 64 ltac:(lia) ltac:(lia) ltac:(lia)))).
  rewrite !zslice_header by lia. rewrite H1, H2, H3, H4, H5, H6. rewrite !le_val_u32 by (done || unfold u32_ok in *; lia). change (bytes_eqb TOPK_MAGIC TOPK_MAGIC) with true. cbn [negb].
  rewrite (proj2 (Z.eqb_neq k 0)), (proj2 (Z.eqb_neq w 0)), (proj2 (Z.eqb_neq d 0)), (proj2 (Z.ltb_ge k (len es))) by lia. change (existsb (fun b => negb (byte_val b =? 0)) (replicate 40 x00)) with false. cbv iota.
  rewrite (layout_limits k w d Hl), sbind_slift_Ok. rewrite (sbind_Ok _ _ _ _ _ (metadata_healthy _ file files data Ed)). cbn [tl_file_size]. rewrite Hlen. unfold TOKEN_SIZE. by rewrite Z.eqb_refl.
Qed.

Lemma read_cms_healthy : v2_read_cms file w d (mkWorld files []) = (Ok cs, mkWorld files []).
Proof using Ed Hf.
  pose proof Hf as [_ _ _ _ _ _ Hl Hlen Hcs Hcl Hco _ _ _ _]. pose proof (starts_range k w d Hl) as (S1 & S2 & _). pose proof Hl as [Hk Hw Hd Hwd]. unfold TOKEN_SIZE in Hlen. unfold v2_read_cms, topk_read_exact_at. assert (0 < w * d) by nia. unfold heap_start, TOPK_HEADER_SIZE in *.
  rewrite (sbind_Ok _ _ _ _ _ (read_exact_as_healthy "read " "topk file" file (w * d * 8) 64 "cms" files data (zslice data 64 (64 + w * d * 8)) Ed (get_range_Some data 64 (64 + w * d * 8) ltac:(lia) ltac:(lia) ltac:(lia)))).
  rewrite Hcs. unfold sret. rewrite <- Hcl. unfold len. rewrite Nat2Z.id. by rewrite chunk_values_bytes.
Qed.

Lemma read_heap_healthy : v2_read_heap file w d (len es) k (mkWorld files []) = (Ok es, mkWorld files []).
Proof using Ed Hf.
  pose proof Hf as [_ _ _ _ _ _ Hl Hlen _ _ _ Hes Heo Hn Hel]. pose proof (starts_range k w d Hl) as (S1 & S2 & _). pose proof (len_nonneg es). unfold v2_read_heap, topk_read_exact_at. rewrite (heap_offset_limits k w d Hl), (Z.min_l (len es) k) by lia.
  unfold TOKEN_SIZE, token_start, HEAP_ENTRY_SIZE in *.
  rewrite (sbind_Ok _ _ _ _ _ (read_exact_as_healthy "read " "topk file" file (len es * 264) (heap_start w d) "heap" files data (zslice data (heap_start w d) (heap_start w d + len es * 264)) Ed (get_range_Some data (heap_start w d) (heap_start w d + len es * 264) ltac:(lia) ltac:(lia) ltac:(lia)))).
  rewrite Hes. unfold len at 1. rewrite Nat2Z.id, entries_decode, sbind_slift_Ok by done. rewrite all_distinct_ok; [done|done|]. intros e _. apply not_elem_of_empty.
Qed.
End Files.

(** The state written over a file. *)
Definition updated_topk (data : bytes) (w d : Z) (cs : list Z) (es : list V2HeapEntry) : bytes :=
  overwrite (overwrite (overwrite data TOPK_HEADER_SIZE (cms_bytes cs)) (heap_start w d) (entries_bytes es)) 20 (le_bytes 4 (len es)).

Lemma updated_topk_file data k w d cs es cs' es' : topk_file data k w d cs es -> len cs' = w * d -> Forall i64_ok cs' -> Forall entry_ok es' -> NoDup (map he_element es') -> len es' <= k ->
  topk_file (updated_topk data w d cs' es') k w d cs' es' /\ len (updated_topk data w d cs' es') = len data /\
  zslice (updated_topk data w d cs' es') (token_start k w d) (len data) = zslice data (token_start k w d) (len data).
Proof.
  intros [H1 H2 H3 H4 H5 H6 Hl Hlen _ _ _ _ _ _ _] Hcl Hco Heo Hn Hel. pose proof (starts_range k w d Hl) as (S1 & S2 & _). pose proof (len_cms_bytes cs') as Lc. pose proof (len_entries_bytes es' Heo) as Le. pose proof (len_le_bytes 4 (len es')) as L4. change (Z.of_nat 4) with 4 in L4.
  pose proof (len_nonneg es'). assert (token_start k w d = heap_start w d + k * 264) as Et by done. assert (heap_start w d = 64 + w * d * 8) as Eh by done. rewrite Hcl in Lc. unfold HEAP_ENTRY_SIZE in Le. unfold TOKEN_SIZE in Hlen. assert (len es' * 264 <= k * 264) by lia.
  unfold updated_topk, TOPK_HEADER_SIZE. set (d1 := overwrite data 64 (cms_bytes cs')). assert (len d1 = len data) as L1 by (unfold d1; rewrite len_overwrite by lia; lia).
  set (d2 := overwrite d1 (heap_start w d) (entries_bytes es')). assert (len d2 = len data) as L2 by (unfold d2; rewrite len_overwrite by lia; lia). set (d3 := overwrite d2 20 (le_bytes 4 (len es'))).
  assert (len d3 = len data) as L3 by (unfold d3; rewrite len_overwrite by lia; lia).
  assert (forall a b, 0 <= a -> b <= 20 -> zslice d3 a b = zslice data a b) as Hpre by (intros a b Ha Hb; unfold d3; rewrite overwrite_before by lia; unfold d2; rewrite overwrite_before by lia; unfold d1; by rewrite overwrite_before by lia).
  split; [|split; [done|]]. 1: split; try done; try (by rewrite Hpre by lia).
  - pose proof (overwrite_at d2 20 (le_bytes 4 (len es')) ltac:(lia)) as E. by rewrite L4 in E.
  - unfold d3. rewrite overwrite_after by lia. unfold d2. rewrite overwrite_before by lia. unfold d1. by rewrite overwrite_before by lia.
  - rewrite L3. unfold TOKEN_SIZE. lia.
  - unfold TOPK_HEADER_SIZE, d3. rewrite overwrite_after by lia. unfold d2. rewrite overwrite_before by lia. unfold d1. pose proof (overwrite_at data 64 (cms_bytes cs') ltac:(lia)) as E. rewrite Lc in E. by rewrite Eh.
  - unfold d3. rewrite overwrite_after by lia. unfold d2. unfold HEAP_ENTRY_SIZE. rewrite <- Le. apply overwrite_at. lia.
  - unfold d3. rewrite overwrite_after by lia. unfold d2. rewrite overwrite_after by lia. unfold d1. by rewrite overwrite_after by lia.
Qed.

(** ** Mutations of a file *)

Definition topk_state (data : bytes) (k w d : Z) (cs : list Z) (M : gmap bytes Z) : Prop := exists es, topk_file data k w d cs es /\ holds_map es M.

Lemma entries_map_ok es M : holds_map es M -> Forall entry_ok es -> map_ok M.
Proof. intros Hm He y c [i Hi]%Hm. exact (Forall_lookup_1 _ _ _ _ He Hi). Qed.
Lemma map_entries_ok es M : holds_map es M -> map_ok M -> Forall entry_ok es.
Proof. intros Hm HM. apply Forall_lookup. intros i e Hi. apply (HM (he_element e) (he_count e)). apply Hm. exists i. by rewrite he_eta. Qed.

Definition plan_images_of (w d : Z) (cs : list Z) (es : list V2HeapEntry) : list AfterImage :=
  [mkAfterImage TOPK_HEADER_SIZE (cms_bytes cs)] ++ match entries_bytes es with [] => [] | _ => [mkAfterImage (heap_start w d) (entries_bytes es)] end ++ [mkAfterImage 20 (le_bytes 4 (len es))].

Lemma patched_plan data k w d cs es cs' es' : topk_file data k w d cs es -> len cs' = w * d -> Forall entry_ok es' -> len es' <= k ->
  patched data (plan_images_of w d cs' es') = updated_topk data w d cs' es' /\ Forall (image_ok (token_start k w d)) (plan_images_of w d cs' es') /\ len (plan_images_of w d cs' es') <= 3 /\
  len (images_bytes (plan_images_of w d cs' es')) <= 52 + w * d * 8 + k * HEAP_ENTRY_SIZE.
Proof.
  intros Hf Hcl Heo Hel. pose proof (tk_limits _ _ _ _ _ _ Hf) as Hl. pose proof (starts_range k w d Hl) as (S1 & S2 & _). pose proof (len_cms_bytes cs') as Lc. pose proof (len_entries_bytes es' Heo) as Le. pose proof (len_le_bytes 4 (len es')) as L4. change (Z.of_nat 4) with 4 in L4.
  pose proof (tk_len _ _ _ _ _ _ Hf) as Hlen. unfold TOKEN_SIZE in Hlen. pose proof (len_nonneg es'). assert (token_start k w d = heap_start w d + k * 264) as Et by done. assert (heap_start w d = 64 + w * d * 8) as Eh by done. rewrite Hcl in Lc. unfold HEAP_ENTRY_SIZE in *. assert (len es' * 264 <= k * 264) by lia.
  unfold plan_images_of, updated_topk, TOPK_HEADER_SIZE. destruct (entries_bytes es') as [|b bs] eqn:Eb.
  - rewrite (overwrite_nil (overwrite data 64 (cms_bytes cs')) (heap_start w d)) by (rewrite len_overwrite by lia; lia). split; [done|]. cbn [app]. split; [|split; [done|]].
    + apply Forall_cons; split; [|apply Forall_singleton]; unfold image_ok; cbn [ai_offset ai_bytes]; lia.
    + rewrite !len_images_bytes_cons. cbn [ai_bytes]. change (len (images_bytes [])) with 0. lia.
  - split; [done|]. cbn [app]. split; [|split; [done|]].
    + apply Forall_cons; split; [|apply Forall_cons; split; [|apply Forall_singleton]]; unfold image_ok; cbn [ai_offset ai_bytes]; lia.
    + rewrite !len_images_bytes_cons. cbn [ai_bytes]. change (len (images_bytes [])) with 0. lia.
Qed.

Lemma stage_healthy path data k w d cs M ups : topk_state data k w d cs M -> Forall (fun u => len u.1 <= MAX_ELEMENT_LEN) ups ->
  (exists cs' M' evs es', (forall files, files !! path = Some data -> v2_stage_mutation path ups (mkWorld files []) = (Ok (mkV2MutationPlan (plan_images_of w d cs' es') evs), mkWorld files [])) /\ updates_run k w d cs M ups cs' M' evs /\
    topk_file (updated_topk data w d cs' es') k w d cs' es' /\ holds_map es' M' /\ patched data (plan_images_of w d cs' es') = updated_topk data w d cs' es' /\
    zslice (updated_topk data w d cs' es') (token_start k w d) (len data) = zslice data (token_start k w d) (len data)) \/
  (exists e, (forall files, files !! path = Some data -> v2_stage_mutation path ups (mkWorld files []) = (Err e, mkWorld files [])) /\ overflows k w d cs M ups).
Proof.
  intros (es & Hf & Hm) Hu. pose proof (tk_limits _ _ _ _ _ _ Hf) as Hl. pose proof Hl as [Hk Hw Hd Hwd].
  destruct (heap_new_ok es k M (tk_nodup _ _ _ _ _ _ Hf) (tk_es_len _ _ _ _ _ _ Hf) Hm) as (h & Eh & Hh).
  assert (forall files, files !! path = Some data -> v2_stage_mutation path ups (mkWorld files []) =
    (let! (counters, h, results) := slift (apply_updates w d ups cs h) in
     let! cms_bytes := slift (v2_encode_cms counters) in let! heap_bytes := slift (v2_encode_heap (entries h)) in
     let! _ := (if len (entries h) <=? u32_max then sret tt else serr "TopK heap length exceeds u32") in
     sret (mkV2MutationPlan ([mkAfterImage TOPK_HEADER_SIZE cms_bytes] ++ match heap_bytes with [] => [] | _ => [mkAfterImage (heap_start w d) heap_bytes] end ++ [mkAfterImage 20 (le_bytes 4 (len (entries h)))]) results)) (mkWorld files [])) as Hrun.
  { intros files Ed. unfold v2_stage_mutation. rewrite (sbind_Ok _ _ _ _ _ (topk_header_healthy path files data k w d cs es Ed Hf)). rewrite (layout_limits k w d Hl), sbind_slift_Ok. rewrite (sbind_Ok _ _ _ _ _ (read_cms_healthy path files data k w d cs es Ed Hf)).
    rewrite (sbind_Ok _ _ _ _ _ (read_heap_healthy path files data k w d cs es Ed Hf)). by rewrite Eh, sbind_slift_Ok. }
  destruct (apply_updates_run k w d ups ltac:(lia) Hw cs h M Hh (tk_cs_len _ _ _ _ _ _ Hf)) as [(cs' & h' & evs & M' & Ea & Hh' & Hr)|(e & Ea & Hov)]; rewrite Ea in Hrun; [|right; exists e; by split].
  destruct (run_range _ _ _ _ _ _ _ _ _ Hw (tk_cs_len _ _ _ _ _ _ Hf) Hr Hu (tk_cs_ok _ _ _ _ _ _ Hf) (entries_map_ok _ _ Hm (tk_es_ok _ _ _ _ _ _ Hf))) as (Hco & Hcl & HM' & _ & _). rewrite (tk_cs_len _ _ _ _ _ _ Hf) in Hcl.
  pose proof (map_entries_ok _ _ (ho_map _ _ _ Hh') HM') as Heo. pose proof (ho_len _ _ _ Hh') as Hel. pose proof (indexed_NoDup _ (ho_indexed _ _ _ Hh')) as Hn. left. exists cs', M', evs, (entries h').
  destruct (updated_topk_file data k w d cs es cs' (entries h') Hf Hcl Hco Heo Hn Hel) as (Hf' & _ & Htail). destruct (patched_plan data k w d cs es cs' (entries h') Hf Hcl Heo Hel) as (Ep & _).
  split; [|split; [done|split; [done|split; [by apply (ho_map _ _ _ Hh')|done]]]]. intros files Ed. rewrite (Hrun files Ed), sbind_slift_Ok. cbv beta iota. unfold MAX_TOPK_K, MAX_TOPK_CMS_COUNTERS in *. assert (u64_max = 18446744073709551615) as Hu64 by done. assert (u32_max = 4294967295) as Hu32 by done. pose proof (len_nonneg (entries h')).
  unfold v2_encode_cms, checked_mul64. rewrite (proj2 (Z.leb_le (len cs' * 8) _)) by lia. cbn [ok_or rbind]. rewrite sbind_slift_Ok. unfold v2_encode_heap, checked_mul64. unfold HEAP_ENTRY_SIZE. rewrite (proj2 (Z.leb_le (len (entries h') * 264) _)) by lia. cbn [ok_or rbind].
  rewrite (encode_entries_ok _ Heo), sbind_slift_Ok. rewrite (proj2 (Z.leb_le (len (entries h')) _)) by lia. cbn [tl_heap_offset]. unfold sbind at 1, sret at 1. cbv beta iota. unfold plan_images_of, cms_bytes. done.
Qed.
