(* ===== verification/TopKContract.v ===== *)
(** * What a top-k list promises

    The elements with the largest counts are listed: an element that is not listed was added
    no more often than any listed element is estimated at.  Mutations with a token are
    applied once. *)

From Stdlib Require Import ZArith Lia.
From stdpp Require Import gmap strings sorting.
From S2P Require Import Prelude Bytes Crc Sidecar ProbTxn ProbTxnProof Cms CmsProof TopK TopKHeap TopKProof.

(** ** Operations on files *)

Lemma topk_open_healthy {A : Type} path files data (body : string -> SR World A) : files !! path = Some data ->
  with_sidecar topk_open_rw path body (mkWorld files []) = reply_of (body path (mkWorld files [])) /\
  with_sidecar topk_open_read path body (mkWorld files []) = reply_of (body path (mkWorld files [])).
Proof. intros E. unfold with_sidecar, topk_open_rw, topk_open_read, map_err, open_random_rw_locked, open_random_read_locked. by rewrite (open_healthy _ _ _ E). Qed.

Lemma write_images_healthy file n images : forall files data, files !! file = Some data -> Forall (image_ok n) images -> n <= len data ->
  write_images file images (mkWorld files []) = (Ok tt, mkWorld (<[file := patched data images]> files) []).
Proof.
  induction images as [|i images IH]; intros files data Ed Hi Hn; cbn [write_images]; [cbn [patched foldl]; by rewrite insert_id|]. apply Forall_cons in Hi as [Hi Hi']. pose proof Hi as [H1 H2]. pose proof (len_nonneg (ai_bytes i)).
  rewrite (sbind_Ok _ _ _ _ _ (write_all_at_healthy file (ai_bytes i) (ai_offset i) "TopK mutation after-image" files data Ed ltac:(lia))). change (overwrite data (ai_offset i) (ai_bytes i)) with (image_write data i).
  rewrite (IH _ (image_write data i) (lookup_insert_eq _ _ _) Hi') by (rewrite (len_image_write n) by done; done). by rewrite insert_insert_eq.
Qed.

Lemma mutate_healthy path files data k w d cs M ups : files !! path = Some data -> topk_state data k w d cs M -> Forall (fun u => len u.1 <= MAX_ELEMENT_LEN) ups ->
  (exists cs' M' evs data', mutate path ups (mkWorld files []) = (ReplyOk evs, mkWorld (<[path := data']> files) []) /\ updates_run k w d cs M ups cs' M' evs /\ topk_state data' k w d cs' M') \/
  (exists e, mutate path ups (mkWorld files []) = (ReplyError e, mkWorld files []) /\ overflows k w d cs M ups).
Proof.
  intros Ed Hs Hu. unfold mutate. rewrite (proj1 (topk_open_healthy path files data _ Ed)). pose proof Hs as (es & Hf & Hm). pose proof (starts_range k w d (tk_limits _ _ _ _ _ _ Hf)) as (S1 & S2 & _).
  destruct (stage_healthy path data k w d cs M ups Hs Hu) as [(cs' & M' & evs & es' & E & Hr & Hf' & Hm' & Ep & _)|(e & E & Ho)]; specialize (E files Ed); [left|right].
  - rewrite (sbind_Ok _ _ _ _ _ E). unfold v2_apply_mutation_plan. cbn [mp_images mp_results].
    destruct (patched_plan data k w d cs es cs' es' Hf (tk_cs_len _ _ _ _ _ _ Hf') (tk_es_ok _ _ _ _ _ _ Hf') (tk_es_len _ _ _ _ _ _ Hf')) as (_ & Hi & _).
    assert (token_start k w d <= len data) as Hn by (rewrite (tk_len _ _ _ _ _ _ Hf); unfold TOKEN_SIZE; lia). unfold sbind. rewrite (write_images_healthy path (token_start k w d) _ files data Ed Hi Hn). rewrite fsync_healthy. rewrite Ep.
    exists cs', M', evs, (updated_topk data w d cs' es'). split; [done|]. split; [done|]. by exists es'.
  - rewrite (sbind_Err _ _ _ _ _ E). by exists e.
Qed.

Definition update_ok (u : bytes * Z) : Prop := 0 < u.2 /\ len u.1 <= MAX_ELEMENT_LEN.

Lemma updates_accepted ups : Forall update_ok ups -> existsb (fun p => p.2 <=? 0) ups = false /\ too_long (map fst ups) = None.
Proof.
  intros Hu. unfold too_long. induction Hu as [|u ups [H1 H2] _ [IH1 IH2]]; [done|]. cbn [existsb map List.find]. by rewrite IH1, (proj2 (Z.leb_gt _ _)), (proj2 (Z.ltb_ge _ _)).
Qed.
Lemma incrby_mutates path ups w : Forall update_ok ups -> topk_file_incrby_v2 path ups w = mutate path ups w.
Proof. intros [E1 E2]%updates_accepted. unfold topk_file_incrby_v2. by rewrite E1, E2. Qed.

(** C39: a batch of increments does what it does to the counters and to the map of tracked
    elements.  The reply names the element each update pushed out, which was the least by
    count and element of a full list; a batch in which a counter would leave 64 bits is
    refused and leaves the file alone. *)
Theorem topk_incrby_refines path ups k w d cs M files data :
  files !! path = Some data -> topk_state data k w d cs M -> Forall update_ok ups ->
  (exists evs cs' M' data', topk_file_incrby_v2 path ups (mkWorld files []) = (ReplyOk evs, mkWorld (<[path := data']> files) []) /\ updates_run k w d cs M ups cs' M' evs /\ topk_state data' k w d cs' M') \/
  (exists e, topk_file_incrby_v2 path ups (mkWorld files []) = (ReplyError e, mkWorld files []) /\ overflows k w d cs M ups).
Proof.
  intros Ed Hs Hu. rewrite incrby_mutates by done. assert (Forall (fun u => len u.1 <= MAX_ELEMENT_LEN) ups) as Hl by (eapply Forall_impl; [exact Hu|by intros u [_ ?]]).
  destruct (mutate_healthy path files data k w d cs M ups Ed Hs Hl) as [(cs' & M' & evs & data' & E & Hr & Hs')|(e & E & Ho)]; [left|right; by exists e]. by exists evs, cs', M', data'.
Qed.

(** ** Tracking *)

(** What the tracked map knows about the history. *)
Record tracks (k w d : Z) (H : history) (M : gmap bytes Z) : Prop := {
  tr_in : forall x c, M !! x = Some c -> x ∈ H.*1 /\ true_count H x <= c <= spec_estimate w d H x;
  tr_size : Z.of_nat (size M) <= k;
  tr_out : forall y, y ∈ H.*1 -> M !! y = None -> Z.of_nat (size M) = k /\ forall x c, M !! x = Some c -> true_count H y <= c;
}.

Lemma true_count_snoc H x c y : true_count (H ++ [(x, c)]) y = true_count H y + if bytes_eqb x y then c else 0.
Proof. rewrite true_count_app. cbn [true_count foldr fst snd]. destruct (bytes_eqb x y); lia. Qed.
Lemma true_count_snoc_ne H x c y : y <> x -> true_count (H ++ [(x, c)]) y = true_count H y.
Proof. intros Hne. rewrite true_count_snoc. destruct (bytes_eqb_spec x y); [congruence|lia]. Qed.

Lemma elem_of_snoc (H : history) x c y : y ∈ (H ++ [(x, c)]).*1 <-> y ∈ H.*1 \/ y = x.
Proof. rewrite fmap_app, elem_of_app. cbn [fmap list_fmap fst]. by rewrite list_elem_of_singleton. Qed.

Lemma track_tracks k w d H M x c M' ev : 0 < d -> positive H -> 0 < c -> total_of H + c <= i64_max -> tracks k w d H M ->
  track k M x (spec_estimate w d (H ++ [(x, c)]) x) M' ev -> tracks k w d (H ++ [(x, c)]) M'.
Proof.
  intros Hd Hp Hc Ht [Hin Hsz Hout] Htr. set (H' := H ++ [(x, c)]) in *. assert (positive H') as Hp' by (apply Forall_app; split; [done|by constructor]). assert (total_of H' <= i64_max) as Ht' by (unfold H'; rewrite total_of_app; cbn [total_of foldr snd]; lia).
  set (est := spec_estimate w d H' x) in *. pose proof (estimate_bounds w d H' x Hd Hp' Ht') as Hest. fold est in Hest. assert (forall y, spec_estimate w d H y <= spec_estimate w d H' y) as Hgrow by (intros y; apply estimate_grows; by constructor).
  assert (forall y, y <> x -> true_count H' y = true_count H y) as Hcnt by (intros y; apply true_count_snoc_ne). assert (forall y, y ∈ H'.*1 <-> y ∈ H.*1 \/ y = x) as Hel by (intros y; apply elem_of_snoc).
  assert (forall y c', y <> x -> M !! y = Some c' -> y ∈ H'.*1 /\ true_count H' y <= c' <= spec_estimate w d H' y) as Hkeep.
  { intros y c' Hne Hy. destruct (Hin y c' Hy) as (H1 & H2). rewrite Hel, Hcnt by done. specialize (Hgrow y). split; [by left|lia]. }
  assert (forall y c', <[x := est]> M !! y = Some c' -> y ∈ H'.*1 /\ true_count H' y <= c' <= spec_estimate w d H' y) as Hnew.
  { intros y c' [[<- <-]|[Hne Hy]]%lookup_insert_Some; [|by apply Hkeep]. rewrite Hel. split; [by right|]. fold est. lia. }
  destruct Htr as [c0 Hc0|Hn Hs|y0 c0 Hn Hs [Hy0 Hle] He|y0 c0 Hn Hs [Hy0 Hle] He].
  - assert (size (<[x := est]> M) = size M) as Es by (apply map_size_insert_Some; eauto). split; [done|by rewrite Es|]. rewrite Es. intros y Hy Hyn. apply lookup_insert_None in Hyn as [Hyn Hne]. apply Hel in Hy as [Hy| ->]; [|done].
    destruct (Hout y Hy Hyn) as [H1 H2]. split; [done|]. rewrite Hcnt by done. intros z e [[<- <-]|[_ Hz]]%lookup_insert_Some; [|by eapply H2]. destruct (Hin x c0 Hc0) as [_ H3]. specialize (H2 x c0 Hc0). specialize (Hgrow x). fold est in Hgrow. lia.
  - assert (size (<[x := est]> M) = S (size M)) as Es by by apply map_size_insert_None. split; [done|lia|]. intros y Hy Hyn. apply lookup_insert_None in Hyn as [Hyn Hne]. apply Hel in Hy as [Hy| ->]; [|done]. destruct (Hout y Hy Hyn). lia.
  - split; [intros y c' Hy; apply Hkeep; [|done]; congruence|lia|]. intros y Hy Hyn. split; [done|]. intros z e Hz. destruct (decide (y = x)) as [->|Hne].
    + destruct (Hle z e Hz) as [?|[? _]]; lia.
    + apply Hel in Hy as [Hy|?]; [|done]. rewrite Hcnt by done. by apply (proj2 (Hout y Hy Hyn) z e).
  - assert (size (<[x := est]> (delete y0 M)) = size M) as Es.
    { rewrite map_size_insert_None by (by apply lookup_delete_None; right). rewrite map_size_delete_Some by eauto. assert (size M <> 0%nat) by (intros E; apply map_size_empty_inv in E as ->; by rewrite lookup_empty in Hy0). lia. }
    assert (y0 <> x) as Hy0x by congruence. split; [|by rewrite Es|].
    + intros y c' [[<- <-]|[Hne [_ Hy]%lookup_delete_Some]]%lookup_insert_Some; [|by apply Hkeep]. apply Hnew. by rewrite lookup_insert_eq.
    + rewrite Es. intros y Hy Hyn. apply lookup_insert_None in Hyn as [Hyn Hne]. split; [done|]. assert (true_count H' y <= c0) as Hyc.
      { destruct (decide (y = y0)) as [->|Hyy]; [rewrite Hcnt by done; destruct (Hin y0 c0 Hy0) as (_ & ? & _); done|]. rewrite lookup_delete_ne in Hyn by done. apply Hel in Hy as [Hy|?]; [|done]. rewrite Hcnt by done. by apply (proj2 (Hout y Hy Hyn) y0 c0). }
      intros z e [[<- <-]|[_ [_ Hz]%lookup_delete_Some]]%lookup_insert_Some; [lia|]. destruct (Hle z e Hz) as [?|[? _]]; lia.
Qed.

(** A batch that fits runs, and keeps what is known. *)
Lemma run_tracks k w d ups : 0 < w -> 0 < d -> forall cs M H, counts cs w d H -> tracks k w d H M -> positive H -> Forall update_ok ups -> total_of H + total_of ups <= i64_max ->
  (forall cs' M' evs, updates_run k w d cs M ups cs' M' evs -> counts cs' w d (H ++ ups) /\ tracks k w d (H ++ ups) M') /\ ~ overflows k w d cs M ups.
Proof.
  intros Hw Hd. induction ups as [|[x c] ups IH]; intros cs M H Hc Ht Hp Hu Hs.
  { rewrite app_nil_r. split; [|intros He; by inversion He]. intros cs' M' evs Hr. by inversion Hr; subst. }
  apply Forall_cons in Hu as [[Hc0 Hx] Hu]. cbn [fst snd] in *. cbn [total_of foldr snd] in Hs. fold (total_of ups) in Hs. assert (0 <= total_of ups) as Hnn.
  { clear -Hu. induction Hu as [|u ups [H1 _] _ IH]; cbn [total_of foldr]; [lia|]. fold (total_of ups). lia. }
  assert (forall cs1 M1 ev, counts cs1 w d (H ++ [(x, c)]) -> track k M x (spec_estimate w d (H ++ [(x, c)]) x) M1 ev ->
    (forall cs' M' evs, updates_run k w d cs1 M1 ups cs' M' evs -> counts cs' w d ((H ++ [(x, c)]) ++ ups) /\ tracks k w d ((H ++ [(x, c)]) ++ ups) M') /\ ~ overflows k w d cs1 M1 ups) as Hstep.
  { intros cs1 M1 ev Hc1 Htr. apply IH; [done|by apply (track_tracks k w d H M x c M1 ev Hd Hp Hc0 ltac:(lia) Ht)|apply Forall_app; split; [done|by constructor]|done|]. rewrite total_of_app. cbn [total_of foldr snd]. lia. }
  rewrite <- app_assoc in Hstep. cbn [app] in Hstep. split.
  - intros cs' M' evs Hr. inversion Hr as [|? ? ? ? ? cs2 est M1 ev ? ? evs' Ei Htr Hr']; subst. apply (incremented_counts cs w d H) in Ei as [Hc1 ->]; [|done..]. by apply (proj1 (Hstep cs2 M1 ev Hc1 Htr) cs' M' evs').
  - intros He. inversion He as [? ? ? ? ? Ei|? ? ? ? ? cs2 est M1 ev Ei Htr Ho]; subst; [by eapply counts_no_overflow; [..|exact Ei]; try done; lia|].
    apply (incremented_counts cs w d H) in Ei as [Hc1 ->]; [|done..]. by apply (proj2 (Hstep cs2 M1 ev Hc1 Htr)).
Qed.

Fixpoint run_batches (path : string) (batches : list (list (bytes * Z))) (w : World) : list (reply (list (option bytes))) * World :=
  match batches with
  | [] => ([], w)
  | ups :: batches => let '(r, w) := topk_file_incrby_v2 path ups w in let '(rs, w) := run_batches path batches w in (r :: rs, w)
  end.

Lemma positive_updates ups : Forall update_ok ups -> positive ups.
Proof. intros H. eapply Forall_impl; [exact H|by intros u [? _]]. Qed.
Lemma total_positive H : positive H -> 0 <= total_of H.
Proof. induction 1 as [|u H Hu _ IH]; cbn [total_of foldr]; [lia|]. fold (total_of H). lia. Qed.

Lemma run_batches_tracks path k w d batches : Forall (Forall update_ok) batches -> forall files data cs M H, files !! path = Some data -> topk_state data k w d cs M -> counts cs w d H -> tracks k w d H M -> positive H ->
  total_of H + total_of (concat batches) <= i64_max ->
  exists rss data' cs' M', run_batches path batches (mkWorld files []) = (map ReplyOk rss, mkWorld (<[path := data']> files) []) /\ topk_state data' k w d cs' M' /\ counts cs' w d (H ++ concat batches) /\ tracks k w d (H ++ concat batches) M'.
Proof.
  induction 1 as [|ups batches Hu Hus IH]; intros files data cs M H Ed Hs Hc Ht Hp Hsum; cbn [run_batches concat].
  { exists [], data, cs, M. rewrite app_nil_r, insert_id by done. done. }
  cbn [concat] in Hsum. rewrite total_of_app in Hsum. pose proof Hs as (es & Hf & _). pose proof (tk_limits _ _ _ _ _ _ Hf) as [_ Hw Hd _]. pose proof (positive_updates _ Hu) as Hpu.
  assert (positive (concat batches)) as Hpc by (apply Forall_concat; eapply Forall_impl; [exact Hus|apply positive_updates]). pose proof (total_positive _ Hpc). pose proof (total_positive _ Hpu).
  destruct (run_tracks k w d ups Hw Hd cs M H Hc Ht Hp Hu ltac:(lia)) as [Hrun Hno]. rewrite incrby_mutates by done.
  assert (Forall (fun u => len u.1 <= MAX_ELEMENT_LEN) ups) as Hl by (eapply Forall_impl; [exact Hu|by intros u [_ ?]]).
  destruct (mutate_healthy path files data k w d cs M ups Ed Hs Hl) as [(cs1 & M1 & evs & data1 & E & Hr & Hs1)|(e & _ & Ho)]; [|by apply Hno in Ho]. rewrite E. destruct (Hrun _ _ _ Hr) as [Hc1 Ht1].
  destruct (IH (<[path := data1]> files) data1 cs1 M1 (H ++ ups) (lookup_insert_eq _ _ _) Hs1 Hc1 Ht1) as (rss & data2 & cs2 & M2 & E2 & Hs2 & Hc2 & Ht2); [by apply Forall_app|rewrite total_of_app; lia|].
  rewrite E2, insert_insert_eq. exists (evs :: rss), data2, cs2, M2. rewrite app_assoc. done.
Qed.

(** ** New lists *)

Definition fresh_topk (k w d : Z) : bytes := topk_header k w d ++ replicate (Z.to_nat (w * d * 8 + k * HEAP_ENTRY_SIZE + TOKEN_SIZE)) x00.

Lemma topk_header_eq k w d : topk_header k w d = TOPK_MAGIC ++ le_bytes 4 k ++ le_bytes 4 w ++ le_bytes 4 d ++ replicate 44 x00.
Proof.
  unfold topk_header, copy_from_slice. pose proof (len_le_bytes 4 k). pose proof (len_le_bytes 4 w). pose proof (len_le_bytes 4 d). assert (len TOPK_MAGIC = 8) as Hm by done.
  change (replicate 64 x00) with (replicate 8 x00 ++ replicate 4 x00 ++ replicate 4 x00 ++ replicate 4 x00 ++ replicate 44 x00). rewrite !len_le_bytes, Hm. cbn [Z.of_nat]. zslices. rewrite <- ?app_assoc, ?app_nil_l. zslices. by rewrite <- ?app_assoc, ?app_nil_l.
Qed.
Lemma len_topk_header k w d : len (topk_header k w d) = 64.
Proof. rewrite topk_header_eq, !len_app, !len_le_bytes, !len_replicate. done. Qed.

Lemma zslice_zeros n a b : 0 <= a -> a <= b -> b <= Z.of_nat n -> zslice (replicate n x00) a b = replicate (Z.to_nat (b - a)) x00.
Proof. intros Ha Hab Hb. unfold zslice. rewrite ztake_take, zdrop_drop, drop_replicate, take_replicate. f_equal. lia. Qed.
Lemma cms_bytes_zeros n : cms_bytes (replicate n 0) = replicate (8 * n) x00.
Proof.
  unfold cms_bytes. induction n as [|n IH]; [done|]. cbn [replicate]. change ((0 :: replicate n 0) ≫= le_bytes 8) with (le_bytes 8 0 ++ (replicate n 0 ≫= le_bytes 8)). rewrite IH. change (le_bytes 8 0) with (replicate 8 x00). rewrite <- replicate_add. f_equal. lia.
Qed.

Lemma fresh_topk_state k w d : limits k w d -> topk_file (fresh_topk k w d) k w d (replicate (Z.to_nat (w * d)) 0) [] /\ counts (replicate (Z.to_nat (w * d)) 0) w d [] /\ tracks k w d [] ∅ /\ holds_map [] ∅.
Proof.
  intros Hl. pose proof Hl as [Hk Hw Hd Hwd]. pose proof (len_topk_header k w d) as Lh. pose proof (starts_range k w d Hl) as (S1 & S2 & _). assert (0 < w * d) as Hp by nia.
  assert (forall a b, 0 <= a -> a <= b -> b <= 64 -> zslice (fresh_topk k w d) a b = zslice (topk_header k w d) a b) as Hs by (intros; apply zslice_app_take; lia). split; [|split; [|split]].
  - pose proof (len_le_bytes 4 k). pose proof (len_le_bytes 4 w). pose proof (len_le_bytes 4 d). assert (len TOPK_MAGIC = 8) as Hm by done. split.
    1-4: (rewrite Hs, topk_header_eq by lia; by zslices).
    + rewrite Hs, topk_header_eq by lia. change (replicate 44 x00) with (replicate 4 x00 ++ replicate 40 x00). by zslices.
    + rewrite Hs, topk_header_eq by lia. change (replicate 44 x00) with (replicate 4 x00 ++ replicate 40 x00). by zslices.
    + done.
    + unfold fresh_topk. rewrite len_app, len_replicate, Lh. unfold token_start, heap_start, TOPK_HEADER_SIZE, HEAP_ENTRY_SIZE, TOKEN_SIZE in *. lia.
    + unfold fresh_topk. rewrite zslice_app_skip by (rewrite Lh; done). rewrite Lh, cms_bytes_zeros. unfold heap_start, TOPK_HEADER_SIZE, HEAP_ENTRY_SIZE, TOKEN_SIZE in *. rewrite zslice_zeros by lia. f_equal. lia.
    + rewrite len_replicate. lia.
    + apply Forall_replicate. unfold i64_ok, i64_max. lia.
    + cbn [len]. unfold zslice. change (len (@nil V2HeapEntry)) with 0. rewrite ztake_0 by lia. done.
    + constructor.
    + constructor.
    + change (len (@nil V2HeapEntry)) with 0. lia.
  - split; [rewrite len_replicate; lia|]. intros r col Hr Hc. cbn [cell_total foldr]. apply lookup_replicate. split; [done|nia].
  - split; [intros x c; by rewrite lookup_empty|rewrite map_size_empty; lia|]. intros y Hy. by apply elem_of_nil in Hy.
  - intros x c. rewrite lookup_empty. split; [done|]. intros [i Hi]. by rewrite lookup_nil in Hi.
Qed.

Lemma topk_create_healthy path k w d files : limits k w d -> topk_file_create_v2 path k w d (mkWorld files []) = (Ok tt, mkWorld (<[path := fresh_topk k w d]> files) []).
Proof.
  intros Hl. pose proof Hl as [Hk Hw Hd Hwd]. assert (0 < w * d) as Hp by nia. unfold topk_file_create_v2. rewrite (proj2 (Z.eqb_neq k 0)), (proj2 (Z.eqb_neq w 0)), (proj2 (Z.eqb_neq d 0)) by lia. rewrite (layout_limits k w d Hl), sbind_slift_Ok. cbn [tl_file_size].
  etrans; [|exact (create_sidecar_healthy path (topk_header k w d) (Z.to_nat (w * d * 8 + k * HEAP_ENTRY_SIZE + TOKEN_SIZE)) files)]. f_equal. rewrite len_topk_header. unfold token_start, heap_start, TOPK_HEADER_SIZE, HEAP_ENTRY_SIZE, TOKEN_SIZE. lia.
Qed.

(** ** Reads *)

Section Reads.
Variables (path : string) (files : gmap string bytes) (data : bytes) (k w d : Z) (cs : list Z) (es : list V2HeapEntry).
Hypotheses (Ed : files !! path = Some data) (Hf : topk_file data k w d cs es).

Lemma topk_list_healthy : topk_file_list_v2 path (mkWorld files []) = (ReplyOk (map he_element (sorted_entries es)), mkWorld files []).
Proof using Ed Hf.
  unfold topk_file_list_v2. rewrite (proj2 (topk_open_healthy path files data _ Ed)). unfold list_body. rewrite (sbind_Ok _ _ _ _ _ (topk_header_healthy path files data k w d cs es Ed Hf)).
  by rewrite (sbind_Ok _ _ _ _ _ (read_heap_healthy path files data k w d cs es Ed Hf)).
Qed.

Lemma topk_query_healthy ys : topk_file_query_v2 path ys (mkWorld files []) = (ReplyOk (map (fun y => if bool_decide (y ∈ map he_element es) then 1 else 0) ys), mkWorld files []).
Proof using Ed Hf.
  unfold topk_file_query_v2. rewrite (proj2 (topk_open_healthy path files data _ Ed)). unfold query_body. rewrite (sbind_Ok _ _ _ _ _ (topk_header_healthy path files data k w d cs es Ed Hf)).
  rewrite (sbind_Ok _ _ _ _ _ (read_heap_healthy path files data k w d cs es Ed Hf)). unfold sret, reply_of. do 2 f_equal. apply map_ext. intros y.
  assert (existsb (fun e => bytes_eqb (he_element e) y) es = bool_decide (y ∈ map he_element es)) as ->; [|done]. apply eq_true_iff_eq. rewrite bool_decide_eq_true, existsb_exists. setoid_rewrite <- list_elem_of_In. rewrite list_elem_of_fmap. split.
  - intros (e & He & E). exists e. split; [|done]. by destruct (bytes_eqb_spec (he_element e) y).
  - intros (e & -> & He). exists e. split; [done|]. by destruct (bytes_eqb_spec (he_element e) (he_element e)).
Qed.

Lemma topk_count_healthy H ys : 0 < w -> counts cs w d H -> topk_file_count_v2 path ys (mkWorld files []) = (ReplyOk (map (spec_estimate w d H) ys), mkWorld files []).
Proof using Ed Hf.
  intros Hw Hc. unfold topk_file_count_v2. rewrite (proj2 (topk_open_healthy path files data _ Ed)). unfold count_body. rewrite (sbind_Ok _ _ _ _ _ (topk_header_healthy path files data k w d cs es Ed Hf)).
  rewrite (sbind_Ok _ _ _ _ _ (read_cms_healthy path files data k w d cs es Ed Hf)).
  assert (with_estimates cs w d ys = Ok (map (fun y => (y, spec_estimate w d H y)) ys)) as ->.
  { induction ys as [|y ys IH]; [done|]. cbn [with_estimates map]. rewrite (estimate_ok cs w d H y Hw Hc). cbn [rbind]. by rewrite IH. }
  rewrite sbind_slift_Ok. unfold sret, reply_of. by rewrite map_map.
Qed.
End Reads.

(** ** The guarantee *)

Lemma state_listed es M : NoDup (map he_element es) -> holds_map es M -> let listed := map he_element (sorted_entries es) in
  NoDup listed /\ len listed = Z.of_nat (size M) /\ (forall y, y ∈ listed <-> y ∈ map he_element es) /\ forall y, y ∈ listed <-> is_Some (M !! y).
Proof.
  intros Hn Hm listed. assert (listed ≡ₚ map he_element es) as Hp by (apply Permutation_map, merge_sort_Permutation). split; [by rewrite Hp|]. split.
  { unfold len. rewrite (holds_map_size es M Hn Hm). f_equal. rewrite (Permutation_length Hp). apply length_map. }
  split; intros y; rewrite Hp; [done|]. rewrite list_elem_of_fmap. split.
  - intros ([x c] & -> & [i Hi]%list_elem_of_lookup). exists c. apply Hm. by exists i.
  - intros [c [i Hi]%Hm]. exists (mkV2HeapEntry y c). split; [done|]. by apply list_elem_of_lookup_2 with i.
Qed.

(** C38: what a top-k list promises.  After any batches of increments on a new list, as long as
    all increments together fit 64 bits, the listed elements are at most k, each of them
    was added, and queries agree with the list.  A count is at least what the element was
    given and at most what was given to all elements.  An element that was added and is not
    listed was outdone: the list is full, and every listed element has a count that is no
    smaller than what the missing one was given. *)
Theorem topk_guarantee path k w d batches files :
  limits k w d -> Forall (Forall update_ok) batches -> total_of (concat batches) <= i64_max ->
  exists w1 w2 rss listed,
    topk_file_create_v2 path k w d (mkWorld files []) = (Ok tt, w1) /\ run_batches path batches w1 = (map ReplyOk rss, w2) /\
    topk_file_list_v2 path w2 = (ReplyOk listed, w2) /\ NoDup listed /\ len listed <= k /\ (forall x, x ∈ listed -> x ∈ (concat batches).*1) /\
    forall y, topk_file_query_v2 path [y] w2 = (ReplyOk [if bool_decide (y ∈ listed) then 1 else 0], w2) /\
      (exists est, topk_file_count_v2 path [y] w2 = (ReplyOk [est], w2) /\ true_count (concat batches) y <= est <= total_of (concat batches)) /\
      (y ∈ (concat batches).*1 -> y ∉ listed ->
       len listed = k /\ forall x, x ∈ listed -> exists est, topk_file_count_v2 path [x] w2 = (ReplyOk [est], w2) /\ true_count (concat batches) y <= est).
Proof.
  intros Hl Hu Hs. destruct (fresh_topk_state k w d Hl) as (Hf0 & Hc0 & Ht0 & Hm0). pose proof Hl as [_ Hw Hd _]. set (H := concat batches) in *. assert (positive H) as Hp by (apply Forall_concat; eapply Forall_impl; [exact Hu|apply positive_updates]).
  destruct (run_batches_tracks path k w d batches Hu (<[path := fresh_topk k w d]> files) (fresh_topk k w d) (replicate (Z.to_nat (w * d)) 0) ∅ [] (lookup_insert_eq _ _ _)) as (rss & data & cs & M & E & (es & Hf & Hm) & Hc & [Hin Hsz Hout]);
    [by exists []|done|done|constructor|cbn [total_of foldr]; fold H; lia|]. cbn [app] in *. rewrite insert_insert_eq in E. set (files2 := <[path := data]> files) in *. assert (files2 !! path = Some data) as Ed by apply lookup_insert_eq.
  destruct (state_listed es M (tk_nodup _ _ _ _ _ _ Hf) Hm) as (Hn & Hlen & Hq & Hmem). set (listed := map he_element (sorted_entries es)) in *.
  assert (forall y, topk_file_count_v2 path [y] (mkWorld files2 []) = (ReplyOk [spec_estimate w d H y], mkWorld files2 [])) as Hcount by (intros y; by apply (topk_count_healthy path files2 data k w d cs es Ed Hf H [y] Hw Hc)).
  eexists _, (mkWorld files2 []), rss, listed. split; [by apply topk_create_healthy|]. split; [exact E|]. split; [exact (topk_list_healthy path files2 data k w d cs es Ed Hf)|]. split; [done|]. split; [lia|]. split.
  { intros x [c Hx]%Hmem. by destruct (Hin x c Hx). }
  intros y. split; [|split].
  - rewrite (topk_query_healthy path files2 data k w d cs es Ed Hf [y]). cbn [map]. by rewrite (bool_decide_ext _ _ (Hq y)).
  - exists (spec_estimate w d H y). split; [done|]. by apply estimate_bounds.
  - intros Hy Hny. assert (M !! y = None) as HMy by (apply eq_None_not_Some; by rewrite <- Hmem). destruct (Hout y Hy HMy) as [Hk Hle]. split; [lia|]. intros x [c Hx]%Hmem. exists (spec_estimate w d H x). split; [done|].
    specialize (Hle x c Hx). destruct (Hin x c Hx) as (_ & _ & Hce). exact (Z.le_trans _ _ _ Hle Hce).
Qed.

(** ** Receipts *)

Definition result_bytes (r : option bytes) : bytes := match r with None => le_bytes 4 u32_max | Some value => le_bytes 4 (len value) ++ value end.
Definition results_bytes (rs : list (option bytes)) : bytes := rs ≫= result_bytes.
Definition result_ok (r : option bytes) : Prop := forall y, r = Some y -> len y <= MAX_ELEMENT_LEN.

Lemma len_result_bytes r : result_ok r -> 4 <= len (result_bytes r) <= 256.
Proof. intros H. destruct r as [y|]; cbn [result_bytes]; [|done]. rewrite len_app, len_le_bytes. specialize (H y eq_refl). unfold MAX_ELEMENT_LEN in H. pose proof (len_nonneg y). lia. Qed.
Lemma results_bytes_cons r rs : results_bytes (r :: rs) = result_bytes r ++ results_bytes rs.
Proof. done. Qed.
Lemma len_results_bytes rs : Forall result_ok rs -> len (results_bytes rs) <= 256 * len rs.
Proof. induction 1 as [|r rs Hr _ IH]; [done|]. rewrite results_bytes_cons, len_app, len_cons. pose proof (len_result_bytes r Hr). lia. Qed.

Lemma evicted_encode_ok rs : Forall result_ok rs -> encode_results rs = Ok (results_bytes rs).
Proof.
  induction 1 as [|r rs Hr _ IH]; [done|]. rewrite results_bytes_cons. destruct r as [y|]; cbn [encode_results result_bytes]; rewrite IH; cbn [rbind]; [|done]. specialize (Hr y eq_refl). unfold MAX_ELEMENT_LEN in Hr.
  rewrite (proj2 (Z.ltb_ge _ _)) by (change u32_max with 4294967295; lia). by rewrite <- app_assoc.
Qed.
Lemma payload_size_ok rs : Forall result_ok rs -> forall n, 0 <= n -> n + len (results_bytes rs) <= u64_max -> payload_size rs n = Some (n + len (results_bytes rs)).
Proof.
  induction 1 as [|r rs Hr _ IH]; intros n Hn Hs; cbn [payload_size]; [f_equal; change (len (results_bytes [])) with 0; lia|]. rewrite results_bytes_cons, len_app in *. pose proof (len_result_bytes r Hr) as Hb. pose proof (len_nonneg (results_bytes rs)). unfold checked_add64.
  rewrite (proj2 (Z.leb_le _ _)) by lia. destruct r as [y|]; cbn [result_bytes] in *.
  - rewrite len_app, len_le_bytes in *. pose proof (len_nonneg y). rewrite (proj2 (Z.leb_le _ _)) by lia. rewrite IH by lia. f_equal. lia.
  - rewrite len_le_bytes in *. rewrite IH by lia. f_equal. lia.
Qed.

Lemma encode_mutation_results_ok rs : Forall result_ok rs -> len rs <= u32_max -> v2_encode_mutation_results rs = Ok (le_bytes 4 (len rs) ++ results_bytes rs).
Proof.
  intros Hr Hn. unfold v2_encode_mutation_results. rewrite (proj2 (Z.ltb_ge _ _)) by done. pose proof (len_results_bytes rs Hr). assert (u64_max = 18446744073709551615) as Hu64 by done. assert (u32_max = 4294967295) as Hu32 by done.
  rewrite payload_size_ok by (done || lia). cbn [ok_or rbind]. by rewrite evicted_encode_ok.
Qed.

Lemma decode_results_ok rs : Forall result_ok rs -> forall pre rest, len pre + len (results_bytes rs) <= u64_max ->
  decode_results (pre ++ results_bytes rs ++ rest) (length rs) (len pre) = Ok (rs, len pre + len (results_bytes rs)).
Proof.
  induction 1 as [|r rs Hr _ IH]; intros pre rest Hs; cbn [decode_results length]; [do 2 f_equal; change (len (results_bytes [])) with 0; lia|]. rewrite results_bytes_cons, len_app in *. pose proof (len_result_bytes r Hr) as Hb. pose proof (len_nonneg (results_bytes rs)). pose proof (len_nonneg pre). pose proof (len_nonneg rest).
  unfold checked_add64. rewrite (proj2 (Z.leb_le _ _)) by lia. cbn [ok_or rbind]. specialize (IH (pre ++ result_bytes r) rest). rewrite len_app, <- !app_assoc in IH. specialize (IH ltac:(lia)). rewrite <- !app_assoc. destruct r as [y|]; cbn [result_bytes] in *.
  - pose proof (len_le_bytes 4 (len y)) as L4. change (Z.of_nat 4) with 4 in L4. rewrite len_app in *. pose proof (len_nonneg y). specialize (Hr y eq_refl). unfold MAX_ELEMENT_LEN in Hr. rewrite <- !app_assoc in *. rewrite get_range_Some by (rewrite ?len_app; lia). zslices. cbn [ok_or rbind].
    rewrite le_val_le_bytes, Z.mod_small by (change (256 ^ Z.of_nat 4) with 4294967296; lia). rewrite (proj2 (Z.eqb_neq _ _)) by (change u32_max with 4294967295; lia). rewrite (proj2 (Z.ltb_ge _ _)) by (unfold MAX_ELEMENT_LEN; lia).
    rewrite (proj2 (Z.leb_le _ _)) by lia. cbn [ok_or rbind]. rewrite get_range_Some by (rewrite ?len_app; lia). zslices. cbn [ok_or rbind]. replace (len pre + 4 + len y) with (len pre + (len (le_bytes 4 (len y)) + len y)) by lia. rewrite IH. cbn [rbind]. do 2 f_equal. lia.
  - assert (len (le_bytes 4 u32_max) = 4) as L4 by done. rewrite get_range_Some by (rewrite ?len_app; lia). zslices. cbn [ok_or rbind]. change (le_val (le_bytes 4 u32_max) =? u32_max) with true. cbv iota. rewrite L4 in *. rewrite IH. cbn [rbind]. do 2 f_equal. lia.
Qed.

(** What a receipt stores is what a replay answers. *)
Lemma decode_mutation_results_ok rs : Forall result_ok rs -> len rs <= u32_max -> v2_decode_mutation_results (le_bytes 4 (len rs) ++ results_bytes rs) (len rs) = Ok rs.
Proof.
  intros Hr Hn. pose proof (len_le_bytes 4 (len rs)) as L4. change (Z.of_nat 4) with 4 in L4. pose proof (len_nonneg (results_bytes rs)). pose proof (len_nonneg rs). pose proof (len_results_bytes rs Hr). assert (u64_max = 18446744073709551615) as Hu64 by done. assert (u32_max = 4294967295) as Hu32 by done.
  unfold v2_decode_mutation_results. rewrite get_range_Some by (rewrite ?len_app; lia). zslices. cbn [ok_or rbind]. rewrite le_val_le_bytes, Z.mod_small by (change (256 ^ Z.of_nat 4) with 4294967296; lia). rewrite Z.eqb_refl. cbn [negb].
  pose proof (decode_results_ok rs Hr (le_bytes 4 (len rs)) [] ltac:(lia)) as E. rewrite app_nil_r, L4 in E. replace (Z.to_nat (len rs)) with (length rs) by (unfold len; lia). rewrite E. cbn [rbind]. by rewrite len_app, L4, Z.eqb_refl.
Qed.

(** ** Entries *)

Section Entries.
Context `{C : Crc32fast} {CL : Crc32fastLaws C}.

Lemma topk_footer data k w d cs es token : topk_file data k w d cs es -> topk_file (overwrite data (token_start k w d) (token_encode token)) k w d cs es.
Proof using Type.
  intros [H1 H2 H3 H4 H5 H6 Hl Hlen Hcs Hcl Hco He Heo Hn Hel]. pose proof (starts_range k w d Hl) as (S1 & S2 & _). pose proof (len_token_encode token) as Ht. assert (token_start k w d = heap_start w d + k * 264) as Et by done. assert (heap_start w d = 64 + w * d * 8) as Eh by done. unfold TOKEN_SIZE in *.
  pose proof (len_nonneg es). unfold HEAP_ENTRY_SIZE, TOPK_HEADER_SIZE in *. assert (len es * 264 <= k * 264) by lia. split; try done; unfold HEAP_ENTRY_SIZE, TOPK_HEADER_SIZE; rewrite ?overwrite_before by lia; try done. rewrite len_overwrite by lia. unfold TOKEN_SIZE. lia.
Qed.

Lemma topk_transaction_ok data k w d cs es cs' es' token result : topk_file data k w d cs es -> len cs' = w * d -> Forall entry_ok es' -> len es' <= k -> token_ok token -> len result <= 500000000 ->
  transaction_ok (mutation (token_start k w d) (token_start k w d + TOKEN_SIZE) token (plan_images_of w d cs' es') result).
Proof using Type.
  intros Hf Hcl Heo Hel Ht Hr. destruct (patched_plan data k w d cs es cs' es' Hf Hcl Heo Hel) as (_ & Hi & H3 & Hb). pose proof (tk_limits _ _ _ _ _ _ Hf) as Hl. pose proof (starts_range k w d Hl) as (S1 & S2 & _). pose proof Hl as [Hk Hw Hd Hwd].
  assert (token_start k w d = 64 + w * d * 8 + k * 264) as Et by done. unfold MAX_TOPK_K, MAX_TOPK_CMS_COUNTERS, HEAP_ENTRY_SIZE in *. assert (u64_max = 18446744073709551615) as Hu64 by done. pose proof (len_nonneg result).
  split; cbn [mutation tn_token tn_token_offset tn_expected_file_size tn_images tn_result]; try done; try (unfold u64_ok, TOKEN_SIZE; lia).
  - rewrite len_app, len_cons, len_nil. unfold MAX_AFTER_IMAGES. lia.
  - apply mutation_images_ok; [lia|done|done].
  - rewrite len_transaction_content. cbn [mutation tn_images tn_result]. unfold images_bytes in *. rewrite bind_app, concat_app, len_app. cbn [mbind list_bind app image_chunks concat token_image ai_offset ai_bytes].
    rewrite !len_app, !len_le_bytes, len_token_encode, len_nil. unfold MAX_TRANSACTION_BYTES, CHECKSUM_SIZE, TOKEN_SIZE. lia.
Qed.

Lemma incrby_at_mutates path receipt_path ups index ordinal w : Forall update_ok ups -> topk_file_incrby_v2_at path receipt_path ups index ordinal w = mutate_at path receipt_path ups index ordinal w.
Proof using Type. intros [E1 E2]%updates_accepted. unfold topk_file_incrby_v2_at. by rewrite E1, E2. Qed.

(** A call up to the decision on its token. *)
Lemma mutate_at_decides path receipt_path ups token files data k w d cs es decision files1 : files !! path = Some data -> topk_file data k w d cs es -> mt_index token <> 0 ->
  begin_ path receipt_path token (token_start k w d) (token_start k w d + TOKEN_SIZE) (mkWorld files []) = (Ok decision, mkWorld files1 []) ->
  mutate_at path receipt_path ups (mt_index token) (mt_ordinal token) (mkWorld files []) = reply_of (match decision with
    | Replay result => slift (v2_decode_mutation_results result (len ups)) (mkWorld files1 [])
    | Stale => slift (v2_stale_mutation_results (len ups)) (mkWorld files1 [])
    | Apply =>
      (let! plan := v2_stage_mutation path ups in
      let! encoded_result := slift (v2_encode_mutation_results (mp_results plan)) in
      let! _ := commit path receipt_path token (token_start k w d) (token_start k w d + TOKEN_SIZE) (mp_images plan) encoded_result in
      sret (mp_results plan)) (mkWorld files1 []) end).
Proof using Type.
  intros Ed Hf Hne E. pose proof (tk_limits _ _ _ _ _ _ Hf) as Hl. unfold mutate_at. unfold token_eqb at 1. cbn [mt_index mt_ordinal ZERO]. rewrite (proj2 (Z.eqb_neq _ _) Hne). cbn [andb]. replace (mkMutationToken (mt_index token) (mt_ordinal token)) with token by (by destruct token).
  rewrite (proj1 (topk_open_healthy path files data _ Ed)). unfold v2_transactional_mutation. rewrite (sbind_Ok _ _ _ _ _ (topk_header_healthy path files data k w d cs es Ed Hf)). rewrite (layout_limits k w d Hl), sbind_slift_Ok. cbn [tl_token_offset tl_file_size].
  rewrite (sbind_Ok _ _ _ _ _ (effective_token_log _ _ _ _ _ _ Hne)). rewrite (sbind_Ok _ _ _ _ _ E). by destruct decision.
Qed.

(** A call with a new token: the batch is committed under it, or a counter overflows and the
    sidecar stays as it was. *)
Lemma topk_at_applies path receipt_path ups token files data k w d cs M :
  separate path receipt_path -> topk_state data k w d cs M -> settled path receipt_path (token_start k w d) (token_start k w d + TOKEN_SIZE) files data ->
  Forall update_ok ups -> len ups <= 1900000 -> token_ok token -> mt_index token <> 0 -> token_cmp (token_at data (token_start k w d)) token = Lt ->
  (exists evs data' es' cs' files1, mutate path ups (mkWorld files []) = (ReplyOk evs, mkWorld (<[path := data']> files) []) /\ topk_file data' k w d cs' es' /\ Forall result_ok evs /\ len evs = len ups /\
     mutate_at path receipt_path ups (mt_index token) (mt_ordinal token) (mkWorld files []) = (ReplyOk evs, mkWorld files1 []) /\
     answered path receipt_path (token_start k w d) (token_start k w d + TOKEN_SIZE) files1 (overwrite data' (token_start k w d) (token_encode token)) token (le_bytes 4 (len evs) ++ results_bytes evs)) \/
  (exists e files1, mutate path ups (mkWorld files []) = (ReplyError e, mkWorld files []) /\ mutate_at path receipt_path ups (mt_index token) (mt_ordinal token) (mkWorld files []) = (ReplyError e, mkWorld files1 []) /\ files1 !! path = Some data).
Proof using CL.
  intros Hsep Hs Hst Hu Hn Ht Hne Hc. pose proof Hs as (es & Hf & Hm). pose proof (tk_limits _ _ _ _ _ _ Hf) as Hl. pose proof (starts_range k w d Hl) as (S1 & S2 & _). pose proof Hl as [Hk Hw Hd Hwd]. unfold MAX_TOPK_K, MAX_TOPK_CMS_COUNTERS in *. pose proof Hst as (Ed & _).
  assert (token_start k w d = 64 + w * d * 8 + k * 264) as Et by done. assert (u64_max = 18446744073709551615) as Hu64 by done. assert (0 <= token_start k w d) as H0 by lia. assert (token_start k w d + TOKEN_SIZE <= u64_max) as H1 by (unfold TOKEN_SIZE; lia).
  assert (Forall (fun u => len u.1 <= MAX_ELEMENT_LEN) ups) as Hul by (eapply Forall_impl; [exact Hu|by intros u [_ ?]]). destruct (begin_settled path receipt_path (token_start k w d) (token_start k w d + TOKEN_SIZE) Hsep H0 eq_refl H1 token files data Hst Hc) as (files0 & E0 & (Ed0 & Hl0 & _)).
  pose proof (mutate_at_decides path receipt_path ups token files data k w d cs es Apply files0 Ed Hf Hne E0) as Erun. cbv iota in Erun. rewrite Erun. unfold mutate. rewrite (proj1 (topk_open_healthy path files data _ Ed)).
  destruct (stage_healthy path data k w d cs M ups Hs Hul) as [(cs' & M' & evs & es' & E & Hr & Hf' & Hm' & Ep & _)|(e & E & Ho)]; [left|right].
  2:{ exists e, files0. by rewrite (sbind_Err _ _ _ _ _ (E files Ed)), (sbind_Err _ _ _ _ _ (E files0 Ed0)). }
  destruct (run_range _ _ _ _ _ _ _ _ _ Hw (tk_cs_len _ _ _ _ _ _ Hf) Hr Hul (tk_cs_ok _ _ _ _ _ _ Hf) (entries_map_ok _ _ Hm (tk_es_ok _ _ _ _ _ _ Hf))) as (_ & _ & _ & Hel & Hev).
  pose proof (tk_cs_len _ _ _ _ _ _ Hf') as Hcl'. pose proof (tk_es_ok _ _ _ _ _ _ Hf') as Heo'. pose proof (tk_es_len _ _ _ _ _ _ Hf') as Hel'. destruct (patched_plan data k w d cs es cs' es' Hf Hcl' Heo' Hel') as (_ & Hi & _).
  assert (len (le_bytes 4 (len evs) ++ results_bytes evs) <= 500000000) as Hrl by (rewrite len_app, len_le_bytes; pose proof (len_results_bytes evs Hev); lia).
  destruct (mutation_commit_healthy path receipt_path (token_start k w d) (token_start k w d + TOKEN_SIZE) Hsep H0 eq_refl H1 token _ _ files0 data Hi Ed0 Hl0 (topk_transaction_ok data k w d cs es cs' es' token _ Hf Hcl' Heo' Hel' Ht Hrl)) as (files1 & E1 & Hans).
  unfold mutated in Hans. rewrite patched_app, Ep in Hans. exists evs, (updated_topk data w d cs' es'), es', cs', files1. rewrite (sbind_Ok _ _ _ _ _ (E files Ed)), (sbind_Ok _ _ _ _ _ (E files0 Ed0)). cbn [mp_results mp_images].
  assert (token_start k w d <= len data) as Hlen by (rewrite (tk_len _ _ _ _ _ _ Hf); unfold TOKEN_SIZE; lia). split.
  { unfold v2_apply_mutation_plan, sbind. cbn [mp_images]. rewrite (write_images_healthy path (token_start k w d) _ files data Ed Hi Hlen). by rewrite fsync_healthy, Ep. }
  split; [done|]. split; [done|]. split; [done|]. split; [|exact Hans]. rewrite encode_mutation_results_ok by (done || (change u32_max with 4294967295; lia)). rewrite sbind_slift_Ok. by rewrite (sbind_Ok _ _ _ _ _ E1).
Qed.

(** C40: a batch of increments is applied once.  Under a new token it gives the reply of the
    plain operation and leaves its file, with the token; a batch that a counter refuses
    leaves the list as it was.  The same entry again answers with the evicted elements of
    the first time and changes nothing, although the list has moved on, and an older entry
    reports no eviction and changes nothing. *)
Theorem topk_entry_once path receipt_path ups token files data k w d cs M :
  separate path receipt_path -> topk_state data k w d cs M -> settled path receipt_path (token_start k w d) (token_start k w d + TOKEN_SIZE) files data ->
  Forall update_ok ups -> len ups <= 1900000 -> token_ok token -> mt_index token <> 0 -> token_cmp (token_at data (token_start k w d)) token = Lt ->
  exists r data' files1,
    topk_file_incrby_v2 path ups (mkWorld files []) = (r, mkWorld (<[path := data']> files) []) /\
    topk_file_incrby_v2_at path receipt_path ups (mt_index token) (mt_ordinal token) (mkWorld files []) = (r, mkWorld files1 []) /\
    ((exists e, r = ReplyError e /\ data' = data /\ files1 !! path = Some data) \/
     (exists evs files2, r = ReplyOk evs /\ files1 !! path = Some (overwrite data' (token_start k w d) (token_encode token)) /\
       topk_file_incrby_v2_at path receipt_path ups (mt_index token) (mt_ordinal token) (mkWorld files1 []) = (r, mkWorld files2 []) /\ files2 !! path = files1 !! path /\
       forall ups' old, Forall update_ok ups' -> token_ok old -> mt_index old <> 0 -> token_cmp old token = Lt -> exists files3,
         topk_file_incrby_v2_at path receipt_path ups' (mt_index old) (mt_ordinal old) (mkWorld files2 []) = (ReplyOk (replicate (length ups') None), mkWorld files3 []) /\ files3 !! path = files1 !! path)).
Proof using CL.
  intros Hsep Hs Hst Hu Hn Ht Hne Hc. rewrite incrby_mutates by done. rewrite incrby_at_mutates by done. pose proof Hst as (Ed & _).
  destruct (topk_at_applies path receipt_path ups token files data k w d cs M Hsep Hs Hst Hu Hn Ht Hne Hc) as [(evs & data' & es' & cs' & files1 & E & Hf' & Hev & Hel & E1 & Hans)|(e & files1 & E & E1 & Ed1)].
  2:{ exists (ReplyError e), data, files1. rewrite insert_id by done. split; [done|]. split; [done|]. left. by exists e. }
  pose proof (tk_limits _ _ _ _ _ _ Hf') as Hl. pose proof (starts_range k w d Hl) as (S1 & S2 & _). pose proof Hl as [Hk Hw Hd Hwd]. unfold MAX_TOPK_K, MAX_TOPK_CMS_COUNTERS in *. assert (token_start k w d = 64 + w * d * 8 + k * 264) as Et by done.
  assert (u64_max = 18446744073709551615) as Hu64 by done. assert (0 <= token_start k w d) as H0 by lia. assert (token_start k w d + TOKEN_SIZE <= u64_max) as H1 by (unfold TOKEN_SIZE; lia). pose proof (topk_footer data' k w d cs' es' token Hf') as Hff. pose proof Hans as (Ed1 & _).
  destruct (begin_answered path receipt_path (token_start k w d) (token_start k w d + TOKEN_SIZE) Hsep H0 eq_refl H1 files1 _ token _ Hans) as (files2 & E2 & Hans2). pose proof Hans2 as (Ed2 & _ & Et2 & _).
  exists (ReplyOk evs), data', files1. split; [done|]. split; [done|]. right. exists evs, files2. split; [done|]. split; [done|]. rewrite incrby_at_mutates by done. split; [|split; [by rewrite Ed1, Ed2|]].
  - rewrite (mutate_at_decides path receipt_path ups token files1 _ k w d cs' es' _ files2 Ed1 Hff Hne E2). cbv iota. rewrite <- Hel, decode_mutation_results_ok by (done || (change u32_max with 4294967295; lia)). done.
  - intros ups' old Hu' Ho Hone Hlt. destruct (begin_stale path receipt_path (token_start k w d) (token_start k w d + TOKEN_SIZE) Hsep H0 eq_refl H1 old files2 _ (answered_settled _ _ _ _ _ _ _ _ Hans2)) as (files3 & E3 & (Ed3 & _)); [by rewrite Et2|].
    exists files3. split; [|by rewrite Ed3, Ed1]. rewrite incrby_at_mutates by done. rewrite (mutate_at_decides path receipt_path ups' old files2 _ k w d cs' es' _ files3 Ed2 Hff Hone E3). cbv iota. unfold v2_stale_mutation_results. replace (Z.to_nat (len ups')) with (length ups') by (unfold len; lia). done.
Qed.
End Entries.

(** ** Witnesses *)

Module TopKExample.
#[local] Existing Instance crc32_iso_hdlc.

Definition batches : list (list (bytes * Z)) := [[(lit "a", 3); (lit "b", 1)]; [(lit "c", 2); (lit "b", 5)]].
Definition data : bytes := fresh_topk 2 4 2.
Definition files : gmap string bytes := {["f" := data]}.
Definition entry : MutationToken := mkMutationToken 7 1.
Definition counters : list Z := replicate 8 0.

Lemma topk_limits : limits 2 4 2.
Proof. split; vm_compute; try split; done || discriminate. Qed.
Lemma topk_new : topk_state data 2 4 2 counters ∅.
Proof. destruct (fresh_topk_state 2 4 2 topk_limits) as (H1 & _ & _ & H2). by exists []. Qed.
Lemma topk_sep : separate "f" "f".
Proof. split; discriminate. Qed.
Lemma topk_settled : settled "f" "f" (token_start 2 4 2) (token_start 2 4 2 + TOKEN_SIZE) files data.
Proof. split; [reflexivity|]. split; [vm_compute; reflexivity|exact I]. Qed.
Lemma updates_fine : Forall (Forall update_ok) batches.
Proof. repeat (apply Forall_cons; split); try apply Forall_nil; try done; repeat (apply Forall_cons; split); try apply Forall_nil; try done; split; vm_compute; done || discriminate. Qed.
End TopKExample.

Lemma topk_incrby_refines_witness :
  (exists evs cs' M' data', topk_file_incrby_v2 "f" [(lit "a", 3)] (mkWorld TopKExample.files []) = (ReplyOk evs, mkWorld (<["f" := data']> TopKExample.files) []) /\ updates_run 2 4 2 TopKExample.counters ∅ [(lit "a", 3)] cs' M' evs /\ topk_state data' 2 4 2 cs' M') \/
  (exists e, topk_file_incrby_v2 "f" [(lit "a", 3)] (mkWorld TopKExample.files []) = (ReplyError e, mkWorld TopKExample.files []) /\ overflows 2 4 2 TopKExample.counters ∅ [(lit "a", 3)]).
Proof.
  apply (topk_incrby_refines "f" [(lit "a", 3)] 2 4 2 TopKExample.counters ∅ TopKExample.files TopKExample.data); [reflexivity|exact TopKExample.topk_new|].
  apply Forall_cons; split; [split; vm_compute; done || discriminate|apply Forall_nil; done].
Defined.

Lemma topk_guarantee_witness : exists w1 w2 rss listed,
  topk_file_create_v2 "f" 2 4 2 (mkWorld ∅ []) = (Ok tt, w1) /\ run_batches "f" TopKExample.batches w1 = (map ReplyOk rss, w2) /\
  topk_file_list_v2 "f" w2 = (ReplyOk listed, w2) /\ NoDup listed /\ len listed <= 2 /\ (forall x, x ∈ listed -> x ∈ (concat TopKExample.batches).*1) /\
  forall y, topk_file_query_v2 "f" [y] w2 = (ReplyOk [if bool_decide (y ∈ listed) then 1 else 0], w2) /\
    (exists est, topk_file_count_v2 "f" [y] w2 = (ReplyOk [est], w2) /\ true_count (concat TopKExample.batches) y <= est <= total_of (concat TopKExample.batches)) /\
    (y ∈ (concat TopKExample.batches).*1 -> y ∉ listed ->
     len listed = 2 /\ forall x, x ∈ listed -> exists est, topk_file_count_v2 "f" [x] w2 = (ReplyOk [est], w2) /\ true_count (concat TopKExample.batches) y <= est).
Proof. apply (topk_guarantee "f" 2 4 2 TopKExample.batches ∅); [exact TopKExample.topk_limits|exact TopKExample.updates_fine|vm_compute; discriminate]. Defined.

Lemma topk_entry_once_witness : exists r data' files1,
  topk_file_incrby_v2 "f" [(lit "a", 3)] (mkWorld TopKExample.files []) = (r, mkWorld (<["f" := data']> TopKExample.files) []) /\
  @topk_file_incrby_v2_at crc32_iso_hdlc "f" "f" [(lit "a", 3)] 7 1 (mkWorld TopKExample.files []) = (r, mkWorld files1 []) /\
  ((exists e, r = ReplyError e /\ data' = TopKExample.data /\ files1 !! "f" = Some TopKExample.data) \/
   (exists evs files2, r = ReplyOk evs /\ files1 !! "f" = Some (overwrite data' (token_start 2 4 2) (token_encode TopKExample.entry)) /\
     @topk_file_incrby_v2_at crc32_iso_hdlc "f" "f" [(lit "a", 3)] 7 1 (mkWorld files1 []) = (r, mkWorld files2 []) /\ files2 !! "f" = files1 !! "f" /\
     forall ups' old, Forall update_ok ups' -> token_ok old -> mt_index old <> 0 -> token_cmp old TopKExample.entry = Lt -> exists files3,
       @topk_file_incrby_v2_at crc32_iso_hdlc "f" "f" ups' (mt_index old) (mt_ordinal old) (mkWorld files2 []) = (ReplyOk (replicate (length ups') None), mkWorld files3 []) /\ files3 !! "f" = files1 !! "f")).
Proof.
  apply (@topk_entry_once crc32_iso_hdlc _ "f" "f" [(lit "a", 3)] TopKExample.entry TopKExample.files TopKExample.data 2 4 2 TopKExample.counters ∅).
  - exact TopKExample.topk_sep.
  - exact TopKExample.topk_new.
  - exact TopKExample.topk_settled.
  - apply Forall_cons; split; [split; vm_compute; done || discriminate|apply Forall_nil; done].
  - vm_compute. discriminate.
  - vm_compute. repeat split; discriminate.
  - discriminate.
  - vm_compute. reflexivity.
Defined.
